(* ===== verification/_CoqProject ===== *)
-Q . S2P
Prelude.v
GoLang.v
Broadcast.v
Roles.v
Turns.v
Topology.v
TurnTimes.v
Float64.v
Header.v
Address.v
Transactions.v
CoinTx.v
Reader.v
Dpos.v
Crypto.v
TxSigning.v
SignHelper.v
LeaderMsgs.v
ReqCache.v
VotePool.v
LeaderCal.v
Cdc.v
Controller.v
ControllerProofs.v
LeaderSafety.v
CtrlManager.v
VerifyProcess.v
VerifySafety.v
VerifyVotes.v
VerifiedBlocks.v
VerifyManage.v
MatrixState.v
RewardUtil.v
RewardExec.v
Rlp.v
RlpStream.v
RlpCodec.v
RlpEncoding.v
RlpDecoding.v
RlpRoundtrip.v
Keccak.v
Sponge.v
TrieKeys.v
TrieNode.v
TrieDatabase.v
Trie.v
TrieHasher.v
TrieTree.v
TrieHashing.v
TrieMap.v
TrieCommit.v
TrieSpec.v
TrieProof.v
DeriveSha.v
SecureTrie.v
TrieDecode.v
TrieFlush.v
TrieRefs.v
TrieLife.v
TrieStore.v
BTree.v
BTreeSpec.v
BTreeRemove.v
BTreeMap.v
StateObject.v
StateStore.v
StateDB.v
StateSpec.v
StateStorage.v
StateJournal.v
StateOps.v
StateRefine.v
StateFlush.v
StateMain.v
StateCommit.v
StateBlock.v
StateCache.v
StateCacheLaws.v
StateExample.v
