(* ===== verification/Prelude.v ===== *)
(** * Verification of the MATRIX node

    This library models the core of a MATRIX node written in Go and proves what
    makes it correct: who leads a height and when, which signatures make a block
    or a re-election valid, what a validator may vote for, how the rewards of a
    block are shared, how transactions are signed and encoded, how values are
    serialised and hashed, how the state of the accounts changes and is taken back,
    and how it is kept in Merkle tries and on the disk.  Definitions follow the
    sources under [src/], function by function, and are executable.

    ** The parts and how they interact

    A height of the chain has a list of validators (the topology).  Its leader
    proposes a block; the other validators verify and sign it, and the block is
    valid once more than two thirds of them agreed.  If the leader stays silent,
    turn after turn of a re-election follows: the master of a turn inquires the
    others, collects their votes, and broadcasts a result that moves the height to
    its next consensus turn.  Every node runs one controller per height for this,
    and one process per height that verifies requests, collects votes and asks the
    miners to work; managers create, feed and drop them while the chain grows.
    The rewards of a finished block go to its leader, the previous miner, the
    elected nodes and the foundation.  Transactions, receipts and the state are
    serialised by RLP, hashed by Keccak-256 and summed up by the roots of tries,
    whose nodes wait in a database in memory until they are written to the disk.
    The state keeps the accounts in use as objects in front of such tries, with a
    journal that takes back what a failed call has done.

    ** Files

    - [Prelude]: machine integers with their wrap-around, outcomes of Go calls
      ([Ok], [Err], [Panic]) with their notation, indexing, tactics, hint bases
      and lemmas on lists that the components share.
    - [GoLang]: the contracts of [sort.Slice] and of ranging over a map, as classes
      with an instance each; theorems hold for every instance, so for
      every iteration order.  [Float64]: the float64 operations of the signature
      targets, on the floats of the standard library's [SpecFloat].
    - [Broadcast] ([mc/configfunc.go]): broadcast and re-election heights.
      [Roles] ([common/types.go], [mc/funcdef.go]): roles and positions.
      [Turns] ([mc/funcdef.go]): consensus turns.  [Topology] ([mc/funcdef.go]):
      topology and election graphs.
    - [TurnTimes] ([leaderelect2.0/turnTimes.go]): begin and end of turns.
    - [Header] ([params/manversion], [core/types/header.go]), [Reader]
      ([consensus/consensus.go]): versions, headers, the interface to the chain.
    - [Address] ([base58], [crc8]): printed addresses.
    - [Transactions], [CoinTx], [TxSigning] ([core/types/transaction*.go]): the
      forms of a transaction, grouping by currency, and the signer.
    - [Dpos] ([consensus/mtxdpos/mtxdpos.go]): the engine that accepts a hash, a
      block or a version by its signatures.
    - [Crypto] ([crypto/signature_cgo.go]), [SignHelper]
      ([accounts/signhelper/sign_helper.go]): signatures that carry a verdict,
      and signing on behalf of a deposit account.
    - [LeaderMsgs] ([mc/msgdef2.0.go], [leaderelect2.0/msgPool.go],
      [masterCache.go]), [LeaderCal] ([leaderCal.go]), [Cdc] ([cdc.go]),
      [Controller] ([controller.go], [ctrlHandle.go], [ctrlReelection.go]),
      [CtrlManager] ([ctrlManager.go], [leaderReElection.go]): the leader service.
      A handler is a function from controller to controller; messages it sends
      are appended to the outputs, timers are fields, the clock is a parameter.
      [Controller.run_step] is one event of a controller, [LeaderSafety.reachable]
      the states it can reach, and [CtrlManager.sys_step] a step of the service:
      the service loop and the controllers run in any interleaving, with the
      message channels of ten places between them; a controller that was closed
      goes on until it sees its quit signal.
      [ControllerProofs] holds the frames of the handlers, [LeaderSafety] the
      theorems about reachable controllers and a concrete run.
    - [ReqCache], [VotePool], [VerifyProcess], [VerifiedBlocks], [VerifyManage]
      ([blkverify/]): block verification, as a process with its caches of requests
      and early votes, the store of verified blocks, and the service in which the
      processes run in any interleaving.  Which engine counts the votes depends on
      the version of a header ([dposMode]).  [VerifySafety] and [VerifyVotes] hold
      the theorems about a process.
    - [MatrixState] ([core/matrixstate]), [RewardUtil] ([reward/util]),
      [RewardExec] ([reward/rewardexec] and its helpers): rewards, with the
      reserve for the previous miner threaded through the state.
    - [Rlp], [RlpStream], [RlpCodec] ([rlp/]): the encoder buffer, the splitting
      functions, the stream, and encoder and decoder over an inductive type of Go
      types that stands for reflection.  [RlpEncoding], [RlpDecoding] and
      [RlpRoundtrip] hold the theorems.
    - [Keccak], [Sponge] ([crypto/sha3/], [Keccak256] and [Keccak512] of
      [crypto/crypto.go]): the permutation as it is unrolled in the code beside
      the one of the standard, and the sponge with its buffer beside the one of
      the standard, which is over bits.
    - [TrieKeys], [TrieNode], [Trie], [TrieHasher] ([trie/encoding.go], [node.go],
      [trie.go], [hasher.go]): the trie.  A node is an inductive type with its
      cache flags; a hash stands for a node that is not loaded.  [TrieDatabase]
      ([trie/database.go], [mandb/memory_database.go]): the database, over a class
      for the disk.  [TrieProof] ([trie/proof.go]), [SecureTrie]
      ([trie/secure_trie.go]), [DeriveSha] ([core/types/derive_sha.go]): proofs,
      tries with hashed keys, roots of lists.
    - [TrieTree], [TrieHashing], [TrieMap], [TrieCommit], [TrieSpec]: what a trie
      stands for.  A tree is a trie without caches; [TrieMap.rep] relates nodes to
      trees, [TrieSpec.contents] trees to finite maps.  [TrieDecode] is about nodes
      from outside.  [TrieFlush] (writing to the disk), [TrieRefs] (references and
      garbage collection), [TrieLife] (any history of a database) and [TrieStore]
      are about the database; [TrieLife.db_step] is one operation on it.
    - [BTree] ([btrie/btree.go]): the B-tree of special transactions, and
      [BTreeSpec], [BTreeRemove], [BTreeMap]: the sorted list it stands for.
    - [StateObject] ([core/state/state_object.go]), [StateDB]
      ([core/state/statedb.go], [journal.go]): the state, in a monad of its own.  The
      database is the class [StateStore] ([core/state/database.go]) with its laws;
      tries are objects, so a store has them and the state has handles.
      [StateCache] is the database of the code, and [StateCacheLaws] shows that it
      keeps the laws.
    - [StateSpec]: plain maps of accounts, and [StateSpec.abs], which relates a state
      to them whatever of an account is loaded, cached, dirty or only in the trie.
      [StateStorage], [StateJournal], [StateOps] and [StateRefine] lead to programs
      of operations and nested calls; [StateFlush], [StateMain], [StateCommit] and
      [StateBlock] to blocks.  [StateExample] runs a block on [StateCache].

    ** What is proved

    - Signatures: the float64 target is more than two thirds and at most all of
      the validators ([dpos_target_majority], [validators_bounded]); counting
      decides exactly by the targets, whatever the map order
      ([verifyDPOS_decides]); two accepted hashes share more than a third of
      their signers ([quorum_intersection]); an accepted block is signed by the
      rule of its kind ([verify_block_sound]); signatures verify to their signer
      ([sign_verify_roundtrip], [own_signature_verifies], [a2_a0_roundtrip]).
    - Leaders: every validator leads once per round ([leader_round_robin],
      [first_leader_is_successor], [getRealPreLeader_total]); turns tile the time
      ([turns_contiguous], [CalState_correct], [CheckTimeLegal_sound]).
    - The controller: the consensus turn moves only forward and only by a
      two-thirds vote ([consensus_turn_advances]); cached leaders are current
      ([leaders_stay_coherent]); votes go to what was checked against the turn, its
      leader and its signatures and counted votes genuine
      ([votes_justified], [counted_votes_genuine]); mining needs a finished round
      ([mining_needs_pos]); the service has at most three open controllers, all of
      them, closed ones included, in reachable states of their own heights, and its
      channels keep their bounds ([leader_service_safe]).
    - Block verification: a process votes only for blocks it checked
      ([votes_verified], [service_votes_verified]), asks for mining only with a
      quorum ([mining_needs_quorum]) and does so within any sequence of votes that
      has one ([quorum_completes]); it votes at most once between two
      notifications of a leader ([votes_bounded]); its handlers return in every interleaving but for
      the panics that are named ([process_total], [service_total]); caches are
      bounded ([request_cache_bounded], [pool_limits]).  A saved block is found
      again after a restart ([saved_block_recovered]), but only the last one
      ([recovery_keeps_last_only]).
    - Transactions: the recovered sender is the signer and other chains refuse the
      signature ([signed_sender]); the forms convert back where they can
      ([flood_roundtrip], [mx_roundtrip], [rlp_roundtrip], [printed_roundtrip]).
    - Topologies, heights, turns, positions: invariants, refinement of the entry
      by entry update, least next heights, orders and round trips.
    - Rewards: shares are exact and never exceed the reward
      ([stock_shares_exact]); block and fee rewards are conserved over any chain
      ([block_rewards_conserved], [fee_rewards_conserved]); the final checks allow
      no overdraft ([no_overdraft], [fees_covered]); adding through pointers adds
      the amounts ([merge_through_pointers]); the reserve is found again and goes
      to the nearest miner ([reserve_roundtrip], [nearest_miner_rewarded]).
    - RLP: all encoders write the recursive encoding ([encoders_agree]); decoding
      gives the value back ([typed_roundtrip]), accepts nothing but encodings
      ([decoded_canonical]), is typed and total ([decoded_typed],
      [decoder_total]).
    - Hashing: the unrolled, buffered code computes the sponge of the standard, bit
      by bit, for every function of the package and however the input and the
      output are cut into pieces ([hashing_standard]).
    - Tries: any session of operations answers as a finite map
      ([sessions_refine_map]), also with nodes missing
      ([partial_database_answers]); the root hash stands for the map
      ([root_hash_stands_for_map]); a committed trie can be opened
      ([commit_then_open]); proofs are accepted and right
      ([proofs_are_verified], [verified_proofs_are_right]); roots of lists commit
      to the lists ([derived_roots_commit]); hashed keys are found again
      ([secure_keys_survive_commit]).  Hash collisions are never assumed away in
      the conclusions: where one would break a promise, it is exhibited, or its
      absence among the nodes at hand is a hypothesis.
    - The trie database: after any history, with any errors of the disk, every root
      that is referenced or on the disk is read in full
      ([live_roots_are_readable]), by a database opened later, too
      ([disk_survives_restart]); its operations end ([database_operations_end]);
      [Commit] loses no node and no preimage ([database_commit_keeps_reads]).
    - The B-tree does exactly what the list in order does, balanced and without
      panics ([btree_refines_sorted_list]); an item that a split moves up on the way
      is replaced and not joined, which is part of the list's operation, too.
    - The state: with its journal it is as good as a map that is copied for every
      snapshot ([journal_refines_copies]), and a failed call leaves no trace
      ([failed_call_leaves_no_trace]).  After a block the root for the header is the
      root that is stored, and opening it gives the accounts, codes, storage and
      data again ([block_is_durable]).  These are proved against the laws of
      [StateStore], for keys that do not collide ([StateStore.Keys]), without
      special transactions and suicides, and with chain data outside nested calls; a transaction must write to an account that
      it replaces by [CreateAccount], since the replacement alone is not written.
    - Addresses: printing and reading is the identity ([address_roundtrip]).
    - Panics and losses the code can run into are theorems too:
      [malformed_broadcast_panics], [topology_change_panics],
      [analysis_not_atomic], [dotted_address_panics], [double_vote],
      [recovery_keeps_last_only], [one_byte_array_loops], [shake_clone],
      [verifying_empty_key_panics], [reference_root_does_nothing],
      [failed_preimages_keep_lock], [middle_item_loses_transactions],
      [reverted_suicide_takes_balances], [committed_root_shows_later_writes].

    ** Bounds and fuel

    [LeaderCal.getRealPreLeader] walks back from the parent with the height of
    the start as fuel; every step lowers the height, so it is enough, and
    [getRealPreLeader_total] shows that it always ends.  [RewardExec.minerHeader]
    has the number of heights in its window of at most 99 blocks as fuel.  The
    digit loops of [Address] get one round per bit.  The restarts of a broadcast
    process ([VerifyProcess]) and the loop over the limits of [VotePool] have as
    many rounds as there are requests and votes, and [process_total] shows that
    these are enough.  The RLP decoder and [decodeNode] have one round per byte
    and one more ([decoder_total], [decodeNode_ends_with_node]); the sponge has
    one per byte.  The operations of a trie get four rounds per byte of a key and
    four more ([TrieSpec.key_fuel]): a nibble takes a node and perhaps its hash.
    The recursions over references in the database have the depth of the
    references as fuel ([TrieRefs], [database_operations_end]), the B-tree twice its
    height, which is logarithmic ([btree_refines_sorted_list]).  The tries of the
    state have keys of 32 bytes, for which [StateCache.trie_fuel] is enough.
    Restoring a saved B-tree has a fuel of its own; a tree that leads to itself
    would overflow the stack of the code.
    Validator sets have at most 4096 nodes because positions are 12 bits below the
    role ([Dpos.validators_bounded]); the reward theorems assume the same of
    elections.  Other loops over slices and maps are structural.

    ** What is assumed and what is not modelled

    Elliptic-curve signatures are the class [Crypto.Secp256k1] with the laws of
    recovery, hashes of headers and messages are the classes [HeaderHash] and
    [RlpHash], JSON is a class with its round trips (assumed of
    [encoding/json], and used where a saved block is read back); what a state database or the
    chain answers is a record of its accessors ([Reader.StateReader],
    [Cdc.StateDB], [MatrixState.RewardState]); the disk is the class
    [TrieDatabase.DiskDB], the LRU caches of the state database are
    [StateCache.LruCache], and the JSON of saved B-tree nodes is [StateDB.NodeJson].
    Instances in the witnesses show that these can be met.  Of the state, the queries
    of authorisations, copies, and the distribution over coins and shards
    ([core/state/sharding_statedb.go]) are not modelled; slices of balances are
    values, which is right as long as a state is not copied.  The size of the
    log and the numbers of the snapshots are unbounded integers.
    Logging, the virtual machine, the network, the RPC and command-line
    interfaces, the assembly variant of the permutation and the proof-of-work
    hashes are not modelled.  Further parts of the node that fit this library and
    are not yet in it: interest, slash and lottery ([reward/]), the election
    algorithms ([election/], [common/mt19937]) and the re-election service
    ([reelection/]), block generation ([blkgenor/]), topology voting
    ([olconsensus/]), block statistics ([core/blockproducestats.go]),
    iterators and synchronisation of tries, and the first
    leader service ([leaderelect/]). *)

From stdpp Require Export prelude gmap sorting.
From Stdlib Require Export ZArith Lia.

#[export] Set Default Goal Selector "!".
Global Open Scope Z_scope.

(** ** Machine integers

    Go's fixed-width integers are kept as [Z] together with the wrap-around
    of their type.  [int] is 64 bits wide on every platform the node is built
    for, so [int] and [int64] share [i64]. *)

Definition u8 (x : Z) : Z := x mod 2 ^ 8.
Definition u16 (x : Z) : Z := x mod 2 ^ 16.
Definition u32 (x : Z) : Z := x mod 2 ^ 32.
Definition u64 (x : Z) : Z := x mod 2 ^ 64.
Definition i64 (x : Z) : Z := (x + 2 ^ 63) mod 2 ^ 64 - 2 ^ 63.

Definition is_u8 (x : Z) : Prop := 0 <= x < 2 ^ 8.
Definition is_u16 (x : Z) : Prop := 0 <= x < 2 ^ 16.
Definition is_u32 (x : Z) : Prop := 0 <= x < 2 ^ 32.
Definition is_u64 (x : Z) : Prop := 0 <= x < 2 ^ 64.
Definition is_i64 (x : Z) : Prop := - 2 ^ 63 <= x < 2 ^ 63.

Create HintDb goint.
Create Rewrite HintDb goint.

Lemma u8_small x : is_u8 x -> u8 x = x.
Proof. apply Z.mod_small. Qed.

Lemma u16_small x : is_u16 x -> u16 x = x.
Proof. apply Z.mod_small. Qed.

Lemma u32_small x : is_u32 x -> u32 x = x.
Proof. apply Z.mod_small. Qed.

Lemma u64_small x : is_u64 x -> u64 x = x.
Proof. apply Z.mod_small. Qed.

Lemma i64_small x : is_i64 x -> i64 x = x.
Proof. unfold is_i64, i64. intros H. rewrite Z.mod_small by lia. lia. Qed.

Lemma u8_range x : is_u8 (u8 x).
Proof. apply Z.mod_pos_bound. lia. Qed.

Lemma u16_range x : is_u16 (u16 x).
Proof. apply Z.mod_pos_bound. lia. Qed.

Lemma u32_range x : is_u32 (u32 x).
Proof. apply Z.mod_pos_bound. lia. Qed.

Lemma u64_range x : is_u64 (u64 x).
Proof. apply Z.mod_pos_bound. lia. Qed.

Lemma i64_range x : is_i64 (i64 x).
Proof.
  unfold i64, is_i64. pose proof (Z.mod_pos_bound (x + 2 ^ 63) (2 ^ 64)). lia.
Qed.

#[export] Hint Resolve u8_range u16_range u32_range u64_range i64_range : goint.
#[export] Hint Rewrite u8_small u16_small u32_small u64_small i64_small
  using (unfold is_u8, is_u16, is_u32, is_u64, is_i64 in *; lia) : goint.

(** [goint] removes the wrap-arounds whose argument is provably in range. *)
Ltac goint := autorewrite with goint in *.

(** Shifting and filling the free low bits is adding. *)
Lemma lor_shiftl_add n s x :
  0 <= n -> 0 <= x < 2 ^ n -> Z.lor (Z.shiftl s n) x = s * 2 ^ n + x.
Proof.
  intros Hn Hx. assert (Z.land (Z.shiftl s n) x = 0) as Hz.
  { apply Z.bits_inj'. intros i Hi. rewrite Z.land_spec, Z.bits_0.
    destruct (Z.lt_ge_cases i n) as [H|H]; [by rewrite Z.shiftl_spec_low|].
    rewrite <- (Z.mod_small x (2 ^ n)) by done. by rewrite Z.mod_pow2_bits_high, andb_false_r by lia. }
  rewrite <- Z.lxor_lor, <- Z.add_nocarry_lxor by done. rewrite Z.shiftl_mul_pow2; lia.
Qed.

(** [tuple_eq] splits an equality of tuples into its components. *)
Ltac tuple_eq :=
  repeat match goal with
  | |- (_, _) = (_, _) => apply pair_equal_spec; split
  end; try reflexivity.

(** ** Outcomes of a Go call

    A call returns a value, returns a non-nil [error], or panics (nil
    dereference, index out of range, integer division by zero).  A panic is
    not an error value, and no modelled function recovers from one. *)

Inductive res (E A : Type) : Type :=
| Ok (a : A)
| Err (e : E)
| Panic.
Arguments Ok {E A} a.
Arguments Err {E A} e.
Arguments Panic {E A}.

(** A call whose errors are all handled inside. *)
Abbreviation eff A := (res Empty_set A).

Definition res_bind {E A B} (m : res E A) (k : A -> res E B) : res E B :=
  match m with
  | Ok a => k a
  | Err e => Err e
  | Panic => Panic
  end.

(** The caller wraps the error of a callee in its own error type. *)
Definition res_wrap {E F A} (f : E -> F) (m : res E A) : res F A :=
  match m with
  | Ok a => Ok a
  | Err e => Err (f e)
  | Panic => Panic
  end.

(** Short-circuit [||] when evaluating an operand can panic. *)
Definition res_or {E} (a b : res E bool) : res E bool :=
  res_bind a (fun x => if x then Ok true else b).

Declare Scope go_scope.
Delimit Scope go_scope with go.
Notation "'let*' x := m 'in' k" := (res_bind m (fun x => k))
  (at level 10, x pattern, m at level 100, k at level 200,
   format "'[v' 'let*'  x  :=  m  'in' '/' k ']'") : go_scope.
Global Open Scope go_scope.

Definition res_map {E A B} (f : A -> B) (m : res E A) : res E B :=
  res_bind m (fun a => Ok (f a)).

Definition is_Ok {E A} (m : res E A) : Prop := exists a, m = Ok a.

Lemma res_bind_Ok {E A B} (m : res E A) (k : A -> res E B) b :
  res_bind m k = Ok b <-> exists a, m = Ok a /\ k a = Ok b.
Proof.
  destruct m; simpl; split; intros H; try discriminate; eauto.
  - destruct H as (? & [= <-] & H). exact H.
  - destruct H as (? & [=] & _).
  - destruct H as (? & [=] & _).
Qed.

(** Integer division and remainder panic on a zero divisor; unsigned operands
    make Go's truncated division agree with [Z.div] and [Z.modulo]. *)
Definition go_udiv {E} (a b : Z) : res E Z :=
  if b =? 0 then Panic else Ok (a / b).
Definition go_umod {E} (a b : Z) : res E Z :=
  if b =? 0 then Panic else Ok (a mod b).

Lemma go_udiv_ok {E} a b : b <> 0 -> @go_udiv E a b = Ok (a / b).
Proof. unfold go_udiv. intros. destruct (Z.eqb_spec b 0); [lia|done]. Qed.

Lemma go_umod_ok {E} a b : b <> 0 -> @go_umod E a b = Ok (a mod b).
Proof. unfold go_umod. intros. destruct (Z.eqb_spec b 0); [lia|done]. Qed.

(** Slice indexing panics out of range. *)
Definition go_index {E A} (l : list A) (i : Z) : res E A :=
  if (i <? 0) then Panic
  else match l !! Z.to_nat i with
       | Some x => Ok x
       | None => Panic
       end.

(** Splits on the innermost boolean comparison, monadic match or [decide]. *)
Ltac bdestruct_in t :=
  match t with
  | ?a =? ?b => destruct (Z.eqb_spec a b)
  | ?a <? ?b => destruct (Z.ltb_spec a b)
  | ?a <=? ?b => destruct (Z.leb_spec a b)
  | ?a >? ?b => rewrite (Z.gtb_ltb a b)
  | ?a >=? ?b => rewrite (Z.geb_leb a b)
  end.

Ltac bcase :=
  match goal with
  | |- context [?a =? ?b] => destruct (Z.eqb_spec a b)
  | |- context [?a <? ?b] => destruct (Z.ltb_spec a b)
  | |- context [?a <=? ?b] => destruct (Z.leb_spec a b)
  | |- context [?a >? ?b] => rewrite (Z.gtb_ltb a b)
  | |- context [?a >=? ?b] => rewrite (Z.geb_leb a b)
  end.

Ltac bcase_in H :=
  match type of H with
  | context [?a =? ?b] => destruct (Z.eqb_spec a b)
  | context [?a <? ?b] => destruct (Z.ltb_spec a b)
  | context [?a <=? ?b] => destruct (Z.leb_spec a b)
  | context [?a >? ?b] => rewrite (Z.gtb_ltb a b) in H
  | context [?a >=? ?b] => rewrite (Z.geb_leb a b) in H
  end.

(** ** Addresses and hashes

    [common.Address] and [common.Hash] are fixed byte arrays that the modelled
    code only compares, uses as map keys and tests against the zero value.
    They are represented by their big-endian value; the zero array is [0]. *)

Abbreviation Address := Z (only parsing).
Abbreviation Hash := Z (only parsing).
Definition zero_addr : Z := 0.
Definition zero_hash : Z := 0.

(** ** Generic list lemmas *)

Lemma Forall_sublist {A} (P : A -> Prop) l k :
  l `sublist_of` k -> Forall P k -> Forall P l.
Proof.
  induction 1 as [|x l k Hs IH|x l k Hs IH]; intros Hk; [done|..];
    apply Forall_cons in Hk as [Hx Hk]; [|auto].
  constructor; auto.
Qed.

Lemma StronglySorted_sublist {A} (R : A -> A -> Prop) l k :
  l `sublist_of` k -> StronglySorted R k -> StronglySorted R l.
Proof.
  induction 1 as [|x l k Hs IH|x l k Hs IH]; intros Hk; [done|..];
    apply StronglySorted_inv in Hk as [Hk Hx]; [|auto].
  constructor; [auto|]. eapply Forall_sublist; [done|exact Hx].
Qed.

Lemma StronglySorted_snoc {A} (R : A -> A -> Prop) l x :
  StronglySorted R l -> Forall (fun y => R y x) l -> StronglySorted R (l ++ [x]).
Proof.
  induction 1 as [|y l Hs IH Hy]; intros Hx; simpl; [repeat constructor|].
  apply Forall_cons in Hx as [Hyx Hx]. constructor; [auto|].
  apply Forall_app. auto.
Qed.

(** The last element of a strictly increasing list bounds all of it. *)
Lemma StronglySorted_last_le (l : list Z) x y :
  StronglySorted Z.lt (l ++ [y]) -> x ∈ l ++ [y] -> x <= y.
Proof.
  induction l as [|z l IH]; simpl; intros Hs Hx.
  - apply list_elem_of_singleton in Hx. lia.
  - apply StronglySorted_inv in Hs as [Hs Hz]. apply elem_of_cons in Hx as [->|Hx]; [|auto].
    rewrite Forall_forall in Hz. specialize (Hz y). assert (y ∈ l ++ [y]) by set_solver.
    specialize (Hz ltac:(done)). lia.
Qed.

Lemma go_index_last {E A} (l : list A) x :
  @go_index E A (l ++ [x]) (Z.of_nat (length (l ++ [x])) - 1) = Ok x.
Proof.
  unfold go_index. rewrite length_app. simpl.
  destruct (Z.ltb_spec (Z.of_nat (length l + 1) - 1) 0); [lia|].
  replace (Z.to_nat (Z.of_nat (length l + 1) - 1)) with (length l) by lia.
  by rewrite lookup_app_r, Nat.sub_diag by lia.
Qed.

Lemma go_index_nth {E A} (l : list A) (i : Z) x :
  0 <= i -> l !! Z.to_nat i = Some x -> @go_index E A l i = Ok x.
Proof. unfold go_index. intros Hi ->. by destruct (Z.ltb_spec i 0); [lia|]. Qed.
