(* ===== verification/GoLang.v ===== *)
(** * Sorting and ranging in Go

    The contracts of [sort.Slice] and of [range] over a map, as classes.  [sort.Slice]
    promises a permutation ordered by the comparison it is given, and nothing about
    the order of elements that compare equal; merge sort is one implementation of it.
    [for k, v := range m] visits every entry of [m] once, in an order the language does
    not specify.  What is proved for an arbitrary instance holds for every order. *)

From S2P Require Import Prelude.

(** ** Sorting *)

(** What [sort.Slice] requires of its [less] argument. *)
Record strict_weak_order {A} (less : A -> A -> bool) : Prop := {
  swo_asym : forall a b, less a b = true -> less b a = false;
  swo_ntrans : forall a b c, less b a = false -> less c b = false -> less c a = false
}.

(** [l] is ordered: no later element is less than an earlier one. *)
Definition ordered_by {A} (less : A -> A -> bool) (l : list A) : Prop :=
  StronglySorted (fun a b => less b a = false) l.

Class GoSort := {
  sort_slice : forall {A : Type}, (A -> A -> bool) -> list A -> list A;
  sort_slice_perm : forall (A : Type) (less : A -> A -> bool) (l : list A),
    sort_slice less l ≡ₚ l;
  sort_slice_ordered : forall (A : Type) (less : A -> A -> bool) (l : list A),
    strict_weak_order less -> ordered_by less (sort_slice less l)
}.

Section MergeSort.
Context {A : Type} (less : A -> A -> bool).

Definition not_after (a b : A) : Prop := less b a = false.

#[local] Instance not_after_dec : RelDecision not_after.
Proof. intros a b. unfold not_after. apply _. Defined.

Definition merge_sort_slice (l : list A) : list A := merge_sort not_after l.

Lemma merge_sort_slice_perm l : merge_sort_slice l ≡ₚ l.
Proof. apply merge_sort_Permutation. Qed.

Lemma merge_sort_slice_ordered l :
  strict_weak_order less -> ordered_by less (merge_sort_slice l).
Proof.
  intros [Hasym Hntrans]. apply StronglySorted_merge_sort.
  - intros a b c. apply Hntrans.
  - intros a b. unfold not_after. destruct (less b a) eqn:E; [right; eauto|by left].
Qed.
End MergeSort.

#[export] Instance go_merge_sort : GoSort := {
  sort_slice := @merge_sort_slice;
  sort_slice_perm := @merge_sort_slice_perm;
  sort_slice_ordered := @merge_sort_slice_ordered
}.

(** Comparisons on an integer key, the only ones the node sorts by. *)
Lemma key_order {A} (key : A -> Z) :
  strict_weak_order (fun a b => key a <? key b).
Proof.
  split.
  - intros a b H. apply Z.ltb_lt in H. apply Z.ltb_ge. lia.
  - intros a b c H1 H2. apply Z.ltb_ge in H1, H2. apply Z.ltb_ge. lia.
Qed.

(** Sorting by a key without repetitions gives strictly increasing keys. *)
Lemma sort_key_strict `{GoSort} {A} (key : A -> Z) (l : list A) :
  NoDup (key <$> l) ->
  StronglySorted Z.lt (key <$> sort_slice (fun a b => key a <? key b) l).
Proof.
  intros Hnd.
  pose proof (sort_slice_ordered _ _ l (key_order key)) as Hs.
  assert (NoDup (key <$> sort_slice (fun a b => key a <? key b) l)) as Hnd'.
  { by rewrite (sort_slice_perm _ _ l). }
  clear Hnd. induction Hs as [|a l' Hs IH Hall]; simpl in *; [constructor|].
  apply NoDup_cons in Hnd' as [Hin Hnd']. constructor; [by apply IH|].
  apply Forall_fmap. rewrite Forall_forall in Hall |- *. intros b Hb.
  specialize (Hall b Hb). apply Z.ltb_ge in Hall. simpl.
  destruct (decide (key a = key b)) as [E|]; [|lia].
  destruct Hin. rewrite E. by apply list_elem_of_fmap_2.
Qed.

(** ** Ranging over a map *)

Class GoRange := {
  go_range : forall {A}, gmap Z A -> list (Z * A);
  go_range_perm : forall {A} (m : gmap Z A), go_range m ≡ₚ map_to_list m
}.

(** The contract can be met. *)
#[export] Instance go_range_sorted_keys : GoRange | 10 := {|
  go_range A m := map_to_list m;
  go_range_perm A m := reflexivity _
|}.

Section Range.
Context `{GoRange} {A : Type}.
Implicit Types m : gmap Z A.

Lemma elem_of_go_range m k v : (k, v) ∈ go_range m <-> m !! k = Some v.
Proof. rewrite go_range_perm. apply elem_of_map_to_list. Qed.

Lemma length_go_range m : length (go_range m) = size m.
Proof. rewrite go_range_perm. apply length_map_to_list. Qed.

Lemma NoDup_fst_go_range m : NoDup (go_range m).*1.
Proof. rewrite go_range_perm. apply NoDup_fst_map_to_list. Qed.
End Range.

(** Deleting the keys of a list of entries one by one. *)
Lemma delete_keys_lookup {A} (entries : list (Z * A)) (m : gmap Z A) n id :
  foldl (fun m '(key, _) => delete key m) m entries !! n = Some id <-> m !! n = Some id /\ n ∉ entries.*1.
Proof.
  revert m. induction entries as [|[k j] entries IH]; intros m; cbn [foldl fmap list_fmap fst].
  { split; [|by intros [? _]]. intros Hn. split; [done|]. apply not_elem_of_nil. }
  rewrite IH, lookup_delete_Some, not_elem_of_cons. naive_solver.
Qed.

(** ** Sums *)

Definition Zsum (l : list Z) : Z := foldr Z.add 0 l.

Lemma Zsum_cons x l : Zsum (x :: l) = x + Zsum l.
Proof. done. Qed.

Lemma Zsum_app l k : Zsum (l ++ k) = Zsum l + Zsum k.
Proof. induction l; simpl; lia. Qed.

#[export] Instance Zsum_perm : Proper ((≡ₚ) ==> (=)) Zsum.
Proof. induction 1; simpl; lia. Qed.

Lemma Zsum_nonneg l : Forall (fun x => 0 <= x) l -> 0 <= Zsum l.
Proof. induction 1; simpl; lia. Qed.

Lemma Zsum_submseteq l k : l ⊆+ k -> Forall (fun x => 0 <= x) k -> Zsum l <= Zsum k.
Proof.
  intros [r Hr]%submseteq_Permutation Hk. rewrite Hr, Zsum_app.
  rewrite Hr in Hk. apply Forall_app in Hk. pose proof (Zsum_nonneg r). intuition lia.
Qed.

Lemma Zsum_bound l b : Forall (fun x => x <= b) l -> Zsum l <= b * Z.of_nat (length l).
Proof. induction 1; simpl; lia. Qed.

Lemma u64_add_fold l acc :
  foldl (fun a x => u64 (a + x)) (u64 acc) l = u64 (acc + Zsum l).
Proof.
  revert acc. induction l as [|x l IH]; intros acc; simpl; [by rewrite Z.add_0_r|].
  replace (u64 (u64 acc + x)) with (u64 (acc + x)).
  - rewrite IH. f_equal. lia.
  - unfold u64. by rewrite Zplus_mod_idemp_l.
Qed.

#[global] Arguments Zsum : simpl never.
