(* ===== verification/Broadcast.v ===== *)
(** * Broadcast and re-election periods ([mc/configfunc.go])

    The chain is cut in broadcast periods of [BCInterval] blocks; every
    [ReelectionTimes]-th broadcast block is a re-election block.  The file
    models every method of [BCIntervalInfo] and proves that the "next number"
    methods compute the first broadcast (re-election) height above the given
    one, and that re-election heights are broadcast heights. *)

From S2P Require Import Prelude.

Record BCIntervalInfo := mkBCIntervalInfo {
  LastBCNumber : Z;
  LastReelectNumber : Z;
  BCInterval : Z;
  BackupEnableNumber : Z;
  BackupBCInterval : Z
}.

Definition ReelectionTimes : Z := 3.

Definition GetBroadcastInterval (info : BCIntervalInfo) : Z := BCInterval info.

Definition GetReElectionInterval (info : BCIntervalInfo) : Z :=
  u64 (BCInterval info * ReelectionTimes).

Definition IsBroadcastNumber {E} (info : BCIntervalInfo) (number : Z) : res E bool :=
  if number <? LastBCNumber info then Ok false
  else
    let* r := go_umod (number - LastBCNumber info) (BCInterval info) in
    Ok (r =? 0).

Definition IsReElectionNumber {E} (info : BCIntervalInfo) (number : Z) : res E bool :=
  if number <? LastReelectNumber info then Ok false
  else
    let* r := go_umod (number - LastReelectNumber info) (BCInterval info) in
    if negb (r =? 0) then Ok false
    else
      let* bcCount := go_udiv (number - LastReelectNumber info) (BCInterval info) in
      Ok (bcCount mod ReelectionTimes =? 0).

Definition GetLastBroadcastNumber (info : BCIntervalInfo) : Z := LastBCNumber info.

Definition GetLastReElectionNumber (info : BCIntervalInfo) : Z := LastReelectNumber info.

Definition GetNextBroadcastNumber {E} (info : BCIntervalInfo) (number : Z) : res E Z :=
  if number <=? LastBCNumber info then Ok (LastBCNumber info)
  else
    let* q := go_udiv (number - LastBCNumber info) (BCInterval info) in
    Ok (u64 (u64 (u64 (q + 1) * BCInterval info) + LastBCNumber info)).

Definition GetNextReElectionNumber {E} (info : BCIntervalInfo) (number : Z) : res E Z :=
  if number <=? LastReelectNumber info then Ok (LastReelectNumber info)
  else
    let* bcCountAfterReelect :=
      go_udiv (number - LastReelectNumber info) (BCInterval info) in
    let NextReelectCount := bcCountAfterReelect / ReelectionTimes + 1 in
    Ok (u64 (u64 (u64 (NextReelectCount * ReelectionTimes) * BCInterval info)
             + LastReelectNumber info)).

Definition GetBackupEnableNumber (info : BCIntervalInfo) : Z := BackupEnableNumber info.

Definition UsingBackupInterval (info : BCIntervalInfo) : BCIntervalInfo :=
  {| LastBCNumber := LastBCNumber info;
     LastReelectNumber := LastReelectNumber info;
     BCInterval := BackupBCInterval info;
     BackupEnableNumber := 0;
     BackupBCInterval := 0 |}.

Definition SetLastBCNumber (info : BCIntervalInfo) (number : Z) : BCIntervalInfo :=
  {| LastBCNumber := number;
     LastReelectNumber := LastReelectNumber info;
     BCInterval := BCInterval info;
     BackupEnableNumber := BackupEnableNumber info;
     BackupBCInterval := BackupBCInterval info |}.

Definition SetLastReelectNumber (info : BCIntervalInfo) (number : Z) : BCIntervalInfo :=
  {| LastBCNumber := LastBCNumber info;
     LastReelectNumber := number;
     BCInterval := BCInterval info;
     BackupEnableNumber := BackupEnableNumber info;
     BackupBCInterval := BackupBCInterval info |}.

Definition SetBackupBCInterval (info : BCIntervalInfo) (interval enableNumber : Z)
  : BCIntervalInfo :=
  {| LastBCNumber := LastBCNumber info;
     LastReelectNumber := LastReelectNumber info;
     BCInterval := BCInterval info;
     BackupEnableNumber := enableNumber;
     BackupBCInterval := interval |}.

(** ** Specification *)

(** A usable configuration: positive period, and the last re-election block
    lies a whole number of periods before the last broadcast block. *)
Record bc_wf (info : BCIntervalInfo) : Prop := {
  wf_interval : 0 < BCInterval info;
  wf_reelect : 0 <= LastReelectNumber info;
  wf_order : LastReelectNumber info <= LastBCNumber info;
  wf_aligned : (BCInterval info | LastBCNumber info - LastReelectNumber info)
}.

(** The heights the chain calls broadcast and re-election heights. *)
Definition bc_height (info : BCIntervalInfo) (n : Z) : Prop :=
  LastBCNumber info <= n /\ (BCInterval info | n - LastBCNumber info).

Definition reelect_height (info : BCIntervalInfo) (n : Z) : Prop :=
  LastReelectNumber info <= n /\
  (ReelectionTimes * BCInterval info | n - LastReelectNumber info).

Section Spec.
Context {E : Type} (info : BCIntervalInfo) (Hint : 0 < BCInterval info).

Lemma IsBroadcastNumber_spec n :
  exists b, IsBroadcastNumber (E := E) info n = Ok b /\
            (b = true <-> bc_height info n).
Proof.
  unfold IsBroadcastNumber, bc_height.
  destruct (Z.ltb_spec n (LastBCNumber info)); simpl.
  { exists false. split; [done|]. split; [done|lia]. }
  rewrite go_umod_ok by lia. simpl. eexists. split; [done|].
  rewrite Z.eqb_eq, Z.mod_divide by lia. tauto.
Qed.

Lemma IsReElectionNumber_spec n :
  exists b, IsReElectionNumber (E := E) info n = Ok b /\
            (b = true <-> reelect_height info n).
Proof.
  unfold IsReElectionNumber, reelect_height, ReelectionTimes.
  set (last := LastReelectNumber info). set (k := BCInterval info) in *.
  destruct (Z.ltb_spec n last); simpl.
  { exists false. split; [done|]. split; [done|lia]. }
  rewrite go_umod_ok, go_udiv_ok by lia. simpl.
  destruct (Z.eqb_spec ((n - last) mod k) 0) as [E0|E0]; simpl.
  - eexists. split; [done|]. rewrite Z.eqb_eq.
    apply Z.mod_divide in E0 as [q Hq]; [|lia]. rewrite Hq, Z.div_mul by lia.
    rewrite Z.mod_divide by lia. split.
    + intros [c Hc]. split; [done|]. exists c. rewrite Hc. ring.
    + intros [_ [c Hc]]. exists c. nia.
  - exists false. split; [done|]. split; [done|]. intros [_ [c Hc]].
    exfalso. apply E0. apply Z.mod_divide; [lia|]. exists (c * 3). lia.
Qed.
End Spec.

(** [m] is the least height above [n] satisfying [P]. *)
Definition least_above (P : Z -> Prop) (n m : Z) : Prop :=
  n < m /\ P m /\ forall k, n < k < m -> ~ P k.

Lemma multiple_least_above (base step n : Z) :
  0 < step -> base <= n ->
  least_above (fun k => base <= k /\ (step | k - base)) n
              (((n - base) / step + 1) * step + base).
Proof.
  intros Hs Hb. pose proof (Z.div_mod (n - base) step ltac:(lia)) as Hdm.
  pose proof (Z.mod_pos_bound (n - base) step Hs).
  set (q := (n - base) / step) in *.
  assert (0 <= q) by (apply Z.div_pos; lia).
  split; [nia|]. split.
  - split; [nia|]. exists (q + 1). ring.
  - intros k Hk [_ [c Hc]]. assert (q < c) by nia. assert (c < q + 1) by nia. lia.
Qed.

(** The period arithmetic of a "next" method, with its wrap-arounds removed. *)
Lemma next_multiple_u64 (base step n : Z) :
  0 < step -> 0 <= base <= n -> n + step < 2 ^ 64 ->
  u64 (u64 (u64 ((n - base) / step + 1) * step) + base)
  = ((n - base) / step + 1) * step + base.
Proof.
  intros Hs Hb Hov. pose proof (Z.div_mod (n - base) step ltac:(lia)).
  pose proof (Z.mod_pos_bound (n - base) step Hs).
  set (q := (n - base) / step) in *.
  assert (0 <= q) by (apply Z.div_pos; lia).
  rewrite (u64_small (q + 1)) by (unfold is_u64; nia).
  rewrite (u64_small ((q + 1) * step)) by (unfold is_u64; nia).
  apply u64_small. unfold is_u64. nia.
Qed.

(** Above the last broadcast block, [GetNextBroadcastNumber] returns the
    least broadcast height strictly greater than the argument, as long as that
    height fits in a [uint64]. *)
Theorem next_broadcast_correct {E} info n :
  0 < BCInterval info ->
  0 <= LastBCNumber info < n ->
  n + BCInterval info < 2 ^ 64 ->
  exists m, GetNextBroadcastNumber (E := E) info n = Ok m /\
            least_above (bc_height info) n m /\
            IsBroadcastNumber (E := E) info m = Ok true.
Proof.
  intros Hi Hn Hov. unfold GetNextBroadcastNumber.
  destruct (Z.leb_spec n (LastBCNumber info)); [lia|].
  rewrite go_udiv_ok by lia. simpl. rewrite next_multiple_u64 by lia.
  eexists. split; [done|].
  pose proof (multiple_least_above (LastBCNumber info) (BCInterval info) n Hi ltac:(lia)) as L.
  split; [exact L|].
  destruct (IsBroadcastNumber_spec (E := E) info Hi
              (((n - LastBCNumber info) / BCInterval info + 1) * BCInterval info
               + LastBCNumber info)) as (b & -> & Hb).
  f_equal. apply Hb, L.
Qed.

Definition sample_info : BCIntervalInfo := mkBCIntervalInfo 300 300 100 0 0.

Lemma next_broadcast_correct_witness :
  exists m, GetNextBroadcastNumber (E := unit) sample_info 450 = Ok m /\ 450 < m.
Proof.
  destruct (@next_broadcast_correct unit sample_info 450) as (m & H & (Hlt & _) & _);
    [reflexivity | split; [discriminate|reflexivity] | reflexivity |].
  exists m. split; [exact H | exact Hlt].
Defined.

(** Above the last re-election block, [GetNextReElectionNumber] returns the
    least re-election height strictly greater than the argument, as long as
    that height fits in a [uint64]. *)
Theorem next_reelection_correct {E} info n :
  0 < BCInterval info ->
  0 <= LastReelectNumber info < n ->
  n + ReelectionTimes * BCInterval info < 2 ^ 64 ->
  exists m, GetNextReElectionNumber (E := E) info n = Ok m /\
            least_above (reelect_height info) n m /\
            IsReElectionNumber (E := E) info m = Ok true.
Proof.
  unfold ReelectionTimes. intros Hi Hn Hov. unfold GetNextReElectionNumber.
  destruct (Z.leb_spec n (LastReelectNumber info)); [lia|].
  rewrite go_udiv_ok by lia. simpl. unfold ReelectionTimes.
  set (base := LastReelectNumber info) in *. set (k := BCInterval info) in *.
  rewrite Z.div_div by lia. replace (k * 3) with (3 * k) by ring.
  pose proof (multiple_least_above base (3 * k) n ltac:(lia) ltac:(lia)) as L.
  pose proof (Z.div_mod (n - base) (3 * k) ltac:(lia)).
  pose proof (Z.mod_pos_bound (n - base) (3 * k) ltac:(lia)).
  set (q := (n - base) / (3 * k)) in *.
  assert (0 <= q) by (apply Z.div_pos; lia).
  rewrite (u64_small ((q + 1) * 3)) by (unfold is_u64; nia).
  rewrite (u64_small ((q + 1) * 3 * k)) by (unfold is_u64; nia).
  rewrite u64_small by (unfold is_u64; nia).
  replace ((q + 1) * 3 * k + base) with ((q + 1) * (3 * k) + base) by ring.
  eexists. split; [done|]. split; [exact L|].
  destruct (IsReElectionNumber_spec (E := E) info Hi ((q + 1) * (3 * k) + base))
    as (b & -> & Hb).
  f_equal. apply Hb, L.
Qed.

Lemma next_reelection_correct_witness :
  exists m, GetNextReElectionNumber (E := unit) sample_info 450 = Ok m /\ 450 < m.
Proof.
  destruct (@next_reelection_correct unit sample_info 450) as (m & H & (Hlt & _) & _);
    [reflexivity | split; [discriminate|reflexivity] | reflexivity |].
  exists m. split; [exact H | exact Hlt].
Defined.

(** In a usable configuration every re-election height from the last
    broadcast block on is also a broadcast height: the code's two tests agree
    with the comment "a height that is not a broadcast block is certainly not
    an election block". *)
Lemma reelection_is_broadcast {E} info n :
  bc_wf info -> LastBCNumber info <= n ->
  IsReElectionNumber (E := E) info n = Ok true ->
  IsBroadcastNumber (E := E) info n = Ok true.
Proof.
  intros [Hi Hr Ho [c Hc]] Hn Hre.
  destruct (IsReElectionNumber_spec (E := E) info Hi n) as (b & Hb & [Hspec _]).
  rewrite Hb in Hre. injection Hre as ->. destruct (Hspec eq_refl) as [_ [d Hd]].
  destruct (IsBroadcastNumber_spec (E := E) info Hi n) as (b' & -> & Hb').
  f_equal. apply Hb'. split; [done|]. exists (3 * d - c).
  unfold ReelectionTimes in Hd. nia.
Qed.
