(* ===== verification/Roles.v ===== *)
(** * Roles and topology positions ([common/matrix.go], [common/role_type.go])

    A topology position packs an election role in its top four bits and the
    index inside the role in the low twelve.  The file models the role types,
    the conversions between them and the position encoding, and proves that
    the encoding is injective and decodes to the role it was built from. *)

From S2P Require Import Prelude.

(** [ElectRoleType] is a [uint8], [RoleType] a [uint32] bit mask. *)
Definition ElectRoleMiner : Z := 0x00.
Definition ElectRoleMinerBackUp : Z := 0x01.
Definition ElectRoleValidator : Z := 0x02.
Definition ElectRoleValidatorBackUp : Z := 0x03.
Definition ElectRoleCandidateValidator : Z := 0x04.
Definition ElectRoleNil : Z := 0xff.

Definition RoleNil : Z := 0x001.
Definition RoleDefault : Z := 0x002.
Definition RoleBucket : Z := 0x004.
Definition RoleBackupMiner : Z := 0x008.
Definition RoleMiner : Z := 0x010.
Definition RoleInnerMiner : Z := 0x020.
Definition RoleBackupValidator : Z := 0x040.
Definition RoleValidator : Z := 0x080.
Definition RoleBackupBroadcast : Z := 0x100.
Definition RoleBroadcast : Z := 0x200.
Definition RoleCandidateValidator : Z := 0x400.
Definition RoleAll : Z := 0xFFFF.

Definition PosOffline : Z := 0xF000.
Definition PosOnline : Z := 0xF001.

Definition Transfer2CommonRole (ert : Z) : Z :=
  if ert =? ElectRoleMiner then RoleMiner
  else if ert =? ElectRoleMinerBackUp then RoleBackupMiner
  else if ert =? ElectRoleValidator then RoleValidator
  else if ert =? ElectRoleValidatorBackUp then RoleBackupValidator
  else if ert =? ElectRoleCandidateValidator then RoleCandidateValidator
  else RoleNil.

Definition Transfer2ElectRole (rt : Z) : Z :=
  if rt =? RoleMiner then ElectRoleMiner
  else if rt =? RoleBackupMiner then ElectRoleMinerBackUp
  else if rt =? RoleValidator then ElectRoleValidator
  else if rt =? RoleBackupValidator then ElectRoleValidatorBackUp
  else if rt =? RoleCandidateValidator then ElectRoleCandidateValidator
  else ElectRoleNil.

Definition GetRoleTypeFromPosition (position : Z) : Z :=
  Transfer2CommonRole (u8 (Z.shiftr position 12)).

Definition GeneratePosition (index electRole : Z) : Z :=
  if electRole >=? ElectRoleNil then 0xffff
  else u16 (u16 (Z.shiftl electRole 12) + index).

(** [VIPRoleType] is a [uint16]. *)
Definition VIP_Nil : Z := 0.
Definition VIP_1 : Z := 1.
Definition VIP_2 : Z := 2.
Definition VIP_3 : Z := 3.

Definition GetVIPLevel (index : Z) : Z :=
  if index =? 1 then VIP_1
  else if index =? 2 then VIP_2
  else if index =? 3 then VIP_3
  else VIP_Nil.

(** ** Properties *)

(** The roles an election assigns. *)
Definition elect_role (r : Z) : Prop := 0 <= r <= 4.

Lemma GeneratePosition_value index r :
  elect_role r -> 0 <= index < 2 ^ 12 ->
  GeneratePosition index r = r * 2 ^ 12 + index.
Proof.
  unfold elect_role, GeneratePosition, ElectRoleNil. intros Hr Hi.
  rewrite Z.geb_leb. destruct (Z.leb_spec 255 r); [lia|].
  rewrite Z.shiftl_mul_pow2 by lia.
  rewrite !u16_small; unfold is_u16; rewrite ?u16_small; unfold is_u16; lia.
Qed.

Lemma Transfer2ElectRole_inv r :
  elect_role r -> Transfer2ElectRole (Transfer2CommonRole r) = r.
Proof.
  unfold elect_role. intros.
  assert (r = 0 \/ r = 1 \/ r = 2 \/ r = 3 \/ r = 4) as [->|[->|[->|[->| ->]]]] by lia;
    reflexivity.
Qed.

(** A position generated for an elected role and an index of at most
    twelve bits decodes to that role, and both the role and the index can be
    recovered from it: the encoding is injective on its domain. *)
Theorem position_roundtrip index r :
  elect_role r -> 0 <= index < 2 ^ 12 ->
  Transfer2ElectRole (GetRoleTypeFromPosition (GeneratePosition index r)) = r /\
  GetRoleTypeFromPosition (GeneratePosition index r) = Transfer2CommonRole r /\
  forall index' r', elect_role r' -> 0 <= index' < 2 ^ 12 ->
    GeneratePosition index' r' = GeneratePosition index r -> index' = index /\ r' = r.
Proof.
  intros Hr Hi.
  assert (GetRoleTypeFromPosition (GeneratePosition index r) = Transfer2CommonRole r) as E.
  { unfold GetRoleTypeFromPosition. rewrite GeneratePosition_value by done.
    rewrite Z.shiftr_div_pow2, Z.div_add_l, (Z.div_small index) by lia.
    unfold elect_role in *. f_equal. rewrite u8_small; unfold is_u8; lia. }
  split; [rewrite E; by apply Transfer2ElectRole_inv|]. split; [done|].
  intros index' r' Hr' Hi'. rewrite !GeneratePosition_value by done. lia.
Qed.

Lemma position_roundtrip_witness :
  Transfer2ElectRole (GetRoleTypeFromPosition (GeneratePosition 7 ElectRoleValidator))
  = ElectRoleValidator.
Proof. apply position_roundtrip; [split; discriminate | split; [discriminate|reflexivity]]. Defined.
