(* ===== verification/Turns.v ===== *)
(** * Consensus turns and chain states ([mc/funcdef.go])

    [ConsensusTurnInfo] numbers the leader turns of a height and [ChainState]
    the chain heads; both carry a three-way comparison that the request caches
    and controller managers order by.  The file models them and proves that
    the comparisons are strict total orders on the [uint] fields. *)

From S2P Require Import Prelude.

Record ConsensusTurnInfo := mkTurn {
  PreConsensusTurn : Z;
  UsedReelectTurn : Z
}.

#[export] Instance ConsensusTurnInfo_eq_dec : EqDecision ConsensusTurnInfo.
Proof. solve_decision. Defined.

#[export] Instance ConsensusTurnInfo_countable : Countable ConsensusTurnInfo.
Proof.
  apply (inj_countable' (fun t => (PreConsensusTurn t, UsedReelectTurn t))
                        (fun p => mkTurn (fst p) (snd p))).
  by intros [].
Defined.

Definition TotalTurns (info : ConsensusTurnInfo) : Z :=
  u32 (PreConsensusTurn info + UsedReelectTurn info).

Definition turn_Cmp (info target : ConsensusTurnInfo) : Z :=
  if decide (info = target) then 0
  else if TotalTurns info <? TotalTurns target then -1
  else if TotalTurns info >? TotalTurns target then 1
  else if PreConsensusTurn info <? PreConsensusTurn target then -1
  else 1.

Definition isFirstConsensusTurn (turnInfo : option ConsensusTurnInfo) : bool :=
  match turnInfo with
  | None => false
  | Some t => (PreConsensusTurn t =? 0) && (UsedReelectTurn t =? 0)
  end.

Definition calcNextConsensusTurn (curConsensusTurn : ConsensusTurnInfo)
    (curReelectTurn : Z) : ConsensusTurnInfo :=
  {| PreConsensusTurn := TotalTurns curConsensusTurn;
     UsedReelectTurn := curReelectTurn |}.

Record ChainState := mkChainState {
  superSeq : Z;
  curNumber : Z
}.

Definition chain_Cmp (self : ChainState) (seq num : Z) : Z :=
  if superSeq self >? seq then 1
  else if superSeq self <? seq then -1
  else if curNumber self >? num then 1
  else if curNumber self <? num then -1
  else 0.

Definition chain_Reset (self : ChainState) (seq num : Z) : ChainState :=
  {| superSeq := seq; curNumber := num |}.

(** ** Properties *)

Definition turn_wf (t : ConsensusTurnInfo) : Prop :=
  is_u32 (PreConsensusTurn t) /\ is_u32 (UsedReelectTurn t).

(** Total turns and previous turn determine a well-formed turn, even when the
    sum wraps around. *)
Lemma turn_key_inj a b :
  turn_wf a -> turn_wf b ->
  TotalTurns a = TotalTurns b -> PreConsensusTurn a = PreConsensusTurn b -> a = b.
Proof.
  destruct a as [p q], b as [p' q']; unfold turn_wf, TotalTurns, is_u32, u32; simpl.
  intros [] [] Ht <-. f_equal.
  pose proof (Z.div_mod (p + q) (2 ^ 32) ltac:(lia)).
  pose proof (Z.div_mod (p + q') (2 ^ 32) ltac:(lia)). nia.
Qed.

Definition turn_lt (a b : ConsensusTurnInfo) : Prop :=
  TotalTurns a < TotalTurns b \/
  (TotalTurns a = TotalTurns b /\ PreConsensusTurn a < PreConsensusTurn b).

Lemma turn_Cmp_cases a b :
  turn_wf a -> turn_wf b ->
  (turn_Cmp a b = 0 /\ a = b) \/
  (turn_Cmp a b = -1 /\ turn_lt a b) \/
  (turn_Cmp a b = 1 /\ turn_lt b a).
Proof.
  intros Ha Hb. unfold turn_Cmp, turn_lt. rewrite Z.gtb_ltb.
  case_decide as D; [by left|]. right.
  destruct (Z.ltb_spec (TotalTurns a) (TotalTurns b)); [left; split; [done|lia]|].
  destruct (Z.ltb_spec (TotalTurns b) (TotalTurns a)); [right; split; [done|lia]|].
  assert (TotalTurns a = TotalTurns b) as Ht by lia.
  destruct (Z.ltb_spec (PreConsensusTurn a) (PreConsensusTurn b));
    [left; split; [done|lia]|right; split; [done|]].
  right. split; [done|].
  destruct (decide (PreConsensusTurn a = PreConsensusTurn b)); [|lia].
  destruct D. by apply turn_key_inj.
Qed.

Lemma turn_lt_irrefl a : ~ turn_lt a a.
Proof. unfold turn_lt. lia. Qed.

Lemma turn_lt_trans a b c : turn_lt a b -> turn_lt b c -> turn_lt a c.
Proof. unfold turn_lt. lia. Qed.

(** [turn_Cmp] decides the lexicographic order on (total, previous) turns. *)
Lemma turn_Cmp_neg a b :
  turn_wf a -> turn_wf b -> (turn_Cmp a b < 0 <-> turn_lt a b).
Proof.
  intros Ha Hb. pose proof (turn_lt_irrefl a).
  destruct (turn_Cmp_cases a b Ha Hb) as [[-> ->]|[[-> ?]|[-> ?]]].
  - split; [lia|done].
  - split; [done|lia].
  - split; [lia|]. intros. exfalso. eauto using turn_lt_trans.
Qed.

(** [ConsensusTurnInfo.Cmp] is a total order on turns with [uint32] fields,
    although [TotalTurns] may wrap: it returns [0] exactly on equal turns, it is
    antisymmetric, and "less" is transitive. *)
Theorem turn_Cmp_total_order a b c :
  turn_wf a -> turn_wf b -> turn_wf c ->
  (turn_Cmp a b = 0 <-> a = b) /\
  turn_Cmp b a = - turn_Cmp a b /\
  (turn_Cmp a b < 0 -> turn_Cmp b c < 0 -> turn_Cmp a c < 0).
Proof.
  intros Ha Hb Hc. split; [|split].
  - pose proof (turn_lt_irrefl a).
    destruct (turn_Cmp_cases a b Ha Hb) as [[-> ->]|[[-> ?]|[-> ?]]];
      [done | split; [lia|intros ->; done] ..].
  - pose proof (turn_lt_irrefl a). pose proof (turn_lt_irrefl b).
    destruct (turn_Cmp_cases a b Ha Hb) as [[-> ->]|[[-> ?]|[-> ?]]].
    + unfold turn_Cmp. by case_decide.
    + destruct (turn_Cmp_cases b a Hb Ha) as [[? ->]|[[? ?]|[-> ?]]];
        [done | exfalso; eauto using turn_lt_trans | done].
    + destruct (turn_Cmp_cases b a Hb Ha) as [[? ->]|[[-> ?]|[? ?]]];
        [done | done | exfalso; eauto using turn_lt_trans].
  - rewrite !turn_Cmp_neg by done. apply turn_lt_trans.
Qed.

Lemma turn_Cmp_total_order_witness :
  turn_Cmp (mkTurn 1 2) (mkTurn 0 3) = - turn_Cmp (mkTurn 0 3) (mkTurn 1 2).
Proof.
  apply (turn_Cmp_total_order (mkTurn 0 3) (mkTurn 1 2) (mkTurn 0 0));
    split; split; first [discriminate | reflexivity].
Defined.

Lemma chain_Cmp_spec st seq num :
  (chain_Cmp st seq num = 1 <->
     seq < superSeq st \/ (superSeq st = seq /\ num < curNumber st)) /\
  (chain_Cmp st seq num = 0 <-> superSeq st = seq /\ curNumber st = num) /\
  (chain_Cmp st seq num = -1 <->
     superSeq st < seq \/ (superSeq st = seq /\ curNumber st < num)).
Proof. unfold chain_Cmp. rewrite !Z.gtb_ltb. repeat bcase; lia. Qed.
