(* ===== verification/Topology.v ===== *)
(** * Topology and election graphs ([mc/funcdef.go], [mc/msgdef.go])

    [TopologyGraph] is the ordered list of the nodes that currently run the
    chain; each block carries a [NetTopology] that replaces it ([All]) or
    patches it ([Change]).  The file models the graph operations with their
    out-of-range panics, proves the graph invariant (strictly increasing
    positions, role given by the position, node numbers below one hundred) and
    that patching implements an update of the map from positions to accounts. *)

From S2P Require Import Prelude GoLang Roles.

Record NetTopologyData := mkTopoData { tdAccount : Z; tdPosition : Z }.

Definition NetTopoTypeAll : Z := 0.
Definition NetTopoTypeChange : Z := 1.

Record NetTopology := mkNetTopology { ntType : Z; ntData : list NetTopologyData }.

Record TopologyNodeInfo := mkNode {
  Account : Z;
  Position : Z;
  Type_ : Z;
  NodeNumber : Z
}.

#[export] Instance TopologyNodeInfo_eq_dec : EqDecision TopologyNodeInfo.
Proof. solve_decision. Defined.

Record TopologyGraph := mkGraph {
  NodeList : list TopologyNodeInfo;
  CurNodeNumber : Z
}.

Inductive topo_error := ErrGenesisNumber | ErrGenesisType | ErrTopologyType.

(** The method mutates the counter and returns it; the model returns the new
    counter, which is both. *)
Definition increaseNodeNumber (cur : Z) : Z :=
  if cur >=? 99 then 0 else u8 (cur + 1).

Definition newNode (chg : NetTopologyData) (number : Z) : TopologyNodeInfo :=
  {| Account := tdAccount chg;
     Position := tdPosition chg;
     Type_ := GetRoleTypeFromPosition (tdPosition chg);
     NodeNumber := number |}.

(** The loop that appends one node per entry of a full topology. *)
Fixpoint appendTopology (data : list NetTopologyData) (g : TopologyGraph) : TopologyGraph :=
  match data with
  | [] => g
  | topNode :: rest =>
      let n := increaseNodeNumber (CurNodeNumber g) in
      appendTopology rest (mkGraph (NodeList g ++ [newNode topNode n]) n)
  end.

Definition topology_sort `{GoSort} (g : TopologyGraph) : TopologyGraph :=
  mkGraph (sort_slice (fun a b => Position a <? Position b) (NodeList g)) (CurNodeNumber g).

Definition NewGenesisTopologyGraph `{GoSort} (number : Z) (netTopology : NetTopology)
  : res topo_error TopologyGraph :=
  if negb (number =? 0) then Err ErrGenesisNumber
  else if negb (ntType netTopology =? NetTopoTypeAll) then Err ErrGenesisType
  else Ok (topology_sort (appendTopology (ntData netTopology) (mkGraph [] 99))).

(** [append(l[:i], l[i+1:]...)] at the first node with the account. *)
Fixpoint removeAccount (account : Z) (l : list TopologyNodeInfo) : list TopologyNodeInfo :=
  match l with
  | [] => []
  | curNode :: rest =>
      if account =? Account curNode then rest
      else curNode :: removeAccount account rest
  end.

(** The position loop of [modifyGraphByChgInfo]: returns the node list and the
    node counter. *)
Fixpoint replacePosition (chg : NetTopologyData) (l : list TopologyNodeInfo) (cur : Z)
  : list TopologyNodeInfo * Z :=
  match l with
  | [] => ([], cur)
  | curNode :: rest =>
      if tdPosition chg =? Position curNode then
        if tdAccount chg =? zero_addr then (rest, cur)
        else
          let n := increaseNodeNumber cur in
          (mkNode (tdAccount chg) (Position curNode) (Type_ curNode) n :: rest, n)
      else if tdPosition chg <? Position curNode then
        let n := increaseNodeNumber cur in
        (newNode chg n :: curNode :: rest, n)
      else
        let '(rest', cur') := replacePosition chg rest cur in
        (curNode :: rest', cur')
  end.

Definition modifyGraphByChgInfo {E} (self : TopologyGraph) (chgInfo : NetTopologyData)
  : res E TopologyGraph :=
  if tdPosition chgInfo =? PosOnline then Ok self
  else if tdPosition chgInfo =? PosOffline then
    Ok (mkGraph (removeAccount (tdAccount chgInfo) (NodeList self)) (CurNodeNumber self))
  else
    let* lastNode := go_index (NodeList self) (Z.of_nat (length (NodeList self)) - 1) in
    if tdPosition chgInfo >? Position lastNode then
      let n := increaseNodeNumber (CurNodeNumber self) in
      Ok (mkGraph (NodeList self ++ [newNode chgInfo n]) n)
    else
      let '(l, cur) := replacePosition chgInfo (NodeList self) (CurNodeNumber self) in
      Ok (mkGraph l cur).

Fixpoint modifyGraph {E} (data : list NetTopologyData) (g : TopologyGraph)
  : res E TopologyGraph :=
  match data with
  | [] => Ok g
  | chgInfo :: rest =>
      let* g' := modifyGraphByChgInfo g chgInfo in modifyGraph rest g'
  end.

Definition Transfer2NextGraph `{GoSort} (self : TopologyGraph) (number : Z)
    (blockTopology : NetTopology) : res topo_error TopologyGraph :=
  if ntType blockTopology =? NetTopoTypeAll then
    Ok (topology_sort (appendTopology (ntData blockTopology) (mkGraph [] (CurNodeNumber self))))
  else if ntType blockTopology =? NetTopoTypeChange then
    modifyGraph (ntData blockTopology) (mkGraph (NodeList self) (CurNodeNumber self))
  else Err ErrTopologyType.

Definition AccountIsInGraph (self : TopologyGraph) (account : Z) : bool :=
  existsb (fun one => account =? Account one) (NodeList self).

Definition CheckAccountRole (self : TopologyGraph) (account role : Z) : bool :=
  match List.find (fun one => account =? Account one) (NodeList self) with
  | Some one => Type_ one =? role
  | None => false
  end.

(** The index search over the validator accounts. *)
Fixpoint indexOf (account : Z) (l : list Z) : option nat :=
  match l with
  | [] => None
  | a :: rest => if account =? a then Some 0%nat else S <$> indexOf account rest
  end.

Definition FindNextValidator (self : TopologyGraph) (account : Z) : Z :=
  let validators := Account <$> List.filter (fun n => Type_ n =? RoleValidator) (NodeList self) in
  match indexOf account validators with
  | None => zero_addr
  | Some pos => default zero_addr (validators !! ((pos + 1) `mod` length validators)%nat)
  end.

(** ** Election graph *)

Record ElectNodeInfo := mkElectNode {
  enAccount : Z;
  enPosition : Z;
  enStock : Z;
  enVIPLevel : Z;
  enType : Z
}.

Record ElectGraph := mkElectGraph {
  egNumber : Z;
  ElectList : list ElectNodeInfo;
  NextMinerElect : list ElectNodeInfo;
  NextValidatorElect : list ElectNodeInfo
}.

Record Elect := mkElect { elAccount : Z; elStock : Z; elType : Z; elVIP : Z }.

Record ElectOnlineStatus := mkOnlineStatus {
  eosNumber : Z;
  ElectOnline : list ElectNodeInfo
}.

Definition toElect (n : ElectNodeInfo) : Elect :=
  mkElect (enAccount n) (enStock n) (Transfer2ElectRole (enType n)) 0.

Definition TransferElect2CommonElect (eg : ElectGraph) : list Elect :=
  toElect <$> ElectList eg.

Definition TransferNextElect2CommonElect (eg : ElectGraph) : list Elect :=
  (toElect <$> NextMinerElect eg) ++ (toElect <$> NextValidatorElect eg).

Definition FindNodeElectOnlineState (eos : ElectOnlineStatus) (node : Z)
  : option ElectNodeInfo :=
  List.find (fun elect => enAccount elect =? node) (ElectOnline eos).

(** ** Invariant *)

Definition positions (l : list TopologyNodeInfo) : list Z := Position <$> l.

Definition node_ok (n : TopologyNodeInfo) : Prop :=
  Type_ n = GetRoleTypeFromPosition (Position n) /\ 0 <= NodeNumber n <= 99.

Record graph_wf (g : TopologyGraph) : Prop := {
  gw_sorted : StronglySorted Z.lt (positions (NodeList g));
  gw_nodes : Forall node_ok (NodeList g);
  gw_number : 0 <= CurNodeNumber g <= 99
}.

Create HintDb topo.

Lemma increaseNodeNumber_range cur : 0 <= cur <= 99 -> 0 <= increaseNodeNumber cur <= 99.
Proof.
  unfold increaseNodeNumber. intros. rewrite Z.geb_leb.
  destruct (Z.leb_spec 99 cur); [lia|]. rewrite u8_small; unfold is_u8; lia.
Qed.

Lemma newNode_ok chg cur : 0 <= cur <= 99 -> node_ok (newNode chg (increaseNodeNumber cur)).
Proof. intros. split; [done|]. by apply increaseNodeNumber_range. Qed.

#[export] Hint Resolve increaseNodeNumber_range newNode_ok : topo.

Lemma appendTopology_spec data g :
  0 <= CurNodeNumber g <= 99 -> Forall node_ok (NodeList g) ->
  0 <= CurNodeNumber (appendTopology data g) <= 99 /\
  Forall node_ok (NodeList (appendTopology data g)) /\
  positions (NodeList (appendTopology data g)) = positions (NodeList g) ++ (tdPosition <$> data).
Proof.
  revert g. induction data as [|d data IH]; intros g Hc Hn; simpl.
  { by rewrite app_nil_r. }
  destruct (IH (mkGraph (NodeList g ++ [newNode d (increaseNodeNumber (CurNodeNumber g))])
                        (increaseNodeNumber (CurNodeNumber g)))) as (H1 & H2 & H3); simpl.
  - auto with topo.
  - apply Forall_app. auto with topo.
  - split; [done|]. split; [done|]. rewrite H3. simpl. unfold positions.
    rewrite fmap_app. simpl. by rewrite <- app_assoc.
Qed.

Lemma topology_sort_wf `{GoSort} data cur :
  0 <= cur <= 99 -> NoDup (tdPosition <$> data) ->
  graph_wf (topology_sort (appendTopology data (mkGraph [] cur))).
Proof.
  intros Hc Hnd.
  destruct (appendTopology_spec data (mkGraph [] cur)) as (H1 & H2 & H3); [done|constructor|].
  split; simpl.
  - apply sort_key_strict. unfold positions in H3. by rewrite H3.
  - by rewrite (sort_slice_perm _ _ _).
  - done.
Qed.

Lemma removeAccount_sub account l :
  removeAccount account l `sublist_of` l.
Proof.
  induction l as [|n l IH]; simpl; [constructor|].
  bcase; by constructor.
Qed.

(** ** Refinement to a map from positions to accounts *)

Definition graph_map (l : list TopologyNodeInfo) : gmap Z Z :=
  list_to_map ((fun n => (Position n, Account n)) <$> l).

Lemma graph_map_cons n l : graph_map (n :: l) = <[Position n := Account n]> (graph_map l).
Proof. done. Qed.

Lemma graph_map_None l p : p ∉ positions l -> graph_map l !! p = None.
Proof.
  intros H. apply not_elem_of_list_to_map_1. rewrite <- list_fmap_compose. exact H.
Qed.

Lemma graph_map_Some l p a : graph_map l !! p = Some a -> p ∈ positions l.
Proof.
  intros H. destruct (decide (p ∈ positions l)); [done|].
  by rewrite graph_map_None in H.
Qed.

Lemma sorted_head_notin p l : Forall (Z.lt p) l -> p ∉ l.
Proof. rewrite Forall_forall. intros H Hin. specialize (H p Hin). lia. Qed.

Lemma sorted_cons_inv n l :
  StronglySorted Z.lt (positions (n :: l)) ->
  StronglySorted Z.lt (positions l) /\ Forall (Z.lt (Position n)) (positions l) /\
  graph_map l !! Position n = None.
Proof.
  intros [Hs Hn]%StronglySorted_inv. split; [done|]. split; [done|].
  by apply graph_map_None, sorted_head_notin.
Qed.

Lemma graph_map_snoc l n :
  Position n ∉ positions l -> graph_map (l ++ [n]) = <[Position n := Account n]> (graph_map l).
Proof.
  induction l as [|m l IH]; intros Hn; [done|]. simpl.
  rewrite !graph_map_cons. unfold positions in Hn. simpl in Hn.
  apply not_elem_of_cons in Hn as [Hne Hn]. rewrite IH by done.
  by rewrite insert_insert_ne.
Qed.

(** What one topology change means for the map.  A node going offline frees
    the lowest position its account holds; any other change sets its position
    to the given account, and an empty account clears an occupied position. *)
Inductive topo_step (m : gmap Z Z) (chg : NetTopologyData) : gmap Z Z -> Prop :=
| ts_online :
    tdPosition chg = PosOnline -> topo_step m chg m
| ts_offline p :
    tdPosition chg = PosOffline ->
    m !! p = Some (tdAccount chg) ->
    (forall q, m !! q = Some (tdAccount chg) -> p <= q) ->
    topo_step m chg (delete p m)
| ts_offline_absent :
    tdPosition chg = PosOffline ->
    (forall q, m !! q <> Some (tdAccount chg)) ->
    topo_step m chg m
| ts_clear :
    tdPosition chg <> PosOnline -> tdPosition chg <> PosOffline ->
    tdAccount chg = zero_addr -> is_Some (m !! tdPosition chg) ->
    topo_step m chg (delete (tdPosition chg) m)
| ts_set :
    tdPosition chg <> PosOnline -> tdPosition chg <> PosOffline ->
    (tdAccount chg <> zero_addr \/ m !! tdPosition chg = None) ->
    topo_step m chg (<[tdPosition chg := tdAccount chg]> m).

Inductive topo_steps : gmap Z Z -> list NetTopologyData -> gmap Z Z -> Prop :=
| tss_nil m : topo_steps m [] m
| tss_cons m m' m'' chg data :
    topo_step m chg m' -> topo_steps m' data m'' -> topo_steps m (chg :: data) m''.

Lemma removeAccount_refines account l :
  StronglySorted Z.lt (positions l) ->
  (exists p, graph_map l !! p = Some account /\
     (forall q, graph_map l !! q = Some account -> p <= q) /\
     graph_map (removeAccount account l) = delete p (graph_map l)) \/
  ((forall q, graph_map l !! q <> Some account) /\ removeAccount account l = l).
Proof.
  induction l as [|n l IH]; intros Hs.
  { right. split; [|done]. intros q. unfold graph_map. simpl. by rewrite lookup_empty. }
  apply sorted_cons_inv in Hs as (Hs & Hall & Hnone).
  simpl. rewrite graph_map_cons. destruct (Z.eqb_spec account (Account n)) as [->|Hne].
  - left. exists (Position n). rewrite lookup_insert_eq. split; [done|]. split.
    + intros q Hq. apply lookup_insert_Some in Hq as [[-> _]|[_ Hq]]; [lia|].
      apply graph_map_Some in Hq. rewrite Forall_forall in Hall. specialize (Hall q Hq). lia.
    + by rewrite delete_insert_id.
  - destruct (IH Hs) as [(p & Hp & Hmin & Heq)|[Hno Heq]].
    + left. exists p. assert (Position n <> p) by congruence.
      rewrite lookup_insert_ne by done. split; [done|]. split.
      * intros q Hq. apply lookup_insert_Some in Hq as [[_ ?]|[_ Hq]]; [congruence|auto].
      * rewrite graph_map_cons, Heq. by rewrite delete_insert_ne.
    + right. rewrite Heq. split; [|done]. intros q Hq.
      apply lookup_insert_Some in Hq as [[_ ?]|[_ Hq]]; [congruence|by eapply Hno].
Qed.

Definition set_position (m : gmap Z Z) (chg : NetTopologyData) : gmap Z Z :=
  if decide (tdAccount chg = zero_addr /\ is_Some (m !! tdPosition chg))
  then delete (tdPosition chg) m
  else <[tdPosition chg := tdAccount chg]> m.

Lemma set_position_step m chg :
  tdPosition chg <> PosOnline -> tdPosition chg <> PosOffline ->
  topo_step m chg (set_position m chg).
Proof.
  intros. unfold set_position. case_decide as D; [by apply ts_clear; destruct D|].
  apply ts_set; [done..|]. destruct (decide (tdAccount chg = zero_addr)); [|by left].
  right. apply eq_None_not_Some. tauto.
Qed.

Lemma set_position_insert m chg p a :
  p <> tdPosition chg ->
  set_position (<[p := a]> m) chg = <[p := a]> (set_position m chg).
Proof.
  intros Hne. unfold set_position. rewrite lookup_insert_ne by done.
  case_decide; [by rewrite delete_insert_ne|by rewrite insert_insert_ne].
Qed.

Section ReplacePosition.
Context (chg : NetTopologyData).
Local Abbreviation pos := (tdPosition chg).

Lemma replacePosition_positions l cur p :
  p ∈ positions (fst (replacePosition chg l cur)) -> p = pos \/ p ∈ positions l.
Proof.
  induction l as [|n l IH]; simpl; [set_solver|].
  destruct (Z.eqb_spec pos (Position n)) as [E|E].
  - bcase; simpl; unfold positions; simpl; set_solver.
  - bcase; [unfold positions; simpl; set_solver|].
    destruct (replacePosition chg l cur) as [l' cur']. simpl in *.
    intros [->|Hp]%elem_of_cons; [right; left|].
    destruct (IH Hp); [by left|right; by right].
Qed.

Lemma replacePosition_wf l cur :
  StronglySorted Z.lt (positions l) -> Forall node_ok l -> 0 <= cur <= 99 ->
  StronglySorted Z.lt (positions (fst (replacePosition chg l cur))) /\
  Forall node_ok (fst (replacePosition chg l cur)) /\
  0 <= snd (replacePosition chg l cur) <= 99.
Proof.
  induction l as [|n l IH]; intros Hs Hn Hc; [done|].
  pose proof (sorted_cons_inv _ _ Hs) as (Hs' & Hall & _).
  apply Forall_cons in Hn as [Hn Hl]. simpl.
  pose proof (replacePosition_positions l cur) as Hpos.
  destruct (Z.eqb_spec pos (Position n)) as [E|E].
  - bcase; simpl; [done|]. split; [done|]. split; [|auto with topo].
    constructor; [split; [apply Hn|simpl; auto with topo]|done].
  - destruct (Z.ltb_spec pos (Position n)) as [Hlt|Hge]; simpl.
    + split; [|split; [constructor; [auto with topo|by constructor]|auto with topo]].
      constructor; [done|]. constructor; [done|].
      eapply Forall_impl; [exact Hall|]. intros q. simpl. lia.
    + destruct (replacePosition chg l cur) as [l' cur']. simpl in *.
      destruct (IH Hs' Hl Hc) as (H1 & H2 & H3). split; [|by split; [constructor|]].
      constructor; [done|]. apply Forall_forall. intros q Hq.
      destruct (Hpos q Hq) as [->|Hq']; [lia|].
      rewrite Forall_forall in Hall. by apply Hall.
Qed.

Lemma replacePosition_refines l cur :
  StronglySorted Z.lt (positions l) -> Exists (fun p => pos <= p) (positions l) ->
  graph_map (fst (replacePosition chg l cur)) = set_position (graph_map l) chg.
Proof.
  induction l as [|n l IH]; intros Hs He; [by inversion He|].
  apply sorted_cons_inv in Hs as (Hs & Hall & Hnone). simpl.
  destruct (Z.eqb_spec pos (Position n)) as [E|E].
  - unfold set_position. rewrite !graph_map_cons, E, lookup_insert_eq.
    destruct (Z.eqb_spec (tdAccount chg) zero_addr) as [Ez|Ez]; simpl.
    + rewrite decide_True by eauto. by rewrite delete_insert_id.
    + rewrite decide_False by tauto. rewrite graph_map_cons. simpl.
      by rewrite insert_insert_eq.
  - destruct (Z.ltb_spec pos (Position n)) as [Hlt|Hge]; simpl.
    + unfold set_position. rewrite decide_False; [done|]. intros [_ [a Ha]].
      apply graph_map_Some, elem_of_cons in Ha as [?|Ha]; [done|].
      rewrite Forall_forall in Hall. specialize (Hall _ Ha). lia.
    + apply Exists_cons in He as [He|He]; [lia|].
      specialize (IH Hs He). destruct (replacePosition chg l cur) as [l' cur']. simpl in *.
      rewrite !graph_map_cons, IH. by rewrite set_position_insert.
Qed.
End ReplacePosition.

(** A change of position on a graph whose last node is [n]. *)
Lemma modify_position_spec chg l n cur g' :
  StronglySorted Z.lt (positions (l ++ [n])) -> Forall node_ok (l ++ [n]) -> 0 <= cur <= 99 ->
  g' = (if Position n <? tdPosition chg
        then mkGraph ((l ++ [n]) ++ [newNode chg (increaseNodeNumber cur)]) (increaseNodeNumber cur)
        else let '(l', cur') := replacePosition chg (l ++ [n]) cur in mkGraph l' cur') ->
  graph_wf g' /\ graph_map (NodeList g') = set_position (graph_map (l ++ [n])) chg.
Proof.
  intros Hs Hn Hc ->.
  assert (Hlast : forall p, p ∈ positions (l ++ [n]) -> p <= Position n).
  { intros p Hp. eapply (StronglySorted_last_le (positions l)).
    - unfold positions in *. by rewrite fmap_app in Hs.
    - unfold positions in *. by rewrite fmap_app in Hp. }
  destruct (Z.ltb_spec (Position n) (tdPosition chg)) as [Hgt|Hle].
  - assert (tdPosition chg ∉ positions (l ++ [n])) as Hnin.
    { intros Hp. specialize (Hlast _ Hp). lia. }
    split; [split; simpl|simpl].
    + unfold positions. rewrite fmap_app. apply StronglySorted_snoc; [done|].
      apply Forall_forall. intros p Hp. specialize (Hlast p Hp). simpl. lia.
    + apply Forall_app. auto with topo.
    + auto with topo.
    + rewrite graph_map_snoc by done. simpl. unfold set_position.
      rewrite decide_False; [done|]. intros [_ [a Ha]]. by apply graph_map_Some in Ha.
  - pose proof (replacePosition_wf chg (l ++ [n]) cur Hs Hn Hc) as Hwf.
    pose proof (replacePosition_refines chg (l ++ [n]) cur Hs) as Hr.
    destruct (replacePosition chg (l ++ [n]) cur) as [l' cur']. simpl in *.
    split; [by split; apply Hwf|]. apply Hr, Exists_exists.
    exists (Position n). split; [|done]. unfold positions. rewrite fmap_app. set_solver.
Qed.

(** One change of a well-formed graph. *)
Lemma modifyGraphByChgInfo_spec {E} g chg g' :
  graph_wf g -> modifyGraphByChgInfo (E := E) g chg = Ok g' ->
  graph_wf g' /\ topo_step (graph_map (NodeList g)) chg (graph_map (NodeList g')).
Proof.
  intros [Hs Hn Hc]. unfold modifyGraphByChgInfo.
  destruct (Z.eqb_spec (tdPosition chg) PosOnline) as [Eon|Eon].
  { intros [= <-]. split; [by split|by apply ts_online]. }
  destruct (Z.eqb_spec (tdPosition chg) PosOffline) as [Eoff|Eoff].
  { intros [= <-]. pose proof (removeAccount_sub (tdAccount chg) (NodeList g)) as Hsub. split.
    - split; simpl; [|by eapply Forall_sublist|done].
      eapply StronglySorted_sublist; [|exact Hs]. by apply fmap_sublist.
    - simpl. destruct (removeAccount_refines (tdAccount chg) _ Hs) as [(p & Hp & Hm & ->)|[Hno ->]].
      + by apply ts_offline.
      + by apply ts_offline_absent. }
  destruct (NodeList g) as [|n l _] eqn:El using rev_ind; [done|].
  rewrite go_index_last. simpl. rewrite Z.gtb_ltb. intros Hg'.
  destruct (modify_position_spec chg l n (CurNodeNumber g) g' Hs Hn Hc) as [Hwf ->].
  { destruct (Position n <? tdPosition chg); [by injection Hg'|].
    destruct (replacePosition chg (l ++ [n]) (CurNodeNumber g)). by injection Hg'. }
  split; [done|]. by apply set_position_step.
Qed.

(** A change panics exactly when it addresses a position of an empty graph. *)
Lemma modifyGraphByChgInfo_panic {E} g chg :
  modifyGraphByChgInfo (E := E) g chg = Panic <->
  NodeList g = [] /\ tdPosition chg <> PosOnline /\ tdPosition chg <> PosOffline.
Proof.
  unfold modifyGraphByChgInfo.
  destruct (Z.eqb_spec (tdPosition chg) PosOnline); [split; [done|tauto]|].
  destruct (Z.eqb_spec (tdPosition chg) PosOffline); [split; [done|tauto]|].
  destruct (NodeList g) as [|m l _] eqn:El using rev_ind; [done|].
  rewrite go_index_last. simpl. rewrite Z.gtb_ltb.
  assert (l ++ [m] <> []) by (by destruct l).
  bcase; [split; [done|tauto]|]. destruct (replacePosition _ _ _). split; [done|tauto].
Qed.

Lemma modifyGraph_spec {E} data g g' :
  graph_wf g -> modifyGraph (E := E) data g = Ok g' ->
  graph_wf g' /\ topo_steps (graph_map (NodeList g)) data (graph_map (NodeList g')).
Proof.
  revert g. induction data as [|chg data IH]; simpl; intros g Hwf Hg'.
  { injection Hg' as <-. split; [done|constructor]. }
  apply res_bind_Ok in Hg' as (g1 & H1 & H2).
  destruct (modifyGraphByChgInfo_spec g chg g1 Hwf H1) as [Hwf1 Hst].
  destruct (IH g1 Hwf1 H2) as [Hwf' Hsts]. split; [done|by econstructor].
Qed.

(** ** Theorems *)

(** Every topology the node derives is well formed: the genesis topology
    and each full replacement when their positions are distinct, and each
    change of a well-formed graph.  Positions stay strictly increasing, every
    node has the role of its position and node numbers stay below 100. *)
Theorem topology_invariant `{GoSort} :
  (forall number top g,
     NoDup (tdPosition <$> ntData top) ->
     NewGenesisTopologyGraph number top = Ok g -> graph_wf g) /\
  (forall g number top g',
     graph_wf g -> (ntType top = NetTopoTypeAll -> NoDup (tdPosition <$> ntData top)) ->
     Transfer2NextGraph g number top = Ok g' -> graph_wf g').
Proof.
  split.
  - intros number top g Hnd. unfold NewGenesisTopologyGraph.
    destruct (negb (number =? 0)); [done|]. destruct (negb _); [done|].
    intros [= <-]. by apply topology_sort_wf.
  - intros g number top g' Hwf Hnd. unfold Transfer2NextGraph.
    destruct (Z.eqb_spec (ntType top) NetTopoTypeAll).
    { intros [= <-]. apply topology_sort_wf; [apply Hwf|auto]. }
    destruct (Z.eqb_spec (ntType top) NetTopoTypeChange); [|done].
    intros Hm. eapply modifyGraph_spec; [|exact Hm]. by destruct Hwf.
Qed.

Lemma topology_invariant_witness :
  graph_wf (topology_sort (appendTopology [mkTopoData 7 0x2001; mkTopoData 8 0x2000] (mkGraph [] 99))).
Proof.
  apply (proj1 topology_invariant 0
           (mkNetTopology NetTopoTypeAll [mkTopoData 7 0x2001; mkTopoData 8 0x2000])).
  - simpl. repeat constructor; set_solver.
  - reflexivity.
Defined.

(** A topology change implements the update of the map from positions to
    accounts entry by entry: offline nodes free their lowest position, an empty
    account clears an occupied position, and any other entry sets it. *)
Theorem topology_change_refines `{GoSort} g number data g' :
  graph_wf g ->
  Transfer2NextGraph g number (mkNetTopology NetTopoTypeChange data) = Ok g' ->
  topo_steps (graph_map (NodeList g)) data (graph_map (NodeList g')).
Proof.
  intros Hwf Hm. destruct g. eapply modifyGraph_spec; [done|exact Hm].
Qed.

Definition sample_graph : TopologyGraph :=
  mkGraph [mkNode 11 0x2000 RoleValidator 0; mkNode 12 0x2001 RoleValidator 1;
           mkNode 13 0x3000 RoleBackupValidator 2] 2.

Lemma sample_graph_wf : graph_wf sample_graph.
Proof.
  split; simpl; [|repeat constructor; simpl; lia|lia].
  unfold positions. simpl. repeat constructor; lia.
Qed.

Lemma topology_change_refines_witness :
  topo_steps (graph_map (NodeList sample_graph))
    [mkTopoData 12 PosOffline; mkTopoData 13 0x2001; mkTopoData 0 0x3000]
    (graph_map [mkNode 11 0x2000 RoleValidator 0; mkNode 13 0x2001 RoleValidator 3]).
Proof.
  apply (topology_change_refines sample_graph 5 _
           (mkGraph [mkNode 11 0x2000 RoleValidator 0; mkNode 13 0x2001 RoleValidator 3] 3));
    [exact sample_graph_wf | reflexivity].
Defined.

(** A topology change can panic: when earlier entries of the same block
    have removed every node, an entry that addresses a position reads the last
    node of an empty list.  Otherwise the change succeeds. *)
Theorem topology_change_panics :
  (forall {E} g chg, modifyGraphByChgInfo (E := E) g chg = Panic <->
     NodeList g = [] /\ tdPosition chg <> PosOnline /\ tdPosition chg <> PosOffline) /\
  Transfer2NextGraph (mkGraph [mkNode 11 0x2000 RoleValidator 0] 0) 5
    (mkNetTopology NetTopoTypeChange [mkTopoData 11 PosOffline; mkTopoData 12 0x2000]) = Panic.
Proof. split; [intros; apply modifyGraphByChgInfo_panic|reflexivity]. Qed.
