(* ===== verification/TurnTimes.v ===== *)
(** * Turn clock of the leader service ([leaderelect2.0/turnTimes.go])

    A height starts with turn [0] (proof-of-stake phase, lengthened by the time
    reserved for mining the parent) followed by equally long re-election turns.
    The file models the clock with its [int64] and [uint32] arithmetic and
    proves that turns tile the time line, that [CalState] finds the turn a time
    belongs to, and that [CheckTimeLegal] accepts only times of that turn. *)

From S2P Require Import Prelude.

Inductive stateDef := stIdle | stPos | stReelect | stMining | stWaiting.

#[export] Instance stateDef_eq_dec : EqDecision stateDef.
Proof. solve_decision. Defined.

Record LeaderConfig := mkLeaderConfig {
  cfgParentMiningTime : Z;
  cfgPosOutTime : Z;
  cfgReelectOutTime : Z;
  cfgReelectHandleInterval : Z
}.

Record turnTimes := mkTurnTimes {
  beginTime : Z;
  parentMiningTime : Z;
  turnOutTime : Z;
  reelectHandleInterval : Z
}.

Definition newTurnTimes : turnTimes := mkTurnTimes 0 0 0 0.

(** [None] is the [ErrParamsIsNil] outcome. *)
Definition SetTimeConfig (tt : turnTimes) (config : option LeaderConfig) : option turnTimes :=
  match config with
  | None => None
  | Some c =>
      Some (mkTurnTimes (beginTime tt) (i64 (cfgParentMiningTime c))
                        (i64 (cfgPosOutTime c)) (i64 (cfgReelectHandleInterval c)))
  end.

Definition SetBeginTime (tt : turnTimes) (time : Z) : bool * turnTimes :=
  if time <=? beginTime tt then (false, tt)
  else (true, mkTurnTimes time (parentMiningTime tt) (turnOutTime tt)
                          (reelectHandleInterval tt)).

Definition CalTurnTime (tt : turnTimes) (consensusTurn reelectTurn : Z) : Z * Z :=
  let totalTurn := u32 (consensusTurn + reelectTurn) in
  if totalTurn =? 0 then
    (beginTime tt,
     i64 (i64 (beginTime tt + parentMiningTime tt) + turnOutTime tt))
  else
    let bt := i64 (i64 (beginTime tt + parentMiningTime tt)
                   + i64 (turnOutTime tt * totalTurn)) in
    (bt, i64 (bt + turnOutTime tt)).

Definition GetBeginTime (tt : turnTimes) (consensusTurn : Z) : Z :=
  fst (CalTurnTime tt consensusTurn 0).

Definition GetPosEndTime (tt : turnTimes) (consensusTurn : Z) : Z :=
  snd (CalTurnTime tt consensusTurn 0).

Definition CalState (tt : turnTimes) (consensusTurn time : Z) : stateDef * Z * Z :=
  if turnOutTime tt =? 0 then (stReelect, 0, 0)
  else
    let posTime :=
      if consensusTurn =? 0 then i64 (turnOutTime tt + parentMiningTime tt)
      else turnOutTime tt in
    let passTime := i64 (time - GetBeginTime tt consensusTurn) in
    if passTime <? posTime then (stPos, i64 (posTime - passTime), 0)
    else
      let reelectTurn :=
        u32 (u32 (Z.quot (i64 (passTime - posTime)) (turnOutTime tt)) + 1) in
      let endTime := snd (CalTurnTime tt consensusTurn reelectTurn) in
      (stReelect, i64 (endTime - time), reelectTurn).

(** [true] is the nil error. *)
Definition CheckTimeLegal (tt : turnTimes) (consensusTurn reelectTurn checkTime : Z) : bool :=
  let '(bt, et) := CalTurnTime tt consensusTurn reelectTurn in
  negb ((checkTime <=? bt) || (checkTime >=? et)).

(** ** Ideal clock *)

(** The bounds [2^62] on times and [2^31] on durations keep every
    intermediate [int64] in range for all [uint32] turns: real times are
    seconds since 1970 and durations a few seconds. *)
Record times_wf (tt : turnTimes) : Prop := {
  tw_begin : 0 <= beginTime tt < 2 ^ 61;
  tw_mining : 0 <= parentMiningTime tt < 2 ^ 30;
  tw_turn : 0 < turnOutTime tt < 2 ^ 28
}.

Definition turn_begin (tt : turnTimes) (n : Z) : Z :=
  if n =? 0 then beginTime tt
  else beginTime tt + parentMiningTime tt + turnOutTime tt * n.

Definition turn_end (tt : turnTimes) (n : Z) : Z :=
  beginTime tt + parentMiningTime tt + turnOutTime tt * (n + 1).

Section Clock.
Context (tt : turnTimes) (Hwf : times_wf tt).

Lemma CalTurnTime_ideal c r :
  0 <= c -> 0 <= r -> c + r < 2 ^ 32 ->
  CalTurnTime tt c r = (turn_begin tt (c + r), turn_end tt (c + r)).
Proof using Hwf.
  intros Hc Hr Hs. destruct Hwf as [? ? ?]. unfold CalTurnTime, turn_begin, turn_end.
  rewrite (u32_small (c + r)) by (unfold is_u32; lia).
  destruct (Z.eqb_spec (c + r) 0) as [E|E].
  - rewrite E. f_equal. rewrite (i64_small (beginTime tt + parentMiningTime tt)) by (unfold is_i64; lia).
    rewrite i64_small by (unfold is_i64; lia). ring.
  - assert (turnOutTime tt * (c + r) < 2 ^ 60) by nia.
    assert (0 <= turnOutTime tt * (c + r)) by nia.
    rewrite !(i64_small (beginTime tt + _)) by (unfold is_i64; lia).
    rewrite !(i64_small (turnOutTime tt * _)) by (unfold is_i64; lia).
    rewrite !(i64_small (_ + turnOutTime tt * (c + r))) by (unfold is_i64; lia).
    rewrite i64_small by (unfold is_i64; lia). f_equal. ring.
Qed.

Lemma turn_end_next n : 0 <= n -> turn_end tt n = turn_begin tt (n + 1).
Proof using Type.
  intros. unfold turn_end, turn_begin. destruct (Z.eqb_spec (n + 1) 0); [lia|done].
Qed.

Lemma turn_end_mono n m : 0 <= n <= m -> turn_end tt n <= turn_end tt m.
Proof using Hwf. destruct Hwf. unfold turn_end. nia. Qed.

(** The [CalState] computation, on the ideal clock. *)
Lemma CalState_ideal c time :
  is_u32 c -> 0 <= time < 2 ^ 61 ->
  time < turn_end tt (2 ^ 32 - 1) ->
  exists st rt,
    CalState tt c time = (st, turn_end tt (c + rt) - time, rt) /\
    0 <= rt /\ c + rt < 2 ^ 32 /\
    time < turn_end tt (c + rt) /\
    (rt = 0 -> st = stPos) /\
    (0 < rt -> st = stReelect /\ turn_begin tt (c + rt) <= time).
Proof using Hwf.
  unfold is_u32. intros Hc Ht Hlim. unfold CalState, GetBeginTime.
  pose proof Hwf as [? ? ?].
  destruct (Z.eqb_spec (turnOutTime tt) 0); [lia|].
  rewrite CalTurnTime_ideal by lia. rewrite Z.add_0_r. simpl.
  set (posTime := if c =? 0 then i64 (turnOutTime tt + parentMiningTime tt)
                  else turnOutTime tt).
  assert (turn_begin tt c + posTime = turn_end tt c /\ 0 < posTime < 2 ^ 31) as [Hpos Hpb].
  { unfold posTime, turn_begin, turn_end. destruct (Z.eqb_spec c 0) as [->|].
    - rewrite i64_small by (unfold is_i64; lia). lia.
    - lia. }
  assert (0 <= turn_begin tt c < 2 ^ 62).
  { unfold turn_begin. destruct (Z.eqb_spec c 0); [lia|]. nia. }
  rewrite (i64_small (time - _)) by (unfold is_i64; lia).
  destruct (Z.ltb_spec (time - turn_begin tt c) posTime) as [Hlt|Hge].
  - exists stPos, 0. rewrite i64_small by (unfold is_i64; lia).
    rewrite Z.add_0_r. split; [do 2 f_equal; lia|]. repeat split; lia.
  - rewrite (i64_small (time - _ - _)) by (unfold is_i64; lia).
    replace (time - turn_begin tt c - posTime) with (time - turn_end tt c) by lia.
    set (q := Z.quot (time - turn_end tt c) (turnOutTime tt)).
    assert (0 <= time - turn_end tt c) as Hnn by lia.
    assert (q = (time - turn_end tt c) / turnOutTime tt) as Eq
      by (apply Z.quot_div_nonneg; lia).
    pose proof (Z.div_mod (time - turn_end tt c) (turnOutTime tt) ltac:(lia)).
    pose proof (Z.mod_pos_bound (time - turn_end tt c) (turnOutTime tt) ltac:(lia)).
    assert (0 <= q) by (rewrite Eq; apply Z.div_pos; lia).
    rewrite <- Eq in *.
    assert (c + (q + 1) < 2 ^ 32).
    { unfold turn_end in *. nia. }
    rewrite (u32_small q) by (unfold is_u32; lia).
    rewrite (u32_small (q + 1)) by (unfold is_u32; lia).
    rewrite CalTurnTime_ideal by lia. simpl.
    assert (turn_begin tt (c + (q + 1)) <= time < turn_end tt (c + (q + 1))).
    { unfold turn_begin, turn_end in *. destruct (Z.eqb_spec (c + (q + 1)) 0); [lia|]. nia. }
    exists stReelect, (q + 1).
    rewrite i64_small by (unfold is_i64, turn_end in *; nia).
    split; [done|]. repeat split; lia.
Qed.
End Clock.

(** ** Theorems *)

(** Consecutive turns tile the time line: each turn is non-empty and the
    next turn starts exactly when it ends, across the boundary between the
    proof-of-stake turn and the re-election turns as well. *)
Theorem turns_contiguous tt c r :
  times_wf tt -> 0 <= c -> 0 <= r -> c + r + 1 < 2 ^ 32 ->
  fst (CalTurnTime tt c r) < snd (CalTurnTime tt c r) /\
  snd (CalTurnTime tt c r) = fst (CalTurnTime tt c (r + 1)).
Proof.
  intros Hwf Hc Hr Hs. rewrite !CalTurnTime_ideal by (done || lia). simpl. split.
  - destruct Hwf. unfold turn_begin, turn_end. bcase; nia.
  - rewrite turn_end_next by lia. f_equal. lia.
Qed.

Definition sample_times : turnTimes := mkTurnTimes 1558346400 20 20 3.

Lemma sample_times_wf : times_wf sample_times.
Proof. split; simpl; lia. Qed.

Lemma turns_contiguous_witness :
  snd (CalTurnTime sample_times 0 0) = fst (CalTurnTime sample_times 0 (0 + 1)).
Proof. apply turns_contiguous; [exact sample_times_wf | lia..]. Defined.

(** [CalState] reports the turn the given time falls in.  The remaining time
    it returns is positive and ends exactly at the end of that turn; the phase
    is proof-of-stake for re-election turn [0] and re-election otherwise, and a
    re-election turn is reported only once it has begun. *)
Theorem CalState_correct tt c time :
  times_wf tt -> is_u32 c -> 0 <= time < 2 ^ 61 -> time < turn_end tt (2 ^ 32 - 1) ->
  exists st remain rt,
    CalState tt c time = (st, remain, rt) /\
    0 < remain /\ time + remain = snd (CalTurnTime tt c rt) /\
    (rt = 0 -> st = stPos) /\
    (rt <> 0 -> st = stReelect /\ fst (CalTurnTime tt c rt) <= time).
Proof.
  intros Hwf Hc Ht Hl.
  destruct (CalState_ideal tt Hwf c time Hc Ht Hl) as (st & rt & H1 & H2 & H3 & H4 & H5 & H6).
  unfold is_u32 in Hc. exists st, (turn_end tt (c + rt) - time), rt. split; [done|].
  rewrite CalTurnTime_ideal by (done || lia). simpl. repeat split; [lia|lia|auto|..];
    apply H6; lia.
Qed.

Lemma CalState_correct_witness :
  exists st remain rt,
    CalState sample_times 0 1558346475 = (st, remain, rt) /\ 0 < remain.
Proof.
  destruct (CalState_correct sample_times 0 1558346475) as (st & remain & rt & H1 & H2 & _);
    [exact sample_times_wf | split; [discriminate|reflexivity]
    | split; [discriminate|reflexivity] | reflexivity |].
  exists st, remain, rt. split; [exact H1 | exact H2].
Defined.

(** The check a node applies to a received time stamp agrees with its own
    clock: a time accepted for re-election turn [r] is a time for which
    [CalState] computes turn [r], so no time is legal for two turns. *)
Theorem CheckTimeLegal_sound tt c r time :
  times_wf tt -> is_u32 c -> 0 <= r -> c + r < 2 ^ 32 -> 0 <= time < 2 ^ 61 ->
  CheckTimeLegal tt c r time = true ->
  exists st remain, CalState tt c time = (st, remain, r).
Proof.
  intros Hwf Hc Hr Hs Ht Hl. pose proof Hc as Hc'. unfold is_u32 in Hc'.
  unfold CheckTimeLegal in Hl. rewrite CalTurnTime_ideal in Hl by (done || lia).
  rewrite negb_true_iff, orb_false_iff, Z.geb_leb, !Z.leb_gt in Hl. destruct Hl as [Hb He].
  assert (time < turn_end tt (2 ^ 32 - 1)) as Hlim.
  { eapply Z.lt_le_trans; [exact He|]. apply turn_end_mono; [done|lia]. }
  destruct (CalState_ideal tt Hwf c time Hc Ht Hlim) as (st & rt & -> & H2 & H3 & H4 & H5 & H6).
  exists st. assert (rt = r) as ->; [|by eexists].
  destruct (decide (rt < r)).
  - assert (turn_end tt (c + rt) <= turn_begin tt (c + r)); [|lia].
    replace (c + r) with (c + r - 1 + 1) by lia. rewrite <- turn_end_next by lia.
    apply turn_end_mono; [done|lia].
  - destruct (decide (r < rt)); [|lia].
    destruct H6 as [_ H6]; [lia|].
    assert (turn_end tt (c + r) <= turn_begin tt (c + rt)); [|lia].
    replace (c + rt) with (c + rt - 1 + 1) by lia. rewrite <- turn_end_next by lia.
    apply turn_end_mono; [done|lia].
Qed.

Lemma CheckTimeLegal_sound_witness :
  exists st remain, CalState sample_times 0 1558346475 = (st, remain, 2).
Proof.
  apply CheckTimeLegal_sound;
    [exact sample_times_wf | split; [discriminate|reflexivity] | lia | lia
    | split; [discriminate|reflexivity] | reflexivity].
Defined.
