(* ===== verification/Float64.v ===== *)
(** * IEEE 754 binary64

    Go's [float64] arithmetic, on the Standard Library's specification floats:
    53 bits of precision, emax 1024, round to nearest even. *)

From Stdlib Require Export SpecFloat.
From S2P Require Import Prelude.

Definition f64_of_Z (z : Z) : spec_float := binary_normalize 53 1024 z 0 false.
Definition f64_mul (a b : spec_float) : spec_float := SFmul 53 1024 a b.
Definition f64_add (a b : spec_float) : spec_float := SFadd 53 1024 a b.
Definition f64_div (a b : spec_float) : spec_float := SFdiv 53 1024 a b.
Definition f64_ltb (a b : spec_float) : bool := SFltb a b.

(** [int(math.Ceil(x))] of a finite [x] whose ceiling fits an [int]. *)
Definition f64_ceil_int (x : spec_float) : Z :=
  match x with
  | S754_finite s m e =>
      let v := if s then Zneg m else Zpos m in
      if 0 <=? e then v * 2 ^ e else - ((- v) / 2 ^ (- e))
  | _ => 0
  end.

(** [int(x)] truncates toward zero. *)
Definition f64_trunc_int (x : spec_float) : Z :=
  match x with
  | S754_finite s m e =>
      let v := if s then Zneg m else Zpos m in
      if 0 <=? e then v * 2 ^ e else Z.quot v (2 ^ (- e))
  | _ => 0
  end.
