(* ===== verification/Header.v ===== *)
(** * Protocol versions and block headers ([params/manversion/version.go], [core/types/header.go])

    Version names are compared as byte strings.  Signature texts of the versions
    are not modelled.

    Of a header, the fields that the modelled components read.  Hashes are computed by
    keccak over the RLP encoding of the header; [HeaderHash] collects the three
    hashes the components use, and is a parameter of what uses it. *)

From stdpp Require Export strings.
From S2P Require Import Prelude.

(** ** Versions *)

Definition VersionAlpha : string := "1.0.0.0".
Definition VersionBeta : string := "1.0.0.1".
Definition VersionGamma : string := "1.0.0.2".
Definition VersionDelta : string := "1.0.0.3".
Definition VersionAIMine : string := "1.0.0.4".

Definition VersionList : list string :=
  [VersionAlpha; VersionBeta; VersionGamma; VersionDelta; VersionAIMine].

Definition VersionCmp (version1 version2 : string) : Z :=
  if String.eqb version1 version2 then 0
  else match String.compare version1 version2 with
       | Gt => 1
       | _ => -1
       end.

Definition IsCorrectVersion (version : string) : bool :=
  if (String.length version =? 0)%nat then false
  else existsb (String.eqb version) VersionList.

Definition newP2PVersionTimeStamp : Z := 1558346400.

Definition CanSwitchGammaCanonicalChain (currentTime : Z) : bool :=
  newP2PVersionTimeStamp <? currentTime.

(** The released versions are listed from the oldest to the newest. *)
Lemma VersionList_ordered :
  StronglySorted (fun a b => VersionCmp a b = -1) VersionList.
Proof. repeat constructor. Qed.

(** ** The version of a block ([consensus/blkmanage/common.go])

    A new version starts at a fixed height; every other block has the version
    of its parent. *)

Definition VersionNumGamma : Z := 5.
Definition VersionNumDelta : Z := 12.
Definition VersionNumAIMine : Z := 17.

Definition ProduceBlockVersion (num : Z) (preVersion : string) : string :=
  if num =? VersionNumGamma then VersionGamma
  else if num =? VersionNumDelta then VersionDelta
  else if num =? VersionNumAIMine then VersionAIMine
  else preVersion.

(** Whether the version is accepted. *)
Definition VerifyBlockVersion (num : Z) (curVersion preVersion : string) : bool :=
  if num =? VersionNumGamma then VersionCmp curVersion VersionGamma =? 0
  else if num =? VersionNumDelta then VersionCmp curVersion VersionDelta =? 0
  else if num =? VersionNumAIMine then VersionCmp curVersion VersionAIMine =? 0
  else String.eqb curVersion preVersion.

(** The verifier accepts exactly the version the producer writes. *)
Lemma VerifyBlockVersion_iff num cur pre :
  VerifyBlockVersion num cur pre = true <-> cur = ProduceBlockVersion num pre.
Proof.
  assert (Hcmp : forall a b, (VersionCmp a b =? 0) = true <-> a = b).
  { intros a b. unfold VersionCmp. destruct (String.eqb_spec a b); [done|].
    split; [|done]. by destruct (String.compare a b). }
  unfold VerifyBlockVersion, ProduceBlockVersion.
  repeat (case_match; [apply Hcmp|]). apply String.eqb_eq.
Qed.

(** ** Headers *)

Record Header := mkHeader {
  hParentHash : Z;
  hLeader : Z;
  hCoinbase : Z;
  hNumber : Z;
  hTime : Z;
  hSignatures : list Z;
  hVersion : string;
  hVersionSignatures : list Z
}.

Class HeaderHash := {
  header_Hash : Header -> Z;
  HashNoSigns : Header -> Z;
  HashNoSignsAndNonce : Header -> Z
}.

Definition superLeader : Z := 0x8111111111111111111111111111111111111111.

Definition IsSuperHeader (h : Header) : bool := hLeader h =? superLeader.

(** [common.BytesToHash] of a byte string: big-endian, cropped from the left. *)
Fixpoint string_bytes (s : string) : list Z :=
  match s with
  | EmptyString => []
  | String a s => Z.of_N (Ascii.N_of_ascii a) :: string_bytes s
  end.

Definition BytesToHash (b : list Z) : Z :=
  foldl (fun h x => (h * 256 + x) mod 2 ^ 256) 0 b.
