(* ===== verification/Address.v ===== *)
(** * Printed addresses ([base58/base58.go], [crc8/crc8.go])

    An address is printed as the currency, a dot, the base-58 form of its twenty
    bytes and one check character: the CRC-8 of everything before it, modulo 58.
    Strings are lists of bytes. *)

From S2P Require Import Header Prelude.

(** ** CRC-8 *)

Record Params := mkParams {
  Poly : Z;
  Init_ : Z;
  RefIn : bool;
  RefOut : bool;
  XorOut : Z;
  Check_ : Z
}.

Definition CRC8 : Params := mkParams 0x07 0x00 false false 0x00 0xF4.
Definition CRC8_CDMA2000 : Params := mkParams 0x9B 0xFF false false 0x00 0xDA.
Definition CRC8_DARC : Params := mkParams 0x39 0x00 true true 0x00 0x15.
Definition CRC8_DVB_S2 : Params := mkParams 0xD5 0x00 false false 0x00 0xBC.
Definition CRC8_EBU : Params := mkParams 0x1D 0xFF true true 0x00 0x97.
Definition CRC8_I_CODE : Params := mkParams 0x1D 0xFD false false 0x00 0x7E.
Definition CRC8_ITU : Params := mkParams 0x07 0x00 false false 0x55 0xA1.
Definition CRC8_MAXIM : Params := mkParams 0x31 0x00 true true 0x00 0xA1.
Definition CRC8_ROHC : Params := mkParams 0x07 0xFF true true 0x00 0xD0.
Definition CRC8_WCDMA : Params := mkParams 0x9B 0x00 true true 0x00 0x25.

Record Table := mkTable { tParams : Params; tData : list Z }.

Fixpoint reverseBits (n : nat) (width val rval : Z) : Z :=
  match n with
  | O => rval
  | S n =>
      let i := width - 1 - Z.of_nat n in
      reverseBits n width val
        (if Z.land val (Z.shiftl 1 i) =? 0 then rval
         else Z.lor rval (Z.shiftr (Z.shiftl 1 (width - 1)) i))
  end.

Definition ReverseByte (val : Z) : Z := reverseBits 8 8 val 0.
Definition ReverseUint8 (val : Z) : Z := ReverseByte val.
Definition ReverseUint16 (val : Z) : Z := reverseBits 16 16 val 0.

(** One round of the inner loop of [MakeTable]. *)
Definition crcShift (poly crc : Z) : Z :=
  let bit := negb (Z.land crc 0x80 =? 0) in
  let crc := u8 (Z.shiftl crc 1) in
  if bit then Z.lxor crc poly else crc.

Definition tableEntry (poly : Z) (n : nat) : Z := Nat.iter 8 (crcShift poly) (Z.of_nat n).

Definition MakeTable (params : Params) : Table :=
  mkTable params (tableEntry (Poly params) <$> seq 0 256).

Definition Init (table : Table) : Z := Init_ (tParams table).

(** The index is a byte and the table has 256 entries. *)
Definition Update (crc : Z) (data : list Z) (table : Table) : Z :=
  foldl (fun crc d =>
           let d := if RefIn (tParams table) then ReverseByte d else d in
           nth (Z.to_nat (Z.lxor crc d)) (tData table) 0) crc data.

Definition Complete (crc : Z) (table : Table) : Z :=
  let crc := if RefOut (tParams table) then ReverseUint8 crc else crc in
  Z.lxor crc (XorOut (tParams table)).

Definition Checksum (data : list Z) (table : Table) : Z :=
  Complete (Update (Init table) data table) table.

Definition CalCRC8 (data : list Z) : Z := Checksum data (MakeTable CRC8).

(** The algorithms give the check values listed with them. *)
Lemma crc_check_values :
  Forall (fun p => Checksum (string_bytes "123456789") (MakeTable p) = Check_ p)
    [CRC8; CRC8_CDMA2000; CRC8_DARC; CRC8_DVB_S2; CRC8_EBU; CRC8_I_CODE; CRC8_ITU; CRC8_MAXIM; CRC8_ROHC; CRC8_WCDMA].
Proof. repeat constructor; vm_compute; reflexivity. Qed.

(** ** Base 58 *)

Definition alphabet : list Z :=
  string_bytes "123456789ABCDEFGHJKLMNPQRSTUVWXYZabcdefghijkmnopqrstuvwxyz".
Definition alphabetIdx0 : Z := 49.

Definition b58 : list Z :=
  [  255; 255; 255; 255; 255; 255; 255; 255; 255; 255; 255; 255; 255; 255; 255; 255;
    255; 255; 255; 255; 255; 255; 255; 255; 255; 255; 255; 255; 255; 255; 255; 255;
    255; 255; 255; 255; 255; 255; 255; 255; 255; 255; 255; 255; 255; 255; 255; 255;
    255;   0;   1;   2;   3;   4;   5;   6;   7;   8; 255; 255; 255; 255; 255; 255;
    255;   9;  10;  11;  12;  13;  14;  15;  16; 255;  17;  18;  19;  20;  21; 255;
     22;  23;  24;  25;  26;  27;  28;  29;  30;  31;  32; 255; 255; 255; 255; 255;
    255;  33;  34;  35;  36;  37;  38;  39;  40;  41;  42;  43; 255;  44;  45;  46;
     47;  48;  49;  50;  51;  52;  53;  54;  55;  56;  57; 255; 255; 255; 255; 255;
    255; 255; 255; 255; 255; 255; 255; 255; 255; 255; 255; 255; 255; 255; 255; 255;
    255; 255; 255; 255; 255; 255; 255; 255; 255; 255; 255; 255; 255; 255; 255; 255;
    255; 255; 255; 255; 255; 255; 255; 255; 255; 255; 255; 255; 255; 255; 255; 255;
    255; 255; 255; 255; 255; 255; 255; 255; 255; 255; 255; 255; 255; 255; 255; 255;
    255; 255; 255; 255; 255; 255; 255; 255; 255; 255; 255; 255; 255; 255; 255; 255;
    255; 255; 255; 255; 255; 255; 255; 255; 255; 255; 255; 255; 255; 255; 255; 255;
    255; 255; 255; 255; 255; 255; 255; 255; 255; 255; 255; 255; 255; 255; 255; 255;
    255; 255; 255; 255; 255; 255; 255; 255; 255; 255; 255; 255; 255; 255; 255; 255].

(** The digits of [x], the lowest first; the loops stop when [x] is used up. *)
Fixpoint digits (base : Z) (fuel : nat) (x : Z) : list Z :=
  match fuel with
  | O => []
  | S fuel => if x <=? 0 then [] else x mod base :: digits base fuel (x / base)
  end.

(** Enough for every base: each round at least halves [x]. *)
Definition digits_of (base x : Z) : list Z := digits base (Z.to_nat (Z.log2 x + 1)) x.

(** [big.Int.SetBytes] and [big.Int.Bytes] *)
Definition SetBytes (b : list Z) : Z := foldl (fun x d => x * 256 + d) 0 b.
Definition Bytes (x : Z) : list Z := rev (digits_of 256 x).

(** The length of the run of [c] at the front. *)
Fixpoint leading (c : Z) (b : list Z) : nat :=
  match b with
  | x :: b => if x =? c then S (leading c b) else O
  | [] => O
  end.

(** The loop of [Decode] from the last character; [None] on a character outside
    the alphabet. *)
Fixpoint decodeLoop (b : list Z) (answer j : Z) : option Z :=
  match b with
  | [] => Some answer
  | c :: b =>
      let tmp := nth (Z.to_nat c) b58 255 in
      if tmp =? 255 then None else decodeLoop b (answer + j * tmp) (j * 58)
  end.

Definition Decode (b : list Z) : list Z :=
  match decodeLoop (rev b) 0 1 with
  | None => []
  | Some answer => replicate (leading alphabetIdx0 b) 0 ++ Bytes answer
  end.

Definition Encode (b : list Z) : list Z :=
  let x := SetBytes b in
  let answer := (fun m => nth (Z.to_nat m) alphabet 0) <$> digits_of 58 x in
  rev (answer ++ replicate (leading 0 b) alphabetIdx0).

Definition EncodeInt (data : Z) : list Z :=
  if Z.of_nat (length alphabet) - 1 <? data then [] else [nth (Z.to_nat data) alphabet 0].

(** ** Addresses *)

(** The twenty bytes of an address, and [common.BytesToAddress], which keeps the
    last twenty bytes it is given. *)
Definition address_bytes (a : Z) : list Z :=
  let b := Bytes a in replicate (20 - length b) 0 ++ b.
Definition BytesToAddress (b : list Z) : Z := SetBytes b mod 2 ^ 160.

Definition dot : Z := 46.

Definition Base58EncodeToString (currency : list Z) (b : Z) : list Z :=
  let str := Encode (address_bytes b) in
  let strAddr := currency ++ dot :: str in
  let crc := CalCRC8 strAddr in
  strAddr ++ EncodeInt (crc mod 58).

(** Upper-case letters of Latin-1, as [unicode.IsUpper] of a byte. *)
Definition isUpper (ch : Z) : bool :=
  ((65 <=? ch) && (ch <=? 90)) || ((192 <=? ch) && (ch <=? 222) && negb (ch =? 215)).

Definition IsValidityManCurrency (s : list Z) : bool :=
  if ((length s <? 3) || (8 <? length s))%nat then false else forallb isUpper s.

(** UTF-8 forms of the characters [strings.TrimSpace] removes. *)
Definition white : list (list Z) :=
  [[9]; [10]; [11]; [12]; [13]; [32]; [0xC2; 0x85]; [0xC2; 0xA0]; [0xE1; 0x9A; 0x80];
   [0xE2; 0x80; 0x80]; [0xE2; 0x80; 0x81]; [0xE2; 0x80; 0x82]; [0xE2; 0x80; 0x83];
   [0xE2; 0x80; 0x84]; [0xE2; 0x80; 0x85]; [0xE2; 0x80; 0x86]; [0xE2; 0x80; 0x87];
   [0xE2; 0x80; 0x88]; [0xE2; 0x80; 0x89]; [0xE2; 0x80; 0x8A]; [0xE2; 0x80; 0xA8];
   [0xE2; 0x80; 0xA9]; [0xE2; 0x80; 0xAF]; [0xE2; 0x81; 0x9F]; [0xE3; 0x80; 0x80]].

Fixpoint strip (p s : list Z) : option (list Z) :=
  match p, s with
  | [], _ => Some s
  | x :: p, y :: s => if x =? y then strip p s else None
  | _ :: _, [] => None
  end.

(** Removes the first of [seqs] that [s] starts with. *)
Fixpoint strip_any (seqs : list (list Z)) (s : list Z) : option (list Z) :=
  match seqs with
  | [] => None
  | p :: seqs => match strip p s with Some s => Some s | None => strip_any seqs s end
  end.

Fixpoint trimLeft (seqs : list (list Z)) (fuel : nat) (s : list Z) : list Z :=
  match fuel with
  | O => s
  | S fuel => match strip_any seqs s with Some s => trimLeft seqs fuel s | None => s end
  end.

Definition TrimSpace (s : list Z) : list Z :=
  let s := trimLeft white (length s) s in
  rev (trimLeft (@rev Z <$> white) (length s) (rev s)).

(** [strings.Split(s, ".")] *)
Fixpoint Split (s : list Z) : list (list Z) :=
  match s with
  | [] => [[]]
  | c :: s =>
      match Split s with
      | [] => []
      | part :: parts => if c =? dot then [] :: part :: parts else (c :: part) :: parts
      end
  end.

Inductive address_error := ErrInvalid.

(** [string(crc)] of a byte above 127 is a two-byte string, which differs from
    every check character as the single byte does. *)
Definition Base58DecodeToAddress (strData : list Z) : res address_error Z :=
  let strData := TrimSpace strData in
  if (length strData =? 0)%nat then Err ErrInvalid
  else if negb (existsb (Z.eqb dot) strData) then Err ErrInvalid
  else
    let* currency := go_index (Split strData) 0 in
    if negb (IsValidityManCurrency currency) then Err ErrInvalid
    else
      let* crc := go_index strData (Z.of_nat (length strData) - 1) in
      let crc1 := CalCRC8 (take (length strData - 1) strData) in
      let strCrc := EncodeInt (crc1 mod 58) in
      if negb (bool_decide (strCrc = [crc])) then Err ErrInvalid
      else
        let* tmpaddres := go_index (Split strData) 1 in
        match tmpaddres with
        | [] => Panic
        | _ :: _ =>
            Ok (BytesToAddress (Decode (take (length tmpaddres - 1) tmpaddres)))
        end.

(** ** Digits *)

Definition value (base : Z) (l : list Z) : Z := foldr (fun d v => d + base * v) 0 l.

Definition digit (base d : Z) : Prop := 0 <= d < base.

(** No zero digit at the high end. *)
Definition minimal (l : list Z) : Prop := forall d l', l = l' ++ [d] -> d <> 0.

Lemma digits_value base fuel x :
  2 <= base -> 0 <= x < 2 ^ Z.of_nat fuel ->
  value base (digits base fuel x) = x /\ Forall (digit base) (digits base fuel x).
Proof.
  intros Hb. revert x. induction fuel as [|fuel IH]; intros x Hx.
  { change (2 ^ Z.of_nat 0) with 1 in Hx. split; [simpl; lia|constructor]. }
  cbn [digits]. destruct (Z.leb_spec x 0); [split; [simpl; lia|constructor]|].
  rewrite Nat2Z.inj_succ, Z.pow_succ_r in Hx by lia.
  pose proof (Z.div_mod x base ltac:(lia)). pose proof (Z.mod_pos_bound x base ltac:(lia)).
  destruct (IH (x / base)) as [Hv Hd].
  { split; [apply Z.div_pos; lia|]. apply Z.div_lt_upper_bound; nia. }
  split; [simpl; rewrite Hv; lia|]. by constructor.
Qed.

Lemma digits_minimal base fuel x :
  2 <= base -> 0 <= x < 2 ^ Z.of_nat fuel -> minimal (digits base fuel x).
Proof.
  intros Hb. revert x. induction fuel as [|fuel IH]; intros x Hx d l' Hl; [by destruct l'|].
  cbn [digits] in Hl. destruct (Z.leb_spec x 0); [by destruct l'|].
  rewrite Nat2Z.inj_succ, Z.pow_succ_r in Hx by lia.
  pose proof (Z.div_mod x base ltac:(lia)).
  destruct l' as [|e l']; simpl in Hl; injection Hl as He Hl; [|].
  - subst d. intros Hz. assert (0 < x / base) by nia. destruct fuel as [|fuel].
    + change (2 ^ Z.of_nat 0) with 1 in Hx. assert (x = 1) as -> by lia.
      rewrite Z.mod_small in Hz; lia.
    + cbn [digits] in Hl. destruct (Z.leb_spec (x / base) 0); [lia|done].
  - apply (IH (x / base)) with (l' := l'); [|done].
    split; [apply Z.div_pos; lia|]. apply Z.div_lt_upper_bound; nia.
Qed.

Lemma digits_of_spec base x :
  2 <= base -> 0 <= x ->
  value base (digits_of base x) = x /\ Forall (digit base) (digits_of base x) /\
  minimal (digits_of base x).
Proof.
  intros Hb Hx. assert (0 <= x < 2 ^ Z.of_nat (Z.to_nat (Z.log2 x + 1))).
  { pose proof (Z.log2_nonneg x). rewrite Z2Nat.id by lia. split; [done|].
    destruct (Z.eq_dec x 0) as [->|]; [reflexivity|]. rewrite Z.add_1_r.
    apply Z.log2_spec. lia. }
  destruct (digits_value base (Z.to_nat (Z.log2 x + 1)) x) as [Hv Hd]; [done..|].
  split; [done|]. split; [done|]. by apply digits_minimal.
Qed.

Lemma value_app base l k :
  0 <= base -> value base (l ++ k) = value base l + base ^ Z.of_nat (length l) * value base k.
Proof.
  intros Hb. induction l as [|d l IH]; [simpl; rewrite Z.pow_0_r; lia|].
  cbn [app value foldr length]. fold (value base (l ++ k)) (value base l).
  rewrite IH, Nat2Z.inj_succ, Z.pow_succ_r by lia. lia.
Qed.

(** Minimal digit strings are determined by their value. *)
Lemma value_inj base l k :
  2 <= base -> Forall (digit base) l -> Forall (digit base) k -> minimal l -> minimal k ->
  value base l = value base k -> l = k.
Proof.
  intros Hb. revert k.
  assert (Hz : forall l, Forall (digit base) l -> minimal l -> value base l = 0 -> l = []).
  { clear l. induction l as [|d l IH]; intros Hd Hm Hv; [done|exfalso].
    apply Forall_cons in Hd as [Hd Hl]. simpl in Hv. fold (value base l) in Hv.
    assert (0 <= value base l).
    { clear -Hl Hb. induction Hl as [|e l He Hl IH]; simpl; [lia|].
      fold (value base l). unfold digit in He. nia. }
    unfold digit in Hd. assert (d = 0 /\ value base l = 0) as [-> H0] by nia.
    rewrite (IH Hl) in Hm; [by apply (Hm 0 [])| |done].
    intros e l' ->. by apply (Hm e (0 :: l')). }
  induction l as [|d l IH]; intros k Hl Hk Hml Hmk Hv; [symmetry; by apply Hz|].
  destruct k as [|e k]; [by apply Hz in Hv|].
  apply Forall_cons in Hl as [Hd Hl], Hk as [He Hk]. simpl in Hv.
  fold (value base l) (value base k) in Hv. unfold digit in Hd, He.
  destruct (Z.div_mod_unique base (value base l) (value base k) d e) as [Hv' ->]; [lia..|].
  f_equal. apply IH; try done.
  - intros x l' ->. by apply (Hml x (e :: l')).
  - intros x k' ->. by apply (Hmk x (e :: k')).
Qed.

(** ** Base 58 round trip *)

Definition char (m : Z) : Z := nth (Z.to_nat m) alphabet 0.

Definition char_fact (m : Z) : bool :=
  (nth (Z.to_nat (char m)) b58 255 =? m) && Bool.eqb (char m =? alphabetIdx0) (m =? 0)
  && negb (char m =? dot) && (49 <=? char m) && (char m <=? 122).

Lemma char_facts m :
  digit 58 m ->
  nth (Z.to_nat (char m)) b58 255 = m /\ (char m = alphabetIdx0 <-> m = 0) /\
  char m <> dot /\ 49 <= char m <= 122.
Proof.
  intros Hm. assert (Hall : forallb char_fact (Z.of_nat <$> seq 0 58) = true) by reflexivity.
  rewrite forallb_forall in Hall. specialize (Hall m).
  assert (Hf : char_fact m = true).
  { apply Hall. rewrite <- list_elem_of_In. apply list_elem_of_fmap. exists (Z.to_nat m).
    unfold digit in Hm. split; [lia|]. apply elem_of_seq. lia. }
  unfold char_fact in Hf. rewrite !andb_true_iff, negb_true_iff, !Z.leb_le, Z.eqb_eq, Z.eqb_neq in Hf.
  destruct Hf as ((((H1 & H2) & H3) & H4) & H5). split_and!; try done.
  apply Bool.eqb_prop in H2. rewrite <- !Z.eqb_eq, H2. done.
Qed.

Lemma decodeLoop_chars ds a j :
  Forall (digit 58) ds -> decodeLoop (char <$> ds) a j = Some (a + j * value 58 ds).
Proof.
  intros Hd. revert a j. induction Hd as [|d ds Hd _ IH]; intros a j.
  { simpl. f_equal. lia. }
  rewrite fmap_cons. cbn [decodeLoop]. destruct (char_facts d Hd) as [-> _].
  destruct (Z.eqb_spec d 255); [unfold digit in Hd; lia|].
  rewrite IH. simpl. fold (value 58 ds). f_equal. lia.
Qed.

Lemma leading_app c n l : leading c (replicate n c ++ l) = (n + leading c l)%nat.
Proof. induction n as [|n IH]; [done|]. simpl. rewrite Z.eqb_refl. by rewrite IH. Qed.

Lemma leading_split c b :
  exists b', b = replicate (leading c b) c ++ b' /\ leading c b' = 0%nat.
Proof.
  induction b as [|x b (b' & Hb & Hl)]; [by exists []|]. simpl.
  destruct (Z.eqb_spec x c) as [->|Hx].
  - exists b'. simpl. by rewrite <- Hb.
  - exists (x :: b). simpl. by destruct (Z.eqb_spec x c).
Qed.

Lemma leading_minimal c ds (f : Z -> Z) :
  (forall d, d ∈ ds -> f d = c -> d = 0) -> minimal ds -> leading c (rev (f <$> ds)) = 0%nat.
Proof.
  intros Hf Hm. destruct ds as [|d l _] using rev_ind; [done|].
  rewrite fmap_app, rev_app_distr. simpl. destruct (Z.eqb_spec (f d) c) as [Hc|]; [|done].
  exfalso. apply (Hm d l eq_refl), Hf; [set_solver|done].
Qed.

Lemma SetBytes_value b : SetBytes b = value 256 (rev b).
Proof.
  unfold SetBytes. induction b as [|x b IH] using rev_ind; [done|].
  rewrite foldl_snoc, IH, rev_app_distr. simpl. fold (value 256 (rev b)). lia.
Qed.

Lemma value_zeros base n : value base (replicate n 0) = 0.
Proof. induction n as [|n IH]; [done|]. simpl. fold (value base (replicate n 0)). lia. Qed.

Lemma rev_replicate {A} n (x : A) : rev (replicate n x) = replicate n x.
Proof. rewrite rev_alt. apply reverse_replicate. Qed.

Lemma Forall_rev_digits base b : Forall (digit base) b -> Forall (digit base) (rev b).
Proof. rewrite rev_alt. change (rev_append b []) with (reverse b). by rewrite Forall_reverse. Qed.

(** A byte string is its leading zeros followed by the bytes of its value. *)
Lemma Bytes_SetBytes b :
  Forall (digit 256) b -> replicate (leading 0 b) 0 ++ Bytes (SetBytes b) = b.
Proof.
  intros Hb. destruct (leading_split 0 b) as (b' & Hs & Hl). rewrite Hs at 3. f_equal.
  rewrite Hs in Hb. apply Forall_app in Hb as [_ Hb].
  assert (Hv : SetBytes b = value 256 (rev b')).
  { rewrite SetBytes_value, Hs, rev_app_distr, value_app, rev_replicate, value_zeros by lia. lia. }
  unfold Bytes. rewrite <- (rev_involutive b'). f_equal.
  destruct (digits_of_spec 256 (SetBytes b)) as (H1 & H2 & H3); [lia|..].
  { rewrite Hv. clear -Hb. apply Forall_rev_digits in Hb.
    induction Hb as [|d l Hd _ IH]; simpl; [lia|]. fold (value 256 l). unfold digit in Hd. lia. }
  apply (value_inj 256); [lia|done|by apply Forall_rev_digits|done| |congruence].
  intros d l' Hr. apply (f_equal (@rev Z)) in Hr. rewrite rev_involutive, rev_app_distr in Hr.
  subst b'. simpl in Hl. by destruct (Z.eqb_spec d 0).
Qed.

Lemma SetBytes_nonneg b : Forall (digit 256) b -> 0 <= SetBytes b.
Proof.
  intros Hb. rewrite SetBytes_value. apply Forall_rev_digits in Hb.
  induction Hb as [|d l Hd _ IH]; simpl; [lia|]. fold (value 256 l). unfold digit in Hd. lia.
Qed.

Lemma Encode_eq b :
  Encode b = replicate (leading 0 b) alphabetIdx0 ++ rev (char <$> digits_of 58 (SetBytes b)).
Proof. unfold Encode. rewrite rev_app_distr, rev_replicate. done. Qed.

Lemma Decode_Encode b : Forall (digit 256) b -> Decode (Encode b) = b.
Proof.
  intros Hb. destruct (digits_of_spec 58 (SetBytes b)) as (Hv & Hd & Hm);
    [lia|by apply SetBytes_nonneg|].
  unfold Decode. rewrite Encode_eq, rev_app_distr, rev_involutive, rev_replicate.
  replace (replicate (leading 0 b) alphabetIdx0) with (char <$> replicate (leading 0 b) 0) at 1
    by (by rewrite fmap_replicate).
  rewrite <- fmap_app, decodeLoop_chars.
  2: { apply Forall_app. split; [done|]. apply Forall_replicate. unfold digit. lia. }
  rewrite value_app, value_zeros, Hv by lia.
  replace (0 + 1 * (SetBytes b + 58 ^ _ * 0)) with (SetBytes b) by lia.
  rewrite leading_app, leading_minimal; [|..|done].
  - rewrite Nat.add_0_r. by apply Bytes_SetBytes.
  - intros d Hin Hc. rewrite Forall_forall in Hd. by apply (char_facts d (Hd d Hin)).
Qed.

(** ** Address round trip *)

Lemma address_bytes_digits a : 0 <= a -> Forall (digit 256) (address_bytes a).
Proof.
  intros Ha. destruct (digits_of_spec 256 a) as (_ & Hd & _); [lia..|].
  apply Forall_app. split; [apply Forall_replicate; unfold digit; lia|].
  by apply Forall_rev_digits.
Qed.

Lemma SetBytes_address a : 0 <= a -> SetBytes (address_bytes a) = a.
Proof.
  intros Ha. destruct (digits_of_spec 256 a) as (Hv & _); [lia..|].
  unfold address_bytes, Bytes.
  rewrite SetBytes_value, rev_app_distr, rev_involutive, value_app, rev_replicate, value_zeros by lia.
  rewrite Hv. lia.
Qed.

(** Neither the currency nor the check character can be trimmed. *)
Lemma strip_any_upper x y s :
  isUpper x = true -> isUpper y = true -> strip_any white (x :: y :: s) = None.
Proof.
  unfold isUpper. rewrite !orb_true_iff, !andb_true_iff, !Z.leb_le. intros Hx Hy.
  cbn [strip_any white strip].
  repeat match goal with
  | |- context [?a =? x] => destruct (Z.eqb_spec a x); [try (exfalso; lia)|]
  | |- context [?a =? y] => destruct (Z.eqb_spec a y); [try (exfalso; lia)|]
  end; done.
Qed.

Lemma strip_any_char c s : 49 <= c <= 122 -> strip_any (@rev Z <$> white) (c :: s) = None.
Proof.
  intros Hc. cbn [fmap list_fmap white rev app strip_any strip].
  repeat match goal with
  | |- context [?a =? c] => destruct (Z.eqb_spec a c); [exfalso; lia|]
  end; done.
Qed.

Lemma trimLeft_none seqs n s : strip_any seqs s = None -> trimLeft seqs n s = s.
Proof. intros Hs. destruct n; [done|]. simpl. by rewrite Hs. Qed.

Lemma currency_shape cur :
  IsValidityManCurrency cur = true ->
  Forall (fun c => isUpper c = true) cur /\ exists x y cur', cur = x :: y :: cur'.
Proof.
  unfold IsValidityManCurrency. destruct (_ || _)%nat eqn:Hl; [done|]. intros Hf. split.
  - apply Forall_forall. intros c Hc. rewrite forallb_forall in Hf.
    apply Hf. by rewrite <- list_elem_of_In.
  - apply orb_false_iff in Hl as [Hl _]. apply Nat.ltb_ge in Hl.
    destruct cur as [|x [|y cur']]; simpl in Hl; [lia..|]. by exists x, y, cur'.
Qed.

Lemma TrimSpace_printed cur s c :
  IsValidityManCurrency cur = true -> 49 <= c <= 122 ->
  TrimSpace (cur ++ s ++ [c]) = cur ++ s ++ [c].
Proof.
  intros Hcur Hc. destruct (currency_shape _ Hcur) as (Hu & x & y & cur' & ->).
  apply Forall_cons in Hu as [Hx Hu]. apply Forall_cons in Hu as [Hy _].
  unfold TrimSpace. rewrite (trimLeft_none white) by by apply strip_any_upper.
  rewrite (trimLeft_none (@rev Z <$> white)).
  - apply rev_involutive.
  - rewrite app_assoc, rev_app_distr. by apply strip_any_char.
Qed.

Lemma Split_nodot l : Forall (fun c => c <> dot) l -> Split l = [l].
Proof.
  induction 1 as [|c l Hc _ IH]; [done|]. cbn [Split]. rewrite IH.
  by destruct (Z.eqb_spec c dot).
Qed.

Lemma Split_first cur s :
  Forall (fun c => c <> dot) cur -> Split (cur ++ dot :: s) = cur :: Split s.
Proof.
  assert (Hne : forall l, exists p ps, Split l = p :: ps).
  { induction l as [|c l (p & ps & Hp)]; simpl; [by exists [], []|]. rewrite Hp.
    destruct (c =? dot); eauto. }
  induction 1 as [|c l Hc _ IH].
  - cbn [app Split]. destruct (Hne s) as (p & ps & ->). by rewrite Z.eqb_refl.
  - cbn [app Split]. rewrite IH. by destruct (Z.eqb_spec c dot).
Qed.

Lemma upper_nodot cur :
  Forall (fun c => isUpper c = true) cur -> Forall (fun c => c <> dot) cur.
Proof. intros Hu. eapply Forall_impl; [exact Hu|]. by intros c Hc ->. Qed.

Lemma EncodeInt_crc x : EncodeInt (x mod 58) = [char (x mod 58)] /\ digit 58 (x mod 58).
Proof.
  pose proof (Z.mod_pos_bound x 58 ltac:(lia)). split; [|done]. unfold EncodeInt.
  change (Z.of_nat (length alphabet) - 1) with 57.
  destruct (Z.ltb_spec 57 (x mod 58)); [lia|done].
Qed.

(** A string of a currency, a dot and a body, closed by its check character,
    passes every check: the body between the first two dots is decoded. *)
Lemma decode_checked cur body :
  IsValidityManCurrency cur = true ->
  Base58DecodeToAddress
    ((cur ++ dot :: body) ++ EncodeInt (CalCRC8 (cur ++ dot :: body) mod 58)) =
  let c := char (CalCRC8 (cur ++ dot :: body) mod 58) in
  match Split (body ++ [c]) with
  | [] | [] :: _ => Panic
  | tmp :: _ => Ok (BytesToAddress (Decode (take (length tmp - 1) tmp)))
  end.
Proof.
  intros Hcur. set (s := cur ++ dot :: body). set (crc := CalCRC8 s mod 58).
  destruct (EncodeInt_crc (CalCRC8 s)) as [He Hd]. fold crc in He, Hd. rewrite He.
  destruct (char_facts _ Hd) as (_ & _ & _ & Hr).
  destruct (currency_shape _ Hcur) as (Hu & _).
  assert (Hs : s ++ [char crc] = cur ++ dot :: (body ++ [char crc])).
  { unfold s. by rewrite <- app_assoc. }
  assert (Ht : TrimSpace (s ++ [char crc]) = s ++ [char crc]).
  { rewrite Hs. by apply (TrimSpace_printed cur (dot :: body)). }
  unfold Base58DecodeToAddress. rewrite Ht.
  destruct (Nat.eqb_spec (length (s ++ [char crc])) 0) as [Hl|_];
    [rewrite length_app in Hl; simpl in Hl; lia|].
  assert (Hex : existsb (Z.eqb dot) (s ++ [char crc]) = true).
  { apply existsb_exists. exists dot. split; [|apply Z.eqb_refl].
    rewrite Hs, <- list_elem_of_In. set_solver. }
  assert (Hsp : Split (s ++ [char crc]) = cur :: Split (body ++ [char crc])).
  { rewrite Hs. by apply Split_first, upper_nodot. }
  rewrite Hex, Hsp. cbn [negb].
  change (go_index (cur :: ?x) 0) with (Ok (E := address_error) cur). cbn [res_bind].
  rewrite Hcur. cbn [negb]. rewrite go_index_last. cbn [res_bind].
  rewrite length_app, Nat.add_sub, take_app_length. fold crc. rewrite He, bool_decide_eq_true_2 by done.
  cbn [negb]. destruct (Split (body ++ [char crc])) as [|tmp rest]; [reflexivity|].
  change (go_index (cur :: tmp :: rest) 1) with (Ok (E := address_error) tmp).
  cbn [res_bind]. by destruct tmp.
Qed.

Lemma Encode_chars b : Forall (digit 256) b -> Forall (fun c => c <> dot) (Encode b).
Proof.
  intros Hb. destruct (digits_of_spec 58 (SetBytes b)) as (_ & Hd & _);
    [lia|by apply SetBytes_nonneg|].
  rewrite Encode_eq. apply Forall_app. split; [by apply Forall_replicate|].
  rewrite rev_alt. change (rev_append ?l []) with (reverse l). apply Forall_reverse, Forall_fmap.
  eapply Forall_impl; [exact Hd|]. intros d Hdig. by apply char_facts.
Qed.

Lemma Base58_roundtrip currency a :
  IsValidityManCurrency currency = true -> 0 <= a < 2 ^ 160 ->
  Base58DecodeToAddress (Base58EncodeToString currency a) = Ok a.
Proof.
  intros Hcur [Ha Hb]. unfold Base58EncodeToString. rewrite decode_checked by done.
  set (str := Encode (address_bytes a)). cbn zeta.
  pose proof (address_bytes_digits a Ha) as Hd. pose proof (Encode_chars _ Hd) as Hn. fold str in Hn.
  destruct (EncodeInt_crc (CalCRC8 (currency ++ dot :: str))) as [_ Hc].
  rewrite Split_nodot.
  2: { apply Forall_app. split; [done|]. constructor; [by apply char_facts|constructor]. }
  destruct (str ++ [_]) as [|x tmp] eqn:E; [by destruct str|]. rewrite <- E.
  rewrite length_app, Nat.add_sub, take_app_length. unfold str.
  rewrite Decode_Encode by done. unfold BytesToAddress.
  rewrite SetBytes_address, Z.mod_small by done. done.
Qed.

(** Printing an address and reading it back gives the address, for every
    twenty-byte address (leading zero bytes included) and every valid currency. *)
Theorem address_roundtrip currency a :
  IsValidityManCurrency currency = true -> 0 <= a < 2 ^ 160 ->
  Base58DecodeToAddress (Base58EncodeToString currency a) = Ok a.
Proof. apply Base58_roundtrip. Qed.

Lemma address_roundtrip_witness :
  IsValidityManCurrency (string_bytes "MAN") = true /\
  Base58EncodeToString (string_bytes "MAN") 0x00112233445566778899aabbccddeeff00112233 =
    string_bytes "MAN.148vjpuxYXixb8DcbaWyeBwe59ks" /\
  Base58DecodeToAddress
    (Base58EncodeToString (string_bytes "MAN") 0x00112233445566778899aabbccddeeff00112233) =
    Ok 0x00112233445566778899aabbccddeeff00112233.
Proof.
  split; [reflexivity|]. split; [vm_compute; reflexivity|].
  apply (address_roundtrip (string_bytes "MAN")); [reflexivity|lia].
Defined.

(** A second dot right after the first leaves an empty body, whose last
    character the decoder slices off: every string of a valid currency and two
    dots, however it goes on, panics once it ends in its check character. *)
Theorem dotted_address_panics currency rest :
  IsValidityManCurrency currency = true ->
  Base58DecodeToAddress
    ((currency ++ dot :: dot :: rest) ++
     EncodeInt (CalCRC8 (currency ++ dot :: dot :: rest) mod 58)) = Panic.
Proof.
  intros Hcur. rewrite decode_checked by done. cbn zeta.
  change ((dot :: rest) ++ ?l) with ([] ++ dot :: (rest ++ l)). by rewrite Split_first by constructor.
Qed.

Lemma dotted_address_panics_witness :
  Base58DecodeToAddress (string_bytes "MAN..v") = Panic /\
  Base58DecodeToAddress
    ((string_bytes "MAN" ++ dot :: dot :: []) ++
     EncodeInt (CalCRC8 (string_bytes "MAN" ++ dot :: dot :: []) mod 58)) = Panic.
Proof.
  split; [vm_compute; reflexivity|].
  apply (dotted_address_panics (string_bytes "MAN") []). reflexivity.
Defined.
