(* ===== verification/Transactions.v ===== *)
(** * Transactions
    ([core/types/transaction.go], [transactionBroad.go], [transactionInterface.go])

    A transaction comes from a wallet or is a broadcast transaction of the node.
    To save bytes it travels in two reduced forms: flooded between the pools
    without its [S] value and without the mark in its nonce, and marshalled for
    storage and for datagrams.  The file models the transaction data, its
    constructors and these forms, and proves what survives a round trip. *)

From S2P Require Import Header Address Prelude.

(** ** The data

    Addresses and hashes are numbers, a [*big.Int] or an address pointer is an
    option, payloads are lists of bytes. *)

(** [params/protocol_params.go] *)
Definition NonceAddOne : Z := 0x0010000000000000.
Definition NonceSubOne : Z := 0x0001FFFFFFFFFFFF.

Definition MAN_COIN : string := "MAN".

(** The types of a transaction ([common/types.go]) *)
Definition ExtraNormalTxType : Z := 0.
Definition ExtraBroadTxType : Z := 1.
Definition ExtraUnGasMinerTxType : Z := 2.
Definition ExtraRevocable : Z := 3.
Definition ExtraRevertTxType : Z := 4.
Definition ExtraAuthTx : Z := 5.
Definition ExtraCancelEntrust : Z := 6.
Definition ExtraTimeTxType : Z := 7.
Definition ExtraAItxType : Z := 8.
Definition ExtraMakeCoinType : Z := 9.
Definition ExtraUnGasValidatorTxType : Z := 10.
Definition ExtraUnGasInterestTxType : Z := 11.
Definition ExtraUnGasTxsType : Z := 12.
Definition ExtraUnGasLotteryTxType : Z := 13.
Definition ExtraSetBlackListTxType : Z := 14.
Definition ExtraSuperBlockTx : Z := 120.

(** The pools ([core/types/transactionInterface.go]) *)
Definition NormalTxIndex : Z := 0.
Definition BroadCastTxIndex : Z := 1.

Record Tx_to := mkTxTo {
  toRecipient : option Z;
  toAmount : option Z;
  toPayload : list Z
}.

Record Matrix_Extra := mkExtra {
  exTxType : Z;
  exLockHeight : Z;
  exExtraTo : list Tx_to
}.

Record txdata := mkTxdata {
  AccountNonce : Z;
  Price : option Z;
  GasLimit : Z;
  Recipient : option Z;
  Amount : option Z;
  Payload : list Z;
  tdV : option Z;
  tdR : option Z;
  tdS : option Z;
  tdHash : option Z;
  TxEnterType : Z;
  tdIsEntrustTx : Z;
  CommitTime : Z;
  Extra : list Matrix_Extra
}.

(** What the cached sender holds: a [sigCache], with the chain of its signer, or
    a bare address. *)
Inductive fromCache :=
| FromSig (chainId from : Z)
| FromAddr (from : Z).

Record Transaction := mkTransaction {
  txData : txdata;
  txFrom : option fromCache;
  entrustfrom : option fromCache;
  Currency : string;
  txN : list Z;
  IsEntrustGas : bool;
  IsEntrustByTime : bool;
  IsEntrustByCount : bool
}.

Record TransactionBroad := mkBroad {
  bcData : txdata;
  bcFrom : option fromCache
}.

Inductive SelfTransaction :=
| TxNormal (tx : Transaction)
| TxBroad (tx : TransactionBroad).

(** [&Transaction{Currency: currency, data: d}] *)
Definition newTx (currency : string) (d : txdata) : Transaction :=
  mkTransaction d None None currency [] false false false.

Definition selfData (tx : SelfTransaction) : txdata :=
  match tx with TxNormal tx => txData tx | TxBroad tx => bcData tx end.

(** ** Constructors *)

Record ExtraTo_tr := mkExtraTo {
  To_tr : option Z;
  Value_tr : option Z;
  Input_tr : option (list Z)
}.

(** [new(big.Int)], set to the argument unless it is nil. *)
Definition bigOr0 (x : option Z) : option Z := Some (default 0 x).

Definition newTransactions (nonce : Z) (to amount : option Z) (gasLimit : Z) (gasPrice : option Z)
    (data : list Z) (V R S : option Z) (ex : list ExtraTo_tr) (localtime txType isEntrustTx : Z)
    (currency : string) (committime : Z) : Transaction :=
  let arrayTx := (fun extro => mkTxTo (To_tr extro) (Value_tr extro) (default [] (Input_tr extro))) <$> ex in
  newTx currency
    (mkTxdata nonce (bigOr0 gasPrice) gasLimit to (bigOr0 amount) data (bigOr0 V) (bigOr0 R) (bigOr0 S)
       None NormalTxIndex isEntrustTx committime [mkExtra txType localtime arrayTx]).

Definition newTransaction (nonce : Z) (to amount : option Z) (gasLimit : Z) (gasPrice : option Z)
    (data : list Z) (V R S : option Z) (typ isEntrustTx : Z) (currency : string) (committime : Z)
  : Transaction :=
  newTx currency
    (mkTxdata nonce (bigOr0 gasPrice) gasLimit to (bigOr0 amount) data (bigOr0 V) (bigOr0 R) (bigOr0 S)
       None NormalTxIndex isEntrustTx committime [mkExtra typ 0 []]).

Definition newBroadCastTransaction (txType : Z) (data : list Z) : TransactionBroad :=
  mkBroad (mkTxdata 0 (Some 12) 0 (Some zero_addr) (Some 0) data (Some 0) (Some 0) (Some 0) None
             BroadCastTxIndex 0 0 [mkExtra txType 0 []]) None.

(** ** Reading *)

Definition GetTxCurrency (tx : SelfTransaction) : string :=
  match tx with
  | TxNormal tx => if String.eqb (Currency tx) "" then MAN_COIN else Currency tx
  | TxBroad _ => MAN_COIN
  end.

Definition TxType (tx : SelfTransaction) : Z := TxEnterType (selfData tx).

Definition tx_GetMatrixType (tx : Transaction) : Z :=
  match Extra (txData tx) with
  | extra :: _ => exTxType extra
  | [] => ExtraNormalTxType
  end.

Definition GetMatrixType (tx : SelfTransaction) : Z :=
  match tx with TxNormal tx => tx_GetMatrixType tx | TxBroad _ => 1 end.

Definition GetTxFrom (tx : SelfTransaction) : res unit Z :=
  match tx with
  | TxNormal tx =>
      match txFrom tx with
      | None => Err tt
      | Some (FromSig _ from) => Ok from
      | Some (FromAddr from) => if from =? zero_addr then Err tt else Ok from
      end
  | TxBroad tx =>
      match bcFrom tx with
      | None => Err tt
      | Some (FromSig _ from) => Ok from
      | Some (FromAddr _) => Panic
      end
  end.

(** [From] of a [Transaction] *)
Definition From (tx : Transaction) : Z :=
  match GetTxFrom (TxNormal tx) with Ok addr => addr | _ => zero_addr end.

Definition GasFrom (tx : Transaction) : Z :=
  match txFrom tx with
  | Some (FromSig _ from) | Some (FromAddr from) => from
  | None => zero_addr
  end.

Definition AmontFrom (tx : Transaction) : Z :=
  match entrustfrom tx with
  | Some (FromSig _ from) | Some (FromAddr from) => from
  | None => From tx
  end.

(** [Add] and [Mul] of a nil [*big.Int] panic. *)
Definition big_of (x : option Z) : eff Z := match x with Some x => Ok x | None => Panic end.

Definition addAmounts (total : Z) (extra : list Matrix_Extra) : eff Z :=
  match extra with
  | [] => Ok total
  | e :: _ =>
      foldl (fun total to => let* total := total in let* a := big_of (toAmount to) in Ok (total + a))
        (Ok total) (exExtraTo e)
  end.

Definition TotalAmount (tx : Transaction) : eff Z :=
  let* total := addAmounts 0 (Extra (txData tx)) in
  let* amount := big_of (Amount (txData tx)) in
  Ok (total + amount).

Definition Cost (tx : Transaction) : eff Z :=
  let* price := big_of (Price (txData tx)) in
  let* amount := big_of (Amount (txData tx)) in
  Ok (price * GasLimit (txData tx) + amount).

Definition CostALL (tx : Transaction) : eff Z :=
  let* total := Cost tx in addAmounts total (Extra (txData tx)).

(** ** The flooded form *)

Record Floodtxdata := mkFlood {
  fdAccountNonce : Z;
  fdPrice : option Z;
  fdGasLimit : Z;
  fdRecipient : option Z;
  fdAmount : option Z;
  fdPayload : list Z;
  fdCurrency : string;
  fdV : option Z;
  fdR : option Z;
  fdTxEnterType : Z;
  fdIsEntrustTx : Z;
  fdCommitTime : Z;
  fdExtra : list Matrix_Extra
}.

Definition GetFloodData (tx : Transaction) : Floodtxdata :=
  let d := txData tx in
  mkFlood (Z.land (AccountNonce d) NonceSubOne) (Price d) (GasLimit d) (Recipient d) (Amount d) (Payload d)
    (Currency tx) (tdV d) (tdR d) (TxEnterType d) (tdIsEntrustTx d) (CommitTime d) (Extra d).

Definition SetFloodData (f : Floodtxdata) : Transaction :=
  newTx (fdCurrency f)
    (mkTxdata (Z.lor (fdAccountNonce f) NonceAddOne) (fdPrice f) (fdGasLimit f) (fdRecipient f) (fdAmount f)
       (fdPayload f) (fdV f) (fdR f) None None (fdTxEnterType f) (fdIsEntrustTx f) (fdCommitTime f)
       (fdExtra f)).

(** [SetTxS] *)
Definition SetTxS (tx : Transaction) (S : Z) : Transaction :=
  let d := txData tx in
  mkTransaction
    (mkTxdata (AccountNonce d) (Price d) (GasLimit d) (Recipient d) (Amount d) (Payload d) (tdV d) (tdR d)
       (Some S) (tdHash d) (TxEnterType d) (tdIsEntrustTx d) (CommitTime d) (Extra d))
    (txFrom tx) (entrustfrom tx) (Currency tx) (txN tx) (IsEntrustGas tx) (IsEntrustByTime tx)
    (IsEntrustByCount tx).

(** ** The marshalled form *)

Record Transaction_Mx := mkMx {
  mxData : txdata;
  mxCurrency : string;
  TxType_Mx : Z;
  mxLockHeight : Z;
  mxExtraTo : list Tx_to
}.

#[export] Instance Tx_to_eq_dec : EqDecision Tx_to.
Proof. solve_decision. Defined.
#[export] Instance Matrix_Extra_eq_dec : EqDecision Matrix_Extra.
Proof. solve_decision. Defined.
#[export] Instance txdata_eq_dec : EqDecision txdata.
Proof. solve_decision. Defined.
#[export] Instance Transaction_Mx_eq_dec : EqDecision Transaction_Mx.
Proof. solve_decision. Defined.

Definition ConvTxtoMxtx (txer : SelfTransaction) : option Transaction_Mx :=
  match txer with
  | TxBroad _ => None
  | TxNormal tx =>
      let d := txData tx in
      match Extra d with
      | [] => None
      | extra :: _ =>
          Some (mkMx (mkTxdata (Z.land (AccountNonce d) NonceSubOne) (Price d) (GasLimit d) (Recipient d)
                        (Amount d) (Payload d) (tdV d) (tdR d) (tdS d) None (TxEnterType d)
                        (tdIsEntrustTx d) (CommitTime d) (Extra d))
                  (Currency tx) (exTxType extra) (exLockHeight extra) (exExtraTo extra))
      end
  end.

Definition ConvMxtotx (m : Transaction_Mx) : Transaction :=
  let d := mxData m in
  newTx (mxCurrency m)
    (mkTxdata (Z.lor (AccountNonce d) NonceAddOne) (Price d) (GasLimit d) (Recipient d) (Amount d)
       (Payload d) (tdV d) (tdR d) (tdS d) None (TxEnterType d) (tdIsEntrustTx d) (CommitTime d) (Extra d)).

Definition SetTransactionMx (m : Transaction_Mx) : TransactionBroad :=
  let d := mxData m in
  let extra := match Extra d with [] => [mkExtra (TxType_Mx m) 0 []] | _ :: _ => Extra d end in
  mkBroad (mkTxdata (AccountNonce d) (Price d) (GasLimit d) (Recipient d) (Amount d) (Payload d) (tdV d)
             (tdR d) (tdS d) None BroadCastTxIndex 0 0 extra) None.

Definition GetTransactionMx (stx : SelfTransaction) : option Transaction_Mx :=
  match stx with
  | TxNormal _ => None
  | TxBroad tx =>
      let d := bcData tx in
      Some (mkMx (mkTxdata (AccountNonce d) (Price d) (GasLimit d) (Recipient d) (Amount d) (Payload d)
                    (tdV d) (tdR d) (tdS d) None (TxEnterType d) 0 0 (Extra d))
              "" (match Extra d with extra :: _ => exTxType extra | [] => 0 end) 0 [])
  end.

Definition SetTransactionToMx (txer : SelfTransaction) : option Transaction_Mx :=
  if TxType txer =? BroadCastTxIndex then GetTransactionMx txer
  else if TxType txer =? NormalTxIndex then ConvTxtoMxtx txer
  else None.

Definition SetMxToTransaction (txm : Transaction_Mx) : option SelfTransaction :=
  if TxType_Mx txm =? ExtraNormalTxType then Some (TxNormal (ConvMxtotx txm))
  else if TxType_Mx txm =? ExtraBroadTxType then Some (TxBroad (SetTransactionMx txm))
  else None.

(** ** What survives *)

(** The nonce as it arrives: its low 49 bits with the mark. *)
Definition wireNonce (n : Z) : Z := Z.lor (Z.land n NonceSubOne) NonceAddOne.

Lemma wireNonce_eq n : wireNonce n = n mod 2 ^ 49 + 2 ^ 52.
Proof.
  unfold wireNonce, NonceSubOne, NonceAddOne.
  change 0x0001FFFFFFFFFFFF with (Z.ones 49). rewrite Z.land_ones by lia.
  change 0x0010000000000000 with (2 ^ 52).
  rewrite <- Z.add_lor_land, Z.add_comm.
  assert (Z.land (n mod 2 ^ 49) (2 ^ 52) = 0) as ->; [|lia].
  apply Z.bits_inj'. intros k Hk. rewrite Z.land_spec, Z.bits_0, Z.pow2_bits_eqb by lia.
  destruct (Z.eqb_spec 52 k) as [<-|]; [|by rewrite andb_false_r].
  by rewrite Z.mod_pow2_bits_high by lia.
Qed.

Lemma wireNonce_fix n : wireNonce n = n <-> NonceAddOne <= n < NonceAddOne + 2 ^ 49.
Proof.
  rewrite wireNonce_eq. change NonceAddOne with (2 ^ 52).
  pose proof (Z.mod_pos_bound n (2 ^ 49) ltac:(lia)). split; [lia|]. intros Hn.
  assert (n mod 2 ^ 49 = n - 2 ^ 52); [|lia]. symmetry.
  apply (Z.mod_unique_pos _ _ 8); lia.
Qed.

(** The data of a transaction once it has travelled. *)
Definition wireData (d : txdata) : txdata :=
  mkTxdata (wireNonce (AccountNonce d)) (Price d) (GasLimit d) (Recipient d) (Amount d) (Payload d)
    (tdV d) (tdR d) (tdS d) None (TxEnterType d) (tdIsEntrustTx d) (CommitTime d) (Extra d).

Lemma wireData_fix d :
  tdHash d = None ->
  (wireData d = d <-> NonceAddOne <= AccountNonce d < NonceAddOne + 2 ^ 49).
Proof.
  intros Hh. rewrite <- wireNonce_fix. destruct d; cbn in *; subst. split.
  - by intros [= ->].
  - intros E. unfold wireData. cbn. by rewrite E.
Qed.

Lemma flood_wire tx s :
  tdS (txData tx) = Some s ->
  SetTxS (SetFloodData (GetFloodData tx)) s = newTx (Currency tx) (wireData (txData tx)).
Proof. intros Hs. unfold wireData. by rewrite Hs. Qed.

(** A transaction of the pool of normal transactions. *)
Definition pooled (tx : Transaction) : Prop :=
  TxEnterType (txData tx) = NormalTxIndex /\ Extra (txData tx) <> [] /\ tdHash (txData tx) = None.

Lemma mx_wire tx :
  pooled tx ->
  exists m, SetTransactionToMx (TxNormal tx) = Some m /\ TxType_Mx m = tx_GetMatrixType tx /\
    ConvMxtotx m = newTx (Currency tx) (wireData (txData tx)).
Proof.
  intros (Ht & He & Hh). unfold SetTransactionToMx, TxType, tx_GetMatrixType. cbn [selfData].
  rewrite Ht. cbn. destruct (Extra (txData tx)) as [|e l] eqn:E; [done|].
  eexists. split; [done|]. split; [done|]. unfold ConvMxtotx, wireData. cbn. by rewrite E.
Qed.

(** A transaction a wallet can sign and a pool accepts: its nonce is marked. *)
Definition marked (tx : Transaction) : Prop :=
  NonceAddOne <= AccountNonce (txData tx) < NonceAddOne + 2 ^ 49.

(** The pools restore what they flood: for a transaction with a marked
    nonce, adding the [S] value to what arrives gives the data and the currency
    of the transaction that was sent; without the mark, or with a nonce beyond
    49 bits, it does not. *)
Theorem flood_roundtrip tx s :
  tdS (txData tx) = Some s -> tdHash (txData tx) = None ->
  SetTxS (SetFloodData (GetFloodData tx)) s = newTx (Currency tx) (txData tx) <-> marked tx.
Proof.
  intros Hs Hh. rewrite flood_wire by done. unfold marked. rewrite <- wireData_fix by done.
  split; [by intros [= ->]|by intros ->].
Qed.

(** Of the marshalled transactions only plain ones come back: marshalling
    a pooled transaction succeeds, and unmarshalling returns its data and
    currency exactly if its type is that of a normal transaction and its nonce
    is marked; any type but normal and broadcast is refused. *)
Theorem mx_roundtrip tx :
  pooled tx ->
  exists m, SetTransactionToMx (TxNormal tx) = Some m /\
    (SetMxToTransaction m = Some (TxNormal (newTx (Currency tx) (txData tx))) <->
       tx_GetMatrixType tx = ExtraNormalTxType /\ marked tx) /\
    (SetMxToTransaction m = None <->
       tx_GetMatrixType tx <> ExtraNormalTxType /\ tx_GetMatrixType tx <> ExtraBroadTxType).
Proof.
  intros Hp. destruct (mx_wire tx Hp) as (m & Hm & Ht & Hc). exists m. split; [done|].
  unfold SetMxToTransaction. rewrite Ht, Hc.
  pose proof (wireData_fix (txData tx) (proj2 (proj2 Hp))) as Hw. fold (marked tx) in Hw.
  destruct (Z.eqb_spec (tx_GetMatrixType tx) ExtraNormalTxType) as [E|E].
  - split; [|split; [done|tauto]]. rewrite <- Hw. split; [by intros [= ->]|by intros [_ ->]].
  - destruct (Z.eqb_spec (tx_GetMatrixType tx) ExtraBroadTxType); split; (split; [done|tauto]).
Qed.

Definition sample_tx (typ : Z) : Transaction :=
  newTransaction (NonceAddOne + 7) (Some 9) (Some 100) 21000 (Some 18) [1; 2] (Some 37) (Some 5) (Some 6)
    typ 0 "MAN" 1000.

Lemma flood_roundtrip_witness :
  SetTxS (SetFloodData (GetFloodData (sample_tx 3))) 6 = newTx "MAN" (txData (sample_tx 3)) <->
  marked (sample_tx 3).
Proof. exact (flood_roundtrip (sample_tx 3) 6 eq_refl eq_refl). Defined.

Lemma mx_roundtrip_witness :
  exists m, SetTransactionToMx (TxNormal (sample_tx ExtraRevocable)) = Some m /\
    (SetMxToTransaction m = Some (TxNormal (newTx "MAN" (txData (sample_tx ExtraRevocable)))) <->
       tx_GetMatrixType (sample_tx ExtraRevocable) = ExtraNormalTxType /\ marked (sample_tx ExtraRevocable)) /\
    (SetMxToTransaction m = None <->
       tx_GetMatrixType (sample_tx ExtraRevocable) <> ExtraNormalTxType /\
       tx_GetMatrixType (sample_tx ExtraRevocable) <> ExtraBroadTxType).
Proof.
  assert (Hp : pooled (sample_tx ExtraRevocable)) by (repeat split; discriminate).
  exact (mx_roundtrip (sample_tx ExtraRevocable) Hp).
Defined.

(** ** Costs *)

Definition extraTos (tx : Transaction) : list Tx_to :=
  match Extra (txData tx) with e :: _ => exExtraTo e | [] => [] end.

Lemma addAmounts_Ok total extra amounts :
  mapM toAmount (match extra with e :: _ => exExtraTo e | [] => [] end) = Some amounts ->
  addAmounts total extra = Ok (total + foldr Z.add 0 amounts).
Proof.
  destruct extra as [|e extra]; cbn.
  { intros [= <-]. cbn. by rewrite Z.add_0_r. }
  revert total amounts. induction (exExtraTo e) as [|t l IH]; intros total amounts Hm; cbn in *.
  { injection Hm as <-. cbn. by rewrite Z.add_0_r. }
  destruct (toAmount t) as [a|]; [|done]. cbn in Hm.
  destruct (mapM toAmount l) as [rest|] eqn:El; [|done]. injection Hm as <-.
  cbn. rewrite (IH (total + a) rest) by done. f_equal. lia.
Qed.

(** A transaction costs the price of its gas and all it pays out: with the
    amounts of all its payees given, [CostALL] is the gas price times the gas
    limit plus [TotalAmount], and this is the sum over the payees. *)
Theorem cost_total tx price amount amounts :
  Price (txData tx) = Some price -> Amount (txData tx) = Some amount ->
  mapM toAmount (extraTos tx) = Some amounts ->
  TotalAmount tx = Ok (amount + foldr Z.add 0 amounts) /\
  CostALL tx = Ok (price * GasLimit (txData tx) + (amount + foldr Z.add 0 amounts)).
Proof.
  intros Hp Ha Hm. unfold TotalAmount, CostALL, Cost. rewrite Hp, Ha. cbn [res_bind big_of].
  rewrite (addAmounts_Ok 0 _ amounts), (addAmounts_Ok _ _ amounts) by done. cbn [res_bind].
  split; f_equal; lia.
Qed.

Lemma cost_total_witness :
  TotalAmount (sample_tx 0) = Ok 100 /\ CostALL (sample_tx 0) = Ok (18 * 21000 + 100).
Proof. exact (cost_total (sample_tx 0) 18 100 [] eq_refl eq_refl eq_refl). Defined.
