(* ===== verification/CoinTx.v ===== *)
(** * Transactions grouped by currency ([core/types/transactionInterface.go])

    Blocks list their transactions per currency, the chain's own coin first.
    The file proves that grouping neither loses, repeats nor reorders the
    transactions of a currency, and that receipts stay with the transactions
    they are for. *)

From S2P Require Import GoLang Header Transactions Prelude.

Abbreviation Tx := SelfTransaction.

(** [CoinSelfTransaction] *)
Record CoinTxs := mkCoinTxs {
  CoinType : string;
  Txser : list Tx
}.

(** [CoinReceipts]; a receipt is a handle. *)
Record CoinReceipts := mkCoinReceipts {
  rcCoinType : string;
  Receiptlist : list Z
}.

Definition GetTX (ctx : list CoinTxs) : list Tx :=
  foldl (fun txs tx => foldl (fun txs t => txs ++ [t]) txs (Txser tx)) [] ctx.

Abbreviation coinMap A := (gmap string (list A)).

(** [m[k] = append(m[k], x)] *)
Definition map_append {A} (m : coinMap A) (k : string) (x : A) : coinMap A :=
  <[k := default [] (m !! k) ++ [x]]> m.

Definition string_less (a b : string) : bool := String.ltb a b.

Section Group.
Context `{GoSort}.

(** The keys of a map, sorted: the order in which they are visited does not
    matter ([sorted_keys_any_order]). *)
Definition sortedKeys {A} (m : coinMap A) : list string :=
  sort_slice string_less (map_to_list m).*1.

Definition groupTxs (txs : list Tx) : coinMap Tx :=
  foldl (fun mm tx => map_append mm (GetTxCurrency tx) tx) ∅ txs.

Definition GetCoinTX (txs : list Tx) : list CoinTxs :=
  let mm := groupTxs txs in
  let man := default [] (mm !! MAN_COIN) in
  let cs := if bool_decide (man = []) then [] else [mkCoinTxs MAN_COIN man] in
  foldl (fun cs k =>
           if String.eqb k MAN_COIN then cs
           else cs ++ [mkCoinTxs k (default [] (mm !! k))])
        cs (sortedKeys mm).

(** The two maps filled side by side; a receipt that is missing panics. *)
Fixpoint groupTxsRs (txs : list Tx) (rxs : list Z) (tm : coinMap Tx) (rm : coinMap Z)
  : eff (coinMap Tx * coinMap Z) :=
  match txs with
  | [] => Ok (tm, rm)
  | t :: txs =>
      match rxs with
      | [] => Panic
      | r :: rxs =>
          groupTxsRs txs rxs (map_append tm (GetTxCurrency t) t)
            (map_append rm (GetTxCurrency t) r)
      end
  end.

Definition collectTXRS (tm : coinMap Tx) (rm : coinMap Z) : list CoinTxs * list CoinReceipts :=
  let manTx := default [] (tm !! MAN_COIN) in
  let manRx := default [] (rm !! MAN_COIN) in
  let tx := if bool_decide (manTx = []) then [] else [mkCoinTxs MAN_COIN manTx] in
  let rx := if bool_decide (manRx = []) then [] else [mkCoinReceipts MAN_COIN manRx] in
  foldl (fun acc k =>
           if String.eqb k MAN_COIN then acc
           else (acc.1 ++ [mkCoinTxs k (default [] (tm !! k))],
                 acc.2 ++ [mkCoinReceipts k (default [] (rm !! k))]))
        (tx, rx) (sortedKeys tm).

(** [None] is a nil slice. *)
Definition GetCoinTXRS (txs : option (list Tx)) (rxs : option (list Z))
  : eff (list CoinTxs * list CoinReceipts) :=
  match txs, rxs with
  | Some txs, Some rxs =>
      let* (tm, rm) := groupTxsRs txs rxs ∅ ∅ in Ok (collectTXRS tm rm)
  | _, _ => Ok ([], [])
  end.
End Group.

(** ** Sorting the keys *)

Lemma string_less_swo : strict_weak_order string_less.
Proof.
  assert (Hle : forall a b, string_less b a = false <-> String.le a b).
  { intros a b. unfold string_less, String.ltb, String.le, String.leb.
    rewrite (String.compare_antisym b a). by destruct (String.compare a b). }
  split.
  - intros a b Hab. apply Hle. destruct (String.le_total a b) as [|Hba]; [done|].
    apply Hle in Hba. congruence.
  - intros a b c Hab Hbc. rewrite Hle in *. by etrans.
Qed.

Lemma string_less_antisym a b : string_less a b = false -> string_less b a = false -> a = b.
Proof.
  unfold string_less, String.ltb. rewrite (String.compare_antisym b a).
  destruct (String.compare a b) eqn:E; try done. intros _ _. by apply String.compare_eq_iff.
Qed.

Lemma ordered_unique {A} (less : A -> A -> bool) (l k : list A) :
  (forall a b, less a b = false -> less b a = false -> a = b) ->
  ordered_by less l -> ordered_by less k -> l ≡ₚ k -> l = k.
Proof.
  intros Hanti Hl. revert k. induction Hl as [|x l Hl IH Hx]; intros k Hk Hp.
  { by apply Permutation_nil_l in Hp as ->. }
  destruct k as [|y k]; [by apply Permutation_nil_r in Hp|].
  apply StronglySorted_inv in Hk as [Hk Hy]. rewrite Forall_forall in Hx, Hy.
  assert (x = y) as ->.
  { assert (x ∈ y :: k) as Hxk by (rewrite <-Hp; left).
    assert (y ∈ x :: l) as Hyl by (rewrite Hp; left).
    apply elem_of_cons in Hxk as [?|Hxk]; [done|]. apply elem_of_cons in Hyl as [?|Hyl]; [done|].
    apply Hanti; auto. }
  f_equal. apply IH; [done|]. by apply (inj (cons y)).
Qed.

(** Whatever the order the keys are collected in, sorting gives the same. *)
Lemma sorted_keys_any_order `{GoSort} {A} (m : coinMap A) keys :
  keys ≡ₚ (map_to_list m).*1 -> sort_slice string_less keys = sortedKeys m.
Proof.
  intros Hp. apply (ordered_unique string_less); [exact string_less_antisym|..].
  - apply sort_slice_ordered, string_less_swo.
  - apply sort_slice_ordered, string_less_swo.
  - unfold sortedKeys. by rewrite !sort_slice_perm.
Qed.

Section Grouping.
Context `{GoSort}.

Lemma elem_of_sortedKeys {A} (m : coinMap A) k : k ∈ sortedKeys m <-> is_Some (m !! k).
Proof.
  unfold sortedKeys. rewrite sort_slice_perm, list_elem_of_fmap. split.
  - intros ([k' v] & -> & Hv%elem_of_map_to_list). by exists v.
  - intros [v Hv]. exists (k, v). by rewrite elem_of_map_to_list.
Qed.

Lemma NoDup_sortedKeys {A} (m : coinMap A) : NoDup (sortedKeys m).
Proof. unfold sortedKeys. rewrite sort_slice_perm. apply NoDup_fst_map_to_list. Qed.

(** Filling a map of slices: each slice is what was appended under its key. *)
Lemma map_append_fold {A} (key : A -> string) (l : list A) (m : coinMap A) k :
  default [] (foldl (fun m x => map_append m (key x) x) m l !! k) =
  default [] (m !! k) ++ filter (fun x => key x = k) l.
Proof.
  revert m. induction l as [|x l IH]; intros m; cbn [foldl]; [by rewrite app_nil_r|].
  rewrite IH, filter_cons. unfold map_append. case_decide as E.
  - subst k. rewrite lookup_insert_eq. cbn. by rewrite <-app_assoc.
  - by rewrite lookup_insert_ne.
Qed.

Lemma map_append_dom {A} (key : A -> string) (l : list A) (m : coinMap A) k :
  is_Some (foldl (fun m x => map_append m (key x) x) m l !! k) <->
  is_Some (m !! k) \/ Exists (fun x => key x = k) l.
Proof.
  revert m. induction l as [|x l IH]; intros m; cbn [foldl].
  { rewrite Exists_nil. tauto. }
  rewrite IH, Exists_cons. unfold map_append. destruct (decide (key x = k)) as [<-|E].
  - rewrite lookup_insert_eq. split; [auto|]. intros _. left. by eexists.
  - rewrite lookup_insert_ne by done. tauto.
Qed.

Lemma groupTxs_lookup txs k :
  default [] (groupTxs txs !! k) = filter (fun t => GetTxCurrency t = k) txs.
Proof. unfold groupTxs. by rewrite map_append_fold, lookup_empty. Qed.

Lemma groupTxs_dom txs k :
  is_Some (groupTxs txs !! k) <-> Exists (fun t => GetTxCurrency t = k) txs.
Proof.
  unfold groupTxs. rewrite map_append_dom, lookup_empty. split; [by intros [[]|]|auto].
Qed.

Lemma filter_nil_Exists txs k :
  filter (fun t => GetTxCurrency t = k) txs = [] <-> ~ Exists (fun t => GetTxCurrency t = k) txs.
Proof.
  induction txs as [|t txs IH]; [split; [by intros _ ?%Exists_nil|done]|].
  rewrite filter_cons, Exists_cons. case_decide; [split; [done|tauto]|]. tauto.
Qed.

(** The currencies of a list of transactions in the order of a block. *)
Definition coins (txs : list Tx) : list string :=
  (if bool_decide (Exists (fun t => GetTxCurrency t = MAN_COIN) txs) then [MAN_COIN] else []) ++
  filter (fun k => k <> MAN_COIN) (sortedKeys (groupTxs txs)).

Lemma elem_of_coins txs k : k ∈ coins txs <-> Exists (fun t => GetTxCurrency t = k) txs.
Proof.
  unfold coins. rewrite elem_of_app, list_elem_of_filter, elem_of_sortedKeys, groupTxs_dom.
  case_bool_decide; rewrite ?list_elem_of_singleton; destruct (decide (k = MAN_COIN)) as [->|];
    rewrite ?elem_of_nil; tauto.
Qed.

Lemma NoDup_coins txs : NoDup (coins txs).
Proof.
  unfold coins. apply NoDup_app. split; [case_bool_decide; repeat constructor; set_solver|].
  split; [|apply NoDup_filter, NoDup_sortedKeys].
  intros k. case_bool_decide; [|set_solver]. rewrite list_elem_of_singleton, list_elem_of_filter. tauto.
Qed.

Lemma collect_fold {B} (f : string -> B) ks acc :
  foldl (fun cs k => if String.eqb k MAN_COIN then cs else cs ++ [f k]) acc ks =
  acc ++ (f <$> filter (fun k => k <> MAN_COIN) ks).
Proof.
  revert acc. induction ks as [|k ks IH]; intros acc; cbn [foldl]; [by rewrite app_nil_r|].
  rewrite IH, filter_cons. destruct (String.eqb_spec k MAN_COIN).
  - by rewrite decide_False by tauto.
  - rewrite decide_True by done. cbn [fmap list_fmap]. by rewrite <-app_assoc.
Qed.

Lemma man_group {A B} (f : string -> list A -> B) (txs : list Tx) (g : list A) :
  (g = [] <-> ~ Exists (fun t => GetTxCurrency t = MAN_COIN) txs) ->
  (if bool_decide (g = []) then [] else [f MAN_COIN g]) =
  (fun k => f k g) <$> (if bool_decide (Exists (fun t => GetTxCurrency t = MAN_COIN) txs)
                        then [MAN_COIN] else []).
Proof. intros Hg. repeat case_bool_decide; tauto || done. Qed.

(** A block's list of transactions: one group per currency, in order. *)
Lemma GetCoinTX_eq txs :
  GetCoinTX txs = (fun k => mkCoinTxs k (filter (fun t => GetTxCurrency t = k) txs)) <$> coins txs.
Proof.
  unfold GetCoinTX, coins. rewrite collect_fold, groupTxs_lookup, fmap_app. f_equal.
  - rewrite (man_group mkCoinTxs txs) by apply filter_nil_Exists. by case_bool_decide.
  - apply list_fmap_ext. intros _ k _. by rewrite groupTxs_lookup.
Qed.

Lemma GetTX_eq ctx : GetTX ctx = ctx ≫= Txser.
Proof.
  unfold GetTX. change (ctx ≫= Txser) with ([] ++ (ctx ≫= Txser)).
  generalize (@nil Tx) at 2 3 as acc. induction ctx as [|c ctx IH]; intros acc; simpl.
  - by rewrite app_nil_r.
  - assert (Hin : forall (l acc : list Tx), foldl (fun txs t => txs ++ [t]) acc l = acc ++ l).
    { clear. induction l as [|x l IH]; intros acc; simpl; [by rewrite app_nil_r|].
      by rewrite IH, <-app_assoc. }
    by rewrite Hin, IH, <-app_assoc.
Qed.

Lemma partition_by_key txs ks :
  NoDup ks ->
  (ks ≫= fun k => filter (fun t => GetTxCurrency t = k) txs) ≡ₚ
  filter (fun t => GetTxCurrency t ∈ ks) txs.
Proof.
  induction 1 as [|k ks Hk Hnd IH]; simpl.
  { symmetry. induction txs; [done|]. rewrite filter_cons, decide_False by set_solver. done. }
  change (list_bind _ _ _ ks) with (ks ≫= fun k => filter (fun t => GetTxCurrency t = k) txs).
  rewrite IH. clear IH. induction txs as [|t txs IH]; [done|]. rewrite !filter_cons.
  destruct (decide (GetTxCurrency t = k)) as [E|E].
  - rewrite (decide_False (P := GetTxCurrency t ∈ ks)), decide_True by set_solver.
    cbn [app]. by rewrite IH.
  - destruct (decide (GetTxCurrency t ∈ ks)).
    + rewrite decide_True by set_solver. rewrite <-IH. by rewrite Permutation_middle.
    + by rewrite decide_False by set_solver.
Qed.

(** ** Receipts *)

Definition pairCoin (p : Tx * Z) : string := GetTxCurrency p.1.

Lemma groupTxsRs_spec txs rxs tm rm :
  groupTxsRs txs rxs tm rm =
  if bool_decide (length txs <= length rxs)%nat
  then Ok (foldl (fun m t => map_append m (GetTxCurrency t) t) tm txs,
           foldl (fun m p => map_append m (pairCoin p) p.2) rm (zip txs rxs))
  else Panic.
Proof.
  revert rxs tm rm. induction txs as [|t txs IH]; intros rxs tm rm; cbn [groupTxsRs].
  { by rewrite bool_decide_true by (cbn; lia). }
  destruct rxs as [|r rxs]; [by rewrite bool_decide_false by (cbn; lia)|].
  rewrite IH. cbn. by rewrite (bool_decide_ext _ _ (iff_sym (Nat.succ_le_mono _ _))).
Qed.

(** The receipts of a currency. *)
Definition receiptsOf (k : string) (txs : list Tx) (rxs : list Z) : list Z :=
  (filter (fun p => pairCoin p = k) (zip txs rxs)).*2.

Lemma pairs_fold (l : list (Tx * Z)) (m : coinMap Z) k :
  default [] (foldl (fun m p => map_append m (pairCoin p) p.2) m l !! k) =
  default [] (m !! k) ++ (filter (fun p => pairCoin p = k) l).*2.
Proof.
  revert m. induction l as [|p l IH]; intros m; cbn [foldl]; [by rewrite app_nil_r|].
  rewrite IH, filter_cons. unfold map_append. case_decide as E.
  - subst k. rewrite lookup_insert_eq. cbn. by rewrite <-app_assoc.
  - by rewrite lookup_insert_ne.
Qed.

Lemma filter_zip k txs rxs :
  (length txs <= length rxs)%nat ->
  (filter (fun p => pairCoin p = k) (zip txs rxs)).*1 = filter (fun t => GetTxCurrency t = k) txs.
Proof.
  revert rxs. induction txs as [|t txs IH]; intros [|r rxs]; cbn [length]; try done; [lia|].
  intros Hl. cbn [zip zip_with]. rewrite !filter_cons.
  destruct (decide (GetTxCurrency t = k)) as [E|E].
  - rewrite decide_True by done. cbn [fmap list_fmap fst]. f_equal. apply IH. lia.
  - rewrite decide_False by done. apply IH. lia.
Qed.

Lemma collect_pair_fold (f : string -> CoinTxs) (g : string -> CoinReceipts) ks acc :
  foldl (fun acc k => if String.eqb k MAN_COIN then acc else (acc.1 ++ [f k], acc.2 ++ [g k])) acc ks =
  (acc.1 ++ (f <$> filter (fun k => k <> MAN_COIN) ks),
   acc.2 ++ (g <$> filter (fun k => k <> MAN_COIN) ks)).
Proof.
  revert acc. induction ks as [|k ks IH]; intros [a b]; cbn [foldl].
  { cbn. by rewrite !app_nil_r. }
  rewrite filter_cons. destruct (String.eqb_spec k MAN_COIN).
  - rewrite decide_False by tauto. apply IH.
  - rewrite decide_True by done. rewrite IH. cbn [fmap list_fmap fst snd]. by rewrite <-!app_assoc.
Qed.

Lemma GetCoinTXRS_eq txs rxs :
  GetCoinTXRS (Some txs) (Some rxs) =
  if bool_decide (length txs <= length rxs)%nat
  then Ok (GetCoinTX txs, (fun k => mkCoinReceipts k (receiptsOf k txs rxs)) <$> coins txs)
  else Panic.
Proof.
  unfold GetCoinTXRS. rewrite groupTxsRs_spec. case_bool_decide as Hl; [|done].
  cbn [res_bind]. unfold collectTXRS. rewrite collect_pair_fold. cbn [fst snd].
  fold (groupTxs txs). rewrite GetCoinTX_eq, groupTxs_lookup, pairs_fold, lookup_empty.
  cbn [default]. cbn [app]. fold (receiptsOf MAN_COIN txs rxs). do 2 f_equal.
  - rewrite (man_group mkCoinTxs txs) by apply filter_nil_Exists.
    unfold coins. rewrite fmap_app. f_equal; [by case_bool_decide|].
    apply list_fmap_ext. intros _ k _. by rewrite groupTxs_lookup.
  - rewrite (man_group mkCoinReceipts txs).
    + unfold coins. rewrite fmap_app. f_equal; [by case_bool_decide|].
      apply list_fmap_ext. intros _ k _. by rewrite pairs_fold, lookup_empty.
    + rewrite <-filter_nil_Exists, <-(filter_zip MAN_COIN txs rxs Hl). unfold receiptsOf.
      destruct (filter _ (zip txs rxs)); done.
Qed.
End Grouping.

(** Grouping by currency loses nothing: flattening the groups gives back
    the transactions up to their order, every currency has one group that is not
    empty and lists its transactions in their order, and the chain's own coin
    comes first, the others by name. *)
Theorem coin_grouping `{GoSort} txs :
  GetTX (GetCoinTX txs) ≡ₚ txs /\
  NoDup (CoinType <$> GetCoinTX txs) /\
  (forall c, c ∈ GetCoinTX txs ->
     Txser c = filter (fun t => GetTxCurrency t = CoinType c) txs /\ Txser c <> []) /\
  (forall k, k ∈ CoinType <$> GetCoinTX txs <-> Exists (fun t => GetTxCurrency t = k) txs) /\
  StronglySorted (fun a b => a = MAN_COIN \/ (b <> MAN_COIN /\ string_less b a = false))
    (CoinType <$> GetCoinTX txs).
Proof.
  assert (Hc : CoinType <$> GetCoinTX txs = coins txs).
  { rewrite GetCoinTX_eq, <-list_fmap_compose. apply list_fmap_id. }
  rewrite Hc. split; [|split; [apply NoDup_coins|split; [|split; [apply elem_of_coins|]]]].
  - rewrite GetTX_eq, GetCoinTX_eq, list_fmap_bind.
    change (_ ≫= _) with (coins txs ≫= fun k => filter (fun t => GetTxCurrency t = k) txs).
    rewrite partition_by_key by apply NoDup_coins.
    assert (Hall : Forall (fun t => GetTxCurrency t ∈ coins txs) txs).
    { apply Forall_forall. intros t Ht. apply elem_of_coins, Exists_exists. eauto. }
    clear Hc. revert Hall. generalize (coins txs). intros ks. induction 1 as [|t l Ht _ IH]; [done|].
    rewrite filter_cons, decide_True by done. by rewrite IH.
  - intros c. rewrite GetCoinTX_eq, list_elem_of_fmap. intros (k & -> & Hk). split; [done|].
    cbn. rewrite filter_nil_Exists. apply elem_of_coins in Hk. tauto.
  - unfold coins. set (ks := sortedKeys (groupTxs txs)).
    assert (Hs : StronglySorted (fun a b => a = MAN_COIN \/ b <> MAN_COIN /\ string_less b a = false)
                   (filter (fun k => k <> MAN_COIN) ks)).
    { pose proof (sort_slice_ordered _ string_less (map_to_list (groupTxs txs)).*1 string_less_swo) as Ho.
      change (ordered_by string_less ks) in Ho. induction Ho as [|k l Ho IH Hk]; [constructor|].
      rewrite filter_cons. case_decide; [|done]. constructor; [done|].
      rewrite Forall_forall in *. intros y [? ?]%list_elem_of_filter. auto. }
    case_bool_decide; [|done]. constructor; [done|]. apply Forall_forall. auto.
Qed.

(** Receipts stay with their transactions: with a receipt for every
    transaction, grouping both gives the groups of the transactions and, for
    each group, the receipts of its transactions in the same order; with fewer
    receipts it panics. *)
Theorem receipts_follow `{GoSort} txs rxs :
  if bool_decide (length txs <= length rxs)%nat
  then exists rx,
    GetCoinTXRS (Some txs) (Some rxs) = Ok (GetCoinTX txs, rx) /\
    Forall2 (fun c r => CoinType c = rcCoinType r /\
               length (Txser c) = length (Receiptlist r) /\
               zip (Txser c) (Receiptlist r) =
               filter (fun p => GetTxCurrency p.1 = CoinType c) (zip txs rxs))
            (GetCoinTX txs) rx
  else GetCoinTXRS (Some txs) (Some rxs) = Panic.
Proof.
  rewrite GetCoinTXRS_eq. case_bool_decide as Hl; [|done]. eexists. split; [done|].
  rewrite GetCoinTX_eq. apply Forall2_fmap, Forall_Forall2_diag, Forall_forall.
  intros k _. cbn [CoinType rcCoinType Txser Receiptlist].
  rewrite <-(filter_zip k txs rxs Hl). unfold receiptsOf. rewrite !length_fmap.
  split; [done|]. split; [done|]. apply zip_fst_snd.
Qed.
