(* ===== verification/Reader.v ===== *)
(** * The state reader the consensus engines use ([consensus/consensus.go])

    [StateReader] is the interface through which an engine asks for the
    topology, the special accounts and the account relations valid at a block.
    The block chain and the leader service's decision centre implement it. *)

From S2P Require Import Prelude Broadcast Topology.

(** A non-nil [error] of a read. *)
Inductive read_error := ErrRead.

Record StateReader := mkReader {
  sr_GetCurrentHash : Z;
  sr_GetGraphByHash : Z -> res read_error (TopologyGraph * ElectGraph);
  sr_GetBroadcastAccounts : Z -> res read_error (list Z);
  sr_GetVersionSuperAccounts : Z -> res read_error (option (list Z));
  sr_GetBlockSuperAccounts : Z -> res read_error (option (list Z));
  sr_GetBroadcastIntervalByHash : Z -> res read_error BCIntervalInfo;
  sr_GetA0AccountFromAnyAccount : Z -> Z -> res read_error (Z * Z)
}.

(** [common.VerifiedSign] *)
Record VerifiedSign := mkVerified {
  vsSign : Z;
  vsAccount : Z;
  vsValidate : bool;
  vsStock : Z
}.
