(* ===== verification/Dpos.v ===== *)
(** * Delegated proof of stake ([consensus/mtxdpos/mtxdpos.go])

    A block is accepted when enough validators signed it.  The file models the
    engine: the targets computed in [float64], the collection of the signatures
    per validator, the count of agreeing and disagreeing signatures, and the
    rules for version, super and broadcast signatures.  It proves that a target
    is more than two thirds of the validators, that an accepted hash was signed
    by that many distinct validators, and that two accepted hashes share more
    than a third of them. *)

From S2P Require Import Broadcast Roles Topology GoLang Float64 Header Reader.
From S2P Require Import Prelude.

Definition DPOSDefStock : Z := 1.

Record Config := mkConfig {
  TargetSignCountRatio : spec_float;
  TargetStockRatio : spec_float;
  MinStockCount : Z;
  FullSignThreshold : Z;
  SuperNodeFullSignThreshold : Z
}.

(** The constant [0.66667], rounded to [float64]. *)
Definition ratio_066667 : spec_float := S754_finite false 6004829527158177 (-53).

Definition defaultConfig : Config := mkConfig ratio_066667 (S754_zero false) 3 7 3.
Definition simpleConfig : Config := mkConfig ratio_066667 (S754_zero false) 1 7 3.

Definition NewMtxDPOS (simpleMode : bool) : Config :=
  if simpleMode then simpleConfig else defaultConfig.

Inductive dpos_error :=
| errStockCountErr
| errSignCountErr
| errSignStockErr
| errDisagreeCountErr
| errDisagreeStockErr
| errBroadcastSignCount
| errBroadcastVerifySign
| errBroadcastVerifySignFalse
| errBroadcastLeader
| errBroadcastAccounts
| errVersionSignCount
| errVersionVerifySign
| errSuperBlockSignCount
| errSuperBlockVerifySign
| errSuperAccounts
| errVerifySign
| errHeaderNil
| errReader (e : read_error).

Record dposTarget := mkTarget {
  totalCount : Z;
  totalStock : Z;
  targetCount : Z;
  targetStock : Z;
  maxDisagreeCount : Z;
  maxDisagreeStock : Z
}.

Definition calcSuperNodeTarget (md : Config) (totalCount : Z) : Z :=
  if totalCount <=? SuperNodeFullSignThreshold md then totalCount
  else f64_ceil_int (f64_mul (f64_of_Z totalCount) (TargetSignCountRatio md)).

Definition findStockInElect (node : Z) (electInfo : ElectGraph) : Z :=
  match List.find (fun elect => enAccount elect =? node) (ElectList electInfo) with
  | Some elect => enStock elect
  | None => DPOSDefStock
  end.

(** The body of the loop of [graph2ValidatorStocks]. *)
Definition addStock (electInfo : ElectGraph) (stocks : gmap Z Z) (node : TopologyNodeInfo)
  : gmap Z Z :=
  if negb (Type_ node =? RoleValidator) then stocks
  else match stocks !! Account node with
       | Some _ => stocks
       | None => <[Account node := findStockInElect (Account node) electInfo]> stocks
       end.

Definition graph2ValidatorStocks (topologyInfo : TopologyGraph) (electInfo : ElectGraph)
  : gmap Z Z :=
  foldl (addStock electInfo) ∅ (NodeList topologyInfo).

Definition getValidatorStocks (reader : StateReader) (hash : Z) : res dpos_error (gmap Z Z) :=
  let* (topologyInfo, electInfo) := res_wrap errReader (sr_GetGraphByHash reader hash) in
  Ok (graph2ValidatorStocks topologyInfo electInfo).

(** An agreeing signature replaces a disagreeing one of the same account. *)
Definition mergeSign (m : gmap Z VerifiedSign) (sign account : Z) (validate : bool) (stock : Z)
  : gmap Z VerifiedSign :=
  match m !! account with
  | Some existData =>
      if negb (vsValidate existData) && validate
      then <[account := mkVerified sign account validate stock]> m else m
  | None => <[account := mkVerified sign account validate stock]> m
  end.

Definition parseVerifiedSigns (verifiedSigns : list VerifiedSign) (stocks : gmap Z Z)
  : gmap Z VerifiedSign :=
  foldl (fun m sign =>
           match stocks !! vsAccount sign with
           | None => m
           | Some stock => mergeSign m (vsSign sign) (vsAccount sign) (vsValidate sign) stock
           end)
        ∅ verifiedSigns.

Definition addSign (target : dposTarget) (st : Z * Z * Z * Z * list Z) (signInfo : VerifiedSign)
  : res dpos_error (Z * Z * Z * Z * list Z) :=
  let '(agreeCount, disagreeCount, agreeStock, disagreeStock, rightSigns) := st in
  if vsValidate signInfo then
    Ok (agreeCount + 1, disagreeCount, u64 (agreeStock + vsStock signInfo), disagreeStock,
        rightSigns ++ [vsSign signInfo])
  else if maxDisagreeCount target <? disagreeCount + 1 then Err errDisagreeCountErr
  else if maxDisagreeStock target <? u64 (disagreeStock + vsStock signInfo)
  then Err errDisagreeStockErr
  else Ok (agreeCount, disagreeCount + 1, agreeStock, u64 (disagreeStock + vsStock signInfo),
           rightSigns).

Fixpoint countSigns (target : dposTarget) (st : Z * Z * Z * Z * list Z)
    (signs : list VerifiedSign) : res dpos_error (Z * Z * Z * Z * list Z) :=
  match signs with
  | [] => Ok st
  | signInfo :: rest =>
      let* st' := addSign target st signInfo in countSigns target st' rest
  end.

Section Engine.
Context `{GoRange} `{HeaderHash}.
(** [crypto.VerifySignWithValidate]: the signer of a hash and whether the
    signature agrees; [None] for an invalid signature. *)
Context (VerifySignWithValidate : Z -> Z -> option (Z * bool)).
Context (md : Config).

Definition calculateDPOSTarget (stocks : gmap Z Z) : res dpos_error dposTarget :=
  let totalCount := Z.of_nat (size stocks) in
  if totalCount <? MinStockCount md then Err errStockCountErr
  else
    let totalStock := foldl (fun acc stock => u64 (acc + stock)) 0 (go_range stocks).*2 in
    let (targetCount, targetStock) :=
      if totalCount <=? FullSignThreshold md then (totalCount, totalStock)
      else (f64_ceil_int (f64_mul (f64_of_Z totalCount) (TargetSignCountRatio md)),
            u64 (f64_ceil_int (f64_mul (f64_of_Z totalStock) (TargetStockRatio md)))) in
    Ok (mkTarget totalCount totalStock targetCount targetStock
          (i64 (totalCount - targetCount)) (u64 (totalStock - targetStock))).

Definition verifyDPOS (verifiedSigns : gmap Z VerifiedSign) (target : dposTarget)
  : res dpos_error (list Z) :=
  let* (agreeCount, _, agreeStock, _, rightSigns) :=
    countSigns target (0, 0, 0, 0, []) (go_range verifiedSigns).*2 in
  if agreeCount <? targetCount target then Err errSignCountErr
  else if agreeStock <? targetStock target then Err errSignStockErr
  else Ok rightSigns.

Fixpoint verifySignsFrom (reader : StateReader) (signHash : Z) (stocks : gmap Z Z)
    (blockHash : Z) (m : gmap Z VerifiedSign) (signs : list Z)
  : res dpos_error (gmap Z VerifiedSign) :=
  match signs with
  | [] => Ok m
  | sign :: rest =>
      match VerifySignWithValidate signHash sign with
      | None => verifySignsFrom reader signHash stocks blockHash m rest
      | Some (signAccount, signValidate) =>
          match sr_GetA0AccountFromAnyAccount reader signAccount blockHash with
          | Panic => Panic
          | Err _ => verifySignsFrom reader signHash stocks blockHash m rest
          | Ok (accountA0, _) =>
              match stocks !! accountA0 with
              | None => verifySignsFrom reader signHash stocks blockHash m rest
              | Some stock =>
                  verifySignsFrom reader signHash stocks blockHash
                    (mergeSign m sign accountA0 signValidate stock) rest
              end
          end
      end
  end.

Definition verifySigns (reader : StateReader) (signHash : Z) (signs : list Z)
    (stocks : gmap Z Z) (blockHash : Z) : res dpos_error (gmap Z VerifiedSign) :=
  verifySignsFrom reader signHash stocks blockHash ∅ signs.

Definition VerifyHashWithStocks (reader : StateReader) (signHash : Z) (signs : list Z)
    (stocks : gmap Z Z) (blockHash : Z) : res dpos_error (list Z) :=
  let* target := calculateDPOSTarget stocks in
  if Z.of_nat (length signs) <? targetCount target then Err errSignCountErr
  else
    let* verifiedSigns := verifySigns reader signHash signs stocks blockHash in
    if Z.of_nat (size verifiedSigns) <? targetCount target then Err errSignCountErr
    else verifyDPOS verifiedSigns target.

Definition VerifyHashWithBlock (reader : StateReader) (signHash : Z) (signs : list Z)
    (blockHash : Z) : res dpos_error (list Z) :=
  let* stocks := getValidatorStocks reader blockHash in
  VerifyHashWithStocks reader signHash signs stocks blockHash.

Definition VerifyHash (reader : StateReader) (signHash : Z) (signs : list Z)
  : res dpos_error (list Z) :=
  VerifyHashWithBlock reader signHash signs (sr_GetCurrentHash reader).

Definition VerifyHashWithVerifiedSignsAndBlock (reader : StateReader)
    (signs : list VerifiedSign) (blockHash : Z) : res dpos_error (list Z) :=
  let* stocks := getValidatorStocks reader blockHash in
  let* target := calculateDPOSTarget stocks in
  if Z.of_nat (length signs) <? targetCount target then Err errSignCountErr
  else
    let verifiedSigns := parseVerifiedSigns signs stocks in
    if Z.of_nat (size verifiedSigns) <? targetCount target then Err errSignCountErr
    else verifyDPOS verifiedSigns target.

Definition VerifyHashWithVerifiedSigns (reader : StateReader) (signs : list VerifiedSign)
  : res dpos_error (list Z) :=
  VerifyHashWithVerifiedSignsAndBlock reader signs (sr_GetCurrentHash reader).

Definition verifyHashWithSuperNodes (hash : Z) (signatures superNodes : list Z) : gmap Z Z :=
  foldl (fun m sigh =>
           match VerifySignWithValidate hash sigh with
           | None => m
           | Some (account, _) =>
               if existsb (Z.eqb account) superNodes
               then match m !! account with Some _ => m | None => <[account := 0]> m end
               else m
           end)
        ∅ signatures.

Definition VerifyVersionSigns (reader : StateReader) (header : Header) : res dpos_error unit :=
  let blockHash :=
    if u64 (hNumber header) =? 0 then header_Hash header else hParentHash header in
  match sr_GetVersionSuperAccounts reader blockHash with
  | Panic => Panic
  | Err _ | Ok None => Err errSuperAccounts
  | Ok (Some accounts) =>
      let targetCount := calcSuperNodeTarget md (Z.of_nat (length accounts)) in
      if Z.of_nat (length (hVersionSignatures header)) <? targetCount
      then Err errVersionSignCount
      else
        let verifiedVersion :=
          verifyHashWithSuperNodes (BytesToHash (string_bytes (hVersion header)))
            (hVersionSignatures header) accounts in
        if Z.of_nat (size verifiedVersion) <? targetCount then Err errVersionVerifySign
        else Ok tt
  end.

Definition CheckSuperBlock (reader : StateReader) (header : Header) : res dpos_error unit :=
  match sr_GetBlockSuperAccounts reader (sr_GetCurrentHash reader) with
  | Panic => Panic
  | Err _ | Ok None => Err errSuperAccounts
  | Ok (Some accounts) =>
      let targetCount := calcSuperNodeTarget md (Z.of_nat (length accounts)) in
      if Z.of_nat (length (hSignatures header)) <? targetCount then Err errSuperBlockSignCount
      else
        let verifiedSigh :=
          verifyHashWithSuperNodes (HashNoSigns header) (hSignatures header) accounts in
        if Z.of_nat (size verifiedSigh) <? targetCount then Err errSuperBlockVerifySign
        else Ok tt
  end.

Definition verifyBroadcastBlock (reader : StateReader) (header : Header)
  : res dpos_error unit :=
  match hSignatures header with
  | [sign] =>
      match VerifySignWithValidate (HashNoSignsAndNonce header) sign with
      | None => Err errVerifySign
      | Some (from, result) =>
          if negb (from =? hLeader header) then Err errBroadcastLeader
          else if negb result then Err errBroadcastVerifySignFalse
          else match sr_GetBroadcastAccounts reader (hParentHash header) with
               | Panic => Panic
               | Err _ | Ok [] => Err errBroadcastAccounts
               | Ok broadcasts =>
                   if existsb (Z.eqb from) broadcasts then Ok tt
                   else Err errBroadcastVerifySign
               end
      end
  | _ => Err errBroadcastSignCount
  end.

Definition VerifyBlock (reader : StateReader) (header : option Header)
  : res dpos_error unit :=
  match header with
  | None => Err errHeaderNil
  | Some header =>
      let* _ := VerifyVersionSigns reader header in
      if IsSuperHeader header then CheckSuperBlock reader header
      else
        let* bcInterval :=
          res_wrap errReader (sr_GetBroadcastIntervalByHash reader (hParentHash header)) in
        let* isBroadcast := IsBroadcastNumber bcInterval (u64 (hNumber header)) in
        if isBroadcast : bool then verifyBroadcastBlock reader header
        else
          let* stocks := getValidatorStocks reader (hParentHash header) in
          let* _ := VerifyHashWithStocks reader (HashNoSignsAndNonce header)
                      (hSignatures header) stocks (hParentHash header) in
          Ok tt
  end.
End Engine.

(** ** Targets *)

(** A validator position is an index below [4096] within its role, so no height
    has more than [4096] validators. *)
Definition maxValidators : Z := 4096.

Definition ratio_ok (n : Z) : bool :=
  let c := f64_ceil_int (f64_mul (f64_of_Z n) ratio_066667) in
  (2 * n <? 3 * c) && (c <=? n).

Lemma ratio_ok_bounded : forallb ratio_ok (Z.of_nat <$> seq 1 4096) = true.
Proof. vm_compute. reflexivity. Qed.

Lemma ratio_spec n :
  0 < n <= maxValidators ->
  2 * n < 3 * f64_ceil_int (f64_mul (f64_of_Z n) ratio_066667) /\
  f64_ceil_int (f64_mul (f64_of_Z n) ratio_066667) <= n.
Proof.
  intros Hn. unfold maxValidators in Hn.
  pose proof ratio_ok_bounded as Hall. rewrite forallb_forall in Hall.
  specialize (Hall n). unfold ratio_ok in Hall.
  rewrite andb_true_iff, Z.ltb_lt, Z.leb_le in Hall. apply Hall.
  apply list_elem_of_In, list_elem_of_fmap. exists (Z.to_nat n).
  split; [lia|]. apply elem_of_seq. lia.
Qed.

Lemma f64_mul_zero x : f64_ceil_int (f64_mul x (S754_zero false)) = 0.
Proof. by destruct x as [[]|[]| |[] ??]. Qed.

Definition stocks_ok (stocks : gmap Z Z) : Prop :=
  Z.of_nat (size stocks) <= maxValidators /\ map_Forall (fun _ s => is_u16 s) stocks.

Section Targets.
Context `{GoRange}.

Lemma stocks_values stocks :
  stocks_ok stocks -> Forall is_u16 (go_range stocks).*2.
Proof.
  intros [_ Hs]. apply Forall_forall. intros s Hin.
  apply list_elem_of_fmap in Hin as ([k s'] & -> & Hin).
  apply elem_of_go_range in Hin. exact (Hs _ _ Hin).
Qed.

Lemma stocks_total stocks :
  stocks_ok stocks ->
  foldl (fun acc stock => u64 (acc + stock)) 0 (go_range stocks).*2
  = Zsum (go_range stocks).*2 /\ 0 <= Zsum (go_range stocks).*2 < 2 ^ 32.
Proof.
  intros Hok. pose proof (stocks_values _ Hok) as Hv. destruct Hok as [Hsz _].
  unfold maxValidators in Hsz. change 0 with (u64 0) at 1. rewrite u64_add_fold, Z.add_0_l.
  assert (0 <= Zsum (go_range stocks).*2).
  { apply Zsum_nonneg. eapply Forall_impl; [exact Hv|]. unfold is_u16. simpl. lia. }
  assert (Zsum (go_range stocks).*2 <= (2 ^ 16 - 1) * Z.of_nat (length (go_range stocks).*2)).
  { apply Zsum_bound. eapply Forall_impl; [exact Hv|]. unfold is_u16. simpl. lia. }
  rewrite length_fmap, length_go_range in *.
  rewrite u64_small by (unfold is_u64; lia). lia.
Qed.

(** What a computed target promises. *)
Record target_ok (stocks : gmap Z Z) (t : dposTarget) : Prop := {
  tok_count : totalCount t = Z.of_nat (size stocks);
  tok_majority : 0 < totalCount t -> 2 * totalCount t < 3 * targetCount t;
  tok_le : 0 <= targetCount t <= totalCount t;
  tok_disagree : maxDisagreeCount t = totalCount t - targetCount t;
  tok_total : totalStock t = Zsum (go_range stocks).*2;
  tok_stock : 0 <= targetStock t <= totalStock t;
  tok_disagree_stock : maxDisagreeStock t = totalStock t - targetStock t
}.

Lemma calculateDPOSTarget_ok simple stocks t :
  stocks_ok stocks ->
  calculateDPOSTarget (NewMtxDPOS simple) stocks = Ok t -> target_ok stocks t.
Proof.
  intros Hok Ht. destruct (stocks_total _ Hok) as [Hsum Hb].
  destruct Hok as [Hsz _]. unfold maxValidators in Hsz.
  assert (Hfull : FullSignThreshold (NewMtxDPOS simple) = 7) by by destruct simple.
  assert (Hr1 : TargetSignCountRatio (NewMtxDPOS simple) = ratio_066667) by by destruct simple.
  assert (Hr2 : TargetStockRatio (NewMtxDPOS simple) = S754_zero false) by by destruct simple.
  unfold calculateDPOSTarget in Ht. rewrite Hfull, Hr1, Hr2, Hsum, f64_mul_zero in Ht.
  destruct (Z.ltb_spec (Z.of_nat (size stocks)) (MinStockCount (NewMtxDPOS simple))); [done|].
  destruct (Z.leb_spec (Z.of_nat (size stocks)) 7) as [Hle|Hgt]; injection Ht as <-.
  - split; simpl; try lia; [rewrite i64_small|rewrite u64_small];
      unfold is_i64, is_u64; lia.
  - destruct (ratio_spec (Z.of_nat (size stocks))) as [H1 H2];
      [unfold maxValidators; lia|].
    rewrite (u64_small 0) by (unfold is_u64; lia).
    split; simpl; try lia; [rewrite i64_small|rewrite u64_small];
      unfold is_i64, is_u64; lia.
Qed.
End Targets.

(** ** Counting signatures *)

Definition agreeing (l : list VerifiedSign) : list VerifiedSign :=
  filter (fun s => vsValidate s = true) l.
Definition disagreeing (l : list VerifiedSign) : list VerifiedSign :=
  filter (fun s => vsValidate s = false) l.

Lemma agreeing_cons s l :
  agreeing (s :: l) = if vsValidate s then s :: agreeing l else agreeing l.
Proof. unfold agreeing. rewrite filter_cons. by destruct (vsValidate s). Qed.

Lemma disagreeing_cons s l :
  disagreeing (s :: l) = if vsValidate s then disagreeing l else s :: disagreeing l.
Proof. unfold disagreeing. rewrite filter_cons. by destruct (vsValidate s). Qed.

Lemma agreeing_split l :
  Z.of_nat (length (agreeing l)) + Z.of_nat (length (disagreeing l)) = Z.of_nat (length l) /\
  Zsum (vsStock <$> agreeing l) + Zsum (vsStock <$> disagreeing l) = Zsum (vsStock <$> l).
Proof.
  induction l as [|s l [IH1 IH2]]; [done|].
  rewrite agreeing_cons, disagreeing_cons.
  destruct (vsValidate s); rewrite ?fmap_cons, ?Zsum_cons; cbn [length]; lia.
Qed.

Lemma countSigns_spec t l a d sa sd r :
  Forall (fun s => 0 <= vsStock s) l -> 0 <= sa -> 0 <= sd ->
  sa + Zsum (vsStock <$> l) < 2 ^ 64 -> sd + Zsum (vsStock <$> l) < 2 ^ 64 ->
  match countSigns t (a, d, sa, sd, r) l with
  | Ok st =>
      st = (a + Z.of_nat (length (agreeing l)), d + Z.of_nat (length (disagreeing l)),
            sa + Zsum (vsStock <$> agreeing l), sd + Zsum (vsStock <$> disagreeing l),
            r ++ (vsSign <$> agreeing l))
  | Err _ =>
      maxDisagreeCount t < d + Z.of_nat (length (disagreeing l)) \/
      maxDisagreeStock t < sd + Zsum (vsStock <$> disagreeing l)
  | Panic => False
  end.
Proof.
  intros Hl. revert a d sa sd r. induction Hl as [|s l Hs Hl IH]; intros a d sa sd r Ha Hd Hsa Hsd.
  { cbn. rewrite app_nil_r. change (Zsum []) with 0. tuple_eq; lia. }
  rewrite agreeing_cons, disagreeing_cons. rewrite fmap_cons, Zsum_cons in *.
  cbn [countSigns addSign].
  assert (0 <= Zsum (vsStock <$> l)).
  { apply Zsum_nonneg, Forall_fmap. eapply Forall_impl; [exact Hl|]. done. }
  pose proof (agreeing_split l) as [_ Hsplit].
  assert (0 <= Zsum (vsStock <$> disagreeing l)).
  { apply Zsum_nonneg, Forall_fmap, Forall_forall. intros x [_ Hx]%list_elem_of_filter.
    rewrite Forall_forall in Hl. exact (Hl x Hx). }
  destruct (vsValidate s); cbn [res_bind]; rewrite ?fmap_cons, ?Zsum_cons; cbn [length].
  - rewrite u64_small by (unfold is_u64; lia).
    specialize (IH (a + 1) d (sa + vsStock s) sd (r ++ [vsSign s])).
    destruct (countSigns _ _ _); [|lia|by apply IH; lia].
    rewrite IH by lia. rewrite <- app_assoc. tuple_eq; simpl; lia.
  - rewrite u64_small by (unfold is_u64; lia).
    destruct (Z.ltb_spec (maxDisagreeCount t) (d + 1)); [left; lia|].
    destruct (Z.ltb_spec (maxDisagreeStock t) (sd + vsStock s)); [right; lia|]. cbn [res_bind].
    specialize (IH a (d + 1) sa (sd + vsStock s) r).
    destruct (countSigns _ _ _); [|lia|by apply IH; lia].
    rewrite IH by lia. tuple_eq; simpl; lia.
Qed.

(** ** The collected signatures *)

(** Every entry is filed under its account and carries the account's stock. *)
Definition verified_wf (stocks : gmap Z Z) (m : gmap Z VerifiedSign) : Prop :=
  forall a v, m !! a = Some v -> vsAccount v = a /\ stocks !! a = Some (vsStock v).

(** [Q a sign validate] records where the entries come from. *)
Definition entries_from (Q : Z -> Z -> bool -> Prop) (m : gmap Z VerifiedSign) : Prop :=
  forall a v, m !! a = Some v -> Q a (vsSign v) (vsValidate v).

Lemma mergeSign_lookup m sign a val stock b v :
  mergeSign m sign a val stock !! b = Some v ->
  m !! b = Some v \/ (b = a /\ v = mkVerified sign a val stock).
Proof.
  unfold mergeSign. intros Hm.
  destruct (decide (b = a)) as [->|Hne].
  - destruct (m !! a) as [e|] eqn:He; [destruct (negb (vsValidate e) && val)|];
      rewrite ?lookup_insert_eq in Hm; simplify_eq; auto; by left.
  - left. by repeat case_match; rewrite ?lookup_insert_ne in Hm by done.
Qed.

Lemma mergeSign_wf stocks m sign a val stock :
  verified_wf stocks m -> stocks !! a = Some stock ->
  verified_wf stocks (mergeSign m sign a val stock).
Proof. intros Hm Ha b v [Hb|[-> ->]]%mergeSign_lookup; [exact (Hm b v Hb)|done]. Qed.

Lemma mergeSign_from Q m sign a val stock :
  entries_from Q m -> Q a sign val -> entries_from Q (mergeSign m sign a val stock).
Proof. intros Hm Ha b v [Hb|[-> ->]]%mergeSign_lookup; [exact (Hm b v Hb)|done]. Qed.

Section Collect.
Context (VerifySignWithValidate : Z -> Z -> option (Z * bool)).
Context (reader : StateReader) (signHash : Z) (stocks : gmap Z Z) (blockHash : Z).

(** [signed_by a sign validate]: [sign] is a signature of the hash by an
    account whose deposit account is [a]. *)
Definition signed_by (a sign : Z) (validate : bool) : Prop :=
  exists acc aux, VerifySignWithValidate signHash sign = Some (acc, validate) /\
                  sr_GetA0AccountFromAnyAccount reader acc blockHash = Ok (a, aux).

Lemma verifySignsFrom_spec signs m m' :
  verifySignsFrom VerifySignWithValidate reader signHash stocks blockHash m signs = Ok m' ->
  verified_wf stocks m ->
  forall Q : Z -> Z -> bool -> Prop,
    (forall a sign val, sign ∈ signs -> signed_by a sign val -> Q a sign val) ->
    entries_from Q m -> verified_wf stocks m' /\ entries_from Q m'.
Proof.
  revert m. induction signs as [|sign signs IH]; intros m Hv Hwf Q HQ Hm; simpl in Hv.
  { by simplify_eq. }
  assert (HQ' : forall a s val, s ∈ signs -> signed_by a s val -> Q a s val).
  { intros a s val Hs. apply HQ. by apply elem_of_cons; right. }
  destruct (VerifySignWithValidate signHash sign) as [[acc val]|] eqn:Hsig; [|by eapply IH].
  destruct (sr_GetA0AccountFromAnyAccount reader acc blockHash) as [[a aux]| |] eqn:Ha0;
    [|by eapply IH|done].
  destruct (stocks !! a) as [stock|] eqn:Hst; [|by eapply IH].
  eapply IH; [exact Hv|by apply mergeSign_wf|done|].
  apply mergeSign_from; [done|]. apply HQ; [apply elem_of_cons; auto|].
  by exists acc, aux.
Qed.
End Collect.

Section Verify.
Context `{GoRange}.

Lemma verified_wf_stock stocks m :
  verified_wf stocks m -> vsStock <$> m ⊆ stocks.
Proof.
  intros Hwf. apply map_subseteq_spec. intros a s Hs.
  apply lookup_fmap_Some in Hs as (v & <- & Hv). by apply Hwf in Hv as [_ Hv].
Qed.

Lemma verified_sizes stocks m :
  verified_wf stocks m -> stocks_ok stocks ->
  Forall (fun s => 0 <= vsStock s) (go_range m).*2 /\
  Z.of_nat (length (go_range m).*2) <= Z.of_nat (size stocks) /\
  Zsum (vsStock <$> (go_range m).*2) <= Zsum (go_range stocks).*2.
Proof.
  intros Hwf Hok. pose proof (verified_wf_stock _ _ Hwf) as Hsub. split_and!.
  - apply Forall_forall. intros v ([k v'] & -> & Hin)%list_elem_of_fmap.
    apply elem_of_go_range, Hwf in Hin as [_ Hin]. destruct Hok as [_ Hok].
    apply Hok in Hin. unfold is_u16 in Hin. simpl in *. lia.
  - rewrite length_fmap, length_go_range. apply Nat2Z.inj_le.
    rewrite <- (map_size_fmap vsStock m). by apply map_subseteq_size.
  - assert (Hf : vsStock <$> (go_range m).*2 ≡ₚ (map_to_list (vsStock <$> m)).*2).
    { rewrite go_range_perm, map_to_list_fmap, <- !list_fmap_compose. done. }
    rewrite Hf. rewrite (Zsum_submseteq _ (go_range stocks).*2); [done| |].
    + rewrite go_range_perm. apply fmap_submseteq, map_to_list_submseteq. done.
    + eapply Forall_impl; [by apply stocks_values|]. unfold is_u16. simpl. lia.
Qed.

Definition agreed (m : gmap Z VerifiedSign) : list VerifiedSign := agreeing (go_range m).*2.

(** [verifyDPOS] accepts exactly when the agreeing signatures reach the two
    targets; the early exits on disagreement never change the verdict. *)
Lemma verifyDPOS_iff simple stocks t m :
  stocks_ok stocks -> verified_wf stocks m ->
  calculateDPOSTarget (NewMtxDPOS simple) stocks = Ok t ->
  (verifyDPOS m t = Ok (vsSign <$> agreed m) /\
   targetCount t <= Z.of_nat (length (agreed m)) /\
   targetStock t <= Zsum (vsStock <$> agreed m))
  \/ ((exists e, verifyDPOS m t = Err e) /\
      (Z.of_nat (length (agreed m)) < targetCount t \/
       Zsum (vsStock <$> agreed m) < targetStock t)).
Proof.
  intros Hok Hwf Ht. apply calculateDPOSTarget_ok in Ht as Htok; [|done].
  destruct (verified_sizes _ _ Hwf Hok) as (Hnn & Hlen & Hsum).
  destruct (stocks_total _ Hok) as [_ Hb].
  pose proof (countSigns_spec t _ 0 0 0 0 [] Hnn ltac:(lia) ltac:(lia) ltac:(lia) ltac:(lia)).
  destruct (agreeing_split (go_range m).*2) as [Hs1 Hs2].
  destruct Htok. unfold verifyDPOS, agreed.
  destruct (countSigns t _ _) as [st|e|]; [|right|done].
  - subst st. cbn [res_bind app].
    destruct (Z.ltb_spec (0 + Z.of_nat (length (agreeing (go_range m).*2))) (targetCount t)).
    { right. split; [by eexists|]. left. lia. }
    destruct (Z.ltb_spec (0 + Zsum (vsStock <$> agreeing (go_range m).*2)) (targetStock t)).
    { right. split; [by eexists|]. right. lia. }
    left. split_and!; [done|lia|lia].
  - split; [by eexists|]. lia.
Qed.
End Verify.

Section Signers.
Context `{GoRange}.

Lemma agreed_accounts stocks m :
  verified_wf stocks m -> NoDup (vsAccount <$> agreed m).
Proof.
  intros Hwf. assert (Heq : vsAccount <$> (go_range m).*2 = (go_range m).*1).
  { rewrite <- list_fmap_compose. apply list_fmap_ext. intros i [k v] Hi. simpl.
    apply list_elem_of_lookup_2, elem_of_go_range in Hi. by apply Hwf in Hi as [Hi _]. }
  eapply sublist_NoDup; [|apply fmap_sublist, sublist_filter].
  rewrite Heq. apply NoDup_fst_go_range.
Qed.

Lemma agreed_entry stocks m v :
  verified_wf stocks m -> v ∈ agreed m -> vsValidate v = true /\ m !! vsAccount v = Some v.
Proof.
  intros Hwf [Hv ([k v'] & -> & Hin)%list_elem_of_fmap]%list_elem_of_filter.
  apply elem_of_go_range in Hin. simpl in *. by destruct (Hwf _ _ Hin) as [-> _].
Qed.

(** The accounts whose agreeing signatures were counted. *)
Definition signers (m : gmap Z VerifiedSign) : gset Z := list_to_set (vsAccount <$> agreed m).

Lemma signers_size stocks m :
  verified_wf stocks m -> size (signers m) = length (agreed m).
Proof.
  intros Hwf. unfold signers. rewrite size_list_to_set by by eapply agreed_accounts.
  apply length_fmap.
Qed.

Lemma signers_spec stocks m a :
  verified_wf stocks m -> a ∈ signers m ->
  exists v, v ∈ agreed m /\ vsAccount v = a /\ m !! a = Some v /\ vsValidate v = true /\
            a ∈ dom stocks.
Proof.
  intros Hwf Ha. unfold signers in Ha.
  apply elem_of_list_to_set, list_elem_of_fmap in Ha as (v & -> & Hv).
  destruct (agreed_entry _ _ _ Hwf Hv) as [Hval Hm]. exists v. split_and!; try done.
  apply elem_of_dom. exists (vsStock v). by apply (Hwf _ v).
Qed.

Lemma quorum_of_target simple stocks t m :
  stocks_ok stocks -> verified_wf stocks m ->
  calculateDPOSTarget (NewMtxDPOS simple) stocks = Ok t ->
  targetCount t <= Z.of_nat (length (agreed m)) ->
  2 * Z.of_nat (size stocks) < 3 * Z.of_nat (size (signers m)).
Proof.
  intros Hok Hwf Ht Hc. rewrite (signers_size _ _ Hwf).
  assert (0 < Z.of_nat (size stocks)).
  { unfold calculateDPOSTarget in Ht.
    assert (1 <= MinStockCount (NewMtxDPOS simple)) by by destruct simple.
    destruct (Z.ltb_spec (Z.of_nat (size stocks)) (MinStockCount (NewMtxDPOS simple))); [done|lia]. }
  apply calculateDPOSTarget_ok in Ht as []; [|done]. lia.
Qed.

(** A quorum for [hash]: more than two thirds of the validators, each with an
    agreeing signature among [signs]. *)
Definition quorum VerifySign (reader : StateReader) (stocks : gmap Z Z)
    (blockHash hash : Z) (signs rights : list Z) (A : gset Z) : Prop :=
  A ⊆ dom stocks /\
  2 * Z.of_nat (size stocks) < 3 * Z.of_nat (size A) /\
  forall a, a ∈ A -> exists sign, sign ∈ signs /\ sign ∈ rights /\
                       signed_by VerifySign reader hash blockHash a sign true.

Lemma VerifyHashWithStocks_quorum VerifySign simple reader hash signs stocks blockHash rs :
  stocks_ok stocks ->
  VerifyHashWithStocks VerifySign (NewMtxDPOS simple) reader hash signs stocks blockHash = Ok rs ->
  exists A, quorum VerifySign reader stocks blockHash hash signs rs A.
Proof.
  intros Hok Hv. unfold VerifyHashWithStocks in Hv.
  apply res_bind_Ok in Hv as (t & Ht & Hv). case_match; [done|].
  apply res_bind_Ok in Hv as (m & Hm & Hv). case_match; [done|].
  unfold verifySigns in Hm.
  destruct (verifySignsFrom_spec _ _ _ _ _ _ _ _ Hm) with
    (Q := fun a s val => s ∈ signs /\ signed_by VerifySign reader hash blockHash a s val)
    as [Hwf Hfrom]; [done|done|done|].
  destruct (verifyDPOS_iff simple stocks t m Hok Hwf Ht) as [(Hr & Hc & _)|[[e He] _]];
    [|congruence].
  rewrite Hr in Hv. simplify_eq. exists (signers m). split_and!.
  - intros a Ha. by apply (signers_spec _ _ _ Hwf) in Ha as (v & _ & _ & _ & _ & Ha).
  - by eapply quorum_of_target.
  - intros a Ha. apply (signers_spec _ _ _ Hwf) in Ha as (v & Hv & _ & Hma & Hval & _).
    destruct (Hfrom _ _ Hma) as [Hin Hs]. rewrite Hval in Hs.
    exists (vsSign v). split_and!; [done| |done]. by apply list_elem_of_fmap_2.
Qed.

Lemma parseVerifiedSigns_spec stocks signs :
  verified_wf stocks (parseVerifiedSigns signs stocks) /\
  entries_from (fun a s val => exists v, v ∈ signs /\ vsAccount v = a /\ vsSign v = s /\
                                         vsValidate v = val) (parseVerifiedSigns signs stocks).
Proof.
  unfold parseVerifiedSigns. induction signs as [|v signs [IH1 IH2]] using rev_ind; [done|].
  rewrite foldl_app. cbn [foldl].
  assert (Hmono : entries_from (fun a s val => exists w, w ∈ signs ++ [v] /\ vsAccount w = a /\
            vsSign w = s /\ vsValidate w = val) (foldl (fun m sign =>
           match stocks !! vsAccount sign with
           | None => m
           | Some stock => mergeSign m (vsSign sign) (vsAccount sign) (vsValidate sign) stock
           end) ∅ signs)).
  { intros a w Hw. destruct (IH2 _ _ Hw) as (u & Hu & ?). exists u. split; [set_solver|done]. }
  destruct (stocks !! vsAccount v) as [stock|] eqn:Hs; [|done]. split.
  - by apply mergeSign_wf.
  - apply mergeSign_from; [done|]. exists v. split; [set_solver|done].
Qed.

(** Collected votes the engine accepts come from more than two thirds of the
    validators. *)
Lemma VerifiedSigns_quorum simple reader signs blockHash rs :
  (forall h t e, sr_GetGraphByHash reader h = Ok (t, e) -> stocks_ok (graph2ValidatorStocks t e)) ->
  VerifyHashWithVerifiedSignsAndBlock (NewMtxDPOS simple) reader signs blockHash = Ok rs ->
  exists top elect (A : gset Z),
    sr_GetGraphByHash reader blockHash = Ok (top, elect) /\
    A ⊆ dom (graph2ValidatorStocks top elect) /\
    2 * Z.of_nat (size (graph2ValidatorStocks top elect)) < 3 * Z.of_nat (size A) /\
    forall a, a ∈ A -> exists v, v ∈ signs /\ vsAccount v = a /\ vsValidate v = true /\ vsSign v ∈ rs.
Proof.
  intros Hgraph Hv. unfold VerifyHashWithVerifiedSignsAndBlock, getValidatorStocks in Hv.
  destruct (sr_GetGraphByHash reader blockHash) as [[top elect]| |] eqn:Eg; try done.
  cbn [res_wrap res_bind] in Hv. pose proof (Hgraph _ _ _ Eg) as Hok.
  set (stocks := graph2ValidatorStocks top elect) in *.
  apply res_bind_Ok in Hv as (t & Ht & Hv). case_match; [done|]. case_match; [done|].
  destruct (parseVerifiedSigns_spec stocks signs) as [Hwf Hfrom].
  destruct (verifyDPOS_iff simple stocks t _ Hok Hwf Ht) as [(Hr & Hc & _)|[[e He] _]]; [|congruence].
  rewrite Hr in Hv. injection Hv as <-. exists top, elect, (signers (parseVerifiedSigns signs stocks)).
  split; [done|]. split; [|split; [by eapply quorum_of_target|]].
  - intros a Ha. by apply (signers_spec _ _ _ Hwf) in Ha as (v & _ & _ & _ & _ & Ha).
  - intros a Ha. apply (signers_spec _ _ _ Hwf) in Ha as (v & Hv & _ & Hma & Hval & _).
    destruct (Hfrom _ _ Hma) as (w & Hw & Hwa & Hws & Hwv). exists w. split; [done|].
    split; [done|]. split; [congruence|]. rewrite Hws. by apply list_elem_of_fmap_2.
Qed.
End Signers.

Lemma size_inter_bound (X Y D : gset Z) :
  X ⊆ D -> Y ⊆ D -> (size X + size Y <= size D + size (X ∩ Y))%nat.
Proof.
  intros HX HY.
  assert (size (X ∪ Y) <= size D)%nat by (apply subseteq_size; set_solver).
  assert (size X = size (X ∖ Y) + size (X ∩ Y))%nat.
  { rewrite <- size_union by set_solver. f_equal. apply leibniz_equiv. intros a.
    rewrite elem_of_union, elem_of_difference, elem_of_intersection.
    destruct (decide (a ∈ Y)); tauto. }
  assert (size (X ∪ Y) = size (X ∖ Y) + size Y)%nat.
  { rewrite <- size_union by set_solver. f_equal. apply leibniz_equiv. intros a.
    rewrite !elem_of_union, elem_of_difference. destruct (decide (a ∈ Y)); tauto. }
  lia.
Qed.

(** C33: the signature target computed in floating point is sound: for every
    validator set a height can have, the target is more than two thirds of the
    validators and at most all of them, and the tolerated number of
    disagreements is exactly the rest. *)
Theorem dpos_target_majority `{GoRange} simple stocks t :
  stocks_ok stocks -> calculateDPOSTarget (NewMtxDPOS simple) stocks = Ok t ->
  0 < Z.of_nat (size stocks) ->
  2 * Z.of_nat (size stocks) < 3 * targetCount t /\
  targetCount t <= Z.of_nat (size stocks) /\
  maxDisagreeCount t + targetCount t = Z.of_nat (size stocks) /\
  targetStock t <= totalStock t.
Proof. intros Hok Ht Hpos. apply calculateDPOSTarget_ok in Ht as []; [lia|done]. Qed.

(** The verdict on collected signatures does not depend on the order in
    which the map is ranged over: the engine accepts exactly when the agreeing
    signatures reach the count and stock targets, and it then returns exactly
    the agreeing signatures. *)
Theorem verifyDPOS_decides `{GoRange} simple stocks t m :
  stocks_ok stocks -> verified_wf stocks m ->
  calculateDPOSTarget (NewMtxDPOS simple) stocks = Ok t ->
  (is_Ok (verifyDPOS m t) <->
   targetCount t <= Z.of_nat (length (agreed m)) /\
   targetStock t <= Zsum (vsStock <$> agreed m)) /\
  (forall rs, verifyDPOS m t = Ok rs -> rs = vsSign <$> agreed m).
Proof.
  intros Hok Hwf Ht. unfold is_Ok.
  destruct (verifyDPOS_iff simple stocks t m Hok Hwf Ht) as [(-> & Hc & Hs)|[[e ->] Hc]].
  - split; [split; eauto|]. by intros rs [= <-].
  - split; [|done]. split; [by intros [? [=]]|lia].
Qed.

(** C5: two accepted hashes share signers: if the engine accepts two
    hashes against the same validators, more than a third of the validators
    signed both in agreement. *)
Theorem quorum_intersection `{GoRange} VerifySign simple reader stocks blockHash
    hash1 signs1 rs1 hash2 signs2 rs2 :
  stocks_ok stocks ->
  VerifyHashWithStocks VerifySign (NewMtxDPOS simple) reader hash1 signs1 stocks blockHash = Ok rs1 ->
  VerifyHashWithStocks VerifySign (NewMtxDPOS simple) reader hash2 signs2 stocks blockHash = Ok rs2 ->
  exists B : gset Z, Z.of_nat (size stocks) < 3 * Z.of_nat (size B) /\
    forall a, a ∈ B ->
      a ∈ dom stocks /\
      (exists s1, s1 ∈ signs1 /\ signed_by VerifySign reader hash1 blockHash a s1 true) /\
      (exists s2, s2 ∈ signs2 /\ signed_by VerifySign reader hash2 blockHash a s2 true).
Proof.
  intros Hok H1 H2.
  apply VerifyHashWithStocks_quorum in H1 as (A1 & Hd1 & Hs1 & Hq1); [|done].
  apply VerifyHashWithStocks_quorum in H2 as (A2 & Hd2 & Hs2 & Hq2); [|done].
  exists (A1 ∩ A2). pose proof (size_inter_bound A1 A2 (dom stocks) Hd1 Hd2) as Hsz.
  rewrite size_dom in Hsz. split; [lia|].
  intros a [Ha1 Ha2]%elem_of_intersection. split; [by apply Hd1|].
  destruct (Hq1 a Ha1) as (s1 & ? & _ & ?), (Hq2 a Ha2) as (s2 & ? & _ & ?).
  split; [by exists s1|by exists s2].
Qed.

(** ** Super, version and broadcast signatures *)

Section Blocks.
Context (VerifySign : Z -> Z -> option (Z * bool)).

(** More than two thirds of [accounts] signed [hash]. *)
Definition super_quorum (hash : Z) (signs accounts : list Z) : Prop :=
  exists S : gset Z,
    (0 < Z.of_nat (length accounts) ->
     2 * Z.of_nat (length accounts) < 3 * Z.of_nat (size S)) /\
    forall a, a ∈ S -> a ∈ accounts /\
      exists sign val, sign ∈ signs /\ VerifySign hash sign = Some (a, val).

Lemma verifyHashWithSuperNodes_spec hash signs accounts a :
  a ∈ dom (verifyHashWithSuperNodes VerifySign hash signs accounts) ->
  a ∈ accounts /\ exists sign val, sign ∈ signs /\ VerifySign hash sign = Some (a, val).
Proof.
  unfold verifyHashWithSuperNodes.
  induction signs as [|sign signs IH] using rev_ind; [set_solver|].
  rewrite foldl_app. cbn [foldl].
  assert (Hmono : a ∈ accounts /\
            (exists s val, s ∈ signs /\ VerifySign hash s = Some (a, val)) ->
          a ∈ accounts /\
            exists s val, s ∈ signs ++ [sign] /\ VerifySign hash s = Some (a, val)).
  { intros [Ha (s & val & Hs & Hv)]. split; [done|]. exists s, val. set_solver. }
  destruct (VerifySign hash sign) as [[acc val]|] eqn:Hv; [|auto].
  destruct (existsb (Z.eqb acc) accounts) eqn:He; [|auto].
  case_match; [auto|]. rewrite dom_insert, elem_of_union, elem_of_singleton.
  intros [->|Ha]; [|auto].
  apply existsb_exists in He as (x & Hx & <-%Z.eqb_eq). split; [by apply list_elem_of_In|].
  exists sign, val. set_solver.
Qed.

Lemma super_quorum_of_target simple hash signs accounts :
  Z.of_nat (length accounts) <= maxValidators ->
  calcSuperNodeTarget (NewMtxDPOS simple) (Z.of_nat (length accounts))
    <= Z.of_nat (size (verifyHashWithSuperNodes VerifySign hash signs accounts)) ->
  super_quorum hash signs accounts.
Proof.
  intros Hn Ht. eexists. split; [|exact (verifyHashWithSuperNodes_spec hash signs accounts)].
  intros Hpos. rewrite size_dom. unfold calcSuperNodeTarget in Ht.
  assert (Hr1 : TargetSignCountRatio (NewMtxDPOS simple) = ratio_066667) by by destruct simple.
  rewrite Hr1 in Ht. destruct (ratio_spec (Z.of_nat (length accounts))); [lia|].
  destruct (Z.leb_spec (Z.of_nat (length accounts))
              (SuperNodeFullSignThreshold (NewMtxDPOS simple))); lia.
Qed.
End Blocks.

(** The signature rules of the three kinds of blocks. *)
Definition block_signed `{HeaderHash} VerifySign (reader : StateReader) (h : Header) : Prop :=
  if IsSuperHeader h then
    exists accounts, sr_GetBlockSuperAccounts reader (sr_GetCurrentHash reader) = Ok (Some accounts)
      /\ super_quorum VerifySign (HashNoSigns h) (hSignatures h) accounts
  else exists bc isB,
    sr_GetBroadcastIntervalByHash reader (hParentHash h) = Ok bc /\
    IsBroadcastNumber (E := dpos_error) bc (u64 (hNumber h)) = Ok isB /\
    if isB then
      exists sign broadcasts, hSignatures h = [sign] /\
        VerifySign (HashNoSignsAndNonce h) sign = Some (hLeader h, true) /\
        sr_GetBroadcastAccounts reader (hParentHash h) = Ok broadcasts /\ hLeader h ∈ broadcasts
    else
      exists top elect A rs, sr_GetGraphByHash reader (hParentHash h) = Ok (top, elect) /\
        quorum VerifySign reader (graph2ValidatorStocks top elect) (hParentHash h)
          (HashNoSignsAndNonce h) (hSignatures h) rs A.

(** The sizes a reader can return. *)
Definition reader_ok (reader : StateReader) : Prop :=
  (forall h l, sr_GetVersionSuperAccounts reader h = Ok (Some l) ->
               Z.of_nat (length l) <= maxValidators) /\
  (forall h l, sr_GetBlockSuperAccounts reader h = Ok (Some l) ->
               Z.of_nat (length l) <= maxValidators) /\
  (forall h t e, sr_GetGraphByHash reader h = Ok (t, e) ->
                 stocks_ok (graph2ValidatorStocks t e)).

Section BlockProofs.
Context `{GoRange} `{HeaderHash} (VerifySign : Z -> Z -> option (Z * bool)).
Context (simple : bool) (reader : StateReader) (h : Header) (Hrd : reader_ok reader).

Lemma CheckSuperBlock_sound :
  CheckSuperBlock VerifySign (NewMtxDPOS simple) reader h = Ok tt ->
  exists accounts, sr_GetBlockSuperAccounts reader (sr_GetCurrentHash reader) = Ok (Some accounts)
    /\ super_quorum VerifySign (HashNoSigns h) (hSignatures h) accounts.
Proof using Hrd.
  unfold CheckSuperBlock.
  destruct (sr_GetBlockSuperAccounts _ _) as [[accounts|]| |] eqn:Ha; try done.
  case_match; [done|]. case_match eqn:Ht; [done|]. intros _.
  exists accounts. split; [done|]. apply (super_quorum_of_target _ simple); [|lia].
  by eapply (proj1 (proj2 Hrd)).
Qed.

Lemma verifyBroadcastBlock_sound :
  verifyBroadcastBlock VerifySign reader h = Ok tt ->
  exists sign broadcasts, hSignatures h = [sign] /\
    VerifySign (HashNoSignsAndNonce h) sign = Some (hLeader h, true) /\
    sr_GetBroadcastAccounts reader (hParentHash h) = Ok broadcasts /\ hLeader h ∈ broadcasts.
Proof.
  unfold verifyBroadcastBlock.
  destruct (hSignatures h) as [|sign [|]]; try done.
  destruct (VerifySign _ sign) as [[from result]|] eqn:Hs; [|done].
  destruct (Z.eqb_spec from (hLeader h)) as [->|]; [|done].
  destruct result; [|done]. simpl.
  destruct (sr_GetBroadcastAccounts _ _) as [[|b bs]| |] eqn:Hb; try done.
  destruct (existsb _ (b :: bs)) eqn:He; [|done]. intros _.
  apply existsb_exists in He as (x & Hx & <-%Z.eqb_eq).
  exists sign, (b :: bs). split_and!; try done. by apply list_elem_of_In.
Qed.

Lemma VerifyVersionSigns_sound :
  VerifyVersionSigns VerifySign (NewMtxDPOS simple) reader h = Ok tt ->
  exists accounts,
    sr_GetVersionSuperAccounts reader
      (if u64 (hNumber h) =? 0 then header_Hash h else hParentHash h) = Ok (Some accounts) /\
    super_quorum VerifySign (BytesToHash (string_bytes (hVersion h)))
      (hVersionSignatures h) accounts.
Proof using Hrd.
  unfold VerifyVersionSigns.
  generalize (if u64 (hNumber h) =? 0 then header_Hash h else hParentHash h). intros bh.
  destruct (sr_GetVersionSuperAccounts reader bh) as [[accounts|]| |] eqn:Ha; try done.
  case_match; [done|]. case_match eqn:Ht; [done|]. intros _.
  exists accounts. split; [done|]. apply (super_quorum_of_target _ simple); [|lia].
  by eapply (proj1 Hrd).
Qed.
End BlockProofs.

Lemma VerifyBlock_sound `{GoRange} `{HeaderHash} VerifySign simple reader h :
  reader_ok reader ->
  VerifyBlock VerifySign (NewMtxDPOS simple) reader (Some h) = Ok tt ->
  (exists accounts,
     sr_GetVersionSuperAccounts reader
       (if u64 (hNumber h) =? 0 then header_Hash h else hParentHash h) = Ok (Some accounts) /\
     super_quorum VerifySign (BytesToHash (string_bytes (hVersion h)))
       (hVersionSignatures h) accounts) /\
  block_signed VerifySign reader h.
Proof.
  intros Hrd Hv. unfold VerifyBlock in Hv. apply res_bind_Ok in Hv as ([] & Hver & Hv).
  split; [by eapply VerifyVersionSigns_sound|]. unfold block_signed.
  destruct (IsSuperHeader h); [by eapply CheckSuperBlock_sound|].
  apply res_bind_Ok in Hv as (bc & Hbc & Hv). apply res_bind_Ok in Hv as (isB & HB & Hv).
  exists bc, isB. split; [by destruct (sr_GetBroadcastIntervalByHash _ _); simplify_eq/=|].
  split; [done|]. destruct isB; [by apply verifyBroadcastBlock_sound|].
  apply res_bind_Ok in Hv as (stocks & Hst & Hv). apply res_bind_Ok in Hv as (rs & Hv & _).
  unfold getValidatorStocks in Hst.
  destruct (sr_GetGraphByHash reader (hParentHash h)) as [[top elect]| |] eqn:Hg; try done.
  simplify_eq/=. apply VerifyHashWithStocks_quorum in Hv as [A HA]; [by exists top, elect, A, rs|].
  by eapply (proj2 (proj2 Hrd)).
Qed.


(** ** How many validators a height can have *)

Definition graph_u16 (g : TopologyGraph) : Prop := Forall (fun n => is_u16 (Position n)) (NodeList g).
Definition elect_u16 (e : ElectGraph) : Prop := Forall (fun n => is_u16 (enStock n)) (ElectList e).

Lemma validator_position n :
  node_ok n -> is_u16 (Position n) -> Type_ n = RoleValidator ->
  0x2000 <= Position n < 0x3000.
Proof.
  intros [Hn _] Hp Ht. rewrite Ht in Hn. unfold is_u16 in Hp.
  unfold GetRoleTypeFromPosition, Transfer2CommonRole in Hn.
  pose proof (Z.div_mod (Position n) 4096 ltac:(lia)).
  pose proof (Z.mod_pos_bound (Position n) 4096 ltac:(lia)).
  assert (Hs : u8 (Z.shiftr (Position n) 12) = Position n / 4096).
  { rewrite Z.shiftr_div_pow2 by lia. apply u8_small. unfold is_u8.
    change (2 ^ 12) with 4096. lia. }
  rewrite Hs in Hn.
  destruct (Z.eqb_spec (Position n / 4096) ElectRoleMiner); [done|].
  destruct (Z.eqb_spec (Position n / 4096) ElectRoleMinerBackUp); [done|].
  destruct (Z.eqb_spec (Position n / 4096) ElectRoleValidator) as [He|].
  - unfold ElectRoleValidator in He. lia.
  - by repeat case_match.
Qed.

Lemma sorted_interval_length l a b :
  StronglySorted Z.lt l -> Forall (fun x => a <= x < b) l -> a <= b ->
  Z.of_nat (length l) <= b - a.
Proof.
  intros Hs. revert a. induction Hs as [|x l Hs IH Hx]; intros a Hf Hab; simpl; [lia|].
  apply Forall_cons in Hf as [Hxa Hf]. rewrite Forall_forall in Hf, Hx.
  enough (Z.of_nat (length l) <= b - (x + 1)) by lia. apply IH; [|lia].
  apply Forall_forall. intros y Hy. specialize (Hf y Hy). specialize (Hx y Hy). lia.
Qed.

Lemma findStockInElect_u16 a e : elect_u16 e -> is_u16 (findStockInElect a e).
Proof.
  intros He. unfold findStockInElect, elect_u16 in *. rewrite Forall_forall in He.
  destruct (List.find _ _) eqn:Hf; [|unfold is_u16, DPOSDefStock; lia].
  apply He. apply find_some in Hf as [Hf _]. by apply list_elem_of_In.
Qed.

Lemma graph2ValidatorStocks_dom nodes e stocks :
  elect_u16 e -> map_Forall (fun _ s => is_u16 s) stocks ->
  let stocks' := foldl (addStock e) stocks nodes in
  (size stocks' <= size stocks + length (filter (fun n => Type_ n = RoleValidator) nodes))%nat /\
  map_Forall (fun _ s => is_u16 s) stocks'.
Proof.
  intros He. revert stocks. induction nodes as [|n nodes IH]; intros stocks Hs; simpl; [split; [lia|done]|].
  rewrite filter_cons. unfold addStock at 2 4. destruct (Z.eqb_spec (Type_ n) RoleValidator) as [Ht|Ht]; simpl.
  2:{ rewrite decide_False by done. by apply IH. }
  rewrite decide_True by done. destruct (stocks !! Account n) eqn:Hl.
  - destruct (IH stocks Hs). split; [simpl; lia|done].
  - destruct (IH (<[Account n := findStockInElect (Account n) e]> stocks)) as [H1 H2].
    { apply map_Forall_insert_2; [by apply findStockInElect_u16|done]. }
    split; [|done]. rewrite map_size_insert_None in H1 by done. simpl. lia.
Qed.

(** The validator map of a well-formed topology has at most 4096 entries
    with 16-bit stocks: positions encode the role in four bits and an index in
    twelve, and positions are distinct.  This bounds the arithmetic of the
    signature targets. *)
Theorem validators_bounded top elect :
  graph_wf top -> graph_u16 top -> elect_u16 elect ->
  stocks_ok (graph2ValidatorStocks top elect).
Proof.
  intros Hwf Hp He.
  destruct (graph2ValidatorStocks_dom (NodeList top) elect ∅ He) as [Hsz Hu]; [done|].
  split; [|exact Hu]. unfold graph2ValidatorStocks, maxValidators.
  rewrite map_size_empty in Hsz.
  set (vs := filter (fun n => Type_ n = RoleValidator) (NodeList top)) in *.
  enough (Z.of_nat (length (Position <$> vs)) <= 0x3000 - 0x2000)
    by (rewrite length_fmap in *; lia).
  apply sorted_interval_length; [|  |lia].
  - eapply StronglySorted_sublist; [apply fmap_sublist, sublist_filter|apply Hwf].
  - apply Forall_fmap, Forall_forall. intros n [Ht Hn]%list_elem_of_filter. simpl.
    destruct Hwf as [_ Hn' _]. unfold graph_u16 in Hp. rewrite Forall_forall in Hn', Hp.
    apply validator_position; auto.
Qed.

Definition w_elect : ElectGraph := mkElectGraph 0 [mkElectNode 11 0x2000 5 VIP_Nil RoleValidator] [] [].

Lemma validators_bounded_witness : stocks_ok (graph2ValidatorStocks sample_graph w_elect).
Proof.
  apply (validators_bounded sample_graph w_elect); [exact sample_graph_wf| |];
    repeat constructor; simpl; lia.
Defined.

(** ** Witnesses: four validators who sign with their own account number *)

Definition w_sign (hash sign : Z) : option (Z * bool) :=
  if sign / 1000 =? hash then Some (sign mod 1000, true) else None.
Definition w_reader : StateReader :=
  mkReader 1 (fun _ => Err ErrRead) (fun _ => Err ErrRead) (fun _ => Err ErrRead)
    (fun _ => Err ErrRead) (fun _ => Err ErrRead) (fun a _ => Ok (a, a)).
Definition w_stocks : gmap Z Z := <[1 := 5]> (<[2 := 1]> (<[3 := 2]> (<[4 := 3]> ∅))).
Definition w_signs (hash : Z) : list Z := [hash * 1000 + 1; hash * 1000 + 2; hash * 1000 + 3;
                                           hash * 1000 + 4].

Definition w_rights (hash : Z) : list Z :=
  [hash * 1000 + 3; hash * 1000 + 4; hash * 1000 + 2; hash * 1000 + 1].

Lemma w_stocks_ok : stocks_ok w_stocks.
Proof.
  split; [vm_compute; discriminate|]. apply (bool_decide_unpack _). vm_compute. exact I.
Qed.

Definition w_target : dposTarget := mkTarget 4 11 4 11 0 0.
Definition w_verified : gmap Z VerifiedSign :=
  parseVerifiedSigns ((fun a => mkVerified (7000 + a) a true 0) <$> [1; 2; 3; 4]) w_stocks.

Lemma w_verified_wf : verified_wf w_stocks w_verified.
Proof.
  unfold w_verified, parseVerifiedSigns. cbn [foldl fmap list_fmap vsAccount].
  repeat (case_match; [apply mergeSign_wf; [|done]|]); try done.
Qed.

Lemma dpos_target_majority_witness :
  2 * 4 < 3 * targetCount w_target /\ targetCount w_target <= 4 /\
  maxDisagreeCount w_target + targetCount w_target = 4 /\
  targetStock w_target <= totalStock w_target.
Proof.
  apply (dpos_target_majority false w_stocks w_target); [exact w_stocks_ok| |];
    vm_compute; reflexivity.
Defined.

Lemma verifyDPOS_decides_witness :
  (is_Ok (verifyDPOS w_verified w_target) <->
   targetCount w_target <= Z.of_nat (length (agreed w_verified)) /\
   targetStock w_target <= Zsum (vsStock <$> agreed w_verified)) /\
  (forall rs, verifyDPOS w_verified w_target = Ok rs -> rs = vsSign <$> agreed w_verified).
Proof.
  apply (verifyDPOS_decides false w_stocks w_target w_verified);
    [exact w_stocks_ok|exact w_verified_wf|vm_compute; reflexivity].
Defined.

Lemma quorum_intersection_witness :
  exists B : gset Z, 4 < 3 * Z.of_nat (size B) /\
    forall a, a ∈ B ->
      a ∈ dom w_stocks /\
      (exists s1, s1 ∈ w_signs 7 /\ signed_by w_sign w_reader 7 1 a s1 true) /\
      (exists s2, s2 ∈ w_signs 8 /\ signed_by w_sign w_reader 8 1 a s2 true).
Proof.
  apply (quorum_intersection w_sign false w_reader w_stocks 1 7 (w_signs 7) (w_rights 7)
           8 (w_signs 8) (w_rights 8));
    [exact w_stocks_ok|vm_compute; reflexivity|vm_compute; reflexivity].
Defined.

#[local] Instance w_hash : HeaderHash :=
  {| header_Hash := hNumber; HashNoSigns := hNumber; HashNoSignsAndNonce := hNumber |}.
Definition w_header : Header := mkHeader 1 2 0 12 0 (w_signs 12) "1" [49002; 49003; 49004].
Definition w_topology : TopologyGraph :=
  mkGraph ((fun a => mkNode a a RoleValidator a) <$> [1; 2; 3; 4]) 4.
Definition w_reader2 : StateReader :=
  mkReader 1 (fun _ => Ok (w_topology, mkElectGraph 0 [] [] [])) (fun _ => Err ErrRead)
    (fun _ => Ok (Some [2; 3; 4])) (fun _ => Err ErrRead)
    (fun _ => Ok (mkBCIntervalInfo 0 0 100 0 0)) (fun a _ => Ok (a, a)).

Lemma w_reader2_ok : reader_ok w_reader2.
Proof.
  split_and!; simpl; [intros _ l [= <-]; vm_compute; discriminate|done|].
  intros _ t e [= <- <-]. split; [vm_compute; discriminate|].
  apply (bool_decide_unpack _). vm_compute. exact I.
Qed.


(** ** Panics

    The engine panics only where what it reads does: a reader that answers
    every question with a value or an error, and a broadcast interval that is
    not zero. *)

Record reader_safe (reader : StateReader) : Prop := {
  rs_graph : forall h, sr_GetGraphByHash reader h <> Panic;
  rs_broadcast : forall h, sr_GetBroadcastAccounts reader h <> Panic;
  rs_version : forall h, sr_GetVersionSuperAccounts reader h <> Panic;
  rs_block : forall h, sr_GetBlockSuperAccounts reader h <> Panic;
  rs_interval : forall h, sr_GetBroadcastIntervalByHash reader h <> Panic;
  rs_interval_pos : forall h bc, sr_GetBroadcastIntervalByHash reader h = Ok bc -> BCInterval bc <> 0;
  rs_a0 : forall a h, sr_GetA0AccountFromAnyAccount reader a h <> Panic
}.

Section NoPanic.
Context `{GoRange} `{HeaderHash} (VerifySign : Z -> Z -> option (Z * bool)).
Context (simple : bool) (reader : StateReader) (Hsafe : reader_safe reader).

Lemma countSigns_no_panic t st l : countSigns t st l <> Panic.
Proof.
  revert st. induction l as [|s l IH]; intros [[[[a d] sa] sd] r]; cbn; [done|].
  repeat case_match; cbn; auto.
Qed.

Lemma verifyDPOS_no_panic m t : verifyDPOS m t <> Panic.
Proof.
  unfold verifyDPOS. pose proof (countSigns_no_panic t (0, 0, 0, 0, []) (go_range m).*2).
  destruct (countSigns _ _ _) as [[[[[? ?] ?] ?] ?]| |]; cbn; [|done..]. repeat case_match; done.
Qed.

Lemma getValidatorStocks_no_panic h : getValidatorStocks reader h <> Panic.
Proof using Hsafe.
  unfold getValidatorStocks. pose proof (rs_graph _ Hsafe h).
  destruct (sr_GetGraphByHash reader h) as [[]| |]; done.
Qed.

Lemma calculateDPOSTarget_no_panic stocks : calculateDPOSTarget (NewMtxDPOS simple) stocks <> Panic.
Proof. unfold calculateDPOSTarget. repeat case_match; done. Qed.

Lemma VerifyHashWithVerifiedSignsAndBlock_no_panic signs h :
  VerifyHashWithVerifiedSignsAndBlock (NewMtxDPOS simple) reader signs h <> Panic.
Proof using Hsafe.
  unfold VerifyHashWithVerifiedSignsAndBlock. pose proof (getValidatorStocks_no_panic h).
  destruct (getValidatorStocks reader h) as [stocks| |]; cbn; [|done..].
  pose proof (calculateDPOSTarget_no_panic stocks).
  destruct (calculateDPOSTarget _ stocks) as [t| |]; cbn; [|done..].
  repeat case_match; try done. apply verifyDPOS_no_panic.
Qed.

Lemma verifySignsFrom_no_panic hash stocks blk m signs :
  verifySignsFrom VerifySign reader hash stocks blk m signs <> Panic.
Proof using Hsafe.
  revert m. induction signs as [|s l IH]; intros m; cbn; [done|].
  destruct (VerifySign hash s) as [[a v]|]; [|done]. pose proof (rs_a0 _ Hsafe a blk).
  destruct (sr_GetA0AccountFromAnyAccount reader a blk) as [[]| |]; [|done..].
  case_match; auto.
Qed.

Lemma VerifyHashWithStocks_no_panic hash signs stocks blk :
  VerifyHashWithStocks VerifySign (NewMtxDPOS simple) reader hash signs stocks blk <> Panic.
Proof using Hsafe.
  unfold VerifyHashWithStocks, verifySigns. pose proof (calculateDPOSTarget_no_panic stocks).
  destruct (calculateDPOSTarget _ stocks) as [t| |]; cbn; [|done..]. case_match; [done|].
  pose proof (verifySignsFrom_no_panic hash stocks blk ∅ signs).
  destruct (verifySignsFrom _ _ _ _ _ _ _); cbn; [|done..]. case_match; [done|].
  apply verifyDPOS_no_panic.
Qed.

Lemma VerifyBlock_no_panic header :
  VerifyBlock VerifySign (NewMtxDPOS simple) reader header <> Panic.
Proof using Hsafe.
  destruct header as [h|]; [|done]. cbn [VerifyBlock].
  assert (Hv : VerifyVersionSigns VerifySign (NewMtxDPOS simple) reader h <> Panic).
  { unfold VerifyVersionSigns. pose proof (rs_version _ Hsafe) as Hs.
    destruct (sr_GetVersionSuperAccounts _ _) as [[]| |] eqn:E; try done; [|by apply Hs in E].
    repeat case_match; done. }
  destruct (VerifyVersionSigns _ _ _ _); cbn [res_bind]; [|done..].
  case_match.
  { unfold CheckSuperBlock. pose proof (rs_block _ Hsafe) as Hs.
    destruct (sr_GetBlockSuperAccounts _ _) as [[]| |] eqn:E; try done; [|by apply Hs in E].
    repeat case_match; done. }
  pose proof (rs_interval _ Hsafe (hParentHash h)) as Hi.
  pose proof (rs_interval_pos _ Hsafe (hParentHash h)) as Hp.
  destruct (sr_GetBroadcastIntervalByHash _ _) as [bc| |]; cbn [res_wrap res_bind]; [|done..].
  unfold IsBroadcastNumber. rewrite go_umod_ok by (by apply Hp).
  case_match; cbn [res_bind].
  - pose proof (getValidatorStocks_no_panic (hParentHash h)).
    destruct (getValidatorStocks _ _) as [stocks| |]; cbn [res_bind]; [|done..].
    pose proof (VerifyHashWithStocks_no_panic (HashNoSignsAndNonce h) (hSignatures h) stocks (hParentHash h)).
    by destruct (VerifyHashWithStocks _ _ _ _ _ _ _).
  - case_match.
    + unfold verifyBroadcastBlock. pose proof (rs_broadcast _ Hsafe (hParentHash h)) as Hs.
      destruct (hSignatures h) as [|? []]; try done. destruct (VerifySign _ _) as [[]|]; [|done].
      repeat case_match; done.
    + pose proof (getValidatorStocks_no_panic (hParentHash h)).
      destruct (getValidatorStocks _ _) as [stocks| |]; cbn [res_bind]; [|done..].
      pose proof (VerifyHashWithStocks_no_panic (HashNoSignsAndNonce h) (hSignatures h) stocks (hParentHash h)).
      by destruct (VerifyHashWithStocks _ _ _ _ _ _ _).
Qed.
End NoPanic.
