(* ===== verification/Crypto.v ===== *)
(** * Agreeing and disagreeing signatures ([crypto/signature_cgo.go])

    A signature is 65 bytes, kept as the big-endian number of its bytes; the
    last byte is the recovery id, to which [2] is added when the signer
    disagrees.  A disagreeing signature signs the hash plus one.  The curve
    operations of libsecp256k1 are the class [Secp256k1]. *)

From S2P Require Import Prelude.

Class Secp256k1 := {
  (** [secp256k1.Sign] of a hash with a private key *)
  secp_Sign : Z -> Z -> option Z;
  (** [Ecrecover] followed by the address of the recovered public key *)
  secp_Recover : Z -> Z -> option Z;
  (** the address of a private key *)
  secp_address : Z -> Z;
  (** the recovery id of a fresh signature is 0 or 1 *)
  secp_Sign_id : forall h k s, secp_Sign h k = Some s -> 0 <= s /\ s mod 256 < 2;
  (** recovery returns the signer *)
  secp_Recover_Sign : forall h k s,
    secp_Sign h k = Some s -> secp_Recover h s = Some (secp_address k)
}.

(** [sig[64] += d] on the last byte. *)
Definition add_last_byte (sig d : Z) : Z := sig - sig mod 256 + u8 (sig mod 256 + d).

(** [common.BigToHash] of the hash plus one. *)
Definition next_hash (hash : Z) : Z := (hash + 1) mod 2 ^ 256.

(** [sig[64] < 2] *)
Definition signFlag (sig : Z) : bool := sig mod 256 <? 2.

Section Signatures.
Context `{Secp256k1}.

Definition SignWithValidate (hash : Z) (validate : bool) (prv : Z) : option Z :=
  let hash := if validate then hash else next_hash hash in
  match secp_Sign hash prv with
  | None => None
  | Some sig => Some (if validate then sig else add_last_byte sig 2)
  end.

Definition VerifySignWithValidate (sighash sig : Z) : option (Z * bool) :=
  let validate := signFlag sig in
  let sig' := if validate then sig else add_last_byte sig (-2) in
  let sighash' := if validate then sighash else next_hash sighash in
  match secp_Recover sighash' sig' with
  | None => None
  | Some addr => Some (addr, validate)
  end.
End Signatures.

Lemma SignWithValidate_verify `{Secp256k1} hash validate prv sig :
  SignWithValidate hash validate prv = Some sig ->
  VerifySignWithValidate hash sig = Some (secp_address prv, validate).
Proof.
  unfold SignWithValidate, VerifySignWithValidate, signFlag.
  destruct (secp_Sign _ prv) as [s|] eqn:Hs; [|done]. intros [= <-].
  destruct (secp_Sign_id _ _ _ Hs) as [Hnn Hid].
  pose proof (Z.mod_pos_bound s 256 ltac:(lia)).
  destruct validate.
  - destruct (Z.ltb_spec (s mod 256) 2); [|lia]. by rewrite (secp_Recover_Sign _ _ _ Hs).
  - assert (Hlow : forall d, 0 <= s mod 256 + d < 256 ->
              add_last_byte s d mod 256 = s mod 256 + d).
    { intros d Hd. unfold add_last_byte. rewrite u8_small by (unfold is_u8; lia).
      symmetry. apply (Z.mod_unique_pos _ _ (s / 256)); [lia|].
      pose proof (Z.div_mod s 256). lia. }
    rewrite Hlow by lia. destruct (Z.ltb_spec (s mod 256 + 2) 2); [lia|].
    replace (add_last_byte (add_last_byte s 2) (-2)) with s.
    + by rewrite (secp_Recover_Sign _ _ _ Hs).
    + unfold add_last_byte at 1. rewrite Hlow by lia. unfold add_last_byte.
      rewrite !u8_small by (unfold is_u8; lia). lia.
Qed.

(** Signing and verifying are inverse: a signature made with a key and a
    verdict verifies to the address of the key and the same verdict. *)
Theorem sign_verify_roundtrip `{Secp256k1} hash validate prv sig :
  SignWithValidate hash validate prv = Some sig ->
  VerifySignWithValidate hash sig = Some (secp_address prv, validate).
Proof. apply SignWithValidate_verify. Qed.

(** A toy curve for the witnesses: the signature of [h] with key [k] is
    [(h * 1000 + k) * 256], and the address of a key is the key. *)
#[local] Program Instance toy_curve : Secp256k1 := {|
  secp_Sign h k := if (0 <=? h) && (0 <=? k) && (k <? 1000)
                   then Some ((h * 1000 + k) * 256) else None;
  secp_Recover h s := if s / 256 / 1000 =? h then Some (s / 256 mod 1000) else None;
  secp_address k := k
|}.
Next Obligation.
  intros h k s. simpl.
  destruct (Z.leb_spec 0 h), (Z.leb_spec 0 k), (Z.ltb_spec k 1000); simpl; try done.
  intros [= <-]. rewrite Z.mod_mul by lia. lia.
Qed.
Next Obligation.
  intros h k s. simpl.
  destruct (Z.leb_spec 0 h), (Z.leb_spec 0 k), (Z.ltb_spec k 1000); simpl; try done.
  intros [= <-]. rewrite Z.div_mul, Z.div_add_l, (Z.div_small k), Z.add_0_r, Z.eqb_refl by lia.
  by rewrite Z.add_comm, Z.mod_add, Z.mod_small by lia.
Qed.

Lemma sign_verify_roundtrip_witness :
  VerifySignWithValidate 41 ((42 * 1000 + 7) * 256 + 2) = Some (7, false).
Proof.
  exact (sign_verify_roundtrip (H := toy_curve) 41 false 7 _ eq_refl).
Defined.
