(* ===== verification/TxSigning.v ===== *)
(** * Signed transactions
    ([core/types/transaction_signing.go], [core/types/transaction.go])

    What a wallet signs is a hash over the transaction with its addresses in
    printed form and the chain id; the signature carries the chain id in its [V]
    value, and the node recovers the sender from it and caches it in the
    transaction.  The file proves that the sender recovered is the signer, that a
    signature is refused on another chain, that the cache never changes the
    answer, and that the printed form of the addresses is read back. *)

From S2P Require Import Header Address Transactions Crypto Prelude.

(** ** Transactions with printed addresses *)

Record Tx_to1 := mkTxTo1 {
  to1Recipient : option (list Z);
  to1Amount : option Z;
  to1Payload : list Z
}.

Record Matrix_Extra1 := mkExtra1 {
  ex1TxType : Z;
  ex1LockHeight : Z;
  ex1ExtraTo : list Tx_to1
}.

Record txdata1 := mkTxdata1 {
  d1AccountNonce : Z;
  d1Price : option Z;
  d1GasLimit : Z;
  d1Recipient : option (list Z);
  d1Amount : option Z;
  d1Payload : list Z;
  d1V : option Z;
  d1R : option Z;
  d1S : option Z;
  d1Hash : option Z;
  d1TxEnterType : Z;
  d1IsEntrustTx : Z;
  d1CommitTime : Z;
  d1Extra : list Matrix_Extra1
}.

Definition TxdataAddresToString (currency : string) (d : txdata) : txdata1 :=
  let enc a := Base58EncodeToString (string_bytes currency) a in
  mkTxdata1 (AccountNonce d) (Price d) (GasLimit d) (enc <$> Recipient d) (Amount d) (Payload d)
    (tdV d) (tdR d) (tdS d) (tdHash d) (TxEnterType d) (tdIsEntrustTx d) (CommitTime d)
    ((fun er => mkExtra1 (exTxType er) (exLockHeight er)
        ((fun tto => mkTxTo1 (enc <$> toRecipient tto) (toAmount tto) (toPayload tto)) <$> exExtraTo er))
     <$> Extra d).

(** [addr, _ = base58.Base58DecodeToAddress(s)]: the error is dropped. *)
Definition decodeAddr (s : list Z) : eff Z :=
  match Base58DecodeToAddress s with
  | Ok a => Ok a
  | Err _ => Ok zero_addr
  | Panic => Panic
  end.

Definition decodeRecipient (r : option (list Z)) : eff (option Z) :=
  match r with
  | None => Ok None
  | Some s => let* a := decodeAddr s in Ok (Some a)
  end.

Fixpoint mapE {A B} (f : A -> eff B) (l : list A) : eff (list B) :=
  match l with
  | [] => Ok []
  | a :: l => let* b := f a in let* bs := mapE f l in Ok (b :: bs)
  end.

Definition TxdataStringToAddres (d : txdata1) : eff txdata :=
  let* to := decodeRecipient (d1Recipient d) in
  let* extra := mapE (fun er =>
      let* exto := mapE (fun tto =>
          let* r := decodeRecipient (to1Recipient tto) in
          Ok (mkTxTo r (to1Amount tto) (to1Payload tto))) (ex1ExtraTo er) in
      Ok (mkExtra (ex1TxType er) (ex1LockHeight er) exto)) (d1Extra d) in
  Ok (mkTxdata (d1AccountNonce d) (d1Price d) (d1GasLimit d) to (d1Amount d) (d1Payload d) (d1V d) (d1R d)
        (d1S d) (d1Hash d) (d1TxEnterType d) (d1IsEntrustTx d) (d1CommitTime d) extra).

(** ** Chain ids *)

(** [BitLen] and [Uint64] of a [big.Int] look at the absolute value. *)
Definition BitLen (x : Z) : Z := if x =? 0 then 0 else Z.log2 (Z.abs x) + 1.
Definition big_Uint64 (x : Z) : Z := u64 (Z.abs x).

Definition deriveChainId (v : Z) : Z :=
  if BitLen v <=? 64 then
    let v := big_Uint64 v in
    if (v =? 27) || (v =? 28) then 0 else u64 (v - 35) / 2
  else (v - 35) / 2.

Definition isProtectedV (V : Z) : bool :=
  if BitLen V <=? 8 then negb (big_Uint64 V =? 27) && negb (big_Uint64 V =? 28) else true.

Definition ChainId (tx : SelfTransaction) : eff Z :=
  let* v := big_of (tdV (selfData tx)) in Ok (deriveChainId v).

(** ** The signer *)

Record EIP155Signer := mkSigner {
  chainId : Z;
  chainIdMul : Z
}.

Definition NewEIP155Signer (chainId : option Z) : EIP155Signer :=
  let c := match chainId with Some c => c | None => 0 end in mkSigner c (c * 2).

Definition signer_Equal (s s2 : EIP155Signer) : bool := chainId s2 =? chainId s.

(** What is hashed for a signature ([GetMakeHashfield]). *)
Inductive HashFields :=
| FieldsNormal (nonce : Z) (price : option Z) (gas : Z) (to : option (list Z)) (amount : option Z)
    (payload : list Z) (chid enterType isEntrust commitTime : Z) (extra : list Matrix_Extra1)
| FieldsBroad (nonce : Z) (price : option Z) (gas : Z) (to amount : option Z) (payload : list Z)
    (extra : list Matrix_Extra) (chid : Z).

Definition GetMakeHashfield (tx : SelfTransaction) (chid : Z) : HashFields :=
  match tx with
  | TxNormal tx =>
      let d := TxdataAddresToString (Currency tx) (txData tx) in
      FieldsNormal (d1AccountNonce d) (d1Price d) (d1GasLimit d) (d1Recipient d) (d1Amount d) (d1Payload d)
        chid (d1TxEnterType d) (d1IsEntrustTx d) (d1CommitTime d) (d1Extra d)
  | TxBroad tx =>
      let d := bcData tx in
      FieldsBroad (AccountNonce d) (Price d) (GasLimit d) (Recipient d) (Amount d) (Payload d) (Extra d) chid
  end.

(** [rlpHash]: the Keccak hash of the RLP encoding. *)
Class FieldsHash := rlpHash : HashFields -> Z.

Inductive sign_error := ErrInvalidSig | ErrInvalidChainId | ErrRecover.

(** [crypto/crypto.go] *)
Definition secp256k1N : Z := 0xfffffffffffffffffffffffffffffffebaaedce6af48a03bbfd25e8cd0364141.
Definition secp256k1halfN : Z := secp256k1N / 2.

Definition ValidateSignatureValues (v r s : Z) (homestead : bool) : bool :=
  if (r <? 1) || (s <? 1) then false
  else if homestead && (s >? secp256k1halfN) then false
  else (r <? secp256k1N) && (s <? secp256k1N) && ((v =? 0) || (v =? 1)).

Definition with_sign (tx : SelfTransaction) (r s v : Z) : SelfTransaction :=
  let sign d := mkTxdata (AccountNonce d) (Price d) (GasLimit d) (Recipient d) (Amount d) (Payload d)
                  (Some v) (Some r) (Some s) (tdHash d) (TxEnterType d) (tdIsEntrustTx d) (CommitTime d)
                  (Extra d) in
  match tx with
  | TxNormal tx => TxNormal (newTx (Currency tx) (sign (txData tx)))
  | TxBroad tx => TxBroad (mkBroad (sign (bcData tx)) None)
  end.

(** [GetFromLoad] and [SetFromLoad] of a [sigCache] *)
Definition GetFromLoad (tx : SelfTransaction) : option fromCache :=
  match tx with TxNormal tx => txFrom tx | TxBroad tx => bcFrom tx end.

Definition SetFromLoad (tx : SelfTransaction) (x : fromCache) : SelfTransaction :=
  match tx with
  | TxNormal tx =>
      TxNormal (mkTransaction (txData tx) (Some x) (entrustfrom tx) (Currency tx) (txN tx)
                  (IsEntrustGas tx) (IsEntrustByTime tx) (IsEntrustByCount tx))
  | TxBroad tx => TxBroad (mkBroad (bcData tx) (Some x))
  end.

Section Signer.
Context `{FieldsHash} `{Secp256k1}.

Definition signer_Hash (s : EIP155Signer) (tx : SelfTransaction) : Z :=
  rlpHash (GetMakeHashfield tx (chainId s)).

(** The 65 bytes of a signature: [R], [S] and the recovery id. *)
Definition SignatureValues (s : EIP155Signer) (sig : Z) : Z * Z * Z :=
  let R := sig / 2 ^ 264 in
  let S := sig / 2 ^ 8 mod 2 ^ 256 in
  let id := sig mod 2 ^ 8 in
  let V := if chainId s =? 0 then u8 (id + 27) else u8 (id + 35) + chainIdMul s in
  (R, S, V).

Definition SignTx (tx : SelfTransaction) (s : EIP155Signer) (prv : Z) : option SelfTransaction :=
  match secp_Sign (signer_Hash s tx) prv with
  | None => None
  | Some sig => let '(r, s, v) := SignatureValues s sig in Some (with_sign tx r s v)
  end.

(** Nil [R] and [S] values panic. *)
Definition recoverPlain (sighash : Z) (R S : option Z) (Vb : Z) (homestead : bool) : res sign_error Z :=
  if BitLen Vb >? 8 then Err ErrInvalidSig
  else
    let V := u8 (u64 (big_Uint64 Vb - 27)) in
    match R, S with
    | None, _ => Panic
    | Some r, None => if r <? 1 then Err ErrInvalidSig else Panic
    | Some r, Some s =>
        if negb (ValidateSignatureValues V r s homestead) then Err ErrInvalidSig
        else match secp_Recover sighash ((r * 2 ^ 256 + s) * 2 ^ 8 + V) with
             | None => Err ErrRecover
             | Some addr => Ok addr
             end
    end.

Definition signer_Sender (s : EIP155Signer) (tx : SelfTransaction) : res sign_error Z :=
  match tdV (selfData tx) with
  | None => Panic
  | Some V =>
      if negb (deriveChainId V =? chainId s) then Err ErrInvalidChainId
      else recoverPlain (signer_Hash s tx) (tdR (selfData tx)) (tdS (selfData tx)) (V - chainIdMul s - 8) true
  end.

(** The sender and the transaction with its cache. *)
Definition Sender (s : EIP155Signer) (tx : SelfTransaction) : res sign_error (Z * SelfTransaction) :=
  let derive :=
    let* addr := signer_Sender s tx in Ok (addr, SetFromLoad tx (FromSig (chainId s) addr)) in
  match GetFromLoad tx with
  | Some (FromSig c from) => if signer_Equal (NewEIP155Signer (Some c)) s then Ok (from, tx) else derive
  | _ => derive
  end.

(** [Sender_self] takes a cached bare address for a [sigCache] and panics. *)
Definition Sender_self (s : EIP155Signer) (tx : SelfTransaction) : res sign_error (Z * SelfTransaction) :=
  match GetFromLoad tx with
  | Some (FromAddr _) => Panic
  | _ => Sender s tx
  end.

(** The rewards of a block have no signature. *)
Definition isRewardType (t : Z) : bool :=
  (t =? ExtraUnGasMinerTxType) || (t =? ExtraUnGasValidatorTxType) || (t =? ExtraUnGasInterestTxType) ||
  (t =? ExtraUnGasTxsType) || (t =? ExtraUnGasLotteryTxType).

(** [Sender_sub]: a worker of [BatchSender_self]. *)
Definition Sender_sub (s : EIP155Signer) (tx : SelfTransaction) : eff SelfTransaction :=
  match Sender_self s tx with
  | Ok (_, tx) => Ok tx
  | Err _ => Ok tx
  | Panic => Panic
  end.

(** [BatchSender]: one goroutine per transaction; what cannot be recovered stays
    as it is. *)
Definition batchOne (tx : SelfTransaction) : eff SelfTransaction :=
  if isRewardType (GetMatrixType tx) then Ok tx
  else
    let* c := ChainId tx in
    Sender_sub (NewEIP155Signer (Some c)) tx.

Definition BatchSender (txs : list SelfTransaction) : eff (list SelfTransaction) := mapE batchOne txs.

(** The workers share the transactions the filter keeps; without a signer, that
    of the first transaction's chain is used for all. *)
Definition BatchSender_self (txs : list SelfTransaction) (signer : option EIP155Signer)
    (fiter : SelfTransaction -> bool) : eff (list SelfTransaction) :=
  match txs with
  | [] => Ok []
  | tx :: _ =>
      let* signer := match signer with
                     | Some s => Ok s
                     | None => let* c := ChainId tx in Ok (NewEIP155Signer (Some c))
                     end in
      mapE (fun tx => if fiter tx then Sender_sub signer tx else Ok tx) txs
  end.
End Signer.

(** ** Transactions from a wallet *)

(** The signature checks of [UnmarshalJSON]; all numbers are required. *)
Definition checkJSON (V R S : Z) : bool :=
  let v := if isProtectedV V
           then u8 (u64 (big_Uint64 V - 35 - 2 * big_Uint64 (deriveChainId V)))
           else u8 (u64 (big_Uint64 V - 27)) in
  ValidateSignatureValues v R S false.

Definition UnmarshalJSON (dec : txdata) : res sign_error Transaction :=
  match tdV dec, tdR dec, tdS dec with
  | Some v, Some r, Some s => if checkJSON v r s then Ok (newTx "" dec) else Err ErrInvalidSig
  | _, _, _ => Panic
  end.

Definition ManTx_UnmarshalJSON (currency : string) (dec : txdata1) : res sign_error Transaction :=
  match d1V dec, d1R dec, d1S dec with
  | Some v, Some r, Some s =>
      if checkJSON v r s then
        match TxdataStringToAddres dec with
        | Ok d => Ok (newTx currency d)
        | Err e => match e with end
        | Panic => Panic
        end
      else Err ErrInvalidSig
  | _, _, _ => Panic
  end.

(** ** The RLP form of a transaction: the sender of a reward travels with it. *)

Record extTransaction := mkExt {
  etData : txdata;
  etCurrency : string;
  etFrom : Z
}.

Definition EncodeRLP (tx : Transaction) : extTransaction :=
  mkExt (txData tx) (Currency tx) (if isRewardType (tx_GetMatrixType tx) then From tx else zero_addr).

Definition DecodeRLP (ext : extTransaction) : eff Transaction :=
  let tx := newTx (etCurrency ext) (etData ext) in
  if isRewardType (tx_GetMatrixType tx) then
    let* c := ChainId (TxNormal tx) in
    match SetFromLoad (TxNormal tx) (FromSig c (etFrom ext)) with
    | TxNormal tx => Ok tx
    | TxBroad _ => Panic
    end
  else Ok tx.

(** ** Chain ids in signatures *)

Lemma BitLen_pos x n : 0 < x -> 0 <= n -> (BitLen x <=? n) = (x <? 2 ^ n).
Proof.
  intros Hx Hn. unfold BitLen. destruct (Z.eqb_spec x 0); [lia|]. rewrite Z.abs_eq by lia.
  pose proof (Z.log2_lt_pow2 x n Hx) as Hl.
  destruct (Z.leb_spec (Z.log2 x + 1) n), (Z.ltb_spec x (2 ^ n)); lia.
Qed.

Lemma deriveChainId_signed c b :
  0 < c -> 0 <= b < 2 -> deriveChainId (b + 35 + c * 2) = c.
Proof.
  intros Hc Hb. unfold deriveChainId. rewrite BitLen_pos by lia.
  assert (Hdiv : (b + 35 + c * 2 - 35) / 2 = c).
  { replace (b + 35 + c * 2 - 35) with (b + c * 2) by lia. rewrite Z.div_add, Z.div_small by lia. lia. }
  destruct (Z.ltb_spec (b + 35 + c * 2) (2 ^ 64)); [|done]. unfold big_Uint64.
  rewrite Z.abs_eq, u64_small by (unfold is_u64; lia).
  destruct (Z.eqb_spec (b + 35 + c * 2) 27); [lia|]. destruct (Z.eqb_spec (b + 35 + c * 2) 28); [lia|].
  cbn [orb]. by rewrite u64_small by (unfold is_u64; lia).
Qed.

(** [libsecp256k1] produces signatures with [R] and [S] in range and the lower
    [S]. *)
Definition low_signatures `{Secp256k1} : Prop :=
  forall h k s, secp_Sign h k = Some s ->
    1 <= s / 2 ^ 264 < secp256k1N /\ 1 <= s / 2 ^ 8 mod 2 ^ 256 <= secp256k1halfN.

Lemma ValidateSignatureValues_ok v r s homestead :
  1 <= r < secp256k1N -> 1 <= s <= secp256k1halfN -> 0 <= v < 2 ->
  ValidateSignatureValues v r s homestead = true.
Proof.
  intros Hr Hs Hv. unfold ValidateSignatureValues.
  assert (secp256k1halfN < secp256k1N) by (vm_compute; done).
  destruct (Z.ltb_spec r 1); [lia|]. destruct (Z.ltb_spec s 1); [lia|]. cbn [orb].
  rewrite Z.gtb_ltb. destruct (Z.ltb_spec secp256k1halfN s); [lia|]. rewrite andb_false_r.
  destruct (Z.ltb_spec r secp256k1N); [|lia]. destruct (Z.ltb_spec s secp256k1N); [|lia]. cbn [andb].
  destruct (Z.eqb_spec v 0); [done|]. cbn. apply Z.eqb_eq. lia.
Qed.

Lemma sig_bytes sig : 0 <= sig ->
  (sig / 2 ^ 264 * 2 ^ 256 + sig / 2 ^ 8 mod 2 ^ 256) * 2 ^ 8 + sig mod 2 ^ 8 = sig.
Proof.
  intros Hs. replace (2 ^ 264) with (2 ^ 8 * 2 ^ 256) by reflexivity. rewrite <- Z.div_div by lia.
  pose proof (Z.div_mod (sig / 2 ^ 8) (2 ^ 256) ltac:(lia)).
  pose proof (Z.div_mod sig (2 ^ 8) ltac:(lia)). lia.
Qed.

Section Signed.
Context `{FieldsHash} `{Secp256k1} (Hlow : low_signatures).

(** What a signature on a chain puts into the transaction. *)
Lemma SignTx_values tx c prv tx' :
  SignTx tx (NewEIP155Signer (Some c)) prv = Some tx' ->
  exists sig id, secp_Sign (signer_Hash (NewEIP155Signer (Some c)) tx) prv = Some sig /\
    id = sig mod 2 ^ 8 /\ 0 <= id < 2 /\ 0 <= sig /\
    tdR (selfData tx') = Some (sig / 2 ^ 264) /\ tdS (selfData tx') = Some (sig / 2 ^ 8 mod 2 ^ 256) /\
    tdV (selfData tx') = Some (if c =? 0 then id + 27 else id + 35 + c * 2) /\
    GetFromLoad tx' = None /\
    (forall s, signer_Hash s tx' = signer_Hash s tx).
Proof using.
  unfold SignTx. destruct (secp_Sign _ prv) as [sig|] eqn:Es; [|done].
  destruct (secp_Sign_id _ _ _ Es) as [Hnn Hid]. change 256 with (2 ^ 8) in Hid.
  pose proof (Z.mod_pos_bound sig (2 ^ 8) ltac:(lia)) as Hb.
  cbn [SignatureValues NewEIP155Signer chainId chainIdMul]. intros [= <-].
  exists sig, (sig mod 2 ^ 8). split; [done|]. split; [done|]. split; [lia|]. split; [done|].
  rewrite !u8_small by (unfold is_u8; lia). by destruct tx.
Qed.

Lemma Sender_signed tx c prv tx' :
  0 < c -> SignTx tx (NewEIP155Signer (Some c)) prv = Some tx' ->
  signer_Sender (NewEIP155Signer (Some c)) tx' = Ok (secp_address prv).
Proof using Hlow.
  intros Hc Hs. destruct (SignTx_values _ _ _ _ Hs) as (sig & id & Hsig & Eid & Hid & Hnn & HR & HS & HV & _ & Hh).
  destruct (Hlow _ _ _ Hsig) as [Hr Hss]. destruct (Z.eqb_spec c 0); [lia|].
  unfold signer_Sender. rewrite HV, HR, HS, Hh, deriveChainId_signed by done.
  cbn [NewEIP155Signer chainId chainIdMul]. rewrite Z.eqb_refl. cbn [negb].
  replace (id + 35 + c * 2 - c * 2 - 8) with (id + 27) by lia. unfold recoverPlain.
  rewrite Z.gtb_ltb, Z.ltb_antisym, BitLen_pos by lia.
  destruct (Z.ltb_spec (id + 27) (2 ^ 8)); [|lia]. cbn [negb].
  unfold big_Uint64. rewrite Z.abs_eq, (u64_small (id + 27)), u64_small, u8_small by (unfold is_u64, is_u8; lia).
  replace (id + 27 - 27) with id by lia. rewrite ValidateSignatureValues_ok by done. cbn [negb].
  rewrite Eid, sig_bytes by done. cbn [NewEIP155Signer] in Hsig.
  by rewrite (secp_Recover_Sign _ _ _ Hsig).
Qed.
End Signed.

(** C35: the sender of a signed transaction is its signer: on a chain with a
    positive id, recovering the sender of a transaction signed with a key gives
    the address of the key and caches it, and on any other chain the signature is
    refused. *)
Theorem signed_sender `{FieldsHash} `{Secp256k1} tx c prv tx' :
  low_signatures -> 0 < c -> SignTx tx (NewEIP155Signer (Some c)) prv = Some tx' ->
  Sender (NewEIP155Signer (Some c)) tx' =
    Ok (secp_address prv, SetFromLoad tx' (FromSig c (secp_address prv))) /\
  (forall c', c' <> c -> Sender (NewEIP155Signer (Some c')) tx' = Err ErrInvalidChainId).
Proof.
  intros Hlow Hc Hs. pose proof (Sender_signed Hlow _ _ _ _ Hc Hs) as Hsend.
  destruct (SignTx_values _ _ _ _ Hs) as (sig & id & _ & _ & Hid & _ & _ & _ & HV & Hf & _).
  destruct (Z.eqb_spec c 0); [lia|]. unfold Sender. rewrite Hf. split; [by rewrite Hsend|].
  intros c' Hne. unfold signer_Sender. rewrite HV, deriveChainId_signed by done.
  cbn [NewEIP155Signer chainId]. by destruct (Z.eqb_spec c c').
Qed.

(** Signatures without a chain id are never accepted: a transaction signed
    on chain [0] carries [27] or [28], which the signer of that chain refuses as
    an invalid signature. *)
Theorem unprotected_refused `{FieldsHash} `{Secp256k1} tx prv tx' :
  SignTx tx (NewEIP155Signer None) prv = Some tx' ->
  Sender (NewEIP155Signer None) tx' = Err ErrInvalidSig.
Proof.
  intros Hs. change (NewEIP155Signer None) with (NewEIP155Signer (Some 0)) in *.
  destruct (SignTx_values _ _ _ _ Hs) as (sig & id & _ & _ & Hid & _ & HR & HS & HV & Hf & _).
  unfold Sender, signer_Sender. rewrite Hf, HV, HR, HS. cbn [Z.eqb].
  assert (Hbad : forall v r s, 1 < v -> ValidateSignatureValues v r s true = false).
  { intros v r s Hv. unfold ValidateSignatureValues. repeat case_match; try done.
    destruct (Z.eqb_spec v 0), (Z.eqb_spec v 1); [lia..|]. apply andb_false_r. }
  assert (id = 0 \/ id = 1) as [-> | ->] by lia.
  - change (recoverPlain ?h ?r ?s _ true) with (recoverPlain h r s 19 true). unfold recoverPlain.
    change (u8 (u64 (big_Uint64 19 - 27))) with 248. cbn. by rewrite Hbad.
  - change (recoverPlain ?h ?r ?s _ true) with (recoverPlain h r s 20 true). unfold recoverPlain.
    change (u8 (u64 (big_Uint64 20 - 27))) with 249. cbn. by rewrite Hbad.
Qed.

(** ** The cache *)

Definition cache_ok `{FieldsHash} `{Secp256k1} (tx : SelfTransaction) : Prop :=
  forall f, GetFromLoad tx = Some f ->
    exists c a, f = FromSig c a /\ signer_Sender (NewEIP155Signer (Some c)) tx = Ok a.

Lemma signer_Sender_cache `{FieldsHash} `{Secp256k1} s tx x :
  signer_Sender s (SetFromLoad tx x) = signer_Sender s tx.
Proof. by destruct tx. Qed.

Lemma Sender_cases `{FieldsHash} `{Secp256k1} c tx :
  cache_ok tx ->
  Sender (NewEIP155Signer (Some c)) tx =
    (let* addr := signer_Sender (NewEIP155Signer (Some c)) tx in
     Ok (addr, SetFromLoad tx (FromSig c addr))).
Proof.
  intros Hc. unfold Sender. destruct (GetFromLoad tx) as [f|] eqn:Ef; [|done].
  destruct (Hc f Ef) as (c' & a & -> & Ha). unfold signer_Equal. cbn [NewEIP155Signer chainId].
  destruct (Z.eqb_spec c c') as [->|]; [|done]. cbn [NewEIP155Signer] in Ha. rewrite Ha. cbn [res_bind].
  do 2 f_equal. by destruct tx as [[]|[]]; cbn in *; simplify_eq.
Qed.

(** Caching the sender changes nothing: as long as what is cached was
    recovered from the transaction, [Sender] answers what the signature says for
    the asked chain, leaves the data of the transaction alone and a cache that
    was recovered from it. *)
Theorem sender_cache_sound `{FieldsHash} `{Secp256k1} c tx :
  cache_ok tx ->
  res_map fst (Sender (NewEIP155Signer (Some c)) tx) = signer_Sender (NewEIP155Signer (Some c)) tx /\
  forall a tx', Sender (NewEIP155Signer (Some c)) tx = Ok (a, tx') ->
    cache_ok tx' /\ selfData tx' = selfData tx /\ GetTxFrom tx' = Ok a.
Proof.
  intros Hc. rewrite Sender_cases by done. destruct (signer_Sender _ tx) as [a| |] eqn:Es; [|done..].
  split; [done|]. cbn [res_bind]. intros a' tx' [= <- <-]. split; [|by destruct tx].
  intros f Hf. exists c, a. rewrite signer_Sender_cache. split; [|done].
  destruct tx; cbn in Hf; congruence.
Qed.

(** The numbers of the signature are there. *)
Definition has_signature (tx : SelfTransaction) : Prop :=
  is_Some (tdV (selfData tx)) /\ is_Some (tdR (selfData tx)) /\ is_Some (tdS (selfData tx)).

Lemma signer_Sender_no_panic `{FieldsHash} `{Secp256k1} s tx :
  has_signature tx -> signer_Sender s tx <> Panic.
Proof.
  intros ([V HV] & [R HR] & [S' HS]). unfold signer_Sender, recoverPlain. rewrite HV, HR, HS.
  by repeat case_match.
Qed.

(** What recovering the sender on a chain does to a transaction. *)
Definition recovered `{FieldsHash} `{Secp256k1} (c : Z) (tx tx' : SelfTransaction) : Prop :=
  selfData tx' = selfData tx /\ cache_ok tx' /\
  forall a, signer_Sender (NewEIP155Signer (Some c)) tx = Ok a -> GetTxFrom tx' = Ok a.

Lemma Sender_sub_ok `{FieldsHash} `{Secp256k1} c tx :
  cache_ok tx -> has_signature tx ->
  exists tx', Sender_sub (NewEIP155Signer (Some c)) tx = Ok tx' /\ recovered c tx tx'.
Proof.
  intros Hc Hs. unfold Sender_sub, recovered.
  assert (Sender_self (NewEIP155Signer (Some c)) tx = Sender (NewEIP155Signer (Some c)) tx) as ->.
  { unfold Sender_self. destruct (GetFromLoad tx) as [f|] eqn:Ef; [|done].
    by destruct (Hc f Ef) as (c' & a & -> & _). }
  rewrite Sender_cases by done.
  pose proof (signer_Sender_no_panic (NewEIP155Signer (Some c)) tx Hs) as Hnp.
  destruct (signer_Sender _ tx) as [a|e|] eqn:Es; [| |done]; cbn [res_bind].
  - eexists. split; [done|]. split; [by destruct tx|]. split.
    + intros f Hf. exists c, a. rewrite signer_Sender_cache. split; [|done].
      destruct tx; cbn in Hf; congruence.
    + intros a' [= <-]. by destruct tx.
  - by exists tx.
Qed.

Lemma mapE_Forall2 {A} (f : A -> eff A) (R : A -> A -> Prop) l :
  Forall (fun a => exists b, f a = Ok b /\ R a b) l -> exists l', mapE f l = Ok l' /\ Forall2 R l l'.
Proof.
  induction 1 as [|a l (b & Hb & HR) _ (l' & Hl & HRs)]; cbn; [by exists []|].
  rewrite Hb, Hl. cbn. exists (b :: l'). split; [done|]. by constructor.
Qed.

(** Recovering the senders of a block or of a batch goes through: if the
    numbers of the signatures are there and the caches are sound, no transaction
    makes it panic, none changes its data, and afterwards every transaction with
    a valid signature knows its sender: rewards aside in a block, and on the
    chain of the given signer for those the filter of a batch keeps. *)
Theorem batch_recovers `{FieldsHash} `{Secp256k1} txs c fiter :
  Forall cache_ok txs -> Forall has_signature txs ->
  (exists txs', BatchSender txs = Ok txs' /\
     Forall2 (fun tx tx' => if isRewardType (GetMatrixType tx) then tx' = tx else
                forall V, tdV (selfData tx) = Some V -> recovered (deriveChainId V) tx tx') txs txs') /\
  (exists txs', BatchSender_self txs (Some (NewEIP155Signer (Some c))) fiter = Ok txs' /\
     Forall2 (fun tx tx' => if fiter tx then recovered c tx tx' else tx' = tx) txs txs').
Proof.
  intros Hc Hs. split.
  - apply mapE_Forall2, Forall_forall. intros tx Hin. rewrite Forall_forall in Hc, Hs.
    specialize (Hc tx Hin). specialize (Hs tx Hin).
    unfold batchOne. destruct (isRewardType _); [by exists tx|].
    pose proof Hs as ([V HV] & _). unfold ChainId. rewrite HV. cbn [big_of res_bind].
    destruct (Sender_sub_ok (deriveChainId V) tx Hc Hs) as (tx' & Ht & Hr).
    exists tx'. split; [done|]. by intros V' [= <-].
  - destruct txs as [|tx0 txs]; [by exists []|]. cbn [BatchSender_self res_bind].
    apply mapE_Forall2, Forall_forall. intros tx Hin. rewrite Forall_forall in Hc, Hs.
    destruct (fiter tx); [|by exists tx]. apply Sender_sub_ok; auto.
Qed.

(** ** Printed addresses *)

Definition addr_ok (r : option Z) : Prop := forall a, r = Some a -> 0 <= a < 2 ^ 160.

Lemma decodeRecipient_enc currency r :
  IsValidityManCurrency (string_bytes currency) = true -> addr_ok r ->
  decodeRecipient (Base58EncodeToString (string_bytes currency) <$> r) = Ok r.
Proof.
  intros Hc Hr. destruct r as [a|]; [|done]. cbn. unfold decodeAddr.
  by rewrite Base58_roundtrip by (done || apply Hr; done).
Qed.

Lemma mapE_fmap {A B} (f : B -> eff A) (g : A -> B) l :
  Forall (fun a => f (g a) = Ok a) l -> mapE f (g <$> l) = Ok l.
Proof. induction 1 as [|a l Ha _ IH]; cbn; [done|]. by rewrite Ha, IH. Qed.

(** The addresses of a transaction survive their printed form: decoding
    what was printed for a valid currency gives the transaction data back,
    payees included. *)
Theorem printed_roundtrip currency d :
  IsValidityManCurrency (string_bytes currency) = true ->
  addr_ok (Recipient d) ->
  Forall (fun er => Forall (fun to => addr_ok (toRecipient to)) (exExtraTo er)) (Extra d) ->
  TxdataStringToAddres (TxdataAddresToString currency d) = Ok d.
Proof.
  intros Hc Hto Hex. unfold TxdataStringToAddres. cbn [TxdataAddresToString d1Recipient d1Extra].
  rewrite decodeRecipient_enc by done. cbn [res_bind]. rewrite mapE_fmap; [by destruct d|].
  eapply Forall_impl; [exact Hex|]. intros er Her. cbn [ex1ExtraTo]. rewrite mapE_fmap; [by destruct er|].
  eapply Forall_impl; [exact Her|]. intros to Hr. cbn [to1Recipient].
  rewrite decodeRecipient_enc by done. by destruct to.
Qed.

(** A mistyped recipient is not refused: if the printed recipient of a
    transaction does not decode, the transaction is accepted with the zero
    address as its recipient. *)
Theorem mistyped_recipient_zero currency d s e V R S :
  d1Recipient d = Some s -> Base58DecodeToAddress s = Err e -> d1Extra d = [] ->
  d1V d = Some V -> d1R d = Some R -> d1S d = Some S -> checkJSON V R S = true ->
  exists tx, ManTx_UnmarshalJSON currency d = Ok tx /\ Recipient (txData tx) = Some zero_addr.
Proof.
  intros Hr He Hx HV HR HS Hj. unfold ManTx_UnmarshalJSON. rewrite HV, HR, HS, Hj.
  unfold TxdataStringToAddres. rewrite Hr, Hx. cbn. unfold decodeAddr. rewrite He. cbn. by eexists.
Qed.

(** ** Transactions as JSON *)

Lemma checkJSON_signed c id R S :
  0 < c -> 0 <= id < 2 -> 1 <= R < secp256k1N -> 1 <= S <= secp256k1halfN ->
  checkJSON (id + 35 + c * 2) R S = true.
Proof.
  intros Hc Hid HR HS. unfold checkJSON.
  assert (isProtectedV (id + 35 + c * 2) = true) as ->.
  { unfold isProtectedV, big_Uint64. rewrite BitLen_pos, Z.abs_eq by lia.
    destruct (Z.ltb_spec (id + 35 + c * 2) (2 ^ 8)); [|done]. rewrite u64_small by (unfold is_u64; lia).
    destruct (Z.eqb_spec (id + 35 + c * 2) 27), (Z.eqb_spec (id + 35 + c * 2) 28); lia || done. }
  rewrite deriveChainId_signed by done. unfold big_Uint64. rewrite !Z.abs_eq by lia.
  assert (u64 (u64 (id + 35 + c * 2) - 35 - 2 * u64 c) = id) as ->.
  { unfold u64. symmetry.
    apply (Z.mod_unique_pos _ _ (2 * (c / 2 ^ 64) - (id + 35 + c * 2) / 2 ^ 64)); [lia|].
    pose proof (Z.div_mod (id + 35 + c * 2) (2 ^ 64) ltac:(lia)).
    pose proof (Z.div_mod c (2 ^ 64) ltac:(lia)). lia. }
  rewrite u8_small by (unfold is_u8; lia). by apply ValidateSignatureValues_ok.
Qed.

Lemma length_printed currency a :
  length (Base58EncodeToString currency a) = (length currency + length (Encode (address_bytes a)) + 2)%nat.
Proof.
  unfold Base58EncodeToString.
  destruct (EncodeInt_crc (CalCRC8 (currency ++ dot :: Encode (address_bytes a)))) as [-> _].
  rewrite !length_app. cbn. lia.
Qed.

Lemma length_string_bytes s : length (string_bytes s) = String.length s.
Proof. induction s as [|c s IH]; cbn; [done|]. by rewrite <- IH. Qed.

(** A signed transaction is accepted as JSON but loses its currency: the
    signature checks pass on every chain with a positive id, the result has the
    data of the transaction and the chain's own coin as its currency, and if
    the transaction names a currency and a recipient, what its signature was
    made for is no longer what is hashed. *)
Theorem json_drops_currency `{FieldsHash} `{Secp256k1} tx c prv tx' :
  low_signatures -> 0 < c -> SignTx (TxNormal tx) (NewEIP155Signer (Some c)) prv = Some (TxNormal tx') ->
  exists tx2, UnmarshalJSON (txData tx') = Ok tx2 /\ txData tx2 = txData tx' /\
    GetTxCurrency (TxNormal tx2) = MAN_COIN /\
    (Currency tx' <> "" -> is_Some (Recipient (txData tx')) ->
     forall chid, GetMakeHashfield (TxNormal tx2) chid <> GetMakeHashfield (TxNormal tx') chid).
Proof.
  intros Hlow Hc Hs. exists (newTx "" (txData tx')).
  destruct (SignTx_values _ _ _ _ Hs) as (sig & id & Hsig & _ & Hid & _ & HR & HS & HV & _ & _).
  destruct (Hlow _ _ _ Hsig) as [Hr Hss]. destruct (Z.eqb_spec c 0); [lia|].
  cbn [selfData] in *. unfold UnmarshalJSON. rewrite HV, HR, HS, checkJSON_signed by done.
  split; [done|]. split; [done|]. split; [done|]. intros Hcur [a Ha] chid E.
  unfold GetMakeHashfield in E. cbn [newTx txData Currency TxdataAddresToString] in E.
  injection E as E _. rewrite Ha in E. apply (inj Some), (f_equal length) in E.
  rewrite !length_printed, !length_string_bytes in E.
  destruct (Currency tx'); [done|]. cbn [String.length length] in E. lia.
Qed.

(** ** Transactions on the wire *)

(** The wire keeps what the chain needs of a transaction: decoding its RLP
    form returns its data and currency, and for the rewards of a block, which
    have no signature, the sender as well. *)
Theorem rlp_roundtrip tx V :
  tdV (txData tx) = Some V ->
  exists tx2, DecodeRLP (EncodeRLP tx) = Ok tx2 /\
    txData tx2 = txData tx /\ Currency tx2 = Currency tx /\
    (isRewardType (tx_GetMatrixType tx) = true -> From tx2 = From tx).
Proof.
  intros HV. unfold DecodeRLP, EncodeRLP. cbn [etData etCurrency etFrom].
  change (tx_GetMatrixType (newTx (Currency tx) (txData tx))) with (tx_GetMatrixType tx).
  destruct (isRewardType (tx_GetMatrixType tx)); [|by eexists].
  unfold ChainId. cbn. rewrite HV. cbn. by eexists.
Qed.

(** ** Examples *)

(** A curve whose signatures have [R] the hash and the key, and [S = 1]. *)
#[local] Program Instance toy_low_curve : Secp256k1 := {|
  secp_Sign h k := if (0 <=? h) && (h <? 2 ^ 200) && (0 <=? k) && (k <? 1000)
                   then Some (((h * 1000 + k + 1) * 2 ^ 256 + 1) * 2 ^ 8) else None;
  secp_Recover h s := let r := s / 2 ^ 264 - 1 in
                      if r / 1000 =? h then Some (r mod 1000) else None;
  secp_address k := k
|}.
Next Obligation.
  intros h k s. cbv zeta beta.
  destruct (Z.leb_spec 0 h), (Z.ltb_spec h (2 ^ 200)), (Z.leb_spec 0 k), (Z.ltb_spec k 1000);
    cbn [andb]; try done.
  intros [= <-]. change 256 with (2 ^ 8) at 2. rewrite Z.mod_mul by lia. lia.
Qed.
Next Obligation.
  intros h k s. cbv zeta beta.
  destruct (Z.leb_spec 0 h), (Z.ltb_spec h (2 ^ 200)), (Z.leb_spec 0 k), (Z.ltb_spec k 1000);
    cbn [andb]; try done.
  intros [= <-].
  assert (((h * 1000 + k + 1) * 2 ^ 256 + 1) * 2 ^ 8 / 2 ^ 264 = h * 1000 + k + 1) as ->.
  { symmetry. apply (Z.div_unique_pos _ _ _ (2 ^ 8)); lia. }
  replace (h * 1000 + k + 1 - 1) with (k + h * 1000) by lia.
  rewrite Z.div_add, Z.mod_add, Z.div_small, Z.mod_small, Z.add_0_l, Z.eqb_refl by lia. done.
Qed.

Lemma toy_low : low_signatures.
Proof.
  intros h k s. cbn [secp_Sign toy_low_curve].
  destruct (Z.leb_spec 0 h), (Z.ltb_spec h (2 ^ 200)), (Z.leb_spec 0 k), (Z.ltb_spec k 1000);
    cbn [andb]; try done.
  intros [= <-].
  assert (((h * 1000 + k + 1) * 2 ^ 256 + 1) * 2 ^ 8 / 2 ^ 264 = h * 1000 + k + 1) as ->.
  { symmetry. apply (Z.div_unique_pos _ _ _ (2 ^ 8)); lia. }
  rewrite Z.div_mul by lia.
  assert (((h * 1000 + k + 1) * 2 ^ 256 + 1) mod 2 ^ 256 = 1) as ->.
  { by rewrite Z.add_comm, Z.mod_add by lia. }
  assert (2 ^ 211 < secp256k1N /\ 1 < secp256k1halfN) by (vm_compute; done). lia.
Qed.

(** The hash of the fields is the nonce. *)
#[local] Instance toy_fields : FieldsHash :=
  fun f => match f with FieldsNormal n _ _ _ _ _ _ _ _ _ _ => n | FieldsBroad n _ _ _ _ _ _ _ => n end.

Definition toy_signed (c : option Z) : Transaction :=
  match SignTx (TxNormal (sample_tx 0)) (NewEIP155Signer c) 7 with
  | Some (TxNormal tx) => tx
  | _ => sample_tx 0
  end.

Lemma signed_sender_witness :
  Sender (NewEIP155Signer (Some 3)) (TxNormal (toy_signed (Some 3))) =
    Ok (7, SetFromLoad (TxNormal (toy_signed (Some 3))) (FromSig 3 7)) /\
  (forall c', c' <> 3 -> Sender (NewEIP155Signer (Some c')) (TxNormal (toy_signed (Some 3))) =
     Err ErrInvalidChainId).
Proof. exact (signed_sender (TxNormal (sample_tx 0)) 3 7 _ toy_low ltac:(lia) eq_refl). Defined.

Lemma unprotected_refused_witness :
  Sender (NewEIP155Signer None) (TxNormal (toy_signed None)) = Err ErrInvalidSig.
Proof. exact (unprotected_refused (TxNormal (sample_tx 0)) 7 (TxNormal (toy_signed None)) eq_refl). Defined.

Lemma sender_cache_sound_witness :
  res_map fst (Sender (NewEIP155Signer (Some 3)) (TxNormal (toy_signed (Some 3)))) =
    signer_Sender (NewEIP155Signer (Some 3)) (TxNormal (toy_signed (Some 3))) /\
  forall a tx', Sender (NewEIP155Signer (Some 3)) (TxNormal (toy_signed (Some 3))) = Ok (a, tx') ->
    cache_ok tx' /\ selfData tx' = txData (toy_signed (Some 3)) /\ GetTxFrom tx' = Ok a.
Proof. exact (sender_cache_sound 3 (TxNormal (toy_signed (Some 3))) ltac:(done)). Defined.

Lemma printed_roundtrip_witness :
  TxdataStringToAddres (TxdataAddresToString "MAN" (txData (sample_tx 0))) = Ok (txData (sample_tx 0)).
Proof.
  refine (printed_roundtrip "MAN" (txData (sample_tx 0)) eq_refl _ _).
  - by intros a [= <-].
  - by repeat constructor.
Defined.

Definition mistyped : txdata1 :=
  mkTxdata1 1 (Some 1) 1 (Some (string_bytes "MAN.2nRsUetjWAaYUizRkgBxGETimfUTy")) (Some 1) []
    (Some 41) (Some 1) (Some 1) None 0 0 0 [].

Lemma mistyped_recipient_zero_witness :
  exists tx, ManTx_UnmarshalJSON "MAN" mistyped = Ok tx /\ Recipient (txData tx) = Some zero_addr.
Proof.
  refine (mistyped_recipient_zero "MAN" mistyped _ ErrInvalid 41 1 1 eq_refl _ eq_refl eq_refl eq_refl
            eq_refl _); vm_compute; reflexivity.
Defined.

Lemma json_drops_currency_witness :
  exists tx2, UnmarshalJSON (txData (toy_signed (Some 3))) = Ok tx2 /\
    txData tx2 = txData (toy_signed (Some 3)) /\ GetTxCurrency (TxNormal tx2) = MAN_COIN /\
    (Currency (toy_signed (Some 3)) <> "" -> is_Some (Recipient (txData (toy_signed (Some 3)))) ->
     forall chid, GetMakeHashfield (TxNormal tx2) chid <>
                  GetMakeHashfield (TxNormal (toy_signed (Some 3))) chid).
Proof. exact (json_drops_currency (sample_tx 0) 3 7 _ toy_low ltac:(lia) eq_refl). Defined.

Lemma rlp_roundtrip_witness :
  exists tx2, DecodeRLP (EncodeRLP (sample_tx ExtraUnGasMinerTxType)) = Ok tx2 /\
    txData tx2 = txData (sample_tx ExtraUnGasMinerTxType) /\ Currency tx2 = "MAN" /\
    (isRewardType (tx_GetMatrixType (sample_tx ExtraUnGasMinerTxType)) = true ->
     From tx2 = From (sample_tx ExtraUnGasMinerTxType)).
Proof. exact (rlp_roundtrip (sample_tx ExtraUnGasMinerTxType) 37 eq_refl). Defined.

Definition toy_batch : list SelfTransaction := [TxNormal (toy_signed (Some 3)); TxNormal (sample_tx 0)].

Lemma batch_recovers_witness :
  (exists txs', BatchSender toy_batch = Ok txs' /\
     Forall2 (fun tx tx' => if isRewardType (GetMatrixType tx) then tx' = tx else
                forall V, tdV (selfData tx) = Some V -> recovered (deriveChainId V) tx tx') toy_batch txs') /\
  (exists txs', BatchSender_self toy_batch (Some (NewEIP155Signer (Some 3))) (fun _ => true) = Ok txs' /\
     Forall2 (fun tx tx' => recovered 3 tx tx') toy_batch txs').
Proof.
  refine (batch_recovers toy_batch 3 (fun _ => true) _ _).
  - by repeat constructor.
  - repeat constructor; by eexists.
Defined.
