(* ===== verification/SignHelper.v ===== *)
(** * Signing helper ([accounts/signhelper/signhelper.go])

    A validator signs with one of the accounts entrusted by its deposit
    account, and a vote is credited to the deposit account of its signer. *)

From S2P Require Import Crypto Reader Prelude.

(** The relations the helper needs; [cdc] and the chain implement it. *)
Record AuthReader := mkAuth {
  ar_GetA2AccountsFromA0Account : Z -> Z -> res read_error (list Z);
  ar_GetA0AccountFromAnyAccount : Z -> Z -> res read_error (Z * Z)
}.

(** The key store of the node: the entrusted accounts with their passwords,
    the private key an account and password unlock, and the deposit account
    ([ca.GetDepositAddress]). *)
Record KeyStore := mkKeyStore {
  ks_entrust : gmap Z Z;
  ks_key : Z -> Z -> option Z;
  ks_deposit : Z
}.

(** [core.BlockChain.GetSignAccountPassword]: the first account with a password. *)
Fixpoint GetSignAccountPassword (ks : KeyStore) (signAccounts : list Z) : res read_error (Z * Z) :=
  match signAccounts with
  | [] => Err ErrRead
  | signAccount :: rest =>
      match ks_entrust ks !! signAccount with
      | Some password => Ok (signAccount, password)
      | None => GetSignAccountPassword ks rest
      end
  end.

Section Helper.
Context `{Secp256k1} (ks : KeyStore).

Definition getSignAccountAndPassword (reader : AuthReader) (blkHash : Z)
  : res read_error (Z * Z) :=
  let* addrs := ar_GetA2AccountsFromA0Account reader (ks_deposit ks) blkHash in
  GetSignAccountPassword ks addrs.

Definition SignHashWithValidateByReader (reader : AuthReader) (hash : Z) (validate : bool)
    (blkHash : Z) : res read_error Z :=
  let* (signAccount, signPassword) := getSignAccountAndPassword reader blkHash in
  if signAccount =? zero_addr then Err ErrRead
  else match ks_key ks signAccount signPassword with
       | None => Err ErrRead
       | Some key =>
           match SignWithValidate hash validate key with
           | None => Err ErrRead
           | Some sign => Ok sign
           end
       end.

(** The error of the recovery is overwritten by the next call: a signature
    that does not recover is treated as one of the zero address. *)
Definition VerifySignWithValidateByReader (reader : AuthReader) (signHash sig blkHash : Z)
  : res read_error (Z * Z * bool) :=
  let (addr, flag) :=
    match VerifySignWithValidate signHash sig with
    | Some (addr, flag) => (addr, flag)
    | None => (zero_addr, signFlag sig)
    end in
  let* (accountA0, accountA1) := ar_GetA0AccountFromAnyAccount reader addr blkHash in
  Ok (accountA0, accountA1, flag).
End Helper.

Lemma GetSignAccountPassword_in ks l acc pw :
  GetSignAccountPassword ks l = Ok (acc, pw) -> acc ∈ l.
Proof.
  induction l as [|x l IH]; simpl; [done|]. rewrite elem_of_cons.
  case_match; [intros [= <- _]; auto|auto].
Qed.

(** A validator's own signature is credited to itself: whatever hash and
    verdict a node signs, the helper verifies the result to the node's deposit
    account, the authorised account of its relations and the same verdict. *)
Theorem own_signature_verifies `{Secp256k1} ks reader hash validate blkHash sig a1 :
  (forall acc pw key, ks_key ks acc pw = Some key -> secp_address key = acc) ->
  (forall l a, ar_GetA2AccountsFromA0Account reader (ks_deposit ks) blkHash = Ok l -> a ∈ l ->
     ar_GetA0AccountFromAnyAccount reader a blkHash = Ok (ks_deposit ks, a1)) ->
  SignHashWithValidateByReader ks reader hash validate blkHash = Ok sig ->
  VerifySignWithValidateByReader reader hash sig blkHash = Ok (ks_deposit ks, a1, validate).
Proof.
  intros Hkey Hrel Hs. unfold SignHashWithValidateByReader, getSignAccountAndPassword in Hs.
  apply res_bind_Ok in Hs as ([acc pw] & Hs & Hsig).
  apply res_bind_Ok in Hs as (l & Hl & Hacc).
  destruct (acc =? zero_addr); [done|].
  destruct (ks_key ks acc pw) as [key|] eqn:Hk; [|done].
  destruct (SignWithValidate hash validate key) as [s|] eqn:Hsw; simplify_eq.
  unfold VerifySignWithValidateByReader. rewrite (SignWithValidate_verify _ _ _ _ Hsw).
  rewrite (Hkey _ _ _ Hk), (Hrel _ _ Hl (GetSignAccountPassword_in _ _ _ _ Hacc)). done.
Qed.

#[local] Existing Instance toy_curve.

Definition w_ks : KeyStore :=
  mkKeyStore (<[8 := 1]> ∅) (fun acc pw => if acc =? 8 then Some 8 else None) 5.
Definition w_auth : AuthReader :=
  mkAuth (fun a0 _ => if a0 =? 5 then Ok [7; 8] else Err ErrRead)
         (fun a _ => if (a =? 7) || (a =? 8) then Ok (5, 6) else Err ErrRead).

Lemma own_signature_verifies_witness :
  VerifySignWithValidateByReader w_auth 41 ((41 * 1000 + 8) * 256) 3 = Ok (5, 6, true).
Proof.
  apply (own_signature_verifies w_ks w_auth 41 true 3 _ 6).
  - simpl. intros acc pw key. destruct (Z.eqb_spec acc 8); [|done]. by intros [= <-].
  - simpl. intros l a [= <-]. rewrite !elem_of_cons. intros [->|[->|[]%not_elem_of_nil]]; done.
  - reflexivity.
Defined.
