(* ===== verification/LeaderMsgs.v ===== *)
(** * Messages and caches of the leader service
    ([mc/msgdef2.0.go], [leaderelect2.0/msgPool.go], [leaderelect2.0/masterCache.go])

    The messages a re-election exchanges, the pool of results a controller has
    seen, and the cache in which a master collects the votes on its inquiry,
    its re-election request and its result broadcast.  The file proves that a
    cached vote was verified against the request it is cached for. *)

From S2P Require Import Turns TurnTimes GoLang Header Reader Crypto SignHelper Prelude.

(** [mc.ReelectRSPType] *)
Definition ReelectRSPTypeNone : Z := 0.
Definition ReelectRSPTypePOS : Z := 1.
Definition ReelectRSPTypeAlreadyRL : Z := 2.
Definition ReelectRSPTypeAgree : Z := 3.
Definition ReelectRSPTypeNewBlockReady : Z := 4.

(** [common.RetCallTxN]: the short numbers of the transactions of one type. *)
Record RetCallTxN := mkRetCallTxN {
  TXt : Z;
  ListN : list Z
}.

(** [bqOnline] stands for the online-consensus results the message carries,
    which the modelled code only hands on. *)
Record HD_BlkConsensusReqMsg := mkBlkReq {
  bqHeader : option Header;
  bqConsensusTurn : ConsensusTurnInfo;
  bqTxsCode : list RetCallTxN;
  bqOnline : list Z;
  bqFrom : Z
}.

Definition TxsCodeCount (txsCode : list RetCallTxN) : Z :=
  foldl (fun txsCodeCount item => txsCodeCount + Z.of_nat (length (ListN item))) 0 txsCode.

Record BlockPOSFinishedNotify := mkPosNotify {
  pnNumber : Z;
  pnHeader : option Header;
  pnConsensusTurn : ConsensusTurnInfo;
  pnTxsCode : list RetCallTxN
}.

Record RoleUpdatedMsg := mkRoleUpdate {
  ruBlockNum : Z;
  ruBlockHash : Z;
  ruLeader : Z;
  ruSuperSeq : Z;
  ruRole : Z
}.

Record HD_V2_ReelectInquiryReqMsg := mkInquiryReq {
  irNumber : Z;
  irHeaderTime : Z;
  irConsensusTurn : ConsensusTurnInfo;
  irReelectTurn : Z;
  irTimeStamp : Z;
  irMaster : Z;
  irFrom : Z
}.

Record HD_V2_ReelectLeaderReqMsg := mkRLReq {
  rrInquiryReq : option HD_V2_ReelectInquiryReqMsg;
  rrAgreeSigns : list Z;
  rrTimeStamp : Z
}.

Record HD_V2_ReelectLeaderConsensus := mkRLConsensus {
  rcReq : option HD_V2_ReelectLeaderReqMsg;
  rcVotes : list Z
}.

Record HD_V2_ReelectInquiryRspMsg := mkInquiryRsp {
  isNumber : Z;
  isReqHash : Z;
  isType : Z;
  isAgreeSign : Z;
  isPOSResult : option HD_BlkConsensusReqMsg;
  isRLResult : option HD_V2_ReelectLeaderConsensus;
  isNewBlock : option Header;
  isFrom : Z
}.

Record HD_V2_ConsensusVote := mkVote {
  cvSignHash : Z;
  cvNumber : Z;
  cvSign : Z;
  cvFrom : Z
}.

Record HD_V2_ReelectBroadcastMsg := mkBroadcastMsg {
  bmNumber : Z;
  bmType : Z;
  bmPOSResult : option HD_BlkConsensusReqMsg;
  bmRLResult : option HD_V2_ReelectLeaderConsensus;
  bmTimeStamp : Z;
  bmFrom : Z
}.

Record HD_V2_ReelectBroadcastRspMsg := mkBroadcastRsp {
  brNumber : Z;
  brResultHash : Z;
  brSign : Z;
  brFrom : Z
}.

(** ** Results seen ([msgPool.go]) *)

Record msgPool := mkMsgPool {
  parentHeader : option Header;
  posNotifyCache : list BlockPOSFinishedNotify;
  rlConsensusCache : gmap ConsensusTurnInfo HD_V2_ReelectLeaderConsensus
}.

Definition newMsgPool : msgPool := mkMsgPool None [] ∅.

Definition pos_matches (consensusTurn : ConsensusTurnInfo) (leader : Z)
    (m : BlockPOSFinishedNotify) : bool :=
  bool_decide (pnConsensusTurn m = consensusTurn) &&
  match pnHeader m with Some h => hLeader h =? leader | None => false end.

(** The cache holds only messages with a header, so the nil header of a cached
    message is never read.  The second component tells whether the message was
    stored. *)
Definition SavePOSNotifyMsg (mp : msgPool) (msg : option BlockPOSFinishedNotify)
  : msgPool * bool :=
  match msg with
  | None => (mp, false)
  | Some msg =>
      match pnHeader msg with
      | None => (mp, false)
      | Some header =>
          if hLeader header =? zero_addr then (mp, false)
          else if existsb (pos_matches (pnConsensusTurn msg) (hLeader header)) (posNotifyCache mp)
          then (mp, false)
          else (mkMsgPool (parentHeader mp) (posNotifyCache mp ++ [msg]) (rlConsensusCache mp), true)
      end
  end.

Definition GetPOSNotifyMsg (mp : msgPool) (leader : Z) (consensusTurn : ConsensusTurnInfo)
  : option BlockPOSFinishedNotify :=
  List.find (pos_matches consensusTurn leader) (posNotifyCache mp).

Definition SaveRLConsensusMsg (mp : msgPool) (msg : option HD_V2_ReelectLeaderConsensus)
  : msgPool :=
  match msg with
  | Some m =>
      match rcReq m with
      | Some req =>
          match rrInquiryReq req with
          | Some inq =>
              if irMaster inq =? zero_addr then mp
              else mkMsgPool (parentHeader mp) (posNotifyCache mp)
                     (<[calcNextConsensusTurn (irConsensusTurn inq) (irReelectTurn inq) := m]>
                        (rlConsensusCache mp))
          | None => mp
          end
      | None => mp
      end
  | None => mp
  end.

Definition GetRLConsensusMsg (mp : msgPool) (consensusTurn : ConsensusTurnInfo)
  : option HD_V2_ReelectLeaderConsensus := rlConsensusCache mp !! consensusTurn.

Definition SaveParentHeader (mp : msgPool) (header : option Header) : msgPool :=
  match header with
  | None => mp
  | Some _ => mkMsgPool header (posNotifyCache mp) (rlConsensusCache mp)
  end.

(** ** Votes on a request ([masterCache.go], [posPool]) *)

Record posPool (M : Type) := mkPool {
  reqHash : Z;
  reqMsg : option M;
  voteCache : gmap Z VerifiedSign
}.
Arguments mkPool {M}.
Arguments reqHash {M}.
Arguments reqMsg {M}.
Arguments voteCache {M}.

Inductive cache_error :=
| ErrSelfReqIsNil
| ErrReqHash
| ErrVoteExists
| ErrVoteSign
| ErrVoteAccount
| ErrVoteDisagree
| ErrParamsIsNil
| ErrInquiryResult
| ErrNoReqMsg.

Definition newPosPool {M} : posPool M := mkPool zero_hash None ∅.

Definition pool_clear {M} (pp : posPool M) : posPool M := mkPool zero_hash None ∅.

Definition saveReqMsg {M} (pp : posPool M) (msg : M) : posPool M :=
  mkPool (reqHash pp) (Some msg) (voteCache pp).

(** [h] is [types.RlpHash(reqMsg)]. *)
Definition saveReqMsgAndHash {M} (pp : posPool M) (msg : M) (h : Z) : posPool M :=
  mkPool h (Some msg) ∅.

(** [verify h s] is the helper's verdict on a signature, at the parent block of
    the decision centre. *)
Definition saveVoteMsg {M} (pp : posPool M) (verify : Z -> Z -> res read_error (Z * Z * bool))
    (hash sign from : Z) : res cache_error (posPool M) :=
  if (reqHash pp =? zero_hash) || negb (bool_decide (is_Some (reqMsg pp)))
  then Err ErrSelfReqIsNil
  else if negb (hash =? reqHash pp) then Err ErrReqHash
  else match voteCache pp !! from with
       | Some _ => Err ErrVoteExists
       | None =>
           let* (depositAccount, signAccount, validate) :=
             res_wrap (fun _ => ErrVoteSign) (verify hash sign) in
           if negb (signAccount =? from) then Err ErrVoteAccount
           else if negb validate then Err ErrVoteDisagree
           else Ok (mkPool (reqHash pp) (reqMsg pp)
                      (<[signAccount := mkVerified sign depositAccount validate 0]>
                         (voteCache pp)))
       end.

Definition getVotes `{GoRange} {M} (pp : posPool M) : list VerifiedSign :=
  (go_range (voteCache pp)).*2.

(** ** The master's cache ([masterCache.go]) *)

(** [types.RlpHash] of the messages that are signed. *)
Class RlpHash := {
  rlp_inquiry : HD_V2_ReelectInquiryReqMsg -> Z;
  rlp_rlreq : HD_V2_ReelectLeaderReqMsg -> Z;
  rlp_broadcast : HD_V2_ReelectBroadcastMsg -> Z
}.

Record masterCache := mkMasterCache {
  mcNumber : Z;
  mcSelfAddr : Z;
  mcSelfNodeAddr : Z;
  lastSignalInquiryTime : Z;
  inquiryResult : Z;
  inquiryPool : posPool HD_V2_ReelectInquiryReqMsg;
  rlReqPool : posPool HD_V2_ReelectLeaderReqMsg;
  broadcastPool : posPool HD_V2_ReelectBroadcastMsg
}.

Definition newMasterCache (number : Z) : masterCache :=
  mkMasterCache number zero_addr zero_addr 0 ReelectRSPTypeNone newPosPool newPosPool newPosPool.

Definition ClearSelfInquiryMsg (self : masterCache) : masterCache :=
  mkMasterCache (mcNumber self) (mcSelfAddr self) (mcSelfNodeAddr self) 0 ReelectRSPTypeNone
    (pool_clear (inquiryPool self)) (pool_clear (rlReqPool self)) (pool_clear (broadcastPool self)).

Definition CanSendSingleInquiryReq (self : masterCache) (time interval : Z) : bool :=
  negb (i64 (time - lastSignalInquiryTime self) <=? interval).

Definition SetLastSingleInquiryReqTime (self : masterCache) (time : Z) : masterCache :=
  mkMasterCache (mcNumber self) (mcSelfAddr self) (mcSelfNodeAddr self) time
    (inquiryResult self) (inquiryPool self) (rlReqPool self) (broadcastPool self).

Definition cache_SetSelf (self : masterCache) (addr node : Z) : masterCache :=
  mkMasterCache (mcNumber self) addr node (lastSignalInquiryTime self)
    (inquiryResult self) (inquiryPool self) (rlReqPool self) (broadcastPool self).

(** Replacing the pools and the result. *)
Definition cache_set (self : masterCache) (result : Z)
    (inq : posPool HD_V2_ReelectInquiryReqMsg) (rl : posPool HD_V2_ReelectLeaderReqMsg)
    (bc : posPool HD_V2_ReelectBroadcastMsg) : masterCache :=
  mkMasterCache (mcNumber self) (mcSelfAddr self) (mcSelfNodeAddr self)
    (lastSignalInquiryTime self) result inq rl bc.

Section Cache.
Context `{RlpHash}.

(** The request is never nil where the code calls this. *)
Definition SaveInquiryReq (self : masterCache) (req : HD_V2_ReelectInquiryReqMsg)
  : masterCache * Z :=
  let self := ClearSelfInquiryMsg self in
  let h := rlp_inquiry req in
  (cache_set self ReelectRSPTypeNone (saveReqMsgAndHash (inquiryPool self) req h)
     (rlReqPool self) (broadcastPool self), h).

Definition IsMatchedInquiryRsp (self : masterCache) (rsp : option HD_V2_ReelectInquiryRspMsg)
  : res cache_error unit :=
  match rsp with
  | None => Err ErrParamsIsNil
  | Some rsp =>
      if reqHash (inquiryPool self) =? zero_hash then Err ErrSelfReqIsNil
      else if negb (isReqHash rsp =? reqHash (inquiryPool self)) then Err ErrReqHash
      else Ok tt
  end.

Definition SaveInquiryVote (self : masterCache) verify (hash sign from : Z)
  : res cache_error masterCache :=
  let* p := saveVoteMsg (inquiryPool self) verify hash sign from in
  Ok (cache_set self (inquiryResult self) p (rlReqPool self) (broadcastPool self)).

(** The result is set before the request is looked up. *)
Definition GenRLReqMsg (self : masterCache) (inquiryAgreeVotes : list Z)
  : masterCache * option cache_error :=
  if negb (inquiryResult self =? ReelectRSPTypeNone) then (self, Some ErrInquiryResult)
  else
    let self := cache_set self ReelectRSPTypeAgree (inquiryPool self) (rlReqPool self)
                  (broadcastPool self) in
    match reqMsg (inquiryPool self) with
    | None => (self, Some ErrNoReqMsg)
    | Some inquiryMsg =>
        (cache_set self (inquiryResult self) (pool_clear (inquiryPool self))
           (saveReqMsg (rlReqPool self) (mkRLReq (Some inquiryMsg) inquiryAgreeVotes 0))
           (broadcastPool self), None)
    end.

Definition GenBroadcastMsgWithInquiryResult (self : masterCache) (result : Z)
    (rsp : HD_V2_ReelectInquiryRspMsg) : res cache_error masterCache :=
  if negb (result =? ReelectRSPTypePOS) && negb (result =? ReelectRSPTypeAlreadyRL)
  then Err ErrInquiryResult
  else if negb (inquiryResult self =? ReelectRSPTypeNone) then Err ErrInquiryResult
  else
    Ok (cache_set self result (pool_clear (inquiryPool self)) (rlReqPool self)
          (saveReqMsg (broadcastPool self)
             (mkBroadcastMsg (mcNumber self) result (isPOSResult rsp) (isRLResult rsp) 0
                (mcSelfNodeAddr self)))).

Definition GenBroadcastMsgWithRLSuccess (self : masterCache) (rlAgreeVotes : list Z)
  : res cache_error masterCache :=
  if negb (inquiryResult self =? ReelectRSPTypeAgree) then Err ErrInquiryResult
  else match reqMsg (rlReqPool self) with
       | None => Err ErrNoReqMsg
       | Some rlReq =>
           Ok (cache_set self ReelectRSPTypeAlreadyRL (inquiryPool self)
                 (pool_clear (rlReqPool self))
                 (saveReqMsg (broadcastPool self)
                    (mkBroadcastMsg (mcNumber self) ReelectRSPTypeAgree None
                       (Some (mkRLConsensus (Some rlReq) rlAgreeVotes)) 0
                       (mcSelfNodeAddr self))))
       end.

Definition GetRLReqMsg (self : masterCache) (now : Z)
  : res cache_error (masterCache * HD_V2_ReelectLeaderReqMsg * Z) :=
  if negb (inquiryResult self =? ReelectRSPTypeAgree) then Err ErrInquiryResult
  else match reqMsg (rlReqPool self) with
       | None => Err ErrNoReqMsg
       | Some req =>
           let req := mkRLReq (rrInquiryReq req) (rrAgreeSigns req) (u64 now) in
           let h := rlp_rlreq req in
           Ok (cache_set self (inquiryResult self) (inquiryPool self)
                 (saveReqMsgAndHash (rlReqPool self) req h) (broadcastPool self), req, h)
       end.

Definition SaveRLVote (self : masterCache) verify (hash sign from : Z)
  : res cache_error masterCache :=
  let* p := saveVoteMsg (rlReqPool self) verify hash sign from in
  Ok (cache_set self (inquiryResult self) (inquiryPool self) p (broadcastPool self)).

Definition GetBroadcastMsg (self : masterCache)
  : res cache_error (masterCache * HD_V2_ReelectBroadcastMsg * Z) :=
  match reqMsg (broadcastPool self) with
  | None => Err ErrNoReqMsg
  | Some msg =>
      let h := rlp_broadcast msg in
      Ok (cache_set self (inquiryResult self) (inquiryPool self) (rlReqPool self)
            (saveReqMsgAndHash (broadcastPool self) msg h), msg, h)
  end.

Definition GetLocalBroadcastMsg (self : masterCache) : option HD_V2_ReelectBroadcastMsg :=
  reqMsg (broadcastPool self).

Definition SaveBroadcastVote (self : masterCache) verify (hash sign from : Z)
  : res cache_error masterCache :=
  let* p := saveVoteMsg (broadcastPool self) verify hash sign from in
  Ok (cache_set self (inquiryResult self) (inquiryPool self) (rlReqPool self) p).
End Cache.

(** ** Cached votes are genuine *)

Section Genuine.
Context `{RlpHash}.
(** [genuine h s a0 a1]: [s] is an agreeing signature of [h] by an account of
    deposit account [a0] and authorised account [a1]. *)
Context (genuine : Z -> Z -> Z -> Z -> Prop).

Definition verify_genuine (verify : Z -> Z -> res read_error (Z * Z * bool)) : Prop :=
  forall h s a0 a1, verify h s = Ok (a0, a1, true) -> genuine h s a0 a1.

(** A pool with votes holds the request whose hash the votes sign. *)
Definition pool_ok {M} (rlp : M -> Z) (p : posPool M) : Prop :=
  (reqHash p <> zero_hash -> exists m, reqMsg p = Some m /\ reqHash p = rlp m) /\
  (forall from v, voteCache p !! from = Some v ->
     reqHash p <> zero_hash /\ vsValidate v = true /\
     genuine (reqHash p) (vsSign v) (vsAccount v) from).

Definition pool_empty {M} (p : posPool M) : Prop :=
  reqHash p = zero_hash /\ reqMsg p = None /\ voteCache p = ∅.

Record cache_wf (mc : masterCache) : Prop := {
  cw_inquiry : pool_ok rlp_inquiry (inquiryPool mc);
  cw_rlreq : pool_ok rlp_rlreq (rlReqPool mc);
  cw_broadcast : pool_ok rlp_broadcast (broadcastPool mc);
  cw_none : inquiryResult mc = ReelectRSPTypeNone ->
            pool_empty (rlReqPool mc) /\ pool_empty (broadcastPool mc);
  cw_agree : inquiryResult mc = ReelectRSPTypeAgree -> pool_empty (broadcastPool mc)
}.

Lemma pool_ok_empty {M} (rlp : M -> Z) (p : posPool M) : pool_empty p -> pool_ok rlp p.
Proof. intros (Hh & _ & Hv). split; [done|]. intros from v. by rewrite Hv, lookup_empty. Qed.

Lemma pool_ok_save {M} (rlp : M -> Z) (p : posPool M) m :
  pool_empty p -> pool_ok rlp (saveReqMsg p m).
Proof.
  intros (Hh & _ & Hv). split; simpl; [done|]. intros from v. by rewrite Hv, lookup_empty.
Qed.

Lemma pool_ok_hash {M} (rlp : M -> Z) (p : posPool M) m :
  pool_ok rlp (saveReqMsgAndHash p m (rlp m)).
Proof. split; [by exists m|]. intros from v. simpl. by rewrite lookup_empty. Qed.

Lemma saveVoteMsg_ok {M} (rlp : M -> Z) (p p' : posPool M) verify h s from :
  verify_genuine verify -> pool_ok rlp p ->
  saveVoteMsg p verify h s from = Ok p' -> pool_ok rlp p'.
Proof.
  intros Hver [Hmsg Hvotes] Hs. unfold saveVoteMsg in Hs.
  destruct (Z.eqb_spec (reqHash p) zero_hash) as [|Hnz]; [done|].
  destruct (bool_decide _); [|done]. simpl in Hs.
  destruct (Z.eqb_spec h (reqHash p)) as [->|]; [|done].
  destruct (voteCache p !! from); [done|]. simpl in Hs.
  destruct (verify (reqHash p) s) as [[[a0 a1] val]| |] eqn:Hv; try done. simpl in Hs.
  destruct (Z.eqb_spec a1 from) as [->|]; [|done]. destruct val; [|done].
  simplify_eq/=. split; simpl; [done|]. intros f v.
  destruct (decide (f = from)) as [->|Hf].
  - rewrite lookup_insert_eq. intros [= <-]. simpl. auto.
  - rewrite lookup_insert_ne by done. apply Hvotes.
Qed.

(** The operations on the cache. *)
Inductive cache_step (mc : masterCache) : masterCache -> Prop :=
| cs_clear : cache_step mc (ClearSelfInquiryMsg mc)
| cs_time t : cache_step mc (SetLastSingleInquiryReqTime mc t)
| cs_self a n : cache_step mc (cache_SetSelf mc a n)
| cs_inquiry req : cache_step mc (SaveInquiryReq mc req).1
| cs_inquiry_vote verify h s f mc' :
    verify_genuine verify -> SaveInquiryVote mc verify h s f = Ok mc' -> cache_step mc mc'
| cs_gen_rl votes : cache_step mc (GenRLReqMsg mc votes).1
| cs_gen_bc result rsp mc' :
    GenBroadcastMsgWithInquiryResult mc result rsp = Ok mc' -> cache_step mc mc'
| cs_gen_rl_success votes mc' :
    GenBroadcastMsgWithRLSuccess mc votes = Ok mc' -> cache_step mc mc'
| cs_get_rl now mc' req h : GetRLReqMsg mc now = Ok (mc', req, h) -> cache_step mc mc'
| cs_rl_vote verify h s f mc' :
    verify_genuine verify -> SaveRLVote mc verify h s f = Ok mc' -> cache_step mc mc'
| cs_get_bc mc' msg h : GetBroadcastMsg mc = Ok (mc', msg, h) -> cache_step mc mc'
| cs_bc_vote verify h s f mc' :
    verify_genuine verify -> SaveBroadcastVote mc verify h s f = Ok mc' -> cache_step mc mc'.

#[local] Arguments saveReqMsg : simpl never.

Lemma newMasterCache_wf n : cache_wf (newMasterCache n).
Proof. by split; try apply pool_ok_empty. Qed.

Lemma ClearSelfInquiryMsg_wf mc : cache_wf (ClearSelfInquiryMsg mc).
Proof. by split; try apply pool_ok_empty. Qed.

Lemma GenRLReqMsg_wf mc votes : cache_wf mc -> cache_wf (GenRLReqMsg mc votes).1.
Proof.
  intros [Hi Hr Hb Hn Ha]. unfold GenRLReqMsg.
  destruct (Z.eqb_spec (inquiryResult mc) ReelectRSPTypeNone) as [He|]; [|by split].
  destruct (Hn He) as [Hrl Hbc]. simpl. case_match; split; simpl; try done.
  by apply pool_ok_save.
Qed.

Lemma GenBroadcast_wf mc result rsp mc' :
  cache_wf mc -> GenBroadcastMsgWithInquiryResult mc result rsp = Ok mc' -> cache_wf mc'.
Proof.
  intros [Hi Hr Hb Hn Ha]. unfold GenBroadcastMsgWithInquiryResult.
  destruct (Z.eqb_spec (inquiryResult mc) ReelectRSPTypeNone) as [He|];
    [|by case_match].
  destruct (Hn He) as [Hrl Hbc].
  destruct (Z.eqb_spec result ReelectRSPTypePOS), (Z.eqb_spec result ReelectRSPTypeAlreadyRL);
    simpl; intros [= <-]; subst; split; simpl; try done; try (by apply pool_ok_save).
Qed.

Lemma GenRLSuccess_wf mc votes mc' :
  cache_wf mc -> GenBroadcastMsgWithRLSuccess mc votes = Ok mc' -> cache_wf mc'.
Proof.
  intros [Hi Hr Hb Hn Ha]. unfold GenBroadcastMsgWithRLSuccess.
  destruct (Z.eqb_spec (inquiryResult mc) ReelectRSPTypeAgree) as [He|]; [|done].
  simpl. case_match; [|done]. intros [= <-]. split; simpl; try done.
  by apply pool_ok_save, Ha.
Qed.

Lemma saveVote_empty {M} (p p' : posPool M) verify h s f :
  pool_empty p -> saveVoteMsg p verify h s f <> Ok p'.
Proof. intros (Hh & _ & _). unfold saveVoteMsg. by rewrite Hh. Qed.

Lemma cache_step_wf mc mc' : cache_wf mc -> cache_step mc mc' -> cache_wf mc'.
Proof.
  intros Hwf Hst.
  destruct Hst as [| | | |verify h s f mc' Hv Hs| |? ? ? Hs|? ? Hs|now mc' req h Hs
                  |verify h s f mc' Hv Hs|mc' msg h Hs|verify h s f mc' Hv Hs].
  - apply ClearSelfInquiryMsg_wf.
  - by destruct Hwf.
  - by destruct Hwf.
  - destruct (ClearSelfInquiryMsg_wf mc). split; simpl; try done. apply pool_ok_hash.
  - apply res_bind_Ok in Hs as (p & Hp & [= <-]). destruct Hwf.
    split; simpl; try done. by eapply saveVoteMsg_ok.
  - by apply GenRLReqMsg_wf.
  - by eapply GenBroadcast_wf.
  - by eapply GenRLSuccess_wf.
  - unfold GetRLReqMsg in Hs.
    destruct (Z.eqb_spec (inquiryResult mc) ReelectRSPTypeAgree) as [He|]; [|done].
    simpl in Hs. case_match; [|done]. simplify_eq. destruct Hwf.
    split; simpl; try done; [apply pool_ok_hash|by rewrite He].
  - apply res_bind_Ok in Hs as (p & Hp & [= <-]). destruct Hwf as [Hi Hr Hb Hn Ha].
    split; simpl; try done; [by eapply saveVoteMsg_ok|].
    intros He. destruct (Hn He) as [Hrl _]. by destruct (saveVote_empty _ _ _ _ _ _ Hrl Hp).
  - unfold GetBroadcastMsg in Hs. case_match eqn:Hm; [|done]. simplify_eq.
    destruct Hwf as [Hi Hr Hb Hn Ha]. split; simpl; try done; [apply pool_ok_hash|..].
    + intros He. destruct (Hn He) as [_ (_ & Hno & _)]. congruence.
    + intros He. destruct (Ha He) as (_ & Hno & _). congruence.
  - apply res_bind_Ok in Hs as (p & Hp & [= <-]). destruct Hwf as [Hi Hr Hb Hn Ha].
    split; simpl; try done; [by eapply saveVoteMsg_ok|..].
    + intros He. destruct (Hn He) as [_ Hbc]. by destruct (saveVote_empty _ _ _ _ _ _ Hbc Hp).
    + intros He. by destruct (saveVote_empty _ _ _ _ _ _ (Ha He) Hp).
Qed.

Lemma cache_steps_wf mc mc' : rtc cache_step mc mc' -> cache_wf mc -> cache_wf mc'.
Proof. induction 1; eauto using cache_step_wf. Qed.
End Genuine.
