(* ===== verification/ReqCache.v ===== *)
(** * Consensus requests and their cache ([blkverify/req_cache.go])

    A height can have several requests for the same turn: the leader's own,
    copies other nodes forward, requests whose sender is not known yet and the
    node's own block.  The cache orders them by type and time and bounds what
    one sender can put into it.  The process works on the request objects the
    cache holds pointers to, so the model keeps the objects in a heap and the
    cache as a list of addresses. *)

From S2P Require Import GoLang Turns Header CoinTx Reader LeaderMsgs Prelude.

Definition reqCountMax : Z := 5.
Definition fromCountLimit : Z := 3.

Inductive reqType :=
| reqTypeLocalReq
| reqTypeLeaderReq
| reqTypeOtherReq
| reqTypeUnknownReq
| reqTypeFromBadReq.

#[export] Instance reqType_eq_dec : EqDecision reqType.
Proof. solve_decision. Defined.

(** The [iota] values. *)
Definition reqType_num (t : reqType) : Z :=
  match t with
  | reqTypeLocalReq => 0
  | reqTypeLeaderReq => 1
  | reqTypeOtherReq => 2
  | reqTypeUnknownReq => 3
  | reqTypeFromBadReq => 4
  end.

(** [verifyResult] of [verify_process.go] *)
Inductive verifyResult :=
| localVerifyResultProcessing
| localVerifyResultSuccess
| localVerifyResultFailedButCanRecover
| localVerifyResultStateFailed
| localVerifyResultDBRecovery.

#[export] Instance verifyResult_eq_dec : EqDecision verifyResult.
Proof. solve_decision. Defined.

(** A [*mc.HD_BlkConsensusReqMsg] whose header is not nil. *)
Record blkReq := mkReq {
  rqHeader : Header;
  rqTurn : ConsensusTurnInfo;
  rqTxsCode : list RetCallTxN;
  rqOnline : list Z;
  rqFrom : Z
}.

Definition checkReq (msg : HD_BlkConsensusReqMsg) : option blkReq :=
  match bqHeader msg with
  | None => None
  | Some header =>
      Some (mkReq header (bqConsensusTurn msg) (bqTxsCode msg) (bqOnline msg) (bqFrom msg))
  end.

(** [mc.LocalBlockVerifyConsensusReq]; receipts and the state database are
    handles that are only passed on. *)
Record LocalReq := mkLocalReq {
  lrReq : option HD_BlkConsensusReqMsg;
  lrOriginalTxs : list CoinTxs;
  lrFinalTxs : list CoinTxs;
  lrReceipts : Z;
  lrState : Z
}.

Record reqData := mkReqData {
  rdType : reqType;
  rdReq : blkReq;
  rdHash : Z;
  rdOriginalTxs : list CoinTxs;
  rdFinalTxs : list CoinTxs;
  rdReceipts : option Z;
  rdStateDB : option Z;
  rdResult : verifyResult;
  rdPosFinished : bool;
  rdVotes : list VerifiedSign
}.

Definition rd_up_type (r : reqData) (t : reqType) : reqData :=
  mkReqData t (rdReq r) (rdHash r) (rdOriginalTxs r) (rdFinalTxs r) (rdReceipts r)
    (rdStateDB r) (rdResult r) (rdPosFinished r) (rdVotes r).
Definition rd_up_txs (r : reqData) (txs : list CoinTxs) : reqData :=
  mkReqData (rdType r) (rdReq r) (rdHash r) txs (rdFinalTxs r) (rdReceipts r)
    (rdStateDB r) (rdResult r) (rdPosFinished r) (rdVotes r).
Definition rd_up_state (r : reqData) (stateDB : Z) (final : list CoinTxs) (receipts : Z) : reqData :=
  mkReqData (rdType r) (rdReq r) (rdHash r) (rdOriginalTxs r) final (Some receipts)
    (Some stateDB) (rdResult r) (rdPosFinished r) (rdVotes r).
Definition rd_up_result (r : reqData) (v : verifyResult) : reqData :=
  mkReqData (rdType r) (rdReq r) (rdHash r) (rdOriginalTxs r) (rdFinalTxs r) (rdReceipts r)
    (rdStateDB r) v (rdPosFinished r) (rdVotes r).
Definition rd_up_votes (r : reqData) (votes : list VerifiedSign) : reqData :=
  mkReqData (rdType r) (rdReq r) (rdHash r) (rdOriginalTxs r) (rdFinalTxs r) (rdReceipts r)
    (rdStateDB r) (rdResult r) (rdPosFinished r) votes.

(** [Header.Signatures = rightSigns] together with [posFinished = true]. *)
Definition with_signatures (h : Header) (signs : list Z) : Header :=
  mkHeader (hParentHash h) (hLeader h) (hCoinbase h) (hNumber h) (hTime h) signs
    (hVersion h) (hVersionSignatures h).
Definition rd_finish (r : reqData) (signs : list Z) : reqData :=
  let q := rdReq r in
  mkReqData (rdType r)
    (mkReq (with_signatures (rqHeader q) signs) (rqTurn q) (rqTxsCode q) (rqOnline q) (rqFrom q))
    (rdHash r) (rdOriginalTxs r) (rdFinalTxs r) (rdReceipts r)
    (rdStateDB r) (rdResult r) true (rdVotes r).

Definition newReqData `{HeaderHash} (req : blkReq) (isDBRecovery : bool) (t : reqType) : reqData :=
  mkReqData (if isDBRecovery then reqTypeLeaderReq else t) req
    (HashNoSignsAndNonce (rqHeader req)) [] [] None None
    (if isDBRecovery then localVerifyResultDBRecovery else localVerifyResultProcessing)
    false [].

Definition newReqDataByLocalReq `{HeaderHash} (localReq : LocalReq) (req : blkReq) : reqData :=
  mkReqData reqTypeLocalReq req (HashNoSignsAndNonce (rqHeader req))
    (lrOriginalTxs localReq) (lrFinalTxs localReq) (Some (lrReceipts localReq))
    (Some (lrState localReq)) localVerifyResultProcessing false [].

(** ** Votes of a request *)

Definition hasVote (votes : list VerifiedSign) (account : Z) : bool :=
  existsb (fun item => vsAccount item =? account) votes.

Definition isAccountExistVote (r : reqData) (account : Z) : bool :=
  if account =? zero_addr then true else hasVote (rdVotes r) account.

(** The errors ([ErrParamIsNil], [ErrExistVote]) leave the request as it is,
    and no caller looks at them. *)
Definition addVote (r : reqData) (vote : VerifiedSign) : reqData :=
  if vsAccount vote =? zero_addr then r
  else if hasVote (rdVotes r) (vsAccount vote) then r
  else rd_up_votes r (rdVotes r ++ [vote]).

Definition clearVotes (r : reqData) : reqData := rd_up_votes r [].

(** ** The cache *)

Record reqCache := mkCache {
  rcHeap : list reqData;
  rcCurTurn : ConsensusTurnInfo;
  rcReqs : list nat;
  rcCountLimit : Z;
  rcFromLimit : Z
}.

Definition newReqCache : reqCache :=
  mkCache [] {| PreConsensusTurn := 0; UsedReelectTurn := 0 |} [] reqCountMax fromCountLimit.

Definition rc_up_heap (c : reqCache) (heap : list reqData) : reqCache :=
  mkCache heap (rcCurTurn c) (rcReqs c) (rcCountLimit c) (rcFromLimit c).
Definition rc_up_reqs (c : reqCache) (reqs : list nat) : reqCache :=
  mkCache (rcHeap c) (rcCurTurn c) reqs (rcCountLimit c) (rcFromLimit c).
Definition rc_alloc (c : reqCache) (r : reqData) : reqCache := rc_up_heap c (rcHeap c ++ [r]).
Definition rc_update (c : reqCache) (id : nat) (f : reqData -> reqData) : reqCache :=
  rc_up_heap c (alter f id (rcHeap c)).

(** The objects at a list of addresses. *)
Definition objects (heap : list reqData) (ids : list nat) : list (nat * reqData) :=
  omap (fun id => (fun r => (id, r)) <$> heap !! id) ids.

(** What the rest of the node answers while a message is handled: the version
    of a block the chain has, the reader of the chain's states, the accounts
    entrusted by a deposit account, and the checks of a header and of the
    transactions with the state they lead to (the plugs of [blkmanage] for
    ordinary blocks, and the header check of the chain itself). *)
Record ChainView := mkChainView {
  cv_GetBlockByHash : Z -> option string;
  cv_reader : StateReader;
  cv_GetA2AccountsFromA0Account : Z -> Z -> res read_error (list Z);
  cv_bcVerifyHeader : Header -> bool;
  cv_blkVerifyHeader : string -> Header -> list Z -> bool;
  cv_VerifyTxsAndState : string -> Header -> list CoinTxs -> option (Z * list CoinTxs * Z)
}.

Inductive req_error := paramErr | turnErr | reqExistErr | fromManyErr | a0Err | cantFindErr.

Definition less (a b : reqData) : bool :=
  if bool_decide (rdType a = rdType b)
  then hTime (rqHeader (rdReq a)) >? hTime (rqHeader (rdReq b))
  else reqType_num (rdType a) <? reqType_num (rdType b).

Definition less_at (a b : nat * reqData) : bool := less a.2 b.2.

(** The loop [for ; pos > 0; pos--] over the bad requests at the end. *)
Fixpoint lastGood (cache : list (nat * reqData)) (pos : nat) : nat :=
  match pos with
  | O => O
  | S pos' =>
      match cache !! pos with
      | Some (_, r) =>
          if bool_decide (rdType r <> reqTypeFromBadReq) then pos else lastGood cache pos'
      | None => pos
      end
  end.

Section Cache.
Context `{GoSort} `{HeaderHash}.

(** The slice is sorted in place; the second component is what is returned. *)
Definition delBadReqAndSort (cache : list (nat * reqData)) (del : bool)
  : list (nat * reqData) * list (nat * reqData) :=
  match cache with
  | [] => (cache, [])
  | _ =>
      let cache := sort_slice less_at cache in
      if negb del then (cache, cache)
      else match cache with
           | (_, r) :: _ =>
               if bool_decide (rdType r = reqTypeFromBadReq) then (cache, [])
               else (cache, take (S (lastGood cache (length cache - 1))) cache)
           | [] => (cache, [])
           end
  end.

Definition rc_sort (c : reqCache) (del : bool) : reqCache :=
  rc_up_reqs c (delBadReqAndSort (objects (rcHeap c) (rcReqs c)) del).1.*1.

(** [None] when a request of the same sender, leader and turn is cached,
    otherwise the number of requests of the sender. *)
Fixpoint scanReqs (cache : list reqData) (req : blkReq) (fromSize : Z) : option Z :=
  match cache with
  | [] => Some fromSize
  | r :: rest =>
      if (rqFrom (rdReq r) =? rqFrom req) &&
         (hLeader (rqHeader (rdReq r)) =? hLeader (rqHeader req)) &&
         bool_decide (rqTurn (rdReq r) = rqTurn req)
      then None
      else scanReqs rest req
             (if rqFrom (rdReq r) =? rqFrom req then fromSize + 1 else fromSize)
  end.

(** The type of a request whose parent block is known. *)
Definition knownType (cv : ChainView) (req : blkReq) : res read_error reqType :=
  let* (a0Account, _) :=
    sr_GetA0AccountFromAnyAccount (cv_reader cv) (rqFrom req) (hParentHash (rqHeader req)) in
  Ok (if a0Account =? hLeader (rqHeader req) then reqTypeLeaderReq else reqTypeOtherReq).

Definition cache_AddReq (cv : ChainView) (c : reqCache) (msg : option HD_BlkConsensusReqMsg)
    (isDBRecovery : bool) : res req_error (nat * reqCache) :=
  match msg ≫= checkReq with
  | None => Err paramErr
  | Some req =>
      if rqFrom req =? zero_addr then Err paramErr
      else if turn_Cmp (rqTurn req) (rcCurTurn c) <? 0 then Err turnErr
      else
        let cache := (objects (rcHeap c) (rcReqs c)).*2 in
        let count := Z.of_nat (length (rcReqs c)) in
        match scanReqs cache req 0 with
        | None => Err reqExistErr
        | Some fromSize =>
            if fromSize >=? rcFromLimit c then Err fromManyErr
            else
              let* t := match cv_GetBlockByHash cv (hParentHash (rqHeader req)) with
                        | None => Ok reqTypeUnknownReq
                        | Some _ => res_wrap (fun _ => a0Err) (knownType cv req)
                        end in
              let id := length (rcHeap c) in
              let c' := rc_alloc c (newReqData req isDBRecovery t) in
              let kept := if count >=? rcCountLimit c
                          then take (Z.to_nat (rcCountLimit c - 1)) (rcReqs c)
                          else rcReqs c in
              Ok (id, rc_sort (rc_up_reqs c' (kept ++ [id])) false)
        end
  end.

(** A local request without a message or header panics. *)
Definition cache_AddLocalReq (c : reqCache) (localReq : option LocalReq)
  : res req_error (nat * reqCache) :=
  match localReq with
  | None => Err paramErr
  | Some localReq =>
      match lrReq localReq ≫= checkReq with
      | None => Panic
      | Some req =>
          let id := length (rcHeap c) in
          let c' := rc_alloc c (newReqDataByLocalReq localReq req) in
          Ok (id, rc_sort (rc_up_reqs c' (rcReqs c ++ [id])) false)
      end
  end.

Definition SetCurTurn (c : reqCache) (consensusTurn : ConsensusTurnInfo) : reqCache :=
  if turn_Cmp (rcCurTurn c) consensusTurn >=? 0 then c
  else
    mkCache (rcHeap c) consensusTurn
      (filter (fun x => turn_Cmp (rqTurn (rdReq x.2)) consensusTurn >= 0)
         (objects (rcHeap c) (rcReqs c))).*1
      (rcCountLimit c) (rcFromLimit c).

Fixpoint checkUnknownLoop (cv : ChainView) (ids : list nat) (heap : list reqData) (update : bool)
  : eff (list reqData * bool) :=
  match ids with
  | [] => Ok (heap, update)
  | id :: rest =>
      match heap !! id with
      | None => Panic
      | Some r =>
          if bool_decide (rdType r <> reqTypeUnknownReq) then checkUnknownLoop cv rest heap update
          else match cv_GetBlockByHash cv (hParentHash (rqHeader (rdReq r))) with
               | None => checkUnknownLoop cv rest heap update
               | Some _ =>
                   match knownType cv (rdReq r) with
                   | Panic => Panic
                   | Err _ =>
                       checkUnknownLoop cv rest
                         (<[id := rd_up_type r reqTypeFromBadReq]> heap) true
                   | Ok t => checkUnknownLoop cv rest (<[id := rd_up_type r t]> heap) true
                   end
               end
      end
  end.

(** What [delBadReqAndSort] returns is not assigned to the cache. *)
Definition CheckUnknownReq (cv : ChainView) (c : reqCache) : eff reqCache :=
  let* (heap, update) := checkUnknownLoop cv (rcReqs c) (rcHeap c) false in
  let c := rc_up_heap c heap in
  Ok (if update : bool then rc_sort c true else c).

Definition isLeaderReq (r : reqData) (leader : Z) (consensusTurn : ConsensusTurnInfo) : bool :=
  bool_decide (rdType r = reqTypeLeaderReq \/ rdType r = reqTypeLocalReq) &&
  (hLeader (rqHeader (rdReq r)) =? leader) && bool_decide (rqTurn (rdReq r) = consensusTurn).

Definition GetLeaderReq (c : reqCache) (leader : Z) (consensusTurn : ConsensusTurnInfo)
  : res req_error nat :=
  if leader =? zero_addr then Err paramErr
  else match List.find (fun x => isLeaderReq x.2 leader consensusTurn)
               (objects (rcHeap c) (rcReqs c)) with
       | Some (id, _) => Ok id
       | None => Err cantFindErr
       end.

Definition GetLeaderReqByHash (c : reqCache) (hash : Z) : res req_error nat :=
  if hash =? zero_hash then Err paramErr
  else match List.find (fun x => rdHash x.2 =? hash) (objects (rcHeap c) (rcReqs c)) with
       | Some (id, _) => Ok id
       | None => Err cantFindErr
       end.

Definition GetAllReq (c : reqCache) : list nat := rcReqs c.
End Cache.

(** ** The objects of a cache *)

Definition entries (c : reqCache) : list (nat * reqData) := objects (rcHeap c) (rcReqs c).

Definition at_heap (heap : list reqData) (x : nat * reqData) : Prop := heap !! x.1 = Some x.2.

Lemma objects_at heap ids : Forall (at_heap heap) (objects heap ids).
Proof.
  induction ids as [|id ids IH]; [constructor|]. cbn. unfold at_heap.
  destruct (heap !! id) eqn:E; cbn; [|done]. by constructor.
Qed.

Lemma objects_fst heap l : Forall (at_heap heap) l -> objects heap l.*1 = l.
Proof.
  induction 1 as [|[id r] l Hx Hl IH]; [done|]. cbn in *. unfold at_heap in Hx. cbn in Hx.
  rewrite Hx. cbn. f_equal. exact IH.
Qed.

Lemma objects_ids heap ids : Forall (fun id => is_Some (heap !! id)) ids -> (objects heap ids).*1 = ids.
Proof.
  induction 1 as [|id ids [r Hr] Hl IH]; [done|]. cbn. rewrite Hr. cbn. f_equal. exact IH.
Qed.

Lemma objects_app heap l k : objects heap (l ++ k) = objects heap l ++ objects heap k.
Proof. apply omap_app. Qed.

Lemma objects_grow heap h' ids :
  Forall (fun id => is_Some (heap !! id)) ids -> objects (heap ++ h') ids = objects heap ids.
Proof.
  induction 1 as [|id ids [r Hr] Hl IH]; [done|]. unfold objects in *. cbn.
  by rewrite (lookup_app_l_Some _ _ _ _ Hr), Hr; cbn; f_equal.
Qed.

Lemma objects_sublist heap l k : l `sublist_of` k -> objects heap l `sublist_of` objects heap k.
Proof.
  induction 1 as [|id l k Hs IH|id l k Hs IH]; cbn; [done|..]; destruct (heap !! id); cbn;
    by try constructor.
Qed.

(** ** The order of the cache *)

(** Requests are ordered by type, then the newest first. *)
Lemma less_iff a b :
  less a b = true <->
  reqType_num (rdType a) < reqType_num (rdType b) \/
  (reqType_num (rdType a) = reqType_num (rdType b) /\
   hTime (rqHeader (rdReq b)) < hTime (rqHeader (rdReq a))).
Proof.
  unfold less. case_bool_decide as E.
  - rewrite Z.gtb_ltb, Z.ltb_lt, E. lia.
  - assert (reqType_num (rdType a) <> reqType_num (rdType b))
      by (destruct (rdType a), (rdType b); simpl; congruence || lia).
    rewrite Z.ltb_lt. lia.
Qed.

Lemma less_swo : strict_weak_order less_at.
Proof.
  split; unfold less_at.
  - intros a b Hab. apply not_true_iff_false. rewrite less_iff in *. lia.
  - intros a b c. rewrite <-!not_true_iff_false, !less_iff. lia.
Qed.

Lemma omap_cons {A B} (f : A -> option B) x l :
  omap f (x :: l) = match f x with Some y => y :: omap f l | None => omap f l end.
Proof. done. Qed.

(** What identifies a request that came over the network. *)
Definition req_key (q : blkReq) : Z * Z * ConsensusTurnInfo :=
  (rqFrom q, hLeader (rqHeader q), rqTurn q).

Definition remote_key (x : nat * reqData) : option (Z * Z * ConsensusTurnInfo) :=
  if bool_decide (rdType x.2 = reqTypeLocalReq) then None else Some (req_key (rdReq x.2)).

Definition remotes (c : reqCache) : list (Z * Z * ConsensusTurnInfo) :=
  omap remote_key (entries c).

Definition of_sender (f : Z) (k : Z * Z * ConsensusTurnInfo) : Prop := k.1.1 = f.

#[export] Instance of_sender_dec f k : Decision (of_sender f k).
Proof. unfold of_sender. apply _. Defined.

(** The invariant of the cache: addresses of existing objects, each once, in
    order of type and time, and at most so many requests from the network in
    total, so many of a sender, and one of a sender, leader and turn. *)
Record cache_wf (c : reqCache) : Prop := {
  cw_valid : Forall (fun id => is_Some (rcHeap c !! id)) (rcReqs c);
  cw_nodup : NoDup (rcReqs c);
  cw_sorted : ordered_by less_at (entries c);
  cw_count : Z.of_nat (length (remotes c)) <= rcCountLimit c;
  cw_from : forall f, Z.of_nat (length (filter (of_sender f) (remotes c))) <= rcFromLimit c;
  cw_unique : NoDup (remotes c);
  cw_limits : 1 <= rcCountLimit c
}.

Lemma new_cache_wf : cache_wf newReqCache.
Proof.
  unfold newReqCache. split; unfold remotes, entries; cbn; try (constructor; fail); done.
Qed.

(** The remaining conditions only depend on which requests are cached. *)
Lemma remotes_bounds_sub (l k : list (Z * Z * ConsensusTurnInfo)) (n m : Z) :
  l ⊆+ k -> Z.of_nat (length k) <= n ->
  (forall f, Z.of_nat (length (filter (of_sender f) k)) <= m) -> NoDup k ->
  Z.of_nat (length l) <= n /\
  (forall f, Z.of_nat (length (filter (of_sender f) l)) <= m) /\ NoDup l.
Proof.
  intros Hsub Hn Hm Hnd. split; [|split].
  - apply submseteq_length in Hsub. lia.
  - intros f. specialize (Hm f). apply submseteq_Permutation in Hsub as [r Hr].
    rewrite Hr, filter_app, length_app in Hm. lia.
  - apply submseteq_Permutation in Hsub as [r Hr]. rewrite Hr in Hnd.
    by apply NoDup_app in Hnd as [? _].
Qed.

Section CacheProofs.
Context `{GoSort} `{HeaderHash}.

Lemma delBad_sorts cache del :
  (delBadReqAndSort cache del).1 ≡ₚ cache /\ ordered_by less_at (delBadReqAndSort cache del).1.
Proof.
  unfold delBadReqAndSort. destruct cache as [|x cache]; [split; [done|constructor]|].
  pose proof (sort_slice_perm _ less_at (x :: cache)) as Hp.
  pose proof (sort_slice_ordered _ less_at (x :: cache) less_swo) as Ho.
  destruct del; simpl; [|done]. destruct (sort_slice less_at (x :: cache)) as [|[]]; [done|].
  by case_bool_decide.
Qed.

(** Sorting keeps the requests and gives the order. *)
Lemma entries_sort c del :
  Forall (fun id => is_Some (rcHeap c !! id)) (rcReqs c) ->
  entries (rc_sort c del) ≡ₚ entries c /\ ordered_by less_at (entries (rc_sort c del)) /\
  rcReqs (rc_sort c del) ≡ₚ rcReqs c.
Proof.
  intros Hv. destruct (delBad_sorts (entries c) del) as [Hp Ho].
  assert (He : entries (rc_sort c del) = (delBadReqAndSort (entries c) del).1).
  { unfold entries at 1. cbn. apply objects_fst. rewrite Hp. apply objects_at. }
  rewrite He. split; [done|]. split; [done|]. cbn. fold (entries c). rewrite Hp.
  unfold entries. by rewrite (objects_ids _ _ Hv).
Qed.

Lemma sort_wf c del :
  Forall (fun id => is_Some (rcHeap c !! id)) (rcReqs c) -> NoDup (rcReqs c) ->
  Z.of_nat (length (remotes c)) <= rcCountLimit c ->
  (forall f, Z.of_nat (length (filter (of_sender f) (remotes c))) <= rcFromLimit c) ->
  NoDup (remotes c) -> 1 <= rcCountLimit c ->
  cache_wf (rc_sort c del).
Proof.
  intros Hv Hnd Hc Hf Hu Hl. destruct (entries_sort c del Hv) as (Hp & Ho & Hr).
  assert (Hrm : remotes (rc_sort c del) ≡ₚ remotes c) by (unfold remotes; by rewrite Hp).
  destruct (remotes_bounds_sub (remotes (rc_sort c del)) (remotes c)
              (rcCountLimit c) (rcFromLimit c)) as (? & ? & ?); [by rewrite Hrm|done..|].
  split; try done; cbn [rcHeap rc_sort rc_up_reqs]; by rewrite Hr.
Qed.

(** Appending a new object behind some of the cached ones. *)
Definition append_req (c : reqCache) (kept : list nat) (r : reqData) : reqCache :=
  rc_up_reqs (rc_alloc c r) (kept ++ [length (rcHeap c)]).

Lemma entries_append c kept r :
  Forall (fun id => is_Some (rcHeap c !! id)) kept ->
  entries (append_req c kept r) = objects (rcHeap c) kept ++ [(length (rcHeap c), r)].
Proof.
  intros Hk. unfold entries, append_req. cbn [rcHeap rcReqs rc_up_reqs rc_alloc rc_up_heap].
  rewrite objects_app, objects_grow by done. f_equal. unfold objects. cbn.
  by rewrite lookup_app_r, Nat.sub_diag by lia.
Qed.

Lemma append_ids c kept r :
  Forall (fun id => is_Some (rcHeap c !! id)) kept -> NoDup kept ->
  Forall (fun id => is_Some (rcHeap (append_req c kept r) !! id)) (rcReqs (append_req c kept r)) /\
  NoDup (rcReqs (append_req c kept r)).
Proof.
  intros Hk Hnd. cbn. split.
  - apply Forall_app. split.
    + eapply Forall_impl; [exact Hk|]. cbn. intros id [x Hx]. exists x.
      by apply lookup_app_l_Some.
    + repeat constructor. rewrite lookup_app_r, Nat.sub_diag by lia. by eexists.
  - apply NoDup_app. split; [done|]. split; [|apply NoDup_singleton].
    intros id Hid ->%list_elem_of_singleton. rewrite Forall_forall in Hk.
    apply Hk in Hid as [x Hx]. apply lookup_lt_Some in Hx. lia.
Qed.

Lemma scanReqs_spec cache req n k :
  scanReqs cache req n = Some k ->
  Forall (fun r => req_key (rdReq r) <> req_key req) cache /\
  k = n + Z.of_nat (length (filter (fun r => rqFrom (rdReq r) = rqFrom req) cache)).
Proof.
  revert n. induction cache as [|r cache IH]; intros n; cbn [scanReqs].
  { intros [= <-]. split; [constructor|]. cbn. lia. }
  destruct (_ && _ && _) eqn:Eb; [done|]. intros Hs. apply IH in Hs as [Hall ->]. split.
  - constructor; [|done]. unfold req_key. intros [= E1 E2 E3]. rewrite E1, E2, !Z.eqb_refl in Eb.
    by rewrite bool_decide_true in Eb.
  - rewrite filter_cons. destruct (Z.eqb_spec (rqFrom (rdReq r)) (rqFrom req)).
    + rewrite decide_True by done. cbn [length]. lia.
    + rewrite decide_False by done. lia.
Qed.

Lemma filter_sender_remotes f l :
  (length (filter (of_sender f) (omap remote_key l)) <=
   length (filter (fun r => rqFrom (rdReq r) = f) l.*2))%nat.
Proof.
  induction l as [|[id r] l IH]; [done|]. rewrite omap_cons, fmap_cons, filter_cons.
  unfold remote_key at 1. cbn [snd]. case_bool_decide.
  - destruct (decide (rqFrom (rdReq r) = f)); cbn [length]; lia.
  - rewrite filter_cons. destruct (decide (rqFrom (rdReq r) = f)) as [E|E].
    + rewrite decide_True by done. cbn [length]. lia.
    + rewrite decide_False by done. lia.
Qed.

Lemma AddReq_inv cv c msg db id c' :
  cache_AddReq cv c msg db = Ok (id, c') ->
  exists req t kept,
    (msg ≫= checkReq) = Some req /\ rqFrom req <> zero_addr /\
    turn_Cmp (rqTurn req) (rcCurTurn c) >= 0 /\ t <> reqTypeLocalReq /\
    Forall (fun r => req_key (rdReq r) <> req_key req) (entries c).*2 /\
    Z.of_nat (length (filter (fun r => rqFrom (rdReq r) = rqFrom req) (entries c).*2))
      < rcFromLimit c /\
    kept = (if Z.of_nat (length (rcReqs c)) >=? rcCountLimit c
            then take (Z.to_nat (rcCountLimit c - 1)) (rcReqs c) else rcReqs c) /\
    id = length (rcHeap c) /\
    c' = rc_sort (append_req c kept (newReqData req db t)) false.
Proof.
  unfold cache_AddReq. destruct (msg ≫= checkReq) as [req|]; [|done].
  destruct (Z.eqb_spec (rqFrom req) zero_addr); [done|].
  destruct (Z.ltb_spec (turn_Cmp (rqTurn req) (rcCurTurn c)) 0); [done|].
  fold (entries c). destruct (scanReqs _ _ _) as [k|] eqn:Es; [|done].
  rewrite Z.geb_leb. destruct (Z.leb_spec (rcFromLimit c) k); [done|].
  intros (t & Ht & [= <- <-])%res_bind_Ok.
  destruct (scanReqs_spec _ _ _ _ Es) as [Hkey ->].
  do 3 eexists. split; [done|]. split; [done|]. split; [lia|].
  split; [|split; [done|split; [lia|done]]].
  destruct (cv_GetBlockByHash _ _) as [v|]; [|by injection Ht as <-].
  unfold knownType in Ht. destruct (sr_GetA0AccountFromAnyAccount _ _ _) as [[a0 a1]| |]; try done.
  cbn in Ht. injection Ht as <-. by destruct (_ =? _).
Qed.

Lemma omap_sublist {A B} (f : A -> option B) l k :
  l `sublist_of` k -> omap f l `sublist_of` omap f k.
Proof.
  induction 1 as [|x l k _ IH|x l k _ IH]; [done|..]; rewrite !omap_cons; destruct (f x);
    by try constructor.
Qed.

Lemma length_omap_le {A B} (f : A -> option B) l : (length (omap f l) <= length l)%nat.
Proof. induction l as [|x l IH]; [done|]. rewrite omap_cons. destruct (f x); cbn [length]; lia. Qed.

Lemma append_remote_wf c kept r :
  cache_wf c -> kept `sublist_of` rcReqs c -> Z.of_nat (length kept) <= rcCountLimit c - 1 ->
  rdType r <> reqTypeLocalReq ->
  Forall (fun x => req_key (rdReq x) <> req_key (rdReq r)) (entries c).*2 ->
  Z.of_nat (length (filter (fun x => rqFrom (rdReq x) = rqFrom (rdReq r)) (entries c).*2))
    < rcFromLimit c ->
  cache_wf (rc_sort (append_req c kept r) false).
Proof.
  intros Hwf Hsub Hlen Hlt Hkey Hfrom.
  pose proof (Forall_sublist _ _ _ Hsub (cw_valid _ Hwf)) as Hv.
  pose proof (sublist_NoDup _ _ (cw_nodup _ Hwf) Hsub) as Hnd.
  destruct (append_ids c kept r Hv Hnd) as [Hv' Hnd'].
  assert (Hr : remotes (append_req c kept r) =
               omap remote_key (objects (rcHeap c) kept) ++ [req_key (rdReq r)]).
  { unfold remotes. rewrite (entries_append c kept r Hv), omap_app, omap_cons.
    unfold remote_key at 2. cbn [snd]. by rewrite bool_decide_false by done. }
  pose proof (objects_sublist (rcHeap c) _ _ Hsub) as Hos. fold (entries c) in Hos.
  assert (Hrs : omap remote_key (objects (rcHeap c) kept) ⊆+ remotes c)
    by (by apply sublist_submseteq, omap_sublist).
  destruct (remotes_bounds_sub _ _ (rcCountLimit c) (rcFromLimit c) Hrs) as (_ & Hf & Hu);
    [apply Hwf..|].
  apply sort_wf; [done|done|..|apply Hwf]; rewrite Hr.
  - rewrite length_app. cbn [length rcCountLimit append_req rc_up_reqs rc_alloc rc_up_heap].
    assert (length (omap remote_key (objects (rcHeap c) kept)) <= length kept)%nat; [|lia].
    pose proof (f_equal length (objects_ids _ _ Hv)) as Hl. rewrite length_fmap in Hl.
    rewrite <-Hl. apply length_omap_le.
  - intros f. rewrite filter_app, length_app, filter_cons, filter_nil.
    cbn [rcFromLimit append_req rc_up_reqs rc_alloc rc_up_heap].
    destruct (decide (of_sender f _)) as [E|E]; cbn [length]; [|specialize (Hf f); lia].
    unfold of_sender in E. cbn in E. subst f.
    pose proof (filter_sender_remotes (rqFrom (rdReq r)) (entries c)).
    apply submseteq_Permutation in Hrs as [x Hx]. unfold remotes in Hx. rewrite Hx in *.
    rewrite filter_app, length_app in *. lia.
  - apply NoDup_app. split; [done|]. split; [|apply NoDup_singleton].
    intros k Hk ->%list_elem_of_singleton.
    apply (elem_of_submseteq _ _ _ Hk) in Hrs. unfold remotes in Hrs.
    apply list_elem_of_omap in Hrs as ([i x] & Hin & Hx). unfold remote_key in Hx. cbn in Hx.
    case_bool_decide; [done|]. rewrite Forall_forall in Hkey.
    apply (Hkey x); [|congruence]. apply list_elem_of_fmap. by exists (i, x).
Qed.

Lemma append_local_wf c r :
  cache_wf c -> rdType r = reqTypeLocalReq -> cache_wf (rc_sort (append_req c (rcReqs c) r) false).
Proof.
  intros Hwf Hl. destruct (append_ids c _ r (cw_valid _ Hwf) (cw_nodup _ Hwf)) as [Hv Hnd].
  assert (Hr : remotes (append_req c (rcReqs c) r) = remotes c).
  { unfold remotes. rewrite (entries_append c _ r (cw_valid _ Hwf)), omap_app, omap_cons.
    unfold remote_key at 2. cbn [snd]. rewrite bool_decide_true by done. by rewrite app_nil_r. }
  apply sort_wf; rewrite ?Hr; try done; apply Hwf.
Qed.

Lemma AddReq_wf cv c msg db id c' :
  cache_wf c -> cache_AddReq cv c msg db = Ok (id, c') ->
  cache_wf c' /\ Z.of_nat (length (rcReqs c')) <= rcCountLimit c.
Proof.
  intros Hwf (req & t & kept & _ & _ & _ & Ht & Hkey & Hfrom & Hkept & -> & ->)%AddReq_inv.
  assert (Hsub : kept `sublist_of` rcReqs c).
  { subst kept. destruct (_ >=? _); [apply sublist_take|done]. }
  assert (Hlen : Z.of_nat (length kept) <= rcCountLimit c - 1).
  { subst kept. rewrite Z.geb_leb. pose proof (cw_limits _ Hwf).
    destruct (Z.leb_spec (rcCountLimit c) (Z.of_nat (length (rcReqs c)))); [|lia].
    rewrite length_take. lia. }
  pose proof (Forall_sublist _ _ _ Hsub (cw_valid _ Hwf)) as Hv.
  pose proof (sublist_NoDup _ _ (cw_nodup _ Hwf) Hsub) as Hnd.
  split; [apply append_remote_wf; try done; by destruct db|].
  destruct (append_ids c kept (newReqData req db t) Hv Hnd) as [Hv' _].
  destruct (entries_sort _ false Hv') as (_ & _ & ->). cbn. rewrite length_app. cbn. lia.
Qed.

Lemma AddLocalReq_wf c localReq id c' :
  cache_wf c -> cache_AddLocalReq c localReq = Ok (id, c') -> cache_wf c'.
Proof.
  intros Hwf. unfold cache_AddLocalReq. destruct localReq as [l|]; [|done].
  destruct (lrReq l ≫= checkReq) as [req|]; [|done]. intros [= <- <-].
  by apply (append_local_wf c (newReqDataByLocalReq l req)).
Qed.

Lemma entries_SetCurTurn c turn :
  turn_Cmp (rcCurTurn c) turn < 0 ->
  entries (SetCurTurn c turn) = filter (fun x => turn_Cmp (rqTurn (rdReq x.2)) turn >= 0) (entries c).
Proof.
  intros Hlt. unfold SetCurTurn. rewrite Z.geb_leb.
  destruct (Z.leb_spec 0 (turn_Cmp (rcCurTurn c) turn)); [lia|].
  unfold entries at 1. cbn [rcHeap rcReqs]. apply objects_fst.
  eapply Forall_sublist; [apply sublist_filter|]. apply objects_at.
Qed.

Lemma SetCurTurn_wf c turn : cache_wf c -> cache_wf (SetCurTurn c turn).
Proof.
  intros Hwf. destruct (Z.ltb_spec (turn_Cmp (rcCurTurn c) turn) 0) as [Hlt|Hge].
  2:{ unfold SetCurTurn. rewrite Z.geb_leb. by destruct (Z.leb_spec 0 (turn_Cmp (rcCurTurn c) turn)); [|lia]. }
  pose proof (entries_SetCurTurn c turn Hlt) as He.
  pose proof (sublist_filter (fun x => turn_Cmp (rqTurn (rdReq x.2)) turn >= 0) (entries c)) as Hs.
  assert (Hr : remotes (SetCurTurn c turn) ⊆+ remotes c).
  { unfold remotes. rewrite He. by apply sublist_submseteq, omap_sublist. }
  unfold SetCurTurn in *. rewrite Z.geb_leb in *.
  destruct (Z.leb_spec 0 (turn_Cmp (rcCurTurn c) turn)); [lia|].
  destruct (remotes_bounds_sub _ _ (rcCountLimit c) (rcFromLimit c) Hr) as (? & ? & ?); [apply Hwf..|].
  apply (fmap_sublist fst) in Hs as Hi. unfold entries in Hi at 2.
  rewrite (objects_ids _ _ (cw_valid _ Hwf)) in Hi.
  split; try done; cbn [rcHeap rcReqs].
  - eapply Forall_sublist; [exact Hi|apply Hwf].
  - eapply sublist_NoDup; [apply (cw_nodup _ Hwf)|exact Hi].
  - unfold ordered_by. rewrite He. eapply StronglySorted_sublist; [exact Hs|apply Hwf].
  - apply Hwf.
Qed.

(** The types of some requests are found out; no other field changes. *)
Definition retyped (r r' : reqData) : Prop :=
  exists t, r' = rd_up_type r t /\ (t = reqTypeLocalReq <-> rdType r = reqTypeLocalReq).

#[export] Instance retyped_refl : Reflexive retyped.
Proof. intros r. exists (rdType r). split; [by destruct r|done]. Qed.

#[export] Instance retyped_trans : Transitive retyped.
Proof. intros r1 r2 r3 (t & -> & Ht) (u & -> & Hu). exists u. split; [done|]. cbn in Hu. tauto. Qed.

Lemma checkUnknownLoop_spec cv ids heap u heap' u' :
  checkUnknownLoop cv ids heap u = Ok (heap', u') ->
  Forall2 retyped heap heap' /\ (u' = false -> heap' = heap /\ u = false).
Proof.
  revert heap u. induction ids as [|id ids IH]; intros heap u; cbn [checkUnknownLoop].
  { intros [= <- <-]. split; [|done]. reflexivity. }
  destruct (heap !! id) as [r|] eqn:Eh; [|done]. case_bool_decide as Eu; [apply IH|].
  destruct (cv_GetBlockByHash _ _); [|apply IH].
  assert (Hstep : forall t, t <> reqTypeLocalReq ->
    checkUnknownLoop cv ids (<[id := rd_up_type r t]> heap) true = Ok (heap', u') ->
    Forall2 retyped heap heap' /\ (u' = false -> heap' = heap /\ u = false)).
  { intros t Ht [HF Hu]%IH. split; [|intros [_ [=]]%Hu].
    etrans; [|exact HF].
    rewrite <-(list_insert_id heap id r) at 1 by done.
    apply Forall2_insert; [|by exists t; split; [done|rewrite Eu; split; congruence]].
    reflexivity. }
  unfold knownType. destruct (sr_GetA0AccountFromAnyAccount _ _ _) as [[]| |]; cbn [res_bind];
    [|by apply Hstep|done]. apply Hstep. by destruct (_ =? _).
Qed.

Lemma retyped_remotes heap heap' ids :
  Forall2 retyped heap heap' -> omap remote_key (objects heap' ids) = omap remote_key (objects heap ids).
Proof.
  intros HF. induction ids as [|id ids IH]; [done|]. unfold objects in *. rewrite !omap_cons.
  pose proof (Forall2_lookup_lr retyped heap heap' id) as Hl.
  destruct (heap !! id) as [r|] eqn:E.
  - destruct (Forall2_lookup_l _ _ _ _ _ HF E) as (r' & E' & t & -> & Ht). rewrite E'. cbn [fmap option_fmap option_map].
    rewrite !omap_cons, IH. unfold remote_key. cbn [snd rd_up_type rdType rdReq].
    by rewrite (bool_decide_ext _ _ Ht).
  - apply lookup_ge_None in E. rewrite (Forall2_length _ _ _ HF) in E.
    apply lookup_ge_None in E as ->. exact IH.
Qed.

Lemma CheckUnknownReq_wf cv c c' :
  cache_wf c -> CheckUnknownReq cv c = Ok c' ->
  cache_wf c' /\ rcReqs c' ≡ₚ rcReqs c /\ Forall2 retyped (rcHeap c) (rcHeap c').
Proof.
  intros Hwf. unfold CheckUnknownReq. intros ([heap u] & Hl & [= <-])%res_bind_Ok.
  apply checkUnknownLoop_spec in Hl as [HF Hu]. destruct u.
  - assert (Hv : Forall (fun id => is_Some (rcHeap (rc_up_heap c heap) !! id)) (rcReqs (rc_up_heap c heap))).
    { eapply Forall_impl; [apply (cw_valid _ Hwf)|]. cbn. intros id [r Hr].
      destruct (Forall2_lookup_l _ _ _ _ _ HF Hr) as (r' & -> & _). by eexists. }
    destruct (entries_sort (rc_up_heap c heap) true Hv) as (_ & _ & Hp).
    split; [|done].
    assert (Hr : remotes (rc_up_heap c heap) = remotes c) by (by apply retyped_remotes).
    apply sort_wf; rewrite ?Hr; try done; apply Hwf.
  - destruct (Hu eq_refl) as [-> _]. replace (rc_up_heap c (rcHeap c)) with c by (by destruct c).
    split; [done|]. split; [done|]. reflexivity.
Qed.
End CacheProofs.

(** ** Assignments to request objects *)

(** The fields the cache depends on, and the parent. *)
Definition same_req (r r' : reqData) : Prop :=
  rdHash r' = rdHash r /\ rdType r' = rdType r /\ req_key (rdReq r') = req_key (rdReq r) /\
  hTime (rqHeader (rdReq r')) = hTime (rqHeader (rdReq r)) /\
  hParentHash (rqHeader (rdReq r')) = hParentHash (rqHeader (rdReq r)).

#[export] Instance same_req_refl : Reflexive same_req.
Proof. by intros r. Qed.

#[export] Instance same_req_trans : Transitive same_req.
Proof. intros r1 r2 r3. unfold same_req. intuition congruence. Qed.

Lemma objects_same heap heap' ids :
  Forall2 same_req heap heap' ->
  Forall2 (fun x y => x.1 = y.1 /\ same_req x.2 y.2) (objects heap ids) (objects heap' ids).
Proof.
  intros HF. induction ids as [|id ids IH]; [constructor|]. unfold objects in *. rewrite !omap_cons.
  destruct (heap !! id) as [r|] eqn:E.
  - destruct (Forall2_lookup_l _ _ _ _ _ HF E) as (r' & -> & Hs). by constructor.
  - apply lookup_ge_None in E. rewrite (Forall2_length _ _ _ HF) in E.
    apply lookup_ge_None in E as ->. exact IH.
Qed.

Lemma same_less a b a' b' : same_req a a' -> same_req b b' -> less a' b' = less a b.
Proof. intros (_ & Ha & _ & Hat & _) (_ & Hb & _ & Hbt & _). unfold less. by rewrite Ha, Hb, Hat, Hbt. Qed.

Lemma ordered_same l l' :
  Forall2 (fun x y : nat * reqData => x.1 = y.1 /\ same_req x.2 y.2) l l' ->
  ordered_by less_at l -> ordered_by less_at l'.
Proof.
  induction 1 as [|x y l l' [_ Hxy] HF IH]; intros Ho; [constructor|].
  apply StronglySorted_inv in Ho as [Ho Hx]. constructor; [by apply IH|].
  apply Forall_forall. intros z Hz. apply list_elem_of_lookup in Hz as [i Hi].
  destruct (Forall2_lookup_r _ _ _ _ _ HF Hi) as (w & Hw & _ & Hwz).
  rewrite Forall_lookup in Hx. specialize (Hx _ _ Hw). unfold less_at in *.
  by rewrite (same_less _ _ _ _ Hwz Hxy).
Qed.

Lemma cache_same_wf c heap' :
  Forall2 same_req (rcHeap c) heap' -> cache_wf c -> cache_wf (rc_up_heap c heap').
Proof.
  intros HF Hwf. pose proof (objects_same _ _ (rcReqs c) HF) as HE.
  assert (Hr : remotes (rc_up_heap c heap') = remotes c).
  { unfold remotes, entries. cbn [rcHeap rcReqs rc_up_heap]. clear -HE.
    induction HE as [|x y l l' [_ (_ & Ht & Hk & _)] HF IH]; [done|]. rewrite !omap_cons, IH.
    replace (remote_key y) with (remote_key x); [done|]. unfold remote_key. by rewrite Ht, Hk. }
  split; try (rewrite Hr); try apply Hwf.
  - eapply Forall_impl; [apply (cw_valid _ Hwf)|]. cbn. intros id [r Hid].
    destruct (Forall2_lookup_l _ _ _ _ _ HF Hid) as (r' & -> & _). by eexists.
  - eapply ordered_same; [exact HE|apply Hwf].
Qed.

Lemma update_same heap id f :
  (forall r, heap !! id = Some r -> same_req r (f r)) -> Forall2 same_req heap (alter f id heap).
Proof.
  revert id. induction heap as [|x heap IH]; intros [|id] Hf; [constructor|constructor|..].
  - constructor; [by apply Hf|reflexivity].
  - constructor; [reflexivity|by apply IH].
Qed.

Lemma update_wf c id f :
  (forall r, rcHeap c !! id = Some r -> same_req r (f r)) -> cache_wf c -> cache_wf (rc_update c id f).
Proof. intros Hf. apply cache_same_wf, update_same, Hf. Qed.

(** ** Dropping bad requests *)

Definition good (x : nat * reqData) : Prop := rdType x.2 <> reqTypeFromBadReq.

Lemma ordered_bad_last l :
  ordered_by less_at l ->
  exists g b, l = g ++ b /\ Forall good g /\ Forall (fun x => ~ good x) b.
Proof.
  induction 1 as [|x l Hs (g & b & -> & Hg & Hb) Hx]; [by exists [], []|].
  destruct (decide (rdType x.2 = reqTypeFromBadReq)) as [E|E].
  - exists [], (x :: g ++ b). split; [done|]. split; [done|].
    constructor; [by intros Hn; apply Hn|]. apply Forall_app. split; [|done].
    apply Forall_app in Hx as [Hx _]. rewrite Forall_forall in *. intros y Hy.
    specialize (Hx y Hy). apply not_true_iff_false in Hx. unfold less_at in Hx.
    rewrite less_iff, E in Hx. unfold good. intros Hn. apply Hx. left.
    destruct (rdType y.2); simpl; congruence || lia.
  - exists (x :: g), b. split; [done|]. split; [by constructor|done].
Qed.

Lemma lastGood_split g b x k :
  good x -> Forall (fun x => ~ good x) b -> (k <= length b)%nat ->
  lastGood ((g ++ [x]) ++ b) (length g + k) = length g.
Proof.
  intros Hx Hb. induction k as [|k IH]; intros Hk.
  - rewrite Nat.add_0_r. destruct (length g) as [|n] eqn:En; [done|]. cbn [lastGood].
    rewrite <-En, <-app_assoc, lookup_app_r, Nat.sub_diag by lia. cbn.
    destruct x as [i r]. by rewrite bool_decide_true.
  - replace (length g + S k)%nat with (S (length g + k)) by lia. cbn [lastGood].
    rewrite lookup_app_r by (rewrite length_app; cbn; lia).
    rewrite length_app. cbn [length]. replace (S (length g + k) - (length g + 1))%nat with k by lia.
    destruct (lookup_lt_is_Some_2 b k) as [[i r] Hr]; [lia|]. rewrite Hr.
    rewrite Forall_lookup in Hb. apply Hb in Hr. unfold good in Hr. cbn in Hr.
    rewrite bool_decide_false by done. apply IH. lia.
Qed.

Lemma filter_all {A} (P : A -> Prop) `{forall x, Decision (P x)} l : Forall P l -> filter P l = l.
Proof. induction 1 as [|x l Hx Hl IH]; [done|]. by rewrite filter_cons, decide_True, IH. Qed.

Lemma filter_none {A} (P : A -> Prop) `{forall x, Decision (P x)} l :
  Forall (fun x => ~ P x) l -> filter P l = [].
Proof. induction 1 as [|x l Hx Hl IH]; [done|]. by rewrite filter_cons, decide_False. Qed.

#[export] Instance good_dec x : Decision (good x).
Proof. unfold good. apply _. Defined.

(** The requests of unknown senders are cleaned up in the returned slice
    only: what [delBadReqAndSort] returns is its argument without the bad
    requests, but [CheckUnknownReq] drops that result, so after it the cache
    holds exactly the requests it held before, the bad ones included. *)
Theorem bad_requests_stay `{GoSort} `{HeaderHash} cv c c' :
  cache_wf c -> CheckUnknownReq cv c = Ok c' ->
  (forall cache, (delBadReqAndSort cache true).2 =
                 filter good (delBadReqAndSort cache true).1) /\
  rcReqs c' ≡ₚ rcReqs c.
Proof.
  intros Hwf Hc. split; [|by eapply CheckUnknownReq_wf].
  intros cache. destruct (delBad_sorts cache true) as [_ Ho].
  apply ordered_bad_last in Ho as (g & b & Hl & Hg & Hb). revert Hl.
  unfold delBadReqAndSort. destruct cache as [|x cache]; [done|]. cbn [negb].
  destruct (sort_slice less_at (x :: cache)) as [|[i r] l]; [done|].
  case_bool_decide as E; cbn [fst snd]; intros Hl; rewrite Hl, filter_app, (filter_none good b Hb).
  - destruct g as [|y g]; [done|]. injection Hl as <- _. apply Forall_cons in Hg as [Hr _]. done.
  - rewrite (filter_all good g Hg), app_nil_r.
    destruct g as [|y g _] using rev_ind.
    { destruct b; [done|]. injection Hl as <- _. apply Forall_cons in Hb as [Hr _]. by destruct Hr. }
    apply Forall_app in Hg as [_ [Hy _]%Forall_cons].
    replace (length ((g ++ [y]) ++ b) - 1)%nat with (length g + length b)%nat
      by (rewrite !length_app; cbn; lia).
    rewrite (lastGood_split g b y (length b)) by done.
    rewrite take_app_le by (rewrite length_app; cbn; lia).
    apply take_ge. rewrite length_app. cbn. lia.
Qed.

(** The request cache is bounded against flooding: every operation keeps
    the cache in order and keeps at most [rcCountLimit] requests from the
    network, at most [rcFromLimit] of a sender and one of a sender, leader and
    turn; accepting a request from the network leaves at most [rcCountLimit]
    requests of any kind, and never evicts one of the best
    [rcCountLimit - 1]. *)
Theorem request_cache_bounded `{GoSort} `{HeaderHash} cv c :
  cache_wf c ->
  (forall msg db id c', cache_AddReq cv c msg db = Ok (id, c') ->
     cache_wf c' /\ Z.of_nat (length (rcReqs c')) <= rcCountLimit c /\ id ∈ rcReqs c' /\
     forall n old, Z.of_nat n < rcCountLimit c - 1 -> rcReqs c !! n = Some old -> old ∈ rcReqs c') /\
  (forall localReq id c', cache_AddLocalReq c localReq = Ok (id, c') -> cache_wf c') /\
  (forall turn, cache_wf (SetCurTurn c turn)) /\
  (forall c', CheckUnknownReq cv c = Ok c' -> cache_wf c').
Proof.
  intros Hwf. split; [|split; [|split]].
  - intros msg db id c' Ha. destruct (AddReq_wf _ _ _ _ _ _ Hwf Ha) as [Hwf' Hlen].
    split; [done|]. split; [done|].
    apply AddReq_inv in Ha as (req & t & kept & _ & _ & _ & _ & _ & _ & Hk & -> & ->).
    assert (Hsub : kept `sublist_of` rcReqs c).
    { subst kept. destruct (_ >=? _); [apply sublist_take|done]. }
    destruct (append_ids c kept (newReqData req db t)) as [Hv _].
    { eapply Forall_sublist; [exact Hsub|apply Hwf]. }
    { eapply sublist_NoDup; [apply (cw_nodup _ Hwf)|exact Hsub]. }
    destruct (entries_sort _ false Hv) as (_ & _ & Hp). setoid_rewrite Hp. cbn [rcReqs append_req rc_up_reqs].
    split; [set_solver|]. intros n old Hn Ho. apply elem_of_app. left. subst kept.
    destruct (_ >=? _); [|by eapply list_elem_of_lookup_2].
    apply (list_elem_of_lookup_2 _ n). by rewrite lookup_take_lt by lia.
  - intros * Ha. by eapply AddLocalReq_wf.
  - intros turn. by apply SetCurTurn_wf.
  - intros c' Hc. by eapply CheckUnknownReq_wf.
Qed.

Lemma find_first {A} (f : A -> bool) (R : A -> A -> Prop) l :
  StronglySorted R l -> Reflexive R ->
  match List.find f l with
  | Some x => x ∈ l /\ f x = true /\ forall y, y ∈ l -> f y = true -> R x y
  | None => forall y, y ∈ l -> f y = false
  end.
Proof.
  intros Hs Hr. induction Hs as [|x l Hs IH Hx]; cbn; [set_solver|].
  destruct (f x) eqn:Ef.
  - split; [set_solver|]. split; [done|]. intros y Hy _. rewrite Forall_forall in Hx.
    apply elem_of_cons in Hy as [->|Hy]; [done|auto].
  - destruct (List.find f l) as [z|].
    + destruct IH as (Hz & Hfz & Hmin). split; [set_solver|]. split; [done|].
      intros y [->|Hy]%elem_of_cons Hfy; [congruence|auto].
    + intros y [->|Hy]%elem_of_cons; [done|auto].
Qed.

(** The process is given the best request there is: for a leader that is
    not empty, [GetLeaderReq] fails only when no request of the leader and turn
    from the leader or the node itself is cached, and otherwise returns one
    that no other comes before: the node's own if it has one, and the newest. *)
Theorem leader_request_best c leader turn :
  cache_wf c -> leader <> zero_addr ->
  match GetLeaderReq c leader turn with
  | Ok id =>
      exists r, (id, r) ∈ entries c /\ isLeaderReq r leader turn = true /\
        forall id' r', (id', r') ∈ entries c -> isLeaderReq r' leader turn = true -> less r' r = false
  | Err e => e = cantFindErr /\
      forall id' r', (id', r') ∈ entries c -> isLeaderReq r' leader turn = false
  | Panic => False
  end.
Proof.
  intros Hwf Hl. unfold GetLeaderReq. destruct (Z.eqb_spec leader zero_addr); [done|].
  pose proof (find_first (fun x : nat * reqData => isLeaderReq x.2 leader turn) _ _ (cw_sorted _ Hwf)) as Hf.
  unfold entries in *. destruct (List.find _ _) as [[id r]|].
  - destruct Hf as (Hin & Hr & Hmin).
    { intros x. unfold less_at. apply not_true_iff_false. rewrite less_iff. lia. }
    exists r. split; [done|]. split; [done|]. intros id' r' Hin'. by apply (Hmin (id', r')).
  - split; [done|]. intros id' r' Hin. apply (fun H => Hf H (id', r')); [|done].
    intros x. unfold less_at. apply not_true_iff_false. rewrite less_iff. lia.
Qed.

(** ** A cache

    A request whose parent block is not known yet; later the block is known
    and the sender turns out to be nobody's account. *)

#[local] Instance w_cache_hash : HeaderHash :=
  {| header_Hash := hTime; HashNoSigns := hTime; HashNoSignsAndNonce := hTime |}.

Definition w_cache_view (known : bool) : ChainView :=
  mkChainView (fun _ => if known then Some VersionAlpha else None)
    (mkReader 0 (fun _ => Err ErrRead) (fun _ => Err ErrRead) (fun _ => Err ErrRead)
       (fun _ => Err ErrRead) (fun _ => Err ErrRead)
       (fun a _ => if a =? 6 then Ok (6, 6) else Err ErrRead))
    (fun _ _ => Err ErrRead) (fun _ => true) (fun _ _ _ => true) (fun _ _ _ => None).

Definition w_cache_turn : ConsensusTurnInfo := {| PreConsensusTurn := 0; UsedReelectTurn := 0 |}.

Definition w_cache_msg (time from : Z) : HD_BlkConsensusReqMsg :=
  mkBlkReq (Some (mkHeader 1 6 0 100 time [] VersionAlpha [])) w_cache_turn [] [] from.

Definition w_cache (known : bool) (from : Z) : reqCache :=
  match cache_AddReq (w_cache_view known) newReqCache (Some (w_cache_msg 10 from)) false with
  | Ok (_, c) => c
  | _ => newReqCache
  end.

Lemma w_cache_wf known from : cache_wf (w_cache known from).
Proof.
  unfold w_cache. destruct (cache_AddReq _ _ _ _) as [[id c]| |] eqn:E; try apply new_cache_wf.
  by apply (AddReq_wf _ _ _ _ _ _ new_cache_wf E).
Qed.

Definition w_cache_checked : reqCache :=
  match CheckUnknownReq (w_cache_view true) (w_cache false 7) with Ok c => c | _ => newReqCache end.

Lemma bad_requests_stay_witness :
  (forall cache, (delBadReqAndSort cache true).2 = filter good (delBadReqAndSort cache true).1) /\
  rcReqs w_cache_checked ≡ₚ rcReqs (w_cache false 7).
Proof.
  exact (bad_requests_stay (w_cache_view true) (w_cache false 7) w_cache_checked
           (w_cache_wf false 7) eq_refl).
Defined.

Lemma request_cache_bounded_witness :
  cache_wf (w_cache true 6) /\
  forall msg db id c', cache_AddReq (w_cache_view true) (w_cache true 6) msg db = Ok (id, c') ->
    cache_wf c' /\ Z.of_nat (length (rcReqs c')) <= 5 /\ id ∈ rcReqs c' /\
    forall n old, Z.of_nat n < 4 -> rcReqs (w_cache true 6) !! n = Some old -> old ∈ rcReqs c'.
Proof.
  split; [exact (w_cache_wf true 6)|].
  exact (proj1 (request_cache_bounded (w_cache_view true) (w_cache true 6) (w_cache_wf true 6))).
Defined.

Lemma leader_request_best_witness :
  GetLeaderReq (w_cache true 6) 6 w_cache_turn = Ok 0%nat /\
  exists r, (0%nat, r) ∈ entries (w_cache true 6) /\ isLeaderReq r 6 w_cache_turn = true /\
    forall id' r', (id', r') ∈ entries (w_cache true 6) -> isLeaderReq r' 6 w_cache_turn = true ->
      less r' r = false.
Proof.
  split; [reflexivity|].
  exact (leader_request_best (w_cache true 6) 6 w_cache_turn (w_cache_wf true 6) ltac:(discriminate)).
Defined.
