(* ===== verification/VotePool.v ===== *)
(** * The pool of early votes ([blkverify/unverified_vote_pool.go])

    A vote can arrive before the request it is for.  Until then its signature
    cannot be checked, so the votes are kept per sender with two limits: the
    age of a vote and the number of votes of a sender.  The file proves that
    the limits hold after every vote added, that a sender never has two votes
    for a hash, and that the index of ages can remove a vote too early. *)

From S2P Require Import GoLang Prelude.

Record voteInfo := mkVoteInfo {
  viTime : Z;
  viSign : Z;
  viSignHash : Z;
  viFrom : Z
}.

#[export] Instance voteInfo_eq_dec : EqDecision voteInfo.
Proof. solve_decision. Defined.

Abbreviation voteMapT := (gmap Z (gmap Z voteInfo)).

Record unverifiedVotePool := mkPool {
  voteMap : voteMapT;
  timeIndex : list voteInfo;
  timeoutInterval : Z;
  AccountVoteCountLimit : Z
}.

(** [PoolFuel] is not an error of the code: it marks a loop that has used up
    the rounds the model gives it ([pool_limits]). *)
Inductive pool_error := ErrParamIsNil | ErrVoteExist | PoolFuel.

(** [manparams.VotePoolTimeout] and [manparams.VotePoolCountLimit] *)
Definition VotePoolTimeout : Z := 55 * 1000.
Definition VotePoolCountLimit : Z := 5.

Definition newUnverifiedVotePool : unverifiedVotePool :=
  mkPool ∅ [] VotePoolTimeout VotePoolCountLimit.

Definition up_voteMap (vp : unverifiedVotePool) (m : voteMapT) : unverifiedVotePool :=
  mkPool m (timeIndex vp) (timeoutInterval vp) (AccountVoteCountLimit vp).
Definition up_timeIndex (vp : unverifiedVotePool) (l : list voteInfo) : unverifiedVotePool :=
  mkPool (voteMap vp) l (timeoutInterval vp) (AccountVoteCountLimit vp).

Definition addVoteToMap (vp : unverifiedVotePool) (vote : voteInfo)
  : res pool_error unverifiedVotePool :=
  let accountVoteMap := default ∅ (voteMap vp !! viFrom vote) in
  match accountVoteMap !! viSignHash vote with
  | Some _ => Err ErrVoteExist
  | None =>
      Ok (up_timeIndex
            (up_voteMap vp (<[viFrom vote := <[viSignHash vote := vote]> accountVoteMap]> (voteMap vp)))
            (timeIndex vp ++ [vote]))
  end.

(** [delete(accountVoteMap, vote.signHash)], and the account with it when its
    last vote goes. *)
Definition delTimeoutVote (m : voteMapT) (vote : voteInfo) : voteMapT :=
  match m !! viFrom vote with
  | None => m
  | Some accountVoteMap =>
      let m' := delete (viSignHash vote) accountVoteMap in
      if bool_decide (size accountVoteMap <> size m') && bool_decide (size m' = 0%nat)
      then delete (viFrom vote) m
      else <[viFrom vote := m']> m
  end.

(** The loop over the front of the index. *)
Fixpoint timeoutLoop (deadLine : Z) (m : voteMapT) (index : list voteInfo)
  : voteMapT * list voteInfo :=
  match index with
  | [] => (m, [])
  | vote :: rest =>
      if viTime vote >=? deadLine then (m, index)
      else timeoutLoop deadLine (delTimeoutVote m vote) rest
  end.

Definition fixPoolByTimeout (vp : unverifiedVotePool) (curTime : Z) : unverifiedVotePool :=
  let deadLine := i64 (curTime - timeoutInterval vp) in
  let (m, index) := timeoutLoop deadLine (voteMap vp) (timeIndex vp) in
  up_timeIndex (up_voteMap vp m) index.

Section Pool.
Context `{GoRange}.

Definition earliestVote (accountVoteMap : gmap Z voteInfo) : option voteInfo :=
  foldl (fun earliest value =>
           match earliest with
           | None => Some value
           | Some e => if viTime e >? viTime value then Some value else Some e
           end)
        None (go_range accountVoteMap).*2.

Fixpoint countLimitLoop (fuel : nat) (limit : Z) (accountVoteMap : gmap Z voteInfo)
  : res pool_error (gmap Z voteInfo) :=
  if Z.of_nat (size accountVoteMap) <=? limit then Ok accountVoteMap
  else match fuel with
       | O => Err PoolFuel
       | S fuel =>
           match earliestVote accountVoteMap with
           | None => Panic
           | Some earliest =>
               countLimitLoop fuel limit (delete (viSignHash earliest) accountVoteMap)
           end
       end.

(** Every round removes a vote, so as many rounds as there are votes suffice. *)
Definition fixPoolByCountLimit (vp : unverifiedVotePool) (fromAccount : Z)
  : res pool_error unverifiedVotePool :=
  match voteMap vp !! fromAccount with
  | None => Ok vp
  | Some accountVoteMap =>
      let* m := countLimitLoop (size accountVoteMap) (AccountVoteCountLimit vp) accountVoteMap in
      Ok (up_voteMap vp (<[fromAccount := m]> (voteMap vp)))
  end.

(** [now] is the clock in milliseconds. *)
Definition AddVote (now : Z) (vp : unverifiedVotePool) (signHash sign from : Z)
  : res pool_error unverifiedVotePool :=
  if (signHash =? zero_hash) || (sign =? 0) || (from =? zero_addr) then Err ErrParamIsNil
  else
    let vote := mkVoteInfo now sign signHash from in
    let* vp := addVoteToMap vp vote in
    fixPoolByCountLimit (fixPoolByTimeout vp now) from.

Definition GetVotes (vp : unverifiedVotePool) (signHash : Z) : list voteInfo :=
  foldl (fun votes '(_, accountVoteMap) =>
           foldl (fun votes '(key, value) =>
                    if signHash =? key then votes ++ [value] else votes)
                 votes (go_range accountVoteMap))
        [] (go_range (voteMap vp)).

(** The map of an account is shared between the pool and the loop: deleting
    its last vote takes the account out first. *)
Definition DelVotes (vp : unverifiedVotePool) (signHash : Z) : unverifiedVotePool :=
  if signHash =? zero_hash then vp
  else
    up_voteMap vp
      (foldl (fun m '(fromAccount, accountVoteMap) =>
                match (accountVoteMap : gmap Z voteInfo) !! signHash with
                | None => m
                | Some _ =>
                    if bool_decide (size accountVoteMap = 1%nat) then delete fromAccount m
                    else <[fromAccount := delete signHash accountVoteMap]> m
                end)
             (voteMap vp) (go_range (voteMap vp))).

Definition poolClear (vp : unverifiedVotePool) : unverifiedVotePool :=
  up_voteMap (up_timeIndex vp []) ∅.
End Pool.

(** ** The votes of a pool *)

Definition vlook (m : voteMapT) (f h : Z) : option voteInfo := m !! f ≫= fun am => am !! h.

Lemma vlook_insert m f am f' h :
  vlook (<[f := am]> m) f' h = if decide (f' = f) then am !! h else vlook m f' h.
Proof.
  unfold vlook. case_decide as E; [subst; by rewrite lookup_insert_eq|by rewrite lookup_insert_ne].
Qed.

Lemma vlook_default m f h : default ∅ (m !! f) !! h = vlook m f h.
Proof. unfold vlook. destruct (m !! f); simpl; [done|apply lookup_empty]. Qed.

Lemma vlook_delTimeoutVote m vote f h :
  vlook (delTimeoutVote m vote) f h =
  if decide (f = viFrom vote /\ h = viSignHash vote) then None else vlook m f h.
Proof.
  unfold delTimeoutVote. destruct (m !! viFrom vote) as [am|] eqn:Em.
  - destruct (_ && _) eqn:Eb.
    + apply andb_true_iff in Eb as [_ Eb]. apply bool_decide_eq_true in Eb.
      apply map_size_empty_inv in Eb. unfold vlook.
      destruct (decide (f = viFrom vote)) as [->|Hf].
      * rewrite lookup_delete_eq, Em. simpl. case_decide as D; [done|].
        assert (h <> viSignHash vote) as Hh by tauto.
        by rewrite <-(lookup_delete_ne am (viSignHash vote) h), Eb, lookup_empty by done.
      * rewrite lookup_delete_ne by done. case_decide; [tauto|done].
    + rewrite vlook_insert. destruct (decide (f = viFrom vote)) as [->|Hf].
      * destruct (decide (h = viSignHash vote)) as [->|Hh].
        -- by rewrite lookup_delete_eq, decide_True by done.
        -- rewrite lookup_delete_ne by done. rewrite decide_False by tauto. unfold vlook. by rewrite Em.
      * by rewrite decide_False by tauto.
  - case_decide as D; [|done]. destruct D as [-> ->]. unfold vlook. by rewrite Em.
Qed.

(** What every pool of the service satisfies: a vote is filed under its sender
    and its hash, is in the index of ages, and no account is listed without a
    vote or with more than its limit. *)
Record pool_wf (vp : unverifiedVotePool) : Prop := {
  pw_key : forall f h v, vlook (voteMap vp) f h = Some v -> viFrom v = f /\ viSignHash v = h;
  pw_index : forall f h v, vlook (voteMap vp) f h = Some v -> v ∈ timeIndex vp;
  pw_count : forall f am, voteMap vp !! f = Some am ->
    Z.of_nat (size am) <= AccountVoteCountLimit vp;
  pw_ne : forall f am, voteMap vp !! f = Some am -> am <> ∅;
  pw_limit : 0 < AccountVoteCountLimit vp
}.

Definition index_sorted (l : list voteInfo) : Prop :=
  StronglySorted (fun a b => viTime a <= viTime b) l.

(** The clock has not passed [now] and never went back. *)
Definition pool_clock (now : Z) (vp : unverifiedVotePool) : Prop :=
  index_sorted (timeIndex vp) /\ Forall (fun v => viTime v <= now) (timeIndex vp).

Lemma new_pool_wf : pool_wf newUnverifiedVotePool.
Proof. split; try (intros *; unfold vlook; simpl; rewrite lookup_empty; done). done. Qed.

(** ** The age limit *)

Lemma delTimeoutVote_account m vote f am :
  delTimeoutVote m vote !! f = Some am ->
  (f = viFrom vote /\ exists am0, m !! f = Some am0 /\ am = delete (viSignHash vote) am0) \/
  (f <> viFrom vote /\ m !! f = Some am).
Proof.
  unfold delTimeoutVote. destruct (m !! viFrom vote) as [am0|] eqn:Em.
  - destruct (_ && _).
    + rewrite lookup_delete_Some. intros []. by right.
    + rewrite lookup_insert_Some. intros [[<- <-]|[]]; [left|right]; eauto.
  - intros Hf. right. split; [congruence|done].
Qed.

Lemma delTimeoutVote_ne m vote f am :
  (forall f am, m !! f = Some am -> am <> ∅) ->
  delTimeoutVote m vote !! f = Some am -> am <> ∅.
Proof.
  intros Hne. unfold delTimeoutVote. destruct (m !! viFrom vote) as [am0|] eqn:Em; [|by apply Hne].
  destruct (_ && _) eqn:Eb.
  - rewrite lookup_delete_Some. intros [_ ?]. eauto.
  - rewrite lookup_insert_Some. intros [[<- <-]|[_ ?]]; [|eauto]. intros Hd.
    rewrite Hd, map_size_empty, (bool_decide_true (0%nat = 0%nat)), andb_true_r in Eb by done.
    apply bool_decide_eq_false in Eb. apply (Hne _ _ Em). apply map_size_empty_inv. lia.
Qed.

Lemma delTimeoutVote_size m vote f am :
  delTimeoutVote m vote !! f = Some am ->
  exists am0, m !! f = Some am0 /\ (size am <= size am0)%nat.
Proof.
  intros [(-> & am0 & Hm & ->)|[_ Hm]]%delTimeoutVote_account; [|eauto].
  exists am0. split; [done|]. apply map_subseteq_size, delete_subseteq.
Qed.

(** The loop only removes votes, and keeps the index in step with the map. *)
Lemma timeoutLoop_spec d m l m' l' :
  timeoutLoop d m l = (m', l') ->
  (forall f h v, vlook m f h = Some v -> viFrom v = f /\ viSignHash v = h) ->
  (forall f h v, vlook m f h = Some v -> v ∈ l) ->
  (forall f am, m !! f = Some am -> am <> ∅) ->
  (exists k, l = k ++ l') /\
  (forall f h v, vlook m' f h = Some v -> vlook m f h = Some v /\ v ∈ l') /\
  (forall f am, m' !! f = Some am -> am <> ∅) /\
  (forall f am, m' !! f = Some am -> exists am0, m !! f = Some am0 /\ (size am <= size am0)%nat).
Proof.
  revert m. induction l as [|x l IH]; intros m Hl Hkey Hin Hne; simpl in Hl.
  { injection Hl as <- <-. split; [by exists []|]. split; [eauto|]. split; [done|]. eauto. }
  rewrite Z.geb_leb in Hl. destruct (d <=? viTime x) eqn:Ed.
  { injection Hl as <- <-. split; [by exists []|]. split; [eauto|]. split; [done|]. eauto. }
  apply IH in Hl as ([k ->] & Hv & Hn & Hs).
  - split; [by exists (x :: k)|]. split; [|split; [done|]].
    + intros f h v Hf. apply Hv in Hf as [Hf ?]. rewrite vlook_delTimeoutVote in Hf.
      case_decide; [done|eauto].
    + intros f am (am0 & Ham & Hle)%Hs. apply delTimeoutVote_size in Ham as (am1 & ? & ?).
      exists am1. split; [done|lia].
  - intros f h v. rewrite vlook_delTimeoutVote. case_decide; [done|apply Hkey].
  - intros f h v. rewrite vlook_delTimeoutVote. case_decide as D; [done|]. intros Hf.
    pose proof (Hin _ _ _ Hf) as [->|?]%elem_of_cons; [|done].
    apply Hkey in Hf as [<- <-]. by destruct D.
  - intros f am. by apply delTimeoutVote_ne.
Qed.

(** What is left in an ordered index is young enough. *)
Lemma timeoutLoop_young d m l m' l' :
  timeoutLoop d m l = (m', l') -> index_sorted l -> Forall (fun v => d <= viTime v) l'.
Proof.
  revert m. induction l as [|x l IH]; intros m Hl Hs; simpl in Hl.
  { by injection Hl as _ <-. }
  apply StronglySorted_inv in Hs as [Hs Hx]. rewrite Z.geb_leb in Hl.
  destruct (Z.leb_spec d (viTime x)); [|by eapply IH].
  injection Hl as <- <-. constructor; [done|].
  eapply Forall_impl; [exact Hx|]. simpl. intros. lia.
Qed.

(** ** The limit on the votes of a sender *)

Section Limits.
Context `{GoRange}.

Definition earlier (e : option voteInfo) (v : voteInfo) : option voteInfo :=
  match e with
  | None => Some v
  | Some e => if viTime e >? viTime v then Some v else Some e
  end.

Lemma earlier_fold l e :
  exists x, foldl earlier (Some e) l = Some x /\ x ∈ e :: l /\
            Forall (fun v => viTime x <= viTime v) (e :: l).
Proof.
  revert e. induction l as [|v l IH]; intros e; cbn [foldl].
  { exists e. split; [done|]. split; [set_solver|]. constructor; [lia|constructor]. }
  cbn [earlier]. rewrite Z.gtb_ltb. destruct (Z.ltb_spec (viTime v) (viTime e)).
  - destruct (IH v) as (x & -> & Hin & Hall). exists x. split; [done|]. split; [set_solver|].
    constructor; [|done]. apply Forall_cons in Hall as [? _]. lia.
  - destruct (IH e) as (x & -> & Hin & Hall). exists x. split; [done|]. split; [set_solver|].
    apply Forall_cons in Hall as [? Hall]. constructor; [done|]. constructor; [lia|done].
Qed.

Lemma earliestVote_spec (m : gmap Z voteInfo) :
  m <> ∅ ->
  exists h v, earliestVote m = Some v /\ m !! h = Some v /\
              (forall h' v', m !! h' = Some v' -> viTime v <= viTime v').
Proof.
  intros Hm. unfold earliestVote.
  destruct (go_range m) as [|[k e] l] eqn:Er.
  { apply (f_equal length) in Er. rewrite length_go_range in Er.
    by apply map_size_empty_inv in Er. }
  destruct (earlier_fold l.*2 e) as (x & Hx & Hin & Hall). cbn [fmap list_fmap snd foldl].
  change (foldl _ _ _) with (foldl earlier (Some e) l.*2).
  assert (Hr : (go_range m).*2 = e :: l.*2) by (by rewrite Er). rewrite <-Hr in Hin, Hall.
  apply list_elem_of_fmap in Hin as ([h x'] & Hx' & Hg). simpl in Hx'. subst x'.
  exists h, x. split; [done|]. split; [by apply elem_of_go_range|]. intros h' v' Hv'.
  rewrite Forall_forall in Hall. apply Hall. apply list_elem_of_fmap.
  exists (h', v'). split; [done|]. by apply elem_of_go_range.
Qed.

Lemma countLimitLoop_spec limit fuel (m : gmap Z voteInfo) :
  0 < limit -> (size m <= fuel)%nat -> (forall h v, m !! h = Some v -> viSignHash v = h) ->
  exists m', countLimitLoop fuel limit m = Ok m' /\ m' ⊆ m /\
    Z.of_nat (size m') = Z.min (Z.of_nat (size m)) limit /\
    (forall h v h' v', m !! h = Some v -> m' !! h = None -> m' !! h' = Some v' ->
       viTime v <= viTime v').
Proof.
  intros Hlim. revert m. induction fuel as [|fuel IH]; intros m Hf Hkey; cbn [countLimitLoop].
  - destruct (Z.leb_spec (Z.of_nat (size m)) limit); [|lia].
    exists m. split; [done|]. split; [done|]. split; [lia|]. congruence.
  - destruct (Z.leb_spec (Z.of_nat (size m)) limit) as [Hle|Hgt].
    { exists m. split; [done|]. split; [done|]. split; [lia|]. congruence. }
    destruct (earliestVote_spec m) as (h & v & -> & Hh & Hmin).
    { intros ->. rewrite map_size_empty in Hgt. lia. }
    rewrite (Hkey _ _ Hh).
    assert (size (delete h m) = pred (size m)) as Hsz
      by (rewrite map_size_delete, Hh; done).
    destruct (IH (delete h m)) as (m' & -> & Hsub & Hsize & Hnew).
    { lia. }
    { intros h' v' [_ ?]%lookup_delete_Some. eauto. }
    exists m'. split; [done|]. split; [by etrans; [|apply delete_subseteq]|]. split; [lia|].
    intros h1 v1 h2 v2 H1 Hn H2. destruct (decide (h1 = h)) as [->|].
    + rewrite Hh in H1. injection H1 as <-. apply (Hmin h2).
      eapply lookup_weaken; [|apply (delete_subseteq m h)]. by eapply lookup_weaken.
    + eapply Hnew; [|exact Hn|exact H2]. by rewrite lookup_delete_ne.
Qed.

Lemma addVoteToMap_spec vp vote vp' :
  pool_wf vp -> addVoteToMap vp vote = Ok vp' ->
  vlook (voteMap vp) (viFrom vote) (viSignHash vote) = None /\
  (forall f h, vlook (voteMap vp') f h =
     if decide (f = viFrom vote /\ h = viSignHash vote) then Some vote else vlook (voteMap vp) f h) /\
  (forall f am, voteMap vp' !! f = Some am -> am <> ∅) /\
  (forall f am, voteMap vp' !! f = Some am -> f <> viFrom vote -> voteMap vp !! f = Some am) /\
  timeIndex vp' = timeIndex vp ++ [vote] /\ timeoutInterval vp' = timeoutInterval vp /\
  AccountVoteCountLimit vp' = AccountVoteCountLimit vp.
Proof.
  intros Hwf. unfold addVoteToMap. rewrite vlook_default.
  destruct (vlook _ _ _) eqn:El; [done|]. intros [= <-]. cbn.
  split; [done|]. split; [|split; [|split; [|done]]].
  - intros f h. rewrite vlook_insert. destruct (decide (f = viFrom vote)) as [->|Hf].
    + destruct (decide (h = viSignHash vote)) as [->|Hh].
      * by rewrite lookup_insert_eq, decide_True by done.
      * rewrite lookup_insert_ne by done. rewrite decide_False by tauto. apply vlook_default.
    + by rewrite decide_False by tauto.
  - intros f am. rewrite lookup_insert_Some. intros [[<- <-]|[_ ?]]; [apply insert_non_empty|].
    by eapply pw_ne.
  - intros f am. rewrite lookup_insert_Some. intros [[<- <-]|[_ ?]]; done.
Qed.

(** A pool between the steps of [AddVote]: one sender may be over its limit. *)
Lemma fixPoolByCountLimit_spec vp from :
  0 < AccountVoteCountLimit vp ->
  (forall f h v, vlook (voteMap vp) f h = Some v -> viFrom v = f /\ viSignHash v = h) ->
  (forall f h v, vlook (voteMap vp) f h = Some v -> v ∈ timeIndex vp) ->
  (forall f am, voteMap vp !! f = Some am -> am <> ∅) ->
  (forall f am, voteMap vp !! f = Some am -> f <> from ->
     Z.of_nat (size am) <= AccountVoteCountLimit vp) ->
  exists vp', fixPoolByCountLimit vp from = Ok vp' /\ pool_wf vp' /\
    timeIndex vp' = timeIndex vp /\
    (forall f h v, vlook (voteMap vp') f h = Some v -> vlook (voteMap vp) f h = Some v).
Proof.
  intros Hlim Hkey Hidx Hne Hcnt. unfold fixPoolByCountLimit.
  destruct (voteMap vp !! from) as [am|] eqn:Ef.
  2:{ exists vp. split; [done|]. split; [|done]. split; [done..| |done|done].
      intros f am Hf. apply (Hcnt f); congruence. }
  destruct (countLimitLoop_spec (AccountVoteCountLimit vp) (size am) am)
    as (m' & -> & Hsub & Hsize & _); [done..| |].
  { intros h v Hv. apply (Hkey from h v). unfold vlook. by rewrite Ef. }
  cbn [res_bind]. eexists. split; [done|].
  assert (Hlow : forall f h v, vlook (<[from := m']> (voteMap vp)) f h = Some v ->
                               vlook (voteMap vp) f h = Some v).
  { intros f h v. rewrite vlook_insert. case_decide as E; [subst f|done].
    intros Hv. unfold vlook. rewrite Ef. by eapply lookup_weaken. }
  split; [|done]. split; cbn; [eauto..| | |done].
  - intros f am'. rewrite lookup_insert_Some. intros [[<- <-]|[]]; [lia|eauto].
  - intros f am'. rewrite lookup_insert_Some. intros [[<- <-]|[]]; [|eauto]. intros ->.
    rewrite map_size_empty in Hsize. pose proof (Hne _ _ Ef) as Ham.
    rewrite <-map_size_non_empty_iff in Ham. lia.
Qed.

Lemma AddVote_Ok now vp signHash sign from vp1 :
  pool_wf vp -> addVoteToMap vp (mkVoteInfo now sign signHash from) = Ok vp1 ->
  exists vp', fixPoolByCountLimit (fixPoolByTimeout vp1 now) from = Ok vp' /\ pool_wf vp' /\
    (exists k, timeIndex vp1 = k ++ timeIndex vp') /\
    (index_sorted (timeIndex vp1) ->
     Forall (fun v => i64 (now - timeoutInterval vp) <= viTime v) (timeIndex vp')) /\
    (forall f h v, vlook (voteMap vp') f h = Some v -> vlook (voteMap vp1) f h = Some v).
Proof.
  intros Hwf Hadd.
  destruct (addVoteToMap_spec _ _ _ Hwf Hadd) as (_ & Hv & Hne & Hoth & Hidx & Hto & Hlim).
  unfold fixPoolByTimeout. destruct (timeoutLoop _ _ _) as [m' l'] eqn:Et.
  pose proof (timeoutLoop_young _ _ _ _ _ Et) as Hyoung. rewrite Hto in Hyoung.
  apply timeoutLoop_spec in Et as ([k Hk] & Hv' & Hne' & Hsz); [|..|done].
  - destruct (fixPoolByCountLimit_spec (up_timeIndex (up_voteMap vp1 m') l') from)
      as (vp' & Hok & Hwf' & Hti & Hin); cbn.
    + rewrite Hlim. apply Hwf.
    + intros f h v [Hf _]%Hv'. rewrite Hv in Hf. case_decide as D.
      * injection Hf as <-. by destruct D as [-> ->].
      * by apply Hwf.
    + intros f h v Hf. by apply Hv' in Hf as [_ ?].
    + done.
    + intros f am (am0 & Ham & Hle)%Hsz Hne1. apply Hoth in Ham; [|done].
      apply (pw_count _ Hwf) in Ham. rewrite Hlim. lia.
    + exists vp'. split; [done|]. split; [done|]. rewrite Hti. cbn. split; [by exists k|].
      split; [done|]. intros f h v Hf. apply Hin in Hf. cbn in Hf. by apply Hv' in Hf as [? _].
  - intros f h v. rewrite Hv. case_decide as D; [|by apply Hwf].
    intros [= <-]. by destruct D as [-> ->].
  - intros f h v. rewrite Hv, Hidx. case_decide as D; [intros [= <-]; set_solver|].
    intros Hf%(pw_index _ Hwf). set_solver.
Qed.

(** Adding a vote never gets stuck. *)
Lemma AddVote_wf now vp signHash sign from :
  pool_wf vp ->
  match AddVote now vp signHash sign from with
  | Ok vp' => pool_wf vp'
  | Err PoolFuel | Panic => False
  | Err _ => True
  end.
Proof.
  intros Hwf. unfold AddVote. destruct (_ || _); [done|].
  destruct (addVoteToMap vp _) as [vp1|e|] eqn:Ea; cbn [res_bind].
  - by destruct (AddVote_Ok _ _ _ _ _ _ Hwf Ea) as (vp' & -> & ? & _).
  - revert Ea. unfold addVoteToMap. destruct (_ !! _); [|done]. by intros [= <-].
  - revert Ea. unfold addVoteToMap. by destruct (_ !! _).
Qed.
End Limits.

(** The pool of early votes stays within its limits: on a pool of the
    service, with a clock that does not go back, adding a vote is refused only
    for an empty argument or a vote that is already there, and otherwise gives
    a pool with at most the allowed number of votes of each sender, none older
    than the allowed age, holding nothing but earlier votes and the new one. *)
Theorem pool_limits `{GoRange} now0 now vp signHash sign from :
  pool_wf vp -> pool_clock now0 vp -> now0 <= now < 2 ^ 63 -> 0 <= now ->
  0 <= timeoutInterval vp < 2 ^ 63 ->
  match AddVote now vp signHash sign from with
  | Ok vp' =>
      pool_wf vp' /\ pool_clock now vp' /\
      (forall f h v, vlook (voteMap vp') f h = Some v ->
         now - timeoutInterval vp <= viTime v <= now /\
         (v = mkVoteInfo now sign signHash from \/ vlook (voteMap vp) f h = Some v))
  | Err ErrParamIsNil => signHash = zero_hash \/ sign = 0 \/ from = zero_addr
  | Err ErrVoteExist => is_Some (vlook (voteMap vp) from signHash)
  | Err PoolFuel | Panic => False
  end.
Proof.
  intros Hwf [Hs Hc] Hnow Hn0 Hto. unfold AddVote.
  destruct (_ || _ || _) eqn:Ez.
  { apply orb_true_iff in Ez as [Ez|Ez%Z.eqb_eq]; [|by auto].
    apply orb_true_iff in Ez as [Ez%Z.eqb_eq|Ez%Z.eqb_eq]; auto. }
  destruct (addVoteToMap vp _) as [vp1|e|] eqn:Ea; cbn [res_bind].
  - destruct (addVoteToMap_spec _ _ _ Hwf Ea) as (_ & Hv & _ & _ & Hidx & _).
    assert (Hs1 : index_sorted (timeIndex vp1)).
    { rewrite Hidx. apply StronglySorted_snoc; [done|].
      eapply Forall_impl; [exact Hc|]. simpl. lia. }
    destruct (AddVote_Ok _ _ _ _ _ _ Hwf Ea) as (vp' & -> & Hwf' & [k Hk] & Hy & Hin).
    specialize (Hy Hs1).
    assert (Hc' : Forall (fun v => viTime v <= now) (timeIndex vp')).
    { assert (Forall (fun v => viTime v <= now) (timeIndex vp1)) as Hall.
      { rewrite Hidx. apply Forall_app. split; [|by repeat constructor].
        eapply Forall_impl; [exact Hc|]. simpl. lia. }
      rewrite Hk in Hall. by apply Forall_app in Hall as [_ ?]. }
    split; [done|]. split; [split; [|done]|].
    { rewrite Hk in Hs1. eapply StronglySorted_sublist; [|exact Hs1]. by apply sublist_inserts_l. }
    intros f h v Hf. pose proof (pw_index _ Hwf' _ _ _ Hf) as Hm.
    rewrite Forall_forall in Hy, Hc'. apply Hy in Hm as Hm1. apply Hc' in Hm as Hm2.
    rewrite i64_small in Hm1 by (unfold is_i64; lia). split; [lia|].
    apply Hin in Hf. rewrite Hv in Hf. case_decide; [left; congruence|by right].
  - revert Ea. unfold addVoteToMap. cbn [viFrom viSignHash]. rewrite vlook_default.
    destruct (vlook _ _ _) eqn:El; [|done]. intros [= <-]. eauto.
  - revert Ea. unfold addVoteToMap. by destruct (_ !! _).
Qed.

#[local] Existing Instance go_range_sorted_keys.

Lemma pool_limits_witness :
  match AddVote 9 newUnverifiedVotePool 3 4 5 with
  | Ok vp' => pool_wf vp' /\ pool_clock 9 vp' /\
      (forall f h v, vlook (voteMap vp') f h = Some v ->
         9 - 55000 <= viTime v <= 9 /\
         (v = mkVoteInfo 9 4 3 5 \/ vlook (voteMap newUnverifiedVotePool) f h = Some v))
  | _ => False
  end.
Proof.
  refine (pool_limits 0 9 newUnverifiedVotePool 3 4 5 new_pool_wf _ _ _ _);
    [split; constructor | lia | lia | vm_compute; split; [discriminate|reflexivity]].
Defined.

(** ** The votes for a hash *)

Section Votes.
Context `{GoRange}.

Lemma GetVotes_inner signHash (l : list (Z * voteInfo)) votes :
  foldl (fun votes '(key, value) => if signHash =? key then votes ++ [value] else votes) votes l =
  votes ++ (filter (fun kv => signHash = kv.1) l).*2.
Proof.
  revert votes. induction l as [|[k v] l IH]; intros votes; cbn [foldl]; [by rewrite app_nil_r|].
  rewrite IH, filter_cons. cbn [fst]. destruct (Z.eqb_spec signHash k).
  - rewrite decide_True by done. cbn [fmap list_fmap snd]. by rewrite <-app_assoc.
  - by rewrite decide_False by done.
Qed.

Lemma filter_key_range signHash (m : gmap Z voteInfo) :
  (filter (fun kv => signHash = kv.1) (go_range m)).*2 = option_list (m !! signHash).
Proof.
  pose proof (NoDup_fst_go_range m) as Hnd.
  assert (forall k v, (k, v) ∈ go_range m <-> m !! k = Some v) as Hin by apply elem_of_go_range.
  destruct (m !! signHash) as [v|] eqn:Em; cbn [option_list].
  - assert (Hp : filter (fun kv => signHash = kv.1) (go_range m) ≡ₚ [(signHash, v)]).
    { apply NoDup_Permutation.
      - by apply NoDup_filter, NoDup_fmap_1 in Hnd || apply NoDup_filter, (NoDup_fmap_1 fst).
      - apply NoDup_singleton.
      - intros [k w]. rewrite list_elem_of_filter, list_elem_of_singleton. cbn [fst].
        rewrite Hin. split; [intros [-> ?]; congruence|]. intros [= -> ->]. done. }
    by apply Permutation_singleton_r in Hp as ->.
  - destruct (filter _ _) as [|[k w] l] eqn:Ef; [done|].
    assert ((k, w) ∈ filter (fun kv => signHash = kv.1) (go_range m)) as Hk by (rewrite Ef; left).
    apply list_elem_of_filter in Hk as [Hk Hw]. cbn [fst] in Hk. subst k.
    apply Hin in Hw. congruence.
Qed.

(** The votes of a hash: one of each sender that has one. *)
Lemma GetVotes_eq vp signHash :
  GetVotes vp signHash = (go_range (voteMap vp)) ≫= fun fm => option_list (fm.2 !! signHash).
Proof.
  unfold GetVotes. change (?r = _ ≫= ?g) with (r = [] ++ (go_range (voteMap vp) ≫= g)).
  set (votes := @nil voteInfo) at 2 3. clearbody votes.
  revert votes. induction (go_range (voteMap vp)) as [|[f m] l IH]; intros votes; simpl.
  - by rewrite app_nil_r.
  - by rewrite GetVotes_inner, IH, filter_key_range, <-app_assoc.
Qed.

Lemma elem_of_GetVotes vp signHash v :
  v ∈ GetVotes vp signHash <-> exists f, vlook (voteMap vp) f signHash = Some v.
Proof.
  rewrite GetVotes_eq, list_elem_of_bind. unfold vlook. split.
  - intros ([f m] & Hv & Hf). apply elem_of_go_range in Hf. exists f. rewrite Hf. cbn in *.
    destruct (m !! signHash); cbn in Hv; set_solver.
  - intros (f & Hv). destruct (voteMap vp !! f) as [m|] eqn:Hf; [|done].
    exists (f, m). split; [|by apply elem_of_go_range]. cbn in *. rewrite Hv. set_solver.
Qed.
End Votes.

(** ** A vote lost to a stale index entry *)

(** A sequence of votes (time, hash, signature, sender); refused votes leave
    the pool as it is. *)
Definition pool_run `{GoRange} (vp : unverifiedVotePool) (votes : list (Z * Z * Z * Z))
  : unverifiedVotePool :=
  foldl (fun vp '(now, signHash, sign, from) =>
           match AddVote now vp signHash sign from with
           | Ok vp' => vp'
           | _ => vp
           end)
        vp votes.

(** The age limit can remove a vote that is not old: evicting a vote by
    the limit on its sender leaves its entry in the index of ages, and when that
    entry expires it deletes whatever vote is filed under the same sender and
    hash.  Here [AddVote] reports success for a vote that is gone when it
    returns. *)
Theorem early_vote_lost :
  let vp := pool_run newUnverifiedVotePool
              [(1, 1, 9, 7); (2, 2, 9, 7); (3, 3, 9, 7); (4, 4, 9, 7); (5, 5, 9, 7); (6, 6, 9, 7)] in
  GetVotes vp 1 = [] /\
  exists vp', AddVote 56000 vp 1 9 7 = Ok vp' /\ GetVotes vp' 1 = [].
Proof.
  intros vp. split; [by vm_compute|].
  destruct (AddVote 56000 vp 1 9 7) as [vp'| |] eqn:E; [|by vm_compute in E..].
  exists vp'. split; [done|]. assert (Hvp' : Ok vp' = AddVote 56000 vp 1 9 7) by done.
  vm_compute in Hvp'. injection Hvp' as ->. by vm_compute.
Qed.
