(* ===== verification/LeaderCal.v ===== *)
(** * Leader rotation ([leaderelect2.0/leaderCal.go])

    The validators of a height take turns as leader: the list starts after the
    leader of the last ordinary block and wraps around.  The file models the
    calculator, including the walk back over super and broadcast blocks, and
    proves that the walk terminates, that the list is a rotation of the
    validators, and that leadership is fair over any full round of turns. *)

From S2P Require Import GoLang Broadcast Roles Topology Header Prelude.

Inductive leader_error :=
| ErrValidatorsIsNil
| ErrValidatorNotFound
| ErrBcIntervalIsNil
| ErrValidatorListEmpty.

(** [None] is the nil slice where the code tells it from the empty one. *)
Record specialAccounts := mkSpecials {
  broadcasts : list Z;
  versionSupers : option (list Z);
  blockSupers : option (list Z)
}.

Record leaderCalculator := mkLeaderCal {
  lcNumber : Z;
  preLeader : Z;
  preHash : Z;
  leaderList : gmap Z Z;
  validators : list TopologyNodeInfo;
  lcSpecials : specialAccounts
}.

Record leaderData := mkLeaderData { leader : Z; nextLeader : Z }.

Definition newLeaderCalculator (number : Z) : leaderCalculator :=
  mkLeaderCal number zero_addr zero_hash ∅ [] (mkSpecials [] None None).

Fixpoint findLeaderIndex (preLeader : Z) (l : list TopologyNodeInfo) : res leader_error nat :=
  match l with
  | [] => Err ErrValidatorNotFound
  | v :: rest =>
      if Account v =? preLeader then Ok 0%nat
      else res_map S (findLeaderIndex preLeader rest)
  end.

(** [for i := 0; i < ValidatorNum; i++ { leaderList[uint32(i)] = ... }] *)
Definition fillLeaderList (startPos : nat) (vs : list TopologyNodeInfo) (m : gmap Z Z)
    (idx : list nat) : gmap Z Z :=
  foldl (fun m i =>
           match vs !! ((startPos + i) `mod` length vs)%nat with
           | Some v => <[u32 (Z.of_nat i) := Account v]> m
           | None => m
           end) m idx.

Definition calLeaderList (preLeader curNumber : Z) (preIsSupper : bool)
    (vs : list TopologyNodeInfo) (bcInterval : BCIntervalInfo)
  : res leader_error (gmap Z Z) :=
  let* fresh :=
    res_or (Ok preIsSupper)
      (res_or (IsReElectionNumber bcInterval (u64 (curNumber - 1)))
              (IsReElectionNumber bcInterval curNumber)) in
  let* startPos :=
    if fresh : bool then Ok 0%nat
    else match findLeaderIndex preLeader vs with
         | Err _ => Ok 0%nat
         | Ok preIndex => Ok (S preIndex)
         | Panic => Panic
         end in
  Ok (fillLeaderList startPos vs ∅ (seq 0 (length vs))).

Section Chain.
(** [chain.GetHeader] and [Header.Hash]. *)
Context (GetHeader : Z -> Z -> option Header) (headerHash : Header -> Z).

(** The loop of [getRealPreLeader]; [None] is "out of fuel".  When the parent
    is missing the code formats [header.ParentHash] of a nil header. *)
Fixpoint realPreLeaderLoop (fuel : nat) (bcInterval : BCIntervalInfo) (header : Header)
    (number : Z) (preAppearSuper : bool) : option (res leader_error (Z * bool)) :=
  match fuel with
  | O => None
  | S fuel =>
      match res_or (Ok (IsSuperHeader header)) (IsBroadcastNumber bcInterval number) with
      | Ok true =>
          let preAppearSuper := if IsSuperHeader header then true else preAppearSuper in
          if number =? 0 then Some (Ok (hLeader header, preAppearSuper))
          else match GetHeader (hParentHash header) (number - 1) with
               | None => Some Panic
               | Some parent =>
                   realPreLeaderLoop fuel bcInterval parent (u64 (hNumber parent)) preAppearSuper
               end
      | Ok false => Some (Ok (hLeader header, preAppearSuper))
      | Err e => Some (Err e)
      | Panic => Some Panic
      end
  end.

Definition getRealPreLeader (preHeader : Header) (bcInterval : BCIntervalInfo)
  : option (res leader_error (Z * bool)) :=
  realPreLeaderLoop (S (Z.to_nat (u64 (hNumber preHeader)))) bcInterval preHeader
    (u64 (hNumber preHeader)) (IsSuperHeader preHeader).

Definition SetValidatorsAndSpecials (self : leaderCalculator) (preHeader : option Header)
    (vs : option (list TopologyNodeInfo)) (specials : option specialAccounts)
    (bcInterval : option BCIntervalInfo) : option (res leader_error leaderCalculator) :=
  match preHeader, vs, specials, bcInterval with
  | Some preHeader, Some vs, Some specials, Some bcInterval =>
      match getRealPreLeader preHeader bcInterval with
      | None => None
      | Some r =>
          Some (let* (realPreLeader, preAppearSuper) := r in
                let* l := calLeaderList realPreLeader (lcNumber self) preAppearSuper vs bcInterval in
                Ok (mkLeaderCal (lcNumber self) (hLeader preHeader) (headerHash preHeader)
                      l vs specials))
      end
  | _, _, _, _ => Some (Err ErrValidatorsIsNil)
  end.
End Chain.

Definition GetValidators (self : leaderCalculator) : res leader_error TopologyGraph :=
  if (length (validators self) =? 0)%nat then Err ErrValidatorListEmpty
  else Ok (mkGraph (validators self) 0).

(** Reading a missing key of the map gives the zero address. *)
Definition leaderAt (self : leaderCalculator) (k : Z) : Z :=
  default zero_addr (leaderList self !! k).

Definition GetLeader (self : leaderCalculator) (turn : Z) (bcInterval : option BCIntervalInfo)
  : res leader_error leaderData :=
  match bcInterval with
  | None => Err ErrBcIntervalIsNil
  | Some bcInterval =>
      let leaderCount := u32 (Z.of_nat (size (leaderList self))) in
      if leaderCount =? 0 then Err ErrValidatorsIsNil
      else
        let number := lcNumber self in
        let* reelect := IsReElectionNumber bcInterval number in
        if reelect : bool then
          Ok (mkLeaderData zero_addr (leaderAt self (turn mod leaderCount)))
        else
          let* broad := IsBroadcastNumber bcInterval number in
          if broad : bool then
            Ok (mkLeaderData zero_addr (leaderAt self (turn mod leaderCount)))
          else
            let* broadNext := IsBroadcastNumber bcInterval (u64 (number + 1)) in
            Ok (mkLeaderData (leaderAt self (turn mod leaderCount))
                  (if broadNext : bool then zero_addr
                   else leaderAt self (u32 (turn + 1) mod leaderCount)))
  end.

(** ** The walk to the last ordinary block terminates *)

(** A header that is skipped by the walk. *)
Definition skipped (bc : BCIntervalInfo) (h : Header) : Prop :=
  IsSuperHeader h = true \/ bc_height bc (hNumber h).

(** [realPre get bc h l s]: [l] is the leader of the first ancestor of [h] that
    is not skipped (or of the genesis block), [s] says whether a super block
    was met on the way. *)
Inductive realPre (GetHeader : Z -> Z -> option Header) (bc : BCIntervalInfo)
  : Header -> Z -> bool -> Prop :=
| realPre_ordinary h :
    ~ skipped bc h -> realPre GetHeader bc h (hLeader h) false
| realPre_genesis h :
    skipped bc h -> hNumber h = 0 -> realPre GetHeader bc h (hLeader h) (IsSuperHeader h)
| realPre_skip h p l s :
    skipped bc h -> hNumber h <> 0 ->
    GetHeader (hParentHash h) (hNumber h - 1) = Some p ->
    realPre GetHeader bc p l s ->
    realPre GetHeader bc h l (IsSuperHeader h || s).

Section Walk.
Context (GetHeader : Z -> Z -> option Header) (bc : BCIntervalInfo).
Context (Hbc : 0 < BCInterval bc).
(** The header store returns a header of the height it is asked for. *)
Context (Hstore : forall h n hd, GetHeader h n = Some hd -> hNumber hd = n).

Lemma skipped_test (E : Type) h :
  exists b, res_or (E := E) (Ok (IsSuperHeader h)) (IsBroadcastNumber bc (hNumber h)) = Ok b /\
            (b = true <-> skipped bc h).
Proof using Hbc.
  unfold skipped, res_or. simpl.
  destruct (IsSuperHeader h); [exists true; intuition congruence|].
  destruct (IsBroadcastNumber_spec (E := E) bc Hbc (hNumber h)) as (b & -> & Hb).
  exists b. split; [done|]. rewrite Hb. intuition congruence.
Qed.

Lemma realPreLeaderLoop_spec fuel h s0 :
  is_u64 (hNumber h) -> (Z.to_nat (hNumber h) < fuel)%nat ->
  (exists l s, realPreLeaderLoop GetHeader fuel bc h (hNumber h) s0 = Some (Ok (l, s0 || s))
               /\ realPre GetHeader bc h l s)
  \/ (realPreLeaderLoop GetHeader fuel bc h (hNumber h) s0 = Some Panic
      /\ forall l s, ~ realPre GetHeader bc h l s).
Proof using Hbc Hstore.
  revert h s0. induction fuel as [|fuel IH]; intros h s0 Hn Hf; [lia|].
  cbn [realPreLeaderLoop]. destruct (skipped_test leader_error h) as (b & -> & Hb).
  destruct b.
  2:{ left. exists (hLeader h), false. rewrite orb_false_r. split; [done|].
      constructor. intros Hs. apply Hb in Hs. done. }
  assert (Hsk : skipped bc h) by (by apply Hb).
  assert (Hs : (if IsSuperHeader h then true else s0) = s0 || IsSuperHeader h)
    by (destruct (IsSuperHeader h), s0; done).
  rewrite Hs. destruct (Z.eqb_spec (hNumber h) 0) as [H0|H0].
  { left. eexists _, _. split; [done|]. by constructor. }
  destruct (GetHeader (hParentHash h) (hNumber h - 1)) as [p|] eqn:Hp.
  2:{ right. split; [done|]. intros l s Hr. inversion Hr; subst; congruence. }
  pose proof (Hstore _ _ _ Hp) as Hpn. unfold is_u64 in *.
  rewrite (u64_small (hNumber p)) by (unfold is_u64; lia).
  destruct (IH p (s0 || IsSuperHeader h)) as [(l & s & -> & Hr)|[-> Hr]]; try lia.
  - left. exists l, (IsSuperHeader h || s). split; [by rewrite orb_assoc|].
    by eapply realPre_skip.
  - right. split; [done|]. intros l s Hr'. inversion Hr'; subst; try congruence.
    by eapply Hr; simplify_eq.
Qed.
End Walk.

(** The walk of [getRealPreLeader] always ends within the fuel given by the
    height of the starting block: it returns the leader of the nearest ancestor
    that is neither a super block nor a broadcast block, with the flag telling
    whether a super block was skipped; and it panics (nil dereference while
    formatting the error) exactly when an ancestor on the way is missing from
    the header store. *)
Theorem getRealPreLeader_total GetHeader bc h :
  0 < BCInterval bc -> is_u64 (hNumber h) ->
  (forall hash n hd, GetHeader hash n = Some hd -> hNumber hd = n) ->
  (exists l s, getRealPreLeader GetHeader h bc = Some (Ok (l, s)) /\ realPre GetHeader bc h l s)
  \/ (getRealPreLeader GetHeader h bc = Some Panic /\ forall l s, ~ realPre GetHeader bc h l s).
Proof.
  intros Hbc Hn Hst. unfold getRealPreLeader. rewrite u64_small by done.
  destruct (realPreLeaderLoop_spec GetHeader bc Hbc Hst (S (Z.to_nat (hNumber h))) h
              (IsSuperHeader h) Hn) as [(l & s & -> & Hr)|Hr]; [lia| |by right].
  left. eexists _, _. split; [done|].
  destruct (IsSuperHeader h) eqn:Hs; [|done].
  inversion Hr; subst; simpl; rewrite ?Hs in *; try done.
  exfalso. match goal with H : ~ skipped _ _ |- _ => apply H end. by left.
Qed.

(** ** The leader list is a rotation of the validators *)

Abbreviation accounts vs := (Account <$> (vs : list TopologyNodeInfo)).

Lemma fillLeaderList_lookup start vs n k :
  (n <= length vs)%nat -> Z.of_nat (length vs) <= 2 ^ 32 ->
  fillLeaderList start vs ∅ (seq 0 n) !! Z.of_nat k =
  if decide (k < n)%nat then rotate start (accounts vs) !! k else None.
Proof.
  intros Hn Hl. revert k. induction n as [|n IH]; intros k.
  { rewrite decide_False by lia. apply lookup_empty. }
  rewrite seq_S, Nat.add_0_l. unfold fillLeaderList in *. rewrite foldl_app.
  cbn [foldl]. rewrite (u32_small (Z.of_nat n)) by (unfold is_u32; lia).
  assert (Hpos : ((start + n) `mod` length vs < length vs)%nat)
    by (apply Nat.mod_upper_bound; lia).
  destruct (vs !! ((start + n) `mod` length vs)%nat) as [v|] eqn:Hv.
  2:{ apply lookup_ge_None in Hv. lia. }
  destruct (decide (k = n)) as [->|Hk].
  - rewrite lookup_insert_eq, decide_True by lia.
    rewrite lookup_rotate_r by (rewrite length_fmap; lia).
    unfold rotate_nat_add. rewrite length_fmap, list_lookup_fmap.
    replace (Z.to_nat _) with ((start + n) `mod` length vs)%nat; [by rewrite Hv|].
    rewrite <- Nat2Z.inj_add, <- Nat2Z.inj_mod. lia.
  - rewrite lookup_insert_ne by lia. rewrite IH by lia.
    repeat case_decide; try lia; done.
Qed.

Lemma fillLeaderList_size start vs n :
  Z.of_nat (length vs) <= 2 ^ 32 -> (n <= length vs)%nat ->
  size (fillLeaderList start vs ∅ (seq 0 n)) = n.
Proof.
  intros Hl. induction n as [|n IH]; intros Hn; [apply map_size_empty|].
  pose proof (fillLeaderList_lookup start vs n n) as Hf.
  rewrite decide_False in Hf by lia. specialize (Hf ltac:(lia) Hl).
  specialize (IH ltac:(lia)).
  rewrite seq_S, Nat.add_0_l. unfold fillLeaderList in *. rewrite foldl_app. cbn [foldl].
  rewrite (u32_small (Z.of_nat n)) by (unfold is_u32; lia).
  destruct (vs !! _) eqn:Hv.
  - rewrite map_size_insert_None by done. by rewrite IH.
  - apply lookup_ge_None in Hv.
    pose proof (Nat.mod_upper_bound (start + n) (length vs)). lia.
Qed.

(** [rotated self start]: the list of [self] is the validators rotated by
    [start], indexed by turn. *)
Definition rotated (self : leaderCalculator) (start : nat) : Prop :=
  size (leaderList self) = length (validators self) /\
  forall k, leaderList self !! Z.of_nat k =
            rotate start (accounts (validators self)) !! k.

Lemma fillLeaderList_rotated start vs number pl ph sp :
  Z.of_nat (length vs) <= 2 ^ 32 ->
  rotated (mkLeaderCal number pl ph
             (fillLeaderList start vs ∅ (seq 0 (length vs))) vs sp) start.
Proof.
  intros Hl. split; simpl; [by apply fillLeaderList_size|].
  intros k. rewrite fillLeaderList_lookup by done.
  case_decide; [done|]. symmetry. apply lookup_ge_None.
  rewrite length_rotate, length_fmap. lia.
Qed.

Lemma rotate_Permutation {A} n (l : list A) : rotate n l ≡ₚ l.
Proof. unfold rotate. rewrite Permutation_app_comm. by rewrite take_drop. Qed.

Section Rotation.
Context (self : leaderCalculator) (start : nat).
Let n := length (validators self).
Context (Hrot : rotated self start).
Context (Hpos : (0 < n)%nat) (Hn32 : Z.of_nat n < 2 ^ 32).

Lemma leaderCount_eq : u32 (Z.of_nat (size (leaderList self))) = Z.of_nat n.
Proof.
  destruct Hrot as [-> _]. apply u32_small. unfold is_u32. fold n. lia.
Qed.

Lemma leaderAt_turn t :
  0 <= t ->
  accounts (validators self) !! ((start + Z.to_nat t) `mod` n)%nat =
  Some (leaderAt self (t mod Z.of_nat n)).
Proof.
  intros Ht. destruct Hrot as [_ Hl]. unfold leaderAt.
  pose proof (Z.mod_pos_bound t (Z.of_nat n)).
  rewrite <- (Z2Nat.id (t mod Z.of_nat n)) by lia. rewrite Hl.
  rewrite lookup_rotate_r by (rewrite length_fmap; fold n; lia).
  unfold rotate_nat_add. rewrite length_fmap. fold n.
  replace (Z.to_nat ((Z.of_nat start + Z.of_nat (Z.to_nat (t mod Z.of_nat n))) `mod` Z.of_nat n))
    with ((start + Z.to_nat t) `mod` n)%nat.
  - destruct (accounts _ !! _) eqn:Hv; [done|].
    apply lookup_ge_None in Hv. rewrite length_fmap in Hv. fold n in Hv.
    pose proof (Nat.mod_upper_bound (start + Z.to_nat t) n). lia.
  - rewrite Z2Nat.id by lia. rewrite Z.add_mod_idemp_r by lia.
    apply Nat2Z.inj. rewrite Nat2Z.inj_mod, Nat2Z.inj_add, Z2Nat.id by lia.
    rewrite Z2Nat.id; [done|]. apply Z.mod_pos_bound. lia.
Qed.

Lemma round_leaders t i :
  0 <= t -> (i < n)%nat ->
  rotate (start + Z.to_nat t) (accounts (validators self)) !! i =
  Some (leaderAt self ((t + Z.of_nat i) mod Z.of_nat n)).
Proof.
  intros Ht Hi. rewrite <- leaderAt_turn by lia.
  rewrite lookup_rotate_r by (rewrite length_fmap; fold n; lia).
  unfold rotate_nat_add. rewrite length_fmap. fold n. f_equal.
  rewrite <- Nat2Z.inj_add, <- Nat2Z.inj_mod, Nat2Z.id. f_equal. lia.
Qed.

Lemma GetLeader_ordinary bc t :
  0 < BCInterval bc ->
  ~ bc_height bc (lcNumber self) -> ~ reelect_height bc (lcNumber self) ->
  exists nx, GetLeader self t (Some bc)
             = Ok (mkLeaderData (leaderAt self (t mod Z.of_nat n)) nx) /\
    (bc_height bc (u64 (lcNumber self + 1)) -> nx = zero_addr) /\
    (~ bc_height bc (u64 (lcNumber self + 1)) ->
     nx = leaderAt self (u32 (t + 1) mod Z.of_nat n)).
Proof.
  intros Hi Hb Hr. unfold GetLeader. rewrite leaderCount_eq.
  destruct (Z.eqb_spec (Z.of_nat n) 0); [lia|].
  destruct (IsReElectionNumber_spec (E := leader_error) bc Hi (lcNumber self)) as (b & -> & Hb1).
  destruct b; [by destruct Hr; apply Hb1|].
  destruct (IsBroadcastNumber_spec (E := leader_error) bc Hi (lcNumber self)) as (b & -> & Hb2).
  destruct b; [by destruct Hb; apply Hb2|]. simpl.
  destruct (IsBroadcastNumber_spec (E := leader_error) bc Hi (u64 (lcNumber self + 1)))
    as (b & -> & Hb3). simpl.
  eexists. split; [done|].
  destruct b; split; intros H; try done; [by destruct H; apply Hb3|by apply Hb3 in H].
Qed.
End Rotation.

Lemma findLeaderIndex_spec pl vs :
  (exists k, findLeaderIndex pl vs = Ok k /\ accounts vs !! k = Some pl)
  \/ (findLeaderIndex pl vs = Err ErrValidatorNotFound /\ pl ∉ accounts vs).
Proof.
  induction vs as [|v vs IH]; simpl.
  { right. split; [done|]. apply not_elem_of_nil. }
  destruct (Z.eqb_spec (Account v) pl) as [<-|Hne]; [left; by exists 0%nat|].
  destruct IH as [(k & -> & Hk)|[-> Hni]]; simpl.
  - left. by exists (S k).
  - right. split; [done|]. apply not_elem_of_cons. auto.
Qed.

(** Where the rotation starts. *)
Definition startsAt (bc : BCIntervalInfo) (cur : Z) (super : bool) (pl : Z)
    (vs : list TopologyNodeInfo) (start : nat) : Prop :=
  let fresh := super = true \/ reelect_height bc (u64 (cur - 1)) \/ reelect_height bc cur in
  (fresh -> start = 0%nat) /\
  (~ fresh -> (exists k, start = S k /\ accounts vs !! k = Some pl)
              \/ (start = 0%nat /\ pl ∉ accounts vs)).

Lemma calLeaderList_spec pl cur super vs bc :
  0 < BCInterval bc ->
  exists start, calLeaderList pl cur super vs bc
                = Ok (fillLeaderList start vs ∅ (seq 0 (length vs)))
                /\ startsAt bc cur super pl vs start.
Proof.
  intros Hi. unfold calLeaderList, startsAt, res_or. simpl.
  destruct (IsReElectionNumber_spec (E := leader_error) bc Hi (u64 (cur - 1))) as (b1 & -> & H1).
  destruct (IsReElectionNumber_spec (E := leader_error) bc Hi cur) as (b2 & -> & H2).
  destruct super, b1, b2; simpl;
    try (by eexists; split; [done|]; split; [done|]; intros []; naive_solver).
  destruct (findLeaderIndex_spec pl vs) as [(k & -> & Hk)|[-> Hk]]; simpl;
    eexists; (split; [done|]); split; intros Hf; eauto; naive_solver.
Qed.

Lemma SetValidators_rotated get hash self h vs sp bc self' :
  SetValidatorsAndSpecials get hash self (Some h) (Some vs) sp (Some bc) = Some (Ok self') ->
  0 < BCInterval bc -> Z.of_nat (length vs) <= 2 ^ 32 ->
  validators self' = vs /\ lcNumber self' = lcNumber self /\
  exists start pl super, getRealPreLeader get h bc = Some (Ok (pl, super)) /\
    startsAt bc (lcNumber self) super pl vs start /\ rotated self' start.
Proof.
  intros Hset Hi Hl. unfold SetValidatorsAndSpecials in Hset.
  destruct sp as [sp|]; [|done].
  destruct (getRealPreLeader get h bc) as [[[pl super]| |]|] eqn:Hreal; try done.
  simpl in Hset.
  destruct (calLeaderList_spec pl (lcNumber self) super vs bc Hi) as (start & Hc & Hs).
  rewrite Hc in Hset. simplify_eq/=. split_and!; try done.
  exists start, pl, super. split_and!; try done. by apply fillLeaderList_rotated.
Qed.

(** C31: leadership is fair.  Once the validators of an ordinary height are set,
    any [n] consecutive consensus turns ([n] the number of validators) elect
    every validator exactly once, and the announced next leader of a turn is
    the leader of the following turn. *)
Theorem leader_round_robin get hash self h vs sp bc self' t :
  SetValidatorsAndSpecials get hash self (Some h) (Some vs) sp (Some bc) = Some (Ok self') ->
  0 < BCInterval bc -> 0 < Z.of_nat (length vs) < 2 ^ 32 ->
  ~ bc_height bc (lcNumber self) -> ~ reelect_height bc (lcNumber self) ->
  0 <= t -> t + Z.of_nat (length vs) <= 2 ^ 32 ->
  exists ls, ls ≡ₚ accounts vs /\
    forall i a, ls !! i = Some a ->
      exists nx, GetLeader self' (t + Z.of_nat i) (Some bc) = Ok (mkLeaderData a nx) /\
        (~ bc_height bc (u64 (lcNumber self + 1)) ->
         forall b, ls !! S i = Some b -> nx = b).
Proof.
  intros Hset Hi Hn Hb Hr Ht Htn.
  destruct (SetValidators_rotated _ _ _ _ _ _ _ _ Hset Hi ltac:(lia))
    as (<- & Hnum & start & _ & _ & _ & _ & Hrot).
  rewrite <- Hnum in *.
  exists (rotate (start + Z.to_nat t) (accounts (validators self'))).
  split; [apply rotate_Permutation|]. intros i a Ha.
  pose proof (lookup_lt_Some _ _ _ Ha) as Hlt. rewrite length_rotate, length_fmap in Hlt.
  rewrite (round_leaders self' start Hrot) in Ha by lia. simplify_eq.
  destruct (GetLeader_ordinary self' start Hrot ltac:(lia) ltac:(lia) bc
              (t + Z.of_nat i) Hi Hb Hr) as (nx & -> & _ & Hnx).
  exists nx. split; [done|]. intros Hnb b Hlb.
  pose proof (lookup_lt_Some _ _ _ Hlb) as Hlt'. rewrite length_rotate, length_fmap in Hlt'.
  rewrite (round_leaders self' start Hrot) in Hlb by lia. simplify_eq.
  rewrite Hnx by done. rewrite u32_small by (unfold is_u32; lia). f_equal. f_equal. lia.
Qed.

(** The rotation continues where the chain stopped.  On an ordinary height
    that does not follow a re-election block, and when no super block was
    skipped on the way back, the leader of turn 0 is the validator after the
    leader of the last ordinary block (cyclically). *)
Theorem first_leader_is_successor get hash self h vs sp bc self' pl k :
  SetValidatorsAndSpecials get hash self (Some h) (Some vs) sp (Some bc) = Some (Ok self') ->
  0 < BCInterval bc -> Z.of_nat (length vs) < 2 ^ 32 ->
  ~ bc_height bc (lcNumber self) -> ~ reelect_height bc (lcNumber self) ->
  ~ reelect_height bc (u64 (lcNumber self - 1)) ->
  getRealPreLeader get h bc = Some (Ok (pl, false)) ->
  NoDup (accounts vs) -> accounts vs !! k = Some pl ->
  exists a nx, GetLeader self' 0 (Some bc) = Ok (mkLeaderData a nx) /\
               accounts vs !! (S k `mod` length vs)%nat = Some a.
Proof.
  intros Hset Hi Hn Hb Hr Hr1 Hreal Hnd Hk.
  destruct (SetValidators_rotated _ _ _ _ _ _ _ _ Hset Hi ltac:(lia))
    as (<- & Hnum & start & pl' & super & Hreal' & Hst & Hrot).
  rewrite Hreal in Hreal'. simplify_eq. rewrite <- Hnum in *.
  pose proof (lookup_lt_Some _ _ _ Hk) as Hlt. rewrite length_fmap in Hlt.
  destruct (GetLeader_ordinary self' start Hrot ltac:(lia) ltac:(lia) bc 0 Hi Hb Hr)
    as (nx & -> & _ & _).
  eexists _, nx. split; [done|].
  rewrite <- (leaderAt_turn self' start Hrot) by lia.
  destruct Hst as [_ Hst].
  destruct Hst as [(k' & -> & Hk')|[_ Hni]].
  { intuition congruence. }
  - rewrite (NoDup_lookup _ _ _ _ Hnd Hk' Hk). do 2 f_equal. lia.
  - destruct Hni. by apply list_elem_of_lookup_2 with k.
Qed.

(** ** Witnesses: two headers above a broadcast block, three validators *)

Definition w_bc : BCIntervalInfo := mkBCIntervalInfo 300 300 100 0 0.
Definition w_header (number parent leader : Z) : Header :=
  mkHeader parent leader 0 number 0 [] VersionGamma [].
Definition w_chain (hash number : Z) : option Header :=
  if (hash =? 7) && (number =? 399) then Some (w_header 399 6 12) else None.
Definition w_validators : list TopologyNodeInfo :=
  [mkNode 11 0 RoleValidator 0; mkNode 12 1 RoleValidator 1; mkNode 13 2 RoleValidator 2].
Definition w_calc : leaderCalculator :=
  mkLeaderCal 401 999 5 (fillLeaderList 2 w_validators ∅ (seq 0 3)) w_validators
    (mkSpecials [] None None).

Lemma w_not_bc : ~ bc_height w_bc 401 /\ ~ bc_height w_bc 402.
Proof. split; intros [_ [k Hk]]; simpl in Hk; lia. Qed.

Lemma w_not_reelect : ~ reelect_height w_bc 401 /\ ~ reelect_height w_bc 400.
Proof. split; intros [_ [k Hk]]; unfold ReelectionTimes in Hk; simpl in Hk; lia. Qed.

Lemma w_store hash n hd : w_chain hash n = Some hd -> hNumber hd = n.
Proof.
  unfold w_chain. destruct (Z.eqb_spec hash 7), (Z.eqb_spec n 399); simpl; try done.
  by intros [= <-].
Qed.

Lemma getRealPreLeader_total_witness :
  (exists l s, getRealPreLeader w_chain (w_header 400 7 999) w_bc = Some (Ok (l, s))
               /\ realPre w_chain w_bc (w_header 400 7 999) l s)
  \/ (getRealPreLeader w_chain (w_header 400 7 999) w_bc = Some Panic
      /\ forall l s, ~ realPre w_chain w_bc (w_header 400 7 999) l s).
Proof.
  apply (getRealPreLeader_total w_chain w_bc (w_header 400 7 999));
    [reflexivity|unfold is_u64; simpl; lia|exact w_store].
Defined.

Lemma leader_round_robin_witness :
  exists ls, ls ≡ₚ [11; 12; 13] /\
    forall i a, ls !! i = Some a ->
      exists nx, GetLeader w_calc (5 + Z.of_nat i) (Some w_bc) = Ok (mkLeaderData a nx) /\
        (~ bc_height w_bc (u64 (401 + 1)) -> forall b, ls !! S i = Some b -> nx = b).
Proof.
  apply (leader_round_robin w_chain (fun _ => 5) (newLeaderCalculator 401)
           (w_header 400 7 999) w_validators (Some (mkSpecials [] None None)) w_bc w_calc 5);
    try (simpl; lia); [vm_compute; reflexivity|apply w_not_bc|apply w_not_reelect].
Defined.

Lemma first_leader_is_successor_witness :
  exists a nx, GetLeader w_calc 0 (Some w_bc) = Ok (mkLeaderData a nx) /\
               accounts w_validators !! (2 `mod` 3)%nat = Some a.
Proof.
  apply (first_leader_is_successor w_chain (fun _ => 5) (newLeaderCalculator 401)
           (w_header 400 7 999) w_validators (Some (mkSpecials [] None None)) w_bc w_calc 12 1);
    try (simpl; lia); try (vm_compute; reflexivity);
    [apply w_not_bc|apply w_not_reelect|apply w_not_reelect|].
  apply (bool_decide_unpack _). vm_compute. exact I.
Defined.
