(* ===== verification/Cdc.v ===== *)
(** * Decision centre of the leader service ([leaderelect2.0/cdc.go])

    [cdc] holds what a validator knows about the height it works on: the
    parent state, the leader calculator, the turn clock and the current
    consensus and re-election turns with their leaders.  It is also the state
    reader the consensus engine is given.  The file models all of it and proves
    that the cached leaders are those of the current turns, and that the
    account relations it reads are inverse to each other. *)

From S2P Require Import GoLang Broadcast Roles Turns Topology TurnTimes Header Reader.
From S2P Require Import LeaderCal Prelude.

(** What a state database reveals: [matrixstate.Get*], [depoistInfo.Get*] and
    the entrust relations of the MAN coin. *)
Record StateDB := mkStateDB {
  st_TopologyGraph : res read_error (option TopologyGraph);
  st_BroadcastAccounts : res read_error (list Z);
  st_VersionSuperAccounts : res read_error (option (list Z));
  st_BlockSuperAccounts : res read_error (option (list Z));
  st_LeaderConfig : res read_error (option LeaderConfig);
  st_BroadcastInterval : res read_error (option BCIntervalInfo);
  st_GetAuthAccount : Z -> Z;
  st_GetDepositAccount : Z -> Z;
  st_GetEntrustFrom : Z -> Z -> list Z;
  st_GetAuthFrom : Z -> Z -> Z
}.

(** The parts of [core.BlockChain] the decision centre calls. *)
Record BlockChain := mkChain {
  ch_GetHeader : Z -> Z -> option Header;
  ch_reader : StateReader;
  ch_GetGraphByState : option StateDB -> res read_error (TopologyGraph * ElectGraph);
  ch_GetA2AccountsFromA0Account : Z -> Z -> res read_error (list Z);
  ch_GetA2AccountsFromA0AccountAtSignHeight : Z -> Z -> Z -> res read_error (list Z);
  ch_GetA0AccountFromAnyAccountAtSignHeight : Z -> Z -> Z -> res read_error (Z * Z)
}.

Inductive cdc_error :=
| errParentNil
| errTopologyNil
| errConfigNil
| errIntervalNil
| errTimeConfig
| errRead (e : read_error)
| errLeader (e : leader_error).

Record cdc := mkCdc {
  state : stateDef;
  number : Z;
  selfAddr : Z;
  selfNodeAddr : Z;
  role : Z;
  curConsensusTurn : ConsensusTurnInfo;
  consensusLeader : Z;
  curReelectTurn : Z;
  reelectMaster : Z;
  isMaster : bool;
  leaderCal : leaderCalculator;
  bcInterval : option BCIntervalInfo;
  parentState : option StateDB;
  turnTime : turnTimes
}.

Record LeaderChangeNotify := mkLeaderChange {
  lcnConsensusState : bool;
  lcnPreLeader : Z;
  lcnLeader : Z;
  lcnNextLeader : Z;
  lcnNumber : Z;
  lcnConsensusTurn : ConsensusTurnInfo;
  lcnReelectTurn : Z;
  lcnTurnBeginTime : Z;
  lcnTurnEndTime : Z
}.

(** [if err != nil { return err }] of a method that updates the receiver: the
    receiver keeps the updates made so far. *)
Definition attempt {S E A} (m : res E A) (s : S) (k : A -> option (eff (S * option E)))
  : option (eff (S * option E)) :=
  match m with
  | Ok a => k a
  | Err e => Some (Ok (s, Some e))
  | Panic => Some Panic
  end.

Notation "'try*' x := m 'keeping' s 'in' k" := (attempt m s (fun x => k))
  (at level 10, x pattern, m at level 100, s at level 100, k at level 200,
   format "'[v' 'try*'  x  :=  m  'keeping'  s  'in' '/' k ']'") : go_scope.

Definition newCDC (number : Z) : cdc :=
  mkCdc stIdle number zero_addr zero_addr RoleNil (mkTurn 0 0) zero_addr 0 zero_addr false
    (newLeaderCalculator number) None None newTurnTimes.

(** Field updates. *)
Definition with_state (dc : cdc) (st : stateDef) : cdc :=
  mkCdc st (number dc) (selfAddr dc) (selfNodeAddr dc) (role dc) (curConsensusTurn dc)
    (consensusLeader dc) (curReelectTurn dc) (reelectMaster dc) (isMaster dc) (leaderCal dc)
    (bcInterval dc) (parentState dc) (turnTime dc).
Definition with_self (dc : cdc) (addr node : Z) : cdc :=
  mkCdc (state dc) (number dc) addr node (role dc) (curConsensusTurn dc)
    (consensusLeader dc) (curReelectTurn dc) (reelectMaster dc) (isMaster dc) (leaderCal dc)
    (bcInterval dc) (parentState dc) (turnTime dc).
Definition with_consensus (dc : cdc) (turn : ConsensusTurnInfo) (leader : Z) : cdc :=
  mkCdc (state dc) (number dc) (selfAddr dc) (selfNodeAddr dc) (role dc) turn leader
    (curReelectTurn dc) (reelectMaster dc) (isMaster dc) (leaderCal dc)
    (bcInterval dc) (parentState dc) (turnTime dc).
Definition with_reelect (dc : cdc) (turn master : Z) : cdc :=
  mkCdc (state dc) (number dc) (selfAddr dc) (selfNodeAddr dc) (role dc) (curConsensusTurn dc)
    (consensusLeader dc) turn master (isMaster dc) (leaderCal dc)
    (bcInterval dc) (parentState dc) (turnTime dc).
Definition with_master (dc : cdc) (b : bool) : cdc :=
  mkCdc (state dc) (number dc) (selfAddr dc) (selfNodeAddr dc) (role dc) (curConsensusTurn dc)
    (consensusLeader dc) (curReelectTurn dc) (reelectMaster dc) b (leaderCal dc)
    (bcInterval dc) (parentState dc) (turnTime dc).
Definition with_leaderCal (dc : cdc) (lc : leaderCalculator) : cdc :=
  mkCdc (state dc) (number dc) (selfAddr dc) (selfNodeAddr dc) (role dc) (curConsensusTurn dc)
    (consensusLeader dc) (curReelectTurn dc) (reelectMaster dc) (isMaster dc) lc
    (bcInterval dc) (parentState dc) (turnTime dc).
Definition with_turnTime (dc : cdc) (tt : turnTimes) : cdc :=
  mkCdc (state dc) (number dc) (selfAddr dc) (selfNodeAddr dc) (role dc) (curConsensusTurn dc)
    (consensusLeader dc) (curReelectTurn dc) (reelectMaster dc) (isMaster dc) (leaderCal dc)
    (bcInterval dc) (parentState dc) tt.
Definition with_parent (dc : cdc) (bc : BCIntervalInfo) (leader : Z) (ps : StateDB) (r : Z) : cdc :=
  mkCdc (state dc) (number dc) (selfAddr dc) (selfNodeAddr dc) r (curConsensusTurn dc)
    leader (curReelectTurn dc) (reelectMaster dc) (isMaster dc) (leaderCal dc)
    (Some bc) (Some ps) (turnTime dc).

(** ** Reading the parent state *)

Definition getRoleFromTopology (dc : cdc) (g : TopologyGraph) : Z :=
  match List.find (fun v => Account v =? selfAddr dc) (NodeList g) with
  | Some v => Type_ v
  | None => RoleNil
  end.

Definition readValidatorsAndRoleFromState (dc : cdc) (st : StateDB)
  : res cdc_error (list TopologyNodeInfo * Z) :=
  let* topology := res_wrap errRead (st_TopologyGraph st) in
  match topology with
  | None => Err errTopologyNil
  | Some topology =>
      Ok (filter (fun node => Type_ node = RoleValidator) (NodeList topology),
          getRoleFromTopology dc topology)
  end.

Definition readSpecialAccountsFromState (st : StateDB) : res cdc_error specialAccounts :=
  let* broadcasts := res_wrap errRead (st_BroadcastAccounts st) in
  let* versionSupers := res_wrap errRead (st_VersionSuperAccounts st) in
  let* blockSupers := res_wrap errRead (st_BlockSuperAccounts st) in
  Ok (mkSpecials broadcasts versionSupers blockSupers).

Definition readLeaderConfigFromState (st : StateDB) : res cdc_error LeaderConfig :=
  let* config := res_wrap errRead (st_LeaderConfig st) in
  match config with None => Err errConfigNil | Some c => Ok c end.

Definition readBroadCastIntervalFromState (st : StateDB) : res cdc_error BCIntervalInfo :=
  let* interval := res_wrap errRead (st_BroadcastInterval st) in
  match interval with None => Err errIntervalNil | Some i => Ok i end.

(** ** Turns and leaders *)

Definition cdc_GetLeader (dc : cdc) (turn : Z) (bc : option BCIntervalInfo) : res cdc_error Z :=
  let* leaders := res_wrap errLeader (GetLeader (leaderCal dc) turn bc) in
  Ok (leader leaders).

Definition SetConsensusTurn (dc : cdc) (consensusTurn : ConsensusTurnInfo) : res cdc_error cdc :=
  let* l := cdc_GetLeader dc (TotalTurns consensusTurn) (bcInterval dc) in
  Ok (with_reelect (with_consensus dc consensusTurn l) 0 zero_addr).

Definition SetReelectTurn (dc : cdc) (reelectTurn : Z) : res cdc_error cdc :=
  if curReelectTurn dc =? reelectTurn then Ok dc
  else if reelectTurn =? 0 then Ok (with_reelect dc 0 zero_addr)
  else
    let* master := cdc_GetLeader dc (u32 (TotalTurns (curConsensusTurn dc) + reelectTurn))
                     (bcInterval dc) in
    Ok (with_reelect dc reelectTurn master).

Definition PrepareLeaderMsg (dc : cdc) : res cdc_error LeaderChangeNotify :=
  let total := TotalTurns (curConsensusTurn dc) in
  let* leaders := res_wrap errLeader
                    (GetLeader (leaderCal dc) (u32 (total + curReelectTurn dc)) (bcInterval dc)) in
  let (beginTime, endTime) := CalTurnTime (turnTime dc) total (curReelectTurn dc) in
  Ok (mkLeaderChange (negb (bool_decide (state dc = stReelect))) (preLeader (leaderCal dc))
        (leader leaders) (nextLeader leaders) (number dc) (curConsensusTurn dc)
        (curReelectTurn dc) beginTime endTime).

Section Chain.
Context `{HeaderHash} (chain : BlockChain).

(** The read results are pure, so the reads come first; the receiver is
    updated from [SetValidatorsAndSpecials] on. *)
Definition AnalysisState (dc : cdc) (parentHeader : option Header) (ps : option StateDB)
  : option (eff (cdc * option cdc_error)) :=
  match ps, parentHeader with
  | Some ps, Some parentHeader =>
      try* (vs, r) := readValidatorsAndRoleFromState dc ps keeping dc in
      try* specials := readSpecialAccountsFromState ps keeping dc in
      try* config := readLeaderConfigFromState ps keeping dc in
      try* bc := readBroadCastIntervalFromState ps keeping dc in
      match SetValidatorsAndSpecials (ch_GetHeader chain) header_Hash (leaderCal dc)
              (Some parentHeader) (Some vs) (Some specials) (Some bc) with
      | None => None
      | Some set =>
          try* lc := res_wrap errLeader set keeping dc in
          let dc := with_leaderCal dc lc in
          let consensusIndex := TotalTurns (curConsensusTurn dc) in
          try* l := cdc_GetLeader dc consensusIndex (Some bc) keeping dc in
          let finish (dc : cdc) :=
            match SetTimeConfig (turnTime dc) (Some config) with
            | None => Some (Ok (dc, Some errTimeConfig))
            | Some times => Some (Ok (with_parent (with_turnTime dc times) bc l ps r, None))
            end in
          if negb (curReelectTurn dc =? 0) then
            try* master := cdc_GetLeader dc (u32 (consensusIndex + curReelectTurn dc)) (Some bc)
              keeping dc in
            finish (with_reelect dc (curReelectTurn dc) master)
          else finish (with_reelect dc (curReelectTurn dc) zero_addr)
      end
  | _, _ => Some (Ok (dc, Some errParentNil))
  end.

(** ** The reader interface of the consensus engine *)

Definition cdc_GetCurrentHash (dc : cdc) : Z := preHash (leaderCal dc).

(** Reads at the parent block are answered from the cache, others by the chain;
    the zero hash is refused. *)
Definition at_hash {A} (dc : cdc) (hash : Z) (cached : res read_error A)
    (fromChain : Z -> res read_error A) : res read_error A :=
  if hash =? zero_hash then Err ErrRead
  else if hash =? preHash (leaderCal dc) then cached
  else fromChain hash.

Definition cdc_GetGraphByHash (dc : cdc) (hash : Z)
  : res read_error (TopologyGraph * ElectGraph) :=
  at_hash dc hash (ch_GetGraphByState chain (parentState dc))
    (sr_GetGraphByHash (ch_reader chain)).

Definition cdc_GetBroadcastAccounts (dc : cdc) (hash : Z) : res read_error (list Z) :=
  at_hash dc hash (Ok (broadcasts (lcSpecials (leaderCal dc))))
    (sr_GetBroadcastAccounts (ch_reader chain)).

Definition cdc_GetVersionSuperAccounts (dc : cdc) (hash : Z)
  : res read_error (option (list Z)) :=
  at_hash dc hash (Ok (versionSupers (lcSpecials (leaderCal dc))))
    (sr_GetVersionSuperAccounts (ch_reader chain)).

Definition cdc_GetBlockSuperAccounts (dc : cdc) (hash : Z)
  : res read_error (option (list Z)) :=
  at_hash dc hash (Ok (blockSupers (lcSpecials (leaderCal dc))))
    (sr_GetBlockSuperAccounts (ch_reader chain)).

Definition cdc_GetBroadcastIntervalByHash (dc : cdc) (hash : Z)
  : res read_error BCIntervalInfo :=
  at_hash dc hash
    (match bcInterval dc with None => Err ErrRead | Some bc => Ok bc end)
    (sr_GetBroadcastIntervalByHash (ch_reader chain)).

(** ** Deposit (A0), authorised (A1) and entrusted (A2) accounts *)

Definition getA2Accounts (dc : cdc) (a0Account signHeight : Z) : res read_error (list Z) :=
  match parentState dc with
  | None => Err ErrRead
  | Some st =>
      let a1Account := st_GetAuthAccount st a0Account in
      if a1Account =? zero_addr then Err ErrRead
      else Ok (st_GetEntrustFrom st a1Account signHeight ++ [a1Account])
  end.

Definition getA0Account (dc : cdc) (account signHeight : Z) : res read_error (Z * Z) :=
  match parentState dc with
  | None => Err ErrRead
  | Some st =>
      let a0Account := st_GetDepositAccount st account in
      if negb (a0Account =? zero_addr) then Ok (a0Account, account)
      else
        let a1Account := st_GetAuthFrom st account signHeight in
        if a1Account =? zero_addr then Err ErrRead
        else
          let a0Account := st_GetDepositAccount st a1Account in
          if negb (a0Account =? zero_addr) then Ok (a0Account, a1Account) else Err ErrRead
  end.

Definition GetA2AccountsFromA0Account (dc : cdc) (a0Account hash : Z)
  : res read_error (list Z) :=
  at_hash dc hash (getA2Accounts dc a0Account (u64 (number dc - 1)))
    (ch_GetA2AccountsFromA0Account chain a0Account).

Definition GetA0AccountFromAnyAccount (dc : cdc) (account hash : Z)
  : res read_error (Z * Z) :=
  at_hash dc hash (getA0Account dc account (u64 (number dc - 1)))
    (sr_GetA0AccountFromAnyAccount (ch_reader chain) account).

Definition GetA2AccountsFromA0AccountAtSignHeight (dc : cdc) (a0Account hash signHeight : Z)
  : res read_error (list Z) :=
  at_hash dc hash (getA2Accounts dc a0Account signHeight)
    (fun hash => ch_GetA2AccountsFromA0AccountAtSignHeight chain a0Account hash signHeight).

Definition GetA0AccountFromAnyAccountAtSignHeight (dc : cdc) (account hash signHeight : Z)
  : res read_error (Z * Z) :=
  at_hash dc hash (getA0Account dc account signHeight)
    (fun hash => ch_GetA0AccountFromAnyAccountAtSignHeight chain account hash signHeight).

(** The decision centre as the engine's reader. *)
Definition cdc_reader (dc : cdc) : StateReader :=
  mkReader (cdc_GetCurrentHash dc) (cdc_GetGraphByHash dc) (cdc_GetBroadcastAccounts dc)
    (cdc_GetVersionSuperAccounts dc) (cdc_GetBlockSuperAccounts dc)
    (cdc_GetBroadcastIntervalByHash dc) (GetA0AccountFromAnyAccount dc).
End Chain.

(** ** The cached leaders are those of the current turns *)

(** The calculator can answer for [bc]: it has leaders and [bc] a period. *)
Definition cal_ready (lc : leaderCalculator) (bc : BCIntervalInfo) : Prop :=
  0 < BCInterval bc /\ 0 < u32 (Z.of_nat (size (leaderList lc))).

(** The leader of a turn, zero at broadcast and re-election heights. *)
Definition turn_leader (dc : cdc) (bc : BCIntervalInfo) (turn l : Z) : Prop :=
  cdc_GetLeader dc turn (Some bc) = Ok l.

Record dc_coherent (dc : cdc) : Prop := {
  co_number : lcNumber (leaderCal dc) = number dc;
  co_none : bcInterval dc = None -> leaderList (leaderCal dc) = ∅;
  co_ready : forall bc, bcInterval dc = Some bc -> cal_ready (leaderCal dc) bc;
  co_leader : forall bc, bcInterval dc = Some bc ->
    turn_leader dc bc (TotalTurns (curConsensusTurn dc)) (consensusLeader dc);
  co_master : forall bc, bcInterval dc = Some bc -> curReelectTurn dc <> 0 ->
    turn_leader dc bc (u32 (TotalTurns (curConsensusTurn dc) + curReelectTurn dc))
      (reelectMaster dc)
}.

Lemma cdc_GetLeader_ready dc bc turn :
  cal_ready (leaderCal dc) bc -> exists l, cdc_GetLeader dc turn (Some bc) = Ok l.
Proof.
  intros [Hi Hn]. unfold cdc_GetLeader, GetLeader.
  destruct (Z.eqb_spec (u32 (Z.of_nat (size (leaderList (leaderCal dc))))) 0); [lia|].
  destruct (IsReElectionNumber_spec (E := leader_error) bc Hi (lcNumber (leaderCal dc)))
    as (b & -> & _). destruct b; [by eexists|].
  destruct (IsBroadcastNumber_spec (E := leader_error) bc Hi (lcNumber (leaderCal dc)))
    as (b & -> & _). destruct b; [by eexists|].
  destruct (IsBroadcastNumber_spec (E := leader_error) bc Hi (u64 (lcNumber (leaderCal dc) + 1)))
    as (b & -> & _). by eexists.
Qed.

Lemma cdc_GetLeader_empty dc turn bc :
  leaderList (leaderCal dc) = ∅ -> exists e, cdc_GetLeader dc turn bc = Err e.
Proof.
  intros He. unfold cdc_GetLeader, GetLeader. rewrite He, map_size_empty.
  destruct bc; by eexists.
Qed.

Lemma newCDC_coherent n : dc_coherent (newCDC n).
Proof. by split. Qed.

Lemma SetConsensusTurn_coherent dc turn dc' :
  dc_coherent dc -> SetConsensusTurn dc turn = Ok dc' ->
  dc_coherent dc' /\ curConsensusTurn dc' = turn /\ curReelectTurn dc' = 0.
Proof.
  intros Hco Hs. unfold SetConsensusTurn in Hs.
  apply res_bind_Ok in Hs as (l & Hl & [= <-]). destruct Hco as [Hn Hno Hr _ _].
  split; [|done]. split; simpl; try done. intros bc Hbc. rewrite Hbc in Hl. exact Hl.
Qed.

Lemma SetReelectTurn_coherent dc turn dc' :
  dc_coherent dc -> SetReelectTurn dc turn = Ok dc' ->
  dc_coherent dc' /\ curConsensusTurn dc' = curConsensusTurn dc /\ curReelectTurn dc' = turn.
Proof.
  intros Hco Hs. unfold SetReelectTurn in Hs.
  destruct (Z.eqb_spec (curReelectTurn dc) turn) as [Ht|Ht]; [by simplify_eq|].
  destruct (Z.eqb_spec turn 0) as [->|H0].
  { simplify_eq. destruct Hco. by split. }
  apply res_bind_Ok in Hs as (l & Hl & [= <-]). destruct Hco as [Hn Hno Hr Hle _].
  split; [|done]. split; simpl; try done. intros bc Hbc _. rewrite Hbc in Hl. exact Hl.
Qed.

(** The parent state of a running chain: its topology has validators and its
    broadcast interval a period. *)
Definition state_ok (ps : StateDB) : Prop :=
  (forall g, st_TopologyGraph ps = Ok (Some g) ->
     0 < Z.of_nat (length (filter (fun node => Type_ node = RoleValidator) (NodeList g))) < 2 ^ 32) /\
  (forall bc, st_BroadcastInterval ps = Ok (Some bc) -> 0 < BCInterval bc).

Lemma readValidators_ok dc ps vs r :
  state_ok ps -> readValidatorsAndRoleFromState dc ps = Ok (vs, r) ->
  0 < Z.of_nat (length vs) < 2 ^ 32.
Proof.
  intros [Ht _]. unfold readValidatorsAndRoleFromState.
  destruct (st_TopologyGraph ps) as [[g|]| |]; try done. intros [= <- _]. by apply Ht.
Qed.

Lemma readInterval_ok ps bc :
  state_ok ps -> readBroadCastIntervalFromState ps = Ok bc -> 0 < BCInterval bc.
Proof.
  intros [_ Hb]. unfold readBroadCastIntervalFromState.
  destruct (st_BroadcastInterval ps) as [[b|]| |]; try done. intros [= <-]. by apply Hb.
Qed.

(** What a call of [AnalysisState] can leave behind. *)
Inductive analysed (dc : cdc) (ps : StateDB) : cdc -> option cdc_error -> Prop :=
| analysed_err e : analysed dc ps dc (Some e)
| analysed_ok dc' bc :
    bcInterval dc' = Some bc -> parentState dc' = Some ps ->
    curConsensusTurn dc' = curConsensusTurn dc -> curReelectTurn dc' = curReelectTurn dc ->
    state dc' = state dc -> number dc' = number dc -> isMaster dc' = isMaster dc ->
    selfAddr dc' = selfAddr dc -> selfNodeAddr dc' = selfNodeAddr dc ->
    beginTime (turnTime dc') = beginTime (turnTime dc) ->
    dc_coherent dc' -> analysed dc ps dc' None.

Lemma attempt_Ok {S E A} (m : res E A) (s : S) k r :
  attempt m s k = Some (Ok r) ->
  (exists a, m = Ok a /\ k a = Some (Ok r)) \/ (exists e, m = Err e /\ r = (s, Some e)).
Proof. destruct m; simpl; intros [=]; subst; eauto. Qed.

Section AnalysisProofs.
Context `{HeaderHash} (chain : BlockChain).

Lemma AnalysisState_spec dc h ps dc' err :
  lcNumber (leaderCal dc) = number dc -> state_ok ps ->
  AnalysisState chain dc (Some h) (Some ps) = Some (Ok (dc', err)) ->
  analysed dc ps dc' err.
Proof.
  intros Hnum Hok Ha. unfold AnalysisState in Ha.
  apply attempt_Ok in Ha as [([vs r] & Hvs & Ha)|(e & _ & [= -> ->])]; [|constructor].
  apply attempt_Ok in Ha as [(sp & Hsp & Ha)|(e & _ & [= -> ->])]; [|constructor].
  apply attempt_Ok in Ha as [(cfg & Hcfg & Ha)|(e & _ & [= -> ->])]; [|constructor].
  apply attempt_Ok in Ha as [(bc & Hbc & Ha)|(e & _ & [= -> ->])]; [|constructor].
  pose proof (readValidators_ok _ _ _ _ Hok Hvs) as Hlen.
  pose proof (readInterval_ok _ _ Hok Hbc) as Hi.
  destruct (SetValidatorsAndSpecials _ _ _ _ _ _ _) as [set|] eqn:Hset; [|done].
  apply attempt_Ok in Ha as [(lc & Hlc & Ha)|(e & _ & [= -> ->])]; [|constructor].
  destruct set as [lc'| |]; [injection Hlc as ->|discriminate|discriminate].
  destruct (SetValidators_rotated _ _ _ _ _ _ _ _ Hset Hi ltac:(lia))
    as (Hval & Hln & start & _ & _ & _ & _ & [Hsz _]).
  assert (Hrd : cal_ready lc bc).
  { split; [done|]. rewrite Hsz, Hval, u32_small by (unfold is_u32; lia). lia. }
  destruct (cdc_GetLeader_ready (with_leaderCal dc lc) bc
              (TotalTurns (curConsensusTurn dc)) Hrd) as [l Hl].
  simpl in Ha. rewrite Hl in Ha. simpl in Ha.
  destruct (Z.eqb_spec (curReelectTurn dc) 0) as [H0|H0]; simpl in Ha.
  - simplify_eq. eapply analysed_ok; try done. split; simpl; try congruence.
    all: by intros ? [= <-].
  - destruct (cdc_GetLeader_ready (with_leaderCal dc lc) bc
              (u32 (TotalTurns (curConsensusTurn dc) + curReelectTurn dc)) Hrd) as [ma Hma].
    rewrite Hma in Ha. simplify_eq/=. eapply analysed_ok; try done. split; simpl; try congruence.
    all: by intros ? [= <-].
Qed.
End AnalysisProofs.

(** ** Account relations *)

(** The relations of a state are consistent: an authorised account leads back
    to its deposit account, and an account entrusted by [a1] is authorised by
    [a1] and has no deposit of its own. *)
Definition accounts_consistent (st : StateDB) (h : Z) : Prop :=
  (forall a0, a0 <> zero_addr -> st_GetAuthAccount st a0 <> zero_addr ->
     st_GetDepositAccount st (st_GetAuthAccount st a0) = a0) /\
  (forall a1 a2, a2 ∈ st_GetEntrustFrom st a1 h ->
     st_GetAuthFrom st a2 h = a1 /\ st_GetDepositAccount st a2 = zero_addr).

(** Signing accounts resolve back: every account that may sign for a
    deposit account is resolved by the decision centre to that deposit account
    and to its authorised account. *)
Theorem a2_a0_roundtrip dc st a0 h l a :
  parentState dc = Some st -> accounts_consistent st h -> a0 <> zero_addr ->
  getA2Accounts dc a0 h = Ok l -> a ∈ l ->
  getA0Account dc a h = Ok (a0, st_GetAuthAccount st a0).
Proof.
  intros Hst [Hdep Hent] H0. unfold getA2Accounts, getA0Account. rewrite Hst.
  destruct (Z.eqb_spec (st_GetAuthAccount st a0) zero_addr) as [|H1]; [done|].
  intros [= <-] Hin. apply elem_of_app in Hin as [Hin|Hin].
  - destruct (Hent _ _ Hin) as [-> ->]. rewrite Z.eqb_refl. simpl.
    rewrite Hdep by done. destruct (Z.eqb_spec (st_GetAuthAccount st a0) zero_addr); [done|].
    destruct (Z.eqb_spec a0 zero_addr); done.
  - apply list_elem_of_singleton in Hin as ->. rewrite Hdep by done.
    destruct (Z.eqb_spec a0 zero_addr); done.
Qed.

Definition w_state (g : TopologyGraph) : StateDB :=
  mkStateDB (Ok (Some g)) (Ok []) (Ok None) (Ok None) (Ok (Some (mkLeaderConfig 20 20 20 3)))
    (Ok (Some w_bc)) (fun a => if a =? 5 then 6 else 0) (fun a => if a =? 6 then 5 else 0)
    (fun a _ => if a =? 6 then [7; 8] else []) (fun a _ => if (a =? 7) || (a =? 8) then 6 else 0).
Definition w_cdc : cdc :=
  with_parent (with_leaderCal (newCDC 401) w_calc) w_bc 13 (w_state (mkGraph w_validators 2)) RoleValidator.

Lemma w_accounts g : accounts_consistent (w_state g) 9.
Proof.
  split; simpl.
  - intros a0 H0 H1. by destruct (Z.eqb_spec a0 5) as [->|].
  - intros a1 a2. destruct (Z.eqb_spec a1 6) as [->|]; [|by intros ?%not_elem_of_nil].
    rewrite !elem_of_cons. intros [->|[->|[]%not_elem_of_nil]]; done.
Qed.

Lemma a2_a0_roundtrip_witness : getA0Account w_cdc 8 9 = Ok (5, 6).
Proof.
  apply (a2_a0_roundtrip w_cdc (w_state (mkGraph w_validators 2)) 5 9 [7; 8; 6] 8);
    [reflexivity|apply w_accounts|discriminate|reflexivity|set_solver].
Defined.

Definition w_blockchain : BlockChain :=
  mkChain w_chain
    (mkReader 0 (fun _ => Err ErrRead) (fun _ => Err ErrRead) (fun _ => Err ErrRead)
       (fun _ => Err ErrRead) (fun _ => Err ErrRead) (fun _ _ => Err ErrRead))
    (fun _ => Err ErrRead) (fun _ _ => Err ErrRead) (fun _ _ _ => Err ErrRead)
    (fun _ _ _ => Err ErrRead).

Lemma w_cdc_coherent : dc_coherent w_cdc.
Proof. split; try done; intros bc [= <-]; by vm_compute. Qed.

(** [AnalysisState] is not atomic.  When the topology of a new parent state
    lists no validator, the call reports an error after the calculator has
    already been switched to the new parent: the current hash is that of the new
    parent while the cached leader, interval and state are still the old ones,
    and the leader of the current turn can no longer be computed. *)
Theorem analysis_not_atomic `{HeaderHash} :
  dc_coherent w_cdc /\
  exists dc' e,
    AnalysisState w_blockchain w_cdc (Some (w_header 400 7 999)) (Some (w_state (mkGraph [] 0)))
    = Some (Ok (dc', Some e)) /\
    cdc_GetCurrentHash dc' = header_Hash (w_header 400 7 999) /\
    consensusLeader dc' = consensusLeader w_cdc /\ parentState dc' = parentState w_cdc /\
    forall bc, ~ turn_leader dc' bc (TotalTurns (curConsensusTurn dc')) (consensusLeader dc').
Proof.
  split; [exact w_cdc_coherent|]. eexists _, _. split; [vm_compute; reflexivity|]. done.
Qed.
