(* ===== verification/Controller.v ===== *)
(** * Controller of a height ([leaderelect2.0/controller.go, ctrlHandle.go, ctrlReelection.go])

    One controller per height runs the leader protocol: it follows the turn
    clock, asks the other validators when a turn has timed out, collects their
    votes as the master of a re-election turn, and moves to the next consensus
    turn when a re-election result is proved by votes.  Every handler is a
    function on the controller's state; what it sends is appended to [outs].
    Reading the wall clock takes the next value of a stream of readings. *)

From S2P Require Import GoLang Broadcast Roles Turns Topology TurnTimes Header.
From S2P Require Import Reader Dpos Crypto SignHelper LeaderMsgs LeaderCal Cdc Prelude.

(** What the controller gets from the rest of the node: hashing, signatures,
    the key store, the chain, the clock, the node's own accounts and the
    consensus engines. *)
Class LeaderEnv := {
  le_headerHash :: HeaderHash;
  le_rlpHash :: RlpHash;
  le_curve :: Secp256k1;
  le_range :: GoRange;
  le_keyStore : KeyStore;
  le_signAddress : Z;
  le_chain : BlockChain;
  le_clock : nat -> Z;
  (** [Engine(version).VerifyHeader(chain, header, seal)] returned no error *)
  le_VerifyHeader : string -> Header -> bool -> bool;
  (** the mode the DPOS engine of a version was created with *)
  le_dposMode : string -> bool
}.

Definition RecoveryTypePOS : Z := 0.
Definition RecoveryTypeFullHeader : Z := 1.

(** Messages and events a controller sends; a target of [None] addresses all
    validators. *)
Inductive output :=
| OutLeaderChange (msg : LeaderChangeNotify)
| OutRecovery (type : Z) (header : Header) (from : Z) (isBroadcast : bool)
| OutFetcherNotify (hash number from : Z)
| OutInquiryReq (req : HD_V2_ReelectInquiryReqMsg) (target : option Z)
| OutInquiryRsp (rsp : HD_V2_ReelectInquiryRspMsg) (target : Z)
| OutRLReq (req : HD_V2_ReelectLeaderReqMsg)
| OutRLVote (vote : HD_V2_ConsensusVote) (target : Z)
| OutBroadcast (msg : HD_V2_ReelectBroadcastMsg)
| OutBroadcastRsp (rsp : HD_V2_ReelectBroadcastRspMsg) (target : Z).

(** A timer is stopped or set to a number of seconds. *)
Record controller := mkController {
  timer : option Z;
  reelectTimer : option Z;
  dc : cdc;
  mp : msgPool;
  selfCache : masterCache;
  ticks : nat;
  outs : list output
}.

Record startControllerMsg := mkStart {
  smParentHeader : option Header;
  smParentStateDB : StateDB
}.

Definition newController (number : Z) : controller :=
  mkController None None (newCDC number) newMsgPool (newMasterCache number) 0 [].

Definition up_dc (c : controller) (d : cdc) : controller :=
  mkController (timer c) (reelectTimer c) d (mp c) (selfCache c) (ticks c) (outs c).
Definition up_mp (c : controller) (m : msgPool) : controller :=
  mkController (timer c) (reelectTimer c) (dc c) m (selfCache c) (ticks c) (outs c).
Definition up_cache (c : controller) (m : masterCache) : controller :=
  mkController (timer c) (reelectTimer c) (dc c) (mp c) m (ticks c) (outs c).
Definition emit (c : controller) (o : output) : controller :=
  mkController (timer c) (reelectTimer c) (dc c) (mp c) (selfCache c) (ticks c) (outs c ++ [o]).
Definition tick (c : controller) : controller :=
  mkController (timer c) (reelectTimer c) (dc c) (mp c) (selfCache c) (S (ticks c)) (outs c).

(** [setTimer]: a pending expiry is drained, so only the new setting counts. *)
Definition timer_value (outTime : Z) : option Z := if outTime <=? 0 then None else Some outTime.
Definition setTimer (c : controller) (outTime : Z) : controller :=
  mkController (timer_value outTime) (reelectTimer c) (dc c) (mp c) (selfCache c) (ticks c) (outs c).
Definition setReelectTimer (c : controller) (outTime : Z) : controller :=
  mkController (timer c) (timer_value outTime) (dc c) (mp c) (selfCache c) (ticks c) (outs c).

Definition State (c : controller) : stateDef := state (dc c).
Definition Number (c : controller) : Z := number (dc c).
Definition ParentHash (c : controller) : Z := preHash (leaderCal (dc c)).
Definition setState (c : controller) (st : stateDef) : controller := up_dc c (with_state (dc c) st).

Section Handlers.
Context `{LeaderEnv}.

Definition timeNow (c : controller) : Z := le_clock (ticks c).

Definition auth_reader (d : cdc) : AuthReader :=
  mkAuth (GetA2AccountsFromA0Account le_chain d) (GetA0AccountFromAnyAccount le_chain d).

(** Signing and verifying at the parent block. *)
Definition signHash (c : controller) (hash : Z) : res read_error Z :=
  SignHashWithValidateByReader le_keyStore (auth_reader (dc c)) hash true (ParentHash c).
Definition verifyVote (d : cdc) (hash sign : Z) : res read_error (Z * Z * bool) :=
  VerifySignWithValidateByReader (auth_reader d) hash sign (preHash (leaderCal d)).

Definition dposEngine (version : string) : Config := NewMtxDPOS (le_dposMode version).

(** [self.mp.parentHeader] where the code reads a field of it. *)
Definition needParent (c : controller) : eff Header :=
  match parentHeader (mp c) with Some h => Ok h | None => Panic end.

Definition publishLeaderMsg (c : controller) : eff controller :=
  match PrepareLeaderMsg (dc c) with
  | Ok msg => Ok (emit c (OutLeaderChange msg))
  | Err _ => Ok c
  | Panic => Panic
  end.

Definition SetSelfAddress (c : controller) (addr nodeAddr : Z) : controller :=
  up_cache (up_dc c (with_self (dc c) addr nodeAddr)) (cache_SetSelf (selfCache c) addr nodeAddr).

(** ** Sending *)

Definition ownInquiry (c : controller) (h : Header) (now : Z) : HD_V2_ReelectInquiryReqMsg :=
  mkInquiryReq (Number c) (u64 (hTime h)) (curConsensusTurn (dc c)) (curReelectTurn (dc c))
    (u64 now) (selfAddr (dc c)) (selfNodeAddr (dc c)).

Definition sendInquiryReq (c : controller) : eff controller :=
  let* h := needParent c in
  let req := ownInquiry c h (timeNow c) in
  let c := tick c in
  let (cache, reqHash) := SaveInquiryReq (selfCache c) req in
  let c := up_cache c cache in
  match signHash c reqHash with
  | Panic => Panic
  | Err _ => Ok c
  | Ok selfSign =>
      match SaveInquiryVote (selfCache c) (verifyVote (dc c)) reqHash selfSign
              (selfNodeAddr (dc c)) with
      | Panic => Panic
      | Err _ => Ok c
      | Ok cache => Ok (emit (up_cache c cache) (OutInquiryReq req None))
      end
  end.

Definition sendInquiryReqToSingle (c : controller) (target : Z) : eff controller :=
  let curTime := timeNow c in
  let c := tick c in
  if negb (CanSendSingleInquiryReq (selfCache c) curTime (reelectHandleInterval (turnTime (dc c))))
  then Ok c
  else
    let* h := needParent c in
    let req := ownInquiry c h curTime in
    let (cache, _) := SaveInquiryReq (selfCache c) req in
    Ok (emit (up_cache c (SetLastSingleInquiryReqTime cache curTime))
          (OutInquiryReq req (Some target))).

Definition sendInquiryRspWithPOS (c : controller) (reqHash target num : Z) : eff controller :=
  match GetPOSNotifyMsg (mp c) (consensusLeader (dc c)) (curConsensusTurn (dc c)) with
  | None => Ok c
  | Some POSMsg =>
      Ok (emit c (OutInquiryRsp
            (mkInquiryRsp num reqHash ReelectRSPTypePOS 0
               (Some (mkBlkReq (pnHeader POSMsg) (curConsensusTurn (dc c)) (pnTxsCode POSMsg)
                        [] zero_addr))
               None None zero_addr) target))
  end.

Definition sendInquiryRspWithAgree (c : controller) (reqHash target num : Z) : eff controller :=
  match signHash c reqHash with
  | Panic => Panic
  | Err _ => Ok c
  | Ok sign =>
      Ok (emit c (OutInquiryRsp
            (mkInquiryRsp num reqHash ReelectRSPTypeAgree sign None None None zero_addr) target))
  end.

Definition sendInquiryRspWithRLConsensus (c : controller) (reqHash target : Z)
  : eff controller :=
  match GetRLConsensusMsg (mp c) (curConsensusTurn (dc c)) with
  | None => Ok c
  | Some consensusMsg =>
      Ok (emit c (OutInquiryRsp
            (mkInquiryRsp (Number c) reqHash ReelectRSPTypeAlreadyRL 0 None (Some consensusMsg)
               None zero_addr) target))
  end.

Definition sendInquiryRspWithNewBlockReady (c : controller) (reqHash target num : Z)
  : eff controller :=
  match parentHeader (mp c) with
  | None => Ok c
  | Some h =>
      Ok (emit c (OutInquiryRsp
            (mkInquiryRsp num reqHash ReelectRSPTypeNewBlockReady 0 None None (Some h) zero_addr)
            target))
  end.

Definition sendRLReq (c : controller) : eff controller :=
  let now := timeNow c in
  match GetRLReqMsg (selfCache c) now with
  | Panic => Panic
  | Err _ => Ok c
  | Ok (cache, req, reqHash) =>
      let c := tick (up_cache c cache) in
      match signHash c reqHash with
      | Panic => Panic
      | Err _ => Ok c
      | Ok selfSign =>
          match SaveRLVote (selfCache c) (verifyVote (dc c)) reqHash selfSign
                  (selfNodeAddr (dc c)) with
          | Panic => Panic
          | Err _ => Ok c
          | Ok cache => Ok (emit (up_cache c cache) (OutRLReq req))
          end
      end
  end.

Definition sendResultBroadcastMsg (c : controller) : eff controller :=
  match GetBroadcastMsg (selfCache c) with
  | Panic => Panic
  | Err _ => Ok c
  | Ok (cache, msg, msgHash) =>
      let c := up_cache c cache in
      match signHash c msgHash with
      | Panic => Panic
      | Err _ => Ok c
      | Ok selfSign =>
          match SaveBroadcastVote (selfCache c) (verifyVote (dc c)) msgHash selfSign
                  (selfNodeAddr (dc c)) with
          | Panic => Panic
          | Err _ => Ok c
          | Ok cache => Ok (emit (up_cache c cache) (OutBroadcast msg))
          end
      end
  end.

Definition sendResultBroadcastRsp (c : controller) (req : HD_V2_ReelectBroadcastMsg)
  : eff controller :=
  let resultHash := rlp_broadcast req in
  match signHash c resultHash with
  | Panic => Panic
  | Err _ => Ok c
  | Ok sign =>
      Ok (emit c (OutBroadcastRsp (mkBroadcastRsp (Number c) resultHash sign zero_addr)
                    (bmFrom req)))
  end.

(** ** Turn changes *)

Definition processPOSState (c : controller) : eff controller :=
  if negb (bool_decide (State c = stPos)) then Ok c
  else match GetPOSNotifyMsg (mp c) (consensusLeader (dc c)) (curConsensusTurn (dc c)) with
       | None => Ok c
       | Some _ => Ok (setState (setTimer c 0) stMining)
       end.

Definition startReelect (c : controller) (reelectTurn : Z) : eff controller :=
  if negb (bool_decide (State c = stReelect)) then Ok c
  else if curReelectTurn (dc c) =? reelectTurn then Ok c
  else match SetReelectTurn (dc c) reelectTurn with
       | Panic => Panic
       | Err _ => Ok c
       | Ok d =>
           let c := up_dc c d in
           let* c :=
             if reelectMaster (dc c) =? selfAddr (dc c) then
               sendInquiryReq
                 (setReelectTimer (up_dc c (with_master (dc c) true))
                    (reelectHandleInterval (turnTime (dc c))))
             else Ok (setReelectTimer (up_dc c (with_master (dc c) false)) 0) in
           publishLeaderMsg c
       end.

(** [header] is [posResult.Header], which both callers have checked. *)
Definition finishReelectWithPOS (c : controller) (header : Header) (from : Z)
  : eff controller :=
  let c := emit c (OutRecovery RecoveryTypePOS header from false) in
  let c := setReelectTimer (setTimer c 0) 0 in
  let c := setState c stMining in
  let* c := match SetReelectTurn (dc c) 0 with
            | Ok d => Ok (up_dc c d)
            | Err _ => Ok c
            | Panic => Panic
            end in
  let c := up_dc c (with_master (dc c) false) in
  publishLeaderMsg (up_cache c (ClearSelfInquiryMsg (selfCache c))).

(** [rlResult.Req.InquiryReq], dereferenced without a check. *)
Definition inquiryOf (result : HD_V2_ReelectLeaderConsensus)
  : eff HD_V2_ReelectInquiryReqMsg :=
  match rcReq result with
  | None => Panic
  | Some req => match rrInquiryReq req with None => Panic | Some inq => Ok inq end
  end.

Definition resultTurn (inq : HD_V2_ReelectInquiryReqMsg) : ConsensusTurnInfo :=
  calcNextConsensusTurn (irConsensusTurn inq) (irReelectTurn inq).

(** The state a turn has at the current time, and what it starts. *)
Definition enterTurn (c : controller) (totalTurns : Z) : eff controller :=
  let curTime := timeNow c in
  let c := tick c in
  let '(st, remainTime, reelectTurn) := CalState (turnTime (dc c)) totalTurns curTime in
  let c := setState c st in
  let c := up_dc c (with_reelect (dc c) 0 (reelectMaster (dc c))) in
  let c := setTimer c remainTime in
  match st with
  | stPos => processPOSState c
  | stReelect => startReelect c reelectTurn
  | _ => Ok c
  end.

Definition finishReelectWithRLConsensus (c : controller)
    (rlResult : HD_V2_ReelectLeaderConsensus) : eff controller :=
  let* inq := inquiryOf rlResult in
  let consensusTurn := resultTurn inq in
  match SetConsensusTurn (dc c) consensusTurn with
  | Panic => Panic
  | Err _ => Ok c
  | Ok d =>
      let c := up_dc c d in
      let c := up_mp c (SaveRLConsensusMsg (mp c) (Some rlResult)) in
      let c := setReelectTimer c 0 in
      let c := up_cache c (ClearSelfInquiryMsg (selfCache c)) in
      let c := up_dc c (with_master (dc c) false) in
      let* c := enterTurn c (TotalTurns consensusTurn) in
      publishLeaderMsg c
  end.

(** ** Checks *)

Inductive check_error :=
| ErrNil | ErrTurn | ErrMaster | ErrTime | ErrNoParent | ErrPosVerify (e : dpos_error)
| ErrNumber | ErrLeaderMismatch | ErrType.

Definition verifyHashAtParent (c : controller) (h : Header) (hash : Z) (signs : list Z)
  : res check_error unit :=
  let* _ := res_wrap ErrPosVerify
              (VerifyHashWithBlock VerifySignWithValidate (dposEngine (hVersion h))
                 (cdc_reader le_chain (dc c)) hash signs (ParentHash c)) in
  Ok tt.

Definition verifyBlockBy (c : controller) (version : string) (header : Header)
  : res check_error unit :=
  let* _ := res_wrap ErrPosVerify
              (VerifyBlock VerifySignWithValidate (dposEngine version)
                 (cdc_reader le_chain (dc c)) (Some header)) in
  Ok tt.

Definition checkRLReqMsg (c : controller) (req : option HD_V2_ReelectLeaderReqMsg)
  : res check_error unit :=
  match req with
  | None => Err ErrNil
  | Some req =>
      match rrInquiryReq req with
      | None => Err ErrNil
      | Some inq =>
          if negb (bool_decide (irConsensusTurn inq = curConsensusTurn (dc c))) then Err ErrTurn
          else if negb (irReelectTurn inq =? curReelectTurn (dc c)) then Err ErrTurn
          else if negb (irMaster inq =? reelectMaster (dc c)) then Err ErrMaster
          else if i64 (rrTimeStamp req) <? i64 (irTimeStamp inq) then Err ErrTime
          else if negb (CheckTimeLegal (turnTime (dc c)) (TotalTurns (curConsensusTurn (dc c)))
                          (curReelectTurn (dc c)) (i64 (rrTimeStamp req)))
          then Err ErrTime
          else match parentHeader (mp c) with
               | None => Err ErrNoParent
               | Some h => verifyHashAtParent c h (rlp_inquiry inq) (rrAgreeSigns req)
               end
      end
  end.

Definition checkRLResult (c : controller) (result : option HD_V2_ReelectLeaderConsensus)
  : res check_error unit :=
  match result with
  | None => Err ErrNil
  | Some result =>
      match rcReq result with
      | None => Panic
      | Some req =>
          match rrInquiryReq req with
          | None => Panic
          | Some inq =>
              if turn_Cmp (resultTurn inq) (curConsensusTurn (dc c)) <? 0 then Err ErrTurn
              else match parentHeader (mp c) with
                   | None => Err ErrNoParent
                   | Some h => verifyHashAtParent c h (rlp_rlreq req) (rcVotes result)
                   end
          end
      end
  end.

Definition checkPOSResult (c : controller) (posResult : option HD_BlkConsensusReqMsg)
  : res check_error unit :=
  match posResult with
  | None => Err ErrNil
  | Some posResult =>
      match bqHeader posResult with
      | None => Panic
      | Some header =>
          if negb (u64 (hNumber header) =? Number c) then Err ErrNumber
          else if negb (bool_decide (bqConsensusTurn posResult = curConsensusTurn (dc c)))
                  || negb (hLeader header =? consensusLeader (dc c))
          then Err ErrTurn
          else match parentHeader (mp c) with
               | None => Err ErrNoParent
               | Some h => verifyBlockBy c (hVersion h) header
               end
      end
  end.

Definition processResultBroadcastMsg (c : controller) (msg : HD_V2_ReelectBroadcastMsg)
  : res check_error controller :=
  if bmType msg =? ReelectRSPTypePOS then
    match bmPOSResult msg with
    | None => Err ErrNil
    | Some posResult =>
        match bqHeader posResult with
        | None => Err ErrNil
        | Some header =>
            if negb (hLeader header =? consensusLeader (dc c)) then Err ErrLeaderMismatch
            else
              let* _ := verifyBlockBy c (hVersion header) header in
              res_wrap (fun e : Empty_set => match e with end)
                (finishReelectWithPOS c header (bmFrom msg))
        end
    end
  else if (bmType msg =? ReelectRSPTypeAgree) || (bmType msg =? ReelectRSPTypeAlreadyRL) then
    let* _ := checkRLResult c (bmRLResult msg) in
    match bmRLResult msg with
    | None => Err ErrNil
    | Some result =>
        res_wrap (fun e : Empty_set => match e with end) (finishReelectWithRLConsensus c result)
    end
  else Err ErrType.

(** A handler logs an error and returns. *)
Definition orLog {E} (m : res E controller) (c : controller) : eff controller :=
  match m with Ok c' => Ok c' | Err _ => Ok c | Panic => Panic end.

(** [if err := check; err != nil { return }] followed by [k]. *)
Definition guarded {E A} (m : res E A) (c : controller) (k : A -> eff controller)
  : eff controller :=
  match m with Ok a => k a | Err _ => Ok c | Panic => Panic end.

(** ** Handlers *)

Definition handleInquiryReq (c : controller) (req : option HD_V2_ReelectInquiryReqMsg)
  : eff controller :=
  match req with
  | None => Ok c
  | Some req =>
      if bool_decide (State c = stIdle) then Ok c
      else guarded (GetA0AccountFromAnyAccount le_chain (dc c) (irFrom req) (ParentHash c)) c
        (fun '(fromMaster, _) =>
        let behind c :=
          if bool_decide (State c = stReelect) && isMaster (dc c) then Ok c
          else sendInquiryReqToSingle c (irFrom req) in
        if negb (irMaster req =? fromMaster) then Ok c
        else if irNumber req <? Number c then
          sendInquiryRspWithNewBlockReady c (rlp_inquiry req) (irFrom req) (irNumber req)
        else if Number c <? irNumber req then behind c
        else
          let* h := needParent c in
          let curHeaderTime := u64 (hTime h) in
          if irHeaderTime req <? curHeaderTime then
            sendInquiryRspWithNewBlockReady c (rlp_inquiry req) (irFrom req) (irNumber req)
          else if curHeaderTime <? irHeaderTime req then behind c
          else if turn_Cmp (irConsensusTurn req) (curConsensusTurn (dc c)) <? 0 then
            sendInquiryRspWithRLConsensus c (rlp_inquiry req) (irFrom req)
          else if 0 <? turn_Cmp (irConsensusTurn req) (curConsensusTurn (dc c)) then behind c
          else guarded (cdc_GetLeader (dc c)
                          (u32 (TotalTurns (irConsensusTurn req) + irReelectTurn req))
                          (bcInterval (dc c))) c
            (fun master =>
            if negb (master =? irMaster req) then Ok c
            else match State c with
                 | stMining =>
                     sendInquiryRspWithPOS c (rlp_inquiry req) (irFrom req) (irNumber req)
                 | stReelect =>
                     if negb (irReelectTurn req =? curReelectTurn (dc c)) then Ok c
                     else if negb (CheckTimeLegal (turnTime (dc c))
                                     (TotalTurns (curConsensusTurn (dc c)))
                                     (curReelectTurn (dc c)) (i64 (irTimeStamp req)))
                     then Ok c
                     else sendInquiryRspWithAgree c (rlp_inquiry req) (irFrom req)
                            (irNumber req)
                 | _ => Ok c
                 end))
  end.

Definition processNewBlockReadyRsp (c : controller) (header : option Header) (from : Z)
  : eff controller :=
  match header with
  | None => Ok c
  | Some header =>
      let num := u64 (hNumber header) in
      match ch_GetHeader le_chain (hParentHash header) (u64 (num - 1)) with
      | None => Ok (emit c (OutFetcherNotify (hParentHash header) (u64 (num - 1)) from))
      | Some _ =>
          guarded (sr_GetBroadcastIntervalByHash (ch_reader le_chain) (hParentHash header)) c
            (fun bc =>
            let* isBroadcast := IsBroadcastNumber bc num in
            if negb (le_VerifyHeader (hVersion header) header (negb isBroadcast)) then Ok c
            else guarded (verifyBlockBy c (hVersion header) header) c (fun _ =>
              Ok (emit c (OutRecovery RecoveryTypeFullHeader header from isBroadcast))))
      end
  end.

(** The votes of a pool, weighed by the engine of the parent's version. *)
Definition weighVotes (c : controller) (signs : list VerifiedSign) : eff (res dpos_error (list Z)) :=
  let* h := needParent c in
  Ok (VerifyHashWithVerifiedSignsAndBlock (dposEngine (hVersion h))
        (cdc_reader le_chain (dc c)) signs (ParentHash c)).

(** A nil response is dereferenced for the log. *)
Definition handleInquiryRsp (c : controller) (rsp : option HD_V2_ReelectInquiryRspMsg)
  : eff controller :=
  match rsp with
  | None => Panic
  | Some msg =>
      if negb (inquiryResult (selfCache c) =? ReelectRSPTypeNone) then Ok c
      else guarded (IsMatchedInquiryRsp (selfCache c) rsp) c (fun _ =>
        if isType msg =? ReelectRSPTypeNewBlockReady then
          processNewBlockReadyRsp c (isNewBlock msg) (isFrom msg)
        else if isType msg =? ReelectRSPTypeAlreadyRL then
          guarded (checkRLResult c (isRLResult msg)) c (fun _ =>
          guarded (GenBroadcastMsgWithInquiryResult (selfCache c) (isType msg) msg) c
            (fun cache =>
            let* c := sendResultBroadcastMsg (up_cache c cache) in
            match isRLResult msg with
            | None => Panic
            | Some result => finishReelectWithRLConsensus c result
            end))
        else if isType msg =? ReelectRSPTypePOS then
          guarded (checkPOSResult c (isPOSResult msg)) c (fun _ =>
          guarded (GenBroadcastMsgWithInquiryResult (selfCache c) (isType msg) msg) c
            (fun cache => sendResultBroadcastMsg (up_cache c cache)))
        else if isType msg =? ReelectRSPTypeAgree then
          guarded (SaveInquiryVote (selfCache c) (verifyVote (dc c)) (isReqHash msg)
                     (isAgreeSign msg) (isFrom msg)) c (fun cache =>
          let c := up_cache c cache in
          let* verdict := weighVotes c (getVotes (inquiryPool (selfCache c))) in
          guarded verdict c (fun rightSigns =>
          let (cache, err) := GenRLReqMsg (selfCache c) rightSigns in
          let c := up_cache c cache in
          match err with
          | Some _ => Ok c
          | None => sendRLReq c
          end))
        else Ok c)
  end.

(** The vote sent is an [mc.HD_ConsensusVote], which has the fields used here under
    the same names. *)
Definition handleRLReq (c : controller) (req : option HD_V2_ReelectLeaderReqMsg)
  : eff controller :=
  if negb (bool_decide (State c = stReelect)) then Ok c
  else guarded (checkRLReqMsg c req) c (fun _ =>
    match req with
    | None => Ok c
    | Some req =>
        let hash := rlp_rlreq req in
        guarded (signHash c hash) c (fun sign =>
          match rrInquiryReq req with
          | None => Panic
          | Some inq => Ok (emit c (OutRLVote (mkVote hash (Number c) sign zero_addr) (irFrom inq)))
          end)
    end).

Definition handleRLVote (c : controller) (msg : option HD_V2_ConsensusVote) : eff controller :=
  match msg with
  | None => Ok c
  | Some msg =>
      guarded (SaveRLVote (selfCache c) (verifyVote (dc c)) (cvSignHash msg) (cvSign msg)
                 (cvFrom msg)) c (fun cache =>
      let c := up_cache c cache in
      let* verdict := weighVotes c (getVotes (rlReqPool (selfCache c))) in
      guarded verdict c (fun rightSigns =>
      guarded (GenBroadcastMsgWithRLSuccess (selfCache c) rightSigns) c (fun cache =>
        sendResultBroadcastMsg (up_cache c cache))))
  end.

Definition handleBroadcastMsg (c : controller) (msg : option HD_V2_ReelectBroadcastMsg)
  : eff controller :=
  match msg with
  | None => Ok c
  | Some msg =>
      guarded (processResultBroadcastMsg c msg) c (fun c => sendResultBroadcastRsp c msg)
  end.

Definition handleBroadcastRsp (c : controller) (rsp : option HD_V2_ReelectBroadcastRspMsg)
  : eff controller :=
  match rsp with
  | None => Ok c
  | Some rsp =>
      guarded (SaveBroadcastVote (selfCache c) (verifyVote (dc c)) (brResultHash rsp)
                 (brSign rsp) (brFrom rsp)) c (fun cache =>
      let c := up_cache c cache in
      let* verdict := weighVotes c (getVotes (broadcastPool (selfCache c))) in
      guarded verdict c (fun _ =>
        match GetLocalBroadcastMsg (selfCache c) with
        | None => Ok c
        | Some resultMsg => orLog (processResultBroadcastMsg c resultMsg) c
        end))
  end.

Definition handleBlockPOSFinishedNotify (c : controller) (msg : option BlockPOSFinishedNotify)
  : eff controller :=
  match msg with
  | None => Ok c
  | Some m =>
      match pnHeader m with
      | None => Ok c
      | Some _ => processPOSState (up_mp c (fst (SavePOSNotifyMsg (mp c) msg)))
      end
  end.

Definition timeOutHandle (c : controller) : eff controller :=
  let curTime := timeNow c in
  let c := tick c in
  let '(st, remainTime, reelectTurn) :=
    CalState (turnTime (dc c)) (TotalTurns (curConsensusTurn (dc c))) curTime in
  match State c with
  | stPos | stReelect => startReelect (setState (setTimer c remainTime) st) reelectTurn
  | _ => Ok c
  end.

Definition reelectTimeOutHandle (c : controller) : eff controller :=
  if negb (bool_decide (State c = stReelect)) then Ok c
  else
    let result := inquiryResult (selfCache c) in
    let* c := if result =? ReelectRSPTypeNone then sendInquiryReq c
              else if result =? ReelectRSPTypeAgree then sendRLReq c
              else if (result =? ReelectRSPTypePOS) || (result =? ReelectRSPTypeAlreadyRL)
              then sendResultBroadcastMsg c
              else Ok c in
    Ok (setReelectTimer c (reelectHandleInterval (turnTime (dc c)))).

(** The rest of [handleStartMsg], once the parent state has been analysed. *)
Definition startAnalysed (c : controller) (header : Header) : eff controller :=
  if negb (role (dc c) =? RoleValidator) then
    Ok (up_mp c (SaveParentHeader (mp c) (Some header)))
  else match bcInterval (dc c) with
       | None => Panic
       | Some bc =>
           let* isBroadcast := IsBroadcastNumber bc (number (dc c)) in
           if isBroadcast : bool then
             let c := setState c stIdle in
             let* c := publishLeaderMsg c in
             let c := up_mp c (SaveParentHeader (mp c) (Some header)) in
             Ok (setState c stWaiting)
           else
             let (started, times) := SetBeginTime (turnTime (dc c)) (i64 (hTime header)) in
             let c := up_dc c (with_turnTime (dc c) times) in
             let* c :=
               if started : bool then
                 let c := up_mp c (SaveParentHeader (mp c) (Some header)) in
                 if isFirstConsensusTurn (Some (curConsensusTurn (dc c))) then enterTurn c 0
                 else Ok c
               else Ok c in
             publishLeaderMsg c
       end.

(** [None] only when the walk to the last ordinary block runs out of fuel. *)
Definition handleStartMsg (c : controller) (msg : option startControllerMsg)
  : option (eff controller) :=
  match msg with
  | None => Some (Ok c)
  | Some msg =>
      match smParentHeader msg with
      | None => Some (Ok c)
      | Some header =>
          if VersionCmp (hVersion header) VersionGamma <? 0 then Some (Ok c)
          else if match parentHeader (mp c) with
                  | Some old => hTime header <? hTime old
                  | None => false
                  end
          then Some (Ok c)
          else
            let c := SetSelfAddress c (ks_deposit le_keyStore) le_signAddress in
            match AnalysisState le_chain (dc c) (Some header) (Some (smParentStateDB msg)) with
            | None => None
            | Some Panic => Some Panic
            | Some (Err e) => match e with end
            | Some (Ok (d, Some _)) => Some (Ok (up_dc c d))
            | Some (Ok (d, None)) =>
                let c := up_dc c d in
                Some (startAnalysed c header)
            end
      end
  end.

(** ** Events *)

Inductive event :=
| EvStart (msg : option startControllerMsg)
| EvPosFinished (msg : option BlockPOSFinishedNotify)
| EvInquiryReq (msg : option HD_V2_ReelectInquiryReqMsg)
| EvInquiryRsp (msg : option HD_V2_ReelectInquiryRspMsg)
| EvRLReq (msg : option HD_V2_ReelectLeaderReqMsg)
| EvRLVote (msg : option HD_V2_ConsensusVote)
| EvBroadcast (msg : option HD_V2_ReelectBroadcastMsg)
| EvBroadcastRsp (msg : option HD_V2_ReelectBroadcastRspMsg)
| EvTimer
| EvReelectTimer.

(** One turn of the select loop: [handleMsg] and the two timers, which are
    stopped once they have fired. *)
Definition run_step (c : controller) (ev : event) : option (eff controller) :=
  match ev with
  | EvStart msg => handleStartMsg c msg
  | EvPosFinished msg => Some (handleBlockPOSFinishedNotify c msg)
  | EvInquiryReq msg => Some (handleInquiryReq c msg)
  | EvInquiryRsp msg => Some (handleInquiryRsp c msg)
  | EvRLReq msg => Some (handleRLReq c msg)
  | EvRLVote msg => Some (handleRLVote c msg)
  | EvBroadcast msg => Some (handleBroadcastMsg c msg)
  | EvBroadcastRsp msg => Some (handleBroadcastRsp c msg)
  | EvTimer => Some (timeOutHandle (setTimer c 0))
  | EvReelectTimer => Some (reelectTimeOutHandle (setReelectTimer c 0))
  end.

Definition step (c : controller) (ev : event) (c' : controller) : Prop :=
  run_step c ev = Some (Ok c').
End Handlers.

(** C39: a malformed result broadcast stops the node.  A broadcast whose
    re-election result carries no request makes [checkRLResult] dereference nil
    in every state of the controller, before any check of the sender or of the
    signatures. *)
Theorem malformed_broadcast_panics `{LeaderEnv} c msg votes :
  bmType msg = ReelectRSPTypeAgree \/ bmType msg = ReelectRSPTypeAlreadyRL ->
  bmRLResult msg = Some (mkRLConsensus None votes) ->
  handleBroadcastMsg c (Some msg) = Panic.
Proof.
  intros Ht Hr. unfold handleBroadcastMsg, guarded, processResultBroadcastMsg.
  rewrite Hr. destruct Ht as [-> | ->]; done.
Qed.
