(* ===== verification/ControllerProofs.v ===== *)
(** * Correctness of the controller

    What the handlers of [Controller.v] preserve and what they need: the frame
    conditions of every helper, the coherence of the cached leaders, the
    origin of votes, and the evidence behind every change of turn or state. *)

From S2P Require Import GoLang Broadcast Roles Turns Topology TurnTimes Header.
From S2P Require Import Reader Dpos Crypto SignHelper LeaderMsgs LeaderCal Cdc Controller Prelude.

Create HintDb ctrl.

(** Outputs that carry a vote of this node on someone else's request. *)
Definition is_vote (o : output) : bool :=
  match o with
  | OutInquiryRsp rsp _ => isType rsp =? ReelectRSPTypeAgree
  | OutRLVote _ _ => true
  | OutBroadcastRsp _ _ => true
  | _ => false
  end.

Section Frames.
Context `{LeaderEnv}.

(** An agreeing signature the helper verified for some decision centre. *)
Definition verified_vote (h s a0 a1 : Z) : Prop :=
  exists d, verifyVote d h s = Ok (a0, a1, true).

Lemma verifyVote_genuine d : verify_genuine verified_vote (verifyVote d).
Proof. intros h s a0 a1 Hv. by exists d. Qed.

Definition no_votes (c c' : controller) : Prop :=
  exists os, outs c' = outs c ++ os /\ Forall (fun o => is_vote o = false) os.

(** [quiet]: only the master's cache, the clock, the timers and non-vote
    outputs change. *)
Record quiet (c c' : controller) : Prop := {
  q_dc : dc c' = dc c;
  q_mp : mp c' = mp c;
  q_cache : rtc (cache_step verified_vote) (selfCache c) (selfCache c');
  q_outs : no_votes c c'
}.

(** [calm]: the turn, its leader and the parent data stay; the state, the
    re-election turn and the mastership may change coherently. *)
Record calm (c c' : controller) : Prop := {
  ca_turn : curConsensusTurn (dc c') = curConsensusTurn (dc c);
  ca_leader : consensusLeader (dc c') = consensusLeader (dc c);
  ca_cal : leaderCal (dc c') = leaderCal (dc c);
  ca_bc : bcInterval (dc c') = bcInterval (dc c);
  ca_ps : parentState (dc c') = parentState (dc c);
  ca_number : number (dc c') = number (dc c);
  ca_times : turnTime (dc c') = turnTime (dc c);
  ca_co : dc_coherent (dc c) -> dc_coherent (dc c');
  ca_mp : mp c' = mp c;
  ca_cache : rtc (cache_step verified_vote) (selfCache c) (selfCache c');
  ca_outs : no_votes c c'
}.

Lemma no_votes_refl c c' : outs c' = outs c -> no_votes c c'.
Proof. intros He. exists []. by rewrite app_nil_r. Qed.

Lemma no_votes_trans c1 c2 c3 : no_votes c1 c2 -> no_votes c2 c3 -> no_votes c1 c3.
Proof.
  intros (o1 & H1 & F1) (o2 & H2 & F2). exists (o1 ++ o2).
  rewrite H2, H1, app_assoc. split; [done|]. by apply Forall_app.
Qed.

#[export] Instance quiet_preorder : PreOrder quiet.
Proof.
  split.
  - intros c. split; try done. by apply no_votes_refl.
  - intros c1 c2 c3 [? ? ? ?] [? ? ? ?]. split; try congruence; [by etrans|].
    by eapply no_votes_trans.
Qed.

#[export] Instance calm_preorder : PreOrder calm.
Proof.
  split.
  - intros c. split; try done. by apply no_votes_refl.
  - intros c1 c2 c3 [] []. split; try congruence; [auto|by etrans|by eapply no_votes_trans].
Qed.

Lemma quiet_calm c c' : quiet c c' -> calm c c'.
Proof. intros [Hd Hm Hc Ho]. split; rewrite ?Hd; done. Qed.

Lemma quiet_emit c o : is_vote o = false -> quiet c (emit c o).
Proof. intros Ho. split; try done. exists [o]. auto. Qed.

Lemma quiet_tick c : quiet c (tick c).
Proof. split; try done. by apply no_votes_refl. Qed.

Lemma quiet_timer c t : quiet c (setTimer c t).
Proof. split; try done. by apply no_votes_refl. Qed.

Lemma quiet_reelectTimer c t : quiet c (setReelectTimer c t).
Proof. split; try done. by apply no_votes_refl. Qed.

Lemma quiet_cache c m :
  cache_step verified_vote (selfCache c) m -> quiet c (up_cache c m).
Proof. intros Hs. split; try done; [by apply rtc_once|by apply no_votes_refl]. Qed.

Lemma quiet_tick_cache c m :
  cache_step verified_vote (selfCache c) m -> quiet c (tick (up_cache c m)).
Proof. intros Hs. etrans; [by apply quiet_cache|apply quiet_tick]. Qed.

Lemma publish_quiet c c' : publishLeaderMsg c = Ok c' -> quiet c c'.
Proof.
  unfold publishLeaderMsg. case_match; intros [=]; subst; [by apply quiet_emit|done].
Qed.

Lemma sendInquiryReq_quiet c c' : sendInquiryReq c = Ok c' -> quiet c c'.
Proof.
  unfold sendInquiryReq. intros Hs. apply res_bind_Ok in Hs as (h & _ & Hs).
  set (req := ownInquiry c h (timeNow c)) in *. cbn zeta in Hs.
  destruct (SaveInquiryReq (selfCache (tick c)) req) as [cache hash] eqn:Hc.
  assert (Hst : cache_step verified_vote (selfCache c) cache).
  { change cache with (cache, hash).1. rewrite <- Hc. apply cs_inquiry. }
  assert (Hq : quiet c (up_cache (tick c) cache)).
  { etrans; [apply quiet_tick|]. by apply quiet_cache. }
  destruct (signHash _ hash) as [sign| |]; [|by simplify_eq|done].
  destruct (SaveInquiryVote _ _ _ _ _) as [cache'| |] eqn:Hv; [|by simplify_eq|done].
  simplify_eq. etrans; [exact Hq|]. etrans; [|by apply quiet_emit].
  apply quiet_cache. eapply cs_inquiry_vote; [|exact Hv]. apply verifyVote_genuine.
Qed.

Lemma sendInquiryReqToSingle_quiet c target c' :
  sendInquiryReqToSingle c target = Ok c' -> quiet c c'.
Proof.
  unfold sendInquiryReqToSingle. cbn zeta. intros Hs.
  destruct (negb _); [simplify_eq; apply quiet_tick|].
  apply res_bind_Ok in Hs as (h & _ & Hs). cbn zeta in Hs.
  destruct (SaveInquiryReq _ _) as [cache hash] eqn:Hc. simplify_eq.
  etrans; [apply quiet_tick|]. etrans; [|by apply quiet_emit].
  split; try done; [|by apply no_votes_refl]. simpl.
  eapply rtc_l; [|apply rtc_once, cs_time].
  change cache with (cache, hash).1. rewrite <- Hc. apply cs_inquiry.
Qed.

Lemma sendRLReq_quiet c c' : sendRLReq c = Ok c' -> quiet c c'.
Proof.
  unfold sendRLReq. cbn zeta. intros Hs.
  destruct (GetRLReqMsg _ _) as [[[cache req] hash]| |] eqn:Hc; [|by simplify_eq|done].
  assert (Hq : quiet c (tick (up_cache c cache))).
  { apply quiet_tick_cache. by eapply cs_get_rl. }
  destruct (signHash _ hash) as [sign| |]; [|by simplify_eq|done].
  destruct (SaveRLVote _ _ _ _ _) as [cache'| |] eqn:Hv; [|by simplify_eq|done].
  simplify_eq. etrans; [exact Hq|]. etrans; [|by apply quiet_emit].
  apply quiet_cache. eapply cs_rl_vote; [|exact Hv]. apply verifyVote_genuine.
Qed.

Lemma sendResultBroadcastMsg_quiet c c' : sendResultBroadcastMsg c = Ok c' -> quiet c c'.
Proof.
  unfold sendResultBroadcastMsg. cbn zeta. intros Hs.
  destruct (GetBroadcastMsg _) as [[[cache msg] hash]| |] eqn:Hc; [|by simplify_eq|done].
  assert (Hq : quiet c (up_cache c cache)).
  { apply quiet_cache. by eapply cs_get_bc. }
  destruct (signHash _ hash) as [sign| |]; [|by simplify_eq|done].
  destruct (SaveBroadcastVote _ _ _ _ _) as [cache'| |] eqn:Hv; [|by simplify_eq|done].
  simplify_eq. etrans; [exact Hq|]. etrans; [|by apply quiet_emit].
  apply quiet_cache. eapply cs_bc_vote; [|exact Hv]. apply verifyVote_genuine.
Qed.

Lemma sendRspNewBlock_quiet c h t n c' :
  sendInquiryRspWithNewBlockReady c h t n = Ok c' -> quiet c c'.
Proof.
  unfold sendInquiryRspWithNewBlockReady. case_match; intros [= <-]; [by apply quiet_emit|done].
Qed.

Lemma sendRspRL_quiet c h t c' : sendInquiryRspWithRLConsensus c h t = Ok c' -> quiet c c'.
Proof.
  unfold sendInquiryRspWithRLConsensus. case_match; intros [= <-]; [by apply quiet_emit|done].
Qed.

Lemma sendRspPOS_quiet c h t n c' : sendInquiryRspWithPOS c h t n = Ok c' -> quiet c c'.
Proof.
  unfold sendInquiryRspWithPOS. case_match; intros [= <-]; [by apply quiet_emit|done].
Qed.

Lemma processNewBlockReadyRsp_quiet c h f c' :
  processNewBlockReadyRsp c h f = Ok c' -> quiet c c'.
Proof.
  unfold processNewBlockReadyRsp, guarded. intros Hs.
  destruct h as [h|]; [|by simplify_eq]. cbn zeta in Hs.
  destruct (ch_GetHeader _ _ _); [|simplify_eq; by apply quiet_emit].
  destruct (sr_GetBroadcastIntervalByHash _ _) as [bc| |]; [|by simplify_eq|done].
  apply res_bind_Ok in Hs as (b & _ & Hs).
  destruct (negb _); [by simplify_eq|].
  destruct (verifyBlockBy _ _ _); [|by simplify_eq|done]. simplify_eq. by apply quiet_emit.
Qed.
End Frames.

#[export] Hint Resolve publish_quiet sendInquiryReq_quiet sendInquiryReqToSingle_quiet
  sendRLReq_quiet sendResultBroadcastMsg_quiet sendRspNewBlock_quiet sendRspRL_quiet
  sendRspPOS_quiet processNewBlockReadyRsp_quiet quiet_calm : ctrl.

Section Calm.
Context `{LeaderEnv}.

(** Changing the decision centre in a way that keeps the parent data. *)
Lemma calm_dc c d :
  curConsensusTurn d = curConsensusTurn (dc c) -> consensusLeader d = consensusLeader (dc c) ->
  leaderCal d = leaderCal (dc c) -> bcInterval d = bcInterval (dc c) ->
  parentState d = parentState (dc c) -> number d = number (dc c) ->
  turnTime d = turnTime (dc c) -> (dc_coherent (dc c) -> dc_coherent d) ->
  calm c (up_dc c d).
Proof. intros. split; try done. by apply no_votes_refl. Qed.

Lemma calm_state c st : calm c (setState c st).
Proof. apply calm_dc; try done. intros []. by split. Qed.

Lemma calm_master c b : calm c (up_dc c (with_master (dc c) b)).
Proof. apply calm_dc; try done. intros []. by split. Qed.

Lemma calm_reelect0 c m : calm c (up_dc c (with_reelect (dc c) 0 m)).
Proof. apply calm_dc; try done. intros []. by split. Qed.

Lemma calm_SetReelectTurn c t d :
  SetReelectTurn (dc c) t = Ok d -> calm c (up_dc c d).
Proof.
  intros Hs. assert (Hco : dc_coherent (dc c) -> dc_coherent d)
    by (intros Hc; by eapply SetReelectTurn_coherent).
  unfold SetReelectTurn in Hs.
  destruct (_ =? t) in Hs; [by simplify_eq; destruct c|].
  destruct (t =? 0); [simplify_eq; apply calm_reelect0|].
  apply res_bind_Ok in Hs as (m & Hm & [= <-]). by apply calm_dc.
Qed.

Lemma processPOSState_calm c c' : processPOSState c = Ok c' -> calm c c'.
Proof.
  unfold processPOSState. destruct (negb _); [by intros [= <-]|].
  case_match; intros [= <-]; [|done].
  etrans; [apply quiet_calm, quiet_timer|apply calm_state].
Qed.

Lemma startReelect_calm c t c' : startReelect c t = Ok c' -> calm c c'.
Proof.
  unfold startReelect. destruct (negb _); [by intros [= <-]|].
  destruct (_ =? t); [by intros [= <-]|].
  destruct (SetReelectTurn (dc c) t) as [d| |] eqn:Hs; [|by intros [= <-]|done].
  intros Hb. apply res_bind_Ok in Hb as (c1 & H1 & Hp).
  etrans; [by eapply calm_SetReelectTurn|].
  etrans; [|by eapply quiet_calm, publish_quiet].
  destruct (_ =? _) in H1.
  - etrans; [apply calm_master with (b := true)|].
    etrans; [apply quiet_calm, quiet_reelectTimer|].
    by eapply quiet_calm, sendInquiryReq_quiet.
  - simplify_eq. etrans; [apply calm_master with (b := false)|].
    apply quiet_calm, quiet_reelectTimer.
Qed.

Lemma finishReelectWithPOS_calm c h f c' : finishReelectWithPOS c h f = Ok c' -> calm c c'.
Proof.
  unfold finishReelectWithPOS. cbn zeta. intros Hs.
  apply res_bind_Ok in Hs as (c2 & H2 & Hp).
  set (c1 := setState _ stMining) in H2.
  assert (H1 : calm c c1).
  { transitivity (emit c (OutRecovery RecoveryTypePOS h f false));
      [by apply quiet_calm, quiet_emit|].
    etrans; [apply quiet_calm, quiet_timer|].
    etrans; [apply quiet_calm, quiet_reelectTimer|apply calm_state]. }
  etrans; [exact H1|].
  assert (calm c1 c2).
  { destruct (SetReelectTurn _ _) eqn:Hs; simplify_eq; [|done].
    by eapply calm_SetReelectTurn. }
  etrans; [done|]. etrans; [apply calm_master with (b := false)|].
  etrans; [apply quiet_calm, quiet_cache, cs_clear|].
  by eapply quiet_calm, publish_quiet.
Qed.

Lemma enterTurn_calm c t c' : enterTurn c t = Ok c' -> calm c c'.
Proof.
  unfold enterTurn. cbn zeta.
  destruct (CalState _ _ _) as [[st remain] turn]. intros Hs.
  etrans; [apply quiet_calm, quiet_tick|]. etrans; [apply calm_state with (st := st)|].
  etrans; [apply calm_reelect0|]. etrans; [apply quiet_calm, quiet_timer|].
  destruct st; first [by eapply processPOSState_calm | by eapply startReelect_calm | by simplify_eq].
Qed.

Lemma timeOutHandle_calm c c' : timeOutHandle c = Ok c' -> calm c c'.
Proof.
  unfold timeOutHandle. cbn zeta. destruct (CalState _ _ _) as [[st remain] turn].
  intros Hs. etrans; [apply quiet_calm, quiet_tick|].
  destruct (State (tick c)); try by simplify_eq.
  all: etrans; [apply quiet_calm, quiet_timer|]; etrans; [apply calm_state|];
    by eapply startReelect_calm.
Qed.

Lemma reelectTimeOutHandle_quiet c c' : reelectTimeOutHandle c = Ok c' -> quiet c c'.
Proof.
  unfold reelectTimeOutHandle. destruct (negb _); [by intros [= <-]|]. cbn zeta.
  intros Hs. apply res_bind_Ok in Hs as (c1 & H1 & [= <-]).
  etrans; [|apply quiet_reelectTimer].
  repeat case_match; eauto with ctrl. by simplify_eq.
Qed.

Lemma handleRLVote_quiet c m c' : handleRLVote c m = Ok c' -> quiet c c'.
Proof.
  unfold handleRLVote, guarded. destruct m as [m|]; [|by intros [= <-]].
  destruct (SaveRLVote _ _ _ _ _) as [cache| |] eqn:Hv; [|by intros [= <-]|done].
  cbn zeta. intros Hs. apply res_bind_Ok in Hs as (verdict & _ & Hs).
  assert (Hq : quiet c (up_cache c cache)).
  { apply quiet_cache. eapply cs_rl_vote; [apply verifyVote_genuine|exact Hv]. }
  etrans; [exact Hq|].
  destruct verdict; [|by simplify_eq|done].
  destruct (GenBroadcastMsgWithRLSuccess _ _) eqn:Hg; [|by simplify_eq|done].
  etrans; [|by eapply sendResultBroadcastMsg_quiet].
  apply quiet_cache. by eapply cs_gen_rl_success.
Qed.
End Calm.

Lemma turn_Cmp_0 a b : turn_Cmp a b = 0 -> a = b.
Proof. unfold turn_Cmp. by repeat case_match. Qed.

Section Steady.
Context `{LeaderEnv}.

(** [steady]: the parent data stay and coherence is kept; the turn may
    advance and votes may be sent. *)
Record steady (c c' : controller) : Prop := {
  sd_cal : leaderCal (dc c') = leaderCal (dc c);
  sd_bc : bcInterval (dc c') = bcInterval (dc c);
  sd_ps : parentState (dc c') = parentState (dc c);
  sd_number : number (dc c') = number (dc c);
  sd_times : turnTime (dc c') = turnTime (dc c);
  sd_co : dc_coherent (dc c) -> dc_coherent (dc c');
  sd_parent : parentHeader (mp c') = parentHeader (mp c);
  sd_cache : rtc (cache_step verified_vote) (selfCache c) (selfCache c')
}.

#[export] Instance steady_preorder : PreOrder steady.
Proof.
  split; [by intros c|].
  intros c1 c2 c3 [] []. split; try congruence; [auto|by etrans].
Qed.

Lemma calm_steady c c' : calm c c' -> steady c c'.
Proof. intros []. split; try done. congruence. Qed.

Lemma steady_mp c m : parentHeader m = parentHeader (mp c) -> steady c (up_mp c m).
Proof. by split. Qed.

Lemma steady_emit c o : steady c (emit c o).
Proof. by split. Qed.

Lemma SaveRL_parent m r : parentHeader (SaveRLConsensusMsg m r) = parentHeader m.
Proof. unfold SaveRLConsensusMsg. by repeat case_match. Qed.

(** What a re-election result has to prove, given the decision centre and
    the pool at the time of the check. *)
Record result_proved (c : controller) (result : HD_V2_ReelectLeaderConsensus)
    (turn : ConsensusTurnInfo) : Prop := {
  rp_req : exists req inq h,
    rcReq result = Some req /\ rrInquiryReq req = Some inq /\ turn = resultTurn inq /\
    parentHeader (mp c) = Some h /\
    verifyHashAtParent c h (rlp_rlreq req) (rcVotes result) = Ok tt;
  rp_order : 0 <= turn_Cmp turn (curConsensusTurn (dc c))
}.

Lemma checkRLResult_proved c result :
  checkRLResult c (Some result) = Ok tt ->
  exists inq, inquiryOf result = Ok inq /\ result_proved c result (resultTurn inq).
Proof.
  unfold checkRLResult, inquiryOf. destruct (rcReq result) as [req|] eqn:Hr; [|done].
  destruct (rrInquiryReq req) as [inq|] eqn:Hi; [|done].
  destruct (Z.ltb_spec (turn_Cmp (resultTurn inq) (curConsensusTurn (dc c))) 0); [done|].
  destruct (parentHeader (mp c)) as [h|] eqn:Hh; [|done]. intros Hv.
  exists inq. split; [done|]. split; [|done]. by exists req, inq, h.
Qed.

Lemma result_proved_dc c1 c2 result turn :
  dc c1 = dc c2 -> mp c1 = mp c2 -> result_proved c1 result turn -> result_proved c2 result turn.
Proof.
  intros Hd Hm [Hr Ho]. unfold verifyHashAtParent, ParentHash in Hr.
  split; rewrite <- ?Hd, <- ?Hm; [|done].
  unfold verifyHashAtParent, ParentHash. by rewrite <- Hd.
Qed.

(** [turn_ok]: the consensus turn stays, or a proved result set it. *)
Definition turn_ok (c c' : controller) : Prop :=
  curConsensusTurn (dc c') = curConsensusTurn (dc c) \/
  exists result, result_proved c result (curConsensusTurn (dc c')).

Lemma finishRL_spec c result inq c' :
  inquiryOf result = Ok inq -> finishReelectWithRLConsensus c result = Ok c' ->
  steady c c' /\ no_votes c c' /\
  (curConsensusTurn (dc c') = curConsensusTurn (dc c) \/
   curConsensusTurn (dc c') = resultTurn inq).
Proof.
  intros Hi. unfold finishReelectWithRLConsensus. rewrite Hi. cbn [res_bind]. cbn zeta.
  destruct (SetConsensusTurn (dc c) (resultTurn inq)) as [d| |] eqn:Hs.
  2:{ intros [= <-]. split_and!; [done|by apply no_votes_refl|by left]. }
  2:{ done. }
  intros Hb. apply res_bind_Ok in Hb as (c2 & He & Hp).
  apply enterTurn_calm in He. apply publish_quiet, quiet_calm in Hp.
  set (c1 := up_dc (up_cache _ _) _) in He.
  assert (Hc1 : steady c c1 /\ no_votes c c1 /\ curConsensusTurn (dc c1) = resultTurn inq).
  { assert (Hco : dc_coherent (dc c) -> dc_coherent d)
      by (intros Hc; by eapply SetConsensusTurn_coherent).
    unfold SetConsensusTurn in Hs. apply res_bind_Ok in Hs as (l & _ & [= <-]).
    split_and!; [|by apply no_votes_refl|done].
    split; try done; [|apply SaveRL_parent|apply rtc_once, cs_clear].
    intros Hc. specialize (Hco Hc). destruct Hco. by split. }
  destruct Hc1 as (S1 & N1 & T1). split_and!.
  - etrans; [exact S1|]. etrans; by apply calm_steady.
  - eapply no_votes_trans; [exact N1|]. eapply no_votes_trans; [apply He|apply Hp].
  - right. by rewrite (ca_turn _ _ Hp), (ca_turn _ _ He).
Qed.

Lemma processResult_spec c msg c' :
  processResultBroadcastMsg c msg = Ok c' ->
  steady c c' /\ no_votes c c' /\ turn_ok c c'.
Proof.
  unfold processResultBroadcastMsg. destruct (bmType msg =? ReelectRSPTypePOS).
  - destruct (bmPOSResult msg) as [pos|]; [|done]. destruct (bqHeader pos) as [h|]; [|done].
    destruct (negb _); [done|]. intros Hs. apply res_bind_Ok in Hs as ([] & _ & Hs).
    destruct (finishReelectWithPOS c h (bmFrom msg)) as [c1|[]|] eqn:Hf; simplify_eq/=.
    apply finishReelectWithPOS_calm in Hf. split_and!; [by apply calm_steady|apply Hf|].
    left. apply Hf.
  - destruct (_ || _); [|done]. intros Hs. apply res_bind_Ok in Hs as ([] & Hchk & Hs).
    destruct (bmRLResult msg) as [result|]; [|done].
    apply checkRLResult_proved in Hchk as (inq & Hi & Hp).
    destruct (finishReelectWithRLConsensus c result) as [c1|[]|] eqn:Hf; simplify_eq/=.
    destruct (finishRL_spec _ _ _ _ Hi Hf) as (Hst & Hn & Ht). split_and!; [done|done|].
    destruct Ht as [Ht|Ht]; [by left|right]. exists result. by rewrite Ht.
Qed.
End Steady.

Section Votes.
Context `{LeaderEnv}.

(** Every vote among the new outputs satisfies [P]. *)
Definition votes_by (P : output -> Prop) (c c' : controller) : Prop :=
  exists os, outs c' = outs c ++ os /\ Forall (fun o => is_vote o = true -> P o) os.

Lemma no_votes_by P c c' : no_votes c c' -> votes_by P c c'.
Proof.
  intros (os & Ho & Hf). exists os. split; [done|]. eapply Forall_impl; [exact Hf|].
  simpl. congruence.
Qed.

Lemma votes_by_emit P c o : P o -> votes_by P c (emit c o).
Proof. intros Ho. exists [o]. auto. Qed.

Lemma votes_by_trans P c1 c2 c3 : no_votes c1 c2 -> votes_by P c2 c3 -> votes_by P c1 c3.
Proof.
  intros (o1 & H1 & F1) (o2 & H2 & F2). exists (o1 ++ o2). rewrite H2, H1, app_assoc.
  split; [done|]. apply Forall_app. split; [|done].
  eapply Forall_impl; [exact F1|]. simpl. congruence.
Qed.

(** A node agrees to an inquiry only in the re-election state, for its own
    consensus and re-election turn, when the sender is the leader of that
    turn and the time stamp lies in the turn. *)
Record agree_ok (c : controller) (req : HD_V2_ReelectInquiryReqMsg) : Prop := {
  ag_state : State c = stReelect;
  ag_number : irNumber req = Number c;
  ag_turn : irConsensusTurn req = curConsensusTurn (dc c);
  ag_reelect : irReelectTurn req = curReelectTurn (dc c);
  ag_leader : cdc_GetLeader (dc c)
                (u32 (TotalTurns (curConsensusTurn (dc c)) + curReelectTurn (dc c)))
                (bcInterval (dc c)) = Ok (irMaster req);
  ag_sender : exists a1, GetA0AccountFromAnyAccount le_chain (dc c) (irFrom req) (ParentHash c)
                         = Ok (irMaster req, a1);
  ag_time : CheckTimeLegal (turnTime (dc c)) (TotalTurns (curConsensusTurn (dc c)))
              (curReelectTurn (dc c)) (i64 (irTimeStamp req)) = true
}.

Definition justified (c : controller) (ev : event) (o : output) : Prop :=
  match o, ev with
  | OutInquiryRsp rsp target, EvInquiryReq (Some req) =>
      agree_ok c req /\ isReqHash rsp = rlp_inquiry req /\ target = irFrom req
  | OutRLVote vote _, EvRLReq (Some req) =>
      State c = stReelect /\ checkRLReqMsg c (Some req) = Ok tt /\
      cvSignHash vote = rlp_rlreq req
  | OutBroadcastRsp rsp target, EvBroadcast (Some msg) =>
      is_Ok (processResultBroadcastMsg c msg) /\ brResultHash rsp = rlp_broadcast msg /\
      target = bmFrom msg
  | _, _ => False
  end.

(** What a handler guarantees. *)
Record handled (c : controller) (ev : event) (c' : controller) : Prop := {
  hd_steady : steady c c';
  hd_turn : turn_ok c c';
  hd_votes : votes_by (justified c ev) c c'
}.

Lemma calm_handled c ev c' : calm c c' -> handled c ev c'.
Proof.
  intros Hc. split; [by apply calm_steady|left; apply Hc|apply no_votes_by, Hc].
Qed.

Lemma quiet_handled c ev c' : quiet c c' -> handled c ev c'.
Proof. intros. by apply calm_handled, quiet_calm. Qed.

Lemma refl_handled c ev : handled c ev c.
Proof. by apply quiet_handled. Qed.

(** A handler that at most sends one justified vote. *)
Definition near (c : controller) (ev : event) (c' : controller) : Prop :=
  quiet c c' \/ exists o, c' = emit c o /\ justified c ev o.

Lemma near_handled c ev c' : near c ev c' -> handled c ev c'.
Proof.
  intros [Hq|(o & -> & Hj)]; [by apply quiet_handled|].
  split; [apply steady_emit|by left|by apply votes_by_emit].
Qed.

Lemma near_refl c ev : near c ev c.
Proof. by left. Qed.

Lemma behind_near c ev from c' :
  (if bool_decide (State c = stReelect) && isMaster (dc c) then Ok c
   else sendInquiryReqToSingle c from) = Ok c' -> near c ev c'.
Proof.
  destruct (_ && _).
  - intros [= <-]. apply near_refl.
  - intros Hs. by left; eapply sendInquiryReqToSingle_quiet.
Qed.

Lemma handleInquiryReq_near c m c' :
  handleInquiryReq c m = Ok c' -> near c (EvInquiryReq m) c'.
Proof.
  unfold handleInquiryReq, guarded. destruct m as [req|]; [|intros [= <-]; apply near_refl].
  case_bool_decide; [intros [= <-]; apply near_refl|].
  destruct (GetA0AccountFromAnyAccount _ _ _ _) as [[from a1]| |] eqn:Ha0;
    [|intros [= <-]; apply near_refl|done].
  destruct (Z.eqb_spec (irMaster req) from) as [<-|]; [|intros [= <-]; apply near_refl].
  cbn zeta. simpl negb. cbn iota.
  destruct (Z.ltb_spec (irNumber req) (Number c)) as [|Hn1];
    [intros Hs; by left; eapply sendRspNewBlock_quiet|].
  destruct (Z.ltb_spec (Number c) (irNumber req)) as [|Hn2]; [apply behind_near|].
  intros Hs. apply res_bind_Ok in Hs as (h & _ & Hs). cbn zeta in Hs.
  destruct (_ <? _) in Hs; [by left; eapply sendRspNewBlock_quiet|].
  destruct (_ <? _) in Hs; [by eapply behind_near|].
  destruct (Z.ltb_spec (turn_Cmp (irConsensusTurn req) (curConsensusTurn (dc c))) 0) as [|Ht1];
    [by left; eapply sendRspRL_quiet|].
  destruct (Z.ltb_spec 0 (turn_Cmp (irConsensusTurn req) (curConsensusTurn (dc c)))) as [|Ht2];
    [by eapply behind_near|].
  assert (Ht : irConsensusTurn req = curConsensusTurn (dc c)) by (apply turn_Cmp_0; lia).
  destruct (cdc_GetLeader _ _ _) as [master| |] eqn:Hl;
    [|simplify_eq; apply near_refl|done].
  destruct (Z.eqb_spec master (irMaster req)) as [->|]; simpl in Hs;
    [|simplify_eq; apply near_refl].
  destruct (State c) eqn:Hst; try (simplify_eq; apply near_refl);
    [|by left; eapply sendRspPOS_quiet].
  destruct (Z.eqb_spec (irReelectTurn req) (curReelectTurn (dc c))) as [Hre|]; simpl in Hs;
    [|simplify_eq; apply near_refl].
  destruct (CheckTimeLegal _ _ _ _) eqn:Htime; simpl in Hs; [|simplify_eq; apply near_refl].
  unfold sendInquiryRspWithAgree in Hs. simpl in Hs.
  destruct (signHash c _) as [sign| |]; [|simplify_eq; apply near_refl|done].
  simplify_eq. right. eexists. split; [done|]. split_and!; [|done|done].
  split; try done; [lia|by rewrite <- Ht, <- Hre|by exists a1].
Qed.

Lemma handleRLReq_near c m c' : handleRLReq c m = Ok c' -> near c (EvRLReq m) c'.
Proof.
  unfold handleRLReq, guarded. case_bool_decide as Hst; [|intros [= <-]; apply near_refl].
  simpl. destruct (checkRLReqMsg c m) as [[]| |] eqn:Hc; [|intros [= <-]; apply near_refl|done].
  destruct m as [req|]; [|done].
  destruct (signHash c _) as [sign| |]; [|intros [= <-]; apply near_refl|done].
  destruct (rrInquiryReq req) as [inq|]; [|done]. intros [= <-].
  right. by eexists.
Qed.

Lemma handleBroadcastMsg_handled c m c' :
  handleBroadcastMsg c m = Ok c' -> handled c (EvBroadcast m) c'.
Proof.
  unfold handleBroadcastMsg, guarded. destruct m as [msg|]; [|intros [= <-]; apply refl_handled].
  destruct (processResultBroadcastMsg c msg) as [c1| |] eqn:Hp;
    [|intros [= <-]; apply refl_handled|done].
  pose proof Hp as Hp'. apply processResult_spec in Hp as (Hs & Hn & Ht).
  unfold sendResultBroadcastRsp. simpl.
  destruct (signHash c1 _) as [sign| |]; [|intros [= <-]|done].
  - intros [= <-]. split.
    + etrans; [exact Hs|apply steady_emit].
    + exact Ht.
    + eapply votes_by_trans; [exact Hn|]. apply votes_by_emit. split_and!; [by eexists|done|done].
  - split; [done|done|by apply no_votes_by].
Qed.

Lemma handleBroadcastRsp_handled c m c' :
  handleBroadcastRsp c m = Ok c' -> handled c (EvBroadcastRsp m) c'.
Proof.
  unfold handleBroadcastRsp, guarded. destruct m as [m|]; [|intros [= <-]; apply refl_handled].
  destruct (SaveBroadcastVote _ _ _ _ _) as [cache| |] eqn:Hv;
    [|intros [= <-]; apply refl_handled|done].
  cbn zeta. intros Hs. apply res_bind_Ok in Hs as (verdict & _ & Hs).
  assert (Hq : quiet c (up_cache c cache)).
  { apply quiet_cache. eapply cs_bc_vote; [apply verifyVote_genuine|exact Hv]. }
  destruct verdict; [|simplify_eq; by apply quiet_handled|done].
  destruct (GetLocalBroadcastMsg _) as [msg|]; [|simplify_eq; by apply quiet_handled].
  unfold orLog in Hs.
  destruct (processResultBroadcastMsg _ msg) as [c1| |] eqn:Hp;
    [|simplify_eq; by apply quiet_handled|done].
  simplify_eq. apply processResult_spec in Hp as (Hst & Hn & Ht). split.
  - etrans; [by apply calm_steady, quiet_calm|done].
  - destruct Ht as [Ht|[result Ht]]; [by left|right].
    exists result. by eapply result_proved_dc; [..|exact Ht].
  - apply no_votes_by. eapply no_votes_trans; [apply Hq|exact Hn].
Qed.
End Votes.

Section Steps.
Context `{LeaderEnv}.

Lemma handleInquiryRsp_RL_handled c rsp c' :
  guarded (checkRLResult c (isRLResult rsp)) c (fun _ =>
  guarded (GenBroadcastMsgWithInquiryResult (selfCache c) (isType rsp) rsp) c (fun cache =>
    let* c := sendResultBroadcastMsg (up_cache c cache) in
    match isRLResult rsp with
    | None => Panic
    | Some result => finishReelectWithRLConsensus c result
    end)) = Ok c' -> handled c (EvInquiryRsp (Some rsp)) c'.
Proof.
  unfold guarded. intros Hs.
  destruct (checkRLResult c _) as [[]| |] eqn:Hc; [|simplify_eq; apply refl_handled|done].
  destruct (GenBroadcastMsgWithInquiryResult _ _ _) as [cache| |] eqn:Hg;
    [|simplify_eq; apply refl_handled|done].
  apply res_bind_Ok in Hs as (c1 & H1 & Hs).
  destruct (isRLResult rsp) as [result|]; [|done].
  apply checkRLResult_proved in Hc as (inq & Hi & Hp).
  assert (Hq : quiet c c1).
  { etrans; [|by eapply sendResultBroadcastMsg_quiet].
    apply quiet_cache. by eapply cs_gen_bc. }
  destruct (finishRL_spec _ _ _ _ Hi Hs) as (Hst & Hn & Ht). split.
  - etrans; [by apply calm_steady, quiet_calm|done].
  - destruct Ht as [Ht|Ht]; [left; by rewrite Ht, (q_dc _ _ Hq)|right].
    exists result. by rewrite Ht.
  - apply no_votes_by. eapply no_votes_trans; [apply Hq|done].
Qed.

Lemma handleInquiryRsp_Agree_quiet c rsp c' :
  guarded (SaveInquiryVote (selfCache c) (verifyVote (dc c)) (isReqHash rsp)
             (isAgreeSign rsp) (isFrom rsp)) c (fun cache =>
    let c := up_cache c cache in
    let* verdict := weighVotes c (getVotes (inquiryPool (selfCache c))) in
    guarded verdict c (fun rightSigns =>
      let (cache, err) := GenRLReqMsg (selfCache c) rightSigns in
      let c := up_cache c cache in
      match err with
      | Some _ => Ok c
      | None => sendRLReq c
      end)) = Ok c' -> quiet c c'.
Proof.
  unfold guarded. intros Hs.
  destruct (SaveInquiryVote _ _ _ _ _) as [cache| |] eqn:Hv; [|by simplify_eq|done].
  cbn zeta in Hs. apply res_bind_Ok in Hs as (verdict & _ & Hs).
  assert (Hq : quiet c (up_cache c cache)).
  { apply quiet_cache. eapply cs_inquiry_vote; [apply verifyVote_genuine|exact Hv]. }
  etrans; [exact Hq|]. destruct verdict as [signs| |]; [|by simplify_eq|done].
  destruct (GenRLReqMsg _ signs) as [cache' err] eqn:Hg.
  assert (Hq' : quiet (up_cache c cache) (up_cache (up_cache c cache) cache')).
  { apply quiet_cache. change cache' with (cache', err).1. rewrite <- Hg. apply cs_gen_rl. }
  etrans; [exact Hq'|]. destruct err; [by simplify_eq|by eapply sendRLReq_quiet].
Qed.

Lemma handleInquiryRsp_handled c m c' :
  handleInquiryRsp c m = Ok c' -> handled c (EvInquiryRsp m) c'.
Proof.
  unfold handleInquiryRsp. destruct m as [rsp|]; [|done]. destruct (negb _); [intros [= <-]; apply refl_handled|].
  unfold guarded at 1.
  destruct (IsMatchedInquiryRsp _ _) as [[]| |]; [|intros [= <-]; apply refl_handled|done].
  destruct (_ =? _); [intros Hs; by eapply quiet_handled, processNewBlockReadyRsp_quiet|].
  destruct (_ =? _); [apply handleInquiryRsp_RL_handled|].
  destruct (_ =? _).
  - unfold guarded. intros Hs. apply quiet_handled.
    destruct (checkPOSResult _ _) as [[]| |]; [|by simplify_eq|done].
    destruct (GenBroadcastMsgWithInquiryResult _ _ _) eqn:Hg; [|by simplify_eq|done].
    etrans; [|by eapply sendResultBroadcastMsg_quiet].
    apply quiet_cache. by eapply cs_gen_bc.
  - destruct (_ =? _); [|intros [= <-]; apply refl_handled].
    intros Hs. by eapply quiet_handled, handleInquiryRsp_Agree_quiet.
Qed.

Lemma handlePos_handled c m c' :
  handleBlockPOSFinishedNotify c m = Ok c' -> handled c (EvPosFinished m) c'.
Proof.
  unfold handleBlockPOSFinishedNotify. destruct m as [m|]; [|intros [= <-]; apply refl_handled].
  destruct (pnHeader m) eqn:Hh; [|intros [= <-]; apply refl_handled]. intros Hs.
  apply processPOSState_calm in Hs.
  assert (Hp : parentHeader (fst (SavePOSNotifyMsg (mp c) (Some m))) = parentHeader (mp c)).
  { unfold SavePOSNotifyMsg. by repeat case_match. }
  split.
  - etrans; [by apply steady_mp|by apply calm_steady].
  - left. apply (ca_turn _ _ Hs).
  - destruct (ca_outs _ _ Hs) as (os & Ho & Hf). apply no_votes_by. by exists os.
Qed.

Lemma step_handled c ev c' :
  (forall m, ev <> EvStart m) -> step c ev c' -> handled c ev c'.
Proof.
  intros Hns Hs. unfold step, run_step in Hs.
  destruct ev; simplify_eq.
  - by destruct (Hns msg).
  - by apply handlePos_handled.
  - by apply near_handled, handleInquiryReq_near.
  - by apply handleInquiryRsp_handled.
  - by apply near_handled, handleRLReq_near.
  - by eapply quiet_handled, handleRLVote_quiet.
  - by apply handleBroadcastMsg_handled.
  - by apply handleBroadcastRsp_handled.
  - apply calm_handled. etrans; [apply quiet_calm, quiet_timer|by eapply timeOutHandle_calm].
  - apply quiet_handled.
    etrans; [apply quiet_reelectTimer|by eapply reelectTimeOutHandle_quiet].
Qed.

(** ** Starting a height *)

(** [started]: a start message keeps the turn and sends no vote. *)
Record started (c c' : controller) : Prop := {
  su_turn : curConsensusTurn (dc c') = curConsensusTurn (dc c);
  su_number : number (dc c') = number (dc c);
  su_co : dc_coherent (dc c) -> dc_coherent (dc c');
  su_cache : rtc (cache_step verified_vote) (selfCache c) (selfCache c');
  su_outs : no_votes c c'
}.

#[export] Instance started_preorder : PreOrder started.
Proof.
  split; [intros c; split; try done; by apply no_votes_refl|].
  intros c1 c2 c3 [] []. split; try congruence; [auto|by etrans|by eapply no_votes_trans].
Qed.

Lemma calm_started c c' : calm c c' -> started c c'.
Proof. by intros []. Qed.

Lemma started_mp c m : started c (up_mp c m).
Proof. split; try done. by apply no_votes_refl. Qed.

Lemma started_times c tm : started c (up_dc c (with_turnTime (dc c) tm)).
Proof. split; try done; [|by apply no_votes_refl]. intros []. by split. Qed.

Lemma startAnalysed_started c h c' : startAnalysed c h = Ok c' -> started c c'.
Proof.
  unfold startAnalysed. destruct (negb _); [intros [= <-]; apply started_mp|].
  destruct (bcInterval (dc c)) as [bc|]; [|done]. intros Hs.
  apply res_bind_Ok in Hs as (isB & _ & Hs). destruct isB.
  - apply res_bind_Ok in Hs as (c1 & Hp & [= <-]).
    etrans; [apply calm_started, calm_state with (st := stIdle)|].
    etrans; [by eapply calm_started, quiet_calm, publish_quiet|].
    etrans; [apply started_mp|apply calm_started, calm_state].
  - destruct (SetBeginTime _ _) as [st tm]. cbn zeta in Hs.
    apply res_bind_Ok in Hs as (c1 & H1 & Hp).
    etrans; [apply started_times with (tm := tm)|].
    etrans; [|by eapply calm_started, quiet_calm, publish_quiet].
    destruct st; [|by simplify_eq]. destruct (isFirstConsensusTurn _).
    + etrans; [apply started_mp|]. by eapply calm_started, enterTurn_calm.
    + simplify_eq. apply started_mp.
Qed.

(** The messages whose parent state is that of a running chain. *)
Definition event_ok (ev : event) : Prop :=
  match ev with
  | EvStart (Some msg) => state_ok (smParentStateDB msg)
  | _ => True
  end.

Lemma SetSelf_started c a n : started c (SetSelfAddress c a n).
Proof.
  split; try done; [intros []; by split|apply rtc_once, cs_self|by apply no_votes_refl].
Qed.

Lemma handleStartMsg_started c m c' :
  lcNumber (leaderCal (dc c)) = number (dc c) ->
  event_ok (EvStart m) -> handleStartMsg c m = Some (Ok c') -> started c c'.
Proof.
  intros Hnum Hok. unfold handleStartMsg. destruct m as [msg|]; [|by intros [= <-]].
  destruct (smParentHeader msg) as [h|]; [|by intros [= <-]].
  destruct (VersionCmp _ _ <? 0); [by intros [= <-]|].
  destruct (match parentHeader (mp c) with
            | Some old => hTime h <? hTime old | None => false end);
    [by intros [= <-]|]. cbn zeta.
  set (c1 := SetSelfAddress _ _ _).
  assert (H1 : started c c1) by apply SetSelf_started.
  destruct (AnalysisState _ _ _ _) as [[[d err]|[]|]|] eqn:Ha; try done.
  apply AnalysisState_spec in Ha; [|done|done].
  assert (H2 : started c1 (up_dc c1 d)).
  { destruct Ha; [by destruct c1|]. split; try done; by apply no_votes_refl. }
  destruct err; [intros [= <-]; by etrans|]. intros [= Hs].
  apply startAnalysed_started in Hs. etrans; [exact H1|]. by etrans.
Qed.

Lemma step_inv c ev c' :
  lcNumber (leaderCal (dc c)) = number (dc c) -> event_ok ev -> step c ev c' ->
  (dc_coherent (dc c) -> dc_coherent (dc c')) /\
  rtc (cache_step verified_vote) (selfCache c) (selfCache c') /\
  turn_ok c c' /\ votes_by (justified c ev) c c' /\ number (dc c') = number (dc c).
Proof.
  intros Hnum Hok Hs.
  assert ((exists m, ev = EvStart m) \/ forall m, ev <> EvStart m) as [[m ->]|Hns]
    by (destruct ev; eauto).
  - apply handleStartMsg_started in Hs as []; [|done|done].
    split_and!; [done|done|by left|by apply no_votes_by|done].
  - apply step_handled in Hs as [[] Ht Hv]; [|done]. done.
Qed.
End Steps.

Section Mining.
Context `{LeaderEnv}.

(** The proof-of-stake result of the current turn has been received. *)
Definition pos_cached (c : controller) : Prop :=
  is_Some (GetPOSNotifyMsg (mp c) (consensusLeader (dc c)) (curConsensusTurn (dc c))).

(** A block of the consensus leader that the engine accepts at [c]. *)
Definition pos_verified (c : controller) : Prop :=
  exists header version, hLeader header = consensusLeader (dc c) /\
    verifyBlockBy c version header = Ok tt.

(** Where the mining state comes from. *)
Definition mining_src (c c' : controller) : Prop :=
  State c' = stMining -> State c = stMining \/ pos_cached c' \/ pos_verified c.

Lemma quiet_mining c c' : quiet c c' -> mining_src c c'.
Proof. intros [Hd _ _ _] Hm. left. unfold State in *. by rewrite Hd in Hm. Qed.

(** Reaching [c'] from [c] through [c1] that has the same [pos_cached] data. *)
Lemma mining_post c1 c' :
  quiet c1 c' -> (State c1 = stMining -> pos_cached c1) -> State c' = stMining -> pos_cached c'.
Proof. intros [Hd Hmp _ _]. unfold State, pos_cached. by rewrite Hd, Hmp. Qed.

Lemma processPOSState_mining c c' :
  processPOSState c = Ok c' -> State c <> stMining -> State c' = stMining -> pos_cached c'.
Proof.
  unfold processPOSState. destruct (negb _); [by intros [= <-]|].
  destruct (GetPOSNotifyMsg _ _ _) eqn:Hg; intros [= <-]; [|done].
  intros _ _. unfold pos_cached. simpl. by rewrite Hg.
Qed.

Lemma startReelect_state c t c' : startReelect c t = Ok c' -> State c' = State c.
Proof.
  unfold startReelect. destruct (negb _); [by intros [= <-]|].
  destruct (_ =? t); [by intros [= <-]|].
  destruct (SetReelectTurn (dc c) t) as [d| |] eqn:Hs; [|by intros [= <-]|done].
  assert (Hd : state d = state (dc c)).
  { unfold SetReelectTurn in Hs. destruct (_ =? t) in Hs; [by simplify_eq|].
    destruct (t =? 0); [by simplify_eq|]. by apply res_bind_Ok in Hs as (m & _ & [= <-]). }
  intros Hb. apply res_bind_Ok in Hb as (c1 & H1 & Hp). apply publish_quiet in Hp as [Hp _ _ _].
  unfold State. rewrite Hp, <- Hd. destruct (_ =? _) in H1; [|by simplify_eq].
  apply sendInquiryReq_quiet in H1 as [H1 _ _ _]. by rewrite H1.
Qed.

Lemma CalState_not_mining tm t time : (CalState tm t time).1.1 <> stMining.
Proof. unfold CalState. by repeat case_match. Qed.

Lemma enterTurn_mining c t c' :
  enterTurn c t = Ok c' -> State c' = stMining -> pos_cached c'.
Proof.
  unfold enterTurn. cbn zeta.
  pose proof (CalState_not_mining (turnTime (dc (tick c))) t (timeNow c)) as Hcal.
  destruct (CalState _ _ _) as [[st remain] turn]. simpl in Hcal.
  destruct st; try done.
  - intros [= <-]. done.
  - intros Hs. by eapply processPOSState_mining.
  - intros Hs. rewrite (startReelect_state _ _ _ Hs). done.
  - intros [= <-]. done.
Qed.

Lemma finishRL_mining c result c' :
  finishReelectWithRLConsensus c result = Ok c' -> mining_src c c'.
Proof.
  unfold finishReelectWithRLConsensus. intros Hs Hm.
  apply res_bind_Ok in Hs as (inq & _ & Hs). cbn zeta in Hs.
  destruct (SetConsensusTurn _ _); [|simplify_eq; by left|done].
  apply res_bind_Ok in Hs as (c2 & He & Hp). right. left.
  eapply mining_post; [by apply publish_quiet| |done]. by eapply enterTurn_mining.
Qed.

Lemma processResult_mining c msg c' :
  processResultBroadcastMsg c msg = Ok c' -> mining_src c c'.
Proof.
  unfold processResultBroadcastMsg. intros Hs Hm. destruct (bmType msg =? ReelectRSPTypePOS).
  - destruct (bmPOSResult msg) as [pos|]; [|done]. destruct (bqHeader pos) as [h|]; [|done].
    destruct (Z.eqb_spec (hLeader h) (consensusLeader (dc c))) as [Hl|]; [|done]. simpl in Hs.
    apply res_bind_Ok in Hs as ([] & Hv & _). right. right. by exists h, (hVersion h).
  - destruct (_ || _); [|done]. apply res_bind_Ok in Hs as ([] & _ & Hs).
    destruct (bmRLResult msg) as [result|]; [|done].
    destruct (finishReelectWithRLConsensus c result) as [c1|[]|] eqn:Hf; simplify_eq/=.
    by eapply finishRL_mining.
Qed.

Lemma mining_src_dc c1 c2 c' : dc c1 = dc c2 -> mining_src c1 c' -> mining_src c2 c'.
Proof.
  unfold mining_src, State, pos_verified, verifyBlockBy. intros Hd Hs Hm.
  rewrite <- Hd. by apply Hs.
Qed.

Lemma startAnalysed_mining c h c' :
  startAnalysed c h = Ok c' -> State c' = stMining -> State c = stMining \/ pos_cached c'.
Proof.
  unfold startAnalysed. destruct (negb _); [intros [= <-]; by left|].
  destruct (bcInterval (dc c)) as [bc|]; [|done]. intros Hs Hm.
  apply res_bind_Ok in Hs as (isB & _ & Hs). destruct isB.
  { by apply res_bind_Ok in Hs as (c1 & Hp & [= <-]). }
  destruct (SetBeginTime _ _) as [st tm]. cbn zeta in Hs.
  apply res_bind_Ok in Hs as (c1 & H1 & Hp). apply publish_quiet in Hp.
  assert (Hm1 : State c1 = stMining) by (unfold State; by rewrite <- (q_dc _ _ Hp)).
  destruct st; [|simplify_eq; by left]. destruct (isFirstConsensusTurn _).
  - right. eapply mining_post; [exact Hp| |done]. by eapply enterTurn_mining.
  - simplify_eq. by left.
Qed.

Lemma handleStart_mining c m c' :
  handleStartMsg c m = Some (Ok c') -> lcNumber (leaderCal (dc c)) = number (dc c) ->
  event_ok (EvStart m) -> mining_src c c'.
Proof.
  unfold handleStartMsg. intros Hs Hnum Hok Hm. destruct m as [msg|]; [|simplify_eq; by left].
  destruct (smParentHeader msg) as [h|]; [|simplify_eq; by left].
  destruct (VersionCmp _ _ <? 0); [simplify_eq; by left|].
  destruct (match parentHeader (mp c) with
            | Some old => hTime h <? hTime old | None => false end);
    [simplify_eq; by left|]. cbn zeta in Hs.
  destruct (AnalysisState _ _ _ _) as [[[d err]|[]|]|] eqn:Ha; try done.
  apply AnalysisState_spec in Ha; [|done|done].
  assert (Hd : state d = state (dc c)) by (by destruct Ha).
  destruct err; [simplify_eq; left; unfold State in *; simpl in *; congruence|].
  injection Hs as Hs. destruct (startAnalysed_mining _ _ _ Hs Hm) as [Hst|Hst]; [|by right; left].
  left. unfold State in *. simpl in *. congruence.
Qed.

Lemma handleInquiryRsp_mining c m c' : handleInquiryRsp c m = Ok c' -> mining_src c c'.
Proof.
  unfold handleInquiryRsp. intros Hs. destruct m as [rsp|]; [|done]. destruct (negb _); [simplify_eq; by left|].
  unfold guarded at 1 in Hs.
  destruct (IsMatchedInquiryRsp _ _) as [[]| |]; [|simplify_eq; by left|done].
  destruct (_ =? _) in Hs; [by eapply quiet_mining, processNewBlockReadyRsp_quiet|].
  destruct (_ =? _) in Hs; [|destruct (_ =? _) in Hs].
  - unfold guarded in Hs. destruct (checkRLResult c _); [|simplify_eq; by left|done].
    destruct (GenBroadcastMsgWithInquiryResult _ _ _) eqn:Hg; [|simplify_eq; by left|done].
    apply res_bind_Ok in Hs as (c1 & H1 & Hs). destruct (isRLResult rsp); [|done].
    eapply mining_src_dc; [|by eapply finishRL_mining].
    by apply sendResultBroadcastMsg_quiet in H1 as [H1 _ _ _].
  - unfold guarded in Hs. destruct (checkPOSResult _ _); [|simplify_eq; by left|done].
    destruct (GenBroadcastMsgWithInquiryResult _ _ _) eqn:Hg; [|simplify_eq; by left|done].
    apply sendResultBroadcastMsg_quiet in Hs. eapply mining_src_dc; [|by apply quiet_mining].
    done.
  - destruct (_ =? _) in Hs; [|simplify_eq; by left].
    by eapply quiet_mining, handleInquiryRsp_Agree_quiet.
Qed.

Lemma near_mining c ev c' : near c ev c' -> mining_src c c'.
Proof. intros [Hq|(o & -> & _)]; [by apply quiet_mining|by left]. Qed.

Lemma handleBroadcastRsp_mining c m c' : handleBroadcastRsp c m = Ok c' -> mining_src c c'.
Proof.
  unfold handleBroadcastRsp, guarded. intros Hs. destruct m as [m|]; [|simplify_eq; by left].
  destruct (SaveBroadcastVote _ _ _ _ _) as [cache| |]; [|simplify_eq; by left|done].
  cbn zeta in Hs. apply res_bind_Ok in Hs as (verdict & _ & Hs).
  destruct verdict; [|simplify_eq; by left|done].
  destruct (GetLocalBroadcastMsg _) as [msg|]; [|simplify_eq; by left].
  unfold orLog in Hs. destruct (processResultBroadcastMsg _ msg) as [c1| |] eqn:Hp;
    [|simplify_eq; by left|done].
  simplify_eq. eapply mining_src_dc; [|by eapply processResult_mining]. done.
Qed.

Lemma handleBroadcastMsg_mining c m c' : handleBroadcastMsg c m = Ok c' -> mining_src c c'.
Proof.
  unfold handleBroadcastMsg, guarded. intros Hs Hm. destruct m as [msg|]; [|simplify_eq; by left].
  destruct (processResultBroadcastMsg c msg) as [c1| |] eqn:Hp; [|simplify_eq; by left|done].
  apply processResult_mining in Hp.
  unfold sendResultBroadcastRsp in Hs. simpl in Hs.
  destruct (signHash c1 _); simplify_eq; by apply Hp.
Qed.

Lemma step_mining c ev c' :
  lcNumber (leaderCal (dc c)) = number (dc c) -> event_ok ev -> step c ev c' -> mining_src c c'.
Proof.
  intros Hnum Hok Hs. unfold step, run_step in Hs. destruct ev; simplify_eq.
  - by eapply handleStart_mining.
  - unfold handleBlockPOSFinishedNotify in Hs. destruct msg as [m|]; [|simplify_eq; by left].
    destruct (pnHeader m); [|simplify_eq; by left]. intros Hm.
    destruct (decide (State c = stMining)); [by left|]. right. left.
    by eapply processPOSState_mining.
  - by eapply near_mining, handleInquiryReq_near.
  - by eapply handleInquiryRsp_mining.
  - by eapply near_mining, handleRLReq_near.
  - by eapply quiet_mining, handleRLVote_quiet.
  - by eapply handleBroadcastMsg_mining.
  - by eapply handleBroadcastRsp_mining.
  - unfold timeOutHandle in Hs. cbn zeta in Hs.
    pose proof (CalState_not_mining (turnTime (dc (tick (setTimer c 0))))
                  (TotalTurns (curConsensusTurn (dc (tick (setTimer c 0)))))
                  (timeNow (setTimer c 0))) as Hcal.
    destruct (CalState _ _ _) as [[st remain] turn]. simpl in Hcal. intros Hm.
    destruct (State (tick (setTimer c 0))) eqn:Hst; simplify_eq; try by left.
    all: apply startReelect_state in Hs; rewrite Hs in Hm; done.
  - eapply mining_src_dc; [|by eapply quiet_mining, reelectTimeOutHandle_quiet]. done.
Qed.
End Mining.
