(* ===== verification/LeaderSafety.v ===== *)
(** * Safety of the leader protocol

    The theorems about reachable controllers: the consensus turn only advances
    on a result that more than two thirds of the validators voted for, cached
    leaders belong to the current turns, votes are only given to requests that
    pass the node's own checks, counted votes are genuine, and the mining state
    needs a finished proof-of-stake round. *)

From S2P Require Import GoLang Broadcast Roles Turns Topology TurnTimes Header.
From S2P Require Import Reader Dpos Crypto SignHelper LeaderMsgs LeaderCal Cdc Controller.
From S2P Require Import ControllerProofs Prelude.

Section Safety.
Context `{LeaderEnv}.

(** Reachable states. *)
Inductive reachable : controller -> Prop :=
| reach_init n : reachable (newController n)
| reach_step c ev c' : reachable c -> event_ok ev -> step c ev c' -> reachable c'.

Lemma reachable_inv c :
  reachable c ->
  dc_coherent (dc c) /\ exists n, rtc (cache_step verified_vote) (newMasterCache n) (selfCache c).
Proof.
  induction 1 as [n|c ev c' _ [Hco [n Hc]] Hok Hs].
  { split; [apply newCDC_coherent|]. by exists n. }
  destruct (step_inv _ _ _ (co_number _ Hco) Hok Hs) as (Hco' & Hc' & _).
  split; [auto|]. exists n. by etrans.
Qed.

(** The topologies the controller can read are those of a running chain. *)
Definition graphs_ok (c : controller) : Prop :=
  forall h t e, cdc_GetGraphByHash le_chain (dc c) h = Ok (t, e) ->
                stocks_ok (graph2ValidatorStocks t e).

(** More than two thirds of the validators of the parent block signed [hash]. *)
Definition voted (c : controller) (hash : Z) (signs : list Z) : Prop :=
  exists t e A rs, cdc_GetGraphByHash le_chain (dc c) (ParentHash c) = Ok (t, e) /\
    quorum VerifySignWithValidate (cdc_reader le_chain (dc c)) (graph2ValidatorStocks t e)
      (ParentHash c) hash signs rs A.

Lemma verifyHashAtParent_voted c h hash signs :
  graphs_ok c -> verifyHashAtParent c h hash signs = Ok tt -> voted c hash signs.
Proof.
  intros Hg Hv. unfold verifyHashAtParent in Hv. apply res_bind_Ok in Hv as (rs & Hv & _).
  destruct (VerifyHashWithBlock _ _ _ _ _ _) as [rs'| |] eqn:Hb; simplify_eq/=.
  unfold VerifyHashWithBlock, getValidatorStocks in Hb.
  apply res_bind_Ok in Hb as (stocks & Hst & Hb).
  apply res_bind_Ok in Hst as ([t e] & Hge & [= <-]). simpl in Hge.
  destruct (cdc_GetGraphByHash le_chain (dc c) (ParentHash c)) as [[t' e']| |] eqn:Hgr;
    simplify_eq/=.
  apply VerifyHashWithStocks_quorum in Hb as [A HA]; [|by eapply Hg].
  by exists t, e, A, rs.
Qed.
End Safety.

(** C4: the consensus turn of a height only moves forward, and only on a
    result that carries the votes of more than two thirds of the validators of
    the parent block for the re-election request of exactly that turn. *)
Theorem consensus_turn_advances `{LeaderEnv} c ev c' :
  reachable c -> event_ok ev -> graphs_ok c -> step c ev c' ->
  curConsensusTurn (dc c') <> curConsensusTurn (dc c) ->
  0 < turn_Cmp (curConsensusTurn (dc c')) (curConsensusTurn (dc c)) /\
  exists req inq votes,
    rrInquiryReq req = Some inq /\ curConsensusTurn (dc c') = resultTurn inq /\
    voted c (rlp_rlreq req) votes.
Proof.
  intros Hr Hok Hg Hs Hne. apply reachable_inv in Hr as [Hco _].
  destruct (step_inv _ _ _ (co_number _ Hco) Hok Hs) as (_ & _ & [Ht|[result Ht]] & _); [done|].
  destruct Ht as [(req & inq & h & Hreq & Hinq & Htn & Hh & Hv) Hord]. split.
  - assert (turn_Cmp (curConsensusTurn (dc c')) (curConsensusTurn (dc c)) <> 0)
      by (intros H0; apply Hne; by apply turn_Cmp_0). lia.
  - exists req, inq, (rcVotes result). split_and!; try done.
    by eapply verifyHashAtParent_voted.
Qed.

(** In every reachable controller the cached consensus leader is the
    leader of the current consensus turn, and while a re-election turn is open
    the cached master is the leader of that turn. *)
Theorem leaders_stay_coherent `{LeaderEnv} c bc :
  reachable c -> bcInterval (dc c) = Some bc ->
  turn_leader (dc c) bc (TotalTurns (curConsensusTurn (dc c))) (consensusLeader (dc c)) /\
  (curReelectTurn (dc c) <> 0 ->
   turn_leader (dc c) bc (u32 (TotalTurns (curConsensusTurn (dc c)) + curReelectTurn (dc c)))
     (reelectMaster (dc c))).
Proof. intros Hr Hbc. apply reachable_inv in Hr as [[] _]. auto. Qed.

(** ** What a vote stands for *)

Section Votes.
Context `{LeaderEnv}.

(** The time lies in the current re-election turn. *)
Definition in_turn (c : controller) (time : Z) : Prop :=
  let '(bt, et) := CalTurnTime (turnTime (dc c)) (TotalTurns (curConsensusTurn (dc c))) (curReelectTurn (dc c)) in
  bt < time < et.

(** The account leads the current re-election turn. *)
Definition leads_turn (c : controller) (master : Z) : Prop :=
  forall bc, bcInterval (dc c) = Some bc ->
    turn_leader (dc c) bc (u32 (TotalTurns (curConsensusTurn (dc c)) + curReelectTurn (dc c))) master.

(** A vote for an inquiry: it is of the height and the turns of the node, comes from
    an account of the master of the turn, and lies in the turn. *)
Record inquiry_good (c : controller) (req : HD_V2_ReelectInquiryReqMsg) : Prop := {
  ig_number : irNumber req = Number c;
  ig_consensus : irConsensusTurn req = curConsensusTurn (dc c);
  ig_reelect : irReelectTurn req = curReelectTurn (dc c);
  ig_master : leads_turn c (irMaster req);
  ig_sender : exists a1, GetA0AccountFromAnyAccount le_chain (dc c) (irFrom req) (ParentHash c) = Ok (irMaster req, a1);
  ig_time : in_turn c (i64 (irTimeStamp req))
}.

(** A vote for a re-election request: its inquiry is of the turns of the node and its
    master, more than two thirds of the validators have signed the inquiry, and the
    request is no older than the inquiry and lies in the turn.  The height of the
    inquiry is not looked at. *)
Record request_good (c : controller) (req : HD_V2_ReelectLeaderReqMsg) (inq : HD_V2_ReelectInquiryReqMsg) : Prop := {
  rg_inquiry : rrInquiryReq req = Some inq;
  rg_consensus : irConsensusTurn inq = curConsensusTurn (dc c);
  rg_reelect : irReelectTurn inq = curReelectTurn (dc c);
  rg_master : irMaster inq = reelectMaster (dc c) /\ (curReelectTurn (dc c) <> 0 -> leads_turn c (irMaster inq));
  rg_order : i64 (irTimeStamp inq) <= i64 (rrTimeStamp req);
  rg_time : in_turn c (i64 (rrTimeStamp req));
  rg_voted : voted c (rlp_inquiry inq) (rrAgreeSigns req)
}.

(** An answer to the broadcast of a result: the result is a block of the consensus
    leader that is signed by the rules, or a re-election to a turn that is not behind
    the node, signed by more than two thirds of the validators.  Height, master and
    time of the broadcast are not looked at. *)
Definition result_good (c : controller) (msg : HD_V2_ReelectBroadcastMsg) : Prop :=
  (exists pos header, bmPOSResult msg = Some pos /\ bqHeader pos = Some header /\ hLeader header = consensusLeader (dc c) /\
     block_signed VerifySignWithValidate (cdc_reader le_chain (dc c)) header) \/
  (exists result req inq, bmRLResult msg = Some result /\ rcReq result = Some req /\ rrInquiryReq req = Some inq /\
     0 <= turn_Cmp (resultTurn inq) (curConsensusTurn (dc c)) /\ voted c (rlp_rlreq req) (rcVotes result)).

(** The vote [o] answers the message of the step. *)
Definition vote_good (c : controller) (ev : event) (o : output) : Prop :=
  match o, ev with
  | OutInquiryRsp rsp target, EvInquiryReq (Some req) =>
      State c = stReelect /\ isReqHash rsp = rlp_inquiry req /\ target = irFrom req /\ inquiry_good c req
  | OutRLVote vote _, EvRLReq (Some req) =>
      State c = stReelect /\ cvSignHash vote = rlp_rlreq req /\ exists inq, request_good c req inq
  | OutBroadcastRsp rsp target, EvBroadcast (Some msg) =>
      brResultHash rsp = rlp_broadcast msg /\ target = bmFrom msg /\ result_good c msg
  | _, _ => False
  end.

Lemma legal_in_turn c time :
  CheckTimeLegal (turnTime (dc c)) (TotalTurns (curConsensusTurn (dc c))) (curReelectTurn (dc c)) time = true -> in_turn c time.
Proof.
  unfold CheckTimeLegal, in_turn. destruct (CalTurnTime _ _ _) as [bt et]. rewrite negb_true_iff, orb_false_iff, Z.geb_leb, !Z.leb_gt. lia.
Qed.

Lemma reader_graphs_ok c : reader_ok (cdc_reader le_chain (dc c)) -> graphs_ok c.
Proof. intros (_ & _ & Hg) h t e E. apply (Hg h). cbn. by rewrite E. Qed.

Lemma checkRLReqMsg_good c req :
  dc_coherent (dc c) -> graphs_ok c -> checkRLReqMsg c (Some req) = Ok tt -> exists inq, request_good c req inq.
Proof.
  intros Hco Hg. cbn [checkRLReqMsg]. destruct (rrInquiryReq req) as [inq|] eqn:Ei; [|done].
  case_bool_decide as Ec; [|done]. destruct (Z.eqb_spec (irReelectTurn inq) (curReelectTurn (dc c))) as [Er|]; [|done].
  destruct (Z.eqb_spec (irMaster inq) (reelectMaster (dc c))) as [Em|]; [|done]. cbn [negb].
  destruct (Z.ltb_spec (i64 (rrTimeStamp req)) (i64 (irTimeStamp inq))); [done|].
  destruct (CheckTimeLegal _ _ _ _) eqn:Et; [|done]. cbn [negb]. destruct (parentHeader (mp c)) as [h|]; [|done].
  intros Hv%(verifyHashAtParent_voted c h _ _ Hg). exists inq. split; auto using legal_in_turn.
  split; [done|]. intros Hne bc Hbc. rewrite Em. by apply (co_master _ Hco).
Qed.

Lemma checkRLResult_good c result :
  graphs_ok c -> checkRLResult c (Some result) = Ok tt ->
  exists req inq, rcReq result = Some req /\ rrInquiryReq req = Some inq /\
    0 <= turn_Cmp (resultTurn inq) (curConsensusTurn (dc c)) /\ voted c (rlp_rlreq req) (rcVotes result).
Proof.
  intros Hg. cbn [checkRLResult]. destruct (rcReq result) as [req|]; [|done]. destruct (rrInquiryReq req) as [inq|] eqn:Ei; [|done].
  destruct (Z.ltb_spec (turn_Cmp (resultTurn inq) (curConsensusTurn (dc c))) 0); [done|]. destruct (parentHeader (mp c)) as [h|]; [|done].
  intros Hv%(verifyHashAtParent_voted c h _ _ Hg). by exists req, inq.
Qed.

Lemma processResult_good c msg :
  reader_ok (cdc_reader le_chain (dc c)) -> is_Ok (processResultBroadcastMsg c msg) -> result_good c msg.
Proof.
  intros Hrd [c' Hp]. pose proof (reader_graphs_ok c Hrd) as Hg. unfold processResultBroadcastMsg in Hp.
  destruct (bmType msg =? ReelectRSPTypePOS); [left|right].
  - destruct (bmPOSResult msg) as [pos|]; [|done]. destruct (bqHeader pos) as [header|] eqn:Eh; [|done].
    destruct (Z.eqb_spec (hLeader header) (consensusLeader (dc c))) as [El|]; [|done]. cbn [negb] in Hp.
    apply res_bind_Ok in Hp as ([] & Hv & _). exists pos, header. do 3 (split; [done|]).
    unfold verifyBlockBy in Hv. apply res_bind_Ok in Hv as ([] & Hv & _).
    destruct (VerifyBlock _ _ _ _) as [[]| |] eqn:Eb in Hv; [|done..]. by apply VerifyBlock_sound in Eb as [_ Eb].
  - destruct (_ || _); [|done]. apply res_bind_Ok in Hp as ([] & Hv & Hp). destruct (bmRLResult msg) as [result|]; [|done].
    destruct (checkRLResult_good c result Hg Hv) as (req & inq & ?). by exists result, req, inq.
Qed.

Lemma justified_good c ev o :
  dc_coherent (dc c) -> reader_ok (cdc_reader le_chain (dc c)) -> justified c ev o -> vote_good c ev o.
Proof.
  intros Hco Hrd. pose proof (reader_graphs_ok c Hrd) as Hg.
  destruct o, ev as [| |[rq|]| |[rq|]| |[bm|]| | |]; try done; cbn [justified vote_good].
  - intros (Ha & Hh & Ht). split; [apply Ha|]. split; [done|]. split; [done|]. split; try apply Ha.
    + intros bc Hbc. unfold turn_leader. rewrite <- Hbc. apply Ha.
    + apply legal_in_turn, Ha.
  - intros (Hst & Hc & Hh). split; [done|]. split; [done|]. by apply checkRLReqMsg_good.
  - intros (Hp & Hh & Ht). split; [done|]. split; [done|]. by apply processResult_good.
Qed.
End Votes.

(** C25: a node never votes blindly.  Every vote a step of a reachable controller sends
    answers the very message of that step and carries its hash: for an inquiry of the
    height and the turns of the node, from the master of the turn and with a time in
    the turn; for a re-election request of the turns and the master of the node, with
    a time in the turn and with an inquiry that more than two thirds of the validators
    of the parent block have signed; or for the broadcast of a block of the consensus
    leader that is signed by the rules, or of a re-election to a turn that is not
    behind the node and that more than two thirds of the validators have signed. *)
Theorem votes_justified `{LeaderEnv} c ev c' :
  reachable c -> event_ok ev -> reader_ok (cdc_reader le_chain (dc c)) -> step c ev c' ->
  exists sent, outs c' = outs c ++ sent /\
    forall o, o ∈ sent -> is_vote o = true -> vote_good c ev o.
Proof.
  intros Hr Hok Hrd Hs. apply reachable_inv in Hr as [Hco _].
  destruct (step_inv _ _ _ (co_number _ Hco) Hok Hs) as (_ & _ & _ & (os & Ho & Hf) & _).
  exists os. split; [done|]. rewrite Forall_forall in Hf. intros o Hin Hv. apply justified_good; auto.
Qed.

(** Every vote a master counts is genuine: in every reachable controller
    each cached vote is an agreeing signature, verified by the node, of the hash
    of the request it is counted for, filed under the account that signed. *)
Theorem counted_votes_genuine `{LeaderEnv} c from v :
  reachable c ->
  (voteCache (inquiryPool (selfCache c)) !! from = Some v ->
   exists req, reqMsg (inquiryPool (selfCache c)) = Some req /\ vsValidate v = true /\
               verified_vote (rlp_inquiry req) (vsSign v) (vsAccount v) from) /\
  (voteCache (rlReqPool (selfCache c)) !! from = Some v ->
   exists req, reqMsg (rlReqPool (selfCache c)) = Some req /\ vsValidate v = true /\
               verified_vote (rlp_rlreq req) (vsSign v) (vsAccount v) from) /\
  (voteCache (broadcastPool (selfCache c)) !! from = Some v ->
   exists msg, reqMsg (broadcastPool (selfCache c)) = Some msg /\ vsValidate v = true /\
               verified_vote (rlp_broadcast msg) (vsSign v) (vsAccount v) from).
Proof.
  intros Hr. apply reachable_inv in Hr as [_ [n Hc]].
  assert (Hwf : cache_wf verified_vote (selfCache c)).
  { eapply cache_steps_wf; [exact Hc|apply newMasterCache_wf]. }
  destruct Hwf as [[Hi1 Hi2] [Hr1 Hr2] [Hb1 Hb2] _ _].
  split_and!; intros Hl;
    [destruct (Hi2 _ _ Hl) as (Hnz & Hval & Hg); destruct (Hi1 Hnz) as (m & Hm & He)
    |destruct (Hr2 _ _ Hl) as (Hnz & Hval & Hg); destruct (Hr1 Hnz) as (m & Hm & He)
    |destruct (Hb2 _ _ Hl) as (Hnz & Hval & Hg); destruct (Hb1 Hnz) as (m & Hm & He)];
    exists m; rewrite <- He; auto.
Qed.

(** C32: a controller enters the mining state only when the proof-of-stake round
    of its turn is finished: it has the round's result for its own leader and
    turn, or it was given a block of its consensus leader that the engine
    accepts. *)
Theorem mining_needs_pos `{LeaderEnv} c ev c' :
  reachable c -> event_ok ev -> step c ev c' ->
  State c' = stMining -> State c <> stMining -> pos_cached c' \/ pos_verified c.
Proof.
  intros Hr Hok Hs Hm Hnm. apply reachable_inv in Hr as [Hco _].
  destruct (step_mining _ _ _ (co_number _ Hco) Hok Hs Hm) as [|Hp]; done.
Qed.

(** ** Witnesses: three validators re-elect the leader of height 401 *)

Module Run.
#[local] Existing Instance toy_curve.

Definition relations (g : TopologyGraph) : StateDB :=
  mkStateDB (Ok (Some g)) (Ok []) (Ok None) (Ok None) (Ok (Some (mkLeaderConfig 20 20 20 3)))
    (Ok (Some w_bc)) (fun a => a) (fun a => if (11 <=? a) && (a <=? 13) then a else 0)
    (fun _ _ => []) (fun _ _ => 0).
Definition graph : TopologyGraph := mkGraph w_validators 2.
Definition elect : ElectGraph := mkElectGraph 0 [] [] [].
Definition chain : BlockChain :=
  mkChain w_chain
    (mkReader 0 (fun _ => Err ErrRead) (fun _ => Err ErrRead) (fun _ => Err ErrRead)
       (fun _ => Err ErrRead) (fun _ => Err ErrRead) (fun _ _ => Err ErrRead))
    (fun _ => Ok (graph, elect)) (fun _ _ => Err ErrRead) (fun _ _ _ => Err ErrRead)
    (fun _ _ _ => Err ErrRead).

(** The node of validator 11; the clock stands in the first re-election turn
    of a height whose parent block is of time 1000. *)
#[local] Instance env : LeaderEnv := {|
  le_headerHash := {| header_Hash _ := 5; HashNoSigns _ := 5; HashNoSignsAndNonce _ := 5 |};
  le_rlpHash := {| rlp_inquiry _ := 40; rlp_rlreq _ := 41; rlp_broadcast _ := 42 |};
  le_keyStore := mkKeyStore (<[11 := 1]> ∅) (fun acc _ => Some acc) 11;
  le_signAddress := 11;
  le_chain := chain;
  le_clock _ := 1050;
  le_VerifyHeader _ _ _ := true;
  le_dposMode _ := false
|}.

Definition parent : Header := mkHeader 7 999 0 400 1000 [] VersionGamma [].
Definition start : event := EvStart (Some (mkStart (Some parent) (relations graph))).
Definition vote (hash a : Z) : Z := (hash * 1000 + a) * 256.
Definition inquiry : HD_V2_ReelectInquiryReqMsg := mkInquiryReq 401 1000 (mkTurn 0 0) 1 1045 11 11.
Definition result : HD_V2_ReelectLeaderConsensus :=
  mkRLConsensus (Some (mkRLReq (Some inquiry) [] 1046)) [vote 41 11; vote 41 12; vote 41 13].
Definition broadcast : event :=
  EvBroadcast (Some (mkBroadcastMsg 401 ReelectRSPTypeAgree None (Some result) 0 12)).
Definition posFinished : event :=
  EvPosFinished (Some (mkPosNotify 401 (Some (mkHeader 5 11 0 401 1051 [] VersionGamma []))
                         (mkTurn 0 1) [])).

Definition next (c : controller) (ev : event) : controller :=
  match run_step c ev with Some (Ok c') => c' | _ => c end.

Definition c0 : controller := newController 401.
Definition c1 : controller := next c0 start.
Definition c2 : controller := next c1 broadcast.
Definition c3 : controller := next c2 posFinished.

Lemma graph_state_ok : state_ok (relations graph).
Proof. split; [intros g [= <-]; vm_compute; by split|intros bc [= <-]; by vm_compute]. Qed.

Lemma step1 : step c0 start c1.
Proof. vm_compute. reflexivity. Qed.

Lemma step2 : step c1 broadcast c2.
Proof. vm_compute. reflexivity. Qed.

Lemma step3 : step c2 posFinished c3.
Proof. vm_compute. reflexivity. Qed.

Lemma reach1 : reachable c1.
Proof. apply reach_step with c0 start; [constructor|exact graph_state_ok|exact step1]. Qed.

Lemma reach2 : reachable c2.
Proof. apply reach_step with c1 broadcast; [exact reach1|exact I|exact step2]. Qed.

Lemma graphs1 : graphs_ok c1.
Proof.
  intros h t e. unfold cdc_GetGraphByHash, at_hash.
  destruct (_ =? _); [done|]. destruct (_ =? _); [|done].
  intros [= <- <-]. split; [vm_compute; discriminate|].
  apply (bool_decide_unpack _). vm_compute. exact I.
Qed.

Lemma reader1 : reader_ok (cdc_reader le_chain (dc c1)).
Proof.
  assert (versionSupers (lcSpecials (leaderCal (dc c1))) = None /\ blockSupers (lcSpecials (leaderCal (dc c1))) = None)
    as [Ev Eb] by (split; vm_compute; reflexivity).
  unfold cdc_reader, cdc_GetVersionSuperAccounts, cdc_GetBlockSuperAccounts, at_hash. rewrite Ev, Eb.
  split_and!; [intros h l|intros h l|exact graphs1]; cbn [sr_GetVersionSuperAccounts sr_GetBlockSuperAccounts];
    (destruct (_ =? _); [discriminate|]; destruct (_ =? _); discriminate).
Qed.

Lemma consensus_turn_advances_witness :
  0 < turn_Cmp (mkTurn 0 1) (mkTurn 0 0) /\
  exists req inq votes,
    rrInquiryReq req = Some inq /\ mkTurn 0 1 = resultTurn inq /\
    voted c1 (rlp_rlreq req) votes.
Proof.
  apply (consensus_turn_advances c1 broadcast c2);
    [exact reach1|exact I|exact graphs1|exact step2|vm_compute; discriminate].
Defined.

Lemma leaders_stay_coherent_witness :
  turn_leader (dc c1) w_bc 0 13 /\ (curReelectTurn (dc c1) <> 0 -> turn_leader (dc c1) w_bc 1 11).
Proof.
  apply (leaders_stay_coherent c1 w_bc); [exact reach1|vm_compute; reflexivity].
Defined.

Lemma votes_justified_witness :
  exists sent, outs c2 = outs c1 ++ sent /\
    (exists o, o ∈ sent /\ is_vote o = true) /\
    forall o, o ∈ sent -> is_vote o = true -> vote_good c1 broadcast o.
Proof.
  destruct (votes_justified c1 broadcast c2) as (sent & E & Hv); [exact reach1|exact I|exact reader1|exact step2|].
  exists sent. split; [exact E|]. split; [|exact Hv].
  assert (sent = drop (length (outs c1)) (outs c2)) as -> by (rewrite E; by rewrite drop_app_length).
  eexists. split; [vm_compute; right; left|]. reflexivity.
Defined.

Lemma counted_votes_genuine_witness :
  exists req, reqMsg (inquiryPool (selfCache c1)) = Some req /\ true = true /\
              verified_vote (rlp_inquiry req) (vote 40 11) 11 11.
Proof.
  apply (proj1 (counted_votes_genuine c1 11 (mkVerified (vote 40 11) 11 true 0) reach1)).
  vm_compute. reflexivity.
Defined.

Lemma mining_needs_pos_witness : pos_cached c3 \/ pos_verified c2.
Proof.
  apply (mining_needs_pos c2 posFinished c3);
    [exact reach2|exact I|exact step3|vm_compute; reflexivity|vm_compute; discriminate].
Defined.
Lemma malformed_broadcast_panics_witness :
  handleBroadcastMsg c1
    (Some (mkBroadcastMsg 401 ReelectRSPTypeAgree None (Some (mkRLConsensus None [])) 0 12)) = Panic.
Proof.
  apply (malformed_broadcast_panics c1 _ []); [left; reflexivity|reflexivity].
Defined.

End Run.
