(* ===== verification/CtrlManager.v ===== *)
(** * Controller manager and leader service
    ([leaderelect2.0/ctrlManager.go], [leaderelect2.0/leaderReElection.go], [controller.go])

    The service hands every message to the controller of its height.  The
    manager keeps the controllers of a window of heights above the chain head;
    each runs in its own goroutine and takes its messages from a channel of ten
    places.  Closing a controller takes it out of the map and closes its quit
    channel; its goroutine ends when its select loop happens to see that, and may
    take waiting messages and timers before.  The controllers are therefore kept in
    a heap, in which they stay, and the map leads to them.  A call of the service
    that finds the channel of a controller full waits with the lock of the manager.
    A step of the system is one service call, the end of such a wait, or one turn of
    one controller's select loop; the relation allows every interleaving. *)

From S2P Require Import GoLang Broadcast Roles Turns Topology TurnTimes Header.
From S2P Require Import Reader Dpos Crypto SignHelper LeaderMsgs LeaderCal Cdc Controller.
From S2P Require Import ControllerProofs LeaderSafety Prelude.

Definition mangerCacheMax : Z := 2.

(** [make(chan interface{}, 10)] *)
Definition msgChCap : nat := 10.

(** A controller with its channel, whether its quit channel is closed, and whether
    its goroutine runs. *)
Record slot := mkSlot { ctrl : controller; inbox : list event; quit : bool; live : bool }.

(** [sending] is the message that waits for a place in the channel of a controller,
    by a call that holds the lock. *)
Record ControllerManager := mkManager {
  curChainState : ChainState;
  ctrlMap : gmap Z nat;
  ctrls : list slot;
  sending : option (nat * event)
}.

Inductive manager_error := ErrNumberZero | ErrNumberLow | ErrNumberHigh.

Definition NewControllerManager : ControllerManager := mkManager (mkChainState 0 0) ∅ [] None.

Definition set_chain (st : ChainState) (cm : ControllerManager) : ControllerManager :=
  mkManager st (ctrlMap cm) (ctrls cm) (sending cm).

Definition set_ctrls (m : gmap Z nat) (cs : list slot) (cm : ControllerManager) : ControllerManager :=
  mkManager (curChainState cm) m cs (sending cm).

Definition set_sending (o : option (nat * event)) (cm : ControllerManager) : ControllerManager :=
  mkManager (curChainState cm) (ctrlMap cm) (ctrls cm) o.

Definition push (ev : event) (s : slot) : slot := mkSlot (ctrl s) (inbox s ++ [ev]) (quit s) (live s).

Definition isLegalNumber (cm : ControllerManager) (num : Z) : res manager_error unit :=
  if num <? curNumber (curChainState cm) then Err ErrNumberLow
  else if u64 (curNumber (curChainState cm) + mangerCacheMax) <? num then Err ErrNumberHigh
  else Ok tt.

Definition legal (cm : ControllerManager) (num : Z) : bool :=
  match isLegalNumber cm num with Ok _ => true | _ => false end.

(** [controller.Close]: a channel that is closed again panics. *)
Definition Close (s : slot) : eff slot :=
  if quit s then Panic else Ok (mkSlot (ctrl s) (inbox s) true (live s)).

(** [ctrl.Close()] of the entries of a range. *)
Fixpoint closeAll (entries : list (Z * nat)) (cs : list slot) : eff (list slot) :=
  match entries with
  | [] => Ok cs
  | (_, id) :: entries =>
      match cs !! id with
      | None => Panic
      | Some s => let* s := Close s in closeAll entries (<[id := s]> cs)
      end
  end.

Section Manager.
Context `{GoRange}.

Definition fixCtrlMap (cm : ControllerManager) : eff ControllerManager :=
  let delKeys := List.filter (fun e => negb (legal cm (fst e))) (go_range (ctrlMap cm)) in
  let* cs := closeAll delKeys (ctrls cm) in
  Ok (set_ctrls (foldl (fun m '(key, _) => delete key m) (ctrlMap cm) delKeys) cs cm).

Definition clearCtrlMap (cm : ControllerManager) : eff ControllerManager :=
  let* cs := closeAll (go_range (ctrlMap cm)) (ctrls cm) in
  Ok (set_ctrls ∅ cs cm).

(** A controller for height 0 ends the process. *)
Definition getController (cm : ControllerManager) (num : Z) : eff (ControllerManager * nat) :=
  match ctrlMap cm !! num with
  | Some id => Ok (cm, id)
  | None =>
      if num <? 1 then Panic
      else Ok (set_ctrls (<[num := length (ctrls cm)]> (ctrlMap cm))
                 (ctrls cm ++ [mkSlot (newController num) [] false true]) cm, length (ctrls cm))
  end.

(** [controller.ReceiveMsg]: with the channel full the call waits. *)
Definition send (cm : ControllerManager) (id : nat) (ev : event) : eff ControllerManager :=
  match ctrls cm !! id with
  | None => Panic
  | Some s =>
      if (length (inbox s) <? msgChCap)%nat
      then Ok (set_ctrls (ctrlMap cm) (<[id := push ev s]> (ctrls cm)) cm)
      else Ok (set_sending (Some (id, ev)) cm)
  end.

(** [getController(num).ReceiveMsg(msg)] *)
Definition deliver (cm : ControllerManager) (num : Z) (ev : event) : eff ControllerManager :=
  let* (cm, id) := getController cm num in send cm id ev.

Definition StartController (cm : ControllerManager) (num superBlkSeq : Z)
    (msg : startControllerMsg) : eff ControllerManager :=
  let cmp := chain_Cmp (curChainState cm) superBlkSeq num in
  if cmp =? 1 then Ok cm
  else
    let* cm :=
      if cmp =? -1 then
        let* cm := if superSeq (curChainState cm) <? superBlkSeq then clearCtrlMap cm else Ok cm in
        fixCtrlMap (set_chain (chain_Reset (curChainState cm) superBlkSeq num) cm)
      else Ok cm in
    deliver cm num (EvStart (Some msg)).

Definition ReceiveMsgByCur (cm : ControllerManager) (ev : event) : eff ControllerManager :=
  if curNumber (curChainState cm) <=? 0 then Ok cm
  else deliver cm (curNumber (curChainState cm)) ev.

Definition ReceiveMsg (cm : ControllerManager) (num : Z) (ev : event)
  : eff (ControllerManager * option manager_error) :=
  if num <=? 0 then Ok (cm, Some ErrNumberZero)
  else match isLegalNumber cm num with
       | Err e => Ok (cm, Some e)
       | Panic => Panic
       | Ok _ => let* cm := deliver cm num ev in Ok (cm, None)
       end.
End Manager.

(** ** The service *)

Inductive service_msg :=
| SvNewBlockReady (header : option Header) (st : StateDB)
| SvRoleUpdate (msg : RoleUpdatedMsg)
| SvPosFinished (msg : BlockPOSFinishedNotify)
| SvInquiryReq (req : HD_V2_ReelectInquiryReqMsg)
| SvInquiryRsp (rsp : HD_V2_ReelectInquiryRspMsg)
| SvRLReq (req : HD_V2_ReelectLeaderReqMsg)
| SvRLVote (vote : HD_V2_ConsensusVote)
| SvBroadcast (msg : HD_V2_ReelectBroadcastMsg)
| SvBroadcastRsp (rsp : HD_V2_ReelectBroadcastRspMsg).

Section Service.
Context `{LeaderEnv}.
(** The chain's header index, its states, and the super block sequence of a
    state. *)
Context (GetHeaderByHash : Z -> option Header) (StateAt : Header -> res read_error StateDB)
        (GetSuperBlockSeq : StateDB -> res read_error Z).

(** An error of [ReceiveMsg] is logged. *)
Definition received (r : eff (ControllerManager * option manager_error))
  : eff ControllerManager :=
  let* (cm, _) := r in Ok cm.

Definition newBlockReadyBCHandle (cm : ControllerManager) (header : option Header)
    (st : StateDB) : eff ControllerManager :=
  match header with
  | None => Ok cm
  | Some header =>
      match GetSuperBlockSeq st with
      | Panic => Panic
      | Err _ => Ok cm
      | Ok seq => StartController cm (u64 (u64 (hNumber header) + 1)) seq
                    (mkStart (Some header) st)
      end
  end.

Definition roleUpdateMsgHandle (cm : ControllerManager) (msg : RoleUpdatedMsg)
  : eff ControllerManager :=
  if ruLeader msg =? zero_addr then Ok cm
  else match GetHeaderByHash (ruBlockHash msg) with
       | None => Ok cm
       | Some header =>
           match StateAt header with
           | Panic => Panic
           | Err _ => Ok cm
           | Ok st => StartController cm (u64 (ruBlockNum msg + 1)) (ruSuperSeq msg)
                        (mkStart (Some header) st)
           end
       end.

Definition blockPOSFinishedMsgHandle (cm : ControllerManager) (msg : BlockPOSFinishedNotify)
  : eff ControllerManager :=
  match pnHeader msg with
  | None => Panic
  | Some header =>
      if hLeader header =? zero_addr then Ok cm
      else if VersionCmp (hVersion header) VersionGamma <? 0 then Ok cm
      else received (ReceiveMsg cm (pnNumber msg) (EvPosFinished (Some msg)))
  end.

Definition rlInquiryReqHandle cm req : eff ControllerManager :=
  ReceiveMsgByCur cm (EvInquiryReq (Some req)).

Definition rlInquiryRspHandle cm rsp : eff ControllerManager :=
  received (ReceiveMsg cm (isNumber rsp) (EvInquiryRsp (Some rsp))).

Definition rlReqMsgHandle cm req : eff ControllerManager :=
  match rrInquiryReq req with
  | None => Panic
  | Some inq => received (ReceiveMsg cm (irNumber inq) (EvRLReq (Some req)))
  end.

Definition rlVoteMsgHandle cm vote : eff ControllerManager :=
  received (ReceiveMsg cm (cvNumber vote) (EvRLVote (Some vote))).

Definition rlBroadcastHandle cm msg : eff ControllerManager :=
  received (ReceiveMsg cm (bmNumber msg) (EvBroadcast (Some msg))).

Definition rlBroadcastRspHandle cm rsp : eff ControllerManager :=
  received (ReceiveMsg cm (brNumber rsp) (EvBroadcastRsp (Some rsp))).

Definition service (cm : ControllerManager) (m : service_msg) : eff ControllerManager :=
  match m with
  | SvNewBlockReady header st => newBlockReadyBCHandle cm header st
  | SvRoleUpdate msg => roleUpdateMsgHandle cm msg
  | SvPosFinished msg => blockPOSFinishedMsgHandle cm msg
  | SvInquiryReq req => rlInquiryReqHandle cm req
  | SvInquiryRsp rsp => rlInquiryRspHandle cm rsp
  | SvRLReq req => rlReqMsgHandle cm req
  | SvRLVote vote => rlVoteMsgHandle cm vote
  | SvBroadcast msg => rlBroadcastHandle cm msg
  | SvBroadcastRsp rsp => rlBroadcastRspHandle cm rsp
  end.

(** [go server.run()], whose handlers take the lock of the manager, and the goroutines
    of the controllers, in which [select] takes any case that is ready; the label is
    the service message, if any. *)
Inductive sys_step (cm : ControllerManager) : option service_msg -> ControllerManager -> Prop :=
| ss_service m cm' : sending cm = None -> service cm m = Ok cm' -> sys_step cm (Some m) cm'
| ss_sent id ev s :
    sending cm = Some (id, ev) -> ctrls cm !! id = Some s -> (length (inbox s) < msgChCap)%nat ->
    sys_step cm None (set_sending None (set_ctrls (ctrlMap cm) (<[id := push ev s]> (ctrls cm)) cm))
| ss_message id s ev rest c' :
    ctrls cm !! id = Some s -> live s = true -> inbox s = ev :: rest -> step (ctrl s) ev c' ->
    sys_step cm None (set_ctrls (ctrlMap cm) (<[id := mkSlot c' rest (quit s) true]> (ctrls cm)) cm)
| ss_timer id s c' :
    ctrls cm !! id = Some s -> live s = true -> is_Some (timer (ctrl s)) -> step (ctrl s) EvTimer c' ->
    sys_step cm None (set_ctrls (ctrlMap cm) (<[id := mkSlot c' (inbox s) (quit s) true]> (ctrls cm)) cm)
| ss_reelect id s c' :
    ctrls cm !! id = Some s -> live s = true -> is_Some (reelectTimer (ctrl s)) -> step (ctrl s) EvReelectTimer c' ->
    sys_step cm None (set_ctrls (ctrlMap cm) (<[id := mkSlot c' (inbox s) (quit s) true]> (ctrls cm)) cm)
| ss_quit id s :
    ctrls cm !! id = Some s -> live s = true -> quit s = true ->
    sys_step cm None (set_ctrls (ctrlMap cm) (<[id := mkSlot (ctrl s) (inbox s) true false]> (ctrls cm)) cm).

(** Messages of a running chain: new blocks carry the state of the chain. *)
Definition label_ok (l : option service_msg) : Prop :=
  match l with
  | Some (SvNewBlockReady _ st) => state_ok st
  | _ => True
  end.

Inductive sys_reachable : ControllerManager -> Prop :=
| sr_init : sys_reachable NewControllerManager
| sr_step cm l cm' : sys_reachable cm -> label_ok l -> sys_step cm l cm' -> sys_reachable cm'.

(** ** Invariant *)

(** What holds of a controller, in the map or not. *)
Record slot_ok (s : slot) : Prop := {
  so_reach : reachable (ctrl s);
  so_inbox : Forall event_ok (inbox s);
  so_cap : (length (inbox s) <= msgChCap)%nat;
  so_live : live s = false -> quit s = true
}.

(** The map leads to open controllers of their heights; the others are closed. *)
Record maps_ok (cm : ControllerManager) : Prop := {
  mo_slots : Forall slot_ok (ctrls cm);
  mo_map : forall num id, ctrlMap cm !! num = Some id ->
    exists s, ctrls cm !! id = Some s /\ number (dc (ctrl s)) = num /\ quit s = false;
  mo_closed : forall id s, ctrls cm !! id = Some s -> quit s = false -> exists num, ctrlMap cm !! num = Some id;
  mo_sending : forall id ev, sending cm = Some (id, ev) -> event_ok ev /\ exists num, ctrlMap cm !! num = Some id
}.

Record sys_inv (cm : ControllerManager) : Prop := {
  si_cur : 0 <= curNumber (curChainState cm);
  si_maps : maps_ok cm;
  si_window : forall num id, ctrlMap cm !! num = Some id ->
    curNumber (curChainState cm) <= num <= curNumber (curChainState cm) + mangerCacheMax
}.

Lemma closeAll_spec entries cs :
  NoDup entries.*2 -> (forall e, e ∈ entries -> exists s, cs !! e.2 = Some s /\ quit s = false) ->
  exists cs', closeAll entries cs = Ok cs' /\
    forall id, cs' !! id = (fun s => mkSlot (ctrl s) (inbox s) (quit s || bool_decide (id ∈ entries.*2)) (live s)) <$> cs !! id.
Proof.
  revert cs. induction entries as [|[k i] entries IH]; intros cs Hnd Ho; cbn [closeAll].
  { exists cs. split; [done|]. intros id. destruct (cs !! id) as [[]|]; [|done]. cbn. by rewrite orb_false_r. }
  apply NoDup_cons in Hnd as [Hni Hnd]. destruct (Ho (k, i)) as (s & Es & Eq); [by left|]. cbn [snd] in Es. rewrite Es.
  unfold Close at 1. rewrite Eq. cbn [res_bind].
  destruct (IH (<[i := mkSlot (ctrl s) (inbox s) true (live s)]> cs) Hnd) as (cs' & -> & Hcs).
  { intros [k' j] Hin. destruct (Ho (k', j)) as (s' & Es' & Eq'); [by right|]. exists s'. cbn [snd] in *. split; [|done].
    rewrite list_lookup_insert_ne; [done|]. intros <-. apply Hni, list_elem_of_fmap. by exists (k', i). }
  exists cs'. split; [done|]. intros id. rewrite Hcs. cbn [fmap list_fmap]. destruct (decide (id = i)) as [->|Hne].
  - rewrite list_lookup_insert_eq by by eapply lookup_lt_Some. rewrite Es. cbn. f_equal. f_equal.
    rewrite (bool_decide_eq_true_2 (i ∈ i :: _)) by by left. by rewrite orb_true_r.
  - rewrite list_lookup_insert_ne by done. destruct (cs !! id); [|done]. cbn. do 2 f_equal. apply (f_equal (orb _)).
    apply bool_decide_ext. rewrite elem_of_cons. naive_solver.
Qed.

(** Closing some controllers of the map and dropping them from it. *)
Lemma drop_ok cm entries m' :
  maps_ok cm -> sending cm = None -> entries ⊆ go_range (ctrlMap cm) -> NoDup entries ->
  (forall num id, m' !! num = Some id <-> ctrlMap cm !! num = Some id /\ num ∉ entries.*1) ->
  exists cs, closeAll entries (ctrls cm) = Ok cs /\ maps_ok (set_ctrls m' cs cm).
Proof.
  intros [Hsl Hm Hcl Hse] Hs0 Hsub Hnd Hm'.
  assert (forall e, e ∈ entries -> ctrlMap cm !! e.1 = Some e.2) as He.
  { intros [k i] Hin. by apply elem_of_go_range, Hsub. }
  assert (forall e e', e ∈ entries -> e' ∈ go_range (ctrlMap cm) -> e.2 = e'.2 -> e = e') as Hinj.
  { intros [k i] [k' i'] Hi Hi'%elem_of_go_range Eq. cbn in Eq. subst i'. apply He in Hi. cbn [fst snd] in Hi.
    destruct (Hm k i Hi) as (s & Es & Ek & _), (Hm k' i Hi') as (s' & Es' & Ek' & _). f_equal. congruence. }
  destruct (closeAll_spec entries (ctrls cm)) as (cs & Ec & Hcs).
  { apply NoDup_fmap_2_strong; [|done]. intros e e' Hi Hi'. by apply Hinj, Hsub. }
  { intros e Hi. destruct (Hm _ _ (He _ Hi)) as (s & Es & _ & Eq). by exists s. }
  exists cs. split; [done|]. split; cbn [ctrls ctrlMap sending set_ctrls].
  - apply Forall_lookup. intros id s. rewrite Hcs. destruct (ctrls cm !! id) as [s0|] eqn:E0; [|done]. intros [= <-].
    destruct (proj1 (Forall_lookup _ _) Hsl id s0 E0) as [Hr Hi Hc Hl]. split; try done. cbn. intros El. by rewrite Hl.
  - intros num id [Hn Hni]%Hm'. destruct (Hm num id Hn) as (s & Es & En & Eq). rewrite Hcs, Es. eexists. split; [done|].
    split; [done|]. cbn. rewrite Eq. apply bool_decide_eq_false. intros ([k i] & -> & Hi)%list_elem_of_fmap. apply Hni.
    assert ((k, i) = (num, i)) as [= ->] by (apply Hinj; [done|by apply elem_of_go_range|done]).
    apply list_elem_of_fmap. by exists (num, i).
  - intros id s. rewrite Hcs. destruct (ctrls cm !! id) as [s0|] eqn:E0; [|done]. intros [= <-]. cbn. intros [Eq Hni]%orb_false_iff.
    apply bool_decide_eq_false in Hni. destruct (Hcl id s0 E0 Eq) as [num Hn]. exists num. apply Hm'. split; [done|].
    intros ([k i] & Ek & Hi)%list_elem_of_fmap. cbn in Ek. subst k. apply Hni, list_elem_of_fmap. exists (num, i). split; [|done].
    specialize (He _ Hi). cbn [fst snd] in *. congruence.
  - by rewrite Hs0.
Qed.

Lemma legal_window cm num :
  0 <= curNumber (curChainState cm) -> legal cm num = true ->
  curNumber (curChainState cm) <= num <= curNumber (curChainState cm) + mangerCacheMax.
Proof.
  intros Hc. unfold legal, isLegalNumber.
  destruct (Z.ltb_spec num (curNumber (curChainState cm))); [done|].
  destruct (Z.ltb_spec (u64 (curNumber (curChainState cm) + mangerCacheMax)) num); [done|].
  assert (u64 (curNumber (curChainState cm) + mangerCacheMax) <= curNumber (curChainState cm) + mangerCacheMax).
  { apply Z.mod_le; unfold mangerCacheMax; lia. }
  lia.
Qed.

Lemma fixCtrlMap_ok cm :
  maps_ok cm -> sending cm = None -> 0 <= curNumber (curChainState cm) ->
  exists cm', fixCtrlMap cm = Ok cm' /\ sys_inv cm' /\ sending cm' = None /\ curChainState cm' = curChainState cm.
Proof.
  intros Hm Hs Hc. unfold fixCtrlMap. set (del := List.filter _ _).
  assert (forall e, e ∈ del <-> e ∈ go_range (ctrlMap cm) /\ legal cm e.1 = false) as Hdel.
  { intros e. unfold del. rewrite !list_elem_of_In, filter_In, negb_true_iff. done. }
  destruct (drop_ok cm del (foldl (fun m '(key, _) => delete key m) (ctrlMap cm) del)) as (cs & -> & Hok); [done|done| | |apply delete_keys_lookup|].
  - intros e He. by apply Hdel.
  - apply NoDup_ListNoDup, List.NoDup_filter, NoDup_ListNoDup. apply (NoDup_fmap_1 fst), NoDup_fst_go_range.
  - eexists. split; [done|]. split; [|done]. split; [done|done|]. cbn [ctrlMap set_ctrls curChainState].
    intros num id [Hn Hni]%delete_keys_lookup. apply (legal_window cm); [done|].
    destruct (legal cm num) eqn:El; [done|]. destruct Hni. apply list_elem_of_fmap. exists (num, id). split; [done|].
    apply Hdel. split; [by apply elem_of_go_range|done].
Qed.

Lemma clearCtrlMap_ok cm :
  maps_ok cm -> sending cm = None ->
  exists cm', clearCtrlMap cm = Ok cm' /\ maps_ok cm' /\ sending cm' = None /\ curChainState cm' = curChainState cm.
Proof.
  intros Hm Hs. unfold clearCtrlMap.
  destruct (drop_ok cm (go_range (ctrlMap cm)) ∅) as (cs & -> & Hok); [done|done|done| | |by eexists].
  - apply (NoDup_fmap_1 fst), NoDup_fst_go_range.
  - intros num id. rewrite lookup_empty. split; [done|]. intros [Hn Hni]. destruct Hni. apply list_elem_of_fmap.
    exists (num, id). split; [done|by apply elem_of_go_range].
Qed.

(** A controller goes on, or its channel is filled. *)
Lemma slot_update_ok cm id s s' o :
  maps_ok cm -> ctrls cm !! id = Some s -> slot_ok s' -> quit s' = quit s ->
  number (dc (ctrl s')) = number (dc (ctrl s)) ->
  (forall i ev, o = Some (i, ev) -> event_ok ev /\ exists num, ctrlMap cm !! num = Some i) ->
  maps_ok (set_sending o (set_ctrls (ctrlMap cm) (<[id := s']> (ctrls cm)) cm)).
Proof.
  intros [Hsl Hm Hcl Hse] Es Hs' Eq En Ho. pose proof (lookup_lt_Some _ _ _ Es) as Hlt.
  split; cbn [ctrls ctrlMap sending set_ctrls set_sending]; [by apply Forall_insert| | |done].
  - intros num i Hn. destruct (Hm num i Hn) as (t & Et & Ent & Eqt). destruct (decide (i = id)) as [->|Hne].
    + rewrite list_lookup_insert_eq by done. exists s'. split; [done|]. split; congruence.
    + rewrite list_lookup_insert_ne by done. by exists t.
  - intros i t. destruct (decide (i = id)) as [->|Hne].
    + rewrite list_lookup_insert_eq by done. intros [= <-] Hq. apply (Hcl id s Es). congruence.
    + rewrite list_lookup_insert_ne by done. apply Hcl.
Qed.

Lemma set_sending_self cm : set_sending (sending cm) cm = cm.
Proof. by destruct cm. Qed.

Lemma send_ok cm id num ev :
  sys_inv cm -> sending cm = None -> ctrlMap cm !! num = Some id -> event_ok ev ->
  exists cm', send cm id ev = Ok cm' /\ sys_inv cm'.
Proof.
  intros [Hc Hm Hw] Hs Hn He. unfold send. destruct (mo_map _ Hm num id Hn) as (s & Es & En & Eq). rewrite Es.
  pose proof (proj1 (Forall_lookup _ _) (mo_slots _ Hm) id s Es) as [Hr Hi Hcap Hl].
  destruct (Nat.ltb_spec (length (inbox s)) msgChCap) as [Hlt|Hge]; (eexists; split; [done|]; split; [done| |done]).
  - assert (set_ctrls (ctrlMap cm) (<[id := push ev s]> (ctrls cm)) cm
      = set_sending None (set_ctrls (ctrlMap cm) (<[id := push ev s]> (ctrls cm)) cm)) as ->.
    { unfold set_sending, set_ctrls. cbn. by rewrite Hs. }
    apply (slot_update_ok cm id s); [done|done| |done|done|done]. split; try done; cbn [push inbox].
    + apply Forall_app. split; [done|by constructor].
    + rewrite length_app. cbn. lia.
  - destruct Hm as [Hsl Hm Hcl _]. split; try done. cbn [sending set_sending]. intros i e [= -> ->]. split; [done|by exists num].
Qed.

Lemma getController_ok cm num :
  sys_inv cm -> sending cm = None -> 1 <= num ->
  curNumber (curChainState cm) <= num <= curNumber (curChainState cm) + mangerCacheMax ->
  exists cm' id, getController cm num = Ok (cm', id) /\ sys_inv cm' /\ sending cm' = None /\ ctrlMap cm' !! num = Some id.
Proof.
  intros Hinv Hs H1 Hwin. pose proof Hinv as [Hc [Hsl Hm Hcl Hse] Hw]. unfold getController.
  destruct (ctrlMap cm !! num) as [id|] eqn:En; [by exists cm, id|]. destruct (Z.ltb_spec num 1); [lia|].
  eexists _, _. split; [done|]. cbn [ctrlMap sending set_ctrls]. split; [|split; [done|apply lookup_insert_eq]].
  set (s0 := mkSlot (newController num) [] false true).
  assert ((ctrls cm ++ [s0]) !! length (ctrls cm) = Some s0) as Hnew by by rewrite lookup_app_r, Nat.sub_diag by lia.
  split; [done| |]; [split|]; cbn [ctrls ctrlMap sending set_ctrls curChainState].
  - apply Forall_app. split; [done|]. constructor; [|constructor]. split; try done; cbn; [constructor|unfold msgChCap; lia].
  - intros n i [[<- <-]|[Hne Hn]]%lookup_insert_Some; [by exists s0|]. destruct (Hm n i Hn) as (t & Et & ?). exists t. by rewrite (lookup_app_l_Some _ _ _ _ Et).
  - intros i t Ht Eq. destruct (decide (i = length (ctrls cm))) as [->|Hne]; [exists num; apply lookup_insert_eq|].
    assert (ctrls cm !! i = Some t) as Et.
    { apply lookup_app_Some in Ht as [Ht|[Hge Ht]]; [done|]. apply lookup_lt_Some in Ht. cbn in Ht. lia. }
    destruct (Hcl i t Et Eq) as [n Hn]. exists n. rewrite lookup_insert_ne; [done|]. congruence.
  - by rewrite Hs.
  - intros n i [[<- <-]|[Hne Hn]]%lookup_insert_Some; [done|by apply (Hw n i)].
Qed.

(** A call of the manager keeps the invariant, or it was for height 0. *)
Definition kept (num : Z) (r : eff ControllerManager) : Prop :=
  (exists cm', r = Ok cm' /\ sys_inv cm') \/ (r = Panic /\ num < 1).

Lemma deliver_ok cm num ev :
  sys_inv cm -> sending cm = None ->
  curNumber (curChainState cm) <= num <= curNumber (curChainState cm) + mangerCacheMax -> event_ok ev ->
  kept num (deliver cm num ev).
Proof.
  intros Hinv Hs Hw He. unfold deliver. destruct (decide (1 <= num)) as [H1|H1].
  - destruct (getController_ok cm num Hinv Hs H1 Hw) as (cm1 & id & -> & Hi1 & Hs1 & Hn).
    cbn [res_bind]. left. by apply (send_ok cm1 id num).
  - unfold getController. destruct (ctrlMap cm !! num) as [id|] eqn:En; cbn [res_bind]; [left; by apply (send_ok cm id num)|].
    destruct (Z.ltb_spec num 1); [|lia]. right. split; [done|lia].
Qed.

Lemma StartController_ok cm num seq msg :
  sys_inv cm -> sending cm = None -> 0 <= num -> state_ok (smParentStateDB msg) -> kept num (StartController cm num seq msg).
Proof.
  intros Hinv Hs Hn Hok. unfold StartController. destruct (chain_Cmp_spec (curChainState cm) seq num) as (_ & H0 & _).
  destruct (Z.eqb_spec (chain_Cmp (curChainState cm) seq num) 1); [left; by exists cm|].
  destruct (Z.eqb_spec (chain_Cmp (curChainState cm) seq num) (-1)) as [He|He].
  - assert (exists cm1, (if superSeq (curChainState cm) <? seq then clearCtrlMap cm else Ok cm) = Ok cm1 /\ maps_ok cm1 /\
      sending cm1 = None) as (cm1 & -> & Hm1 & Hs1).
    { destruct (_ <? _); [|exists cm; split; [done|]; split; [apply Hinv|done]].
      destruct (clearCtrlMap_ok cm (si_maps _ Hinv) Hs) as (cm1 & ? & ? & ? & _). by exists cm1. }
    cbn [res_bind]. destruct (fixCtrlMap_ok (set_chain (chain_Reset (curChainState cm1) seq num) cm1)) as (cm2 & -> & Hi2 & Hs2 & Hc2);
      [by destruct Hm1; split|done|done|].
    cbn [res_bind]. apply deliver_ok; [done|done| |exact Hok]. rewrite Hc2. cbn. unfold mangerCacheMax. lia.
  - assert (chain_Cmp (curChainState cm) seq num = 0) as [_ Hcur]%H0 by (unfold chain_Cmp in *; by repeat case_match).
    cbn [res_bind]. apply deliver_ok; [done|done| |exact Hok]. unfold mangerCacheMax. lia.
Qed.

Lemma received_ok cm num ev :
  sys_inv cm -> sending cm = None -> event_ok ev -> exists cm', received (ReceiveMsg cm num ev) = Ok cm' /\ sys_inv cm'.
Proof.
  intros Hinv Hs Hev. unfold received, ReceiveMsg. destruct (Z.leb_spec num 0); [by exists cm|].
  pose proof (legal_window cm num (si_cur _ Hinv)) as Hw. unfold legal in Hw.
  destruct (isLegalNumber cm num) as [[]|e|] eqn:El; [|by exists cm|].
  - destruct (deliver_ok cm num ev Hinv Hs (Hw eq_refl) Hev) as [(cm' & -> & Hi)|[_ ?]]; [by exists cm'|lia].
  - unfold isLegalNumber in El. by repeat case_match.
Qed.

(** The messages that may end the process: a nil header or inquiry is dereferenced,
    the chain panics, or the height wraps around to 0. *)
Definition ends_process (m : service_msg) : Prop :=
  match m with
  | SvNewBlockReady (Some header) st => GetSuperBlockSeq st = Panic \/ u64 (u64 (hNumber header) + 1) = 0
  | SvRoleUpdate msg => exists header, GetHeaderByHash (ruBlockHash msg) = Some header /\
                          (StateAt header = Panic \/ u64 (ruBlockNum msg + 1) = 0)
  | SvPosFinished msg => pnHeader msg = None
  | SvRLReq req => rrInquiryReq req = None
  | _ => False
  end.

(** The states the chain hands out are those of a running chain. *)
Context (HstateAt : forall header st, StateAt header = Ok st -> state_ok st).

Lemma service_ok cm m :
  sys_inv cm -> sending cm = None -> label_ok (Some m) ->
  (exists cm', service cm m = Ok cm' /\ sys_inv cm') \/ (service cm m = Panic /\ ends_process m).
Proof using HstateAt.
  intros Hinv Hs Hlab.
  destruct m as [[header|] st|msg|msg|req|rsp|req|vote|msg|rsp]; cbn [service]; try (left; by apply received_ok).
  - unfold newBlockReadyBCHandle. destruct (GetSuperBlockSeq st) as [seq|e|] eqn:Eseq; [|left; by exists cm|right; split; [done|by left]].
    destruct (StartController_ok cm (u64 (u64 (hNumber header) + 1)) seq (mkStart (Some header) st)) as [Hk|[Hk Hz]];
      [done|done|apply u64_range|exact Hlab|by left|right]. split; [done|]. right. pose proof (u64_range (u64 (hNumber header) + 1)). unfold is_u64 in *. lia.
  - left. by exists cm.
  - unfold roleUpdateMsgHandle. destruct (_ =? _); [left; by exists cm|]. destruct (GetHeaderByHash (ruBlockHash msg)) as [header|] eqn:Eh; [|left; by exists cm].
    destruct (StateAt header) as [st|e|] eqn:Est; [|left; by exists cm|right; split; [done|]; exists header; auto].
    destruct (StartController_ok cm (u64 (ruBlockNum msg + 1)) (ruSuperSeq msg) (mkStart (Some header) st)) as [Hk|[Hk Hz]];
      [done|done|apply u64_range|by eapply HstateAt|by left|right]. split; [done|]. exists header. split; [done|]. right.
    pose proof (u64_range (ruBlockNum msg + 1)). unfold is_u64 in *. lia.
  - unfold blockPOSFinishedMsgHandle. destruct (pnHeader msg) as [header|] eqn:Ep; [|by right].
    destruct (_ =? _); [left; by exists cm|]. destruct (_ <? _); [left; by exists cm|]. left. by apply received_ok.
  - unfold rlInquiryReqHandle, ReceiveMsgByCur. destruct (Z.leb_spec (curNumber (curChainState cm)) 0); [left; by exists cm|].
    destruct (deliver_ok cm (curNumber (curChainState cm)) (EvInquiryReq (Some req)) Hinv Hs) as [Hk|[_ ?]]; [unfold mangerCacheMax; lia|done|by left|lia].
  - unfold rlReqMsgHandle. destruct (rrInquiryReq req) eqn:Er; [|by right]. left. by apply received_ok.
Qed.

Lemma ctrl_step_ok cm id s ev c' inb :
  sys_inv cm -> ctrls cm !! id = Some s -> step (ctrl s) ev c' -> event_ok ev -> inb `suffix_of` inbox s ->
  sys_inv (set_ctrls (ctrlMap cm) (<[id := mkSlot c' inb (quit s) true]> (ctrls cm)) cm).
Proof using.
  intros [Hc Hm Hw] Es Hst Hev [l Hl]. pose proof (proj1 (Forall_lookup _ _) (mo_slots _ Hm) id s Es) as [Hr Hi Hcap _].
  split; [done| |done].
  assert (maps_ok (set_sending (sending cm) (set_ctrls (ctrlMap cm) (<[id := mkSlot c' inb (quit s) true]> (ctrls cm)) cm))) as H'; [|by destruct cm].
  rewrite Hl in Hi, Hcap. apply Forall_app in Hi as [_ Hi]. rewrite length_app in Hcap.
  apply (slot_update_ok cm id s); [done|done| |done| |apply Hm].
  - split; cbn; [by eapply reach_step|done|lia|done].
  - cbn. destruct (reachable_inv _ Hr) as [Hco _]. by destruct (step_inv _ _ _ (co_number _ Hco) Hev Hst) as (_ & _ & _ & _ & ->).
Qed.

Lemma sys_step_inv cm l cm' : label_ok l -> sys_inv cm -> sys_step cm l cm' -> sys_inv cm'.
Proof using HstateAt.
  intros Hlab Hinv Hst.
  destruct Hst as [m cm' Hs E|id ev s Hs Es Hlt|id s ev rest c' Es _ Ei Hst|id s c' Es _ _ Hst|id s c' Es _ _ Hst|id s Es _ Eq].
  - destruct (service_ok cm m Hinv Hs Hlab) as [(cm1 & E1 & Hi)|[E1 _]]; congruence.
  - destruct Hinv as [Hc Hm Hw]. split; [done| |done]. destruct (mo_sending _ Hm id ev Hs) as [He _].
    pose proof (proj1 (Forall_lookup _ _) (mo_slots _ Hm) id s Es) as [Hr Hi Hcap Hl].
    apply (slot_update_ok cm id s); [done|done| |done|done|done]. split; try done; cbn [push inbox].
    + apply Forall_app. split; [done|by constructor].
    + rewrite length_app. cbn. lia.
  - pose proof (proj1 (Forall_lookup _ _) (mo_slots _ (si_maps _ Hinv)) id s Es) as [_ Hi _ _]. rewrite Ei in Hi.
    apply Forall_cons in Hi as [Hev _]. eapply ctrl_step_ok; [done|done|exact Hst|done|]. rewrite Ei. by exists [ev].
  - by eapply ctrl_step_ok.
  - by eapply ctrl_step_ok.
  - destruct Hinv as [Hc Hm Hw]. split; [done| |done]. pose proof (proj1 (Forall_lookup _ _) (mo_slots _ Hm) id s Es) as [Hr Hi Hcap _].
    assert (maps_ok (set_sending (sending cm) (set_ctrls (ctrlMap cm) (<[id := mkSlot (ctrl s) (inbox s) true false]> (ctrls cm)) cm))) as H'; [|by destruct cm].
    apply (slot_update_ok cm id s); [done|done|by split|done|done|apply Hm].
Qed.

Lemma sys_reachable_inv cm : sys_reachable cm -> sys_inv cm.
Proof using HstateAt.
  induction 1; [|by eapply sys_step_inv]. split; [done| |done]. by split.
Qed.
End Service.

Lemma window_size {A} (m : gmap Z A) a :
  map_Forall (fun k _ => a <= k <= a + 2) m -> (size m <= 3)%nat.
Proof.
  intros Hm. rewrite <- size_dom.
  transitivity (size (list_to_set [a; a + 1; a + 2] : gset Z)).
  - apply subseteq_size. intros k Hk. apply elem_of_dom in Hk as [x Hx].
    specialize (Hm _ _ Hx). simpl in Hm. apply elem_of_list_to_set.
    assert (k = a \/ k = a + 1 \/ k = a + 2) by lia. rewrite !elem_of_cons. tauto.
  - rewrite size_list_to_set; [done|]. repeat constructor; rewrite ?elem_of_cons, ?elem_of_nil; lia.
Qed.

(** C26: the leader service under every interleaving of its goroutines.  Every
    controller ever made, closed ones that still run included, is in a state a single
    controller can reach by itself, and has at most ten messages in its channel.  The
    map leads to at most three controllers, each running for its own height, which
    lies in the window of the chain head and the two heights above it; a controller it
    does not lead to has been closed.  A call that waits with the lock for a full
    channel waits for a controller of the map, whose goroutine runs.  And every
    message that comes when no call waits is handled, no quit channel being closed
    twice, unless it is one of those that end the process. *)
Theorem leader_service_safe `{LeaderEnv} GetHeaderByHash StateAt GetSuperBlockSeq cm :
  (forall header st, StateAt header = Ok st -> state_ok st) ->
  sys_reachable GetHeaderByHash StateAt GetSuperBlockSeq cm ->
  (forall id s, ctrls cm !! id = Some s ->
     reachable (ctrl s) /\ (length (inbox s) <= msgChCap)%nat /\
     (quit s = false -> live s = true /\ ctrlMap cm !! number (dc (ctrl s)) = Some id)) /\
  (forall num id, ctrlMap cm !! num = Some id ->
     (exists s, ctrls cm !! id = Some s /\ number (dc (ctrl s)) = num /\ quit s = false) /\
     curNumber (curChainState cm) <= num <= curNumber (curChainState cm) + mangerCacheMax) /\
  (size (ctrlMap cm) <= 3)%nat /\
  (forall id ev, sending cm = Some (id, ev) -> exists s, ctrls cm !! id = Some s /\ quit s = false /\ live s = true) /\
  (forall m, sending cm = None -> label_ok (Some m) -> ~ ends_process GetHeaderByHash StateAt GetSuperBlockSeq m ->
     exists cm', service GetHeaderByHash StateAt GetSuperBlockSeq cm m = Ok cm').
Proof.
  intros Hst Hr. apply sys_reachable_inv in Hr as Hinv; [|done]. destruct Hinv as [Hc [Hsl Hm Hcl Hse] Hw].
  assert (forall id s, ctrls cm !! id = Some s -> quit s = false -> live s = true) as Hlive.
  { intros id s Es Eq. pose proof (proj1 (Forall_lookup _ _) Hsl id s Es) as [_ _ _ Hl]. destruct (live s); [done|].
    by rewrite Hl in Eq. }
  split; [|split; [|split; [|split]]].
  - intros id s Es. pose proof (proj1 (Forall_lookup _ _) Hsl id s Es) as [Hre _ Hcap _]. split; [done|]. split; [done|].
    intros Eq. split; [by eapply Hlive|]. destruct (Hcl id s Es Eq) as [num Hn]. destruct (Hm num id Hn) as (s' & Es' & En & _). congruence.
  - intros num id Hn. split; [by apply Hm|by apply (Hw num id)].
  - eapply window_size. intros num id Hn. by apply (Hw num id).
  - intros id ev Hs. destruct (Hse id ev Hs) as [_ [num Hn]]. destruct (Hm num id Hn) as (s & Es & _ & Eq). exists s. eauto.
  - intros m Hs Hlab Hne. destruct (service_ok GetHeaderByHash StateAt GetSuperBlockSeq Hst cm m) as [(cm' & E & _)|[_ E]];
      [by eapply sys_reachable_inv|done|done|by exists cm'|done].
Qed.

#[local] Existing Instance Run.env.

Definition w_GetHeaderByHash (hash : Z) : option Header := None.
Definition w_StateAt (h : Header) : res read_error StateDB := Err ErrRead.
Definition w_seq (st : StateDB) : res read_error Z := Ok 0.

(** The chain goes on to height 402 before the controller of height 401 has started;
    it starts nevertheless, after it was closed. *)
Definition w_block (h : Header) : service_msg := SvNewBlockReady (Some h) (Run.relations Run.graph).
Definition w_parent2 : Header := mkHeader 8 999 0 401 1060 [] VersionGamma [].
Definition w_start2 : event := EvStart (Some (mkStart (Some w_parent2) (Run.relations Run.graph))).
Definition w_slot1 (c : controller) (l : list event) (q : bool) : slot := mkSlot c l q true.
Definition w_cm1 : ControllerManager :=
  mkManager (mkChainState 0 401) (<[401 := 0%nat]> ∅) [w_slot1 Run.c0 [Run.start] false] None.
Definition w_cm2 : ControllerManager :=
  mkManager (mkChainState 0 402) (<[402 := 1%nat]> ∅)
    [w_slot1 Run.c0 [Run.start] true; w_slot1 (newController 402) [w_start2] false] None.
Definition w_cm3 : ControllerManager :=
  mkManager (mkChainState 0 402) (<[402 := 1%nat]> ∅)
    [w_slot1 Run.c1 [] true; w_slot1 (newController 402) [w_start2] false] None.

Lemma w_sys_reachable : sys_reachable w_GetHeaderByHash w_StateAt w_seq w_cm3.
Proof.
  apply sr_step with w_cm2 None; [|done|].
  - apply sr_step with w_cm1 (Some (w_block w_parent2)); [|exact Run.graph_state_ok|constructor; [done|vm_compute; reflexivity]].
    apply sr_step with NewControllerManager (Some (w_block Run.parent));
      [constructor|exact Run.graph_state_ok|]. constructor; [done|vm_compute; reflexivity].
  - apply (ss_message _ _ _ w_cm2 0 (w_slot1 Run.c0 [Run.start] true) Run.start [] Run.c1);
      [reflexivity|reflexivity|reflexivity|exact Run.step1].
Qed.

Lemma leader_service_safe_witness :
  reachable Run.c1 /\ (size (ctrlMap w_cm3) <= 3)%nat /\
  exists cm', service w_GetHeaderByHash w_StateAt w_seq w_cm3 (w_block Run.parent) = Ok cm'.
Proof.
  destruct (leader_service_safe w_GetHeaderByHash w_StateAt w_seq w_cm3) as (Hs & _ & Hsz & _ & Hm);
    [discriminate|exact w_sys_reachable|].
  split; [exact (proj1 (Hs 0%nat (w_slot1 Run.c1 [] true) eq_refl))|]. split; [exact Hsz|].
  apply (Hm (w_block Run.parent)); [reflexivity|exact Run.graph_state_ok|].
  intros [E|E]; [discriminate E|]. vm_compute in E. discriminate E.
Defined.
