(* ===== verification/VerifyProcess.v ===== *)
(** * Verification of a block at a height
    ([blkverify/verify_process.go], [blkverify/broadcast_process.go],
    [blkverify/msg_resend_process.go])

    A [Process] verifies the requests for the blocks of one height.  A validator
    takes the request of the current leader, checks its header, obtains and
    executes its transactions, votes for it, and when the engine accepts the
    votes it has collected it asks the miners to work on the block.  A broadcast
    node takes requests that already carry the votes and checks them one after
    the other.  Every handler of the process is a function here; what a handler
    sends or publishes is appended to [p_out], and the messages being resent are
    the fields [p_voteSender], [p_mineSender] and [p_posedSender]. *)

From S2P Require Import GoLang Roles Turns Header CoinTx Reader.
From S2P Require Import Dpos Crypto SignHelper LeaderMsgs LeaderCal Cdc ReqCache VotePool Prelude.

Inductive State :=
| StateIdle
| StateStart
| StateReqVerify
| StateTxsVerify
| StateDPOSVerify
| StateEnd.

#[export] Instance State_eq_dec : EqDecision State.
Proof. solve_decision. Defined.

(** The [iota] values. *)
Definition State_num (s : State) : Z :=
  match s with
  | StateIdle => 0
  | StateStart => 1
  | StateReqVerify => 2
  | StateTxsVerify => 3
  | StateDPOSVerify => 4
  | StateEnd => 5
  end.

Record HD_ConsensusVote := mkConsVote {
  cvtSignHash : Z;
  cvtNumber : Z;
  cvtSign : Z;
  cvtFrom : Z
}.

(** [mc.BlockLocalVerifyOK] *)
Record BlockLocalVerifyOK := mkVerifyOK {
  voHeader : Header;
  voBlockHash : Z;
  voOriginalTxs : list CoinTxs;
  voFinalTxs : list CoinTxs;
  voReceipts : option Z;
  voState : option Z
}.

(** [core.RetChan]: the transactions a peer returned, or an error. *)
Record RetChan := mkRetChan {
  AllTxs : list (list Tx);
  RetErr : bool;
  Resqe : Z
}.

(** [verifiedBlock] of [recovery.go] *)
Record verifiedBlock := mkVerifiedBlock {
  vbHash : Z;
  vbReq : option HD_BlkConsensusReqMsg;
  vbTxs : list Tx
}.

(** What the process does to the rest of the node: the first sending of a
    message, the notifications it publishes, what it stores, and the requests
    for transactions. *)
Inductive Out :=
| OutVote (vote : HD_ConsensusVote)
| OutVerifyOK (result : BlockLocalVerifyOK)
| OutSaveVerified (hash : Z) (req : blkReq) (txs : list CoinTxs)
| OutMakeStruck (txs : list Tx) (hash number : Z)
| OutPosFinished (notify : BlockPOSFinishedNotify)
| OutMineReq (header : Header)
| OutPosedReq (req : blkReq)
| OutAcquireTxs (txsCode : list RetCallTxN) (seq target : Z).

Record Process := mkProcess {
  p_leader : LeaderChangeNotify;
  p_number : Z;
  p_role : Z;
  p_state : State;
  p_cur : option nat;
  p_cache : reqCache;
  p_pool : unverifiedVotePool;
  p_seq : Z;
  p_voteSender : option HD_ConsensusVote;
  p_mineSender : option Header;
  p_posedSender : option blkReq;
  p_bcHashes : list Z;
  p_out : list Out
}.

(** Running out of rounds is not a behaviour of the code: it marks that the
    restarts of a broadcast node did not end ([process_total] shows they do). *)
Inductive fuel_error := OutOfFuel.
Abbreviation run A := (res fuel_error A).

Definition lift_run {E A} (m : res E A) (k : E -> run A) : run A :=
  match m with
  | Ok a => Ok a
  | Err e => k e
  | Panic => Panic
  end.

Definition up_leader p x := mkProcess x (p_number p) (p_role p) (p_state p) (p_cur p) (p_cache p)
  (p_pool p) (p_seq p) (p_voteSender p) (p_mineSender p) (p_posedSender p) (p_bcHashes p) (p_out p).
Definition up_role p x := mkProcess (p_leader p) (p_number p) x (p_state p) (p_cur p) (p_cache p)
  (p_pool p) (p_seq p) (p_voteSender p) (p_mineSender p) (p_posedSender p) (p_bcHashes p) (p_out p).
Definition up_state p x := mkProcess (p_leader p) (p_number p) (p_role p) x (p_cur p) (p_cache p)
  (p_pool p) (p_seq p) (p_voteSender p) (p_mineSender p) (p_posedSender p) (p_bcHashes p) (p_out p).
Definition up_cur p x := mkProcess (p_leader p) (p_number p) (p_role p) (p_state p) x (p_cache p)
  (p_pool p) (p_seq p) (p_voteSender p) (p_mineSender p) (p_posedSender p) (p_bcHashes p) (p_out p).
Definition up_cache p x := mkProcess (p_leader p) (p_number p) (p_role p) (p_state p) (p_cur p) x
  (p_pool p) (p_seq p) (p_voteSender p) (p_mineSender p) (p_posedSender p) (p_bcHashes p) (p_out p).
Definition up_pool p x := mkProcess (p_leader p) (p_number p) (p_role p) (p_state p) (p_cur p)
  (p_cache p) x (p_seq p) (p_voteSender p) (p_mineSender p) (p_posedSender p) (p_bcHashes p) (p_out p).
Definition up_seq p x := mkProcess (p_leader p) (p_number p) (p_role p) (p_state p) (p_cur p)
  (p_cache p) (p_pool p) x (p_voteSender p) (p_mineSender p) (p_posedSender p) (p_bcHashes p) (p_out p).
Definition up_senders p v m q := mkProcess (p_leader p) (p_number p) (p_role p) (p_state p) (p_cur p)
  (p_cache p) (p_pool p) (p_seq p) v m q (p_bcHashes p) (p_out p).
Definition up_bcHashes p x := mkProcess (p_leader p) (p_number p) (p_role p) (p_state p) (p_cur p)
  (p_cache p) (p_pool p) (p_seq p) (p_voteSender p) (p_mineSender p) (p_posedSender p) x (p_out p).
Definition send p o := mkProcess (p_leader p) (p_number p) (p_role p) (p_state p) (p_cur p)
  (p_cache p) (p_pool p) (p_seq p) (p_voteSender p) (p_mineSender p) (p_posedSender p) (p_bcHashes p)
  (p_out p ++ [o]).

(** [p.curProcessReq], dereferenced. *)
Definition curReq (p : Process) : run (nat * reqData) :=
  match p_cur p with
  | None => Panic
  | Some id =>
      match rcHeap (p_cache p) !! id with
      | None => Panic
      | Some r => Ok (id, r)
      end
  end.

(** An assignment to a request object. *)
Definition upReq (p : Process) (id : nat) (f : reqData -> reqData) : Process :=
  up_cache p (rc_update (p_cache p) id f).

Definition newProcess (number : Z) : Process :=
  mkProcess (mkLeaderChange false zero_addr zero_addr zero_addr number
               {| PreConsensusTurn := 0; UsedReelectTurn := 0 |} 0 0 0)
    number RoleNil StateIdle None newReqCache newUnverifiedVotePool 0 None None None [] [].

Definition checkState (p : Process) (s : State) : bool := bool_decide (p_state p = s).

(** [targetState-1] on [uint16]. *)
Definition changeState (p : Process) (targetState : State) : Process :=
  if State_num (p_state p) =? u16 (State_num targetState - 1) then up_state p targetState else p.

(** ** Resent messages *)

Definition closeMineReqMsgSender (p : Process) : Process :=
  up_senders p (p_voteSender p) None (p_posedSender p).
Definition closePosedReqSender (p : Process) : Process :=
  up_senders p (p_voteSender p) (p_mineSender p) None.
Definition closeVoteMsgSender (p : Process) : Process :=
  up_senders p None (p_mineSender p) (p_posedSender p).

Definition stopSender (p : Process) : Process :=
  closeVoteMsgSender (closePosedReqSender (closeMineReqMsgSender p)).

(** The intervals are positive, so the senders are always created; a sender
    sends once when it is created. *)
Definition startSendMineReq (p : Process) (header : Header) : Process :=
  send (up_senders (closeMineReqMsgSender p) (p_voteSender p) (Some header) (p_posedSender p))
    (OutMineReq header).
Definition startPosedReqSender (p : Process) (req : blkReq) : Process :=
  send (up_senders (closePosedReqSender p) (p_voteSender p) (p_mineSender p) (Some req))
    (OutPosedReq req).
Definition startVoteMsgSender (p : Process) (vote : HD_ConsensusVote) : Process :=
  send (up_senders (closeVoteMsgSender p) (Some vote) (p_mineSender p) (p_posedSender p))
    (OutVote vote).

Section Process.
Context `{GoRange} `{GoSort} `{HeaderHash} `{Secp256k1}.
(** The node's keys, and the mode of the engine of each version. *)
Context (ks : KeyStore) (dposMode : string -> bool).

(** The chain as the reader of the signing helper. *)
Definition authReader (cv : ChainView) : AuthReader :=
  mkAuth (cv_GetA2AccountsFromA0Account cv) (sr_GetA0AccountFromAnyAccount (cv_reader cv)).

(** [None] when the vote is refused. *)
Definition verifyVote (cv : ChainView) (signHash vote from blkHash : Z) (verifyFrom : bool)
  : run (option VerifiedSign) :=
  match VerifySignWithValidateByReader (authReader cv) signHash vote blkHash with
  | Panic => Panic
  | Err _ => Ok None
  | Ok (depositAccount, signAccount, validate) =>
      if verifyFrom && negb (signAccount =? from) then Ok None
      else Ok (Some (mkVerified vote depositAccount validate 0))
  end.

(** The loop that adds the votes that came before the request. *)
Fixpoint addEarlyVotes (cv : ChainView) (votes : list voteInfo) (r : reqData) : run reqData :=
  match votes with
  | [] => Ok r
  | vote :: rest =>
      if negb (viSignHash vote =? rdHash r) then addEarlyVotes cv rest r
      else
        let* verifiedVote := verifyVote cv (rdHash r) (viSign vote) (viFrom vote)
                               (hParentHash (rqHeader (rdReq r))) true in
        match verifiedVote with
        | None => addEarlyVotes cv rest r
        | Some v => addEarlyVotes cv rest (addVote r v)
        end
  end.

(** The votes of a header, as in a recovery message. *)
Fixpoint addHeaderVotes (cv : ChainView) (signs : list Z) (parentHash : Z) (r : reqData)
  : run reqData :=
  match signs with
  | [] => Ok r
  | sign :: rest =>
      let* verifiedVote := verifyVote cv (rdHash r) sign zero_addr parentHash false in
      match verifiedVote with
      | None => addHeaderVotes cv rest parentHash r
      | Some v => addHeaderVotes cv rest parentHash (addVote r v)
      end
  end.

(** The vote of the node itself is recorded as agreeing. *)
Definition sendVote (cv : ChainView) (p : Process) (validate : bool) : run Process :=
  let* (id, r) := curReq p in
  match SignHashWithValidateByReader ks (authReader cv) (rdHash r) validate
          (hParentHash (rqHeader (rdReq r))) with
  | Panic => Panic
  | Err _ => Ok p
  | Ok sign =>
      let p := startVoteMsgSender p (mkConsVote (rdHash r) (p_number p) sign zero_addr) in
      Ok (upReq p id (fun r => addVote r (mkVerified sign (ks_deposit ks) true 0)))
  end.

Definition verifyOKOf (r : reqData) : BlockLocalVerifyOK :=
  mkVerifyOK (rqHeader (rdReq r)) (rdHash r) (rdOriginalTxs r) (rdFinalTxs r) (rdReceipts r)
    (rdStateDB r).

Definition notifyVerifiedBlock (p : Process) : run Process :=
  let* (id, r) := curReq p in Ok (send p (OutVerifyOK (verifyOKOf r))).

Definition finishedProcess (p : Process) : run Process :=
  let* (id, r) := curReq p in
  match rdResult r with
  | localVerifyResultProcessing => Ok p
  | localVerifyResultStateFailed => Ok p
  | result =>
      let header := rqHeader (rdReq r) in
      let p := if bool_decide (result = localVerifyResultSuccess)
               then send p (OutPosFinished (mkPosNotify (p_number p) (Some header)
                                              (rqTurn (rdReq r)) (rqTxsCode (rdReq r))))
               else p in
      let p := startSendMineReq p header in
      let p := startPosedReqSender p (rdReq r) in
      Ok (up_state p StateEnd)
  end.

Definition processDPOSOnce (cv : ChainView) (p : Process) : run Process :=
  if negb (checkState p StateDPOSVerify) then Ok p
  else
    let* (id, r) := curReq p in
    if rdPosFinished r then Ok p
    else match VerifyHashWithVerifiedSignsAndBlock (NewMtxDPOS (dposMode (hVersion (rqHeader (rdReq r))))) (cv_reader cv)
                 (rdVotes r) (hParentHash (rqHeader (rdReq r))) with
         | Panic => Panic
         | Err _ => Ok p
         | Ok rightSigns => finishedProcess (upReq p id (fun r => rd_finish r rightSigns))
         end.

(** ** The broadcast role: [restart] is [startReqVerifyBC]. *)

Definition bcFinishedProcess (restart : Process -> run Process) (p : Process)
    (lvResult : verifyResult) : run Process :=
  let* (id, r) := curReq p in
  let p := upReq p id (fun r => rd_up_result r lvResult) in
  match lvResult with
  | localVerifyResultProcessing => Ok p
  | localVerifyResultSuccess =>
      let p := send p (OutVerifyOK (verifyOKOf r)) in
      Ok (up_state (up_bcHashes p (p_bcHashes p ++ [rdHash r])) StateStart)
  | _ => restart (up_state (up_cur p None) StateStart)
  end.

Definition startDPOSVerify (restart : Process -> run Process) (cv : ChainView) (p : Process)
    (lvResult : verifyResult) : run Process :=
  if State_num (p_state p) >=? State_num StateDPOSVerify then Ok p
  else if p_role p =? RoleBroadcast then bcFinishedProcess restart p lvResult
  else
    let* p :=
      if bool_decide (lvResult = localVerifyResultSuccess) then
        let* p := sendVote cv p true in
        let* p := notifyVerifiedBlock p in
        let* (id, r) := curReq p in
        let p := send p (OutSaveVerified (rdHash r) (rdReq r) (rdOriginalTxs r)) in
        Ok (if bool_decide (rdOriginalTxs r = []) then p
            else send p (OutMakeStruck (GetTX (rdOriginalTxs r)) (rdHash r) (p_number p)))
      else Ok p in
    let* (id, r) := curReq p in
    let r := rd_up_result r lvResult in
    let* r := addEarlyVotes cv (GetVotes (p_pool p) (rdHash r)) r in
    processDPOSOnce cv (up_state (upReq p id (fun _ => r)) StateDPOSVerify).

Definition verifyTxsAndState (restart : Process -> run Process) (cv : ChainView) (p : Process)
  : run Process :=
  let* (id, r) := curReq p in
  let header := rqHeader (rdReq r) in
  match cv_VerifyTxsAndState cv (hVersion header) header (rdOriginalTxs r) with
  | None => startDPOSVerify restart cv p localVerifyResultStateFailed
  | Some (stateDB, finalTxs, receipts) =>
      let p := upReq p id (fun r => rd_up_state r stateDB finalTxs receipts) in
      startDPOSVerify restart cv p localVerifyResultSuccess
  end.

(** The number of codes is compared with the number of currency groups. *)
Definition startTxsVerify (restart : Process -> run Process) (cv : ChainView) (p : Process)
  : run Process :=
  if negb (checkState p StateReqVerify) then Ok p
  else
    let p := changeState p StateTxsVerify in
    let* (id, r) := curReq p in
    let txsCodeSize := TxsCodeCount (rqTxsCode (rdReq r)) in
    if (txsCodeSize =? 0) || (txsCodeSize =? Z.of_nat (length (rdOriginalTxs r)))
    then verifyTxsAndState restart cv p
    else
      let p := up_seq p (i64 (p_seq p + 1)) in
      Ok (send p (OutAcquireTxs (rqTxsCode (rdReq r)) (p_seq p) (rqFrom (rdReq r)))).

Definition bcProcessReqVerify (restart : Process -> run Process) (cv : ChainView) (p : Process)
  : run Process :=
  if negb (checkState p StateReqVerify) then Ok p
  else
    let* (id, r) := curReq p in
    if cv_bcVerifyHeader cv (rqHeader (rdReq r))
    then startTxsVerify restart cv p
    else bcFinishedProcess restart p localVerifyResultStateFailed.

Definition isProcessedBCBlockHash (p : Process) (hash : Z) : bool :=
  existsb (Z.eqb hash) (p_bcHashes p).

Fixpoint bcLoop (restart : Process -> run Process) (cv : ChainView) (reqList : list nat)
    (p : Process) : run Process :=
  match reqList with
  | [] => Ok p
  | id :: rest =>
      match rcHeap (p_cache p) !! id with
      | None => Panic
      | Some r =>
          if bool_decide (rdResult r <> localVerifyResultProcessing) then bcLoop restart cv rest p
          else if isProcessedBCBlockHash p (rdHash r)
          then bcLoop restart cv rest
                 (upReq p id (fun r => rd_up_result r localVerifyResultSuccess))
          else match VerifyBlock VerifySignWithValidate (NewMtxDPOS (dposMode (hVersion (rqHeader (rdReq r))))) (cv_reader cv)
                       (Some (rqHeader (rdReq r))) with
               | Panic => Panic
               | Err _ =>
                   bcLoop restart cv rest
                     (upReq p id (fun r => rd_up_result r localVerifyResultStateFailed))
               | Ok _ =>
                   bcProcessReqVerify restart cv (up_state (up_cur p (Some id)) StateReqVerify)
               end
      end
  end.

Fixpoint startReqVerifyBC (fuel : nat) (cv : ChainView) (p : Process) : run Process :=
  match fuel with
  | O => Err OutOfFuel
  | S fuel =>
      if negb (checkState p StateStart) then Ok p
      else bcLoop (startReqVerifyBC fuel cv) cv (GetAllReq (p_cache p)) p
  end.

(** A restart takes one request out of those to be verified, so one round more
    than there are requests is enough. *)
Definition restartBC (cv : ChainView) (p : Process) : run Process :=
  startReqVerifyBC (S (length (rcReqs (p_cache p)))) cv p.

(** ** The validator role *)

(** [None]: the request goes on to its transactions; otherwise the result with
    which the local verification ends. *)
Definition reqChecks (cv : ChainView) (p : Process) (r : reqData) : option verifyResult :=
  let header := rqHeader (rdReq r) in
  let headerTime := i64 (hTime header) in
  if bool_decide (rdResult r <> localVerifyResultDBRecovery) &&
     ((headerTime <? lcnTurnBeginTime (p_leader p)) || (headerTime >? lcnTurnEndTime (p_leader p)))
  then Some localVerifyResultStateFailed
  else match cv_GetBlockByHash cv (hParentHash header) with
       | None => Some localVerifyResultStateFailed
       | Some parentVersion =>
           if negb (VerifyBlockVersion (p_number p) (hVersion header) parentVersion)
           then Some localVerifyResultStateFailed
           else if negb (cv_blkVerifyHeader cv (hVersion header) header (rqOnline (rdReq r)))
           then Some localVerifyResultFailedButCanRecover
           else None
       end.

Definition processReqOnce (cv : ChainView) (p : Process) : run Process :=
  if negb (checkState p StateReqVerify) then Ok p
  else
    let* (id, r) := curReq p in
    if bool_decide (rdType r = reqTypeLocalReq)
    then startDPOSVerify (restartBC cv) cv p localVerifyResultSuccess
    else if bool_decide (rdResult r <> localVerifyResultProcessing) &&
            bool_decide (rdResult r <> localVerifyResultDBRecovery)
    then startDPOSVerify (restartBC cv) cv p (rdResult r)
    else match reqChecks cv p r with
         | Some lvResult => startDPOSVerify (restartBC cv) cv p lvResult
         | None => startTxsVerify (restartBC cv) cv p
         end.

Definition startReqVerifyCommon (cv : ChainView) (p : Process) : run Process :=
  if negb (checkState p StateStart) then Ok p
  else if negb (lcnConsensusState (p_leader p)) then Ok p
  else match GetLeaderReq (p_cache p) (lcnLeader (p_leader p)) (lcnConsensusTurn (p_leader p)) with
       | Panic => Panic
       | Err _ => Ok p
       | Ok id => processReqOnce cv (up_state (up_cur p (Some id)) StateReqVerify)
       end.

(** ** The handlers *)

(** The end of most handlers. *)
Definition startByRole (cv : ChainView) (p : Process) : run Process :=
  if p_role p =? RoleBroadcast then restartBC cv p
  else if p_role p =? RoleValidator then startReqVerifyCommon cv p
  else Ok p.

Definition StartRunning (cv : ChainView) (p : Process) (role : Z) : run Process :=
  let p := changeState (up_role p role) StateStart in
  let* cache := lift_run (CheckUnknownReq cv (p_cache p)) (fun e => match e with end) in
  startByRole cv (up_cache p cache).

Definition Close (p : Process) : Process :=
  stopSender (up_cur (up_state p StateIdle) None).

Definition stopProcess (p : Process) : Process :=
  let p := closeMineReqMsgSender p in
  let l := p_leader p in
  let p := up_leader p (mkLeaderChange (lcnConsensusState l) (lcnPreLeader l) zero_addr zero_addr
                          (lcnNumber l) {| PreConsensusTurn := 0; UsedReelectTurn := 0 |} 0 0 0) in
  let p := up_cur p None in
  if State_num (p_state p) >? State_num StateIdle then up_state p StateStart else p.

Definition SetLeaderInfo (cv : ChainView) (p : Process) (info : LeaderChangeNotify) : run Process :=
  let l := p_leader p in
  let l := mkLeaderChange (lcnConsensusState info) (lcnPreLeader l) (lcnLeader l) (lcnNextLeader l)
             (lcnNumber l) (lcnConsensusTurn l) (lcnReelectTurn l) (lcnTurnBeginTime l)
             (lcnTurnEndTime l) in
  let p := up_leader p l in
  if negb (lcnConsensusState info) then Ok (stopProcess p)
  else if (lcnLeader l =? lcnLeader info) &&
          bool_decide (lcnConsensusTurn l = lcnConsensusTurn info) then Ok p
  else
    let p := up_leader p
               (mkLeaderChange (lcnConsensusState info) (lcnPreLeader l) (lcnLeader info)
                  (lcnNextLeader info) (lcnNumber l) (lcnConsensusTurn info)
                  (lcnReelectTurn info) (lcnTurnBeginTime info) (lcnTurnEndTime info)) in
    let p := up_cur p None in
    let p := up_cache p (SetCurTurn (p_cache p) (lcnConsensusTurn info)) in
    let p := stopSender p in
    if State_num (p_state p) >? State_num StateIdle then
      let p := up_state p StateStart in
      if p_role p =? RoleValidator then startReqVerifyCommon cv p else Ok p
    else Ok p.

(** The header of the message is not nil. *)
Definition ProcessRecoveryMsg (cv : ChainView) (p : Process) (header : Header) : run Process :=
  match GetLeaderReqByHash (p_cache p) (HashNoSignsAndNonce header) with
  | Panic => Panic
  | Err _ => Ok p
  | Ok id =>
      match rcHeap (p_cache p) !! id with
      | None => Panic
      | Some r =>
          if negb (rdHash r =? HashNoSignsAndNonce header) then Ok p
          else
            let r := clearVotes r in
            let* r := addHeaderVotes cv (hSignatures header) (hParentHash (rqHeader (rdReq r))) r in
            startByRole cv (upReq p id (fun _ => r))
      end
  end.

Definition AddVerifiedBlock (cv : ChainView) (p : Process) (block : verifiedBlock) : run Process :=
  match vbReq block with
  | None => Ok p
  | Some req =>
      match cache_AddReq cv (p_cache p) (Some req) true with
      | Panic => Panic
      | Err _ => Ok p
      | Ok (id, cache) =>
          Ok (upReq (up_cache p cache) id (fun r => rd_up_txs r (GetCoinTX (vbTxs block))))
      end
  end.

Definition AddReq (cv : ChainView) (p : Process) (reqMsg : option HD_BlkConsensusReqMsg)
  : run Process :=
  match cache_AddReq cv (p_cache p) reqMsg false with
  | Panic => Panic
  | Err _ => Ok p
  | Ok (_, cache) => startByRole cv (up_cache p cache)
  end.

Definition AddLocalReq (cv : ChainView) (p : Process) (localReq : LocalReq) : run Process :=
  match cache_AddLocalReq (p_cache p) (Some localReq) with
  | Panic => Panic
  | Err _ => Ok p
  | Ok (id, cache) =>
      match rcHeap cache !! id with
      | None => Panic
      | Some r =>
          let* r := addEarlyVotes cv (GetVotes (p_pool p) (rdHash r)) r in
          startByRole cv (upReq (up_cache p cache) id (fun _ => r))
      end
  end.

(** [now] is the clock in milliseconds. *)
Definition HandleVote (cv : ChainView) (now : Z) (p : Process) (signHash vote from : Z)
  : run Process :=
  if (signHash =? zero_hash) || (vote =? 0) || (from =? zero_addr) then Ok p
  else
    let toPool :=
      match VotePool.AddVote now (p_pool p) signHash vote from with
      | Ok pool => Ok (up_pool p pool)
      | Err PoolFuel => Err OutOfFuel
      | Err _ => Ok p
      | Panic => Panic
      end in
    match p_cur p with
    | None => toPool
    | Some id =>
        match rcHeap (p_cache p) !! id with
        | None => Panic
        | Some r =>
            if negb (rdHash r =? signHash) then toPool
            else if isAccountExistVote r from then Ok p
            else
              let* verifiedVote :=
                verifyVote cv signHash vote from (hParentHash (rqHeader (rdReq r))) true in
              match verifiedVote with
              | None => Ok p
              | Some v => processDPOSOnce cv (upReq p id (fun r => addVote r v))
              end
        end
    end.

Definition ProcessTxsAcquireTimeOut (cv : ChainView) (p : Process) (seq : Z) : run Process :=
  if negb (seq =? p_seq p) then Ok p
  else if negb (checkState p StateTxsVerify) then Ok p
  else startDPOSVerify (restartBC cv) cv p localVerifyResultFailedButCanRecover.

Definition StartVerifyTxsAndState (cv : ChainView) (p : Process) (result : RetChan) : run Process :=
  if negb (checkState p StateTxsVerify) then Ok p
  else if negb (Resqe result =? p_seq p) then Ok p
  else if RetErr result then startDPOSVerify (restartBC cv) cv p localVerifyResultFailedButCanRecover
  else
    let* (id, r) := curReq p in
    let txs := foldl (fun txs listN => txs ++ GetCoinTX listN) (rdOriginalTxs r) (AllTxs result) in
    verifyTxsAndState (restartBC cv) cv (upReq p id (fun r => rd_up_txs r txs)).
End Process.
