(* ===== verification/VerifySafety.v ===== *)
(** * What a block verification guarantees

    One invariant of [VerifyProcess.Process] carries the guarantees of block
    verification: a validator votes only for blocks it has checked and executed
    or made itself, miners are asked to work only on blocks the engine accepted
    with votes of different accounts whose signatures were verified, and no
    handler panics or restarts for ever. *)

From S2P Require Import GoLang Broadcast Roles Turns Topology Header CoinTx Reader.
From S2P Require Import Dpos Crypto SignHelper LeaderMsgs LeaderCal Cdc ReqCache VotePool.
From S2P Require Import VerifyProcess Prelude.

(** ** Events *)

Inductive Event :=
| EvStart (role : Z)
| EvClose
| EvLeader (info : LeaderChangeNotify)
| EvRecovery (header : Header)
| EvVerified (block : verifiedBlock)
| EvReq (msg : option HD_BlkConsensusReqMsg)
| EvLocal (localReq : LocalReq)
| EvVote (now signHash vote from : Z)
| EvDPOS
| EvTimeout (seq : Z)
| EvTxs (result : RetChan).

Section Step.
Context `{GoRange} `{GoSort} `{HeaderHash} `{Secp256k1}.
Context (ks : KeyStore) (dposMode : string -> bool).

(** One call of a handler, with what the node answers during it. *)
Definition step (cv : ChainView) (e : Event) (p : Process) : run Process :=
  match e with
  | EvStart role => StartRunning ks dposMode cv p role
  | EvClose => Ok (Close p)
  | EvLeader info => SetLeaderInfo ks dposMode cv p info
  | EvRecovery header => ProcessRecoveryMsg ks dposMode cv p header
  | EvVerified block => AddVerifiedBlock cv p block
  | EvReq msg => AddReq ks dposMode cv p msg
  | EvLocal localReq => AddLocalReq ks dposMode cv p localReq
  | EvVote now signHash vote from => HandleVote dposMode cv now p signHash vote from
  | EvDPOS => processDPOSOnce dposMode cv p
  | EvTimeout seq => ProcessTxsAcquireTimeOut ks dposMode cv p seq
  | EvTxs result => StartVerifyTxsAndState ks dposMode cv p result
  end.

(** A sequence of calls: the handlers of a process hold its lock. *)
Fixpoint steps (events : list (ChainView * Event)) (p : Process) : run Process :=
  match events with
  | [] => Ok p
  | (cv, e) :: rest => let* p := step cv e p in steps rest p
  end.
End Step.

(** The chain answers questions without panicking. *)
Definition view_safe (cv : ChainView) : Prop :=
  reader_safe (cv_reader cv) /\ forall a h, cv_GetA2AccountsFromA0Account cv a h <> Panic.

Section Safety.
Context `{GoRange} `{GoSort} `{HeaderHash} `{Secp256k1}.
Context (ks : KeyStore) (dposMode : string -> bool) (num : Z).
(** What happens in a run: the answers of the node ([V]), the windows of the
    turns announced ([W]), the hashes of the blocks recovered from the database
    ([D]) and of the node's own blocks ([L]). *)
Context (V : ChainView -> Prop) (W : Z -> Z -> Prop) (D L : Z -> Prop).

(** [core/types/header.go]: the hash leaves out the signatures. *)
Hypothesis hash_signs : forall h signs,
  HashNoSignsAndNonce (with_signatures h signs) = HashNoSignsAndNonce h.
Hypothesis V_safe : forall cv, V cv -> view_safe cv.

(** ** Evidence *)

(** The header was checked as a validator does: its time in an announced turn,
    unless it comes from the database, the version its parent asks for, and
    the checks of [blkmanage]. *)
Definition header_checked (cv : ChainView) (h : Header) : Prop :=
  (D (HashNoSignsAndNonce h) \/ exists b e, W b e /\ b <= i64 (hTime h) <= e) /\
  exists parentVersion online,
    cv_GetBlockByHash cv (hParentHash h) = Some parentVersion /\
    VerifyBlockVersion num (hVersion h) parentVersion = true /\
    cv_blkVerifyHeader cv (hVersion h) h online = true.

(** The header was checked as a broadcast node does: the engine accepts its
    signatures and the chain accepts it. *)
Definition header_posed (cv : ChainView) (h : Header) : Prop :=
  VerifyBlock VerifySignWithValidate (NewMtxDPOS (dposMode (hVersion h))) (cv_reader cv) (Some h) = Ok tt /\
  cv_bcVerifyHeader cv h = true.

Definition checked (hash : Z) : Prop :=
  exists cv h, V cv /\ HashNoSignsAndNonce h = hash /\ (header_checked cv h \/ header_posed cv h).

Definition executed (hash : Z) : Prop :=
  exists cv h txs result, V cv /\ HashNoSignsAndNonce h = hash /\
    cv_VerifyTxsAndState cv (hVersion h) h txs = Some result.

(** The node may stand for a block: its own, or checked and executed. *)
Definition verified (hash : Z) : Prop := L hash \/ (checked hash /\ executed hash).

(** A vote was verified at the parent of the block, or made by the node. *)
Definition vote_ok (hash parent : Z) (v : VerifiedSign) : Prop :=
  exists cv, V cv /\
    ((exists a1, VerifySignWithValidateByReader (authReader cv) hash (vsSign v) parent =
                 Ok (vsAccount v, a1, vsValidate v)) \/
     (SignHashWithValidateByReader ks (authReader cv) hash true parent = Ok (vsSign v) /\
      vsAccount v = ks_deposit ks /\ vsValidate v = true)).

Definition votes_ok (hash parent : Z) (votes : list VerifiedSign) : Prop :=
  NoDup (vsAccount <$> votes) /\ Forall (vote_ok hash parent) votes.

(** The engine accepted a set of good votes with the signatures of [h]. *)
Definition pos_agreed (h : Header) : Prop :=
  exists cv votes, V cv /\ votes_ok (HashNoSignsAndNonce h) (hParentHash h) votes /\
    VerifyHashWithVerifiedSignsAndBlock (NewMtxDPOS (dposMode (hVersion h))) (cv_reader cv) votes
      (hParentHash h) = Ok (hSignatures h).

Definition out_ok (o : Out) : Prop :=
  match o with
  | OutVote vote => verified (cvtSignHash vote)
  | OutVerifyOK result => verified (voBlockHash result)
  | OutSaveVerified hash _ _ => verified hash
  | OutMakeStruck _ hash _ => verified hash
  | OutPosFinished notify =>
      exists h, pnHeader notify = Some h /\ pos_agreed h /\ verified (HashNoSignsAndNonce h)
  | OutMineReq h => pos_agreed h
  | OutPosedReq req => pos_agreed (rqHeader req)
  | OutAcquireTxs _ _ _ => True
  end.

(** ** The invariant *)

Definition req_parent (r : reqData) : Z := hParentHash (rqHeader (rdReq r)).

Record req_inv (r : reqData) : Prop := {
  ri_hash : rdHash r = HashNoSignsAndNonce (rqHeader (rdReq r));
  ri_votes : votes_ok (rdHash r) (req_parent r) (rdVotes r);
  ri_local : rdType r = reqTypeLocalReq -> L (rdHash r);
  ri_success : rdResult r = localVerifyResultSuccess -> verified (rdHash r);
  ri_db : rdResult r = localVerifyResultDBRecovery -> D (rdHash r)
}.

Definition cur_checked (p : Process) : Prop :=
  forall id r, p_cur p = Some id -> rcHeap (p_cache p) !! id = Some r -> checked (rdHash r).

Record PInv (p : Process) : Prop := {
  pi_cache : cache_wf (p_cache p);
  pi_pool : pool_wf (p_pool p);
  pi_cur : forall id, p_cur p = Some id -> is_Some (rcHeap (p_cache p) !! id);
  pi_state : p_state p <> StateIdle -> p_state p <> StateStart -> is_Some (p_cur p);
  pi_reqs : Forall req_inv (rcHeap (p_cache p));
  pi_txs : p_state p = StateTxsVerify -> cur_checked p;
  pi_bc : Forall verified (p_bcHashes p);
  pi_out : Forall out_ok (p_out p);
  pi_num : p_number p = num;
  pi_window : lcnLeader (p_leader p) <> zero_addr ->
    W (lcnTurnBeginTime (p_leader p)) (lcnTurnEndTime (p_leader p))
}.

Definition ok_run (m : run Process) (Q : Process -> Prop) : Prop := exists p, m = Ok p /\ Q p.

Lemma ok_run_ret p (Q : Process -> Prop) : Q p -> ok_run (Ok p) Q.
Proof. by exists p. Qed.

Lemma ok_run_bind {A} (m : run A) k (Q : Process -> Prop) (R : A -> Prop) :
  (exists a, m = Ok a /\ R a) -> (forall a, R a -> ok_run (k a) Q) -> ok_run (res_bind m k) Q.
Proof. intros (a & -> & HR) Hk. by apply Hk. Qed.

Lemma new_PInv : PInv (newProcess num).
Proof.
  split; cbn; done || apply new_cache_wf || apply new_pool_wf.
Qed.

Lemma curReq_Ok p :
  PInv p -> is_Some (p_cur p) ->
  exists id r, p_cur p = Some id /\ rcHeap (p_cache p) !! id = Some r /\ curReq p = Ok (id, r) /\
               req_inv r.
Proof.
  intros Hp [id Hid]. destruct (pi_cur _ Hp _ Hid) as [r Hr]. exists id, r.
  split; [done|]. split; [done|]. unfold curReq. rewrite Hid, Hr. split; [done|].
  by eapply Forall_lookup_1; [apply (pi_reqs _ Hp)|].
Qed.

Lemma Forall_alter {A} (P : A -> Prop) f l i :
  Forall P l -> (forall x, l !! i = Some x -> P x -> P (f x)) -> Forall P (alter f i l).
Proof.
  intros Hl Hf. apply Forall_lookup. intros j y. rewrite list_lookup_alter.
  case_decide; [subst j|by apply Forall_lookup_1].
  destruct (l !! i) as [x|] eqn:E; [|done]. intros [= <-]. apply Hf; [done|].
  by eapply Forall_lookup_1.
Qed.

(** An assignment to a request that keeps its identity and its guarantees. *)
Lemma upReq_inv p id f :
  PInv p ->
  (forall r, rcHeap (p_cache p) !! id = Some r -> req_inv r -> req_inv (f r) /\ same_req r (f r)) ->
  PInv (upReq p id f).
Proof.
  intros Hp Hf.
  assert (Hs : forall r, rcHeap (p_cache p) !! id = Some r -> same_req r (f r)).
  { intros r Hr. apply Hf; [done|]. by eapply Forall_lookup_1; [apply (pi_reqs _ Hp)|]. }
  split; cbn; try apply Hp.
  - apply update_wf; [exact Hs|apply Hp].
  - intros id' Hid'. rewrite list_lookup_alter.
    apply (pi_cur _ Hp) in Hid' as [r Hr]. case_decide; [subst; rewrite Hr|rewrite Hr]; by eexists.
  - apply Forall_alter; [apply Hp|]. intros r Hr Hi. by apply Hf.
  - intros Hst id' r Hid'. cbn in *. rewrite list_lookup_alter. case_decide.
    + subst id'. destruct (rcHeap (p_cache p) !! id) as [r0|] eqn:E; [|done].
      intros [= <-]. destruct (Hs _ eq_refl) as [-> _]. by apply (pi_txs _ Hp Hst id).
    + by apply (pi_txs _ Hp Hst id').
Qed.

Lemma upReq_lookup p id f r :
  rcHeap (p_cache p) !! id = Some r -> rcHeap (p_cache (upReq p id f)) !! id = Some (f r).
Proof. intros Hr. cbn. by rewrite list_lookup_alter_eq, Hr. Qed.

Lemma send_inv p o : PInv p -> out_ok o -> PInv (send p o).
Proof.
  intros Hp Ho. split; cbn; try apply Hp. apply Forall_app. split; [apply Hp|by constructor].
Qed.

Lemma senders_inv p v m q : PInv p -> PInv (up_senders p v m q).
Proof. intros Hp. split; cbn; apply Hp. Qed.

Lemma state_inv p s :
  PInv p -> (s <> StateIdle -> s <> StateStart -> is_Some (p_cur p)) ->
  (s = StateTxsVerify -> cur_checked p) -> PInv (up_state p s).
Proof. intros Hp Hs Ht. split; cbn; try apply Hp; done. Qed.

(** ** Votes *)

Lemma hasVote_spec votes account : hasVote votes account = true <-> account ∈ vsAccount <$> votes.
Proof.
  unfold hasVote. rewrite existsb_exists, list_elem_of_fmap. split.
  - intros (v & Hv & E%Z.eqb_eq). exists v. by rewrite list_elem_of_In.
  - intros (v & -> & Hv). exists v. by rewrite <-list_elem_of_In, Z.eqb_refl.
Qed.

Lemma up_votes_inv r votes :
  req_inv r -> votes_ok (rdHash r) (req_parent r) votes ->
  req_inv (rd_up_votes r votes) /\ same_req r (rd_up_votes r votes).
Proof. intros Hr Hv. split; [|by destruct r]. split; cbn; try apply Hr. exact Hv. Qed.

Lemma addVote_inv r v :
  req_inv r -> vote_ok (rdHash r) (req_parent r) v ->
  req_inv (addVote r v) /\ same_req r (addVote r v).
Proof.
  intros Hr Hv. unfold addVote. destruct (_ =? _); [done|].
  destruct (hasVote _ _) eqn:Eh; [done|]. apply up_votes_inv; [done|].
  destruct (ri_votes _ Hr) as [Hnd Hall]. split.
  - rewrite fmap_app. apply NoDup_app. split; [done|]. split; [|apply NoDup_singleton].
    intros a Ha ->%list_elem_of_singleton. apply hasVote_spec in Ha. congruence.
  - apply Forall_app. split; [done|]. by constructor.
Qed.

Lemma addVote_result r v : rdResult (addVote r v) = rdResult r.
Proof. unfold addVote. by repeat case_match. Qed.

Lemma verifyVote_inv cv hash vote from blk b :
  V cv -> exists o, verifyVote cv hash vote from blk b = Ok o /\
                    forall v, o = Some v -> vote_ok hash blk v.
Proof.
  intros Hcv. unfold verifyVote.
  destruct (VerifySignWithValidateByReader (authReader cv) hash vote blk) as [[[a0 a1] val]| |] eqn:E.
  - case_match; [by exists None|]. eexists. split; [done|]. intros v [= <-]. exists cv.
    split; [done|]. left. by exists a1.
  - by exists None.
  - exfalso. revert E. unfold VerifySignWithValidateByReader. case_match.
    destruct (V_safe _ Hcv) as [Hs _]. cbn. pose proof (rs_a0 _ Hs) as Ha.
    destruct (sr_GetA0AccountFromAnyAccount _ _ _) as [[]| |] eqn:Ea; [done..|]. by apply Ha in Ea.
Qed.

Lemma addEarlyVotes_inv cv votes r :
  V cv -> req_inv r ->
  exists r', addEarlyVotes cv votes r = Ok r' /\ req_inv r' /\ same_req r r' /\
             rdResult r' = rdResult r.
Proof.
  intros Hcv. revert r. induction votes as [|v votes IH]; intros r Hr; cbn [addEarlyVotes].
  { exists r. done. }
  destruct (negb _); [by apply IH|]. fold (req_parent r).
  destruct (verifyVote_inv cv (rdHash r) (viSign v) (viFrom v) (req_parent r) true Hcv)
    as (o & -> & Ho). cbn [res_bind]. destruct o as [w|]; [|by apply IH].
  destruct (addVote_inv r w Hr (Ho _ eq_refl)) as [Hr' Hs].
  destruct (IH _ Hr') as (r' & -> & ? & Hs' & Hres). exists r'. split; [done|]. split; [done|].
  split; [by etrans|]. by rewrite Hres, addVote_result.
Qed.

Lemma addHeaderVotes_inv cv signs r :
  V cv -> req_inv r ->
  exists r', addHeaderVotes cv signs (req_parent r) r = Ok r' /\ req_inv r' /\ same_req r r'.
Proof.
  intros Hcv. generalize (eq_refl (req_parent r)). generalize (req_parent r) at 2 3 as parent.
  intros parent Hp. revert r Hp. induction signs as [|s signs IH]; intros r Hp Hr;
    cbn [addHeaderVotes]; [by exists r|].
  destruct (verifyVote_inv cv (rdHash r) s zero_addr (req_parent r) false Hcv) as (o & Ho & Hv).
  rewrite <-Hp, Ho. cbn [res_bind]. destruct o as [w|]; [|rewrite Hp; by apply IH].
  destruct (addVote_inv r w Hr (Hv _ eq_refl)) as [Hr' Hs]. rewrite Hp.
  destruct (IH (addVote r w)) as (r' & -> & ? & Hs'); [|done|].
  { destruct Hs as (_ & _ & _ & _ & Hpar). unfold req_parent in *. congruence. }
  exists r'. split; [done|]. split; [done|]. by etrans.
Qed.

(** ** Results *)

Lemma up_result_inv r v :
  req_inv r -> (v = localVerifyResultSuccess -> verified (rdHash r)) ->
  v <> localVerifyResultDBRecovery ->
  req_inv (rd_up_result r v) /\ same_req r (rd_up_result r v).
Proof. intros Hr Hs Hd. split; [|by destruct r]. split; cbn; try apply Hr; done. Qed.

Lemma up_txs_inv r txs : req_inv r -> req_inv (rd_up_txs r txs) /\ same_req r (rd_up_txs r txs).
Proof. intros Hr. split; [|by destruct r]. split; cbn; apply Hr. Qed.

Lemma up_stateDB_inv r a b c :
  req_inv r -> req_inv (rd_up_state r a b c) /\ same_req r (rd_up_state r a b c).
Proof. intros Hr. split; [|by destruct r]. split; cbn; apply Hr. Qed.

Lemma rd_finish_inv r signs : req_inv r -> req_inv (rd_finish r signs) /\ same_req r (rd_finish r signs).
Proof.
  intros Hr. split; [|by destruct r]. split; cbn; try apply Hr.
  rewrite hash_signs. apply Hr.
Qed.

(** ** Finishing *)

Lemma mineReq_inv p h : PInv p -> pos_agreed h -> PInv (startSendMineReq p h).
Proof. intros Hp Ha. apply send_inv; [|done]. apply senders_inv, senders_inv, Hp. Qed.

Lemma posedReq_inv p req : PInv p -> pos_agreed (rqHeader req) -> PInv (startPosedReqSender p req).
Proof. intros Hp Ha. apply send_inv; [|done]. apply senders_inv, senders_inv, Hp. Qed.

Lemma finishedProcess_inv p id r :
  PInv p -> p_cur p = Some id -> rcHeap (p_cache p) !! id = Some r -> pos_agreed (rqHeader (rdReq r)) ->
  ok_run (finishedProcess p) PInv.
Proof.
  intros Hp Hid Hr Ha. destruct (curReq_Ok p Hp) as (id' & r' & Hid' & Hr' & Hc & Hri); [by eexists|].
  assert (id' = id) as -> by congruence. assert (r' = r) as -> by congruence.
  unfold finishedProcess. rewrite Hc. cbn [res_bind].
  assert (Hfin : forall p', PInv p' -> p_cur p' = Some id ->
    PInv (up_state (startPosedReqSender (startSendMineReq p' (rqHeader (rdReq r))) (rdReq r)) StateEnd)).
  { intros p' Hp' Hid''. apply state_inv; [|intros; by eexists|done].
    by apply posedReq_inv; [apply mineReq_inv|]. }
  destruct (rdResult r) eqn:Er; try (by apply ok_run_ret); apply ok_run_ret, Hfin;
    rewrite ?bool_decide_true, ?bool_decide_false by done; try done.
  apply send_inv; [done|]. cbn. eexists. split; [done|]. split; [done|].
  rewrite <-(ri_hash _ Hri). by apply Hri.
Qed.

Lemma processDPOSOnce_inv cv p :
  V cv -> PInv p -> ok_run (processDPOSOnce dposMode cv p) PInv.
Proof.
  intros Hcv Hp. unfold processDPOSOnce, checkState. case_bool_decide as Es; [|by apply ok_run_ret].
  cbn [negb]. destruct (curReq_Ok p Hp) as (id & r & Hid & Hr & Hc & Hri).
  { apply Hp; congruence. }
  rewrite Hc. cbn [res_bind]. destruct (rdPosFinished r); [by apply ok_run_ret|].
  destruct (VerifyHashWithVerifiedSignsAndBlock _ _ _ _) as [signs| |] eqn:Ev;
    [|by apply ok_run_ret|].
  - eapply (finishedProcess_inv _ id (rd_finish r signs)); [|done|exact (upReq_lookup p id (fun r => rd_finish r signs) r Hr)|].
    + apply upReq_inv; [done|]. intros r0 _. apply rd_finish_inv.
    + exists cv, (rdVotes r). split; [done|]. cbn. rewrite hash_signs, <-(ri_hash _ Hri).
      split; [apply Hri|done].
  - destruct (V_safe _ Hcv) as [Hs _].
    by apply (VerifyHashWithVerifiedSignsAndBlock_no_panic (dposMode (hVersion (rqHeader (rdReq r))))) in Ev.
Qed.

(** ** Voting *)

Lemma sendVote_inv cv p id r :
  V cv -> PInv p -> p_cur p = Some id -> rcHeap (p_cache p) !! id = Some r -> verified (rdHash r) ->
  ok_run (sendVote ks cv p true) (fun p' => PInv p' /\ p_cur p' = Some id /\ p_state p' = p_state p /\
    p_role p' = p_role p /\
    exists r', rcHeap (p_cache p') !! id = Some r' /\ same_req r r').
Proof.
  intros Hcv Hp Hid Hr Hv.
  destruct (curReq_Ok p Hp) as (id' & r' & Hid' & Hr' & Hc & Hri); [by eexists|].
  assert (id' = id) as -> by congruence. assert (r' = r) as -> by congruence.
  unfold sendVote. rewrite Hc. cbn [res_bind]. fold (req_parent r).
  destruct (SignHashWithValidateByReader _ _ _ _ _) as [sign| |] eqn:Es.
  - apply ok_run_ret. split; [|split; [done|split; [done|split; [done|]]]].
    + apply upReq_inv.
      * apply send_inv; [|done]. apply senders_inv, senders_inv, Hp.
      * cbn. intros r0 Hr0 Hri0. assert (r0 = r) as -> by congruence. apply addVote_inv; [done|].
        exists cv. split; [done|]. by right.
    + eexists. split; [exact (upReq_lookup (startVoteMsgSender p _) id _ r Hr)|].
      apply addVote_inv; [done|]. exists cv. split; [done|]. by right.
  - apply ok_run_ret. split; [done|]. split; [done|]. split; [done|]. split; [done|]. by exists r.
  - exfalso. revert Es. unfold SignHashWithValidateByReader, getSignAccountAndPassword.
    destruct (V_safe _ Hcv) as [_ Ha2]. specialize (Ha2 (ks_deposit ks) (req_parent r)). cbn.
    destruct (cv_GetA2AccountsFromA0Account _ _ _) as [l| |]; cbn; try done.
    destruct (GetSignAccountPassword ks l) as [[]| |] eqn:Eg; cbn; try done.
    + repeat case_match; done.
    + clear -Eg. induction l as [|a l IH]; cbn in Eg; [done|]. case_match; [done|auto].
Qed.

(** ** Restarts of a broadcast node *)

Definition results (p : Process) : list verifyResult := rdResult <$> rcHeap (p_cache p).

(** The number of cached requests still to be verified. *)
Definition nproc (rs : list verifyResult) (ids : list nat) : nat :=
  length (filter (fun id => rs !! id = Some localVerifyResultProcessing) ids).

Definition pending (p : Process) : nat := nproc (results p) (rcReqs (p_cache p)).

Lemma nproc_le rs ids : (nproc rs ids <= length ids)%nat.
Proof. apply length_filter. Qed.

Lemma nproc_insert rs ids id lv :
  lv <> localVerifyResultProcessing -> (nproc (<[id := lv]> rs) ids <= nproc rs ids)%nat.
Proof.
  intros Hlv. unfold nproc. induction ids as [|i ids IH]; [done|]. rewrite !filter_cons.
  destruct (decide (<[id := lv]> rs !! i = _)) as [E|E];
    destruct (decide (rs !! i = _)) as [E'|E']; cbn [length]; try lia.
  apply list_lookup_insert_Some in E as [(-> & ? & _)|[_ ?]]; congruence.
Qed.

Lemma nproc_insert_lt rs ids id lv :
  lv <> localVerifyResultProcessing -> rs !! id = Some localVerifyResultProcessing -> id ∈ ids ->
  (nproc (<[id := lv]> rs) ids < nproc rs ids)%nat.
Proof.
  intros Hlv Hid. induction ids as [|i ids IH]; [by intros ?%elem_of_nil|].
  intros Hin. pose proof (nproc_insert rs ids id lv Hlv) as Hle. unfold nproc in *.
  rewrite !filter_cons. destruct (decide (i = id)) as [->|Hne].
  - rewrite (decide_True (P := rs !! id = _)) by done. rewrite decide_False.
    + cbn [length]. lia.
    + rewrite list_lookup_insert_eq by (by eapply lookup_lt_Some). congruence.
  - rewrite list_lookup_insert_ne by done. apply elem_of_cons in Hin as [?|Hin]; [done|].
    specialize (IH Hin). case_decide; cbn [length]; lia.
Qed.

Lemma results_up_result p id lv :
  results (upReq p id (fun r => rd_up_result r lv)) = <[id := lv]> (results p).
Proof.
  unfold results. cbn. generalize (rcHeap (p_cache p)) as heap. intros heap. revert id.
  induction heap as [|r heap IH]; intros [|id]; cbn; [done..|]. f_equal. apply IH.
Qed.

Lemma results_same p id f :
  (forall r, rdResult (f r) = rdResult r) -> results (upReq p id f) = results p.
Proof.
  intros Hf. unfold results. cbn. generalize (rcHeap (p_cache p)) as heap. intros heap. revert id.
  induction heap as [|r heap IH]; intros [|id]; cbn; [done..| |]; f_equal; auto.
Qed.

(** [restart] works on a process with fewer than [n] requests to verify. *)
Definition restarts (n : nat) (restart : Process -> run Process) : Prop :=
  forall p, PInv p -> (pending p < n)%nat -> ok_run (restart p) PInv.

(** Ending the current request leaves fewer than [n] to verify. *)
Definition room (n : nat) (p : Process) : Prop :=
  forall id lv, p_cur p = Some id -> lv <> localVerifyResultProcessing ->
    (nproc (<[id := lv]> (results p)) (rcReqs (p_cache p)) < n)%nat.

Definition cur_verified (p : Process) : Prop :=
  forall id r, p_cur p = Some id -> rcHeap (p_cache p) !! id = Some r -> verified (rdHash r).

Lemma bcFinishedProcess_inv n restart p lv :
  restarts n restart -> PInv p -> is_Some (p_cur p) -> room n p ->
  (lv = localVerifyResultSuccess -> cur_verified p) -> lv <> localVerifyResultDBRecovery ->
  ok_run (bcFinishedProcess restart p lv) PInv.
Proof.
  intros Hrs Hp Hc Hm Hv Hd. destruct (curReq_Ok p Hp Hc) as (id & r & Hid & Hr & Hcur & Hri).
  unfold bcFinishedProcess. rewrite Hcur. cbn [res_bind].
  assert (Hp' : PInv (upReq p id (fun r => rd_up_result r lv))).
  { apply upReq_inv; [done|]. intros r0 Hr0 Hri0. apply up_result_inv; [done| |done].
    intros Hs. by apply (Hv Hs id). }
  assert (Hfail : lv <> localVerifyResultProcessing ->
    ok_run (restart (up_state (up_cur (upReq p id (fun r => rd_up_result r lv)) None) StateStart)) PInv).
  { intros Hlv. apply Hrs.
    - split; cbn; try apply Hp'; done.
    - unfold pending. change (results (up_state (up_cur ?q None) StateStart)) with (results q).
      rewrite results_up_result. by apply Hm. }
  destruct lv; try (by apply Hfail); [by apply ok_run_ret|].
  apply ok_run_ret. assert (verified (rdHash r)) as Hvr by (by apply (Hv eq_refl id)).
  pose proof (send_inv _ (OutVerifyOK (verifyOKOf r)) Hp' Hvr) as Hp2.
  split; cbn; try apply Hp2; try done. apply Forall_app. split; [apply Hp|by constructor].
Qed.

Lemma startDPOSVerify_inv n restart cv p lv :
  V cv -> restarts n restart -> PInv p -> is_Some (p_cur p) -> room n p ->
  (lv = localVerifyResultSuccess -> cur_verified p) -> lv <> localVerifyResultDBRecovery ->
  ok_run (startDPOSVerify ks dposMode restart cv p lv) PInv.
Proof.
  intros Hcv Hrs Hp Hc Hm Hv Hd. unfold startDPOSVerify. case_match; [by apply ok_run_ret|].
  case_match; [by eapply bcFinishedProcess_inv|].
  destruct (curReq_Ok p Hp Hc) as (id & r & Hid & Hr & Hcur & Hri).
  apply (ok_run_bind _ _ _ (fun p' => PInv p' /\ p_cur p' = Some id /\
           exists r', rcHeap (p_cache p') !! id = Some r' /\ same_req r r')).
  - case_bool_decide as Es; [|exists p; split; [done|]; split; [done|]; split; [done|]; by exists r].
    assert (Hvr : verified (rdHash r)) by (by apply (Hv Es id)).
    destruct (sendVote_inv cv p id r Hcv Hp Hid Hr Hvr)
      as (p1 & -> & Hp1 & Hid1 & _ & _ & r1 & Hr1 & Hs1). cbn [res_bind].
    unfold notifyVerifiedBlock, curReq at 1. rewrite Hid1, Hr1. cbn [res_bind].
    unfold curReq. cbn [p_cur p_cache send]. rewrite Hid1, Hr1. cbn [res_bind].
    assert (verified (rdHash r1)) as Hv1 by (destruct Hs1 as [-> _]; done).
    eexists. split; [done|]. case_bool_decide; (split; [|split; [done|by exists r1]]);
      repeat (apply send_inv; [|done]); done.
  - intros p' (Hp' & Hid' & r' & Hr' & Hs'). unfold curReq. rewrite Hid', Hr'. cbn [res_bind].
    pose proof (Forall_lookup_1 _ _ _ _ (pi_reqs _ Hp') Hr') as Hri'.
    assert (req_inv (rd_up_result r' lv) /\ same_req r' (rd_up_result r' lv)) as [Hri2 Hs2].
    { apply up_result_inv; [done| |done]. intros Hs. destruct Hs' as [-> _]. by apply (Hv Hs id). }
    destruct (addEarlyVotes_inv cv (GetVotes (p_pool p') (rdHash (rd_up_result r' lv))) _ Hcv Hri2)
      as (r3 & -> & Hri3 & Hs3 & _). cbn [res_bind].
    apply processDPOSOnce_inv; [done|]. apply state_inv; [|intros; by eexists|done].
    apply upReq_inv; [done|]. intros r0 Hr0 _. assert (r0 = r') as -> by congruence.
    split; [done|]. by etrans.
Qed.

Lemma upReq_room n p id f :
  (forall r, rdResult (f r) = rdResult r) -> room n p -> room n (upReq p id f).
Proof. intros Hf Hm id' lv Hid Hlv. rewrite results_same by done. by apply Hm. Qed.

Lemma verifyTxsAndState_inv n restart cv p :
  V cv -> restarts n restart -> PInv p -> is_Some (p_cur p) -> room n p -> cur_checked p ->
  ok_run (verifyTxsAndState ks dposMode restart cv p) PInv.
Proof.
  intros Hcv Hrs Hp Hc Hm Hck. destruct (curReq_Ok p Hp Hc) as (id & r & Hid & Hr & Hcur & Hri).
  unfold verifyTxsAndState. rewrite Hcur. cbn [res_bind].
  destruct (cv_VerifyTxsAndState cv _ _ _) as [[[sdb final] receipts]|] eqn:Ev.
  - apply (startDPOSVerify_inv n); try done.
    + apply upReq_inv; [done|]. intros r0 _. apply up_stateDB_inv.
    + by apply upReq_room.
    + intros _ id' r' Hid' Hr'. cbn in Hid'. assert (id' = id) as -> by congruence.
      cbn in Hr'. rewrite list_lookup_alter_eq, Hr in Hr'. injection Hr' as <-. cbn.
      right. split; [by apply (Hck id)|]. do 4 eexists. split; [done|].
      split; [symmetry; apply (ri_hash _ Hri)|exact Ev].
  - by apply (startDPOSVerify_inv n).
Qed.

Lemma startTxsVerify_inv n restart cv p :
  V cv -> restarts n restart -> PInv p -> room n p -> (p_state p = StateReqVerify -> cur_checked p) ->
  ok_run (startTxsVerify ks dposMode restart cv p) PInv.
Proof.
  intros Hcv Hrs Hp Hm Hck. unfold startTxsVerify, checkState.
  case_bool_decide as Es; [|by apply ok_run_ret]. cbn [negb].
  unfold changeState. rewrite Es. cbn [State_num]. change (2 =? u16 (3 - 1)) with true. cbv iota.
  assert (Hc : is_Some (p_cur p)) by (apply (pi_state _ Hp); congruence).
  assert (Hp' : PInv (up_state p StateTxsVerify)) by (apply state_inv; auto).
  destruct (curReq_Ok _ Hp' Hc) as (id & r & Hid & Hr & Hcur & Hri). rewrite Hcur. cbn [res_bind].
  destruct (_ || _).
  - by apply (verifyTxsAndState_inv n); auto.
  - apply ok_run_ret, send_inv; [|done]. split; cbn; apply Hp'.
Qed.

Lemma bcProcessReqVerify_inv n restart cv p :
  V cv -> restarts n restart -> PInv p -> room n p ->
  (forall id r, p_cur p = Some id -> rcHeap (p_cache p) !! id = Some r ->
     VerifyBlock VerifySignWithValidate (NewMtxDPOS (dposMode (hVersion (rqHeader (rdReq r))))) (cv_reader cv)
       (Some (rqHeader (rdReq r))) = Ok tt) ->
  ok_run (bcProcessReqVerify ks dposMode restart cv p) PInv.
Proof.
  intros Hcv Hrs Hp Hm Hvb. unfold bcProcessReqVerify, checkState.
  case_bool_decide as Es; [|by apply ok_run_ret]. cbn [negb].
  assert (Hc : is_Some (p_cur p)) by (apply (pi_state _ Hp); congruence).
  destruct (curReq_Ok _ Hp Hc) as (id & r & Hid & Hr & Hcur & Hri). rewrite Hcur. cbn [res_bind].
  destruct (cv_bcVerifyHeader cv _) eqn:Eh.
  - apply (startTxsVerify_inv n); try done. intros _ id' r' Hid' Hr'.
    assert (r' = r) as -> by congruence. exists cv, (rqHeader (rdReq r)). split; [done|].
    split; [symmetry; apply Hri|]. right. split; [by eapply Hvb|done].
  - by apply (bcFinishedProcess_inv n).
Qed.

Lemma reqVerify_inv p id :
  PInv p -> is_Some (rcHeap (p_cache p) !! id) -> PInv (up_state (up_cur p (Some id)) StateReqVerify).
Proof.
  intros Hp Hid. split; cbn; try apply Hp; try done; by intros ? [= <-].
Qed.

Lemma bcLoop_inv n restart cv ids p :
  V cv -> restarts n restart -> PInv p -> (pending p < S n)%nat ->
  Forall (fun id => id ∈ rcReqs (p_cache p)) ids ->
  ok_run (bcLoop ks dposMode restart cv ids p) PInv.
Proof.
  intros Hcv Hrs. revert p. induction ids as [|id ids IH]; intros p Hp Hn Hin; cbn [bcLoop].
  { by apply ok_run_ret. }
  apply Forall_cons in Hin as [Hid Hin].
  pose proof (cw_valid _ (pi_cache _ Hp)) as Hvalid. rewrite Forall_forall in Hvalid.
  destruct (Hvalid _ Hid) as [r Hr]. rewrite Hr.
  pose proof (Forall_lookup_1 _ _ _ _ (pi_reqs _ Hp) Hr) as Hri.
  case_bool_decide as Eres; [by apply IH|].
  assert (Hset : forall lv, lv <> localVerifyResultProcessing -> lv <> localVerifyResultDBRecovery ->
    (lv = localVerifyResultSuccess -> verified (rdHash r)) ->
    ok_run (bcLoop ks dposMode restart cv ids (upReq p id (fun r => rd_up_result r lv))) PInv).
  { intros lv Hlv Hd Hv. apply IH; [|by eapply Nat.le_lt_trans; [|exact Hn];
      unfold pending; rewrite results_up_result; apply nproc_insert|done].
    apply upReq_inv; [done|]. intros r0 Hr0 Hri0. apply up_result_inv; [done| |done].
    intros Hs. assert (r0 = r) as -> by congruence. auto. }
  destruct (isProcessedBCBlockHash p (rdHash r)) eqn:Eb.
  { apply Hset; try done. intros _. unfold isProcessedBCBlockHash in Eb.
    apply existsb_exists in Eb as (x & Hx & <-%Z.eqb_eq).
    pose proof (pi_bc _ Hp) as Hbc. rewrite Forall_forall in Hbc. by apply Hbc, list_elem_of_In. }
  destruct (VerifyBlock _ _ _ _) as [[]| |] eqn:Ev.
  - apply (bcProcessReqVerify_inv n); try done.
    + by apply reqVerify_inv.
    + intros id' lv [= <-] Hlv. cbn.
      assert (results p !! id = Some localVerifyResultProcessing).
      { unfold results. rewrite list_lookup_fmap, Hr. cbn. by f_equal. }
      pose proof (nproc_insert_lt (results p) (rcReqs (p_cache p)) id lv Hlv ltac:(done) Hid).
      unfold pending in Hn. change (results (up_state (up_cur p (Some id)) StateReqVerify)) with (results p).
      lia.
    + cbn. intros id' r' [= <-] Hr'. assert (r' = r) as -> by congruence. done.
  - by apply Hset.
  - destruct (V_safe _ Hcv) as [Hs _]. by apply VerifyBlock_no_panic in Ev.
Qed.

Lemma startReqVerifyBC_inv fuel cv p :
  V cv -> PInv p -> (pending p < fuel)%nat -> ok_run (startReqVerifyBC ks dposMode fuel cv p) PInv.
Proof.
  intros Hcv. revert p. induction fuel as [|fuel IH]; intros p Hp Hn; cbn [startReqVerifyBC]; [lia|].
  unfold checkState. case_bool_decide as Es; [|by apply ok_run_ret]. cbn [negb].
  apply (bcLoop_inv fuel); [done|exact IH|done|done|by apply Forall_forall].
Qed.

(** The rounds given to the restarts are always enough. *)
Lemma restartBC_inv cv p : V cv -> PInv p -> ok_run (restartBC ks dposMode cv p) PInv.
Proof.
  intros Hcv Hp. apply startReqVerifyBC_inv; [done..|]. pose proof (nproc_le (results p) (rcReqs (p_cache p))).
  unfold pending. lia.
Qed.

Lemma restartBC_restarts n cv : V cv -> restarts n (restartBC ks dposMode cv).
Proof. intros Hcv p Hp _. by apply restartBC_inv. Qed.

Lemma room_any p : room (S (length (rcReqs (p_cache p)))) p.
Proof. intros id lv _ _. pose proof (nproc_le (<[id := lv]> (results p)) (rcReqs (p_cache p))). lia. Qed.

(** ** The validator role *)

Lemma reqChecks_checked cv p r :
  V cv -> p_number p = num -> req_inv r ->
  W (lcnTurnBeginTime (p_leader p)) (lcnTurnEndTime (p_leader p)) ->
  reqChecks cv p r = None -> checked (rdHash r).
Proof.
  intros Hcv Hnum Hri Hw. unfold reqChecks. destruct (_ && _) eqn:Et; [done|].
  destruct (cv_GetBlockByHash cv _) as [pv|] eqn:Eb; [|done].
  destruct (VerifyBlockVersion _ _ _) eqn:Ev; cbn [negb]; [|done].
  destruct (cv_blkVerifyHeader cv _ _ _) eqn:Eh; cbn [negb]; [|done]. intros _.
  exists cv, (rqHeader (rdReq r)). split; [done|]. split; [symmetry; apply Hri|]. left. split.
  - apply andb_false_iff in Et as [Et|Et].
    + left. rewrite <-(ri_hash _ Hri). apply (ri_db _ Hri).
      apply bool_decide_eq_false in Et. by apply dec_stable.
    + right. do 2 eexists. split; [exact Hw|]. apply orb_false_iff in Et as [Eb1 Ee].
      rewrite Z.gtb_ltb in Ee. lia.
  - exists pv, (rqOnline (rdReq r)). rewrite <-Hnum. done.
Qed.

Lemma processReqOnce_inv cv p :
  V cv -> PInv p -> W (lcnTurnBeginTime (p_leader p)) (lcnTurnEndTime (p_leader p)) ->
  ok_run (processReqOnce ks dposMode cv p) PInv.
Proof.
  intros Hcv Hp Hw. unfold processReqOnce, checkState.
  case_bool_decide as Es; [|by apply ok_run_ret]. cbn [negb].
  assert (Hc : is_Some (p_cur p)) by (apply (pi_state _ Hp); congruence).
  destruct (curReq_Ok _ Hp Hc) as (id & r & Hid & Hr & Hcur & Hri). rewrite Hcur. cbn [res_bind].
  set (n := S (length (rcReqs (p_cache p)))).
  assert (Hdp : forall lv, (lv = localVerifyResultSuccess -> verified (rdHash r)) ->
    lv <> localVerifyResultDBRecovery ->
    ok_run (startDPOSVerify ks dposMode (restartBC ks dposMode cv) cv p lv) PInv).
  { intros lv Hv Hd. apply (startDPOSVerify_inv n); try done; [by apply restartBC_restarts|apply room_any|].
    intros Hs id' r' Hid' Hr'. assert (r' = r) as -> by congruence. auto. }
  case_bool_decide as Et; [apply Hdp; [intros _; left; by apply Hri|done]|].
  destruct (_ && _) eqn:Er.
  { apply andb_true_iff in Er as [_ Er%bool_decide_eq_true]. apply Hdp; [apply Hri|done]. }
  destruct (reqChecks cv p r) as [lv|] eqn:Ec.
  - apply Hdp; unfold reqChecks in Ec; repeat case_match; simplify_eq; done.
  - apply (startTxsVerify_inv n); try done; [by apply restartBC_restarts|apply room_any|].
    intros _ id' r' Hid' Hr'. assert (r' = r) as -> by congruence.
    exact (reqChecks_checked cv p r Hcv (pi_num _ Hp) Hri Hw Ec).
Qed.

Lemma startReqVerifyCommon_inv cv p :
  V cv -> PInv p -> ok_run (startReqVerifyCommon ks dposMode cv p) PInv.
Proof.
  intros Hcv Hp. unfold startReqVerifyCommon. destruct (checkState _ _); [|by apply ok_run_ret].
  cbn [negb]. destruct (lcnConsensusState _) eqn:Ec; [|by apply ok_run_ret]. cbn [negb].
  unfold GetLeaderReq. destruct (Z.eqb_spec (lcnLeader (p_leader p)) zero_addr); [by apply ok_run_ret|].
  destruct (List.find _ _) as [[id r]|] eqn:Ef; [|by apply ok_run_ret].
  apply find_some in Ef as [Hin _]. apply list_elem_of_In in Hin.
  pose proof (objects_at (rcHeap (p_cache p)) (rcReqs (p_cache p))) as Ho.
  rewrite Forall_forall in Ho. apply Ho in Hin. unfold at_heap in Hin. cbn in Hin.
  apply processReqOnce_inv; [done|by apply reqVerify_inv; [|eexists]|by apply Hp].
Qed.

Lemma startByRole_inv cv p : V cv -> PInv p -> ok_run (startByRole ks dposMode cv p) PInv.
Proof.
  intros Hcv Hp. unfold startByRole. case_match; [by apply restartBC_inv|].
  case_match; [by apply startReqVerifyCommon_inv|by apply ok_run_ret].
Qed.

(** ** The handlers *)

(** A new cache over objects that keep their hashes. *)
Lemma up_cache_inv p c :
  PInv p -> cache_wf c -> Forall req_inv (rcHeap c) ->
  (forall id r, rcHeap (p_cache p) !! id = Some r ->
     exists r', rcHeap c !! id = Some r' /\ rdHash r' = rdHash r) ->
  PInv (up_cache p c).
Proof.
  intros Hp Hc Hr Hh. split; cbn; try apply Hp; try done.
  - intros id [r Hid]%(pi_cur _ Hp). destruct (Hh _ _ Hid) as (r' & -> & _). by eexists.
  - intros Hst id r Hid Hr'. cbn in *. destruct (pi_cur _ Hp _ Hid) as [r0 Hr0].
    destruct (Hh _ _ Hr0) as (r1 & Hr1 & Heq). assert (r1 = r) as -> by congruence.
    rewrite Heq. by apply (pi_txs _ Hp Hst id).
Qed.

Lemma retyped_req_inv r r' : retyped r r' -> req_inv r -> req_inv r'.
Proof.
  intros (t & -> & Ht) Hr. split; cbn; try apply Hr. intros Hl. apply Hr. by apply Ht.
Qed.

Lemma checkUnknownLoop_no_panic cv ids heap u :
  V cv -> Forall (fun id => is_Some (heap !! id)) ids -> checkUnknownLoop cv ids heap u <> Panic.
Proof.
  intros Hcv. revert heap u. induction ids as [|id ids IH]; intros heap u Hv; cbn; [done|].
  apply Forall_cons in Hv as [[r Hr] Hv]. rewrite Hr. case_bool_decide; [by apply IH|].
  case_match; [|by apply IH].
  assert (Hins : forall x u, checkUnknownLoop cv ids (<[id := x]> heap) u <> Panic).
  { intros x u'. apply IH. eapply Forall_impl; [exact Hv|]. intros i.
    by rewrite !lookup_lt_is_Some, length_insert. }
  destruct (V_safe _ Hcv) as [Hs _]. unfold knownType.
  pose proof (rs_a0 _ Hs (rqFrom (rdReq r)) (hParentHash (rqHeader (rdReq r)))).
  destruct (sr_GetA0AccountFromAnyAccount _ _ _) as [[]| |]; cbn; done.
Qed.

Lemma StartRunning_inv cv p role : V cv -> PInv p -> ok_run (StartRunning ks dposMode cv p role) PInv.
Proof.
  intros Hcv Hp. unfold StartRunning. set (p1 := changeState (up_role p role) StateStart).
  assert (Hp1 : PInv p1).
  { assert (PInv (up_role p role)) as Hp0 by (split; cbn; apply Hp). unfold p1, changeState.
    case_match; [|done]. by apply state_inv. }
  pose proof (checkUnknownLoop_no_panic cv (rcReqs (p_cache p1)) (rcHeap (p_cache p1)) false Hcv
                (cw_valid _ (pi_cache _ Hp1))) as Hnp.
  destruct (CheckUnknownReq cv (p_cache p1)) as [c|[]|] eqn:Ec; cbn [lift_run res_bind].
  - destruct (CheckUnknownReq_wf _ _ _ (pi_cache _ Hp1) Ec) as (Hc & _ & HF).
    apply startByRole_inv; [done|]. apply up_cache_inv; [done..| |].
    + apply Forall_lookup. intros i r' Hr'. destruct (Forall2_lookup_r _ _ _ _ _ HF Hr') as (r & Hr & Hre).
      eapply retyped_req_inv; [exact Hre|]. by eapply Forall_lookup_1; [apply (pi_reqs _ Hp1)|].
    + intros id r Hr. destruct (Forall2_lookup_l _ _ _ _ _ HF Hr) as (r' & Hr' & t & -> & _). eauto.
  - unfold CheckUnknownReq in Ec. destruct (checkUnknownLoop _ _ _ _) as [[]|[]|]; done.
Qed.

Lemma SetLeaderInfo_inv cv p info :
  V cv -> PInv p ->
  (lcnConsensusState info = true -> W (lcnTurnBeginTime info) (lcnTurnEndTime info)) ->
  ok_run (SetLeaderInfo ks dposMode cv p info) PInv.
Proof.
  intros Hcv Hp Hw. unfold SetLeaderInfo. cbv zeta.
  destruct (lcnConsensusState info); cbn [negb].
  - destruct (_ && _); [apply ok_run_ret; split; cbn; apply Hp|].
    set (p1 := stopSender _).
    assert (Hi : p_state p1 = StateIdle -> PInv p1).
    { intros Hi. split; cbn in *; try apply Hp; try done; [apply SetCurTurn_wf, Hp|..|auto].
      by unfold SetCurTurn; case_match; apply Hp. }
    assert (Hs : PInv (up_state p1 StateStart)).
    { split; cbn; try apply Hp; try done; [apply SetCurTurn_wf, Hp|..|auto].
      by unfold SetCurTurn; case_match; apply Hp. }
    destruct (_ >? _) eqn:Es.
    + case_match; [by apply startReqVerifyCommon_inv|by apply ok_run_ret].
    + apply ok_run_ret, Hi. rewrite Z.gtb_ltb in Es. by destruct (p_state p1).
  - apply ok_run_ret. unfold stopProcess. cbv zeta.
    destruct (_ >? _) eqn:Es; split; cbn in *; try apply Hp; try done.
    intros Hi _. rewrite Z.gtb_ltb in Es. by destruct (p_state p).
Qed.

Lemma Close_inv p : PInv p -> PInv (Close p).
Proof. intros Hp. split; cbn; try apply Hp; done. Qed.

Lemma ProcessRecoveryMsg_inv cv p h :
  V cv -> PInv p -> ok_run (ProcessRecoveryMsg ks dposMode cv p h) PInv.
Proof.
  intros Hcv Hp. unfold ProcessRecoveryMsg, GetLeaderReqByHash.
  case_match eqn:Eg; [|by apply ok_run_ret|by repeat case_match].
  destruct (_ =? zero_hash); [done|].
  destruct (List.find _ _) as [[id r]|] eqn:Ef; [|done]. injection Eg as <-.
  apply find_some in Ef as [Hin _]. apply list_elem_of_In in Hin.
  pose proof (objects_at (rcHeap (p_cache p)) (rcReqs (p_cache p))) as Ho.
  rewrite Forall_forall in Ho. apply Ho in Hin. unfold at_heap in Hin. cbn in Hin. rewrite Hin.
  pose proof (Forall_lookup_1 _ _ _ _ (pi_reqs _ Hp) Hin) as Hri.
  case_match; [by apply ok_run_ret|].
  assert (req_inv (clearVotes r) /\ same_req r (clearVotes r)) as [Hri' Hs'].
  { apply up_votes_inv; [done|]. split; constructor. }
  destruct (addHeaderVotes_inv cv (hSignatures h) _ Hcv Hri') as (r' & Heq & Hr' & Hs).
  unfold req_parent in Heq. rewrite Heq. cbn [res_bind]. apply startByRole_inv; [done|].
  apply upReq_inv; [done|]. intros r0 Hr0 _. assert (r0 = r) as -> by congruence.
  split; [done|]. by etrans.
Qed.

(** A request taken into the cache. *)
Lemma append_cache_inv p c kept r id :
  PInv p -> cache_wf c -> c = rc_sort (append_req (p_cache p) kept r) false -> req_inv r ->
  id = length (rcHeap (p_cache p)) -> PInv (up_cache p c) /\ rcHeap c !! id = Some r.
Proof.
  intros Hp Hc -> Hr ->. cbn. rewrite lookup_app_r, Nat.sub_diag by lia. split; [|done].
  apply up_cache_inv; [done|done|..]; cbn.
  - apply Forall_app. split; [apply Hp|by constructor].
  - intros id r0 Hr0. exists r0. split; [by apply lookup_app_l_Some|done].
Qed.

Lemma cache_AddReq_inv cv p msg db :
  V cv -> PInv p ->
  (db = true -> forall req, msg ≫= checkReq = Some req -> D (HashNoSignsAndNonce (rqHeader req))) ->
  match cache_AddReq cv (p_cache p) msg db with
  | Ok (id, c) => PInv (up_cache p c)
  | Err _ => True
  | Panic => False
  end.
Proof.
  intros Hcv Hp Hdb. destruct (cache_AddReq cv (p_cache p) msg db) as [[id c]| |] eqn:Ea; [|done|].
  - destruct (AddReq_wf _ _ _ _ _ _ (pi_cache _ Hp) Ea) as [Hc _].
    apply AddReq_inv in Ea as (req & t & kept & Hreq & _ & _ & Ht & _ & _ & _ & Hid & Heq).
    eapply (append_cache_inv p c kept); [done..| |done].
    split; cbn; [done|split; constructor|by destruct db|by destruct db|].
    destruct db; [|done]. intros _. by apply Hdb.
  - revert Ea. unfold cache_AddReq. destruct (msg ≫= checkReq) as [req|]; [|done].
    destruct (_ =? zero_addr); [done|]. destruct (_ <? 0); [done|].
    destruct (scanReqs _ _ _); [|done]. destruct (_ >=? _); [done|].
    destruct (cv_GetBlockByHash _ _); [|done]. destruct (V_safe _ Hcv) as [Hs _]. unfold knownType.
    pose proof (rs_a0 _ Hs (rqFrom req) (hParentHash (rqHeader req))).
    destruct (sr_GetA0AccountFromAnyAccount _ _ _) as [[]| |]; done.
Qed.

Lemma AddVerifiedBlock_inv cv p block :
  V cv -> PInv p ->
  (forall req, vbReq block ≫= checkReq = Some req -> D (HashNoSignsAndNonce (rqHeader req))) ->
  ok_run (AddVerifiedBlock cv p block) PInv.
Proof.
  intros Hcv Hp Hd. unfold AddVerifiedBlock. destruct (vbReq block) as [msg|]; [|by apply ok_run_ret].
  pose proof (cache_AddReq_inv cv p (Some msg) true Hcv Hp (fun _ => Hd)) as Ha.
  destruct (cache_AddReq _ _ _ _) as [[id c]| |]; [|by apply ok_run_ret|done].
  apply ok_run_ret, upReq_inv; [done|]. intros r _. apply up_txs_inv.
Qed.

Lemma AddReq_handler_inv cv p msg :
  V cv -> PInv p -> ok_run (AddReq ks dposMode cv p msg) PInv.
Proof.
  intros Hcv Hp. unfold AddReq. pose proof (cache_AddReq_inv cv p msg false Hcv Hp) as Ha.
  destruct (cache_AddReq _ _ _ _) as [[id c]| |]; [|by apply ok_run_ret|by destruct Ha].
  apply startByRole_inv; [done|]. by apply Ha.
Qed.

Lemma AddLocalReq_inv cv p l req :
  V cv -> PInv p -> lrReq l ≫= checkReq = Some req -> L (HashNoSignsAndNonce (rqHeader req)) ->
  ok_run (AddLocalReq ks dposMode cv p l) PInv.
Proof.
  intros Hcv Hp Hreq HL. unfold AddLocalReq.
  destruct (cache_AddLocalReq (p_cache p) (Some l)) as [[id c]| |] eqn:Ea.
  - pose proof (AddLocalReq_wf _ _ _ _ (pi_cache _ Hp) Ea) as Hc.
    unfold cache_AddLocalReq in Ea. rewrite Hreq in Ea. injection Ea as Hid Heq.
    destruct (append_cache_inv p c (rcReqs (p_cache p)) (newReqDataByLocalReq l req) id)
      as [Hp' Hr]; [done..| |done|].
    { split; cbn; try done. split; constructor. }
    rewrite Hr. pose proof (Forall_lookup_1 _ _ _ _ (pi_reqs _ Hp') Hr) as Hri.
    destruct (addEarlyVotes_inv cv (GetVotes (p_pool p) (rdHash (newReqDataByLocalReq l req))) _ Hcv Hri)
      as (r' & -> & Hr' & Hs & _). cbn [res_bind]. apply startByRole_inv; [done|].
    apply upReq_inv; [done|]. cbn. intros r0 Hr0 _.
    assert (r0 = newReqDataByLocalReq l req) as -> by congruence. done.
  - by apply ok_run_ret.
  - unfold cache_AddLocalReq in Ea. by rewrite Hreq in Ea.
Qed.

Lemma HandleVote_inv cv now p hash vote from :
  V cv -> PInv p -> ok_run (HandleVote dposMode cv now p hash vote from) PInv.
Proof.
  intros Hcv Hp. unfold HandleVote. destruct (_ || _); [by apply ok_run_ret|]. cbv zeta.
  match goal with |- ok_run (match p_cur p with None => ?t | _ => _ end) _ => set (toPool := t) end.
  assert (Hpool : ok_run toPool PInv).
  { unfold toPool. pose proof (AddVote_wf now (p_pool p) hash vote from (pi_pool _ Hp)) as Ha.
    destruct (VotePool.AddVote _ _ _ _ _) as [vp|[]|]; try done; try (by apply ok_run_ret).
    apply ok_run_ret. split; cbn; try apply Hp. done. }
  destruct (p_cur p) as [id|] eqn:Hid; [|done].
  destruct (pi_cur _ Hp _ Hid) as [r Hr]. rewrite Hr.
  pose proof (Forall_lookup_1 _ _ _ _ (pi_reqs _ Hp) Hr) as Hri.
  destruct (Z.eqb_spec (rdHash r) hash) as [<-|]; cbn [negb]; [|done].
  case_match; [by apply ok_run_ret|]. fold (req_parent r).
  destruct (verifyVote_inv cv (rdHash r) vote from (req_parent r) true Hcv) as (o & -> & Ho).
  cbn [res_bind]. destruct o as [v|]; [|by apply ok_run_ret].
  apply processDPOSOnce_inv; [done|]. apply upReq_inv; [done|]. intros r0 Hr0 Hri0.
  assert (r0 = r) as -> by congruence. by apply addVote_inv; [|apply Ho].
Qed.

Lemma ProcessTxsAcquireTimeOut_inv cv p seq :
  V cv -> PInv p -> ok_run (ProcessTxsAcquireTimeOut ks dposMode cv p seq) PInv.
Proof.
  intros Hcv Hp. unfold ProcessTxsAcquireTimeOut, checkState. case_match; [by apply ok_run_ret|].
  case_bool_decide as Es; [|by apply ok_run_ret]. cbn [negb].
  apply (startDPOSVerify_inv (S (length (rcReqs (p_cache p))))); try done;
    [by apply restartBC_restarts|apply (pi_state _ Hp); congruence|apply room_any].
Qed.

Lemma StartVerifyTxsAndState_inv cv p result :
  V cv -> PInv p -> ok_run (StartVerifyTxsAndState ks dposMode cv p result) PInv.
Proof.
  intros Hcv Hp. unfold StartVerifyTxsAndState, checkState.
  case_bool_decide as Es; [|by apply ok_run_ret]. cbn [negb].
  case_match; [by apply ok_run_ret|].
  assert (Hc : is_Some (p_cur p)) by (apply (pi_state _ Hp); congruence).
  set (n := S (length (rcReqs (p_cache p)))).
  destruct (RetErr result).
  { apply (startDPOSVerify_inv n); try done; [by apply restartBC_restarts|apply room_any]. }
  destruct (curReq_Ok _ Hp Hc) as (id & r & Hid & Hr & Hcur & Hri). rewrite Hcur. cbn [res_bind].
  match goal with |- ok_run (verifyTxsAndState _ _ _ _ ?q) _ => set (p' := q) end.
  assert (Hp' : PInv p') by (apply upReq_inv; [done|]; intros r0 _; apply up_txs_inv).
  apply (verifyTxsAndState_inv n); try done; [by apply restartBC_restarts|apply (room_any p')|].
  by apply (pi_txs _ Hp').
Qed.

(** What an event brings into the run. *)
Definition event_in (e : Event) : Prop :=
  match e with
  | EvLeader info =>
      lcnConsensusState info = true -> W (lcnTurnBeginTime info) (lcnTurnEndTime info)
  | EvVerified block =>
      forall req, vbReq block ≫= checkReq = Some req -> D (HashNoSignsAndNonce (rqHeader req))
  | EvLocal l =>
      exists req, lrReq l ≫= checkReq = Some req /\ L (HashNoSignsAndNonce (rqHeader req))
  | _ => True
  end.

Lemma process_step_inv cv e p :
  V cv -> event_in e -> PInv p -> ok_run (step ks dposMode cv e p) PInv.
Proof.
  intros Hcv He Hp. destruct e; cbn [step].
  - by apply StartRunning_inv.
  - by apply ok_run_ret, Close_inv.
  - by apply SetLeaderInfo_inv.
  - by apply ProcessRecoveryMsg_inv.
  - by apply AddVerifiedBlock_inv.
  - by apply AddReq_handler_inv.
  - destruct He as (req & Hreq & HL). by eapply AddLocalReq_inv.
  - by apply HandleVote_inv.
  - by apply processDPOSOnce_inv.
  - by apply ProcessTxsAcquireTimeOut_inv.
  - by apply StartVerifyTxsAndState_inv.
Qed.

Lemma steps_inv events p :
  Forall (fun x => V x.1 /\ event_in x.2) events -> PInv p ->
  ok_run (steps ks dposMode events p) PInv.
Proof.
  intros Hall. revert p. induction Hall as [|[cv e] events [Hcv He] Hall IH]; intros p Hp; cbn [steps].
  { by apply ok_run_ret. }
  destruct (process_step_inv cv e p Hcv He Hp) as (p' & -> & Hp'). cbn [res_bind]. by apply IH.
Qed.
End Safety.

(** ** Runs *)

Section Runs.
Context `{HeaderHash} (events : list (ChainView * Event)).

Definition run_view (cv : ChainView) : Prop := exists e, (cv, e) ∈ events.

Definition run_window (b e : Z) : Prop :=
  exists cv info, (cv, EvLeader info) ∈ events /\ lcnConsensusState info = true /\
    lcnTurnBeginTime info = b /\ lcnTurnEndTime info = e.

Definition run_recovered (hash : Z) : Prop :=
  exists cv block req, (cv, EvVerified block) ∈ events /\ vbReq block ≫= checkReq = Some req /\
    HashNoSignsAndNonce (rqHeader req) = hash.

Definition run_local (hash : Z) : Prop :=
  exists cv l req, (cv, EvLocal l) ∈ events /\ lrReq l ≫= checkReq = Some req /\
    HashNoSignsAndNonce (rqHeader req) = hash.

(** The chain never panics, and the node's own requests have a header. *)
Definition run_safe : Prop :=
  forall cv e, (cv, e) ∈ events ->
    view_safe cv /\ match e with EvLocal l => is_Some (lrReq l ≫= checkReq) | _ => True end.
End Runs.

Definition hash_without_signs `{HeaderHash} : Prop :=
  forall h signs, HashNoSignsAndNonce (with_signatures h signs) = HashNoSignsAndNonce h.

Section Claims.
Context `{GoRange} `{GoSort} `{HeaderHash} `{Secp256k1} (ks : KeyStore) (dposMode : string -> bool) (num : Z).

Lemma run_inv events :
  hash_without_signs -> run_safe events ->
  ok_run (steps ks dposMode events (newProcess num))
    (PInv ks dposMode num (run_view events) (run_window events) (run_recovered events)
       (run_local events)).
Proof.
  intros Hh Hsafe. apply steps_inv; [done| | |apply new_PInv].
  - intros cv [e He]. by apply (Hsafe cv e).
  - apply Forall_forall. intros [cv e] He. split; [by exists e|].
    destruct (Hsafe _ _ He) as [_ Hl]. destruct e; cbn; try done.
    + intros Hc. by exists cv, info.
    + intros req Hreq. by exists cv, block, req.
    + destruct Hl as [req Hreq]. exists req. split; [done|]. by exists cv, localReq, req.
Qed.

Lemma run_out events p o :
  hash_without_signs -> run_safe events -> steps ks dposMode events (newProcess num) = Ok p ->
  o ∈ p_out p ->
  out_ok ks dposMode num (run_view events) (run_window events) (run_recovered events)
    (run_local events) o.
Proof.
  intros Hh Hsafe Hs Ho. destruct (run_inv events Hh Hsafe) as (p' & Hs' & Hp).
  rewrite Hs in Hs'. injection Hs' as <-. pose proof (pi_out _ _ _ _ _ _ _ _ Hp) as Hout.
  rewrite Forall_forall in Hout. by apply Hout.
Qed.
End Claims.

(** Block verification never gets stuck: whatever messages arrive in
    whatever order, if the chain answers without panicking and the node's own
    requests have a header, every handler returns, the restarts of a broadcast
    node included. *)
Theorem process_total `{GoRange} `{GoSort} `{HeaderHash} `{Secp256k1} ks dposMode num events :
  hash_without_signs -> run_safe events ->
  exists p, steps ks dposMode events (newProcess num) = Ok p.
Proof.
  intros Hh Hs. destruct (run_inv ks dposMode num events Hh Hs) as (p & Hp & _). by exists p.
Qed.

(** A node votes only for blocks it can stand for: every vote of a run is
    for one of the node's own blocks, or for a block whose header was checked
    (its time in an announced turn unless it was recovered from the database,
    the version its parent asks for and the header checks; or, as a broadcast
    node, the signatures of the validators) and whose transactions were executed
    to the state the header states. *)
Theorem votes_verified `{GoRange} `{GoSort} `{HeaderHash} `{Secp256k1} ks dposMode num events p vote :
  hash_without_signs -> run_safe events ->
  steps ks dposMode events (newProcess num) = Ok p -> OutVote vote ∈ p_out p ->
  verified dposMode num (run_view events) (run_window events) (run_recovered events)
    (run_local events) (cvtSignHash vote).
Proof. intros Hh Hsafe Hs Ho. exact (run_out ks dposMode num events p _ Hh Hsafe Hs Ho). Qed.

(** C14: miners are asked to work only on agreed blocks: if a mining request is
    sent in a run, more than two thirds of the validators of the parent block
    are deposit accounts of verified votes that agree with the block, and the
    header carries their signatures. *)
Theorem mining_needs_quorum `{GoRange} `{GoSort} `{HeaderHash} `{Secp256k1} ks dposMode num events p h :
  hash_without_signs -> run_safe events ->
  (forall cv e, (cv, e) ∈ events -> reader_ok (cv_reader cv)) ->
  steps ks dposMode events (newProcess num) = Ok p -> OutMineReq h ∈ p_out p ->
  exists cv top elect (A : gset Z),
    run_view events cv /\ sr_GetGraphByHash (cv_reader cv) (hParentHash h) = Ok (top, elect) /\
    A ⊆ dom (graph2ValidatorStocks top elect) /\
    2 * Z.of_nat (size (graph2ValidatorStocks top elect)) < 3 * Z.of_nat (size A) /\
    forall a, a ∈ A -> exists v, vsAccount v = a /\ vsValidate v = true /\
      vsSign v ∈ hSignatures h /\
      vote_ok ks (run_view events) (HashNoSignsAndNonce h) (hParentHash h) v.
Proof.
  intros Hh Hsafe Hrd Hs Ho.
  destruct (run_out ks dposMode num events p _ Hh Hsafe Hs Ho) as (cv & votes & Hcv & [_ Hok] & Hv).
  pose proof Hcv as [e He]. destruct (Hrd _ _ He) as (_ & _ & Hg).
  destruct (VerifiedSigns_quorum (dposMode (hVersion h)) _ _ _ _ Hg Hv) as (top & elect & A & Hgr & Hsub & Hsz & HA).
  exists cv, top, elect, A. split; [done|]. split; [done|]. split; [done|]. split; [done|].
  intros a Ha. destruct (HA a Ha) as (v & Hin & Hacc & Hval & Hsign). exists v.
  split; [done|]. split; [done|]. split; [done|]. rewrite Forall_forall in Hok. by apply Hok.
Qed.

(** ** A run

    A node with the deposit account 5 is the only validator; the leader 6 sends
    its request from its account 60. *)

#[local] Existing Instance toy_curve.
#[local] Existing Instance go_range_sorted_keys.

(** Every version has the engine of the simple mode. *)
Definition toy_mode (version : string) : bool := true.

Definition toy_hash : HeaderHash :=
  {| header_Hash := hTime; HashNoSigns := hTime; HashNoSignsAndNonce := hTime |}.
#[local] Existing Instance toy_hash.

Definition toy_reader : StateReader :=
  mkReader 1 (fun _ => Ok (mkGraph [mkNode 5 5 RoleValidator 5] 1, mkElectGraph 0 [] [] []))
    (fun _ => Err ErrRead) (fun _ => Err ErrRead) (fun _ => Err ErrRead)
    (fun _ => Ok (mkBCIntervalInfo 0 0 1000 0 0))
    (fun a _ => if a =? 8 then Ok (5, 8) else if (a =? 60) || (a =? 61) then Ok (6, a) else Err ErrRead).

Definition toy_view : ChainView :=
  mkChainView (fun _ => Some VersionAlpha) toy_reader (fun _ _ => Ok [8])
    (fun _ => true) (fun _ _ _ => true) (fun _ _ txs => Some (1, txs, 2)).

Definition toy_turn : ConsensusTurnInfo := {| PreConsensusTurn := 0; UsedReelectTurn := 0 |}.

(** The request of the leader at a time, from one of its accounts. *)
Definition toy_req (time from : Z) : HD_BlkConsensusReqMsg :=
  mkBlkReq (Some (mkHeader 1 6 0 100 time [] VersionAlpha [])) toy_turn [] [] from.

Definition toy_leader (state : bool) : LeaderChangeNotify :=
  mkLeaderChange state 0 6 0 100 toy_turn 0 0 1000.

Definition toy_events : list (ChainView * Event) :=
  [(toy_view, EvStart RoleValidator); (toy_view, EvLeader (toy_leader true));
   (toy_view, EvReq (Some (toy_req 10 60)))].

Definition toy_end : Process :=
  Eval vm_compute in
    match steps w_ks toy_mode toy_events (newProcess 100) with Ok p => p | _ => newProcess 0 end.

Lemma toy_steps : steps w_ks toy_mode toy_events (newProcess 100) = Ok toy_end.
Proof. vm_compute. reflexivity. Qed.

Lemma toy_view_safe : view_safe toy_view.
Proof.
  split; [|done]. split; cbn; try done; [by intros h bc [= <-]|]. intros a h. by repeat case_match.
Qed.

Lemma toy_view_of (events : list (ChainView * Event)) cv e :
  Forall (fun x => x.1 = toy_view) events -> (cv, e) ∈ events -> cv = toy_view.
Proof. intros Hall Hin. rewrite Forall_forall in Hall. exact (Hall _ Hin). Qed.

Lemma toy_safe : run_safe toy_events.
Proof.
  intros cv e Hin. assert (cv = toy_view) as ->.
  { by eapply (toy_view_of toy_events); [repeat constructor|]. }
  split; [exact toy_view_safe|].
  unfold toy_events in Hin. rewrite !elem_of_cons in Hin.
  by destruct Hin as [[= ->]|[[= ->]|[[= ->]|[]%not_elem_of_nil]]].
Qed.

Lemma toy_hash_signs : hash_without_signs.
Proof. intros h signs. reflexivity. Qed.

Definition toy_mined : Header := mkHeader 1 6 0 100 10 [(10 * 1000 + 8) * 256] VersionAlpha [].

Lemma process_total_witness :
  exists p, steps w_ks toy_mode toy_events (newProcess 100) = Ok p.
Proof. exact (process_total w_ks toy_mode 100 toy_events toy_hash_signs toy_safe). Defined.

Lemma votes_verified_witness :
  verified toy_mode 100 (run_view toy_events) (run_window toy_events) (run_recovered toy_events)
    (run_local toy_events) 10.
Proof.
  exact (votes_verified w_ks toy_mode 100 toy_events toy_end
           (mkConsVote 10 100 ((10 * 1000 + 8) * 256) 0) toy_hash_signs toy_safe toy_steps
           ltac:(vm_compute; left)).
Defined.

Lemma mining_needs_quorum_witness :
  exists cv top elect (A : gset Z),
    run_view toy_events cv /\ sr_GetGraphByHash (cv_reader cv) 1 = Ok (top, elect) /\
    A ⊆ dom (graph2ValidatorStocks top elect) /\
    2 * Z.of_nat (size (graph2ValidatorStocks top elect)) < 3 * Z.of_nat (size A) /\
    forall a, a ∈ A -> exists v, vsAccount v = a /\ vsValidate v = true /\
      vsSign v ∈ hSignatures toy_mined /\ vote_ok w_ks (run_view toy_events) 10 1 v.
Proof.
  refine (mining_needs_quorum w_ks toy_mode 100 toy_events toy_end toy_mined toy_hash_signs toy_safe
            _ toy_steps _).
  - intros cv e Hin. assert (cv = toy_view) as ->.
    { by eapply (toy_view_of toy_events); [repeat constructor|]. }
    split; [done|]. split; [done|]. intros h t el [= <- <-].
    split; [vm_compute; discriminate|]. apply (bool_decide_unpack _). vm_compute. exact I.
  - vm_compute. do 4 right. left.
Defined.
