(* ===== verification/VerifyVotes.v ===== *)
(** * How often a validator votes, and when a height is finished

    A process votes at most once between two changes of its leader, which is
    proved with a potential: the votes sent so far plus the one that is still
    possible.  A leader that is announced again after the consensus state was
    lost counts as a change, and the cache prefers the newest request, so an
    equivocating leader can obtain two votes for one turn.  The file also shows
    that the vote that completes a quorum finishes the height. *)

From S2P Require Import GoLang Broadcast Roles Turns Topology Header CoinTx Reader.
From S2P Require Import Dpos Crypto SignHelper LeaderMsgs LeaderCal Cdc ReqCache VotePool.
From S2P Require Import VerifyProcess VerifySafety Prelude.

Definition isVote (o : Out) : bool := match o with OutVote _ => true | _ => false end.

Definition countVotes (l : list Out) : Z := foldr (fun o n => (if isVote o then 1 else 0) + n) 0 l.

Lemma countVotes_app l k : countVotes (l ++ k) = countVotes l + countVotes k.
Proof. induction l as [|o l IH]; cbn in *; [done|]. unfold countVotes in *. lia. Qed.

(** The number of votes sent. *)
Definition voteCount (p : Process) : Z := countVotes (p_out p).

(** Whether the process can still vote. *)
Definition canVote (s : State) : Z := if State_num s <? State_num StateDPOSVerify then 1 else 0.

Definition potential (p : Process) : Z := voteCount p + canVote (p_state p).

Lemma canVote_range s : 0 <= canVote s <= 1.
Proof. by destruct s. Qed.

Lemma voteCount_send p o : isVote o = false -> voteCount (send p o) = voteCount p.
Proof.
  intros Ho. unfold voteCount. cbn [p_out send]. rewrite countVotes_app. cbn. rewrite Ho. lia.
Qed.

(** [m] returns, if it returns, a process with potential at most [b]. *)
Definition bounded (m : run Process) (b : Z) : Prop := forall p, m = Ok p -> potential p <= b.

Lemma bounded_ret p b : potential p <= b -> bounded (Ok p) b.
Proof. by intros Hp q [= <-]. Qed.

Lemma bounded_bind {A} (m : run A) k b :
  (forall a, m = Ok a -> bounded (k a) b) -> bounded (res_bind m k) b.
Proof. intros Hk p Hp. apply res_bind_Ok in Hp as (a & Ha & Hp). by apply (Hk a). Qed.

Section Votes.
Context `{GoRange} `{GoSort} `{HeaderHash} `{Secp256k1}.
Context (ks : KeyStore) (dposMode : string -> bool).

Lemma finishedProcess_bounded p : bounded (finishedProcess p) (potential p).
Proof.
  apply bounded_bind. intros [id r] _.
  assert (Hfin : forall q, voteCount q = voteCount p -> potential
    (up_state (startPosedReqSender (startSendMineReq q (rqHeader (rdReq r))) (rdReq r)) StateEnd)
    <= potential p).
  { intros q Hq. unfold potential, startPosedReqSender, startSendMineReq. cbn [p_state up_state].
    assert (Hv : voteCount (up_state (send (up_senders (closePosedReqSender (send (up_senders
      (closeMineReqMsgSender q) (p_voteSender q) (Some (rqHeader (rdReq r))) (p_posedSender q))
      (OutMineReq (rqHeader (rdReq r))))) (p_voteSender q)
      (Some (rqHeader (rdReq r))) (Some (rdReq r))) (OutPosedReq (rdReq r))) StateEnd) = voteCount q).
    { unfold voteCount. cbn [p_out up_state send up_senders closePosedReqSender closeMineReqMsgSender].
      rewrite !countVotes_app. cbn. lia. }
    cbn in Hv |- *. rewrite Hv, Hq. pose proof (canVote_range (p_state p)).
    change (canVote StateEnd) with 0. lia. }
  destruct (rdResult r); apply bounded_ret; try lia; apply Hfin;
    rewrite ?bool_decide_true, ?bool_decide_false by done; by rewrite ?voteCount_send.
Qed.

Lemma processDPOSOnce_bounded cv p : bounded (processDPOSOnce dposMode cv p) (potential p).
Proof.
  unfold processDPOSOnce. case_match; [by apply bounded_ret|]. apply bounded_bind. intros [id r] _.
  case_match; [by apply bounded_ret|]. case_match; [|by apply bounded_ret|done].
  apply (finishedProcess_bounded (upReq p id _)).
Qed.

(** The potential of a process in a state in which it can vote. *)
Definition open (p : Process) : Prop := State_num (p_state p) < State_num StateDPOSVerify.

Lemma open_canVote p : open p -> potential p = voteCount p + 1.
Proof. unfold open, potential, canVote. intros Ho. destruct (Z.ltb_spec (State_num (p_state p)) (State_num StateDPOSVerify)); [done|lia]. Qed.

Definition keeps (restart : Process -> run Process) : Prop :=
  forall p, bounded (restart p) (potential p).

Lemma bcFinishedProcess_bounded restart p lv :
  keeps restart -> open p -> bounded (bcFinishedProcess restart p lv) (potential p).
Proof.
  intros Hr Ho. rewrite (open_canVote p Ho). apply bounded_bind. intros [id r] _.
  assert (Hf : forall q, voteCount q = voteCount p -> p_state q = StateStart ->
                         potential q <= voteCount p + 1).
  { intros q Hq Hs. unfold potential. rewrite Hs, Hq. done. }
  destruct lv.
  - apply bounded_ret. change (potential p <= voteCount p + 1). by rewrite open_canVote.
  - apply bounded_ret, Hf; [|done]. by apply (voteCount_send (upReq p id _) (OutVerifyOK _)).
  - intros q Hq. apply Hr in Hq. etrans; [exact Hq|]. by apply Hf.
  - intros q Hq. apply Hr in Hq. etrans; [exact Hq|]. by apply Hf.
  - intros q Hq. apply Hr in Hq. etrans; [exact Hq|]. by apply Hf.
Qed.

Lemma sendVote_count cv p b q :
  sendVote ks cv p b = Ok q -> voteCount q <= voteCount p + 1 /\ p_state q = p_state p.
Proof.
  unfold sendVote. intros ([id r] & _ & Hq)%res_bind_Ok. case_match; [|simplify_eq; split; [lia|done]|done].
  injection Hq as <-. split; [|done]. unfold voteCount, startVoteMsgSender.
  cbn [p_out upReq up_cache send up_senders closeVoteMsgSender]. rewrite countVotes_app. cbn. lia.
Qed.

Lemma startDPOSVerify_bounded restart cv p lv :
  keeps restart -> bounded (startDPOSVerify ks dposMode restart cv p lv) (potential p).
Proof.
  intros Hr. unfold startDPOSVerify. rewrite Z.geb_leb.
  destruct (Z.leb_spec (State_num StateDPOSVerify) (State_num (p_state p))); [by apply bounded_ret|].
  assert (Ho : open p) by (unfold open; lia).
  case_match; [by apply bcFinishedProcess_bounded|]. rewrite (open_canVote p Ho).
  apply bounded_bind. intros p1 Hp1.
  assert (Hc : voteCount p1 <= voteCount p + 1).
  { case_bool_decide; [|simplify_eq; lia]. apply res_bind_Ok in Hp1 as (q & Hq & Hp1).
    apply sendVote_count in Hq as [Hq _]. apply res_bind_Ok in Hp1 as (q2 & Hq2 & Hp1).
    unfold notifyVerifiedBlock in Hq2. apply res_bind_Ok in Hq2 as ([] & _ & [= <-]).
    apply res_bind_Ok in Hp1 as ([id0 r0] & _ & [= <-]).
    case_bool_decide; rewrite !voteCount_send by done; lia. }
  apply bounded_bind. intros [id r] _. apply bounded_bind. intros r1 _.
  intros q Hq. apply processDPOSOnce_bounded in Hq. etrans; [exact Hq|]. unfold potential.
  cbn [p_state up_state]. change (canVote StateDPOSVerify) with 0.
  change (voteCount (up_state _ _)) with (voteCount p1). lia.
Qed.

Lemma verifyTxsAndState_bounded restart cv p :
  keeps restart -> bounded (verifyTxsAndState ks dposMode restart cv p) (potential p).
Proof.
  intros Hr. apply bounded_bind. intros [id r] _. cbv beta iota zeta.
  destruct (cv_VerifyTxsAndState _ _ _ _) as [[[? ?] ?]|].
  - by apply (startDPOSVerify_bounded restart cv (upReq p id _)).
  - by apply startDPOSVerify_bounded.
Qed.

Lemma startTxsVerify_bounded restart cv p :
  keeps restart -> bounded (startTxsVerify ks dposMode restart cv p) (potential p).
Proof.
  intros Hr. unfold startTxsVerify, checkState. case_bool_decide as Es; [|by apply bounded_ret].
  cbn [negb]. unfold changeState. rewrite Es. cbn [State_num]. change (2 =? u16 (3 - 1)) with true.
  cbv iota.
  assert (Hp : potential (up_state p StateTxsVerify) = potential p).
  { unfold potential. cbn [p_state up_state]. rewrite Es. done. }
  apply bounded_bind. intros [id r] _. rewrite <-Hp. case_match; [by apply verifyTxsAndState_bounded|].
  apply bounded_ret. unfold potential. rewrite voteCount_send by done. done.
Qed.

Lemma bcProcessReqVerify_bounded restart cv p :
  keeps restart -> bounded (bcProcessReqVerify ks dposMode restart cv p) (potential p).
Proof.
  intros Hr. unfold bcProcessReqVerify, checkState. case_bool_decide as Es; [|by apply bounded_ret].
  cbn [negb]. apply bounded_bind. intros [id r] _. case_match; [by apply startTxsVerify_bounded|].
  apply bcFinishedProcess_bounded; [done|]. unfold open. by rewrite Es.
Qed.

Lemma bcLoop_bounded restart cv ids p :
  keeps restart -> open p -> bounded (bcLoop ks dposMode restart cv ids p) (potential p).
Proof.
  intros Hr. revert p. induction ids as [|id ids IH]; intros p Ho; cbn [bcLoop]; [by apply bounded_ret|].
  case_match; [|done]. case_match; [by apply IH|]. case_match; [by apply (IH (upReq p id _))|].
  case_match; [|by apply (IH (upReq p id _))|done].
  rewrite (open_canVote p Ho).
  change (voteCount p + 1) with (potential (up_state (up_cur p (Some id)) StateReqVerify)).
  by apply bcProcessReqVerify_bounded.
Qed.

Lemma startReqVerifyBC_bounded fuel cv : keeps (startReqVerifyBC ks dposMode fuel cv).
Proof.
  induction fuel as [|fuel IH]; intros p; cbn [startReqVerifyBC]; [done|].
  unfold checkState. case_bool_decide as Es; [|by apply bounded_ret]. cbn [negb].
  apply bcLoop_bounded; [exact IH|]. unfold open. by rewrite Es.
Qed.

Lemma restartBC_bounded cv : keeps (restartBC ks dposMode cv).
Proof. intros p. apply startReqVerifyBC_bounded. Qed.

Lemma startReqVerifyCommon_bounded cv p :
  bounded (startReqVerifyCommon ks dposMode cv p) (potential p).
Proof.
  unfold startReqVerifyCommon, checkState. case_bool_decide as Es; [|by apply bounded_ret].
  cbn [negb]. case_match; [by apply bounded_ret|]. case_match; [|by apply bounded_ret|done].
  set (q := up_state (up_cur p (Some a)) StateReqVerify).
  assert (Hq : potential q = potential p) by (unfold potential, q; cbn [p_state up_state]; by rewrite Es).
  rewrite <-Hq. unfold processReqOnce. case_match; [by apply bounded_ret|].
  apply bounded_bind. intros [id r] _. pose proof (restartBC_bounded cv).
  repeat (case_match; try (by apply startDPOSVerify_bounded)). by apply startTxsVerify_bounded.
Qed.

Lemma startByRole_bounded cv p : bounded (startByRole ks dposMode cv p) (potential p).
Proof.
  unfold startByRole. case_match; [by apply restartBC_bounded|].
  case_match; [by apply startReqVerifyCommon_bounded|by apply bounded_ret].
Qed.

(** Messages that let the process vote again. *)
Definition reopens (e : Event) : Z :=
  match e with EvLeader _ | EvClose => 1 | _ => 0 end.

Lemma SetLeaderInfo_bounded cv p info :
  bounded (SetLeaderInfo ks dposMode cv p info) (potential p + 1).
Proof.
  assert (Hle : forall q, voteCount q = voteCount p -> potential q <= potential p + 1).
  { intros q Hq. unfold potential. rewrite Hq. pose proof (canVote_range (p_state q)).
    pose proof (canVote_range (p_state p)). lia. }
  unfold SetLeaderInfo. cbv zeta. case_match.
  - apply bounded_ret, Hle. unfold stopProcess. cbv zeta. by case_match.
  - case_match; [by apply bounded_ret, Hle|]. case_match; [|by apply bounded_ret, Hle].
    case_match; [|by apply bounded_ret, Hle]. intros q Hq.
    apply startReqVerifyCommon_bounded in Hq. etrans; [exact Hq|]. by apply Hle.
Qed.

Lemma HandleVote_bounded cv now p hash vote from :
  bounded (HandleVote dposMode cv now p hash vote from) (potential p).
Proof.
  unfold HandleVote. case_match; [by apply bounded_ret|]. cbv zeta.
  match goal with |- bounded (match p_cur p with None => ?t | _ => _ end) _ => set (toPool := t) end.
  assert (Hpool : bounded toPool (potential p)) by (unfold toPool; repeat case_match; by try apply bounded_ret).
  case_match; [|done]. case_match; [|done]. case_match; [done|]. case_match; [by apply bounded_ret|].
  apply bounded_bind. intros [v|] _; [|by apply bounded_ret].
  apply (processDPOSOnce_bounded cv (upReq p _ _)).
Qed.

Lemma step_bounded cv e p : bounded (step ks dposMode cv e p) (potential p + reopens e).
Proof.
  assert (Hk : forall m, bounded m (potential p) -> bounded m (potential p + 0)) by (intros; by rewrite Z.add_0_r).
  pose proof (restartBC_bounded cv) as Hr.
  destruct e; cbn [step reopens]; try apply Hk.
  - unfold StartRunning. apply bounded_bind. intros c _.
    set (q := up_cache (changeState (up_role p role) StateStart) c).
    assert (Hq : potential q = potential p).
    { unfold q, changeState, potential. cbn [State_num]. change (u16 (1 - 1)) with 0.
      case_match eqn:E; [|done]. cbn in *. by destruct (p_state p). }
    rewrite <-Hq. apply startByRole_bounded.
  - apply bounded_ret. unfold potential. change (voteCount (Close p)) with (voteCount p).
    change (canVote (p_state (Close p))) with 1. pose proof (canVote_range (p_state p)). lia.
  - apply SetLeaderInfo_bounded.
  - unfold ProcessRecoveryMsg. case_match; [|by apply bounded_ret|done]. case_match; [|done].
    case_match; [by apply bounded_ret|]. cbv zeta. apply bounded_bind. intros r' _.
    apply (startByRole_bounded cv (upReq p _ _)).
  - unfold AddVerifiedBlock. repeat case_match; by try apply bounded_ret.
  - unfold AddReq. destruct (cache_AddReq _ _ _ _) as [[id c]| |]; [|by apply bounded_ret|done].
    apply (startByRole_bounded cv (up_cache p c)).
  - unfold AddLocalReq. destruct (cache_AddLocalReq _ _) as [[id c]| |]; [|by apply bounded_ret|done].
    case_match; [|done]. apply bounded_bind. intros r' _.
    apply (startByRole_bounded cv (upReq (up_cache p c) _ _)).
  - apply HandleVote_bounded.
  - apply processDPOSOnce_bounded.
  - unfold ProcessTxsAcquireTimeOut. case_match; [by apply bounded_ret|].
    case_match; [by apply bounded_ret|]. by apply startDPOSVerify_bounded.
  - unfold StartVerifyTxsAndState. case_match; [by apply bounded_ret|].
    case_match; [by apply bounded_ret|]. case_match; [by apply startDPOSVerify_bounded|].
    apply bounded_bind. intros [id r] _. by apply (verifyTxsAndState_bounded _ cv (upReq p id _)).
Qed.

Definition reopenings (events : list (ChainView * Event)) : Z :=
  foldr (fun x n => reopens x.2 + n) 0 events.

Lemma steps_bounded events p :
  bounded (steps ks dposMode events p) (potential p + reopenings events).
Proof.
  revert p. induction events as [|[cv e] events IH]; intros p; cbn [steps].
  { apply bounded_ret. cbn. lia. }
  apply bounded_bind. intros q Hq. apply step_bounded in Hq. intros p' Hp'. apply IH in Hp'.
  unfold reopenings in *. cbn in *. lia.
Qed.
End Votes.

(** C38: A process votes at most once for a leader it is told of: whatever the state
    it is in and whatever events come, it sends at most one vote more than it is
    notified of leaders and closed on the way; so without such an event it sends at
    most one. *)
Theorem votes_bounded `{GoRange} `{GoSort} `{HeaderHash} `{Secp256k1} ks dposMode events p p' :
  steps ks dposMode events p = Ok p' ->
  voteCount p' <= voteCount p + 1 + reopenings events.
Proof.
  intros Hs. apply steps_bounded in Hs. unfold potential in Hs.
  pose proof (canVote_range (p_state p)). pose proof (canVote_range (p_state p')). lia.
Qed.

#[local] Existing Instance toy_curve.
#[local] Existing Instance go_range_sorted_keys.
#[local] Existing Instance toy_hash.

(** A validator that knows its leader is sent two requests of the turn. *)
Definition toy_knows : Process :=
  Eval vm_compute in
    match steps w_ks toy_mode (take 2 toy_events) (newProcess 100) with Ok p => p | _ => newProcess 0 end.

Definition toy_requests : list (ChainView * Event) :=
  [(toy_view, EvReq (Some (toy_req 10 60))); (toy_view, EvReq (Some (toy_req 20 61)))].

(** The bound is reached: the first request gets a vote, the second does not. *)
Lemma votes_bounded_witness :
  exists p', steps w_ks toy_mode toy_requests toy_knows = Ok p' /\
    voteCount p' <= voteCount toy_knows + 1 + reopenings toy_requests /\
    voteCount toy_knows = 0 /\ reopenings toy_requests = 0 /\ voteCount p' = 1.
Proof.
  destruct (steps w_ks toy_mode toy_requests toy_knows) as [p'| |] eqn:E; [|by vm_compute in E..].
  exists p'. split; [done|]. split; [exact (votes_bounded w_ks toy_mode toy_requests toy_knows p' E)|].
  vm_compute in E. injection E as <-. by vm_compute.
Defined.

(** The hashes voted for in a run. *)
Definition votedHashes (p : Process) : list Z :=
  omap (fun o => match o with OutVote v => Some (cvtSignHash v) | _ => None end) (p_out p).

Definition toy_twice : list (ChainView * Event) :=
  toy_events ++
  [(toy_view, EvLeader (toy_leader false)); (toy_view, EvReq (Some (toy_req 20 61)));
   (toy_view, EvLeader (toy_leader true))].

(** A validator can be made to vote for two blocks of one turn: a leader that sends
    a second request for its turn from another of its accounts gets a second vote when the consensus state of the leader is lost and announced
    again, because the cache prefers the newest request and nothing records what
    the node has voted for. *)
Example double_vote :
  run_safe toy_twice /\
  exists p, steps w_ks toy_mode toy_twice (newProcess 100) = Ok p /\ votedHashes p = [10; 20].
Proof.
  split.
  - intros cv e Hin. assert (cv = toy_view) as ->.
    { by eapply (toy_view_of toy_twice); [repeat constructor|]. }
    split; [exact toy_view_safe|]. unfold toy_twice, toy_events in Hin. cbn [app] in Hin.
    rewrite !elem_of_cons in Hin.
    by destruct Hin as [[= ->]|[[= ->]|[[= ->]|[[= ->]|[[= ->]|[[= ->]|[]%not_elem_of_nil]]]]]].
  - destruct (steps w_ks toy_mode toy_twice (newProcess 100)) as [p| |] eqn:E; [|by vm_compute in E..].
    exists p. split; [done|]. assert (Hp : Ok p = steps w_ks toy_mode toy_twice (newProcess 100)) by done.
    vm_compute in Hp. injection Hp as ->. by vm_compute.
Qed.

(** The process has verified its current request and waits for votes. *)
Record awaits_votes (p : Process) (id : nat) (r : reqData) : Prop := {
  aw_state : p_state p = StateDPOSVerify;
  aw_cur : p_cur p = Some id;
  aw_req : rcHeap (p_cache p) !! id = Some r;
  aw_result : rdResult r = localVerifyResultSuccess;
  aw_open : rdPosFinished r = false;
  aw_hash : rdHash r <> zero_hash
}.

(** The engine's answer on the votes of a request. *)
Definition engine `{GoRange} (dposMode : string -> bool) (cv : ChainView) (r : reqData) (votes : list VerifiedSign)
  : res dpos_error (list Z) :=
  VerifyHashWithVerifiedSignsAndBlock (NewMtxDPOS (dposMode (hVersion (rqHeader (rdReq r))))) (cv_reader cv) votes
    (hParentHash (rqHeader (rdReq r))).

(** The process has ended with the block of the request [r], signed with [signs];
    [out] is what it had sent before. *)
Definition ended_with (p : Process) (r : reqData) (signs : list Z) (out : list Out) : Prop :=
  p_state p = StateEnd /\
  p_mineSender p = Some (with_signatures (rqHeader (rdReq r)) signs) /\
  exists req, rqHeader req = with_signatures (rqHeader (rdReq r)) signs /\
    p_posedSender p = Some req /\
    p_out p = out ++
      [OutPosFinished (mkPosNotify (p_number p) (Some (rqHeader req)) (rqTurn (rdReq r)) (rqTxsCode (rdReq r)));
       OutMineReq (rqHeader req); OutPosedReq req].

(** The votes after one more message: a sender and an account that have voted are
    passed over, and so is a vote that does not verify. *)
Definition counted `{Secp256k1} (cv : ChainView) (r : reqData) (votes : list VerifiedSign) (msg : Z * Z * Z)
  : list VerifiedSign :=
  let '(_, vote, from) := msg in
  if (vote =? 0) || (from =? zero_addr) || hasVote votes from then votes
  else match verifyVote cv (rdHash r) vote from (hParentHash (rqHeader (rdReq r))) true with
       | Ok (Some v) => if (vsAccount v =? zero_addr) || hasVote votes (vsAccount v) then votes else votes ++ [v]
       | _ => votes
       end.

(** Messages with votes for one hash. *)
Definition voteEvents (cv : ChainView) (hash : Z) (msgs : list (Z * Z * Z)) : list (ChainView * Event) :=
  map (fun '(now, vote, from) => (cv, EvVote now hash vote from)) msgs.

Section Quorum.
Context `{GoRange} `{GoSort} `{HeaderHash} `{Secp256k1}.
Context (ks : KeyStore) (dposMode : string -> bool) (cv : ChainView) (Hcv : view_safe cv).

Lemma verifyVote_answers hash vote from blk : exists o, verifyVote cv hash vote from blk true = Ok o.
Proof using ks Hcv.
  destruct (verifyVote_inv ks view_safe (fun _ Hs => Hs) cv hash vote from blk true Hcv) as (o & -> & _). by exists o.
Qed.

Lemma rd_up_votes_self r : rd_up_votes r (rdVotes r) = r.
Proof. by destruct r. Qed.

Lemma addVote_counted r v :
  addVote r v = rd_up_votes r (if (vsAccount v =? zero_addr) || hasVote (rdVotes r) (vsAccount v) then rdVotes r else rdVotes r ++ [v]).
Proof. unfold addVote. by destruct (_ =? _), (hasVote _ _); cbn [orb]; rewrite ?rd_up_votes_self. Qed.

(** Asking the engine ends the process or leaves it waiting. *)
Lemma processDPOSOnce_awaiting p id r :
  awaits_votes p id r ->
  match engine dposMode cv r (rdVotes r) with
  | Ok signs => exists p', processDPOSOnce dposMode cv p = Ok p' /\ ended_with p' r signs (p_out p) /\
                  p_cur p' = Some id /\ rcHeap (p_cache p') !! id = Some (rd_finish r signs)
  | Err _ => processDPOSOnce dposMode cv p = Ok p
  | Panic => False
  end.
Proof using ks Hcv.
  intros [Hst Hcur Hr Hres Hfin Hh]. unfold engine.
  assert (processDPOSOnce dposMode cv p =
    match VerifyHashWithVerifiedSignsAndBlock (NewMtxDPOS (dposMode (hVersion (rqHeader (rdReq r))))) (cv_reader cv) (rdVotes r) (hParentHash (rqHeader (rdReq r))) with
    | Panic => Panic | Err _ => Ok p
    | Ok signs => finishedProcess (upReq p id (fun r => rd_finish r signs)) end) as ->.
  { unfold processDPOSOnce, checkState, curReq. rewrite bool_decide_true by done. cbn [negb].
    rewrite Hcur, Hr. cbn [res_bind]. by rewrite Hfin. }
  destruct (VerifyHashWithVerifiedSignsAndBlock _ _ _ _) as [signs| |] eqn:Ee; [|done|].
  2: { destruct Hcv as [Hs _]. by apply (VerifyHashWithVerifiedSignsAndBlock_no_panic (dposMode (hVersion (rqHeader (rdReq r))))) in Ee. }
  unfold finishedProcess, curReq. change (p_cur (upReq p id ?f)) with (p_cur p).
  rewrite Hcur, (upReq_lookup p id (fun r => rd_finish r signs) r Hr). cbn [res_bind rd_finish rdResult].
  rewrite Hres, bool_decide_true by done. eexists. split; [done|]. split; [|split; [exact Hcur|]].
  - split; [done|]. split; [done|]. eexists. split; [|split; [done|]]; [done|]. cbn. by rewrite <- !app_assoc.
  - exact (upReq_lookup p id (fun r => rd_finish r signs) r Hr).
Qed.

(** One vote at a process that waits. *)
Lemma HandleVote_awaiting p id r now vote from :
  awaits_votes p id r ->
  let votes := counted cv r (rdVotes r) (now, vote, from) in
  (exists p', HandleVote dposMode cv now p (rdHash r) vote from = Ok p' /\
     awaits_votes p' id (rd_up_votes r votes) /\ p_out p' = p_out p /\
     (votes <> rdVotes r -> forall signs, engine dposMode cv r votes <> Ok signs)) \/
  (exists p' signs, HandleVote dposMode cv now p (rdHash r) vote from = Ok p' /\
     engine dposMode cv r votes = Ok signs /\ ended_with p' r signs (p_out p) /\
     p_cur p' = Some id /\ rcHeap (p_cache p') !! id = Some (rd_finish (rd_up_votes r votes) signs)).
Proof using ks Hcv.
  intros Hw votes. pose proof Hw as [Hst Hcur Hr Hres Hfin Hh].
  assert (exists p', Ok p = Ok p' :> run Process /\ awaits_votes p' id (rd_up_votes r (rdVotes r)) /\ p_out p' = p_out p /\
    (rdVotes r <> rdVotes r -> forall signs, engine dposMode cv r (rdVotes r) <> Ok signs)) as Hself.
  { exists p. by rewrite rd_up_votes_self. }
  unfold HandleVote, votes, counted. clear votes. rewrite (proj2 (Z.eqb_neq _ _) Hh). cbn [orb].
  destruct (vote =? 0) eqn:Ev; [by left|]. destruct (from =? zero_addr) eqn:Ef; [by left|].
  cbn [orb]. rewrite Hcur, Hr, Z.eqb_refl. cbn [negb]. unfold isAccountExistVote. rewrite Ef.
  destruct (hasVote (rdVotes r) from) eqn:Ex; [by left|].
  destruct (verifyVote_answers (rdHash r) vote from (hParentHash (rqHeader (rdReq r)))) as [[v|] ->]; cbn [res_bind];
    [|by left].
  set (votes := if _ || _ then rdVotes r else rdVotes r ++ [v]).
  set (p1 := upReq p id (fun r => addVote r v)).
  assert (awaits_votes p1 id (rd_up_votes r votes)) as Hw1.
  { split; try done. unfold p1. rewrite (upReq_lookup p id (fun r => addVote r v) r Hr). by rewrite addVote_counted. }
  pose proof (processDPOSOnce_awaiting p1 id _ Hw1) as HE. change (engine dposMode cv (rd_up_votes r votes) _) with (engine dposMode cv r votes) in HE.
  destruct (engine dposMode cv r votes) as [signs| |] eqn:Ee; [right|left|done].
  - destruct HE as (p' & E & He & Hc & Hl). by exists p', signs.
  - exists p1. split; [done|]. split; [done|]. done.
Qed.

(** One vote at a process that has ended. *)
Lemma HandleVote_ended p id r signs out r' now vote from :
  ended_with p r signs out -> p_cur p = Some id -> rcHeap (p_cache p) !! id = Some r' -> rdHash r' = rdHash r ->
  exists p' r'', HandleVote dposMode cv now p (rdHash r) vote from = Ok p' /\ ended_with p' r signs out /\
    p_cur p' = Some id /\ rcHeap (p_cache p') !! id = Some r'' /\ rdHash r'' = rdHash r.
Proof using ks Hcv.
  intros He Hcur Hr Hh. unfold HandleVote. destruct (_ || _ || _) eqn:Ez; [by exists p, r'|].
  rewrite Hcur, Hr, Hh, Z.eqb_refl. cbn [negb]. destruct (isAccountExistVote r' from); [by exists p, r'|].
  destruct (verifyVote_answers (rdHash r) vote from (hParentHash (rqHeader (rdReq r')))) as [[v|] ->]; cbn [res_bind]; [|by exists p, r'].
  exists (upReq p id (fun r => addVote r v)), (addVote r' v). split; [|split; [done|]].
  - unfold processDPOSOnce, checkState. change (p_state (upReq p id _)) with (p_state p). by rewrite (proj1 He).
  - split; [done|]. split; [exact (upReq_lookup p id (fun r => addVote r v) r' Hr)|]. rewrite <- Hh. unfold addVote. by repeat case_match.
Qed.

Lemma votes_ended p id r signs out r' msgs :
  ended_with p r signs out -> p_cur p = Some id -> rcHeap (p_cache p) !! id = Some r' -> rdHash r' = rdHash r ->
  exists p', steps ks dposMode (voteEvents cv (rdHash r) msgs) p = Ok p' /\ ended_with p' r signs out.
Proof using ks Hcv.
  revert p r'. induction msgs as [|[[now vote] from] msgs IH]; intros p r' He Hcur Hr Hh; [by exists p|].
  destruct (HandleVote_ended p id r signs out r' now vote from He Hcur Hr Hh) as (p1 & r1 & E & He1 & Hc1 & Hr1 & Hh1).
  cbn [voteEvents map steps step]. rewrite E. cbn [res_bind]. by apply (IH p1 r1).
Qed.
End Quorum.

(** C34: votes that make a quorum finish the height: a process that has verified its
    current request with success and waits for votes is given any messages with
    votes for it, valid or not, repeated or not.  If the messages add a vote and the
    engine accepts the votes there are in the end, the process has ended: with the
    signatures the engine took at the first quorum on the way it has notified the
    leader service, and it has sent the block to the miners and the broadcast nodes,
    once. *)
Theorem quorum_completes `{GoRange} `{GoSort} `{HeaderHash} `{Secp256k1} ks dposMode cv p id r msgs signs :
  view_safe cv -> awaits_votes p id r ->
  let votes := foldl (counted cv r) (rdVotes r) msgs in
  votes <> rdVotes r -> engine dposMode cv r votes = Ok signs ->
  exists p' k signs', steps ks dposMode (voteEvents cv (rdHash r) msgs) p = Ok p' /\
    engine dposMode cv r (foldl (counted cv r) (rdVotes r) (take k msgs)) = Ok signs' /\
    ended_with p' r signs' (p_out p).
Proof.
  intros Hcv. revert p r. induction msgs as [|[[now vote] from] msgs IH]; intros p r Hw votes Hne He; [done|].
  cbn [voteEvents map steps step].
  destruct (HandleVote_awaiting ks dposMode cv Hcv p id r now vote from Hw) as
    [(p1 & -> & Hw1 & Ho & Hno)|(p1 & s1 & -> & E1 & He1 & Hc1 & Hr1)]; cbn [res_bind].
  - set (v1 := counted cv r (rdVotes r) (now, vote, from)) in *.
    destruct (IH p1 (rd_up_votes r v1) Hw1) as (p' & k & s' & E & Ek & Hend); [|exact He|].
    + intros Ev. change (foldl (counted cv (rd_up_votes r v1)) _ msgs) with (foldl (counted cv r) v1 msgs) in Ev. cbn [rd_up_votes rdVotes] in Ev.
      apply (Hno ltac:(intros E; apply Hne; unfold votes; cbn [foldl]; fold v1; by rewrite Ev) signs). by rewrite <- He, <- Ev.
    + exists p', (S k), s'. split; [exact E|]. split; [exact Ek|]. rewrite <- Ho. exact Hend.
  - destruct (votes_ended ks dposMode cv Hcv p1 id r s1 (p_out p) _ msgs He1 Hc1 Hr1 ltac:(done)) as (p' & E & Hend).
    exists p', 1%nat, s1. split; [exact E|]. by split.
Qed.

(** Two validators: the node has voted and waits for the vote of the leader. *)
Definition toy_reader2 : StateReader :=
  mkReader 1 (fun _ => Ok (mkGraph [mkNode 5 5 RoleValidator 5; mkNode 6 6 RoleValidator 6] 2,
                           mkElectGraph 0 [] [] []))
    (fun _ => Err ErrRead) (fun _ => Err ErrRead) (fun _ => Err ErrRead)
    (fun _ => Err ErrRead) (sr_GetA0AccountFromAnyAccount toy_reader).

Definition toy_view2 : ChainView :=
  mkChainView (fun _ => Some VersionAlpha) toy_reader2 (fun _ _ => Ok [8])
    (fun _ => true) (fun _ _ _ => true) (fun _ _ txs => Some (1, txs, 2)).

Definition toy_wait : Process :=
  Eval vm_compute in
    match steps w_ks toy_mode [(toy_view2, EvStart RoleValidator); (toy_view2, EvLeader (toy_leader true));
                           (toy_view2, EvReq (Some (toy_req 10 60)))] (newProcess 100) with
    | Ok p => p | _ => newProcess 0 end.

Definition toy_wait_req : reqData :=
  Eval vm_compute in
    match rcHeap (p_cache toy_wait) with r :: _ => r | [] => newReqData (mkReq toy_mined toy_turn [] [] 0) false reqTypeOtherReq end.

(** A vote for another hash, and the vote of the leader twice. *)
Definition toy_msgs : list (Z * Z * Z) :=
  [(0, (11 * 1000 + 60) * 256, 60); (1, (10 * 1000 + 60) * 256, 60); (2, (10 * 1000 + 60) * 256, 60)].

Lemma toy_view2_safe : view_safe toy_view2.
Proof. split; [|done]. split; cbn; try done. intros a h. by repeat case_match. Qed.

Lemma quorum_completes_witness :
  exists p' k signs', steps w_ks toy_mode (voteEvents toy_view2 10 toy_msgs) toy_wait = Ok p' /\
    engine toy_mode toy_view2 toy_wait_req (foldl (counted toy_view2 toy_wait_req) (rdVotes toy_wait_req) (take k toy_msgs)) = Ok signs' /\
    ended_with p' toy_wait_req signs' (p_out toy_wait).
Proof.
  apply (quorum_completes w_ks toy_mode toy_view2 toy_wait 0%nat toy_wait_req toy_msgs [(10 * 1000 + 8) * 256; (10 * 1000 + 60) * 256]).
  - exact toy_view2_safe.
  - split; vm_compute; (reflexivity || discriminate).
  - vm_compute. discriminate.
  - vm_compute. reflexivity.
Defined.
