(* ===== verification/VerifiedBlocks.v ===== *)
(** * Verified blocks kept for a restart ([blkverify/recovery.go])

    A node that has voted for a block stores the request and its transactions,
    so that after a restart it can vote again without fetching them.  The last
    three blocks are kept in a ring of slots; an index with the hashes says
    what is where.  The file proves the codec, that the ring holds the last
    blocks saved, and that a saved block is read back. *)

From S2P Require Import GoLang Turns Header Transactions CoinTx Reader.
From S2P Require Import Roles Crypto SignHelper LeaderMsgs ReqCache VotePool.
From S2P Require Import VerifyProcess VerifySafety Prelude.

Definition verifiedBlockCacheSize : Z := 3.

Record VerifiedBlockIndex := mkVBIndex {
  viLast : Z;
  viCapacity : Z;
  IndexRing : list Z
}.

Definition newVerifiedBlockIndex (capacity : Z) : VerifiedBlockIndex :=
  mkVBIndex (u8 (capacity - 1)) capacity (replicate (Z.to_nat capacity) zero_hash).

(** [IndexRing[Last] = hash] panics outside the ring. *)
Definition saveBlock (vbi : VerifiedBlockIndex) (hash : Z) : eff (VerifiedBlockIndex * Z) :=
  let* last := go_umod (u8 (viLast vbi + 1)) (viCapacity vbi) in
  let pos := Z.to_nat last in
  if bool_decide (pos < length (IndexRing vbi))%nat
  then Ok (mkVBIndex last (viCapacity vbi) (<[pos := hash]> (IndexRing vbi)), last)
  else Panic.

Definition findBlockPos (vbi : VerifiedBlockIndex) (hash : Z) : option Z :=
  if hash =? zero_hash then None
  else match list_find (fun val => val = hash) (IndexRing vbi) with
       | Some (pos, _) => Some (u8 (Z.of_nat pos))
       | None => None
       end.

(** ** The encodings

    [encoding/json] with the marshalling methods of headers and transactions. *)
Class BlockCodec := {
  json_index : VerifiedBlockIndex -> option (list Z);
  unjson_index : list Z -> option VerifiedBlockIndex;
  json_req : HD_BlkConsensusReqMsg -> option (list Z);
  unjson_req : list Z -> option HD_BlkConsensusReqMsg;
  json_txs : list Transaction_Mx -> option (list Z);
  unjson_txs : list Z -> option (list (option Transaction_Mx));
  (** no slice of the header is nil: a null is refused as a missing field *)
  req_whole : HD_BlkConsensusReqMsg -> Prop
}.

(** The numbers of a transaction are there and have at most 256 bits, and its
    currency is ASCII. *)
Definition big_whole (x : option Z) : Prop := exists v, x = Some v /\ 0 <= v < 2 ^ 256.

Record mx_whole (m : Transaction_Mx) : Prop := {
  mw_price : big_whole (Price (mxData m));
  mw_amount : big_whole (Amount (mxData m));
  mw_V : big_whole (tdV (mxData m));
  mw_R : big_whole (tdR (mxData m));
  mw_S : big_whole (tdS (mxData m));
  mw_currency : Forall (fun c => c < 128) (string_bytes (mxCurrency m))
}.

(** What they promise: what was encoded is decoded to the same. *)
Record codec_laws `{BlockCodec} : Prop := {
  index_rt : forall i b, json_index i = Some b -> unjson_index b = Some i;
  req_rt : forall r b, req_whole r -> json_req r = Some b -> unjson_req b = Some r;
  txs_rt : forall l b, Forall mx_whole l -> json_txs l = Some b -> unjson_txs b = Some (Some <$> l)
}.

(** [binary.BigEndian.PutUint64] and [Uint64] *)
Definition encodeUint64 (number : Z) : list Z :=
  (fun k => u8 (Z.shiftr number (8 * k))) <$> [7; 6; 5; 4; 3; 2; 1; 0].

Definition be_Uint64 (b : list Z) : Z := foldl (fun acc x => acc * 256 + x) 0 b.

(** [s[from:to]] of a slice of full capacity, with [uint64] bounds. *)
Definition go_slice {E A} (l : list A) (from to_ : Z) : res E (list A) :=
  if (from <=? to_) && (to_ <=? Z.of_nat (length l))
  then Ok (take (Z.to_nat (to_ - from)) (drop (Z.to_nat from) l))
  else Panic.

Inductive block_error :=
| errReqNil | errTxsCount | errMarshal | errMx | errUnmarshal | errSize | errCapacity | errNoIndex.

Section Codec.
Context `{BlockCodec}.

Definition encodeVerifiedBlock (req : option HD_BlkConsensusReqMsg) (txs : list CoinTxs)
  : res block_error (list Z) :=
  match req with
  | None => Err errReqNil
  | Some req =>
      let txss := GetTX txs in
      if negb (TxsCodeCount (bqTxsCode req) =? Z.of_nat (length txss)) then Err errTxsCount
      else match json_req req with
           | None => Err errMarshal
           | Some reqData =>
               match mapM SetTransactionToMx txss with
               | None => Err errMx
               | Some marshalTxs =>
                   match json_txs marshalTxs with
                   | None => Err errMarshal
                   | Some txsData =>
                       Ok (encodeUint64 (u64 (Z.of_nat (length reqData))) ++
                           encodeUint64 (u64 (Z.of_nat (length txsData))) ++ reqData ++ txsData)
                   end
               end
           end
  end.

(** A null among the transactions is a nil pointer. *)
Fixpoint decodeTxs (marshalTxs : list (option Transaction_Mx)) : res block_error (list Tx) :=
  match marshalTxs with
  | [] => Ok []
  | None :: _ => Panic
  | Some m :: rest =>
      match SetMxToTransaction m with
      | None => Err errMx
      | Some tx => let* txs := decodeTxs rest in Ok (tx :: txs)
      end
  end.

Definition decodeVerifiedBlock (data : list Z) : res block_error (HD_BlkConsensusReqMsg * list Tx) :=
  let totalSize := u64 (Z.of_nat (length data)) in
  if totalSize <? 16 then Err errSize
  else
    let* d1 := go_slice data 0 8 in
    let* d2 := go_slice data 8 16 in
    let reqDataSize := be_Uint64 d1 in
    let txsDataSize := be_Uint64 d2 in
    if negb (totalSize =? u64 (16 + reqDataSize + txsDataSize)) then Err errSize
    else
      let* reqData := go_slice data 16 (u64 (16 + reqDataSize)) in
      let* txsData := go_slice data (u64 (16 + reqDataSize)) (Z.of_nat (length data)) in
      match unjson_req reqData with
      | None => Err errUnmarshal
      | Some req =>
          match unjson_txs txsData with
          | None => Err errUnmarshal
          | Some marshalTxs => let* txs := decodeTxs marshalTxs in Ok (req, txs)
          end
      end.

(** ** The database ([core/rawdb/accessors_indexes.go]) *)

Record VDB := mkVDB {
  vdb_index : option (list Z);
  vdb_block : gmap Z (list Z)
}.

Definition getVerifiedBlockIndex (db : VDB) : res block_error VerifiedBlockIndex :=
  match vdb_index db with
  | None => Ok (newVerifiedBlockIndex verifiedBlockCacheSize)
  | Some data =>
      match unjson_index data with
      | None => Err errUnmarshal
      | Some index => Ok index
      end
  end.

Definition saveVerifiedBlockToDB (db : VDB) (hash : Z) (req : option HD_BlkConsensusReqMsg)
    (txs : list CoinTxs) : res block_error VDB :=
  let* data := encodeVerifiedBlock req txs in
  let* index := getVerifiedBlockIndex db in
  if viCapacity index =? 0 then Err errCapacity
  else match saveBlock index hash with
       | Panic => Panic
       | Err e => match e with end
       | Ok (index, pos) =>
           match json_index index with
           | None => Err errMarshal
           | Some indexData => Ok (mkVDB (Some indexData) (<[pos := data]> (vdb_block db)))
           end
       end.

(** One slot of the index: [None] when the block is left out. *)
Definition readSlot `{HeaderHash} (db : VDB) (pos : nat) (hash : Z) : eff (option verifiedBlock) :=
  if hash =? zero_hash then Ok None
  else match vdb_block db !! u8 (Z.of_nat pos) with
       | None => Ok None
       | Some data =>
           match decodeVerifiedBlock data with
           | Panic => Panic
           | Err _ => Ok None
           | Ok (req, txs) =>
               match bqHeader req with
               | None => Panic
               | Some header =>
                   if negb (HashNoSignsAndNonce header =? hash) then Ok None
                   else if negb (TxsCodeCount (bqTxsCode req) =? Z.of_nat (length txs)) then Ok None
                   else Ok (Some (mkVerifiedBlock hash (Some req) txs))
               end
           end
       end.

Fixpoint readSlots `{HeaderHash} (db : VDB) (pos : nat) (ring : list Z)
  : eff (list verifiedBlock) :=
  match ring with
  | [] => Ok []
  | hash :: rest =>
      let* b := readSlot db pos hash in
      let* bs := readSlots db (S pos) rest in
      Ok (match b with Some b => b :: bs | None => bs end)
  end.

Definition readVerifiedBlocksFromDB `{HeaderHash} (db : VDB) : res block_error (list verifiedBlock) :=
  let* index := getVerifiedBlockIndex db in
  match readSlots db 0 (IndexRing index) with
  | Panic => Panic
  | Err e => match e with end
  | Ok blocks => Ok blocks
  end.
End Codec.

(** ** The codec *)

#[local] Instance Ok_inj E A : Inj (=) (=) (@Ok E A).
Proof. by intros a b [= ->]. Qed.

Lemma be_Uint64_encode n : is_u64 n -> be_Uint64 (encodeUint64 n) = n.
Proof.
  intros Hn. unfold be_Uint64, encodeUint64. cbn [fmap list_fmap foldl].
  unfold u8. rewrite !Z.shiftr_div_pow2 by lia. unfold is_u64 in Hn.
  change (2 ^ (8 * 7)) with (2 ^ 56). change (2 ^ (8 * 6)) with (2 ^ 48).
  change (2 ^ (8 * 5)) with (2 ^ 40). change (2 ^ (8 * 4)) with (2 ^ 32).
  change (2 ^ (8 * 3)) with (2 ^ 24). change (2 ^ (8 * 2)) with (2 ^ 16).
  change (2 ^ (8 * 1)) with (2 ^ 8). change (2 ^ (8 * 0)) with 1. rewrite Z.div_1_r.
  Z.to_euclidean_division_equations. lia.
Qed.

Lemma length_encodeUint64 n : length (encodeUint64 n) = 8%nat.
Proof. done. Qed.

Lemma go_slice_mid {E A} (a b c : list A) (i j : Z) :
  i = Z.of_nat (length a) -> j = Z.of_nat (length a + length b) ->
  @go_slice E A (a ++ b ++ c) i j = Ok b.
Proof.
  intros -> ->. unfold go_slice. rewrite !length_app.
  destruct (_ && _) eqn:E1; [|apply andb_false_iff in E1 as [E1|E1]; apply Z.leb_gt in E1; lia].
  f_equal. rewrite Nat2Z.id, drop_app_length.
  replace (Z.to_nat (Z.of_nat (length a + length b) - Z.of_nat (length a))) with (length b) by lia.
  apply take_app_length.
Qed.

(** Decoding undoes the encoding up to the conversion of the transactions. *)
Lemma decode_encode `{BlockCodec} req txs data :
  codec_laws -> encodeVerifiedBlock (Some req) txs = Ok data ->
  Z.of_nat (length data) < 2 ^ 64 -> req_whole req ->
  exists mx, mapM SetTransactionToMx (GetTX txs) = Some mx /\
    (Forall mx_whole mx ->
     decodeVerifiedBlock data = let* txs := decodeTxs (Some <$> mx) in Ok (req, txs)).
Proof.
  intros Hlaws He Hlen Hwhole. unfold encodeVerifiedBlock in He. case_match; [done|].
  destruct (json_req req) as [rd|] eqn:Er; [|done].
  destruct (mapM SetTransactionToMx (GetTX txs)) as [mx|] eqn:Em; [|done].
  destruct (json_txs mx) as [td|] eqn:Et; [|done].
  exists mx. split; [done|]. intros Hmx.
  apply (inj Ok) in He. subst data. rewrite !length_app, !length_encodeUint64 in Hlen.
  assert (Hr : u64 (Z.of_nat (length rd)) = Z.of_nat (length rd)) by (apply u64_small; unfold is_u64; lia).
  assert (Ht : u64 (Z.of_nat (length td)) = Z.of_nat (length td)) by (apply u64_small; unfold is_u64; lia).
  rewrite Hr, Ht. unfold decodeVerifiedBlock.
  set (e1 := encodeUint64 (Z.of_nat (length rd))). set (e2 := encodeUint64 (Z.of_nat (length td))).
  assert (Hlen' : Z.of_nat (length (e1 ++ e2 ++ rd ++ td)) = 16 + Z.of_nat (length rd) + Z.of_nat (length td)).
  { rewrite !length_app. unfold e1, e2. rewrite !length_encodeUint64. lia. }
  rewrite Hlen', u64_small by (unfold is_u64; lia).
  destruct (Z.ltb_spec (16 + Z.of_nat (length rd) + Z.of_nat (length td)) 16); [lia|].
  rewrite (go_slice_mid [] e1 (e2 ++ rd ++ td) 0 8) by done. cbn [res_bind].
  rewrite (go_slice_mid e1 e2 (rd ++ td) 8 16) by done. cbn [res_bind].
  assert (Hb1 : be_Uint64 e1 = Z.of_nat (length rd)) by (apply be_Uint64_encode; unfold is_u64; lia).
  assert (Hb2 : be_Uint64 e2 = Z.of_nat (length td)) by (apply be_Uint64_encode; unfold is_u64; lia).
  rewrite Hb1, Hb2.
  rewrite (u64_small (16 + Z.of_nat (length rd) + Z.of_nat (length td))) by (unfold is_u64; lia).
  rewrite Z.eqb_refl. cbn [negb].
  rewrite (u64_small (16 + Z.of_nat (length rd))) by (unfold is_u64; lia).
  rewrite (app_assoc e1 e2 (rd ++ td)).
  rewrite (go_slice_mid (e1 ++ e2) rd td 16) by (rewrite length_app; unfold e1, e2;
    rewrite !length_encodeUint64; lia). cbn [res_bind].
  replace ((e1 ++ e2) ++ rd ++ td) with ((e1 ++ e2 ++ rd) ++ td ++ []) by
    (by rewrite app_nil_r, <-!app_assoc).
  rewrite (go_slice_mid (e1 ++ e2 ++ rd) td []) by (rewrite !length_app; unfold e1, e2;
    rewrite !length_encodeUint64; cbn; lia). cbn [res_bind].
  by rewrite (req_rt Hlaws _ _ Hwhole Er), (txs_rt Hlaws _ _ Hmx Et).
Qed.

(** A transaction that can be stored: a normal one with a marked nonce and
    proper numbers. *)
Record plain (t : Tx) (tx : Transaction) : Prop := {
  pl_tx : t = TxNormal tx;
  pl_pooled : pooled tx;
  pl_type : tx_GetMatrixType tx = ExtraNormalTxType;
  pl_marked : marked tx;
  pl_whole : forall m, SetTransactionToMx t = Some m -> mx_whole m
}.

(** What comes back of it: its data and currency, not its cached sender. *)
Definition bare (tx : Transaction) : Tx := TxNormal (newTx (Currency tx) (txData tx)).

Lemma plain_convert t tx m :
  plain t tx -> SetTransactionToMx t = Some m -> SetMxToTransaction m = Some (bare tx).
Proof.
  intros [-> Hp Ht Hm _] Hs. destruct (mx_wire tx Hp) as (m' & Hs' & Hty & Hc).
  assert (m' = m) as -> by congruence. unfold SetMxToTransaction. rewrite Hty, Ht, Hc. cbn.
  unfold bare. by rewrite (proj2 (wireData_fix _ (proj2 (proj2 Hp))) Hm).
Qed.

Lemma plain_decode ts txs mx :
  Forall2 plain ts txs -> mapM SetTransactionToMx ts = Some mx ->
  Forall mx_whole mx /\ decodeTxs (Some <$> mx) = Ok (bare <$> txs).
Proof.
  intros Hall. revert mx. induction Hall as [|t tx ts txs Hp _ IH]; intros mx; cbn.
  { by intros [= <-]. }
  destruct (SetTransactionToMx t) as [m|] eqn:Em; cbn; [|done].
  destruct (mapM SetTransactionToMx ts) as [mx'|] eqn:El; cbn; [|done]. intros [= <-].
  destruct (IH _ eq_refl) as [Hw Hd]. split; [constructor; [by apply (pl_whole _ _ Hp)|done]|].
  cbn. by rewrite (plain_convert t tx m), Hd.
Qed.

Lemma plain_roundtrip `{BlockCodec} req txs data plains :
  codec_laws -> encodeVerifiedBlock (Some req) txs = Ok data ->
  Z.of_nat (length data) < 2 ^ 64 -> req_whole req -> Forall2 plain (GetTX txs) plains ->
  decodeVerifiedBlock data = Ok (req, bare <$> plains).
Proof.
  intros Hlaws He Hlen Hw Hp. destruct (decode_encode req txs data Hlaws He Hlen Hw) as (mx & Hm & Hd).
  destruct (plain_decode _ _ _ Hp Hm) as [Hmx Ht]. by rewrite Hd, Ht.
Qed.

(** What is stored of a verified block is read back: decoding the encoding
    of a request and its transactions, of any size a slice can have, gives the
    request and the data of the transactions of all its currencies, if they are
    normal transactions. *)
Theorem verified_block_roundtrip `{BlockCodec} req txs data plains :
  codec_laws -> encodeVerifiedBlock (Some req) txs = Ok data ->
  Z.of_nat (length data) < 2 ^ 64 -> req_whole req -> Forall2 plain (GetTX txs) plains ->
  decodeVerifiedBlock data = Ok (req, bare <$> plains).
Proof. apply plain_roundtrip. Qed.

(** A transaction of a type other than normal and broadcast: a revocable one, an
    entrustment, a new currency, a reward. *)
Definition special (t : Tx) : Prop :=
  exists tx, t = TxNormal tx /\ pooled tx /\
    tx_GetMatrixType tx <> ExtraNormalTxType /\ tx_GetMatrixType tx <> ExtraBroadTxType.

Lemma special_decode ts mx :
  Exists special ts -> mapM SetTransactionToMx ts = Some mx ->
  decodeTxs (Some <$> mx) = Err errMx.
Proof.
  revert mx. induction ts as [|t ts IH]; intros mx Hex; [by apply Exists_nil in Hex|]. cbn.
  destruct (SetTransactionToMx t) as [m|] eqn:Em; cbn; [|done].
  destruct (mapM SetTransactionToMx ts) as [mx'|] eqn:El; cbn; [|done]. intros [= <-]. cbn.
  destruct (SetMxToTransaction m) as [tx'|] eqn:Et; [|done].
  apply Exists_cons in Hex as [(tx & -> & Hp & Hn & Hb)|Hex]; [|by rewrite (IH _ Hex eq_refl)].
  destruct (mx_wire tx Hp) as (m' & Hm' & Hty & _). assert (m' = m) as -> by congruence.
  unfold SetMxToTransaction in Et. rewrite Hty in Et.
  destruct (Z.eqb_spec (tx_GetMatrixType tx) ExtraNormalTxType),
    (Z.eqb_spec (tx_GetMatrixType tx) ExtraBroadTxType); done.
Qed.

(** A block with a special transaction is stored but cannot be read back:
    if one of its transactions has a type other than normal and broadcast,
    decoding what was stored fails. *)
Theorem special_block_lost `{BlockCodec} req txs data :
  codec_laws -> encodeVerifiedBlock (Some req) txs = Ok data ->
  Z.of_nat (length data) < 2 ^ 64 -> req_whole req ->
  (forall t m, t ∈ GetTX txs -> SetTransactionToMx t = Some m -> mx_whole m) ->
  Exists special (GetTX txs) ->
  decodeVerifiedBlock data = Err errMx.
Proof.
  intros Hlaws He Hlen Hw Hall Hs. destruct (decode_encode req txs data Hlaws He Hlen Hw) as (mx & Hm & Hd).
  rewrite Hd; [by rewrite (special_decode _ _ Hs Hm)|]. apply Forall_forall. intros m Hin.
  apply mapM_Some_1 in Hm. apply list_elem_of_lookup_1 in Hin as [i Hi].
  destruct (Forall2_lookup_r _ _ _ _ _ Hm Hi) as (t & Ht & E). apply (Hall t); [|done].
  by eapply list_elem_of_lookup_2.
Qed.

(** ** The ring *)

Record ring_wf (vbi : VerifiedBlockIndex) : Prop := {
  rw_cap : 0 < viCapacity vbi < 256;
  rw_last : 0 <= viLast vbi < viCapacity vbi;
  rw_len : Z.of_nat (length (IndexRing vbi)) = viCapacity vbi
}.

(** The hash saved [k] saves before the last one. *)
Definition recent (vbi : VerifiedBlockIndex) (k : Z) : option Z :=
  IndexRing vbi !! Z.to_nat ((viLast vbi - k) mod viCapacity vbi).

Lemma new_ring_wf capacity : 0 < capacity < 256 -> ring_wf (newVerifiedBlockIndex capacity).
Proof.
  intros Hc. split; cbn [newVerifiedBlockIndex viCapacity viLast IndexRing]; [done| |].
  - rewrite u8_small; unfold is_u8; lia.
  - rewrite length_replicate. lia.
Qed.

(** Saving puts the hash in front of the recent ones and forgets the oldest. *)
Lemma saveBlock_recent vbi hash :
  ring_wf vbi ->
  exists vbi', saveBlock vbi hash = Ok (vbi', viLast vbi') /\ ring_wf vbi' /\
    viCapacity vbi' = viCapacity vbi /\
    IndexRing vbi' = <[Z.to_nat (viLast vbi') := hash]> (IndexRing vbi) /\
    recent vbi' 0 = Some hash /\
    forall k, 1 <= k < viCapacity vbi -> recent vbi' k = recent vbi (k - 1).
Proof.
  intros [Hc Hl Hlen]. unfold saveBlock. rewrite u8_small by (unfold is_u8; lia).
  rewrite go_umod_ok by lia. cbn [res_bind].
  set (last := (viLast vbi + 1) mod viCapacity vbi).
  assert (0 <= last < viCapacity vbi) by (apply Z.mod_pos_bound; lia).
  rewrite bool_decide_true by lia.
  exists (mkVBIndex last (viCapacity vbi) (<[Z.to_nat last := hash]> (IndexRing vbi))).
  split; [done|]. split; [|split; [done|split; [done|split]]].
  - split; cbn; rewrite ?length_insert; lia.
  - unfold recent. cbn. rewrite Z.sub_0_r, Z.mod_small by lia.
    apply list_lookup_insert_eq. lia.
  - intros k Hk. unfold recent. cbn [viLast viCapacity IndexRing].
    assert (Heq : (last - k) mod viCapacity vbi = (viLast vbi - (k - 1)) mod viCapacity vbi).
    { unfold last. rewrite Zminus_mod_idemp_l. f_equal. lia. }
    rewrite Heq, list_lookup_insert_ne; [done|]. intros Habs.
    assert (last = (viLast vbi - (k - 1)) mod viCapacity vbi) as Habs'.
    { pose proof (Z.mod_pos_bound (viLast vbi - (k - 1)) (viCapacity vbi)). lia. }
    rewrite <-Heq in Habs'. pose proof (Z.mod_pos_bound (last - k) (viCapacity vbi)).
    destruct (Z.le_gt_cases k last).
    + rewrite Z.mod_small in Habs' by lia. lia.
    + rewrite <-(Z_mod_plus_full (last - k) 1), Z.mod_small in Habs' by lia. lia.
Qed.

Fixpoint saveBlocks (vbi : VerifiedBlockIndex) (hashes : list Z) : eff VerifiedBlockIndex :=
  match hashes with
  | [] => Ok vbi
  | hash :: rest => let* (vbi, _) := saveBlock vbi hash in saveBlocks vbi rest
  end.

(** The index holds the last blocks saved: after any sequence of saves,
    the hash saved [k] saves before the last, for every [k] below the capacity,
    is the one [k] slots back in the ring, and it is found. *)
Theorem ring_keeps_last capacity hashes :
  0 < capacity < 256 ->
  exists vbi, saveBlocks (newVerifiedBlockIndex capacity) hashes = Ok vbi /\ ring_wf vbi /\
    forall k hash, Z.of_nat k < capacity -> reverse hashes !! k = Some hash ->
      recent vbi (Z.of_nat k) = Some hash /\
      (hash <> zero_hash -> exists pos, findBlockPos vbi hash = Some pos /\
         IndexRing vbi !! Z.to_nat pos = Some hash).
Proof.
  intros Hc.
  assert (Hgen : forall hashes vbi, ring_wf vbi -> viCapacity vbi = capacity ->
    exists vbi', saveBlocks vbi hashes = Ok vbi' /\ ring_wf vbi' /\ viCapacity vbi' = capacity /\
      (forall k hash, Z.of_nat k < capacity -> reverse hashes !! k = Some hash ->
         recent vbi' (Z.of_nat k) = Some hash) /\
      (forall k, Z.of_nat (length hashes) <= k < capacity ->
         recent vbi' k = recent vbi (k - Z.of_nat (length hashes)))).
  { clear hashes. induction hashes as [|h hashes IH]; intros vbi Hwf Hcap; cbn [saveBlocks].
    { exists vbi. split; [done|]. split; [done|]. split; [done|].
      split; [by intros [] ?|]. intros k _. by rewrite Z.sub_0_r. }
    destruct (saveBlock_recent vbi h Hwf) as (v1 & -> & Hwf1 & Hcap1 & _ & H0 & Hr). cbn [res_bind].
    destruct (IH v1 Hwf1) as (v2 & -> & Hwf2 & Hcap2 & Hnew & Hold); [lia|].
    exists v2. split; [done|]. split; [done|]. split; [done|]. split.
    - intros k x Hk. rewrite reverse_cons, lookup_app.
      destruct (reverse hashes !! k) as [y|] eqn:Ek; [intros [= <-]; by apply Hnew|].
      apply lookup_ge_None in Ek. rewrite length_reverse in *.
      destruct (k - length hashes)%nat as [|n] eqn:En; [|done]. intros [= <-].
      rewrite Hold by lia. by replace (Z.of_nat k - Z.of_nat (length hashes)) with 0 by lia.
    - intros k Hk. cbn [length] in *. rewrite Hold by lia. rewrite Hr by lia. f_equal. lia. }
  destruct (Hgen hashes _ (new_ring_wf capacity Hc) eq_refl) as (vbi & Hs & Hwf & Hcap & Hk & _).
  exists vbi. split; [done|]. split; [done|]. intros k hash Hlt Hh. split; [by apply Hk|]. intros Hz.
  specialize (Hk k hash Hlt Hh). unfold recent in Hk. apply list_elem_of_lookup_2 in Hk.
  unfold findBlockPos. destruct (Z.eqb_spec hash zero_hash); [done|].
  destruct (list_find_elem_of (fun val => val = hash) (IndexRing vbi) hash Hk eq_refl) as [[pos y] Hf].
  rewrite Hf. apply list_find_Some in Hf as (Hp & -> & _). exists (Z.of_nat pos).
  apply lookup_lt_Some in Hp as Hlt'. destruct Hwf as [Hc1 _ Hlen].
  rewrite u8_small by (unfold is_u8; lia). split; [done|]. by rewrite Nat2Z.id.
Qed.

(** ** Saving and reading *)

Section Database.
Context `{BlockCodec} `{HeaderHash} (Hlaws : codec_laws).

(** The stored data is what the node wrote. *)
Record db_ok (db : VDB) : Prop := {
  do_index : exists index, getVerifiedBlockIndex db = Ok index /\ ring_wf index;
  do_block : forall pos data, vdb_block db !! pos = Some data ->
    exists req txs h, decodeVerifiedBlock data = Ok (req, txs) /\ bqHeader req = Some h
}.

Lemma empty_db_ok : db_ok (mkVDB None ∅).
Proof using. split; [|done]. eexists. split; [done|]. by apply new_ring_wf. Qed.

Lemma readSlot_ok db pos hash : db_ok db -> exists o, readSlot db pos hash = Ok o.
Proof using.
  intros Hdb. unfold readSlot. case_match; [by eexists|].
  destruct (vdb_block db !! _) as [data|] eqn:Ed; [|by eexists].
  destruct (do_block _ Hdb _ _ Ed) as (req & txs & h & -> & ->).
  repeat case_match; by eexists.
Qed.

(** Reading gives the block of every slot that has one. *)
Lemma readSlots_ok db start ring :
  db_ok db ->
  exists blocks, readSlots db start ring = Ok blocks /\
    forall i hash b, ring !! i = Some hash -> readSlot db (start + i) hash = Ok (Some b) -> b ∈ blocks.
Proof using.
  intros Hdb. revert start. induction ring as [|h ring IH]; intros start; cbn [readSlots].
  { exists []. done. }
  destruct (readSlot_ok db start h Hdb) as [o Ho]. rewrite Ho. cbn [res_bind].
  destruct (IH (S start)) as (bs & -> & Hbs). cbn [res_bind]. eexists. split; [done|].
  intros [|i] hash b Hi Hr.
  - injection Hi as ->. rewrite Nat.add_0_r, Ho in Hr. injection Hr as ->. left.
  - cbn in Hi. assert (b ∈ bs) by (apply (Hbs i hash); [done|]; by rewrite Nat.add_succ_comm).
    destruct o; [by right|done].
Qed.

Lemma encode_header req txs data :
  encodeVerifiedBlock (Some req) txs = Ok data ->
  TxsCodeCount (bqTxsCode req) = Z.of_nat (length (GetTX txs)).
Proof using.
  unfold encodeVerifiedBlock. destruct (Z.eqb_spec (TxsCodeCount (bqTxsCode req)) (Z.of_nat (length (GetTX txs)))); done.
Qed.
End Database.

(** A saved block can be read again: on a database the node has written, saving a
    verified block either fails with an error or gives such a database again, from
    which reading returns the block with its request and, if they are normal ones,
    its transactions. *)
Theorem saved_block_recovered `{BlockCodec} `{HeaderHash} db hash req h txs plains :
  codec_laws -> db_ok db ->
  bqHeader req = Some h -> HashNoSignsAndNonce h = hash -> hash <> zero_hash ->
  req_whole req -> Forall2 plain (GetTX txs) plains ->
  (forall data, encodeVerifiedBlock (Some req) txs = Ok data -> Z.of_nat (length data) < 2 ^ 64) ->
  match saveVerifiedBlockToDB db hash (Some req) txs with
  | Ok db' => db_ok db' /\ exists blocks, readVerifiedBlocksFromDB db' = Ok blocks /\
      mkVerifiedBlock hash (Some req) (bare <$> plains) ∈ blocks
  | Err _ => True
  | Panic => False
  end.
Proof.
  intros Hlaws Hdb Hh Hhash Hz Hwhole Hplain Hsize. unfold saveVerifiedBlockToDB.
  destruct (encodeVerifiedBlock (Some req) txs) as [data| |] eqn:Ee; cbn [res_bind]; [|done|].
  2:{ unfold encodeVerifiedBlock in Ee. by repeat case_match. }
  pose proof (plain_roundtrip _ _ _ _ Hlaws Ee (Hsize _ eq_refl) Hwhole Hplain) as Hdec.
  destruct (do_index _ Hdb) as (index & -> & Hwf). cbn [res_bind].
  destruct (Z.eqb_spec (viCapacity index) 0) as [E|_]; [done|].
  destruct (saveBlock_recent index hash Hwf) as (v' & -> & Hwf' & Hcap & Hring & _ & _).
  destruct (json_index v') as [b|] eqn:Ej; [|done].
  set (db' := mkVDB _ _).
  assert (Hix : getVerifiedBlockIndex db' = Ok v').
  { unfold getVerifiedBlockIndex. cbn. by rewrite (index_rt Hlaws _ _ Ej). }
  assert (Hdb' : db_ok db').
  { split; [by exists v'|]. cbn. intros pos d. rewrite lookup_insert_Some.
    intros [[_ <-]|[_ Hd]]; [by exists req, (bare <$> plains), h|]. by apply (do_block _ Hdb) in Hd. }
  split; [done|]. unfold readVerifiedBlocksFromDB. rewrite Hix. cbn [res_bind].
  destruct (readSlots_ok db' 0 (IndexRing v') Hdb') as (blocks & -> & Hb).
  exists blocks. split; [done|]. destruct Hwf' as [Hc Hl Hlen].
  destruct Hwf as [_ _ Hlen0].
  apply (Hb (Z.to_nat (viLast v')) hash).
  - rewrite Hring. apply list_lookup_insert_eq. lia.
  - unfold readSlot. destruct (Z.eqb_spec hash zero_hash); [done|]. cbn [Nat.add].
    rewrite Z2Nat.id, u8_small by (unfold is_u8; lia). cbn [vdb_block db'].
    rewrite lookup_insert_eq, Hdec, Hh, Hhash, Z.eqb_refl. cbn [negb].
    by rewrite (encode_header _ _ _ Ee), (Forall2_length _ _ _ Hplain), length_fmap, Z.eqb_refl.
Qed.

(** The size check of the stored data can be passed by sizes whose sum
    wraps around: sixteen bytes that claim two parts of [2^63] bytes are not
    refused but panic. *)
Theorem oversized_block_panics `{BlockCodec} :
  decodeVerifiedBlock (encodeUint64 (2 ^ 63) ++ encodeUint64 (2 ^ 63)) = Panic.
Proof. vm_compute. reflexivity. Qed.

(** ** Recovered transactions *)

(** Two of the transactions have the same currency. *)
Definition repeated_currency (txs : list Tx) : Prop := ~ NoDup (GetTxCurrency <$> txs).

(** Fewer currency groups than transactions, unless no currency repeats. *)
Lemma GetCoinTX_length `{GoSort} txs :
  repeated_currency txs -> (length (GetCoinTX txs) < length txs)%nat.
Proof.
  intros Hd. rewrite GetCoinTX_eq, length_fmap.
  assert (Hsub : coins txs ⊆+ GetTxCurrency <$> txs).
  { apply NoDup_submseteq; [apply NoDup_coins|]. intros k [t [Ht <-]]%elem_of_coins%Exists_exists.
    by apply list_elem_of_fmap_2. }
  pose proof (submseteq_length _ _ Hsub) as Hlen. rewrite length_fmap in Hlen.
  destruct (decide (length (coins txs) = length txs)) as [E|]; [|lia]. destruct Hd.
  rewrite <- (submseteq_length_Permutation _ _ Hsub) by (rewrite length_fmap; lia). apply NoDup_coins.
Qed.

(** The transactions of a recovered block are fetched again and counted
    twice: a request that was recovered with all its transactions, two of them
    in one currency, is not executed but asks for the transactions, and once
    they arrive the block is executed with every transaction twice. *)
Theorem recovered_txs_twice `{GoRange} `{GoSort} `{HeaderHash} `{Secp256k1}
    ks dposMode restart cv p id r txs :
  p_state p = StateReqVerify -> curReq p = Ok (id, r) ->
  rdOriginalTxs r = GetCoinTX txs ->
  TxsCodeCount (rqTxsCode (rdReq r)) = Z.of_nat (length txs) ->
  repeated_currency txs ->
  exists p' p2 r2, startTxsVerify ks dposMode restart cv p = Ok p' /\
    p_out p' = p_out p ++ [OutAcquireTxs (rqTxsCode (rdReq r)) (p_seq p') (rqFrom (rdReq r))] /\
    StartVerifyTxsAndState ks dposMode cv p' (mkRetChan [txs] false (p_seq p')) =
      verifyTxsAndState ks dposMode (restartBC ks dposMode cv) cv p2 /\
    curReq p2 = Ok (id, r2) /\ rdReq r2 = rdReq r /\
    rdOriginalTxs r2 = GetCoinTX txs ++ GetCoinTX txs.
Proof.
  intros Hst Hcur Htxs Hcount Hdup. pose proof (GetCoinTX_length txs Hdup) as Hlen.
  destruct p as [ld nb rl st cu ca pl sq vs ms ps bh ou]. cbn in Hst. subst st.
  unfold curReq in Hcur. cbn in Hcur. destruct cu as [i|]; [|done].
  destruct (rcHeap ca !! i) as [r0|] eqn:Hr; [|done]. injection Hcur as -> ->.
  unfold startTxsVerify, StartVerifyTxsAndState, curReq.
  change (changeState (mkProcess ld nb rl StateReqVerify ?c ?a ?l ?q ?v ?m ?s ?h ?o) StateTxsVerify)
    with (mkProcess ld nb rl StateTxsVerify c a l q v m s h o).
  cbn. rewrite Hr. cbn [res_bind]. rewrite Htxs, Hcount. destruct (Z.eqb_spec (Z.of_nat (length txs)) 0); [lia|].
  destruct (Z.eqb_spec (Z.of_nat (length txs)) (Z.of_nat (length (GetCoinTX txs)))); [lia|].
  cbn [orb]. do 3 eexists. split; [done|]. split; [done|]. cbn. rewrite Z.eqb_refl, Hr. cbn.
  split; [done|]. cbn. rewrite list_lookup_alter_eq, Hr. cbn. by rewrite Htxs.
Qed.

(** Witnesses: encodings that number the things encoded. *)
Definition toy_saved (time : Z) (codes : list RetCallTxN) : HD_BlkConsensusReqMsg :=
  mkBlkReq (Some (mkHeader 1 6 0 100 time [] EmptyString [])) (mkTurn 0 0) codes [] 60.

Definition toy_mx (typ : Z) : Transaction_Mx :=
  default (mkMx (txData (sample_tx 0)) "" 0 0 []) (SetTransactionToMx (TxNormal (sample_tx typ))).

#[local] Instance toy_codec : BlockCodec := {|
  json_index i := Some (viLast i :: viCapacity i :: IndexRing i);
  unjson_index b := match b with l :: c :: r => Some (mkVBIndex l c r) | _ => None end;
  json_req r := match bqHeader r, bqTxsCode r with
                | Some h, [] => Some [hTime h]
                | Some h, [mkRetCallTxN typ [7]] => Some [hTime h; typ]
                | _, _ => None
                end;
  unjson_req b := match b with
                  | [time] => Some (toy_saved time [])
                  | [time; typ] => Some (toy_saved time [mkRetCallTxN typ [7]])
                  | _ => None
                  end;
  json_txs l := match l with
                | [] => Some []
                | [m] => if decide (m = toy_mx (TxType_Mx m)) then Some [TxType_Mx m] else None
                | _ => None
                end;
  unjson_txs b := match b with
                  | [] => Some []
                  | [typ] => Some [Some (toy_mx typ)]
                  | _ => None
                  end;
  req_whole r := exists time codes, r = toy_saved time codes
|}.

Lemma toy_codec_laws : codec_laws.
Proof.
  split; cbn.
  - intros [l c r] b [= <-]. done.
  - intros r b (time & codes & ->). cbn. repeat case_match; intros E; simplify_eq; done.
  - intros l b _. destruct l as [|m [|? ?]]; [by intros [= <-]| |done].
    case_decide as E; [|done]. intros [= <-]. by rewrite <- E.
Qed.

Lemma toy_mx_whole typ : mx_whole (toy_mx typ).
Proof.
  split; cbn; try (by eexists; split; [reflexivity|]).
  by repeat constructor.
Qed.

Lemma sample_pooled typ : pooled (sample_tx typ).
Proof. repeat split; discriminate. Qed.

Definition toy_block (typ : Z) : list CoinTxs := [mkCoinTxs MAN_COIN [TxNormal (sample_tx typ)]].

Lemma toy_plain : Forall2 plain (GetTX (toy_block 0)) [sample_tx 0].
Proof.
  constructor; [|constructor]. split; [done|apply sample_pooled|done|done|].
  intros m [= <-]. exact (toy_mx_whole 0).
Qed.

Lemma verified_block_roundtrip_witness :
  decodeVerifiedBlock [0; 0; 0; 0; 0; 0; 0; 2; 0; 0; 0; 0; 0; 0; 0; 1; 10; 0; 0] =
  Ok (toy_saved 10 [mkRetCallTxN 0 [7]], [TxNormal (sample_tx 0)]).
Proof.
  refine (verified_block_roundtrip (toy_saved 10 [mkRetCallTxN 0 [7]]) (toy_block 0) _ [sample_tx 0]
            toy_codec_laws _ _ _ toy_plain).
  - vm_compute. reflexivity.
  - vm_compute. reflexivity.
  - by do 2 eexists.
Defined.

Lemma special_block_lost_witness :
  decodeVerifiedBlock [0; 0; 0; 0; 0; 0; 0; 2; 0; 0; 0; 0; 0; 0; 0; 1; 10; 3; 3] = Err errMx.
Proof.
  refine (special_block_lost (toy_saved 10 [mkRetCallTxN 3 [7]]) (toy_block ExtraRevocable) _
            toy_codec_laws _ _ _ _ _).
  - vm_compute. reflexivity.
  - vm_compute. reflexivity.
  - by do 2 eexists.
  - intros t m ->%list_elem_of_singleton [= <-]. exact (toy_mx_whole ExtraRevocable).
  - constructor. exists (sample_tx ExtraRevocable).
    split; [done|]. split; [apply sample_pooled|]. by split.
Defined.

Lemma ring_keeps_last_witness :
  exists vbi, saveBlocks (newVerifiedBlockIndex 3) [11; 12; 13; 14] = Ok vbi /\ ring_wf vbi /\
    forall k hash, Z.of_nat k < 3 -> reverse [11; 12; 13; 14] !! k = Some hash ->
      recent vbi (Z.of_nat k) = Some hash /\
      (hash <> zero_hash -> exists pos, findBlockPos vbi hash = Some pos /\
         IndexRing vbi !! Z.to_nat pos = Some hash).
Proof. exact (ring_keeps_last 3 [11; 12; 13; 14] ltac:(lia)). Defined.

#[local] Instance toy_block_hash : HeaderHash :=
  {| header_Hash := hTime; HashNoSigns := hTime; HashNoSignsAndNonce := hTime |}.

Lemma saved_block_recovered_witness :
  match saveVerifiedBlockToDB (mkVDB None ∅) 10 (Some (toy_saved 10 [mkRetCallTxN 0 [7]])) (toy_block 0) with
  | Ok db' => db_ok db' /\ exists blocks, readVerifiedBlocksFromDB db' = Ok blocks /\
      mkVerifiedBlock 10 (Some (toy_saved 10 [mkRetCallTxN 0 [7]])) [TxNormal (sample_tx 0)] ∈ blocks
  | _ => False
  end.
Proof.
  pose proof (saved_block_recovered (mkVDB None ∅) 10 (toy_saved 10 [mkRetCallTxN 0 [7]]) _ (toy_block 0)
                [sample_tx 0] toy_codec_laws empty_db_ok eq_refl eq_refl ltac:(discriminate)
                (ex_intro _ _ (ex_intro _ _ eq_refl)) toy_plain) as Hw.
  destruct (saveVerifiedBlockToDB _ _ _ _) as [db| |] eqn:E; [|by vm_compute in E..].
  apply Hw. intros data Hd. vm_compute in Hd. injection Hd as <-. reflexivity.
Defined.

(** A block with two transactions of one currency, recovered and about to be
    verified. *)
#[local] Existing Instance toy_curve.
#[local] Existing Instance go_range_sorted_keys.

Definition twin_txs : list Tx := [TxNormal (sample_tx 0); TxNormal (sample_tx 0)].

Definition twin_block : verifiedBlock :=
  mkVerifiedBlock 10 (Some (toy_saved 10 [mkRetCallTxN 0 [7; 8]])) twin_txs.

Definition twin_cache : reqCache :=
  Eval vm_compute in
    match AddVerifiedBlock toy_view (newProcess 100) twin_block with
    | Ok p => p_cache p
    | _ => p_cache (newProcess 100)
    end.

Definition twin_process : Process :=
  mkProcess (toy_leader true) 100 RoleValidator StateReqVerify (Some 0%nat) twin_cache
    newUnverifiedVotePool 0 None None None [] [].

Definition twin_request : reqData :=
  Eval vm_compute in
    default (newReqData (mkReq (mkHeader 0 0 0 0 0 [] EmptyString []) (mkTurn 0 0) [] [] 0) false reqTypeUnknownReq)
      (rcHeap twin_cache !! 0%nat).

Lemma recovered_txs_twice_witness :
  exists p' p2 r2, startTxsVerify w_ks toy_mode Ok toy_view twin_process = Ok p' /\
    p_out p' = [OutAcquireTxs [mkRetCallTxN 0 [7; 8]] (p_seq p') 60] /\
    StartVerifyTxsAndState w_ks toy_mode toy_view p' (mkRetChan [twin_txs] false (p_seq p')) =
      verifyTxsAndState w_ks toy_mode (restartBC w_ks toy_mode toy_view) toy_view p2 /\
    curReq p2 = Ok (0%nat, r2) /\ rdReq r2 = rdReq twin_request /\
    rdOriginalTxs r2 = GetCoinTX twin_txs ++ GetCoinTX twin_txs.
Proof.
  refine (recovered_txs_twice w_ks toy_mode Ok toy_view twin_process 0 twin_request twin_txs
            eq_refl eq_refl _ eq_refl _).
  - vm_compute. reflexivity.
  - vm_compute. intros [Hn _]%NoDup_cons. apply Hn. left.
Defined.
