(* ===== verification/VerifyManage.v ===== *)
(** * The block verification service
    ([blkverify/process_manage.go], [blkverify/block_verify.go])

    The service keeps a process per height near the current one.  Its handlers
    run as goroutines: each takes the lock of the manager to find the process it
    is for, releases it, and then takes the lock of the process.  The model
    keeps the process objects in a heap, the map from heights to addresses, and
    the calls that have found their process but not locked it yet, so that the
    interleavings of the goroutines are the runs of a step relation. *)

From S2P Require Import GoLang Broadcast Roles Turns Topology Header CoinTx Reader.
From S2P Require Import Dpos Crypto SignHelper LeaderMsgs LeaderCal Cdc ReqCache VotePool.
From S2P Require Import VerifyProcess VerifySafety VerifiedBlocks Prelude.

(** [mc.RecoveryStateMsg] *)
Record RecoveryStateMsg := mkRecovery {
  rmType : Z;
  rmHeader : option Header
}.
Definition RecoveryTypePOS : Z := 0.

(** [pm_cells] are the [verifiedBlock] variables [pm_blocks] points to. *)
Record ProcessManage := mkPM {
  pm_chain : ChainState;
  pm_map : gmap Z nat;
  pm_procs : list Process;
  pm_blocks : gmap Z nat;
  pm_cells : list verifiedBlock;
  pm_db : VDB
}.

Definition NewProcessManage (db : VDB) : ProcessManage :=
  mkPM (mkChainState 0 0) ∅ [] ∅ [] db.

Definition pm_up_chain pm x := mkPM x (pm_map pm) (pm_procs pm) (pm_blocks pm) (pm_cells pm) (pm_db pm).
Definition pm_up_procs pm m l := mkPM (pm_chain pm) m l (pm_blocks pm) (pm_cells pm) (pm_db pm).
Definition pm_up_blocks pm m l := mkPM (pm_chain pm) (pm_map pm) (pm_procs pm) m l (pm_db pm).
Definition pm_up_db pm x := mkPM (pm_chain pm) (pm_map pm) (pm_procs pm) (pm_blocks pm) (pm_cells pm) x.

Definition getProcess (pm : ProcessManage) (number : Z) : ProcessManage * nat :=
  match pm_map pm !! number with
  | Some id => (pm, id)
  | None =>
      let id := length (pm_procs pm) in
      (pm_up_procs pm (<[number := id]> (pm_map pm)) (pm_procs pm ++ [newProcess number]), id)
  end.

Definition isLegalNumber (pm : ProcessManage) (number : Z) : bool :=
  negb (number <? curNumber (pm_chain pm)) &&
  negb (number >? u64 (curNumber (pm_chain pm) + 2)).

(** [None] when the height is refused. *)
Definition GetProcess (pm : ProcessManage) (number : Z) : option (ProcessManage * nat) :=
  if isLegalNumber pm number then Some (getProcess pm number) else None.

Definition GetCurrentProcess (pm : ProcessManage) : ProcessManage * nat :=
  getProcess pm (curNumber (pm_chain pm)).

Definition pm_AddVerifiedBlock (pm : ProcessManage) (addr : nat) : ProcessManage :=
  match pm_cells pm !! addr with
  | Some block =>
      match vbReq block with
      | None => pm
      | Some _ => pm_up_blocks pm (<[vbHash block := addr]> (pm_blocks pm)) (pm_cells pm)
      end
  | None => pm
  end.

Section Manage.
Context `{GoRange} `{GoSort} `{HeaderHash} `{Secp256k1} `{BlockCodec}.
Context (ks : KeyStore) (dposMode : string -> bool).

(** [process.Close()] of the entries of a range. *)
Definition closeAll (procs : list Process) (entries : list (Z * nat)) : list Process :=
  foldl (fun procs '(_, id) => alter Close id procs) procs entries.

Definition fixProcessMap (pm : ProcessManage) : ProcessManage :=
  let delKeys := filter (fun e => e.1 < curNumber (pm_chain pm)) (go_range (pm_map pm)) in
  pm_up_procs pm (foldl (fun m '(key, _) => delete key m) (pm_map pm) delKeys)
    (closeAll (pm_procs pm) delKeys).

Definition clearProcessMap (pm : ProcessManage) : ProcessManage :=
  pm_up_procs pm ∅ (closeAll (pm_procs pm) (go_range (pm_map pm))).

(** A handler of the process at [id]: it runs under the lock of the process.
    What it stores of verified blocks goes to the database; a failure to store
    is only logged. *)
Definition saveOuts (db : VDB) (outs : list Out) : eff VDB :=
  foldl (fun db o =>
           let* db := db in
           match o with
           | OutSaveVerified hash req txs =>
               match saveVerifiedBlockToDB db hash
                       (Some (mkBlkReq (Some (rqHeader req)) (rqTurn req) (rqTxsCode req)
                                (rqOnline req) (rqFrom req))) txs with
               | Ok db => Ok db
               | Err _ => Ok db
               | Panic => Panic
               end
           | _ => Ok db
           end)
        (Ok db) outs.

Definition callProcess (cv : ChainView) (e : Event) (pm : ProcessManage) (id : nat)
  : run ProcessManage :=
  match pm_procs pm !! id with
  | None => Panic
  | Some p =>
      let* p' := step ks dposMode cv e p in
      match saveOuts (pm_db pm) (drop (length (p_out p)) (p_out p')) with
      | Ok db => Ok (pm_up_db (pm_up_procs pm (pm_map pm) (<[id := p']> (pm_procs pm))) db)
      | Err e => match e with end
      | Panic => Panic
      end
  end.

(** The loop of [checkVerifiedBlocksCache]: the blocks of the current height go
    to its process, and they and older ones leave the map. *)
Fixpoint checkBlocksLoop (cv : ChainView) (cur : nat) (blocks : list (Z * nat))
    (pm : ProcessManage) (del : list Z) : run (ProcessManage * list Z) :=
  match blocks with
  | [] => Ok (pm, del)
  | (key, addr) :: rest =>
      match pm_cells pm !! addr with
      | None => Panic
      | Some block =>
          match vbReq block ≫= checkReq with
          | None => Panic
          | Some req =>
              let number := u64 (hNumber (rqHeader req)) in
              if number >? curNumber (pm_chain pm) then checkBlocksLoop cv cur rest pm del
              else
                let* pm := if number =? curNumber (pm_chain pm)
                           then callProcess cv (EvVerified block) pm cur else Ok pm in
                checkBlocksLoop cv cur rest pm (del ++ [key])
          end
      end
  end.

Definition checkVerifiedBlocksCache (cv : ChainView) (pm : ProcessManage) : run ProcessManage :=
  if bool_decide (pm_blocks pm = ∅) then Ok pm
  else
    let (pm, cur) := getProcess pm (curNumber (pm_chain pm)) in
    let* (pm, del) := checkBlocksLoop cv cur (go_range (pm_blocks pm)) pm [] in
    Ok (pm_up_blocks pm (foldl (fun m key => delete key m) (pm_blocks pm) del) (pm_cells pm)).

Definition SetCurNumber (cv : ChainView) (pm : ProcessManage) (number seq : Z)
  : run ProcessManage :=
  let c := chain_Cmp (pm_chain pm) seq number in
  if c =? 1 then Ok pm
  else
    let pm :=
      if c =? -1 then
        let pm := if superSeq (pm_chain pm) <? seq then clearProcessMap pm else pm in
        fixProcessMap (pm_up_chain pm (chain_Reset (pm_chain pm) seq number))
      else pm in
    checkVerifiedBlocksCache cv pm.

(** ** The messages of the service *)

Inductive Msg :=
| MRole (msg : option RoleUpdatedMsg)
| MLeader (msg : option LeaderChangeNotify)
| MReq (msg : option HD_BlkConsensusReqMsg)
| MLocal (msg : option LocalReq)
| MVote (msg : option HD_ConsensusVote) (now : Z)
| MRecovery (msg : option RecoveryStateMsg).

(** What a goroutine still has to do after it has released the manager. *)
Inductive Call :=
| CallStart (role : Z)
| CallProcess (id : nat) (e : Event).

(** A handler up to the call of the process. *)
Definition receive (cv : ChainView) (m : Msg) (pm : ProcessManage)
  : run (ProcessManage * option Call) :=
  let toProcess number e :=
    match GetProcess pm number with
    | None => Ok (pm, None)
    | Some (pm, id) => Ok (pm, Some (CallProcess id e))
    end in
  match m with
  | MRole None | MLeader None | MLocal None | MVote None _ | MRecovery None => Ok (pm, None)
  | MRole (Some msg) =>
      let* pm := SetCurNumber cv pm (u64 (ruBlockNum msg + 1)) (ruSuperSeq msg) in
      Ok (pm, if (ruRole msg =? RoleValidator) || (ruRole msg =? RoleBroadcast)
              then Some (CallStart (ruRole msg)) else None)
  | MLeader (Some msg) => toProcess (lcnNumber msg) (EvLeader msg)
  | MReq msg =>
      match msg ≫= checkReq with
      | None => Ok (pm, None)
      | Some req =>
          if hLeader (rqHeader req) =? zero_addr then Ok (pm, None)
          else toProcess (u64 (hNumber (rqHeader req))) (EvReq msg)
      end
  | MLocal (Some msg) =>
      match lrReq msg with
      | None => Ok (pm, None)
      | Some r =>
          match checkReq r with
          | None => Panic
          | Some req =>
              if hLeader (rqHeader req) =? zero_addr then Ok (pm, None)
              else toProcess (u64 (hNumber (rqHeader req))) (EvLocal msg)
          end
      end
  | MVote (Some msg) now =>
      toProcess (cvtNumber msg) (EvVote now (cvtSignHash msg) (cvtSign msg) (cvtFrom msg))
  | MRecovery (Some msg) =>
      match rmHeader msg with
      | None => Ok (pm, None)
      | Some header =>
          if negb (rmType msg =? RecoveryTypePOS) then Ok (pm, None)
          else
            let (pm, id) := GetCurrentProcess pm in
            match pm_procs pm !! id with
            | None => Panic
            | Some p =>
                if negb (p_number p =? u64 (hNumber header)) then Ok (pm, None)
                else Ok (pm, Some (CallProcess id (EvRecovery header)))
            end
      end
  end.

(** The rest of a handler. *)
Definition runCall (cv : ChainView) (c : Call) (pm : ProcessManage)
  : run (ProcessManage * option Call) :=
  match c with
  | CallStart role =>
      let (pm, id) := GetCurrentProcess pm in Ok (pm, Some (CallProcess id (EvStart role)))
  | CallProcess id e => let* pm := callProcess cv e pm id in Ok (pm, None)
  end.

(** [update] before its loop: the loop variable [block] is one variable, and
    every entry of the map points to it. *)
Definition reloadVerifiedBlocks (currentBlock : option Z) (pm : ProcessManage) : eff ProcessManage :=
  match readVerifiedBlocksFromDB (pm_db pm) with
  | Panic => Panic
  | Err _ => Ok pm
  | Ok [] => Ok pm
  | Ok (b0 :: bs) =>
      let curNumber := match currentBlock with Some n => u64 n | None => 0 end in
      let addr := length (pm_cells pm) in
      foldl (fun pm block =>
               let* pm := pm in
               let pm := pm_up_blocks pm (pm_blocks pm) (take addr (pm_cells pm) ++ [block]) in
               match vbReq block ≫= checkReq with
               | None => Panic
               | Some req =>
                   if u64 (hNumber (rqHeader req)) <=? curNumber then Ok pm
                   else Ok (pm_AddVerifiedBlock pm addr)
               end)
            (Ok pm) (b0 :: bs)
  end.
End Manage.

(** ** The invariant of the service *)

Definition db_index_ok `{BlockCodec} (db : VDB) : Prop :=
  exists index, getVerifiedBlockIndex db = Ok index /\ ring_wf index.

Section Invariant.
Context `{GoRange} `{GoSort} `{HeaderHash} `{Secp256k1} `{BlockCodec}.
Context (ks : KeyStore) (dposMode : string -> bool).
Context (V : ChainView -> Prop) (W : Z -> Z -> Prop) (D L : Z -> Prop).
Hypothesis hash_signs : hash_without_signs.
Hypothesis V_safe : forall cv, V cv -> view_safe cv.
Hypothesis index_law : forall i b, json_index i = Some b -> unjson_index b = Some i.

Definition proc_inv (p : Process) : Prop := PInv ks dposMode (p_number p) V W D L p.

(** A cached verified block has a request, and counts as recovered. *)
Definition cell_ok (b : verifiedBlock) : Prop :=
  exists req, vbReq b ≫= checkReq = Some req /\ D (HashNoSignsAndNonce (rqHeader req)).

(** The heights with a process are the current one and the next two, and every
    process, in the map or not, keeps the invariant of block verification. *)
Record PMInv (pm : ProcessManage) : Prop := {
  pv_procs : Forall proc_inv (pm_procs pm);
  pv_map : forall n id, pm_map pm !! n = Some id ->
    curNumber (pm_chain pm) <= n <= curNumber (pm_chain pm) + 2 /\
    exists p, pm_procs pm !! id = Some p /\ p_number p = n;
  pv_cells : forall key addr, pm_blocks pm !! key = Some addr ->
    exists b, pm_cells pm !! addr = Some b /\ cell_ok b;
  pv_db : db_index_ok (pm_db pm);
  pv_cur : 0 <= curNumber (pm_chain pm)
}.

Lemma new_PMInv db : db_index_ok db -> PMInv (NewProcessManage db).
Proof. intros Hdb. split; cbn; try done. Qed.

Lemma getProcess_inv pm number pm' id :
  PMInv pm -> curNumber (pm_chain pm) <= number <= curNumber (pm_chain pm) + 2 ->
  getProcess pm number = (pm', id) ->
  PMInv pm' /\ (exists p, pm_procs pm' !! id = Some p /\ p_number p = number) /\
  pm_chain pm' = pm_chain pm /\ pm_blocks pm' = pm_blocks pm /\ pm_cells pm' = pm_cells pm /\
  exists k, pm_procs pm' = pm_procs pm ++ k.
Proof.
  intros Hpm Hn. unfold getProcess. destruct (pm_map pm !! number) as [id0|] eqn:Em; intros [= <- <-].
  - split; [done|]. destruct (pv_map _ Hpm _ _ Em) as [_ Hp]. split; [done|]. do 3 (split; [done|]).
    exists []. by rewrite app_nil_r.
  - assert (Hnew : (pm_procs pm ++ [newProcess number]) !! length (pm_procs pm) = Some (newProcess number))
      by (by rewrite lookup_app_r, Nat.sub_diag by lia).
    split; [|split; [by eexists|do 3 (split; [done|]); by eexists]].
    split; cbn; try apply Hpm.
    + apply Forall_app. split; [apply Hpm|]. constructor; [|done]. apply new_PInv.
    + intros n id. rewrite lookup_insert_Some. intros [[<- <-]|[Hne Hid]].
      * split; [done|]. by eexists.
      * destruct (pv_map _ Hpm _ _ Hid) as [? (p & Hp & ?)]. split; [done|]. exists p.
        split; [by apply lookup_app_l_Some|done].
Qed.

Lemma isLegalNumber_range pm number :
  PMInv pm -> isLegalNumber pm number = true ->
  curNumber (pm_chain pm) <= number <= curNumber (pm_chain pm) + 2.
Proof.
  intros Hpm. unfold isLegalNumber. rewrite andb_true_iff, !negb_true_iff, Z.gtb_ltb, !Z.ltb_ge.
  pose proof (pv_cur _ Hpm). intros [? Hu]. split; [done|]. etrans; [exact Hu|].
  unfold u64. apply Z.mod_le; lia.
Qed.

Lemma saveBlock_db_index db hash req txs db' :
  db_index_ok db -> saveVerifiedBlockToDB db hash req txs = Ok db' -> db_index_ok db'.
Proof using index_law.
  intros (index & Hi & Hwf) Hs. unfold saveVerifiedBlockToDB in Hs.
  apply res_bind_Ok in Hs as (data & _ & Hs). rewrite Hi in Hs. cbn [res_bind] in Hs.
  case_match; [done|]. destruct (saveBlock_recent index hash Hwf) as (v' & Hsave & Hwf' & _).
  rewrite Hsave in Hs. destruct (json_index v') as [b|] eqn:Ej; [|done]. injection Hs as <-.
  exists v'. split; [|done]. unfold getVerifiedBlockIndex. cbn. by rewrite (index_law _ _ Ej).
Qed.

Lemma save_no_panic db hash req txs :
  db_index_ok db -> saveVerifiedBlockToDB db hash req txs <> Panic.
Proof.
  intros (index & Hi & Hwf) Hs. unfold saveVerifiedBlockToDB in Hs.
  destruct (encodeVerifiedBlock req txs) as [data| |] eqn:Ee; [|done|].
  - rewrite Hi in Hs. cbn [res_bind] in Hs. case_match; [done|].
    destruct (saveBlock_recent index hash Hwf) as (v' & Hsave & _). rewrite Hsave in Hs. by case_match.
  - unfold encodeVerifiedBlock in Ee. by repeat case_match.
Qed.

Lemma saveOuts_ok db outs :
  db_index_ok db -> exists db', saveOuts db outs = Ok db' /\ db_index_ok db'.
Proof using index_law.
  intros Hdb. unfold saveOuts. induction outs as [|o outs IH] using rev_ind; [by exists db|].
  destruct IH as (d & Hd & Hok). rewrite foldl_app, Hd. cbn [foldl res_bind].
  destruct o; try (by exists d).
  match goal with |- context [saveVerifiedBlockToDB d hash ?r txs] =>
    pose proof (save_no_panic d hash r txs Hok) as Hnp;
    destruct (saveVerifiedBlockToDB d hash r txs) as [d'| |] eqn:Es end; [|by exists d|done].
  exists d'. split; [done|]. by eapply saveBlock_db_index.
Qed.

Lemma callProcess_inv cv e pm id p :
  V cv -> event_in W D L e -> PMInv pm -> pm_procs pm !! id = Some p ->
  exists pm', callProcess ks dposMode cv e pm id = Ok pm' /\ PMInv pm' /\
    pm_chain pm' = pm_chain pm /\ pm_map pm' = pm_map pm /\ pm_blocks pm' = pm_blocks pm /\
    pm_cells pm' = pm_cells pm /\ length (pm_procs pm') = length (pm_procs pm).
Proof using hash_signs V_safe index_law.
  intros Hcv He Hpm Hp. unfold callProcess. rewrite Hp.
  pose proof (Forall_lookup_1 _ _ _ _ (pv_procs _ Hpm) Hp) as Hinv.
  destruct (process_step_inv ks dposMode (p_number p) V W D L hash_signs V_safe cv e p Hcv He Hinv)
    as (p' & -> & Hp'). cbn [res_bind].
  destruct (saveOuts_ok (pm_db pm) (drop (length (p_out p)) (p_out p')) (pv_db _ Hpm)) as (db & -> & Hdb).
  eexists. split; [done|]. pose proof (pi_num _ _ _ _ _ _ _ _ Hp') as Hnum. split.
  - split; cbn; try apply Hpm; [|intros n id' Hid|done].
    + apply Forall_insert; [apply Hpm|]. unfold proc_inv. by rewrite Hnum.
    + destruct (pv_map _ Hpm _ _ Hid) as [Hr (q & Hq & Hn)]. split; [done|].
      destruct (decide (id' = id)) as [->|Hne].
      * exists p'. split; [|congruence]. apply list_lookup_insert_eq. by eapply lookup_lt_Some.
      * exists q. by rewrite list_lookup_insert_ne.
  - cbn. rewrite length_insert. done.
Qed.

Lemma closeAll_inv procs entries :
  Forall proc_inv procs -> Forall proc_inv (closeAll procs entries).
Proof.
  unfold closeAll. revert procs. induction entries as [|[k id] entries IH]; intros procs Hp; cbn; [done|].
  apply IH, Forall_alter; [done|]. intros p _. unfold proc_inv.
  change (p_number (Close p)) with (p_number p). apply Close_inv.
Qed.

Lemma length_closeAll procs entries : length (closeAll procs entries) = length procs.
Proof.
  unfold closeAll. revert procs. induction entries as [|[k id] entries IH]; intros procs; cbn; [done|].
  by rewrite IH, length_alter.
Qed.

Lemma closeAll_lookup procs entries id p :
  procs !! id = Some p -> exists p', closeAll procs entries !! id = Some p' /\ p_number p' = p_number p.
Proof.
  unfold closeAll. revert procs p. induction entries as [|[k j] entries IH]; intros procs p Hp; cbn.
  { by exists p. }
  destruct (IH (alter Close j procs) (if decide (j = id) then Close p else p)) as (p' & Hp' & Hn).
  { rewrite list_lookup_alter. case_decide; [subst|]; by rewrite Hp. }
  exists p'. split; [done|]. by case_decide.
Qed.

(** Dropping the heights below [number]. *)
Lemma fixProcessMap_inv pm seq number :
  PMInv pm -> 0 <= number ->
  (forall n id, pm_map pm !! n = Some id -> n <= number + 2) ->
  PMInv (fixProcessMap (pm_up_chain pm (chain_Reset (pm_chain pm) seq number))).
Proof.
  intros Hpm Hnum Hup. split; cbn; try apply Hpm; try done.
  - apply closeAll_inv, Hpm.
  - intros n id Hn. apply delete_keys_lookup in Hn as [Hn Hin].
    destruct (pv_map _ Hpm _ _ Hn) as [_ (p & Hp & Hpn)]. split.
    + split; [|by eapply Hup]. destruct (Z.le_gt_cases number n) as [|Hlt]; [done|].
      destruct Hin. apply list_elem_of_fmap. exists (n, id). split; [done|].
      apply list_elem_of_filter. split; [exact Hlt|]. by apply elem_of_go_range.
    + destruct (closeAll_lookup (pm_procs pm)
        (filter (fun e => e.1 < number) (go_range (pm_map pm))) id p Hp) as (p' & Hp' & Hn').
      exists p'. split; [done|congruence].
Qed.

Lemma clearProcessMap_inv pm : PMInv pm -> PMInv (clearProcessMap pm).
Proof. intros Hpm. split; cbn; try apply Hpm; try done. apply closeAll_inv, Hpm. Qed.

Lemma checkBlocksLoop_inv cv cur blocks pm del p :
  V cv -> PMInv pm -> pm_procs pm !! cur = Some p ->
  Forall (fun x => exists b, pm_cells pm !! x.2 = Some b /\ cell_ok b) blocks ->
  exists pm' del', checkBlocksLoop ks dposMode cv cur blocks pm del = Ok (pm', del') /\ PMInv pm' /\
    length (pm_procs pm') = length (pm_procs pm).
Proof using hash_signs V_safe index_law.
  intros Hcv. revert pm del p. induction blocks as [|[key addr] blocks IH];
    intros pm del p Hpm Hp Hall; cbn [checkBlocksLoop].
  { by exists pm, del. }
  apply Forall_cons in Hall as [(b & Hb & req & Hreq & HD) Hall]. cbn in Hb.
  rewrite Hb, Hreq. case_match; [by eapply IH|]. case_match.
  - destruct (callProcess_inv cv (EvVerified b) pm cur p Hcv) as (pm1 & -> & Hpm1 & _ & _ & _ & Hc & Hlen);
      [|done|done|].
    { cbn. intros req' Hreq'. by assert (req' = req) as -> by congruence. }
    cbn [res_bind]. destruct (lookup_lt_is_Some_2 (pm_procs pm1) cur) as [p1 Hp1].
    { rewrite Hlen. by eapply lookup_lt_Some. }
    destruct (IH pm1 (del ++ [key]) p1 Hpm1 Hp1) as (pm' & del' & -> & ? & Hl'); [by rewrite Hc|].
    exists pm', del'. split; [done|]. split; [done|]. congruence.
  - by eapply IH.
Qed.

Lemma delete_list_lookup (del : list Z) (m : gmap Z nat) n id :
  foldl (fun m key => delete key m) m del !! n = Some id -> m !! n = Some id.
Proof.
  revert m. induction del as [|k del IH]; intros m Hn; cbn in *; [done|].
  apply IH in Hn. by apply lookup_delete_Some in Hn as [_ ?].
Qed.

Lemma checkVerifiedBlocksCache_inv cv pm :
  V cv -> PMInv pm ->
  exists pm', checkVerifiedBlocksCache ks dposMode cv pm = Ok pm' /\ PMInv pm' /\
    (length (pm_procs pm) <= length (pm_procs pm'))%nat.
Proof using hash_signs V_safe index_law.
  intros Hcv Hpm. unfold checkVerifiedBlocksCache. case_bool_decide; [by exists pm|].
  destruct (getProcess pm (curNumber (pm_chain pm))) as [pm1 cur] eqn:Eg.
  destruct (getProcess_inv pm (curNumber (pm_chain pm)) pm1 cur Hpm ltac:(lia) Eg) as (Hpm1 & (p & Hp & _) & _ & _ & _ & l & Hl).
  destruct (checkBlocksLoop_inv cv cur (go_range (pm_blocks pm1)) pm1 [] p Hcv Hpm1 Hp)
    as (pm2 & del & -> & Hpm2 & Hlen).
  { apply Forall_forall. intros [key addr] Hin%elem_of_go_range. by apply (pv_cells _ Hpm1 key). }
  cbn [res_bind]. eexists. split; [done|]. split; [|cbn; rewrite Hlen, Hl, length_app; lia].
  split; cbn; try apply Hpm2. intros key addr Hk%delete_list_lookup. by apply (pv_cells _ Hpm2 key).
Qed.

Lemma SetCurNumber_inv cv pm number seq :
  V cv -> PMInv pm -> 0 <= number ->
  exists pm', SetCurNumber ks dposMode cv pm number seq = Ok pm' /\ PMInv pm' /\
    (length (pm_procs pm) <= length (pm_procs pm'))%nat.
Proof using hash_signs V_safe index_law.
  intros Hcv Hpm Hnum. unfold SetCurNumber. cbv zeta.
  destruct (Z.eqb_spec (chain_Cmp (pm_chain pm) seq number) 1); [by exists pm|].
  set (pm1 := if _ =? -1 then _ else _).
  assert (PMInv pm1 /\ length (pm_procs pm1) = length (pm_procs pm)) as [Hpm1 <-];
    [|by apply checkVerifiedBlocksCache_inv].
  subst pm1. destruct (Z.eqb_spec (chain_Cmp (pm_chain pm) seq number) (-1)) as [Hc|]; [|done].
  destruct (Z.ltb_spec (superSeq (pm_chain pm)) seq) as [Hs|Hs].
  - split; [|cbn; by rewrite !length_closeAll].
    apply (fixProcessMap_inv (clearProcessMap pm)); [by apply clearProcessMap_inv|done|].
    cbn. intros k id Hk. by rewrite lookup_empty in Hk.
  - split; [|cbn; by rewrite length_closeAll].
    apply fixProcessMap_inv; [done..|]. intros k id Hk. destruct (pv_map _ Hpm _ _ Hk) as [Hr _].
    unfold chain_Cmp in Hc. repeat case_match; try lia.
Qed.

(** ** Interleavings *)

(** What a message brings into the run. *)
Definition msg_in (m : Msg) : Prop :=
  match m with
  | MLeader (Some info) => event_in W D L (EvLeader info)
  | MLocal (Some l) => lrReq l = None \/ event_in W D L (EvLocal l)
  | _ => True
  end.

(** A goroutine that has its process. *)
Definition call_ok (pm : ProcessManage) (c : Call) : Prop :=
  match c with
  | CallStart _ => True
  | CallProcess id e => is_Some (pm_procs pm !! id) /\ event_in W D L e
  end.

(** A handler returns; the invariant holds, no process disappears, and what is
    left of it has its process. *)
Definition goes_on (pm : ProcessManage) (r : run (ProcessManage * option Call)) : Prop :=
  exists pm' c, r = Ok (pm', c) /\ PMInv pm' /\
    (length (pm_procs pm) <= length (pm_procs pm'))%nat /\ forall x, c = Some x -> call_ok pm' x.

Lemma goes_on_stop pm : PMInv pm -> goes_on pm (Ok (pm, None)).
Proof. intros. by exists pm, None. Qed.

Lemma goes_on_process pm number e :
  PMInv pm -> event_in W D L e ->
  goes_on pm (match GetProcess pm number with
              | None => Ok (pm, None)
              | Some (pm, id) => Ok (pm, Some (CallProcess id e))
              end).
Proof.
  intros Hpm He. unfold GetProcess. destruct (isLegalNumber pm number) eqn:El; [|by apply goes_on_stop].
  destruct (getProcess pm number) as [pm1 id] eqn:Eg. apply isLegalNumber_range in El; [|done].
  destruct (getProcess_inv _ _ _ _ Hpm El Eg) as (Hpm1 & (p & Hp & _) & _ & _ & _ & k & Hk).
  exists pm1, (Some (CallProcess id e)). split; [done|]. split; [done|].
  split; [rewrite Hk, length_app; lia|]. intros x [= <-]. split; [by eexists|done].
Qed.

Lemma goes_on_current pm (k : ProcessManage -> nat -> run (ProcessManage * option Call)) :
  PMInv pm ->
  (forall pm' id p, PMInv pm' -> pm_procs pm' !! id = Some p -> goes_on pm' (k pm' id)) ->
  goes_on pm (let (pm, id) := GetCurrentProcess pm in k pm id).
Proof.
  intros Hpm Hk. unfold GetCurrentProcess.
  destruct (getProcess pm (curNumber (pm_chain pm))) as [pm1 id] eqn:Eg.
  destruct (getProcess_inv pm (curNumber (pm_chain pm)) pm1 id Hpm ltac:(lia) Eg)
    as (Hpm1 & (p & Hp & _) & _ & _ & _ & l & Hl).
  destruct (Hk pm1 id p Hpm1 Hp) as (pm' & c & ? & ? & Hlen & ?).
  exists pm', c. do 2 (split; [done|]). split; [|done]. rewrite Hl, length_app in Hlen. lia.
Qed.

Lemma goes_on_call pm id e p :
  PMInv pm -> pm_procs pm !! id = Some p -> event_in W D L e ->
  goes_on pm (Ok (pm, Some (CallProcess id e))).
Proof. intros. exists pm, (Some (CallProcess id e)). do 3 (split; [done|]). by intros x [= <-]. Qed.

Lemma receive_inv cv m pm :
  V cv -> msg_in m -> PMInv pm -> goes_on pm (receive ks dposMode cv m pm).
Proof using hash_signs V_safe index_law.
  intros Hcv Hm Hpm. pose proof (goes_on_stop pm Hpm) as Hno.
  destruct m as [[msg|]|[msg|]|msg|[msg|]|[msg|] now|[msg|]]; cbn [receive]; try exact Hno.
  - destruct (SetCurNumber_inv cv pm (u64 (ruBlockNum msg + 1)) (ruSuperSeq msg) Hcv Hpm)
      as (pm' & -> & Hpm' & Hlen); [apply Z.mod_pos_bound; lia|].
    cbn [res_bind]. case_match; exists pm'; eexists; do 3 (split; [done|]); by intros x [= <-].
  - by apply goes_on_process.
  - destruct (msg ≫= checkReq) as [req|]; [|done]. case_match; [done|]. by apply goes_on_process.
  - destruct Hm as [->|He]; [done|]. destruct (lrReq msg) as [r|] eqn:Er; [|done].
    pose proof He as (req & Hreq & _). rewrite Er in Hreq. cbn in Hreq. rewrite Hreq.
    case_match; [done|]. by apply goes_on_process.
  - by apply goes_on_process.
  - destruct (rmHeader msg) as [header|]; [|done]. case_match; [done|].
    apply (goes_on_current pm (fun pm id => match pm_procs pm !! id with
      | None => Panic
      | Some p => if negb (p_number p =? u64 (hNumber header)) then Ok (pm, None)
                  else Ok (pm, Some (CallProcess id (EvRecovery header))) end) Hpm).
    intros pm' id p Hpm' Hp. rewrite Hp. case_match; [by apply goes_on_stop|].
    by eapply goes_on_call.
Qed.

Lemma runCall_inv cv c pm :
  V cv -> call_ok pm c -> PMInv pm -> goes_on pm (runCall ks dposMode cv c pm).
Proof using hash_signs V_safe index_law.
  intros Hcv Hc Hpm. destruct c as [role|id e]; cbn [runCall].
  - apply (goes_on_current pm (fun pm id => Ok (pm, Some (CallProcess id (EvStart role)))) Hpm).
    intros pm' id p Hpm' Hp. by eapply goes_on_call.
  - destruct Hc as [[p Hp] He].
    destruct (callProcess_inv cv e pm id p Hcv He Hpm Hp) as (pm' & -> & Hpm' & _ & _ & _ & _ & Hlen).
    exists pm', None. cbn [res_bind]. do 2 (split; [done|]). split; [lia|done].
Qed.

Lemma call_ok_mono pm pm' c :
  (length (pm_procs pm) <= length (pm_procs pm'))%nat -> call_ok pm c -> call_ok pm' c.
Proof.
  intros Hlen. destruct c as [role|id e]; [done|]. intros [Hp He]. split; [|done].
  apply lookup_lt_is_Some. apply lookup_lt_is_Some in Hp. lia.
Qed.

Record Sys := mkSys {
  s_pm : ProcessManage;
  s_calls : list Call
}.

(** The goroutines a process starts for its transactions. *)
Definition async (e : Event) : Prop :=
  match e with EvTimeout _ | EvTxs _ => True | _ => False end.

(** A message is handled up to its process; a waiting call runs; a goroutine of
    a process calls it, whether it is still in the map or not; the service
    stops. *)
Inductive sys_step : Sys -> Sys -> Prop :=
| sy_receive cv m pm calls pm' c :
    V cv -> msg_in m -> receive ks dposMode cv m pm = Ok (pm', c) ->
    sys_step (mkSys pm calls) (mkSys pm' (calls ++ option_list c))
| sy_call cv c pm l r pm' c' :
    V cv -> runCall ks dposMode cv c pm = Ok (pm', c') ->
    sys_step (mkSys pm (l ++ c :: r)) (mkSys pm' (l ++ option_list c' ++ r))
| sy_async cv id e pm calls pm' :
    V cv -> async e -> callProcess ks dposMode cv e pm id = Ok pm' ->
    sys_step (mkSys pm calls) (mkSys pm' calls)
| sy_quit pm calls :
    sys_step (mkSys pm calls) (mkSys (clearProcessMap pm) calls).

Record SysInv (s : Sys) : Prop := {
  sv_pm : PMInv (s_pm s);
  sv_calls : Forall (call_ok (s_pm s)) (s_calls s)
}.

Lemma Forall_option_list {A} (P : A -> Prop) (o : option A) :
  (forall x, o = Some x -> P x) -> Forall P (option_list o).
Proof. intros Ho. destruct o; cbn; [|done]. constructor; [by apply Ho|done]. Qed.

Lemma service_step_inv s s' : SysInv s -> sys_step s s' -> SysInv s'.
Proof using hash_signs V_safe index_law.
  intros [Hpm Hcalls] Hstep. destruct Hstep as
    [cv m pm calls pm' c Hcv Hm Hr|cv c pm l r pm' c' Hcv Hr|cv id e pm calls pm' Hcv He Hr|pm calls];
    cbn in *.
  - destruct (receive_inv cv m pm Hcv Hm Hpm) as (pm1 & c1 & Hr1 & Hpm1 & Hlen & Hc).
    rewrite Hr in Hr1. injection Hr1 as <- <-. split; [done|]. cbn. apply Forall_app. split.
    + eapply Forall_impl; [exact Hcalls|]. intros x. by apply call_ok_mono.
    + by apply Forall_option_list.
  - apply Forall_app in Hcalls as [Hl Hcr]. apply Forall_cons in Hcr as [Hc Hcr].
    destruct (runCall_inv cv c pm Hcv Hc Hpm) as (pm1 & c1 & Hr1 & Hpm1 & Hlen & Hc1).
    rewrite Hr in Hr1. injection Hr1 as <- <-. split; [done|]. cbn.
    apply Forall_app. split; [|apply Forall_app; split; [by apply Forall_option_list|]].
    + eapply Forall_impl; [exact Hl|]. intros x. by apply call_ok_mono.
    + eapply Forall_impl; [exact Hcr|]. intros x. by apply call_ok_mono.
  - destruct (pm_procs pm !! id) as [p|] eqn:Hp.
    + destruct (callProcess_inv cv e pm id p Hcv) as (pm1 & Hr1 & Hpm1 & _ & _ & _ & _ & Hlen);
        [by destruct e|done|done|]. rewrite Hr in Hr1. injection Hr1 as <-. split; [done|]. cbn.
      eapply Forall_impl; [exact Hcalls|]. intros x. apply call_ok_mono. lia.
    + unfold callProcess in Hr. by rewrite Hp in Hr.
  - split; [by apply clearProcessMap_inv|]. eapply Forall_impl; [exact Hcalls|].
    intros x. apply call_ok_mono. cbn. by rewrite length_closeAll.
Qed.

Lemma rtc_sys_inv s s' : SysInv s -> rtc sys_step s s' -> SysInv s'.
Proof using hash_signs V_safe index_law.
  intros Hs Hrtc. induction Hrtc as [|s s1 s2 Hst _ IH]; [done|]. by eapply IH, service_step_inv.
Qed.

(** At most three heights have a process. *)
Lemma PMInv_size pm : PMInv pm -> (size (pm_map pm) <= 3)%nat.
Proof.
  intros Hpm. rewrite <- size_dom. set (n := curNumber (pm_chain pm)).
  transitivity (size (list_to_set [n; n + 1; n + 2] : gset Z)).
  - apply subseteq_size. intros k [id Hk]%elem_of_dom. destruct (pv_map _ Hpm _ _ Hk) as [Hr _].
    fold n in Hr. rewrite elem_of_list_to_set, !elem_of_cons. lia.
  - rewrite size_list_to_set; [done|]. repeat constructor; rewrite ?elem_of_cons, ?elem_of_nil; lia.
Qed.

(** ** Starting up *)

(** The variable of the loop holds the blocks one after the other. *)
Lemma reload_loop cur pm0 blocks :
  Forall cell_ok blocks ->
  PMInv pm0 ->
  exists pm, foldl (fun pm block =>
      let* pm := pm in
      let pm := pm_up_blocks pm (pm_blocks pm) (take (length (pm_cells pm0)) (pm_cells pm) ++ [block]) in
      match vbReq block ≫= checkReq with
      | None => Panic
      | Some req =>
          if u64 (hNumber (rqHeader req)) <=? cur then Ok pm
          else Ok (pm_AddVerifiedBlock pm (length (pm_cells pm0)))
      end) (Ok pm0) blocks = Ok (E := Empty_set) pm /\
    PMInv pm /\ pm_procs pm = pm_procs pm0 /\ pm_chain pm = pm_chain pm0 /\
    pm_cells pm = pm_cells pm0 ++ option_list (last blocks).
Proof.
  intros Hall Hpm0. induction blocks as [|b blocks IH] using rev_ind.
  { exists pm0. by rewrite app_nil_r. }
  apply Forall_app in Hall as [Hall Hb]. apply Forall_singleton in Hb as (req & Hreq & HD).
  destruct (IH Hall) as (pm & Hf & Hpm & Hp & Hch & Hc). rewrite foldl_app, Hf. cbn [foldl res_bind].
  rewrite Hreq, Hc, take_app_length. rewrite last_snoc. cbn [option_list].
  set (addr := length (pm_cells pm0)).
  assert (Hcell : exists b0, (pm_cells pm0 ++ [b]) !! addr = Some b0 /\ cell_ok b0).
  { exists b. split; [|by exists req]. unfold addr. by rewrite lookup_app_r, Nat.sub_diag. }
  assert (Hblocks : forall key a, pm_blocks pm !! key = Some a ->
            exists b0, (pm_cells pm0 ++ [b]) !! a = Some b0 /\ cell_ok b0).
  { intros key a Hk. destruct (pv_cells _ Hpm _ _ Hk) as (b0 & Hb0 & Hok). rewrite Hc in Hb0.
    destruct (decide (a < addr)%nat) as [Hlt|Hge].
    - exists b0. split; [|done]. rewrite lookup_app_l by done. by rewrite lookup_app_l in Hb0.
    - apply lookup_lt_Some in Hb0. rewrite length_app in Hb0. fold addr in Hb0.
      assert (a = addr) as ->; [|done]. destruct (last blocks); cbn in Hb0; lia. }
  assert (Hup : PMInv (pm_up_blocks pm (pm_blocks pm) (pm_cells pm0 ++ [b]))) by (split; cbn; try apply Hpm; done).
  destruct (_ <=? cur); [by eexists|]. unfold pm_AddVerifiedBlock. cbn [pm_cells pm_up_blocks].
  destruct Hcell as (b0 & Hb0 & Hok). rewrite Hb0. eexists. split; [done|]. case_match; [|done].
  split; [|done]. split; cbn; try apply Hpm.
  intros key a. rewrite lookup_insert_Some. intros [[_ <-]|[_ Hk]]; [by exists b0|by apply (Hblocks key)].
Qed.

Lemma readSlots_cells db pos ring blocks :
  readSlots db pos ring = Ok blocks ->
  Forall (fun b => exists req h, vbReq b = Some req /\ bqHeader req = Some h /\
                   HashNoSignsAndNonce h = vbHash b) blocks.
Proof.
  revert pos blocks. induction ring as [|hash ring IH]; intros pos blocks; cbn [readSlots].
  { by intros [= <-]. }
  intros (o & Ho & Hr)%res_bind_Ok. apply res_bind_Ok in Hr as (bs & Hbs & Hr).
  specialize (IH _ _ Hbs). destruct o as [b|]; injection Hr as <-; [|done]. constructor; [|done].
  unfold readSlot in Ho. case_match; [done|]. case_match; [|done].
  destruct (decodeVerifiedBlock _) as [[req txs]| |]; [|done..].
  destruct (bqHeader req) as [h|] eqn:Eh; [|done].
  destruct (Z.eqb_spec (HashNoSignsAndNonce h) hash); cbn in Ho; [|done].
  case_match; [done|]. injection Ho as <-. by exists req, h.
Qed.

(** The hashes of the blocks in the database. *)
Definition stored (db : VDB) (hash : Z) : Prop :=
  exists blocks b, readVerifiedBlocksFromDB db = Ok blocks /\ b ∈ blocks /\ vbHash b = hash.

Lemma read_cells db blocks :
  readVerifiedBlocksFromDB db = Ok blocks -> (forall hash, stored db hash -> D hash) ->
  Forall cell_ok blocks.
Proof.
  intros Er HD. pose proof Er as Er'. unfold readVerifiedBlocksFromDB in Er'.
  apply res_bind_Ok in Er' as (index & _ & Hs). destruct (readSlots _ _ _) as [bs| |] eqn:Es; [|done..].
  injection Hs as ->. pose proof (readSlots_cells _ _ _ _ Es) as Hb. rewrite Forall_forall in Hb.
  apply Forall_forall. intros b Hin. destruct (Hb b Hin) as (req & h & Hreq & Hh & Hhash).
  eexists. rewrite Hreq. cbn. unfold checkReq. rewrite Hh. split; [done|]. cbn. rewrite Hhash.
  apply HD. by exists blocks, b.
Qed.

Lemma reload_inv currentBlock db :
  db_ok db -> (forall hash, stored db hash -> D hash) ->
  exists pm blocks, reloadVerifiedBlocks currentBlock (NewProcessManage db) = Ok pm /\ PMInv pm /\
    readVerifiedBlocksFromDB db = Ok blocks /\ pm_cells pm = option_list (last blocks).
Proof.
  intros Hdb HD. unfold reloadVerifiedBlocks. cbn [pm_db NewProcessManage pm_cells].
  assert (Hnew : PMInv (NewProcessManage db)) by apply new_PMInv, (do_index _ Hdb).
  assert (exists blocks, readVerifiedBlocksFromDB db = Ok blocks) as [blocks Er].
  { unfold readVerifiedBlocksFromDB. destruct (do_index _ Hdb) as (index & -> & _). cbn [res_bind].
    destruct (readSlots_ok db 0 (IndexRing index) Hdb) as (bs & -> & _). by exists bs. }
  rewrite Er. pose proof (read_cells _ _ Er HD) as Hcells.
  destruct blocks as [|b0 bs]; [by exists (NewProcessManage db), []|].
  destruct (reload_loop (match currentBlock with Some n => u64 n | None => 0 end)
              (NewProcessManage db) (b0 :: bs) Hcells Hnew) as (pm & Hf & Hpm & _ & _ & Hc).
  exists pm, (b0 :: bs). split; [exact Hf|]. split; [done|]. by split.
Qed.
End Invariant.

(** ** The service *)

Section Service.
Context `{GoRange} `{GoSort} `{HeaderHash} `{Secp256k1} `{BlockCodec}.
Context (ks : KeyStore) (dposMode : string -> bool).
Context (V : ChainView -> Prop) (W : Z -> Z -> Prop) (D L : Z -> Prop).

(** A state the service can reach from a database, whatever messages arrive and
    however its goroutines interleave. *)
Definition service_state (currentBlock : option Z) (db : VDB) (s : Sys) : Prop :=
  exists pm, reloadVerifiedBlocks currentBlock (NewProcessManage db) = Ok pm /\
    rtc (sys_step ks dposMode V W D L) (mkSys pm []) s.

(** What the service relies on: hashes leave out the signatures, the chain
    answers without panicking, the database is what the node wrote, and [D] has
    the hashes of its blocks. *)
Record service_env (db : VDB) : Prop := {
  se_hash : hash_without_signs;
  se_view : forall cv, V cv -> view_safe cv;
  se_index : forall i b, json_index i = Some b -> unjson_index b = Some i;
  se_db : db_ok db;
  se_stored : forall hash, stored db hash -> D hash
}.

Lemma service_inv currentBlock db s :
  service_env db -> service_state currentBlock db s -> SysInv ks dposMode V W D L s.
Proof.
  intros [Hh Hv Hi Hdb HD] (pm & Hpm & Hrtc). eapply rtc_sys_inv; [done..| |exact Hrtc].
  destruct (reload_inv ks dposMode V W D L currentBlock db Hdb HD) as (pm' & _ & Hpm' & Hinv & _).
  rewrite Hpm in Hpm'. injection Hpm' as <-. by split.
Qed.
End Service.

(** C27: the verification service never gets stuck: it starts on any database
    the node wrote, and in every state its goroutines can reach, in any
    interleaving, its map leads to processes of the current height and the next
    two only, every further message is handled without panicking, and so are all
    the calls that wait for their process, which may be one that the map has
    dropped, and the goroutines of any process.  The exception is a local request
    whose header is nil, on which the handler panics. *)
Theorem service_total `{GoRange} `{GoSort} `{HeaderHash} `{Secp256k1} `{BlockCodec}
    ks dposMode V W D L currentBlock db :
  service_env V D db ->
  (exists pm, reloadVerifiedBlocks currentBlock (NewProcessManage db) = Ok pm) /\
  forall s, service_state ks dposMode V W D L currentBlock db s ->
    (size (pm_map (s_pm s)) <= 3)%nat /\
    (forall n id, pm_map (s_pm s) !! n = Some id ->
       curNumber (pm_chain (s_pm s)) <= n <= curNumber (pm_chain (s_pm s)) + 2 /\
       exists p, pm_procs (s_pm s) !! id = Some p /\ p_number p = n) /\
    (forall cv m, V cv -> msg_in W D L m -> is_Ok (receive ks dposMode cv m (s_pm s))) /\
    (forall cv c, V cv -> c ∈ s_calls s -> is_Ok (runCall ks dposMode cv c (s_pm s))) /\
    (forall cv e id, V cv -> async e -> is_Some (pm_procs (s_pm s) !! id) ->
       is_Ok (callProcess ks dposMode cv e (s_pm s) id)) /\
    (forall cv l r, lrReq l = Some r -> checkReq r = None -> receive ks dposMode cv (MLocal (Some l)) (s_pm s) = Panic).
Proof.
  intros Henv. split.
  { destruct (reload_inv ks dposMode V W D L currentBlock db (se_db _ _ _ Henv) (se_stored _ _ _ Henv))
      as (pm & _ & Hpm & _). by exists pm. }
  intros s Hs. destruct (service_inv ks dposMode V W D L currentBlock db s Henv Hs) as [Hpm Hcalls].
  destruct Henv as [Hh Hv Hi _ _]. split; [by eapply PMInv_size|]. split; [apply Hpm|]. split; [|split; [|split]].
  - intros cv m Hcv Hm. destruct (receive_inv ks dposMode V W D L Hh Hv Hi cv m _ Hcv Hm Hpm)
      as (pm' & c & Hr & _). by exists (pm', c).
  - intros cv c Hcv Hc. rewrite Forall_forall in Hcalls.
    destruct (runCall_inv ks dposMode V W D L Hh Hv Hi cv c _ Hcv (Hcalls _ Hc) Hpm)
      as (pm' & c' & Hr & _). by exists (pm', c').
  - intros cv e id Hcv He [p Hp].
    destruct (callProcess_inv ks dposMode V W D L Hh Hv Hi cv e (s_pm s) id p Hcv) as (pm' & Hr & _);
      [by destruct e|done|done|]. by exists pm'.
  - intros cv l r Hl Hc. cbn [receive]. by rewrite Hl, Hc.
Qed.

(** C24: no interleaving makes a node vote for a block it cannot stand for: in
    every state of the service, every vote any process has sent, also one that
    was dropped in the meantime, is for a block of the node's own or for one
    that was checked and executed. *)
Theorem service_votes_verified `{GoRange} `{GoSort} `{HeaderHash} `{Secp256k1} `{BlockCodec}
    ks dposMode V W D L currentBlock db s id p vote :
  service_env V D db -> service_state ks dposMode V W D L currentBlock db s ->
  pm_procs (s_pm s) !! id = Some p -> OutVote vote ∈ p_out p ->
  verified dposMode (p_number p) V W D L (cvtSignHash vote).
Proof.
  intros Henv Hs Hp Ho. destruct (service_inv ks dposMode V W D L currentBlock db s Henv Hs) as [Hpm _].
  pose proof (Forall_lookup_1 _ _ _ _ (pv_procs _ _ _ _ _ _ _ Hpm) Hp) as Hinv.
  pose proof (pi_out _ _ _ _ _ _ _ _ Hinv) as Hout. rewrite Forall_forall in Hout. exact (Hout _ Ho).
Qed.


(** ** Schedules

    An executable scheduler: handle a message up to its process, or run the
    [k]-th waiting call. *)

Inductive Act :=
| ActReceive (m : Msg)
| ActRun (k : nat).

Section Schedule.
Context `{GoRange} `{GoSort} `{HeaderHash} `{Secp256k1} `{BlockCodec}.
Context (ks : KeyStore) (dposMode : string -> bool) (cv : ChainView).

Definition act (s : Sys) (a : Act) : option Sys :=
  match a with
  | ActReceive m =>
      match receive ks dposMode cv m (s_pm s) with
      | Ok (pm, c) => Some (mkSys pm (s_calls s ++ option_list c))
      | _ => None
      end
  | ActRun k =>
      match s_calls s !! k with
      | None => None
      | Some c =>
          match runCall ks dposMode cv c (s_pm s) with
          | Ok (pm, c') =>
              Some (mkSys pm (take k (s_calls s) ++ option_list c' ++ drop (S k) (s_calls s)))
          | _ => None
          end
      end
  end.

Fixpoint acts (s : Sys) (l : list Act) : option Sys :=
  match l with
  | [] => Some s
  | a :: l => match act s a with Some s => acts s l | None => None end
  end.

Context (V : ChainView -> Prop) (W : Z -> Z -> Prop) (D L : Z -> Prop) (Hcv : V cv).

Lemma acts_reach l s s' :
  Forall (fun a => match a with ActReceive m => msg_in W D L m | _ => True end) l ->
  acts s l = Some s' -> rtc (sys_step ks dposMode V W D L) s s'.
Proof using Hcv.
  revert s. induction l as [|a l IH]; intros s Hl; cbn.
  { by intros [= ->]. }
  apply Forall_cons in Hl as [Ha Hl]. destruct (act s a) as [s1|] eqn:E; [|done]. intros Hr.
  eapply rtc_l; [|by apply IH]. destruct s as [pm calls]. destruct a as [m|k]; cbn in E.
  - destruct (receive _ _ _ _ _) as [[pm' c]| |] eqn:Er; [|done..]. injection E as <-.
    by eapply sy_receive.
  - destruct (calls !! k) as [c|] eqn:Ek; [|done].
    destruct (runCall _ _ _ _ _) as [[pm' c']| |] eqn:Er; [|done..]. injection E as <-.
    rewrite <- (take_drop_middle calls k c Ek) at 1. by eapply sy_call.
Qed.
End Schedule.

(** ** A service

    The node of the runs of [VerifySafety], on an empty database. *)

#[local] Existing Instance toy_curve.
#[local] Existing Instance go_range_sorted_keys.
#[local] Existing Instance toy_hash.
#[local] Existing Instance toy_codec.

Definition toy_db : VDB := mkVDB None ∅.

Definition toy_role (num : Z) : Msg := MRole (Some (mkRoleUpdate num 0 0 0 RoleValidator)).

Definition all_windows (b e : Z) : Prop := True.
Definition no_hash (hash : Z) : Prop := False.

Lemma toy_env : service_env (eq toy_view) no_hash toy_db.
Proof.
  split.
  - exact toy_hash_signs.
  - intros cv <-. exact toy_view_safe.
  - exact (index_rt toy_codec_laws).
  - exact empty_db_ok.
  - intros hash (blocks & b & Hr & Hb & _). vm_compute in Hr. injection Hr as <-.
    by apply not_elem_of_nil in Hb.
Qed.

(** Height 100 becomes current, the process starts, and it gets the leader and
    the leader's request. *)
Definition toy_schedule : list Act :=
  [ActReceive (toy_role 99); ActRun 0; ActRun 0; ActReceive (MLeader (Some (toy_leader true))); ActRun 0;
   ActReceive (MReq (Some (toy_req 10 60))); ActRun 0].

Definition toy_served : option Sys :=
  Eval vm_compute in acts w_ks toy_mode toy_view (mkSys (NewProcessManage toy_db) []) toy_schedule.

Definition toy_service : Sys :=
  Eval vm_compute in default (mkSys (NewProcessManage toy_db) []) toy_served.

Lemma toy_service_state :
  service_state w_ks toy_mode (eq toy_view) all_windows no_hash no_hash None toy_db toy_service.
Proof.
  exists (NewProcessManage toy_db). split; [reflexivity|].
  apply (acts_reach w_ks toy_mode toy_view _ _ _ _ eq_refl toy_schedule); [|vm_compute; reflexivity].
  repeat constructor.
Qed.

Definition toy_served_process : Process :=
  Eval vm_compute in default (newProcess 0) (pm_procs (s_pm toy_service) !! 0%nat).

Lemma service_total_witness :
  (exists pm, reloadVerifiedBlocks None (NewProcessManage toy_db) = Ok pm) /\
  forall s, service_state w_ks toy_mode (eq toy_view) all_windows no_hash no_hash None toy_db s ->
    (size (pm_map (s_pm s)) <= 3)%nat /\
    (forall n id, pm_map (s_pm s) !! n = Some id ->
       curNumber (pm_chain (s_pm s)) <= n <= curNumber (pm_chain (s_pm s)) + 2 /\
       exists p, pm_procs (s_pm s) !! id = Some p /\ p_number p = n) /\
    (forall cv m, toy_view = cv -> msg_in all_windows no_hash no_hash m ->
       is_Ok (receive w_ks toy_mode cv m (s_pm s))) /\
    (forall cv c, toy_view = cv -> c ∈ s_calls s -> is_Ok (runCall w_ks toy_mode cv c (s_pm s))) /\
    (forall cv e id, toy_view = cv -> async e -> is_Some (pm_procs (s_pm s) !! id) ->
       is_Ok (callProcess w_ks toy_mode cv e (s_pm s) id)) /\
    (forall cv l r, lrReq l = Some r -> checkReq r = None -> receive w_ks toy_mode cv (MLocal (Some l)) (s_pm s) = Panic).
Proof.
  exact (service_total w_ks toy_mode (eq toy_view) all_windows no_hash no_hash None toy_db toy_env).
Defined.

Lemma service_votes_verified_witness :
  verified toy_mode 100 (eq toy_view) all_windows no_hash no_hash 10.
Proof.
  exact (service_votes_verified w_ks toy_mode (eq toy_view) all_windows no_hash no_hash None toy_db
           toy_service 0 toy_served_process (mkConsVote 10 100 ((10 * 1000 + 8) * 256) 0)
           toy_env toy_service_state eq_refl ltac:(vm_compute; left)).
Defined.

(** A process can outlive its height: when the chain moves on between the
    moment a goroutine finds the current process and the moment it starts it,
    the process is closed and dropped first and started afterwards, and no
    entry of the map leads to it any more. *)
Theorem dropped_process_runs :
  exists s p, service_state w_ks toy_mode (eq toy_view) all_windows no_hash no_hash None toy_db s /\
    pm_procs (s_pm s) !! 0%nat = Some p /\ p_number p = 100 /\ p_state p = StateStart /\
    curNumber (pm_chain (s_pm s)) = 101 /\ (forall n, pm_map (s_pm s) !! n <> Some 0%nat) /\
    s_calls s = [].
Proof.
  pose (l := [ActReceive (toy_role 99); ActRun 0; ActReceive (toy_role 100); ActRun 0; ActRun 0; ActRun 0]).
  destruct (acts w_ks toy_mode toy_view (mkSys (NewProcessManage toy_db) []) l) as [s|] eqn:E;
    [|by vm_compute in E].
  assert (Hs : service_state w_ks toy_mode (eq toy_view) all_windows no_hash no_hash None toy_db s).
  { exists (NewProcessManage toy_db). split; [reflexivity|].
    apply (acts_reach w_ks toy_mode toy_view _ _ _ _ eq_refl l); [repeat constructor|exact E]. }
  exists s. vm_compute in E. injection E as <-. eexists. split; [exact Hs|].
  do 4 (split; [reflexivity|]). split; [|reflexivity].
  change (forall n, ({[101 := 1%nat]} : gmap Z nat) !! n <> Some 0%nat).
  intros n Hn. by apply lookup_singleton_Some in Hn as [_ ?].
Qed.

(** Two stored blocks: the key of the first leads to the second. *)
Definition toy_save (db : VDB) (time : Z) : VDB :=
  match saveVerifiedBlockToDB db time (Some (toy_saved time [])) [] with Ok db => db | _ => db end.

Definition toy_two : VDB := Eval vm_compute in toy_save (toy_save toy_db 10) 11.

Definition toy_stored (time : Z) : verifiedBlock := mkVerifiedBlock time (Some (toy_saved time [])) [].

Lemma toy_two_ok : db_ok toy_two.
Proof.
  split.
  - exists (mkVBIndex 1 3 [10; 11; 0]). split; [reflexivity|]. by split.
  - intros pos data Hd. assert (data ∈ (map_to_list (vdb_block toy_two)).*2) as Hin.
    { apply list_elem_of_fmap. exists (pos, data). split; [done|]. by apply elem_of_map_to_list. }
    let l := eval vm_compute in (map_to_list (vdb_block toy_two)).*2 in
    change (map_to_list (vdb_block toy_two)).*2 with l in Hin.
    rewrite !elem_of_cons in Hin.
    destruct Hin as [->|[->|[]%not_elem_of_nil]]; by do 3 eexists.
Qed.

