(* ===== verification/MatrixState.v ===== *)
(** * Reward data of the state tree ([core/matrixstate])

    The accessors of [utility.go] and [utility_reward.go] read and write values
    under the keys of the version manager that the state's own version selects.
    A state is modelled by the decoded values of the keys the reward code uses;
    a value that cannot be read is an error.  The accounts' balances belong to
    the state as well. *)

From S2P Require Import Broadcast Reader Header Prelude.

(** [mc.MultiCoinMinerOutReward] *)
Record MultiCoinMinerOutReward := mkMinerOut { moCoinType : string; moReward : Z }.

(** The value under [MSKeyPreMinerTxsReward].  Two operators share the key: the
    Alpha manager encodes one amount, the later managers a list.  Neither
    decoder accepts the other encoding. *)
Inductive pre_txs :=
| PreTxsEmpty
| PreTxsSingle (reward : Z)
| PreTxsMulti (rewards : list MultiCoinMinerOutReward).

(** [mc.RewardRateCfg], [mc.BlkRewardCfg] and [mc.TxsRewardCfg]: rates are in
    ten-thousandths. *)
Record RewardRateCfg := mkRates {
  MinerOutRate : Z;
  ElectedMinerRate : Z;
  FoundationMinerRate : Z;
  LeaderRate : Z;
  ElectedValidatorsRate : Z;
  FoundationValidatorRate : Z;
  OriginElectOfflineRate : Z;
  BackupRewardRate : Z
}.

Record BlkRewardCfg := mkBlkCfg {
  MinerMount : Z;
  MinerAttenuationRate : Z;
  MinerAttenuationNum : Z;
  ValidatorMount : Z;
  ValidatorAttenuationRate : Z;
  ValidatorAttenuationNum : Z;
  RewardRate : RewardRateCfg
}.

Record TxsRewardCfg := mkTxsCfg {
  tcMinersRate : Z;
  tcValidatorsRate : Z;
  tcRewardRate : RewardRateCfg
}.

(** The settings of the reward code; no modelled operation writes them. *)
Record RewardSettings := mkSettings {
  rsBroadcastInterval : res read_error BCIntervalInfo;
  rsBlkCalc : res read_error string;
  rsTxsCalc : res read_error string;
  rsBlkRewardCfg : res read_error BlkRewardCfg;
  rsTxsRewardCfg : res read_error TxsRewardCfg;
  rsFoundationAccount : res read_error Z;
  rsInnerMinerAccounts : res read_error (list Z)
}.

Record RewardState := mkRewardState {
  rsVersion : string;
  rsSettings : RewardSettings;
  rsPreMinerBlk : res read_error Z;
  rsPreMinerTxs : pre_txs;
  (** [GetBalance coin account]: the balances of the account by account type *)
  rsBalance : string -> Z -> list Z
}.

Definition with_pre_blk (st : RewardState) (r : Z) : RewardState :=
  mkRewardState (rsVersion st) (rsSettings st) (Ok r) (rsPreMinerTxs st) (rsBalance st).
Definition with_pre_txs (st : RewardState) (v : pre_txs) : RewardState :=
  mkRewardState (rsVersion st) (rsSettings st) (rsPreMinerBlk st) v (rsBalance st).

Definition GetVersionInfo (st : RewardState) : string := rsVersion st.

(** [GetManager] knows the released versions only. *)
Definition has_manager (st : RewardState) : bool :=
  existsb (String.eqb (GetVersionInfo st)) VersionList.

(** The manager of every version but Alpha stores the list of coins. *)
Definition multi_coin_manager (st : RewardState) : bool :=
  negb (String.eqb (GetVersionInfo st) VersionAlpha).

(** The accessors of the settings need the manager of the version. *)
Definition read_setting {A} (st : RewardState) (f : RewardSettings -> res read_error A)
  : res read_error A :=
  if has_manager st then f (rsSettings st) else Err ErrRead.

Definition GetBroadcastInterval (st : RewardState) : res read_error BCIntervalInfo :=
  read_setting st rsBroadcastInterval.
Definition GetBlkCalc (st : RewardState) : res read_error string := read_setting st rsBlkCalc.
Definition GetTxsCalc (st : RewardState) : res read_error string := read_setting st rsTxsCalc.
Definition GetBlkRewardCfg (st : RewardState) : res read_error BlkRewardCfg :=
  read_setting st rsBlkRewardCfg.
Definition GetTxsRewardCfg (st : RewardState) : res read_error TxsRewardCfg :=
  read_setting st rsTxsRewardCfg.
Definition GetFoundationAccount (st : RewardState) : res read_error Z :=
  read_setting st rsFoundationAccount.
Definition GetInnerMinerAccounts (st : RewardState) : res read_error (list Z) :=
  read_setting st rsInnerMinerAccounts.

Definition GetPreMinerBlkReward (st : RewardState) : res read_error Z :=
  if has_manager st then rsPreMinerBlk st else Err ErrRead.

(** RLP has no encoding of negative integers. *)
Definition SetPreMinerBlkReward (st : RewardState) (reward : Z) : RewardState * bool :=
  if has_manager st && (0 <=? reward) then (with_pre_blk st reward, true) else (st, false).

(** The accessors assert the type of the value the operator decoded, which
    panics when the manager decodes the other one. *)
Definition GetPreMinerTxsReward (st : RewardState) : res read_error Z :=
  if negb (has_manager st) then Err ErrRead
  else match rsPreMinerTxs st, multi_coin_manager st with
       | PreTxsEmpty, false => Ok 0
       | PreTxsSingle r, false => Ok r
       | PreTxsMulti _, false | PreTxsSingle _, true => Err ErrRead
       | _, true => Panic
       end.

Definition SetPreMinerTxsReward (st : RewardState) (reward : Z) : RewardState * bool :=
  if negb (has_manager st) then (st, false)
  else if multi_coin_manager st then (st, false)
  else if 0 <=? reward then (with_pre_txs st (PreTxsSingle reward), true) else (st, false).

Definition GetPreMinerMultiCoinTxsReward (st : RewardState)
  : res read_error (list MultiCoinMinerOutReward) :=
  if negb (has_manager st) then Err ErrRead
  else match rsPreMinerTxs st, multi_coin_manager st with
       | PreTxsEmpty, true => Ok []
       | PreTxsMulti l, true => Ok l
       | PreTxsSingle _, true | PreTxsMulti _, false => Err ErrRead
       | _, false => Panic
       end.

Definition SetPreMinerMultiCoinTxsReward (st : RewardState) (l : list MultiCoinMinerOutReward)
  : RewardState * bool :=
  if negb (has_manager st) then (st, false)
  else if forallb (fun v => 0 <=? moReward v) l
  then (with_pre_txs st (PreTxsMulti l), true)
  else (st, false).
