(* ===== verification/RewardUtil.v ===== *)
(** * Amounts of the rewards ([reward/util/util.go])

    Reward maps are [map[Address]*big.Int]: [None] is the nil map.  Amounts are
    unbounded integers and [big.Int.Div] by a positive divisor is [Z.div].  The
    maps hold pointers; [Heap] below shows that adding through them gives the
    sums of the values. *)

From S2P Require Import GoLang Broadcast Topology Reader Header Transactions MatrixState Prelude.

Definition RewardFullRate : Z := 10000.
Definition Stop : string := "0".
Definition TxsReward : Z := 0.
Definition BlkReward : Z := 1.
Definition ManPrice : Z := 10 ^ 18.
Definition ThousandthManPrice : Z := 10 ^ 15.
Definition CalcGamma : string := "2".

Definition BlkMinerRewardAddress : Z := 0x8000000000000000000000000000000000000000.
Definition BlkValidatorRewardAddress : Z := 0x8000000000000000000000000000000000000000.
Definition InterestRewardAddress : Z := 0x8000000000000000000000000000000000000000.
Definition TxGasRewardAddress : Z := 0x8000000000000000000000000000000000000001.
Definition LotteryRewardAddress : Z := 0x8000000000000000000000000000000000000002.
Definition ContractAddress : Z := 0x000000000000000000000000000000000000000A.

Definition RewardMinerType : Z := 0.
Definition RewardValidatorType : Z := 1.
Definition RewardInterestType : Z := 2.
Definition RewardTxsType : Z := 3.
Definition RewardLotteryType : Z := 4.

Abbreviation Rewards := (option (gmap Z Z)).

(** [range] and [len] treat the nil map as empty. *)
Definition rmap (r : Rewards) : gmap Z Z := default ∅ r.

(** [util.DepositInfo]; the deposit itself is always 0. *)
Record DepositInfo := mkDeposit { Deposit : Z; FixStock : Z }.

(** [common.RewarTx] *)
Record RewarTx := mkRewarTx {
  rtCoinRange : string;
  rtCoinType : string;
  rtFrom : Z;
  rtTo : gmap Z Z;
  rtTyp : Z
}.

(** [sort.Strings] orders addresses by their printed form. *)
Class AddressOrder := { string_less : Z -> Z -> bool }.

Section Util.
Context `{GoRange} `{GoSort} `{AddressOrder}.

Definition SetAccountRewards (rewards : Rewards) (account reward : Z) : Rewards :=
  if reward =? 0 then rewards
  else match rewards with
       | None => None
       | Some m =>
           if account =? zero_addr then Some m
           else match m !! account with
                | Some old => Some (<[account := old + reward]> m)
                | None => Some (<[account := reward]> m)
                end
       end.

Definition CalcRateReward (rewardAmount rate : Z) : Z :=
  rewardAmount * rate / RewardFullRate.

(** One entry of the result per key; the division panics on a zero total. *)
Fixpoint stockShares (reward totalStock : Z) (depositNodes : gmap Z DepositInfo)
    (keys : list Z) (rewards : gmap Z Z) : eff (gmap Z Z) :=
  match keys with
  | [] => Ok rewards
  | k :: keys =>
      let stock := match depositNodes !! k with Some d => FixStock d | None => 0 end in
      let* oneNodeReward := go_udiv (reward * stock) totalStock in
      stockShares reward totalStock depositNodes keys (<[k := oneNodeReward]> rewards)
  end.

Definition CalcStockRate (reward : Z) (depositNodes : gmap Z DepositInfo) : eff Rewards :=
  if (size depositNodes =? 0)%nat then Ok None
  else
    let totalStock :=
      foldl (fun t v => u64 (t + FixStock v)) 0 (go_range depositNodes).*2 in
    let sortedKeys := sort_slice string_less (go_range depositNodes).*1 in
    let* rewards := stockShares reward totalStock depositNodes sortedKeys ∅ in
    Ok (Some rewards).

Definition CalcInterestReward (reward : Z) (interest : Rewards) : Rewards :=
  if (size (rmap interest) =? 0)%nat then None
  else
    let totalInterest := foldl Z.add 0 (go_range (rmap interest)).*2 in
    if totalInterest <=? 0 then None
    else if reward =? 0 then None
    else Some (foldl (fun m kv => <[fst kv := reward * snd kv / totalInterest]> m) ∅
                 (go_range (rmap interest))).

Definition MergeReward (dst src : Rewards) : Rewards :=
  if (size (rmap src) =? 0)%nat then dst
  else match dst with
       | None => None
       | Some _ =>
           foldl (fun d kv => SetAccountRewards d (fst kv) (snd kv)) dst (go_range (rmap src))
       end.

Definition CalcN (halfNum num : Z) : Z := if halfNum =? 0 then 0 else num / halfNum.

Definition CalcRewardMount (blockReward n x : Z) : Z :=
  if n =? 0 then blockReward else blockReward * x ^ n / RewardFullRate ^ n.

Definition getBalanceByCoinType (st : RewardState) (address : Z) (cointype : string)
  : res read_error (list Z) :=
  match rsBalance st cointype address with
  | [] => Err ErrRead
  | main :: rest => if main <? 0 then Err ErrRead else Ok (main :: rest)
  end.

Definition getBalance (st : RewardState) (address : Z) : res read_error (list Z) :=
  getBalanceByCoinType st address MAN_COIN.

(** [b[common.MainAccount].Balance] *)
Definition main_balance (b : list Z) : eff Z := go_index b 0.

Definition CalcRewardMountByNumber (st : RewardState) (blockReward num halfNum address
    attenuationRate : Z) : eff Z :=
  if blockReward <? 0 then Ok 0
  else match getBalance st address with
       | Panic => Panic
       | Err _ => Ok 0
       | Ok balance =>
           let n := CalcN halfNum num in
           let reward := CalcRewardMount blockReward n attenuationRate in
           let* main := main_balance balance in
           if main <? reward then Ok 0 else Ok reward
       end.

Definition getRewardSum (reardMap : gmap Z Z) : Z :=
  foldl Z.add 0 (go_range reardMap).*2.

Definition addCoinSum (rewardMap : gmap string Z) (v : RewarTx) : gmap string Z :=
  if rtTyp v =? RewardTxsType
  then match rewardMap !! rtCoinType v with
       | Some s => <[rtCoinType v := s + getRewardSum (rtTo v)]> rewardMap
       | None => <[rtCoinType v := getRewardSum (rtTo v)]> rewardMap
       end
  else rewardMap.

(** The log line reads the balance before the error is looked at, and
    [log.Crit] ends the process. *)
Fixpoint checkCoins (st : RewardState) (sums : list (string * Z)) : eff unit :=
  match sums with
  | [] => Ok tt
  | (coinType, all) :: sums =>
      let* balance :=
        match getBalanceByCoinType st TxGasRewardAddress coinType with
        | Ok b => main_balance b
        | _ => Panic
        end in
      if balance <? all then Panic else checkCoins st sums
  end.

(** The coins are visited in any order: a failing one ends the process
    whenever it comes. *)
Definition CointypeCheck (st : RewardState) (rewardIn : list RewarTx) : eff (list RewarTx) :=
  let rewardMap := foldl addCoinSum ∅ rewardIn in
  let* _ := checkCoins st (map_to_list rewardMap) in
  Ok rewardIn.

(** One of the four sums the loop of [AccumulatorCheck] computes. *)
Definition sumFrom (from : Z) (all : Z) (v : RewarTx) : Z :=
  if rtFrom v =? from
  then foldl (fun all kv => if fst kv =? ContractAddress then all else all + snd kv)
         all (go_range (rtTo v))
  else all.

Definition ofType (t : Z) (rewardIn : list RewarTx) : list RewarTx :=
  filter (fun v => rtTyp v = t) rewardIn.

(** Errors of [getBalance] are dropped, and the nil balance is indexed. *)
Definition balanceOrNil (st : RewardState) (address : Z) : list Z :=
  match getBalance st address with Ok b => b | _ => [] end.

Definition AccumulatorCheck (st : RewardState) (rewardIn : list RewarTx)
  : eff (list RewarTx) :=
  let ValidatorBalance := balanceOrNil st BlkMinerRewardAddress in
  let minerBalance := balanceOrNil st BlkValidatorRewardAddress in
  let interestBalance := balanceOrNil st InterestRewardAddress in
  let lotteryBalance := balanceOrNil st LotteryRewardAddress in
  let allMiner := foldl (sumFrom BlkMinerRewardAddress) 0 rewardIn in
  let allValidator := foldl (sumFrom BlkValidatorRewardAddress) 0 rewardIn in
  let allInterest := foldl (sumFrom InterestRewardAddress) 0 rewardIn in
  let allLottery := foldl (sumFrom LotteryRewardAddress) 0 rewardIn in
  let keep all balance t :=
    let* main := main_balance balance in
    Ok (if all <=? main then ofType t rewardIn else []) in
  let* miners := keep allMiner minerBalance RewardMinerType in
  let* validators := keep allValidator ValidatorBalance RewardValidatorType in
  let* interests := keep allInterest interestBalance RewardInterestType in
  let* lotteries := keep allLottery lotteryBalance RewardLotteryType in
  Ok (miners ++ validators ++ ofType RewardTxsType rewardIn ++ interests ++ lotteries).

(** [currentReward.Reward] dereferences nil for a version without manager. *)
Definition GetPreMinerReward (st : RewardState) (rewardType : Z)
  : res read_error (list MultiCoinMinerOutReward) :=
  let single (m : res read_error Z) :=
    let* r := m in Ok [mkMinerOut MAN_COIN r] in
  if rewardType =? TxsReward then
    if String.eqb (GetVersionInfo st) VersionAlpha then single (GetPreMinerTxsReward st)
    else if existsb (String.eqb (GetVersionInfo st))
              [VersionBeta; VersionGamma; VersionDelta; VersionAIMine]
    then GetPreMinerMultiCoinTxsReward st
    else Panic
  else single (GetPreMinerBlkReward st).

Definition GetPrice (calc : string) : Z :=
  match String.compare calc CalcGamma with
  | Lt => ManPrice
  | _ => ThousandthManPrice
  end.
End Util.

(** ** Totals *)

Definition mtotal (m : gmap Z Z) : Z := Zsum (map_to_list m).*2.
Definition rtotal (r : Rewards) : Z := mtotal (rmap r).

(** Amounts are never negative. *)
Definition nonneg (r : Rewards) : Prop := map_Forall (fun _ v => 0 <= v) (rmap r).

Lemma mtotal_insert_None m k v : m !! k = None -> mtotal (<[k := v]> m) = v + mtotal m.
Proof. intros Hk. unfold mtotal. by rewrite map_to_list_insert. Qed.

Lemma mtotal_delete m k v : m !! k = Some v -> mtotal m = v + mtotal (delete k m).
Proof.
  intros Hk. rewrite <- (insert_delete_id m k v Hk) at 1.
  apply mtotal_insert_None, lookup_delete_eq.
Qed.

Lemma mtotal_insert_Some m k o v :
  m !! k = Some o -> mtotal (<[k := v]> m) = v - o + mtotal m.
Proof.
  intros Hk. rewrite (mtotal_delete (<[k := v]> m) k v) by apply lookup_insert_eq.
  rewrite delete_insert_eq, (mtotal_delete m k o Hk). lia.
Qed.

Lemma mtotal_nonneg m : map_Forall (fun _ v => 0 <= v) m -> 0 <= mtotal m.
Proof.
  intros Hm. apply Zsum_nonneg, Forall_fmap, Forall_forall. intros [k v] Hin.
  apply elem_of_map_to_list in Hin. by eapply Hm.
Qed.

Lemma total_nonneg r : nonneg r -> 0 <= rtotal r.
Proof. apply mtotal_nonneg. Qed.

Create HintDb reward.
#[export] Hint Resolve total_nonneg : reward.

Lemma SetAccountRewards_total r a v :
  nonneg r -> 0 <= v ->
  nonneg (SetAccountRewards r a v) /\ rtotal (SetAccountRewards r a v) <= rtotal r + v.
Proof.
  intros Hr Hv. unfold SetAccountRewards, rtotal.
  destruct (Z.eqb_spec v 0) as [->|]; [split; [done|lia]|].
  destruct r as [m|]; [|split; [done|lia]]. simpl.
  destruct (a =? zero_addr); [split; [done|simpl; lia]|].
  destruct (m !! a) as [old|] eqn:Ha; unfold nonneg; simpl.
  - rewrite (mtotal_insert_Some _ _ _ _ Ha). split; [|lia].
    apply map_Forall_insert_2; [|done]. pose proof (Hr _ _ Ha). simpl in *. lia.
  - rewrite (mtotal_insert_None _ _ _ Ha). split; [|lia]. by apply map_Forall_insert_2.
Qed.

(** ** Merging *)

(** The value [MergeReward] leaves for an account. *)
Definition merged (old new : option Z) (k : Z) : option Z :=
  match new with
  | Some v => if (v =? 0) || (k =? zero_addr) then old else Some (default 0 old + v)
  | None => old
  end.

Lemma foldl_SetAccountRewards l m :
  NoDup l.*1 ->
  exists m', foldl (fun d kv => SetAccountRewards d (fst kv) (snd kv)) (Some m) l = Some m' /\
    forall k, m' !! k = merged (m !! k) ((list_to_map l : gmap Z Z) !! k) k.
Proof.
  revert m. induction l as [|[a v] l IH]; intros m Hnd; simpl; [by exists m|].
  apply NoDup_cons in Hnd as [Ha Hnd].
  assert (Hna : (list_to_map l : gmap Z Z) !! a = None) by by apply not_elem_of_list_to_map_1.
  assert (exists m1, SetAccountRewards (Some m) a v = Some m1 /\
    forall k, m1 !! k = if decide (k = a) then merged (m !! k) (Some v) k else m !! k)
    as (m1 & -> & Hm1).
  { unfold SetAccountRewards, merged.
    destruct (v =? 0); simpl; [exists m; split; [done|]; by intros k; case_decide|].
    destruct (Z.eqb_spec a zero_addr) as [->|Hz].
    { exists m. split; [done|]. intros k. case_decide; [subst|done]. done. }
    destruct (m !! a) as [old|] eqn:Hm.
    all: eexists; split; [done|]; intros k; case_decide as Hk;
      [subst; rewrite lookup_insert_eq; destruct (Z.eqb_spec a zero_addr); [done|];
       by rewrite Hm
      |by rewrite lookup_insert_ne]. }
  destruct (IH m1 Hnd) as (m' & -> & Hm'). exists m'. split; [done|]. intros k.
  rewrite Hm', Hm1. case_decide as Hk; [subst|].
  - by rewrite Hna, lookup_insert_eq.
  - by rewrite lookup_insert_ne.
Qed.

Section Merge.
Context `{GoRange}.

Lemma list_to_map_go_range {A} (m : gmap Z A) : (list_to_map (go_range m) : gmap Z A) = m.
Proof.
  transitivity (list_to_map (map_to_list m) : gmap Z A); [|apply list_to_map_to_list].
  apply list_to_map_proper; [apply NoDup_fst_go_range|apply go_range_perm].
Qed.

(** Whatever the iteration order, the amounts of equal accounts are added;
    the zero address and zero amounts are skipped. *)
Lemma MergeReward_lookup d src :
  exists m', MergeReward (Some d) src = Some m' /\
    forall k, m' !! k = merged (d !! k) (rmap src !! k) k.
Proof.
  unfold MergeReward. destruct (Nat.eqb_spec (size (rmap src)) 0) as [H0|_].
  - apply map_size_empty_inv in H0. exists d. split; [done|]. intros k. rewrite H0. done.
  - destruct (foldl_SetAccountRewards (go_range (rmap src)) d (NoDup_fst_go_range _))
      as (m' & Hm & Hk). exists m'. split; [done|]. by rewrite list_to_map_go_range in Hk.
Qed.

Lemma foldl_Set_total l r :
  nonneg r -> Forall (fun kv : Z * Z => 0 <= snd kv) l ->
  nonneg (foldl (fun d kv => SetAccountRewards d (fst kv) (snd kv)) r l) /\
  rtotal (foldl (fun d kv => SetAccountRewards d (fst kv) (snd kv)) r l) <= rtotal r + Zsum l.*2.
Proof.
  revert r. induction l as [|[a v] l IH]; intros r Hr Hl; [split; [done|cbn; unfold Zsum; simpl; lia]|].
  apply Forall_cons in Hl as [Hv Hl]. simpl in Hv. cbn [foldl fst snd].
  destruct (SetAccountRewards_total r a v Hr Hv) as [Hn Ht].
  destruct (IH _ Hn Hl) as [Hn' Ht']. split; [done|].
  rewrite fmap_cons, Zsum_cons. simpl. lia.
Qed.

(** Merging never creates money. *)
Lemma MergeReward_total d src :
  nonneg d -> nonneg src ->
  nonneg (MergeReward d src) /\ rtotal (MergeReward d src) <= rtotal d + rtotal src.
Proof.
  intros Hd Hs. pose proof (total_nonneg _ Hs). unfold MergeReward.
  destruct (size (rmap src) =? 0)%nat; [split; [done|lia]|].
  destruct d as [m|]; [|split; [done|lia]].
  assert (rtotal src = Zsum (go_range (rmap src)).*2) as ->.
  { unfold rtotal, mtotal. by rewrite go_range_perm. }
  apply foldl_Set_total; [done|]. apply Forall_forall. intros [k v] Hin.
  apply elem_of_go_range in Hin. by eapply Hs.
Qed.
End Merge.

#[export] Hint Resolve MergeReward_total : reward.

(** ** Shares by stock *)

Definition stockOf (d : gmap Z DepositInfo) (k : Z) : Z :=
  match d !! k with Some i => FixStock i | None => 0 end.

Lemma stockShares_ok reward T d keys m :
  T <> 0 -> NoDup keys ->
  exists m', stockShares reward T d keys m = Ok m' /\
    forall k, m' !! k = if decide (k ∈ keys) then Some (reward * stockOf d k / T) else m !! k.
Proof.
  intros HT. revert m. induction keys as [|a keys IH]; intros m Hnd.
  - exists m. split; [done|]. intros k. case_decide as Hk; [|done]. by apply elem_of_nil in Hk.
  - apply NoDup_cons in Hnd as [Ha Hnd]. cbn [stockShares].
    rewrite go_udiv_ok by done. cbn [res_bind].
    destruct (IH (<[a := reward * stockOf d a / T]> m) Hnd) as (m' & Hm & Hk).
    exists m'. split; [exact Hm|]. intros k. rewrite Hk.
    destruct (decide (k = a)) as [->|Hne].
    + rewrite (decide_False (P := a ∈ keys)) by done.
      rewrite decide_True by set_solver. by rewrite lookup_insert_eq.
    + rewrite lookup_insert_ne by done. destruct (decide (k ∈ keys)).
      * by rewrite decide_True by set_solver.
      * by rewrite decide_False by set_solver.
Qed.

(** Rounding down [n] shares loses less than [n] units. *)
Lemma Zsum_shares reward T (l : list Z) :
  0 < T -> l <> [] ->
  T * Zsum ((fun s => reward * s / T) <$> l) <= reward * Zsum l /\
  reward * Zsum l < T * (Zsum ((fun s => reward * s / T) <$> l) + Z.of_nat (length l)).
Proof.
  intros HT. induction l as [|s l IH]; intros Hne; [done|].
  rewrite fmap_cons, !Zsum_cons. cbn [length].
  pose proof (Z.div_mod (reward * s) T). pose proof (Z.mod_pos_bound (reward * s) T HT).
  destruct l as [|s' l]; [unfold Zsum; simpl; nia|].
  destruct (IH ltac:(done)). nia.
Qed.

Lemma mtotal_dom (m : gmap Z Z) (l : list (Z * DepositInfo)) (f : DepositInfo -> Z) :
  NoDup l.*1 -> (forall k, m !! k = f <$> ((list_to_map l : gmap Z DepositInfo) !! k)) ->
  mtotal m = Zsum ((fun kv => f (snd kv)) <$> l).
Proof.
  revert m. induction l as [|[a d] l IH]; intros m Hnd Hm.
  - assert (m = ∅) as -> by (apply map_empty; intros k; rewrite Hm; done). done.
  - apply NoDup_cons in Hnd as [Ha Hnd]. rewrite fmap_cons, Zsum_cons.
    rewrite (mtotal_delete m a (f d)) by (rewrite Hm; simpl; by rewrite lookup_insert_eq).
    f_equal. apply IH; [done|]. intros k. destruct (decide (k = a)) as [->|Hk].
    + rewrite lookup_delete_eq. by rewrite not_elem_of_list_to_map_1.
    + rewrite lookup_delete_ne, Hm by done. simpl. by rewrite lookup_insert_ne.
Qed.

Definition totalStock (d : gmap Z DepositInfo) : Z := Zsum (FixStock <$> (map_to_list d).*2).

Lemma totalStock_fold `{GoRange} (d : gmap Z DepositInfo) (l : list (Z * DepositInfo)) :
  l ≡ₚ map_to_list d -> 0 <= totalStock d < 2 ^ 64 ->
  foldl (fun t v => u64 (t + FixStock v)) 0 l.*2 = totalStock d.
Proof.
  intros Hl Hb. pose proof (u64_add_fold (FixStock <$> l.*2) 0) as Hf.
  assert (Zsum (FixStock <$> l.*2) = totalStock d) as Hs by (unfold totalStock; by rewrite Hl).
  rewrite foldl_fmap, Hs, Z.add_0_l in Hf. rewrite !u64_small in Hf by (unfold is_u64; lia). done.
Qed.

Lemma CalcStockRate_ok `{GoRange} `{GoSort} `{AddressOrder} reward d :
  0 < totalStock d < 2 ^ 64 ->
  exists m, CalcStockRate reward d = Ok (Some m) /\
    forall k, m !! k = (fun i => reward * FixStock i / totalStock d) <$> d !! k.
Proof.
  intros HT. unfold CalcStockRate.
  destruct (Nat.eqb_spec (size d) 0) as [Hz|_].
  { apply map_size_empty_inv in Hz as ->. by destruct HT. }
  rewrite (totalStock_fold d) by (lia || apply go_range_perm).
  pose proof (sort_slice_perm _ string_less (go_range d).*1) as Hp.
  destruct (stockShares_ok reward (totalStock d) d (sort_slice string_less (go_range d).*1) ∅)
    as (m & Hm & Hk); [lia|rewrite Hp; apply NoDup_fst_go_range|].
  exists m. rewrite Hm. split; [done|]. intros k. rewrite Hk. unfold stockOf.
  case_decide as Hin; rewrite Hp in Hin.
  - apply list_elem_of_fmap in Hin as ([k' i] & -> & Hin).
    apply elem_of_go_range in Hin. simpl. by rewrite Hin.
  - destruct (d !! k) as [i|] eqn:Hd; [|done]. destruct Hin. apply list_elem_of_fmap.
    exists (k, i). split; [done|]. by apply elem_of_go_range.
Qed.

Lemma shares_total reward (d : gmap Z DepositInfo) m :
  0 < totalStock d ->
  (forall k, m !! k = (fun i => reward * FixStock i / totalStock d) <$> d !! k) ->
  reward - Z.of_nat (size d) < mtotal m <= reward.
Proof.
  intros HT Hl.
  rewrite (mtotal_dom m (map_to_list d) (fun i => reward * FixStock i / totalStock d))
    by (first [apply NoDup_fst_map_to_list|intros k; by rewrite Hl, list_to_map_to_list]).
  destruct (Zsum_shares reward (totalStock d) (FixStock <$> (map_to_list d).*2)) as [H1 H2];
    [done|intros Hz; unfold totalStock in HT; by rewrite Hz in HT|].
  fold (totalStock d) in H1, H2. rewrite !length_fmap, length_map_to_list in H2.
  rewrite <- !list_fmap_compose in H1, H2. unfold compose in *. nia.
Qed.

Lemma CalcStockRate_zero `{GoRange} `{GoSort} `{AddressOrder} reward d :
  d <> ∅ -> totalStock d = 0 -> CalcStockRate reward d = Panic.
Proof.
  intros Hne HT. unfold CalcStockRate.
  destruct (Nat.eqb_spec (size d) 0) as [Hz|_]; [by apply map_size_empty_inv in Hz|].
  rewrite (totalStock_fold d), HT by (lia || apply go_range_perm).
  pose proof (sort_slice_perm _ string_less (go_range d).*1) as Hp.
  destruct (sort_slice _ _) as [|k keys]; [|done]. destruct Hne.
  apply Permutation_nil_l, eq_sym, fmap_nil_inv in Hp.
  rewrite <- (list_to_map_go_range d). by rewrite Hp.
Qed.

Lemma totalStock_nonneg d : map_Forall (fun _ i => 0 <= FixStock i) d -> 0 <= totalStock d.
Proof.
  intros Hd. apply Zsum_nonneg, Forall_fmap, Forall_fmap, Forall_forall. intros [k i] Hin.
  apply elem_of_map_to_list in Hin. by apply (Hd k).
Qed.

Lemma CalcStockRate_total `{GoRange} `{GoSort} `{AddressOrder} reward d r :
  0 <= reward -> map_Forall (fun _ i => 0 <= FixStock i) d -> totalStock d < 2 ^ 64 ->
  CalcStockRate reward d = Ok r -> nonneg r /\ rtotal r <= reward.
Proof.
  intros Hr Hnn Hb Hok. pose proof (totalStock_nonneg d Hnn).
  destruct (decide (d = ∅)) as [->|Hne]; [by injection Hok as <-|].
  destruct (Z.eq_dec (totalStock d) 0) as [Hz|]; [by rewrite CalcStockRate_zero in Hok|].
  destruct (CalcStockRate_ok reward d) as (m & Hm & Hl); [lia|]. rewrite Hm in Hok.
  injection Hok as <-. split; [|apply (shares_total reward d); [lia|done]].
  intros k v Hv. rewrite (Hl k : rmap (Some m) !! k = _) in Hv.
  destruct (d !! k) as [i|] eqn:Hi; simplify_eq/=.
  apply Z.div_pos; [|lia]. pose proof (Hnn _ _ Hi). simpl in *. nia.
Qed.

(** Sharing a reward by stock.  Every node of the list gets its share
    rounded down, the shares add up to at most the reward and miss it by less
    than one unit per node; when all stocks are zero the division panics. *)
Theorem stock_shares_exact `{GoRange} `{GoSort} `{AddressOrder} reward d :
  d <> ∅ -> 0 <= totalStock d < 2 ^ 64 ->
  (totalStock d = 0 -> CalcStockRate reward d = Panic) /\
  (0 < totalStock d ->
   exists m, CalcStockRate reward d = Ok (Some m) /\
     (forall k, m !! k = (fun i => reward * FixStock i / totalStock d) <$> d !! k) /\
     reward - Z.of_nat (size d) < mtotal m <= reward).
Proof.
  intros Hne Hb. split; intros HT.
  - by apply CalcStockRate_zero.
  - destruct (CalcStockRate_ok reward d) as (m & Hm & Hl); [lia|].
    exists m. split; [done|]. split; [done|]. by apply shares_total.
Qed.

(** ** Attenuation *)

Lemma CalcRewardMount_range b n x :
  0 <= b -> 0 <= n -> 0 <= x <= RewardFullRate -> 0 <= CalcRewardMount b n x <= b.
Proof.
  intros Hb Hn Hx. unfold CalcRewardMount. bcase; [lia|].
  assert (0 < RewardFullRate ^ n) by (apply Z.pow_pos_nonneg; [reflexivity|done]).
  assert (0 <= x ^ n <= RewardFullRate ^ n)
    by (split; [apply Z.pow_nonneg; lia|apply Z.pow_le_mono_l; lia]).
  split; [apply Z.div_pos; nia|]. apply Z.div_le_upper_bound; nia.
Qed.

Lemma CalcRewardMount_step b n x :
  0 <= b -> 0 <= n -> 0 <= x <= RewardFullRate ->
  CalcRewardMount b (n + 1) x <= CalcRewardMount b n x.
Proof.
  intros Hb Hn Hx. unfold CalcRewardMount at 1.
  destruct (Z.eqb_spec (n + 1) 0); [lia|]. rewrite !Z.pow_add_r, !Z.pow_1_r by lia.
  assert (HF : 0 < RewardFullRate ^ n) by (apply Z.pow_pos_nonneg; [reflexivity|done]).
  assert (Hxn : 0 <= x ^ n) by (apply Z.pow_nonneg; lia).
  transitivity (b * x ^ n * RewardFullRate / (RewardFullRate ^ n * RewardFullRate)).
  { apply Z.div_le_mono; [unfold RewardFullRate in *; nia|].
    rewrite Z.mul_assoc. apply Z.mul_le_mono_nonneg_l; [nia|lia]. }
  rewrite Z.div_mul_cancel_r by (unfold RewardFullRate in *; lia).
  unfold CalcRewardMount. bcase; [subst; rewrite !Z.pow_0_r, Z.mul_1_r, Z.div_1_r|]; lia.
Qed.

Lemma CalcRewardMount_mono b n k x :
  0 <= b -> 0 <= n <= k -> 0 <= x <= RewardFullRate ->
  CalcRewardMount b k x <= CalcRewardMount b n x.
Proof.
  intros Hb [Hn Hk] Hx. revert k Hk. apply Zlt_lower_bound_ind. intros k IH Hk.
  destruct (Z.eq_dec n k) as [->|]; [lia|].
  specialize (IH (k - 1) ltac:(lia)).
  pose proof (CalcRewardMount_step b (k - 1) x Hb ltac:(lia) Hx) as Hs.
  replace (k - 1 + 1) with k in Hs by lia. lia.
Qed.

Lemma CalcRewardMountByNumber_spec st b num half a x r :
  CalcRewardMountByNumber st b num half a x = Ok r ->
  r = 0 \/
  (0 <= b /\ r = CalcRewardMount b (CalcN half num) x /\
   exists main rest, rsBalance st MAN_COIN a = main :: rest /\ r <= main).
Proof.
  unfold CalcRewardMountByNumber. bcase; [intros [= <-]; by left|].
  unfold getBalance, getBalanceByCoinType.
  destruct (rsBalance st MAN_COIN a) as [|main rest] eqn:Hb; [intros [= <-]; by left|].
  bcase; [intros [= <-]; by left|]. change (main_balance (main :: rest)) with (Ok (E := Empty_set) main). cbn [res_bind].
  bcase; intros [= <-]; [by left|].
  right. split_and!; [done|done|]. by exists main, rest.
Qed.

(** The reward of a block never exceeds the configured amount nor the
    balance of the account that pays it, is never negative, and with the same
    balance does not grow with the height unless it is not paid at all. *)
Theorem block_reward_bounded st b num num' half a x r r' :
  0 <= b -> 0 <= x <= RewardFullRate -> 0 <= half -> 0 <= num <= num' ->
  CalcRewardMountByNumber st b num half a x = Ok r ->
  CalcRewardMountByNumber st b num' half a x = Ok r' ->
  (0 <= r <= b /\ (r <> 0 -> exists main rest, rsBalance st MAN_COIN a = main :: rest /\ r <= main)) /\
  (r = 0 \/ r' <= r).
Proof.
  intros Hb Hx Hh Hn H1 H2.
  assert (HN : 0 <= CalcN half num <= CalcN half num').
  { unfold CalcN. bcase; [lia|]. split; [apply Z.div_pos; lia|apply Z.div_le_mono; lia]. }
  apply CalcRewardMountByNumber_spec in H1 as [->|(_ & -> & Hbal)].
  { split; [split; [lia|done]|by left]. }
  split; [split; [apply CalcRewardMount_range; lia|done]|].
  destruct (Z.eq_dec (CalcRewardMount b (CalcN half num) x) 0) as [->|]; [by left|right].
  pose proof (CalcRewardMount_range b (CalcN half num) x Hb ltac:(lia) Hx).
  apply CalcRewardMountByNumber_spec in H2 as [->|(_ & -> & _)]; [lia|].
  by apply CalcRewardMount_mono.
Qed.

(** ** What the accounts pay *)

(** What a reward transaction moves, apart from the contract account. *)
Definition payable (v : RewarTx) : Z :=
  Zsum ((fun kv => if fst kv =? ContractAddress then 0 else snd kv) <$> map_to_list (rtTo v)).

(** What the rewards of a list take from an account. *)
Definition paid (from : Z) (l : list RewarTx) : Z :=
  Zsum ((fun v => if rtFrom v =? from then payable v else 0) <$> l).

Definition amounts_ok (v : RewarTx) : Prop := map_Forall (fun _ a => 0 <= a) (rtTo v).

(** Block, validator and interest rewards come from one account, lottery prizes
    from another, and transaction fees from neither. *)
Definition typed (v : RewarTx) : Prop :=
  (rtFrom v = BlkMinerRewardAddress <->
   rtTyp v = RewardMinerType \/ rtTyp v = RewardValidatorType \/ rtTyp v = RewardInterestType) /\
  (rtFrom v = LotteryRewardAddress <-> rtTyp v = RewardLotteryType).

Lemma payable_nonneg v : amounts_ok v -> 0 <= payable v.
Proof.
  intros Hv. apply Zsum_nonneg, Forall_fmap, Forall_forall. intros [k a] Hin. simpl.
  bcase; [lia|]. apply elem_of_map_to_list in Hin. by apply (Hv k).
Qed.

Lemma paid_nil a : paid a [] = 0.
Proof. done. Qed.

Lemma paid_cons a v l : paid a (v :: l) = (if rtFrom v =? a then payable v else 0) + paid a l.
Proof. done. Qed.

Lemma paid_app a l k : paid a (l ++ k) = paid a l + paid a k.
Proof. unfold paid. by rewrite fmap_app, Zsum_app. Qed.

Lemma paid_nonneg a l : Forall amounts_ok l -> 0 <= paid a l.
Proof.
  intros Hl. apply Zsum_nonneg, Forall_fmap. eapply Forall_impl; [exact Hl|].
  intros v Hv. simpl. bcase; [by apply payable_nonneg|lia].
Qed.

Lemma sumFrom_paid `{GoRange} from l acc :
  foldl (sumFrom from) acc l = acc + paid from l.
Proof.
  assert (Hf : forall (es : list (Z * Z)) (a : Z),
    foldl (fun all kv => if fst kv =? ContractAddress then all else all + snd kv) a es =
    a + Zsum ((fun kv => if fst kv =? ContractAddress then 0 else snd kv) <$> es)).
  { induction es as [|[k x] es IH]; intros a; cbn [foldl]; [unfold Zsum; simpl; lia|].
    rewrite IH, fmap_cons, Zsum_cons. simpl. bcase; lia. }
  revert acc. induction l as [|v l IH]; intros acc; cbn [foldl]; [rewrite paid_nil; lia|].
  rewrite IH, paid_cons. unfold sumFrom, payable. bcase; [|lia].
  rewrite Hf, go_range_perm. lia.
Qed.

Lemma paid_ofType a t l :
  paid a (ofType t l) =
  Zsum ((fun v => if (rtFrom v =? a) && (rtTyp v =? t) then payable v else 0) <$> l).
Proof.
  induction l as [|v l IH]; [done|]. unfold ofType in *. rewrite filter_cons, fmap_cons, Zsum_cons.
  case_decide as Ht; rewrite ?paid_cons, IH.
  - rewrite (proj2 (Z.eqb_eq _ _) Ht), andb_true_r. done.
  - rewrite (proj2 (Z.eqb_neq _ _) Ht), andb_false_r. lia.
Qed.

(** The kinds of rewards an account pays never count a transaction twice. *)
Lemma paid_kinds l :
  Forall amounts_ok l -> Forall typed l ->
  paid BlkMinerRewardAddress (ofType RewardMinerType l) +
  paid BlkMinerRewardAddress (ofType RewardValidatorType l) +
  paid BlkMinerRewardAddress (ofType RewardInterestType l) <= paid BlkMinerRewardAddress l /\
  paid BlkMinerRewardAddress (ofType RewardTxsType l) = 0 /\
  paid BlkMinerRewardAddress (ofType RewardLotteryType l) = 0 /\
  paid LotteryRewardAddress (ofType RewardLotteryType l) <= paid LotteryRewardAddress l /\
  (forall t, t <> RewardLotteryType -> paid LotteryRewardAddress (ofType t l) = 0).
Proof.
  intros Ha Ht. setoid_rewrite paid_ofType.
  induction l as [|v l IH]; [done|].
  apply Forall_cons in Ha as [Hv Ha]. apply Forall_cons in Ht as [[Hb Hlo] Ht].
  destruct (IH Ha Ht) as (H1 & H2 & H3 & H4 & H5). pose proof (payable_nonneg v Hv).
  rewrite !paid_cons. unfold paid in *. setoid_rewrite fmap_cons. setoid_rewrite Zsum_cons.
  unfold RewardMinerType, RewardValidatorType, RewardInterestType, RewardTxsType,
    RewardLotteryType in *.
  assert (BlkMinerRewardAddress <> LotteryRewardAddress) by done.
  destruct (Z.eqb_spec (rtFrom v) BlkMinerRewardAddress),
    (Z.eqb_spec (rtFrom v) LotteryRewardAddress); [congruence|..].
  all: destruct (Z.eqb_spec (rtTyp v) 0), (Z.eqb_spec (rtTyp v) 1), (Z.eqb_spec (rtTyp v) 2),
    (Z.eqb_spec (rtTyp v) 3), (Z.eqb_spec (rtTyp v) 4); try lia; cbn [andb].
  all: split_and!; try lia; intros t Hne; rewrite H5 by done; try lia.
  bcase; lia.
Qed.

Lemma main_balance_nonneg st a main :
  main_balance (balanceOrNil st a) = Ok main -> 0 <= main.
Proof.
  unfold balanceOrNil, getBalance, getBalanceByCoinType.
  destruct (rsBalance st MAN_COIN a) as [|m rest]; [done|].
  bcase; [done|]. intros [= <-]. lia.
Qed.

(** The final check of a block's rewards allows no overdraft.  When it
    returns, the rewards it lets through take at most the main balance from the
    account of the block, validator and interest rewards, and at most the main
    balance from the lottery account; it lets nothing else through than it was
    given.  Without a readable balance it panics. *)
Theorem no_overdraft `{GoRange} st rewardIn out :
  Forall amounts_ok rewardIn -> Forall typed rewardIn ->
  AccumulatorCheck st rewardIn = Ok out ->
  (forall v, v ∈ out -> v ∈ rewardIn) /\
  exists main mainL,
    main_balance (balanceOrNil st BlkMinerRewardAddress) = Ok main /\
    main_balance (balanceOrNil st LotteryRewardAddress) = Ok mainL /\
    paid BlkMinerRewardAddress out <= main /\ paid LotteryRewardAddress out <= mainL.
Proof.
  intros Ha Ht. unfold AccumulatorCheck. rewrite !sumFrom_paid, !Z.add_0_l.
  change BlkValidatorRewardAddress with BlkMinerRewardAddress.
  change InterestRewardAddress with BlkMinerRewardAddress.
  destruct (main_balance (balanceOrNil st BlkMinerRewardAddress)) as [main| |] eqn:Hm; [|done..].
  destruct (main_balance (balanceOrNil st LotteryRewardAddress)) as [mainL| |] eqn:Hl; [|done..].
  cbn [res_bind]. intros [= <-].
  apply main_balance_nonneg in Hm, Hl.
  destruct (paid_kinds _ Ha Ht) as (H1 & H2 & H3 & H4 & H5).
  split.
  - intros v. rewrite !elem_of_app. unfold ofType.
    repeat case_match; rewrite ?list_elem_of_filter, ?elem_of_nil; tauto.
  - exists main, mainL. split; [done|]. split; [done|]. rewrite !paid_app.
    split; repeat bcase; rewrite ?paid_nil, ?H2, ?H3, ?H5 by done; lia.
Qed.

(** The fees of one coin that a list of rewards pays out. *)
Definition feesOf (coin : string) (l : list RewarTx) : Z :=
  Zsum ((fun v => if (rtTyp v =? RewardTxsType) && String.eqb (rtCoinType v) coin
                  then mtotal (rtTo v) else 0) <$> l).

Lemma getRewardSum_total `{GoRange} m : getRewardSum m = mtotal m.
Proof.
  unfold getRewardSum, mtotal. rewrite <- (go_range_perm m).
  assert (Hf : forall l a, foldl Z.add a l = a + Zsum l).
  { induction l as [|x l IH]; intros a; cbn [foldl]; [unfold Zsum; simpl; lia|].
    rewrite IH, Zsum_cons. lia. }
  rewrite Hf. lia.
Qed.

Lemma coinSums `{GoRange} l coin (m : gmap string Z) :
  default 0 (foldl addCoinSum m l !! coin) = default 0 (m !! coin) + feesOf coin l.
Proof.
  revert m. induction l as [|v l IH]; intros m; cbn [foldl]; [unfold feesOf, Zsum; simpl; lia|].
  rewrite IH. unfold feesOf. rewrite fmap_cons, Zsum_cons. rewrite Z.add_assoc. f_equal.
  unfold addCoinSum. destruct (rtTyp v =? RewardTxsType); cbn [andb]; [|lia].
  rewrite getRewardSum_total.
  destruct (String.eqb_spec (rtCoinType v) coin) as [<-|Hne].
  - destruct (m !! rtCoinType v); rewrite lookup_insert_eq; simpl; lia.
  - destruct (m !! rtCoinType v); rewrite lookup_insert_ne by done; lia.
Qed.

Lemma checkCoins_ok st l :
  checkCoins st l = Ok tt ->
  forall coin all, (coin, all) ∈ l ->
    exists main rest, rsBalance st coin TxGasRewardAddress = main :: rest /\ all <= main.
Proof.
  induction l as [|[c a] l IH]; intros Hc coin all Hin; [by apply elem_of_nil in Hin|].
  cbn [checkCoins] in Hc. apply res_bind_Ok in Hc as (bal & Hbal & Hc).
  destruct (Z.ltb_spec bal a); [done|].
  apply elem_of_cons in Hin as [[= -> ->]|Hin]; [|by apply IH].
  unfold getBalanceByCoinType in Hbal. destruct (rsBalance st c _) as [|main rest]; [done|].
  destruct (main <? 0); [done|]. injection Hbal as <-. by exists main, rest.
Qed.

(** Transaction fees are covered.  When the check of the coins returns, it
    returns the rewards unchanged, and for every coin type in which fees are paid
    the fees of all rewards in that coin are at most the main balance of the fee
    account in that coin. *)
Theorem fees_covered `{GoRange} st rewardIn out coin :
  CointypeCheck st rewardIn = Ok out ->
  out = rewardIn /\
  (feesOf coin rewardIn <> 0 ->
   exists main rest, rsBalance st coin TxGasRewardAddress = main :: rest /\
                     feesOf coin rewardIn <= main).
Proof.
  unfold CointypeCheck. intros Hc. apply res_bind_Ok in Hc as ([] & Hc & [= <-]).
  split; [done|]. intros Hne. pose proof (coinSums rewardIn coin ∅) as Hs.
  rewrite lookup_empty in Hs. cbn [default from_option] in Hs. rewrite Z.add_0_l in Hs.
  destruct (foldl addCoinSum ∅ rewardIn !! coin) as [all|] eqn:Hl;
    cbn [default from_option id] in Hs; [|lia]. subst all.
  eapply checkCoins_ok; [exact Hc|]. by apply elem_of_map_to_list.
Qed.

(** ** Amounts behind pointers

    [SetAccountRewards] stores the pointer it is given and later adds into it,
    so the maps share their amounts.  Here the amounts live in a heap. *)

Module Heap.
Abbreviation heap := (gmap positive Z).
Abbreviation ptrs := (gmap Z positive).

Definition rd (h : heap) (p : positive) : Z := default 0 (h !! p).
Definition deref (h : heap) (m : ptrs) : gmap Z Z := rd h <$> m.

Definition SetAccountRewards (s : heap * option ptrs) (account : Z) (reward : positive)
  : heap * option ptrs :=
  let (h, rewards) := s in
  if rd h reward =? 0 then s
  else match rewards with
       | None => s
       | Some m =>
           if account =? zero_addr then s
           else match m !! account with
                | Some p => (<[p := rd h p + rd h reward]> h, Some (<[account := p]> m))
                | None => (h, Some (<[account := reward]> m))
                end
       end.

Definition MergeReward `{GoRange} (h : heap) (dst src : option ptrs) : heap * option ptrs :=
  if (size (default ∅ src) =? 0)%nat then (h, dst)
  else match dst with
       | None => (h, None)
       | Some _ => foldl (fun s kv => SetAccountRewards s (fst kv) (snd kv)) (h, dst)
                     (go_range (default ∅ src))
       end.

(** Different accounts of a map have different pointers. *)
Definition unshared (m : ptrs) : Prop :=
  forall a b p, m !! a = Some p -> m !! b = Some p -> a = b.

Lemma rd_insert h p q v : rd (<[p := v]> h) q = if decide (q = p) then v else rd h q.
Proof.
  unfold rd. destruct (decide (q = p)) as [->|]; [by rewrite lookup_insert_eq|].
  by rewrite lookup_insert_ne.
Qed.

Lemma deref_add h m a p v :
  unshared m -> m !! a = Some p -> deref (<[p := v]> h) m = <[a := v]> (deref h m).
Proof.
  intros Hu Ha. apply map_eq. intros k. unfold deref. rewrite lookup_fmap.
  destruct (decide (k = a)) as [->|Hk].
  - rewrite lookup_insert_eq, Ha. simpl. by rewrite rd_insert, decide_True.
  - rewrite lookup_insert_ne, lookup_fmap by done. destruct (m !! k) as [q|] eqn:Hq; [|done].
    simpl. rewrite rd_insert, decide_False; [done|]. intros ->. apply Hk. by eapply Hu.
Qed.

Lemma SetAccountRewards_refines h m a p :
  unshared m -> (forall b, m !! b <> Some p) ->
  exists h' m', SetAccountRewards (h, Some m) a p = (h', Some m') /\
    Some (deref h' m') = RewardUtil.SetAccountRewards (Some (deref h m)) a (rd h p) /\
    unshared m' /\ (forall b q, m' !! b = Some q -> q = p \/ exists c, m !! c = Some q) /\
    (forall q, (forall b, m !! b <> Some q) -> rd h' q = rd h q).
Proof.
  intros Hu Hp. unfold SetAccountRewards, RewardUtil.SetAccountRewards.
  destruct (rd h p =? 0); [exists h, m; split_and!; eauto|].
  destruct (a =? zero_addr); [exists h, m; split_and!; eauto|].
  unfold deref at 2. rewrite lookup_fmap.
  destruct (m !! a) as [q|] eqn:Ha; simpl.
  - rewrite (insert_id m a q) by done. eexists _, m.
    split; [done|]. rewrite (deref_add _ _ a) by done. split_and!; eauto.
    intros q' Hq'. rewrite rd_insert, decide_False; [done|]. intros ->. by apply (Hq' a).
  - exists h, (<[a := p]> m). split; [done|]. unfold deref. rewrite fmap_insert.
    split; [done|]. split_and!; [..|done].
    + intros b c q. rewrite !lookup_insert.
      repeat case_decide; subst; intros; simplify_eq; [done|by edestruct Hp|by edestruct Hp|by eapply Hu].
    + intros b q. rewrite lookup_insert. case_decide; intros; simplify_eq; eauto.
Qed.

Lemma foldl_refines l h m :
  NoDup l.*2 -> unshared m -> (forall p, p ∈ l.*2 -> forall b, m !! b <> Some p) ->
  exists h' m',
    foldl (fun s kv => SetAccountRewards s (fst kv) (snd kv)) (h, Some m) l = (h', Some m') /\
    Some (deref h' m') =
      foldl (fun d kv => RewardUtil.SetAccountRewards d (fst kv) (snd kv)) (Some (deref h m))
        ((fun kv => (fst kv, rd h (snd kv))) <$> l) /\
    unshared m'.
Proof.
  revert h m. induction l as [|[a p] l IH]; intros h m Hnd Hu Hs; [by exists h, m|].
  apply NoDup_cons in Hnd as [Hp Hnd]. cbn [foldl fst snd].
  destruct (SetAccountRewards_refines h m a p) as (h1 & m1 & -> & Hd & Hu1 & Hm1 & Hr);
    [done|apply Hs; set_solver|].
  destruct (IH h1 m1) as (h' & m' & -> & Hd' & Hu'); [done|done|..].
  { intros q Hq b Hb. apply Hm1 in Hb as [->|[c Hc]]; [done|]. apply (Hs q) in Hc; set_solver. }
  exists h', m'. split; [done|]. split; [|done]. rewrite Hd', Hd. cbn [foldl fmap list_fmap fst snd].
  f_equal. apply list_fmap_ext. intros i [k q] Hq. f_equal. simpl. apply Hr. intros b.
  apply Hs. simpl. right. apply list_elem_of_fmap. exists (k, q). split; [done|].
  by apply list_elem_of_lookup_2 in Hq.
Qed.

Lemma NoDup_ptrs `{GoRange} m : unshared m -> NoDup (go_range m).*2.
Proof.
  intros Hu. apply NoDup_fmap_2_strong; [|rewrite go_range_perm; apply NoDup_map_to_list].
  intros [a p] [b q] Ha Hb Heq. simpl in Heq. subst.
  apply elem_of_go_range in Ha, Hb. by rewrite (Hu a b q).
Qed.

Lemma deref_list `{GoRange} h m :
  (list_to_map ((fun kv => (fst kv, rd h (snd kv))) <$> go_range m) : gmap Z Z) = deref h m.
Proof.
  transitivity (rd h <$> (list_to_map (go_range m) : gmap Z positive));
    [|by rewrite list_to_map_go_range].
  by rewrite <- list_to_map_fmap.
Qed.

(** Adding through pointers adds the amounts.  When no pointer occurs
    twice in the two maps, merging the maps of pointers leaves a map whose
    amounts are those the map of values has after the merge, whatever orders
    the two iterations take, and its pointers are again unshared. *)
Theorem merge_through_pointers `{GoRange} h d s :
  unshared d -> unshared s -> (forall a b p, d !! a = Some p -> s !! b <> Some p) ->
  exists h' d', MergeReward h (Some d) (Some s) = (h', Some d') /\
    RewardUtil.MergeReward (Some (deref h d)) (Some (deref h s)) = Some (deref h' d') /\
    unshared d'.
Proof.
  intros Hd Hs Hds.
  destruct (MergeReward_lookup (deref h d) (Some (deref h s))) as (m' & -> & Hm').
  unfold MergeReward. cbn [default from_option id].
  destruct (Nat.eqb_spec (size s) 0) as [H0|_].
  - apply map_size_empty_inv in H0 as ->. exists h, d. split_and!; [done| |done].
    f_equal. apply map_eq. intros k. by rewrite Hm'.
  - destruct (foldl_refines (go_range s) h d) as (h' & d' & -> & Hv & Hu);
      [by apply NoDup_ptrs|done|..].
    { intros p Hp b Hb. apply list_elem_of_fmap in Hp as ([a q] & -> & Hin).
      apply elem_of_go_range in Hin. by eapply Hds. }
    exists h', d'. split_and!; [done| |done]. rewrite Hv.
    destruct (foldl_SetAccountRewards ((fun kv => (fst kv, rd h (snd kv))) <$> go_range s)
                (deref h d)) as (m2 & -> & Hm2).
    { rewrite <- list_fmap_compose. apply NoDup_fst_go_range. }
    f_equal. apply map_eq. intros k. by rewrite Hm', Hm2, deref_list.
Qed.

Definition w_heap : heap := <[1%positive := 40]> (<[2%positive := 50]> ∅).
Definition w_dst : ptrs := {[7 := 1%positive]}.
Definition w_src : ptrs := {[7 := 2%positive]}.

Lemma merge_through_pointers_witness :
  (deref w_heap w_dst = {[7 := 40]} /\ deref w_heap w_src = {[7 := 50]}) /\
  exists h' d', MergeReward w_heap (Some w_dst) (Some w_src) = (h', Some d') /\
    RewardUtil.MergeReward (Some (deref w_heap w_dst)) (Some (deref w_heap w_src)) =
      Some (deref h' d') /\
    unshared d'.
Proof.
  split; [split; vm_compute; reflexivity|]. apply (merge_through_pointers w_heap w_dst w_src).
  - intros a b p Ha Hb. unfold w_dst, w_src in *. apply lookup_singleton_Some in Ha as [<- _], Hb as [<- _]. done.
  - intros a b p Ha Hb. unfold w_dst, w_src in *. apply lookup_singleton_Some in Ha as [<- _], Hb as [<- _]. done.
  - intros a b p Ha Hb. unfold w_dst, w_src in *. apply lookup_singleton_Some in Ha as [_ <-], Hb as [_ Hb]. done.
Defined.
End Heap.

(** ** Concrete rewards *)

Module Examples.
#[local] Instance number_order : AddressOrder := {| string_less := Z.ltb |}.

Definition nodes : gmap Z DepositInfo :=
  <[11 := mkDeposit 0 30000]> (<[12 := mkDeposit 0 20000]> (<[13 := mkDeposit 0 20000]> ∅)).
Definition balances (main lottery : Z) : RewardState :=
  mkRewardState VersionAIMine
    (mkSettings (Err ErrRead) (Err ErrRead) (Err ErrRead) (Err ErrRead) (Err ErrRead)
       (Err ErrRead) (Err ErrRead))
    (Ok 0) PreTxsEmpty
    (fun coin a => if a =? BlkMinerRewardAddress then [main] else if a =? LotteryRewardAddress
                   then [lottery] else if a =? TxGasRewardAddress then [900] else []).

Lemma stock_shares_exact_witness :
  CalcStockRate 100 nodes = Ok (Some (<[11 := 42]> (<[12 := 28]> (<[13 := 28]> ∅)))) /\
  exists m, CalcStockRate 100 nodes = Ok (Some m) /\ 97 < mtotal m <= 100.
Proof.
  split; [vm_compute; reflexivity|].
  destruct (stock_shares_exact 100 nodes) as [_ Hs]; [done|vm_compute; split; congruence|].
  destruct Hs as (m & Hm & _ & Ht); [vm_compute; reflexivity|]. exists m. split; [done|].
  change (Z.of_nat (size nodes)) with 3 in Ht. lia.
Defined.

Lemma block_reward_bounded_witness :
  CalcRewardMountByNumber (balances 10000 0) 1000 50 100 BlkMinerRewardAddress 8500 = Ok 1000 /\
  CalcRewardMountByNumber (balances 10000 0) 1000 250 100 BlkMinerRewardAddress 8500 = Ok 722 /\
  (1000 = 0 \/ 722 <= 1000).
Proof.
  split; [reflexivity|]. split; [reflexivity|].
  apply (block_reward_bounded (balances 10000 0) 1000 50 250 100 BlkMinerRewardAddress 8500);
    try reflexivity; unfold RewardFullRate; lia.
Defined.

Definition blockRewards : list RewarTx :=
  [mkRewarTx MAN_COIN MAN_COIN BlkMinerRewardAddress {[11 := 60]} RewardMinerType;
   mkRewarTx MAN_COIN MAN_COIN BlkValidatorRewardAddress {[12 := 30]} RewardValidatorType;
   mkRewarTx MAN_COIN MAN_COIN TxGasRewardAddress {[13 := 500]} RewardTxsType;
   mkRewarTx MAN_COIN MAN_COIN LotteryRewardAddress {[14 := 7]} RewardLotteryType].

Lemma no_overdraft_witness :
  AccumulatorCheck (balances 89 7) blockRewards =
    Ok [mkRewarTx MAN_COIN MAN_COIN TxGasRewardAddress {[13 := 500]} RewardTxsType;
        mkRewarTx MAN_COIN MAN_COIN LotteryRewardAddress {[14 := 7]} RewardLotteryType] /\
  AccumulatorCheck (balances 90 7) blockRewards = Ok blockRewards /\
  exists main mainL,
    main_balance (balanceOrNil (balances 90 7) BlkMinerRewardAddress) = Ok main /\
    main_balance (balanceOrNil (balances 90 7) LotteryRewardAddress) = Ok mainL /\
    paid BlkMinerRewardAddress blockRewards <= main /\
    paid LotteryRewardAddress blockRewards <= mainL.
Proof.
  split; [reflexivity|]. split; [reflexivity|].
  apply (no_overdraft (balances 90 7) blockRewards blockRewards); [..|reflexivity].
  - repeat (apply Forall_cons_2 || apply Forall_nil_2);
      intros k a Hk; cbn [rtTo] in Hk; apply lookup_singleton_Some in Hk as [_ <-]; lia.
  - repeat (apply Forall_cons_2 || apply Forall_nil_2);
      split; simpl; intuition discriminate.
Defined.

Lemma fees_covered_witness :
  feesOf MAN_COIN blockRewards = 500 /\
  exists main rest, rsBalance (balances 90 7) MAN_COIN TxGasRewardAddress = main :: rest /\
                    feesOf MAN_COIN blockRewards <= main.
Proof.
  split; [reflexivity|].
  apply (fees_covered (balances 90 7) blockRewards blockRewards MAN_COIN); [reflexivity|].
  vm_compute. congruence.
Defined.
End Examples.
