(* ===== verification/RewardExec.v ===== *)
(** * Who is rewarded ([reward/rewardexec], [leaderreward], [selectedreward],
      [mineroutreward], [cfg], [blkreward], [txsreward])

    The reward of a block is split between the block's leader or the miner of
    the previous block, the elected nodes by stock, and the foundation.  The
    miner's share is set aside in the state and paid one block later. *)

From S2P Require Import GoLang Broadcast Roles Topology Header Reader Transactions.
From S2P Require Import MatrixState RewardUtil Prelude.

(** What the reward code asks of the chain and of the broadcast configuration
    of the node. *)
Class RewardEnv := {
  re_range :: GoRange;
  re_sort :: GoSort;
  re_order :: AddressOrder;
  re_GetHeaderByHash : Z -> option Header;
  re_GetBCIntervalInfoByNumber : Z -> res read_error BCIntervalInfo;
  re_GetGraphByState : RewardState ->
    res read_error (option TopologyGraph * option ElectGraph)
}.

(** [mineroutreward.MinerOutReward] *)
Record MinerOutReward := mkMinerOutReward {
  PreReward : list MultiCoinMinerOutReward;
  InnerMiners : list Z;
  RewardType : Z
}.

(** [cfg.RewardCfg] with the default [SetReward] *)
Record RewardCfg := mkRewardCfg {
  Calc : string;
  MinersRate : Z;
  ValidatorsRate : Z;
  RewardMount : BlkRewardCfg;
  SetReward_miner : MinerOutReward
}.

(** [rewardexec.BlockReward]; the state is passed to its methods. *)
Record BlockReward := mkBlockReward {
  rewardCfg : RewardCfg;
  foundationAccount : Z;
  bcInterval : BCIntervalInfo;
  topology : option TopologyGraph;
  elect : option ElectGraph
}.

Definition rates (br : BlockReward) : RewardRateCfg := RewardRate (RewardMount (rewardCfg br)).

Section Exec.
Context `{RewardEnv}.

(** ** The leader *)

Definition manparams_IsBroadcastNumber (number stateNumber : Z) : eff bool :=
  match re_GetBCIntervalInfoByNumber stateNumber with
  | Panic => Panic
  | Err _ => Ok false
  | Ok interval => IsBroadcastNumber interval number
  end.

Definition SetLeaderRewards (reward Leader num : Z) : eff Rewards :=
  let* isBroadcast := manparams_IsBroadcastNumber num (u64 (num - 1)) in
  if isBroadcast : bool then Ok None
  else if reward <=? 0 then Ok None
  else if Leader =? zero_addr then Ok None
  else Ok (Some {[Leader := reward]}).

(** ** The elected nodes *)

Definition has_role (type roleType : Z) : bool := type =? Z.land type roleType.

Definition GetTopAndDeposit (roleType : Z) (currentTop : option TopologyGraph)
    (originElectNodes : option ElectGraph) : res read_error (list Z * gmap Z Z) :=
  match originElectNodes, currentTop with
  | Some eg, Some top =>
      if (length (ElectList eg) =? 0)%nat then Err ErrRead
      else if (length (NodeList top) =? 0)%nat then Err ErrRead
      else
        let topNodes := Account <$> filter (fun n => has_role (Type_ n) roleType = true)
                                      (NodeList top) in
        let electNodes :=
          foldl (fun m n => if has_role (enType n) roleType
                            then <[enAccount n := enStock n]> m else m) ∅ (ElectList eg) in
        Ok (topNodes, electNodes)
  | _, _ => Err ErrRead
  end.

(** The rate of a node by its presence in the topology and in the election. *)
Definition NodesRewardMap (newGraph : list Z) (originElectNodes : gmap Z Z) (rewardRate : Z)
  : gmap Z Z :=
  foldl (fun m a => match m !! a with
                    | Some _ => <[a := RewardFullRate]> m
                    | None => <[a := u64 (RewardFullRate - rewardRate)]> m
                    end)
    (foldl (fun m a => <[a := rewardRate]> m) ∅ newGraph)
    (go_range originElectNodes).*1.

Definition finalStock (originElectNodes : gmap Z Z) (k v : Z) : Z :=
  match originElectNodes !! k with
  | Some stock => u64 (stock * v)
  | None => u64 (1 * v)
  end.

Definition CaclSelectedDeposit (newGraph : list Z) (originElectNodes : gmap Z Z)
    (rewardRate : Z) : gmap Z DepositInfo :=
  foldl (fun d kv => <[fst kv := mkDeposit 0 (finalStock originElectNodes (fst kv) (snd kv))]> d)
    ∅ (go_range (NodesRewardMap newGraph originElectNodes rewardRate)).

Definition GetSelectedRewards (reward roleType rate : Z) (topology : option TopologyGraph)
    (elect : option ElectGraph) : eff Rewards :=
  if reward <=? 0 then Ok None
  else match GetTopAndDeposit roleType topology elect with
       | Panic => Panic
       | Err _ => Ok None
       | Ok (currentTop, originElectNodes) =>
           let selectedNodesDeposit := CaclSelectedDeposit currentTop originElectNodes rate in
           if (size selectedNodesDeposit =? 0)%nat then Ok None
           else CalcStockRate reward selectedNodesDeposit
       end.

(** ** The miner of the previous block *)

Definition findMultiCoinMinerOutReward (cointype : string) (l : list MultiCoinMinerOutReward)
  : option Z :=
  match filter (fun v => moCoinType v = cointype) l with
  | v :: _ => Some (moReward v)
  | [] => None
  end.

Definition addMultiCoinMinerOutReward (cointype : string) (reward : Z)
    (l : list MultiCoinMinerOutReward) : list MultiCoinMinerOutReward :=
  let minerOutReward := mkMinerOut cointype reward in
  let findFlag := existsb (fun v => String.eqb (moCoinType v) cointype) l in
  let l := (fun v => if String.eqb (moCoinType v) cointype then minerOutReward else v) <$> l in
  if findFlag then l else l ++ [minerOutReward].

(** Errors are logged, and the state keeps what it has. *)
Definition SetPreMinerReward (st : RewardState) (reward rewardType : Z) (coinType : string)
  : eff RewardState :=
  if rewardType =? TxsReward then
    if String.eqb (GetVersionInfo st) VersionAlpha then Ok (fst (SetPreMinerTxsReward st reward))
    else if existsb (String.eqb (GetVersionInfo st))
              [VersionBeta; VersionGamma; VersionDelta; VersionAIMine]
    then match GetPreMinerMultiCoinTxsReward st with
         | Panic => Panic
         | Err _ =>
             Ok (fst (SetPreMinerMultiCoinTxsReward st
                        (addMultiCoinMinerOutReward coinType reward [])))
         | Ok l =>
             Ok (fst (SetPreMinerMultiCoinTxsReward st
                        (addMultiCoinMinerOutReward coinType reward l)))
         end
    else Ok st
  else Ok (fst (SetPreMinerBlkReward st reward)).

Inductive miner_error := ErrLowNumber | ErrReward | ErrHeader | ErrCoinbase | ErrInnerMiner.

(** The loop over the heights [i], [i - 1], ...; [fuel] is the number of
    heights above [originNum].  A missing header is dereferenced. *)
Fixpoint minerHeader (bc : BCIntervalInfo) (fuel : nat) (i preHash : Z) (header : option Header)
  : res miner_error (option Header) :=
  match fuel with
  | O => Ok header
  | S fuel =>
      match re_GetHeaderByHash preHash with
      | None => Panic
      | Some h =>
          let* isBroadcast := IsBroadcastNumber bc i in
          if (isBroadcast : bool) || IsSuperHeader h
          then minerHeader bc fuel (i - 1) (hParentHash h) (Some h)
          else Ok (Some h)
      end
  end.

Definition originNum (num : Z) : Z := if num <? 101 then 0 else num - 100.

Definition canSetMinerOutRewards (num reward : Z) (bc : BCIntervalInfo) (parentHash : Z)
    (innerMiners : list Z) : res miner_error Z :=
  if num <? 2 then Err ErrLowNumber
  else if reward <=? 0 then Err ErrReward
  else
    let* header := minerHeader bc (Z.to_nat (num - 1 - originNum num)) (num - 1) parentHash None in
    match header with
    | None => Err ErrHeader
    | Some h =>
        if hCoinbase h =? zero_addr then Err ErrCoinbase
        else if existsb (Z.eqb (hCoinbase h)) innerMiners then Err ErrInnerMiner
        else Ok (hCoinbase h)
    end.

Definition SetMinerOutRewards (mr : MinerOutReward) (st : RewardState) (curReward num : Z)
    (parentHash : Z) (coinType : string) : eff (RewardState * Rewards) :=
  match GetBroadcastInterval st with
  | Panic => Panic
  | Err _ => Ok (st, None)
  | Ok bc =>
      let* isBroadcast := IsBroadcastNumber bc num in
      if isBroadcast : bool then Ok (st, None)
      else
        let reward := findMultiCoinMinerOutReward coinType (PreReward mr) in
        let* st := SetPreMinerReward st curReward (RewardType mr) coinType in
        match reward with
        | None => Ok (st, None)
        | Some reward =>
            match canSetMinerOutRewards num reward bc parentHash (InnerMiners mr) with
            | Panic => Panic
            | Err _ => Ok (st, None)
            | Ok coinBase => Ok (st, SetAccountRewards (Some ∅) coinBase reward)
            end
        end
  end.

(** ** The foundation *)

Definition canCalcFoundationRewards (br : BlockReward) (blockReward num : Z) : eff bool :=
  let* isBroadcast := IsBroadcastNumber (bcInterval br) num in
  if isBroadcast : bool then Ok false
  else if blockReward <=? 0 then Ok false
  else Ok true.

Definition calcFoundationRewards (br : BlockReward) (blockReward num : Z) : eff Rewards :=
  let* can := canCalcFoundationRewards br blockReward num in
  if can : bool then Ok (Some {[foundationAccount br := blockReward]}) else Ok None.

(** ** Splitting a reward *)

Definition CalcValidatorRateMount (br : BlockReward) (blockReward : Z) : Z * Z * Z :=
  (CalcRateReward blockReward (LeaderRate (rates br)),
   CalcRateReward blockReward (ElectedValidatorsRate (rates br)),
   CalcRateReward blockReward (FoundationValidatorRate (rates br))).

Definition CalcMinerRateMount (br : BlockReward) (blockReward : Z) : Z * Z * Z :=
  (CalcRateReward blockReward (MinerOutRate (rates br)),
   CalcRateReward blockReward (ElectedMinerRate (rates br)),
   CalcRateReward blockReward (FoundationMinerRate (rates br))).

Definition merge3 (a b c : Rewards) : Rewards :=
  MergeReward (MergeReward (MergeReward (Some ∅) a) b) c.

Definition getValidatorRewards (br : BlockReward) (blockReward Leader num : Z) : eff Rewards :=
  let '(leaderBlkMount, electedMount, FoundationsMount) :=
    CalcValidatorRateMount br blockReward in
  let* leaderReward := SetLeaderRewards leaderBlkMount Leader num in
  let* electReward :=
    GetSelectedRewards electedMount (Z.lor RoleValidator RoleBackupValidator)
      (BackupRewardRate (rates br)) (topology br) (elect br) in
  let* foundationReward := calcFoundationRewards br FoundationsMount num in
  Ok (merge3 leaderReward electReward foundationReward).

Definition getMinerRewards (br : BlockReward) (st : RewardState) (blockReward num : Z)
    (parentHash : Z) (coinType : string) : eff (RewardState * Rewards) :=
  let '(minerOutAmount, electedMount, FoundationsMount) := CalcMinerRateMount br blockReward in
  let* (st, minerOutReward) :=
    SetMinerOutRewards (SetReward_miner (rewardCfg br)) st minerOutAmount num parentHash
      coinType in
  let* electReward :=
    GetSelectedRewards electedMount (Z.lor RoleMiner RoleBackupMiner)
      (BackupRewardRate (rates br)) (topology br) (elect br) in
  let* foundationReward := calcFoundationRewards br FoundationsMount num in
  Ok (st, merge3 minerOutReward electReward foundationReward).

(** [blockReward.Uint64() == 0] looks at the low 64 bits only. *)
Definition CalcValidatorRewards (br : BlockReward) (st : RewardState) (Leader num : Z)
  : eff Rewards :=
  let m := RewardMount (rewardCfg br) in
  let* blockReward :=
    CalcRewardMountByNumber st (ValidatorMount m * GetPrice (Calc (rewardCfg br)))
      (u64 (num - 1)) (ValidatorAttenuationNum m) BlkValidatorRewardAddress
      (ValidatorAttenuationRate m) in
  if u64 blockReward =? 0 then Ok None
  else
    let* isBroadcast := IsBroadcastNumber (bcInterval br) num in
    if isBroadcast : bool then Ok None else getValidatorRewards br blockReward Leader num.

Definition CalcMinerRewards (br : BlockReward) (st : RewardState) (num parentHash : Z)
  : eff (RewardState * Rewards) :=
  let m := RewardMount (rewardCfg br) in
  let* blockReward :=
    CalcRewardMountByNumber st (MinerMount m * GetPrice (Calc (rewardCfg br)))
      (u64 (num - 1)) (MinerAttenuationNum m) BlkMinerRewardAddress (MinerAttenuationRate m) in
  if u64 blockReward =? 0 then Ok (st, None)
  else
    let* isBroadcast := IsBroadcastNumber (bcInterval br) num in
    if isBroadcast : bool then Ok (st, None)
    else getMinerRewards br st blockReward num parentHash MAN_COIN.

Definition CalcNodesRewards (br : BlockReward) (st : RewardState) (blockReward Leader num : Z)
    (parentHash : Z) (coinType : string) : eff (RewardState * Rewards) :=
  let* isBroadcast := IsBroadcastNumber (bcInterval br) num in
  if isBroadcast : bool then Ok (st, None)
  else
    let minersBlkReward := CalcRateReward blockReward (MinersRate (rewardCfg br)) in
    let* (st, minerRewards) := getMinerRewards br st minersBlkReward num parentHash coinType in
    if blockReward <=? 0 then Ok (st, minerRewards)
    else
      let validatorsBlkReward := CalcRateReward blockReward (ValidatorsRate (rewardCfg br)) in
      let* validatorReward := getValidatorRewards br validatorsBlkReward Leader num in
      Ok (st, MergeReward (MergeReward (Some ∅) validatorReward) minerRewards).

(** ** Setting up *)

(** [rewardexec.New]: nil unless the rates add up, in 64-bit arithmetic. *)
Definition rewardexec_New (cfg : RewardCfg) (interval : BCIntervalInfo) (foundation : Z)
    (top : option TopologyGraph) (elect : option ElectGraph) : option BlockReward :=
  let r := RewardRate (RewardMount cfg) in
  if negb (RewardFullRate =? u64 (MinerOutRate r + ElectedMinerRate r + FoundationMinerRate r))
  then None
  else if negb (RewardFullRate =?
                u64 (LeaderRate r + ElectedValidatorsRate r + FoundationValidatorRate r))
  then None
  else if negb (RewardFullRate =? u64 (OriginElectOfflineRate r + BackupRewardRate r))
  then None
  else Some (mkBlockReward cfg foundation interval top elect).

(** [if err != nil { return nil }] *)
Definition or_nil {A B} (m : res read_error A) (k : A -> eff (option B)) : eff (option B) :=
  match m with
  | Ok a => k a
  | Err _ => Ok None
  | Panic => Panic
  end.

Definition blkreward_New (preSt ppreSt : RewardState) : eff (option BlockReward) :=
  or_nil (GetBlkCalc preSt) (fun data =>
  if String.eqb data Stop then Ok None
  else
  or_nil (GetBlkRewardCfg preSt) (fun RC =>
  or_nil (GetBroadcastInterval preSt) (fun interval =>
  or_nil (GetFoundationAccount preSt) (fun foundation =>
  or_nil (GetInnerMinerAccounts ppreSt) (fun innerMiners =>
  or_nil (re_GetGraphByState preSt) (fun '(currentTop, originElectNodes) =>
  or_nil (GetPreMinerReward preSt BlkReward) (fun preMiner =>
  let cfg := mkRewardCfg data 0 0 RC (mkMinerOutReward preMiner innerMiners BlkReward) in
  Ok (rewardexec_New cfg interval foundation currentTop originElectNodes)))))))).

(** An error reading the previous miner's fees is only logged. *)
Definition txsreward_New (preSt ppreSt : RewardState) : eff (option BlockReward) :=
  or_nil (GetTxsCalc preSt) (fun data =>
  if String.eqb data Stop then Ok None
  else
  or_nil (GetTxsRewardCfg preSt) (fun TC =>
  or_nil (GetBroadcastInterval preSt) (fun interval =>
  or_nil (GetFoundationAccount preSt) (fun foundation =>
  or_nil (GetInnerMinerAccounts ppreSt) (fun innerMiners =>
  if negb (RewardFullRate =? u64 (tcValidatorsRate TC + tcMinersRate TC)) then Ok None
  else
  or_nil (re_GetGraphByState preSt) (fun '(currentTop, originElectNodes) =>
  let* preMiner := match GetPreMinerReward preSt TxsReward with
                   | Ok l => Ok l
                   | Err _ => Ok []
                   | Panic => Panic
                   end in
  let cfg := mkRewardCfg data (tcMinersRate TC) (tcValidatorsRate TC)
               (mkBlkCfg 0 0 0 0 0 0 (tcRewardRate TC))
               (mkMinerOutReward preMiner innerMiners TxsReward) in
  Ok (rewardexec_New cfg interval foundation currentTop originElectNodes))))))).
End Exec.

(** ** Shares never exceed the reward *)

Definition rate_ok (x : Z) : Prop := 0 <= x <= RewardFullRate.

Record rates_sane (r : RewardRateCfg) : Prop := {
  rs_minerOut : rate_ok (MinerOutRate r);
  rs_electedMiner : rate_ok (ElectedMinerRate r);
  rs_foundationMiner : rate_ok (FoundationMinerRate r);
  rs_leader : rate_ok (LeaderRate r);
  rs_electedValidators : rate_ok (ElectedValidatorsRate r);
  rs_foundationValidator : rate_ok (FoundationValidatorRate r);
  rs_backup : rate_ok (BackupRewardRate r)
}.

(** Topologies and elections have few nodes, and stocks are 16 bits wide. *)
Definition nodes_sane (top : option TopologyGraph) (eg : option ElectGraph) : Prop :=
  (forall t, top = Some t -> Z.of_nat (length (NodeList t)) <= 4096) /\
  (forall e, eg = Some e -> Z.of_nat (length (ElectList e)) <= 4096 /\
                            Forall (fun n => is_u16 (enStock n)) (ElectList e)).

Lemma CalcRateReward_nonneg b x : 0 <= b -> rate_ok x -> 0 <= CalcRateReward b x.
Proof. intros Hb [Hx _]. apply Z.div_pos; [nia|reflexivity]. Qed.

Lemma CalcRateReward_split b x y z :
  x + y + z = RewardFullRate ->
  CalcRateReward b x + CalcRateReward b y + CalcRateReward b z <= b.
Proof.
  unfold CalcRateReward, RewardFullRate. intros Hs.
  pose proof (Z.mul_div_le (b * x) 10000). pose proof (Z.mul_div_le (b * y) 10000).
  pose proof (Z.mul_div_le (b * z) 10000). nia.
Qed.

(** Rewards that pay at most [b] in all. *)
Definition within (b : Z) (r : Rewards) : Prop := nonneg r /\ rtotal r <= b.

Lemma within_nil b : 0 <= b -> within b None.
Proof. intros Hb. split; [|done]. intros k v Hk. by rewrite (lookup_empty k : rmap _ !! k = None) in Hk. Qed.

Lemma within_empty b : 0 <= b -> within b (Some ∅).
Proof. intros Hb. split; [|done]. intros k v Hk. by rewrite (lookup_empty k : rmap _ !! k = None) in Hk. Qed.

Lemma within_singleton a b : 0 <= b -> within b (Some {[a := b]}).
Proof.
  intros Hb. split; [unfold nonneg; cbn; by apply map_Forall_singleton|].
  unfold rtotal. simpl. unfold mtotal. rewrite map_to_list_singleton. unfold Zsum. simpl. lia.
Qed.

Lemma within_mono b c r : within b r -> b <= c -> within c r.
Proof. intros [Hn Ht] Hbc. split; [done|lia]. Qed.

#[local] Hint Resolve within_nil within_empty within_singleton : reward.

Section Shares.
Context `{RewardEnv}.

Lemma within_merge a b x y : within a x -> within b y -> within (a + b) (MergeReward x y).
Proof.
  intros [Hx Tx] [Hy Ty]. destruct (MergeReward_total x y Hx Hy). split; [done|lia].
Qed.

Lemma within_merge3 a b c x y z :
  within a x -> within b y -> within c z -> within (a + b + c) (merge3 x y z).
Proof.
  intros Hx Hy Hz. unfold merge3. apply within_merge; [|done]. apply within_merge; [|done].
  replace a with (0 + a) by lia. apply within_merge; [by apply within_empty|done].
Qed.

Lemma SetLeaderRewards_within b l n r :
  0 <= b -> SetLeaderRewards b l n = Ok r -> within b r.
Proof.
  intros Hb. unfold SetLeaderRewards. intros Hr. apply res_bind_Ok in Hr as (isB & _ & Hr).
  destruct isB; [|destruct (b <=? 0); [|destruct (l =? zero_addr)]]; injection Hr as <-;
    auto with reward.
Qed.

Lemma calcFoundationRewards_within br b n r :
  0 <= b -> calcFoundationRewards br b n = Ok r -> within b r.
Proof.
  intros Hb Hr. unfold calcFoundationRewards in Hr. apply res_bind_Ok in Hr as (can & _ & Hr).
  destruct can; injection Hr as <-; auto with reward.
Qed.

(** *** The elected nodes *)

Lemma foldl_insert_lookup {A B} (f : Z -> A -> B) (l : list (Z * A)) (d : gmap Z B) k :
  NoDup l.*1 ->
  foldl (fun d kv => <[fst kv := f (fst kv) (snd kv)]> d) d l !! k =
  match (list_to_map l : gmap Z A) !! k with Some v => Some (f k v) | None => d !! k end.
Proof.
  revert d. induction l as [|[a v] l IH]; intros d Hnd; [done|].
  apply NoDup_cons in Hnd as [Ha Hnd]. cbn [foldl fst snd list_to_map foldr].
  rewrite IH by done. cbn [foldr uncurry]. destruct (decide (k = a)) as [->|Hk].
  - rewrite not_elem_of_list_to_map_1 by done. by rewrite !lookup_insert_eq.
  - by rewrite !lookup_insert_ne.
Qed.

Lemma CaclSelectedDeposit_lookup g e x k :
  CaclSelectedDeposit g e x !! k =
  (fun v => mkDeposit 0 (finalStock e k v)) <$> NodesRewardMap g e x !! k.
Proof.
  unfold CaclSelectedDeposit.
  rewrite (foldl_insert_lookup (fun k v => mkDeposit 0 (finalStock e k v)))
    by apply NoDup_fst_go_range.
  rewrite list_to_map_go_range. by destruct (NodesRewardMap g e x !! k).
Qed.

Lemma foldl_map_Forall {A} (P : Z -> Prop) (f : gmap Z Z -> A -> gmap Z Z) l m :
  (forall m a, map_Forall (fun _ v => P v) m -> map_Forall (fun _ v => P v) (f m a)) ->
  map_Forall (fun _ v => P v) m -> map_Forall (fun _ v => P v) (foldl f m l).
Proof. intros Hf. revert m. induction l as [|a l IH]; intros m Hm; simpl; auto. Qed.

Lemma foldl_dom {A} (key : A -> Z) (f : gmap Z Z -> A -> gmap Z Z) l m :
  (forall m a, dom (f m a) ⊆ {[key a]} ∪ dom m) ->
  (size (dom (foldl f m l)) <= length l + size (dom m))%nat.
Proof.
  intros Hf. revert m. induction l as [|a l IH]; intros m; simpl; [lia|].
  specialize (IH (f m a)). pose proof (subseteq_size _ _ (Hf m a)) as Hs.
  pose proof (size_union_alt {[key a]} (dom m)) as Hu. rewrite size_singleton in Hu.
  pose proof (subseteq_size (dom m ∖ {[key a]}) (dom m) ltac:(set_solver)). lia.
Qed.

Lemma NodesRewardMap_rates g e x :
  rate_ok x -> map_Forall (fun _ v => rate_ok v) (NodesRewardMap g e x).
Proof.
  intros Hx. assert (Hf : rate_ok RewardFullRate) by (split; done). unfold NodesRewardMap.
  apply foldl_map_Forall.
  - intros m a Hm. destruct (m !! a); apply map_Forall_insert_2; try done.
    unfold rate_ok, RewardFullRate in *. rewrite u64_small by (unfold is_u64; lia). lia.
  - apply foldl_map_Forall; [|apply map_Forall_empty].
    intros m a Hm. by apply map_Forall_insert_2.
Qed.

Lemma NodesRewardMap_size g e x : (size (NodesRewardMap g e x) <= length g + size e)%nat.
Proof.
  rewrite <- size_dom. unfold NodesRewardMap.
  etransitivity; [apply (foldl_dom id); intros m a; destruct (m !! a); set_solver|].
  rewrite length_fmap, length_go_range.
  assert (Hg : (size (dom (foldl (fun (m : gmap Z Z) a => <[a := x]> m) ∅ g)) <= length g)%nat).
  { etransitivity; [apply (foldl_dom id); intros m a; set_solver|].
    rewrite dom_empty_L, size_empty. lia. }
  lia.
Qed.

Lemma selected_stocks g e x :
  rate_ok x -> map_Forall (fun _ s => is_u16 s) e -> Z.of_nat (length g + size e) <= 8192 ->
  map_Forall (fun _ i => 0 <= FixStock i) (CaclSelectedDeposit g e x) /\
  totalStock (CaclSelectedDeposit g e x) < 2 ^ 64.
Proof.
  intros Hx He Hs.
  assert (Hd : forall k i, CaclSelectedDeposit g e x !! k = Some i -> 0 <= FixStock i <= 2 ^ 30).
  { intros k i Hi. rewrite CaclSelectedDeposit_lookup in Hi.
    destruct (NodesRewardMap g e x !! k) as [v|] eqn:Hv; simplify_eq/=.
    pose proof (NodesRewardMap_rates g e x Hx _ _ Hv) as Hr. simpl in Hr.
    unfold finalStock, rate_ok, RewardFullRate in *. destruct (e !! k) as [s|] eqn:Hk.
    - pose proof (He _ _ Hk) as Hu. simpl in Hu. unfold is_u16 in Hu.
      rewrite u64_small by (unfold is_u64; nia). nia.
    - rewrite u64_small by (unfold is_u64; lia). lia. }
  split; [intros k i Hi; by apply Hd in Hi as [? _]|].
  unfold totalStock.
  pose proof (Zsum_bound (FixStock <$> (map_to_list (CaclSelectedDeposit g e x)).*2) (2 ^ 30)) as Hb.
  rewrite !length_fmap, length_map_to_list in Hb.
  assert (Hz : (size (CaclSelectedDeposit g e x) <= length g + size e)%nat).
  { rewrite <- size_dom. etransitivity; [|apply (NodesRewardMap_size g e x)].
    rewrite <- size_dom. apply subseteq_size. intros k. rewrite !elem_of_dom.
    rewrite CaclSelectedDeposit_lookup. by intros ?%fmap_is_Some. }
  assert (Forall (fun v => v <= 2 ^ 30)
            (FixStock <$> (map_to_list (CaclSelectedDeposit g e x)).*2)) as Hf.
  { apply Forall_fmap, Forall_fmap, Forall_forall. intros [k i] Hin.
    apply elem_of_map_to_list, Hd in Hin. simpl. lia. }
  specialize (Hb Hf). lia.
Qed.

Lemma GetTopAndDeposit_sane role top eg g e :
  nodes_sane top eg -> GetTopAndDeposit role top eg = Ok (g, e) ->
  map_Forall (fun _ s => is_u16 s) e /\ Z.of_nat (length g + size e) <= 8192.
Proof.
  intros [Ht He] Hg. unfold GetTopAndDeposit in Hg.
  destruct eg as [eg|]; [|done]. destruct top as [top|]; [|done].
  destruct (length (ElectList eg) =? 0)%nat; [done|].
  destruct (length (NodeList top) =? 0)%nat; [done|]. injection Hg as <- <-.
  specialize (Ht _ eq_refl). destruct (He _ eq_refl) as [Hl Hu]. split.
  - clear -Hu.
    assert (Hm : map_Forall (fun (_ : Z) s => is_u16 s) (∅ : gmap Z Z)) by done.
    revert Hm Hu. generalize (∅ : gmap Z Z).
    induction (ElectList eg) as [|n l IH]; intros m Hm Hu; [done|].
    apply Forall_cons in Hu as [Hn Hu]. cbn [foldl]. apply IH; [|done].
    destruct (has_role _ _); [by apply map_Forall_insert_2|done].
  - rewrite length_fmap. pose proof (length_filter (fun n => has_role (Type_ n) role = true)
      (NodeList top)).
    rewrite <- size_dom.
    pose proof (foldl_dom enAccount (fun m n => if has_role (enType n) role
      then <[enAccount n := enStock n]> m else m) (ElectList eg) ∅) as Hd.
    rewrite dom_empty_L, size_empty in Hd.
    specialize (Hd ltac:(intros m n; destruct (has_role _ _); set_solver)). lia.
Qed.

Lemma GetSelectedRewards_within b role x top eg r :
  0 <= b -> rate_ok x -> nodes_sane top eg ->
  GetSelectedRewards b role x top eg = Ok r -> within b r.
Proof.
  intros Hb Hx Hs. unfold GetSelectedRewards.
  destruct (b <=? 0); [intros [= <-]; auto with reward|].
  destruct (GetTopAndDeposit role top eg) as [[g e]| |] eqn:Hg; [|intros [= <-]; auto with reward|done].
  destruct (size _ =? 0)%nat; [intros [= <-]; auto with reward|].
  destruct (GetTopAndDeposit_sane _ _ _ _ _ Hs Hg) as [He Hl].
  destruct (selected_stocks g e x Hx He Hl). intros Hr. by eapply CalcStockRate_total.
Qed.

(** *** The miner *)

Definition pending (mr : MinerOutReward) (coin : string) : Z :=
  default 0 (findMultiCoinMinerOutReward coin (PreReward mr)).

Lemma canSetMinerOutRewards_pos num v bc ph inner a :
  canSetMinerOutRewards num v bc ph inner = Ok a -> 0 < v.
Proof.
  unfold canSetMinerOutRewards. destruct (num <? 2); [done|].
  destruct (Z.leb_spec v 0); [done|]. done.
Qed.

(** Either nothing happens, or the current share is stored and at most the
    pending one is paid. *)
Lemma SetMinerOutRewards_spec mr st cur num ph coin st' r :
  SetMinerOutRewards mr st cur num ph coin = Ok (st', r) ->
  (st' = st /\ r = None) \/
  (has_manager st = true /\ SetPreMinerReward st cur (RewardType mr) coin = Ok st' /\
   (r = None \/ within (pending mr coin) r)).
Proof.
  unfold SetMinerOutRewards.
  destruct (GetBroadcastInterval st) as [bc| |] eqn:Hbc; [|intros [= <- <-]; by left|done].
  assert (has_manager st = true) as Hm.
  { unfold GetBroadcastInterval, read_setting in Hbc. by destruct (has_manager st). }
  intros Hr. apply res_bind_Ok in Hr as (isB & _ & Hr).
  destruct isB; [injection Hr as <- <-; by left|].
  apply res_bind_Ok in Hr as (st1 & Hst & Hr). right. unfold pending.
  destruct (findMultiCoinMinerOutReward coin (PreReward mr)) as [v|];
    [|injection Hr as <- <-; auto].
  destruct (canSetMinerOutRewards _ _ _ _ _) as [a| |] eqn:Hc; [|injection Hr as <- <-; auto|done].
  injection Hr as <- <-. split; [done|]. split; [done|]. right.
  apply canSetMinerOutRewards_pos in Hc. simpl.
  destruct (SetAccountRewards_total (Some ∅) a v) as [Hn Ht]; [apply (within_empty 0); lia|lia|].
  split; [done|]. unfold rtotal in *. cbn in Ht |- *. unfold mtotal at 2 in Ht.
  rewrite map_to_list_empty in Ht. unfold Zsum in Ht. simpl in Ht. lia.
Qed.
End Shares.

(** ** Conservation *)

Record br_sane (br : BlockReward) : Prop := {
  bs_rates : rates_sane (rates br);
  bs_nodes : nodes_sane (topology br) (elect br);
  bs_miner : MinerOutRate (rates br) + ElectedMinerRate (rates br) +
             FoundationMinerRate (rates br) = RewardFullRate;
  bs_validator : LeaderRate (rates br) + ElectedValidatorsRate (rates br) +
                 FoundationValidatorRate (rates br) = RewardFullRate
}.

(** With sane rates the 64-bit test of [New] is exact. *)
Lemma rewardexec_New_sane cfg interval f top eg br :
  rewardexec_New cfg interval f top eg = Some br ->
  rates_sane (rates br) -> nodes_sane (topology br) (elect br) ->
  br_sane br /\ rewardCfg br = cfg.
Proof.
  unfold rewardexec_New. intros Hn. repeat (case_match; [done|]). injection Hn as <-.
  unfold rates. simpl. intros Hr Hs. split; [|done].
  destruct Hr as [? ? ? ? ? ? ?]. unfold rate_ok, RewardFullRate in *.
  assert (forall x, 0 <= x <= 30000 -> u64 x = x) as Hu
    by (intros; apply u64_small; unfold is_u64; lia).
  rewrite !negb_false_iff, !Z.eqb_eq in *. rewrite !Hu in * by lia.
  constructor; unfold rates, RewardFullRate; simpl; try done; constructor; done.
Qed.

Section Conservation.
Context `{RewardEnv}.

Lemma getValidatorRewards_within br b l n r :
  br_sane br -> 0 <= b -> getValidatorRewards br b l n = Ok r -> within b r.
Proof.
  intros [Hr Hs _ Hv] Hb. unfold getValidatorRewards, CalcValidatorRateMount. intros Hok.
  apply res_bind_Ok in Hok as (r1 & H1 & Hok). apply res_bind_Ok in Hok as (r2 & H2 & Hok).
  apply res_bind_Ok in Hok as (r3 & H3 & [= <-]). destruct Hr.
  eapply within_mono; [|by apply CalcRateReward_split]. apply within_merge3.
  - eapply SetLeaderRewards_within; [by apply CalcRateReward_nonneg|done].
  - eapply GetSelectedRewards_within; [by apply CalcRateReward_nonneg|..]; done.
  - eapply calcFoundationRewards_within; [by apply CalcRateReward_nonneg|done].
Qed.

(** The share set aside for the miner of the block. *)
Definition minerShare (br : BlockReward) (b : Z) : Z := CalcRateReward b (MinerOutRate (rates br)).

Definition feeShare (br : BlockReward) (fees : Z) : Z :=
  minerShare br (CalcRateReward fees (MinersRate (rewardCfg br))).

Lemma getMinerRewards_within br st b n ph coin st' r :
  br_sane br -> 0 <= b -> 0 <= pending (SetReward_miner (rewardCfg br)) coin ->
  getMinerRewards br st b n ph coin = Ok (st', r) ->
  0 <= minerShare br b /\
  (st' = st /\ within (b - minerShare br b) r \/
   has_manager st = true /\
   SetPreMinerReward st (minerShare br b) (RewardType (SetReward_miner (rewardCfg br))) coin =
     Ok st' /\
   within (pending (SetReward_miner (rewardCfg br)) coin + b - minerShare br b) r).
Proof.
  intros [Hr Hs Hm _] Hb Hp. unfold getMinerRewards, CalcMinerRateMount, minerShare. intros Hok.
  apply res_bind_Ok in Hok as ([st1 r1] & H1 & Hok).
  apply res_bind_Ok in Hok as (r2 & H2 & Hok). apply res_bind_Ok in Hok as (r3 & H3 & [= <- <-]).
  destruct Hr. split; [by apply CalcRateReward_nonneg|].
  pose proof (CalcRateReward_split b _ _ _ Hm).
  apply GetSelectedRewards_within in H2; [|by apply CalcRateReward_nonneg|done..].
  apply calcFoundationRewards_within in H3; [|by apply CalcRateReward_nonneg].
  assert (Hmerge : forall c, within c r1 -> within (c + b - CalcRateReward b (MinerOutRate (rates br)))
    (merge3 r1 r2 r3)).
  { intros c Hc. eapply within_mono; [by apply within_merge3|lia]. }
  apply SetMinerOutRewards_spec in H1 as [[-> ->]|(Hman & Hst & Hr1)].
  - left. split; [done|]. apply (Hmerge 0), within_nil. lia.
  - right. split; [done|]. split; [done|]. apply Hmerge.
    destruct Hr1 as [->|]; [by apply within_nil|done].
Qed.
End Conservation.

(** Fees are conserved.  What [CalcNodesRewards] pays for the fees of a
    coin, together with the share it sets aside for the miner, is at most the
    fees plus the share set aside before. *)
Theorem fee_rewards_conserved `{RewardEnv} br st fees l n ph coin st' r :
  br_sane br -> rate_ok (MinersRate (rewardCfg br)) -> rate_ok (ValidatorsRate (rewardCfg br)) ->
  MinersRate (rewardCfg br) + ValidatorsRate (rewardCfg br) = RewardFullRate ->
  0 <= fees -> 0 <= pending (SetReward_miner (rewardCfg br)) coin ->
  CalcNodesRewards br st fees l n ph coin = Ok (st', r) ->
  nonneg r /\
  (st' = st /\ rtotal r <= fees \/
   SetPreMinerReward st (feeShare br fees) (RewardType (SetReward_miner (rewardCfg br))) coin = Ok st' /\
   rtotal r + feeShare br fees <= fees + pending (SetReward_miner (rewardCfg br)) coin).
Proof.
  intros Hbr Hmr Hvr Hsum Hf Hp. unfold CalcNodesRewards. intros Hok.
  apply res_bind_Ok in Hok as (isB & _ & Hok).
  destruct isB; [injection Hok as <- <-; destruct (within_nil fees Hf); auto|].
  apply res_bind_Ok in Hok as ([st1 rm] & Hm & Hok).
  pose proof (CalcRateReward_nonneg fees _ Hf Hmr) as Hb.
  pose proof (CalcRateReward_nonneg fees _ Hf Hvr) as Hbv.
  pose proof (CalcRateReward_split fees _ _ 0 ltac:(rewrite Z.add_0_r; exact Hsum)) as Hsplit.
  assert (CalcRateReward fees 0 = 0) as Hz by (unfold CalcRateReward; by rewrite Z.mul_0_r).
  destruct (getMinerRewards_within _ _ _ _ _ _ _ _ Hbr Hb Hp Hm) as [Hs Hm'].
  fold (feeShare br fees) in Hs, Hm'.
  assert (st' = st1 /\ forall c, within c rm ->
    within (c + CalcRateReward fees (ValidatorsRate (rewardCfg br))) r) as [-> Hr].
  { destruct (fees <=? 0); [injection Hok as <- <-; split; [done|]; intros c Hc;
      eapply within_mono; [exact Hc|lia]|].
    apply res_bind_Ok in Hok as (rv & Hv & [= <- <-]). split; [done|]. intros c Hc.
    eapply within_mono; [apply (within_merge (0 + CalcRateReward fees (ValidatorsRate (rewardCfg br))) c)|lia];
      [|exact Hc].
    apply within_merge; [by apply within_empty|by eapply getValidatorRewards_within]. }
  destruct Hm' as [(-> & Hw)|(_ & Hst & Hw)]; apply Hr in Hw as [Hn Ht]; split; try done.
  - left. split; [done|lia].
  - right. split; [done|lia].
Qed.

(** *** Block rewards over a chain *)

(** The amounts a block gives to miners and validators. *)
Definition minerMount (br : BlockReward) (st : RewardState) (num : Z) : eff Z :=
  let m := RewardMount (rewardCfg br) in
  CalcRewardMountByNumber st (MinerMount m * GetPrice (Calc (rewardCfg br))) (u64 (num - 1))
    (MinerAttenuationNum m) BlkMinerRewardAddress (MinerAttenuationRate m).
Definition validatorMount (br : BlockReward) (st : RewardState) (num : Z) : eff Z :=
  let m := RewardMount (rewardCfg br) in
  CalcRewardMountByNumber st (ValidatorMount m * GetPrice (Calc (rewardCfg br))) (u64 (num - 1))
    (ValidatorAttenuationNum m) BlkValidatorRewardAddress (ValidatorAttenuationRate m).

Record mounts_sane (m : BlkRewardCfg) : Prop := {
  ms_miner : 0 <= MinerAttenuationRate m /\ 0 <= MinerAttenuationNum m;
  ms_validator : 0 <= ValidatorAttenuationRate m /\ 0 <= ValidatorAttenuationNum m
}.

(** What the state has set aside for the miner of the last block. *)
Definition reserved (st : RewardState) : Z :=
  match rsPreMinerBlk st with Ok v => v | _ => 0 end.

Inductive blk_run `{RewardEnv} : RewardState -> Z -> Z -> RewardState -> Prop :=
| run_done st : blk_run st 0 0 st
  (** a block with mounts [Rm] and [Rv] pays the rewards [rm] and [rv] *)
| run_block pre ppre st br num parentHash leader st1 Rm Rv rm rv R P st2 :
    rsPreMinerBlk pre = rsPreMinerBlk st ->
    blkreward_New pre ppre = Ok (Some br) ->
    rates_sane (rates br) -> nodes_sane (topology br) (elect br) ->
    mounts_sane (RewardMount (rewardCfg br)) ->
    minerMount br st num = Ok Rm -> CalcMinerRewards br st num parentHash = Ok (st1, rm) ->
    validatorMount br st1 num = Ok Rv -> CalcValidatorRewards br st1 leader num = Ok rv ->
    blk_run st1 R P st2 ->
    blk_run st (Rm + Rv + R) (rtotal rm + rtotal rv + P) st2
  (** everything else in the state may change between the blocks *)
| run_other st st1 R P st2 :
    rsPreMinerBlk st1 = rsPreMinerBlk st -> blk_run st1 R P st2 -> blk_run st R P st2.

Section Run.
Context `{RewardEnv}.

Lemma mount_nonneg st b num half a x r :
  0 <= x -> 0 <= half -> CalcRewardMountByNumber st b (u64 num) half a x = Ok r -> 0 <= r.
Proof.
  intros Hx Hh Hr. apply CalcRewardMountByNumber_spec in Hr as [->|(Hb & -> & _)]; [lia|].
  pose proof (u64_range num) as [Hn _].
  assert (0 <= CalcN half (u64 num)).
  { unfold CalcN. bcase; [lia|]. apply Z.div_pos; lia. }
  unfold CalcRewardMount. bcase; [done|].
  apply Z.div_pos; [apply Z.mul_nonneg_nonneg; [done|by apply Z.pow_nonneg]|].
  apply Z.pow_pos_nonneg; [reflexivity|done].
Qed.

Lemma or_nil_Some {A B} (m : res read_error A) (k : A -> eff (option B)) b :
  or_nil m k = Ok (Some b) -> exists a, m = Ok a /\ k a = Ok (Some b).
Proof. destruct m; simpl; intros Hk; eauto; done. Qed.

Lemma blkreward_New_spec pre ppre br :
  blkreward_New pre ppre = Ok (Some br) ->
  rates_sane (rates br) -> nodes_sane (topology br) (elect br) ->
  br_sane br /\ rsPreMinerBlk pre = Ok (pending (SetReward_miner (rewardCfg br)) MAN_COIN) /\
  RewardType (SetReward_miner (rewardCfg br)) = BlkReward.
Proof.
  unfold blkreward_New. intros Hn Hr Hs.
  apply or_nil_Some in Hn as (data & _ & Hn). destruct (String.eqb data Stop); [done|].
  apply or_nil_Some in Hn as (RC & _ & Hn). apply or_nil_Some in Hn as (interval & _ & Hn).
  apply or_nil_Some in Hn as (f & _ & Hn). apply or_nil_Some in Hn as (inner & _ & Hn).
  apply or_nil_Some in Hn as ([top eg] & _ & Hn). apply or_nil_Some in Hn as (pm & Hpm & Hn).
  injection Hn as Hn. destruct (rewardexec_New_sane _ _ _ _ _ _ Hn Hr Hs) as [Hbr ->].
  split; [done|]. split; [|done].
  unfold GetPreMinerReward, GetPreMinerBlkReward in Hpm. simpl in Hpm.
  apply res_bind_Ok in Hpm as (v & Hv & [= <-]).
  destruct (has_manager pre); [|done]. by rewrite Hv.
Qed.

(** One block: what is paid and what is set aside grow by at most the mounts. *)
Lemma block_conserves pre ppre st br num ph l st1 Rm Rv rm rv :
  rsPreMinerBlk pre = rsPreMinerBlk st -> blkreward_New pre ppre = Ok (Some br) ->
  rates_sane (rates br) -> nodes_sane (topology br) (elect br) ->
  mounts_sane (RewardMount (rewardCfg br)) ->
  minerMount br st num = Ok Rm -> CalcMinerRewards br st num ph = Ok (st1, rm) ->
  validatorMount br st1 num = Ok Rv -> CalcValidatorRewards br st1 l num = Ok rv ->
  0 <= reserved st ->
  0 <= reserved st1 /\ rtotal rm + rtotal rv + reserved st1 <= Rm + Rv + reserved st.
Proof.
  intros Hpre Hnew Hr Hs [[] []] HRm Hm HRv Hv Hres.
  destruct (blkreward_New_spec _ _ _ Hnew Hr Hs) as (Hbr & Hpend & Hty).
  rewrite Hpre in Hpend. assert (reserved st = pending (SetReward_miner (rewardCfg br)) MAN_COIN)
    as Hrp by (unfold reserved; by rewrite Hpend).
  pose proof HRm as Hm0. pose proof HRv as Hv0. unfold minerMount in Hm0. unfold validatorMount in Hv0.
  apply mount_nonneg in Hm0, Hv0; [|done..].
  unfold CalcMinerRewards in Hm. fold (minerMount br st num) in Hm. rewrite HRm in Hm.
  unfold CalcValidatorRewards in Hv. fold (validatorMount br st1 num) in Hv. rewrite HRv in Hv.
  cbn [res_bind] in Hm, Hv.
  assert (rtotal rv <= Rv).
  { destruct (u64 Rv =? 0); [by injection Hv as <-|].
    apply res_bind_Ok in Hv as (isB & _ & Hv). destruct isB; [by injection Hv as <-|].
    by eapply getValidatorRewards_within. }
  assert (0 <= reserved st1 /\ rtotal rm + reserved st1 <= Rm + reserved st); [|lia].
  destruct (u64 Rm =? 0); [injection Hm as <- <-; change (rtotal None) with 0; lia|].
  apply res_bind_Ok in Hm as (isB & _ & Hm).
  destruct isB; [injection Hm as <- <-; change (rtotal None) with 0; lia|].
  apply getMinerRewards_within in Hm as (Hsh & [(-> & _ & Ht)|(Hman & Hst & _ & Ht)]);
    [lia| |done..|lia].
  rewrite Hty in Hst. unfold SetPreMinerReward, SetPreMinerBlkReward in Hst.
  rewrite Hman in Hst. destruct (Z.leb_spec 0 (minerShare br Rm)); [|lia].
  injection Hst as <-. unfold reserved at 1 2. simpl. lia.
Qed.
End Run.

(** C30: block rewards are conserved over any chain of blocks.  The rewards paid
    to miners and validators, together with the amount set aside for the next
    miner, never exceed the mounts of the blocks plus the amount that was set
    aside at the start. *)
Theorem block_rewards_conserved `{RewardEnv} st R P st' :
  blk_run st R P st' -> 0 <= reserved st -> 0 <= reserved st' /\ P + reserved st' <= R + reserved st.
Proof.
  induction 1 as [st|pre ppre st br num ph l st1 Rm Rv rm rv R P st2 Hpre Hnew Hr Hs Hms HRm Hm
                    HRv Hv _ IH|st st1 R P st2 Hpre _ IH]; intros Hres.
  - lia.
  - destruct (block_conserves _ _ _ _ _ _ _ _ _ _ _ _ Hpre Hnew Hr Hs Hms HRm Hm HRv Hv Hres).
    destruct IH; [done|]. lia.
  - unfold reserved in *. rewrite Hpre in IH. auto.
Qed.

(** ** The reserve in the state *)

Lemma find_add coin coin' v l :
  findMultiCoinMinerOutReward coin' (addMultiCoinMinerOutReward coin v l) =
  if String.eqb coin' coin then Some v else findMultiCoinMinerOutReward coin' l.
Proof.
  assert (Hf : forall l, findMultiCoinMinerOutReward coin'
      ((fun x => if String.eqb (moCoinType x) coin then mkMinerOut coin v else x) <$> l) =
    if String.eqb coin' coin
    then if existsb (fun x => String.eqb (moCoinType x) coin) l then Some v else None
    else findMultiCoinMinerOutReward coin' l).
  { unfold findMultiCoinMinerOutReward. clear l. induction l as [|x l IH].
    { by destruct (String.eqb coin' coin). }
    rewrite fmap_cons, !filter_cons. cbn [existsb].
    destruct (String.eqb_spec (moCoinType x) coin) as [Hx|Hx],
      (String.eqb_spec coin' coin) as [Hc|Hc];
      repeat case_decide; cbn [moCoinType orb] in *; try congruence; done. }
  unfold addMultiCoinMinerOutReward.
  destruct (existsb _ l) eqn:He; [rewrite Hf, He; done|].
  specialize (Hf l). rewrite He in Hf. unfold findMultiCoinMinerOutReward in *.
  rewrite filter_app, filter_cons. cbn [moCoinType filter list_filter].
  destruct (String.eqb_spec coin' coin) as [->|Hne].
  - rewrite decide_True by done. by destruct (filter _ (_ <$> l)).
  - rewrite decide_False by congruence. rewrite app_nil_r. exact Hf.
Qed.

Lemma add_nonneg coin v l :
  0 <= v -> forallb (fun x => 0 <=? moReward x) l = true ->
  forallb (fun x => 0 <=? moReward x) (addMultiCoinMinerOutReward coin v l) = true.
Proof.
  intros Hv Hl. rewrite forallb_forall in *. intros x Hx. apply Z.leb_le.
  assert (x = mkMinerOut coin v \/ In x l) as [->|Hin]; [|done|by apply Hl, Z.leb_le in Hin].
  unfold addMultiCoinMinerOutReward in Hx. rewrite <- list_elem_of_In in Hx |- *.
  destruct (existsb _ l); [|apply elem_of_app in Hx as [Hx|Hx%list_elem_of_singleton]; [|by left]].
  all: apply list_elem_of_fmap in Hx as (y & -> & Hy).
  all: destruct (String.eqb _ _); [by left|by right].
Qed.

(** A share set aside is found again.  After [SetPreMinerReward] the reader
    of the previous miner's reward finds exactly that share for its coin; with
    the fee list of the later versions the shares of all other coins are kept. *)
Theorem reserve_roundtrip st v t coin st' :
  has_manager st = true -> 0 <= v ->
  (forall l, rsPreMinerTxs st = PreTxsMulti l -> forallb (fun x => 0 <=? moReward x) l = true) ->
  (t <> TxsReward \/ multi_coin_manager st = false -> coin = MAN_COIN) ->
  SetPreMinerReward st v t coin = Ok st' ->
  exists l, GetPreMinerReward st' t = Ok l /\ findMultiCoinMinerOutReward coin l = Some v /\
    (t = TxsReward -> forall l0 coin', GetPreMinerReward st t = Ok l0 -> coin' <> coin ->
     findMultiCoinMinerOutReward coin' l = findMultiCoinMinerOutReward coin' l0).
Proof.
  intros Hman Hv Hpos Hcoin. unfold SetPreMinerReward, GetPreMinerReward.
  assert (Hleb : (0 <=? v) = true) by by apply Z.leb_le.
  destruct (Z.eqb_spec t TxsReward) as [->|Ht].
  2: { rewrite Hcoin by auto. unfold SetPreMinerBlkReward, GetPreMinerBlkReward.
       rewrite Hman, Hleb. intros [= <-]. change (has_manager (with_pre_blk st v)) with (has_manager st).
       rewrite Hman. by exists [mkMinerOut MAN_COIN v]. }
  destruct (String.eqb (GetVersionInfo st) VersionAlpha) eqn:Hva.
  { assert (Hmc : multi_coin_manager st = false) by (unfold multi_coin_manager; by rewrite Hva).
    rewrite Hcoin by auto. unfold SetPreMinerTxsReward, GetPreMinerTxsReward.
    rewrite Hman, Hmc, Hleb. intros [= <-]. cbn [fst negb].
    change (GetVersionInfo (with_pre_txs _ _)) with (GetVersionInfo st).
    change (has_manager (with_pre_txs _ _)) with (has_manager st).
    change (multi_coin_manager (with_pre_txs _ _)) with (multi_coin_manager st).
    rewrite Hva, Hman, Hmc. exists [mkMinerOut MAN_COIN v]. split; [done|]. split; [done|].
    intros _ l0 coin' Hl0 Hc. destruct (rsPreMinerTxs st); simplify_eq/=;
      unfold findMultiCoinMinerOutReward; rewrite !filter_cons; simpl;
      by rewrite !decide_False by congruence. }
  destruct (existsb _ _) eqn:Hex; [|intros [= <-]].
  2: { exfalso. unfold has_manager, VersionList in Hman. cbn [existsb] in Hman, Hex.
       rewrite Hva in Hman. cbn [orb] in Hman. congruence. }
  unfold SetPreMinerMultiCoinTxsReward, GetPreMinerMultiCoinTxsReward.
  assert (Hmc : multi_coin_manager st = true) by (unfold multi_coin_manager; by rewrite Hva).
  rewrite Hman, Hmc. cbn [negb].
  destruct (rsPreMinerTxs st) as [|w|l] eqn:Hpre; rewrite add_nonneg by auto;
    intros [= <-]; cbn [fst];
    change (GetVersionInfo (with_pre_txs _ _)) with (GetVersionInfo st);
    change (has_manager (with_pre_txs _ _)) with (has_manager st);
    change (multi_coin_manager (with_pre_txs _ _)) with (multi_coin_manager st);
    rewrite Hva, Hex, Hman, Hmc; cbn [negb rsPreMinerTxs with_pre_txs];
    (eexists; split; [done|]; rewrite find_add, String.eqb_refl; split; [done|]);
    intros _ l0 coin' [= <-] Hc; rewrite find_add; by destruct (String.eqb_spec coin' coin).
Qed.

(** ** Whose block is rewarded *)

(** Broadcast and super blocks have no miner to reward. *)
Definition skipped (bc : BCIntervalInfo) (h : Header) (i : Z) : bool :=
  match @IsBroadcastNumber Empty_set bc i with
  | Ok b => b || IsSuperHeader h
  | _ => false
  end.

Lemma IsBroadcastNumber_total {E} bc i :
  BCInterval bc <> 0 ->
  exists b, @IsBroadcastNumber E bc i = Ok b /\ @IsBroadcastNumber Empty_set bc i = Ok b.
Proof.
  intros Hb. unfold IsBroadcastNumber. bcase; [by exists false|].
  rewrite !go_umod_ok by done. cbn [res_bind]. by eexists.
Qed.

Lemma minerHeader_walk `{RewardEnv} bc low n preHash last hdr j :
  BCInterval bc <> 0 ->
  re_GetHeaderByHash preHash = Some (hdr (low + Z.of_nat n)) ->
  (forall i, low < i -> re_GetHeaderByHash (hParentHash (hdr i)) = Some (hdr (i - 1))) ->
  low < j <= low + Z.of_nat n ->
  (forall i, j < i <= low + Z.of_nat n -> skipped bc (hdr i) i = true) ->
  skipped bc (hdr j) j = false \/ j = low + 1 ->
  minerHeader bc n (low + Z.of_nat n) preHash last = Ok (Some (hdr j)).
Proof.
  intros Hbc. revert preHash last. induction n as [|n IH]; intros ph last Hh Hp Hj Hs Hstop; [lia|].
  cbn [minerHeader]. rewrite Hh.
  destruct (@IsBroadcastNumber_total miner_error bc (low + Z.of_nat (S n)) Hbc) as (b & -> & Hb).
  cbn [res_bind].
  assert (Hsk : skipped bc (hdr (low + Z.of_nat (S n))) (low + Z.of_nat (S n)) =
                b || IsSuperHeader (hdr (low + Z.of_nat (S n)))) by (unfold skipped; by rewrite Hb).
  rewrite <- Hsk. destruct (Z.eq_dec j (low + Z.of_nat (S n))) as [->|Hne].
  - destruct Hstop as [->|Hlow]; [done|]. replace n with 0%nat by lia.
    by case_match.
  - rewrite Hs by lia. replace (low + Z.of_nat (S n) - 1) with (low + Z.of_nat n) by lia.
    apply IH; [|done|lia|intros i Hi; apply Hs; lia|done].
    rewrite Hp by lia. f_equal. f_equal. lia.
Qed.

(** The share of the previous miner goes to the miner of the nearest
    ancestor that is neither a broadcast nor a super block, among the last 99
    blocks (the oldest of them if there is none); inner miners and the zero
    address get nothing.  If the parent is unknown the walk panics. *)
Theorem nearest_miner_rewarded `{RewardEnv} bc num v ph inner :
  BCInterval bc <> 0 -> 2 <= num -> 0 < v ->
  (re_GetHeaderByHash ph = None -> canSetMinerOutRewards num v bc ph inner = Panic) /\
  (forall hdr j,
     re_GetHeaderByHash ph = Some (hdr (num - 1)) ->
     (forall i, originNum num < i -> re_GetHeaderByHash (hParentHash (hdr i)) = Some (hdr (i - 1))) ->
     originNum num < j < num ->
     (forall i, j < i < num -> skipped bc (hdr i) i = true) ->
     skipped bc (hdr j) j = false \/ j = originNum num + 1 ->
     canSetMinerOutRewards num v bc ph inner =
       if hCoinbase (hdr j) =? zero_addr then Err ErrCoinbase
       else if existsb (Z.eqb (hCoinbase (hdr j))) inner then Err ErrInnerMiner
       else Ok (hCoinbase (hdr j))).
Proof.
  intros Hbc Hn Hv. unfold canSetMinerOutRewards.
  assert (originNum num < num - 1) by (unfold originNum; bcase; lia).
  destruct (Z.ltb_spec num 2); [lia|]. destruct (Z.leb_spec v 0); [lia|].
  destruct (Z.to_nat (num - 1 - originNum num)) as [|n] eqn:En; [lia|]. split.
  - intros Hnone. cbn [minerHeader]. by rewrite Hnone.
  - intros hdr j Hh Hp Hj Hs Hstop. rewrite <- En.
    pose proof (minerHeader_walk bc (originNum num) (Z.to_nat (num - 1 - originNum num)) ph None
      hdr j Hbc) as Hw.
    replace (originNum num + Z.of_nat (Z.to_nat (num - 1 - originNum num))) with (num - 1) in Hw by lia.
    rewrite Hw; [done|done|done|lia|intros i Hi; apply Hs; lia|done].
Qed.

(** ** A chain of four blocks *)

Module Examples.
#[local] Instance number_order : AddressOrder := {| string_less := Z.ltb |}.

(** Blocks are found under their number; block [n] is mined by account [100 + n]
    and led by account [n]. *)
Definition block (n : Z) : Header := mkHeader (n - 1) n (100 + n) n 0 [] VersionAIMine [].
Definition bc : BCIntervalInfo := mkBCIntervalInfo 100 100 100 0 0.
Definition top : TopologyGraph := mkGraph [mkNode 11 0 RoleMiner 0; mkNode 12 1 RoleValidator 0] 2.
Definition eg : ElectGraph :=
  mkElectGraph 0 [mkElectNode 11 0 2 0 RoleMiner; mkElectNode 12 1 3 0 RoleValidator] [] [].

#[local] Instance env : RewardEnv := {|
  re_GetHeaderByHash n := if n <? 0 then None else Some (block n);
  re_GetBCIntervalInfoByNumber _ := Ok bc;
  re_GetGraphByState _ := Ok (Some top, Some eg)
|}.

Definition someRates : RewardRateCfg := mkRates 4000 5000 1000 4000 5000 1000 5000 5000.
Definition st0 : RewardState :=
  mkRewardState VersionAIMine
    (mkSettings (Ok bc) (Ok "3"%string) (Ok "3"%string)
       (Ok (mkBlkCfg 10 8500 1000 20 8500 1000 someRates))
       (Ok (mkTxsCfg 5000 5000 someRates)) (Ok 500) (Ok []))
    (Ok 40) (PreTxsMulti [mkMinerOut MAN_COIN 70]) (fun _ _ => [10 ^ 18]).

Definition br : BlockReward :=
  mkBlockReward (mkRewardCfg "3" 0 0 (mkBlkCfg 10 8500 1000 20 8500 1000 someRates)
                   (mkMinerOutReward [mkMinerOut MAN_COIN 40] [] BlkReward))
    500 bc (Some top) (Some eg).
Definition feeBr : BlockReward :=
  mkBlockReward (mkRewardCfg "3" 5000 5000 (mkBlkCfg 0 0 0 0 0 0 someRates)
                   (mkMinerOutReward [mkMinerOut MAN_COIN 70] [] TxsReward))
    500 bc (Some top) (Some eg).

Lemma set_up : blkreward_New st0 st0 = Ok (Some br) /\ txsreward_New st0 st0 = Ok (Some feeBr).
Proof. split; vm_compute; reflexivity. Qed.

Lemma someRates_sane : rates_sane someRates.
Proof. constructor; unfold rate_ok, RewardFullRate; simpl; lia. Qed.

Lemma some_nodes_sane : nodes_sane (Some top) (Some eg).
Proof.
  split; [intros t [= <-]; simpl; lia|]. intros e [= <-]. split; [simpl; lia|].
  repeat (apply Forall_cons_2 || apply Forall_nil_2); unfold is_u16; simpl; lia.
Qed.

Lemma feeBr_sane : br_sane feeBr.
Proof. split; [apply someRates_sane|apply some_nodes_sane|reflexivity..]. Qed.

Lemma fee_rewards_conserved_witness :
  exists st' r, CalcNodesRewards feeBr st0 1000 3 3 2 MAN_COIN = Ok (st', r) /\
    rtotal r = 870 /\ feeShare feeBr 1000 = 200 /\
    (nonneg r /\
     (st' = st0 /\ rtotal r <= 1000 \/
      SetPreMinerReward st0 (feeShare feeBr 1000) TxsReward MAN_COIN = Ok st' /\
      rtotal r + feeShare feeBr 1000 <= 1000 + pending (SetReward_miner (rewardCfg feeBr)) MAN_COIN)).
Proof.
  eexists _, _. split; [vm_compute; reflexivity|]. split; [vm_compute; reflexivity|].
  split; [vm_compute; reflexivity|].
  eapply (fee_rewards_conserved feeBr st0 1000 3 3 2 MAN_COIN);
    [apply feeBr_sane|split; reflexivity || discriminate..|reflexivity|lia|discriminate|].
  vm_compute. reflexivity.
Defined.

Lemma one_block :
  exists R P st', blk_run st0 R P st' /\
    R = 30 * 10 ^ 15 /\ P = 26 * 10 ^ 15 + 40 /\ reserved st' = 4 * 10 ^ 15.
Proof.
  eexists _, _, _. split.
  - eapply (run_block st0 st0 st0 br 3 2 3 _ (10 * 10 ^ 15) (20 * 10 ^ 15) _ _ 0 0);
      [reflexivity|apply set_up|apply someRates_sane|apply some_nodes_sane
      |split; split; discriminate|vm_compute; reflexivity..|apply run_done].
  - vm_compute. auto.
Qed.

Lemma block_rewards_conserved_witness :
  exists R P st', blk_run st0 R P st' /\ R = 30 * 10 ^ 15 /\ P = 26 * 10 ^ 15 + 40 /\
    (0 <= reserved st' /\ P + reserved st' <= R + reserved st0).
Proof.
  destruct one_block as (R & P & st' & Hr & HR & HP & _). exists R, P, st'.
  split; [exact Hr|]. split; [exact HR|]. split; [exact HP|].
  apply (block_rewards_conserved st0 R P st' Hr). discriminate.
Defined.

Lemma reserve_roundtrip_witness :
  exists st' l, SetPreMinerReward st0 5 TxsReward "BTC" = Ok st' /\
    GetPreMinerReward st' TxsReward = Ok l /\
    findMultiCoinMinerOutReward "BTC" l = Some 5 /\
    (TxsReward = TxsReward -> forall l0 coin', GetPreMinerReward st0 TxsReward = Ok l0 ->
     coin' <> "BTC"%string ->
     findMultiCoinMinerOutReward coin' l = findMultiCoinMinerOutReward coin' l0).
Proof.
  eexists. edestruct (reserve_roundtrip st0 5 TxsReward "BTC") as (l & Hl & Hf & Ho);
    [reflexivity|lia| | |reflexivity|].
  - intros l [= <-]. reflexivity.
  - intros [Ht|Hm]; [by destruct Ht|discriminate].
  - exists l. split; [reflexivity|]. auto.
Defined.

Lemma nearest_miner_rewarded_witness :
  canSetMinerOutRewards 3 40 bc 2 [] = Ok 102 /\
  (re_GetHeaderByHash (-1) = None -> canSetMinerOutRewards 3 40 bc (-1) [] = Panic).
Proof.
  split; [vm_compute; reflexivity|].
  apply (nearest_miner_rewarded bc 3 40 (-1) []); [discriminate|lia|lia].
Defined.
End Examples.
