(* ===== verification/Rlp.v ===== *)
(** * RLP ([rlp/encode.go], [rlp/raw.go])

    The encoding of nested lists of byte strings the chain hashes and stores.
    The encoder writes strings at once and remembers where the list headers
    belong, since a header holds the size of what follows it; the headers are
    put in at the end.  The file proves that this gives the recursive encoding,
    that the splitting functions take an encoding apart again, and that they
    accept no other bytes. *)

From S2P Require Import Prelude.

#[local] Set Warnings "-register-all".

(** ** Numbers *)

(** The [n] low bytes of a number, highest first. *)
Fixpoint be_bytes (n : nat) (i : Z) : list Z :=
  match n with
  | O => []
  | S n => u8 (Z.shiftr i (8 * Z.of_nat n)) :: be_bytes n i
  end.

Definition putint (i : Z) : list Z :=
  if i <? 2 ^ 8 then be_bytes 1 i
  else if i <? 2 ^ 16 then be_bytes 2 i
  else if i <? 2 ^ 24 then be_bytes 3 i
  else if i <? 2 ^ 32 then be_bytes 4 i
  else if i <? 2 ^ 40 then be_bytes 5 i
  else if i <? 2 ^ 48 then be_bytes 6 i
  else if i <? 2 ^ 56 then be_bytes 7 i
  else be_bytes 8 i.

(** The loop of [intsize]: eight rounds empty a [uint64]. *)
Fixpoint intsizeLoop (fuel : nat) (i size : Z) : option Z :=
  let i := Z.shiftr i 8 in
  if i =? 0 then Some size
  else match fuel with
       | O => None
       | S fuel => intsizeLoop fuel i (size + 1)
       end.

Definition intsize (i : Z) : Z := default 0 (intsizeLoop 8 i 1).

Definition headsize (size : Z) : Z := if size <? 56 then 1 else 1 + intsize size.

Definition ListSize (contentSize : Z) : Z := headsize contentSize + contentSize.

(** What [puthead] writes to the front of its buffer. *)
Definition puthead (smalltag largetag size : Z) : list Z :=
  if size <? 56 then [u8 (smalltag + u8 size)]
  else let s := putint size in u8 (largetag + Z.of_nat (length s)) :: s.

(** ** The encoder *)

Record listhead := mkHead {
  offset : Z;
  lsize : Z
}.

Record encbuf := mkBuf {
  str : list Z;
  lheads : list listhead;
  lhsize : Z
}.

Definition buf_append (w : encbuf) (b : list Z) : encbuf := mkBuf (str w ++ b) (lheads w) (lhsize w).

Definition buf_size (w : encbuf) : Z := Z.of_nat (length (str w)) + lhsize w.

Definition encodeStringHeader (size : Z) (w : encbuf) : encbuf := buf_append w (puthead 0x80 0xB7 size).

Definition encodeString (b : list Z) (w : encbuf) : encbuf :=
  match b with
  | [x] => if x <=? 0x7F then buf_append w [x]
           else buf_append (encodeStringHeader 1 w) b
  | _ => buf_append (encodeStringHeader (Z.of_nat (length b)) w) b
  end.

(** [list]: the new header is the last one; its index is returned. *)
Definition buf_list (w : encbuf) : encbuf * nat :=
  (mkBuf (str w) (lheads w ++ [mkHead (Z.of_nat (length (str w))) (lhsize w)]) (lhsize w),
   length (lheads w)).

Definition listEnd (w : encbuf) (lh : nat) : encbuf :=
  match lheads w !! lh with
  | None => w
  | Some h =>
      let size := buf_size w - offset h - lsize h in
      mkBuf (str w) (<[lh := mkHead (offset h) size]> (lheads w))
        (lhsize w + (if size <? 56 then 1 else 1 + intsize size))
  end.

(** [head.encode] *)
Definition head_encode (h : listhead) : list Z := puthead 0xC0 0xF7 (lsize h).

(** The loop of [toBytes]: the data before a header, then the header. *)
Fixpoint emit (s : list Z) (strpos : nat) (heads : list listhead) : list Z :=
  match heads with
  | [] => drop strpos s
  | h :: heads =>
      let n := (Z.to_nat (offset h) - strpos)%nat in
      take n (drop strpos s) ++ head_encode h ++ emit s (strpos + n) heads
  end.

(** The bytes go into a slice of the announced size. *)
Definition toBytes (w : encbuf) : list Z :=
  take (Z.to_nat (buf_size w)) (emit (str w) 0 (lheads w) ++ replicate (Z.to_nat (buf_size w)) 0).

(** The pieces [toWriter] passes to the writer, empty ones left out. *)
Fixpoint writerPieces (s : list Z) (strpos : nat) (heads : list listhead) : list (list Z) :=
  match heads with
  | [] => if (strpos <? length s)%nat then [drop strpos s] else []
  | h :: heads =>
      let n := (Z.to_nat (offset h) - strpos)%nat in
      (if (0 <? n)%nat then [take n (drop strpos s)] else []) ++
      head_encode h :: writerPieces s (strpos + n) heads
  end.

Definition toWriter (w : encbuf) : list (list Z) := writerPieces (str w) 0 (lheads w).

(** ** The reader of [EncodeToReader] *)

(** A nil [piece] is the empty one. *)
Record encReader := mkReader {
  rbuf : option encbuf;
  lhpos : nat;
  strpos : nat;
  piece : list Z
}.

Definition reader_next (r : encReader) : list Z * encReader :=
  match rbuf r with
  | None => ([], r)
  | Some w =>
      match piece r with
      | _ :: _ => (piece r, r)
      | [] =>
          match lheads w !! lhpos r with
          | Some head =>
              let sizebefore := (Z.to_nat (offset head) - strpos r)%nat in
              if (0 <? sizebefore)%nat
              then (take sizebefore (drop (strpos r) (str w)),
                    mkReader (rbuf r) (lhpos r) (strpos r + sizebefore) [])
              else (head_encode head, mkReader (rbuf r) (S (lhpos r)) (strpos r) [])
          | None =>
              if (strpos r <? length (str w))%nat
              then (drop (strpos r) (str w), mkReader (rbuf r) (lhpos r) (length (str w)) [])
              else ([], r)
          end
      end
  end.

(** [Read] into a buffer with [room] bytes left: the bytes, whether the end
    was reported, and the reader.  Every round but the last delivers a piece. *)
Fixpoint reader_read (fuel : nat) (r : encReader) (room : nat) : option (list Z * bool * encReader) :=
  match fuel with
  | O => None
  | S fuel =>
      let (p, r) := reader_next r in
      match p with
      | [] => Some ([], true, mkReader None (lhpos r) (strpos r) [])
      | _ :: _ =>
          if (room <? length p)%nat
          then Some (take room p, false, mkReader (rbuf r) (lhpos r) (strpos r) (drop room p))
          else '(out, eof, r) ← reader_read fuel (mkReader (rbuf r) (lhpos r) (strpos r) [])
                                  (room - length p);
               Some (p ++ out, eof, r)
      end
  end.

(** Two pieces per header, one at the end, one left over and the end. *)
Definition reader_fuel (r : encReader) : nat :=
  match rbuf r with
  | None => 1
  | Some w => 2 * (length (lheads w) - lhpos r) + 3
  end.

Definition Read (r : encReader) (room : nat) : option (list Z * bool * encReader) :=
  reader_read (reader_fuel r) r room.

(** ** Values *)

(** What an encoding consists of: bytes put in as they are, strings, lists. *)
Inductive item :=
| Raw (b : list Z)
| Str (b : list Z)
| Lst (l : list item).

(** The recursive encoding of a string and of an item. *)
Definition str_enc (b : list Z) : list Z :=
  match b with
  | [x] => if x <=? 0x7F then [x] else puthead 0x80 0xB7 1 ++ [x]
  | _ => puthead 0x80 0xB7 (Z.of_nat (length b)) ++ b
  end.

Fixpoint enc (it : item) : list Z :=
  match it with
  | Raw b => b
  | Str b => str_enc b
  | Lst l => let c := concat (map enc l) in puthead 0xC0 0xF7 (Z.of_nat (length c)) ++ c
  end.

(** The calls on the buffer an item takes. *)
Fixpoint build (it : item) (w : encbuf) : encbuf :=
  match it with
  | Raw b => buf_append w b
  | Str b => encodeString b w
  | Lst l => let (w, lh) := buf_list w in listEnd (foldl (fun w it => build it w) w l) lh
  end.

(** ** Splitting *)

Inductive Kind := Byte | String_ | List_.

#[global] Instance Kind_eq : EqDecision Kind.
Proof. solve_decision. Defined.

Inductive rlp_error :=
| ErrUnexpectedEOF | ErrCanonSize | ErrValueTooLarge | ErrExpectedString | ErrExpectedList.

Definition be_value (b : list Z) : Z := foldl (fun s x => Z.lor (Z.shiftl s 8) x) 0 b.

(** [slen] is one to eight; anything else would leave the size zero. *)
Definition readSize (b : list Z) (slen : Z) : res rlp_error Z :=
  if slen >? Z.of_nat (length b) then Err ErrUnexpectedEOF
  else
    let s := if (1 <=? slen) && (slen <=? 8) then be_value (take (Z.to_nat slen) b) else 0 in
    if s <? 56 then Err ErrCanonSize
    else match b with
         | [] => Panic
         | b0 :: _ => if b0 =? 0 then Err ErrCanonSize else Ok s
         end.

(** The switch of [readKind] on the first byte: kind, tag size, content size. *)
Definition readTag (b : Z) (rest : list Z) : res rlp_error (Kind * Z * Z) :=
  if b <? 0x80 then Ok (Byte, 0, 1)
  else if b <? 0xB8 then
    let contentsize := u8 (b - 0x80) in
    match rest with
    | b1 :: _ => if (contentsize =? 1) && (b1 <? 128) then Err ErrCanonSize
                 else Ok (String_, 1, contentsize)
    | [] => Ok (String_, 1, contentsize)
    end
  else if b <? 0xC0 then
    let* contentsize := readSize rest (u8 (b - 0xB7)) in
    Ok (String_, u8 (b - 0xB7) + 1, contentsize)
  else if b <? 0xF8 then Ok (List_, 1, u8 (b - 0xC0))
  else
    let* contentsize := readSize rest (u8 (b - 0xF7)) in
    Ok (List_, u8 (b - 0xF7) + 1, contentsize).

Definition readKind (buf : list Z) : res rlp_error (Kind * Z * Z) :=
  match buf with
  | [] => Err ErrUnexpectedEOF
  | b :: rest =>
      let* (k, tagsize, contentsize) := readTag b rest in
      if contentsize >? u64 (Z.of_nat (length buf) - tagsize) then Err ErrValueTooLarge
      else Ok (k, tagsize, contentsize)
  end.

(** The slices are in range ([Split_total]). *)
Definition Split (b : list Z) : res rlp_error (Kind * list Z * list Z) :=
  let* (k, ts, cs) := readKind b in
  let content := drop (Z.to_nat ts) b in
  Ok (k, take (Z.to_nat cs) content, drop (Z.to_nat cs) content).

Definition SplitString (b : list Z) : res rlp_error (list Z * list Z) :=
  let* (k, content, rest) := Split b in
  match k with List_ => Err ErrExpectedString | _ => Ok (content, rest) end.

Definition SplitList (b : list Z) : res rlp_error (list Z * list Z) :=
  let* (k, content, rest) := Split b in
  match k with List_ => Ok (content, rest) | _ => Err ErrExpectedList end.

(** Every value has a byte, so as many rounds as bytes suffice. *)
Fixpoint countValues (fuel : nat) (b : list Z) (i : Z) : res rlp_error Z :=
  match b with
  | [] => Ok i
  | _ :: _ =>
      match fuel with
      | O => Panic
      | S fuel =>
          let* (_, tagsize, size) := readKind b in
          countValues fuel (drop (Z.to_nat (tagsize + size)) b) (i + 1)
      end
  end.

Definition CountValues (b : list Z) : res rlp_error Z := countValues (length b) b 0.

(** ** Numbers and headers *)

Lemma item_ind' (P : item -> Prop) :
  (forall b, P (Raw b)) -> (forall b, P (Str b)) -> (forall l, Forall P l -> P (Lst l)) ->
  forall it, P it.
Proof.
  intros Hr Hs Hl. fix IH 1. intros [b|b|l]; [apply Hr|apply Hs|apply Hl].
  induction l; constructor; auto.
Qed.

Lemma length_be_bytes n i : length (be_bytes n i) = n.
Proof. induction n; simpl; auto. Qed.

Lemma be_bytes_u8 n i : Forall is_u8 (be_bytes n i).
Proof. induction n; simpl; constructor; auto with goint. Qed.

Lemma shiftl_lor_byte s x : is_u8 x -> Z.lor (Z.shiftl s 8) x = s * 2 ^ 8 + x.
Proof. by apply lor_shiftl_add. Qed.

Lemma be_value_app_nonneg b s :
  0 <= s -> Forall is_u8 b ->
  foldl (fun s x => Z.lor (Z.shiftl s 8) x) s b = s * 2 ^ (8 * Z.of_nat (length b)) + be_value b
  /\ 0 <= be_value b < 2 ^ (8 * Z.of_nat (length b)).
Proof.
  unfold be_value. revert s.
  induction b as [|x b IH] using rev_ind; intros s Hs Hb; cbn; [split; lia|].
  apply Forall_app in Hb as [Hb [Hx _]%Forall_cons].
  destruct (IH s Hs Hb) as [E1 B]. rewrite !foldl_app, length_app. cbn [foldl length].
  assert (0 <= s * 2 ^ (8 * Z.of_nat (length b))) by (apply Z.mul_nonneg_nonneg; lia).
  rewrite E1, !shiftl_lor_byte by lia || done.
  replace (8 * Z.of_nat (length b + 1)) with (8 * Z.of_nat (length b) + 8) by lia.
  rewrite Z.pow_add_r by lia. unfold is_u8 in Hx. split; [ring|]. lia.
Qed.

Lemma be_value_cons x b :
  Forall is_u8 (x :: b) -> be_value (x :: b) = x * 2 ^ (8 * Z.of_nat (length b)) + be_value b.
Proof.
  intros [Hx Hb]%Forall_cons. unfold is_u8 in Hx. unfold be_value at 1. cbn [foldl].
  rewrite Z.shiftl_0_l, Z.lor_0_l. apply be_value_app_nonneg; [lia|done].
Qed.

Lemma be_value_bound b : Forall is_u8 b -> 0 <= be_value b < 2 ^ (8 * Z.of_nat (length b)).
Proof. intros Hb. by apply (be_value_app_nonneg b 0). Qed.

Lemma be_value_be_bytes n i : 0 <= i -> be_value (be_bytes n i) = i mod 2 ^ (8 * Z.of_nat n).
Proof.
  intros Hi. induction n as [|n IH]; [by rewrite Z.mod_1_r|].
  cbn [be_bytes]. rewrite be_value_cons, IH, length_be_bytes
    by (constructor; auto using be_bytes_u8 with goint).
  replace (8 * Z.of_nat (S n)) with (8 * Z.of_nat n + 8) by lia.
  rewrite Z.shiftr_div_pow2, Z.pow_add_r by lia. unfold u8.
  rewrite (Z.rem_mul_r i) by lia. ring.
Qed.

Lemma be_bytes_mod n i : 0 <= i -> be_bytes n (i mod 2 ^ (8 * Z.of_nat n)) = be_bytes n i.
Proof.
  intros Hi. assert (forall m, (m <= n)%nat -> be_bytes m (i mod 2 ^ (8 * Z.of_nat n)) = be_bytes m i) as H;
    [|by apply H].
  induction m as [|m IH]; intros Hm; [done|]. cbn [be_bytes]. rewrite IH by lia. f_equal.
  unfold u8. apply Z.bits_inj'. intros k Hk.
  destruct (Z.lt_ge_cases k 8); [|by rewrite !Z.mod_pow2_bits_high by lia].
  rewrite !Z.mod_pow2_bits_low, !Z.shiftr_spec, Z.mod_pow2_bits_low by lia. done.
Qed.

Lemma be_bytes_be_value b : Forall is_u8 b -> be_bytes (length b) (be_value b) = b.
Proof.
  induction b as [|x b IH]; intros Hb; [done|].
  pose proof Hb as [Hx Hb']%Forall_cons. rewrite be_value_cons by done. cbn [length be_bytes].
  pose proof (be_value_bound b Hb') as B. unfold is_u8 in Hx. f_equal.
  - rewrite Z.shiftr_div_pow2, Z.div_add_l, Z.div_small by lia. rewrite Z.add_0_r. by apply u8_small.
  - rewrite <- (be_bytes_mod _ (_ + _)) by nia.
    rewrite Z.add_comm, Z.mod_add, Z.mod_small by lia. auto.
Qed.

(** [putint] uses as few bytes as the number has. *)
Lemma putint_spec i :
  is_u64 i ->
  exists n, (1 <= n <= 8)%nat /\ putint i = be_bytes n i /\ i < 2 ^ (8 * Z.of_nat n) /\
            (n = 1%nat \/ 2 ^ (8 * (Z.of_nat n - 1)) <= i).
Proof.
  intros Hi. unfold is_u64 in Hi. unfold putint.
  repeat (bcase; [eexists; split; [|split; [reflexivity|]]; lia|]).
  exists 8%nat. split; [lia|]. split; [done|]. lia.
Qed.

Lemma intsizeLoop_spec k fuel i size :
  0 <= i < 2 ^ (8 * (Z.of_nat k + 1)) -> (k = 0%nat \/ 2 ^ (8 * Z.of_nat k) <= i) -> (k <= fuel)%nat ->
  intsizeLoop fuel i size = Some (size + Z.of_nat k).
Proof.
  revert fuel i size. induction k as [|k IH]; intros fuel i size Hi Hk Hf.
  - destruct fuel; cbn [intsizeLoop]; rewrite Z.shiftr_div_pow2, Z.div_small by lia; cbn; f_equal; lia.
  - destruct Hk as [?|Hk]; [lia|]. destruct fuel as [|fuel]; [lia|]. cbn [intsizeLoop].
    rewrite Z.shiftr_div_pow2 by lia.
    assert (2 ^ (8 * Z.of_nat k) <= i / 2 ^ 8) as Hlo.
    { apply Z.div_le_lower_bound; [lia|]. rewrite <- Z.pow_add_r by lia.
      etransitivity; [|exact Hk]. apply Z.pow_le_mono_r; lia. }
    assert (i / 2 ^ 8 < 2 ^ (8 * (Z.of_nat k + 1))) as Hhi.
    { apply Z.div_lt_upper_bound; [lia|]. rewrite <- Z.pow_add_r by lia.
      eapply Z.lt_le_trans; [apply Hi|]. apply Z.pow_le_mono_r; lia. }
    pose proof (Z.pow_pos_nonneg 2 (8 * Z.of_nat k)).
    rewrite (proj2 (Z.eqb_neq (i / 2 ^ 8) 0)) by lia. rewrite IH by lia. f_equal. lia.
Qed.

Lemma intsize_putint i : is_u64 i -> intsize i = Z.of_nat (length (putint i)).
Proof.
  intros Hi. destruct (putint_spec i Hi) as (n & Hn & -> & Hlt & Hge). unfold is_u64 in Hi.
  rewrite length_be_bytes. unfold intsize. rewrite (intsizeLoop_spec (n - 1)); cbn.
  - lia.
  - split; [lia|]. by replace (Z.of_nat (n - 1) + 1) with (Z.of_nat n) by lia.
  - destruct Hge as [->|Hge]; [by left|right]. by replace (Z.of_nat (n - 1)) with (Z.of_nat n - 1) by lia.
  - lia.
Qed.

Lemma putint_length i : is_u64 i -> (1 <= length (putint i) <= 8)%nat.
Proof. intros Hi. destruct (putint_spec i Hi) as (n & ? & -> & _). by rewrite length_be_bytes. Qed.

Lemma length_puthead a b size : is_u64 size -> Z.of_nat (length (puthead a b size)) = headsize size.
Proof.
  intros Hs. unfold puthead, headsize. bcase; [done|]. cbn [length]. rewrite intsize_putint by done. lia.
Qed.

(** ** The buffer *)

(** An item without its list headers, its headers and their size. *)
Fixpoint flat (it : item) : list Z :=
  match it with
  | Raw b => b
  | Str b => str_enc b
  | Lst l => concat (map flat l)
  end.

Fixpoint heads (off : nat) (it : item) : list listhead :=
  match it with
  | Lst l =>
      mkHead (Z.of_nat off) (Z.of_nat (length (concat (map enc l)))) ::
      (fix go off l := match l with
                       | [] => []
                       | it :: l => heads off it ++ go (off + length (flat it))%nat l
                       end) off l
  | _ => []
  end.

Fixpoint headsL (off : nat) (l : list item) : list listhead :=
  match l with
  | [] => []
  | it :: l => heads off it ++ headsL (off + length (flat it)) l
  end.

Fixpoint hsize (it : item) : Z :=
  match it with
  | Lst l => headsize (Z.of_nat (length (concat (map enc l)))) + foldr (fun it s => hsize it + s) 0 l
  | _ => 0
  end.

Definition hsizeL (l : list item) : Z := foldr (fun it s => hsize it + s) 0 l.

Lemma heads_Lst off l :
  heads off (Lst l) = mkHead (Z.of_nat off) (Z.of_nat (length (concat (map enc l)))) :: headsL off l.
Proof.
  reflexivity.
Qed.

(** The encodings the buffer can hold. *)
Definition fits (b : list Z) : Prop := Z.of_nat (length b) < 2 ^ 63.

Lemma fits_app b c : fits (b ++ c) -> fits b /\ fits c.
Proof. unfold fits. rewrite length_app. lia. Qed.

Lemma fits_u64 b : fits b -> is_u64 (Z.of_nat (length b)).
Proof. unfold fits, is_u64. lia. Qed.

Lemma length_enc it : fits (enc it) -> Z.of_nat (length (enc it)) = Z.of_nat (length (flat it)) + hsize it.
Proof.
  induction it as [b|b|l IH] using item_ind'; intros Hf; [cbn; lia..|].
  cbn [enc] in *. pose proof Hf as [_ Hc]%fits_app.
  rewrite length_app, Nat2Z.inj_add, length_puthead by by apply fits_u64. cbn [flat hsize].
  enough (Z.of_nat (length (concat (map enc l))) = Z.of_nat (length (concat (map flat l))) + hsizeL l)
    as -> by (unfold hsizeL; lia).
  clear Hf. unfold hsizeL. induction IH as [|it l H _ IHl]; cbn in *; [lia|].
  apply fits_app in Hc as [H1 H2]. rewrite !length_app, !Nat2Z.inj_add, H, IHl by done. lia.
Qed.

Lemma encodeString_append b w : encodeString b w = buf_append w (str_enc b).
Proof.
  unfold encodeString, encodeStringHeader, str_enc, buf_append.
  destruct b as [|x [|y b]]; try (case_match; [done|]); cbn [str lheads lhsize]; by rewrite <- app_assoc.
Qed.

Definition plus_items (w : encbuf) (l : list item) : encbuf :=
  mkBuf (str w ++ concat (map flat l)) (lheads w ++ headsL (length (str w)) l) (lhsize w + hsizeL l).

Lemma hsizeL_app l k : hsizeL (l ++ k) = hsizeL l + hsizeL k.
Proof. unfold hsizeL. induction l as [|it l IH]; cbn [app foldr]; lia. Qed.

Lemma length_encs l :
  fits (concat (map enc l)) ->
  Z.of_nat (length (concat (map enc l))) = Z.of_nat (length (concat (map flat l))) + hsizeL l.
Proof.
  unfold hsizeL. induction l as [|it l IH]; cbn; intros Hf; [done|].
  apply fits_app in Hf as [H1 H2]. rewrite !length_app, !Nat2Z.inj_add, length_enc, IH by done. lia.
Qed.

Lemma plus_items_app w l k : plus_items (plus_items w l) k = plus_items w (l ++ k).
Proof.
  unfold plus_items. cbn [str lheads lhsize]. rewrite map_app, concat_app, !length_app, <- !app_assoc. f_equal.
  - f_equal. generalize (length (str w)). induction l as [|it l IH]; intros n; cbn; [by rewrite Nat.add_0_r|].
    by rewrite <- app_assoc, <- IH, length_app, Nat.add_assoc.
  - rewrite hsizeL_app. lia.
Qed.

Lemma plus_items_nil w : plus_items w [] = w.
Proof. destruct w. unfold plus_items. cbn. by rewrite !app_nil_r, Z.add_0_r. Qed.

Lemma flat_head_end w l :
  fits (concat (map enc l)) ->
  let (w', lh) := buf_list w in listEnd (plus_items w' l) lh = plus_items w [Lst l].
Proof.
  intros Hf. unfold buf_list, listEnd, plus_items. cbn [str lheads lhsize offset lsize].
  rewrite <- app_assoc. rewrite lookup_app_r, Nat.sub_diag by lia. cbn [lookup list_lookup app].
  rewrite insert_app_r_alt, Nat.sub_diag by lia. cbn [offset lsize].
  pose proof (length_encs l Hf) as Hlen. unfold buf_size. cbn [str lhsize]. rewrite length_app.
  replace (_ - _ - _) with (Z.of_nat (length (concat (map enc l)))) by lia.
  cbn [map concat headsL]. rewrite heads_Lst, !app_nil_r. cbn [insert list_insert flat]. f_equal.
  change (hsizeL [Lst l]) with (headsize (Z.of_nat (length (concat (map enc l)))) + hsizeL l + 0).
  unfold headsize. lia.
Qed.

(** Building an item appends its data and its headers. *)
Lemma build_spec it w : fits (enc it) -> build it w = plus_items w [it].
Proof.
  revert w. induction it as [b|b|l IH] using item_ind'; intros w Hf.
  - unfold plus_items. cbn. by rewrite !app_nil_r, Z.add_0_r.
  - cbn [build]. rewrite encodeString_append. unfold plus_items. cbn. by rewrite !app_nil_r, Z.add_0_r.
  - cbn [build enc] in *. apply fits_app in Hf as [_ Hf]. pose proof (flat_head_end w l Hf) as Hend.
    unfold buf_list in *. rewrite <- Hend. f_equal. clear Hend.
    generalize (mkBuf (str w) (lheads w ++ [mkHead (Z.of_nat (length (str w))) (lhsize w)]) (lhsize w)). clear w.
    induction IH as [|it l H _ IHl]; intros w; cbn in *; [by rewrite plus_items_nil|].
    apply fits_app in Hf as [H1 H2]. rewrite H, IHl by done. apply (plus_items_app w [it] l).
Qed.

Lemma heads_ge off it : Forall (fun h => Z.of_nat off <= offset h) (heads off it).
Proof.
  revert off. induction it as [b|b|l IH] using item_ind'; intros off; [constructor..|].
  rewrite heads_Lst. constructor; [done|]. revert off.
  induction IH as [|it l H _ IHl]; intros off; cbn; [constructor|].
  apply Forall_app. split; [done|]. eapply Forall_impl; [apply IHl|]. cbn. lia.
Qed.

Lemma headsL_ge off l : Forall (fun h => Z.of_nat off <= offset h) (headsL off l).
Proof. pose proof (heads_ge off (Lst l)) as H. rewrite heads_Lst in H. by apply Forall_cons in H as [_ H]. Qed.

Lemma emit_skip s p q hs :
  (p <= q)%nat -> Forall (fun h => Z.of_nat q <= offset h) hs ->
  emit s p hs = take (q - p) (drop p s) ++ emit s q hs.
Proof.
  intros Hpq Hh. destruct hs as [|h hs]; cbn [emit].
  - replace (drop q s) with (drop (q - p) (drop p s)) by (rewrite drop_drop; f_equal; lia).
    by rewrite take_drop.
  - apply Forall_cons in Hh as [Hh _]. rewrite (app_assoc (take (q - p) _)). f_equal; [|do 2 f_equal; lia].
    replace (drop q s) with (drop (q - p) (drop p s)) by (rewrite drop_drop; f_equal; lia).
    rewrite take_take_drop. f_equal. lia.
Qed.

Lemma emit_item it pre post hs :
  Forall (fun h => Z.of_nat (length pre + length (flat it)) <= offset h) hs ->
  emit (pre ++ flat it ++ post) (length pre) (heads (length pre) it ++ hs)
  = enc it ++ emit (pre ++ flat it ++ post) (length pre + length (flat it)) hs.
Proof.
  revert pre post hs. induction it as [b|b|l IH] using item_ind'; intros pre post hs Hh.
  1, 2: cbn [heads app]; rewrite (emit_skip _ _ _ _ (Nat.le_add_r _ _) Hh); f_equal;
    by rewrite drop_app_length, Nat.add_comm, Nat.add_sub, take_app_length.
  rewrite heads_Lst. cbn [app emit offset enc flat] in *. rewrite Nat2Z.id, Nat.sub_diag, Nat.add_0_r.
  unfold head_encode. rewrite take_0. cbn [app lsize]. rewrite <- app_assoc. f_equal. revert pre post Hh.
  induction IH as [|it l H _ IHl]; intros pre post Hh; cbn [map concat headsL app] in *.
  - by rewrite Nat.add_0_r.
  - rewrite <- !app_assoc in *. rewrite length_app in *. rewrite H.
    + f_equal. specialize (IHl (pre ++ flat it) post). rewrite <- !app_assoc, !length_app, !Nat.add_assoc in *.
      apply IHl. exact Hh.
    + apply Forall_app. split; [|eapply Forall_impl; [exact Hh|]; cbn; lia].
      eapply Forall_impl; [apply headsL_ge|]. cbn. lia.
Qed.

Lemma emit_items l : emit (concat (map flat l)) 0 (headsL 0 l) = concat (map enc l).
Proof.
  pose proof (emit_item (Lst l) [] [] []) as H. rewrite !app_nil_r in H. cbn [length app flat] in H.
  rewrite heads_Lst in H. cbn [emit offset enc] in H. rewrite Nat2Z.id in H. cbn [Nat.sub take app Nat.add] in H.
  specialize (H (Forall_nil_2 _)). rewrite take_0, <- app_assoc, drop_all, app_nil_r in H. cbn [app] in H.
  exact (app_inv_head _ _ _ H).
Qed.

Lemma buf_size_items l :
  fits (concat (map enc l)) -> buf_size (plus_items (mkBuf [] [] 0) l) = Z.of_nat (length (concat (map enc l))).
Proof. intros Hf. unfold buf_size, plus_items. cbn [str lhsize app Z.add]. by rewrite length_encs. Qed.

(** Items written to an empty buffer come out as their encodings. *)
Lemma toBytes_items l :
  fits (concat (map enc l)) -> toBytes (plus_items (mkBuf [] [] 0) l) = concat (map enc l).
Proof.
  intros Hf. unfold toBytes. rewrite buf_size_items, Nat2Z.id by done.
  unfold plus_items. cbn [str lheads app length]. by rewrite emit_items, take_app_length.
Qed.

(** ** Writing and reading in pieces *)

Lemma concat_writerPieces s p hs : concat (writerPieces s p hs) = emit s p hs.
Proof.
  revert p. induction hs as [|h hs IH]; intros p; cbn [writerPieces emit].
  - destruct (Nat.ltb_spec p (length s)); cbn; [by rewrite app_nil_r|]. by rewrite drop_ge.
  - rewrite concat_app. cbn [concat]. rewrite IH. f_equal.
    destruct (Nat.ltb_spec 0 (Z.to_nat (offset h) - p)); cbn [concat]; [by rewrite app_nil_r|].
    by replace (Z.to_nat (offset h) - p)%nat with 0%nat by lia.
Qed.

(** The bytes a reader has still to deliver. *)
Definition pending (r : encReader) : list Z :=
  match rbuf r with
  | None => []
  | Some w => piece r ++ emit (str w) (strpos r) (drop (lhpos r) (lheads w))
  end.

Definition reader_ok (r : encReader) : Prop :=
  match rbuf r with
  | None => True
  | Some w => Forall (fun h => (Z.to_nat (offset h) <= length (str w))%nat) (lheads w)
  end.

(** The rounds left: the pieces of each header, of the rest, and the end. *)
Fixpoint rounds (s : list Z) (p : nat) (hs : list listhead) : nat :=
  match hs with
  | [] => (if (p <? length s)%nat then 1 else 0) + 1
  | h :: hs =>
      let n := (Z.to_nat (offset h) - p)%nat in
      (if (0 <? n)%nat then 1 else 0) + 1 + rounds s (p + n) hs
  end.

Definition reader_rounds (r : encReader) : nat :=
  match rbuf r with
  | None => 1
  | Some w => (match piece r with [] => 0 | _ => 1 end) + rounds (str w) (strpos r) (drop (lhpos r) (lheads w))
  end.

Lemma rounds_le s p hs : (rounds s p hs <= 2 * length hs + 2)%nat.
Proof.
  revert p. induction hs as [|h hs IH]; intros p; cbn [rounds length].
  - destruct (_ <? _)%nat; lia.
  - specialize (IH (p + (Z.to_nat (offset h) - p))%nat). destruct (_ <? _)%nat; lia.
Qed.

Lemma reader_rounds_le r : (reader_rounds r <= reader_fuel r)%nat.
Proof.
  unfold reader_rounds, reader_fuel. destruct (rbuf r) as [w|]; [|done].
  pose proof (rounds_le (str w) (strpos r) (drop (lhpos r) (lheads w))) as H.
  rewrite length_drop in H. destruct (piece r); lia.
Qed.

Lemma head_encode_ne h : head_encode h <> [].
Proof. unfold head_encode, puthead. by case_match. Qed.

(** [next] gives the next bytes, none only at the end. *)
Lemma reader_next_spec r :
  reader_ok r -> let (p, r') := reader_next r in
  pending r = p ++ pending (mkReader (rbuf r') (lhpos r') (strpos r') []) /\ rbuf r' = rbuf r /\
  (p = [] -> pending r = []) /\
  (p <> [] -> (reader_rounds (mkReader (rbuf r') (lhpos r') (strpos r') []) < reader_rounds r)%nat).
Proof.
  intros Hok. unfold reader_next. unfold reader_ok in Hok. unfold pending, reader_rounds.
  destruct (rbuf r) as [w|] eqn:Ew; [|by rewrite !Ew].
  destruct (piece r) as [|x p] eqn:Ep; [|rewrite !Ew; cbn [rbuf piece lhpos strpos]; split_and!; [done..|lia]].
  destruct (lheads w !! lhpos r) as [h|] eqn:Eh.
  - rewrite (drop_S _ _ _ Eh). cbn [emit rounds]. rewrite Forall_lookup in Hok. specialize (Hok _ _ Eh). cbn in Hok.
    set (n := (Z.to_nat (offset h) - strpos r)%nat).
    destruct (Nat.ltb_spec 0 n) as [Hn|Hn]; cbn [rbuf lhpos strpos piece].
    + rewrite (drop_S _ _ _ Eh). cbn [emit rounds].
      replace (Z.to_nat (offset h) - (strpos r + n))%nat with 0%nat by lia.
      rewrite take_0, Nat.add_0_r. cbn [app Nat.ltb Nat.leb]. split_and!; [done..| |lia].
      intros E. apply (f_equal length) in E. rewrite length_take, length_drop in E. cbn in E. lia.
    + replace n with 0%nat by lia. rewrite take_0, Nat.add_0_r. cbn [app]. split_and!; [done..| |lia].
      intros E. by apply head_encode_ne in E.
  - rewrite (drop_ge (lheads w)) by by apply lookup_ge_None. cbn [emit rounds].
    destruct (Nat.ltb_spec (strpos r) (length (str w))) as [Hl|Hl]; cbn [rbuf lhpos strpos piece].
    + rewrite (drop_ge (lheads w)) by by apply lookup_ge_None. cbn [emit rounds].
      rewrite drop_all, Nat.ltb_irrefl, app_nil_r. split_and!; [done..| |lia].
      intros E. apply (f_equal length) in E. rewrite length_drop in E. cbn in E. lia.
    + rewrite Ew. rewrite (drop_ge (lheads w)) by by apply lookup_ge_None. cbn [emit].
      rewrite drop_ge by done. done.
Qed.

Lemma reader_read_spec fuel r k :
  reader_ok r -> (reader_rounds r <= fuel)%nat ->
  exists r', reader_read fuel r k = Some (take k (pending r), bool_decide (length (pending r) <= k)%nat, r') /\
             pending r' = drop k (pending r) /\ reader_ok r'.
Proof.
  revert r k. induction fuel as [|fuel IH]; intros r k Hok Hf.
  { unfold reader_rounds in Hf. destruct (rbuf r) as [w|]; [|lia].
    destruct (drop (lhpos r) (lheads w)); cbn [rounds] in Hf; lia. }
  cbn [reader_read]. pose proof (reader_next_spec r Hok) as Hn.
  destruct (reader_next r) as [p r1]. destruct Hn as (Hp & Hb & He & Hr).
  destruct p as [|x p].
  - rewrite He by done. eexists. split_and!; [by rewrite take_nil, bool_decide_true by (cbn; lia)| |done].
    by rewrite drop_nil.
  - set (pc := x :: p) in *. specialize (Hr ltac:(done)).
    set (r2 := mkReader (rbuf r1) (lhpos r1) (strpos r1) []) in *.
    assert (reader_ok r2) as Hok2 by (unfold reader_ok in *; cbn [rbuf r2]; by rewrite Hb).
    destruct (Nat.ltb_spec k (length pc)) as [Hk|Hk].
    + exists (mkReader (rbuf r1) (lhpos r1) (strpos r1) (drop k pc)).
      split_and!; [| |unfold reader_ok in *; cbn; by rewrite Hb].
      * rewrite Hp, take_app_le by lia. rewrite bool_decide_false by (rewrite length_app; lia). done.
      * rewrite Hp, drop_app_le by lia. unfold pending. cbn [rbuf piece r2 lhpos strpos].
        destruct (rbuf r1); [done|]. unfold pending in Hp. by rewrite <- Hb in Hp.
    + destruct (IH r2 (k - length pc)%nat Hok2 ltac:(lia)) as (r3 & E & Hp3 & Hok3).
      rewrite E. cbn [mbind option_bind]. exists r3. rewrite Hp, take_app_ge, drop_app_ge by lia.
      split_and!; [|done|done]. rewrite length_app.
      by rewrite (bool_decide_ext (length pc + length (pending r2) <= k)%nat
                    (length (pending r2) <= k - length pc)%nat) by lia.
Qed.

(** ** Canonical numbers *)

Lemma be_value_putint i : is_u64 i -> be_value (putint i) = i.
Proof.
  intros Hi. destruct (putint_spec i Hi) as (n & Hn & -> & Hlt & _). unfold is_u64 in Hi.
  rewrite be_value_be_bytes by lia. apply Z.mod_small. lia.
Qed.

Lemma putint_u8 i : is_u64 i -> Forall is_u8 (putint i).
Proof. intros Hi. destruct (putint_spec i Hi) as (n & _ & -> & _). apply be_bytes_u8. Qed.

Lemma be_value_lower x b : Forall is_u8 (x :: b) -> x <> 0 -> 2 ^ (8 * Z.of_nat (length b)) <= be_value (x :: b).
Proof.
  intros Hb Hx. rewrite be_value_cons by done. apply Forall_cons in Hb as [Hx8 Hb].
  pose proof (be_value_bound b Hb). unfold is_u8 in Hx8. nia.
Qed.

Lemma pow256_inj_bounds n m v :
  (1 <= n)%nat -> (1 <= m)%nat -> v < 2 ^ (8 * Z.of_nat n) -> v < 2 ^ (8 * Z.of_nat m) ->
  (n = 1%nat \/ 2 ^ (8 * (Z.of_nat n - 1)) <= v) -> (m = 1%nat \/ 2 ^ (8 * (Z.of_nat m - 1)) <= v) -> n = m.
Proof.
  intros Hn Hm Hvn Hvm Hn' Hm'. destruct (Nat.lt_trichotomy n m) as [H|[H|H]]; [|done|]; exfalso.
  - destruct Hm' as [->|Hm']; [lia|].
    pose proof (Z.pow_le_mono_r 2 (8 * Z.of_nat n) (8 * (Z.of_nat m - 1))). lia.
  - destruct Hn' as [->|Hn']; [lia|].
    pose proof (Z.pow_le_mono_r 2 (8 * Z.of_nat m) (8 * (Z.of_nat n - 1))). lia.
Qed.

Lemma pow256_u64 n v : (n <= 8)%nat -> 0 <= v < 2 ^ (8 * Z.of_nat n) -> is_u64 v.
Proof. intros Hn Hv. pose proof (Z.pow_le_mono_r 2 (8 * Z.of_nat n) 64). unfold is_u64. lia. Qed.

(** A number without leading zero bytes is the one [putint] writes. *)
Lemma putint_be_value x b :
  Forall is_u8 (x :: b) -> x <> 0 -> (length b <= 7)%nat -> putint (be_value (x :: b)) = x :: b.
Proof.
  intros Hb Hx Hl. pose proof (be_value_bound _ Hb) as B. pose proof (be_value_lower x b Hb Hx) as L.
  assert (is_u64 (be_value (x :: b))) as Hu by (apply (pow256_u64 (length (x :: b))); cbn [length]; [lia|done]).
  destruct (putint_spec _ Hu) as (n & Hn & -> & Hlt & Hge).
  assert (n = length (x :: b)) as ->; [|by apply be_bytes_be_value].
  eapply pow256_inj_bounds; [lia|cbn [length]; lia|exact Hlt|apply B|exact Hge|right].
  by replace (Z.of_nat (length (x :: b)) - 1) with (Z.of_nat (length b)) by (cbn [length]; lia).
Qed.

Lemma putint_head i : is_u64 i -> i <> 0 -> exists x b, putint i = x :: b /\ x <> 0.
Proof.
  intros Hi H0. destruct (putint_spec i Hi) as (n & Hn & E & Hlt & Hge). unfold is_u64 in Hi.
  destruct n as [|n]; [lia|]. cbn [be_bytes] in E. do 2 eexists. split; [exact E|].
  replace (8 * Z.of_nat (S n)) with (8 + 8 * Z.of_nat n) in Hlt by lia. rewrite Z.pow_add_r in Hlt by lia.
  rewrite Z.shiftr_div_pow2, u8_small by
    first [lia | split; [apply Z.div_pos; lia | apply Z.div_lt_upper_bound; lia]].
  assert (2 ^ (8 * Z.of_nat n) <= i).
  { destruct Hge as [Hn1|Hge]; [replace n with 0%nat by lia; cbn; lia|].
    by replace (Z.of_nat (S n) - 1) with (Z.of_nat n) in Hge by lia. }
  pose proof (Z.div_str_pos i (2 ^ (8 * Z.of_nat n))). lia.
Qed.

(** A size read in front of a value is written the one way [putint] has. *)
Lemma readSize_spec b slen s :
  Forall is_u8 b -> 1 <= slen <= 8 ->
  readSize b slen = Ok s <->
  56 <= s /\ is_u64 s /\ slen = Z.of_nat (length (putint s)) /\ exists r, b = putint s ++ r.
Proof.
  intros Hb Hs. unfold readSize. rewrite Z.gtb_ltb.
  rewrite (proj2 (Z.leb_le 1 slen)), (proj2 (Z.leb_le slen 8)) by lia. cbn [andb]. split.
  - destruct (Z.ltb_spec (Z.of_nat (length b)) slen) as [|Hlen]; [done|]. bcase; [done|].
    destruct b as [|b0 b]; [done|]. bcase; [done|]. intros [= <-].
    destruct (Z.to_nat slen) as [|m] eqn:En; [lia|]. cbn [take] in *. cbn [length] in Hlen.
    apply Forall_cons in Hb as [H0 Hb].
    assert (Forall is_u8 (b0 :: take m b)) as Ht by (constructor; [done|by apply Forall_take]).
    assert (length (take m b) = m) as Hm by (rewrite length_take; lia).
    rewrite putint_be_value by (done || lia). split_and!; [done| |cbn [length]; lia|].
    + pose proof (be_value_bound _ Ht). apply (pow256_u64 (S m)); [lia|]. cbn [length] in *. by rewrite Hm in *.
    + exists (drop m b). cbn [app]. by rewrite take_drop.
  - intros (H56 & Hu & -> & r & ->). rewrite length_app. bcase; [lia|].
    rewrite Nat2Z.id, take_app_length, be_value_putint by done. bcase; [lia|].
    destruct (putint_head s Hu ltac:(lia)) as (x & t & -> & Hx). cbn [app]. by bcase.
Qed.

(** ** Splitting is the inverse of encoding *)

(** What starts with a value of a kind and content. *)
Definition token (k : Kind) (c : list Z) : list Z :=
  match k with
  | List_ => puthead 0xC0 0xF7 (Z.of_nat (length c)) ++ c
  | _ => str_enc c
  end.

Definition token_ok (k : Kind) (c : list Z) : Prop :=
  match k with
  | Byte => exists x, c = [x] /\ x < 0x80
  | String_ => forall x, c = [x] -> 0x80 <= x
  | List_ => True
  end.

Lemma str_enc_long c : token_ok String_ c -> str_enc c = puthead 0x80 0xB7 (Z.of_nat (length c)) ++ c.
Proof.
  intros H. unfold str_enc. destruct c as [|x [|y c]]; [done| |done]. specialize (H x eq_refl).
  bcase; [lia|done].
Qed.

Lemma str_enc_byte x : x < 0x80 -> str_enc [x] = [x].
Proof. intros H. unfold str_enc. bcase; [done|lia]. Qed.

Lemma take_drop_le {A} (l : list A) (n : Z) :
  0 <= n <= Z.of_nat (length l) ->
  exists c r, l = c ++ r /\ n = Z.of_nat (length c) /\ take (Z.to_nat n) l = c /\ drop (Z.to_nat n) l = r.
Proof.
  intros H. exists (take (Z.to_nat n) l), (drop (Z.to_nat n) l).
  rewrite take_drop, length_take. split_and!; [done|lia|done..].
Qed.

(** The header of a value of [size] bytes, with its first byte. *)
Lemma puthead_short tag large size :
  0 <= size < 56 -> 0 <= tag -> tag + 56 <= 2 ^ 8 -> puthead tag large size = [tag + size].
Proof. intros. unfold puthead. bcase; [|lia]. by rewrite (u8_small size), u8_small by (unfold is_u8; lia). Qed.

Lemma puthead_long tag large size :
  56 <= size -> is_u64 size -> 0 <= large -> large + 8 < 2 ^ 8 ->
  puthead tag large size = (large + Z.of_nat (length (putint size))) :: putint size.
Proof.
  intros H Hu H0 H8. pose proof (putint_length size Hu). unfold puthead. bcase; [lia|].
  by rewrite u8_small by (unfold is_u8; lia).
Qed.

(** The header in front of a value of [size] bytes. *)
Definition header (k : Kind) (size : Z) : list Z :=
  match k with
  | Byte => []
  | String_ => puthead 0x80 0xB7 size
  | List_ => puthead 0xC0 0xF7 size
  end.

Definition header_ok (k : Kind) (size : Z) (r : list Z) : Prop :=
  match k with
  | Byte => size = 1 /\ exists x r', r = x :: r' /\ x < 0x80
  | String_ => is_u64 size /\ (size = 1 -> forall x r', r = x :: r' -> 0x80 <= x)
  | List_ => is_u64 size
  end.

(** Settles the comparison a conditional is on when arithmetic does. *)
Ltac settle_if :=
  repeat match goal with
  | |- context [if ?a <? ?b then _ else _] =>
      first [rewrite (proj2 (Z.ltb_lt a b)) by lia | rewrite (proj2 (Z.ltb_ge a b)) by lia]
  end.

Lemma readTag_complete k size r b rest :
  Forall is_u8 (b :: rest) -> b :: rest = header k size ++ r -> header_ok k size r ->
  readTag b rest = Ok (k, Z.of_nat (length (header k size)), size).
Proof.
  intros Hb E Hok. unfold readTag. destruct k; cbn [header header_ok] in *.
  - destruct Hok as (-> & x & r' & -> & Hx). injection E as -> ->. by rewrite (proj2 (Z.ltb_lt x 0x80)).
  - destruct Hok as [Hu H1]. destruct (Z.lt_ge_cases size 56) as [H|H]; unfold is_u64 in Hu.
    + rewrite puthead_short in * by lia. injection E as -> ->.
      settle_if. rewrite u8_small by (unfold is_u8; lia). rewrite Z.add_simpl_l.
      destruct r as [|b1 r]; [done|]. bcase; cbn [andb]; [|done]. bcase; [|done]. specialize (H1 ltac:(lia) _ _ eq_refl). lia.
    + pose proof (putint_length size Hu). rewrite puthead_long in * by (done || lia). injection E as -> ->.
      settle_if. rewrite u8_small by (unfold is_u8; lia).
      apply Forall_cons in Hb as [_ Hb]. rewrite Z.add_simpl_l.
      rewrite (proj2 (readSize_spec _ (Z.of_nat (length (putint size))) size Hb ltac:(lia))) by eauto.
      cbn [res_bind length]. by rewrite Nat2Z.inj_succ.
  - destruct (Z.lt_ge_cases size 56) as [H|H]; unfold is_u64 in Hok.
    + rewrite puthead_short in * by lia. injection E as -> ->.
      settle_if. rewrite u8_small by (unfold is_u8; lia). by rewrite Z.add_simpl_l.
    + pose proof (putint_length size Hok). rewrite puthead_long in * by (done || lia). injection E as -> ->.
      settle_if. rewrite u8_small by (unfold is_u8; lia).
      apply Forall_cons in Hb as [_ Hb]. rewrite Z.add_simpl_l.
      rewrite (proj2 (readSize_spec _ (Z.of_nat (length (putint size))) size Hb ltac:(lia))) by eauto.
      cbn [res_bind length]. by rewrite Nat2Z.inj_succ.
Qed.

Lemma readTag_sound k ts size b rest :
  Forall is_u8 (b :: rest) -> readTag b rest = Ok (k, ts, size) ->
  exists r, b :: rest = header k size ++ r /\ header_ok k size r /\ ts = Z.of_nat (length (header k size)).
Proof.
  intros [Hb8 Hb]%Forall_cons. unfold readTag. unfold is_u8 in Hb8.
  destruct (Z.ltb_spec b 0x80); [intros [= <- <- <-]; exists (b :: rest); cbn; eauto 10|].
  destruct (Z.ltb_spec b 0xB8).
  { rewrite u8_small by (unfold is_u8; lia). intros E. assert (k = String_ /\ ts = 1 /\ size = b - 0x80 /\
      (size = 1 -> forall x r', rest = x :: r' -> 0x80 <= x)) as (-> & -> & -> & H1).
    { destruct rest as [|b1 r]; [by injection E as <- <- <-|]. bcase_in E; cbn [andb] in E.
      - bcase_in E; [done|]. injection E as <- <- <-. split_and!; [done..|]. by intros _ ? ? [= -> _].
      - injection E as <- <- <-. split_and!; [done..|lia]. }
    exists rest. cbn [header header_ok]. rewrite puthead_short by lia. cbn [app length].
    split; [f_equal; lia|]. split; [|done]. split; [unfold is_u64; lia|done]. }
  destruct (Z.ltb_spec b 0xC0).
  { rewrite u8_small by (unfold is_u8; lia). intros (cs & Hs & E)%res_bind_Ok. injection E as <- <- <-.
    apply readSize_spec in Hs as (H56 & Hu & Hl & r & ->); [|done|lia].
    exists r. cbn [header header_ok]. rewrite puthead_long by (done || lia). cbn [app length].
    split; [f_equal; lia|]. split; [split; [done|lia]|lia]. }
  destruct (Z.ltb_spec b 0xF8).
  { rewrite u8_small by (unfold is_u8; lia). intros [= <- <- <-]. exists rest. cbn [header header_ok].
    rewrite puthead_short by lia. cbn [app length]. split; [f_equal; lia|]. split; [unfold is_u64; lia|done]. }
  rewrite u8_small by (unfold is_u8; lia). intros (cs & Hs & E)%res_bind_Ok. injection E as <- <- <-.
  apply readSize_spec in Hs as (H56 & Hu & Hl & r & ->); [|done|lia].
  exists r. cbn [header header_ok]. rewrite puthead_long by (done || lia). cbn [app length].
  split; [f_equal; lia|]. split; [done|lia].
Qed.

Lemma token_header k c : token_ok k c -> token k c = header k (Z.of_nat (length c)) ++ c.
Proof.
  destruct k; cbn [token header]; [|apply str_enc_long|done].
  intros (x & -> & Hx). by apply str_enc_byte.
Qed.

Lemma token_header_ok k c rest :
  fits c -> token_ok k c <-> header_ok k (Z.of_nat (length c)) (c ++ rest) /\ (k = Byte -> length c = 1%nat).
Proof.
  intros Hf%fits_u64. destruct k; cbn [token_ok header_ok].
  - split.
    + intros (x & -> & Hx). cbn. eauto 10.
    + intros [(_ & x & r & E & Hx) Hl]. specialize (Hl eq_refl). destruct c as [|y [|z c]]; try done.
      injection E as -> _. eauto.
  - split.
    + intros H. split; [|done]. split; [done|]. intros Hl x r E.
      destruct c as [|y [|z c]]; try (cbn in Hl; lia). injection E as -> _. by apply H.
    + intros [[_ H] _] x ->. by eapply H.
  - split; [done|by intros [? _]].
Qed.

Lemma readKind_iff b k ts cs :
  Forall is_u8 b -> fits b ->
  readKind b = Ok (k, ts, cs) <->
  exists c rest, token_ok k c /\ b = token k c ++ rest /\ cs = Z.of_nat (length c) /\
                 ts = Z.of_nat (length (token k c)) - cs.
Proof.
  intros Hb Hf. destruct b as [|x b].
  { cbn [readKind]. split; [done|]. intros (c & rest & Hok & E & _). exfalso.
    rewrite token_header in E by done. destruct k; cbn [header] in E; unfold puthead in E; try by case_match.
    destruct Hok as (? & -> & _). done. }
  unfold readKind. split.
  - intros ([[k' ts'] cs'] & Ht & E)%res_bind_Ok. bcase_in E.
    destruct (Z.ltb_spec (u64 (Z.of_nat (length (x :: b)) - ts')) cs') as [|Hcs]; [done|]. injection E as -> -> ->.
    destruct (readTag_sound _ _ _ _ _ Hb Ht) as (r & Hr & Hok & ->).
    assert (Z.of_nat (length (x :: b)) = Z.of_nat (length (header k cs)) + Z.of_nat (length r)) as Hl
      by (rewrite Hr, length_app; lia).
    unfold fits in Hf. rewrite u64_small in Hcs by (unfold is_u64; lia).
    assert (0 <= cs) as H0 by (destruct k; cbn in Hok; unfold is_u64 in Hok; lia).
    destruct (take_drop_le r cs ltac:(lia)) as (c & rest & -> & -> & _ & _).
    rewrite length_app in Hl. exists c, rest.
    assert (token_ok k c) as Htok.
    { apply (token_header_ok k c rest); [unfold fits; lia|]. split; [done|]. intros ->. cbn in Hok. lia. }
    rewrite (token_header k c Htok). split_and!; [done|by rewrite <- app_assoc|done|]. rewrite length_app. lia.
  - intros (c & rest & Hok & E & -> & ->). rewrite token_header in * by done.
    unfold fits in Hf. assert (length (x :: b) = length ((header k (Z.of_nat (length c)) ++ c) ++ rest)) as Hl by by f_equal.
    rewrite !length_app in Hl. rewrite <- app_assoc in E. rewrite (readTag_complete _ _ _ _ _ Hb E).
    + cbn [res_bind]. rewrite u64_small by (unfold is_u64; lia). bcase. rewrite length_app.
      rewrite (proj2 (Z.ltb_ge _ _)) by lia. do 3 f_equal. lia.
    + apply (token_header_ok k c rest); [unfold fits; lia|done].
Qed.

Lemma Split_iff b k c rest :
  Forall is_u8 b -> fits b ->
  Split b = Ok (k, c, rest) <-> token_ok k c /\ b = token k c ++ rest.
Proof.
  intros Hb Hf. unfold Split. split.
  - intros ([[k' ts] cs] & Hk & E)%res_bind_Ok. injection E as <- <- <-.
    apply readKind_iff in Hk as (c & r & Hok & -> & -> & ->); [|done..].
    rewrite token_header by done. rewrite length_app.
    replace (Z.to_nat (_ - _)) with (length (header k' (Z.of_nat (length c)))) by lia.
    rewrite <- app_assoc, drop_app_length, Nat2Z.id, take_app_length, drop_app_length.
    split; [done|]. by rewrite token_header, <- app_assoc by done.
  - intros [Hok E]. rewrite (proj2 (readKind_iff b k _ _ Hb Hf)) by eauto 10. cbn [res_bind].
    rewrite E, token_header by done. rewrite length_app.
    replace (Z.to_nat (_ - _)) with (length (header k (Z.of_nat (length c)))) by lia.
    by rewrite <- app_assoc, drop_app_length, Nat2Z.id, take_app_length, drop_app_length.
Qed.

Lemma token_ne k c : token_ok k c -> token k c <> [].
Proof.
  intros Hok. rewrite token_header by done. destruct k; cbn [header]; [|unfold puthead; by case_match..].
  by destruct Hok as (x & -> & _).
Qed.

Lemma countValues_iff fuel b i n :
  Forall is_u8 b -> fits b -> (length b <= fuel)%nat ->
  countValues fuel b i = Ok n <->
  exists l, Forall (fun t => token_ok (fst t) (snd t)) l /\ b = concat (map (fun t => token (fst t) (snd t)) l) /\
            n = i + Z.of_nat (length l).
Proof.
  revert b i. induction fuel as [|fuel IH]; intros b i Hb Hf Hl.
  all: destruct b as [|x b].
  1, 3: cbn [countValues]; split;
    [ intros [= <-]; exists []; split_and!; [constructor|done|cbn; lia]
    | intros ([|[k c] l] & Hok & E & ->); [f_equal; cbn; lia|]; apply Forall_cons in Hok as [Hok _]; cbn in E;
      symmetry in E; apply app_nil in E as [E _]; by apply token_ne in E ].
  { cbn in Hl. lia. }
  cbn [countValues]. split.
  - intros ([[k ts] cs] & Hk & E)%res_bind_Ok.
    apply readKind_iff in Hk as (c & r & Hok & Eb & -> & ->); [|done..]. rewrite Eb in *.
    replace (Z.to_nat _) with (length (token k c)) in E by lia. rewrite drop_app_length in E.
    apply Forall_app in Hb as [_ Hb]. apply fits_app in Hf as [_ Hf].
    pose proof (token_ne k c Hok). destruct (token k c) as [|y t] eqn:Et; [done|].
    cbn [app length] in Hl. rewrite length_app in Hl.
    apply IH in E as (l & Hall & -> & ->); [|done|done|lia].
    exists ((k, c) :: l). cbn [map concat length fst snd]. rewrite Et. split_and!; [by constructor|done|lia].
  - intros ([|[k c] l] & Hok & E & ->); [done|]. apply Forall_cons in Hok as [Hok Hall]. cbn in Hok.
    cbn [map concat fst snd] in E.
    rewrite (proj2 (readKind_iff _ k _ _ Hb Hf)) by eauto 10. cbn [res_bind]. rewrite E in *.
    replace (Z.to_nat _) with (length (token k c)) by lia. rewrite drop_app_length.
    apply Forall_app in Hb as [_ Hb]. apply fits_app in Hf as [_ Hf].
    pose proof (token_ne k c Hok). rewrite length_app in Hl. destruct (token k c) as [|y t] eqn:Et; [done|].
    cbn [length] in Hl. apply IH; [done|done|lia|]. exists l. split_and!; [done..|cbn [length]; lia].
Qed.

Lemma CountValues_iff b n :
  Forall is_u8 b -> fits b ->
  CountValues b = Ok n <->
  exists l, Forall (fun t => token_ok (fst t) (snd t)) l /\ b = concat (map (fun t => token (fst t) (snd t)) l) /\
            n = Z.of_nat (length l).
Proof. intros Hb Hf. unfold CountValues. by rewrite countValues_iff. Qed.

(** [Split] and the encoding are inverse to each other: on any bytes [Split]
    finds a value of a kind, a content and a rest exactly when the bytes are the
    encoding of that content, followed by the rest.  So an encoding is taken
    apart again, and bytes that are not the encoding of a value (a size that
    has leading zeros or needs no size of its own, a single byte written as a
    string, a value longer than the input) are refused. *)
Theorem split_inverts_encoding b k c rest :
  Forall is_u8 b -> fits b ->
  Split b = Ok (k, c, rest) <-> token_ok k c /\ b = token k c ++ rest.
Proof. apply Split_iff. Qed.

Lemma split_inverts_encoding_witness :
  Split [0x82; 0x01; 0x02; 0x09] = Ok (String_, [0x01; 0x02], [0x09]) /\ token String_ [1; 2] = [0x82; 1; 2].
Proof.
  split; [|reflexivity]. apply split_inverts_encoding.
  - repeat constructor; lia.
  - reflexivity.
  - split; [|reflexivity]. intros x E. discriminate E.
Defined.
