(* ===== verification/RlpStream.v ===== *)
(** * The RLP input stream ([rlp/decode.go])

    [Stream] reads values piece by piece.  It remembers the header of the value
    ahead, how much of the input it may still read, and for every list it is
    in how far it has come.  The reader behind it is a [bytes.Reader], which
    gives what it holds and then the end of the input. *)

From stdpp Require Import strings.
From S2P Require Import Rlp Prelude.

(** The errors of the stream and of the decoders above it.  The type and the
    context a [decodeError] carries are not kept; [NoFuel] is no error of the
    code: a loop was cut off. *)
Inductive dec_error :=
| EOF | UnexpectedEOF | EOL | ExpectedString | ExpectedList | CanonInt | CanonSize
| ElemTooLarge | ValueTooLarge | MoreThanOneValue | NotInList | NotAtEOL | UintOverflow
| InvalidBool (num : Z) | DecodeError (msg : string) | NoFuel.

#[global] Instance dec_error_eq : EqDecision dec_error.
Proof. solve_decision. Defined.

Record listpos := mkPos {
  lp_pos : Z;
  lp_size : Z
}.

(** The top of the stack comes first. *)
Record Stream := mkStream {
  input : list Z;
  remaining : Z;
  limited : bool;
  kind : option Kind;
  ssize : Z;
  byteval : Z;
  kinderr : option dec_error;
  stack : list listpos
}.

(** A call on the stream: its outcome and the stream after it, errors included. *)
Definition st (A : Type) : Type := Stream -> res dec_error A * Stream.

Definition st_bind {A B} (m : st A) (k : A -> st B) : st B := fun s =>
  let (r, s) := m s in
  match r with
  | Ok a => k a s
  | Err e => (Err e, s)
  | Panic => (Panic, s)
  end.

Definition st_ret {A} (a : A) : st A := fun s => (Ok a, s).
Definition st_err {A} (e : dec_error) : st A := fun s => (Err e, s).
Definition st_panic {A} : st A := fun s => (Panic, s).

Notation "'do' x <- m ; k" := (st_bind m (fun x => k))
  (at level 20, x pattern, m at level 100, k at level 200) : go_scope.

(** The caller looks at the outcome itself. *)
Definition st_catch {A B} (m : st A) (k : res dec_error A -> st B) : st B := fun s =>
  let (r, s) := m s in k r s.

Definition set_kind (k : option Kind) (s : Stream) : Stream :=
  mkStream (input s) (remaining s) (limited s) k (ssize s) (byteval s) (kinderr s) (stack s).
Definition rearm : st () := fun s => (Ok (), set_kind None s).
Definition set_stack (st : list listpos) (s : Stream) : Stream :=
  mkStream (input s) (remaining s) (limited s) (kind s) (ssize s) (byteval s) (kinderr s) st.
Definition set_remaining (n : Z) (s : Stream) : Stream :=
  mkStream (input s) n (limited s) (kind s) (ssize s) (byteval s) (kinderr s) (stack s).
Definition set_input (b : list Z) (s : Stream) : Stream :=
  mkStream b (remaining s) (limited s) (kind s) (ssize s) (byteval s) (kinderr s) (stack s).
Definition set_byteval (b : Z) (s : Stream) : Stream :=
  mkStream (input s) (remaining s) (limited s) (kind s) (ssize s) b (kinderr s) (stack s).
Definition set_ahead (k : option Kind) (size : Z) (e : option dec_error) (s : Stream) : Stream :=
  mkStream (input s) (remaining s) (limited s) k size (byteval s) e (stack s).

(** [NewStream] on a [bytes.Reader]: without a limit of its own it has the
    length of the input as one. *)
Definition NewStream (r : list Z) (inputLimit : Z) : Stream :=
  mkStream r (if inputLimit >? 0 then inputLimit else Z.of_nat (length r)) true None 0 0 None [].

(** [make([]byte, size)] panics beyond the address space of the runtime. *)
Definition maxAlloc : Z := 2 ^ 48.
Definition make_bytes (size : Z) : st () :=
  if size >? maxAlloc then st_panic else st_ret ().

(** ** Reading bytes *)

Definition willRead (n : Z) : st () := fun s =>
  let s := set_kind None s in
  match (match stack s with
         | [] => Some s
         | tos :: stk =>
             if n >? u64 (lp_size tos - lp_pos tos) then None
             else Some (set_stack (mkPos (u64 (lp_pos tos + n)) (lp_size tos) :: stk) s)
         end) with
  | None => (Err ElemTooLarge, s)
  | Some s =>
      if limited s then
        if n >? remaining s then (Err ValueTooLarge, s)
        else (Ok (), set_remaining (u64 (remaining s - n)) s)
      else (Ok (), s)
  end.

(** [readFull] of a buffer of [n] bytes. *)
Definition readFull (n : Z) : st (list Z) :=
  do _ <- willRead n;
  fun s =>
    if Z.of_nat (length (input s)) <? n then (Err UnexpectedEOF, set_input [] s)
    else (Ok (take (Z.to_nat n) (input s)), set_input (drop (Z.to_nat n) (input s)) s).

Definition readByte : st Z :=
  do _ <- willRead 1;
  fun s => match input s with
           | [] => (Err UnexpectedEOF, s)
           | b :: r => (Ok b, set_input r s)
           end.

(** More than eight bytes would leave the buffer of the stream. *)
Definition readUint (size : Z) : st Z :=
  if size =? 0 then do _ <- rearm; st_ret 0
  else if size =? 1 then readByte
  else if size >? 8 then st_panic
  else
    do b <- readFull size;
    match b with
    | [] => st_panic
    | b0 :: _ => if b0 =? 0 then st_err CanonSize else st_ret (be_value b)
    end.

(** ** The header of the value ahead *)

(** The size of a long header. *)
Definition readLong (k : Kind) (slen : Z) : st (Kind * Z * option dec_error) :=
  st_catch (readUint slen) (fun r =>
    match r with
    | Ok size => st_ret (k, size, if size <? 56 then Some CanonSize else None)
    | Err e => st_ret (k, 0, Some e)
    | Panic => st_panic
    end).

(** [readKind]: a kind and a size are returned with an error, too. *)
Definition stream_readKind : st (Kind * Z * option dec_error) :=
  st_catch readByte (fun r =>
    match r with
    | Ok b =>
        do _ <- (fun s => (Ok (), set_byteval 0 s));
        if b <? 0x80 then do _ <- (fun s => (Ok (), set_byteval b s)); st_ret (Byte, 0, None)
        else if b <? 0xB8 then st_ret (String_, u8 (b - 0x80), None)
        else if b <? 0xC0 then readLong String_ (u8 (b - 0xB7))
        else if b <? 0xF8 then st_ret (List_, u8 (b - 0xC0), None)
        else readLong List_ (u8 (b - 0xF7))
    | Err e => fun s =>
        let e := match stack s, e with
                 | [], UnexpectedEOF => EOF
                 | [], ValueTooLarge => EOF
                 | _, _ => e
                 end in
        (Ok (Byte, 0, Some e), s)
    | Panic => st_panic
    end).

(** The error of a header that does not fit: into the input for a value of
    its own, into the list for an element. *)
Definition overrun (s : Stream) (size : Z) : option dec_error :=
  match stack s with
  | [] => if limited s && (size >? remaining s) then Some ValueTooLarge else None
  | tos :: _ => if size >? u64 (lp_size tos - lp_pos tos) then Some ElemTooLarge else None
  end.

(** The cached header, or its error. *)
Definition ahead : st (Kind * Z) := fun s =>
  match kinderr s, kind s with
  | Some e, _ => (Err e, s)
  | None, Some k => (Ok (k, ssize s), s)
  | None, None => (Panic, s)
  end.

Definition stream_Kind : st (Kind * Z) := fun s =>
  match kind s with
  | Some _ => ahead s
  | None =>
      let s := set_ahead None (ssize s) None s in
      if match stack s with tos :: _ => lp_pos tos =? lp_size tos | [] => false end
      then (Err EOL, s)
      else
        (do (k, size, e) <- stream_readKind;
         do _ <- (fun s => (Ok (), set_ahead (Some k) size
                                     (match e with Some e => Some e | None => overrun s size end) s));
         ahead) s
  end.

(** ** Values *)

Definition stream_Bytes : st (list Z) :=
  do (k, size) <- stream_Kind;
  match k with
  | Byte => do _ <- rearm; fun s => (Ok [byteval s], s)
  | String_ =>
      do _ <- make_bytes size;
      do b <- readFull size;
      match b with
      | b0 :: _ => if (size =? 1) && (b0 <? 128) then st_err CanonSize else st_ret b
      | [] => st_ret b
      end
  | List_ => st_err ExpectedString
  end.

(** The header is gone and is written anew. *)
Definition stream_Raw : st (list Z) :=
  do (k, size) <- stream_Kind;
  match k with
  | Byte => do _ <- rearm; fun s => (Ok [byteval s], s)
  | _ =>
      let start := headsize size in
      let total := u64 (start + size) in
      do _ <- make_bytes total;
      if total <? start then st_panic
      else
        do b <- readFull (total - start);
        st_ret ((match k with
                 | List_ => puthead 0xC0 0xF7 size
                 | _ => puthead 0x80 0xB7 size
                 end) ++ b)
  end.

Definition stream_uint (maxbits : Z) : st Z :=
  do (k, size) <- stream_Kind;
  match k with
  | Byte => fun s =>
      if byteval s =? 0 then (Err CanonInt, s)
      else (Ok (byteval s), set_kind None s)
  | String_ =>
      if size >? maxbits / 8 then st_err UintOverflow
      else
        st_catch (readUint (u8 size)) (fun r =>
          match r with
          | Err CanonSize => st_err CanonInt
          | Err e => st_err e
          | Panic => st_panic
          | Ok v => if (size >? 0) && (v <? 128) then st_err CanonSize else st_ret v
          end)
  | List_ => st_err ExpectedString
  end.

Definition stream_Uint : st Z := stream_uint 64.

Definition stream_Bool : st bool :=
  do num <- stream_uint 8;
  if num =? 0 then st_ret false
  else if num =? 1 then st_ret true
  else st_err (InvalidBool num).

Definition stream_List : st Z :=
  do (k, size) <- stream_Kind;
  match k with
  | List_ => fun s => (Ok size, set_ahead None 0 (kinderr s) (set_stack (mkPos 0 size :: stack s) s))
  | _ => st_err ExpectedList
  end.

Definition ListEnd : st () := fun s =>
  match stack s with
  | [] => (Err NotInList, s)
  | tos :: stk =>
      if negb (lp_pos tos =? lp_size tos) then (Err NotAtEOL, s)
      else
        let stk := match stk with
                   | [] => []
                   | p :: stk => mkPos (u64 (lp_pos p + lp_size tos)) (lp_size p) :: stk
                   end in
        (Ok (), set_ahead None 0 (kinderr s) (set_stack stk s))
  end.
