(* ===== verification/RlpCodec.v ===== *)
(** * RLP of typed values ([rlp/encode.go], [rlp/decode.go], [rlp/typecache.go])

    The encoder and the decoder choose a routine per Go type.  A type is the
    part of it that choice looks at, struct tags included; a type with
    [EncodeRLP] and [DecodeRLP] methods that pass a part of it on is the type of
    that part.  Types that contain themselves are not covered. *)

From stdpp Require Import strings.
From S2P Require Import Rlp RlpStream Prelude.

#[local] Set Warnings "-register-all".

(** ** Types and values *)

(** [tail] and [nilOK] are the struct tags of the field that has the type.  A
    [TTyped] interface has [GetConstructorType]; what its constructors make is
    found by that number. *)
Inductive gtype :=
| TRaw
| TUint (bits : Z)
| TBool
| TBig
| TBigPtr
| TString
| TBytes
| TByteArray (n : nat)
| TSlice (tail : bool) (t : gtype)
| TArray (n : nat) (t : gtype)
| TStruct (fields : list gtype)
| TPtr (nilOK : bool) (t : gtype)
| TIface
| TTyped (InterfaceConstructorMap : Z -> option gtype).

(** ** Struct tags ([rlp/typecache.go]) *)

Record tags := mkTags {
  tagNilOK : bool;
  tagTail : bool;
  tagIgnored : bool
}.

(** A field of a struct: whether it is exported, the parts of its [rlp] tag
    without blanks, and its type. *)
Record gofield := mkField {
  exported : bool;
  tagParts : list string;
  ftype : gtype
}.

Inductive tag_error := TailNotLast | TailNotSlice | UnknownTag.

Definition is_slice (t : gtype) : bool :=
  match t with
  | TSlice _ _ | TBytes | TRaw => true
  | _ => false
  end.

(** The loop over the parts; [last] is whether the field is the last one of
    the struct. *)
Fixpoint parseStructTag (last : bool) (t : gtype) (parts : list string) (ts : tags) : res tag_error tags :=
  match parts with
  | [] => Ok ts
  | p :: parts =>
      let* ts :=
        if bool_decide (p = "") then Ok ts
        else if bool_decide (p = "-") then Ok (mkTags (tagNilOK ts) (tagTail ts) true)
        else if bool_decide (p = "nil") then Ok (mkTags true (tagTail ts) (tagIgnored ts))
        else if bool_decide (p = "tail") then
          if negb last then Err TailNotLast
          else if negb (is_slice t) then Err TailNotSlice
          else Ok (mkTags (tagNilOK ts) true (tagIgnored ts))
        else Err UnknownTag in
      parseStructTag last t parts ts
  end.

(** The tags a routine looks at: [tail] for a slice that is no byte slice,
    [nil] for a pointer. *)
Definition with_tags (ts : tags) (t : gtype) : gtype :=
  match t with
  | TSlice _ t => TSlice (tagTail ts) t
  | TPtr _ t => TPtr (tagNilOK ts) t
  | t => t
  end.

(** [structFields]: the types of the fields that are coded, tags included. *)
Fixpoint structFields (fs : list gofield) : res tag_error (list gtype) :=
  match fs with
  | [] => Ok []
  | f :: fs =>
      if exported f then
        let* ts := parseStructTag (match fs with [] => true | _ => false end) (ftype f) (tagParts f)
                     (mkTags false false false) in
        let* l := structFields fs in
        Ok (if tagIgnored ts then l else with_tags ts (ftype f) :: l)
      else structFields fs
  end.

(** An interface value carries its dynamic type. *)
Inductive gval :=
| VRaw (b : list Z)
| VUint (i : Z)
| VBool (b : bool)
| VBig (i : Z)
| VBigPtr (o : option Z)
| VString (b : list Z)
| VBytes (b : list Z)
| VByteArray (b : list Z)
| VSlice (l : list gval)
| VArray (l : list gval)
| VStruct (l : list gval)
| VPtr (o : option gval)
| VIface (o : option (gtype * gval))
| VTyped (o : option (Z * gtype * gval)).

(** ** Writers *)

Inductive enc_error := NegativeBigInt.

(** [big.Int.Bytes] of a positive number. *)
Definition bigBytes (i : Z) : list Z :=
  if i <=? 0 then [] else be_bytes (Z.to_nat (Z.log2 i / 8 + 1)) i.

Definition writeUint (i : Z) (w : encbuf) : encbuf :=
  if i =? 0 then buf_append w [0x80]
  else if i <? 128 then buf_append w [u8 i]
  else let s := putint i in buf_append w (u8 (0x80 + Z.of_nat (length s)) :: s).

(** [EncodeUint] *)
Definition EncodeUint (i : Z) : list Z :=
  if i =? 0 then [0x80]
  else if i <? 128 then [u8 i]
  else let s := putint i in u8 (0x80 + Z.of_nat (length s)) :: s.

Definition writeBool (b : bool) (w : encbuf) : encbuf := buf_append w [if b then 0x01 else 0x80].

Definition writeBigInt (i : Z) (w : encbuf) : res enc_error encbuf :=
  if i <? 0 then Err NegativeBigInt
  else if i =? 0 then Ok (buf_append w [0x80])
  else Ok (encodeString (bigBytes i) w).

Definition writeBigIntPtr (o : option Z) (w : encbuf) : res enc_error encbuf :=
  match o with
  | None => Ok (buf_append w [0x80])
  | Some i => writeBigInt i w
  end.

Definition writeString (b : list Z) (w : encbuf) : encbuf :=
  match b with
  | [x] => if x <=? 0x7f then buf_append w [x] else buf_append (encodeStringHeader 1 w) b
  | _ => buf_append (encodeStringHeader (Z.of_nat (length b)) w) b
  end.

(** An empty list. *)
Definition writeEmptyList (w : encbuf) : encbuf := let (w, lh) := buf_list w in listEnd w lh.

(** [makePtrWriter]: what a nil pointer to the type is written as.  Anything
    but an array or a struct is written as its zero value; the zero value of a
    [TTyped] interface has no [GetConstructorType] to call.  [big.Int] is a
    struct, although a pointer to it has a writer of its own. *)
Fixpoint writeNil (t : gtype) (w : encbuf) : res enc_error encbuf :=
  match t with
  | TByteArray _ => Ok (buf_append w [0x80])
  | TStruct _ | TArray _ _ | TBig => Ok (writeEmptyList w)
  | TRaw => Ok (buf_append w [])
  | TUint _ => Ok (writeUint 0 w)
  | TBool => Ok (writeBool false w)
  | TBigPtr => writeBigIntPtr None w
  | TString => Ok (writeString [] w)
  | TBytes => Ok (encodeString [] w)
  | TSlice _ _ => Ok (writeEmptyList w)
  | TPtr _ t => writeNil t w
  | TIface => Ok (buf_append w [0xC0])
  | TTyped _ => Panic
  end.

Definition writeRawValue (b : list Z) (w : encbuf) : encbuf := buf_append w b.

Definition writeBytes (b : list Z) (w : encbuf) : encbuf := encodeString b w.

(** The array is made a slice first. *)
Definition writeByteArray (b : list Z) (w : encbuf) : encbuf := encodeString b w.

Section Loops.
Context (wr : gtype -> gval -> encbuf -> res enc_error encbuf).

(** A nil interface is an empty list; any other is written by its dynamic type. *)
Definition writeInterface (o : option (gtype * gval)) (w : encbuf) : res enc_error encbuf :=
  match o with
  | None => Ok (buf_append w [0xC0])
  | Some (t, v) => wr t v w
  end.

(** An interface with [GetConstructorType], which a nil one cannot be asked for. *)
Definition writeTypeInterface (o : option (Z * gtype * gval)) (w : encbuf) : res enc_error encbuf :=
  match o with
  | None => Panic
  | Some (rlpType, t, v) =>
      let (w, lh) := buf_list w in
      let w := writeUint rlpType w in
      let* w := wr t v w in
      Ok (listEnd w lh)
  end.

(** The loop of [makeSliceWriter] and the one of [makeStructWriter]. *)
Fixpoint writeElems (t : gtype) (l : list gval) (w : encbuf) : res enc_error encbuf :=
  match l with
  | [] => Ok w
  | v :: l => let* w := wr t v w in writeElems t l w
  end.

Fixpoint writeFields (ts : list gtype) (l : list gval) (w : encbuf) {struct l} : res enc_error encbuf :=
  match l, ts with
  | [], [] => Ok w
  | v :: l, t :: ts => let* w := wr t v w in writeFields ts l w
  | _, _ => Panic
  end.
End Loops.

(** [makeWriter]: the writer of a type.  A value of another type cannot occur.
    The fields of a struct and the elements of a slice are written in order, in
    a list unless the slice is a tail. *)
Fixpoint write (t : gtype) (v : gval) (w : encbuf) {struct v} : res enc_error encbuf :=
  match t, v with
  | TRaw, VRaw b => Ok (writeRawValue b w)
  | TUint _, VUint i => Ok (writeUint i w)
  | TBool, VBool b => Ok (writeBool b w)
  | TBig, VBig i => writeBigInt i w
  | TBigPtr, VBigPtr o => writeBigIntPtr o w
  | TString, VString b => Ok (writeString b w)
  | TBytes, VBytes b => Ok (writeBytes b w)
  | TByteArray _, VByteArray b => Ok (writeByteArray b w)
  | TSlice tail t, VSlice l =>
      if tail then writeElems write t l w
      else
        let (w, lh) := buf_list w in
        let* w := writeElems write t l w in
        Ok (listEnd w lh)
  | TArray _ t, VArray l =>
      let (w, lh) := buf_list w in
      let* w := writeElems write t l w in
      Ok (listEnd w lh)
  | TStruct ts, VStruct l =>
      let (w, lh) := buf_list w in
      let* w := writeFields write ts l w in
      Ok (listEnd w lh)
  | TPtr _ t, VPtr o =>
      match o with
      | None => writeNil t w
      | Some v => write t v w
      end
  | TIface, VIface o => writeInterface write o w
  | TTyped _, VTyped o => writeTypeInterface write o w
  | _, _ => Panic
  end.

(** The buffer of the pool is reset first. *)
Definition EncodeToBytes (t : gtype) (v : gval) : res enc_error (list Z) :=
  let* w := write t v (mkBuf [] [] 0) in Ok (toBytes w).

(** The pieces written to another writer. *)
Definition Encode (t : gtype) (v : gval) : res enc_error (list (list Z)) :=
  let* w := write t v (mkBuf [] [] 0) in Ok (toWriter w).

Definition EncodeToReader (t : gtype) (v : gval) : res enc_error (Z * encReader) :=
  let* w := write t v (mkBuf [] [] 0) in Ok (buf_size w, mkReader (Some w) 0 0 []).

(** ** Decoders

    They decode into a new variable, whose pointers are nil. *)

Definition wrapStreamError (e : dec_error) : dec_error :=
  match e with
  | CanonInt => DecodeError "non-canonical integer (leading zero bytes)"
  | CanonSize => DecodeError "non-canonical size information"
  | ExpectedList => DecodeError "expected input list"
  | ExpectedString => DecodeError "expected input string or byte"
  | UintOverflow => DecodeError "input string too long"
  | NotAtEOL => DecodeError "input list has too many elements"
  | e => e
  end.

Definition st_res {A} (r : res dec_error A) : st A := fun s => (r, s).

Definition wrapped {A} (m : st A) : st A :=
  st_catch m (fun r => st_res (res_wrap wrapStreamError r)).

Definition decodeUint (bits : Z) : st Z := wrapped (stream_uint bits).

Definition decodeBool : st bool := wrapped stream_Bool.

(** [decodeString] and [decodeByteSlice] *)
Definition decodeByteSlice : st (list Z) := wrapped stream_Bytes.

(** [big.Int.SetBytes] reads the bytes as a number. *)
Definition decodeBigInt : st Z :=
  do b <- wrapped stream_Bytes;
  match b with
  | b0 :: _ => if b0 =? 0 then st_err (wrapStreamError CanonInt) else st_ret (be_value b)
  | [] => st_ret (be_value b)
  end.

(** A single byte is read through [Uint], whose error is not looked at. *)
Definition decodeByteArray (n : nat) : st (list Z) :=
  do (k, size) <- stream_Kind;
  let vlen := Z.of_nat n in
  match k with
  | Byte =>
      if vlen =? 0 then st_err (DecodeError "input string too long")
      else if vlen >? 1 then st_err (DecodeError "input string too short")
      else st_catch stream_Uint (fun r =>
             match r with
             | Ok bv => st_ret [u8 bv]
             | Err _ => st_ret [0]
             | Panic => st_panic
             end)
  | String_ =>
      if vlen <? size then st_err (DecodeError "input string too long")
      else if vlen >? size then st_err (DecodeError "input string too short")
      else
        do b <- readFull vlen;
        match b with
        | b0 :: _ => if (size =? 1) && (b0 <? 128) then st_err (wrapStreamError CanonSize) else st_ret b
        | [] => st_ret b
        end
  | List_ => st_err (wrapStreamError ExpectedString)
  end.

(** The end of the list ends the loop. *)
Fixpoint decodeSliceElems (fuel : nat) (elemdec : st gval) : st (list gval) :=
  match fuel with
  | O => st_err NoFuel
  | S fuel =>
      st_catch elemdec (fun r =>
        match r with
        | Ok v => do l <- decodeSliceElems fuel elemdec; st_ret (v :: l)
        | Err EOL => st_ret []
        | Err e => st_err e
        | Panic => st_panic
        end)
  end.

Definition decodeListSlice (fuel : nat) (elemdec : st gval) : st (list gval) :=
  do size <- wrapped stream_List;
  if size =? 0 then do _ <- ListEnd; st_ret []
  else
    do l <- decodeSliceElems fuel elemdec;
    do _ <- ListEnd;
    st_ret l.

(** An error for the end of the list, other errors as they are. *)
Definition catchEOL {A} (msg : string) (m : st A) : st A :=
  st_catch m (fun r => match r with
                       | Err EOL => st_err (DecodeError msg)
                       | r => st_res r
                       end).

Fixpoint decodeArrayElems (n : nat) (elemdec : st gval) : st (list gval) :=
  match n with
  | O => st_ret []
  | S n =>
      do v <- catchEOL "input list has too few elements" elemdec;
      do l <- decodeArrayElems n elemdec;
      st_ret (v :: l)
  end.

Definition decodeListArray (n : nat) (elemdec : st gval) : st (list gval) :=
  do _ <- wrapped stream_List;
  do l <- decodeArrayElems n elemdec;
  do _ <- wrapped ListEnd;
  st_ret l.

(** The loop of [makeStructDecoder]. *)
Fixpoint decodeFields (decs : list (st gval)) : st (list gval) :=
  match decs with
  | [] => st_ret []
  | dec :: decs =>
      do v <- catchEOL "too few elements" dec;
      do l <- decodeFields decs;
      st_ret (v :: l)
  end.

Definition decodeStruct (decs : list (st gval)) : st (list gval) :=
  do _ <- wrapped stream_List;
  do l <- decodeFields decs;
  do _ <- wrapped ListEnd;
  st_ret l.

(** [makeOptionalPtrDecoder]: a value without content is a nil pointer; its
    header is dropped. *)
Definition decodeOptionalPtr (dec : st gval) : st (option gval) :=
  st_catch stream_Kind (fun r =>
    match r with
    | Ok (k, size) =>
        if (size =? 0) && match k with Byte => false | _ => true end
        then do _ <- rearm; st_ret None
        else do v <- dec; st_ret (Some v)
    | r => do _ <- rearm; do _ <- st_res r; st_ret None
    end).

(** [decodeInterface]: an empty interface gets the bytes of a string or the
    slice of a list.  Every nested list takes a byte. *)
Fixpoint decodeInterface (fuel : nat) : st gval :=
  match fuel with
  | O => st_err NoFuel
  | S fuel =>
      do (k, _) <- stream_Kind;
      match k with
      | List_ =>
          do l <- decodeListSlice fuel (decodeInterface fuel);
          st_ret (VIface (Some (TSlice false TIface, VSlice l)))
      | _ =>
          do b <- stream_Bytes;
          st_ret (VIface (Some (TBytes, VBytes b)))
      end
  end.

(** [makeDecoder], with [decodeInterfaceRLP] for the interfaces that name the
    constructor of their value. *)
Fixpoint makeDecoder (fuel : nat) (t : gtype) {struct t} : st gval :=
  match t with
  | TRaw => do b <- stream_Raw; st_ret (VRaw b)
  | TUint bits => do i <- decodeUint bits; st_ret (VUint i)
  | TBool => do b <- decodeBool; st_ret (VBool b)
  | TBig => do i <- decodeBigInt; st_ret (VBig i)
  | TBigPtr => do i <- decodeBigInt; st_ret (VBigPtr (Some i))
  | TString => do b <- decodeByteSlice; st_ret (VString b)
  | TBytes => do b <- decodeByteSlice; st_ret (VBytes b)
  | TByteArray n => do b <- decodeByteArray n; st_ret (VByteArray b)
  | TSlice tail t =>
      do l <- (if tail then decodeSliceElems fuel (makeDecoder fuel t) else decodeListSlice fuel (makeDecoder fuel t));
      st_ret (VSlice l)
  | TArray n t => do l <- decodeListArray n (makeDecoder fuel t); st_ret (VArray l)
  | TStruct ts => do l <- decodeStruct (map (makeDecoder fuel) ts); st_ret (VStruct l)
  | TPtr nilOK t =>
      if nilOK then do o <- decodeOptionalPtr (makeDecoder fuel t); st_ret (VPtr o)
      else do v <- makeDecoder fuel t; st_ret (VPtr (Some v))
  | TIface => decodeInterface fuel
  | TTyped InterfaceConstructorMap =>
      do _ <- wrapped stream_List;
      do typeKind <- catchEOL "too few elements" (decodeUint 16);
      match InterfaceConstructorMap typeKind with
      | None => st_err (DecodeError "interface constructor cannot find")
      | Some t =>
          do v <- catchEOL "too few elements" (makeDecoder fuel t);
          do _ <- wrapped ListEnd;
          st_ret (VTyped (Some (typeKind, TPtr false t, VPtr (Some v))))
      end
  end.

(** [DecodeBytes] with the fuel of its loops. *)
Definition DecodeBytes_fuel (fuel : nat) (t : gtype) (b : list Z) : res dec_error gval :=
  let (r, s) := makeDecoder fuel t (NewStream b (Z.of_nat (length b))) in
  let* v := r in
  if (0 <? length (input s))%nat then Err MoreThanOneValue else Ok v.

(** Every round of a loop reads a byte ([decoder_total]). *)
Definition DecodeBytes (t : gtype) (b : list Z) : res dec_error gval :=
  DecodeBytes_fuel (S (length b)) t b.
