(* ===== verification/RlpEncoding.v ===== *)
(** * What the RLP encoder writes

    A typed value stands for a sequence of items: strings, lists and bytes taken
    as they are.  The encoder, its three ways of delivering the bytes included,
    writes the recursive encoding of those items. *)

From S2P Require Import Rlp RlpStream RlpCodec Prelude.

(** ** Typed values *)

Section All.
Context (P : gtype -> gval -> Prop).

Fixpoint all_elems (t : gtype) (l : list gval) : Prop :=
  match l with
  | [] => True
  | v :: l => P t v /\ all_elems t l
  end.

Fixpoint all_fields (ts : list gtype) (l : list gval) {struct l} : Prop :=
  match l, ts with
  | [], [] => True
  | v :: l, t :: ts => P t v /\ all_fields ts l
  | _, _ => False
  end.
End All.

Definition bytes (b : list Z) : Prop := Forall is_u8 b.

(** The values a variable of the type can have. *)
Fixpoint typed (t : gtype) (v : gval) {struct v} : Prop :=
  match t, v with
  | TRaw, VRaw b => bytes b
  | TUint bits, VUint i => 0 <= i < 2 ^ bits /\ 0 <= bits <= 64
  | TBool, VBool _ => True
  | TBig, VBig _ => True
  | TBigPtr, VBigPtr _ => True
  | TString, VString b => bytes b
  | TBytes, VBytes b => bytes b
  | TByteArray n, VByteArray b => bytes b /\ length b = n
  | TSlice _ t, VSlice l => all_elems typed t l
  | TArray n t, VArray l => all_elems typed t l /\ length l = n
  | TStruct ts, VStruct l => all_fields typed ts l
  | TPtr _ t, VPtr o => match o with Some v => typed t v | None => True end
  | TIface, VIface o => match o with Some (t, v) => typed t v | None => True end
  | TTyped _, VTyped o => match o with Some (k, t, v) => is_u16 k /\ typed t v | None => True end
  | _, _ => False
  end.

(** ** Items *)

Definition uint_item (i : Z) : item := Str (if i =? 0 then [] else putint i).

Definition big_items (i : Z) : res enc_error (list item) :=
  if i <? 0 then Err NegativeBigInt else Ok [Str (bigBytes i)].

(** An empty list, as one byte. *)
Definition empty_list_byte : item := Raw [0xC0].

Fixpoint nil_items (t : gtype) : res enc_error (list item) :=
  match t with
  | TStruct _ | TArray _ _ | TBig | TSlice _ _ => Ok [Lst []]
  | TRaw => Ok [Raw []]
  | TIface => Ok [empty_list_byte]
  | TPtr _ t => nil_items t
  | TTyped _ => Panic
  | _ => Ok [Str []]
  end.

Section ItemLoops.
Context (items : gtype -> gval -> res enc_error (list item)).

Fixpoint elem_items (t : gtype) (l : list gval) : res enc_error (list item) :=
  match l with
  | [] => Ok []
  | v :: l => let* a := items t v in let* b := elem_items t l in Ok (a ++ b)
  end.

Fixpoint field_items (ts : list gtype) (l : list gval) {struct l} : res enc_error (list item) :=
  match l, ts with
  | [], [] => Ok []
  | v :: l, t :: ts => let* a := items t v in let* b := field_items ts l in Ok (a ++ b)
  | _, _ => Panic
  end.
End ItemLoops.

Fixpoint items (t : gtype) (v : gval) {struct v} : res enc_error (list item) :=
  match t, v with
  | TRaw, VRaw b => Ok [Raw b]
  | TUint _, VUint i => Ok [uint_item i]
  | TBool, VBool b => Ok [Str (if b then [1] else [])]
  | TBig, VBig i => big_items i
  | TBigPtr, VBigPtr o => match o with Some i => big_items i | None => Ok [Str []] end
  | TString, VString b | TBytes, VBytes b | TByteArray _, VByteArray b => Ok [Str b]
  | TSlice tail t, VSlice l => let* l := elem_items items t l in Ok (if tail then l else [Lst l])
  | TArray _ t, VArray l => let* l := elem_items items t l in Ok [Lst l]
  | TStruct ts, VStruct l => let* l := field_items items ts l in Ok [Lst l]
  | TPtr _ t, VPtr o => match o with Some v => items t v | None => nil_items t end
  | TIface, VIface o => match o with Some (t, v) => items t v | None => Ok [empty_list_byte] end
  | TTyped _, VTyped o =>
      match o with
      | Some (k, t, v) => let* l := items t v in Ok [Lst (uint_item k :: l)]
      | None => Panic
      end
  | _, _ => Panic
  end.

(** The bytes of a value. *)
Definition encoding (t : gtype) (v : gval) : res enc_error (list Z) :=
  let* l := items t v in Ok (concat (map enc l)).

(** ** The writers *)

Lemma gval_ind' (P : gval -> Prop) :
  (forall b, P (VRaw b)) -> (forall i, P (VUint i)) -> (forall b, P (VBool b)) -> (forall i, P (VBig i)) ->
  (forall o, P (VBigPtr o)) -> (forall b, P (VString b)) -> (forall b, P (VBytes b)) ->
  (forall b, P (VByteArray b)) -> (forall l, Forall P l -> P (VSlice l)) ->
  (forall l, Forall P l -> P (VArray l)) -> (forall l, Forall P l -> P (VStruct l)) ->
  P (VPtr None) -> (forall v, P v -> P (VPtr (Some v))) ->
  P (VIface None) -> (forall t v, P v -> P (VIface (Some (t, v)))) ->
  P (VTyped None) -> (forall k t v, P v -> P (VTyped (Some (k, t, v)))) ->
  forall v, P v.
Proof.
  intros Hraw Huint Hbool Hbig Hbp Hs Hby Hba Hsl Har Hst Hp0 Hp Hi0 Hi Ht0 Ht. fix IH 1.
  assert (forall l, Forall P l) as IHl by (induction l; constructor; auto).
  intros [b|i|b|i|o|b|b|b|l|l|l|[v|]|[[t v]|]|[[[k t] v]|]];
    [apply Hraw|apply Huint|apply Hbool|apply Hbig|apply Hbp|apply Hs|apply Hby|apply Hba
    |apply Hsl, IHl|apply Har, IHl|apply Hst, IHl|apply Hp, IH|exact Hp0|apply Hi, IH|exact Hi0|apply Ht, IH|exact Ht0].
Qed.

Definition builds (w : encbuf) (l : list item) : encbuf := foldl (fun w it => build it w) w l.

Lemma builds_app w l k : builds w (l ++ k) = builds (builds w l) k.
Proof. apply foldl_app. Qed.

Lemma build_Lst w l :
  (let (w', lh) := buf_list w in listEnd (builds w' l) lh) = builds w [Lst l].
Proof. reflexivity. Qed.

Lemma build_Str w b : build (Str b) w = buf_append w (str_enc b).
Proof. apply encodeString_append. Qed.

(** [EncodeUint] is the encoding of the number as a string. *)
Lemma EncodeUint_enc i : is_u64 i -> EncodeUint i = enc (uint_item i).
Proof.
  intros Hi. unfold EncodeUint, uint_item. pose proof (putint_length i Hi) as Hl.
  cbn [enc]. bcase; [done|]. unfold is_u64 in Hi. bcase.
  - replace (putint i) with [u8 i] by (unfold putint; rewrite (proj2 (Z.ltb_lt i (2 ^ 8))) by lia; done).
    rewrite u8_small by (unfold is_u8; lia). by rewrite str_enc_byte.
  - rewrite str_enc_long.
    + rewrite puthead_short by lia. by rewrite u8_small by (unfold is_u8; lia).
    + intros x E. assert (i = x) as <-; [|lia]. change (is_u64 i) in Hi.
      rewrite <- (be_value_putint i) by done. rewrite E. cbn. by rewrite Z.lor_0_l.
Qed.

Lemma writeUint_build i w : is_u64 i -> writeUint i w = builds w [uint_item i].
Proof.
  intros Hi. unfold builds. cbn [foldl]. unfold uint_item at 1. rewrite build_Str.
  change (str_enc _) with (enc (uint_item i)). rewrite <- EncodeUint_enc by done.
  unfold writeUint, EncodeUint. by repeat case_match.
Qed.

Lemma build_empty w : builds w [Str []] = buf_append w [0x80].
Proof. unfold builds. cbn [foldl]. by rewrite build_Str. Qed.

Lemma writeBigInt_build i w : writeBigInt i w = res_map (builds w) (big_items i).
Proof.
  unfold writeBigInt, big_items. destruct (i <? 0); [done|]. destruct (Z.eqb_spec i 0) as [->|]; [|done].
  unfold res_map. cbn [res_bind bigBytes Z.leb Z.compare]. by rewrite build_empty.
Qed.

Lemma writeNil_build t w : writeNil t w = res_map (builds w) (nil_items t).
Proof.
  induction t; cbn [writeNil nil_items]; unfold res_map in *; cbn [res_bind]; rewrite ?build_empty; auto.
  all: by rewrite <- build_empty.
Qed.

Lemma typed_uint bits i : 0 <= i < 2 ^ bits /\ 0 <= bits <= 64 -> is_u64 i.
Proof. intros [H Hb]. pose proof (Z.pow_le_mono_r 2 bits 64). unfold is_u64. lia. Qed.

Lemma writeElems_build t l w :
  Forall (fun v => forall t w, typed t v -> write t v w = res_map (builds w) (items t v)) l ->
  all_elems typed t l ->
  writeElems write t l w = res_map (builds w) (elem_items items t l).
Proof.
  intros H. revert w. induction H as [|v l Hv _ IH]; intros w Ht; [done|]. destruct Ht as [H1 H2].
  cbn [writeElems elem_items]. rewrite Hv by done. destruct (items t v) as [a| |]; cbn; [|done..].
  rewrite IH by done. destruct (elem_items items t l); cbn; [by rewrite builds_app|done..].
Qed.

Lemma writeFields_build ts l w :
  Forall (fun v => forall t w, typed t v -> write t v w = res_map (builds w) (items t v)) l ->
  all_fields typed ts l ->
  writeFields write ts l w = res_map (builds w) (field_items items ts l).
Proof.
  intros H. revert ts w. induction H as [|v l Hv _ IH]; intros [|t ts] w Ht; try done. destruct Ht as [H1 H2].
  cbn [writeFields field_items]. rewrite Hv by done. destruct (items t v) as [a| |]; cbn; [|done..].
  rewrite IH by done. destruct (field_items items ts l); cbn; [by rewrite builds_app|done..].
Qed.

(** Writing a value makes the calls its items take. *)
Lemma write_items t v w : typed t v -> write t v w = res_map (builds w) (items t v).
Proof.
  revert t w. induction v as [b|i|b|i|o|b|b|b|l IH|l IH|l IH| |v IH| |t' v IH| |k t' v IH] using gval_ind';
    intros t w Ht; destruct t; try done; cbn [write items]; cbn [typed] in Ht.
  - cbn [res_map res_bind]. by rewrite writeUint_build by by eapply typed_uint.
  - destruct b; [done|]. unfold res_map. cbn [res_bind]. by rewrite build_empty.
  - apply writeBigInt_build.
  - destruct o; [apply writeBigInt_build|]. unfold res_map. cbn [res_bind]. by rewrite build_empty.
  - destruct tail; rewrite ?(writeElems_build _ _ _ IH Ht); [by destruct (elem_items items t l)|].
    unfold buf_list. rewrite (writeElems_build _ _ _ IH Ht). by destruct (elem_items items t l).
  - destruct Ht as [Ht _]. unfold buf_list. rewrite (writeElems_build _ _ _ IH Ht). by destruct (elem_items items t l).
  - unfold buf_list. rewrite (writeFields_build _ _ _ IH Ht). by destruct (field_items items fields l).
  - apply writeNil_build.
  - by apply IH.
  - by apply IH.
  - destruct Ht as [Hk Ht]. unfold writeTypeInterface, buf_list.
    rewrite writeUint_build by (unfold is_u16, is_u64 in *; lia). rewrite IH by done. by destruct (items t' v).
Qed.

Lemma builds_plus w l : fits (concat (map enc l)) -> builds w l = plus_items w l.
Proof.
  revert w. induction l as [|it l IH]; intros w Hf; [by rewrite plus_items_nil|].
  cbn [map concat] in Hf. apply fits_app in Hf as [H1 H2]. unfold builds in *. cbn [foldl].
  rewrite build_spec, IH by done. apply (plus_items_app w [it] l).
Qed.

(** The buffer a value leaves, when it can be encoded. *)
Lemma write_empty t v l :
  typed t v -> items t v = Ok l -> fits (concat (map enc l)) ->
  write t v (mkBuf [] [] 0) = Ok (plus_items (mkBuf [] [] 0) l).
Proof. intros Ht E Hf. rewrite write_items, E by done. unfold res_map. cbn [res_bind]. by rewrite builds_plus. Qed.

Lemma EncodeToBytes_ok t v b :
  typed t v -> encoding t v = Ok b -> fits b -> EncodeToBytes t v = Ok b.
Proof.
  intros Ht (l & E & Eb)%res_bind_Ok Hf. injection Eb as <-. unfold EncodeToBytes.
  rewrite (write_empty t v l) by done. cbn [res_bind]. by rewrite toBytes_items.
Qed.

Lemma heads_le off it : Forall (fun h => (Z.to_nat (offset h) <= off + length (flat it))%nat) (heads off it).
Proof.
  revert off. induction it as [b|b|l IH] using item_ind'; intros off; [constructor..|].
  rewrite heads_Lst. constructor; [cbn; lia|]. cbn [flat]. revert off.
  induction IH as [|it l H _ IHl]; intros off; cbn [headsL map concat]; [constructor|].
  rewrite length_app. apply Forall_app. split; (eapply Forall_impl; [first [apply H|apply IHl]|]); cbn; lia.
Qed.

Lemma reader_ok_items l : reader_ok (mkReader (Some (plus_items (mkBuf [] [] 0) l)) 0 0 []).
Proof.
  pose proof (heads_le 0 (Lst l)) as H. rewrite heads_Lst in H. apply Forall_cons in H as [_ H]. exact H.
Qed.

(** A reader is read to the end by calls of [Read] with buffers of the given
    sizes; the last one may be larger than what is left. *)
Fixpoint read_all (r : encReader) (sizes : list nat) : option (list Z) :=
  match sizes with
  | [] => Some []
  | k :: sizes => '(out, eof, r) ← Read r k;
                  if (eof : bool) then Some out else (out ++.) <$> read_all r sizes
  end.

Lemma read_all_spec r sizes :
  reader_ok r -> read_all r sizes = Some (take (sum_list sizes) (pending r)).
Proof.
  revert r. induction sizes as [|k sizes IH]; intros r Hok; [done|]. cbn [read_all].
  destruct (reader_read_spec (reader_fuel r) r k Hok (reader_rounds_le r)) as (r' & E & Hp & Hok').
  unfold Read. rewrite E. cbn [mbind option_bind]. case_bool_decide.
  - rewrite !take_ge by (cbn; lia). done.
  - rewrite IH, Hp by done. cbn [fmap option_fmap option_map sum_list]. by rewrite take_take_drop.
Qed.

(** A value is refused exactly when it holds a negative number, and panics
    exactly when it holds a nil interface that has to name its constructor. *)
Lemma EncodeToBytes_fails t v :
  typed t v -> (forall e, encoding t v = Err e -> EncodeToBytes t v = Err e) /\
               (encoding t v = Panic -> EncodeToBytes t v = Panic).
Proof.
  intros Ht. unfold encoding, EncodeToBytes. rewrite write_items by done.
  destruct (items t v); split; cbn; congruence.
Qed.

(** C11: The three encoders of a typed value agree with its recursive encoding:
    [EncodeToBytes] returns it, the pieces [Encode] writes make it up, and the
    reader of [EncodeToReader] announces its size and delivers it for any
    sequence of buffer sizes, the buffers in order and the end in time. *)
Theorem encoders_agree t v b :
  typed t v -> encoding t v = Ok b -> fits b ->
  EncodeToBytes t v = Ok b /\
  (exists pieces, Encode t v = Ok pieces /\ concat pieces = b) /\
  (exists r, EncodeToReader t v = Ok (Z.of_nat (length b), r) /\
             forall sizes, read_all r sizes = Some (take (sum_list sizes) b)).
Proof.
  intros Ht E Hf. split; [by apply EncodeToBytes_ok|].
  apply res_bind_Ok in E as (l & E & Eb). injection Eb as <-. unfold Encode, EncodeToReader.
  rewrite (write_empty t v l) by done. cbn [res_bind]. rewrite buf_size_items by done.
  split; eexists; (split; [reflexivity|]).
  - unfold toWriter. rewrite concat_writerPieces. apply emit_items.
  - intros sizes. rewrite read_all_spec by apply reader_ok_items.
    unfold pending, plus_items. cbn [rbuf piece strpos lhpos str lheads app length]. by rewrite drop_0, emit_items.
Qed.

Lemma encoders_agree_witness :
  let v := VStruct [VUint 1024; VSlice [VBytes [0x61]; VBytes []]] in
  let t := TStruct [TUint 16; TSlice false TBytes] in
  let b := [0xC6; 0x82; 0x04; 0x00; 0xC2; 0x61; 0x80] in
  EncodeToBytes t v = Ok b /\
  (exists pieces, Encode t v = Ok pieces /\ concat pieces = b) /\
  (exists r, EncodeToReader t v = Ok (Z.of_nat (length b), r) /\
             forall sizes, read_all r sizes = Some (take (sum_list sizes) b)).
Proof.
  intros v t b. apply (encoders_agree t v b); [|reflexivity|reflexivity].
  cbn. unfold bytes. split_and!; try done; try lia; repeat constructor; unfold is_u8; lia.
Defined.
