(* ===== verification/RlpDecoding.v ===== *)
(** * What the RLP decoder reads

    The stream is followed through the input of [DecodeBytes]: its limit is what
    is left of the input, and every list it is in lies within the input.  A call
    that succeeds has read bytes off the front; the theorems say which. *)

From stdpp Require Import strings.
From S2P Require Import Rlp RlpStream RlpCodec RlpEncoding Prelude.

(** ** Positions of the stream *)

(** The stream has the input and the stack; a header may be cached. *)
Definition at_ (s : Stream) (inp : list Z) (stk : list listpos) : Prop :=
  input s = inp /\ remaining s = Z.of_nat (length inp) /\ limited s = true /\ stack s = stk.

(** The stream is in front of a value. *)
Definition ready (s : Stream) (inp : list Z) (stk : list listpos) : Prop := at_ s inp stk /\ kind s = None.

(** The stream has read the header of a value. *)
Definition held (s : Stream) (inp : list Z) (stk : list listpos) (k : Kind) (size : Z) : Prop :=
  at_ s inp stk /\ kind s = Some k /\ ssize s = size /\ kinderr s = None.

(** The list the stream is in has [n] bytes left. *)
Definition room (stk : list listpos) (n : Z) : Prop :=
  match stk with
  | [] => True
  | p :: _ => 0 <= lp_pos p /\ lp_pos p + n <= lp_size p < 2 ^ 64
  end.

Definition adv (stk : list listpos) (n : Z) : list listpos :=
  match stk with
  | [] => []
  | p :: stk => mkPos (lp_pos p + n) (lp_size p) :: stk
  end.

(** The list lies within the input. *)
Definition bounded (stk : list listpos) (inp : list Z) : Prop :=
  match stk with
  | [] => True
  | p :: _ => 0 <= lp_pos p <= lp_size p /\ lp_size p < 2 ^ 64 /\
              lp_size p - lp_pos p <= Z.of_nat (length inp)
  end.

Definition at_end (stk : list listpos) : Prop :=
  match stk with
  | [] => False
  | p :: _ => lp_pos p = lp_size p
  end.

Definition len (b : list Z) : Z := Z.of_nat (length b).

Lemma len_app b c : len (b ++ c) = len b + len c.
Proof. unfold len. rewrite length_app. lia. Qed.

Lemma len_nonneg b : 0 <= len b.
Proof. unfold len. lia. Qed.

Lemma adv_adv stk n m : adv (adv stk n) m = adv stk (n + m).
Proof. destruct stk; cbn; [done|]. by rewrite Z.add_assoc. Qed.

Lemma adv_0 stk : adv stk 0 = stk.
Proof. destruct stk as [|[p q] stk]; cbn; [done|]. by rewrite Z.add_0_r. Qed.

Lemma room_adv stk n m : 0 <= n -> room (adv stk n) m -> 0 <= m -> room stk 0 -> room stk (n + m).
Proof. destruct stk as [|p stk]; cbn; [done|]. lia. Qed.

Lemma room_split stk n m : 0 <= n -> 0 <= m -> room stk (n + m) -> room stk n /\ room (adv stk n) m.
Proof. destruct stk as [|p stk]; cbn; [done|]. lia. Qed.

Lemma bounded_adv stk b r : bounded stk (b ++ r) -> room stk (len b) -> bounded (adv stk (len b)) r.
Proof. destruct stk as [|p stk]; cbn; [done|]. unfold len. rewrite length_app. lia. Qed.

Lemma bounded_room stk inp : bounded stk inp -> room stk 0.
Proof. destruct stk as [|p stk]; cbn; [done|]. lia. Qed.

(** ** Reading bytes *)

(** A read either gives the next bytes or fails. *)
Definition outcome {A} (x : res dec_error A * Stream) (inp : list Z) (stk : list listpos)
    (Q : A -> list Z -> Prop) : Prop :=
  match x with
  | (Ok a, s') => exists b r, inp = b ++ r /\ room stk (len b) /\ ready s' r (adv stk (len b)) /\ Q a b
  | (Err e, _) => e <> NoFuel /\ e <> EOL
  | (Panic, _) => False
  end.

Lemma willRead_at s inp stk n :
  at_ s inp stk -> bounded stk inp -> fits inp -> 0 <= n ->
  match willRead n s with
  | (Ok _, s') => room stk n /\ n <= len inp /\ input s' = inp /\ remaining s' = len inp - n /\
                  limited s' = true /\ kind s' = None /\ stack s' = adv stk n /\ byteval s' = byteval s
  | (Err e, _) => e = ElemTooLarge \/ e = ValueTooLarge
  | (Panic, _) => False
  end.
Proof.
  intros (Hi & Hr & Hl & Hs) Hb Hf Hn. unfold fits in Hf. unfold willRead, set_kind. cbn [stack limited].
  rewrite Hs. destruct stk as [|p stk]; cbn [room adv].
  - rewrite Hl. cbn [limited remaining]. rewrite Hr. rewrite Z.gtb_ltb.
    destruct (Z.ltb_spec (Z.of_nat (length inp)) n); [by right|]. cbn. rewrite ?Hi, ?Hs, ?Hl.
    rewrite u64_small by (unfold is_u64; lia). by split_and!.
  - cbn in Hb. rewrite u64_small by (unfold is_u64; lia). rewrite Z.gtb_ltb.
    destruct (Z.ltb_spec (lp_size p - lp_pos p) n); [by left|].
    unfold set_stack. cbn [limited remaining]. rewrite Hl, Hr, Z.gtb_ltb.
    destruct (Z.ltb_spec (Z.of_nat (length inp)) n); [by right|]. cbn. rewrite ?Hi, ?Hl.
    rewrite !u64_small by (unfold is_u64; lia). split_and!; (done || lia).
Qed.

Lemma readFull_at s inp stk n :
  at_ s inp stk -> bounded stk inp -> fits inp -> 0 <= n ->
  outcome (readFull n s) inp stk (fun a b => a = b /\ len b = n).
Proof.
  intros Hat Hb Hf Hn. unfold readFull, st_bind. pose proof (willRead_at s inp stk n Hat Hb Hf Hn) as Hw.
  destruct (willRead n s) as [[u|e|] s1]; [|destruct Hw as [->| ->]; by cbn|done].
  destruct Hw as (Hroom & Hlen & Hi & Hr & Hl & Hk & Hs & _). rewrite Hi.
  rewrite (proj2 (Z.ltb_ge _ _)) by done.
  destruct (take_drop_le inp n (conj Hn Hlen)) as (b & r & E & E2 & -> & ->).
  subst n. change (Z.of_nat (length b)) with (len b) in *. unfold outcome, set_input. exists b, r.
  split_and!; [done..| |done|done]. repeat split; cbn; try done. rewrite Hr. rewrite E, len_app. unfold len. lia.
Qed.

Lemma readByte_at s inp stk :
  at_ s inp stk -> bounded stk inp -> fits inp ->
  outcome (readByte s) inp stk (fun a b => b = [a]).
Proof.
  intros Hat Hb Hf. unfold readByte, st_bind. pose proof (willRead_at s inp stk 1 Hat Hb Hf ltac:(lia)) as Hw.
  destruct (willRead 1 s) as [[u|e|] s1]; [|destruct Hw as [->| ->]; by cbn|done].
  destruct Hw as (Hroom & Hlen & Hi & Hr & Hl & Hk & Hs & _). rewrite Hi.
  destruct inp as [|x r]; [by cbn|]. unfold outcome, set_input. exists [x], r.
  split_and!; [done..| |done]. repeat split; cbn; try done. rewrite Hr. unfold len. cbn. lia.
Qed.

(** The reads succeed where there is room. *)
Lemma willRead_ok s inp stk n :
  at_ s inp stk -> room stk n -> fits inp -> 0 <= n <= len inp ->
  exists s', willRead n s = (Ok (), s') /\ input s' = inp /\ remaining s' = len inp - n /\
             limited s' = true /\ kind s' = None /\ stack s' = adv stk n /\ byteval s' = byteval s.
Proof.
  intros (Hi & Hr & Hl & Hs) Hro Hf Hn. unfold fits, len in *. unfold willRead, set_kind. cbn [stack limited].
  rewrite Hs. destruct stk as [|p stk]; cbn in Hro.
  - rewrite Hl. cbn [limited remaining]. rewrite Hr, Z.gtb_ltb, (proj2 (Z.ltb_ge _ _)) by lia.
    eexists. split; [done|]. cbn. rewrite u64_small by (unfold is_u64; lia). by rewrite ?Hi, ?Hl.
  - rewrite u64_small, Z.gtb_ltb, (proj2 (Z.ltb_ge _ _)) by (unfold is_u64; lia).
    unfold set_stack. cbn [limited remaining]. rewrite Hl, Hr, Z.gtb_ltb, (proj2 (Z.ltb_ge _ _)) by lia.
    eexists. split; [done|]. cbn. rewrite !u64_small by (unfold is_u64; lia). by rewrite ?Hi, ?Hl.
Qed.

Lemma readFull_ok s b r stk :
  at_ s (b ++ r) stk -> room stk (len b) -> fits (b ++ r) ->
  exists s', readFull (len b) s = (Ok b, s') /\ ready s' r (adv stk (len b)) /\ byteval s' = byteval s.
Proof.
  intros Hat Hro Hf. unfold readFull, st_bind. pose proof (len_nonneg b). pose proof (len_nonneg r).
  destruct (willRead_ok s _ stk (len b) Hat Hro Hf) as (s1 & -> & Hi & Hr & Hl & Hk & Hs & Hv);
    [rewrite len_app; lia|].
  rewrite Hi, (proj2 (Z.ltb_ge _ _)) by (change (Z.of_nat (length (b ++ r))) with (len (b ++ r)); rewrite len_app; lia).
  unfold len at 1 2. rewrite Nat2Z.id, take_app_length, drop_app_length.
  eexists. split; [done|]. split; [|done]. repeat split; cbn; try done. rewrite Hr, len_app. unfold len. lia.
Qed.

Lemma readByte_ok s x r stk :
  at_ s (x :: r) stk -> room stk 1 -> fits (x :: r) ->
  exists s', readByte s = (Ok x, s') /\ ready s' r (adv stk 1) /\ byteval s' = byteval s.
Proof.
  intros Hat Hro Hf. unfold readByte, st_bind.
  destruct (willRead_ok s _ stk 1 Hat Hro Hf) as (s1 & -> & Hi & Hr & Hl & Hk & Hs & Hv); [unfold len; cbn; lia|].
  rewrite Hi. eexists. split; [done|]. split; [|done]. repeat split; cbn; try done. rewrite Hr. unfold len. cbn. lia.
Qed.

Lemma outcome_app {A} (x : res dec_error A * Stream) c inp stk Q :
  room stk (len c) -> room stk 0 ->
  outcome x inp (adv stk (len c)) Q -> outcome x (c ++ inp) stk (fun a b => exists b', b = c ++ b' /\ Q a b').
Proof.
  intros Hc H0. destruct x as [[a|e|] s']; [|done..]. intros (b & r & -> & Hroom & Hrdy & HQ).
  exists (c ++ b), r. rewrite <- app_assoc, len_app. pose proof (len_nonneg b). pose proof (len_nonneg c).
  split_and!; [done|by apply room_adv|by rewrite <- adv_adv|eauto].
Qed.

Lemma readUint_at s inp stk n :
  at_ s inp stk -> bounded stk inp -> fits inp -> 0 <= n <= 8 ->
  outcome (readUint n s) inp stk
    (fun v b => len b = n /\ v = be_value b /\ (2 <= n -> exists x t, b = x :: t /\ x <> 0)).
Proof.
  intros Hat Hb Hf Hn. unfold readUint. destruct (Z.eqb_spec n 0) as [->|H0].
  { cbn. exists [], inp. split_and!; [done|by eapply bounded_room| |done|done|lia].
    rewrite adv_0. destruct Hat as (? & ? & ? & ?). by repeat split. }
  destruct (Z.eqb_spec n 1) as [->|H1].
  { pose proof (readByte_at s inp stk Hat Hb Hf) as H. destruct (readByte s) as [[v|e|] s']; [|done..].
    destruct H as (b & r & ? & ? & ? & ->). exists [v], r. by split_and!. }
  rewrite Z.gtb_ltb, (proj2 (Z.ltb_ge 8 n)) by lia. unfold st_bind.
  pose proof (readFull_at s inp stk n Hat Hb Hf ltac:(lia)) as H. destruct (readFull n s) as [[b|e|] s']; [|done..].
  destruct H as (b' & r & -> & ? & ? & <- & Hl). destruct b as [|b0 b]; [unfold len in Hl; cbn in Hl; lia|].
  destruct (Z.eqb_spec b0 0); [by cbn|]. exists (b0 :: b), r. split_and!; eauto.
Qed.

(** What a header of a kind and size looks like; a single byte is its own. *)
Definition head_of (k : Kind) (size : Z) (h : list Z) (x : Z) : Prop :=
  match k with
  | Byte => size = 0 /\ h = [x] /\ 0 <= x < 0x80
  | _ => h = header k size /\ is_u64 size
  end.

Lemma readLong_at s inp stk b tag large k :
  at_ s inp stk -> bounded stk inp -> fits inp -> bytes inp ->
  large < b <= large + 8 -> 0 <= large -> large + 8 < 2 ^ 8 ->
  (forall size, header k size = puthead tag large size) -> k <> Byte ->
  match readLong k (b - large) s with
  | (Ok (k', size, None), s') => k' = k /\ exists c r, inp = c ++ r /\ room stk (len c) /\
      ready s' r (adv stk (len c)) /\ head_of k size (b :: c) (byteval s')
  | (Ok (_, _, Some e), _) => e <> NoFuel /\ e <> EOL
  | _ => False
  end.
Proof.
  intros Hat Hb Hf H8 Hr Hl Hl8 Hh Hk. unfold readLong, st_catch.
  pose proof (readUint_at s inp stk (b - large) Hat Hb Hf ltac:(lia)) as H.
  destruct (readUint (b - large) s) as [[v|e|] s']; [|done..].
  destruct H as (c & r & -> & Hroom & Hrdy & Hlen & -> & Hlead). cbn.
  destruct (Z.ltb_spec (be_value c) 56) as [|H56]; [done|]. split; [done|]. exists c, r. split_and!; [done..|].
  apply Forall_app in H8 as [Hc _].
  assert (exists x t, c = x :: t /\ x <> 0) as (x & t & -> & Hx).
  { destruct (Z.le_gt_cases 2 (b - large)) as [H2|H2]; [by apply Hlead|]. unfold len in Hlen.
    destruct c as [|x [|y c]]; cbn in Hlen; try lia. exists x, []. split; [done|]. intros ->. by apply H56. }
  assert (length t <= 7)%nat by (unfold len in Hlen; cbn in Hlen; lia).
  assert (is_u64 (be_value (x :: t))) as Hu.
  { apply (pow256_u64 (length (x :: t))); [cbn; lia|by apply be_value_bound]. }
  unfold head_of. enough (b :: x :: t = header k (be_value (x :: t))) by by destruct k.
  rewrite Hh, puthead_long by (done || lia). rewrite putint_be_value by done. f_equal. unfold len in Hlen. lia.
Qed.

Lemma at_byteval s inp stk x : at_ (set_byteval x s) inp stk <-> at_ s inp stk.
Proof. done. Qed.

Lemma readKind_at s inp stk :
  at_ s inp stk -> bounded stk inp -> fits inp -> bytes inp ->
  match stream_readKind s with
  | (Ok (k, size, None), s') => exists h r, inp = h ++ r /\ room stk (len h) /\
      ready s' r (adv stk (len h)) /\ head_of k size h (byteval s')
  | (Ok (_, _, Some e), _) => e <> NoFuel /\ e <> EOL
  | _ => False
  end.
Proof.
  intros Hat Hb Hf H8. unfold stream_readKind, st_catch.
  pose proof (readByte_at s inp stk Hat Hb Hf) as H. destruct (readByte s) as [[b|e|] s1]; [| |done].
  2: { destruct H as [H1 H2]. by destruct (stack s1), e. }
  destruct H as (? & r & E & Hroom & Hrdy & ->). subst inp.
  pose proof (bounded_adv _ _ _ Hb Hroom) as Hb'. apply fits_app in Hf as [_ Hf].
  apply Forall_app in H8 as [[Hb8 _]%Forall_cons H8]. unfold is_u8 in Hb8.
  unfold st_bind at 1. set (s2 := set_byteval 0 s1). destruct Hrdy as [Hat1 Hk1].
  assert (forall k size, head_of k size [b] (byteval s2) ->
    exists h r0, [b] ++ r = h ++ r0 /\ room stk (len h) /\ ready s2 r0 (adv stk (len h)) /\
      head_of k size h (byteval s2)) as Hshort by (intros k size Hh; exists [b], r; by split_and!).
  assert (forall k tag large, large < b <= large + 8 -> 0 <= large -> large + 8 < 2 ^ 8 ->
    (forall size, header k size = puthead tag large size) -> k <> Byte ->
    match readLong k (b - large) s2 with
    | (Ok (k, size, None), s') => exists h r0, [b] ++ r = h ++ r0 /\ room stk (len h) /\
        ready s' r0 (adv stk (len h)) /\ head_of k size h (byteval s')
    | (Ok (_, _, Some e), _) => e <> NoFuel /\ e <> EOL
    | _ => False
    end) as Hlong.
  { intros k tag large H1 H2 H3 Hh Hk. pose proof (readLong_at s2 r _ b tag large k Hat1 Hb' Hf H8 H1 H2 H3 Hh Hk) as H.
    destruct (readLong k (b - large) s2) as [[[[k' size] [e|]]|e|] s']; [done| |done..].
    destruct H as (-> & c & r' & -> & Hrc & Hrdy & Hh'). exists ([b] ++ c), r'. rewrite len_app.
    split_and!; [done|apply room_adv; auto using len_nonneg; by eapply bounded_room|by rewrite <- adv_adv|done]. }
  destruct (Z.ltb_spec b 0x80).
  { cbn. exists [b], r. split_and!; try done; lia. }
  destruct (Z.ltb_spec b 0xB8).
  { apply (Hshort String_). cbn [head_of header]. rewrite u8_small, puthead_short by (unfold is_u8; lia). split; [f_equal; lia|unfold is_u64; lia]. }
  destruct (Z.ltb_spec b 0xC0).
  { rewrite u8_small by (unfold is_u8; lia). apply (Hlong _ 0x80); [lia..|done|done]. }
  destruct (Z.ltb_spec b 0xF8).
  { apply (Hshort List_). cbn [head_of header]. rewrite u8_small, puthead_short by (unfold is_u8; lia). split; [f_equal; lia|unfold is_u64; lia]. }
  rewrite u8_small by (unfold is_u8; lia). apply (Hlong _ 0xC0); [lia..|done|done].
Qed.

(** [Kind] in front of a value: the header and that what it announces is
    there, the end of the list, or another error. *)
Lemma Kind_at s inp stk :
  ready s inp stk -> bounded stk inp -> fits inp -> bytes inp ->
  match stream_Kind s with
  | (Ok (k, size), s') => exists h r, inp = h ++ r /\ 0 <= size <= len r /\ room stk (len h + size) /\
      held s' r (adv stk (len h)) k size /\ head_of k size h (byteval s')
  | (Err e, s') => e <> NoFuel /\ (e = EOL -> at_end stk /\ ready s' inp stk)
  | (Panic, _) => False
  end.
Proof.
  intros [Hat Hk] Hb Hf H8. unfold stream_Kind. rewrite Hk.
  set (s1 := set_ahead None (ssize s) None s). cbn zeta. pose proof Hat as (Hi & Hr & Hl & Hs).
  assert (at_ s1 inp stk) as Hat1 by done.
  destruct (match stack s1 with [] => false | tos :: _ => lp_pos tos =? lp_size tos end) eqn:Eend.
  { split; [done|]. intros _. cbn [stack s1 set_ahead] in Eend. rewrite Hs in Eend.
    destruct stk as [|p stk]; [done|]. apply Z.eqb_eq in Eend. done. }
  unfold st_bind. pose proof (readKind_at s1 inp stk Hat1 Hb Hf H8) as H.
  destruct (stream_readKind s1) as [[[[k size] [e|]]|e|] s2]; [|..|done|done].
  { cbn. destruct H as [H1 H2]. split; [done|]. by intros ->. }
  destruct H as (h & r & -> & Hroom & [(Hi2 & Hr2 & Hl2 & Hs2) Hk2] & Hh).
  assert (is_u64 size) as Hu by (destruct k; cbn in Hh; try apply Hh; destruct Hh as [-> _]; done).
  pose proof (bounded_adv _ _ _ Hb Hroom) as Hb2. unfold is_u64 in Hu.
  set (s3 := set_ahead _ _ _ s2).
  assert (overrun s2 size = None -> exists h0 r0, h ++ r = h0 ++ r0 /\ 0 <= size <= len r0 /\
    room stk (len h0 + size) /\ (at_ s3 r0 (adv stk (len h0))) /\ head_of k size h0 (byteval s2)) as Hok.
  { intros Ho. exists h, r. split; [done|]. unfold overrun in Ho. rewrite Hs2, Hl2, Hr2 in Ho.
    pose proof (len_nonneg h) as Hh0. unfold len in Hh0.
    destruct stk as [|p stk]; cbn in Ho, Hb2, Hroom; rewrite Z.gtb_ltb in Ho.
    - destruct (Z.ltb_spec (Z.of_nat (length r)) size); [done|]. unfold len. split_and!; (done || lia).
    - rewrite u64_small in Ho by (unfold is_u64, len in *; lia). cbn [room].
      destruct (Z.ltb_spec (lp_size p - (lp_pos p + len h)) size); [done|]. unfold len in *.
      split_and!; (done || lia). }
  unfold ahead. cbn [kinderr kind s3 set_ahead ssize]. destruct (overrun s2 size) as [e|] eqn:Eo.
  - unfold overrun in Eo. split; destruct (stack s2); case_match; congruence.
  - destruct (Hok eq_refl) as (h0 & r0 & E & Hsz & Hro & Hat3 & Hh3). exists h0, r0.
    split; [done|]. split; [done|]. split; [done|]. split; [|done]. split_and!; [done..|]. reflexivity.
Qed.

(** ** Sound decoders *)

Definition small (b : list Z) : Prop := len b < 2 ^ 47.

Lemma small_fits b : small b -> fits b.
Proof. unfold small, fits, len. lia. Qed.

(** The result of a decoder in front of [inp]: it has read [b] and made [a] of
    it, or it failed; the end of the list is reported only where it is. *)
Definition result {A} (x : res dec_error A * Stream) (inp : list Z) (stk : list listpos)
    (eol : bool) (Q : A -> list Z -> Prop) : Prop :=
  match x with
  | (Ok a, s') => exists b r, inp = b ++ r /\ room stk (len b) /\ ready s' r (adv stk (len b)) /\ Q a b
  | (Err e, s') => e <> NoFuel /\ (e = EOL -> eol = true /\ at_end stk /\ ready s' inp stk)
  | (Panic, _) => False
  end.

(** A decoder is sound for inputs shorter than [fuel]. *)
Definition dsound {A} (eol : bool) (fuel : nat) (m : st A) (Q : A -> list Z -> Prop) : Prop :=
  forall s inp stk, ready s inp stk -> bounded stk inp -> bytes inp -> small inp -> (length inp < fuel)%nat ->
                    result (m s) inp stk eol Q.

Lemma dsound_weaken {A} eol eol' fuel fuel' (m : st A) (Q Q' : A -> list Z -> Prop) :
  dsound eol fuel m Q -> (fuel' <= fuel)%nat -> (eol = true -> eol' = true) ->
  (forall a b, bytes b -> Q a b -> Q' a b) -> dsound eol' fuel' m Q'.
Proof.
  intros H Hf He HQ s inp stk Hr Hb H8 Hs Hl. specialize (H s inp stk Hr Hb H8 Hs ltac:(lia)).
  destruct (m s) as [[a|e|] s']; cbn in *; [| |done].
  - destruct H as (b & r & -> & ? & ? & ?). apply Forall_app in H8 as [H8 _]. eauto 10.
  - destruct H as [H1 H2]. split; [done|]. intros E. destruct (H2 E) as (? & ? & ?). auto.
Qed.

Lemma dsound_conseq {A} eol fuel (m : st A) (Q Q' : A -> list Z -> Prop) :
  dsound eol fuel m Q -> (forall a b, bytes b -> Q a b -> Q' a b) -> dsound eol fuel m Q'.
Proof. intros H HQ. by eapply dsound_weaken; [exact H|reflexivity|..]. Qed.

Lemma dsound_ret {A} eol fuel (a : A) (Q : A -> list Z -> Prop) : Q a [] -> dsound eol fuel (st_ret a) Q.
Proof.
  intros HQ s inp stk Hr Hb _ _ _. exists [], inp. change (len []) with 0. rewrite adv_0.
  split_and!; [done|by eapply bounded_room|done..].
Qed.

(** What is read after [b], with what it finds there. *)
Lemma result_app {A} (x : res dec_error A * Stream) b r stk eol (Q Q' : A -> list Z -> Prop) :
  room stk (len b) -> room stk 0 -> (forall a c, Q a c -> Q' a (b ++ c)) ->
  result x r (adv stk (len b)) false Q -> result x (b ++ r) stk eol Q'.
Proof.
  intros Hb H0 HQ. destruct x as [[a|e|] s']; cbn; [| |done].
  - intros (c & r' & -> & ? & ? & ?). exists (b ++ c), r'. rewrite len_app, <- app_assoc.
    split_and!; [done|apply room_adv; auto using len_nonneg|by rewrite <- adv_adv|auto].
  - intros [H1 H2]. split; [done|]. intros E. by destruct (H2 E).
Qed.

(** One decoder after the other. *)
Lemma dsound_bind {A B} eol fuel (m : st A) (k : A -> st B) (P : A -> list Z -> Prop) (Q : B -> list Z -> Prop) :
  dsound eol fuel m P ->
  (forall a b, bytes b -> P a b -> dsound false fuel (k a) (fun c d => Q c (b ++ d))) ->
  dsound eol fuel (st_bind m k) Q.
Proof.
  intros Hm Hk s inp stk Hr Hb H8 Hs Hl. specialize (Hm s inp stk Hr Hb H8 Hs Hl). unfold st_bind.
  destruct (m s) as [[a|e|] s']; [|done..]. destruct Hm as (b & r & -> & Hroom & Hrdy & HP).
  apply Forall_app in H8 as [Hb8 H8]. pose proof (bounded_room _ _ Hb).
  eapply result_app; [done|done| |apply (Hk a b Hb8 HP); try done]; [done|by apply bounded_adv|..].
  - unfold small in *. rewrite len_app in Hs. pose proof (len_nonneg b). lia.
  - rewrite length_app in Hl. lia.
Qed.

Lemma dsound_map {A B} eol fuel (m : st A) (f : A -> B) (P : A -> list Z -> Prop) (Q : B -> list Z -> Prop) :
  dsound eol fuel m P -> (forall a b, bytes b -> P a b -> Q (f a) b) ->
  dsound eol fuel (do a <- m; st_ret (f a)) Q.
Proof.
  intros Hm HQ. eapply dsound_bind; [exact Hm|]. intros a b Hb HP. apply dsound_ret. rewrite app_nil_r. auto.
Qed.

Lemma wrap_EOL e : wrapStreamError e = EOL -> e = EOL.
Proof. by destruct e. Qed.

Lemma wrap_NoFuel e : wrapStreamError e = NoFuel -> e = NoFuel.
Proof. by destruct e. Qed.

Lemma dsound_wrapped {A} eol fuel (m : st A) Q : dsound eol fuel m Q -> dsound eol fuel (wrapped m) Q.
Proof.
  intros Hm s inp stk Hr Hb H8 Hs Hl. specialize (Hm s inp stk Hr Hb H8 Hs Hl). unfold wrapped, st_catch, st_res.
  destruct (m s) as [[a|e|] s']; [done| |done]. destruct Hm as [H1 H2]. cbn.
  split; [by intros ?%wrap_NoFuel|]. intros ?%wrap_EOL. auto.
Qed.

Lemma dsound_catchEOL {A} eol fuel msg (m : st A) Q : dsound eol fuel m Q -> dsound false fuel (catchEOL msg m) Q.
Proof.
  intros Hm s inp stk Hr Hb H8 Hs Hl. specialize (Hm s inp stk Hr Hb H8 Hs Hl). unfold catchEOL, st_catch, st_res.
  destruct (m s) as [[a|e|] s']; [done| |done]. destruct Hm as [H1 H2]. by destruct e.
Qed.

(** Splits off the facts of a read but the last. *)
Ltac split_read := split; [|split; [|split]].

(** ** Strings and numbers *)

Lemma at_rearm s inp stk : at_ s inp stk -> ready (set_kind None s) inp stk.
Proof. done. Qed.

(** A decoder that looks at the header first. *)
Lemma Kind_bind {A} fuel (f : Kind -> Z -> st A) Q :
  (forall k size h r s' stk,
     head_of k size h (byteval s') -> held s' r (adv stk (len h)) k size -> 0 <= size <= len r ->
     room stk (len h + size) -> bounded stk (h ++ r) -> bytes h -> bytes r -> small (h ++ r) ->
     (length (h ++ r) < fuel)%nat ->
     result (f k size s') (h ++ r) stk false Q) ->
  dsound true fuel (do (k, size) <- stream_Kind; f k size) Q.
Proof.
  intros Hf s inp stk Hr Hb H8 Hs Hl. unfold st_bind.
  pose proof (Kind_at s inp stk Hr Hb (small_fits _ Hs) H8) as H.
  destruct (stream_Kind s) as [[[k size]|e|] s']; [| |done].
  - destruct H as (h & r & -> & Hsz & Hro & Hheld & Hh). apply Forall_app in H8 as [H8h H8r].
    specialize (Hf k size h r s' stk Hh Hheld Hsz Hro Hb H8h H8r Hs Hl).
    destruct (f k size s') as [[a|e|] s'']; [done| |done].
    destruct Hf as [H1 H2]. split; [done|]. intros E. by destruct (H2 E).
  - destruct H as [H1 H2]. split; [done|]. intros E. by destruct (H2 E).
Qed.

Lemma room_h stk n m : room stk (n + m) -> 0 <= m -> room stk n.
Proof. destruct stk; cbn; [done|]. lia. Qed.

(** Reading the content behind a header. *)
Lemma readFull_held s' h r stk k size :
  held s' r (adv stk (len h)) k size -> 0 <= size <= len r -> room stk (len h + size) -> small (h ++ r) ->
  exists c r' s'', r = c ++ r' /\ len c = size /\ readFull size s' = (Ok c, s'') /\
    room stk (len (h ++ c)) /\ ready s'' r' (adv stk (len (h ++ c))).
Proof.
  intros (Hat & _) Hsz Hro Hs.
  destruct (take_drop_le r size Hsz) as (c & r' & -> & -> & _). fold (len c) in *.
  assert (fits (c ++ r')) as Hf by (apply small_fits in Hs; by apply fits_app in Hs as [_ ?]).
  apply room_split in Hro as [H1 H2]; [|apply len_nonneg..].
  destruct (readFull_ok s' c r' _ Hat H2 Hf) as (s'' & E & Hrdy & _). exists c, r', s''. rewrite len_app.
  split_and!; [done..| |by rewrite <- adv_adv].
  apply room_adv; auto using len_nonneg. by eapply (room_h stk 0 (len h)); [|apply len_nonneg].
Qed.

Lemma make_bytes_ok {A} size h r (k : () -> st A) s :
  size <= len r -> small (h ++ r) -> st_bind (make_bytes size) k s = k () s.
Proof.
  intros Hsz Hs. unfold small in Hs. rewrite len_app in Hs. pose proof (len_nonneg h).
  unfold st_bind, make_bytes, maxAlloc. by rewrite Z.gtb_ltb, (proj2 (Z.ltb_ge _ _)) by lia.
Qed.

Lemma Bytes_sound fuel : dsound true fuel stream_Bytes (fun c b => b = str_enc c /\ bytes c).
Proof.
  apply Kind_bind. intros k size h r s' stk Hh Hheld Hsz Hro Hb H8h H8r Hs Hl. destruct k; cbn [head_of] in Hh.
  - destruct Hh as (-> & -> & Hx). unfold st_bind, rearm. exists [byteval s'], r.
    rewrite Z.add_0_r in Hro. destruct Hheld as [Hat _]. split; [done|]. split; [done|]. split; [by apply at_rearm|].
    cbn [byteval set_kind]. by rewrite str_enc_byte by lia.
  - destruct Hh as [-> Hu]. rewrite (make_bytes_ok _ _ _ _ _ (proj2 Hsz) Hs). unfold st_bind.
    destruct (readFull_held _ _ _ _ _ _ Hheld Hsz Hro Hs) as (c & r' & s'' & -> & Hc & -> & Hro' & Hrdy).
    apply Forall_app in H8r as [H8c _].
    assert (token_ok String_ c -> result (Ok c, s'') (header String_ size ++ c ++ r') stk false
              (fun c b => b = str_enc c /\ bytes c)) as Hok.
    { intros Ht. exists (header String_ size ++ c), r'. split_read; [by rewrite app_assoc|done|done|].
      rewrite str_enc_long by done. by rewrite <- Hc. }
    destruct c as [|b0 [|b1 c]]; [by apply Hok|..].
    + destruct (Z.eqb_spec size 1); [|unfold len in Hc; cbn in Hc; lia]. cbn [andb].
      destruct (Z.ltb_spec b0 128); [by cbn|]. apply Hok. by intros ? [= ->].
    + destruct (Z.eqb_spec size 1); [unfold len in Hc; cbn in Hc; lia|]. cbn [andb]. by apply Hok.
  - by cbn.
Qed.

Lemma header_ne k size : k <> Byte -> header k size <> [].
Proof. intros H. destruct k; [done|..]; cbn [header]; unfold puthead; by case_match. Qed.

Lemma Raw_sound fuel : dsound true fuel stream_Raw (fun c b => c = b /\ b <> []).
Proof.
  apply Kind_bind. intros k size h r s' stk Hh Hheld Hsz Hro Hb H8h H8r Hs Hl.
  assert (k <> Byte -> head_of k size h (byteval s') -> result
    ((let start := headsize size in let total := u64 (start + size) in
      do _ <- make_bytes total;
      if total <? start then st_panic
      else do b <- readFull (total - start);
           st_ret ((match k with List_ => puthead 0xC0 0xF7 size | _ => puthead 0x80 0xB7 size end) ++ b)) s')
    (h ++ r) stk false (fun c b => c = b /\ b <> [])) as Hlong.
  { intros Hk Hh'. assert (h = header k size /\ is_u64 size) as [-> Hu] by by destruct k.
    assert (headsize size = len (header k size)) as -> by (destruct k; [done|..]; symmetry; by apply length_puthead).
    cbn zeta. pose proof (len_nonneg (header k size)). unfold small in Hs. rewrite len_app in Hs.
    rewrite u64_small by (unfold is_u64 in *; lia).
    rewrite (make_bytes_ok _ [] (header k size ++ r)) by (unfold small; rewrite ?len_app; change (len []) with 0; lia).
    rewrite (proj2 (Z.ltb_ge _ _)), Z.add_simpl_l by lia. unfold st_bind.
    destruct (readFull_held _ _ _ _ _ _ Hheld Hsz Hro) as (c & r' & s'' & -> & Hc & -> & Hro' & Hrdy);
      [by unfold small; rewrite len_app|].
    exists (header k size ++ c), r'. split_read; [by rewrite app_assoc|done|done|]. split; [by destruct k|].
    intros [E _]%app_nil. by apply header_ne in E. }
  destruct k; [|by apply Hlong..].
  destruct Hh as (-> & -> & Hx). unfold st_bind, rearm. exists [byteval s'], r.
  rewrite Z.add_0_r in Hro. destruct Hheld as [Hat _]. by split_read.
Qed.

Definition width (bits : Z) : Prop := 8 <= bits <= 64 /\ bits mod 8 = 0.

Lemma uint_item_small x : 0 <= x < 128 -> x <> 0 -> enc (uint_item x) = [x].
Proof.
  intros Hx H0. rewrite <- EncodeUint_enc by (unfold is_u64; lia). unfold EncodeUint.
  destruct (Z.eqb_spec x 0); [done|]. rewrite (proj2 (Z.ltb_lt _ _)) by lia. by rewrite u8_small by (unfold is_u8; lia).
Qed.

(** The canonical bytes of a number of more than seven bits. *)
Lemma uint_item_string c v :
  bytes c -> v = be_value c -> 128 <= v -> (1 <= length c <= 8)%nat ->
  ((2 <= length c)%nat -> exists x t, c = x :: t /\ x <> 0) ->
  enc (uint_item v) = header String_ (len c) ++ c /\ v < 2 ^ (8 * len c).
Proof.
  intros Hc Hv H128 Hl Hlead. pose proof (be_value_bound c Hc) as B.
  assert (exists x t, c = x :: t /\ x <> 0) as (x & t & E & Hx).
  { destruct (decide (2 <= length c)%nat) as [H2|H2]; [by apply Hlead|].
    destruct c as [|x [|y c]]; cbn in Hl, H2; try lia. exists x, []. split; [done|].
    intros ->. rewrite Hv in H128. change (be_value [0]) with 0 in H128. lia. }
  assert (putint v = c) as Hp by (subst c v; apply putint_be_value; [done..|cbn in Hl; lia]).
  unfold uint_item. cbn [enc]. destruct (Z.eqb_spec v 0); [lia|]. rewrite Hp.
  split; [|unfold len; lia]. apply str_enc_long. intros y ->. rewrite Hv in H128. done.
Qed.

Lemma uint_sound fuel bits :
  width bits -> dsound true fuel (stream_uint bits) (fun i b => b = enc (uint_item i) /\ 0 <= i < 2 ^ bits).
Proof.
  intros [Hw Hm]. apply Kind_bind. intros k size h r s' stk Hh Hheld Hsz Hro Hb H8h H8r Hs Hl.
  assert (2 ^ 8 <= 2 ^ bits) as Hp by (apply Z.pow_le_mono_r; lia).
  destruct k; cbn [head_of] in Hh; [| |by cbn].
  - destruct Hh as (-> & -> & Hx). destruct (Z.eqb_spec (byteval s') 0); [by cbn|]. exists [byteval s'], r.
    rewrite Z.add_0_r in Hro. destruct Hheld as [Hat _]. split_read; [done..|]. rewrite uint_item_small by lia. split; [done|lia].
  - destruct Hh as [-> Hu]. rewrite Z.gtb_ltb. destruct (Z.ltb_spec (bits / 8) size) as [|Hsb]; [by cbn|].
    assert (8 * size <= bits) as H8s by (pose proof (Z.div_mod bits 8); lia).
    rewrite u8_small by (unfold is_u8; lia). unfold st_catch. destruct Hheld as [Hat _].
    assert (room stk (len (header String_ size))) as Hrh by (eapply room_h; [exact Hro|lia]).
    apply small_fits, fits_app in Hs as [_ Hf].
    pose proof (readUint_at s' r _ size Hat (bounded_adv _ _ _ Hb Hrh) Hf ltac:(lia)) as H.
    destruct (readUint size s') as [[v|e|] s'']; [| |done].
    2: { destruct H as [H1 H2]. by destruct e. }
    destruct H as (c & r' & -> & Hrc & Hrdy & Hlen & Hv & Hlead). apply Forall_app in H8r as [H8c _].
    rewrite Z.gtb_ltb. destruct (Z.ltb_spec 0 size) as [Hpos|Hz]; cbn [andb].
    + destruct (Z.ltb_spec v 128); [by cbn|]. unfold len in Hlen.
      destruct (uint_item_string c v) as [E B]; [done..|lia| |].
      { intros H2. apply Hlead. lia. }
      exists (header String_ size ++ c), r'. rewrite len_app. split_read; [by rewrite app_assoc| | |].
      * apply room_adv; auto using len_nonneg. by eapply bounded_room.
      * by rewrite <- adv_adv.
      * unfold len in *. rewrite E, Hlen in *. split; [done|]. pose proof (be_value_bound c H8c).
        pose proof (Z.pow_le_mono_r 2 (8 * size) bits). lia.
    + assert (size = 0) as -> by lia. destruct c; [|unfold len in Hlen; cbn in Hlen; lia].
      exists (header String_ 0), r'. split_read; [done|done| |subst v; change (be_value []) with 0; split; [done|lia]]. rewrite adv_adv in Hrdy.
      by replace (len (header String_ 0) + len []) with (len (header String_ 0)) in Hrdy by (cbn; lia).
Qed.

Lemma dsound_err {A} eol fuel e (Q : A -> list Z -> Prop) : e <> NoFuel -> e <> EOL -> dsound eol fuel (st_err e) Q.
Proof. intros H1 H2 s inp stk _ _ _ _ _. done. Qed.

Lemma Bool_sound fuel : dsound true fuel stream_Bool (fun v b => b = enc (Str (if v then [1] else []))).
Proof.
  unfold stream_Bool. eapply dsound_bind; [by apply uint_sound|]. intros num b Hb [-> _]. cbn beta.
  destruct (Z.eqb_spec num 0) as [->|]; [by apply dsound_ret|].
  destruct (Z.eqb_spec num 1) as [->|]; [by apply dsound_ret|]. by apply dsound_err.
Qed.

Lemma bigBytes_be_value x b : bytes (x :: b) -> x <> 0 -> bigBytes (be_value (x :: b)) = x :: b.
Proof.
  intros Hb Hx. pose proof (be_value_bound _ Hb) as B. pose proof (be_value_lower x b Hb Hx) as L.
  unfold bigBytes. pose proof (Z.pow_pos_nonneg 2 (8 * Z.of_nat (length b))).
  rewrite (proj2 (Z.leb_gt _ _)) by lia.
  assert (Z.to_nat (Z.log2 (be_value (x :: b)) / 8 + 1) = length (x :: b)) as ->; [|by apply be_bytes_be_value].
  assert (0 < be_value (x :: b)) by lia. apply Z.log2_le_pow2 in L; [|lia]. apply proj2, Z.log2_lt_pow2 in B; [|lia]. cbn [length] in *.
  pose proof (Z.div_mod (Z.log2 (be_value (x :: b))) 8). pose proof (Z.mod_pos_bound (Z.log2 (be_value (x :: b))) 8). lia.
Qed.

Lemma BigInt_sound fuel :
  dsound true fuel decodeBigInt (fun i b => 0 <= i /\ b = enc (Str (bigBytes i))).
Proof.
  unfold decodeBigInt. eapply dsound_bind; [apply dsound_wrapped, Bytes_sound|]. intros c b _ [-> Hc]. cbn beta.
  destruct c as [|x c]; [by apply dsound_ret|].
  destruct (Z.eqb_spec x 0) as [|Hx]; [by apply dsound_err|]. apply dsound_ret. rewrite app_nil_r.
  split; [by apply be_value_bound|]. cbn [enc]. by rewrite bigBytes_be_value.
Qed.

Lemma ByteArray_sound fuel n :
  n <> 1%nat -> dsound true fuel (decodeByteArray n) (fun c b => b = str_enc c /\ bytes c /\ length c = n).
Proof.
  intros Hn. apply Kind_bind. intros k size h r s' stk Hh Hheld Hsz Hro Hb H8h H8r Hs Hl. cbn zeta.
  destruct k; cbn [head_of] in Hh; [| |by cbn].
  - destruct (Z.eqb_spec (Z.of_nat n) 0); [by cbn|]. rewrite Z.gtb_ltb.
    destruct (Z.ltb_spec 1 (Z.of_nat n)); [by cbn|lia].
  - destruct Hh as [-> Hu]. destruct (Z.ltb_spec (Z.of_nat n) size); [by cbn|]. rewrite Z.gtb_ltb.
    destruct (Z.ltb_spec size (Z.of_nat n)); [by cbn|]. assert (Z.of_nat n = size) as -> by lia. unfold st_bind.
    destruct (readFull_held _ _ _ _ _ _ Hheld Hsz Hro Hs) as (c & r' & s'' & -> & Hc & -> & Hro' & Hrdy).
    apply Forall_app in H8r as [H8c _]. destruct (Z.eqb_spec size 1); [lia|]. cbn [andb].
    replace (match c with [] => st_ret c | _ => st_ret c end s'') with (@Ok dec_error _ c, s'') by by destruct c.
    exists (header String_ size ++ c), r'. split_read; [by rewrite app_assoc|done|done|].
    split; [|split; [done|unfold len in Hc; lia]]. rewrite str_enc_long; [by rewrite <- Hc|].
    intros x ->. unfold len in Hc. cbn in Hc. lia.
Qed.

(** ** Lists *)

Lemma List_at s inp stk :
  ready s inp stk -> bounded stk inp -> fits inp -> bytes inp ->
  match wrapped stream_List s with
  | (Ok size, s') => exists r, inp = header List_ size ++ r /\ 0 <= size <= len r /\ is_u64 size /\
      room stk (len (header List_ size) + size) /\
      ready s' r (mkPos 0 size :: adv stk (len (header List_ size)))
  | (Err e, s') => e <> NoFuel /\ (e = EOL -> at_end stk /\ ready s' inp stk)
  | (Panic, _) => False
  end.
Proof.
  intros Hr Hb Hf H8. unfold wrapped, st_catch, stream_List, st_bind.
  pose proof (Kind_at s inp stk Hr Hb Hf H8) as H. destruct (stream_Kind s) as [[[k size]|e|] s1]; [| |done].
  2: { destruct H as [H1 H2]. cbn. split; [by intros ?%wrap_NoFuel|]. intros ?%wrap_EOL. auto. }
  destruct H as (h & r & -> & Hsz & Hro & [(Hi & Hrem & Hl & Hstk) _] & Hh). destruct k; [done|done|].
  destruct Hh as [-> Hu]. exists r. split; [done|]. split; [done|]. split; [done|]. split; [done|].
  repeat split; cbn; try done. by rewrite Hstk.
Qed.

Lemma ListEnd_at s r stk n h size :
  ready s r (mkPos n size :: adv stk h) -> 0 <= h -> 0 <= size -> room stk (h + size) ->
  exists s', ready s' r (adv stk (h + size)) /\
    ListEnd s = if n =? size then (Ok (), s') else (Err NotAtEOL, s).
Proof.
  intros [(Hi & Hr & Hl & Hs) Hk] Hh Hsz Hro. unfold ListEnd. rewrite Hs. cbn [lp_pos lp_size].
  eexists. split; [|by destruct (n =? size)]. repeat split; cbn; try done.
  destruct stk as [|p stk]; cbn in *; [done|]. rewrite u64_small by (unfold is_u64; lia). by rewrite Z.add_assoc.
Qed.

(** A list whose elements [m] reads; its end is acknowledged as [w] does. *)
Lemma list_sound {A} fuel (w : st () -> st ()) (m : Z -> st A) Q :
  (w = wrapped \/ w = (fun m => m)) ->
  (forall size, dsound false fuel (m size) Q) ->
  dsound true (S fuel) (do size <- wrapped stream_List; do l <- m size; do _ <- w ListEnd; st_ret l)
    (fun l b => exists c, b = header List_ (len c) ++ c /\ Q l c).
Proof.
  intros Hw Hm s inp stk Hr Hb H8 Hs Hl. unfold st_bind at 1.
  pose proof (List_at s inp stk Hr Hb (small_fits _ Hs) H8) as H.
  destruct (wrapped stream_List s) as [[size|e|] s2]; [| |done].
  2: { destruct H as [H1 H2]. split; [done|]. intros E. by destruct (H2 E). }
  destruct H as (r & -> & Hsz & Hu & Hro & Hr2). apply Forall_app in H8 as [_ H8].
  unfold small in Hs. rewrite len_app in Hs. rewrite length_app in Hl. unfold is_u64 in Hu.
  pose proof (len_nonneg (header List_ size)).
  assert (0 < length (header List_ size))%nat
    by (pose proof (header_ne List_ size ltac:(done)); destruct (header List_ size); [done|cbn; lia]).
  specialize (Hm size s2 r _ Hr2 ltac:(cbn; unfold len in *; lia) H8 ltac:(unfold small; lia) ltac:(lia)).
  unfold st_bind at 1. destruct (m size s2) as [[l|e|] s3]; [| |done].
  2: { destruct Hm as [H1 H2]. split; [done|]. intros E. by destruct (H2 E). }
  destruct Hm as (c & r' & -> & _ & Hr3 & HQ). cbn [adv lp_pos lp_size Z.add] in Hr3.
  destruct (ListEnd_at _ _ _ _ _ _ Hr3 ltac:(lia) ltac:(lia) Hro) as (s4 & Hr4 & E4). rewrite Z.add_0_l in E4. unfold st_bind.
  destruct (Z.eqb_spec (len c) size) as [Ec|Ec].
  2: { destruct Hw as [->| ->]; [unfold wrapped, st_catch|]; rewrite E4; by cbn. }
  replace (w ListEnd s3) with (@Ok dec_error _ (), s4)
    by (destruct Hw as [->| ->]; [unfold wrapped, st_catch|]; by rewrite E4).
  exists (header List_ size ++ c), r'. rewrite len_app, Ec. split_read; [by rewrite app_assoc|done|done|].
  exists c. by rewrite Ec.
Qed.

Section Rel.
Context (P : gtype -> gval -> list Z -> Prop).

(** The bytes of the elements of a slice and of the fields of a struct. *)
Fixpoint elems_rel (t : gtype) (l : list gval) (b : list Z) : Prop :=
  match l with
  | [] => b = []
  | v :: l => exists b1 b2, b = b1 ++ b2 /\ P t v b1 /\ elems_rel t l b2
  end.

Fixpoint fields_rel (ts : list gtype) (l : list gval) (b : list Z) : Prop :=
  match ts, l with
  | [], [] => b = []
  | t :: ts, v :: l => exists b1 b2, b = b1 ++ b2 /\ P t v b1 /\ fields_rel ts l b2
  | _, _ => False
  end.

Lemma SliceElems_sound fuel n t dec :
  dsound true fuel dec (fun v b => P t v b /\ b <> []) ->
  dsound false (n `min` fuel) (decodeSliceElems n dec) (elems_rel t).
Proof.
  intros Hd. induction n as [|n IH]; intros s inp stk Hr Hb H8 Hs Hl; [lia|].
  cbn [decodeSliceElems]. unfold st_catch. specialize (Hd s inp stk Hr Hb H8 Hs ltac:(lia)).
  destruct (dec s) as [[v|e|] s1]; [| |done].
  - destruct Hd as (b & r & -> & Hro & Hr1 & HP & Hne). apply Forall_app in H8 as [_ H8].
    pose proof (bounded_room _ _ Hb) as H0. unfold st_bind. unfold small in Hs. rewrite len_app in Hs.
    pose proof (len_nonneg b). rewrite length_app in Hl.
    assert (0 < length b)%nat by (destruct b; [done|cbn; lia]).
    specialize (IH s1 r _ Hr1 (bounded_adv _ _ _ Hb Hro) H8 ltac:(unfold small; lia) ltac:(lia)).
    apply (result_app _ b r stk false (fun vl c => exists l, vl = v :: l /\ elems_rel t l c)); [done|done| |].
    + intros vl c (l & -> & Hc). cbn. eauto 10.
    + destruct (decodeSliceElems n dec s1) as [[l|e|] s2]; [|done|done].
      destruct IH as (c & r' & -> & Hroc & Hr2 & Hc). exists c, r'. split_read; eauto.
  - destruct Hd as [H1 H2]. destruct e; try (split; [done|discriminate]).
    destruct (H2 eq_refl) as (_ & _ & Hr1). exists [], inp. change (len []) with 0. rewrite adv_0.
    split_read; [done|by eapply bounded_room|done|done].
Qed.

Lemma ListSlice_sound fuel n t dec :
  (fuel <= n)%nat -> dsound true fuel dec (fun v b => P t v b /\ b <> []) ->
  dsound true (S fuel) (decodeListSlice n dec) (fun l b => exists c, b = header List_ (len c) ++ c /\ elems_rel t l c).
Proof.
  intros Hn Hd.
  assert (forall size : Z, dsound false fuel (if size =? 0 then st_ret [] else decodeSliceElems n dec) (elems_rel t)) as Hm.
  { intros size. destruct (size =? 0); [by apply dsound_ret|].
    eapply dsound_weaken; [by apply SliceElems_sound| |done|done]. lia. }
  intros s inp stk Hr Hb H8 Hs Hl.
  pose proof (list_sound fuel (fun m => m) _ _ (or_intror eq_refl) Hm s inp stk Hr Hb H8 Hs Hl) as H.
  unfold decodeListSlice. unfold st_bind at 1. unfold st_bind at 1 in H.
  destruct (wrapped stream_List s) as [[size|e|] s1]; [|done|done]. by destruct (size =? 0).
Qed.

Lemma ArrayElems_sound fuel n t dec :
  dsound true fuel dec (P t) ->
  dsound false fuel (decodeArrayElems n dec) (fun l b => elems_rel t l b /\ length l = n).
Proof.
  intros Hd. induction n as [|n IH]; cbn [decodeArrayElems]; [by apply dsound_ret|].
  eapply dsound_bind; [by eapply dsound_catchEOL|]. intros v b _ Hv. cbn beta.
  eapply dsound_map; [exact IH|]. intros l c _ [Hl <-]. split; [|done]. cbn. eauto.
Qed.

Lemma Fields_sound fuel (dec : gtype -> st gval) ts :
  Forall (fun t => dsound true fuel (dec t) (P t)) ts ->
  dsound false fuel (decodeFields (map dec ts)) (fields_rel ts).
Proof.
  induction 1 as [|t ts Ht _ IH]; cbn [map decodeFields]; [by apply dsound_ret|].
  eapply dsound_bind; [by eapply dsound_catchEOL|]. intros v b _ Hv. cbn beta.
  eapply dsound_map; [exact IH|]. intros l c _ Hl. cbn. eauto.
Qed.
End Rel.

(** ** Looking at the header first *)

(** Looking at the header does not change what the decoder does. *)
Definition starts {A} (m : st A) : Prop := forall s x s', stream_Kind s = (Ok x, s') -> m s' = m s.

Lemma Kind_idem s x s' : stream_Kind s = (Ok x, s') -> stream_Kind s' = (Ok x, s').
Proof.
  assert (forall s x s', kind s <> None -> ahead s = (Ok x, s') -> s' = s /\ stream_Kind s = (Ok x, s)) as Ha.
  { intros s0 x0 s0' Hk E. unfold stream_Kind. destruct (kind s0) eqn:Ek; [|done].
    pose proof E as E'. unfold ahead in E'. rewrite Ek in E'. destruct (kinderr s0); [done|].
    injection E' as <- <-. by split. }
  intros E. unfold stream_Kind in E. destruct (kind s) eqn:Ek.
  { destruct (Ha s x s') as [-> E']; [congruence|done|]. done. }
  set (s1 := set_ahead None (ssize s) None s) in E. cbn zeta in E.
  destruct (match stack s1 with [] => false | tos :: _ => lp_pos tos =? lp_size tos end); [done|].
  unfold st_bind in E. destruct (stream_readKind s1) as [[[[k size] e]|e|] s2]; [|done|done].
  apply Ha in E as [-> E]; [done|]. done.
Qed.

Lemma starts_Kind : starts stream_Kind.
Proof. intros s x s' E. by rewrite (Kind_idem _ _ _ E). Qed.

Lemma starts_bind {A B} (m : st A) (k : A -> st B) : starts m -> starts (st_bind m k).
Proof. intros H s x s' E. unfold st_bind. by rewrite (H s x s' E). Qed.

Lemma starts_catch {A B} (m : st A) (k : res dec_error A -> st B) : starts m -> starts (st_catch m k).
Proof. intros H s x s' E. unfold st_catch. by rewrite (H s x s' E). Qed.

Lemma starts_result {A} (m : st A) s x s' inp stk eol Q :
  starts m -> stream_Kind s = (Ok x, s') -> result (m s) inp stk eol Q -> result (m s') inp stk eol Q.
Proof. intros H E. by rewrite (H s x s' E). Qed.

Create HintDb starts.
#[export] Hint Resolve starts_Kind starts_bind starts_catch : starts.
#[export] Hint Unfold wrapped stream_List stream_Bytes stream_Raw stream_uint stream_Bool decodeUint decodeBool
  decodeByteSlice decodeBigInt decodeByteArray decodeListSlice decodeListArray decodeStruct decodeOptionalPtr : starts.

(** ** Types *)

Section GoodFields.
Context (good : bool -> gtype -> Prop).

Fixpoint good_fields (ts : list gtype) : Prop :=
  match ts with
  | [] => True
  | [t] => good true t
  | t :: ts => good false t /\ good_fields ts
  end.
End GoodFields.

(** Types the decoder reads as it should: unsigned integers have whole bytes,
    only the [last] field of a struct is a tail, and there is no array of a
    single byte ([one_byte_array_loops]). *)
Fixpoint good (last : bool) (t : gtype) {struct t} : Prop :=
  match t with
  | TUint bits => width bits
  | TByteArray n => n <> 1%nat
  | TSlice tail t => (tail = true -> last = true) /\ good false t
  | TArray _ t => good false t
  | TStruct ts => good_fields good ts
  | TPtr _ t => good false t
  | TTyped M => forall k, match M k with Some t => good false t | None => True end
  | _ => True
  end.

(** No field is tagged [nil]. *)
Fixpoint strict (t : gtype) : Prop :=
  match t with
  | TSlice _ t | TArray _ t => strict t
  | TStruct ts => foldr (fun t P => strict t /\ P) True ts
  | TPtr nilOK t => nilOK = false /\ strict t
  | TTyped M => forall k, match M k with Some t => strict t | None => True end
  | _ => True
  end.

Lemma gtype_ind' (P : gtype -> Prop) :
  P TRaw -> (forall bits, P (TUint bits)) -> P TBool -> P TBig -> P TBigPtr -> P TString -> P TBytes ->
  (forall n, P (TByteArray n)) -> (forall tail t, P t -> P (TSlice tail t)) -> (forall n t, P t -> P (TArray n t)) ->
  (forall ts, Forall P ts -> P (TStruct ts)) -> (forall nilOK t, P t -> P (TPtr nilOK t)) -> P TIface ->
  (forall M, (forall k t, M k = Some t -> P t) -> P (TTyped M)) ->
  forall t, P t.
Proof.
  intros Hraw Hu Hbool Hbig Hbp Hs Hby Hba Hsl Har Hst Hp Hi Ht. fix IH 1.
  assert (forall ts, Forall P ts) as IHl by (induction ts; constructor; auto).
  intros [|bits| | | | | |n|tail t|n t|ts|nilOK t| |M];
    [exact Hraw|apply Hu|exact Hbool|exact Hbig|exact Hbp|exact Hs|exact Hby|apply Hba|apply Hsl, IH|apply Har, IH
    |apply Hst, IHl|apply Hp, IH|exact Hi|apply Ht].
  intros k. refine (match M k as o return (forall t, o = Some t -> P t) with
                    | Some t' => fun t E => eq_ind t' P (IH t') t _
                    | None => fun t E => _
                    end); congruence.
Qed.

(** A tail is found only by the last field. *)
Lemma parseStructTag_tail last t parts ts ts' :
  parseStructTag last t parts ts = Ok ts' -> tagTail ts' = true -> tagTail ts = true \/ last = true.
Proof.
  revert ts. induction parts as [|p parts IH]; cbn; [intros ts [= ->]; by left|].
  intros ts (ts1 & E & H)%res_bind_Ok Ht. destruct (IH _ H Ht) as [H1|]; [|by right].
  repeat case_bool_decide; try (injection E as <-; by left); [|done].
  destruct last; [by right|]. done.
Qed.

Lemma with_tags_good last ts t : good false t -> (tagTail ts = true -> last = true) -> good last (with_tags ts t).
Proof. destruct t; cbn; try done. by intros [_ Hg] Ht. Qed.

Lemma structFields_good fs ts :
  Forall (fun f => good false (ftype f)) fs -> structFields fs = Ok ts -> good_fields good ts.
Proof.
  intros Hg. revert ts. induction Hg as [|f fs Hf Hfs IH]; cbn [structFields]; intros ts E; [by injection E as <-|].
  destruct (exported f); [|by apply IH].
  apply res_bind_Ok in E as (tg & Et & E). apply res_bind_Ok in E as (l & El & E). injection E as <-.
  specialize (IH l El). destruct (tagIgnored tg); [done|].
  destruct l as [|t l]; cbn [good_fields].
  - apply with_tags_good; [done|done].
  - split; [|done]. apply with_tags_good; [done|]. intros Ht.
    destruct (parseStructTag_tail _ _ _ _ _ Et Ht) as [?|Hl]; [done|]. destruct fs; [|done]. by injection El.
Qed.

(** Every type but a tail is decoded from its header on. *)
Lemma decoder_starts fuel t : good false t -> (0 < fuel)%nat -> starts (makeDecoder fuel t).
Proof.
  intros Hg Hf. induction t as [|bits| | | | | |n|tail t IH|n t IH|ts IH|nilOK t IH| |M IH] using gtype_ind';
    cbn [makeDecoder]; autounfold with starts; auto 10 with starts.
  - destruct tail; [by pose proof (proj1 Hg eq_refl)|]. autounfold with starts. auto 10 with starts.
  - destruct nilOK; autounfold with starts; auto 10 with starts.
  - destruct fuel; [lia|]. cbn [decodeInterface]. auto with starts.
Qed.

(** ** Decoders of types *)

Lemma OptionalPtr_sound fuel m (Q : gval -> list Z -> Prop) :
  starts m -> dsound true fuel m Q ->
  dsound true fuel (decodeOptionalPtr m) (fun o b => match o with Some v => Q v b | None => b <> [] end).
Proof.
  intros Hst Hm s inp stk Hr Hb H8 Hs Hl. unfold decodeOptionalPtr, st_catch.
  pose proof (Kind_at s inp stk Hr Hb (small_fits _ Hs) H8) as H.
  destruct (stream_Kind s) as [[[k size]|e|] s1] eqn:EK; [| |done].
  2: { destruct H as [H1 H2]. cbn. split; [done|]. intros E. destruct (H2 E) as [He [Hat Hk]]. by split_and!. }
  destruct ((size =? 0) && match k with Byte => false | _ => true end) eqn:E0.
  - apply andb_true_iff in E0 as [->%Z.eqb_eq Hk].
    destruct H as (h & r & -> & _ & Hro & [Hat _] & Hh). rewrite Z.add_0_r in Hro. exists h, r.
    split_read; [done|done|by apply at_rearm|]. destruct k; [done|..]; destruct Hh as [-> _]; done.
  - specialize (Hm s inp stk Hr Hb H8 Hs Hl). rewrite <- (Hst s _ s1 EK) in Hm. unfold st_bind.
    by destruct (m s1) as [[v|e|] s2].
Qed.

Definition dec_ok (t : gtype) (v : gval) (b : list Z) : Prop := typed t v /\ (strict t -> encoding t v = Ok b).

Lemma elems_ok t l b :
  elems_rel dec_ok t l b ->
  all_elems typed t l /\ (strict t -> exists its, elem_items items t l = Ok its /\ concat (map enc its) = b).
Proof.
  revert b. induction l as [|v l IH]; cbn; [intros b ->; eauto|].
  intros b (b1 & b2 & -> & [Ht Hv] & Hl). destruct (IH b2 Hl) as [Hts Hits]. split; [done|]. intros Hs.
  apply Hv in Hs as Hv'. apply res_bind_Ok in Hv' as (i1 & -> & E). injection E as <-.
  destruct (Hits Hs) as (i2 & -> & <-). cbn. eexists. split; [done|]. by rewrite map_app, concat_app.
Qed.

Lemma fields_ok ts l b :
  fields_rel dec_ok ts l b ->
  all_fields typed ts l /\ (strict (TStruct ts) -> exists its, field_items items ts l = Ok its /\ concat (map enc its) = b).
Proof.
  revert l b. induction ts as [|t ts IH]; intros [|v l] b H; cbn in H; try done.
  { split; [done|]. intros _. subst b. by exists []. }
  destruct H as (b1 & b2 & -> & [Ht Hv] & Hl). destruct (IH l b2 Hl) as [Hts Hits]. split; [done|]. intros [Hs Hss].
  apply Hv in Hs as Hv'. apply res_bind_Ok in Hv' as (i1 & E1 & E). injection E as <-.
  destruct (Hits Hss) as (i2 & E2 & <-). cbn. rewrite E1, E2. cbn. eexists. split; [done|]. by rewrite map_app, concat_app.
Qed.

Lemma encoding_Lst its : concat (map enc [Lst its]) = header List_ (len (concat (map enc its))) ++ concat (map enc its).
Proof. cbn [map concat enc]. by rewrite app_nil_r. Qed.

Lemma header_app_ne k size c : k <> Byte -> header k size ++ c <> [].
Proof. intros Hk [E _]%app_nil. by apply header_ne in E. Qed.

Lemma str_enc_ne c : str_enc c <> [].
Proof.
  unfold str_enc. destruct c as [|x [|y c]]; [done|case_match; [done|]|];
    (eapply (header_app_ne String_); done).
Qed.

Lemma Interface_sound fuel :
  dsound true fuel (decodeInterface fuel) (fun v b => dec_ok TIface v b /\ b <> []).
Proof.
  induction fuel as [|fuel IH]; [intros s inp stk _ _ _ _ Hl; lia|].
  assert (dsound true (S fuel) (do l <- decodeListSlice fuel (decodeInterface fuel);
      st_ret (VIface (Some (TSlice false TIface, VSlice l)))) (fun v b => dec_ok TIface v b /\ b <> [])) as Hlist.
  { eapply dsound_map; [apply (ListSlice_sound dec_ok fuel fuel TIface); [lia|exact IH]|].
    intros l b _ (c & -> & [Ht Hc]%elems_ok). split; [|by apply header_app_ne]. split; [done|]. intros Hs.
    destruct (Hc Hs) as (its & E & <-). unfold encoding. cbn [items]. rewrite E. cbn [res_bind].
    by rewrite encoding_Lst. }
  assert (dsound true (S fuel) (do b <- stream_Bytes; st_ret (VIface (Some (TBytes, VBytes b))))
            (fun v b => dec_ok TIface v b /\ b <> [])) as Hstr.
  { eapply dsound_map; [apply Bytes_sound|]. intros c b _ [-> Hc]. split; [|apply str_enc_ne]. split; [done|].
    intros _. unfold encoding. cbn. by rewrite app_nil_r. }
  intros s inp stk Hr Hb H8 Hs Hl. cbn [decodeInterface]. unfold st_bind at 1.
  pose proof (Kind_at s inp stk Hr Hb (small_fits _ Hs) H8) as H.
  destruct (stream_Kind s) as [[[k size]|e|] s1] eqn:EK; [| |done].
  2: { destruct H as [H1 H2]. split; [done|]. intros E. by destruct (H2 E). }
  specialize (Hlist s inp stk Hr Hb H8 Hs Hl). specialize (Hstr s inp stk Hr Hb H8 Hs Hl).
  destruct k; (eapply starts_result; [|exact EK|assumption]); autounfold with starts; auto with starts.
Qed.

Lemma good_fields_all ts : good_fields good ts -> Forall (good true) ts.
Proof.
  assert (forall t, good false t -> good true t) as Hm.
  { intros t. destruct t; try done. intros [H Hg]. by split. }
  induction ts as [|t [|t' ts] IH]; [done|..].
  - by repeat constructor.
  - intros [Ht Hts]. constructor; auto.
Qed.

(** What a decoder of a type reads. *)
Definition reads (last : bool) (t : gtype) (v : gval) (b : list Z) : Prop :=
  dec_ok t v b /\ (last = false -> b <> []).

(** A string that holds a scalar. *)
Lemma scalar_sound {A} fuel last t (m : st A) (f : A -> gval) (g : A -> list Z) (P : A -> Prop) :
  dsound true fuel m (fun a b => b = str_enc (g a) /\ P a) ->
  (forall a, P a -> typed t (f a) /\ items t (f a) = Ok [Str (g a)]) ->
  dsound true fuel (do a <- m; st_ret (f a)) (reads last t).
Proof.
  intros Hm Ht. eapply dsound_map; [exact Hm|]. intros a b _ [-> Ha]. destruct (Ht a Ha) as [H1 H2].
  split; [|intros _; apply str_enc_ne]. split; [done|]. intros _. unfold encoding. rewrite H2. cbn. by rewrite app_nil_r.
Qed.

(** A list that holds a composite. *)
Lemma composite_sound fuel last t (m : st (list gval)) (f : list gval -> gval) (P : list gval -> list Z -> Prop) :
  dsound true fuel m (fun l b => exists c, b = header List_ (len c) ++ c /\ P l c) ->
  (forall l c, P l c -> typed t (f l) /\
     (strict t -> exists its, items t (f l) = Ok [Lst its] /\ concat (map enc its) = c)) ->
  dsound true fuel (do l <- m; st_ret (f l)) (reads last t).
Proof.
  intros Hm Ht. eapply dsound_map; [exact Hm|]. intros l b _ (c & -> & HP). destruct (Ht l c HP) as [H1 H2].
  split; [|intros _; by apply header_app_ne]. split; [done|]. intros Hs. destruct (H2 Hs) as (its & E & <-).
  unfold encoding. rewrite E. cbn [res_bind]. by rewrite encoding_Lst.
Qed.

(** The part of a named interface between the ends of its list. *)
Definition namedBody (fuel : nat) (M : Z -> option gtype) : st (Z * gtype * gval) :=
  do typeKind <- catchEOL "too few elements" (decodeUint 16);
  match M typeKind with
  | None => st_err (DecodeError "interface constructor cannot find")
  | Some t => do v <- catchEOL "too few elements" (makeDecoder fuel t); st_ret (typeKind, t, v)
  end.

Lemma named_decoder fuel M s :
  makeDecoder fuel (TTyped M) s =
  (do x <- (do _ <- wrapped stream_List; do x <- namedBody fuel M; do _ <- wrapped ListEnd; st_ret x);
   st_ret (VTyped (Some (fst (fst x), TPtr false (snd (fst x)), VPtr (Some (snd x)))))) s.
Proof.
  cbn [makeDecoder]. unfold namedBody, st_bind. destruct (wrapped stream_List s) as [[size|e|] s1]; [|done|done].
  destruct (catchEOL "too few elements" (decodeUint 16) s1) as [[k|e|] s2]; [|done|done].
  destruct (M k) as [t|]; [|done].
  destruct (catchEOL "too few elements" (makeDecoder fuel t) s2) as [[v|e|] s3]; [|done|done]. cbn.
  by destruct (wrapped ListEnd s3) as [[[]|e|] s4].
Qed.

Definition named_ok (M : Z -> option gtype) (x : Z * gtype * gval) (b : list Z) : Prop :=
  let '(k, t, v) := x in
  is_u16 k /\ M k = Some t /\ exists c, b = enc (uint_item k) ++ c /\ dec_ok t v c.

Lemma namedBody_sound fuel M :
  (forall k t, M k = Some t -> dsound true fuel (makeDecoder fuel t) (dec_ok t)) ->
  dsound false fuel (namedBody fuel M) (named_ok M).
Proof.
  intros IH. unfold namedBody. eapply dsound_bind.
  { eapply dsound_catchEOL, dsound_wrapped, uint_sound. done. }
  intros k b _ [-> Hk]. cbn beta. destruct (M k) as [t|] eqn:E; [|by apply dsound_err].
  eapply dsound_map; [by eapply dsound_catchEOL, IH|]. intros v c _ Hv. cbn. eauto 10.
Qed.

Lemma named_sound fuel last M :
  dsound false fuel (namedBody fuel M) (named_ok M) ->
  dsound true fuel (makeDecoder fuel (TTyped M)) (reads last (TTyped M)).
Proof.
  intros Hb s inp stk Hr Hbd H8 Hs Hl. rewrite named_decoder. revert s inp stk Hr Hbd H8 Hs Hl.
  apply (dsound_map _ _ _ _ (fun x b => exists c, b = header List_ (len c) ++ c /\ named_ok M x c)).
  - eapply dsound_weaken; [apply (list_sound fuel wrapped (fun _ => namedBody fuel M)); [by left|done]|lia|done|done].
  - intros [[k t] v] b _ (c & -> & Hk & HM & d & -> & Ht & Hv). split; [|intros _; by apply header_app_ne].
    split; [done|]. intros Hst. specialize (Hst k). rewrite HM in Hst.
    specialize (Hv Hst). apply res_bind_Ok in Hv as (its & E & Ed). injection Ed as <-.
    unfold encoding. cbn [items fst snd]. rewrite E. cbn [res_bind]. by rewrite encoding_Lst.
Qed.

(** A decoder of a good type is sound, whatever it is asked to read. *)
Lemma decoder_sound fuel t last : good last t -> dsound true fuel (makeDecoder fuel t) (reads last t).
Proof.
  revert last. induction t as [|bits| | | | | |n|tail t IH|n t IH|ts IH|nilOK t IH| |M IH] using gtype_ind';
    intros last Hg; cbn [makeDecoder].
  - eapply dsound_map; [apply Raw_sound|]. intros c b Hb [-> Hne]. repeat split; [done| |done].
    intros _. unfold encoding. cbn. by rewrite app_nil_r.
  - eapply (scalar_sound _ _ _ _ _ _ (fun i => 0 <= i < 2 ^ bits)).
    + eapply dsound_conseq; [by apply dsound_wrapped, uint_sound|]. intros i b _ [-> Hi]. split; [done|done].
    + intros i Hi. destruct Hg as [Hw _]. split; [cbn; lia|done].
  - eapply (scalar_sound _ _ _ _ _ _ (fun _ => True)).
    + eapply dsound_conseq; [apply dsound_wrapped, Bool_sound|]. intros v b _ ->. split; [done|done].
    + done.
  - eapply (scalar_sound _ _ _ _ _ _ (fun i => 0 <= i)).
    + eapply dsound_conseq; [apply BigInt_sound|]. intros i b _ [Hi ->]. split; [done|done].
    + intros i Hi. split; [done|]. cbn. unfold big_items. by rewrite (proj2 (Z.ltb_ge _ _)).
  - eapply (scalar_sound _ _ _ _ _ _ (fun i => 0 <= i)).
    + eapply dsound_conseq; [apply BigInt_sound|]. intros i b _ [Hi ->]. split; [done|done].
    + intros i Hi. split; [done|]. cbn. unfold big_items. by rewrite (proj2 (Z.ltb_ge _ _)).
  - eapply (scalar_sound _ _ _ _ _ _ bytes); [apply dsound_wrapped, Bytes_sound|]. done.
  - eapply (scalar_sound _ _ _ _ _ _ bytes); [apply dsound_wrapped, Bytes_sound|]. done.
  - eapply (scalar_sound _ _ _ _ _ _ (fun b => bytes b /\ length b = n)); [by apply ByteArray_sound|]. done.
  - destruct Hg as [Htail Hg]. specialize (IH false Hg).
    assert (dsound true fuel (makeDecoder fuel t) (fun v b => dec_ok t v b /\ b <> [])) as He.
    { eapply dsound_conseq; [exact IH|]. intros v b _ [? ?]. auto. }
    destruct tail.
    + rewrite (Htail eq_refl). eapply dsound_map.
      { eapply dsound_weaken; [apply (SliceElems_sound dec_ok fuel fuel t _ He)|lia|done|intros l b _ H; exact H]. }
      intros l b _ [Ht Hits]%elems_ok. split; [|done]. split; [done|]. intros Hs. destruct (Hits Hs) as (its & E & <-).
      unfold encoding. cbn [items]. by rewrite E.
    + eapply composite_sound.
      { eapply dsound_weaken; [apply (ListSlice_sound dec_ok fuel fuel t _ ltac:(lia) He)|lia|done|intros l b _ H; exact H]. }
      intros l c [Ht Hits]%elems_ok. split; [done|]. intros Hs. destruct (Hits Hs) as (its & E & Hc).
      exists its. cbn [items]. by rewrite E.
  - eapply composite_sound.
    { eapply dsound_weaken; [|apply (Nat.le_succ_diag_r fuel)|done|intros l b _ H; exact H].
      apply (list_sound fuel wrapped (fun _ => decodeArrayElems n (makeDecoder fuel t))); [by left|]. intros _.
      apply (ArrayElems_sound dec_ok fuel n t). eapply dsound_conseq; [by apply (IH false)|]. by intros v b _ [? _]. }
    intros l c [[Ht Hits]%elems_ok Hn]. split; [done|]. intros Hs. destruct (Hits Hs) as (its & E & Hc).
    exists its. cbn [items]. by rewrite E.
  - eapply composite_sound.
    { eapply dsound_weaken; [|apply (Nat.le_succ_diag_r fuel)|done|intros l b _ H; exact H].
      apply (list_sound fuel wrapped (fun _ => decodeFields (map (makeDecoder fuel) ts))); [by left|]. intros _.
      apply (Fields_sound dec_ok fuel (makeDecoder fuel) ts).
      apply good_fields_all in Hg. rewrite Forall_forall in IH, Hg |- *. intros t Ht.
      eapply dsound_conseq; [by apply (IH t Ht true), Hg|]. by intros v b _ [? _]. }
    intros l c [Ht Hits]%fields_ok. split; [done|]. intros Hs. destruct (Hits Hs) as (its & E & Hc).
    exists its. cbn [items]. by rewrite E.
  - destruct fuel as [|fuel']; [intros s inp stk _ _ _ _ Hl; lia|]. set (fuel := S fuel') in *.
    specialize (IH false Hg). destruct nilOK.
    + eapply dsound_map; [apply OptionalPtr_sound; [apply decoder_starts; [done|lia]|exact IH]|].
      intros [v|] b _; [intros [[Ht _] Hne]|intros Hne]; (split; [|by auto]); (split; [done|]); by intros [? _].
    + eapply dsound_map; [exact IH|]. intros v b _ [[Ht Hv] Hne]. split; [|auto]. split; [done|]. intros [_ Hs]. by apply Hv.
  - eapply dsound_conseq; [apply Interface_sound|]. intros v b _ [? ?]. by split.
  - apply named_sound, namedBody_sound. intros k t E. specialize (Hg k). rewrite E in Hg.
    eapply dsound_conseq; [by apply (IH k t E false)|]. by intros v b _ [? _].
Qed.

(** ** [DecodeBytes] *)

Lemma NewStream_ready b : ready (NewStream b (Z.of_nat (length b))) b [].
Proof. unfold NewStream. rewrite Z.gtb_ltb. destruct (Z.ltb_spec 0 (Z.of_nat (length b))); by repeat split. Qed.

Lemma DecodeBytes_cases t b :
  good false t -> bytes b -> small b ->
  match DecodeBytes t b with
  | Ok v => dec_ok t v b
  | Err e => e <> NoFuel
  | Panic => False
  end.
Proof.
  intros Hg Hb Hs. unfold DecodeBytes, DecodeBytes_fuel.
  pose proof (decoder_sound (S (length b)) t false Hg _ b [] (NewStream_ready b) I Hb Hs ltac:(lia)) as H.
  destruct (makeDecoder (S (length b)) t _) as [[v|e|] s]; [| |done]; cbn [res_bind].
  - destruct H as (c & r & -> & _ & [(-> & _) _] & Hv & _). destruct r as [|x r]; [|by cbn].
    rewrite app_nil_r. done.
  - by destruct H.
Qed.

(** C22: [DecodeBytes] always returns: on bytes of any content it does not panic
    and its loops end within one round per byte, for every type without arrays
    of a single byte. *)
Theorem decoder_total t b :
  good false t -> bytes b -> small b ->
  (exists v, DecodeBytes t b = Ok v) \/ (exists e, DecodeBytes t b = Err e /\ e <> NoFuel).
Proof.
  intros Hg Hb Hs. pose proof (DecodeBytes_cases t b Hg Hb Hs) as H.
  destruct (DecodeBytes t b); [left|right|]; naive_solver.
Qed.

(** C21: What [DecodeBytes] returns is a value of the type it was asked for, if the
    type has no arrays of a single byte: integers within their width, arrays of their length, one value per field,
    interfaces holding what the constructor of their number makes. *)
Theorem decoded_typed t b v :
  good false t -> bytes b -> small b -> DecodeBytes t b = Ok v -> typed t v.
Proof. intros Hg Hb Hs E. pose proof (DecodeBytes_cases t b Hg Hb Hs) as H. rewrite E in H. apply H. Qed.

(** C16: Only canonical bytes are decoded: encoding the decoded value again
    gives the bytes it came from, for every type that has no arrays of a single
    byte and whose fields are not tagged [nil].  So no two byte strings decode to
    one value of such a type. *)
Theorem decoded_canonical t b v :
  good false t -> strict t -> bytes b -> small b -> DecodeBytes t b = Ok v -> EncodeToBytes t v = Ok b.
Proof.
  intros Hg Hst Hb Hs E. pose proof (DecodeBytes_cases t b Hg Hb Hs) as H. rewrite E in H.
  destruct H as [Ht Hv]. apply EncodeToBytes_ok; auto using small_fits.
Qed.

(** ** Where decoding goes wrong *)

(** A decoder that reads nothing is called for ever. *)
Lemma elems_stuck fuel dec s v : dec s = (Ok v, s) -> decodeSliceElems fuel dec s = (Err NoFuel, s).
Proof.
  intros E. induction fuel as [|fuel IH]; [done|]. cbn [decodeSliceElems]. unfold st_catch, st_bind.
  by rewrite E, IH.
Qed.

(** Decoding a slice of one-byte arrays does not end on the two bytes
    [C1 00]: the byte array reads the byte through [Uint], which refuses a zero
    byte and leaves it the value ahead, so that every element of the slice
    reads it again. *)
Theorem one_byte_array_loops fuel :
  DecodeBytes_fuel fuel (TSlice false (TByteArray 1)) [0xC1; 0x00] = Err NoFuel.
Proof.
  set (s1 := mkStream [0] 1 true None 0 0 None [mkPos 0 1]).
  set (s2 := mkStream [] 0 true (Some Byte) 0 0 None [mkPos 1 1]).
  assert (wrapped stream_List (NewStream [0xC1; 0x00] 2) = (Ok 1, s1)) as E1 by done.
  assert (makeDecoder fuel (TByteArray 1) s1 = (Ok (VByteArray [0]), s2)) as E2 by done.
  assert (makeDecoder fuel (TByteArray 1) s2 = (Ok (VByteArray [0]), s2)) as E3 by done.
  assert (fst (decodeSliceElems fuel (makeDecoder fuel (TByteArray 1)) s1) = Err NoFuel) as E.
  { revert E2 E3. generalize (makeDecoder fuel (TByteArray 1)). intros dec E2 E3.
    destruct fuel as [|fuel]; [done|]. cbn [decodeSliceElems]. unfold st_catch, st_bind.
    by rewrite E2, (elems_stuck fuel dec s2 _ E3). }
  unfold DecodeBytes_fuel. cbn [makeDecoder]. unfold st_bind, decodeListSlice, st_bind.
  change (Z.of_nat (length [0xC1; 0x00])) with 2. rewrite E1. cbn [Z.eqb].
  by destruct (decodeSliceElems fuel _ s1) as [[l|e|] s3]; cbn in E |- *; try discriminate; injection E as ->.
Qed.

(** A field tagged [nil] takes any empty value for a nil pointer: an empty
    string and an empty list decode to the same recipient of a transaction, and
    only one of them is what the encoder writes. *)
Theorem nil_field_ambiguous :
  let t := TStruct [TPtr true (TByteArray 20)] in
  DecodeBytes t [0xC1; 0x80] = DecodeBytes t [0xC1; 0xC0] /\
  DecodeBytes t [0xC1; 0xC0] = Ok (VStruct [VPtr None]) /\
  EncodeToBytes t (VStruct [VPtr None]) = Ok [0xC1; 0x80] /\ good false t.
Proof. vm_compute. by repeat split. Qed.

(** ** Instances *)

Definition sample_type : gtype := TStruct [TUint 16; TSlice false TBytes].
Definition sample_bytes : list Z := [0xC6; 0x82; 0x04; 0x00; 0xC2; 0x61; 0x80].
Definition sample_value : gval := VStruct [VUint 1024; VSlice [VBytes [0x61]; VBytes []]].

Lemma sample_good : good false sample_type.
Proof. cbn. unfold width. split_and!; (done || lia). Qed.

Lemma sample_is_bytes : bytes sample_bytes.
Proof. unfold bytes, sample_bytes. repeat constructor; unfold is_u8; lia. Qed.

Lemma decoder_total_witness :
  (exists v, DecodeBytes sample_type sample_bytes = Ok v) \/
  (exists e, DecodeBytes sample_type sample_bytes = Err e /\ e <> NoFuel).
Proof. apply (decoder_total sample_type sample_bytes sample_good sample_is_bytes). reflexivity. Defined.

Lemma decoded_typed_witness : typed sample_type sample_value.
Proof. apply (decoded_typed sample_type sample_bytes sample_value sample_good sample_is_bytes); reflexivity. Defined.

Lemma decoded_canonical_witness : EncodeToBytes sample_type sample_value = Ok sample_bytes.
Proof.
  apply (decoded_canonical sample_type sample_bytes sample_value sample_good); [done|apply sample_is_bytes|reflexivity..].
Defined.
