(* ===== verification/RlpRoundtrip.v ===== *)
(** * Decoding what was encoded

    For the values that have an encoding of their own the decoder gives back the
    value the encoder was given. *)

From stdpp Require Import strings.
From S2P Require Import Rlp RlpStream RlpCodec RlpEncoding RlpDecoding Prelude.

(** ** Complete decoders *)

(** In front of [b] the decoder reads [b] and returns [a]. *)
Definition dcomplete {A} (fuel : nat) (m : st A) (a : A) (b : list Z) : Prop :=
  forall s r stk, ready s (b ++ r) stk -> room stk (len b) -> small (b ++ r) -> (length (b ++ r) < fuel)%nat ->
                  exists s', m s = (Ok a, s') /\ ready s' r (adv stk (len b)).

Lemma small_app b c : small (b ++ c) -> small b /\ small c.
Proof. unfold small. rewrite len_app. pose proof (len_nonneg b). pose proof (len_nonneg c). lia. Qed.

Lemma dcomplete_ret {A} fuel (a : A) : dcomplete fuel (st_ret a) a [].
Proof. intros s r stk Hr _ _ _. exists s. change (len []) with 0. by rewrite adv_0. Qed.

Lemma dcomplete_bind {A B} fuel (m : st A) (k : A -> st B) a b c d :
  dcomplete fuel m a b -> dcomplete fuel (k a) c d -> dcomplete fuel (st_bind m k) c (b ++ d).
Proof.
  intros Hm Hk s r stk Hr Hro Hs Hl. rewrite <- app_assoc in *. rewrite len_app in *.
  destruct (room_split _ _ _ (len_nonneg b) (len_nonneg d) Hro) as [H1 H2].
  destruct (Hm s (d ++ r) stk Hr H1 Hs Hl) as (s1 & E1 & Hr1). unfold st_bind. rewrite E1.
  destruct (Hk s1 r _ Hr1 H2) as (s2 & E2 & Hr2); [by apply small_app in Hs as [_ ?]|rewrite length_app in Hl; lia|].
  exists s2. by rewrite <- adv_adv.
Qed.

Lemma dcomplete_map {A B} fuel (m : st A) (f : A -> B) a b :
  dcomplete fuel m a b -> dcomplete fuel (do a <- m; st_ret (f a)) (f a) b.
Proof. intros Hm. rewrite <- (app_nil_r b). eapply dcomplete_bind; [exact Hm|apply dcomplete_ret]. Qed.

Lemma dcomplete_wrapped {A} fuel (m : st A) a b : dcomplete fuel m a b -> dcomplete fuel (wrapped m) a b.
Proof.
  intros Hm s r stk Hr Hro Hs Hl. destruct (Hm s r stk Hr Hro Hs Hl) as (s1 & E & Hr1).
  exists s1. unfold wrapped, st_catch. by rewrite E.
Qed.

Lemma dcomplete_catchEOL {A} fuel msg (m : st A) a b : dcomplete fuel m a b -> dcomplete fuel (catchEOL msg m) a b.
Proof.
  intros Hm s r stk Hr Hro Hs Hl. destruct (Hm s r stk Hr Hro Hs Hl) as (s1 & E & Hr1).
  exists s1. unfold catchEOL, st_catch. by rewrite E.
Qed.

Lemma dcomplete_le {A} fuel fuel' (m : st A) a b : (fuel' <= fuel)%nat -> dcomplete fuel m a b -> dcomplete fuel' m a b.
Proof. intros Hf Hm s r stk Hr Hro Hs Hl. apply (Hm s r stk Hr Hro Hs). lia. Qed.

(** ** The header *)

Lemma readUint_ok s i r stk :
  at_ s (putint i ++ r) stk -> is_u64 i -> i <> 0 -> room stk (len (putint i)) -> fits (putint i ++ r) ->
  exists s', readUint (len (putint i)) s = (Ok i, s') /\ ready s' r (adv stk (len (putint i))).
Proof.
  intros Hat Hu H0 Hro Hf. pose proof (putint_length i Hu) as Hl. unfold readUint.
  destruct (Z.eqb_spec (len (putint i)) 0) as [E|_]; [unfold len in E; lia|].
  destruct (Z.eqb_spec (len (putint i)) 1) as [E|_].
  - destruct (putint i) as [|x [|y t]] eqn:Ep; unfold len in E; cbn in E; try lia.
    assert (i = x) as ->.
    { rewrite <- (be_value_putint i Hu), Ep. unfold be_value. cbn. by rewrite Z.lor_0_l. }
    destruct (readByte_ok s x r stk Hat Hro Hf) as (s' & E1 & Hr & _). eauto.
  - rewrite Z.gtb_ltb, (proj2 (Z.ltb_ge _ _)) by (unfold len; lia). unfold st_bind.
    destruct (readFull_ok s (putint i) r stk Hat Hro Hf) as (s' & -> & Hr & _).
    destruct (putint_head i Hu H0) as (x & t & Ep & Hx). exists s'. split; [|done].
    rewrite Ep. destruct (Z.eqb_spec x 0); [done|]. rewrite <- Ep. unfold st_ret. by rewrite be_value_putint.
Qed.

Lemma readLong_ok s k size r stk :
  at_ s (putint size ++ r) stk -> is_u64 size -> 56 <= size -> room stk (len (putint size)) ->
  fits (putint size ++ r) ->
  exists s', readLong k (len (putint size)) s = (Ok (k, size, None), s') /\ ready s' r (adv stk (len (putint size))).
Proof.
  intros Hat Hu H56 Hro Hf. unfold readLong, st_catch.
  destruct (readUint_ok s size r stk Hat Hu ltac:(lia) Hro Hf) as (s' & -> & Hr). exists s'.
  by rewrite (proj2 (Z.ltb_ge _ _)).
Qed.

(** The first byte of a header and the bytes of its size. *)
Lemma header_shape k size :
  k <> Byte -> is_u64 size ->
  (size < 56 /\ header k size = [match k with List_ => 0xC0 | _ => 0x80 end + size]) \/
  (56 <= size /\ header k size = (match k with List_ => 0xF7 | _ => 0xB7 end + len (putint size)) :: putint size).
Proof.
  intros Hk Hu. pose proof (putint_length size Hu). destruct (Z.lt_ge_cases size 56) as [H1|H1]; [left|right];
    (split; [done|]); unfold is_u64 in Hu; destruct k; try done; cbn [header];
    first [rewrite puthead_short by lia | rewrite puthead_long by (done || lia)]; done.
Qed.

Lemma readKind_ok s k size h x r stk :
  at_ s (h ++ r) stk -> head_of k size h x -> room stk (len h) -> fits (h ++ r) ->
  exists s', stream_readKind s = (Ok (k, size, None), s') /\ ready s' r (adv stk (len h)) /\
             (k = Byte -> byteval s' = x).
Proof.
  intros Hat Hh Hro Hf. unfold stream_readKind, st_catch.
  assert (k <> Byte -> h = header k size /\ is_u64 size) as Hlong by by destruct k.
  destruct (decide (k = Byte)) as [->|Hk].
  { destruct Hh as (-> & -> & Hx). destruct (readByte_ok s x r stk Hat Hro Hf) as (s1 & -> & Hr1 & _).
    unfold st_bind. rewrite (proj2 (Z.ltb_lt x 0x80)) by lia. eexists. split; [done|]. by split. }
  destruct (Hlong Hk) as [-> Hu]. pose proof (putint_length size Hu) as Hpl.
  destruct (header_shape k size Hk Hu) as [[H56 E]|[H56 E]]; rewrite E in *; cbn [app] in *.
  - destruct (readByte_ok s _ r stk Hat Hro Hf) as (s1 & -> & [Hat1 Hk1] & _). unfold st_bind. unfold is_u64 in Hu.
    exists (set_byteval 0 s1). destruct k; [done|..]; settle_if; rewrite u8_small by (unfold is_u8; lia);
      by rewrite Z.add_simpl_l.
  - set (b := match k with List_ => 0xF7 | _ => 0xB7 end + len (putint size)) in *.
    assert (len (b :: putint size) = 1 + len (putint size)) as El by (unfold len; cbn; lia). rewrite El in *.
    destruct (room_split stk 1 _ ltac:(lia) (len_nonneg _) Hro) as [H1 H2].
    destruct (readByte_ok s b _ stk Hat H1 Hf) as (s1 & -> & [Hat1 Hk1] & _). unfold st_bind.
    assert (fits (putint size ++ r)) as Hf' by (unfold fits in *; cbn in Hf; lia).
    destruct (readLong_ok (set_byteval 0 s1) k size r _ Hat1 Hu H56 H2 Hf') as (s2 & E2 & Hr2). rewrite adv_adv in Hr2.
    exists s2. split; [|done]. unfold len in *. subst b.
    destruct k; [done|..]; settle_if; rewrite u8_small by (unfold is_u8; lia); by rewrite Z.add_simpl_l.
Qed.

Lemma head_of_ne k size h x : head_of k size h x -> 0 < len h.
Proof.
  intros Hh. assert (h <> []) as Hne.
  { destruct k; cbn [head_of] in Hh; [by destruct Hh as (_ & -> & _)|..]; destruct Hh as [-> _]; by apply header_ne. }
  unfold len. destruct h; [done|]. cbn. lia.
Qed.

Lemma Kind_ok s k size h x r stk :
  ready s (h ++ r) stk -> head_of k size h x -> 0 <= size <= len r -> room stk (len h + size) -> small (h ++ r) ->
  exists s', stream_Kind s = (Ok (k, size), s') /\ held s' r (adv stk (len h)) k size /\ (k = Byte -> byteval s' = x).
Proof.
  intros [Hat Hk] Hh Hsz Hro Hs. unfold stream_Kind. rewrite Hk.
  set (s1 := set_ahead None (ssize s) None s). cbn zeta. pose proof (head_of_ne _ _ _ _ Hh) as Hpos.
  pose proof Hat as (_ & _ & _ & Hstk).
  replace (match stack s1 with [] => false | tos :: _ => lp_pos tos =? lp_size tos end) with false.
  2: { cbn [stack s1 set_ahead]. rewrite Hstk. destruct stk as [|p stk]; [done|]. cbn in Hro. symmetry.
       apply Z.eqb_neq. lia. }
  destruct (readKind_ok s1 k size h x r stk Hat Hh (room_h _ _ _ Hro (proj1 Hsz)) (small_fits _ Hs))
    as (s2 & E & [(Hi & Hr & Hl & Hs2) Hk2] & Hv).
  unfold st_bind. rewrite E.
  assert (overrun s2 size = None) as ->.
  { unfold overrun. rewrite Hs2, Hl, Hr. unfold small, len in *. destruct stk as [|p stk]; cbn in *.
    - by rewrite Z.gtb_ltb, (proj2 (Z.ltb_ge _ _)) by lia.
    - rewrite u64_small by (unfold is_u64; lia). by rewrite Z.gtb_ltb, (proj2 (Z.ltb_ge _ _)) by lia. }
  eexists. split; [done|]. split; [|done]. by repeat split.
Qed.

(** A decoder that looks at the header [h] of [h ++ c]. *)
Lemma Kind_complete {A} fuel (f : Kind -> Z -> st A) a k h c x :
  head_of k (len c) h x \/ (k = Byte /\ h = [x] /\ c = [] /\ 0 <= x < 0x80) ->
  (forall s' r stk, held s' (c ++ r) (adv stk (len h)) k (len c) -> room stk (len h + len c) ->
     (k = Byte -> byteval s' = x) -> small (h ++ c ++ r) ->
     exists s'', f k (len c) s' = (Ok a, s'') /\ ready s'' r (adv stk (len h + len c))) ->
  dcomplete fuel (do (k, size) <- stream_Kind; f k size) a (h ++ c).
Proof.
  intros Hh Hf s r stk Hr Hro Hs Hl. rewrite <- app_assoc in *. rewrite len_app in *.
  assert (head_of k (len c) h x) as Hh' by (destruct Hh as [?|(-> & -> & -> & ?)]; [done|]; split; [done|]; split; done).
  pose proof (len_nonneg r). pose proof (len_nonneg c).
  destruct (Kind_ok s k (len c) h x (c ++ r) stk Hr Hh' ltac:(rewrite len_app; lia) Hro Hs) as (s' & E & Hheld & Hv).
  unfold st_bind. rewrite E. by apply Hf.
Qed.

Lemma readFull_complete s' c r stk h k :
  held s' (c ++ r) (adv stk (len h)) k (len c) -> room stk (len h + len c) -> small (h ++ c ++ r) ->
  exists s'', readFull (len c) s' = (Ok c, s'') /\ ready s'' r (adv stk (len h + len c)).
Proof.
  intros [Hat _] Hro Hs. destruct (room_split _ _ _ (len_nonneg h) (len_nonneg c) Hro) as [_ H2].
  apply small_app in Hs as [_ Hs]. destruct (readFull_ok s' c r _ Hat H2 (small_fits _ Hs)) as (s'' & E & Hr & _).
  exists s''. by rewrite <- adv_adv.
Qed.

(** A string is a byte of its own or has a header. *)
Lemma str_cases c : bytes c -> (exists x, c = [x] /\ 0 <= x < 0x80) \/ token_ok String_ c.
Proof.
  intros Hc. destruct c as [|x [|y c]]; [by right| |by right].
  apply Forall_cons in Hc as [Hx _]. unfold is_u8 in Hx. destruct (Z.lt_ge_cases x 0x80); [left; eauto with lia|right].
  by intros ? [= <-].
Qed.

(** A decoder that takes the byte [x] of its own. *)
Lemma Byte_complete {A} fuel (f : Kind -> Z -> st A) a x :
  0 <= x < 0x80 ->
  (forall s' r stk, at_ s' r stk -> kind s' = Some Byte -> ssize s' = 0 -> kinderr s' = None -> byteval s' = x ->
     exists s'', f Byte 0 s' = (Ok a, s'') /\ ready s'' r stk) ->
  dcomplete fuel (do (k, size) <- stream_Kind; f k size) a [x].
Proof.
  intros Hx Hf. rewrite <- (app_nil_r [x]). apply (Kind_complete fuel _ a Byte [x] [] x); [by right|].
  intros s' r stk (Hat & Hk & Hsz & He) Hro Hv Hs. change (len []) with 0 in *. rewrite Z.add_0_r.
  apply Hf; auto.
Qed.

Lemma Bytes_complete fuel c : bytes c -> small c -> dcomplete fuel stream_Bytes c (str_enc c).
Proof.
  intros Hc Hsm. destruct (str_cases c Hc) as [(x & -> & Hx)|Ht].
  { rewrite str_enc_byte by lia. apply Byte_complete; [done|]. intros s' r stk Hat _ _ _ Hv.
    eexists. split; [|by apply at_rearm]. cbn. by rewrite Hv. }
  rewrite str_enc_long by done. apply (Kind_complete fuel _ c String_ _ c 0).
  { left. split; [done|]. apply fits_u64, small_fits, Hsm. }
  intros s' r stk Hheld Hro _ Hs. rewrite (make_bytes_ok (len c) (header String_ (len c)) (c ++ r));
    [|rewrite len_app; pose proof (len_nonneg r); lia|exact Hs].
  destruct (readFull_complete _ _ _ _ _ _ Hheld Hro Hs) as (s'' & E & Hr). exists s''. split; [|done].
  unfold st_bind. rewrite E. destruct c as [|b0 [|b1 c]]; [done|..].
  - rewrite (proj2 (Z.ltb_ge b0 128)) by by apply Ht. by rewrite andb_false_r.
  - destruct (Z.eqb_spec (len (b0 :: b1 :: c)) 1) as [E1|]; [unfold len in E1; cbn in E1; lia|done].
Qed.

Lemma Raw_complete fuel k c : token_ok k c -> bytes c -> small c -> dcomplete fuel stream_Raw (token k c) (token k c).
Proof.
  intros Ht Hc Hsm. destruct (decide (k = Byte)) as [->|Hk].
  { destruct Ht as (x & -> & Hx). apply Forall_cons in Hc as [Hx8 _]. unfold is_u8 in Hx8. cbn [token].
    rewrite str_enc_byte by lia. apply Byte_complete; [lia|]. intros s' r stk Hat _ _ _ Hv.
    eexists. split; [|by apply at_rearm]. cbn. by rewrite Hv. }
  rewrite token_header by done. apply (Kind_complete fuel _ _ k _ c 0).
  { left. destruct k; [done|..]; (split; [done|]); apply fits_u64, small_fits, Hsm. }
  intros s' r stk Hheld Hro _ Hs. change (Z.of_nat (length c)) with (len c) in *.
  assert (headsize (len c) = len (header k (len c))) as El.
  { destruct k; [done|..]; symmetry; apply length_puthead, fits_u64, small_fits, Hsm. }
  pose proof Hs as Hs'. unfold small in Hs'. rewrite !len_app in Hs'.
  pose proof (len_nonneg (header k (len c))). pose proof (len_nonneg c). pose proof (len_nonneg r).
  replace (match k with Byte => _ | _ => _ end) with (
    do _ <- make_bytes (u64 (headsize (len c) + len c));
    if u64 (headsize (len c) + len c) <? headsize (len c) then st_panic
    else do b <- readFull (u64 (headsize (len c) + len c) - headsize (len c)); st_ret (header k (len c) ++ b)) by by destruct k.
  rewrite El, u64_small by (unfold is_u64; lia).
  rewrite (make_bytes_ok _ [] (header k (len c) ++ c ++ r)) by (rewrite ?len_app; lia || exact Hs).
  rewrite (proj2 (Z.ltb_ge _ _)), Z.add_simpl_l by lia.
  destruct (readFull_complete _ _ _ _ _ _ Hheld Hro Hs) as (s'' & E & Hr). exists s''. unfold st_bind. by rewrite E.
Qed.

Lemma putint_bits i bits : width bits -> 0 <= i < 2 ^ bits -> i <> 0 -> len (putint i) <= bits / 8.
Proof.
  intros [Hw Hm] Hi H0. assert (is_u64 i) as Hu by (apply (typed_uint bits); lia).
  destruct (putint_spec i Hu) as (n & Hn & -> & Hlt & Hge). unfold len. rewrite length_be_bytes.
  destruct (Z.le_gt_cases (Z.of_nat n) (bits / 8)) as [|Hgt]; [done|exfalso].
  pose proof (Z.div_mod bits 8). destruct Hge as [->|Hge]; [lia|].
  pose proof (Z.pow_le_mono_r 2 bits (8 * (Z.of_nat n - 1))). lia.
Qed.

Lemma uint_complete fuel bits i :
  width bits -> 0 <= i < 2 ^ bits -> dcomplete fuel (stream_uint bits) i (enc (uint_item i)).
Proof.
  intros Hw Hi. assert (is_u64 i) as Hu by (apply (typed_uint bits); destruct Hw; lia).
  destruct (Z.lt_ge_cases i 128) as [H128|H128].
  - destruct (Z.eq_dec i 0) as [->|H0].
    + change (enc (uint_item 0)) with (header String_ (len []) ++ []). apply (Kind_complete fuel _ 0 String_ _ [] 0).
      { by left. }
      intros s' r stk [Hat _] _ _ _. change (len []) with 0. rewrite Z.add_0_r.
      rewrite Z.gtb_ltb, (proj2 (Z.ltb_ge _ _)) by (apply Z.div_pos; destruct Hw; lia).
      eexists. split; [done|]. by apply at_rearm.
    + rewrite uint_item_small by lia. apply Byte_complete; [lia|]. intros s' r stk Hat _ _ _ Hv.
      exists (set_kind None s'). rewrite Hv. destruct (Z.eqb_spec i 0); [done|]. split; [done|by apply at_rearm].
  - assert (i <> 0) as H0 by lia. pose proof (putint_length i Hu) as Hpl.
    unfold uint_item. cbn [enc]. destruct (Z.eqb_spec i 0); [done|].
    rewrite str_enc_long.
    2: { intros x E. rewrite <- (be_value_putint i Hu), E in H128. exact H128. }
    apply (Kind_complete fuel _ i String_ _ (putint i) 0).
    { left. split; [done|]. unfold is_u64, len. lia. }
    intros s' r stk [Hat _] Hro _ Hs. destruct (room_split _ _ _ (len_nonneg _) (len_nonneg _) Hro) as [_ H2].
    pose proof (putint_bits i bits Hw Hi H0) as Hb. rewrite Z.gtb_ltb, (proj2 (Z.ltb_ge _ _)) by done.
    rewrite u8_small by (unfold is_u8, len; lia). unfold st_catch. apply small_app in Hs as [_ Hs].
    destruct (readUint_ok s' i r _ Hat Hu H0 H2 (small_fits _ Hs)) as (s'' & E & Hr). rewrite E. exists s''.
    rewrite (proj2 (Z.ltb_ge i 128)), andb_false_r by lia. by rewrite <- adv_adv.
Qed.

Lemma Bool_complete fuel v : dcomplete fuel stream_Bool v (enc (Str (if v then [1] else []))).
Proof.
  unfold stream_Bool. rewrite <- (app_nil_r (enc _)). apply (dcomplete_bind fuel _ _ (if v then 1 else 0)).
  - replace (enc (Str (if v then [1] else []))) with (enc (uint_item (if v then 1 else 0))) by by destruct v.
    apply uint_complete; [done|]. destruct v; lia.
  - destruct v; apply dcomplete_ret.
Qed.

Lemma bigBytes_spec i : 0 <= i -> be_value (bigBytes i) = i /\ bytes (bigBytes i) /\
  (bigBytes i = [] \/ exists x t, bigBytes i = x :: t /\ x <> 0).
Proof.
  intros Hi. unfold bigBytes. destruct (Z.leb_spec i 0) as [H|H].
  { replace i with 0 by lia. split_and!; [done|constructor|by left]. }
  pose proof (Z.log2_spec i H) as [Hlo Hhi]. pose proof (Z.log2_nonneg i) as Hn.
  pose proof (Z.div_mod (Z.log2 i) 8) as Hd. pose proof (Z.mod_pos_bound (Z.log2 i) 8) as Hm.
  set (q := Z.log2 i / 8) in *. assert (0 <= q) by (apply Z.div_pos; lia).
  replace (Z.to_nat (q + 1)) with (S (Z.to_nat q)) by lia.
  assert (i < 2 ^ (8 * Z.of_nat (S (Z.to_nat q)))) as Hlt.
  { eapply Z.lt_le_trans; [exact Hhi|]. apply Z.pow_le_mono_r; lia. }
  split_and!; [rewrite be_value_be_bytes by lia; apply Z.mod_small; lia|apply be_bytes_u8|right].
  cbn [be_bytes]. do 2 eexists. split; [done|]. rewrite Z2Nat.id, Z.shiftr_div_pow2 by lia.
  rewrite u8_small.
  - pose proof (Z.div_str_pos i (2 ^ (8 * q))). pose proof (Z.pow_le_mono_r 2 (8 * q) (Z.log2 i)).
    pose proof (Z.pow_pos_nonneg 2 (8 * q)). lia.
  - split; [apply Z.div_pos; lia|]. apply Z.div_lt_upper_bound; [lia|]. rewrite <- Z.pow_add_r by lia.
    eapply Z.lt_le_trans; [exact Hlt|]. apply Z.pow_le_mono_r; lia.
Qed.

Lemma BigInt_complete fuel i :
  0 <= i -> small (bigBytes i) -> dcomplete fuel decodeBigInt i (enc (Str (bigBytes i))).
Proof.
  intros Hi Hs. destruct (bigBytes_spec i Hi) as (Hv & Hb & Hlead). unfold decodeBigInt.
  rewrite <- (app_nil_r (enc _)). apply (dcomplete_bind fuel _ _ (bigBytes i)).
  { apply dcomplete_wrapped. by apply Bytes_complete. }
  destruct Hlead as [E|(x & t & E & Hx)]; rewrite E in *.
  - rewrite Hv. apply dcomplete_ret.
  - destruct (Z.eqb_spec x 0); [done|]. rewrite Hv. apply dcomplete_ret.
Qed.

Lemma ByteArray_complete fuel c :
  length c <> 1%nat -> bytes c -> small c -> dcomplete fuel (decodeByteArray (length c)) c (str_enc c).
Proof.
  intros Hn Hc Hsm. assert (token_ok String_ c) as Ht by (intros x ->; done). rewrite str_enc_long by done.
  apply (Kind_complete fuel _ c String_ _ c 0).
  { left. split; [done|]. apply fits_u64, small_fits, Hsm. }
  intros s' r stk Hheld Hro _ Hs. change (Z.of_nat (length c)) with (len c) in *. cbn zeta.
  rewrite Z.gtb_ltb, Z.ltb_irrefl.
  destruct (readFull_complete _ _ _ _ _ _ Hheld Hro Hs) as (s'' & E & Hr). exists s''. unfold st_bind. rewrite E.
  destruct (Z.eqb_spec (len c) 1) as [E1|_]; [unfold len in E1; lia|]. by destruct c.
Qed.

(** ** Lists *)

(** The decoder reads the rest [c] of the list it is in. *)
Definition bcomplete {A} (fuel : nat) (m : st A) (a : A) (c : list Z) : Prop :=
  forall s r p stk, ready s (c ++ r) (mkPos p (p + len c) :: stk) -> 0 <= p -> p + len c < 2 ^ 64 ->
    small (c ++ r) -> (length (c ++ r) < fuel)%nat ->
    exists s', m s = (Ok a, s') /\ ready s' r (mkPos (p + len c) (p + len c) :: stk).

Lemma dcomplete_bcomplete {A} fuel (m : st A) a c : dcomplete fuel m a c -> bcomplete fuel m a c.
Proof.
  intros Hm s r p stk Hr Hp Hlt Hs Hl. pose proof (len_nonneg c).
  destruct (Hm s r _ Hr ltac:(cbn; lia) Hs Hl) as (s' & E & Hr'). by exists s'.
Qed.

Lemma bcomplete_bind {A B} fuel (m : st A) (k : A -> st B) a b c d :
  dcomplete fuel m a b -> bcomplete fuel (k a) c d -> bcomplete fuel (st_bind m k) c (b ++ d).
Proof.
  intros Hm Hk s r p stk Hr Hp Hlt Hs Hl. rewrite <- app_assoc in *. rewrite len_app in *.
  pose proof (len_nonneg b). pose proof (len_nonneg d).
  destruct (Hm s (d ++ r) _ Hr ltac:(cbn; lia) Hs Hl) as (s1 & E1 & Hr1). unfold st_bind. rewrite E1.
  cbn [adv lp_pos lp_size] in Hr1. rewrite Z.add_assoc in *.
  apply (Hk s1 r (p + len b) stk Hr1); [lia|lia|by apply small_app in Hs as [_ ?]|rewrite length_app in Hl; lia].
Qed.

Lemma bcomplete_map {A B} fuel (m : st A) (f : A -> B) a c :
  bcomplete fuel m a c -> bcomplete fuel (do a <- m; st_ret (f a)) (f a) c.
Proof.
  intros Hm s r p stk Hr Hp Hlt Hs Hl. destruct (Hm s r p stk Hr Hp Hlt Hs Hl) as (s' & E & Hr').
  exists s'. unfold st_bind. by rewrite E.
Qed.

Lemma bcomplete_catchEOL {A} fuel msg (m : st A) a c : bcomplete fuel m a c -> bcomplete fuel (catchEOL msg m) a c.
Proof.
  intros Hm s r p stk Hr Hp Hlt Hs Hl. destruct (Hm s r p stk Hr Hp Hlt Hs Hl) as (s' & E & Hr').
  exists s'. unfold catchEOL, st_catch. by rewrite E.
Qed.

Lemma list_complete {A} fuel (w : st () -> st ()) (m : Z -> st A) l c :
  (w = wrapped \/ w = (fun m => m)) -> small c -> bcomplete fuel (m (len c)) l c ->
  dcomplete (S fuel) (do size <- wrapped stream_List; do l <- m size; do _ <- w ListEnd; st_ret l) l
    (header List_ (len c) ++ c).
Proof.
  intros Hw Hc Hm s r stk Hr Hro Hs Hl. rewrite <- app_assoc in *. rewrite len_app in *.
  set (h := header List_ (len c)) in *. pose proof (len_nonneg c) as H0. pose proof (len_nonneg r).
  destruct (Kind_ok s List_ (len c) h 0 (c ++ r) stk Hr) as (s1 & E1 & [(Hi & Hrem & Hlim & Hstk) _] & _);
    [split; [done|apply fits_u64, small_fits, Hc]|rewrite len_app; lia|done|done|].
  unfold st_bind at 1. unfold wrapped at 1, st_catch, stream_List. unfold st_bind at 1. rewrite E1. cbn [res_wrap st_res].
  set (s2 := set_ahead _ _ _ _). assert (ready s2 (c ++ r) (mkPos 0 (0 + len c) :: adv stk (len h))) as Hr2.
  { repeat split; cbn; try done. by rewrite Hstk. }
  assert (0 < len h) by (eapply (head_of_ne List_ (len c) h 0); split; [done|apply fits_u64, small_fits, Hc]).
  destruct (Hm s2 r 0 _ Hr2 ltac:(lia)) as (s3 & E3 & Hr3);
    [unfold small in *; rewrite !len_app in Hs; lia|by apply small_app in Hs as [_ ?]
    |rewrite length_app in Hl; unfold len in *; lia|].
  unfold st_res. unfold st_bind at 1. rewrite E3. rewrite Z.add_0_l in Hr3.
  destruct (ListEnd_at s3 r stk (len c) (len h) (len c) Hr3 ltac:(lia) H0 Hro) as (s4 & Hr4 & E4).
  rewrite Z.eqb_refl in E4. exists s4. unfold st_bind.
  destruct Hw as [->| ->]; [unfold wrapped, st_catch|]; by rewrite E4.
Qed.

(** ** The end of a list *)

(** At the end of the list the decoder reports it and has read nothing. *)
Definition ends {A} (m : st A) : Prop :=
  forall s s', stream_Kind s = (Err EOL, s') -> exists s'', m s = (Err EOL, s'') /\ (s'' = s' \/ s'' = set_kind None s').

Lemma ends_Kind : ends stream_Kind.
Proof. intros s s' E. eauto. Qed.

Lemma ends_bind {A B} (m : st A) (k : A -> st B) : ends m -> ends (st_bind m k).
Proof. intros H s s' E. destruct (H s s' E) as (s'' & E' & ?). exists s''. unfold st_bind. by rewrite E'. Qed.

Lemma ends_wrapped {A} (m : st A) : ends m -> ends (wrapped m).
Proof. intros H s s' E. destruct (H s s' E) as (s'' & E' & ?). exists s''. unfold wrapped, st_catch. by rewrite E'. Qed.

Lemma ends_OptionalPtr m : ends (decodeOptionalPtr m).
Proof.
  intros s s' E. unfold decodeOptionalPtr, st_catch. rewrite E. exists (set_kind None s'). split; [done|by right].
Qed.

Create HintDb ends.
#[export] Hint Resolve ends_Kind ends_bind ends_wrapped ends_OptionalPtr : ends.
#[export] Hint Unfold stream_List stream_Bytes stream_Raw stream_uint stream_Bool decodeUint decodeBool
  decodeByteSlice decodeBigInt decodeByteArray decodeListSlice decodeListArray decodeStruct : ends.

Lemma decoder_ends fuel t : good false t -> (0 < fuel)%nat -> ends (makeDecoder fuel t).
Proof.
  intros Hg Hf. induction t as [|bits| | | | | |n|tail t IH|n t IH|ts IH|nilOK t IH| |M IH] using gtype_ind';
    cbn [makeDecoder]; autounfold with ends; auto 10 with ends.
  - destruct tail; [by pose proof (proj1 Hg eq_refl)|]. autounfold with ends. auto 10 with ends.
  - destruct nilOK; auto 10 with ends.
  - destruct fuel; [lia|]. cbn [decodeInterface]. auto with ends.
Qed.

Lemma Kind_at_end s inp p stk :
  ready s inp (mkPos p p :: stk) -> exists s', stream_Kind s = (Err EOL, s') /\ ready s' inp (mkPos p p :: stk).
Proof.
  intros [(Hi & Hr & Hl & Hs) Hk]. unfold stream_Kind. rewrite Hk. cbn [stack set_ahead]. rewrite Hs.
  cbn [lp_pos lp_size]. rewrite Z.eqb_refl. eexists. split; [done|]. by repeat split.
Qed.

Lemma SliceElems_complete (P : gtype -> gval -> list Z -> Prop) fuel n t dec l b :
  ends dec -> (forall v b, P t v b -> dcomplete fuel dec v b /\ b <> []) -> elems_rel P t l b ->
  bcomplete (n `min` fuel) (decodeSliceElems n dec) l b.
Proof.
  intros He HP. revert l b. induction n as [|n IH]; intros l b Hrel s r p stk Hr Hp Hlt Hs Hl; [lia|].
  cbn [decodeSliceElems]. unfold st_catch. destruct l as [|v l]; cbn [elems_rel] in Hrel.
  - subst b. change (len []) with 0 in *. rewrite Z.add_0_r in *. destruct (Kind_at_end _ _ _ _ Hr) as (s' & E & Hr').
    destruct (He s s' E) as (s'' & E' & Hs''). rewrite E'. exists s''. split; [done|].
    destruct Hs'' as [->| ->]; [done|]. destruct Hr' as [Hat _]. by apply at_rearm.
  - destruct Hrel as (b1 & b2 & -> & Hv & Hrel). destruct (HP v b1 Hv) as [Hd Hne].
    rewrite <- app_assoc in *. rewrite len_app in *. pose proof (len_nonneg b1). pose proof (len_nonneg b2).
    assert (0 < length b1)%nat by (destruct b1; [done|cbn; lia]).
    destruct (Hd s (b2 ++ r) _ Hr ltac:(cbn; lia) Hs ltac:(lia)) as (s1 & E1 & Hr1). rewrite E1.
    cbn [adv lp_pos lp_size] in Hr1. rewrite Z.add_assoc in *. rewrite length_app in Hl.
    destruct (IH l b2 Hrel s1 r (p + len b1) stk Hr1) as (s2 & E2 & Hr2);
      [lia|lia|by apply small_app in Hs as [_ ?]|lia|].
    exists s2. unfold st_bind. by rewrite E2.
Qed.

Lemma ListSlice_complete (P : gtype -> gval -> list Z -> Prop) fuel n t dec l c :
  (fuel <= n)%nat -> ends dec -> (forall v b, P t v b -> dcomplete fuel dec v b /\ b <> []) ->
  elems_rel P t l c -> small c ->
  dcomplete (S fuel) (decodeListSlice n dec) l (header List_ (len c) ++ c).
Proof.
  intros Hn He HP Hrel Hc.
  assert (bcomplete fuel (if len c =? 0 then st_ret [] else decodeSliceElems n dec) l c) as Hb.
  { destruct (Z.eqb_spec (len c) 0) as [E|_].
    - destruct c; [|unfold len in E; cbn in E; lia].
      destruct l as [|v l]; [apply dcomplete_bcomplete, dcomplete_ret|].
      destruct Hrel as (b1 & b2 & E' & Hv & _). symmetry in E'. apply app_nil in E' as [-> _].
      by destruct (HP v [] Hv).
    - intros s r p stk Hr Hp Hlt Hs Hl. eapply (SliceElems_complete P fuel n); [done..|lia]. }
  intros s r stk Hr Hro Hs Hl.
  destruct (list_complete fuel (fun m => m) (fun size => if size =? 0 then st_ret [] else decodeSliceElems n dec)
    l c (or_intror eq_refl) Hc Hb s r stk Hr Hro Hs Hl) as (s' & E & Hr').
  exists s'. split; [|done]. unfold decodeListSlice. unfold st_bind at 1. unfold st_bind at 1 in E.
  destruct (wrapped stream_List s) as [[size|e|] s1]; [|done|done]. by destruct (size =? 0).
Qed.

Lemma ArrayElems_complete (P : gtype -> gval -> list Z -> Prop) fuel t dec l b :
  (forall v b, P t v b -> dcomplete fuel dec v b) -> elems_rel P t l b ->
  dcomplete fuel (decodeArrayElems (length l) dec) l b.
Proof.
  intros HP. revert b. induction l as [|v l IH]; cbn [elems_rel length decodeArrayElems].
  - intros b ->. apply dcomplete_ret.
  - intros b (b1 & b2 & -> & Hv & Hrel). eapply dcomplete_bind; [by apply dcomplete_catchEOL, HP|].
    by apply (dcomplete_map fuel _ (fun l => v :: l)), IH.
Qed.

(** ** Values with an encoding of their own *)

(** A raw value is one encoded value; a pointer is nil only where nil is
    written as an empty value, and then only nil is; an interface holds what the
    decoder puts into one. *)
Fixpoint stable (t : gtype) (v : gval) {struct v} : Prop :=
  match t, v with
  | TRaw, VRaw b => exists k c, token_ok k c /\ bytes c /\ b = token k c
  | TBig, VBig i => 0 <= i
  | TBigPtr, VBigPtr o => match o with Some i => 0 <= i | None => False end
  | TSlice _ t, VSlice l | TArray _ t, VArray l => all_elems stable t l
  | TStruct ts, VStruct l => all_fields stable ts l
  | TPtr nilOK t, VPtr o =>
      match o with
      | Some v => stable t v /\ (nilOK = true -> encoding t v <> Ok [0x80] /\ encoding t v <> Ok [0xC0])
      | None => nilOK = true /\ exists x, encoding (TPtr nilOK t) (VPtr None) = Ok [x] /\ (x = 0x80 \/ x = 0xC0)
      end
  | TIface, VIface o =>
      match o with
      | Some (TBytes, VBytes _) => True
      | Some (TSlice false TIface, VSlice l) => all_elems stable TIface l
      | _ => False
      end
  | TTyped M, VTyped o =>
      match o with
      | Some (k, TPtr false t, VPtr (Some v)) => M k = Some t /\ stable t v
      | _ => False
      end
  | TRaw, _ | TBig, _ | TBigPtr, _ | TSlice _ _, _ | TArray _ _, _ | TStruct _, _ | TPtr _ _, _ | TIface, _
  | TTyped _, _ => False
  | _, _ => True
  end.

(** The bytes of one value. *)
Definition one (b : list Z) : Prop := exists k c, token_ok k c /\ (k = Byte -> bytes c) /\ b = token k c.

Lemma one_ne b : one b -> b <> [].
Proof. intros (k & c & Hok & _ & ->). by apply token_ne. Qed.

Lemma one_str c : bytes c -> one (str_enc c).
Proof.
  intros Hc. destruct (str_cases c Hc) as [(x & -> & Hx)|Ht]; [exists Byte, [x]|exists String_, c]; (split; [|by split]).
  - exists x. split; [done|lia].
  - done.
Qed.

Lemma one_list c : one (header List_ (len c) ++ c).
Proof. by exists List_, c. Qed.

(** The decoder of the type reads the encoding of the value. *)
Definition inverts (fuel : nat) (last : bool) (t : gtype) (v : gval) (b : list Z) : Prop :=
  (last = false -> dcomplete fuel (makeDecoder fuel t) v b /\ one b) /\ bcomplete fuel (makeDecoder fuel t) v b.

Lemma inverts_d fuel last t v b :
  dcomplete fuel (makeDecoder fuel t) v b -> one b -> inverts fuel last t v b.
Proof. intros Hd Hne. split; [done|]. by apply dcomplete_bcomplete. Qed.

Lemma elems_inverts fuel t l its :
  Forall (fun v => forall last t b, good last t -> typed t v -> stable t v -> encoding t v = Ok b -> small b ->
                                    inverts fuel last t v b) l ->
  good false t -> all_elems typed t l -> all_elems stable t l -> elem_items items t l = Ok its ->
  small (concat (map enc its)) ->
  elems_rel (inverts fuel false) t l (concat (map enc its)).
Proof.
  intros IH Hg. revert its. induction IH as [|v l Hv _ IHl]; cbn [all_elems elem_items]; intros its Ht Hst E Hs.
  - by injection E as <-.
  - destruct Ht as [Htv Ht], Hst as [Hsv Hst]. apply res_bind_Ok in E as (i1 & E1 & E).
    apply res_bind_Ok in E as (i2 & E2 & E). injection E as <-. rewrite map_app, concat_app in *.
    apply small_app in Hs as [Hs1 Hs2]. cbn [elems_rel]. do 2 eexists. split; [done|]. split.
    + apply Hv; try done. unfold encoding. by rewrite E1.
    + by apply IHl.
Qed.

Lemma fields_inverts fuel ts l its :
  Forall (fun v => forall last t b, good last t -> typed t v -> stable t v -> encoding t v = Ok b -> small b ->
                                    inverts fuel last t v b) l ->
  good_fields good ts -> all_fields typed ts l -> all_fields stable ts l -> field_items items ts l = Ok its ->
  small (concat (map enc its)) ->
  bcomplete fuel (decodeFields (map (makeDecoder fuel) ts)) l (concat (map enc its)).
Proof.
  intros IH. revert ts its. induction IH as [|v l Hv _ IHl]; intros [|t ts] its Hg Ht Hst E Hs; try done.
  - injection E as <-. apply dcomplete_bcomplete, dcomplete_ret.
  - destruct Ht as [Htv Ht], Hst as [Hsv Hst]. cbn [field_items] in E. apply res_bind_Ok in E as (i1 & E1 & E).
    apply res_bind_Ok in E as (i2 & E2 & E). injection E as <-. rewrite map_app, concat_app in *.
    apply small_app in Hs as [Hs1 Hs2]. assert (encoding t v = Ok (concat (map enc i1))) as Ev
      by (unfold encoding; by rewrite E1).
    destruct ts as [|t' ts].
    + destruct l; [|done]. injection E2 as <-. cbn [map concat]. rewrite app_nil_r. cbn [map decodeFields].
      apply (bcomplete_map fuel _ (fun v => [v])), bcomplete_catchEOL. by apply (Hv true).
    + destruct Hg as [Hg Hgs]. cbn [map decodeFields]. eapply bcomplete_bind.
      * apply dcomplete_catchEOL. by apply (Hv false).
      * apply (bcomplete_map fuel _ (fun l => v :: l)). exact (IHl (t' :: ts) i2 Hgs Ht Hst E2 Hs2).
Qed.

Lemma starts_Bytes : starts stream_Bytes.
Proof. autounfold with starts. auto with starts. Qed.

Lemma starts_ListSlice fuel dec : starts (decodeListSlice fuel dec).
Proof. autounfold with starts. auto with starts. Qed.

Lemma Interface_inverts fuel b :
  bytes b -> small b -> dcomplete fuel (makeDecoder fuel TIface) (VIface (Some (TBytes, VBytes b))) (str_enc b).
Proof.
  intros Hb Hs. destruct fuel as [|fuel]; [intros s r stk _ _ _ Hl; lia|]. cbn [makeDecoder decodeInterface].
  intros s r stk Hr Hro Hsm Hl.
  destruct (dcomplete_map _ _ (fun b => VIface (Some (TBytes, VBytes b))) _ _ (Bytes_complete (S fuel) b Hb Hs)
    s r stk Hr Hro Hsm Hl) as (s' & E & Hr'). exists s'. split; [|done]. unfold st_bind at 1.
  destruct (stream_Kind s) as [[[k size]|e|] s1] eqn:EK.
  - assert ((do b <- stream_Bytes; st_ret (VIface (Some (TBytes, VBytes b)))) s1 = (Ok (VIface (Some (TBytes, VBytes b))), s'))
      as E1 by (rewrite <- E; apply (starts_bind _ _ starts_Bytes s _ s1 EK)).
    destruct k; [done|done|]. exfalso. unfold stream_Bytes, st_bind in E. by rewrite EK in E.
  - unfold stream_Bytes, st_bind in E. by rewrite EK in E.
  - unfold stream_Bytes, st_bind in E. by rewrite EK in E.
Qed.

(** Interfaces nest to any depth, so their fuel is counted by it. *)
Lemma Interface_list_inverts fuel l c :
  elems_rel (fun _ v b => dcomplete fuel (decodeInterface fuel) v b /\ b <> []) TIface l c -> small c ->
  dcomplete (S fuel) (decodeInterface (S fuel)) (VIface (Some (TSlice false TIface, VSlice l)))
    (header List_ (len c) ++ c).
Proof.
  intros Hrel Hs s r stk Hr Hro Hsm Hl. destruct fuel as [|fuel'].
  { pose proof (header_ne List_ (len c) ltac:(done)). rewrite !length_app in Hl.
    destruct (header List_ (len c)); [done|cbn in Hl; lia]. }
  set (fuel := S fuel') in *.
  assert (ends (decodeInterface fuel)) as He by (cbn [decodeInterface fuel]; auto with ends).
  destruct (dcomplete_map _ _ (fun l => VIface (Some (TSlice false TIface, VSlice l))) _ _
    (ListSlice_complete _ fuel fuel TIface _ l c ltac:(lia) He (fun v b H => H) Hrel Hs) s r stk Hr Hro Hsm Hl)
    as (s' & E & Hr'). exists s'. split; [|done].
  change (decodeInterface (S fuel)) with (do (k, _) <- stream_Kind;
      match k with
      | List_ => do l <- decodeListSlice fuel (decodeInterface fuel); st_ret (VIface (Some (TSlice false TIface, VSlice l)))
      | _ => do b <- stream_Bytes; st_ret (VIface (Some (TBytes, VBytes b)))
      end). unfold st_bind at 1.
  destruct (stream_Kind s) as [[[k size]|e|] s1] eqn:EK.
  - assert (k = List_) as ->.
    { unfold decodeListSlice, wrapped, st_catch, stream_List, st_bind in E. rewrite EK in E. by destruct k. }
    rewrite <- E. apply (starts_bind _ _ (starts_ListSlice fuel _) s _ s1 EK).
  - unfold decodeListSlice, wrapped, st_catch, stream_List, st_bind in E. by rewrite EK in E.
  - unfold decodeListSlice, wrapped, st_catch, stream_List, st_bind in E. by rewrite EK in E.
Qed.

Lemma str_enc_length c : (length c <= length (str_enc c))%nat.
Proof. unfold str_enc. destruct c as [|x [|y c]]; [|case_match|]; rewrite ?length_app; cbn [length]; lia. Qed.

(** Nested interfaces. *)
Definition iface_inverts (v : gval) : Prop :=
  forall fuel b, typed TIface v -> stable TIface v -> encoding TIface v = Ok b -> small b ->
                 dcomplete fuel (decodeInterface fuel) v b /\ one b.

Lemma iface_elems l fuel its :
  Forall iface_inverts l -> all_elems typed TIface l -> all_elems stable TIface l ->
  elem_items items TIface l = Ok its -> small (concat (map enc its)) ->
  elems_rel (fun _ v b => dcomplete fuel (decodeInterface fuel) v b /\ b <> []) TIface l (concat (map enc its)).
Proof.
  intros IH. revert its. induction IH as [|v l Hv _ IHl]; cbn [all_elems elem_items]; intros its Ht Hst E Hs.
  - by injection E as <-.
  - destruct Ht as [Htv Ht], Hst as [Hsv Hst]. apply res_bind_Ok in E as (i1 & E1 & E).
    apply res_bind_Ok in E as (i2 & E2 & E). injection E as <-. rewrite map_app, concat_app in *.
    apply small_app in Hs as [Hs1 Hs2]. cbn [elems_rel]. do 2 eexists. split; [done|]. split; [|by apply IHl].
    assert (encoding TIface v = Ok (concat (map enc i1))) as Ev by (unfold encoding; by rewrite E1).
    destruct (Hv fuel _ Htv Hsv Ev Hs1) as [? Ho]. split; [done|by apply one_ne].
Qed.

Lemma iface_inverts_all v : iface_inverts v /\ match v with VSlice l => Forall iface_inverts l | _ => True end.
Proof.
  induction v as [| | | | | | | |l IH| | | | | |t v IH| |] using gval_ind';
    try (split; [intros fuel c Ht Hst; cbn in Hst; done|done]).
  - split; [intros fuel c Ht Hst; by cbn in Hst|]. eapply Forall_impl; [exact IH|]. by intros v [? _].
  - split; [|done]. intros fuel b Ht Hst E Hs. cbn [stable] in Hst. destruct IH as [_ IH]. unfold encoding in E.
    cbn [items] in E. destruct t as [| | | | | | | |tail t| | | | |]; try done; destruct v; try done.
    + cbn in E. rewrite app_nil_r in E. injection E as <-. split; [|by apply one_str].
      apply Interface_inverts; [done|]. unfold small, len in *. pose proof (str_enc_length b0). lia.
    + destruct tail; [done|]. destruct t; try done. cbn [items] in E.
      apply res_bind_Ok in E as (its & E & Eb). apply res_bind_Ok in E as (el & E & Eit). injection Eit as <-.
      injection Eb as <-. rewrite app_nil_r in *. cbn [enc] in *. apply small_app in Hs as [_ Hs].
      split; [|apply one_list].
      destruct fuel as [|fuel]; [intros s r stk _ _ _ Hl; lia|]. apply Interface_list_inverts; [|done].
      by apply iface_elems.
Qed.

Lemma dcomplete_unmap {A B} fuel (m : st A) (f : A -> B) a b :
  (forall x y, f x = f y -> x = y) -> dcomplete fuel (do a <- m; st_ret (f a)) (f a) b -> dcomplete fuel m a b.
Proof.
  intros Hf Hm s r stk Hr Hro Hs Hl. destruct (Hm s r stk Hr Hro Hs Hl) as (s' & E & Hr'). exists s'.
  unfold st_bind, st_ret in E. destruct (m s) as [[x|e|] s1]; [|done|done]. injection E as E ->. by rewrite (Hf _ _ E).
Qed.

Lemma encoding_one t v it b : items t v = Ok [it] -> encoding t v = Ok b -> b = enc it.
Proof. intros E. unfold encoding. rewrite E. cbn. rewrite app_nil_r. by intros [= <-]. Qed.

Lemma encoding_list t v (m : res enc_error (list item)) b :
  items t v = (let* l := m in Ok [Lst l]) -> encoding t v = Ok b -> small b ->
  exists its, m = Ok its /\ b = header List_ (len (concat (map enc its))) ++ concat (map enc its) /\
              small (concat (map enc its)).
Proof.
  intros E H Hs. unfold encoding in H. rewrite E in H. apply res_bind_Ok in H as (l & H & Eb).
  apply res_bind_Ok in H as (its & -> & Ei). injection Ei as <-. exists its.
  assert (b = concat (map enc [Lst its])) as -> by congruence. rewrite encoding_Lst in *. by apply small_app in Hs as [_ Hs].
Qed.

(** A pointer tagged [nil]: an empty value is nil, any other is read. *)
Lemma OptionalPtr_none fuel m x : x = 0x80 \/ x = 0xC0 -> dcomplete fuel (decodeOptionalPtr m) None [x].
Proof.
  intros Hx s r stk Hr Hro Hs Hl. change ([x] ++ r) with ([x] ++ [] ++ r) in *.
  assert (exists k, k <> Byte /\ head_of k 0 [x] 0) as (k & Hk & Hh)
    by (destruct Hx as [->| ->]; [exists String_|exists List_]; done).
  destruct (Kind_ok s k 0 [x] 0 r stk Hr Hh) as (s' & E & [Hat _] & _);
    [pose proof (len_nonneg r); lia|by rewrite Z.add_0_r|done|].
  unfold decodeOptionalPtr, st_catch. rewrite E. exists (set_kind None s').
  destruct k; [done|..]; (split; [done|by apply at_rearm]).
Qed.

Lemma OptionalPtr_some fuel m v b :
  starts m -> dcomplete fuel m v b -> one b -> b <> [0x80] -> b <> [0xC0] ->
  dcomplete fuel (decodeOptionalPtr m) (Some v) b.
Proof.
  intros Hst Hm (k & c & Hok & Hb & E) H80 HC0 s r stk Hr Hro Hs Hl. destruct (Hm s r stk Hr Hro Hs Hl) as (s' & Em & Hr').
  assert (exists size s1, stream_Kind s = (Ok (k, size), s1) /\ (k = Byte \/ size <> 0)) as (size & s1 & EK & Hsz).
  { destruct (decide (k = Byte)) as [->|Hk].
    - destruct Hok as (x & -> & Hx). cbn [token] in E. rewrite str_enc_byte in E by lia. subst b.
      specialize (Hb eq_refl). apply Forall_cons in Hb as [Hx8 _]. unfold is_u8 in Hx8.
      destruct (Kind_ok s Byte 0 [x] x r stk Hr) as (s1 & EK & _); [by repeat split; lia|pose proof (len_nonneg r); lia|
        by rewrite Z.add_0_r|done|]. eauto.
    - rewrite token_header in E by done. subst b. rewrite <- app_assoc in *. rewrite len_app in Hro.
      change (Z.of_nat (length c)) with (len c) in *. pose proof (len_nonneg c). pose proof (len_nonneg r).
      destruct (Kind_ok s k (len c) (header k (len c)) 0 (c ++ r) stk Hr) as (s1 & EK & _);
        [|rewrite len_app; lia|done|done|].
      { assert (is_u64 (len c)). { apply small_app in Hs as [_ Hs]. apply small_app in Hs as [Hs _]. by apply fits_u64, small_fits. }
        by destruct k. }
      exists (len c), s1. split; [done|]. right. intros E0. destruct c; [|unfold len in E0; cbn in E0; lia].
      destruct k; [done|by apply H80|by apply HC0]. }
  unfold decodeOptionalPtr, st_catch. rewrite EK. exists s'. split; [|done].
  replace ((size =? 0) && match k with Byte => false | _ => true end) with false.
  2: { destruct Hsz as [->|Hsz]; [by rewrite andb_false_r|]. by rewrite (proj2 (Z.eqb_neq _ _)). }
  unfold st_bind. by rewrite (Hst s _ s1 EK), Em.
Qed.

Lemma small_str c : small (str_enc c) -> small c.
Proof. unfold small, len. pose proof (str_enc_length c). lia. Qed.

(** A string that holds a scalar. *)
Lemma scalar_inverts fuel last t v c b :
  items t v = Ok [Str c] -> bytes c -> encoding t v = Ok b -> small b ->
  (small c -> dcomplete fuel (makeDecoder fuel t) v (str_enc c)) -> inverts fuel last t v b.
Proof.
  intros E Hc Eb Hs Hd. rewrite (encoding_one _ _ _ _ E Eb) in *. cbn [enc] in *.
  apply inverts_d; [by apply Hd, small_str|by apply one_str].
Qed.

(** A list that holds a composite. *)
Lemma composite_inverts {A} fuel last t v (m : res enc_error (list item)) b (d : Z -> st A) (f : A -> gval) l :
  items t v = (let* l := m in Ok [Lst l]) -> encoding t v = Ok b -> small b -> f l = v ->
  makeDecoder fuel t = (do l <- (do size <- wrapped stream_List; do l <- d size; do _ <- wrapped ListEnd; st_ret l); st_ret (f l)) ->
  (forall its, m = Ok its -> small (concat (map enc its)) -> bcomplete fuel (d (len (concat (map enc its)))) l (concat (map enc its))) ->
  inverts fuel last t v b.
Proof.
  intros E Eb Hs Hv Ed Hd. destruct (encoding_list _ _ _ _ E Eb Hs) as (its & Em & -> & Hs').
  apply inverts_d; [|apply one_list]. rewrite Ed, <- Hv. apply dcomplete_map.
  apply (dcomplete_le (S fuel)); [lia|]. apply list_complete; [by left|done|by apply Hd].
Qed.

Lemma named_inverts fuel last M k t v b :
  is_u16 k -> M k = Some t -> encoding (TTyped M) (VTyped (Some (k, TPtr false t, VPtr (Some v)))) = Ok b -> small b ->
  (forall c, encoding t v = Ok c -> small c -> dcomplete fuel (makeDecoder fuel t) v c) ->
  inverts fuel last (TTyped M) (VTyped (Some (k, TPtr false t, VPtr (Some v)))) b.
Proof.
  intros Hk HM Eb Hs Hv.
  assert (items (TTyped M) (VTyped (Some (k, TPtr false t, VPtr (Some v)))) =
          (let* l := (let* l := items t v in Ok (uint_item k :: l)) in Ok [Lst l])) as E
    by (cbn [items]; by destruct (items t v)).
  destruct (encoding_list _ _ _ b E Eb Hs) as (its & Em & -> & Hs').
  apply res_bind_Ok in Em as (l & El & Eit). injection Eit as <-. cbn [map concat] in *.
  apply inverts_d; [|apply one_list].
  assert (bcomplete fuel (namedBody fuel M) (k, t, v) (enc (uint_item k) ++ concat (map enc l))) as Hb.
  { apply dcomplete_bcomplete. unfold namedBody. eapply dcomplete_bind.
    - apply dcomplete_catchEOL, dcomplete_wrapped, uint_complete; [done|exact Hk].
    - rewrite HM. apply (dcomplete_map fuel _ (fun v => (k, t, v))), dcomplete_catchEOL, Hv.
      + unfold encoding. by rewrite El.
      + by apply small_app in Hs' as [_ ?]. }
  intros s r stk Hr Hro Hsm Hl. rewrite named_decoder. revert s r stk Hr Hro Hsm Hl.
  apply (dcomplete_map fuel _ (fun x => VTyped (Some (fst (fst x), TPtr false (snd (fst x)), VPtr (Some (snd x)))))
           (k, t, v)).
  apply (dcomplete_le (S fuel)); [lia|].
  apply (list_complete fuel wrapped (fun _ => namedBody fuel M)); [by left|done|done].
Qed.

Lemma uint_item_bytes i : is_u64 i -> bytes (if i =? 0 then [] else putint i).
Proof. intros Hi. destruct (i =? 0); [constructor|]. by apply putint_u8. Qed.

Lemma slice_inverts fuel last tail t l b :
  Forall (fun v => forall last t b, good last t -> typed t v -> stable t v -> encoding t v = Ok b -> small b ->
                                    inverts fuel last t v b) l ->
  good last (TSlice tail t) -> all_elems typed t l -> all_elems stable t l ->
  encoding (TSlice tail t) (VSlice l) = Ok b -> small b -> inverts fuel last (TSlice tail t) (VSlice l) b.
Proof.
  intros IH [Htail Hg] Ht Hst Eb Hs. destruct fuel as [|fuel'].
  { split; [intros ->|intros s r p stk _ _ _ _ Hl; lia]. split; [intros s r stk _ _ _ Hl; lia|].
    destruct tail; [by specialize (Htail eq_refl)|].
    destruct (encoding_list (TSlice false t) (VSlice l) (elem_items items t l) b eq_refl Eb Hs) as (its & _ & -> & _).
    apply one_list. }
  set (fuel := S fuel') in *. assert (ends (makeDecoder fuel t)) as He by (apply decoder_ends; [done|lia]).
  assert (forall v b, inverts fuel false t v b -> dcomplete fuel (makeDecoder fuel t) v b /\ b <> []) as HP.
  { intros v c [H _]. destruct (H eq_refl) as [Hd Ho]. split; [done|by apply one_ne]. }
  destruct tail.
  - specialize (Htail eq_refl). subst last. split; [done|]. apply (bcomplete_map fuel _ VSlice).
    unfold encoding in Eb. cbn [items] in Eb. apply res_bind_Ok in Eb as (its & E & Eb). injection Eb as <-.
    apply res_bind_Ok in E as (its' & E & Eit). injection Eit as ->.
    intros s r p stk Hr Hp Hlt Hsm Hl.
    eapply (SliceElems_complete (inverts fuel false) fuel fuel); [done|done|by apply elems_inverts|done..|lia].
  - destruct (encoding_list (TSlice false t) (VSlice l) (elem_items items t l) b eq_refl Eb Hs) as (its & E & -> & Hs').
    apply inverts_d; [|apply one_list]. apply (dcomplete_map fuel _ VSlice), (dcomplete_le (S fuel)); [lia|].
    eapply (ListSlice_complete (inverts fuel false) fuel fuel); [lia|done|done|by apply elems_inverts|done].
Qed.

(** Every stable value is read back. *)
Lemma decoder_complete fuel v last t b :
  good last t -> typed t v -> stable t v -> encoding t v = Ok b -> small b -> inverts fuel last t v b.
Proof.
  revert last t b. induction v as [c|i|c|i|o|c|c|c|l IH|l IH|l IH| |v IH| |t' v IH| |k t' v IH] using gval_ind';
    intros last t b Hg Ht Hst Eb Hs; destruct t as [|bits| | | | | |n|tail t|n t|ts|nilOK t| |M]; try done;
    cbn [typed stable] in Ht, Hst.
  - destruct Hst as (k & c' & Hok & Hc & ->). rewrite (encoding_one TRaw (VRaw (token k c')) (Raw (token k c')) b eq_refl Eb) in *.
    cbn [enc] in *. apply inverts_d; [|by exists k, c'].
    apply (dcomplete_map fuel _ VRaw), Raw_complete; [done|done|].
    rewrite token_header in Hs by done. by apply small_app in Hs as [_ ?].
  - eapply scalar_inverts; [done|apply uint_item_bytes; by eapply typed_uint|done|done|]. intros _.
    apply (dcomplete_map fuel _ VUint), dcomplete_wrapped, (uint_complete fuel bits i Hg). lia.
  - eapply scalar_inverts; [done|destruct c; repeat constructor; lia|done|done|]. intros _.
    apply (dcomplete_map fuel _ VBool), dcomplete_wrapped, Bool_complete.
  - destruct (bigBytes_spec i Hst) as (_ & Hb & _).
    eapply scalar_inverts; [cbn; unfold big_items; by rewrite (proj2 (Z.ltb_ge _ _))|exact Hb|done|done|].
    intros Hsm. by apply (dcomplete_map fuel _ VBig), BigInt_complete.
  - destruct o as [i|]; [|done]. destruct (bigBytes_spec i Hst) as (_ & Hb & _).
    eapply scalar_inverts; [cbn; unfold big_items; by rewrite (proj2 (Z.ltb_ge _ _))|exact Hb|done|done|].
    intros Hsm. by apply (dcomplete_map fuel _ (fun i => VBigPtr (Some i))), BigInt_complete.
  - eapply scalar_inverts; [done|exact Ht|done|done|]. intros Hsm.
    by apply (dcomplete_map fuel _ VString), dcomplete_wrapped, Bytes_complete.
  - eapply scalar_inverts; [done|exact Ht|done|done|]. intros Hsm.
    by apply (dcomplete_map fuel _ VBytes), dcomplete_wrapped, Bytes_complete.
  - destruct Ht as [Ht <-]. eapply scalar_inverts; [done|exact Ht|done|done|]. intros Hsm.
    by apply (dcomplete_map fuel _ VByteArray), ByteArray_complete.
  - by apply slice_inverts.
  - destruct Ht as [Ht <-].
    apply (composite_inverts fuel last (TArray _ t) (VArray l) _ b (fun _ => decodeArrayElems (length l) (makeDecoder fuel t))
             VArray l eq_refl Eb Hs eq_refl eq_refl).
    intros its E Hsm. apply dcomplete_bcomplete, (ArrayElems_complete (inverts fuel false) fuel t).
    + intros v c [H _]. by apply H.
    + by apply elems_inverts.
  - apply (composite_inverts fuel last (TStruct ts) (VStruct l) _ b (fun _ => decodeFields (map (makeDecoder fuel) ts))
             VStruct l eq_refl Eb Hs eq_refl eq_refl).
    intros its E Hsm. by apply fields_inverts.
  - destruct Hst as [-> (x & E & Hx)]. assert (b = [x]) as -> by congruence.
    apply inverts_d; [by apply (dcomplete_map fuel _ VPtr), OptionalPtr_none|].
    destruct Hx as [->| ->]; [exact (one_str [] (Forall_nil_2 _))|exact (one_list [])].
  - destruct Hst as [Hst Hne]. destruct (IH false t b Hg Ht Hst Eb Hs) as [H _]. destruct (H eq_refl) as [Hd Ho].
    apply inverts_d; [|done]. destruct fuel as [|fuel']; [intros s r stk _ _ _ Hl; lia|]. set (fuel := S fuel') in *.
    change (encoding t v = Ok b) in Eb. destruct nilOK.
    + apply (dcomplete_map fuel _ VPtr), OptionalPtr_some; try done.
      * apply decoder_starts; [done|lia].
      * destruct (Hne eq_refl). congruence.
      * destruct (Hne eq_refl). congruence.
    + by apply (dcomplete_map fuel _ (fun v => VPtr (Some v))).
  - destruct (proj1 (iface_inverts_all (VIface (Some (t', v)))) fuel b Ht Hst Eb Hs) as [Hd Ho]. by apply inverts_d.
  - destruct t' as [| | | | | | | | | | |[] t| |]; try done. destruct v as [| | | | | | | | | | |[v|]| |]; try done.
    destruct Hst as [HM Hst], Ht as [Hk Ht]. pose proof (Hg k) as Hgk. rewrite HM in Hgk.
    apply named_inverts; [done..|]. intros c Ec Hc.
    destruct (IH false (TPtr false t) c) as [H _]; [done|done|by split|done|done|].
    apply (dcomplete_unmap fuel _ (fun v => VPtr (Some v))); [by intros ? ? [= ->]|]. by apply H.
Qed.

(** What is written is read back. *)
Lemma encode_decode t v b :
  good false t -> typed t v -> stable t v -> encoding t v = Ok b -> small b ->
  EncodeToBytes t v = Ok b /\ DecodeBytes t b = Ok v.
Proof.
  intros Hg Ht Hst Eb Hs. split; [apply EncodeToBytes_ok; auto using small_fits|].
  destruct (decoder_complete (S (length b)) v false t b Hg Ht Hst Eb Hs) as [H _]. destruct (H eq_refl) as [Hd _].
  pose proof (NewStream_ready b) as Hr. rewrite <- (app_nil_r b) in Hr at 3.
  destruct (Hd _ [] [] Hr I) as (s' & E & [(Hi & _) _]); [by rewrite app_nil_r|rewrite app_nil_r; lia|].
  unfold DecodeBytes, DecodeBytes_fuel. rewrite E. cbn [res_bind]. by rewrite Hi.
Qed.

(** C12: Round trip of typed values: what [EncodeToBytes] writes for a value,
    [DecodeBytes] reads back as the same value, for every type without arrays of
    a single byte and every value that has an encoding of its own. *)
Theorem typed_roundtrip t v b :
  good false t -> typed t v -> stable t v -> encoding t v = Ok b -> small b ->
  EncodeToBytes t v = Ok b /\ DecodeBytes t b = Ok v.
Proof. apply encode_decode. Qed.

(** The fields of a transaction: nonce, price, gas, recipient, amount, payload,
    a list of further recipients and a tail of marks. *)
Definition tx_type : gtype :=
  TStruct [TUint 64; TBigPtr; TUint 64; TPtr true (TByteArray 4); TBigPtr; TBytes;
           TSlice false (TStruct [TString; TBool]); TSlice true (TUint 8)].

Definition tx_value : gval :=
  VStruct [VUint 7; VBigPtr (Some 18000000000); VUint 21000; VPtr (Some (VByteArray [1; 2; 3; 4]));
           VBigPtr (Some 0); VBytes [0x60; 0x80];
           VSlice [VStruct [VString [0x4D]; VBool true]; VStruct [VString []; VBool false]];
           VSlice [VUint 0; VUint 200]].

Definition tx_bytes : list Z := default [] (match encoding tx_type tx_value with Ok b => Some b | _ => None end).

Lemma tx_good : good false tx_type.
Proof. cbn. unfold width. split_and!; (done || lia). Qed.

Lemma tx_typed : typed tx_type tx_value.
Proof. cbn. unfold bytes. split_and!; try done; try lia; repeat constructor; unfold is_u8; lia. Qed.

Lemma tx_stable : stable tx_type tx_value.
Proof. cbn. split_and!; try done; try lia. Qed.

Lemma typed_roundtrip_witness :
  EncodeToBytes tx_type tx_value = Ok tx_bytes /\ DecodeBytes tx_type tx_bytes = Ok tx_value.
Proof. apply (typed_roundtrip tx_type tx_value tx_bytes tx_good tx_typed tx_stable); vm_compute; reflexivity. Defined.
