(* ===== verification/Keccak.v ===== *)
(** * Keccak ([crypto/sha3], [crypto/crypto.go])

    The permutation Keccak-f[1600] as the portable code has it: four rounds per
    turn of the loop, in place, every round with the lanes at other positions.
    The sponge around it buffers what does not fill a block.  [KeccakF] also
    has the permutation of the standard (FIPS 202), step by step, and the code
    is shown to compute it. *)

From S2P Require Import Prelude.

Declare Scope keccak_scope.
Delimit Scope keccak_scope with keccak.
Local Open Scope keccak_scope.
Notation "a ⊕ b" := (Z.lxor a b) (at level 50, left associativity) : keccak_scope.

(** [t<<n | t>>(64-n)] on [uint64]. *)
Definition rotl (n t : Z) : Z := Z.lor (u64 (Z.shiftl t n)) (Z.shiftr t (64 - n)).

(** ** The permutation of [keccakf.go] *)

Module KeccakF.

(** The round constants. *)
Definition rc : list Z :=
  [0x0000000000000001; 0x0000000000008082; 0x800000000000808A; 0x8000000080008000;
   0x000000000000808B; 0x0000000080000001; 0x8000000080008081; 0x8000000000008009;
   0x000000000000008A; 0x0000000000000088; 0x0000000080008009; 0x000000008000000A;
   0x000000008000808B; 0x800000000000008B; 0x8000000000008089; 0x8000000000008003;
   0x8000000000008002; 0x8000000000000080; 0x000000000000800A; 0x800000008000000A;
   0x8000000080008081; 0x8000000000008080; 0x0000000080000001; 0x8000000080008008].

(** The four rounds of a turn, assignment by assignment; [a] has 25 lanes. *)
Definition round1 (rci : Z) (a : list Z) : list Z :=
  match a with
  | [a0; a1; a2; a3; a4; a5; a6; a7; a8; a9; a10; a11; a12;
     a13; a14; a15; a16; a17; a18; a19; a20; a21; a22; a23; a24] =>
      let bc0 := a0 ⊕ a5 ⊕ a10 ⊕ a15 ⊕ a20 in
      let bc1 := a1 ⊕ a6 ⊕ a11 ⊕ a16 ⊕ a21 in
      let bc2 := a2 ⊕ a7 ⊕ a12 ⊕ a17 ⊕ a22 in
      let bc3 := a3 ⊕ a8 ⊕ a13 ⊕ a18 ⊕ a23 in
      let bc4 := a4 ⊕ a9 ⊕ a14 ⊕ a19 ⊕ a24 in
      let d0 := bc4 ⊕ rotl 1 bc1 in
      let d1 := bc0 ⊕ rotl 1 bc2 in
      let d2 := bc1 ⊕ rotl 1 bc3 in
      let d3 := bc2 ⊕ rotl 1 bc4 in
      let d4 := bc3 ⊕ rotl 1 bc0 in
      let bc0 := a0 ⊕ d0 in
      let t := a6 ⊕ d1 in
      let bc1 := rotl 44 t in
      let t := a12 ⊕ d2 in
      let bc2 := rotl 43 t in
      let t := a18 ⊕ d3 in
      let bc3 := rotl 21 t in
      let t := a24 ⊕ d4 in
      let bc4 := rotl 14 t in
      let a0 := bc0 ⊕ Z.ldiff bc2 bc1 ⊕ rci in
      let a6 := bc1 ⊕ Z.ldiff bc3 bc2 in
      let a12 := bc2 ⊕ Z.ldiff bc4 bc3 in
      let a18 := bc3 ⊕ Z.ldiff bc0 bc4 in
      let a24 := bc4 ⊕ Z.ldiff bc1 bc0 in
      let t := a10 ⊕ d0 in
      let bc2 := rotl 3 t in
      let t := a16 ⊕ d1 in
      let bc3 := rotl 45 t in
      let t := a22 ⊕ d2 in
      let bc4 := rotl 61 t in
      let t := a3 ⊕ d3 in
      let bc0 := rotl 28 t in
      let t := a9 ⊕ d4 in
      let bc1 := rotl 20 t in
      let a10 := bc0 ⊕ Z.ldiff bc2 bc1 in
      let a16 := bc1 ⊕ Z.ldiff bc3 bc2 in
      let a22 := bc2 ⊕ Z.ldiff bc4 bc3 in
      let a3 := bc3 ⊕ Z.ldiff bc0 bc4 in
      let a9 := bc4 ⊕ Z.ldiff bc1 bc0 in
      let t := a20 ⊕ d0 in
      let bc4 := rotl 18 t in
      let t := a1 ⊕ d1 in
      let bc0 := rotl 1 t in
      let t := a7 ⊕ d2 in
      let bc1 := rotl 6 t in
      let t := a13 ⊕ d3 in
      let bc2 := rotl 25 t in
      let t := a19 ⊕ d4 in
      let bc3 := rotl 8 t in
      let a20 := bc0 ⊕ Z.ldiff bc2 bc1 in
      let a1 := bc1 ⊕ Z.ldiff bc3 bc2 in
      let a7 := bc2 ⊕ Z.ldiff bc4 bc3 in
      let a13 := bc3 ⊕ Z.ldiff bc0 bc4 in
      let a19 := bc4 ⊕ Z.ldiff bc1 bc0 in
      let t := a5 ⊕ d0 in
      let bc1 := rotl 36 t in
      let t := a11 ⊕ d1 in
      let bc2 := rotl 10 t in
      let t := a17 ⊕ d2 in
      let bc3 := rotl 15 t in
      let t := a23 ⊕ d3 in
      let bc4 := rotl 56 t in
      let t := a4 ⊕ d4 in
      let bc0 := rotl 27 t in
      let a5 := bc0 ⊕ Z.ldiff bc2 bc1 in
      let a11 := bc1 ⊕ Z.ldiff bc3 bc2 in
      let a17 := bc2 ⊕ Z.ldiff bc4 bc3 in
      let a23 := bc3 ⊕ Z.ldiff bc0 bc4 in
      let a4 := bc4 ⊕ Z.ldiff bc1 bc0 in
      let t := a15 ⊕ d0 in
      let bc3 := rotl 41 t in
      let t := a21 ⊕ d1 in
      let bc4 := rotl 2 t in
      let t := a2 ⊕ d2 in
      let bc0 := rotl 62 t in
      let t := a8 ⊕ d3 in
      let bc1 := rotl 55 t in
      let t := a14 ⊕ d4 in
      let bc2 := rotl 39 t in
      let a15 := bc0 ⊕ Z.ldiff bc2 bc1 in
      let a21 := bc1 ⊕ Z.ldiff bc3 bc2 in
      let a2 := bc2 ⊕ Z.ldiff bc4 bc3 in
      let a8 := bc3 ⊕ Z.ldiff bc0 bc4 in
      let a14 := bc4 ⊕ Z.ldiff bc1 bc0 in
      [a0; a1; a2; a3; a4; a5; a6; a7; a8; a9; a10; a11; a12;
       a13; a14; a15; a16; a17; a18; a19; a20; a21; a22; a23; a24]
  | _ => a
  end.

Definition round2 (rci : Z) (a : list Z) : list Z :=
  match a with
  | [a0; a1; a2; a3; a4; a5; a6; a7; a8; a9; a10; a11; a12;
     a13; a14; a15; a16; a17; a18; a19; a20; a21; a22; a23; a24] =>
      let bc0 := a0 ⊕ a5 ⊕ a10 ⊕ a15 ⊕ a20 in
      let bc1 := a1 ⊕ a6 ⊕ a11 ⊕ a16 ⊕ a21 in
      let bc2 := a2 ⊕ a7 ⊕ a12 ⊕ a17 ⊕ a22 in
      let bc3 := a3 ⊕ a8 ⊕ a13 ⊕ a18 ⊕ a23 in
      let bc4 := a4 ⊕ a9 ⊕ a14 ⊕ a19 ⊕ a24 in
      let d0 := bc4 ⊕ rotl 1 bc1 in
      let d1 := bc0 ⊕ rotl 1 bc2 in
      let d2 := bc1 ⊕ rotl 1 bc3 in
      let d3 := bc2 ⊕ rotl 1 bc4 in
      let d4 := bc3 ⊕ rotl 1 bc0 in
      let bc0 := a0 ⊕ d0 in
      let t := a16 ⊕ d1 in
      let bc1 := rotl 44 t in
      let t := a7 ⊕ d2 in
      let bc2 := rotl 43 t in
      let t := a23 ⊕ d3 in
      let bc3 := rotl 21 t in
      let t := a14 ⊕ d4 in
      let bc4 := rotl 14 t in
      let a0 := bc0 ⊕ Z.ldiff bc2 bc1 ⊕ rci in
      let a16 := bc1 ⊕ Z.ldiff bc3 bc2 in
      let a7 := bc2 ⊕ Z.ldiff bc4 bc3 in
      let a23 := bc3 ⊕ Z.ldiff bc0 bc4 in
      let a14 := bc4 ⊕ Z.ldiff bc1 bc0 in
      let t := a20 ⊕ d0 in
      let bc2 := rotl 3 t in
      let t := a11 ⊕ d1 in
      let bc3 := rotl 45 t in
      let t := a2 ⊕ d2 in
      let bc4 := rotl 61 t in
      let t := a18 ⊕ d3 in
      let bc0 := rotl 28 t in
      let t := a9 ⊕ d4 in
      let bc1 := rotl 20 t in
      let a20 := bc0 ⊕ Z.ldiff bc2 bc1 in
      let a11 := bc1 ⊕ Z.ldiff bc3 bc2 in
      let a2 := bc2 ⊕ Z.ldiff bc4 bc3 in
      let a18 := bc3 ⊕ Z.ldiff bc0 bc4 in
      let a9 := bc4 ⊕ Z.ldiff bc1 bc0 in
      let t := a15 ⊕ d0 in
      let bc4 := rotl 18 t in
      let t := a6 ⊕ d1 in
      let bc0 := rotl 1 t in
      let t := a22 ⊕ d2 in
      let bc1 := rotl 6 t in
      let t := a13 ⊕ d3 in
      let bc2 := rotl 25 t in
      let t := a4 ⊕ d4 in
      let bc3 := rotl 8 t in
      let a15 := bc0 ⊕ Z.ldiff bc2 bc1 in
      let a6 := bc1 ⊕ Z.ldiff bc3 bc2 in
      let a22 := bc2 ⊕ Z.ldiff bc4 bc3 in
      let a13 := bc3 ⊕ Z.ldiff bc0 bc4 in
      let a4 := bc4 ⊕ Z.ldiff bc1 bc0 in
      let t := a10 ⊕ d0 in
      let bc1 := rotl 36 t in
      let t := a1 ⊕ d1 in
      let bc2 := rotl 10 t in
      let t := a17 ⊕ d2 in
      let bc3 := rotl 15 t in
      let t := a8 ⊕ d3 in
      let bc4 := rotl 56 t in
      let t := a24 ⊕ d4 in
      let bc0 := rotl 27 t in
      let a10 := bc0 ⊕ Z.ldiff bc2 bc1 in
      let a1 := bc1 ⊕ Z.ldiff bc3 bc2 in
      let a17 := bc2 ⊕ Z.ldiff bc4 bc3 in
      let a8 := bc3 ⊕ Z.ldiff bc0 bc4 in
      let a24 := bc4 ⊕ Z.ldiff bc1 bc0 in
      let t := a5 ⊕ d0 in
      let bc3 := rotl 41 t in
      let t := a21 ⊕ d1 in
      let bc4 := rotl 2 t in
      let t := a12 ⊕ d2 in
      let bc0 := rotl 62 t in
      let t := a3 ⊕ d3 in
      let bc1 := rotl 55 t in
      let t := a19 ⊕ d4 in
      let bc2 := rotl 39 t in
      let a5 := bc0 ⊕ Z.ldiff bc2 bc1 in
      let a21 := bc1 ⊕ Z.ldiff bc3 bc2 in
      let a12 := bc2 ⊕ Z.ldiff bc4 bc3 in
      let a3 := bc3 ⊕ Z.ldiff bc0 bc4 in
      let a19 := bc4 ⊕ Z.ldiff bc1 bc0 in
      [a0; a1; a2; a3; a4; a5; a6; a7; a8; a9; a10; a11; a12;
       a13; a14; a15; a16; a17; a18; a19; a20; a21; a22; a23; a24]
  | _ => a
  end.

Definition round3 (rci : Z) (a : list Z) : list Z :=
  match a with
  | [a0; a1; a2; a3; a4; a5; a6; a7; a8; a9; a10; a11; a12;
     a13; a14; a15; a16; a17; a18; a19; a20; a21; a22; a23; a24] =>
      let bc0 := a0 ⊕ a5 ⊕ a10 ⊕ a15 ⊕ a20 in
      let bc1 := a1 ⊕ a6 ⊕ a11 ⊕ a16 ⊕ a21 in
      let bc2 := a2 ⊕ a7 ⊕ a12 ⊕ a17 ⊕ a22 in
      let bc3 := a3 ⊕ a8 ⊕ a13 ⊕ a18 ⊕ a23 in
      let bc4 := a4 ⊕ a9 ⊕ a14 ⊕ a19 ⊕ a24 in
      let d0 := bc4 ⊕ rotl 1 bc1 in
      let d1 := bc0 ⊕ rotl 1 bc2 in
      let d2 := bc1 ⊕ rotl 1 bc3 in
      let d3 := bc2 ⊕ rotl 1 bc4 in
      let d4 := bc3 ⊕ rotl 1 bc0 in
      let bc0 := a0 ⊕ d0 in
      let t := a11 ⊕ d1 in
      let bc1 := rotl 44 t in
      let t := a22 ⊕ d2 in
      let bc2 := rotl 43 t in
      let t := a8 ⊕ d3 in
      let bc3 := rotl 21 t in
      let t := a19 ⊕ d4 in
      let bc4 := rotl 14 t in
      let a0 := bc0 ⊕ Z.ldiff bc2 bc1 ⊕ rci in
      let a11 := bc1 ⊕ Z.ldiff bc3 bc2 in
      let a22 := bc2 ⊕ Z.ldiff bc4 bc3 in
      let a8 := bc3 ⊕ Z.ldiff bc0 bc4 in
      let a19 := bc4 ⊕ Z.ldiff bc1 bc0 in
      let t := a15 ⊕ d0 in
      let bc2 := rotl 3 t in
      let t := a1 ⊕ d1 in
      let bc3 := rotl 45 t in
      let t := a12 ⊕ d2 in
      let bc4 := rotl 61 t in
      let t := a23 ⊕ d3 in
      let bc0 := rotl 28 t in
      let t := a9 ⊕ d4 in
      let bc1 := rotl 20 t in
      let a15 := bc0 ⊕ Z.ldiff bc2 bc1 in
      let a1 := bc1 ⊕ Z.ldiff bc3 bc2 in
      let a12 := bc2 ⊕ Z.ldiff bc4 bc3 in
      let a23 := bc3 ⊕ Z.ldiff bc0 bc4 in
      let a9 := bc4 ⊕ Z.ldiff bc1 bc0 in
      let t := a5 ⊕ d0 in
      let bc4 := rotl 18 t in
      let t := a16 ⊕ d1 in
      let bc0 := rotl 1 t in
      let t := a2 ⊕ d2 in
      let bc1 := rotl 6 t in
      let t := a13 ⊕ d3 in
      let bc2 := rotl 25 t in
      let t := a24 ⊕ d4 in
      let bc3 := rotl 8 t in
      let a5 := bc0 ⊕ Z.ldiff bc2 bc1 in
      let a16 := bc1 ⊕ Z.ldiff bc3 bc2 in
      let a2 := bc2 ⊕ Z.ldiff bc4 bc3 in
      let a13 := bc3 ⊕ Z.ldiff bc0 bc4 in
      let a24 := bc4 ⊕ Z.ldiff bc1 bc0 in
      let t := a20 ⊕ d0 in
      let bc1 := rotl 36 t in
      let t := a6 ⊕ d1 in
      let bc2 := rotl 10 t in
      let t := a17 ⊕ d2 in
      let bc3 := rotl 15 t in
      let t := a3 ⊕ d3 in
      let bc4 := rotl 56 t in
      let t := a14 ⊕ d4 in
      let bc0 := rotl 27 t in
      let a20 := bc0 ⊕ Z.ldiff bc2 bc1 in
      let a6 := bc1 ⊕ Z.ldiff bc3 bc2 in
      let a17 := bc2 ⊕ Z.ldiff bc4 bc3 in
      let a3 := bc3 ⊕ Z.ldiff bc0 bc4 in
      let a14 := bc4 ⊕ Z.ldiff bc1 bc0 in
      let t := a10 ⊕ d0 in
      let bc3 := rotl 41 t in
      let t := a21 ⊕ d1 in
      let bc4 := rotl 2 t in
      let t := a7 ⊕ d2 in
      let bc0 := rotl 62 t in
      let t := a18 ⊕ d3 in
      let bc1 := rotl 55 t in
      let t := a4 ⊕ d4 in
      let bc2 := rotl 39 t in
      let a10 := bc0 ⊕ Z.ldiff bc2 bc1 in
      let a21 := bc1 ⊕ Z.ldiff bc3 bc2 in
      let a7 := bc2 ⊕ Z.ldiff bc4 bc3 in
      let a18 := bc3 ⊕ Z.ldiff bc0 bc4 in
      let a4 := bc4 ⊕ Z.ldiff bc1 bc0 in
      [a0; a1; a2; a3; a4; a5; a6; a7; a8; a9; a10; a11; a12;
       a13; a14; a15; a16; a17; a18; a19; a20; a21; a22; a23; a24]
  | _ => a
  end.

Definition round4 (rci : Z) (a : list Z) : list Z :=
  match a with
  | [a0; a1; a2; a3; a4; a5; a6; a7; a8; a9; a10; a11; a12;
     a13; a14; a15; a16; a17; a18; a19; a20; a21; a22; a23; a24] =>
      let bc0 := a0 ⊕ a5 ⊕ a10 ⊕ a15 ⊕ a20 in
      let bc1 := a1 ⊕ a6 ⊕ a11 ⊕ a16 ⊕ a21 in
      let bc2 := a2 ⊕ a7 ⊕ a12 ⊕ a17 ⊕ a22 in
      let bc3 := a3 ⊕ a8 ⊕ a13 ⊕ a18 ⊕ a23 in
      let bc4 := a4 ⊕ a9 ⊕ a14 ⊕ a19 ⊕ a24 in
      let d0 := bc4 ⊕ rotl 1 bc1 in
      let d1 := bc0 ⊕ rotl 1 bc2 in
      let d2 := bc1 ⊕ rotl 1 bc3 in
      let d3 := bc2 ⊕ rotl 1 bc4 in
      let d4 := bc3 ⊕ rotl 1 bc0 in
      let bc0 := a0 ⊕ d0 in
      let t := a1 ⊕ d1 in
      let bc1 := rotl 44 t in
      let t := a2 ⊕ d2 in
      let bc2 := rotl 43 t in
      let t := a3 ⊕ d3 in
      let bc3 := rotl 21 t in
      let t := a4 ⊕ d4 in
      let bc4 := rotl 14 t in
      let a0 := bc0 ⊕ Z.ldiff bc2 bc1 ⊕ rci in
      let a1 := bc1 ⊕ Z.ldiff bc3 bc2 in
      let a2 := bc2 ⊕ Z.ldiff bc4 bc3 in
      let a3 := bc3 ⊕ Z.ldiff bc0 bc4 in
      let a4 := bc4 ⊕ Z.ldiff bc1 bc0 in
      let t := a5 ⊕ d0 in
      let bc2 := rotl 3 t in
      let t := a6 ⊕ d1 in
      let bc3 := rotl 45 t in
      let t := a7 ⊕ d2 in
      let bc4 := rotl 61 t in
      let t := a8 ⊕ d3 in
      let bc0 := rotl 28 t in
      let t := a9 ⊕ d4 in
      let bc1 := rotl 20 t in
      let a5 := bc0 ⊕ Z.ldiff bc2 bc1 in
      let a6 := bc1 ⊕ Z.ldiff bc3 bc2 in
      let a7 := bc2 ⊕ Z.ldiff bc4 bc3 in
      let a8 := bc3 ⊕ Z.ldiff bc0 bc4 in
      let a9 := bc4 ⊕ Z.ldiff bc1 bc0 in
      let t := a10 ⊕ d0 in
      let bc4 := rotl 18 t in
      let t := a11 ⊕ d1 in
      let bc0 := rotl 1 t in
      let t := a12 ⊕ d2 in
      let bc1 := rotl 6 t in
      let t := a13 ⊕ d3 in
      let bc2 := rotl 25 t in
      let t := a14 ⊕ d4 in
      let bc3 := rotl 8 t in
      let a10 := bc0 ⊕ Z.ldiff bc2 bc1 in
      let a11 := bc1 ⊕ Z.ldiff bc3 bc2 in
      let a12 := bc2 ⊕ Z.ldiff bc4 bc3 in
      let a13 := bc3 ⊕ Z.ldiff bc0 bc4 in
      let a14 := bc4 ⊕ Z.ldiff bc1 bc0 in
      let t := a15 ⊕ d0 in
      let bc1 := rotl 36 t in
      let t := a16 ⊕ d1 in
      let bc2 := rotl 10 t in
      let t := a17 ⊕ d2 in
      let bc3 := rotl 15 t in
      let t := a18 ⊕ d3 in
      let bc4 := rotl 56 t in
      let t := a19 ⊕ d4 in
      let bc0 := rotl 27 t in
      let a15 := bc0 ⊕ Z.ldiff bc2 bc1 in
      let a16 := bc1 ⊕ Z.ldiff bc3 bc2 in
      let a17 := bc2 ⊕ Z.ldiff bc4 bc3 in
      let a18 := bc3 ⊕ Z.ldiff bc0 bc4 in
      let a19 := bc4 ⊕ Z.ldiff bc1 bc0 in
      let t := a20 ⊕ d0 in
      let bc3 := rotl 41 t in
      let t := a21 ⊕ d1 in
      let bc4 := rotl 2 t in
      let t := a22 ⊕ d2 in
      let bc0 := rotl 62 t in
      let t := a23 ⊕ d3 in
      let bc1 := rotl 55 t in
      let t := a24 ⊕ d4 in
      let bc2 := rotl 39 t in
      let a20 := bc0 ⊕ Z.ldiff bc2 bc1 in
      let a21 := bc1 ⊕ Z.ldiff bc3 bc2 in
      let a22 := bc2 ⊕ Z.ldiff bc4 bc3 in
      let a23 := bc3 ⊕ Z.ldiff bc0 bc4 in
      let a24 := bc4 ⊕ Z.ldiff bc1 bc0 in
      [a0; a1; a2; a3; a4; a5; a6; a7; a8; a9; a10; a11; a12;
       a13; a14; a15; a16; a17; a18; a19; a20; a21; a22; a23; a24]
  | _ => a
  end.

(** A turn of the loop from round [i] on. *)
Definition turn (a : list Z) (i : nat) : list Z :=
  let a := round1 (nth i rc 0) a in
  let a := round2 (nth (i + 1) rc 0) a in
  let a := round3 (nth (i + 2) rc 0) a in
  round4 (nth (i + 3) rc 0) a.

(** [for i := 0; i < 24; i += 4]. *)
Definition keccakF1600 (a : list Z) : list Z := foldl turn a [0; 4; 8; 12; 16; 20]%nat.

(** ** The permutation of the standard *)

(** Lane [x], [y] of a state, with the coordinates modulo 5. *)
Definition lane (A : list Z) (x y : nat) : Z := nth (x mod 5 + 5 * (y mod 5)) A 0.

Definition lanes (f : nat -> nat -> Z) : list Z := map (fun j => f (j mod 5) (j / 5))%nat (seq 0 25).

Definition theta (A : list Z) : list Z :=
  let C x := lane A x 0 ⊕ lane A x 1 ⊕ lane A x 2 ⊕ lane A x 3 ⊕ lane A x 4 in
  let D x := C (x + 4)%nat ⊕ rotl 1 (C (x + 1)%nat) in
  lanes (fun x y => lane A x y ⊕ D x).

(** The offsets: along the walk (x, y), (y, 2x + 3y), ... from (1, 0) the lane
    at step [t] is rotated by (t + 1)(t + 2) / 2. *)
Fixpoint offset_from (fuel t u v x y : nat) : Z :=
  match fuel with
  | O => 0
  | S fuel =>
      if ((u =? x) && (v =? y))%nat then Z.of_nat ((t + 1) * (t + 2) / 2 mod 64)
      else offset_from fuel (S t) v ((2 * u + 3 * v) mod 5) x y
  end.

Definition rho (A : list Z) : list Z := lanes (fun x y => rotl (offset_from 24 0 1 0 x y) (lane A x y)).

Definition pi (A : list Z) : list Z := lanes (fun x y => lane A (x + 3 * y) x).

Definition chi (A : list Z) : list Z :=
  lanes (fun x y => lane A x y ⊕ Z.ldiff (lane A (x + 2) y) (lane A (x + 1) y)).

(** The constants: bit [2 ^ j - 1] of the one of round [i] is output [j + 7 i] of
    a shift register of eight bits. *)
Definition lfsr (R : list bool) : list bool :=
  let R := false :: R in
  let b := nth 8 R false in
  take 8 (imap (fun i r => if bool_decide (i ∈ [0; 4; 5; 6]%nat) then xorb r b else r) R).

Definition rc_bit (t : nat) : bool := nth 0 (Nat.iter (t mod 255) lfsr (true :: replicate 7 false)) false.

Definition RC (i : nat) : Z :=
  foldl (fun r j => if rc_bit (j + 7 * i) then Z.lor r (Z.shiftl 1 (2 ^ Z.of_nat j - 1)) else r) 0 (seq 0 7).

Definition iota (c : Z) (A : list Z) : list Z :=
  lanes (fun x y => if ((x =? 0) && (y =? 0))%nat then lane A x y ⊕ c else lane A x y).

Definition Rnd (c : Z) (A : list Z) : list Z := iota c (chi (pi (rho (theta A)))).

Definition keccak_f (A : list Z) : list Z := foldl (fun A i => Rnd (RC i) A) A (seq 0 24).

(** ** The code computes the permutation of the standard *)

Lemma rc_standard : rc = map RC (seq 0 24).
Proof. vm_compute. reflexivity. Qed.

(** Where the lanes are after as many rounds: the lane [j] of the standard's state
    is at position [j] of the list. *)
Definition place1 : list nat :=
  [0; 6; 12; 18; 24; 10; 16; 22; 3; 9; 20; 1; 7; 13; 19; 5; 11; 17; 23; 4; 15; 21; 2; 8; 14]%nat.
Definition place2 : list nat := map (fun j => nth j place1 0)%nat place1.
Definition place3 : list nat := map (fun j => nth j place1 0)%nat place2.

Definition view (place : list nat) (a : list Z) : list Z := map (fun j => nth j a 0) place.

Definition u64s (a : list Z) : Prop := length a = 25%nat /\ Forall is_u64 a.

Lemma bounded_bits w x : 0 <= w -> 0 <= x < 2 ^ w <-> forall n, w <= n -> Z.testbit x n = false.
Proof.
  intros Hw. split.
  - intros Hx n Hn. rewrite <- (Z.mod_small x (2 ^ w)) by done. by rewrite Z.mod_pow2_bits_high by lia.
  - intros H. replace x with (x mod 2 ^ w); [apply Z.mod_pos_bound; lia|]. apply Z.bits_inj'. intros n Hn.
    destruct (Z.lt_ge_cases n w).
    + by rewrite Z.mod_pow2_bits_low by lia.
    + by rewrite Z.mod_pow2_bits_high, H by lia.
Qed.

Lemma is_u64_bits x : is_u64 x <-> forall n, 64 <= n -> Z.testbit x n = false.
Proof. by apply bounded_bits. Qed.

Lemma lxor_u8 x y : is_u8 x -> is_u8 y -> is_u8 (x ⊕ y).
Proof.
  unfold is_u8. rewrite !bounded_bits by lia. intros Hx Hy n Hn. by rewrite Z.lxor_spec, Hx, Hy.
Qed.

Lemma lxor_u64 x y : is_u64 x -> is_u64 y -> is_u64 (x ⊕ y).
Proof. rewrite !is_u64_bits. intros Hx Hy n Hn. by rewrite Z.lxor_spec, Hx, Hy. Qed.

Lemma ldiff_u64 x y : is_u64 x -> is_u64 y -> is_u64 (Z.ldiff x y).
Proof. rewrite !is_u64_bits. intros Hx Hy n Hn. by rewrite Z.ldiff_spec, Hx. Qed.

Lemma rotl_u64 n t : 0 <= n <= 64 -> is_u64 t -> is_u64 (rotl n t).
Proof.
  unfold rotl. intros Hn Ht. pose proof (u64_range (Z.shiftl t n)) as Hs. rewrite is_u64_bits in *.
  intros i Hi. by rewrite Z.lor_spec, Hs, Z.shiftr_spec, Ht by lia.
Qed.

Lemma rotl_0 t : is_u64 t -> rotl 0 t = t.
Proof.
  intros Ht. unfold rotl. rewrite Z.shiftl_0_r, u64_small, Z.sub_0_r by done. unfold is_u64 in Ht.
  rewrite Z.shiftr_div_pow2, Z.div_small by lia. apply Z.lor_0_r.
Qed.

Create HintDb u64.
#[local] Hint Resolve lxor_u64 ldiff_u64 rotl_u64 : u64.
#[local] Hint Extern 1 (_ <= _ <= _) => lia : u64.

(** Names the lanes of a state. *)
Ltac name_lanes a H :=
  destruct H as [l F];
  destruct a as [|a0 [|a1 [|a2 [|a3 [|a4 [|a5 [|a6 [|a7 [|a8 [|a9 [|a10 [|a11 [|a12 [|a13 [|a14 [|a15 [|a16 [|a17
    [|a18 [|a19 [|a20 [|a21 [|a22 [|a23 [|a24 [|a25 a]]]]]]]]]]]]]]]]]]]]]]]]]]; try discriminate l; clear l;
  repeat (apply Forall_cons in F as [? F]); clear F.

(** The sum of a column of a state. *)
Definition column (A : list Z) (x : nat) : Z := lane A x 0 ⊕ lane A x 1 ⊕ lane A x 2 ⊕ lane A x 3 ⊕ lane A x 4.

Ltac reorder := apply Z.bits_inj'; intros; rewrite !Z.lxor_spec; repeat case (Z.testbit _ _); reflexivity.

(** Puts the sum [s] of column [x] in the order of the standard. *)
Ltac sort_column s A x := let e := eval cbv -[Z.lxor] in (column A x) in replace s with e by reorder.

(** A round of the code is a round of the standard on the lanes at their places.
    The lane (0, 0) is not rotated, and the columns are added in another order. *)
Ltac round_standard a place H :=
  intros H; name_lanes a H;
  match goal with
  | |- context [[?a0; ?a1; ?a2; ?a3; ?a4; ?a5; ?a6; ?a7; ?a8; ?a9; ?a10; ?a11; ?a12;
        ?a13; ?a14; ?a15; ?a16; ?a17; ?a18; ?a19; ?a20; ?a21; ?a22; ?a23; ?a24]] =>
      let A := constr:(view place [a0; a1; a2; a3; a4; a5; a6; a7; a8; a9; a10; a11; a12;
        a13; a14; a15; a16; a17; a18; a19; a20; a21; a22; a23; a24]) in
      cbv -[Z.lxor Z.ldiff rotl];
      sort_column constr:(a0 ⊕ a5 ⊕ a10 ⊕ a15 ⊕ a20) A 0%nat; sort_column constr:(a1 ⊕ a6 ⊕ a11 ⊕ a16 ⊕ a21) A 1%nat;
      sort_column constr:(a2 ⊕ a7 ⊕ a12 ⊕ a17 ⊕ a22) A 2%nat; sort_column constr:(a3 ⊕ a8 ⊕ a13 ⊕ a18 ⊕ a23) A 3%nat;
      sort_column constr:(a4 ⊕ a9 ⊕ a14 ⊕ a19 ⊕ a24) A 4%nat
  end;
  rewrite rotl_0; [reflexivity|auto 20 with u64].

Lemma round1_standard c a : u64s a -> view place1 (round1 c a) = Rnd c (view (seq 0 25) a).
Proof. round_standard a (seq 0 25) H. Qed.

Lemma round2_standard c a : u64s a -> view place2 (round2 c a) = Rnd c (view place1 a).
Proof. round_standard a place1 H. Qed.

Lemma round3_standard c a : u64s a -> view place3 (round3 c a) = Rnd c (view place2 a).
Proof. round_standard a place2 H. Qed.

Lemma round4_standard c a : u64s a -> view (seq 0 25) (round4 c a) = Rnd c (view place3 a).
Proof. round_standard a place3 H. Qed.

Ltac round_u64 a H :=
  intros ? H; name_lanes a H; cbv -[Z.lxor Z.ldiff rotl is_u64]; split; [reflexivity|];
  repeat (apply Forall_cons; split; [auto 20 with u64|]); apply Forall_nil_2.

Lemma round1_u64 c a : is_u64 c -> u64s a -> u64s (round1 c a).
Proof. round_u64 a H. Qed.

Lemma round2_u64 c a : is_u64 c -> u64s a -> u64s (round2 c a).
Proof. round_u64 a H. Qed.

Lemma round3_u64 c a : is_u64 c -> u64s a -> u64s (round3 c a).
Proof. round_u64 a H. Qed.

Lemma round4_u64 c a : is_u64 c -> u64s a -> u64s (round4 c a).
Proof. round_u64 a H. Qed.

Lemma rc_u64 i : is_u64 (nth i rc 0).
Proof.
  destruct (Nat.lt_ge_cases i (length rc)) as [H|H].
  - assert (Forall is_u64 rc) as Hrc by (repeat constructor; discriminate || reflexivity).
    rewrite Forall_forall in Hrc. apply Hrc, list_elem_of_In, nth_In, H.
  - rewrite nth_overflow by done. split; [done|reflexivity].
Qed.

#[local] Hint Resolve round1_u64 round2_u64 round3_u64 round4_u64 rc_u64 : u64.

Lemma view_all a : u64s a -> view (seq 0 25) a = a.
Proof. intros H. by name_lanes a H. Qed.

Lemma turn_u64 a i : u64s a -> u64s (turn a i).
Proof. intros H. unfold turn. auto with u64. Qed.

Lemma turn_standard a i :
  u64s a ->
  turn a i = Rnd (nth (i + 3) rc 0) (Rnd (nth (i + 2) rc 0) (Rnd (nth (i + 1) rc 0) (Rnd (nth i rc 0) a))).
Proof.
  intros H. unfold turn. rewrite <- (view_all (round4 _ _)), round4_standard, round3_standard, round2_standard, round1_standard,
    view_all by auto with u64. done.
Qed.

Lemma keccakF1600_u64 a : u64s a -> u64s (keccakF1600 a).
Proof. intros H. unfold keccakF1600. cbn [foldl]. auto 10 using turn_u64. Qed.

Lemma length_keccak_f A : length A = 25%nat -> length (keccak_f A) = 25%nat.
Proof. unfold keccak_f. intros HA. by destruct (seq 0 24) as [|i l] using rev_ind; [|rewrite foldl_snoc]. Qed.

(** The code computes Keccak-f[1600]. *)
Lemma keccakF1600_keccak_f a : u64s a -> keccakF1600 a = keccak_f a.
Proof.
  intros H. unfold keccakF1600. cbn [foldl]. rewrite !turn_standard by auto 10 using turn_u64.
  rewrite rc_standard. reflexivity.
Qed.
End KeccakF.
