(* ===== verification/Sponge.v ===== *)
(** * The sponge ([crypto/sha3/sha3.go], [hashes.go], [shake.go], [xor_generic.go])

    A hash takes its message in pieces of any size.  What does not fill a block
    waits in a buffer, a slice of the array [storage] inside the hash, which
    the output goes through as well.  The slice is an offset and a length, so
    that its capacity is what the code sees. *)

From S2P Require Import Keccak Prelude.
Import KeccakF.

(** ** Words and bytes ([xor_generic.go]) *)

(** [binary.LittleEndian] *)
Fixpoint le_value (b : list Z) : Z :=
  match b with
  | [] => 0
  | x :: b => x + 2 ^ 8 * le_value b
  end.

Fixpoint le_bytes (n : nat) (x : Z) : list Z :=
  match n with
  | O => []
  | S n => u8 x :: le_bytes n (Z.shiftr x 8)
  end.

(** The loop over [n] words; a buffer has at most 21 of them and the state 25. *)
Fixpoint xorInLoop (n : nat) (a buf : list Z) : list Z :=
  match n, a with
  | S n, x :: a => Z.lxor x (le_value (take 8 buf)) :: xorInLoop n a (drop 8 buf)
  | _, _ => a
  end.

Definition xorInGeneric (a buf : list Z) : list Z := xorInLoop (length buf / 8) a buf.

(** What is written to a buffer of [n] bytes. *)
Definition copyOutGeneric (a : list Z) (n : nat) : list Z := concat (map (le_bytes 8) (take (n / 8) a)).

(** ** The state of a hash *)

Definition maxRate : nat := 168.

Record state := mkState {
  sa : list Z;            (* the lanes *)
  storage : list Z;
  bufOff : nat;           (* buf is storage[bufOff : bufOff+bufLen] *)
  bufLen : nat;
  rate : nat;
  dsbyte : Z;
  outputLen : nat;
  squeezing : bool
}.

Definition buf (d : state) : list Z := take (bufLen d) (drop (bufOff d) (storage d)).

Definition set_buf (off len : nat) (d : state) : state :=
  mkState (sa d) (storage d) off len (rate d) (dsbyte d) (outputLen d) (squeezing d).

Definition set_lanes (a : list Z) (d : state) : state :=
  mkState a (storage d) (bufOff d) (bufLen d) (rate d) (dsbyte d) (outputLen d) (squeezing d).

(** Writes bytes into the array from an index on. *)
Definition poke (i : nat) (b : list Z) (d : state) : state :=
  mkState (sa d) (list_inserts i b (storage d)) (bufOff d) (bufLen d) (rate d) (dsbyte d) (outputLen d) (squeezing d).

Definition set_squeezing (q : bool) (d : state) : state :=
  mkState (sa d) (storage d) (bufOff d) (bufLen d) (rate d) (dsbyte d) (outputLen d) q.

(** [append(d.buf, b...)] while there is room in the array. *)
Definition append_buf (b : list Z) (d : state) : state :=
  set_buf (bufOff d) (bufLen d + length b) (poke (bufOff d + bufLen d) b d).

Definition newState (rate outputLen : nat) (dsbyte : Z) : state :=
  mkState (replicate 25 0) (replicate maxRate 0) 0 0 rate dsbyte outputLen false.

Definition Reset (d : state) : state := set_buf 0 0 (set_squeezing false (set_lanes (replicate 25 0) d)).

(** The slice expression of a hash that is squeezing counts from the capacity of
    the buffer; a negative index panics. *)
Definition clone (d : state) : eff state :=
  if squeezing d then
    let start := Z.of_nat (rate d) - Z.of_nat (maxRate - bufOff d) in
    if start <? 0 then Panic else Ok (set_buf (Z.to_nat start) (rate d - Z.to_nat start) d)
  else Ok (set_buf 0 (bufLen d) d).

Definition permute (d : state) : state :=
  if squeezing d then
    let d := set_lanes (keccakF1600 (sa d)) d in
    let d := set_buf 0 (rate d) d in
    poke 0 (copyOutGeneric (sa d) (rate d)) d
  else
    let d := set_lanes (xorInGeneric (sa d) (buf d)) d in
    let d := set_buf 0 0 d in
    set_lanes (keccakF1600 (sa d)) d.

Definition padAndPermute (ds : Z) (d : state) : state :=
  let d := append_buf [ds] d in
  let zerosStart := bufLen d in
  let d := set_buf 0 (rate d) d in
  let d := poke zerosStart (replicate (rate d - zerosStart) 0) d in
  let d := poke (rate d - 1) [Z.lxor (nth (rate d - 1) (storage d) 0) 0x80] d in
  let d := permute d in
  let d := set_squeezing true d in
  let d := set_buf 0 (rate d) d in
  poke 0 (copyOutGeneric (sa d) (rate d)) d.

(** A loop that does not end within its fuel is no result. *)
Inductive endless := Endless.

(** A round takes a byte at least, so there are at most as many as bytes. *)
Fixpoint writeLoop (fuel : nat) (p : list Z) (d : state) : res endless state :=
  match p with
  | [] => Ok d
  | _ :: _ =>
      match fuel with
      | O => Err Endless
      | S fuel =>
          if ((bufLen d =? 0) && (rate d <=? length p))%nat then
            let d := set_lanes (xorInGeneric (sa d) (take (rate d) p)) d in
            writeLoop fuel (drop (rate d) p) (set_lanes (keccakF1600 (sa d)) d)
          else
            let todo := Nat.min (rate d - bufLen d) (length p) in
            let d := append_buf (take todo p) d in
            writeLoop fuel (drop todo p) (if (bufLen d =? rate d)%nat then permute d else d)
      end
  end.

Definition Write (p : list Z) (d : state) : res endless state :=
  if squeezing d then Panic else writeLoop (length p) p d.

(** The loop over [n] bytes of output. *)
Fixpoint readLoop (fuel n : nat) (d : state) : res endless (list Z * state) :=
  match n with
  | O => Ok ([], d)
  | S _ =>
      match fuel with
      | O => Err Endless
      | S fuel =>
          let k := Nat.min n (bufLen d) in
          let out := take k (buf d) in
          let d := set_buf (bufOff d + k) (bufLen d - k) d in
          let d := if (bufLen d =? 0)%nat then permute d else d in
          let* (outs, d) := readLoop fuel (n - k) d in
          Ok (out ++ outs, d)
      end
  end.

Definition Read (n : nat) (d : state) : res endless (list Z * state) :=
  readLoop n n (if squeezing d then d else padAndPermute (dsbyte d) d).

Definition lift_clone {A} (m : eff A) : res endless A :=
  match m with
  | Ok x => Ok x
  | Err e => match e with end
  | Panic => Panic
  end.

(** The hash itself is left as it was. *)
Definition Sum (b : list Z) (d : state) : res endless (list Z) :=
  let* dup := lift_clone (clone d) in
  let* (hash, _) := Read (outputLen dup) dup in
  Ok (b ++ hash).

(** ** The hash functions ([hashes.go], [shake.go], [crypto/crypto.go]) *)

Definition NewKeccak256 : state := newState 136 32 0x01.
Definition NewKeccak512 : state := newState 72 64 0x01.
Definition New224 : state := newState 144 28 0x06.
Definition New256 : state := newState 136 32 0x06.
Definition New384 : state := newState 104 48 0x06.
Definition New512 : state := newState 72 64 0x06.
Definition NewShake128 : state := newState 168 0 0x1f.
Definition NewShake256 : state := newState 136 0 0x1f.

Fixpoint writeAll (data : list (list Z)) (d : state) : res endless state :=
  match data with
  | [] => Ok d
  | b :: data => let* d := Write b d in writeAll data d
  end.

Definition Keccak256 (data : list (list Z)) : res endless (list Z) :=
  let* d := writeAll data NewKeccak256 in Sum [] d.

Definition Keccak512 (data : list (list Z)) : res endless (list Z) :=
  let* d := writeAll data NewKeccak512 in Sum [] d.

(** [Sum224] and its like. *)
Definition sumOf (new : state) (data : list Z) : res endless (list Z) :=
  let* d := Write data new in Sum [] d.

(** [ShakeSum128] and [ShakeSum256]: [n] bytes of output. *)
Definition shakeSum (new : state) (n : nat) (data : list Z) : res endless (list Z) :=
  let* d := Write data new in
  let* (out, _) := Read n d in
  Ok out.

(** ** What a hash is meant to be

    The message, padded to whole blocks, is fed byte by byte: a block that is
    full is added to the lanes, and the lanes are permuted.  The output is the
    lanes as bytes, block after block, with a permutation in between. *)

Definition feed (r : nat) (s : list Z * list Z) (x : Z) : list Z * list Z :=
  let b := s.2 ++ [x] in
  if (length b =? r)%nat then (keccak_f (xorInGeneric s.1 b), []) else (s.1, b).

Definition absorbed (r : nat) (M : list Z) : list Z * list Z := foldl (feed r) (replicate 25 0, []) M.

(** The padding behind [n] bytes of a block. *)
Definition padding (r : nat) (ds : Z) (n : nat) : list Z :=
  if (n =? r - 1)%nat then [Z.lxor ds 0x80] else ds :: replicate (r - n - 2) 0 ++ [0x80].

Fixpoint squeezed (r blocks : nat) (A : list Z) : list Z :=
  match blocks with
  | O => []
  | S blocks => copyOutGeneric A r ++ squeezed r blocks (keccak_f A)
  end.

(** As many bytes as asked for of the output for a message. *)
Definition sponge (r : nat) (ds : Z) (M : list Z) (n : nat) : list Z :=
  take n (squeezed r n (absorbed r (M ++ padding r ds (length (absorbed r M).2))).1).

(** ** Lists *)

Lemma list_inserts_spec {A} (i : nat) (b l : list A) :
  (i + length b <= length l)%nat -> list_inserts i b l = take i l ++ b ++ drop (i + length b) l.
Proof.
  intros H. rewrite <- (take_drop i l) at 1.
  replace i with (length (take i l) + 0)%nat at 1 by (rewrite length_take; lia). rewrite list_inserts_app_r. f_equal.
  rewrite <- (take_drop (length b) (drop i l)), list_inserts_0_r, drop_drop; [done|].
  rewrite length_take, length_drop. lia.
Qed.

Lemma length_xorInLoop n a b : length (xorInLoop n a b) = length a.
Proof. revert a b. induction n as [|n IH]; intros [|x a] b; cbn; [done..|by rewrite IH]. Qed.

Lemma le_value_bound b : Forall is_u8 b -> 0 <= le_value b < 2 ^ (8 * Z.of_nat (length b)).
Proof.
  unfold is_u8. induction 1 as [|x b Hx Hb IH]; cbn [le_value length]; [done|].
  rewrite Nat2Z.inj_succ, Z.mul_succ_r, Z.pow_add_r by lia. nia.
Qed.

Lemma xorInLoop_u64 n a b : Forall is_u8 b -> Forall is_u64 a -> Forall is_u64 (xorInLoop n a b).
Proof.
  revert a b. induction n as [|n IH]; intros [|x a] b Hb Ha; cbn; [done..|].
  apply Forall_cons in Ha as [Hx Ha]. constructor; [|by apply IH, Ha; apply Forall_drop].
  apply lxor_u64; [done|]. pose proof (le_value_bound (take 8 b) (Forall_take _ _ _ Hb)) as H.
  rewrite length_take in H. unfold is_u64. split; [lia|]. eapply Z.lt_le_trans; [apply H|].
  apply Z.pow_le_mono_r; lia.
Qed.

Lemma xorIn_u64s a b : Forall is_u8 b -> u64s a -> u64s (xorInGeneric a b).
Proof. intros Hb [Hl Ha]. split; [by rewrite <- Hl; apply length_xorInLoop|by apply xorInLoop_u64]. Qed.

Lemma zero_lanes : u64s (replicate 25 0).
Proof. split; [done|]. apply Forall_replicate. split; [done|reflexivity]. Qed.

(** ** Feeding *)

Lemma keccak_f_u64 A : u64s A -> u64s (keccak_f A).
Proof. intros HA. rewrite <- keccakF1600_keccak_f by done. by apply keccakF1600_u64. Qed.

Lemma feed_small r A b p : (length b + length p < r)%nat -> foldl (feed r) (A, b) p = (A, b ++ p).
Proof.
  revert b. induction p as [|x p IH]; intros b H; cbn [foldl]; [by rewrite app_nil_r|].
  unfold feed at 2. cbn [fst snd]. cbn [length] in H. rewrite length_app. cbn [length].
  destruct (Nat.eqb_spec (length b + 1) r); [lia|]. rewrite IH by (rewrite length_app; cbn [length]; lia).
  by rewrite <- app_assoc.
Qed.

Lemma feed_full r A b p :
  (length b + length p = r)%nat -> p <> [] ->
  foldl (feed r) (A, b) p = (keccak_f (xorInGeneric A (b ++ p)), []).
Proof.
  destruct p as [|x p _] using rev_ind; [done|]. intros H _. rewrite length_app in H. cbn [length] in H.
  rewrite foldl_snoc, feed_small by lia. unfold feed. cbn [fst snd]. rewrite <- app_assoc.
  rewrite !length_app. cbn [length]. by destruct (Nat.eqb_spec (length b + (length p + 1)) r); [|lia].
Qed.

Definition fed_ok (r : nat) (s : list Z * list Z) : Prop :=
  u64s s.1 /\ Forall is_u8 s.2 /\ (length s.2 < r)%nat.

Lemma feed_ok r s x : is_u8 x -> fed_ok r s -> fed_ok r (feed r s x).
Proof.
  intros Hx (Ha & Hb & Hl). assert (Forall is_u8 (s.2 ++ [x])) as Hbx by (apply Forall_app; auto).
  pose proof (xorIn_u64s _ _ Hbx Ha) as Hu. unfold feed, fed_ok. rewrite length_app in *. cbn [length].
  destruct (Nat.eqb_spec (length s.2 + 1) r) as [E|E]; cbn [fst snd length].
  - split; [by apply keccak_f_u64|split; [constructor|lia]].
  - rewrite length_app. cbn [length]. split; [done|]. split; [done|lia].
Qed.

Lemma feeds_ok r s p : Forall is_u8 p -> fed_ok r s -> fed_ok r (foldl (feed r) s p).
Proof. intros Hp. revert s. induction Hp as [|x p Hx Hp IH]; intros s Hs; cbn; [done|]. by apply IH, feed_ok. Qed.

(** ** Writing *)

Definition rate_ok (r : nat) : Prop := (0 < r <= maxRate)%nat /\ r = (8 * (r / 8))%nat.

(** The hash has taken a message: [s] is what feeding it gives. *)
Record absorbing (r : nat) (ds : Z) (n : nat) (d : state) (s : list Z * list Z) : Prop := {
  ab_dir : squeezing d = false;
  ab_rate : rate d = r;
  ab_ds : dsbyte d = ds;
  ab_out : outputLen d = n;
  ab_off : bufOff d = 0%nat;
  ab_storage : length (storage d) = maxRate;
  ab_lanes : sa d = s.1;
  ab_buf : buf d = s.2;
  ab_len : bufLen d = length s.2;
  ab_fed : fed_ok r s
}.

Lemma permute_absorb d :
  squeezing d = false ->
  permute d = mkState (keccakF1600 (xorInGeneric (sa d) (buf d))) (storage d) 0 0 (rate d) (dsbyte d) (outputLen d) false.
Proof. intros E. unfold permute. rewrite E. by rewrite <- E. Qed.

Section Writing.
Context (r : nat) (ds : Z) (n : nat) (Hr : rate_ok r).

Lemma new_absorbing : absorbing r ds n (newState r n ds) (absorbed r []).
Proof. split; try done. split; [apply zero_lanes|]. split; [constructor|cbn; destruct Hr; lia]. Qed.

Lemma append_storage d s p :
  absorbing r ds n d s -> (length s.2 + length p <= maxRate)%nat ->
  exists rest, storage (append_buf p d) = (s.2 ++ p) ++ rest /\ length (storage (append_buf p d)) = maxRate.
Proof.
  intros H Hl. destruct H as [_ _ _ _ Ho Hs _ Hb Hn _]. unfold buf in Hb. rewrite Ho, drop_0 in Hb.
  cbn [append_buf set_buf poke storage bufOff]. rewrite Ho. cbn [Nat.add].
  rewrite length_inserts, list_inserts_spec, Hb, app_assoc by lia. by eexists.
Qed.

Lemma append_buf_bytes d s p :
  absorbing r ds n d s -> (length s.2 + length p <= maxRate)%nat ->
  buf (append_buf p d) = s.2 ++ p /\ bufLen (append_buf p d) = length (s.2 ++ p).
Proof.
  intros H Hl. destruct (append_storage d s p H Hl) as (rest & E & _). unfold buf. rewrite E.
  cbn [append_buf set_buf poke bufOff bufLen]. destruct H as [_ _ _ _ Ho _ _ _ Hn _].
  rewrite Ho, drop_0, Hn, <- length_app, take_app_length. done.
Qed.

Lemma append_absorbing d s p :
  absorbing r ds n d s -> Forall is_u8 p -> (length s.2 + length p < r)%nat ->
  absorbing r ds n (append_buf p d) (s.1, s.2 ++ p).
Proof.
  intros H Hp Hl. destruct Hr as [Hm _]. destruct (append_buf_bytes d s p H) as [Hb Hn]; [lia|].
  destruct (append_storage d s p H) as (_ & _ & Hs); [lia|]. destruct H, ab_fed0 as (Ha & Hb' & _).
  split; try done. split; [done|]. split; [by apply Forall_app|]. cbn [snd]. by rewrite length_app.
Qed.

Lemma permute_absorbing d s p :
  absorbing r ds n d s -> Forall is_u8 p -> (length s.2 + length p = r)%nat ->
  absorbing r ds n (permute (append_buf p d)) (keccak_f (xorInGeneric s.1 (s.2 ++ p)), []).
Proof.
  intros H Hp Hl. destruct Hr as [Hm _]. destruct (append_buf_bytes d s p H) as [Hb Hn]; [lia|].
  destruct (append_storage d s p H) as (_ & _ & Hs); [lia|]. destruct H, ab_fed0 as (Ha & Hb' & _).
  assert (u64s (xorInGeneric s.1 (s.2 ++ p))) as Hu by (apply xorIn_u64s; [by apply Forall_app|done]).
  rewrite permute_absorb, Hb by done. split; try done; cbn [sa append_buf set_buf poke fst].
  - by rewrite ab_lanes0, keccakF1600_keccak_f.
  - split; [|split; [constructor|cbn; lia]]. by apply keccak_f_u64.
Qed.

(** A full block that does not go through the buffer. *)
Lemma block_absorbing d s p :
  absorbing r ds n d s -> s.2 = [] -> Forall is_u8 p ->
  absorbing r ds n (set_lanes (keccakF1600 (xorInGeneric (sa d) p)) d) (keccak_f (xorInGeneric s.1 p), []).
Proof.
  intros H E Hp. destruct Hr as [Hm _]. destruct H, ab_fed0 as (Ha & _ & _). rewrite E in *.
  pose proof (xorIn_u64s _ _ Hp Ha) as Hu. split; try done; cbn [sa set_lanes fst].
  - by rewrite ab_lanes0, keccakF1600_keccak_f.
  - split; [|split; [constructor|cbn; lia]]. by apply keccak_f_u64.
Qed.

Lemma take_ne {A} k (l : list A) : (0 < k)%nat -> l <> [] -> take k l <> [].
Proof. by destruct k, l; [lia|lia| |]. Qed.

Lemma writeLoop_S fuel p d :
  p <> [] ->
  writeLoop (S fuel) p d =
  if ((bufLen d =? 0) && (rate d <=? length p))%nat then
    writeLoop fuel (drop (rate d) p) (set_lanes (keccakF1600 (xorInGeneric (sa d) (take (rate d) p))) d)
  else
    let todo := Nat.min (rate d - bufLen d) (length p) in
    let d := append_buf (take todo p) d in
    writeLoop fuel (drop todo p) (if (bufLen d =? rate d)%nat then permute d else d).
Proof. by destruct p. Qed.

(** A round of the loop takes a part of the message. *)
Lemma writeLoop_round fuel p d s :
  p <> [] -> Forall is_u8 p -> absorbing r ds n d s ->
  exists k d', (0 < k)%nat /\ absorbing r ds n d' (foldl (feed r) s (take k p)) /\
               writeLoop (S fuel) p d = writeLoop fuel (drop k p) d'.
Proof.
  intros Hne Hp H. pose proof Hr as [Hm _]. pose proof (ab_fed _ _ _ _ _ H) as (_ & _ & Hfl).
  assert (forall k, Forall is_u8 (take k p)) as Hpk by (intros; by apply Forall_take).
  rewrite writeLoop_S, (ab_rate _ _ _ _ _ H), (ab_len _ _ _ _ _ H) by done. destruct s as [A b]. cbn [snd] in *.
  destruct (_ && _) eqn:E.
  - apply andb_true_iff in E as [Eb%Nat.eqb_eq El%Nat.leb_le]. destruct b; [|done].
    exists r. eexists. split; [lia|]. split; [|reflexivity].
    rewrite feed_full; [|cbn; rewrite length_take; lia|apply take_ne; [lia|done]].
    apply (block_absorbing d (A, []) (take r p)); auto.
  - set (k := Nat.min (r - length b) (length p)). assert (0 < k)%nat by (destruct p; [done|]; cbn [length] in *; lia).
    exists k. eexists. split; [done|]. split; [|reflexivity].
    assert (length (take k p) = k) as Hl by (rewrite length_take; lia).
    destruct (append_buf_bytes d (A, b) (take k p) H) as [_ ->]; [cbn [snd]; lia|].
    cbn [append_buf set_buf poke rate snd]. rewrite (ab_rate _ _ _ _ _ H), length_app, Hl.
    change (set_buf _ _ _) with (append_buf (take k p) d). destruct (Nat.eqb_spec (length b + k) r).
    + rewrite feed_full by (lia || by apply take_ne). apply (permute_absorbing d (A, b)); [done..|cbn [snd]; lia].
    + rewrite feed_small by lia. apply (append_absorbing d (A, b)); [done..|cbn [snd]; lia].
Qed.

Lemma writeLoop_absorbing fuel p d s :
  (length p <= fuel)%nat -> Forall is_u8 p -> absorbing r ds n d s ->
  exists d', writeLoop fuel p d = Ok d' /\ absorbing r ds n d' (foldl (feed r) s p).
Proof.
  revert p d s. induction fuel as [|fuel IH]; intros p d s Hl Hp H.
  { destruct p; [by exists d|cbn in Hl; lia]. }
  destruct (decide (p = [])) as [->|Hne]; [by exists d|].
  destruct (writeLoop_round fuel p d s Hne Hp H) as (k & d' & Hk & Hd' & ->).
  replace (foldl (feed r) s p) with (foldl (feed r) (foldl (feed r) s (take k p)) (drop k p))
    by by rewrite <- foldl_app, take_drop.
  apply IH; [rewrite length_drop; lia|by apply Forall_drop|done].
Qed.

Lemma Write_absorbing p d M :
  Forall is_u8 p -> absorbing r ds n d (absorbed r M) ->
  exists d', Write p d = Ok d' /\ absorbing r ds n d' (absorbed r (M ++ p)).
Proof.
  intros Hp H. unfold Write. rewrite (ab_dir _ _ _ _ _ H). unfold absorbed. rewrite foldl_app.
  by apply writeLoop_absorbing.
Qed.

Lemma writeAll_absorbing data d M :
  Forall (Forall is_u8) data -> absorbing r ds n d (absorbed r M) ->
  exists d', writeAll data d = Ok d' /\ absorbing r ds n d' (absorbed r (M ++ concat data)).
Proof.
  intros Hd. revert d M. induction Hd as [|p data Hp Hd IH]; intros d M H; cbn [writeAll concat].
  - exists d. by rewrite app_nil_r.
  - destruct (Write_absorbing p d M Hp H) as (d' & -> & Hd'). cbn [res_bind].
    rewrite app_assoc. by apply IH.
Qed.
End Writing.

(** ** Padding and reading *)

Lemma le_bytes_length n x : length (le_bytes n x) = n.
Proof. revert x. induction n as [|n IH]; intros x; cbn; [done|by rewrite IH]. Qed.

Lemma le_bytes_u8 n x : Forall is_u8 (le_bytes n x).
Proof. revert x. induction n as [|n IH]; intros x; cbn; constructor; auto with goint. Qed.

Lemma length_copyOut A r : rate_ok r -> length A = 25%nat -> length (copyOutGeneric A r) = r.
Proof.
  intros [Hm H8] HA. unfold copyOutGeneric, maxRate in *.
  assert (length (take (r / 8) A) = r / 8)%nat as Hl by (rewrite length_take; lia).
  transitivity (8 * length (take (r / 8) A))%nat; [|lia]. generalize (take (r / 8) A). clear. intros l.
  induction l as [|x l IH]; cbn [map concat length]; [done|]. rewrite length_app, IH, le_bytes_length. lia.
Qed.

Lemma copyOut_u8 A r : Forall is_u8 (copyOutGeneric A r).
Proof.
  unfold copyOutGeneric. generalize (take (r / 8) A). intros l.
  induction l as [|x l IH]; cbn [map concat]; [constructor|]. apply Forall_app. auto using le_bytes_u8.
Qed.

Lemma length_padding r ds k : (k < r)%nat -> (k + length (padding r ds k) = r)%nat.
Proof.
  intros H. unfold padding. destruct (Nat.eqb_spec k (r - 1)); cbn [length]; [lia|].
  rewrite length_app, length_replicate. cbn [length]. lia.
Qed.

Lemma padding_u8 r ds k : is_u8 ds -> Forall is_u8 (padding r ds k).
Proof.
  intros H. assert (is_u8 0x80) by by unfold is_u8. unfold padding. destruct (Nat.eqb_spec k (r - 1)).
  - constructor; [by apply lxor_u8|constructor].
  - constructor; [done|]. apply Forall_app. split; [|by repeat constructor]. apply Forall_replicate. by unfold is_u8.
Qed.

(** What is in the array after the three steps of the padding. *)
Lemma padded_bytes r ds b rest :
  (length b < r)%nat -> (r <= length b + 1 + length rest)%nat ->
  let l := list_inserts (length b + 1) (replicate (r - (length b + 1)) 0) ((b ++ [ds]) ++ rest) in
  take r (list_inserts (r - 1) [Z.lxor (nth (r - 1) l 0) 0x80] l) = b ++ padding r ds (length b).
Proof.
  intros Hb Hr. cbn zeta. remember (length b) as k eqn:Hk.
  rewrite (list_inserts_spec (k + 1)) by (rewrite ?length_replicate, ?length_app; cbn [length]; lia).
  rewrite take_app_length', length_replicate by (rewrite length_app; cbn [length]; lia).
  set (rest' := drop _ ((b ++ [ds]) ++ rest)). unfold padding. destruct (Nat.eqb_spec k (r - 1)) as [E|E].
  - replace (r - (k + 1))%nat with 0%nat by lia. cbn [replicate app]. rewrite <- app_assoc.
    rewrite <- E, app_nth2, <- Hk, Nat.sub_diag by lia. cbn [app nth].
    rewrite list_inserts_spec, (take_app_length' b) by (rewrite ?length_app; cbn [length]; lia).
    rewrite app_assoc. apply take_app_length'. rewrite length_app. cbn [length]. lia.
  - replace (r - (k + 1))%nat with (r - k - 2 + 1)%nat by lia. rewrite replicate_add. cbn [replicate].
    replace ((b ++ [ds]) ++ (replicate (r - k - 2) 0 ++ [0]) ++ rest') with
      ((b ++ ds :: replicate (r - k - 2) 0) ++ [0] ++ rest') by by rewrite <- !app_assoc.
    assert (length (b ++ ds :: replicate (r - k - 2) 0%Z) = r - 1)%nat as Hl
      by (rewrite length_app; cbn [length]; rewrite length_replicate; lia).
    rewrite app_nth2, Hl, Nat.sub_diag by lia. cbn [app nth].
    rewrite list_inserts_spec, (take_app_length' (b ++ _)) by first [by rewrite Hl|rewrite length_app, Hl; cbn [length]; lia].
    rewrite app_assoc, take_app_length', <- app_assoc by (rewrite length_app, Hl; cbn [length]; lia). done.
Qed.

(** The hash gives output: its lanes are [A], and [off] bytes of their block are
    gone. *)
Record squeezes (r : nat) (d : state) (A : list Z) (off : nat) : Prop := {
  sq_dir : squeezing d = true;
  sq_rate : rate d = r;
  sq_off : bufOff d = off;
  sq_len : (bufLen d = r - off)%nat;
  sq_left : (off < r)%nat;
  sq_storage : length (storage d) = maxRate;
  sq_lanes : sa d = A;
  sq_u64 : u64s A;
  sq_bytes : take r (storage d) = copyOutGeneric A r
}.

Section Reading.
Context (r : nat) (Hr : rate_ok r).

(** The block of output is put in the array. *)
Lemma fill_squeezes d A :
  squeezing d = true -> rate d = r -> length (storage d) = maxRate -> sa d = A -> u64s A ->
  squeezes r (poke 0 (copyOutGeneric A r) (set_buf 0 r d)) A 0.
Proof.
  intros Hq Hrd Hs Ha Hu. pose proof (length_copyOut A r Hr (proj1 Hu)) as Hl. pose proof Hr as [Hm _].
  split; try done; cbn [poke set_buf storage bufLen].
  - lia.
  - lia.
  - by rewrite length_inserts.
  - rewrite list_inserts_spec, take_0, app_nil_l by lia. by apply take_app_length'.
Qed.

Lemma permute_squeezes d A :
  squeezing d = true -> rate d = r -> length (storage d) = maxRate -> sa d = A -> u64s A ->
  squeezes r (permute d) (keccak_f A) 0.
Proof.
  intros Hq Hrd Hs Ha Hu. unfold permute. rewrite Hq. cbn [set_lanes set_buf rate sa].
  rewrite Hrd, Ha, keccakF1600_keccak_f by done.
  apply (fill_squeezes (set_lanes (keccak_f A) d)); auto using keccak_f_u64.
Qed.

(** The whole output from a state on. *)
Definition output (A : list Z) (off n : nat) : list Z := take n (drop off (squeezed r (S n) A)).

Lemma length_squeezed k A : length A = 25%nat -> length (squeezed r k A) = (k * r)%nat.
Proof.
  revert A. induction k as [|k IH]; intros A HA; cbn [squeezed]; [done|].
  rewrite length_app, IH, (length_copyOut A r Hr HA); [lia|]. by apply length_keccak_f.
Qed.

Lemma squeezed_prefix k m A : exists t, squeezed r (k + m) A = squeezed r k A ++ t.
Proof.
  revert A. induction k as [|k IH]; intros A; cbn [Nat.add squeezed]; [by eexists|].
  destruct (IH (keccak_f A)) as [t ->]. exists t. by rewrite app_assoc.
Qed.

(** Enough blocks are as good as more. *)
Lemma output_blocks k A off n :
  u64s A -> (off + n <= k * r)%nat -> (off < r)%nat -> take n (drop off (squeezed r k A)) = output A off n.
Proof.
  intros HA Hk Ho. unfold output. pose proof Hr as [Hm _].
  destruct (squeezed_prefix k (S n) A) as [t E1]. destruct (squeezed_prefix (S n) k A) as [u E2].
  rewrite Nat.add_comm, E2 in E1. pose proof (length_squeezed k A (proj1 HA)). pose proof (length_squeezed (S n) A (proj1 HA)).
  assert (off + n <= S n * r)%nat by nia.
  transitivity (take n (drop off (squeezed r (S n) A ++ u))).
  - rewrite E1, drop_app_le, take_app_le by (rewrite ?length_drop; lia). done.
  - rewrite drop_app_le, take_app_le by (rewrite ?length_drop; lia). done.
Qed.

Lemma take_split {A} k n (l : list A) : (k <= n)%nat -> take n l = take k l ++ take (n - k) (drop k l).
Proof. intros H. rewrite <- (take_drop k (take n l)), take_take, Nat.min_l, skipn_firstn_comm by lia. done. Qed.

(** Output up to the end of a block, or to a place before it, and what follows. *)
Lemma output_step A off k n :
  u64s A -> (off < r)%nat -> (off + k <= r)%nat -> (k <= n)%nat ->
  output A off n = take k (drop off (copyOutGeneric A r)) ++
                   (if (off + k =? r)%nat then output (keccak_f A) 0 (n - k) else output A (off + k) (n - k)).
Proof.
  intros HA Ho Hk Hn. pose proof Hr as [Hm _]. pose proof (length_copyOut A r Hr (proj1 HA)) as Hl.
  unfold output at 1. rewrite (take_split k), drop_drop by done. f_equal.
  - cbn [squeezed]. rewrite drop_app_le, take_app_le by (rewrite ?length_drop; lia). done.
  - destruct (Nat.eqb_spec (off + k) r) as [E|E].
    + cbn [squeezed]. rewrite E, drop_app_length' by done. rewrite <- (drop_0 (squeezed _ _ _)).
      apply output_blocks; [by apply keccak_f_u64|nia|lia].
    + apply output_blocks; [done|nia|lia].
Qed.

Lemma readLoop_squeezes fuel n d A off :
  (n <= fuel)%nat -> squeezes r d A off ->
  exists d' A' off', readLoop fuel n d = Ok (output A off n, d') /\ squeezes r d' A' off' /\
                     (forall m, output A' off' m = drop n (output A off (n + m))) /\
                     ((off + n < r)%nat -> off' = (off + n)%nat).
Proof.
  revert n d A off. induction fuel as [|fuel IH]; intros [|n] d A off Hf H; try lia.
  1, 2: exists d, A, off; split; [done|split; [done|split; [intros m; by rewrite drop_0|lia]]].
  cbn [readLoop]. set (k := Nat.min (S n) (bufLen d)). set (d1 := set_buf _ _ _).
  pose proof (sq_left _ _ _ _ H) as Ho. pose proof (sq_len _ _ _ _ H) as Hb.
  assert (take k (buf d) = take k (drop off (copyOutGeneric A r))) as Hout.
  { unfold buf. rewrite take_take, Nat.min_l, <- (sq_bytes _ _ _ _ H), (sq_off _ _ _ _ H) by lia.
    rewrite !firstn_skipn_comm, take_take, Nat.min_l by lia. done. }
  assert (exists A1 off1, squeezes r (if (bufLen d1 =? 0)%nat then permute d1 else d1) A1 off1 /\
    (forall n', (k <= n')%nat -> output A off n' = take k (buf d) ++ output A1 off1 (n' - k)) /\
    ((off + S n < r)%nat -> off1 = (off + k)%nat)) as (A1 & off1 & H1 & Hn & Ho1).
  { cbn [d1 set_buf bufLen]. destruct (Nat.eqb_spec (bufLen d - k) 0) as [E|E].
    - exists (keccak_f A), 0%nat. split; [by apply permute_squeezes; apply H|]. split; [|lia].
      intros n' Hn'. rewrite Hout, (output_step A off k) by (try apply H; lia).
      by rewrite (proj2 (Nat.eqb_eq (off + k) r)) by lia.
    - exists A, (off + k)%nat. split.
      { destruct H. unfold d1. split; try done; cbn [set_buf bufOff bufLen]; lia. }
      split; [|lia]. intros n' Hn'. rewrite Hout, (output_step A off k) by (try apply H; lia).
      by rewrite (proj2 (Nat.eqb_neq (off + k) r)) by lia. }
  destruct (IH (S n - k)%nat _ A1 off1 ltac:(lia) H1) as (d' & A' & off' & -> & Hd' & Hm & Ho'). cbn [res_bind].
  exists d', A', off'. split; [by rewrite (Hn (S n)) by lia|]. split; [done|]. split; [|lia].
  intros m. rewrite Hm, (Hn (S n + m)%nat) by lia.
  assert (length (take k (buf d)) = k) as Hl.
  { unfold buf. rewrite !length_take, length_drop, (sq_storage _ _ _ _ H), (sq_off _ _ _ _ H). destruct Hr. lia. }
  rewrite drop_app_ge, Hl by lia. by replace (S n + m - k)%nat with (S n - k + m)%nat by lia.
Qed.

(** ** Hashing *)

(** The steps of the padding in one. *)
Lemma padAndPermute_steps ds d :
  squeezing d = false ->
  let l := list_inserts (bufLen d + 1) (replicate (rate d - (bufLen d + 1)) 0) (storage (append_buf [ds] d)) in
  let l := list_inserts (rate d - 1) [Z.lxor (nth (rate d - 1) l 0) 0x80] l in
  let A := keccakF1600 (xorInGeneric (sa d) (take (rate d) l)) in
  padAndPermute ds d =
  poke 0 (copyOutGeneric A (rate d))
    (set_buf 0 (rate d) (mkState A l 0 0 (rate d) (dsbyte d) (outputLen d) true)).
Proof. destruct d. cbn [squeezing]. intros ->. reflexivity. Qed.

Lemma padAndPermute_squeezes ds n d s :
  is_u8 ds -> absorbing r ds n d s ->
  squeezes r (padAndPermute ds d) (foldl (feed r) s (padding r ds (length s.2))).1 0.
Proof.
  intros Hds H. pose proof Hr as [Hm _]. pose proof (ab_fed _ _ _ _ _ H) as (Hu & Hb & Hl).
  destruct (append_storage r ds n d s [ds] H) as (rest & Es & Hs); [cbn [length]; lia|].
  rewrite padAndPermute_steps by apply H. destruct s as [A b]. cbn [fst snd] in *.
  rewrite (ab_rate _ _ _ _ _ H), (ab_len _ _ _ _ _ H), (ab_lanes _ _ _ _ _ H), Es in *. cbn [fst snd].
  rewrite padded_bytes by (rewrite !length_app in Hs; cbn [length] in Hs; lia).
  pose proof (length_padding r ds (length b) Hl) as Hlp.
  assert (padding r ds (length b) <> []) as Hne by (intros E; rewrite E in Hlp; cbn in Hlp; lia).
  rewrite feed_full by done. cbn [fst].
  assert (u64s (xorInGeneric A (b ++ padding r ds (length b)))) as Hx.
  { apply xorIn_u64s; [|done]. apply Forall_app. auto using padding_u8. }
  rewrite keccakF1600_keccak_f by done. apply fill_squeezes; try done; [|by apply keccak_f_u64].
  cbn [storage]. by rewrite !length_inserts.
Qed.

(** Reading and summing up a message. *)
Lemma Read_output ds n d M m :
  is_u8 ds -> absorbing r ds n d (absorbed r M) ->
  exists d' A off, Read m d = Ok (sponge r ds M m, d') /\ squeezes r d' A off /\
    (forall k, output A off k = drop m (sponge r ds M (m + k))) /\ ((m < r)%nat -> off = m).
Proof.
  intros Hds H. unfold Read. rewrite (ab_dir _ _ _ _ _ H), (ab_ds _ _ _ _ _ H).
  pose proof (padAndPermute_squeezes ds n d _ Hds H) as Hq.
  destruct (readLoop_squeezes m m _ _ 0 ltac:(done) Hq) as (d' & A & off & -> & Hd' & Hk & Ho).
  pose proof Hr as [Hm _].
  assert (forall k, sponge r ds M k = output (foldl (feed r) (absorbed r M) (padding r ds (length (absorbed r M).2))).1 0 k) as Hs.
  { intros k. unfold sponge. rewrite <- (drop_0 (squeezed _ _ _)). unfold absorbed at 1. rewrite foldl_app.
    apply output_blocks; [apply Hq|nia|lia]. }
  exists d', A, off. rewrite Hs. split; [done|]. split; [done|]. split; [|done]. intros k. by rewrite Hs.
Qed.

Lemma Sum_digest ds n d M b :
  is_u8 ds -> absorbing r ds n d (absorbed r M) -> Sum b d = Ok (b ++ sponge r ds M n).
Proof.
  intros Hds H. unfold Sum, clone. rewrite (ab_dir _ _ _ _ _ H). cbn [lift_clone res_bind].
  assert (set_buf 0 (bufLen d) d = d) as -> by (destruct d, H; cbn in *; by subst).
  rewrite (ab_out _ _ _ _ _ H).
  by destruct (Read_output ds n d M n Hds H) as (? & ? & ? & -> & _).
Qed.
End Reading.

(** ** The functions of the package *)

Lemma rate_136 : rate_ok 136.
Proof. split; [unfold maxRate; lia|reflexivity]. Qed.

Lemma rate_72 : rate_ok 72.
Proof. split; [unfold maxRate; lia|reflexivity]. Qed.

Lemma rate_168 : rate_ok 168.
Proof. split; [unfold maxRate; lia|reflexivity]. Qed.

(** With the largest block the capacity of the buffer is what is left of it. *)
Lemma clone_squeezes A off d : squeezes 168 d A off -> clone d = Ok d.
Proof.
  intros H. unfold clone. destruct d, H; cbn in *. subst. unfold maxRate. bcase; [lia|].
  replace (Z.to_nat _) with off by lia. done.
Qed.

Lemma sumOf_sponge r n ds data :
  rate_ok r -> is_u8 ds -> Forall is_u8 data -> sumOf (newState r n ds) data = Ok (sponge r ds data n).
Proof.
  intros Hr Hds Hd. unfold sumOf.
  destruct (Write_absorbing r ds n Hr data _ [] Hd (new_absorbing r ds n Hr)) as (d' & -> & H). cbn [res_bind].
  by rewrite (Sum_digest r Hr ds n d' data []).
Qed.

Lemma writeAll_Sum r n ds data :
  rate_ok r -> is_u8 ds -> Forall (Forall is_u8) data ->
  (let* d := writeAll data (newState r n ds) in Sum [] d) = Ok (sponge r ds (concat data) n).
Proof.
  intros Hr Hds Hd.
  destruct (writeAll_absorbing r ds n Hr data _ [] Hd (new_absorbing r ds n Hr)) as (d' & -> & H). cbn [res_bind].
  by rewrite (Sum_digest r Hr ds n d' (concat data) []).
Qed.

(** The Keccak-256 hash of bytes. *)
Definition keccak256 (b : list Z) : list Z := sponge 136 0x01 b 32.

Lemma Keccak256_hash data : Forall (Forall is_u8) data -> Keccak256 data = Ok (keccak256 (concat data)).
Proof. intros H. apply (writeAll_Sum 136 32 0x01); [apply rate_136|by unfold is_u8|done]. Qed.

Lemma keccak256_eval b r : Forall is_u8 b -> Keccak256 [b] = Ok r -> keccak256 b = r.
Proof.
  intros Hb E. rewrite Keccak256_hash in E by (constructor; [done|constructor]). cbn [concat] in E. rewrite app_nil_r in E.
  by injection E.
Qed.

Lemma length_absorbed r M : length (absorbed r M).1 = 25%nat.
Proof.
  unfold absorbed. induction M as [|x M IH] using rev_ind; [done|]. rewrite foldl_snoc.
  unfold feed at 1. destruct (_ =? _)%nat; cbn [fst]; [|done]. apply length_keccak_f. etransitivity; [apply length_xorInLoop|done].
Qed.

Lemma length_sponge r ds M n : rate_ok r -> length (sponge r ds M n) = n.
Proof.
  intros Hr. unfold sponge. rewrite length_take, (length_squeezed r Hr) by apply length_absorbed.
  destruct Hr as [Hm _]. nia.
Qed.

Lemma length_keccak256 b : length (keccak256 b) = 32%nat.
Proof. apply length_sponge, rate_136. Qed.

Lemma squeezed_u8 r k A : Forall is_u8 (squeezed r k A).
Proof. revert A. induction k as [|k IH]; intros A; cbn [squeezed]; [constructor|]. apply Forall_app. auto using copyOut_u8. Qed.

Lemma keccak256_u8 b : Forall is_u8 (keccak256 b).
Proof. apply Forall_take, squeezed_u8. Qed.

#[global] Opaque keccak256.

(** ** The sponge of the standard

    The standard (FIPS 202) speaks of a string of 1600 bits: bit [z] of lane [l] is bit
    [64 l + z] of the string, and bit [i] of byte [j] of a message is bit [8 j + i].
    A block is added to the bits of the string in front, and output is read from
    them; the rest of the string is the capacity. *)

Fixpoint of_bits (n : nat) (f : nat -> bool) : Z :=
  match n with
  | O => 0
  | S n => 2 * of_bits n (fun i => f (S i)) + Z.b2z (f O)
  end.

Definition message_bit (b : list Z) (i : nat) : bool := Z.testbit (nth (i / 8) b 0) (Z.of_nat (i mod 8)).

Definition string_bit (A : list Z) (i : nat) : bool := Z.testbit (nth (i / 64) A 0) (Z.of_nat (i mod 64)).

Definition add_block (A b : list Z) : list Z :=
  map (fun l => of_bits 64 (fun z => xorb (string_bit A (64 * l + z)) (message_bit b (64 * l + z)))) (seq 0 25).

Definition string_bytes (A : list Z) (n : nat) : list Z :=
  map (fun j => of_bits 8 (fun i => string_bit A (8 * j + i))) (seq 0 n).

Fixpoint absorb (blocks r : nat) (A P : list Z) : list Z :=
  match blocks with
  | O => A
  | S blocks => absorb blocks r (keccak_f (add_block A (take r P))) (drop r P)
  end.

Fixpoint squeeze (blocks r : nat) (A : list Z) : list Z :=
  match blocks with
  | O => []
  | S blocks => string_bytes A r ++ squeeze blocks r (keccak_f A)
  end.

(** [n] bytes of output for the message [M], with blocks of [r] bytes and the bits of
    [ds] behind the message. *)
Definition standard (r : nat) (ds : Z) (M : list Z) (n : nat) : list Z :=
  let P := M ++ padding r ds (length M mod r) in
  take n (squeeze n r (absorb (length P / r) r (replicate 25 0) P)).

Lemma of_bits_bit n f i : 0 <= i -> Z.testbit (of_bits n f) i = (i <? Z.of_nat n) && f (Z.to_nat i).
Proof.
  revert f i. induction n as [|n IH]; intros f i Hi; cbn [of_bits].
  - rewrite Z.bits_0. by destruct (Z.ltb_spec i (Z.of_nat 0)); [lia|].
  - destruct (decide (i = 0)) as [->|Hne]; [apply Z.testbit_0_r|].
    replace i with (Z.succ (i - 1)) at 1 by lia. rewrite Z.testbit_succ_r, IH by lia. f_equal; [|f_equal; lia].
    by destruct (Z.ltb_spec (i - 1) (Z.of_nat n)), (Z.ltb_spec i (Z.of_nat (S n))); lia.
Qed.

Lemma le_value_bit b i : Forall is_u8 b -> Z.testbit (le_value b) (Z.of_nat i) = message_bit b i.
Proof.
  intros Hb. revert i. induction Hb as [|x b Hx Hb IH]; intros i; unfold message_bit in *; cbn [le_value].
  { rewrite nth_overflow by (cbn; lia). by rewrite !Z.bits_0. }
  unfold is_u8 in Hx. assert (x + 2 ^ 8 * le_value b = Z.lor (Z.shiftl (le_value b) 8) x) as ->.
  { rewrite lor_shiftl_add; lia. }
  rewrite Z.lor_spec. destruct (decide (i < 8)%nat) as [Hi|Hi].
  - rewrite Z.shiftl_spec_low, Nat.div_small, Nat.mod_small by lia. done.
  - assert (exists k, i = (k + 1 * 8)%nat) as [k ->] by (exists (i - 8)%nat; lia). rewrite Z.shiftl_spec by lia.
    rewrite (proj1 (bounded_bits 8 x ltac:(lia)) Hx), orb_false_r, Nat.div_add, Nat.Div0.mod_add by lia.
    replace (Z.of_nat (k + 1 * 8) - 8) with (Z.of_nat k) by lia. rewrite IH.
    by rewrite Nat.add_1_r.
Qed.

Lemma xorInLoop_lookup n a b l :
  xorInLoop n a b !! l = (fun x => if (l <? n)%nat then Z.lxor x (le_value (take 8 (drop (8 * l) b))) else x) <$> a !! l.
Proof.
  revert a b l. induction n as [|n IH]; intros [|x a] b l; cbn [xorInLoop].
  1, 3: by rewrite lookup_nil.
  - by destruct (_ !! l).
  - destruct l as [|l]; [done|]. cbn [lookup list_lookup]. rewrite IH, drop_drop.
    replace (8 + 8 * l)%nat with (8 * S l)%nat by lia. by destruct (a !! l).
Qed.

(** Adding a block word by word is adding it bit by bit. *)
Lemma xorIn_block A b :
  u64s A -> Forall is_u8 b -> length b = (8 * (length b / 8))%nat -> (length b <= maxRate)%nat ->
  xorInGeneric A b = add_block A b.
Proof.
  intros [HA HA64] Hb H8 Hm. unfold maxRate in Hm. apply list_eq. intros l. unfold xorInGeneric, add_block.
  rewrite xorInLoop_lookup, list_lookup_fmap. destruct (decide (l < 25)%nat) as [Hl|Hl].
  2: { rewrite !(proj2 (lookup_ge_None _ _)); [done|rewrite length_seq; lia|lia]. }
  destruct (lookup_lt_is_Some_2 A l) as [x Ex]; [lia|]. rewrite Ex, lookup_seq_lt by lia. cbn [fmap option_fmap option_map]. f_equal.
  pose proof (proj1 (Forall_lookup _ _) HA64 l x Ex) as Hx. apply Z.bits_inj'. intros i Hi.
  rewrite of_bits_bit by done. destruct (Z.ltb_spec i (Z.of_nat 64)) as [H64|H64]; cbn [andb].
  - cbv beta. unfold string_bit. rewrite Nat.add_0_l. set (z := Z.to_nat i). assert (Z.of_nat z = i) as Ez by lia.
    replace (64 * l + z)%nat with (z + l * 64)%nat by lia. rewrite Nat.div_add, Nat.Div0.mod_add, (Nat.div_small z), (Nat.mod_small z 64) by lia.
    rewrite Nat.add_0_l, (nth_lookup_Some _ _ _ _ Ex), Ez. destruct (Nat.ltb_spec l (length b / 8)) as [Hlb|Hlb].
    + rewrite Z.lxor_spec. f_equal. rewrite <- Ez, le_value_bit by by apply Forall_take, Forall_drop. unfold message_bit.
      replace (z + l * 64)%nat with (z + (8 * l) * 8)%nat by lia. rewrite Nat.div_add, Nat.Div0.mod_add by lia. f_equal.
      assert (z / 8 < 8)%nat by (apply Nat.Div0.div_lt_upper_bound; lia).
      rewrite !nth_lookup, lookup_take_lt, lookup_drop by done. do 2 f_equal. lia.
    + unfold message_bit. replace (z + l * 64)%nat with (z + (8 * l) * 8)%nat by lia. rewrite Nat.div_add by lia.
      by rewrite (nth_overflow b), Z.bits_0, xorb_false_r by lia.
  - rewrite is_u64_bits in Hx. destruct (_ <? _)%nat; [|apply Hx; lia]. rewrite Z.lxor_spec, Hx by lia.
    pose proof (le_value_bound (take 8 (drop (8 * l) b)) (Forall_take _ _ _ (Forall_drop _ _ _ Hb))) as Hv.
    rewrite (proj1 (bounded_bits 64 _ ltac:(lia))); [done| |lia]. split; [lia|]. eapply Z.lt_le_trans; [apply Hv|].
    apply Z.pow_le_mono_r; [lia|]. rewrite length_take. lia.
Qed.

Lemma of_bits_ext n f g : (forall i, (i < n)%nat -> f i = g i) -> of_bits n f = of_bits n g.
Proof.
  revert f g. induction n as [|n IH]; intros f g H; [done|]. cbn [of_bits]. rewrite (H O) by lia.
  by rewrite (IH _ (fun i => g (S i))) by (intros i Hi; apply H; lia).
Qed.

Lemma le_bytes_bits n x :
  le_bytes n x = map (fun j => of_bits 8 (fun i => Z.testbit x (Z.of_nat (8 * j + i)))) (seq 0 n).
Proof.
  revert x. induction n as [|n IH]; intros x; [done|]. cbn [le_bytes seq map]. f_equal.
  - apply Z.bits_inj'. intros i Hi. rewrite of_bits_bit by done. unfold u8.
    destruct (Z.ltb_spec i (Z.of_nat 8)); [|by rewrite Z.mod_pow2_bits_high by lia].
    rewrite Z.mod_pow2_bits_low by lia. cbn [andb]. f_equal. lia.
  - rewrite IH, <- seq_shift, map_map. apply map_ext. intros j. apply of_bits_ext. intros i _.
    rewrite Z.shiftr_spec by lia. f_equal. lia.
Qed.

Lemma map_seq_add {A} (f : nat -> A) a n : map f (seq (0 + a) n) = map (fun j => f (a + j)%nat) (seq 0 n).
Proof.
  revert f a. induction n as [|n IH]; intros f a; [done|]. cbn [seq map]. rewrite Nat.add_0_r, Nat.add_0_l. f_equal.
  rewrite (IH f (S a) : map f (seq (S a) n) = _), <- seq_shift, map_map. apply map_ext. intros j. f_equal. lia.
Qed.

(** Output word by word is output bit by bit. *)
Lemma words_bytes k A : (k <= length A)%nat -> concat (map (le_bytes 8) (take k A)) = string_bytes A (8 * k).
Proof.
  revert A. induction k as [|k IH]; intros [|x A] Hk; cbn [length] in Hk; [done..|lia|]. cbn [take firstn map concat].
  rewrite IH by lia. unfold string_bytes. replace (8 * S k)%nat with (8 + 8 * k)%nat by lia. rewrite seq_app, map_app. f_equal.
  - rewrite le_bytes_bits. apply map_ext_in. intros j Hj%in_seq. apply of_bits_ext. intros i Hi. unfold string_bit.
    by rewrite Nat.div_small, Nat.mod_small by lia.
  - rewrite (map_seq_add _ 8). apply map_ext. intros j. apply of_bits_ext. intros i _. unfold string_bit.
    replace (8 * (8 + j) + i)%nat with (8 * j + i + 1 * 64)%nat by lia.
    rewrite Nat.div_add, Nat.Div0.mod_add by lia. by rewrite Nat.add_1_r.
Qed.

Lemma copyOut_bytes A r : rate_ok r -> length A = 25%nat -> copyOutGeneric A r = string_bytes A r.
Proof.
  intros [Hm Hr] HA. unfold copyOutGeneric. unfold maxRate in Hm. rewrite words_bytes by lia. by rewrite <- Hr.
Qed.

Lemma squeezed_standard r k A : rate_ok r -> u64s A -> squeezed r k A = squeeze k r A.
Proof.
  intros Hr. revert A. induction k as [|k IH]; intros A HA; [done|]. cbn [squeezed squeeze].
  by rewrite (copyOut_bytes A r Hr (proj1 HA)), IH by by apply keccak_f_u64.
Qed.

Lemma absorbed_standard r k A P :
  rate_ok r -> u64s A -> Forall is_u8 P -> length P = (k * r)%nat -> foldl (feed r) (A, []) P = (absorb k r A P, []).
Proof.
  intros Hr. revert A P. induction k as [|k IH]; intros A P HA HP Hl; pose proof Hr as [Hm H8].
  { by destruct P. }
  assert (length (take r P) = r) as Ht by (rewrite length_take; lia). cbn [absorb].
  rewrite <- (take_drop r P) at 1. rewrite foldl_app, feed_full; cbn [app length]; [|lia|intros E; rewrite E in Ht; cbn in Ht; lia].
  assert (Forall is_u8 (take r P)) as Hu by by apply Forall_take.
  rewrite xorIn_block by (rewrite ?Ht; done || lia). apply IH.
  - apply keccak_f_u64. rewrite <- xorIn_block by (rewrite ?Ht; done || lia). by apply xorIn_u64s.
  - by apply Forall_drop.
  - rewrite length_drop. lia.
Qed.

(** What waits behind the last full block. *)
Lemma feed_rest r A b p :
  (0 < r)%nat -> (length b < r)%nat -> length (foldl (feed r) (A, b) p).2 = ((length b + length p) mod r)%nat.
Proof.
  intros Hr. revert A b. induction p as [|x p IH]; intros A b Hb; cbn [foldl length].
  { rewrite Nat.add_0_r. by rewrite Nat.mod_small. }
  unfold feed at 2. rewrite length_app. cbn [fst snd length]. destruct (Nat.eqb_spec (length b + 1) r) as [E|E].
  - rewrite IH by (cbn; lia). replace (length b + S (length p))%nat with (length p + 1 * r)%nat by lia.
    by rewrite Nat.Div0.mod_add.
  - rewrite IH by (rewrite length_app; cbn; lia). f_equal. rewrite length_app. cbn. lia.
Qed.

Lemma sponge_standard r ds M n :
  rate_ok r -> is_u8 ds -> Forall is_u8 M -> sponge r ds M n = standard r ds M n.
Proof.
  intros Hr Hds HM. pose proof Hr as [Hm _]. unfold sponge, standard.
  assert (length (absorbed r M).2 = length M mod r)%nat as -> by (apply feed_rest; cbn; lia).
  set (P := M ++ padding r ds (length M mod r)).
  assert (Forall is_u8 P) as HP by (apply Forall_app; auto using padding_u8).
  assert (length P = length P / r * r)%nat as Hl.
  { pose proof (length_padding r ds (length M mod r)%nat (Nat.mod_upper_bound _ r ltac:(lia))) as E.
    pose proof (Nat.div_mod_eq (length M) r) as D.
    assert (length P = (length M / r + 1) * r)%nat as -> by (unfold P; rewrite length_app; nia). by rewrite Nat.div_mul by lia. }
  unfold absorbed. rewrite (absorbed_standard r (length P / r)) by auto using zero_lanes. cbn [fst].
  rewrite squeezed_standard; [done..|].
  pose proof (feeds_ok r (replicate 25 0, []) P HP) as Hf.
  rewrite (absorbed_standard r (length P / r)) in Hf by auto using zero_lanes. apply Hf. split; [apply zero_lanes|].
  split; [constructor|]. cbn. lia.
Qed.

Lemma rate_144 : rate_ok 144.
Proof. split; [unfold maxRate; lia|reflexivity]. Qed.

Lemma rate_104 : rate_ok 104.
Proof. split; [unfold maxRate; lia|reflexivity]. Qed.

(** A fixed hash of a message written in pieces. *)
Lemma pieces_standard r n ds data :
  rate_ok r -> is_u8 ds -> Forall (Forall is_u8) data ->
  (let* d := writeAll data (newState r n ds) in Sum [] d) = Ok (standard r ds (concat data) n).
Proof. intros Hr Hds Hd. rewrite writeAll_Sum by done. by rewrite sponge_standard; [|..|apply Forall_concat]. Qed.

(** Output read in pieces. *)
Fixpoint readAll (ns : list nat) (d : state) : res endless (list Z) :=
  match ns with
  | [] => Ok []
  | n :: ns => let* (out, d) := Read n d in let* outs := readAll ns d in Ok (out ++ outs)
  end.

Lemma output_split r A off n m :
  rate_ok r -> u64s A -> (off < r)%nat -> output r A off (n + m) = output r A off n ++ drop n (output r A off (n + m)).
Proof.
  intros Hr HA Ho. rewrite <- (take_drop n (output r A off (n + m))) at 1. f_equal. unfold output at 1.
  rewrite take_take, Nat.min_l by lia. destruct Hr. apply output_blocks; [done..|nia|lia].
Qed.

Lemma readAll_squeezes r ns d A off :
  rate_ok r -> squeezes r d A off -> readAll ns d = Ok (output r A off (sum_list ns)).
Proof.
  intros Hr. revert d A off. induction ns as [|n ns IH]; intros d A off H; cbn [readAll sum_list sum_list_with]; [done|].
  unfold Read. rewrite (sq_dir _ _ _ _ H).
  destruct (readLoop_squeezes r Hr n n d A off ltac:(done) H) as (d' & A' & off' & -> & H' & Hm & _). cbn [res_bind].
  rewrite (IH d' A' off' H'), Hm. cbn [res_bind]. rewrite <- output_split; [done..|apply H|apply H].
Qed.

Lemma take_sponge r ds M k m : rate_ok r -> take k (sponge r ds M (k + m)) = sponge r ds M k.
Proof.
  intros Hr. unfold sponge. rewrite take_take, Nat.min_l by lia.
  destruct (squeezed_prefix r k m (absorbed r (M ++ padding r ds (length (absorbed r M).2))).1) as [t ->].
  apply take_app_le. rewrite length_squeezed by (done || apply length_absorbed). destruct Hr. nia.
Qed.

(** An extendable hash of a message written in pieces, its output read in pieces. *)
Lemma output_standard r n ds data ns :
  rate_ok r -> is_u8 ds -> Forall (Forall is_u8) data ->
  (let* d := writeAll data (newState r n ds) in readAll ns d) = Ok (standard r ds (concat data) (sum_list ns)).
Proof.
  intros Hr Hds Hd. rewrite <- sponge_standard by first [done|by apply Forall_concat].
  destruct (writeAll_absorbing r ds n Hr data _ [] Hd (new_absorbing r ds n Hr)) as (d & -> & H). cbn [res_bind app].
  destruct ns as [|k ns]; [done|]. cbn [readAll].
  destruct (Read_output r Hr ds n d (concat data) k Hds H) as (d' & A & off & -> & Hq & Hk & _). cbn [res_bind].
  rewrite (readAll_squeezes r ns d' A off Hr Hq), Hk. cbn [res_bind sum_list sum_list_with]. do 2 f_equal.
  rewrite <- (take_sponge r ds (concat data) k (sum_list ns)) by done. apply take_drop.
Qed.

(** C9: Whatever pieces a message is hashed in, the result is the sponge of the
    standard, stated on the bits of its string of 1600, applied to the message as
    a whole: for Keccak-256 and Keccak-512 (padding 0x01), for SHA3-224, SHA3-256,
    SHA3-384 and SHA3-512 (padding 0x06), and for SHAKE-128 and SHAKE-256 (padding
    0x1f) whatever pieces the output is read in.  The code adds words, permutes in
    place with four rounds unrolled and buffers what does not fill a block; none
    of it shows in the result. *)
Theorem hashing_standard data ns :
  Forall (Forall is_u8) data ->
  Keccak256 data = Ok (standard 136 0x01 (concat data) 32) /\
  Keccak512 data = Ok (standard 72 0x01 (concat data) 64) /\
  (let* d := writeAll data New224 in Sum [] d) = Ok (standard 144 0x06 (concat data) 28) /\
  (let* d := writeAll data New256 in Sum [] d) = Ok (standard 136 0x06 (concat data) 32) /\
  (let* d := writeAll data New384 in Sum [] d) = Ok (standard 104 0x06 (concat data) 48) /\
  (let* d := writeAll data New512 in Sum [] d) = Ok (standard 72 0x06 (concat data) 64) /\
  (let* d := writeAll data NewShake128 in readAll ns d) = Ok (standard 168 0x1f (concat data) (sum_list ns)) /\
  (let* d := writeAll data NewShake256 in readAll ns d) = Ok (standard 136 0x1f (concat data) (sum_list ns)).
Proof.
  intros H. assert (is_u8 0x01 /\ is_u8 0x06 /\ is_u8 0x1f) as (H1 & H6 & Hs) by (unfold is_u8; lia).
  repeat split.
  - by apply (pieces_standard 136); [apply rate_136|..].
  - by apply (pieces_standard 72); [apply rate_72|..].
  - by apply (pieces_standard 144); [apply rate_144|..].
  - by apply (pieces_standard 136); [apply rate_136|..].
  - by apply (pieces_standard 104); [apply rate_104|..].
  - by apply (pieces_standard 72); [apply rate_72|..].
  - by apply (output_standard 168); [apply rate_168|..].
  - by apply (output_standard 136); [apply rate_136|..].
Qed.

(** The empty message in two empty pieces: the well-known hash; and SHAKE-128 of
    three bytes in two pieces, read in two pieces. *)
Lemma hashing_standard_witness :
  Keccak256 [[]; []] = Ok (standard 136 0x01 (concat [[]; []]) 32) /\
  Keccak256 [[]; []] = Ok
    [0xc5; 0xd2; 0x46; 0x01; 0x86; 0xf7; 0x23; 0x3c; 0x92; 0x7e; 0x7d; 0xb2; 0xdc; 0xc7; 0x03; 0xc0;
     0xe5; 0x00; 0xb6; 0x53; 0xca; 0x82; 0x27; 0x3b; 0x7b; 0xfa; 0xd8; 0x04; 0x5d; 0x85; 0xa4; 0x70] /\
  (let* d := writeAll [[0x61]; [0x62; 0x63]] NewShake128 in readAll [3; 5]%nat d)
  = Ok (standard 168 0x1f [0x61; 0x62; 0x63] 8) /\
  (let* d := writeAll [[0x61]; [0x62; 0x63]] NewShake128 in readAll [3; 5]%nat d)
  = Ok [0x58; 0x81; 0x09; 0x2d; 0xd8; 0x18; 0xbf; 0x5c].
Proof.
  split; [|split; [vm_compute; reflexivity|split; [|vm_compute; reflexivity]]].
  - exact (proj1 (hashing_standard [[]; []] [] ltac:(repeat constructor))).
  - destruct (hashing_standard [[0x61]; [0x62; 0x63]] [3; 5]%nat ltac:(repeat constructor; discriminate)) as (_ & _ & _ & _ & _ & _ & Hs & _).
    exact Hs.
Defined.

(** A copy of a SHAKE hash that has begun to give output.  The copy of a
    SHAKE-128 hash is the hash itself, and goes on with the same output.  With
    the smaller block of SHAKE-256 the capacity of the buffer is not what the
    code takes it for: a copy before 32 bytes are read panics. *)
Theorem shake_clone p n d out d' :
  Forall is_u8 p ->
  (Write p NewShake128 = Ok d -> Read n d = Ok (out, d') -> clone d' = Ok d') /\
  (Write p NewShake256 = Ok d -> Read n d = Ok (out, d') -> (n < 32)%nat -> clone d' = Panic).
Proof.
  intros Hp. assert (is_u8 0x1f) as Hds by by unfold is_u8. split.
  - intros Hw Hrd. destruct (Write_absorbing 168 0x1f 0 rate_168 p _ [] Hp (new_absorbing 168 0x1f 0 rate_168)) as (d1 & E & H).
    unfold NewShake128 in Hw. rewrite E in Hw. injection Hw as ->.
    destruct (Read_output 168 rate_168 0x1f 0 d p n Hds H) as (d2 & A & off & E2 & Hq & _).
    rewrite E2 in Hrd. injection Hrd as _ ->. by apply (clone_squeezes A off).
  - intros Hw Hrd Hn. destruct (Write_absorbing 136 0x1f 0 rate_136 p _ [] Hp (new_absorbing 136 0x1f 0 rate_136)) as (d1 & E & H).
    unfold NewShake256 in Hw. rewrite E in Hw. injection Hw as ->.
    destruct (Read_output 136 rate_136 0x1f 0 d p n Hds H) as (d2 & A & off & E2 & Hq & _ & Ho).
    rewrite E2 in Hrd. injection Hrd as _ ->. unfold clone.
    rewrite (sq_dir _ _ _ _ Hq), (sq_rate _ _ _ _ Hq), (sq_off _ _ _ _ Hq), Ho by lia. unfold maxRate. bcase; [done|lia].
Qed.

Lemma shake_clone_witness :
  exists d out d', Write [1; 2; 3] NewShake256 = Ok d /\ Read 16 d = Ok (out, d') /\ clone d' = Panic.
Proof.
  eexists _, _, _. split; [vm_compute; reflexivity|]. split; [vm_compute; reflexivity|].
  eapply (proj2 (shake_clone [1; 2; 3] 16 _ _ _ ltac:(repeat constructor; discriminate))).
  - vm_compute. reflexivity.
  - vm_compute. reflexivity.
  - lia.
Defined.
