(* ===== verification/TrieKeys.v ===== *)
(** * Key encodings of the trie ([trie/encoding.go])

    A key of the trie is bytes (KEYBYTES), nibbles with an optional terminator 16
    (HEX), or packed nibbles behind a flag (COMPACT).  Slices are lists of
    numbers; an index out of range is a [Panic]. *)

From S2P Require Import Prelude.

(** ** The conversions *)

(** [hasTerm]: [len(s) > 0 && s[len(s)-1] == 16]. *)
Definition hasTerm (s : list Z) : bool :=
  match last s with
  | Some x => x =? 16
  | None => false
  end.

(** [s[:len(s)-1]] of a slice that is not empty. *)
Definition butlast (s : list Z) : list Z := take (length s - 1) s.

(** [decodeNibbles]: what is in [bytes] afterwards.  An odd number of nibbles and
    too few bytes are indices out of range. *)
Fixpoint decodeNibbles (nibbles bytes : list Z) : eff (list Z) :=
  match nibbles, bytes with
  | [], _ => Ok bytes
  | a :: b :: nibbles, _ :: bytes =>
      let* bytes := decodeNibbles nibbles bytes in
      Ok (Z.lor (u8 (Z.shiftl a 4)) b :: bytes)
  | _, _ => Panic
  end.

Definition hexToCompact (hex : list Z) : eff (list Z) :=
  let terminator := if hasTerm hex then 1 else 0 in
  let hex := if hasTerm hex then butlast hex else hex in
  let buf := replicate (length hex / 2) 0 in
  let buf0 := u8 (Z.shiftl terminator 5) in
  if Nat.odd (length hex) then
    let* h0 := go_index hex 0 in
    let buf0 := Z.lor (Z.lor buf0 (Z.shiftl 1 4)) h0 in
    let* buf := decodeNibbles (drop 1 hex) buf in
    Ok (buf0 :: buf)
  else
    let* buf := decodeNibbles hex buf in
    Ok (buf0 :: buf).

Definition keybytesToHex (str : list Z) : list Z :=
  concat (map (fun b => [b / 16; b mod 16]) str) ++ [16].

Definition compactToHex (compact : list Z) : eff (list Z) :=
  let base := butlast (keybytesToHex compact) in
  let* b0 := go_index base 0 in
  let base := if b0 >=? 2 then base ++ [16] else base in
  let chop := 2 - Z.land b0 1 in
  Ok (drop (Z.to_nat chop) base).

Definition hexToKeybytes (hex : list Z) : eff (list Z) :=
  let hex := if hasTerm hex then butlast hex else hex in
  if Nat.odd (length hex) then Panic
  else decodeNibbles hex (replicate ((length hex + 1) / 2) 0).

(** [prefixLen]: the loop runs to the first difference or the shorter end. *)
Fixpoint prefixLen (a b : list Z) : nat :=
  match a, b with
  | x :: a, y :: b => if x =? y then S (prefixLen a b) else 0
  | _, _ => 0
  end.

(** ** Paths and keys

    A path is a list of nibbles; the key of an entry is a path with the
    terminator.  What a short node holds is one of the two, and not empty. *)

Definition is_nibble (x : Z) : Prop := 0 <= x < 16.

Definition path (p : list Z) : Prop := Forall is_nibble p.

Definition hexkey (k : list Z) : Prop := exists p, path p /\ k = p ++ [16].

Definition hexpart (k : list Z) : Prop := path k \/ hexkey k.

#[global] Instance is_nibble_dec x : Decision (is_nibble x).
Proof. unfold is_nibble. apply _. Defined.

#[global] Instance path_dec p : Decision (path p).
Proof. unfold path. apply _. Defined.

Lemma hasTerm_snoc p x : hasTerm (p ++ [x]) = (x =? 16).
Proof. unfold hasTerm. by rewrite last_snoc. Qed.

Lemma butlast_snoc p x : butlast (p ++ [x]) = p.
Proof. unfold butlast. rewrite length_app, Nat.add_sub. apply take_app_length. Qed.

Lemma hasTerm_path p : path p -> hasTerm p = false.
Proof.
  destruct p as [|x p _] using rev_ind; intros H; [done|]. rewrite hasTerm_snoc.
  apply Forall_app in H as [_ [H _]%Forall_cons]. unfold is_nibble in H. apply Z.eqb_neq. lia.
Qed.

Lemma hasTerm_hexkey k : hexkey k -> hasTerm k = true.
Proof. intros (p & _ & ->). apply hasTerm_snoc. Qed.

(** The nibbles a key starts with, and whether it is terminated. *)
Lemma hexpart_split k :
  hexpart k ->
  exists p, path p /\ k = p ++ (if hasTerm k then [16] else []) /\ (if hasTerm k then butlast k else k) = p.
Proof.
  intros [H|H].
  - rewrite hasTerm_path by done. exists k. by rewrite app_nil_r.
  - rewrite hasTerm_hexkey by done. destruct H as (p & Hp & ->). exists p. by rewrite butlast_snoc.
Qed.

Lemma hexkey_cons x k : hexkey (x :: k) <-> (x = 16 /\ k = []) \/ (is_nibble x /\ hexkey k).
Proof.
  split.
  - intros ([|y p] & Hp & E); cbn [app] in E; injection E as -> ->; [by left|]. apply Forall_cons in Hp as [Hy Hp].
    right. split; [done|]. by exists p.
  - intros [[-> ->]|[Hx (p & Hp & ->)]]; [exists []; split; [constructor|done]|]. exists (x :: p). split; [by constructor|done].
Qed.

Lemma hexkey_nil : ~ hexkey [].
Proof. by intros ([|] & _ & [=]). Qed.

(** A key is not a proper prefix of a key. *)
Lemma hexkey_prefix k r : hexkey k -> hexkey (k ++ r) -> r = [].
Proof.
  intros (p & Hp & ->). induction Hp as [|x p Hx Hp IH]; cbn [app]; rewrite hexkey_cons.
  - unfold is_nibble. intros [[_ E]|[? _]]; [done|lia].
  - unfold is_nibble in Hx. intros [[-> _]|[_ H]]; [lia|auto].
Qed.

Lemma path_prefix p r : path p -> hexkey (p ++ r) <-> hexkey r.
Proof.
  intros Hp. induction Hp as [|x p Hx Hp IH]; cbn [app]; [done|]. rewrite hexkey_cons, IH.
  unfold is_nibble in *. split; [|auto]. intros [[-> _]|[_ H]]; [lia|done].
Qed.

(** ** The packed form *)

Fixpoint packed (p : list Z) : list Z :=
  match p with
  | a :: b :: p => a * 16 + b :: packed p
  | _ => []
  end.

(** The packed form of a path with or without a terminator. *)
Definition compact (k : list Z) : list Z :=
  let p := if hasTerm k then butlast k else k in
  let flag := if hasTerm k then 2 else 0 in
  if Nat.odd (length p) then (flag + 1) * 16 + hd 0 p :: packed (drop 1 p)
  else flag * 16 :: packed p.

Lemma pack_nibbles a b : is_nibble a -> is_nibble b -> Z.lor (u8 (Z.shiftl a 4)) b = a * 16 + b.
Proof.
  unfold is_nibble. intros Ha Hb. rewrite u8_small, lor_shiftl_add by (rewrite ?Z.shiftl_mul_pow2; unfold is_u8; lia).
  lia.
Qed.

Lemma pair_ind (P : list Z -> Prop) :
  P [] -> (forall x, P [x]) -> (forall x y l, P l -> P (x :: y :: l)) -> forall l, P l.
Proof.
  intros H0 H1 H2. assert (forall l, P l /\ forall x, P (x :: l)) as H; [|intros l; apply H].
  induction l as [|y l [IH IHx]]; auto.
Qed.

(** The nibbles of bytes. *)
Definition nibbles (b : list Z) : list Z := concat (map (fun b => [b / 16; b mod 16]) b).

Lemma keybytesToHex_nibbles b : keybytesToHex b = nibbles b ++ [16].
Proof. done. Qed.

Lemma nibbles_path b : Forall is_u8 b -> path (nibbles b).
Proof.
  unfold is_u8. induction 1 as [|x b Hx Hb IH]; cbn; [constructor|].
  constructor; [|constructor; [|exact IH]]; unfold is_nibble; [|by apply Z.mod_pos_bound].
  split; [apply Z.div_pos|apply Z.div_lt_upper_bound]; lia.
Qed.

Lemma nibbles_cons a x b : is_nibble x -> nibbles (a * 16 + x :: b) = a :: x :: nibbles b.
Proof.
  unfold is_nibble. intros Hx. cbn. rewrite Z.div_add_l, Z.div_small, Z.add_0_r by lia.
  by rewrite (Z.add_comm _ x), Z.mod_add, Z.mod_small by lia.
Qed.

Lemma packed_nibbles b : packed (nibbles b) = b.
Proof.
  induction b as [|x b IH]; cbn; [done|]. f_equal; [|exact IH].
  rewrite Z.mul_comm. symmetry. by apply Z.div_mod.
Qed.

Lemma nibbles_packed p : path p -> Nat.odd (length p) = false -> nibbles (packed p) = p.
Proof.
  induction p as [|x|x y p IH] using pair_ind; intros Hp Hl; [done..|].
  apply Forall_cons in Hp as [Hx [Hy Hp]%Forall_cons]. cbn [packed]. by rewrite nibbles_cons, IH.
Qed.

Lemma length_nibbles b : length (nibbles b) = (2 * length b)%nat.
Proof. unfold nibbles. induction b as [|x b IH]; cbn; [done|]. rewrite IH. lia. Qed.

Lemma odd_double n : Nat.odd (2 * n) = false.
Proof. by rewrite Nat.odd_mul. Qed.

Lemma packed_u8 p : path p -> Forall is_u8 (packed p).
Proof.
  induction p as [|x|x y p IH] using pair_ind; intros Hp; [constructor..|].
  apply Forall_cons in Hp as [Hx [Hy Hp]%Forall_cons]. unfold is_nibble in *.
  constructor; [unfold is_u8; lia|by apply IH].
Qed.

Lemma length_packed p : length (packed p) = (length p / 2)%nat.
Proof.
  induction p as [|x|x y p IH] using pair_ind; [done..|]. cbn [packed length]. rewrite IH.
  change (S (S (length p))) with (2 + length p)%nat. symmetry. apply (Nat.div_add_l 1 2 (length p)). lia.
Qed.

Lemma decodeNibbles_packed p bytes :
  path p -> length p = (2 * length bytes)%nat -> decodeNibbles p bytes = Ok (packed p).
Proof.
  revert bytes. induction p as [|x|x y p IH] using pair_ind; intros [|b bytes] Hp Hl; cbn in Hl; try lia; [done|].
  apply Forall_cons in Hp as [Hx [Hy Hp]%Forall_cons]. cbn [decodeNibbles packed].
  rewrite IH by (done || lia). cbn. by rewrite pack_nibbles.
Qed.

Lemma half_even n : Nat.odd n = false -> n = (2 * (n / 2))%nat.
Proof. intros H. rewrite (Nat.div2_odd n) at 1. rewrite H, Nat.div2_div. cbn [Nat.b2n]. lia. Qed.

Lemma half_odd n : Nat.odd n = true -> n = S (2 * (n / 2)).
Proof. intros H. rewrite (Nat.div2_odd n) at 1. rewrite H, Nat.div2_div. cbn [Nat.b2n]. lia. Qed.

(** [hexToCompact] of what a node holds is its packed form. *)
Lemma hexToCompact_compact k : hexpart k -> hexToCompact k = Ok (compact k).
Proof.
  intros Hk. unfold hexToCompact, compact. destruct (hexpart_split k Hk) as (p & Hp & _ & Ep). rewrite Ep.
  destruct (Nat.odd (length p)) eqn:Ho.
  - pose proof (half_odd _ Ho) as Hl. destruct p as [|x p]; [done|]. apply Forall_cons in Hp as [Hx Hp].
    change (drop 1 (x :: p)) with p. rewrite decodeNibbles_packed; [|done|rewrite length_replicate; cbn [length] in *; lia].
    rewrite (go_index_nth _ 0 x) by done. cbn [res_bind]. unfold is_nibble in Hx. f_equal. f_equal.
    destruct (hasTerm k); [exact (lor_shiftl_add 4 3 x ltac:(lia) Hx)|exact (lor_shiftl_add 4 1 x ltac:(lia) Hx)].
  - pose proof (half_even _ Ho) as Hl. rewrite decodeNibbles_packed; [|done|rewrite length_replicate; lia].
    cbn. by destruct (hasTerm k).
Qed.

Lemma compact_u8 k : hexpart k -> Forall is_u8 (compact k).
Proof.
  intros Hk. unfold compact. destruct (hexpart_split k Hk) as (p & Hp & _ & Ep). rewrite Ep.
  destruct (Nat.odd (length p)) eqn:Ho.
  - destruct p as [|x p]; [done|]. apply Forall_cons in Hp as [Hx Hp]. unfold is_nibble in Hx.
    change (drop 1 (x :: p)) with p. cbn [hd]. constructor; [destruct (hasTerm k); unfold is_u8; lia|by apply packed_u8].
  - constructor; [destruct (hasTerm k); unfold is_u8; lia|by apply packed_u8].
Qed.

Lemma length_packed_le p : (length (packed p) <= length p)%nat.
Proof. induction p as [|x|x y p IH] using pair_ind; cbn; lia. Qed.

Lemma length_compact k : (length (compact k) <= length k + 1)%nat.
Proof.
  unfold compact. assert (length (if hasTerm k then butlast k else k) <= length k)%nat as H.
  { destruct (hasTerm k); unfold butlast; rewrite ?length_take; lia. }
  revert H. generalize (if hasTerm k then butlast k else k). intros p H.
  pose proof (length_packed_le p). pose proof (length_packed_le (drop 1 p)). rewrite length_drop in *.
  destruct (Nat.odd _); cbn [length]; lia.
Qed.

(** Unpacking gives the key back. *)
Lemma compactToHex_compact k : hexpart k -> compactToHex (compact k) = Ok k.
Proof.
  intros Hk. unfold compactToHex. rewrite keybytesToHex_nibbles, butlast_snoc.
  unfold compact. destruct (hexpart_split k Hk) as (p & Hp & Ek & Ep). rewrite Ep.
  transitivity (@Ok Empty_set _ (p ++ if hasTerm k then [16] else [])); [|by f_equal]. clear Ek Ep Hk.
  destruct (Nat.odd (length p)) eqn:Ho.
  - destruct p as [|x p]; [done|]. apply Forall_cons in Hp as [Hx Hp].
    cbn [hd]. change (drop 1 (x :: p)) with p.
    assert (Nat.odd (length p) = false) as Hp' by (cbn [length] in Ho; rewrite Nat.odd_succ in Ho; by rewrite <- Nat.negb_even, Ho).
    replace (nibbles _) with ((if hasTerm k then 3 else 1) :: x :: p); [by destruct (hasTerm k); rewrite ?app_nil_r|].
    rewrite nibbles_cons, nibbles_packed by done. by destruct (hasTerm k).
  - replace (nibbles _) with ((if hasTerm k then 2 else 0) :: 0 :: p); [by destruct (hasTerm k); rewrite ?app_nil_r|].
    cbn [nibbles map concat app]. fold (nibbles (packed p)). rewrite nibbles_packed by done.
    by destruct (hasTerm k).
Qed.

Lemma keybytesToHex_hexkey b : Forall is_u8 b -> hexkey (keybytesToHex b).
Proof. intros Hb. exists (nibbles b). split; [by apply nibbles_path|done]. Qed.

Lemma hexToKeybytes_keybytesToHex b : Forall is_u8 b -> hexToKeybytes (keybytesToHex b) = Ok b.
Proof.
  intros Hb. unfold hexToKeybytes. rewrite hasTerm_hexkey, keybytesToHex_nibbles, butlast_snoc by by apply keybytesToHex_hexkey.
  rewrite length_nibbles, odd_double. rewrite decodeNibbles_packed, packed_nibbles; [done|by apply nibbles_path|].
  rewrite length_replicate, length_nibbles, (Nat.mul_comm 2 (length b)), Nat.div_add_l by lia. cbn. lia.
Qed.

Lemma keybytesToHex_inj b c : keybytesToHex b = keybytesToHex c -> b = c.
Proof.
  rewrite !keybytesToHex_nibbles. intros E%app_inj_2; [|done]. destruct E as [E _].
  by rewrite <- (packed_nibbles b), E, packed_nibbles.
Qed.

Lemma length_keybytesToHex b : length (keybytesToHex b) = (2 * length b + 1)%nat.
Proof. by rewrite keybytesToHex_nibbles, length_app, length_nibbles. Qed.

(** ** Common prefixes *)

Lemma prefixLen_spec a b :
  exists c r s, a = c ++ r /\ b = c ++ s /\ prefixLen a b = length c /\
                (forall x r' y s', r = x :: r' -> s = y :: s' -> x <> y).
Proof.
  revert b. induction a as [|x a IH]; intros b; [by exists [], [], b|].
  destruct b as [|y b]; [by exists [], (x :: a), []|]. cbn [prefixLen]. bcase.
  - subst y. destruct (IH b) as (c & r & s & -> & -> & -> & H). by exists (x :: c), r, s.
  - exists [], (x :: a), (y :: b). split_and!; [done..|]. by intros ? ? ? ? [= <- <-] [= <- <-].
Qed.

Lemma prefixLen_app c r s :
  (forall x r' y s', r = x :: r' -> s = y :: s' -> x <> y) -> prefixLen (c ++ r) (c ++ s) = length c.
Proof.
  intros H. induction c as [|z c IH]; cbn; [|by rewrite Z.eqb_refl, IH].
  destruct r as [|x r]; [done|]. destruct s as [|y s]; [done|]. cbn.
  by rewrite (proj2 (Z.eqb_neq x y)) by by eapply H.
Qed.

(** The encodings of keys lose nothing: the nibbles of a byte string give it
    back, and the compact form of a run of nibbles, with or without terminator
    and of even or odd length, is bytes that give the run back. *)
Theorem key_encodings_roundtrip b k :
  Forall is_u8 b -> hexpart k ->
  hexToKeybytes (keybytesToHex b) = Ok b /\
  exists c, hexToCompact k = Ok c /\ Forall is_u8 c /\ compactToHex c = Ok k.
Proof.
  intros Hb Hk. split; [by apply hexToKeybytes_keybytesToHex|]. exists (compact k).
  split; [by apply hexToCompact_compact|]. split; [by apply compact_u8|by apply compactToHex_compact].
Qed.

Lemma key_encodings_roundtrip_witness :
  hexToKeybytes (keybytesToHex [0x12; 0xAB]) = Ok [0x12; 0xAB] /\
  exists c, hexToCompact [1; 2; 3; 16] = Ok c /\ Forall is_u8 c /\ compactToHex c = Ok [1; 2; 3; 16].
Proof.
  apply (key_encodings_roundtrip [0x12; 0xAB] [1; 2; 3; 16]); [by apply (bool_decide_unpack _)|].
  right. exists [1; 2; 3]. split; [by apply (bool_decide_unpack _)|reflexivity].
Defined.
