(* ===== verification/TrieNode.v ===== *)
(** * Nodes of the trie and their encoding ([trie/node.go])

    A node is absent, a hash that stands for a stored node, a value, a short
    node (a run of nibbles in front of one node) or a full node (one child per
    nibble and a value).  Nodes are never changed in place once they are shared,
    so they are plain values.  What is read from the database is bytes, and
    [decodeNode] makes nodes of them. *)

From S2P Require Import Rlp RlpCodec TrieKeys Prelude.

(** ** Nodes *)

(** The cached hash of the node, the cache generation and whether the node has
    to be written; a nil hash is [None]. *)
Record nodeFlag := mkFlag {
  fhash : option (list Z);
  gen : Z;
  dirty : bool
}.

(** A value node is a byte slice; [valueNode None] is [valueNode(nil)]. *)
Inductive node :=
| Nil
| hashNode (h : list Z)
| valueNode (v : option (list Z))
| shortNode (Key : list Z) (Val : node) (flags : nodeFlag)
| fullNode (Children : list node) (flags : nodeFlag).

(** The bytes of a slice that may be nil. *)
Definition slice (v : option (list Z)) : list Z := default [] v.

Definition isNil (n : node) : bool :=
  match n with
  | Nil => true
  | _ => false
  end.

(** [cache]: the cached hash and the dirty flag. *)
Definition cache (n : node) : option (list Z) * bool :=
  match n with
  | shortNode _ _ f | fullNode _ f => (fhash f, dirty f)
  | _ => (None, true)
  end.

(** [canUnload]; generations are [uint16]. *)
Definition flag_canUnload (f : nodeFlag) (cachegen cachelimit : Z) : bool :=
  negb (dirty f) && (u16 (cachegen - gen f) >=? cachelimit).

Definition canUnload (n : node) (cachegen cachelimit : Z) : bool :=
  match n with
  | shortNode _ _ f | fullNode _ f => flag_canUnload f cachegen cachelimit
  | _ => false
  end.

(** ** Decoding *)

(** Where a decoding error is: [wrapError] collects these. *)
Inductive derr_ctx := InShort | InFull | InVal | InChild (i : nat).

(** The errors of [decodeNode]; [decodeError] carries the path to the part that
    is wrong.  [NodeFuel] is no error of the code. *)
Inductive node_error :=
| UnexpectedEOF
| ListError (e : rlp_error)
| SplitError (e : rlp_error)
| ValueError (e : rlp_error)
| InvalidCount (c : Z)
| OversizedEmbedded (size : Z)
| InvalidSize (size : Z)
| decodeError (what : node_error) (stack : list derr_ctx)
| NodeFuel.

Definition wrapError (e : node_error) (ctx : derr_ctx) : node_error :=
  match e with
  | decodeError what stack => decodeError what (stack ++ [ctx])
  | NodeFuel => NodeFuel
  | e => decodeError e [ctx]
  end.

Definition hashLen : Z := 32.

(** A call that returns no error cannot fail, but it can panic. *)
Definition lift_eff {E A} (m : eff A) : res E A :=
  match m with
  | Ok a => Ok a
  | Err e => match e with end
  | Panic => Panic
  end.

Section Decode.
Context (dn : option (list Z) -> list Z -> Z -> res node_error node).

(** [decodeRef]: the node a reference in a parent stands for, and what follows. *)
Definition decodeRef (buf : list Z) (cachegen : Z) : res node_error (node * list Z) :=
  let* (kind, val, rest) := res_wrap SplitError (Split buf) in
  match kind with
  | List_ =>
      let size := Z.of_nat (length buf) - Z.of_nat (length rest) in
      if size >? hashLen then Err (OversizedEmbedded size)
      else
        let* n := dn None buf cachegen in
        Ok (n, rest)
  | String_ =>
      if Z.of_nat (length val) =? 0 then Ok (Nil, rest)
      else if Z.of_nat (length val) =? 32 then Ok (hashNode val, rest)
      else Err (InvalidSize (Z.of_nat (length val)))
  | Byte => Err (InvalidSize (Z.of_nat (length val)))
  end.

Definition decodeShort (hash : option (list Z)) (elems : list Z) (cachegen : Z) : res node_error node :=
  let* (kbuf, rest) := res_wrap SplitError (SplitString elems) in
  let flag := mkFlag hash cachegen false in
  let* key := lift_eff (compactToHex kbuf) in
  if hasTerm key then
    let* (val, _) := res_wrap ValueError (SplitString rest) in
    Ok (shortNode key (valueNode (Some val)) flag)
  else
    let* (r, _) := res_wrap (fun e => wrapError e InVal) (decodeRef rest cachegen) in
    Ok (shortNode key r flag).

(** The loop over the sixteen children, from [i] on. *)
Fixpoint decodeChildren (count i : nat) (elems : list Z) (cachegen : Z) : res node_error (list node * list Z) :=
  match count with
  | O => Ok ([], elems)
  | S count =>
      let* (cld, rest) := res_wrap (fun e => wrapError e (InChild i)) (decodeRef elems cachegen) in
      let* (l, rest) := decodeChildren count (S i) rest cachegen in
      Ok (cld :: l, rest)
  end.

Definition decodeFull (hash : option (list Z)) (elems : list Z) (cachegen : Z) : res node_error node :=
  let* (l, elems) := decodeChildren 16 0 elems cachegen in
  let* (val, _) := res_wrap SplitError (SplitString elems) in
  Ok (fullNode (l ++ [if Z.of_nat (length val) >? 0 then valueNode (Some val) else Nil]) (mkFlag hash cachegen false)).

(** The body of [decodeNode].  The error of [CountValues] is dropped; the count
    is 0 then. *)
Definition decodeNode_body (hash : option (list Z)) (buf : list Z) (cachegen : Z) : res node_error node :=
  if Z.of_nat (length buf) =? 0 then Err UnexpectedEOF
  else
    let* (elems, _) := res_wrap ListError (SplitList buf) in
    let c := match CountValues elems with Ok c => c | _ => 0 end in
    if c =? 2 then res_wrap (fun e => wrapError e InShort) (decodeShort hash elems cachegen)
    else if c =? 17 then res_wrap (fun e => wrapError e InFull) (decodeFull hash elems cachegen)
    else Err (InvalidCount c).
End Decode.

Fixpoint decodeNode_fuel (fuel : nat) : option (list Z) -> list Z -> Z -> res node_error node :=
  match fuel with
  | O => fun _ _ _ => Err NodeFuel
  | S fuel => decodeNode_body (decodeNode_fuel fuel)
  end.

(** An embedded node is shorter than the node around it. *)
Definition decodeNode (hash : option (list Z)) (buf : list Z) (cachegen : Z) : res node_error node :=
  decodeNode_fuel (S (length buf)) hash buf cachegen.

Definition mustDecodeNode {E} (hash : option (list Z)) (buf : list Z) (cachegen : Z) : res E node :=
  match decodeNode hash buf cachegen with
  | Ok n => Ok n
  | _ => Panic
  end.

(** ** Encoding

    What [rlp.Encode] makes of a node: a hash and a value are byte slices, a
    short node a pointer to a struct whose flags are not exported, and a full
    node hands its children to [rlp.Encode] ([EncodeRLP]). *)

Definition short_type : gtype := TPtr false (TStruct [TBytes; TIface]).

Fixpoint node_rlp (n : node) : option (gtype * gval) :=
  match n with
  | Nil => None
  | hashNode h => Some (TBytes, VBytes h)
  | valueNode v => Some (TBytes, VBytes (slice v))
  | shortNode k v _ => Some (short_type, VPtr (Some (VStruct [VBytes k; VIface (node_rlp v)])))
  | fullNode l _ => Some (TArray 17 TIface, VArray (map (fun c => VIface (node_rlp c)) l))
  end.

(** [rlp.EncodeToBytes(n)] of an interface that is not nil. *)
Definition encodeNode (n : node) : res enc_error (list Z) :=
  match node_rlp n with
  | Some (t, v) => EncodeToBytes t v
  | None => Panic
  end.
