(* ===== verification/TrieDatabase.v ===== *)
(** * The trie database ([trie/database.go], [mandb/memory_database.go])

    Nodes of tries wait in memory, by their hash, until they are written to the
    disk or nothing refers to them any more.  The disk is the interface
    [mandb.Database], the class [DiskDB] here, with the in-memory database of
    the package as an instance.  Hashes are their 32 bytes. *)

From stdpp Require Import strings.
From S2P Require Import Rlp RlpCodec Prelude.

(** [common.BytesToHash]: the last 32 bytes, with zeros in front. *)
Definition BytesToHash (b : list Z) : list Z :=
  let b := drop (length b - 32) b in
  replicate (32 - length b) 0 ++ b.

Definition emptyHash : list Z := replicate 32 0.

(** ** The disk *)

(** What the database uses of a disk and of a batch of writes to it; [None] is an
    error. *)
Class DiskDB := {
  disk : Type;
  batch : Type;
  disk_Get : disk -> list Z -> option (list Z);
  disk_NewBatch : disk -> batch;
  batch_Put : list Z -> list Z -> batch -> option batch;
  batch_ValueSize : batch -> Z;
  batch_Write : batch -> disk -> option disk;
  batch_Reset : batch -> batch
}.

(** What is promised: a batch collects writes, [Write] makes all of them
    visible, in their order, or fails and makes none visible.  A batch is
    written and reset, and never used otherwise. *)
Class DiskLaws `{DiskDB} := {
  pending : batch -> list (list Z * list Z);
  new_pending : forall d, pending (disk_NewBatch d) = [];
  put_pending : forall k v b b', batch_Put k v b = Some b' -> pending b' = pending b ++ [(k, v)];
  reset_pending : forall b, pending (batch_Reset b) = [];
  write_get : forall b d d' k, batch_Write b d = Some d' ->
    disk_Get d' k = match last (filter (fun kv => kv.1 = k) (pending b)) with
                    | Some kv => Some kv.2
                    | None => disk_Get d k
                    end
}.

(** [mandb.MemDatabase] and its batch: a map, and a list of writes with the size
    of their values. *)
Record memBatch := mkBatch {
  writes : list (list Z * list Z);
  bsize : Z
}.

Definition memPut (k v : list Z) (b : memBatch) : option memBatch :=
  Some (mkBatch (writes b ++ [(k, v)]) (bsize b + Z.of_nat (length v))).

Definition memWrite (b : memBatch) (d : gmap (list Z) (list Z)) : option (gmap (list Z) (list Z)) :=
  Some (foldl (fun d kv => <[kv.1 := kv.2]> d) d (writes b)).

#[export] Instance MemDatabase : DiskDB := {|
  disk := gmap (list Z) (list Z);
  batch := memBatch;
  disk_Get d k := d !! k;
  disk_NewBatch _ := mkBatch [] 0;
  batch_Put := memPut;
  batch_ValueSize := bsize;
  batch_Write := memWrite;
  batch_Reset _ := mkBatch [] 0
|}.

(** The order in which the hashes of a map are visited. *)
Class HashRange := {
  hash_range : forall {A}, gmap (list Z) A -> list (list Z * A);
  hash_range_perm : forall {A} (m : gmap (list Z) A), hash_range m ≡ₚ map_to_list m
}.

#[export] Instance hash_range_some : HashRange | 10 := {|
  hash_range A m := map_to_list m;
  hash_range_perm A m := reflexivity _
|}.

Lemma hash_range_In `{HashRange} {A} (m : gmap (list Z) A) k v : (k, v) ∈ hash_range m <-> m !! k = Some v.
Proof. rewrite hash_range_perm. apply elem_of_map_to_list. Qed.

Lemma hash_range_keys `{HashRange} {A} (m : gmap (list Z) A) h : h ∈ (hash_range m).*1 <-> is_Some (m !! h).
Proof.
  rewrite list_elem_of_fmap. split.
  - intros ([k a] & -> & Hin%hash_range_In). by exists a.
  - intros [a Ha]. exists (h, a). split; [done|]. by apply hash_range_In.
Qed.

Lemma hash_range_NoDup `{HashRange} {A} (m : gmap (list Z) A) : NoDup (hash_range m).*1.
Proof. rewrite hash_range_perm. apply NoDup_fst_map_to_list. Qed.

(** ** The state *)

(** The blob of the node under the zero hash, which only has references to
    roots, is nil. *)
Record cachedNode := mkCached {
  blob : option (list Z);
  parents : Z;
  children : gmap (list Z) Z
}.

(** Sizes are float64 and exact as long as they are below 2 ^ 53.  [rlocks] counts
    the read locks that were taken and not given back. *)
Record Database `{DiskDB} := mkDatabase {
  diskdb : disk;
  nodes : gmap (list Z) cachedNode;
  preimages : gmap (list Z) (list Z);
  gcnodes : Z;
  gcsize : Z;
  nodesSize : Z;
  preimagesSize : Z;
  rlocks : nat
}.

(** [DbFuel] is no error of the code; [Blocked] is waiting for a lock for ever. *)
Inductive db_error := PutFailed | WriteFailed | DbFuel | Blocked.

Section Db.
Context `{DiskDB, HashRange}.

Definition NewDatabase (d : disk) : Database :=
  mkDatabase _ d {[ emptyHash := mkCached None 0 ∅ ]} ∅ 0 0 0 0 0.

Definition set_nodes (m : gmap (list Z) cachedNode) (size : Z) (db : Database) : Database :=
  mkDatabase _ (diskdb db) m (preimages db) (gcnodes db) (gcsize db) size (preimagesSize db) (rlocks db).

Definition blobLen (n : cachedNode) : Z := Z.of_nat (length (default [] (blob n))).

(** [insert] *)
Definition db_insert (hash b : list Z) (db : Database) : Database :=
  match nodes db !! hash with
  | Some _ => db
  | None => set_nodes (<[hash := mkCached (Some b) 0 ∅]> (nodes db)) (nodesSize db + (32 + Z.of_nat (length b))) db
  end.

Definition insertPreimage (hash preimage : list Z) (db : Database) : Database :=
  match preimages db !! hash with
  | Some _ => db
  | None => mkDatabase _ (diskdb db) (nodes db) (<[hash := preimage]> (preimages db)) (gcnodes db) (gcsize db)
              (nodesSize db) (preimagesSize db + (32 + Z.of_nat (length preimage))) (rlocks db)
  end.

(** [Node]: nil and an error of the disk are both [None]. *)
Definition Node (hash : list Z) (db : Database) : option (list Z) :=
  match nodes db !! hash with
  | Some n => blob n
  | None => disk_Get (diskdb db) hash
  end.

Definition secureKeyPrefix : list Z := [115; 101; 99; 117; 114; 101; 45; 107; 101; 121; 45].

Definition secureKey (key : list Z) : list Z := secureKeyPrefix ++ key.

(** [preimage]; an empty preimage in the cache is not nil. *)
Definition db_preimage (hash : list Z) (db : Database) : option (list Z) :=
  match preimages db !! hash with
  | Some p => Some p
  | None => disk_Get (diskdb db) (secureKey hash)
  end.

Definition Nodes (db : Database) : list (list Z) :=
  filter (fun h => h <> emptyHash) (hash_range (nodes db)).*1.

Definition Size (db : Database) : Z := nodesSize db + preimagesSize db.

(** ** References *)

Definition set_children (c : gmap (list Z) Z) (n : cachedNode) : cachedNode := mkCached (blob n) (parents n) c.
Definition add_parents (k : Z) (n : cachedNode) : cachedNode := mkCached (blob n) (parents n + k) (children n).

Definition upd_node (h : list Z) (f : cachedNode -> cachedNode) (db : Database) : Database :=
  set_nodes (alter f h (nodes db)) (nodesSize db) db.

(** [reference]: a parent that is not cached is a nil pointer. *)
Definition reference (child parent : list Z) (db : Database) : eff Database :=
  match nodes db !! child with
  | None => Ok db
  | Some _ =>
      match nodes db !! parent with
      | None => Panic
      | Some p =>
          if bool_decide (is_Some (children p !! child)) && bool_decide (parent <> emptyHash) then Ok db
          else
            let db := upd_node child (add_parents 1) db in
            Ok (upd_node parent (fun p => set_children (<[child := default 0 (children p !! child) + 1]> (children p)) p) db)
      end
  end.

(** The counter of a child goes down; a counter that is not there starts at 0. *)
Definition drop_child (child : list Z) (p : cachedNode) : cachedNode :=
  let c := default 0 (children p !! child) - 1 in
  set_children (if c =? 0 then delete child (children p) else <[child := c]> (children p)) p.

(** [dereference], in which the range over the children sees the keys there are at
    its start; a removed child is the one the round is at. *)
Fixpoint dereference (fuel : nat) (child parent : list Z) (db : Database) : res db_error Database :=
  match fuel with
  | O => Err DbFuel
  | S fuel =>
      match nodes db !! parent with
      | None => Panic
      | Some _ =>
          let db := upd_node parent (drop_child child) db in
          match nodes db !! child with
          | None => Ok db
          | Some node =>
              let db := upd_node child (add_parents (-1)) db in
              if parents node - 1 =? 0 then
                let* db := foldl (fun r h => let* db := r in dereference fuel h child db) (Ok db)
                             (hash_range (children node)).*1 in
                Ok (set_nodes (delete child (nodes db)) (nodesSize db - (32 + blobLen node)) db)
              else Ok db
          end
      end
  end.

(** [Dereference]: the lock is asked for first. *)
Definition Dereference (fuel : nat) (child parent : list Z) (db : Database) : res db_error Database :=
  if (0 <? rlocks db)%nat then Err Blocked
  else
    let* db' := dereference fuel child parent db in
    Ok (mkDatabase _ (diskdb db') (nodes db') (preimages db')
          (u64 (gcnodes db' + (Z.of_nat (size (nodes db)) - Z.of_nat (size (nodes db')))))
          (gcsize db' + (nodesSize db - nodesSize db')) (nodesSize db') (preimagesSize db') (rlocks db')).

(** ** Writing to the disk

    A step that fails returns its error and leaves what was written before. *)

Definition IdealBatchSize : Z := 100 * 1024.

Definition io (S : Type) : Type := option db_error * S.

Definition io_then {S T} (r : io S) (f : db_error -> S -> io T) (k : S -> io T) : io T :=
  match r.1 with
  | None => k r.2
  | Some e => f e r.2
  end.

Definition andThen {S} (r : io S) (k : S -> io S) : io S := io_then r (fun e s => (Some e, s)) k.

Definition put (key value : list Z) (bd : batch * disk) : io (batch * disk) :=
  match batch_Put key value bd.1 with
  | Some b => (None, (b, bd.2))
  | None => (Some PutFailed, bd)
  end.

(** [batch.Write] *)
Definition write (bd : batch * disk) : io (batch * disk) :=
  match batch_Write bd.1 bd.2 with
  | Some d => (None, (bd.1, d))
  | None => (Some WriteFailed, bd)
  end.

(** A batch that is large enough is written and starts anew. *)
Definition flush (full : bool) (bd : batch * disk) : io (batch * disk) :=
  if full then andThen (write bd) (fun bd => (None, (batch_Reset bd.1, bd.2))) else (None, bd).

(** [commit]: children first.  A node that is not cached is on the disk. *)
Fixpoint db_commit (fuel : nat) (hash : list Z) (m : gmap (list Z) cachedNode) (bd : batch * disk) : io (batch * disk) :=
  match fuel with
  | O => (Some DbFuel, bd)
  | S fuel =>
      match m !! hash with
      | None => (None, bd)
      | Some node =>
          andThen (foldl (fun r c => andThen r (db_commit fuel c m)) (None, bd) (hash_range (children node)).*1) (fun bd =>
          andThen (put hash (default [] (blob node)) bd) (fun bd =>
          flush (batch_ValueSize bd.1 >=? IdealBatchSize) bd))
      end
  end.

(** The loop over the preimages. *)
Fixpoint commitPreimages (l : list (list Z * list Z)) (bd : batch * disk) : io (batch * disk) :=
  match l with
  | [] => (None, bd)
  | (hash, preimage) :: l =>
      andThen (put (secureKey hash) preimage bd) (fun bd =>
      andThen (flush (batch_ValueSize bd.1 >? IdealBatchSize) bd) (fun bd =>
      commitPreimages l bd))
  end.

(** [uncache] *)
Fixpoint uncache (fuel : nat) (hash : list Z) (db : Database) : res db_error Database :=
  match fuel with
  | O => Err DbFuel
  | S fuel =>
      match nodes db !! hash with
      | None => Ok db
      | Some node =>
          let* db := foldl (fun r c => let* db := r in uncache fuel c db) (Ok db) (hash_range (children node)).*1 in
          Ok (set_nodes (delete hash (nodes db)) (nodesSize db - (32 + blobLen node)) db)
      end
  end.

Definition set_disk (d : disk) (db : Database) : Database :=
  mkDatabase _ d (nodes db) (preimages db) (gcnodes db) (gcsize db) (nodesSize db) (preimagesSize db) (rlocks db).

Definition add_rlock (db : Database) : Database :=
  mkDatabase _ (diskdb db) (nodes db) (preimages db) (gcnodes db) (gcsize db) (nodesSize db) (preimagesSize db)
    (S (rlocks db)).

(** The second half of [Commit]: the lock for writing, the preimages and the nodes
    that are on the disk now. *)
Definition commit_clear (fuel : nat) (node : list Z) (db : Database) : io Database :=
  if (0 <? rlocks db)%nat then (Some Blocked, db)
  else
    let db := mkDatabase _ (diskdb db) (nodes db) ∅ (gcnodes db) (gcsize db) (nodesSize db) 0 (rlocks db) in
    match uncache fuel node db with
    | Ok db => (None, mkDatabase _ (diskdb db) (nodes db) (preimages db) 0 0 (nodesSize db) (preimagesSize db) (rlocks db))
    | Err e => (Some e, db)
    | Panic => (Some DbFuel, db)
    end.

(** [Commit].  Every path gives the read lock back but one: when a batch of
    preimages cannot be written. *)
Definition Commit (fuel : nat) (node : list Z) (db : Database) : io Database :=
  io_then (commitPreimages (hash_range (preimages db)) (disk_NewBatch (diskdb db), diskdb db))
    (fun e bd => (Some e, match e with WriteFailed => add_rlock (set_disk bd.2 db) | _ => set_disk bd.2 db end))
    (fun bd =>
  io_then (andThen (db_commit fuel node (nodes db) bd) write)
    (fun e bd => (Some e, set_disk bd.2 db))
    (fun bd => commit_clear fuel node (set_disk bd.2 db))).

(** ** Roots of the coins *)

Definition hashes_type : gtype := TSlice false (TByteArray 32).

Definition hashes_of (v : gval) : list (list Z) :=
  match v with
  | VSlice l => omap (fun v => match v with VByteArray b => Some b | _ => None end) l
  | _ => []
  end.

Fixpoint referenceAll (hashs : list (list Z)) (parent : list Z) (db : Database) : eff Database :=
  match hashs with
  | [] => Ok db
  | hash :: hashs => let* db := reference hash parent db in referenceAll hashs parent db
  end.

(** [ReferenceRoot] decodes the root of a coin itself; an error is logged. *)
Fixpoint ReferenceRoot (childs : list (list Z)) (parent : list Z) (db : Database) : eff Database :=
  match childs with
  | [] => Ok db
  | root :: childs =>
      let* db := match DecodeBytes hashes_type root with
                 | Ok v => referenceAll (hashes_of v) parent db
                 | _ => Ok db
                 end in
      ReferenceRoot childs parent db
  end.

(** [CommitRoots] decodes what the disk has under the root.  The errors of
    [Commit] are dropped. *)
Fixpoint CommitRoots (fuel : nat) (roots : list (list Z)) (db : Database) : Database :=
  match roots with
  | [] => db
  | root :: roots =>
      let db := match disk_Get (diskdb db) root with
                | Some enc =>
                    match DecodeBytes hashes_type enc with
                    | Ok v => foldl (fun db h => (Commit fuel h db).2) db (hashes_of v)
                    | _ => db
                    end
                | None => db
                end in
      CommitRoots fuel roots db
  end.
End Db.
