(* ===== verification/Trie.v ===== *)
(** * The Merkle Patricia trie ([trie/trie.go])

    Reading, writing and deleting, with nodes that are loaded from the database
    when they are met.  The recursions go down a key, but nodes that were stored
    need not be what the trie stores; so they have fuel, and running out of it
    is an error of its own, [TrieFuel]. *)

From S2P Require Import TrieKeys TrieNode TrieDatabase Prelude.

(** [MissingNodeError] ([trie/errors.go]). *)
Inductive trie_error :=
| MissingNode (NodeHash Path : list Z)
| TrieFuel.

(** The database is shared and passed along. *)
Record Trie := mkTrie {
  root : node;
  originalRoot : list Z;
  cachegen : Z;
  cachelimit : Z
}.

Definition emptyRoot : list Z :=
  [0x56; 0xe8; 0x1f; 0x17; 0x1b; 0xcc; 0x55; 0xa6; 0xff; 0x83; 0x45; 0xe6; 0x92; 0xc0; 0xf8; 0x6e;
   0x5b; 0x48; 0xe0; 0x1b; 0x99; 0x6c; 0xad; 0xc0; 0x01; 0x62; 0x2f; 0xb5; 0xe3; 0x63; 0xb4; 0x21].

Definition SetCacheLimit (l : Z) (t : Trie) : Trie := mkTrie (root t) (originalRoot t) (cachegen t) l.

Definition newFlag (g : Z) : nodeFlag := mkFlag None g true.

Definition set_root (n : node) (t : Trie) : Trie := mkTrie n (originalRoot t) (cachegen t) (cachelimit t).

Section Operations.
Context `{DiskDB} (db : Database).

Definition resolveHash (g : Z) (n prefix : list Z) : res trie_error node :=
  let hash := BytesToHash n in
  match Node hash db with
  | None => Err (MissingNode hash prefix)
  | Some enc => mustDecodeNode (Some n) enc g
  end.

Definition resolve (g : Z) (n : node) (prefix : list Z) : res trie_error node :=
  match n with
  | hashNode h => resolveHash g h prefix
  | n => Ok n
  end.

(** [New] *)
Definition New (rt : list Z) : res trie_error Trie :=
  let trie := mkTrie Nil rt 0 0 in
  if bool_decide (rt <> emptyHash) && bool_decide (rt <> emptyRoot) then
    let* rootnode := resolveHash 0 rt [] in
    Ok (set_root rootnode trie)
  else Ok trie.

(** ** Reading *)

(** [bytes.Equal(k, key[pos:pos+len(k)])] when there is as much of the key. *)
Definition matches (k key : list Z) (pos : nat) : bool :=
  negb (Z.of_nat (length key) - Z.of_nat pos <? Z.of_nat (length k)) &&
  bool_decide (k = take (length k) (drop pos key)).

Fixpoint tryGet (fuel : nat) (g : Z) (origNode : node) (key : list Z) (pos : nat)
    : res trie_error (option (list Z) * node * bool) :=
  match fuel with
  | O => Err TrieFuel
  | S fuel =>
      match origNode with
      | Nil => Ok (None, Nil, false)
      | valueNode v => Ok (v, valueNode v, false)
      | shortNode nk nv f =>
          if negb (matches nk key pos) then Ok (None, shortNode nk nv f, false)
          else
            let* (value, newnode, didResolve) := tryGet fuel g nv key (pos + length nk) in
            Ok (value, if didResolve then shortNode nk newnode (mkFlag (fhash f) g (dirty f)) else shortNode nk nv f, didResolve)
      | fullNode nc f =>
          let* x := go_index key (Z.of_nat pos) in
          let* c := go_index nc x in
          let* (value, newnode, didResolve) := tryGet fuel g c key (pos + 1) in
          Ok (value,
              if didResolve then fullNode (<[Z.to_nat x := newnode]> nc) (mkFlag (fhash f) g (dirty f)) else fullNode nc f,
              didResolve)
      | hashNode n =>
          let* child := resolveHash g n (take pos key) in
          let* (value, newnode, _) := tryGet fuel g child key pos in
          Ok (value, newnode, true)
      end
  end.

Definition TryGet (fuel : nat) (t : Trie) (key : list Z) : res trie_error (option (list Z) * Trie) :=
  let key := keybytesToHex key in
  let* (value, newroot, didResolve) := tryGet fuel (cachegen t) (root t) key 0 in
  Ok (value, if didResolve then set_root newroot t else t).

(** ** Writing *)

Fixpoint insert_ (fuel : nat) (g : Z) (n : node) (prefix key : list Z) (value : node) : res trie_error (bool * node) :=
  match fuel with
  | O => Err TrieFuel
  | S fuel =>
      match key with
      | [] =>
          match n, value with
          | valueNode v, valueNode v' => Ok (negb (bool_decide (slice v = slice v')), value)
          | valueNode _, _ => Panic
          | _, _ => Ok (true, value)
          end
      | key0 :: key1 =>
          match n with
          | shortNode nk nv f =>
              let matchlen := prefixLen key nk in
              if (matchlen =? length nk)%nat then
                let* (d, nn) := insert_ fuel g nv (prefix ++ take matchlen key) (drop matchlen key) value in
                Ok (if d then (true, shortNode nk nn (newFlag g)) else (false, n))
              else
                let* nkm := go_index nk (Z.of_nat matchlen) in
                let* (_, c1) := insert_ fuel g Nil (prefix ++ take (matchlen + 1) nk) (drop (matchlen + 1) nk) nv in
                let* km := go_index key (Z.of_nat matchlen) in
                let* (_, c2) := insert_ fuel g Nil (prefix ++ take (matchlen + 1) key) (drop (matchlen + 1) key) value in
                let branch := fullNode (<[Z.to_nat km := c2]> (<[Z.to_nat nkm := c1]> (replicate 17 Nil))) (newFlag g) in
                Ok (true, if (matchlen =? 0)%nat then branch else shortNode (take matchlen key) branch (newFlag g))
          | fullNode nc f =>
              let* c := go_index nc key0 in
              let* (d, nn) := insert_ fuel g c (prefix ++ [key0]) key1 value in
              Ok (if d then (true, fullNode (<[Z.to_nat key0 := nn]> nc) (newFlag g)) else (false, n))
          | Nil => Ok (true, shortNode key value (newFlag g))
          | hashNode h =>
              let* rn := resolveHash g h prefix in
              let* (d, nn) := insert_ fuel g rn prefix key value in
              Ok (if d then (true, nn) else (false, rn))
          | valueNode _ => Panic
          end
      end
  end.

(** ** Deleting *)

(** The position of the only child that is there, [-2] if there are two, [-1] if
    there is none. *)
Fixpoint onlyChild (l : list node) (i pos : Z) : Z :=
  match l with
  | [] => pos
  | c :: l => if isNil c then onlyChild l (i + 1) pos else if pos =? -1 then onlyChild l (i + 1) i else -2
  end.

Fixpoint delete_ (fuel : nat) (g : Z) (n : node) (prefix key : list Z) : res trie_error (bool * node) :=
  match fuel with
  | O => Err TrieFuel
  | S fuel =>
      match n with
      | shortNode nk nv f =>
          let matchlen := prefixLen key nk in
          if (matchlen <? length nk)%nat then Ok (false, n)
          else if (matchlen =? length key)%nat then Ok (true, Nil)
          else
            let* (d, child) := delete_ fuel g nv (prefix ++ take (length nk) key) (drop (length nk) key) in
            Ok (if d then
                  (true, match child with
                         | shortNode ck cv _ => shortNode (nk ++ ck) cv (newFlag g)
                         | _ => shortNode nk child (newFlag g)
                         end)
                else (false, n))
      | fullNode nc f =>
          let* key0 := go_index key 0 in
          let* c := go_index nc key0 in
          let* (d, nn) := delete_ fuel g c (prefix ++ [key0]) (drop 1 key) in
          if negb d then Ok (false, n)
          else
            let nc := <[Z.to_nat key0 := nn]> nc in
            let pos := onlyChild nc 0 (-1) in
            if pos >=? 0 then
              let* cpos := go_index nc pos in
              let single := shortNode [pos] cpos (newFlag g) in
              if negb (pos =? 16) then
                let* cnode := resolve g cpos prefix in
                Ok (true, match cnode with
                          | shortNode ck cv _ => shortNode (pos :: ck) cv (newFlag g)
                          | _ => single
                          end)
              else Ok (true, single)
            else Ok (true, fullNode nc (newFlag g))
      | valueNode _ => Ok (true, Nil)
      | Nil => Ok (false, Nil)
      | hashNode h =>
          let* rn := resolveHash g h prefix in
          let* (d, nn) := delete_ fuel g rn prefix key in
          Ok (if d then (true, nn) else (false, rn))
      end
  end.

Definition TryDelete (fuel : nat) (t : Trie) (key : list Z) : res trie_error Trie :=
  let k := keybytesToHex key in
  let* (_, n) := delete_ fuel (cachegen t) (root t) [] k in
  Ok (set_root n t).

(** An empty value is deleted. *)
Definition TryUpdate (fuel : nat) (t : Trie) (key value : list Z) : res trie_error Trie :=
  let k := keybytesToHex key in
  if negb (Z.of_nat (length value) =? 0) then
    let* (_, n) := insert_ fuel (cachegen t) (root t) [] k (valueNode (Some value)) in
    Ok (set_root n t)
  else
    let* (_, n) := delete_ fuel (cachegen t) (root t) [] k in
    Ok (set_root n t).

(** [Get], [Update] and [Delete] log an error and go on: a value that could not be
    read is nil, and the trie stays as it was. *)
Definition Get (fuel : nat) (t : Trie) (key : list Z) : eff (option (list Z) * Trie) :=
  match TryGet fuel t key with
  | Ok r => Ok r
  | Err _ => Ok (None, t)
  | Panic => Panic
  end.

Definition keep (t : Trie) (r : res trie_error Trie) : eff Trie :=
  match r with
  | Ok t' => Ok t'
  | Err _ => Ok t
  | Panic => Panic
  end.

Definition Update (fuel : nat) (t : Trie) (key value : list Z) : eff Trie := keep t (TryUpdate fuel t key value).

Definition Delete (fuel : nat) (t : Trie) (key : list Z) : eff Trie := keep t (TryDelete fuel t key).
End Operations.
