(* ===== verification/TrieHasher.v ===== *)
(** * Hashing and storing a trie ([trie/hasher.go], [Hash] and [Commit] of
      [trie/trie.go])

    A node is collapsed: its large children are replaced by their hashes, from the
    bottom up.  With a database the collapsed nodes are stored under their
    hashes; without one only the hashes are cached. *)

From S2P Require Import RlpCodec Sponge TrieKeys TrieNode TrieDatabase Trie Prelude.

(** [h.sha.Reset(); h.sha.Write(b); h.sha.Sum(nil)] on the Keccak-256 hash of a
    hasher from the pool, whatever it was used for before. *)
Definition rehash (sha : state) (b : list Z) : res endless (list Z) :=
  let* d := Write b (Reset sha) in Sum [] d.

Definition makeHash (b : list Z) : eff (list Z) :=
  match rehash NewKeccak256 b with
  | Ok h => Ok h
  | _ => Panic
  end.

Section Hasher.
Context `{DiskDB}.

(** What is done with a value that is stored, and the hash of the node it is in. *)
Definition LeafCallback : Type := list Z -> list Z -> Database -> eff Database.

Record hasher := mkHasher {
  hcachegen : Z;
  hcachelimit : Z;
  onleaf : option LeafCallback
}.

(** The references of a node to the nodes whose hashes it has. *)
Definition referChild (parent : list Z) (c : node) (db : Database) : eff Database :=
  match c with
  | hashNode child => reference (BytesToHash child) parent db
  | _ => Ok db
  end.

Definition leafChild (f : LeafCallback) (parent : list Z) (c : node) (db : Database) : eff Database :=
  match c with
  | valueNode (Some child) => f child parent db
  | _ => Ok db
  end.

Fixpoint overChildren (f : node -> Database -> eff Database) (l : list node) (db : Database) : eff Database :=
  match l with
  | [] => Ok db
  | c :: l => let* db := f c db in overChildren f l db
  end.

(** The children that are looked at: the one of a short node, sixteen of a full one. *)
Definition children16 (n : node) : list node :=
  match n with
  | shortNode _ v _ => [v]
  | fullNode l _ => take 16 l
  | _ => []
  end.

(** [store]; an encoding error is a panic. *)
Definition store (h : hasher) (n : node) (db : option Database) (force : bool) : eff (node * option Database) :=
  match n with
  | Nil | hashNode _ => Ok (n, db)
  | _ =>
      let* tmp := match encodeNode n with Ok b => Ok b | _ => Panic end in
      if (Z.of_nat (length tmp) <? 32) && negb force then Ok (n, db)
      else
        let* hash := match (cache n).1 with Some hash => Ok hash | None => makeHash tmp end in
        match db with
        | None => Ok (hashNode hash, None)
        | Some db =>
            let key := BytesToHash hash in
            let db := db_insert key tmp db in
            let* db := overChildren (referChild key) (children16 n) db in
            let* db := match onleaf h with
                       | Some f => overChildren (leafChild f key) (children16 n) db
                       | None => Ok db
                       end in
            Ok (hashNode hash, Some db)
        end
  end.

(** The flags of the copy that replaces the node. *)
Definition set_cached (hashed : node) (stored : bool) (cached : node) : node :=
  let flag f := mkFlag (match hashed with hashNode hh => Some hh | _ => None end) (gen f)
                       (if stored then false else dirty f) in
  match cached with
  | shortNode k v f => shortNode k v (flag f)
  | fullNode l f => fullNode l (flag f)
  | n => n
  end.

Section Children.
Context (hash : node -> option Database -> bool -> eff (node * node * option Database)).

(** One of sixteen children, or the value after them.  A nil child is encoded as an
    empty string. *)
Definition hashSlot (i : nat) (c : node) (db : option Database) : eff (node * node * option Database) :=
  match c with
  | Nil => Ok (valueNode None, Nil, db)
  | _ => if (i <? 16)%nat then hash c db false else Ok (c, c, db)
  end.

Fixpoint hashLoop (i : nat) (l : list node) (db : option Database) : eff (list node * list node * option Database) :=
  match l with
  | [] => Ok ([], [], db)
  | c :: l =>
      let* (hashed, cached, db) := hashSlot i c db in
      let* (hs, cs, db) := hashLoop (S i) l db in
      Ok (hashed :: hs, cached :: cs, db)
  end.

Definition hashChildren (original : node) (db : option Database) : eff (node * node * option Database) :=
  match original with
  | shortNode k v f =>
      let* ck := hexToCompact k in
      match v with
      | valueNode _ => Ok (shortNode ck v f, original, db)
      | _ =>
          let* (hashed, cached, db) := hash v db false in
          Ok (shortNode ck (match hashed with Nil => valueNode None | _ => hashed end) f, shortNode k cached f, db)
      end
  | fullNode l f =>
      let* (hs, cs, db) := hashLoop 0 l db in
      Ok (fullNode hs f, fullNode cs f, db)
  | n => Ok (n, original, db)
  end.
End Children.

(** [hash]: the hash of a node (or the node itself when it is embedded), what
    replaces the node in memory, and the database. *)
Fixpoint hash (h : hasher) (n : node) (db : option Database) (force : bool) {struct n} : eff (node * node * option Database) :=
  let slow :=
    let* (collapsed, cached, db) := hashChildren (hash h) n db in
    let* (hashed, db) := store h collapsed db force in
    Ok (hashed, set_cached hashed (match db with Some _ => true | None => false end) cached, db) in
  match n with
  | Nil => Panic
  | _ =>
      match cache n with
      | (Some hh, d) =>
          match db with
          | None => Ok (hashNode hh, n, db)
          | Some _ =>
              if canUnload n (hcachegen h) (hcachelimit h) then Ok (hashNode hh, hashNode hh, db)
              else if negb d then Ok (hashNode hh, n, db)
              else slow
          end
      | (None, _) => slow
      end
  end.

(** [hashRoot], [Hash] and [Commit]; hashing a root gives a hash. *)
Definition hashRoot (t : Trie) (db : option Database) (leaf : option LeafCallback) : eff (node * node * option Database) :=
  match root t with
  | Nil => Ok (hashNode emptyRoot, Nil, db)
  | r => hash (mkHasher (cachegen t) (cachelimit t) leaf) r db true
  end.

Definition Hash (t : Trie) : eff (list Z * Trie) :=
  let* (hash, cached, _) := hashRoot t None None in
  match hash with
  | hashNode h => Ok (BytesToHash h, set_root cached t)
  | _ => Panic
  end.

Definition Commit (t : Trie) (db : Database) (leaf : option LeafCallback) : eff (list Z * Trie * Database) :=
  let* (hash, cached, db') := hashRoot t (Some db) leaf in
  match hash, db' with
  | hashNode h, Some db' =>
      Ok (BytesToHash h, mkTrie cached (originalRoot t) (u16 (cachegen t + 1)) (cachelimit t), db')
  | _, _ => Panic
  end.
End Hasher.
