(* ===== verification/TrieTree.v ===== *)
(** * What a trie stands for

    A trie with everything loaded and no caches is a tree: values, short and full
    nodes.  A tree stands for the values it finds under keys.  [good] trees are
    the ones the operations keep: short nodes are as long as they can be and
    full nodes have at least two entries.  There is one good tree for given
    contents ([good_unique]). *)

From S2P Require Import TrieKeys Prelude.

#[local] Set Warnings "-register-all".

Inductive tree :=
| TNil
| TVal (v : list Z)
| TShort (k : list Z) (t : tree)
| TFull (l : list tree).

Fixpoint tree_ind' (P : tree -> Prop) (HN : P TNil) (HV : forall v, P (TVal v))
    (HS : forall k t, P t -> P (TShort k t)) (HF : forall l, Forall P l -> P (TFull l)) (t : tree) : P t :=
  match t with
  | TNil => HN
  | TVal v => HV v
  | TShort k t => HS k t (tree_ind' P HN HV HS HF t)
  | TFull l => HF l ((fix go l : Forall P l :=
                        match l with
                        | [] => Forall_nil_2 P
                        | t :: l => Forall_cons_2 P t l (tree_ind' P HN HV HS HF t) (go l)
                        end) l)
  end.

(** ** Contents *)

(** The value under a key; keys have their terminator. *)
Fixpoint tfind (t : tree) (key : list Z) : option (list Z) :=
  match t with
  | TNil => None
  | TVal v => match key with [] => Some v | _ => None end
  | TShort k t => if bool_decide (take (length k) key = k) then tfind t (drop (length k) key) else None
  | TFull l =>
      match key with
      | [] => None
      | x :: key => if x <? 0 then None else nth (Z.to_nat x) (map (fun t => tfind t key) l) None
      end
  end.

(** The contents with another entry, or without one. *)
Definition upd (f : list Z -> option (list Z)) (k : list Z) (o : option (list Z)) (k' : list Z) : option (list Z) :=
  if decide (k' = k) then o else f k'.

Definition isTNil (t : tree) : bool :=
  match t with
  | TNil => true
  | _ => false
  end.

Definition not_short (t : tree) : Prop :=
  match t with
  | TShort _ _ => False
  | _ => True
  end.

(** Values are bytes and not empty. *)
Definition storable (v : list Z) : Prop := v <> [] /\ Forall is_u8 v.

(** How many children there are. *)
Definition entries (l : list tree) : nat := length (filter (fun t => isTNil t = false) l).

(** Trees at a place: [b] tells whether the terminator has been passed, so that
    only a value can follow. *)
Fixpoint good (b : bool) (t : tree) : Prop :=
  match t with
  | TNil => False
  | TVal v => b = true /\ storable v
  | TShort k t => b = false /\ k <> [] /\ hexpart k /\ not_short t /\ good (hasTerm k) t
  | TFull l =>
      b = false /\ length l = 17%nat /\ (2 <= entries l)%nat /\
      (fix slots i l := match l with
                        | [] => True
                        | t :: l => (t = TNil \/ good (i =? 16) t) /\ slots (i + 1) l
                        end) 0 l
  end.

(** The rest of a key at such a place. *)
Definition keyat (b : bool) (k : list Z) : Prop := if b then k = [] else hexkey k.

(** ** Slots of full nodes *)

Definition slots (l : list tree) : Prop :=
  forall i t, l !! i = Some t -> t = TNil \/ good (Z.of_nat i =? 16) t.

Lemma good_full b l : good b (TFull l) <-> b = false /\ length l = 17%nat /\ (2 <= entries l)%nat /\ slots l.
Proof.
  cbn [good]. unfold slots. assert (forall i l,
    (fix slots i l := match l with [] => True | t :: l => (t = TNil \/ good (i =? 16) t) /\ slots (i + 1) l end) i l <->
    forall j t, l !! j = Some t -> t = TNil \/ good (i + Z.of_nat j =? 16) t) as H.
  { clear. intros i l. revert i. induction l as [|t l IH]; intros i; [done|]. rewrite IH. split.
    - intros [H0 H] [|j] u; [intros [= <-]; by rewrite Z.add_0_r|]. intros Hu. specialize (H j u Hu).
      by replace (i + Z.of_nat (S j)) with (i + 1 + Z.of_nat j) by lia.
    - intros H. split; [specialize (H 0%nat t eq_refl); by rewrite Z.add_0_r in H|]. intros j u Hu.
      specialize (H (S j) u Hu). by replace (i + 1 + Z.of_nat j) with (i + Z.of_nat (S j)) by lia. }
  by rewrite H.
Qed.

Lemma good_TNil b : ~ good b TNil.
Proof. intros H. exact H. Qed.

Lemma good_true t : good true t -> exists v, t = TVal v /\ storable v.
Proof. destruct t; cbn; [done| |by intros [[=] _]..]. intros [_ H]. eauto. Qed.

Lemma isTNil_iff t : isTNil t = true <-> t = TNil.
Proof. by destruct t. Qed.

(** ** Finding *)

Lemma tfind_short k t key :
  tfind (TShort k t) key = if bool_decide (take (length k) key = k) then tfind t (drop (length k) key) else None.
Proof. done. Qed.

Lemma tfind_short_app k t r : tfind (TShort k t) (k ++ r) = tfind t r.
Proof. rewrite tfind_short, take_app_length, drop_app_length. by rewrite bool_decide_true. Qed.

Lemma tfind_short_Some k t key v : tfind (TShort k t) key = Some v <-> exists r, key = k ++ r /\ tfind t r = Some v.
Proof.
  rewrite tfind_short. split.
  - case_bool_decide as E; [|done]. intros H. exists (drop (length k) key). split; [|done].
    by rewrite <- E at 1; rewrite take_drop.
  - intros (r & -> & H). rewrite take_app_length, drop_app_length. by rewrite bool_decide_true.
Qed.

Lemma tfind_short_None k t key : (forall r, key <> k ++ r) -> tfind (TShort k t) key = None.
Proof.
  intros H. destruct (tfind (TShort k t) key) eqn:E; [|done]. apply tfind_short_Some in E as (r & -> & _). by destruct (H r).
Qed.

Lemma tfind_short_ext k t u : (forall key, tfind t key = tfind u key) -> forall key, tfind (TShort k t) key = tfind (TShort k u) key.
Proof. intros H key. rewrite !tfind_short. by case_bool_decide. Qed.

Lemma tfind_nil_short t key : tfind (TShort [] t) key = tfind t key.
Proof. apply (tfind_short_app []). Qed.

Lemma tfind_short_short k j t key : tfind (TShort (k ++ j) t) key = tfind (TShort k (TShort j t)) key.
Proof.
  apply option_eq. intros v. rewrite !tfind_short_Some. split.
  - intros (r & -> & H). exists (j ++ r). rewrite <- app_assoc. split; [done|]. by rewrite tfind_short_app.
  - intros (r & -> & (r' & -> & H)%tfind_short_Some). exists r'. by rewrite <- app_assoc.
Qed.

Lemma tfind_full_cons l x key : tfind (TFull l) (x :: key) = if x <? 0 then None else from_option (fun t => tfind t key) None (l !! Z.to_nat x).
Proof.
  cbn [tfind]. destruct (x <? 0); [done|]. generalize (Z.to_nat x). intros i. revert l.
  induction i as [|i IH]; intros [|t l]; cbn; [done..|apply IH].
Qed.

Lemma tfind_full_Some l key v :
  tfind (TFull l) key = Some v <-> exists i t r, key = Z.of_nat i :: r /\ l !! i = Some t /\ tfind t r = Some v.
Proof.
  destruct key as [|x key]; [split; [done|by intros (? & ? & ? & [=] & _)]|]. rewrite tfind_full_cons. split.
  - destruct (Z.ltb_spec x 0); [done|]. destruct (l !! Z.to_nat x) as [t|] eqn:E; [|done]. cbn. intros Hf.
    exists (Z.to_nat x), t, key. by rewrite Z2Nat.id.
  - intros (i & t & r & [= -> ->] & E & Hf). rewrite (proj2 (Z.ltb_ge _ _)) by lia. by rewrite Nat2Z.id, E.
Qed.

Lemma tfind_full_at l i t r : l !! i = Some t -> tfind (TFull l) (Z.of_nat i :: r) = tfind t r.
Proof. intros E. rewrite tfind_full_cons, (proj2 (Z.ltb_ge _ _)) by lia. by rewrite Nat2Z.id, E. Qed.

Lemma tfind_full_key l x t r : 0 <= x -> l !! Z.to_nat x = Some t -> tfind (TFull l) (x :: r) = tfind t r.
Proof. intros Hx E. rewrite <- (Z2Nat.id x) at 1 by lia. by apply tfind_full_at. Qed.

(** ** Changing one entry *)

Lemma upd_short k t t' r o :
  (forall key, tfind t' key = upd (tfind t) r o key) ->
  forall key, tfind (TShort k t') key = upd (tfind (TShort k t)) (k ++ r) o key.
Proof.
  intros H key. unfold upd. destruct (decide (take (length k) key = k)) as [E|E].
  - assert (key = k ++ drop (length k) key) as -> by (rewrite <- E at 1; by rewrite take_drop).
    generalize (drop (length k) key). clear key E. intros s. rewrite !tfind_short_app, H. unfold upd.
    destruct (decide (s = r)) as [->|Hr]; [by rewrite decide_True|].
    rewrite decide_False; [done|]. by intros ->%app_inv_head.
  - rewrite !tfind_short_None; [by rewrite decide_False; [|intros ->; by rewrite take_app_length in E]|..].
    all: intros s ->; by rewrite take_app_length in E.
Qed.

Lemma upd_full l i t t' r o :
  l !! i = Some t -> (forall key, tfind t' key = upd (tfind t) r o key) ->
  forall key, tfind (TFull (<[i := t']> l)) key = upd (tfind (TFull l)) (Z.of_nat i :: r) o key.
Proof.
  intros Hi H key. unfold upd. destruct key as [|x key]; [done|]. rewrite !tfind_full_cons.
  destruct (Z.ltb_spec x 0); [rewrite decide_False; [done|intros [= -> _]; lia]|].
  destruct (decide (Z.to_nat x = i)) as [<-|Hx].
  - rewrite list_lookup_insert_eq, Hi by (eapply lookup_lt_Some; done). cbn. rewrite H. unfold upd. rewrite Z2Nat.id by lia.
    destruct (decide (key = r)) as [->|]; [by rewrite decide_True|]. rewrite decide_False; [done|]. by intros [= ->].
  - rewrite list_lookup_insert_ne by done. rewrite decide_False; [done|]. intros [= -> _]. by rewrite Nat2Z.id in Hx.
Qed.

Lemma tfind_leaf k v key : tfind (TShort k (TVal v)) key = upd (tfind TNil) k (Some v) key.
Proof.
  unfold upd. destruct (decide (key = k)) as [->|Hk].
  - rewrite <- (app_nil_r k) at 2. by rewrite tfind_short_app.
  - apply eq_None_not_Some. intros [w (r & -> & H)%tfind_short_Some]. destruct r; [|done]. by rewrite app_nil_r in Hk.
Qed.

(** ** Counting entries *)

Definition weight (t : tree) : nat := if isTNil t then 0 else 1.

Lemma entries_cons t l : entries (t :: l) = (weight t + entries l)%nat.
Proof. unfold entries, weight. rewrite filter_cons. by destruct t; cbn. Qed.

Lemma entries_insert l i t t' :
  l !! i = Some t -> (entries (<[i := t']> l) + weight t = entries l + weight t')%nat.
Proof.
  revert i. induction l as [|u l IH]; intros [|i] E; cbn in E; [done..| |].
  - injection E as ->. change (<[0%nat := t']> (t :: l)) with (t' :: l). rewrite !entries_cons. lia.
  - change (<[S i := t']> (u :: l)) with (u :: <[i := t']> l). rewrite !entries_cons. specialize (IH i E). lia.
Qed.

Lemma weight_good b t : good b t -> weight t = 1%nat.
Proof. by destruct t. Qed.

Lemma entries_zero l : entries l = 0%nat <-> forall i t, l !! i = Some t -> t = TNil.
Proof.
  induction l as [|t l IH]; [by split|]. rewrite entries_cons. split.
  - intros H [|i] u E; [injection E as <-; apply isTNil_iff; unfold weight in H; by destruct (isTNil t)|].
    apply (proj1 IH ltac:(lia) i u E).
  - intros H. rewrite (proj2 IH) by (intros i u E; by apply (H (S i))). unfold weight.
    by rewrite (H 0%nat t eq_refl).
Qed.

Lemma entries_one l i t :
  l !! i = Some t -> t <> TNil -> entries l = 1%nat ->
  forall j u, l !! j = Some u -> j <> i -> u = TNil.
Proof.
  intros Hi Ht H j u Hj Hne. pose proof (entries_insert l i t TNil Hi) as E.
  assert (weight t = 1%nat) as Hw by (unfold weight; destruct (isTNil t) eqn:Hn; [by apply isTNil_iff in Hn|done]).
  assert (entries (<[i := TNil]> l) = 0%nat) as H0 by (cbn in E; lia).
  apply (proj1 (entries_zero _) H0 j). by rewrite list_lookup_insert_ne.
Qed.

Lemma entries_pos l : (0 < entries l)%nat -> exists i t, l !! i = Some t /\ t <> TNil.
Proof.
  induction l as [|t l IH]; [cbn; lia|]. rewrite entries_cons. intros H.
  destruct (isTNil t) eqn:E.
  - destruct IH as (i & u & Hi & Hu); [unfold weight in H; rewrite E in H; lia|]. by exists (S i), u.
  - exists 0%nat, t. split; [done|]. intros ->. done.
Qed.

(** Two entries are at two places. *)
Lemma entries_two l : (2 <= entries l)%nat -> exists i j t u, i <> j /\ l !! i = Some t /\ l !! j = Some u /\ t <> TNil /\ u <> TNil.
Proof.
  intros H. destruct (entries_pos l ltac:(lia)) as (i & t & Hi & Ht).
  pose proof (entries_insert l i t TNil Hi) as E. assert (weight t <= 1)%nat by (unfold weight; by destruct (isTNil t); lia).
  destruct (entries_pos (<[i := TNil]> l)) as (j & u & Hj & Hu); [cbn in E; lia|].
  destruct (decide (i = j)) as [<-|Hne].
  - rewrite list_lookup_insert_eq in Hj by by eapply lookup_lt_Some. by injection Hj as <-.
  - rewrite list_lookup_insert_ne in Hj by done. eauto 10.
Qed.

(** ** Parts of keys *)

Lemma hexpart_app c r : r <> [] -> hexpart (c ++ r) <-> path c /\ hexpart r.
Proof.
  intros Hr. unfold hexpart. split.
  - intros [H|(p & Hp & E)]; [apply Forall_app in H as [? ?]; auto|].
    destruct r as [|x r _] using rev_ind; [done|]. rewrite app_assoc in E. apply app_inj_2 in E as [E [= ->]]; [|done].
    subst p. apply Forall_app in Hp as [Hc Hr']. split; [done|]. right. by exists r.
  - intros [Hc [H|H]]; [left; by apply Forall_app|right; by apply path_prefix].
Qed.

Lemma hasTerm_app c r : r <> [] -> hasTerm (c ++ r) = hasTerm r.
Proof. intros Hr. destruct r as [|x r _] using rev_ind; [done|]. by rewrite app_assoc, !hasTerm_snoc. Qed.

Lemma hexpart_path_or k : hexpart k -> (hasTerm k = false /\ path k) \/ (hasTerm k = true /\ hexkey k).
Proof. intros [H|H]; [left|right]; auto using hasTerm_path, hasTerm_hexkey. Qed.

(** What follows a part of a key. *)
Lemma keyat_app k r : hexpart k -> hexkey (k ++ r) <-> keyat (hasTerm k) r.
Proof.
  intros [[-> H]|[-> H]]%hexpart_path_or; cbn [keyat]; [by apply path_prefix|].
  split; [by apply hexkey_prefix|]. intros ->. by rewrite app_nil_r.
Qed.

Lemma keyat_cons x r : hexkey (x :: r) -> (0 <= x <= 16) /\ keyat (x =? 16) r.
Proof.
  intros [[-> ->]|[Hx Hr]]%hexkey_cons; [done|]. unfold is_nibble in Hx. split; [lia|].
  by rewrite (proj2 (Z.eqb_neq x 16)) by lia.
Qed.

(** A key that only has to be hung below: nothing in front is no node. *)
Definition hang (r : list Z) (t : tree) : tree :=
  match r with
  | [] => t
  | _ => TShort r t
  end.

Lemma tfind_hang r t key : tfind (hang r t) key = tfind (TShort r t) key.
Proof. destruct r; [by rewrite tfind_nil_short|done]. Qed.

Lemma good_hang c x r t :
  hexpart (c ++ x :: r) -> not_short t -> good (hasTerm (c ++ x :: r)) t ->
  0 <= x <= 16 /\ good (x =? 16) (hang r t).
Proof.
  intros Hk Hn Hg. rewrite hasTerm_app in Hg by done. apply hexpart_app in Hk as [Hc Hk]; [|done].
  destruct r as [|y r]; cbn [hang].
  - split; [|exact Hg]. destruct Hk as [[Hx _]%Forall_cons|[[-> _]|[Hx H]]%hexkey_cons].
    + unfold is_nibble in Hx. lia.
    + lia.
    + by apply hexkey_nil in H.
  - apply (hexpart_app [x]) in Hk as [[Hx _]%Forall_cons Hk]; [|done]. unfold is_nibble in Hx.
    split; [lia|]. rewrite (proj2 (Z.eqb_neq x 16)) by lia. change (x :: y :: r) with ([x] ++ y :: r) in Hg. rewrite hasTerm_app in Hg by done.
    by cbn [good].
Qed.

(** ** A fork: a short node that another key leaves *)

Lemma tfind_only l i t :
  l !! i = Some t -> (forall j u, l !! j = Some u -> j <> i -> u = TNil) ->
  forall key, tfind (TFull l) key = tfind (TShort [Z.of_nat i] t) key.
Proof.
  intros Hi Ho key. apply option_eq. intros v. rewrite tfind_full_Some, tfind_short_Some. split.
  - intros (j & u & r & -> & Hj & Hf). destruct (decide (j = i)) as [->|Hne].
    + exists r. rewrite Hi in Hj. by injection Hj as <-.
    + by rewrite (Ho j u Hj Hne) in Hf.
  - intros (r & -> & Hf). by exists i, t, r.
Qed.

Definition nils : list tree := replicate 17 TNil.

Lemma nils_at i : (i < 17)%nat -> nils !! i = Some TNil.
Proof. apply lookup_replicate_2. Qed.

Lemma nils_lookup i t : nils !! i = Some t -> t = TNil.
Proof. by intros [-> _]%lookup_replicate. Qed.

Lemma nils_slots : slots nils.
Proof. intros i t H. left. by eapply nils_lookup. Qed.

Lemma slots_insert l i t : slots l -> t = TNil \/ good (Z.of_nat i =? 16) t -> slots (<[i := t]> l).
Proof.
  intros Hl Ht j u [(-> & <- & _)|[_ Hj]]%list_lookup_insert_Some; [done|]. by apply Hl.
Qed.

Definition fork (c : list Z) (x : Z) (t : tree) (y : Z) (u : tree) : tree :=
  hang c (TFull (<[Z.to_nat y := u]> (<[Z.to_nat x := t]> nils))).

Lemma fork_good c x t y u :
  path c -> 0 <= x <= 16 -> 0 <= y <= 16 -> x <> y -> good (x =? 16) t -> good (y =? 16) u ->
  good false (fork c x t y u).
Proof.
  intros Hc Hx Hy Hne Ht Hu.
  assert (good false (TFull (<[Z.to_nat y := u]> (<[Z.to_nat x := t]> nils)))) as Hf.
  { apply good_full. rewrite !length_insert. split_and!; [done|done| |].
    - pose proof (entries_insert nils (Z.to_nat x) TNil t (nils_at (Z.to_nat x) ltac:(lia))) as E1.
      pose proof (entries_insert (<[Z.to_nat x := t]> nils) (Z.to_nat y) TNil u) as E2.
      rewrite list_lookup_insert_ne, nils_at in E2 by lia. specialize (E2 eq_refl).
      rewrite (weight_good _ _ Ht) in E1. rewrite (weight_good _ _ Hu) in E2.
      change (weight TNil) with 0%nat in *. change (entries nils) with 0%nat in *. lia.
    - apply slots_insert; [apply slots_insert; [apply nils_slots|]|]; right; by rewrite Z2Nat.id by lia. }
  unfold fork. destruct c as [|z c]; [done|]. cbn [hang]. cbn [good].
  split; [done|]. split; [done|]. split; [by left|]. split; [done|]. by rewrite hasTerm_path.
Qed.

Lemma tfind_fork c x r t y s v key :
  0 <= x <= 16 -> 0 <= y <= 16 -> x <> y ->
  tfind (fork c x (hang r t) y (hang s (TVal v))) key = upd (tfind (TShort (c ++ x :: r) t)) (c ++ y :: s) (Some v) key.
Proof.
  intros Hx Hy Hne. unfold fork. rewrite tfind_hang.
  transitivity (upd (tfind (TShort c (TShort (x :: r) t))) (c ++ y :: s) (Some v) key);
    [|unfold upd; by rewrite tfind_short_short].
  apply upd_short. clear key. intros key.
  rewrite (upd_full _ _ TNil _ s (Some v)); [|by rewrite list_lookup_insert_ne, nils_at by lia|].
  - unfold upd. rewrite Z2Nat.id by lia. destruct (decide (key = y :: s)); [done|].
    change (x :: r) with ([x] ++ r). rewrite tfind_short_short, (tfind_only _ (Z.to_nat x) (hang r t)).
    + rewrite Z2Nat.id by lia. apply tfind_short_ext. intros. apply tfind_hang.
    + by rewrite list_lookup_insert_eq by (unfold nils; rewrite length_replicate; lia).
    + intros j u Hj Hjx. rewrite list_lookup_insert_ne in Hj by done. by eapply nils_lookup.
  - intros k. rewrite tfind_hang. apply tfind_leaf.
Qed.

(** ** Joining short nodes *)

Definition joined (k : list Z) (t : tree) : tree :=
  match t with
  | TShort j u => TShort (k ++ j) u
  | _ => TShort k t
  end.

Lemma tfind_joined k t key : tfind (joined k t) key = tfind (TShort k t) key.
Proof. destruct t; cbn [joined]; [done..| |done]. apply tfind_short_short. Qed.

Lemma joined_good k t : k <> [] -> hexpart k -> good (hasTerm k) t -> good false (joined k t).
Proof.
  intros Hk Hh Hg. destruct t as [|v|j u|l]; [done| | |]; [by cbn [joined good]| |by cbn [joined good]].
  cbn [joined]. destruct Hg as (Ht & Hj & Hhj & Hn & Hu). cbn [good]. rewrite hasTerm_app by done.
  split; [done|]. split; [by destruct k|]. split; [|done]. apply hexpart_app; [done|]. split; [|done].
  apply hexpart_path_or in Hh as [[_ H]|[H _]]; [done|congruence].
Qed.

Lemma good_TFull_no_single l i t :
  length l = 17%nat -> slots l -> l !! i = Some t -> t <> TNil -> good (Z.of_nat i =? 16) t /\ 0 <= Z.of_nat i <= 16.
Proof.
  intros Hl Hs Hi Ht. destruct (Hs i t Hi) as [->|Hg]; [done|]. split; [done|].
  apply lookup_lt_Some in Hi. lia.
Qed.

(** ** Good trees have entries, under keys only *)

Lemma good_entry b t : good b t -> exists key v, keyat b key /\ tfind t key = Some v.
Proof.
  revert b. induction t as [|v|k t IH|l IH] using tree_ind'; intros b Hg.
  - done.
  - destruct Hg as [-> _]. by exists [], v.
  - destruct Hg as (-> & _ & Hk & _ & Hg). destruct (IH _ Hg) as (key & v & Hkey & Hf). exists (k ++ key), v.
    rewrite tfind_short_app. split; [|done]. by apply keyat_app.
  - apply good_full in Hg as (-> & Hl & He & Hs). destruct (entries_pos l ltac:(lia)) as (i & t & Hi & Ht).
    destruct (good_TFull_no_single l i t Hl Hs Hi Ht) as [Hg Hr]. rewrite Forall_lookup in IH.
    destruct (IH i t Hi _ Hg) as (key & v & Hkey & Hf). exists (Z.of_nat i :: key), v.
    rewrite (tfind_full_at l i t) by done. split; [|done]. apply hexkey_cons.
    destruct (Z.eqb_spec (Z.of_nat i) 16); [by left|]. right. split; [unfold is_nibble; lia|done].
Qed.

Lemma good_keys b t key v : good b t -> tfind t key = Some v -> keyat b key /\ storable v.
Proof.
  revert b key. induction t as [|w|k t IH|l IH] using tree_ind'; intros b key Hg Hf.
  - done.
  - destruct Hg as [-> Hw]. destruct key; [|done]. by injection Hf as <-.
  - destruct Hg as (-> & _ & Hk & _ & Hg). apply tfind_short_Some in Hf as (r & -> & Hf).
    destruct (IH _ _ Hg Hf) as [Hr Hv]. split; [|done]. by apply keyat_app.
  - apply good_full in Hg as (-> & Hl & He & Hs). apply tfind_full_Some in Hf as (i & t & r & -> & Hi & Hf).
    assert (t <> TNil) as Ht by by intros ->.
    destruct (good_TFull_no_single l i t Hl Hs Hi Ht) as [Hg Hr]. rewrite Forall_lookup in IH.
    destruct (IH i t Hi _ _ Hg Hf) as [Hkr Hv]. split; [|done]. apply hexkey_cons.
    destruct (Z.eqb_spec (Z.of_nat i) 16); [by left|]. right. split; [unfold is_nibble; lia|done].
Qed.

(** The keys of a full node do not begin with the same nibble. *)
Lemma full_diverse l x :
  good false (TFull l) -> ~ (forall key v, tfind (TFull l) key = Some v -> exists r, key = x :: r).
Proof.
  intros (_ & Hl & He & Hs)%good_full H. destruct (entries_two l He) as (i & j & t & u & Hij & Hi & Hj & Ht & Hu).
  destruct (good_TFull_no_single l i t Hl Hs Hi Ht) as [(r & v & _ & Hf)%good_entry _].
  destruct (good_TFull_no_single l j u Hl Hs Hj Hu) as [(s & w & _ & Hg)%good_entry _].
  rewrite <- (tfind_full_at l i t r Hi) in Hf. rewrite <- (tfind_full_at l j u s Hj) in Hg.
  destruct (H _ _ Hf) as [? [= E1 _]]. destruct (H _ _ Hg) as [? [= E2 _]]. lia.
Qed.

(** One tree cannot have the keys of another behind something. *)
Lemma short_longer k j x s t u :
  good false (TShort k t) -> good false (TShort j u) -> k = j ++ x :: s ->
  (forall key, tfind (TShort k t) key = tfind (TShort j u) key) -> False.
Proof.
  intros (_ & _ & Hk & _ & _) (_ & _ & Hj & Hn & Hu) -> H.
  assert (forall key v, tfind u key = Some v -> exists r, key = x :: r) as Hx.
  { intros key v Hf. rewrite <- (tfind_short_app j), <- H in Hf. apply tfind_short_Some in Hf as (r & E & _).
    rewrite <- app_assoc in E. apply app_inv_head in E as ->. by eexists. }
  apply hexpart_app in Hk as [Hp _]; [|done]. rewrite (hasTerm_path j Hp) in Hu.
  destruct u as [| | |l]; [done|by destruct Hu|done|]. by apply (full_diverse l x).
Qed.

Lemma short_not_full k t l :
  good false (TShort k t) -> good false (TFull l) -> (forall key, tfind (TShort k t) key = tfind (TFull l) key) -> False.
Proof.
  intros (_ & Hk & _) Hl H. destruct k as [|x k]; [done|]. apply (full_diverse l x Hl).
  intros key v Hf. rewrite <- H in Hf. apply tfind_short_Some in Hf as (r & -> & _). by eexists.
Qed.

(** A good tree is determined by its contents. *)
Lemma good_unique b t u :
  good b t -> good b u -> (forall key, tfind t key = tfind u key) -> t = u.
Proof.
  revert b u. induction t as [|v|k t IH|l IH] using tree_ind'; intros b u Ht Hu H.
  - done.
  - destruct Ht as [-> _]. apply good_true in Hu as (w & -> & _). specialize (H []). cbn in H. congruence.
  - pose proof Ht as (-> & _ & Hk & _ & Hgt). destruct u as [|w|j u|l]; [done|by destruct Hu| |].
    + assert (exists r s, k ++ r = j ++ s) as (r & s & E).
      { destruct (good_entry _ _ Ht) as (key & v & _ & Hf). pose proof Hf as Hf'. rewrite H in Hf'.
        apply tfind_short_Some in Hf as (r & -> & _). apply tfind_short_Some in Hf' as (s & E & _). eauto. }
      assert (k = j) as ->.
      { apply app_eq_inv in E as [(m & E & _)|(m & E & _)]; destruct m as [|x m]; rewrite ?app_nil_r in E; [done| |done|].
        - exfalso. by apply (short_longer k j x m t u).
        - exfalso. by apply (short_longer j k x m u t). }
      f_equal. destruct Hu as (_ & _ & _ & _ & Hgu). apply (IH _ u Hgt Hgu).
      intros key. by rewrite <- (tfind_short_app j t key), H, tfind_short_app.
    + exfalso. by apply (short_not_full k t l).
  - pose proof Ht as (-> & Hl & _ & Hs)%good_full. destruct u as [|w|j u|m]; [done|by destruct Hu| |].
    + exfalso. apply (short_not_full j u l); [done|done|]. intros key. by rewrite H.
    + apply good_full in Hu as (_ & Hm & _ & Hsm). f_equal. rewrite Forall_lookup in IH.
      apply list_eq_same_length with 17%nat; [done..|]. intros i t u _ Hi Hj.
      assert (forall r, tfind t r = tfind u r) as Hr
        by (intros r; by rewrite <- (tfind_full_at l i t r Hi), H, (tfind_full_at m i u r Hj)).
      destruct (Hs i t Hi) as [->|Hgt], (Hsm i u Hj) as [->|Hgu]; [done|..].
      * destruct (good_entry _ _ Hgu) as (r & v & _ & Hf). by rewrite <- Hr in Hf.
      * destruct (good_entry _ _ Hgt) as (r & v & _ & Hf). by rewrite Hr in Hf.
      * by apply (IH i t Hi _ u Hgt Hgu).
Qed.
