(* ===== verification/TrieHashing.v ===== *)
(** * Hashes and encodings of trees

    The encoding of a tree is the one of its topmost node, in which a child of 32
    bytes or more is represented by its Keccak-256 hash.  [decodeNode] undoes it:
    it gives the topmost node back, with hashes where there are hashes. *)

From S2P Require Import Rlp RlpCodec RlpEncoding Sponge TrieKeys TrieNode TrieTree Prelude.

(** ** Encodings *)

(** What a parent holds in place of a node with the encoding [it]. *)
Definition shorten (t : tree) (it : item) : item :=
  match t with
  | TNil | TVal _ => it
  | _ => if (length (enc it) <? 32)%nat then it else Str (keccak256 (enc it))
  end.

Fixpoint tree_item (t : tree) : item :=
  match t with
  | TNil => Str []
  | TVal v => Str v
  | TShort k t => Lst [Str (compact k); shorten t (tree_item t)]
  | TFull l => Lst (map (fun t => shorten t (tree_item t)) l)
  end.

Definition tree_ref (t : tree) : item := shorten t (tree_item t).

(** The encoding of a tree and its hash. *)
Definition tree_enc (t : tree) : list Z := enc (tree_item t).
Definition tree_hash (t : tree) : list Z := keccak256 (tree_enc t).

(** Whether a parent has the hash. *)
Definition large (t : tree) : bool := negb (length (tree_enc t) <? 32)%nat.

(** The topmost node as it is decoded. *)
Fixpoint stored_node (hash : option (list Z)) (g : Z) (t : tree) : node :=
  match t with
  | TNil => Nil
  | TVal v => valueNode (Some v)
  | TShort k t =>
      shortNode k (match t with
                   | TNil | TVal _ => stored_node None g t
                   | _ => if large t then hashNode (tree_hash t) else stored_node None g t
                   end) (mkFlag hash g false)
  | TFull l =>
      fullNode (map (fun t => match t with
                              | TNil | TVal _ => stored_node None g t
                              | _ => if large t then hashNode (tree_hash t) else stored_node None g t
                              end) l) (mkFlag hash g false)
  end.

Definition stored_ref (g : Z) (t : tree) : node :=
  match t with
  | TNil | TVal _ => stored_node None g t
  | _ => if large t then hashNode (tree_hash t) else stored_node None g t
  end.

(** ** Encodings are bytes *)

Lemma puthead_u8 a b size : is_u64 size -> Forall is_u8 (puthead a b size).
Proof.
  intros Hs. unfold puthead. case_match; (constructor; [apply u8_range|]); [constructor|by apply putint_u8].
Qed.

Lemma str_enc_u8 b : Forall is_u8 b -> fits b -> Forall is_u8 (str_enc b).
Proof.
  intros Hb Hf%fits_u64. assert (Forall is_u8 (puthead 0x80 0xB7 (Z.of_nat (length b)) ++ b)) as H.
  { apply Forall_app. split; [by apply puthead_u8|done]. }
  unfold str_enc. destruct b as [|x [|y b]]; [done| |done]. by case_match.
Qed.

Lemma list_enc_u8 c : Forall is_u8 c -> fits c -> Forall is_u8 (token List_ c).
Proof. intros Hc Hf%fits_u64. apply Forall_app. split; [by apply puthead_u8|done]. Qed.

Lemma str_token b : exists k, k <> List_ /\ token_ok k b /\ token k b = str_enc b.
Proof.
  destruct b as [|x [|y b]]; [by exists String_| |by exists String_].
  destruct (Z.lt_ge_cases x 0x80).
  - exists Byte. split_and!; [done|by exists x|done].
  - exists String_. split; [done|]. split; [|done]. by intros ? [= <-].
Qed.

Lemma length_str_enc b : (length b <= length (str_enc b))%nat.
Proof. unfold str_enc. destruct b as [|x [|y b]]; [cbn; lia|case_match; cbn; lia|]. rewrite length_app. lia. Qed.

Lemma enc_Lst l : enc (Lst l) = token List_ (concat (map enc l)).
Proof. done. Qed.

Lemma length_token_List c : (length c < length (token List_ c))%nat.
Proof. cbn [token]. rewrite length_app. unfold puthead. case_match; cbn [length]; lia. Qed.

Lemma fits_le b c : (length b <= length c)%nat -> fits c -> fits b.
Proof. unfold fits. lia. Qed.

(** ** Taking encodings apart *)

Lemma SplitString_str b rest :
  Forall is_u8 (str_enc b ++ rest) -> fits (str_enc b ++ rest) -> SplitString (str_enc b ++ rest) = Ok (b, rest).
Proof.
  intros Hu Hf. destruct (str_token b) as (k & Hk & Hok & E). unfold SplitString.
  rewrite (proj2 (Split_iff _ k b rest Hu Hf)) by (split; [done|by rewrite E]). cbn [res_bind]. by destruct k.
Qed.

Lemma Split_list c rest :
  Forall is_u8 (token List_ c ++ rest) -> fits (token List_ c ++ rest) -> Split (token List_ c ++ rest) = Ok (List_, c, rest).
Proof. intros Hu Hf. by apply Split_iff. Qed.

(** An item is a string or a list. *)
Definition str_or_list (it : item) : Prop :=
  match it with
  | Raw _ => False
  | _ => True
  end.

Lemma item_token it : str_or_list it -> exists k c, token_ok k c /\ enc it = token k c.
Proof.
  destruct it as [b|b|l]; [done|intros _..].
  - destruct (str_token b) as (k & _ & Hok & E). exists k, b. by rewrite E.
  - by exists List_, (concat (map enc l)).
Qed.

Lemma CountValues_items l :
  Forall str_or_list l -> Forall is_u8 (concat (map enc l)) -> fits (concat (map enc l)) ->
  CountValues (concat (map enc l)) = Ok (Z.of_nat (length l)).
Proof.
  intros Hl Hu Hf. apply CountValues_iff; [done..|]. clear Hu Hf.
  induction Hl as [|it l Hit Hl (ts & Hts & E & Hlen)]; [by exists []|].
  destruct (item_token it Hit) as (k & c & Hok & Ek). exists ((k, c) :: ts). cbn [map concat fst snd length].
  split; [by constructor|]. split; [by rewrite Ek, E|]. lia.
Qed.

(** ** Trees *)

Lemma tree_ref_good t : t = TNil \/ good false t ->
  tree_ref t = match t with TNil => Str [] | _ => if large t then Str (tree_hash t) else tree_item t end.
Proof.
  intros [->|Hg]; [done|]. destruct t as [|v|k t|l]; [done|by destruct Hg| |]; unfold tree_ref, shorten, large, tree_hash, tree_enc;
    by destruct (_ <? _)%nat.
Qed.

Lemma stored_node_short h g k t : stored_node h g (TShort k t) = shortNode k (stored_ref g t) (mkFlag h g false).
Proof. done. Qed.

Lemma stored_node_full h g l : stored_node h g (TFull l) = fullNode (map (stored_ref g) l) (mkFlag h g false).
Proof. done. Qed.

Lemma tree_enc_short k t : tree_enc (TShort k t) = token List_ (str_enc (compact k) ++ enc (tree_ref t)).
Proof. unfold tree_enc. cbn [tree_item]. rewrite enc_Lst. cbn [map concat]. by rewrite app_nil_r. Qed.

Lemma tree_enc_full l : tree_enc (TFull l) = token List_ (concat (map enc (map tree_ref l))).
Proof. done. Qed.

Lemma tree_ref_str_or_list t : str_or_list (tree_ref t).
Proof. by destruct t; unfold tree_ref, shorten; cbn [tree_item]; try case_match. Qed.

Lemma keccak_fits b : fits (keccak256 b).
Proof. unfold fits. by rewrite length_keccak256. Qed.

Lemma ref_u8 t :
  (fits (tree_enc t) -> Forall is_u8 (tree_enc t)) -> fits (enc (tree_ref t)) -> Forall is_u8 (enc (tree_ref t)).
Proof.
  intros IH Hf. unfold tree_ref, shorten in *. destruct t; try by apply IH.
  all: case_match eqn:E; [by apply IH|]; cbn [enc] in *; apply str_enc_u8; [apply keccak256_u8|apply keccak_fits].
Qed.

Lemma tree_enc_u8 t : (t = TNil \/ exists b, good b t) -> fits (tree_enc t) -> Forall is_u8 (tree_enc t).
Proof.
  induction t as [|v|k t IH|l IH] using tree_ind'; intros Hg Hf.
  - apply (str_enc_u8 []); [constructor|done].
  - destruct Hg as [|[b [_ [_ Hv]]]]; [done|]. apply str_enc_u8; [done|]. by apply (fits_le _ _ (length_str_enc v)).
  - destruct Hg as [|[b (_ & _ & Hk & _ & Hg)]]; [done|]. rewrite tree_enc_short in *.
    pose proof (fits_le _ _ (Nat.lt_le_incl _ _ (length_token_List _)) Hf) as Hc.
    apply list_enc_u8; [|done]. apply fits_app in Hc as [Hf1 Hf2]. apply Forall_app. split.
    + apply str_enc_u8; [by apply compact_u8|]. by apply (fits_le _ _ (length_str_enc _)).
    + apply ref_u8; [|done]. apply IH. eauto.
  - destruct Hg as [|[b (_ & _ & _ & Hs)%good_full]]; [done|]. rewrite tree_enc_full in *.
    pose proof (fits_le _ _ (Nat.lt_le_incl _ _ (length_token_List _)) Hf) as Hc.
    apply list_enc_u8; [|done]. clear Hf. assert (Forall (fun t => t = TNil \/ exists b, good b t) l) as Hg.
    { apply Forall_lookup. intros i t Hi. destruct (Hs i t Hi) as [->|?]; eauto. }
    clear Hs. induction IH as [|t l IHt IHl IH]; cbn [map concat] in *; [constructor|].
    apply Forall_cons in Hg as [Hgt Hgl]. apply fits_app in Hc as [Hf1 Hf2]. apply Forall_app.
    split; [apply ref_u8; auto|auto].
Qed.

(** ** Decoding a tree

    [dn] decodes what is embedded. *)

Lemma decodeRef_ref dn t rest g :
  t = TNil \/ good false t ->
  (large t = false -> good false t -> dn None (tree_enc t ++ rest) g = Ok (stored_node None g t)) ->
  Forall is_u8 (enc (tree_ref t) ++ rest) -> fits (enc (tree_ref t) ++ rest) ->
  decodeRef dn (enc (tree_ref t) ++ rest) g = Ok (stored_ref g t, rest).
Proof.
  intros Ht Hdn Hu Hf. rewrite (tree_ref_good t Ht) in *. unfold decodeRef.
  assert (forall b, Forall is_u8 (str_enc b ++ rest) -> fits (str_enc b ++ rest) -> (2 <= length b)%nat \/ b = [] ->
            Split (str_enc b ++ rest) = Ok (String_, b, rest)) as Hstr.
  { intros b Hub Hfb Hb. apply Split_iff; [done..|]. split; [|done]. intros x ->. destruct Hb; [cbn in *; lia|done]. }
  destruct Ht as [->|Hg].
  - cbn [enc] in *. rewrite Hstr by auto. reflexivity.
  - assert (stored_ref g t = if large t then hashNode (tree_hash t) else stored_node None g t) as ->
      by by destruct t; [| destruct Hg| |].
    assert (match t with TNil => Str [] | _ => if large t then Str (tree_hash t) else tree_item t end =
            if large t then Str (tree_hash t) else tree_item t) as E by by destruct t. rewrite E in *. clear E.
    assert (length (tree_hash t) = 32%nat) as Hl by apply length_keccak256.
    destruct (large t) eqn:El; cbn [enc] in *.
    + rewrite Hstr by (done || left; lia). cbn [res_wrap res_bind]. rewrite Hl. reflexivity.
    + fold (tree_enc t) in *. assert (exists c, tree_enc t = token List_ c) as [c Ec].
      { destruct t as [|v|k t|l]; [destruct Hg|destruct Hg as [[=] _]|eexists; apply tree_enc_short|eexists; apply tree_enc_full]. }
      rewrite Ec in Hu, Hf |- *. rewrite Split_list by done. cbn [res_wrap res_bind].
      rewrite length_app, <- Ec. unfold large in El. apply negb_false_iff, Nat.ltb_lt in El.
      unfold hashLen. rewrite Z.gtb_ltb, (proj2 (Z.ltb_ge _ _)) by lia. by rewrite Hdn.
Qed.

Lemma decodeChildren_refs dn l i rest g :
  Forall (fun t => t = TNil \/ good false t) l ->
  (forall t rest', t ∈ l -> large t = false -> good false t ->
     Forall is_u8 (tree_enc t ++ rest') -> fits (tree_enc t ++ rest') ->
     dn None (tree_enc t ++ rest') g = Ok (stored_node None g t)) ->
  Forall is_u8 (concat (map enc (map tree_ref l)) ++ rest) -> fits (concat (map enc (map tree_ref l)) ++ rest) ->
  decodeChildren dn (length l) i (concat (map enc (map tree_ref l)) ++ rest) g = Ok (map (stored_ref g) l, rest).
Proof.
  intros Hl. revert i. induction Hl as [|t l Ht Hl IH]; intros i Hdn Hu Hf; cbn [map concat length decodeChildren] in *; [done|].
  rewrite <- app_assoc in *. rewrite decodeRef_ref; [|done| |done|done].
  - cbn [res_wrap res_bind]. rewrite IH; [done| |by apply Forall_app in Hu as [_ ?]|by apply fits_app in Hf as [_ ?]].
    intros u rest' Hin. apply Hdn. by apply elem_of_cons; right.
  - intros El Hg. assert (tree_ref t = tree_item t) as Er.
    { rewrite tree_ref_good by by right. rewrite El. by destruct t; [destruct Hg|..]. }
    rewrite Er in *. apply Hdn; [by apply elem_of_cons; left|done..].
Qed.

Lemma slots_split l :
  length l = 17%nat -> slots l ->
  exists l16 t, l = l16 ++ [t] /\ length l16 = 16%nat /\ Forall (fun t => t = TNil \/ good false t) l16 /\
                (t = TNil \/ exists v, t = TVal v /\ storable v).
Proof.
  intros Hl Hs. destruct l as [|t l _] using rev_ind; [done|]. rewrite length_app in Hl. cbn in Hl.
  exists l, t. split; [done|]. split; [lia|]. split.
  - apply Forall_lookup. intros i u Hi. pose proof (lookup_lt_Some _ _ _ Hi).
    destruct (Hs i u) as [->|Hg]; [by rewrite lookup_app_l|by left|right].
    by rewrite (proj2 (Z.eqb_neq (Z.of_nat i) 16)) in Hg by lia.
  - destruct (Hs (length l) t) as [->|Hg]; [by rewrite lookup_app_r, Nat.sub_diag by lia|by left|right].
    apply good_true. by replace (Z.of_nat (length l) =? 16) with true in Hg by (symmetry; apply Z.eqb_eq; lia).
Qed.

(** What decodes the embedded children. *)
Definition decodes_in (dn : option (list Z) -> list Z -> Z -> res node_error node) (g : Z) (t : tree) : Prop :=
  forall rest, large t = false -> good false t -> Forall is_u8 (tree_enc t ++ rest) -> fits (tree_enc t ++ rest) ->
    dn None (tree_enc t ++ rest) g = Ok (stored_node None g t).

Lemma decodeShort_tree dn hash k t g :
  good false (TShort k t) -> decodes_in dn g t ->
  let c := str_enc (compact k) ++ enc (tree_ref t) in
  Forall is_u8 c -> fits c -> decodeShort dn hash c g = Ok (stored_node hash g (TShort k t)).
Proof.
  intros (_ & _ & Hk & Hn & Hgt) Hdn c Hu Hf. unfold decodeShort. unfold c at 1. rewrite SplitString_str by done.
  cbn [res_wrap res_bind]. rewrite compactToHex_compact by done. cbn [lift_eff res_bind].
  apply Forall_app in Hu as [_ Hu]. apply fits_app in Hf as [_ Hf]. rewrite stored_node_short. destruct (hasTerm k).
  - apply good_true in Hgt as (v & -> & _). change (enc (tree_ref (TVal v))) with (str_enc v) in *.
    rewrite <- (app_nil_r (str_enc v)) in *. by rewrite SplitString_str by done.
  - rewrite <- (app_nil_r (enc (tree_ref t))) in *. rewrite decodeRef_ref; [done|by right| |done|done].
    intros El _. assert (tree_ref t = tree_item t) as Er.
    { rewrite tree_ref_good by by right. rewrite El. by destruct t; [destruct Hgt|..]. }
    rewrite Er in *. by apply Hdn.
Qed.

Lemma decodeFull_tree dn hash l g :
  good false (TFull l) -> Forall (decodes_in dn g) l ->
  let c := concat (map enc (map tree_ref l)) in
  Forall is_u8 c -> fits c -> decodeFull dn hash c g = Ok (stored_node hash g (TFull l)).
Proof.
  intros (_ & Hl & _ & Hs)%good_full Hdn c Hu Hf. destruct (slots_split l Hl Hs) as (l16 & t & -> & H16 & Hg & Ht).
  unfold c in *. rewrite !map_app, concat_app in *. cbn [map concat] in *. rewrite app_nil_r in *.
  unfold decodeFull. rewrite <- H16. rewrite decodeChildren_refs; [|done| |done|done].
  - cbn [res_bind]. apply Forall_app in Hu as [_ Hu]. apply fits_app in Hf as [_ Hf].
    assert (exists v, tree_ref t = Str v /\ stored_ref g t = if Z.of_nat (length v) >? 0 then valueNode (Some v) else Nil) as (v & Er & Es).
    { destruct Ht as [->|(v & -> & Hv & _)]; [by exists []|]. exists v. split; [done|]. by destruct v. }
    rewrite Er in *. cbn [enc] in *. rewrite <- (app_nil_r (str_enc v)) in *. rewrite SplitString_str by done.
    cbn [res_wrap res_bind]. rewrite stored_node_full, map_app. cbn [map]. by rewrite Es.
  - intros u rest Hin. rewrite Forall_forall in Hdn. apply Hdn, elem_of_app. by left.
Qed.

(** A list of two or seventeen items is a node. *)
Lemma decode_items dn hash its rest g :
  let c := concat (map enc its) in
  Forall str_or_list its -> Forall is_u8 (token List_ c ++ rest) -> fits (token List_ c ++ rest) ->
  decodeNode_body dn hash (token List_ c ++ rest) g =
  if Z.of_nat (length its) =? 2 then res_wrap (fun e => wrapError e InShort) (decodeShort dn hash c g)
  else if Z.of_nat (length its) =? 17 then res_wrap (fun e => wrapError e InFull) (decodeFull dn hash c g)
  else Err (InvalidCount (Z.of_nat (length its))).
Proof.
  intros c Hi Hu Hf. pose proof (length_token_List c) as Hlc. unfold decodeNode_body.
  rewrite (proj2 (Z.eqb_neq _ _)) by (rewrite length_app; lia). unfold SplitList. rewrite Split_list by done.
  cbn [res_wrap res_bind]. apply Forall_app in Hu as [[_ Hu]%Forall_app _]. apply fits_app in Hf as [Hf _].
  pose proof (CountValues_items its Hi Hu) as E. fold c in E. rewrite E; [done|].
  by apply (fits_le _ _ (Nat.lt_le_incl _ _ Hlc)).
Qed.

Lemma small_ref t : good false t -> large t = false -> enc (tree_ref t) = tree_enc t.
Proof. intros Hg El. rewrite tree_ref_good, El by by right. by destruct t; [destruct Hg|..]. Qed.

Lemma in_concat_length {A} (l : list (list A)) x : x ∈ l -> (length x <= length (concat l))%nat.
Proof. induction 1 as [|x y l H IH]; cbn [concat]; rewrite length_app; lia. Qed.

(** The topmost node of a tree is decoded from the encoding of the tree, whatever
    follows it. *)
Lemma decode_tree fuel t hash rest g :
  good false t -> (length (tree_enc t) < fuel)%nat ->
  Forall is_u8 (tree_enc t ++ rest) -> fits (tree_enc t ++ rest) ->
  decodeNode_fuel fuel hash (tree_enc t ++ rest) g = Ok (stored_node hash g t).
Proof.
  revert fuel hash rest. induction t as [|v|k t IH|l IH] using tree_ind'; intros fuel hash rest Hg Hl Hu Hf;
    [destruct Hg|destruct Hg as [[=] _]| |]; (destruct fuel as [|fuel]; [lia|]); cbn [decodeNode_fuel].
  - assert (str_enc (compact k) ++ enc (tree_ref t) = concat (map enc [Str (compact k); tree_ref t])) as Ec
      by (cbn [map concat]; by rewrite app_nil_r).
    rewrite tree_enc_short, Ec in *. pose proof (length_token_List (concat (map enc [Str (compact k); tree_ref t]))) as Hlc.
    rewrite decode_items by (done || (repeat constructor; apply tree_ref_str_or_list)).
    cbn [length]. change (Z.of_nat 2 =? 2) with true. cbn iota. apply Forall_app in Hu as [[_ Hu]%Forall_app _].
    apply fits_app in Hf as [Hf _]. pose proof (fits_le _ _ (Nat.lt_le_incl _ _ Hlc) Hf) as Hfc.
    rewrite <- Ec in *. rewrite decodeShort_tree; [done|done| |done|done].
    intros rest' El Hgt Hu' Hf'. apply IH; [done| |done|done]. pose proof (f_equal length (small_ref t Hgt El)).
    rewrite length_app in Hlc. lia.
  - rewrite tree_enc_full in *. pose proof (length_token_List (concat (map enc (map tree_ref l)))) as Hlc.
    pose proof Hg as (_ & Hl17 & _)%good_full. rewrite decode_items; [|by apply Forall_map, Forall_true, tree_ref_str_or_list|done|done].
    rewrite length_map, Hl17. cbn iota. apply Forall_app in Hu as [[_ Hu]%Forall_app _].
    apply fits_app in Hf as [Hf _]. pose proof (fits_le _ _ (Nat.lt_le_incl _ _ Hlc) Hf) as Hfc.
    rewrite decodeFull_tree; [done|done| |done|done]. rewrite Forall_forall in IH. apply Forall_forall.
    intros t Hin rest' El Hgt Hu' Hf'. apply IH; [done|done| |done|done].
    pose proof (in_concat_length (map enc (map tree_ref l)) (tree_enc t)) as Ht.
    enough (tree_enc t ∈ map enc (map tree_ref l)) as H by (specialize (Ht H); lia). rewrite <- small_ref by done. by do 2 apply list_elem_of_fmap_2.
Qed.

Lemma decodeNode_tree t hash g :
  good false t -> fits (tree_enc t) -> decodeNode hash (tree_enc t) g = Ok (stored_node hash g t).
Proof.
  intros Hg Hf. unfold decodeNode. pose proof (tree_enc_u8 t (or_intror (ex_intro _ false Hg)) Hf) as Hu.
  rewrite <- (app_nil_r (tree_enc t)) in Hu, Hf |- * at 1. rewrite <- (app_nil_r (tree_enc t)) at 2.
  rewrite app_nil_r at 1. apply decode_tree; [done|lia|done|done].
Qed.

(** ** Sizes

    Contents that fit in memory have encodings that do. *)

Definition bounded (b : list Z) : Prop := Z.of_nat (length b) < 2 ^ 48.

Definition in_memory (t : tree) : Prop := forall key v, tfind t key = Some v -> bounded key /\ bounded v.

Lemma bounded_fits b : bounded b -> fits b.
Proof. unfold bounded, fits. lia. Qed.

Lemma length_puthead_le a b size : is_u64 size -> (length (puthead a b size) <= 9)%nat.
Proof. intros Hs. pose proof (putint_length size Hs). unfold puthead. case_match; cbn [length]; lia. Qed.

Lemma length_str_enc_le b : fits b -> (length (str_enc b) <= length b + 9)%nat.
Proof.
  intros Hf%fits_u64. pose proof (length_puthead_le 0x80 0xB7 _ Hf). unfold str_enc.
  destruct b as [|x [|y b]]; [vm_compute; lia|case_match; vm_compute; lia|]. rewrite length_app. lia.
Qed.

Lemma length_list_enc_le c : fits c -> (length (token List_ c) <= length c + 9)%nat.
Proof. intros Hf%fits_u64. pose proof (length_puthead_le 0xC0 0xF7 _ Hf). cbn [token]. rewrite length_app. lia. Qed.

Lemma length_ref_le t : t = TNil \/ good false t -> (length (enc (tree_ref t)) <= 41)%nat.
Proof.
  intros Ht. rewrite tree_ref_good by done. destruct Ht as [->|Hg]; [vm_compute; lia|].
  assert (length (enc (if large t then Str (tree_hash t) else tree_item t)) <= 41)%nat as H; [|by destruct t; [destruct Hg|..]].
  destruct (large t) eqn:E.
  - cbn [enc]. etransitivity; [apply length_str_enc_le, keccak_fits|]. unfold tree_hash. rewrite length_keccak256. lia.
  - unfold large in E. apply negb_false_iff, Nat.ltb_lt in E. unfold tree_enc in E. lia.
Qed.

Lemma in_memory_short k t : good false (TShort k t) -> in_memory (TShort k t) -> bounded k /\ in_memory t.
Proof.
  intros Hg Hm. assert (in_memory t) as Ht.
  { intros key v Hf. rewrite <- (tfind_short_app k) in Hf. apply Hm in Hf as [Hk Hv]. split; [|done].
    unfold bounded in *. rewrite length_app in Hk. lia. }
  split; [|done]. destruct (good_entry _ _ Hg) as (key & v & _ & Hf). pose proof (Hm _ _ Hf) as [Hk _].
  apply tfind_short_Some in Hf as (r & -> & _). unfold bounded in *. rewrite length_app in Hk. lia.
Qed.

Lemma in_memory_full l i t : in_memory (TFull l) -> l !! i = Some t -> in_memory t.
Proof.
  intros Hm Hi key v Hf. rewrite <- (tfind_full_at l i t key Hi) in Hf. apply Hm in Hf as [Hk Hv]. split; [|done].
  unfold bounded in *. cbn [length] in Hk. lia.
Qed.

Lemma in_memory_value v : in_memory (TVal v) -> bounded v.
Proof. intros H. by apply (H [] v). Qed.

Lemma length_refs_le l :
  Forall (fun t => t = TNil \/ good false t) l -> (length (concat (map enc (map tree_ref l))) <= 41 * length l)%nat.
Proof.
  induction 1 as [|t l Ht Hl IH]; cbn [map concat length]; [lia|]. rewrite length_app. pose proof (length_ref_le t Ht). lia.
Qed.

Lemma tree_enc_fits t : good false t -> in_memory t -> fits (tree_enc t).
Proof.
  intros Hg Hm. destruct t as [|v|k t|l]; [destruct Hg|destruct Hg as [[=] _]| |].
  - destruct (in_memory_short k t Hg Hm) as [Hk Ht]. destruct Hg as (_ & _ & Hh & _ & Hg). rewrite tree_enc_short.
    pose proof (length_compact k). unfold bounded in Hk. assert (fits (compact k)) as Hc by (unfold fits; lia).
    pose proof (length_str_enc_le _ Hc). assert (Z.of_nat (length (enc (tree_ref t))) <= 2 ^ 48 + 9) as Hr.
    { destruct (hasTerm k); [|pose proof (length_ref_le t (or_intror Hg)); lia]. apply good_true in Hg as (v & -> & _).
      pose proof (in_memory_value v Ht) as Hv. pose proof (length_str_enc_le v (bounded_fits v Hv)).
      change (enc (tree_ref (TVal v))) with (str_enc v). unfold bounded in Hv. lia. }
    assert (fits (str_enc (compact k) ++ enc (tree_ref t))) as Hf by (unfold fits; rewrite length_app; lia).
    pose proof (length_list_enc_le _ Hf) as Hl. unfold fits. rewrite length_app in Hl. lia.
  - pose proof Hg as (_ & Hl17 & _ & Hs)%good_full. destruct (slots_split l Hl17 Hs) as (l16 & t & -> & H16 & Hr & Ht).
    rewrite tree_enc_full, !map_app, concat_app. cbn [map concat]. rewrite app_nil_r. pose proof (length_refs_le l16 Hr) as Hl.
    assert (Z.of_nat (length (enc (tree_ref t))) <= 2 ^ 48 + 9) as Hrt.
    { destruct Ht as [->|(v & -> & _)]; [vm_compute; discriminate|].
      pose proof (in_memory_full _ 16 (TVal v) Hm) as Hv. rewrite lookup_app_r, H16 in Hv by lia. specialize (Hv eq_refl).
      apply in_memory_value in Hv. pose proof (length_str_enc_le v (bounded_fits v Hv)).
      change (enc (tree_ref (TVal v))) with (str_enc v). unfold bounded in Hv. lia. }
    set (c := concat _ ++ _). assert (fits c) as Hf by (unfold fits, c; rewrite length_app; lia).
    pose proof (length_list_enc_le _ Hf) as Hlc. unfold fits. unfold c in Hlc at 2. rewrite length_app in Hlc. lia.
Qed.
