(* ===== verification/TrieMap.v ===== *)
(** * A trie is a finite map

    A node with its caches and its unloaded parts represents a tree ([rep]).
    Reading, writing and deleting are shown to be what they are on the contents
    of that tree, or to end with the error that a node is missing, and then the
    node is not in the database. *)

From S2P Require Import Rlp Sponge TrieKeys TrieNode TrieDatabase Trie TrieTree TrieHashing Prelude.

#[local] Set Warnings "-register-all".

(** ** Representation

    [K] are the trees that may be unloaded: they are good, and if the database has
    something under the hash of one, it is its encoding.  The topmost node of a
    trie ([f]) can have a hash even if it is short.  A node that is on the disk
    and has no hash of its own is embedded in another one. *)

Section Rep.
Context (K : tree -> Prop).

Definition flag_ok (f : bool) (fl : nodeFlag) (t : tree) : Prop :=
  match fhash fl with
  | None => dirty fl = false -> f = false /\ large t = false
  | Some h => h = tree_hash t /\ (f = true \/ large t = true) /\ (dirty fl = false -> K t)
  end.

Inductive rep : bool -> node -> tree -> Prop :=
| rep_nil f : rep f Nil TNil
| rep_val f v : rep f (valueNode (Some v)) (TVal v)
| rep_hash f t : K t -> (f = true \/ large t = true) -> rep f (hashNode (tree_hash t)) t
| rep_short f k n t fl : rep false n t -> flag_ok f fl (TShort k t) -> rep f (shortNode k n fl) (TShort k t)
| rep_full f ns l fl : Forall2 (rep false) ns l -> flag_ok f fl (TFull l) -> rep f (fullNode ns fl) (TFull l).

Lemma new_flag_ok f g t : flag_ok f (newFlag g) t.
Proof. done. Qed.

Lemma flag_ok_gen f fl g t : flag_ok f fl t -> flag_ok f (mkFlag (fhash fl) g (dirty fl)) t.
Proof. done. Qed.
End Rep.

Create HintDb trie.
#[export] Hint Constructors rep : trie.
#[export] Hint Resolve new_flag_ok flag_ok_gen : trie.

Class Unloaded `{DiskDB} (db : Database) (K : tree -> Prop) := {
  K_good : forall t, K t -> good false t /\ in_memory t;
  K_db : forall t, K t -> Node (tree_hash t) db = None \/ Node (tree_hash t) db = Some (tree_enc t);
  K_short : forall k t, K (TShort k t) -> good false t -> large t = true -> K t;
  K_full : forall l i t, K (TFull l) -> l !! i = Some t -> good false t -> large t = true -> K t
}.

(** ** Loading *)

(** A short encoding has no hashes in it. *)
Lemma large_ref t : good false t -> large t = true -> length (enc (tree_ref t)) = 33%nat.
Proof.
  intros Hg El. rewrite tree_ref_good, El by by right.
  assert (length (str_enc (tree_hash t)) = 33%nat) as H; [|by destruct t; [destruct Hg|..]].
  assert (length (tree_hash t) = 32%nat) as Hl by apply length_keccak256. unfold str_enc.
  destruct (tree_hash t) as [|x [|y h]]; [done..|]. rewrite length_app, Hl. reflexivity.
Qed.

Lemma small_short k t : large (TShort k t) = false -> good false t -> large t = false.
Proof.
  intros Hs Hg. destruct (large t) eqn:El; [|done]. pose proof (large_ref t Hg El) as Hl.
  unfold large in Hs. rewrite tree_enc_short in Hs. apply negb_false_iff, Nat.ltb_lt in Hs.
  pose proof (length_token_List (str_enc (compact k) ++ enc (tree_ref t))) as H. rewrite length_app in H. lia.
Qed.

Lemma small_full l i t : large (TFull l) = false -> l !! i = Some t -> good false t -> large t = false.
Proof.
  intros Hs Hi Hg. destruct (large t) eqn:El; [|done]. pose proof (large_ref t Hg El) as Hl.
  unfold large in Hs. rewrite tree_enc_full in Hs. apply negb_false_iff, Nat.ltb_lt in Hs.
  pose proof (length_token_List (concat (map enc (map tree_ref l)))) as H.
  pose proof (in_concat_length (map enc (map tree_ref l)) (enc (tree_ref t))) as Hc.
  enough (enc (tree_ref t) ∈ map enc (map tree_ref l)) as Hin by (specialize (Hc Hin); lia).
  do 2 apply list_elem_of_fmap_2. by eapply list_elem_of_lookup_2.
Qed.

Section Loading.
Context `{DiskDB} (db : Database) (K : tree -> Prop) `{!Unloaded db K}.

(** A good tree is small, or its large children may be unloaded. *)
Definition loadable (t : tree) : Prop := large t = false \/ K t.

Lemma stored_ref_rep (b : bool) g t :
  t = TNil \/ good b t ->
  (large t = false -> good false t -> rep K false (stored_node None g t) t) -> (large t = true -> good false t -> K t) ->
  rep K false (stored_ref g t) t.
Proof.
  intros [->|Hg] Hs Hl; [constructor|]. destruct b; [apply good_true in Hg as (v & -> & _); constructor|].
  assert (stored_ref g t = if large t then hashNode (tree_hash t) else stored_node None g t) as ->
    by by destruct t; [destruct Hg|destruct Hg as [[=] _]|..].
  destruct (large t) eqn:El; [|by apply Hs]. constructor; [by apply Hl|by right].
Qed.

Lemma stored_node_rep f hash g t :
  good false t -> loadable t -> flag_ok K f (mkFlag hash g false) t -> rep K f (stored_node hash g t) t.
Proof.
  revert f hash. induction t as [|v|k t IH|l IH] using tree_ind'; intros f hash Hg Hl Hfl;
    [destruct Hg|destruct Hg as [[=] _]| |].
  - rewrite stored_node_short. constructor; [|done]. pose proof Hg as (_ & _ & _ & _ & Hgt).
    apply (stored_ref_rep (hasTerm k)); [by right| |].
    + intros El Hgf. apply IH; [done|by left|by split].
    + intros El Hgf. destruct Hl as [Hl|Hl]; [by rewrite (small_short k t) in El|by apply (K_short k t)].
  - rewrite stored_node_full. constructor; [|done]. pose proof Hg as (_ & _ & _ & Hs)%good_full.
    rewrite Forall_lookup in IH. apply Forall2_fmap_l, Forall_Forall2_diag, Forall_lookup. intros i t Hi.
    apply (stored_ref_rep (Z.of_nat i =? 16)); [by eapply Hs| |].
    + intros El Hgf. apply (IH i t Hi); [done|by left|by split].
    + intros El Hgf. destruct Hl as [Hl|Hl]; [by rewrite (small_full l i t) in El|by apply (K_full l i t)].
Qed.

(** An error is about a node that is not there. *)
Definition missing (e : trie_error) : Prop :=
  exists s p, K s /\ Node (tree_hash s) db = None /\ e = MissingNode (tree_hash s) p.

Lemma BytesToHash_hash t : BytesToHash (tree_hash t) = tree_hash t.
Proof. unfold BytesToHash. assert (length (tree_hash t) = 32%nat) as Hl by apply length_keccak256. by rewrite Hl, Nat.sub_diag, drop_0, Hl. Qed.

Definition is_hash (n : node) : bool :=
  match n with
  | hashNode _ => true
  | _ => false
  end.

(** Loading a node: it represents the same tree and is not a hash any more. *)
Lemma resolveHash_rep f g t prefix :
  K t -> (f = true \/ large t = true) ->
  (exists n, resolveHash db g (tree_hash t) prefix = Ok n /\ rep K f n t /\ is_hash n = false) \/
  (exists e, resolveHash db g (tree_hash t) prefix = Err e /\ missing e).
Proof.
  intros HK Hf. destruct (K_good t HK) as [Hg Hm]. unfold resolveHash. rewrite BytesToHash_hash.
  destruct (K_db t HK) as [E|E]; rewrite E.
  - right. eexists. split; [done|]. exists t, prefix. auto.
  - left. unfold mustDecodeNode. rewrite decodeNode_tree by auto using tree_enc_fits.
    eexists. split; [done|]. split.
    + apply stored_node_rep; [done|by right|]. by split.
    + by destruct t; [destruct Hg|destruct Hg as [[=] _]|..].
Qed.
End Loading.

(** ** Reading *)

(** The fuel for the rest of a key: a node per nibble, and its hash. *)
Definition enough (n : node) (key : list Z) : nat := (2 * length key + if is_hash n then 2 else 1)%nat.

Section Reading.
Context `{DiskDB} (db : Database) (K : tree -> Prop) `{!Unloaded db K}.

Lemma matches_iff k key pos :
  (pos <= length key)%nat -> matches k key pos = true <-> exists r, drop pos key = k ++ r.
Proof.
  intros Hp. unfold matches. rewrite andb_true_iff, negb_true_iff, Z.ltb_ge, bool_decide_eq_true. split.
  - intros [_ E]. exists (drop (length k) (drop pos key)). rewrite E at 1. by rewrite take_drop.
  - intros [r E]. pose proof (f_equal length E) as Hl. rewrite length_drop, length_app in Hl.
    rewrite E, take_app_length. split; [lia|done].
Qed.

Lemma drop_cons_lookup {A} (l : list A) i x r : drop i l = x :: r -> l !! i = Some x /\ drop (i + 1) l = r.
Proof.
  intros E. split.
  - pose proof (lookup_drop l i 0) as H0. rewrite E, Nat.add_0_r in H0. by rewrite <- H0.
  - by rewrite <- drop_drop, E.
Qed.

(** The child of a full node a key goes on to. *)
Lemma full_child f ns l x r :
  Forall2 (rep K f) ns l -> good false (TFull l) -> hexkey (x :: r) ->
  exists c t, @go_index trie_error _ ns x = Ok c /\ rep K f c t /\ ns !! Z.to_nat x = Some c /\ l !! Z.to_nat x = Some t /\
              (t = TNil \/ good (x =? 16) t) /\ keyat (x =? 16) r /\ 0 <= x <= 16.
Proof.
  intros Hr (_ & Hl & _ & Hs)%good_full Hk. destruct (keyat_cons x r Hk) as [Hx Hkr].
  destruct (lookup_lt_is_Some_2 l (Z.to_nat x)) as [t Ht]; [lia|].
  destruct (Forall2_lookup_r _ _ _ _ _ Hr Ht) as (c & Hc & Hrc). exists c, t.
  split; [apply go_index_nth; [lia|done]|]. split; [done|]. split; [done|]. split; [done|]. split; [|done].
  specialize (Hs _ _ Ht). by rewrite Z2Nat.id in Hs by lia.
Qed.

Lemma enough_child (n c : node) (k r : list Z) fuel :
  k <> [] -> is_hash n = false -> (enough n (k ++ r) <= S fuel)%nat -> (enough c r <= fuel)%nat.
Proof.
  unfold enough. intros Hk Hn. rewrite length_app, Hn. destruct k; [done|]. cbn [length]. destruct (is_hash c); lia.
Qed.

Lemma tryGet_rep fuel g f b n t key pos :
  rep K f n t -> t = TNil \/ good b t -> keyat b (drop pos key) -> (pos <= length key)%nat ->
  (enough n (drop pos key) <= fuel)%nat ->
  (exists n' d, tryGet db fuel g n key pos = Ok (tfind t (drop pos key), n', d) /\ rep K f n' t) \/
  (exists e, tryGet db fuel g n key pos = Err e /\ missing db K e).
Proof.
  revert f b n t pos. induction fuel as [|fuel IH]; intros f b n t pos Hr Hg Hk Hp He.
  { unfold enough in He. destruct (is_hash n); lia. }
  destruct Hr as [f|f v|f t HK Hf|f k n t fl Hn Hfl|f ns l fl Hns Hfl]; cbn [tryGet].
  - left. exists Nil, false. split; [done|constructor].
  - destruct Hg as [|[-> _]]; [done|]. cbn in Hk. rewrite Hk. left. eexists _, _. split; [done|constructor].
  - destruct (resolveHash_rep db K f g t (take pos key) HK Hf) as [(n & -> & Hn & Hh)|(e & -> & Hm)];
      [|right; by exists e]. cbn [res_bind].
    destruct (IH f b n t pos Hn Hg Hk Hp) as [(n' & d & -> & Hn')|(e & -> & Hm)].
    + unfold enough in *. rewrite Hh. cbn [is_hash] in He. lia.
    + left. cbn [res_bind]. eauto.
    + right. by exists e.
  - destruct Hg as [|Hg]; [done|]. pose proof Hg as (-> & Hne & Hh & _ & Hgt).
    destruct (matches k key pos) eqn:Em; cbn [negb].
    + apply matches_iff in Em as [r E]; [|done]. rewrite E in *.
      assert (drop (pos + length k) key = r) as Er by by rewrite <- drop_drop, E, drop_app_length.
      pose proof (f_equal length E) as Hl. rewrite length_drop, length_app in Hl.
      destruct (IH false (hasTerm k) n t (pos + length k)%nat Hn (or_intror Hgt)) as [(n' & d & -> & Hn')|(e & -> & Hm)].
      * rewrite Er. by apply keyat_app.
      * lia.
      * rewrite Er. by apply (enough_child (shortNode k n fl) n k).
      * left. cbn [res_bind]. rewrite Er, tfind_short_app. eexists _, _. split; [done|]. destruct d; eauto with trie.
      * right. by exists e.
    + left. rewrite tfind_short_None; [eauto with trie|]. intros r E.
      rewrite (proj2 (matches_iff k key pos Hp)) in Em; [done|by exists r].
  - destruct Hg as [|Hg]; [done|]. pose proof Hg as (-> & _)%good_full. cbn in Hk.
    destruct (drop pos key) as [|x r] eqn:E; [by apply hexkey_nil in Hk|].
    destruct (drop_cons_lookup _ _ _ _ E) as [Hx Er].
    rewrite (go_index_nth key _ x) by (lia || by rewrite Nat2Z.id). cbn [res_bind].
    destruct (full_child false ns l x r Hns Hg Hk) as (c & t & -> & Hc & Hci & Hti & Hgt & Hkr & Hx16). cbn [res_bind].
    pose proof (lookup_lt_Some _ _ _ Hx) as Hlt.
    destruct (IH false (x =? 16) c t (pos + 1)%nat Hc Hgt) as [(n' & d & -> & Hn')|(e & -> & Hm)].
    * by rewrite Er.
    * lia.
    * rewrite Er. by apply (enough_child (fullNode ns fl) c [x]).
    * left. cbn [res_bind]. rewrite Er, (tfind_full_key l x t r) by (done || lia).
      eexists _, _. split; [done|]. destruct d; [|eauto with trie]. constructor; [|by apply flag_ok_gen].
      rewrite <- (list_insert_id l (Z.to_nat x) t) by done. by apply Forall2_insert.
    * right. by exists e.
Qed.
End Reading.

(** ** Writing *)

Section Writing.
Context `{DiskDB} (db : Database) (K : tree -> Prop) `{!Unloaded db K}.

(** What an operation promises: the new contents at that place, or a node that is
    missing. *)
Definition updates (f b : bool) (t : tree) (key : list Z) (o : option (list Z)) (r : res trie_error (bool * node))
    (ok : tree -> Prop) : Prop :=
  (exists d n' t', r = Ok (d, n') /\ rep K f n' t' /\ ok t' /\ (d = false -> t' = t) /\
                   (forall key', tfind t' key' = upd (tfind t) key o key')) \/
  (exists e, r = Err e /\ missing db K e).

(** The tree after a write: good, and not short where it was not. *)
Definition written (b : bool) (t t' : tree) : Prop := good b t' /\ (t <> TNil -> not_short t -> not_short t').

Lemma insert_nil fuel g prefix key value :
  (1 <= fuel)%nat ->
  insert_ db fuel g Nil prefix key value =
  Ok (true, match key with [] => value | _ => shortNode key value (newFlag g) end).
Proof. destruct fuel; [lia|]. by destruct key. Qed.

Lemma rep_hang g r n t :
  rep K false n t -> rep K false (match r with [] => n | _ => shortNode r n (newFlag g) end) (hang r t).
Proof. destruct r; [done|]. by constructor. Qed.

Lemma rep_nils : Forall2 (rep K false) (replicate 17 Nil) nils.
Proof. apply Forall2_replicate. constructor. Qed.

(** Two different keys that begin alike. *)
Lemma keys_diverge k key :
  hexpart k -> hexkey key -> k <> [] ->
  (exists r, key = k ++ r /\ prefixLen key k = length k) \/
  (exists c x s y r, k = c ++ x :: s /\ key = c ++ y :: r /\ x <> y /\ prefixLen key k = length c).
Proof.
  intros Hk Hkey Hne. destruct (prefixLen_spec key k) as (c & r & s & -> & -> & Hl & Hd).
  destruct s as [|x s]; [left; exists r; by rewrite app_nil_r in *|].
  destruct r as [|y r]; [|right; exists c, x, s, y, r; split_and!; [done..| |done]; intros ->; by eapply Hd].
  rewrite app_nil_r in Hkey. apply hexpart_app in Hk as [Hp _]; [|done].
  apply hasTerm_hexkey in Hkey. by rewrite hasTerm_path in Hkey.
Qed.

Lemma insert_fork fuel g f b k n t fl prefix key v c x s y r :
  rep K false n t -> good b (TShort k t) -> hexkey key -> storable v -> (2 <= fuel)%nat ->
  k = c ++ x :: s -> key = c ++ y :: r -> x <> y -> prefixLen key k = length c ->
  updates f b (TShort k t) key (Some v) (insert_ db fuel g (shortNode k n fl) prefix key (valueNode (Some v)))
    (written b (TShort k t)).
Proof.
  intros Hn Hg Hkey Hv Hfuel Ek Ekey Hxy Hpl. left. destruct fuel as [|fuel]; [lia|].
  pose proof Hg as (-> & _ & Hh & Hns & Hgt). rewrite Ek in Hh, Hgt.
  destruct (good_hang c x s t Hh Hns Hgt) as [Hx Hgx]. apply hexpart_app in Hh as [Hc _]; [|done].
  rewrite Ekey in Hkey. assert (hexpart (c ++ y :: r)) as Hh' by by right.
  assert (good (hasTerm (c ++ y :: r)) (TVal v)) as Hgv by by rewrite hasTerm_hexkey.
  destruct (good_hang c y r (TVal v) Hh' I Hgv) as [Hy Hgy].
  assert (length (c ++ x :: s) <> length c) as Hlen by (rewrite length_app; cbn [length]; lia).
  destruct key as [|key0 key1] eqn:E; [by destruct c|]. cbn [insert_]. rewrite <- E, Ekey in *. clear E key0 key1.
  rewrite Ek, Hpl in *. rewrite (proj2 (Nat.eqb_neq _ _)) by done.
  rewrite (go_index_nth _ _ x) by (lia || by rewrite Nat2Z.id, lookup_app_r, Nat.sub_diag by lia). cbn [res_bind].
  rewrite insert_nil by lia. cbn [res_bind].
  rewrite (go_index_nth _ _ y) by (lia || by rewrite Nat2Z.id, lookup_app_r, Nat.sub_diag by lia). cbn [res_bind].
  rewrite insert_nil by lia. cbn [res_bind].
  assert (forall (z : Z) q, drop (length c + 1) (c ++ z :: q) = q) as Hdrop
    by (intros z q; by rewrite <- drop_drop, drop_app_length).
  rewrite !Hdrop.
  exists true. eexists _, (fork c x (hang s t) y (hang r (TVal v))). split; [done|]. split; [|split; [|split; [done|]]].
  - unfold fork. rewrite take_app_length. assert (Forall2 (rep K false)
      (<[Z.to_nat y := match r with [] => valueNode (Some v) | _ => shortNode r (valueNode (Some v)) (newFlag g) end]>
        (<[Z.to_nat x := match s with [] => n | _ => shortNode s n (newFlag g) end]> (replicate 17 Nil)))
      (<[Z.to_nat y := hang r (TVal v)]> (<[Z.to_nat x := hang s t]> nils))) as Hb.
    { apply Forall2_insert; [apply Forall2_insert; [apply rep_nils|by apply rep_hang]|apply rep_hang; constructor]. }
    destruct c as [|z c]; cbn [length Nat.eqb hang]; eauto 6 with trie.
  - split; [by apply fork_good|done].
  - intros key'. by apply tfind_fork.
Qed.

(** At the end of a key. *)
Lemma insert_end fuel g f n t prefix v :
  rep K f n t -> t = TNil \/ good true t -> storable v -> (1 <= fuel)%nat ->
  updates f true t [] (Some v) (insert_ db fuel g n prefix [] (valueNode (Some v))) (written true t).
Proof.
  intros Hr Hg Hv Hfuel. destruct fuel as [|fuel]; [lia|]. left. destruct Hg as [->|Hg].
  - assert (n = Nil) as -> by (inversion Hr as [| |? ? HK| |]; subst; [done|by apply (K_good TNil) in HK as [[] _]]).
    exists true, (valueNode (Some v)), (TVal v). split; [done|]. split; [constructor|]. split; [done|]. split; [done|].
    intros [|]; done.
  - apply good_true in Hg as (w & -> & Hw).
    assert (n = valueNode (Some w)) as -> by (inversion Hr as [| |? ? HK| |]; subst; [done|by apply (K_good (TVal w)) in HK as [[[=] _] _]]).
    exists (negb (bool_decide (w = v))), (valueNode (Some v)), (TVal v). split; [done|]. split; [constructor|].
    split; [done|]. split; [|by intros [|]]. intros E%negb_false_iff%bool_decide_eq_true. by rewrite E.
Qed.

(** A change below a short or a full node. *)
Lemma updates_short f k n t fl g r o R :
  good false (TShort k t) -> rep K f (shortNode k n fl) (TShort k t) ->
  updates false (hasTerm k) t r o R (written (hasTerm k) t) ->
  updates f false (TShort k t) (k ++ r) o
    (let* (d, nn) := R in Ok (if d then (true, shortNode k nn (newFlag g)) else (false, shortNode k n fl)))
    (written false (TShort k t)).
Proof.
  intros Hg Hr [(d & nn & t' & -> & Hnn & [Hgt' Hns] & Hd & Hf)|(e & -> & Hm)]; [left|right; by exists e]. cbn [res_bind].
  pose proof Hg as (_ & Hne & Hh & Hnst & Hgt). pose proof (upd_short k t t' r o Hf) as Hf'.
  exists d. destruct d.
  - exists (shortNode k nn (newFlag g)), (TShort k t'). split; [done|]. split; [eauto with trie|]. split; [|done].
    split; [|done]. cbn [good]. split; [done|]. split; [done|]. split; [done|]. split; [|done].
    apply Hns; [|done]. by intros ->.
  - rewrite (Hd eq_refl) in *. exists (shortNode k n fl), (TShort k t). split; [done|]. split; [done|]. by split; [split|].
Qed.

Lemma updates_full f ns l fl g x c t r o R :
  good false (TFull l) -> rep K f (fullNode ns fl) (TFull l) -> 0 <= x ->
  ns !! Z.to_nat x = Some c -> l !! Z.to_nat x = Some t ->
  updates false (x =? 16) t r o R (written (x =? 16) t) ->
  updates f false (TFull l) (x :: r) o
    (let* (d, nn) := R in Ok (if d then (true, fullNode (<[Z.to_nat x := nn]> ns) (newFlag g)) else (false, fullNode ns fl)))
    (written false (TFull l)).
Proof.
  intros Hg Hr Hx Hc Ht [(d & nn & t' & -> & Hnn & [Hgt' Hns] & Hd & Hf)|(e & -> & Hm)]; [left|right; by exists e].
  cbn [res_bind]. pose proof (upd_full l (Z.to_nat x) t t' r o Ht Hf) as Hf'. rewrite Z2Nat.id in Hf' by lia.
  exists d. destruct d.
  - exists (fullNode (<[Z.to_nat x := nn]> ns) (newFlag g)), (TFull (<[Z.to_nat x := t']> l)). split; [done|].
    assert (Forall2 (rep K false) ns l) as Hns' by by inversion Hr. split; [|split; [|done]].
    + constructor; [by apply Forall2_insert|done].
    + split; [|done]. apply good_full in Hg as (_ & Hl & He & Hs). apply good_full. rewrite length_insert.
      split; [done|]. split; [done|]. split.
      * pose proof (entries_insert l _ t t' Ht) as E. rewrite (weight_good _ _ Hgt') in E.
        assert (weight t <= 1)%nat by (unfold weight; by destruct (isTNil t); lia). lia.
      * apply slots_insert; [done|]. right. by rewrite Z2Nat.id by lia.
  - rewrite (Hd eq_refl), list_insert_id in * by done. exists (fullNode ns fl), (TFull l).
    split; [done|]. split; [done|]. by split; [split|].
Qed.

(** Writing a value. *)
Lemma insert_rep fuel g f b n t prefix key v :
  rep K f n t -> t = TNil \/ good b t -> keyat b key -> storable v -> (enough n key <= fuel)%nat ->
  updates f b t key (Some v) (insert_ db fuel g n prefix key (valueNode (Some v))) (written b t).
Proof.
  revert f b n t prefix key. induction fuel as [|fuel IH]; intros f b n t prefix key Hr Hg Hk Hv He.
  { unfold enough in He. destruct (is_hash n); lia. }
  destruct b; [rewrite Hk; apply insert_end; [done|done|done|lia]|].
  cbn in Hk. pose proof Hr as Hr'. destruct Hr as [f|f w|f t HK Hf|f k n t fl Hn Hfl|f ns l fl Hns Hfl].
  - rewrite insert_nil by lia. destruct key as [|x key]; [by apply hexkey_nil in Hk|]. left.
    eexists true, _, (TShort (x :: key) (TVal v)). split; [done|]. split; [eauto with trie|]. split; [|split; [done|]].
    + split; [|done]. cbn [good]. split; [done|]. split; [done|]. split; [by right|]. split; [done|]. by rewrite hasTerm_hexkey.
    + apply tfind_leaf.
  - destruct Hg as [|[[=] _]]; done.
  - destruct key as [|x key]; [by apply hexkey_nil in Hk|]. cbn [insert_].
    destruct (resolveHash_rep db K f g t prefix HK Hf) as [(n & -> & Hn & Hh)|(e & -> & Hm)];
      [|right; by exists e]. cbn [res_bind].
    destruct (IH f false n t prefix (x :: key) Hn Hg Hk Hv) as [(d & n' & t' & -> & Hn' & Hw & Hd & Hf')|(e & -> & Hm)].
    + unfold enough in *. rewrite Hh. cbn [is_hash] in He. lia.
    + left. cbn [res_bind]. exists d. destruct d; [by exists n', t'|]. exists n, t. rewrite (Hd eq_refl) in *. auto.
    + right. by exists e.
  - destruct Hg as [|Hg]; [done|]. pose proof Hg as (_ & Hne & Hh & _ & Hgt).
    assert (2 <= length key + length key)%nat as Hlk by (destruct key; [by apply hexkey_nil in Hk|cbn; lia]).
    destruct (keys_diverge k key Hh Hk Hne) as [(r & -> & Hpl)|(c & x & s & y & r & Ek & Ekey & Hxy & Hpl)].
    2: { eapply insert_fork; [done..| |done|done|done|done]. unfold enough in He. lia. }
    assert (insert_ db (S fuel) g (shortNode k n fl) prefix (k ++ r) (valueNode (Some v)) =
      let* (d, nn) := insert_ db fuel g n (prefix ++ take (length k) (k ++ r)) r (valueNode (Some v)) in
      Ok (if d then (true, shortNode k nn (newFlag g)) else (false, shortNode k n fl))) as ->.
    { destruct k as [|k0 k]; [done|]. cbn [app insert_]. cbn [app] in Hpl. rewrite Hpl, Nat.eqb_refl.
      change (k0 :: k ++ r) with ((k0 :: k) ++ r). by rewrite drop_app_length. }
    apply updates_short; [done|done|]. apply IH; [done|by right|by apply keyat_app|done|].
    by apply (enough_child (shortNode k n fl) n k).
  - destruct Hg as [|Hg]; [done|]. destruct key as [|x r]; [by apply hexkey_nil in Hk|]. cbn [insert_].
    destruct (full_child K false ns l x r Hns Hg Hk) as (c & t & -> & Hc & Hci & Hti & Hgt & Hkr & Hx16). cbn [res_bind].
    apply (updates_full f ns l fl g x c t); [done|done|lia|done|done|]. apply IH; [done..|].
    by apply (enough_child (fullNode ns fl) c [x]).
Qed.
End Writing.

(** ** Deleting *)

Section Deleting.
Context `{DiskDB} (db : Database) (K : tree -> Prop) `{!Unloaded db K}.

Lemma rep_isNil f n t : rep K f n t -> isNil n = isTNil t.
Proof. intros [| |? u HK| |]; try done. destruct (K_good u HK) as [Hg _]. by destruct u. Qed.

Lemma onlyChild_some ns l i pos :
  Forall2 (rep K false) ns l -> pos <> -1 ->
  onlyChild ns i pos = if (entries l =? 0)%nat then pos else -2.
Proof.
  intros Hr Hp. revert i. induction Hr as [|n t ns l Hn Hr IH]; intros i; [done|]. cbn [onlyChild].
  rewrite entries_cons, (rep_isNil _ _ _ Hn). unfold weight. destruct (isTNil t); [apply IH|].
  by rewrite (proj2 (Z.eqb_neq pos (-1))).
Qed.

Lemma onlyChild_spec ns l i :
  Forall2 (rep K false) ns l -> 0 <= i ->
  match entries l with
  | O => onlyChild ns i (-1) = -1
  | 1%nat => exists j t, l !! j = Some t /\ t <> TNil /\ onlyChild ns i (-1) = i + Z.of_nat j
  | _ => onlyChild ns i (-1) = -2
  end.
Proof.
  intros Hr. revert i. induction Hr as [|n t ns l Hn Hr IH]; intros i Hi; [done|]. cbn [onlyChild].
  rewrite entries_cons, (rep_isNil _ _ _ Hn). unfold weight. destruct (isTNil t) eqn:Et.
  - cbn [Nat.add]. specialize (IH (i + 1) ltac:(lia)). destruct (entries l) as [|[|m]]; [done| |done].
    destruct IH as (j & u & Hj & Hu & ->). exists (S j), u. split_and!; [done..|lia].
  - cbn [Nat.add]. change (-1 =? -1) with true. cbn iota. rewrite (onlyChild_some ns l) by (done || lia).
    destruct (entries l) as [|m]; cbn [Nat.eqb]; [|done]. exists 0%nat, t. split; [done|]. split; [by intros ->|cbn; lia].
Qed.

(** The tree after a deletion. *)
Definition is_full (t : tree) : bool :=
  match t with
  | TFull _ => true
  | _ => false
  end.

Definition deleted (b : bool) (t t' : tree) : Prop := (t' = TNil \/ good b t') /\ (is_full t = true -> t' <> TNil).

Definition deletes (f b : bool) (t : tree) (key : list Z) (r : res trie_error (bool * node)) : Prop :=
  (exists d n' t', r = Ok (d, n') /\ rep K f n' t' /\ deleted b t t' /\ (d = false -> t' = t) /\
                   (d = true -> is_hash n' = false) /\ (forall key', tfind t' key' = upd (tfind t) key None key')) \/
  (exists e, r = Err e /\ missing db K e).

Lemma deletes_same f b n t key :
  rep K f n t -> t = TNil \/ good b t -> tfind t key = None -> deletes f b t key (Ok (false, n)).
Proof.
  intros Hr Hg Hf. left. exists false, n, t. split; [done|]. split; [done|]. split; [|split; [done|split; [done|]]].
  - split; [done|]. intros H' ->. done.
  - intros key'. unfold upd. by destruct (decide (key' = key)) as [->|].
Qed.

(** A run of nibbles in front of a node that is loaded ([n]) but kept as it was
    ([c]) unless it is short. *)
Lemma rep_joined f k c n t g :
  rep K false c t -> rep K false n t -> is_hash n = false ->
  rep K f (match n with
           | shortNode ck cv _ => shortNode (k ++ ck) cv (newFlag g)
           | _ => shortNode k c (newFlag g)
           end) (joined k t).
Proof.
  intros Hc Hn Hh. inversion Hn; subst; try done; cbn [joined]; by constructor.
Qed.

(** Below a short node the change can joined two short nodes. *)
Lemma deletes_short f k n t fl g r R :
  good false (TShort k t) -> is_full t = true -> rep K f (shortNode k n fl) (TShort k t) ->
  deletes false false t r R ->
  deletes f false (TShort k t) (k ++ r)
    (let* (d, child) := R in
     Ok (if d then (true, match child with
                          | shortNode ck cv _ => shortNode (k ++ ck) cv (newFlag g)
                          | _ => shortNode k child (newFlag g)
                          end)
         else (false, shortNode k n fl))).
Proof.
  intros Hg Hfull Hr [(d & nn & t' & -> & Hnn & [Hgt' Hnil] & Hd & Hh & Hf)|(e & -> & Hm)]; [left|right; by exists e].
  cbn [res_bind]. pose proof Hg as (_ & Hne & Hhex & Hnst & Hgt). pose proof (upd_short k t t' r None Hf) as Hf'.
  assert (hasTerm k = false) as Hk.
  { destruct (hasTerm k) eqn:E; [|done]. apply good_true in Hgt as (v & -> & _). done. }
  destruct Hgt' as [->|Hgt']; [by destruct (Hnil Hfull)|]. exists d. destruct d.
  - eexists _, (joined k t'). split; [done|]. split; [|split; [|split; [done|split]]].
    + by apply rep_joined, Hh.
    + split; [|done]. right. apply joined_good; [done|done|by rewrite Hk].
    + by destruct nn.
    + intros key'. by rewrite tfind_joined.
  - rewrite (Hd eq_refl) in *. exists (shortNode k n fl), (TShort k t). split; [done|]. split; [done|].
    split; [split; [by right|done]|]. done.
Qed.

Lemma resolve_rep g n t prefix :
  rep K false n t -> t <> TNil ->
  (exists n', resolve db g n prefix = Ok n' /\ rep K false n' t /\ is_hash n' = false) \/
  (exists e, resolve db g n prefix = Err e /\ missing db K e).
Proof.
  intros Hr Ht. inversion Hr as [|f v|f u HK Hf|f k m u fl Hn Hfl|f ns l fl Hns Hfl]; subst; [done| | | |].
  - left. by exists (valueNode (Some v)).
  - by apply resolveHash_rep.
  - left. by exists (shortNode k m fl).
  - left. by exists (fullNode ns fl).
Qed.

(** What is left of a full node with one entry. *)
Lemma reduce_full f g prefix ns l pos c t :
  Forall2 (rep K false) ns l -> length l = 17%nat -> slots l -> entries l = 1%nat ->
  l !! pos = Some t -> t <> TNil -> ns !! pos = Some c ->
  let single := shortNode [Z.of_nat pos] c (newFlag g) in
  let r := if negb (Z.of_nat pos =? 16) then
             let* cnode := resolve db g c prefix in
             Ok (true, match cnode with
                       | shortNode ck cv _ => shortNode (Z.of_nat pos :: ck) cv (newFlag g)
                       | _ => single
                       end)
           else Ok (true, single) in
  (exists n', r = Ok (true, n') /\ rep K f n' (joined [Z.of_nat pos] t) /\ is_hash n' = false) \/
  (exists e, r = Err e /\ missing db K e).
Proof.
  intros Hr Hl Hs He Ht Hne Hc single r. destruct (good_TFull_no_single l pos t Hl Hs Ht Hne) as [Hg Hp].
  assert (rep K false c t) as Hct by by eapply Forall2_lookup_lr. unfold r.
  destruct (Z.eqb_spec (Z.of_nat pos) 16) as [E|E]; cbn [negb].
  - left. exists single. split; [done|]. apply good_true in Hg as (v & -> & _). split; [|done].
    cbn [joined]. by constructor.
  - destruct (resolve_rep g c t prefix Hct Hne) as [(cn & -> & Hcn & Hh)|(e & -> & Hm)]; [left|right; by exists e].
    cbn [res_bind]. eexists. split; [done|]. split; [by apply (rep_joined f [Z.of_nat pos] c cn t g)|by destruct cn].
Qed.

Lemma deletes_full f g prefix ns l fl x c t r R :
  good false (TFull l) -> rep K f (fullNode ns fl) (TFull l) -> 0 <= x <= 16 ->
  ns !! Z.to_nat x = Some c -> l !! Z.to_nat x = Some t ->
  deletes false (x =? 16) t r R ->
  deletes f false (TFull l) (x :: r)
    (let* (d, nn) := R in
     if negb d then Ok (false, fullNode ns fl)
     else
       let nc := <[Z.to_nat x := nn]> ns in
       let pos := onlyChild nc 0 (-1) in
       if pos >=? 0 then
         let* cpos := go_index nc pos in
         let single := shortNode [pos] cpos (newFlag g) in
         if negb (pos =? 16) then
           let* cnode := resolve db g cpos prefix in
           Ok (true, match cnode with
                     | shortNode ck cv _ => shortNode (pos :: ck) cv (newFlag g)
                     | _ => single
                     end)
         else Ok (true, single)
       else Ok (true, fullNode nc (newFlag g))).
Proof.
  intros Hg Hr Hx Hc Ht [(d & nn & t' & -> & Hnn & [Hgt' _] & Hd & Hh & Hf)|(e & -> & Hm)]; [|right; by exists e].
  cbn [res_bind]. pose proof (upd_full l (Z.to_nat x) t t' r None Ht Hf) as Hf'. rewrite Z2Nat.id in Hf' by lia.
  destruct d; cbn [negb].
  2: { left. rewrite (Hd eq_refl), list_insert_id in * by done. exists false, (fullNode ns fl), (TFull l).
       split; [done|]. split; [done|]. split; [split; [by right|done]|]. done. }
  assert (Forall2 (rep K false) (<[Z.to_nat x := nn]> ns) (<[Z.to_nat x := t']> l)) as Hns
    by (apply Forall2_insert; [by inversion Hr|done]).
  pose proof Hg as (_ & Hl & He & Hs)%good_full.
  assert (slots (<[Z.to_nat x := t']> l)) as Hs' by (apply slots_insert; [done|by rewrite Z2Nat.id by lia]).
  assert (1 <= entries (<[Z.to_nat x := t']> l))%nat as He'.
  { pose proof (entries_insert l _ t t' Ht) as E. assert (weight t <= 1)%nat by (unfold weight; by destruct (isTNil t); lia). lia. }
  pose proof (onlyChild_spec _ _ 0 Hns ltac:(lia)) as Hpos.
  set (nc := <[Z.to_nat x := nn]> ns) in *. set (lc := <[Z.to_nat x := t']> l) in *. cbn zeta.
  destruct (entries lc) as [|[|m]] eqn:En; [lia| |].
  - destruct Hpos as (j & u & Hj & Hu & ->). rewrite Z.geb_leb, (proj2 (Z.leb_le _ _)) by lia. rewrite Z.add_0_l.
    destruct (Forall2_lookup_r _ _ _ _ _ Hns Hj) as (cj & Hcj & Hrj).
    rewrite (go_index_nth nc _ cj) by (lia || by rewrite Nat2Z.id). cbn [res_bind].
    assert (length lc = 17%nat) as Hlc by (unfold lc; by rewrite length_insert).
    destruct (reduce_full f g prefix nc lc j cj u Hns Hlc Hs' En Hj Hu Hcj) as [(n' & -> & Hn' & Hh')|(e & -> & Hm)];
      [left|right; by exists e].
    exists true, n', (joined [Z.of_nat j] u). split; [done|]. split; [done|].
    destruct (good_TFull_no_single lc j u Hlc Hs' Hj Hu) as [Hgu Hj16].
    assert (good false (joined [Z.of_nat j] u)) as Hgj.
    { apply joined_good; [done| |done]. destruct (Z.eqb_spec (Z.of_nat j) 16) as [->|].
      - right. exists []. split; [constructor|done].
      - left. constructor; [unfold is_nibble; lia|constructor]. }
    split; [split; [by right|intros _ E; by rewrite E in Hgj]|]. split; [done|]. split; [done|].
    intros key'. rewrite tfind_joined, <- Hf'. symmetry. apply tfind_only; [done|]. by apply (entries_one lc j u).
  - rewrite Hpos. left. exists true, (fullNode nc (newFlag g)), (TFull lc). split; [done|]. split; [by constructor|].
    split; [|done]. split; [right|done]. apply good_full. split; [done|]. split; [unfold lc; by rewrite length_insert|].
    split; [lia|done].
Qed.

(** Deleting a value. *)
Lemma delete_rep fuel g f b n t prefix key :
  rep K f n t -> t = TNil \/ good b t -> keyat b key -> (enough n key <= fuel)%nat ->
  deletes f b t key (delete_ db fuel g n prefix key).
Proof.
  revert f b n t prefix key. induction fuel as [|fuel IH]; intros f b n t prefix key Hr Hg Hk He.
  { unfold enough in He. destruct (is_hash n); lia. }
  pose proof Hr as Hr'. destruct Hr as [f|f w|f t HK Hf|f k n t fl Hn Hfl|f ns l fl Hns Hfl]; cbn [delete_].
  - by apply deletes_same.
  - destruct Hg as [|[-> Hw]]; [done|]. cbn in Hk. subst key. left. exists true, Nil, TNil. split; [done|].
    split; [constructor|]. split; [split; [by left|done]|]. split; [done|]. split; [done|]. by intros [|].
  - destruct (resolveHash_rep db K f g t prefix HK Hf) as [(n & -> & Hn & Hh)|(e & -> & Hm)];
      [|right; by exists e]. cbn [res_bind].
    destruct (IH f b n t prefix key Hn Hg Hk) as [(d & n' & t' & -> & Hn' & Hw & Hd & Hh' & Hf')|(e & -> & Hm)].
    + unfold enough in *. rewrite Hh. cbn [is_hash] in He. lia.
    + left. cbn [res_bind]. exists d. destruct d; [by exists n', t'|]. exists n, t. rewrite (Hd eq_refl) in *.
      split; [done|]. split; [done|]. by split.
    + right. by exists e.
  - destruct Hg as [|Hg]; [done|]. pose proof Hg as (-> & Hne & Hh & Hns & Hgt). cbn in Hk.
    destruct (keys_diverge k key Hh Hk Hne) as [(r & -> & Hpl)|(c & x & s & y & r & Ek & Ekey & Hxy & Hpl)].
    2: { rewrite Hpl, (proj2 (Nat.ltb_lt _ _)) by (rewrite Ek, length_app; cbn [length]; lia).
         apply deletes_same; [done|by right|]. apply tfind_short_None. intros q E. rewrite Ek, Ekey, <- app_assoc in E.
         apply app_inv_head in E. by injection E as ->. }
    rewrite Hpl, Nat.ltb_irrefl. apply keyat_app in Hk; [|done]. rewrite length_app.
    destruct (Nat.eqb_spec (length k) (length k + length r)) as [E|E].
    + assert (r = []) as -> by (destruct r; [done|cbn in E; lia]). rewrite app_nil_r.
      destruct (hasTerm k) eqn:Et; [|by apply hexkey_nil in Hk]. apply good_true in Hgt as (v & -> & _). left.
      exists true, Nil, TNil. split; [done|]. split; [constructor|]. split; [split; [by left|done]|]. split; [done|].
      split; [done|]. intros key'. unfold upd at 1. rewrite tfind_leaf. unfold upd. by destruct (decide (key' = k)).
    + destruct (hasTerm k) eqn:Et; [cbn in Hk; subst r; cbn in E; lia|]. rewrite drop_app_length.
      apply deletes_short; [done|by destruct t; [destruct Hgt|destruct Hgt as [[=] _]|..]|done|].
      apply IH; [done|by right|done|]. by apply (enough_child (shortNode k n fl) n k).
  - destruct Hg as [|Hg]; [done|]. pose proof Hg as (-> & _)%good_full. cbn in Hk.
    destruct key as [|x r]; [by apply hexkey_nil in Hk|]. rewrite (go_index_nth (x :: r) 0 x) by done. cbn [res_bind].
    destruct (full_child K false ns l x r Hns Hg Hk) as (c & t & -> & Hc & Hci & Hti & Hgt & Hkr & Hx16). cbn [res_bind].
    change (drop 1 (x :: r)) with (drop 0 r). rewrite drop_0.
    apply (deletes_full f g prefix ns l fl x c t); [done..|]. apply IH; [done..|].
    by apply (enough_child (fullNode ns fl) c [x]).
Qed.
End Deleting.
