(* ===== verification/TrieCommit.v ===== *)
(** * Hashing and storing are right

    [Hash] and [Commit] return the hash of the tree the trie represents, and what
    replaces the nodes in memory represents it still.  After [Commit] the
    database has every node of the tree that is not embedded, so that a trie
    that is opened at the root has the same contents. *)

From S2P Require Import Rlp RlpCodec RlpEncoding Sponge TrieKeys TrieNode TrieDatabase Trie TrieHasher TrieTree.
From S2P Require Import TrieHashing TrieMap Prelude.

#[local] Set Warnings "-register-all".

(** ** Trees in a database *)

(** The trees that are stored on their own when a tree is stored. *)
Inductive part : tree -> tree -> Prop :=
| part_self t : part t t
| part_short k t s : good false t -> large t = true -> part t s -> part (TShort k t) s
| part_full l i t s : l !! i = Some t -> good false t -> large t = true -> part t s -> part (TFull l) s.

Create HintDb parts.
#[export] Hint Constructors part : parts.

Section Stored.
Context `{DiskDB}.

Definition stored (db : Database) (t : tree) : Prop :=
  good false t /\ in_memory t /\ forall s, part t s -> Node (tree_hash s) db = Some (tree_enc s).

#[export] Instance stored_unloaded db : Unloaded db (stored db).
Proof.
  split.
  - by intros t (Hg & Hm & _).
  - intros t (_ & _ & Hs). right. apply Hs. constructor.
  - intros k t (Hg & Hm & Hs) Hgt El. split; [done|]. split; [by apply in_memory_short in Hm as [_ ?]|].
    intros s Hp. apply Hs. eauto with parts.
  - intros l i t (Hg & Hm & Hs) Hi Hgt El. split; [done|]. split; [by eapply in_memory_full|].
    intros s Hp. apply Hs. eauto with parts.
Qed.

Lemma stored_short db k t :
  good false (TShort k t) -> in_memory (TShort k t) ->
  Node (tree_hash (TShort k t)) db = Some (tree_enc (TShort k t)) ->
  (good false t -> large t = true -> stored db t) -> stored db (TShort k t).
Proof.
  intros Hg Hm HN Ht. split; [done|]. split; [done|]. intros s Hp. inversion Hp as [|? ? ? Hgt El Hs|]; subst; [done|].
  by apply Ht.
Qed.

Lemma stored_full db l :
  good false (TFull l) -> in_memory (TFull l) ->
  Node (tree_hash (TFull l)) db = Some (tree_enc (TFull l)) ->
  (forall t, t ∈ l -> good false t -> large t = true -> stored db t) -> stored db (TFull l).
Proof.
  intros Hg Hm HN Ht. split; [done|]. split; [done|]. intros s Hp. inversion Hp as [| |? i t ? Hi Hgt El Hs]; subst; [done|].
  apply (Ht t); [by eapply list_elem_of_lookup_2|done..].
Qed.
End Stored.

(** ** Nodes that can be encoded *)

Fixpoint node_ind' (P : node -> Prop) (HN : P Nil) (HH : forall h, P (hashNode h)) (HV : forall v, P (valueNode v))
    (HS : forall k v f, P v -> P (shortNode k v f)) (HF : forall l f, Forall P l -> P (fullNode l f)) (n : node) : P n :=
  match n with
  | Nil => HN
  | hashNode h => HH h
  | valueNode v => HV v
  | shortNode k v f => HS k v f (node_ind' P HN HH HV HS HF v)
  | fullNode l f => HF l f ((fix go l : Forall P l :=
                               match l with
                               | [] => Forall_nil_2 P
                               | c :: l => Forall_cons_2 P c l (node_ind' P HN HH HV HS HF c) (go l)
                               end) l)
  end.

Fixpoint node_item (n : node) : item :=
  match n with
  | Nil => empty_list_byte
  | hashNode h => Str h
  | valueNode v => Str (slice v)
  | shortNode k v _ => Lst [Str k; node_item v]
  | fullNode l _ => Lst (map node_item l)
  end.

Fixpoint encodable (n : node) : Prop :=
  match n with
  | Nil => False
  | hashNode h => bytes h
  | valueNode v => bytes (slice v)
  | shortNode k v _ => bytes k /\ encodable v
  | fullNode l _ => length l = 17%nat /\ foldr (fun c P => encodable c /\ P) True l
  end.

Lemma encodable_full l f : encodable (fullNode l f) <-> length l = 17%nat /\ Forall encodable l.
Proof.
  cbn [encodable]. apply and_iff_compat_l. induction l as [|c l IH]; cbn [foldr]; [by split|]. by rewrite IH, Forall_cons.
Qed.

Lemma node_rlp_item n :
  encodable n -> exists t v, node_rlp n = Some (t, v) /\ typed t v /\ items t v = Ok [node_item n].
Proof.
  induction n as [|h|v|k v f IH|l f IH] using node_ind'; intros He.
  - done.
  - eexists _, _. split; [done|]. by split.
  - eexists _, _. split; [done|]. by split.
  - destruct He as [Hk Hv]. destruct (IH Hv) as (t & w & E & Ht & Ei).
    exists short_type, (VPtr (Some (VStruct [VBytes k; VIface (node_rlp v)]))). split; [done|].
    cbn [node_item]. rewrite E. split; [by split; [|split]|]. cbn [items field_items]. by rewrite Ei.
  - apply encodable_full in He as [Hl He].
    exists (TArray 17 TIface), (VArray (map (fun c => VIface (node_rlp c)) l)). split; [done|].
    assert (all_elems typed TIface (map (fun c => VIface (node_rlp c)) l) /\
            elem_items items TIface (map (fun c => VIface (node_rlp c)) l) = Ok (map node_item l)) as [Ht Ei].
    { clear Hl. induction IH as [|c l Hc Hl IH]; [done|]. apply Forall_cons in He as [Hec Hel].
      destruct (Hc Hec) as (t & w & E & Ht & Ei), (IH Hel) as [Htl Eil]. cbn [map all_elems elem_items].
      rewrite E, Eil. split; [by split|]. cbn [items]. by rewrite Ei. }
    split; [split; [done|by rewrite length_map]|]. cbn [items]. by rewrite Ei.
Qed.

Lemma encodeNode_item n : encodable n -> fits (enc (node_item n)) -> encodeNode n = Ok (enc (node_item n)).
Proof.
  intros He Hf. destruct (node_rlp_item n He) as (t & v & E & Ht & Ei). unfold encodeNode. rewrite E.
  apply EncodeToBytes_ok; [done| |done]. unfold encoding. rewrite Ei. cbn [res_bind map concat]. by rewrite app_nil_r.
Qed.

(** ** The hash *)

(** The Keccak-256 hash of a hasher, whatever it was used for before. *)
Definition keccak_state (d : state) : Prop :=
  rate d = 136%nat /\ dsbyte d = 0x01 /\ outputLen d = 32%nat /\ length (storage d) = maxRate.

Lemma rehash_hash sha b : keccak_state sha -> Forall is_u8 b -> rehash sha b = Ok (keccak256 b).
Proof.
  intros (Hr & Hd & Ho & Hs) Hb. unfold rehash.
  assert (absorbing 136 0x01 32 (Reset sha) (absorbed 136 [])) as H.
  { split; try done. split; [apply zero_lanes|]. split; [constructor|cbn; lia]. }
  destruct (Write_absorbing 136 0x01 32 rate_136 b _ [] Hb H) as (d & -> & Hd'). cbn [res_bind].
  by rewrite (Sum_digest 136 rate_136 0x01 32 d b []).
Qed.

Lemma makeHash_hash b : Forall is_u8 b -> makeHash b = Ok (keccak256 b).
Proof. intros Hb. unfold makeHash. by rewrite rehash_hash. Qed.

(** ** What storing does to a database *)

Section Blobs.
Context `{DiskDB}.

(** The same can be read. *)
Definition same_reads (db db' : Database) : Prop :=
  diskdb db' = diskdb db /\ forall h, blob <$> nodes db' !! h = blob <$> nodes db !! h.

#[export] Instance same_reads_preorder : PreOrder same_reads.
Proof. split; [by split|]. intros a b c [Hd Hn] [Hd' Hn']. split; [congruence|]. intros h. by rewrite Hn', Hn. Qed.

Lemma same_reads_Node db db' h : same_reads db db' -> Node h db' = Node h db.
Proof.
  intros [Hd Hn]. specialize (Hn h). unfold Node. rewrite Hd.
  destruct (nodes db' !! h), (nodes db !! h); cbn in Hn; congruence.
Qed.

Lemma same_reads_cached db db' h : same_reads db db' -> is_Some (nodes db !! h) -> is_Some (nodes db' !! h).
Proof. intros [_ Hn] [n E]. specialize (Hn h). rewrite E in Hn. by destruct (nodes db' !! h). Qed.

(** Only references are changed. *)
Definition only_refs (db db' : Database) : Prop := same_reads db db' /\ preimages db' = preimages db.

#[export] Instance only_refs_preorder : PreOrder only_refs.
Proof. split; [by split|]. intros a b c [Hd Hn] [Hd' Hn']. split; [by etransitivity|congruence]. Qed.

Lemma upd_node_refs h f db : (forall n, blob (f n) = blob n) -> only_refs db (upd_node h f db).
Proof.
  intros Hf. split; [|done]. split; [done|]. intros h'. cbn [upd_node set_nodes nodes]. rewrite lookup_alter.
  case_decide as E; [|done]. subst. destruct (nodes db !! h') as [n|]; [|done]. cbn. by rewrite Hf.
Qed.

Lemma reference_refs child parent db :
  is_Some (nodes db !! parent) -> exists db', reference child parent db = Ok db' /\ only_refs db db'.
Proof.
  intros [p E]. unfold reference. rewrite E. destruct (nodes db !! child); [|by eexists].
  case_match; [by eexists|]. eexists. split; [done|]. etransitivity; by apply upd_node_refs.
Qed.

Lemma overChildren_refs f l db parent :
  (forall c db, is_Some (nodes db !! parent) -> exists db', f c db = Ok db' /\ only_refs db db') ->
  is_Some (nodes db !! parent) -> exists db', overChildren f l db = Ok db' /\ only_refs db db'.
Proof.
  intros Hf. revert db. induction l as [|c l IH]; intros db Hp; cbn [overChildren]; [by eexists|].
  destruct (Hf c db Hp) as (db1 & -> & H1). cbn [res_bind].
  destruct (IH db1) as (db2 & -> & H2); [eapply same_reads_cached; [by destruct H1|done]|]. eexists. split; [done|]. by etransitivity.
Qed.

(** A callback for values only makes references, from a node that is cached. *)
Definition leaf_refers (leaf : option LeafCallback) : Prop :=
  forall f, leaf = Some f -> forall v parent db, is_Some (nodes db !! parent) ->
    exists db', f v parent db = Ok db' /\ only_refs db db'.

(** Nothing else is under the hashes of some blobs. *)
Definition agrees (B : list Z -> Prop) (db : Database) : Prop :=
  forall b, B b ->
    match nodes db !! keccak256 b with
    | Some n => blob n = Some b
    | None => forall b', disk_Get (diskdb db) (keccak256 b) = Some b' -> b' = b
    end.

Definition collision_free (B : list Z -> Prop) : Prop := forall b b', B b -> B b' -> keccak256 b = keccak256 b' -> b = b'.

Definition keeps (db db' : Database) : Prop := forall h b, Node h db = Some b -> Node h db' = Some b.

#[export] Instance keeps_preorder : PreOrder keeps.
Proof. split; [by intros a h x|]. intros a b c H1 H2 h x E. by apply H2, H1. Qed.

Lemma same_reads_keeps db db' : same_reads db db' -> keeps db db'.
Proof. intros Hs h b E. by rewrite (same_reads_Node db db'). Qed.

Lemma agrees_same B db db' : same_reads db db' -> agrees B db -> agrees B db'.
Proof.
  intros [Hd Hn] Ha b Hb. specialize (Ha b Hb). specialize (Hn (keccak256 b)). rewrite Hd.
  destruct (nodes db' !! keccak256 b), (nodes db !! keccak256 b); cbn in Hn; try done. congruence.
Qed.

Lemma db_insert_spec B b db :
  collision_free B -> agrees B db -> B b ->
  let db' := db_insert (keccak256 b) b db in
  agrees B db' /\ keeps db db' /\ Node (keccak256 b) db' = Some b /\ is_Some (nodes db' !! keccak256 b).
Proof.
  intros Hc Ha Hb db'. unfold db', db_insert. pose proof (Ha b Hb) as Hx.
  destruct (nodes db !! keccak256 b) as [n|] eqn:E.
  - split; [done|]. split; [done|]. rewrite E. split; [unfold Node; by rewrite E|done].
  - assert (Node (keccak256 b) (set_nodes (<[keccak256 b := mkCached (Some b) 0 ∅]> (nodes db))
      (nodesSize db + (32 + Z.of_nat (length b))) db) = Some b) as HN.
    { unfold Node. cbn [set_nodes nodes]. by rewrite lookup_insert_eq. }
    split; [|split; [|split; [done|cbn [set_nodes nodes]; rewrite lookup_insert_eq; done]]].
    + intros c HB. cbn [set_nodes nodes diskdb]. destruct (decide (keccak256 c = keccak256 b)) as [Ec|Ec].
      * rewrite Ec, lookup_insert_eq. cbn. by rewrite (Hc c b HB Hb Ec).
      * rewrite lookup_insert_ne by done. by apply Ha.
    + intros h c Hn. destruct (decide (h = keccak256 b)) as [->|Hne].
      * rewrite HN. f_equal. unfold Node in Hn. rewrite E in Hn. symmetry. by apply Hx.
      * revert Hn. unfold Node. cbn [set_nodes nodes diskdb]. by rewrite lookup_insert_ne by done.
Qed.

Lemma stored_keeps db db' t : keeps db db' -> stored db t -> stored db' t.
Proof. intros Hk (Hg & Hm & Hs). split; [done|]. split; [done|]. intros s Hp. by apply Hk, Hs. Qed.
End Blobs.

(** ** Hashing

    [B] are the blobs that may be stored, [K0] the trees that may be unloaded when
    there is no database. *)

Lemma rep_mono (K K' : tree -> Prop) f n t : (forall s, K s -> K' s) -> rep K f n t -> rep K' f n t.
Proof.
  intros HK. assert (forall f fl t, flag_ok K f fl t -> flag_ok K' f fl t) as Hfl.
  { intros f' fl t'. unfold flag_ok. destruct (fhash fl); [|done]. intros (E & Hl & Hd). auto. }
  revert f t. induction n as [|h|v|k v fl IH|l fl IH] using node_ind'; intros f t Hr; inversion Hr; subst; eauto with trie.
  constructor; [|by apply Hfl]. rewrite Forall_lookup in IH. apply Forall2_same_length_lookup_2; [by eapply Forall2_length|].
  intros i c u Hc Hu. apply (IH i c Hc). by eapply Forall2_lookup_lr.
Qed.

(** The children of a tree that are stored on their own, and a collapsed node that
    has their hashes. *)
Definition direct (t s : tree) : Prop :=
  good false s /\ large s = true /\
  match t with
  | TShort _ u => s = u
  | TFull l => s ∈ l
  | _ => False
  end.

Definition refs_of (c : node) (t : tree) : Prop :=
  (forall x, hashNode x ∈ children16 c <-> exists s, direct t s /\ x = tree_hash s) /\
  (forall v, valueNode (Some v) ∈ children16 c -> exists k, t = TShort k (TVal v)).

Lemma direct_part t s u : direct t s -> part s u -> part t u.
Proof.
  destruct t as [| |k t|l]; intros (Hg & El & Hd) Hp; [done|done|subst; eauto with parts|].
  apply list_elem_of_lookup_1 in Hd as [i Hi]. eauto with parts.
Qed.

Definition slot_ref (hashed : node) (t : tree) : Prop :=
  (forall x, hashed = hashNode x <-> good false t /\ large t = true /\ x = tree_hash t) /\
  (forall v, hashed = valueNode (Some v) -> t = TVal v).

Lemma refs_of_short k c fl j t : slot_ref c t -> refs_of (shortNode k c fl) (TShort j t).
Proof.
  intros [Hc Hv]. unfold refs_of. cbn [children16]. setoid_rewrite list_elem_of_singleton. split.
  - intros x. split.
    + intros E. destruct (Hc x) as [Hx _]. destruct (Hx (eq_sym E)) as (Hg & El & ->). by exists t.
    + intros (s & (Hg & El & ->) & ->). symmetry. by apply Hc.
  - intros v E. exists j. by rewrite (Hv v).
Qed.

Lemma refs_of_full hs fl l :
  Forall2 slot_ref hs l -> (forall i t, l !! i = Some t -> t = TNil \/ good (Z.of_nat i =? 16) t) -> (length l <= 17)%nat ->
  refs_of (fullNode hs fl) (TFull l).
Proof.
  intros Hs Hsl Hl. assert (forall n, n ∈ take 16 hs -> exists t, t ∈ l /\ slot_ref n t /\ (t = TNil \/ good false t)) as Hin.
  { intros n [i Hi]%list_elem_of_lookup_1. assert (i < 16)%nat as Hlt.
    { apply lookup_lt_Some in Hi. rewrite length_take in Hi. lia. }
    rewrite lookup_take_lt in Hi by done. destruct (Forall2_lookup_l _ _ _ _ _ Hs Hi) as (t & Ht & Hst).
    exists t. split; [by eapply list_elem_of_lookup_2|]. split; [done|]. specialize (Hsl i t Ht).
    by rewrite (proj2 (Z.eqb_neq _ _)) in Hsl by lia. }
  split; cbn [children16].
  - intros x. split.
    + intros (t & Ht & [Hst _] & _)%Hin. destruct (Hst x) as [Hx _]. destruct (Hx eq_refl) as (Hg & El & ->). by exists t.
    + intros (t & (Hg & El & [i Hi]%list_elem_of_lookup_1) & ->).
      destruct (Forall2_lookup_r _ _ _ _ _ Hs Hi) as (c & Hc & [Hst _]). assert (c = hashNode (tree_hash t)) as -> by by apply Hst.
      pose proof (lookup_lt_Some _ _ _ Hi). assert (i <> 16%nat).
      { intros ->. destruct (Hsl _ _ Hi) as [->|[v [-> _]]%good_true]; by destruct Hg. }
      apply (list_elem_of_lookup_2 _ i). rewrite lookup_take_lt by lia. done.
  - intros v (t & Ht & [_ Hst] & Hg)%Hin. rewrite (Hst v eq_refl) in Hg. destruct Hg as [Hg|Hg]; [done|by destruct Hg].
Qed.

(** What one call of [store] does to a database. *)
Definition store_effect `{DiskDB} (h : hasher) (c : node) (t : tree) (db : Database) : eff Database :=
  let* db := overChildren (referChild (tree_hash t)) (children16 c) (db_insert (tree_hash t) (tree_enc t) db) in
  match onleaf h with
  | Some f => overChildren (leafChild f (tree_hash t)) (children16 c) db
  | None => Ok db
  end.

(** [J] is anything about the database that every such call keeps. *)
Definition store_keeps `{DiskDB} (B : list Z -> Prop) (h : hasher) (J : Database -> Prop) : Prop :=
  forall t c db db', J db -> agrees B db -> good false t -> in_memory t -> (forall s, part t s -> B (tree_enc s)) ->
    (forall s, direct t s -> stored db s) -> refs_of c t -> store_effect h c t db = Ok db' -> J db'.

Lemma store_keeps_true `{DiskDB} B h : store_keeps B h (fun _ => True).
Proof. done. Qed.

Section Hashing.
Context `{DiskDB} (B : list Z -> Prop) (J : Database -> Prop) (K0 : tree -> Prop) (h : hasher).
Context (HB : collision_free B) (HK0 : forall t, K0 t -> good false t /\ in_memory t) (Hleaf : leaf_refers (onleaf h)).
Context (HJ : store_keeps B h J).

Definition Kof (o : option Database) : tree -> Prop :=
  match o with
  | Some db => stored db
  | None => K0
  end.

Definition ready (o : option Database) : Prop :=
  match o with
  | Some db => agrees B db /\ J db
  | None => True
  end.

(** One database after another. *)
Definition step (o o' : option Database) : Prop :=
  match o, o' with
  | Some db, Some db' => (agrees B db' /\ J db') /\ keeps db db' /\ preimages db' = preimages db
  | None, None => True
  | _, _ => False
  end.

(** A tree whose parts may be stored. *)
Definition allowed (o : option Database) (t : tree) : Prop :=
  match o with
  | Some _ => forall s, part t s -> B (tree_enc s)
  | None => True
  end.

Definition saved (o : option Database) (t : tree) : Prop :=
  match o with
  | Some db => stored db t
  | None => True
  end.

Lemma Kof_good o t : Kof o t -> good false t /\ in_memory t.
Proof. destruct o; [by intros (? & ? & _)|apply HK0]. Qed.

Lemma step_refl o : ready o -> step o o.
Proof. destruct o; [by split|done]. Qed.

Lemma step_ready o o' : step o o' -> ready o'.
Proof. by destruct o, o'; [intros []|..]. Qed.

Lemma step_trans o1 o2 o3 : step o1 o2 -> step o2 o3 -> step o1 o3.
Proof. destruct o1, o2, o3; try done. intros (_ & H1 & E1) (Ha & H2 & E2). split; [done|]. split; [by etransitivity|congruence]. Qed.

Lemma step_K o o' t : step o o' -> Kof o t -> Kof o' t.
Proof. destruct o, o'; try done. intros (_ & Hk & _). by apply stored_keeps. Qed.

Lemma step_saved o o' t : step o o' -> saved o t -> saved o' t.
Proof. destruct o, o'; try done. intros (_ & Hk & _). by apply stored_keeps. Qed.

Lemma step_rep o o' f n t : step o o' -> rep (Kof o) f n t -> rep (Kof o') f n t.
Proof. intros Hs. apply rep_mono. intros s. by apply step_K. Qed.

Lemma step_allowed o o' t : step o o' -> allowed o t -> allowed o' t.
Proof. by destruct o, o'. Qed.

Definition is_branch (n : node) : bool :=
  match n with
  | shortNode _ _ _ | fullNode _ _ => true
  | _ => false
  end.

(** Storing a node that was collapsed. *)
Lemma store_spec c t o force :
  is_branch c = true -> encodable c -> node_item c = tree_item t -> good false t -> in_memory t ->
  ((cache c).1 = None \/ (cache c).1 = Some (tree_hash t)) ->
  ready o -> (force || large t = true -> allowed o t) -> (forall s, direct t s -> saved o s) -> refs_of c t ->
  exists o', store h c o force = Ok (if force || large t then hashNode (tree_hash t) else c, o') /\ step o o' /\
    (force || large t = true -> match o' with Some db => Node (tree_hash t) db = Some (tree_enc t) | None => True end).
Proof.
  intros Hb He Ei Hg Hm Hc Hr Ha Hsv Href. assert (enc (node_item c) = tree_enc t) as Ee by by rewrite Ei.
  assert (store h c o force =
    if (Z.of_nat (length (tree_enc t)) <? 32) && negb force then Ok (c, o)
    else match o with
         | None => Ok (hashNode (tree_hash t), None)
         | Some db =>
             let* db := store_effect h c t db in
             Ok (hashNode (tree_hash t), Some db)
         end) as ->.
  { pose proof (encodeNode_item c He) as E. rewrite Ee in E. specialize (E (tree_enc_fits t Hg Hm)).
    assert (Forall is_u8 (tree_enc t)) as Hu by (apply tree_enc_u8; [right; by exists false|by apply tree_enc_fits]).
    unfold store. rewrite E. cbn [res_bind].
    assert (match (cache c).1 with Some hash => Ok hash | None => makeHash (tree_enc t) end = Ok (tree_hash t)) as ->
      by (destruct Hc as [-> | ->]; [by apply makeHash_hash|done]).
    cbn [res_bind]. rewrite BytesToHash_hash. unfold store_effect.
    destruct c; try done; (destruct (_ && _); [done|]); (destruct o; [|done]); by destruct (overChildren _ _ _). }
  assert ((Z.of_nat (length (tree_enc t)) <? 32) && negb force = negb (force || large t)) as ->.
  { unfold large. destruct force; [apply andb_false_r|]. cbn [negb orb]. rewrite andb_true_r, negb_involutive.
    destruct (Z.ltb_spec (Z.of_nat (length (tree_enc t))) 32), (Nat.ltb_spec (length (tree_enc t)) 32); done || lia. }
  destruct (force || large t); cbn [negb].
  2: { exists o. split; [done|]. split; [by apply step_refl|done]. }
  destruct o as [db|]; [|by exists None].
  assert (B (tree_enc t)) as HBt by (apply (Ha eq_refl); constructor).
  destruct Hr as [Hr HJdb]. pose proof (HJ t c db) as HJ'. revert HJ'. unfold store_effect.
  destruct (db_insert_spec B (tree_enc t) db HB Hr HBt) as (Ha1 & Hk1 & HN & Hp). fold (tree_hash t) in *.
  set (db1 := db_insert _ _ db) in *.
  destruct (overChildren_refs (referChild (tree_hash t)) (children16 c) db1 (tree_hash t)) as (db2 & -> & [H2 P2]); [|done|].
  { intros c' d Hd. destruct c'; [by eexists| |by eexists..]. by apply reference_refs. }
  cbn [res_bind]. assert (exists db3, match onleaf h with
      | Some f => overChildren (leafChild f (tree_hash t)) (children16 c) db2
      | None => Ok db2 end = Ok db3 /\ only_refs db2 db3) as (db3 & -> & [H3 P3]).
  { destruct (onleaf h) as [f|] eqn:E; [|by eexists]. apply overChildren_refs with (tree_hash t).
    - intros c' d Hd. destruct c' as [| |[v|]| |]; [by eexists..| |by eexists|by eexists|by eexists]. by apply (Hleaf f).
    - by apply (same_reads_cached db1). }
  cbn [res_bind]. assert (same_reads db1 db3) as H13 by by etransitivity. intros HJ'.
  exists (Some db3). split; [done|]. split; [split; [split|split]|].
  - by apply (agrees_same B db1).
  - apply HJ'; try done. by apply Ha.
  - etransitivity; [done|]. by apply same_reads_keeps.
  - rewrite P3, P2. unfold db1, db_insert. by destruct (nodes db !! tree_hash t).
  - intros _. by rewrite (same_reads_Node db1 db3).
Qed.

(** What hashing a node promises. *)
Definition hashes (o : option Database) (force : bool) (t : tree) (r : eff (node * node * option Database)) : Prop :=
  exists hashed cached o', r = Ok (hashed, cached, o') /\ step o o' /\ encodable hashed /\
    node_item hashed = (if force || large t then Str (tree_hash t) else tree_item t) /\
    (force || large t = false -> is_branch hashed = true) /\
    (force || large t = true -> hashed = hashNode (tree_hash t) /\ saved o' t) /\
    rep (Kof o') force cached t.

(** What hashing its children promises: [c] is collapsed, [cached] replaces the
    node. *)
Definition with_flags (fl : nodeFlag) (n : node) : node :=
  match n with
  | shortNode k v _ => shortNode k v fl
  | fullNode l _ => fullNode l fl
  | n => n
  end.

Definition children_hashed (o : option Database) (t : tree) (fl : nodeFlag) (r : eff (node * node * option Database)) : Prop :=
  exists c cached o', r = Ok (c, cached, o') /\ step o o' /\ is_branch c = true /\ encodable c /\
    node_item c = tree_item t /\ (cache c).1 = fhash fl /\ (forall s, direct t s -> saved o' s) /\ refs_of c t /\
    (forall hashed st, set_cached hashed st cached =
       with_flags (mkFlag (match hashed with hashNode hh => Some hh | _ => None end) (gen fl) (if st then false else dirty fl)) cached) /\
    (forall o2 force fl', step o' o2 -> flag_ok (Kof o2) force fl' t -> rep (Kof o2) force (with_flags fl' cached) t) /\
    (forall o2, step o' o2 -> match o2 with Some db => Node (tree_hash t) db = Some (tree_enc t) | None => True end -> saved o2 t).

Lemma hash_slow o t fl force r :
  children_hashed o t fl r -> good false t -> in_memory t -> flag_ok (Kof o) force fl t ->
  (o = None -> fhash fl = None) -> (force || large t = true -> allowed o t) ->
  hashes o force t
    (let* (c, cached, db) := r in
     let* (hashed, db) := store h c db force in
     Ok (hashed, set_cached hashed (match db with Some _ => true | None => false end) cached, db)).
Proof.
  intros (c & cached & o1 & -> & H1 & Hb & He & Ei & Ec & Hsv & Href & Eset & Hrep & Hsaved) Hg Hm Hfl Ho Ha. cbn [res_bind].
  destruct (store_spec c t o1 force) as (o2 & -> & H2 & HN); [done..| | | |done|done|].
  - rewrite Ec. unfold flag_ok in Hfl. destruct (fhash fl); [right; by destruct Hfl as [-> _]|by left].
  - by eapply step_ready.
  - intros Hl. eapply step_allowed; [done|auto].
  - cbn [res_bind]. eexists _, _, o2. split; [done|]. split; [by eapply step_trans|]. split; [|split; [|split; [|split]]].
    + destruct (force || large t); [apply keccak256_u8|done].
    + by destruct (force || large t).
    + by intros ->.
    + intros El. rewrite El. split; [done|]. apply Hsaved; [done|]. by apply HN.
    + rewrite Eset. apply Hrep; [done|]. unfold flag_ok in *. cbn [fhash dirty].
      destruct (force || large t) eqn:El.
      * split; [done|]. apply orb_true_iff in El. split; [done|]. destruct o2 as [db|]; [intros _; by apply (Hsaved (Some db)), HN|].
        destruct o1; [done|]. destruct o; [done|]. rewrite (Ho eq_refl) in Hfl. intros Hd. destruct (Hfl Hd) as [-> E].
        rewrite E in El. by destruct El.
      * apply orb_false_iff in El. by destruct c.
Qed.

Lemma hashed_slot hashed t :
  good false t -> (large t = false -> is_branch hashed = true) -> (large t = true -> hashed = hashNode (tree_hash t)) ->
  slot_ref hashed t.
Proof.
  intros Hg Hb Hl. unfold slot_ref. destruct (large t).
  - rewrite (Hl eq_refl). split; [|done]. split; [by intros [= <-]|]. by intros (_ & _ & ->).
  - specialize (Hb eq_refl). split; [split; [by intros ->|]; by intros (_ & [=] & _)|by intros v ->].
Qed.

Lemma short_children o t k v fl :
  (forall t, rep (Kof o) false v t -> good false t -> in_memory t -> ready o -> (large t = true -> allowed o t) ->
     hashes o false t (hash h v o false)) ->
  rep (Kof o) false v t -> good false (TShort k t) -> in_memory (TShort k t) -> ready o ->
  (large t = true -> good false t -> allowed o t) ->
  children_hashed o (TShort k t) fl (hashChildren (hash h) (shortNode k v fl) o).
Proof.
  intros IH Hr Hg Hm Hro Ha. pose proof Hg as (_ & Hne & Hh & Hns & Hgt). cbn [hashChildren].
  rewrite hexToCompact_compact by done. cbn [res_bind].
  destruct (in_memory_short k t Hg Hm) as [_ Hmt]. destruct (hasTerm k).
  - apply good_true in Hgt as (w & -> & Hw).
    assert (v = valueNode (Some w)) as -> by (inversion Hr as [| |? ? HK| |]; subst; [done|by apply Kof_good in HK as [[[=] _] _]]).
    eexists _, _, o. split; [done|]. split; [by apply step_refl|]. split; [done|]. split; [split; [by apply compact_u8|by destruct Hw]|].
    split; [done|]. split; [done|]. split; [by intros s (Hx & _ & ->); destruct Hx|]. split.
    { apply refs_of_short. split; [|by intros ? [= <-]]. intros x. split; [done|]. by intros [[[=] _] _]. }
    split; [done|]. split.
    + intros o2 force fl' _ Hfl. by repeat constructor.
    + intros [db|] _ HN; [|done]. apply stored_short; [done..|]. by intros [[=] _].
  - destruct (IH t Hr Hgt Hmt Hro) as (hashed & cached & o' & E & Hs & He & Ei & Hb & Hl & Hrc); [auto|].
    assert (node_item hashed = tree_ref t) as Er.
    { rewrite Ei, tree_ref_good by by right. by destruct t; [destruct Hgt|..]. }
    assert ((let* (hashed, cached, db) := hash h v o false in
       Ok (shortNode (compact k) (match hashed with Nil => valueNode None | _ => hashed end) fl, shortNode k cached fl, db)) =
       Ok (shortNode (compact k) hashed fl, shortNode k cached fl, o')) as E'.
    { rewrite E. cbn [res_bind]. by destruct hashed. }
    exists (shortNode (compact k) hashed fl), (shortNode k cached fl), o'. split.
    { destruct v; try done. inversion Hr; subst. by destruct Hgt. }
    split; [done|]. split; [done|]. split; [split; [by apply compact_u8|done]|]. split; [cbn [node_item]; by rewrite Er|].
    split; [done|]. split; [by intros s (_ & El & ->); apply Hl|].
    split; [apply refs_of_short, hashed_slot; [done..|]; intros El; by apply Hl|]. split; [done|]. split.
    + intros o2 force fl' H2 Hfl. constructor; [by eapply step_rep|done].
    + intros [db|] H2 HN; [|done]. apply stored_short; [done..|]. intros _ El. destruct (Hl El) as [_ Hsv].
      by apply (step_saved o' (Some db)).
Qed.

(** A child of a full node at a place. *)
Definition slot_at (i : nat) (t : tree) : Prop := t = TNil \/ good (Z.of_nat i =? 16) t.

Definition hashes_any (v : node) : Prop := forall o t, rep (Kof o) false v t -> good false t -> in_memory t -> ready o ->
  (large t = true -> allowed o t) -> hashes o false t (hash h v o false).

Lemma hashSlot_spec i c t o :
  hashes_any c -> rep (Kof o) false c t -> slot_at i t -> in_memory t -> (i <= 16)%nat -> ready o ->
  (good false t -> large t = true -> allowed o t) ->
  exists hashed cached o', hashSlot (hash h) i c o = Ok (hashed, cached, o') /\ step o o' /\ encodable hashed /\
    node_item hashed = tree_ref t /\ slot_ref hashed t /\ rep (Kof o') false cached t /\ (good false t -> large t = true -> saved o' t).
Proof.
  intros Hc Hct [->|Hg] Hm Hi Hro Ha.
  - assert (c = Nil) as -> by (inversion Hct as [| |? ? HK| |]; subst; [done|by apply Kof_good in HK as [[] _]]).
    exists (valueNode None), Nil, o. split; [done|]. split; [by apply step_refl|]. split; [constructor|]. split; [done|].
    split; [by split; [intros x; split; [|intros [[] _]]|]|].
    split; [constructor|]. by intros [].
  - destruct (Z.eqb_spec (Z.of_nat i) 16) as [E|E].
    + apply good_true in Hg as (v & -> & Hv).
      assert (c = valueNode (Some v)) as -> by (inversion Hct as [| |? ? HK| |]; subst; [done|by apply Kof_good in HK as [[[=] _] _]]).
      exists (valueNode (Some v)), (valueNode (Some v)), o. unfold hashSlot. rewrite (proj2 (Nat.ltb_ge _ _)) by lia.
      split; [done|]. split; [by apply step_refl|]. split; [by destruct Hv|]. split; [done|].
      split; [by split; [intros x; split; [|intros [[[=] _] _]]|intros ? [= <-]]|]. split; [constructor|]. by intros [[=] _].
    + destruct (Hc o t Hct Hg Hm Hro) as (hashed & cached & o1 & E1 & H1 & He & Ei & Hb & Hs1 & Hrc); [auto|].
      exists hashed, cached, o1. split.
      { unfold hashSlot. rewrite (proj2 (Nat.ltb_lt _ _)) by lia. destruct c; try done; inversion Hct; subst; by destruct Hg. }
      split; [done|]. split; [done|]. split; [|split; [|split; [done|intros _ El; by apply Hs1]]].
      2: { apply hashed_slot; [done..|]. intros El. by apply Hs1. }
      rewrite Ei, tree_ref_good by by right. by destruct t; [destruct Hg|..].
Qed.

Lemma hashLoop_spec i ns l o :
  Forall hashes_any ns -> Forall2 (rep (Kof o) false) ns l ->
  (forall j t, l !! j = Some t -> slot_at (i + j) t /\ in_memory t) -> (i + length l <= 17)%nat -> ready o ->
  (forall t, t ∈ l -> good false t -> large t = true -> allowed o t) ->
  exists hs cs o', hashLoop (hash h) i ns o = Ok (hs, cs, o') /\ step o o' /\ Forall encodable hs /\
    map node_item hs = map tree_ref l /\ Forall2 slot_ref hs l /\ Forall2 (rep (Kof o') false) cs l /\
    (forall t, t ∈ l -> good false t -> large t = true -> saved o' t).
Proof.
  intros IH Hr. revert i o Hr. revert l. induction IH as [|c ns Hc _ IHns]; intros l i o Hr Hl Hi Hro Ha.
  { inversion Hr; subst. exists [], [], o. split; [done|]. split; [by apply step_refl|]. split; [constructor|].
    split; [done|]. split; [constructor|]. split; [constructor|]. by intros t ?%elem_of_nil. }
  inversion Hr as [|? t ? l' Hct Hr']; subst. rename l' into l. cbn [length] in Hi.
  destruct (Hl 0%nat t eq_refl) as [Hslot Hm]. rewrite Nat.add_0_r in Hslot.
  destruct (hashSlot_spec i c t o) as (hashed & cached & o1 & E1 & H1 & He & Ei & Hsl & Hrc & Hs1); [done..|lia|done| |].
  { intros Hg El. apply Ha; [by apply elem_of_cons; left|done..]. }
  destruct (IHns l (S i) o1) as (hs & cs & o2 & E2 & H2 & He2 & Ei2 & Hsl2 & Hr2 & Hs2).
  - eapply Forall2_impl; [done|]. intros n u. by apply step_rep.
  - intros j u Hj. specialize (Hl (S j) u Hj). by rewrite Nat.add_succ_r in Hl.
  - lia.
  - by eapply step_ready.
  - intros u Hu Hg El. eapply step_allowed; [done|]. apply Ha; [by apply elem_of_cons; right|done..].
  - exists (hashed :: hs), (cached :: cs), o2. cbn [hashLoop]. rewrite E1. cbn [res_bind]. rewrite E2. cbn [res_bind].
    split; [done|]. split; [by eapply step_trans|]. split; [by constructor|]. split; [cbn [map]; by rewrite Ei, Ei2|].
    split; [by constructor|]. split; [constructor; [by eapply step_rep|done]|]. intros u [->|Hu]%elem_of_cons Hg El; [|by apply Hs2].
    eapply step_saved; [done|]. by apply Hs1.
Qed.

Lemma full_children o l ns fl :
  Forall hashes_any ns -> Forall2 (rep (Kof o) false) ns l -> good false (TFull l) -> in_memory (TFull l) -> ready o ->
  (forall t, t ∈ l -> good false t -> large t = true -> allowed o t) ->
  children_hashed o (TFull l) fl (hashChildren (hash h) (fullNode ns fl) o).
Proof.
  intros IH Hr Hg Hm Hro Ha. pose proof Hg as (_ & Hl & _ & Hs)%good_full. cbn [hashChildren].
  destruct (hashLoop_spec 0 ns l o) as (hs & cs & o1 & -> & H1 & He & Ei & Hsl & Hrc & Hs1); [done..| |lia|done|done|].
  { intros j t Hj. split; [by apply Hs|by eapply in_memory_full]. }
  exists (fullNode hs fl), (fullNode cs fl), o1. split; [done|]. split; [done|]. split; [done|].
  split. { apply encodable_full. split; [|done]. by rewrite <- (length_map node_item), Ei, length_map. }
  split; [cbn [node_item]; by rewrite Ei|]. split; [done|]. split; [by intros s (Hgs & El & Hin); apply Hs1|]. split.
  { apply refs_of_full; [done|exact Hs|lia]. }
  split; [done|]. split.
  - intros o2 force fl' H2 Hfl. constructor; [|done]. eapply Forall2_impl; [done|]. intros n t. by apply step_rep.
  - intros [db|] H2 HN; [|done]. apply stored_full; [done..|]. intros t Ht Hgt El.
    apply (step_saved o1 (Some db)); [done|]. by apply Hs1.
Qed.

(** A node that has its hash already, or is one. *)
Lemma hashes_known o force t n n' :
  rep (Kof o) force n' t -> ready o -> (force || large t = true) -> (saved o t) ->
  n = hashNode (tree_hash t) -> hashes o force t (Ok (n, n', o)).
Proof.
  intros Hr Hro El Hs ->. eexists _, _, o. split; [done|]. split; [by apply step_refl|]. split; [apply keccak256_u8|].
  rewrite El. split; [done|]. split; [done|]. by split.
Qed.

Lemma hash_branch o n t fl force :
  is_branch n = true -> cache n = (fhash fl, dirty fl) -> (forall g l, canUnload n g l = true -> dirty fl = false) ->
  children_hashed o t fl (hashChildren (hash h) n o) -> rep (Kof o) force n t -> flag_ok (Kof o) force fl t ->
  good false t -> in_memory t -> ready o -> (force || large t = true -> allowed o t) ->
  hashes o force t (hash h n o force).
Proof.
  intros Hb Ec Hu Hch Hr Hfl Hg Hm Hro Ha.
  assert (hash h n o force =
    let slow := let* (c, cached, db) := hashChildren (hash h) n o in
                let* (hashed, db) := store h c db force in
                Ok (hashed, set_cached hashed (match db with Some _ => true | None => false end) cached, db) in
    match fhash fl with
    | Some hh =>
        match o with
        | None => Ok (hashNode hh, n, o)
        | Some _ =>
            if canUnload n (hcachegen h) (hcachelimit h) then Ok (hashNode hh, hashNode hh, o)
            else if negb (dirty fl) then Ok (hashNode hh, n, o)
            else slow
        end
    | None => slow
    end) as ->.
  { destruct n as [| | |k v f|l f]; try done; cbn [cache] in Ec; injection Ec as <- <-; reflexivity. }
  cbn zeta. pose proof (hash_slow o t fl force _ Hch Hg Hm Hfl) as Hslow.
  pose proof Hfl as Hfl'. unfold flag_ok in Hfl'. destruct (fhash fl) as [hh|]; [|by apply Hslow].
  destruct Hfl' as (-> & Hl & Hd). assert (force || large t = true) as El by by apply orb_true_iff.
  destruct o as [db|]; [|by apply hashes_known].
  destruct (canUnload n _ _) eqn:Eu.
  - specialize (Hd (Hu _ _ Eu)). apply hashes_known; [by constructor|done..].
  - destruct (dirty fl); cbn [negb]; [by apply Hslow|]. specialize (Hd eq_refl). by apply hashes_known.
Qed.

Lemma hash_spec n o force t :
  rep (Kof o) force n t -> good false t -> in_memory t -> ready o -> (force || large t = true -> allowed o t) ->
  hashes o force t (hash h n o force).
Proof.
  revert o force t. induction n as [|hh|v|k v fl IH|ns fl IH] using node_ind'; intros o force t Hr Hg Hm Hro Ha.
  - inversion Hr; subst. destruct Hg.
  - inversion Hr as [| |? ? HK Hf| |]; subst. cbn [hash cache hashChildren res_bind store set_cached].
    apply hashes_known; [by constructor|done|by apply orb_true_iff|by destruct o|done].
  - inversion Hr; subst. by destruct Hg.
  - inversion Hr as [| | |? ? ? u ? Hv Hfl|]; subst. apply (hash_branch o _ _ fl); try done.
    { intros g l' [E _]%andb_true_iff. by apply negb_true_iff. }
    apply short_children; try done.
    + intros u' Hu' Hgu Hmu _ Hau. by apply IH.
    + intros El Hgu. destruct o as [db|]; [|done]. intros s Hs. apply Ha; [|eauto with parts].
      destruct (large (TShort k u)) eqn:E; [apply orb_true_r|]. by rewrite (small_short k u E Hgu) in El.
  - inversion Hr as [| | | |? ? l ? Hns Hfl]; subst. apply (hash_branch o _ _ fl); try done.
    { intros g l' [E _]%andb_true_iff. by apply negb_true_iff. }
    apply full_children; try done.
    + eapply Forall_impl; [exact IH|]. intros c Hc o' u Hu Hgu Hmu Hr' Hau. by apply Hc.
    + intros u [i Hi]%list_elem_of_lookup_1 Hgu El. destruct o as [db|]; [|done]. intros s Hs.
      apply Ha; [|eauto with parts]. destruct (large (TFull l)) eqn:E; [apply orb_true_r|].
      by rewrite (small_full l i u E Hi Hgu) in El.
Qed.
End Hashing.
