(* ===== verification/TrieSpec.v ===== *)
(** * What a trie promises

    A trie implements a finite map from byte strings to byte strings that are not
    empty.  Its root hash depends on the map only, and stands for the map unless
    two nodes collide.  A trie that was committed can be opened again. *)

From S2P Require Import Rlp Sponge TrieKeys TrieNode TrieDatabase Trie TrieHasher TrieTree TrieHashing TrieMap TrieCommit.
From S2P Require Import Prelude.

#[local] Set Warnings "-register-all".

Abbreviation bmap := (gmap (list Z) (list Z)).

(** ** Contents *)

(** A tree has the entries of a map. *)
Definition contents (tr : tree) (m : bmap) : Prop :=
  (tr = TNil \/ good false tr) /\ (forall k v, m !! k = Some v -> Forall is_u8 k) /\
  (forall key v, tfind tr key = Some v <-> exists k, key = keybytesToHex k /\ m !! k = Some v).

Lemma contents_lookup tr m k : contents tr m -> tfind tr (keybytesToHex k) = m !! k.
Proof.
  intros (_ & _ & H). apply option_eq. intros v. rewrite H. split.
  - by intros (k' & ->%keybytesToHex_inj & Hm).
  - by exists k.
Qed.

Lemma contents_upd tr tr' m k o :
  contents tr m -> (tr' = TNil \/ good false tr') -> Forall is_u8 k ->
  (forall key, tfind tr' key = upd (tfind tr) (keybytesToHex k) o key) -> contents tr' (partial_alter (fun _ => o) k m).
Proof.
  intros (Hg & Hk & H) Hg' Hkb Hf. split; [done|]. split.
  - intros k' v. destruct (decide (k' = k)) as [->|Hne]; [done|]. rewrite lookup_partial_alter_ne by done. apply Hk.
  - intros key v. rewrite Hf. unfold upd. destruct (decide (key = keybytesToHex k)) as [->|Hne].
    + split.
      * intros ->. exists k. by rewrite lookup_partial_alter_eq.
      * intros (k' & <-%keybytesToHex_inj & E). by rewrite lookup_partial_alter_eq in E.
    + rewrite H. split; intros (k' & -> & E); exists k'; (split; [done|]);
        rewrite lookup_partial_alter_ne in * by (by intros ->); done.
Qed.

Lemma contents_unique tr tr' m : contents tr m -> contents tr' m -> tr = tr'.
Proof.
  intros (Hg & _ & H) (Hg' & _ & H'). assert (forall key, tfind tr key = tfind tr' key) as E.
  { intros key. apply option_eq. intros v. by rewrite H, H'. }
  destruct Hg as [->|Hg], Hg' as [->|Hg']; [done| | |by eapply good_unique].
  - destruct (good_entry _ _ Hg') as (key & v & _ & Hf). by rewrite <- E in Hf.
  - destruct (good_entry _ _ Hg) as (key & v & _ & Hf). by rewrite E in Hf.
Qed.

Lemma contents_empty : contents TNil ∅.
Proof. split; [by left|]. split; [done|]. intros key v. split; [done|]. by intros (k & _ & E). Qed.

Lemma contents_good tr m : contents tr m -> m <> ∅ -> good false tr.
Proof.
  intros ([->|Hg] & _ & Hc) Hne; [|done]. destruct Hne. apply map_empty. intros k. apply eq_None_not_Some. intros [v E].
  assert (tfind TNil (keybytesToHex k) = Some v) as Hx by (apply Hc; by exists k). done.
Qed.

(** The map fits in memory. *)
Definition sized (m : bmap) : Prop :=
  forall k v, m !! k = Some v -> Z.of_nat (2 * length k + 1) < 2 ^ 48 /\ Z.of_nat (length v) < 2 ^ 48.

Lemma sized_in_memory tr m : contents tr m -> sized m -> in_memory tr.
Proof.
  intros (_ & _ & H) Hs key v (k & -> & E)%H. apply Hs in E as [Hk Hv]. split; [|done].
  unfold bounded. by rewrite length_keybytesToHex.
Qed.

(** ** Operations *)

(** A trie that represents a map; [K] are the trees that may be unloaded. *)
Definition represents (K : tree -> Prop) (t : Trie) (m : bmap) : Prop := exists tr, rep K true (root t) tr /\ contents tr m.

(** The map after a value has been written: an empty one deletes. *)
Definition map_update (k v : list Z) (m : bmap) : bmap := if bool_decide (v = []) then delete k m else <[k := v]> m.

(** The fuel for a key: two rounds for a nibble. *)
Definition key_fuel (k : list Z) : nat := (4 * length k + 4)%nat.

Section Operations.
Context `{DiskDB} (db : Database) (K : tree -> Prop) `{!Unloaded db K}.

Lemma enough_key n k : (enough n (keybytesToHex k) <= key_fuel k)%nat.
Proof. unfold enough, key_fuel. rewrite length_keybytesToHex. destruct (is_hash n); lia. Qed.

Lemma TryGet_spec fuel t m k :
  represents K t m -> Forall is_u8 k -> (key_fuel k <= fuel)%nat ->
  (exists t', TryGet db fuel t k = Ok (m !! k, t') /\ represents K t' m) \/
  (exists e, TryGet db fuel t k = Err e /\ missing db K e).
Proof.
  intros (tr & Hr & Hc) Hk Hf. unfold TryGet. pose proof Hc as (Hg & _). pose proof (enough_key (root t) k).
  destruct (tryGet_rep db K fuel (cachegen t) true false (root t) tr (keybytesToHex k) 0 Hr Hg) as [(n & d & -> & Hn)|(e & -> & He)].
  - by apply keybytesToHex_hexkey.
  - lia.
  - rewrite drop_0. lia.
  - left. cbn [res_bind]. rewrite drop_0, (contents_lookup tr m) by done. eexists. split; [done|].
    exists tr. split; [by destruct d|done].
  - right. by exists e.
Qed.

Lemma delete_spec fuel t m k :
  represents K t m -> Forall is_u8 k -> (key_fuel k <= fuel)%nat ->
  let r := let* (_, n) := delete_ db fuel (cachegen t) (root t) [] (keybytesToHex k) in Ok (set_root n t) in
  (exists t', r = Ok t' /\ represents K t' (delete k m)) \/ (exists e, r = Err e /\ missing db K e).
Proof.
  intros (tr & Hr & Hc) Hk Hf r. pose proof Hc as (Hg & _). pose proof (enough_key (root t) k). unfold r.
  destruct (delete_rep db K fuel (cachegen t) true false (root t) tr [] (keybytesToHex k) Hr Hg)
    as [(d & n & tr' & -> & Hn & [Hg' _] & _ & _ & Hu)|(e & -> & He)].
  - by apply keybytesToHex_hexkey.
  - lia.
  - left. eexists. split; [done|]. exists tr'. split; [done|]. by apply (contents_upd tr _ m k None).
  - right. by exists e.
Qed.

Lemma TryUpdate_spec fuel t m k v :
  represents K t m -> Forall is_u8 k -> Forall is_u8 v -> (key_fuel k <= fuel)%nat ->
  (exists t', TryUpdate db fuel t k v = Ok t' /\ represents K t' (map_update k v m)) \/
  (exists e, TryUpdate db fuel t k v = Err e /\ missing db K e).
Proof.
  intros Hrep Hk Hv Hf. unfold TryUpdate, map_update. case_bool_decide as Ev.
  { subst v. by apply delete_spec. }
  rewrite (proj2 (Z.eqb_neq _ 0)) by (destruct v; [done|cbn; lia]). cbn [negb].
  destruct Hrep as (tr & Hr & Hc). pose proof Hc as (Hg & _). pose proof (enough_key (root t) k).
  destruct (insert_rep db K fuel (cachegen t) true false (root t) tr [] (keybytesToHex k) v Hr Hg)
    as [(d & n & tr' & -> & Hn & [Hg' _] & _ & Hu)|(e & -> & He)].
  - by apply keybytesToHex_hexkey.
  - by split.
  - lia.
  - left. eexists. split; [done|]. exists tr'. split; [done|]. apply (contents_upd tr _ m k (Some v)); auto.
  - right. by exists e.
Qed.
End Operations.

(** With everything in the database nothing is missing. *)
Lemma stored_not_missing `{DiskDB} db e : ~ missing db (stored db) e.
Proof. intros (s & p & (_ & _ & Hs) & E & _). rewrite Hs in E by constructor. done. Qed.

(** ** Root hashes *)

Definition root_hash (tr : tree) : list Z :=
  match tr with
  | TNil => emptyRoot
  | _ => tree_hash tr
  end.

(** The constant of the code is the hash of an empty string. *)
Lemma emptyRoot_hash : emptyRoot = keccak256 [0x80].
Proof. symmetry. apply keccak256_eval; [by apply (bool_decide_unpack _)|vm_compute; reflexivity]. Qed.

(** Two trees whose encodings have the same hash. *)
Definition collide (s s' : tree) : Prop := tree_enc s <> tree_enc s' /\ tree_hash s = tree_hash s'.

Definition below (t s : tree) : Prop :=
  match t with
  | TShort _ t => good false t /\ large t = true /\ part t s
  | TFull l => exists i t, l !! i = Some t /\ good false t /\ large t = true /\ part t s
  | _ => False
  end.

Lemma below_part t s : below t s -> part t s.
Proof. destruct t as [| |k t|l]; [done|done|intros (? & ? & ?)|intros (i & t & ? & ? & ? & ?)]; eauto with parts. Qed.

Lemma small_below t s : large t = false -> ~ below t s.
Proof.
  intros El. destruct t as [| |k t|l]; [intros []|intros []|intros (Hg & Hl & _)|intros (i & t & Hi & Hg & Hl & _)].
  - by rewrite (small_short k t El Hg) in Hl.
  - by rewrite (small_full l i t El Hi Hg) in Hl.
Qed.

(** Parts of two trees collide. *)
Definition collision_below (t u : tree) : Prop := exists s s', below t s /\ below u s' /\ collide s s'.
Definition collision_in (t u : tree) : Prop := exists s s', part t s /\ part u s' /\ collide s s'.

Definition decided (t u : tree) : Prop :=
  good false t -> good false u -> in_memory t -> in_memory u -> stored_node None 0 t = stored_node None 0 u ->
  t = u \/ collision_below t u.

Lemma hash_decides t u :
  decided t u -> good false t -> good false u -> in_memory t -> in_memory u -> tree_hash t = tree_hash u ->
  t = u \/ collision_in t u.
Proof.
  intros IH Ht Hu Hmt Hmu E. destruct (decide (tree_enc t = tree_enc u)) as [Ee|Ee].
  - pose proof (decodeNode_tree t None 0 Ht (tree_enc_fits t Ht Hmt)) as D.
    rewrite Ee, (decodeNode_tree u None 0 Hu (tree_enc_fits u Hu Hmu)) in D. injection D as D.
    destruct IH as [->|(s & s' & Hs & Hs' & Hc)]; [done..|by left|]. right. exists s, s'. auto using below_part.
  - right. exists t, u. split; [constructor|]. by split; [constructor|].
Qed.

(** The references to two children tell them apart. *)
Lemma ref_decides b t u :
  (t = TNil \/ good b t) -> (u = TNil \/ good b u) -> decided t u -> in_memory t -> in_memory u ->
  stored_ref 0 t = stored_ref 0 u ->
  t = u \/ (good false t /\ good false u /\ large t = true /\ large u = true /\ collision_in t u).
Proof.
  intros Ht Hu IH Hmt Hmu E. destruct b.
  - left. destruct Ht as [->|(v & -> & _)%good_true], Hu as [->|(w & -> & _)%good_true]; cbn in E; congruence.
  - assert (forall t, good false t -> stored_ref 0 t = if large t then hashNode (tree_hash t) else stored_node None 0 t) as Er.
    { intros x Hx. by destruct x; [destruct Hx|destruct Hx as [[=] _]|..]. }
    assert (forall t, good false t -> stored_ref 0 t <> Nil) as En.
    { intros x Hx. rewrite Er by done. destruct (large x); [done|]. by destruct x; [destruct Hx|..]. }
    assert (forall t h, good false t -> stored_node None 0 t <> hashNode h) as Eh.
    { intros x y Hx. by destruct x; [destruct Hx|..]. }
    destruct Ht as [->|Ht], Hu as [->|Hu]; [by left|by destruct (En u Hu)|by destruct (En t Ht)|].
    rewrite !Er in E by done. destruct (large t) eqn:Elt, (large u) eqn:Elu.
    + injection E as E. destruct (hash_decides t u IH Ht Hu Hmt Hmu E) as [->|Hc]; [by left|by right].
    + by destruct (Eh u (tree_hash t)).
    + by destruct (Eh t (tree_hash u)).
    + destruct (IH Ht Hu Hmt Hmu E) as [->|(s & s' & Hs & _)]; [by left|]. by destruct (small_below t s).
Qed.

Lemma full_decides l m :
  Forall2 (fun t u => t = u \/ (good false t /\ good false u /\ large t = true /\ large u = true /\ collision_in t u)) l m ->
  l = m \/ collision_below (TFull l) (TFull m).
Proof.
  intros H. enough (l = m \/ exists i t u, l !! i = Some t /\ m !! i = Some u /\ good false t /\ good false u /\
                    large t = true /\ large u = true /\ collision_in t u) as [->|(i & t & u & Hi & Hj & Ht & Hu & Elt & Elu & s & s' & Hs & Hs' & Hc)].
  - by left.
  - right. exists s, s'. split; [by exists i, t|]. split; [by exists i, u|done].
  - induction H as [|t u l m [->|Htu] _ IH]; [by left| |].
    + destruct IH as [->|(i & t & u' & H')]; [by left|]. right. by exists (S i), t, u'.
    + right. by exists 0%nat, t, u.
Qed.

Lemma trees_decided t u : decided t u.
Proof.
  revert u. induction t as [|v|k t IH|l IH] using tree_ind'; intros u Ht Hu Hmt Hmu E.
  - destruct Ht.
  - by destruct Ht.
  - destruct u as [|w|j u|m]; [destruct Hu|by destruct Hu| |done]. rewrite !stored_node_short in E. injection E as -> E.
    destruct (in_memory_short _ _ Ht Hmt) as [_ Hmt'], (in_memory_short _ _ Hu Hmu) as [_ Hmu'].
    destruct Ht as (_ & _ & _ & _ & Ht), Hu as (_ & _ & _ & _ & Hu).
    destruct (ref_decides (hasTerm j) t u) as [->|(Hgt & Hgu & Elt & Elu & s & s' & Hs & Hs' & Hc)]; auto.
    right. exists s, s'. by split; [|split].
  - destruct u as [|w|j u|m]; [destruct Hu|by destruct Hu|done|]. rewrite !stored_node_full in E. injection E as E.
    pose proof Ht as (_ & Hl & _ & Hs)%good_full. pose proof Hu as (_ & Hm & _ & Hs')%good_full.
    destruct (full_decides l m) as [->|Hc]; [|by left|by right]. rewrite Forall_lookup in IH.
    apply Forall2_same_length_lookup_2; [congruence|]. intros i t u Hi Hj.
    apply (ref_decides (Z.of_nat i =? 16)); [by apply Hs|by apply Hs'|by apply (IH i)|by apply (in_memory_full l i)|by apply (in_memory_full m i)|].
    pose proof (f_equal (.!! i) E) as Ei. cbv beta in Ei. rewrite !list_lookup_fmap, Hi, Hj in Ei. by injection Ei.
Qed.

Lemma enc_not_empty tr : good false tr -> in_memory tr -> tree_enc tr <> tree_enc TNil.
Proof.
  intros Hg Hm E. pose proof (decodeNode_tree tr None 0 Hg (tree_enc_fits tr Hg Hm)) as D. rewrite E in D.
  assert (exists e, decodeNode None (tree_enc TNil) 0 = Err e) as [e E'] by (eexists; vm_compute; reflexivity). congruence.
Qed.

Lemma root_hash_tree tr : root_hash tr = tree_hash tr.
Proof. destruct tr; [exact emptyRoot_hash|reflexivity..]. Qed.

(** Trees with the same root hash are the same, or nodes collide. *)
Lemma root_hash_inj tr tr' :
  (tr = TNil \/ good false tr) -> (tr' = TNil \/ good false tr') -> in_memory tr -> in_memory tr' ->
  root_hash tr = root_hash tr' -> tr = tr' \/ collision_in tr tr'.
Proof.
  intros Hg Hg' Hm Hm' E. rewrite !root_hash_tree in E.
  destruct Hg as [->|Hg], Hg' as [->|Hg']; [by left| | |by apply hash_decides; [apply trees_decided|..]].
  - right. exists TNil, tr'. split; [constructor|]. split; [constructor|]. split; [|done]. intros E'. by apply (enc_not_empty tr').
  - right. exists tr, TNil. split; [constructor|]. split; [constructor|]. split; [|done]. by apply enc_not_empty.
Qed.

(** ** Incomplete databases *)

(** A tree whose nodes may be missing, but are not something else. *)
Definition sound `{DiskDB} (db : Database) (t : tree) : Prop :=
  good false t /\ in_memory t /\
  forall s, part t s -> Node (tree_hash s) db = None \/ Node (tree_hash s) db = Some (tree_enc s).

#[export] Instance sound_unloaded `{DiskDB} db : Unloaded db (sound db).
Proof.
  split.
  - by intros t (Hg & Hm & _).
  - intros t (_ & _ & Hs). apply Hs. constructor.
  - intros k t (Hg & Hm & Hs) Hgt El. split; [done|]. split; [by apply in_memory_short in Hm as [_ ?]|].
    intros s Hp. apply Hs. eauto with parts.
  - intros l i t (Hg & Hm & Hs) Hi Hgt El. split; [done|]. split; [by eapply in_memory_full|].
    intros s Hp. apply Hs. eauto with parts.
Qed.

(** ** Hashing, committing and opening *)

Section Commit.
Context `{DiskDB}.

Lemma hashRoot_rep B J K t tr o leaf :
  collision_free B -> (forall s, K s -> good false s /\ in_memory s) -> leaf_refers leaf ->
  store_keeps B (mkHasher (cachegen t) (cachelimit t) leaf) J ->
  rep (Kof K o) true (root t) tr -> (tr = TNil \/ good false tr) -> in_memory tr -> ready B J o -> allowed B o tr ->
  exists cached o', hashRoot t o leaf = Ok (hashNode (root_hash tr), cached, o') /\ step B J o o' /\
    rep (Kof K o') true cached tr /\ (tr <> TNil -> saved o' tr).
Proof.
  intros HB HK Hl HJ Hr Hg Hm Hro Ha. unfold hashRoot. destruct Hg as [->|Hg].
  - assert (root t = Nil) as -> by (inversion Hr as [| |? ? Hk| |]; [done|by apply (Kof_good K HK) in Hk as [[] _]]).
    exists Nil, o. split; [done|]. split; [by apply step_refl|]. by split; [constructor|].
  - destruct (hash_spec B J K (mkHasher (cachegen t) (cachelimit t) leaf) HB HK Hl HJ (root t) o true tr)
      as (hashed & cached & o' & E & Hs & _ & _ & _ & Hh & Hrc); [done..|].
    destruct (Hh eq_refl) as [-> Hsv]. exists cached, o'. split; [|by split; [|split]].
    assert (root t <> Nil) as Hn by (intros En; rewrite En in Hr; inversion Hr; by subst).
    rewrite root_hash_tree. by destruct (root t).
Qed.

Lemma BytesToHash_root tr : BytesToHash (root_hash tr) = root_hash tr.
Proof. rewrite root_hash_tree. apply BytesToHash_hash. Qed.

Lemma Hash_rep K t tr :
  (forall s, K s -> good false s /\ in_memory s) -> rep K true (root t) tr -> (tr = TNil \/ good false tr) -> in_memory tr ->
  exists n, TrieHasher.Hash t = Ok (root_hash tr, set_root n t) /\ rep K true n tr.
Proof.
  intros HK Hr Hg Hm. unfold TrieHasher.Hash.
  destruct (hashRoot_rep (fun _ => False) (fun _ => True) K t tr None None) as (n & o & -> & Hs & Hn & _); [by intros ? ? []|done|by intros f|done..|].
  destruct o; [done|]. exists n. split; [|done]. cbn [res_bind]. by rewrite BytesToHash_root.
Qed.

(** The blobs of a tree. *)
Definition blobs (tr : tree) (b : list Z) : Prop := exists s, part tr s /\ b = tree_enc s.

(** No node of the tree has the hash of another one, or of something else in the
    database. *)
Definition no_collision (db : Database) (tr : tree) : Prop := collision_free (blobs tr) /\ agrees (blobs tr) db.

Lemma Commit_rep db leaf t tr :
  leaf_refers leaf -> no_collision db tr -> rep (stored db) true (root t) tr -> (tr = TNil \/ good false tr) -> in_memory tr ->
  exists t' db', TrieHasher.Commit t db leaf = Ok (root_hash tr, t', db') /\ keeps db db' /\ preimages db' = preimages db /\
    rep (stored db') true (root t') tr /\ (tr <> TNil -> stored db' tr).
Proof.
  intros Hl [Hcf Hag] Hr Hg Hm. unfold TrieHasher.Commit.
  destruct (hashRoot_rep (blobs tr) (fun _ => True) (fun _ => False) t tr (Some db) leaf) as (n & o & -> & Hs & Hn & Hsv);
    [done|by intros ? []|done..| |].
  { intros s Hp. by exists s. }
  destruct o as [db'|]; [|done]. cbn [res_bind]. rewrite BytesToHash_root. destruct Hs as (_ & Hk & Ep).
  eexists _, db'. split; [done|]. split; [done|]. by split.
Qed.

(** Opening a trie at a root that is stored. *)
Lemma New_rep db tr :
  (tr = TNil \/ stored db tr) -> root_hash tr <> emptyHash -> (root_hash tr = emptyRoot -> tr = TNil) ->
  exists n, New db (root_hash tr) = Ok (mkTrie n (root_hash tr) 0 0) /\ rep (stored db) true n tr.
Proof.
  intros Hs He Hr. unfold New. destruct Hs as [->|Hs].
  - exists Nil. rewrite (bool_decide_eq_false_2 (_ <> emptyRoot)) by (intros Hx; by apply Hx). rewrite andb_false_r.
    split; [done|constructor].
  - pose proof Hs as (Hg & _). assert (tr <> TNil) as Hne by (intros ->; destruct Hg).
    rewrite !bool_decide_eq_true_2 by auto. cbn [andb].
    rewrite root_hash_tree.
    destruct (resolveHash_rep db (stored db) true 0 tr [] Hs (or_introl eq_refl)) as [(n & -> & Hn & _)|(e & _ & Hm)].
    + exists n. by split.
    + by apply stored_not_missing in Hm.
Qed.

(** ** Sessions

    Requests to a trie and its database, one after the other. *)

Inductive request := RGet (k : list Z) | RUpdate (k v : list Z) | RDelete (k : list Z) | RHash | RCommit.

Inductive answer := AValue (o : option (list Z)) | ADone | ARoot (h : list Z).

Definition serve (fuel : nat) (leaf : option LeafCallback) (r : request) (s : Trie * Database)
    : res trie_error (answer * (Trie * Database)) :=
  let (t, db) := s in
  match r with
  | RGet k => let* (v, t) := TryGet db fuel t k in Ok (AValue v, (t, db))
  | RUpdate k v => let* t := TryUpdate db fuel t k v in Ok (ADone, (t, db))
  | RDelete k => let* t := TryDelete db fuel t k in Ok (ADone, (t, db))
  | RHash => let* (h, t) := lift_eff (TrieHasher.Hash t) in Ok (ARoot h, (t, db))
  | RCommit => let* (h, t, db) := lift_eff (TrieHasher.Commit t db leaf) in Ok (ARoot h, (t, db))
  end.

Fixpoint session (fuel : nat) (leaf : option LeafCallback) (rs : list request) (s : Trie * Database)
    : res trie_error (list answer * (Trie * Database)) :=
  match rs with
  | [] => Ok ([], s)
  | r :: rs =>
      let* (a, s) := serve fuel leaf r s in
      let* (l, s) := session fuel leaf rs s in
      Ok (a :: l, s)
  end.

(** What a map answers. *)
Definition next (m : bmap) (r : request) : bmap :=
  match r with
  | RUpdate k v => map_update k v m
  | RDelete k => delete k m
  | _ => m
  end.

Definition expected (m : bmap) (r : request) (a : answer) : Prop :=
  match r with
  | RGet k => a = AValue (m !! k)
  | RUpdate _ _ | RDelete _ => a = ADone
  | RHash | RCommit => exists tr, contents tr m /\ a = ARoot (root_hash tr)
  end.

Fixpoint expected_all (m : bmap) (rs : list request) (l : list answer) : Prop :=
  match rs, l with
  | [], [] => True
  | r :: rs, a :: l => expected m r a /\ expected_all (next m r) rs l
  | _, _ => False
  end.

(** Requests that can be made: bytes, enough fuel, maps that fit in memory, and
    blobs among [B] when they are stored. *)
Definition proper (B : list Z -> Prop) (fuel : nat) (m : bmap) (r : request) : Prop :=
  match r with
  | RGet k | RDelete k => Forall is_u8 k /\ (key_fuel k <= fuel)%nat
  | RUpdate k v => Forall is_u8 k /\ Forall is_u8 v /\ (key_fuel k <= fuel)%nat
  | RHash => sized m
  | RCommit => sized m /\ forall tr b, contents tr m -> blobs tr b -> B b
  end.

Fixpoint proper_all (B : list Z -> Prop) (fuel : nat) (m : bmap) (rs : list request) : Prop :=
  match rs with
  | [] => True
  | r :: rs => proper B fuel m r /\ proper_all B fuel (next m r) rs
  end.

Definition serving (B : list Z -> Prop) (s : Trie * Database) (m : bmap) : Prop :=
  represents (stored s.2) s.1 m /\ agrees B s.2.

Lemma serve_expected B fuel leaf m r s :
  collision_free B -> leaf_refers leaf -> serving B s m -> proper B fuel m r ->
  exists a s', serve fuel leaf r s = Ok (a, s') /\ expected m r a /\ serving B s' (next m r).
Proof.
  intros HB Hl [Hrep Hag] Hp. destruct s as [t db]. cbn [fst snd] in *. destruct r as [k|k v|k| |]; cbn [serve].
  - destruct Hp as [Hk Hf].
    destruct (TryGet_spec db (stored db) fuel t m k Hrep Hk Hf) as [(t' & -> & H')|(e & _ & []%stored_not_missing)].
    eexists _, _. split; [done|]. by split.
  - destruct Hp as (Hk & Hv & Hf).
    destruct (TryUpdate_spec db (stored db) fuel t m k v Hrep Hk Hv Hf) as [(t' & -> & H')|(e & _ & []%stored_not_missing)].
    eexists _, _. split; [done|]. by split.
  - destruct Hp as [Hk Hf]. unfold TryDelete.
    destruct (delete_spec db (stored db) fuel t m k Hrep Hk Hf) as [(t' & -> & H')|(e & _ & []%stored_not_missing)].
    eexists _, _. split; [done|]. by split.
  - destruct Hrep as (tr & Hr & Hc). pose proof Hc as [Hg _].
    destruct (Hash_rep (stored db) t tr) as (n & -> & Hn); [by intros u (? & ? & _)|done..|by eapply sized_in_memory|].
    eexists _, _. split; [done|]. split; [by exists tr|]. split; [by exists tr|done].
  - destruct Hrep as (tr & Hr & Hc). pose proof Hc as [Hg _]. destruct Hp as [Hs HBm].
    destruct (hashRoot_rep B (fun _ => True) (fun _ => False) t tr (Some db) leaf) as (n & o & E & Hst & Hn & _); [done|by intros ? []|done..| |done| |].
    { by eapply sized_in_memory. }
    { intros u Hu. apply (HBm tr); [done|]. by exists u. }
    unfold TrieHasher.Commit. rewrite E. destruct o as [db'|]; [|done]. cbn [res_bind lift_eff]. rewrite BytesToHash_root.
    destruct Hst as ([Hag' _] & _ & _). eexists _, _. split; [done|]. split; [by exists tr|]. split; [by exists tr|done].
Qed.

(** When the database does not have all nodes of a trie, an operation gives what
    the map gives, or the error that a node is missing, and that node belongs to
    a part of the trie that is not loaded and is not in the database. *)
Theorem partial_database_answers db K fuel t m k v :
  Unloaded db K -> represents K t m -> Forall is_u8 k -> Forall is_u8 v -> (key_fuel k <= fuel)%nat ->
  ((exists t', TryGet db fuel t k = Ok (m !! k, t') /\ represents K t' m) \/
   (exists e, TryGet db fuel t k = Err e /\ missing db K e)) /\
  ((exists t', TryUpdate db fuel t k v = Ok t' /\ represents K t' (map_update k v m)) \/
   (exists e, TryUpdate db fuel t k v = Err e /\ missing db K e)) /\
  ((exists t', TryDelete db fuel t k = Ok t' /\ represents K t' (delete k m)) \/
   (exists e, TryDelete db fuel t k = Err e /\ missing db K e)).
Proof.
  intros HK Hr Hk Hv Hf. split; [by apply TryGet_spec|]. split; [by apply TryUpdate_spec|]. by apply delete_spec.
Qed.

(** C3: Any session of reads, writes, deletions, hashes and commits with a trie, in
    any order, answers as a finite map does: a read gives the value that was
    written last, an empty value deletes, a root hash is the one of the map at
    that time; nothing fails.  No two nodes that are stored collide. *)
Theorem sessions_refine_map B fuel leaf rs m s :
  collision_free B -> leaf_refers leaf -> serving B s m -> proper_all B fuel m rs ->
  exists l s', session fuel leaf rs s = Ok (l, s') /\ expected_all m rs l /\ serving B s' (foldl next m rs).
Proof.
  intros HB Hl. revert m s. induction rs as [|r rs IH]; intros m s Hs Hp; [by exists [], s|].
  destruct Hp as [Hr Hp]. destruct (serve_expected B fuel leaf m r s HB Hl Hs Hr) as (a & s1 & E1 & Ha & Hs1).
  destruct (IH _ _ Hs1 Hp) as (l & s2 & E2 & Hl2 & Hs2). exists (a :: l), s2. cbn [session]. rewrite E1. cbn [res_bind].
  rewrite E2. split; [done|]. by split.
Qed.

(** C13: The root hash stands for the contents: two tries with the same entries have
    the same hash, whatever they went through, and tries with the same hash have
    the same entries, or one stored node of each shows a collision of the hash. *)
Theorem root_hash_stands_for_map K K' t t' m m' :
  (forall s, K s -> good false s /\ in_memory s) -> (forall s, K' s -> good false s /\ in_memory s) ->
  represents K t m -> represents K' t' m' -> sized m -> sized m' ->
  exists tr tr' n n' h h',
    TrieHasher.Hash t = Ok (h, set_root n t) /\ TrieHasher.Hash t' = Ok (h', set_root n' t') /\
    contents tr m /\ contents tr' m' /\ (m = m' -> h = h') /\ (h = h' -> m = m' \/ collision_in tr tr').
Proof.
  intros HK HK' (tr & Hr & Hc) (tr' & Hr' & Hc') Hs Hs'. pose proof Hc as [Hg _]. pose proof Hc' as [Hg' _].
  pose proof (sized_in_memory _ _ Hc Hs) as Hm. pose proof (sized_in_memory _ _ Hc' Hs') as Hm'.
  destruct (Hash_rep K t tr HK Hr Hg Hm) as (n & E & _), (Hash_rep K' t' tr' HK' Hr' Hg' Hm') as (n' & E' & _).
  exists tr, tr', n, n', (root_hash tr), (root_hash tr'). split; [done|]. split; [done|]. split; [done|]. split; [done|]. split.
  - intros <-. by rewrite (contents_unique tr tr' m).
  - intros Eh. destruct (root_hash_inj tr tr' Hg Hg' Hm Hm' Eh) as [<-|Hcol]; [left|by right].
    apply map_eq. intros k. by rewrite <- (contents_lookup tr m k Hc), (contents_lookup tr m' k Hc').
Qed.

(** C6: What is committed can be opened again: [Commit] returns the root hash and
    stores nothing that changes what could be read, and [New] at that root gives
    a trie with the same entries, all of which are found. *)
Theorem commit_then_open leaf t db m tr fuel :
  leaf_refers leaf -> represents (stored db) t m -> sized m -> contents tr m -> no_collision db tr ->
  root_hash tr <> emptyHash -> (root_hash tr = emptyRoot -> m = ∅) ->
  exists t' db' t2, TrieHasher.Commit t db leaf = Ok (root_hash tr, t', db') /\ keeps db db' /\ preimages db' = preimages db /\
    represents (stored db') t' m /\ New db' (root_hash tr) = Ok t2 /\ represents (stored db') t2 m /\
    (forall k, Forall is_u8 k -> (key_fuel k <= fuel)%nat -> exists t3, TryGet db' fuel t2 k = Ok (m !! k, t3)).
Proof.
  intros Hl (tr' & Hr & Hc') Hs Hc Hnc He Her. rewrite (contents_unique tr' tr m Hc' Hc) in Hr. pose proof Hc as [Hg _].
  destruct (Commit_rep db leaf t tr Hl Hnc Hr Hg) as (t' & db' & E & Hk & Ep & Hr' & Hst); [by eapply sized_in_memory|].
  assert (tr = TNil \/ stored db' tr) as Hnil.
  { destruct Hg as [|Hg]; [by left|right]. apply Hst. intros ->. destruct Hg. }
  destruct (New_rep db' tr Hnil He) as (n & E2 & Hr2).
  { intros E0. apply Her in E0. subst m. apply (contents_unique _ _ _ Hc contents_empty). }
  assert (represents (stored db') (mkTrie n (root_hash tr) 0 0) m) as Hrep by by exists tr.
  exists t', db', (mkTrie n (root_hash tr) 0 0). split; [done|]. split; [done|]. split; [done|]. split; [by exists tr|]. split; [done|].
  split; [done|]. intros k Hk' Hf.
  destruct (TryGet_spec db' (stored db') fuel _ m k Hrep Hk' Hf) as [(t3 & E3 & _)|(e & _ & []%stored_not_missing)].
  by exists t3.
Qed.
End Commit.

(** ** An example: one entry *)

Definition leaf_tree : tree := TShort (keybytesToHex [1]) (TVal [2]).
Definition leaf_map : bmap := {[ [1] := [2] ]}.
Definition leaf_hash : list Z :=
  [64; 208; 203; 114; 9; 136; 146; 86; 15; 10; 110; 52; 155; 220; 85; 184;
   5; 1; 151; 143; 150; 95; 25; 148; 208; 87; 8; 104; 80; 173; 171; 183].
Definition leaf_trie : Trie := mkTrie (shortNode (keybytesToHex [1]) (valueNode (Some [2])) (newFlag 0)) emptyHash 0 0.

Lemma leaf_tree_hash : tree_hash leaf_tree = leaf_hash.
Proof. apply keccak256_eval; [by apply (bool_decide_unpack _)|vm_compute; reflexivity]. Qed.

Lemma leaf_tree_good : good false leaf_tree.
Proof.
  cbn [leaf_tree good]. split; [done|]. split; [done|]. split; [right; by apply keybytesToHex_hexkey, (bool_decide_unpack _)|].
  split; [done|]. split; [done|]. split; [done|by apply (bool_decide_unpack _)].
Qed.

Lemma leaf_lookup k v : leaf_map !! k = Some v -> k = [1] /\ v = [2].
Proof. unfold leaf_map. by intros [<- <-]%lookup_singleton_Some. Qed.

Lemma leaf_contents : contents leaf_tree leaf_map.
Proof.
  split; [right; apply leaf_tree_good|]. split.
  - intros k v [-> ->]%leaf_lookup. by apply (bool_decide_unpack _).
  - intros key v. unfold leaf_tree. rewrite tfind_leaf. unfold upd. split.
    + destruct (decide (key = keybytesToHex [1])) as [->|]; [|done]. intros [= <-]. by exists [1].
    + intros (k & -> & [-> ->]%leaf_lookup). by rewrite decide_True.
Qed.

Lemma leaf_sized : sized leaf_map.
Proof. by intros k v [-> ->]%leaf_lookup. Qed.

Lemma leaf_part s : part leaf_tree s -> s = leaf_tree.
Proof. intros Hp. inversion Hp as [|? ? ? Hg|]; subst; [done|]. by destruct Hg. Qed.

Lemma leaf_represents K : represents K leaf_trie leaf_map.
Proof. exists leaf_tree. split; [|apply leaf_contents]. by repeat constructor. Qed.

Lemma leaf_collision_free : collision_free (blobs leaf_tree).
Proof. intros b b' (s & ->%leaf_part & ->) (s' & ->%leaf_part & ->). done. Qed.

Lemma leaf_agrees : agrees (blobs leaf_tree) (NewDatabase ∅).
Proof.
  intros b (s & ->%leaf_part & ->). fold (tree_hash leaf_tree). rewrite leaf_tree_hash.
  cbn [NewDatabase nodes diskdb]. rewrite lookup_singleton_ne by done. done.
Qed.

Lemma partial_database_answers_witness :
  let db := NewDatabase ∅ in
  let t := mkTrie (hashNode leaf_hash) leaf_hash 0 0 in
  represents (sound db) t leaf_map /\
  TryGet db 8 t [1] = Err (MissingNode leaf_hash []) /\
  ((exists t', TryGet db 8 t [1] = Ok (leaf_map !! [1], t') /\ represents (sound db) t' leaf_map) \/
   (exists e, TryGet db 8 t [1] = Err e /\ missing db (sound db) e)).
Proof.
  intros db t. assert (represents (sound db) t leaf_map) as Hr.
  { exists leaf_tree. split; [|apply leaf_contents]. cbn [root]. unfold t. rewrite <- leaf_tree_hash. constructor; [|by left].
    split; [apply leaf_tree_good|]. split; [apply (sized_in_memory _ _ leaf_contents leaf_sized)|].
    intros s ->%leaf_part. left. rewrite leaf_tree_hash. vm_compute. reflexivity. }
  split; [exact Hr|]. split; [vm_compute; reflexivity|].
  refine (proj1 (partial_database_answers db (sound db) 8 t leaf_map [1] [3] _ Hr _ _ _));
    [by apply (bool_decide_unpack _)|by apply (bool_decide_unpack _)|vm_compute; lia].
Defined.

Lemma sessions_refine_map_witness :
  let rs := [RUpdate [1] [2]; RHash; RCommit; RGet [1]; RDelete [1]; RHash; RGet [1]] in
  let s := (mkTrie Nil emptyHash 0 0, NewDatabase ∅) in
  exists l s', session 8 None rs s = Ok (l, s') /\ expected_all ∅ rs l /\
               l = [ADone; ARoot leaf_hash; ARoot leaf_hash; AValue (Some [2]); ADone; ARoot emptyRoot; AValue None].
Proof.
  intros rs s. destruct (sessions_refine_map (blobs leaf_tree) 8 None rs ∅ s) as (l & s' & E & Hl & _).
  - apply leaf_collision_free.
  - by intros f.
  - split; [|apply leaf_agrees]. exists TNil. split; [constructor|apply contents_empty].
  - cbn [proper_all rs proper next]. assert (map_update [1] [2] ∅ = leaf_map) as -> by done.
    assert (Forall is_u8 [1] /\ Forall is_u8 [2]) as [H1 H2] by by split; apply (bool_decide_unpack _).
    assert (key_fuel [1%Z] <= 8)%nat as Hf by (vm_compute; lia).
    assert (forall tr b, contents tr leaf_map -> blobs tr b -> blobs leaf_tree b) as Hb.
    { intros tr b Hc. by rewrite (contents_unique _ _ _ Hc leaf_contents). }
    split; [done|]. split; [apply leaf_sized|]. split; [split; [apply leaf_sized|exact Hb]|]. split; [done|]. split; [done|].
    split; [by intros k v|]. done.
  - exists l, s'. split; [exact E|]. split; [exact Hl|].
    assert (match session 8 None rs s with Ok r => r.1 | _ => [] end = [ADone; ARoot leaf_hash; ARoot leaf_hash;
      AValue (Some [2]); ADone; ARoot emptyRoot; AValue None]) as E2 by (vm_compute; reflexivity).
    rewrite E in E2. exact E2.
Defined.

Lemma root_hash_stands_for_map_witness :
  exists h n, TrieHasher.Hash leaf_trie = Ok (h, set_root n leaf_trie).
Proof.
  destruct (root_hash_stands_for_map (fun _ => False) (fun _ => False) leaf_trie leaf_trie leaf_map leaf_map)
    as (tr & tr' & n & n' & h & h' & E & _); [by intros ? []|by intros ? []| | | | |].
  - apply leaf_represents.
  - apply leaf_represents.
  - apply leaf_sized.
  - apply leaf_sized.
  - exists h, n. exact E.
Defined.

Lemma commit_then_open_witness :
  let db := NewDatabase ∅ in
  exists t' db' t2 t3, TrieHasher.Commit leaf_trie db None = Ok (leaf_hash, t', db') /\
    New db' leaf_hash = Ok t2 /\ TryGet db' 8 t2 [1] = Ok (Some [2], t3).
Proof.
  intros db. assert (root_hash leaf_tree = leaf_hash) as Eh by exact leaf_tree_hash.
  destruct (commit_then_open None leaf_trie db leaf_map leaf_tree 8) as (t' & db' & t2 & E & _ & _ & _ & E2 & _ & Hget).
  - by intros f.
  - apply leaf_represents.
  - apply leaf_sized.
  - apply leaf_contents.
  - split; [apply leaf_collision_free|apply leaf_agrees].
  - rewrite Eh. discriminate.
  - rewrite Eh. discriminate.
  - rewrite Eh in E, E2. destruct (Hget [1]) as [t3 E3]; [by apply (bool_decide_unpack _)|vm_compute; lia|].
    exists t', db', t2, t3. split; [exact E|]. split; [exact E2|]. rewrite E3. reflexivity.
Defined.
