(* ===== verification/TrieProof.v ===== *)
(** * Merkle proofs ([trie/proof.go])

    [Prove] collects the stored nodes on the way to a key and [VerifyProof] follows
    them from the root hash.  A verified proof is right unless the hash has a
    collision, and the proof of a trie is verified. *)

From S2P Require Import Rlp Sponge TrieKeys TrieNode TrieDatabase Trie TrieHasher TrieTree TrieHashing TrieMap TrieCommit.
From S2P Require Import TrieSpec Prelude.

#[local] Set Warnings "-register-all".

(** ** The code *)

Section Prove.
Context `{DiskDB}.

(** The loop that collects the nodes; a node that differs from the key is the last
    one. *)
Fixpoint collect (fuel : nat) (db : Database) (g : Z) (key : list Z) (tn : node) : res trie_error (list node) :=
  match fuel with
  | O => Err TrieFuel
  | S fuel =>
      match key, tn with
      | [], _ | _, Nil => Ok []
      | _, shortNode k v f =>
          if (Z.of_nat (length key) <? Z.of_nat (length k)) || negb (bool_decide (k = take (length k) key)) then Ok [tn]
          else let* l := collect fuel db g (drop (length k) key) v in Ok (tn :: l)
      | x :: key', fullNode nc f =>
          let* c := go_index nc x in
          let* l := collect fuel db g key' c in Ok (tn :: l)
      | _, hashNode h => let* rn := resolveHash db g h [] in collect fuel db g key rn
      | _, valueNode _ => Panic
      end
  end.

Definition proofHasher : hasher := mkHasher 0 0 None.

(** The loop that writes the nodes; [first] is [i == 0]. *)
Fixpoint proveLoop (first : bool) (fromLevel : Z) (l : list node) (proofDb : bmap) : eff bmap :=
  match l with
  | [] => Ok proofDb
  | n :: l =>
      let* (n, _, _) := hashChildren (hash proofHasher) n None in
      let* (hn, _) := store proofHasher n None false in
      let hash := match hn with hashNode hash => Some hash | _ => None end in
      if bool_decide (is_Some hash) || first then
        if fromLevel >? 0 then proveLoop false (fromLevel - 1) l proofDb
        else
          let enc := match encodeNode n with Ok enc => enc | _ => [] end in
          let* hash := match hash with
                       | Some hash => Ok hash
                       | None => match Keccak256 [enc] with Ok h => Ok h | _ => Panic end
                       end in
          proveLoop false fromLevel l (<[hash := enc]> proofDb)
      else proveLoop false fromLevel l proofDb
  end.

Definition Prove (fuel : nat) (db : Database) (t : Trie) (key : list Z) (fromLevel : Z) (proofDb : bmap)
    : res trie_error bmap :=
  let* l := collect fuel db (cachegen t) (keybytesToHex key) (root t) in
  lift_eff (proveLoop true fromLevel l proofDb).
End Prove.

(** [get]: the first hash, value or nil on the way. *)
Fixpoint get_ (tn : node) (key : list Z) : eff (list Z * node) :=
  match tn with
  | shortNode k v _ =>
      if (Z.of_nat (length key) <? Z.of_nat (length k)) || negb (bool_decide (k = take (length k) key)) then Ok ([], Nil)
      else get_ v (drop (length k) key)
  | fullNode l _ =>
      match key with
      | [] => Panic
      | x :: key => if x <? 0 then Panic else nth (Z.to_nat x) (map (fun c => get_ c key) l) Panic
      end
  | hashNode _ | Nil => Ok (key, tn)
  | valueNode _ => Ok ([], tn)
  end.

Inductive proof_error := ProofMissing (i : Z) (h : list Z) | BadProofNode (i : Z) (e : node_error) | ProofFuel.

(** [copy(wantHash[:], cld)] *)
Definition copyHash (want cld : list Z) : list Z := take (length want) cld ++ drop (length cld) want.

Fixpoint verifyLoop (fuel : nat) (i : Z) (wantHash key : list Z) (get : list Z -> option (list Z))
    : res proof_error (option (list Z) * Z) :=
  match fuel with
  | O => Err ProofFuel
  | S fuel =>
      match get wantHash with
      | None => Err (ProofMissing i wantHash)
      | Some buf =>
          let* n := res_wrap (BadProofNode i) (decodeNode (Some wantHash) buf 0) in
          let* (keyrest, cld) := lift_eff (get_ n key) in
          match cld with
          | Nil => Ok (None, i)
          | hashNode cld => verifyLoop fuel (i + 1) (copyHash wantHash cld) keyrest get
          | valueNode v => Ok (v, i + 1)
          | _ => verifyLoop fuel (i + 1) wantHash key get
          end
      end
  end.

Definition VerifyProof (fuel : nat) (rootHash key : list Z) (get : list Z -> option (list Z))
    : res proof_error (option (list Z) * Z) :=
  verifyLoop fuel 0 rootHash (keybytesToHex key) get.

(** ** Following a key *)

Lemma prefix_test (k key : list Z) :
  (Z.of_nat (length key) <? Z.of_nat (length k)) || negb (bool_decide (k = take (length k) key)) = false <->
  exists r, key = k ++ r.
Proof.
  rewrite orb_false_iff, negb_false_iff, bool_decide_eq_true, Z.ltb_ge. split.
  - intros [_ E]. exists (drop (length k) key). rewrite E at 1. by rewrite take_drop.
  - intros [r ->]. rewrite take_app_length, length_app. split; [lia|done].
Qed.

(** The short and full nodes on the way. *)
Fixpoint trail (t : tree) (key : list Z) : list tree :=
  match t with
  | TShort k t' =>
      t :: if (Z.of_nat (length key) <? Z.of_nat (length k)) || negb (bool_decide (k = take (length k) key)) then []
           else trail t' (drop (length k) key)
  | TFull l =>
      t :: match key with
           | [] => []
           | x :: key => nth (Z.to_nat x) (map (fun c => trail c key) l) []
           end
  | _ => []
  end.

Lemma nth_map {A B} (f : A -> B) l i x d : l !! i = Some x -> nth i (map f l) d = f x.
Proof. revert i. induction l as [|y l IH]; intros [|i] E; cbn in *; [done..|by injection E as ->|by apply IH]. Qed.

Lemma trail_short k t r : trail (TShort k t) (k ++ r) = TShort k t :: trail t r.
Proof. cbn [trail]. rewrite (proj2 (prefix_test k (k ++ r))) by by exists r. by rewrite drop_app_length. Qed.

Lemma trail_full l x r t : l !! Z.to_nat x = Some t -> trail (TFull l) (x :: r) = TFull l :: trail t r.
Proof. intros E. cbn [trail]. by rewrite (nth_map _ _ _ t). Qed.

Lemma trail_self t key : good false t -> t ∈ trail t key.
Proof. destruct t; [intros []|by intros [[=] _]|intros _; by apply elem_of_cons; left..]. Qed.

(** What [get] finds in a node that was decoded: nothing, the value, or the hash of
    a node that goes on with [d] or more nibbles less. *)
Definition leads (d : nat) (t : tree) (key : list Z) (r : eff (list Z * node)) : Prop :=
  (exists kr, r = Ok (kr, Nil) /\ tfind t key = None) \/
  (exists kr v, r = Ok (kr, valueNode (Some v)) /\ tfind t key = Some v) \/
  (exists s kr, r = Ok (kr, hashNode (tree_hash s)) /\ part t s /\ large s = true /\ good false s /\ in_memory s /\ hexkey kr /\
     tfind t key = tfind s kr /\ (length kr + d <= length key)%nat /\ trail s kr ⊆ trail t key).

(** A tree with a large part is large. *)
Lemma part_large b t s : good b t -> part t s -> good false s -> large s = true -> good false t /\ large t = true.
Proof.
  intros Hg Hp Hgs El. destruct Hp as [|k u s Hgu Elu _|l i u s Hi Hgu Elu _]; [done|..].
  - destruct (large (TShort k u)) eqn:E; [|by rewrite (small_short k u E Hgu) in Elu]. split; [|done].
    by destruct b; [apply good_true in Hg as (v & [=] & _)|].
  - destruct (large (TFull l)) eqn:E; [|by rewrite (small_full l i u E Hi Hgu) in Elu]. split; [|done].
    by destruct b; [apply good_true in Hg as (v & [=] & _)|].
Qed.

Lemma leads_ref b t key :
  (t = TNil \/ good b t) -> keyat b key -> in_memory t -> (large t = false -> leads 1 t key (get_ (stored_node None 0 t) key)) ->
  leads 0 t key (get_ (stored_ref 0 t) key).
Proof.
  intros Hg Hk Hm Hs. destruct Hg as [->|Hg]; [left; by exists key|]. destruct b.
  - apply good_true in Hg as (v & -> & _). right. left. exists [], v. cbn in Hk. by subst key.
  - assert (stored_ref 0 t = if large t then hashNode (tree_hash t) else stored_node None 0 t) as ->
      by by destruct t; [destruct Hg|destruct Hg as [[=] _]|..].
    destruct (large t) eqn:El.
    + right. right. exists t, key. split; [done|]. split; [constructor|]. repeat (split; [done|]). split; [lia|done].
    + destruct (Hs eq_refl) as [Hc|[Hc|(s & kr & E & Hps & Els & Hgs & Hms & Hkr & Efs & Hls & Hts)]];
        [by left|by right; left|]. right. right. exists s, kr. repeat (split; [done|]). split; [lia|done].
Qed.

(** What a child leads to, its parent leads to. *)
Lemma leads_up b t u key r c :
  (u = TNil \/ good b u) -> leads 0 u r c -> tfind t key = tfind u r -> (length r < length key)%nat -> trail u r ⊆ trail t key ->
  (forall s, good false u -> large u = true -> part u s -> part t s) -> leads 1 t key c.
Proof.
  intros Hg Hc Ef Hl Ht Hp. unfold leads. rewrite Ef.
  destruct Hc as [Hc|[Hc|(s & kr & E & Hps & El & Hgs & Hms & Hkr & Efs & Hls & Hts)]]; [by left|by right; left|].
  right. right. exists s, kr. split; [done|]. split.
  - destruct Hg as [->|Hg]; [inversion Hps; subst; destruct Hgs|]. destruct (part_large b u s Hg Hps Hgs El). by apply Hp.
  - repeat (split; [done|]). split; [lia|]. by etransitivity.
Qed.

Lemma leads_node b h t key :
  good b t -> keyat b key -> in_memory t -> leads 1 t key (get_ (stored_node h 0 t) key).
Proof.
  revert b h key. induction t as [|v|k t IH|l IH] using tree_ind'; intros b h key Hg Hk Hm.
  - destruct Hg.
  - destruct Hg as [-> _]. cbn in Hk. subst key. right. left. by exists [], v.
  - pose proof Hg as (-> & Hne & Hh & _ & Hgt). rewrite stored_node_short. cbn [get_].
    destruct (in_memory_short k t Hg Hm) as [_ Hmt]. pose proof (prefix_test k key) as Hp.
    destruct (_ || _) eqn:E in Hp |- *.
    + left. exists []. split; [done|]. apply tfind_short_None. intros r ->. by specialize (proj2 Hp (ex_intro _ r eq_refl)).
    + destruct (proj1 Hp eq_refl) as [r ->]. clear Hp E. rewrite drop_app_length. apply keyat_app in Hk; [|done].
      apply (leads_up (hasTerm k) _ t _ r); [by right| |apply tfind_short_app|rewrite length_app; destruct k; [done|cbn [length]; lia]| |eauto with parts].
      * apply (leads_ref (hasTerm k)); [by right|done|done|]. intros _. by apply (IH (hasTerm k)).
      * rewrite trail_short. set_solver.
  - pose proof Hg as (-> & Hl & _ & Hs)%good_full. cbn in Hk. destruct key as [|x r]; [by apply hexkey_nil in Hk|].
    destruct (keyat_cons x r Hk) as [Hx Hkr]. destruct (lookup_lt_is_Some_2 l (Z.to_nat x)) as [t Ht]; [lia|].
    assert (t = TNil \/ good (x =? 16) t) as Hgt by (specialize (Hs _ _ Ht); by rewrite Z2Nat.id in Hs by lia).
    rewrite stored_node_full. cbn [get_]. rewrite (proj2 (Z.ltb_ge _ _)) by lia.
    rewrite (nth_map _ _ _ (stored_ref 0 t)) by (by rewrite list_lookup_fmap, Ht). rewrite Forall_lookup in IH.
    apply (leads_up (x =? 16) _ t _ r); [done| |apply tfind_full_key; [lia|done]|cbn [length]; lia| |eauto with parts].
    + apply (leads_ref (x =? 16)); [done|done|by eapply in_memory_full|]. intros _. destruct Hgt as [->|Hgt].
      * left. by exists r.
      * apply (IH _ _ Ht (x =? 16)); [done|done|by eapply in_memory_full].
    + rewrite (trail_full l x r t) by done. set_solver.
Qed.


(** ** Verifying *)

Lemma copyHash_hash s t : copyHash (tree_hash s) (tree_hash t) = tree_hash t.
Proof.
  unfold copyHash. assert (forall t, length (tree_hash t) = 32%nat) as Hl by (intros; apply length_keccak256).
  rewrite take_ge, drop_ge, app_nil_r by (rewrite !Hl; lia). done.
Qed.

(** A step of the loop, at a node that is there. *)
Lemma verify_step fuel i t key get :
  good false t -> in_memory t -> hexkey key -> get (tree_hash t) = Some (tree_enc t) ->
  (exists n, verifyLoop (S fuel) i (tree_hash t) key get = Ok (tfind t key, n)) \/
  (exists s kr, verifyLoop (S fuel) i (tree_hash t) key get = verifyLoop fuel (i + 1) (tree_hash s) kr get /\
     part t s /\ large s = true /\ good false s /\ in_memory s /\ hexkey kr /\ tfind t key = tfind s kr /\
     (length kr < length key)%nat /\ trail s kr ⊆ trail t key).
Proof.
  intros Hg Hm Hk E. cbn [verifyLoop]. rewrite E, decodeNode_tree by auto using tree_enc_fits. cbn [res_wrap res_bind].
  destruct (leads_node false (Some (tree_hash t)) t key Hg Hk Hm) as [(kr & -> & Ef)|[(kr & v & -> & Ef)|Hs]].
  - left. exists i. cbn [lift_eff res_bind]. by rewrite Ef.
  - left. exists (i + 1). cbn [lift_eff res_bind]. by rewrite Ef.
  - destruct Hs as (s & kr & -> & Hp & El & Hgs & Hms & Hkr & Ef & Hl & Ht). right. exists s, kr.
    cbn [lift_eff res_bind]. rewrite copyHash_hash. split; [done|]. repeat (split; [done|]). split; [lia|done].
Qed.

Lemma part_trans t s u : part t s -> part s u -> part t u.
Proof. induction 1; eauto with parts. Qed.

(** Bytes are filed under their hash. *)
Definition addressed (get : list Z -> option (list Z)) : Prop := forall h b, get h = Some b -> keccak256 b = h.

(** The bytes of a proof that are not the node they have the hash of. *)
Definition forged (t : tree) (get : list Z -> option (list Z)) : Prop :=
  exists s b, part t s /\ get (tree_hash s) = Some b /\ b <> tree_enc s /\ keccak256 b = tree_hash s.

Lemma verify_sound fuel i t key get :
  good false t -> in_memory t -> hexkey key -> addressed get -> (length key < fuel)%nat ->
  (exists n, verifyLoop fuel i (tree_hash t) key get = Ok (tfind t key, n)) \/
  (exists j s, verifyLoop fuel i (tree_hash t) key get = Err (ProofMissing j (tree_hash s)) /\ part t s /\ get (tree_hash s) = None) \/
  forged t get.
Proof.
  revert i t key. induction fuel as [|fuel IH]; intros i t key Hg Hm Hk Ha Hf; [lia|].
  destruct (get (tree_hash t)) as [b|] eqn:E.
  2: { right. left. exists i, t. cbn [verifyLoop]. rewrite E. split; [done|]. split; [constructor|done]. }
  destruct (decide (b = tree_enc t)) as [->|Hb].
  2: { right. right. exists t, b. split; [constructor|]. split; [done|]. split; [done|]. by apply Ha. }
  destruct (verify_step fuel i t key get Hg Hm Hk E) as [Hv|(s & kr & -> & Hp & _ & Hgs & Hms & Hkr & Ef & Hl & _)]; [by left|].
  rewrite Ef. destruct (IH (i + 1) s kr Hgs Hms Hkr Ha ltac:(lia)) as [Hv|[(j & u & Ej & Hu & Hn)|(u & b & Hu & Hb)]].
  - by left.
  - right. left. exists j, u. split; [done|]. split; [by eapply part_trans|done].
  - right. right. exists u, b. split; [by eapply part_trans|done].
Qed.

Lemma verify_complete fuel i t key get :
  good false t -> in_memory t -> hexkey key -> (length key < fuel)%nat ->
  get (tree_hash t) = Some (tree_enc t) ->
  (forall s, s ∈ trail t key -> large s = true -> get (tree_hash s) = Some (tree_enc s)) ->
  exists n, verifyLoop fuel i (tree_hash t) key get = Ok (tfind t key, n).
Proof.
  revert i t key. induction fuel as [|fuel IH]; intros i t key Hg Hm Hk Hf E Hs; [lia|].
  destruct (verify_step fuel i t key get Hg Hm Hk E) as [Hv|(s & kr & -> & _ & El & Hgs & Hms & Hkr & Ef & Hl & Ht)]; [done|].
  rewrite Ef. apply IH; [done..|lia| |].
  - apply Hs; [|done]. apply Ht. by apply trail_self.
  - intros u Hu. apply Hs. by apply Ht.
Qed.

(** ** Proving *)

Section Proving.
Context `{DiskDB} (db : Database) (K : tree -> Prop) `{!Unloaded db K}.

Definition on_trail (n : node) (s : tree) : Prop := is_branch n = true /\ good false s /\ in_memory s /\ exists f, rep K f n s.

Lemma collect_rep fuel g f b n t key :
  rep K f n t -> t = TNil \/ good b t -> in_memory t -> keyat b key -> (enough n key <= fuel)%nat ->
  (exists l, collect fuel db g key n = Ok l /\ Forall2 on_trail l (trail t key)) \/
  (exists e, collect fuel db g key n = Err e /\ missing db K e).
Proof.
  revert f b n t key. induction fuel as [|fuel IH]; intros f b n t key Hr Hg Hm Hk He.
  { unfold enough in He. destruct (is_hash n); lia. }
  pose proof Hr as Hr'. destruct Hr as [f|f v|f t HK Hf|f k n t fl Hn Hfl|f ns l fl Hns Hfl].
  - left. exists []. cbn [collect]. by destruct key.
  - left. destruct Hg as [|[-> _]]; [done|]. cbn in Hk. subst key. by exists [].
  - destruct b.
    { destruct (K_good t HK) as [Hgf _]. destruct Hg as [->|Hg]; [destruct Hgf|]. apply good_true in Hg as (v & -> & _).
      by destruct Hgf. }
    destruct key as [|x key]; [by apply hexkey_nil in Hk|]. cbn [collect].
    destruct (resolveHash_rep db K f g t [] HK Hf) as [(n & -> & Hn & Hh)|(e & -> & Hmi)]; [|right; by exists e].
    cbn [res_bind]. apply (IH f false); [done..|]. unfold enough in *. rewrite Hh. cbn [is_hash] in He. lia.
  - destruct Hg as [|Hg]; [done|]. pose proof Hg as (-> & Hne & Hh & _ & Hgt). destruct (in_memory_short k t Hg Hm) as [_ Hmt].
    assert (on_trail (shortNode k n fl) (TShort k t)) as Ho by (split; [done|]; split; [done|]; split; [done|]; by exists f).
    destruct key as [|x key]; [by apply hexkey_nil in Hk|]. cbn [collect]. pose proof (prefix_test k (x :: key)) as Hp.
    cbn [trail]. destruct (_ || _) eqn:E in Hp |- *.
    + left. eexists. split; [done|]. constructor; [exact Ho|constructor].
    + destruct (proj1 Hp eq_refl) as [r Er]. rewrite Er in *. rewrite drop_app_length. apply keyat_app in Hk; [|done].
      destruct (IH false (hasTerm k) n t r Hn (or_intror Hgt) Hmt Hk) as [(l & -> & Hl)|(e & -> & Hmi)].
      * by apply (enough_child (shortNode k n fl) n k).
      * left. cbn [res_bind]. eexists. split; [done|]. by constructor.
      * right. by exists e.
  - destruct Hg as [|Hg]; [done|]. pose proof Hg as (-> & _)%good_full. cbn in Hk.
    assert (on_trail (fullNode ns fl) (TFull l)) as Ho by (split; [done|]; split; [done|]; split; [done|]; by exists f).
    destruct key as [|x r]; [by apply hexkey_nil in Hk|]. cbn [collect].
    destruct (full_child K false ns l x r Hns Hg Hk) as (c & t & -> & Hc & Hci & Hti & Hgt & Hkr & Hx16). cbn [res_bind].
    rewrite (trail_full l x r t) by done.
    destruct (IH false (x =? 16) c t r Hc Hgt) as [(ls & -> & Hl)|(e & -> & Hmi)]; [by eapply in_memory_full|done| | |].
    * by apply (enough_child (fullNode ns fl) c [x]).
    * left. cbn [res_bind]. eexists. split; [done|]. by constructor.
    * right. by exists e.
Qed.
End Proving.

(** The proof that is written. *)
Fixpoint proof_of (first : bool) (fromLevel : Z) (ts : list tree) (p : bmap) : bmap :=
  match ts with
  | [] => p
  | s :: ts =>
      if large s || first then
        if fromLevel >? 0 then proof_of false (fromLevel - 1) ts p
        else proof_of false fromLevel ts (<[tree_hash s := tree_enc s]> p)
      else proof_of false fromLevel ts p
  end.

Section Writing.
Context `{DiskDB} (K : tree -> Prop) (HK : forall t, K t -> good false t /\ in_memory t).

(** A node on the way is collapsed to what is stored. *)
Lemma collapse_rep n s :
  on_trail K n s -> exists c cached, hashChildren (hash proofHasher) n None = Ok (c, cached, None) /\
    encodeNode c = Ok (tree_enc s) /\
    store proofHasher c None false = Ok (if large s then hashNode (tree_hash s) else c, None) /\ is_branch c = true.
Proof.
  intros (Hb & Hg & Hm & f & Hr).
  assert (exists fl, children_hashed (fun _ => False) (fun _ => True) K None s fl (hashChildren (hash proofHasher) n None) /\
            (fhash fl = None \/ fhash fl = Some (tree_hash s))) as (fl & (c & cached & o & E & Hs & Hbc & He & Ei & Ec & Hsv & Href & _) & Hfl).
  { assert (forall n o force t, rep (Kof K o) force n t -> good false t -> in_memory t -> ready (fun _ => False) (fun _ => True) o ->
        (force || large t = true -> allowed (fun _ => False) o t) -> hashes (fun _ => False) (fun _ => True) K o force t (hash proofHasher n o force)) as Hh.
    { apply hash_spec; [by intros ? ? []|done|by intros ?|apply store_keeps_true]. }
    inversion Hr as [| | |? k v t fl Hv Hfl|? ns l fl Hns Hfl]; subst; try done; exists fl; (split; [|unfold flag_ok in Hfl;
      destruct (fhash fl); [right; by destruct Hfl as [-> _]|by left]]).
    - apply short_children; try done. intros t' Hr' Hg' Hm' Hro Ha. by apply Hh.
    - apply full_children; try done. apply Forall_forall. intros c _ o t' Hr' Hg' Hm' Hro Ha. by apply Hh. }
  destruct o; [done|]. exists c, cached. split; [done|].
  assert (enc (node_item c) = tree_enc s) as Ee by by rewrite Ei. split.
  { rewrite encodeNode_item; rewrite ?Ee; [done|done|by apply tree_enc_fits]. }
  split; [|done]. destruct (store_spec (fun _ => False) (fun _ => True) proofHasher) with c s (@None Database) false as (o & -> & Ho & _);
    [by intros ? ? []|by intros ?|apply store_keeps_true|done..|by rewrite Ec|done|done|done|done|]. by destruct o.
Qed.

Lemma proveLoop_spec first lvl ns ts p :
  Forall2 (on_trail K) ns ts -> proveLoop first lvl ns p = Ok (proof_of first lvl ts p).
Proof.
  intros Hr. revert first lvl p. induction Hr as [|n s ns ts Hn Hr IH]; intros first lvl p; [done|]. cbn [proveLoop proof_of].
  destruct (collapse_rep n s Hn) as (c & cached & -> & Ee & Es & Hb). cbn [res_bind]. rewrite Es. cbn [res_bind].
  rewrite Ee.
  destruct Hn as (_ & Hg & Hm & _). assert (Forall is_u8 (tree_enc s)) as Hu.
  { apply tree_enc_u8; [right; by exists false|by apply tree_enc_fits]. }
  destruct (large s) eqn:El; cbn [orb].
  - rewrite bool_decide_eq_true_2 by done. cbn [orb]. destruct (lvl >? 0); [apply IH|]. cbn [res_bind]. apply IH.
  - rewrite bool_decide_eq_false_2 by (destruct c; try done; by intros []). cbn [orb]. destruct first; [|apply IH].
    destruct (lvl >? 0); [apply IH|].
    assert (match c with hashNode hash => Some hash | _ => None end = None) as -> by by destruct c.
    rewrite Keccak256_hash by (constructor; [done|constructor]). cbn [concat]. rewrite app_nil_r. cbn [res_bind]. apply IH.
Qed.
End Writing.

Lemma trail_part b t key s : good b t -> s ∈ trail t key -> good false s /\ (large s = true -> part t s).
Proof.
  revert b key. induction t as [|v|k t IH|l IH] using tree_ind'; intros b key Hg Hs; [by apply elem_of_nil in Hs..| |].
  - pose proof Hg as (-> & _ & _ & _ & Hgt). apply elem_of_cons in Hs as [->|Hs]; [split; [done|constructor]|].
    destruct (_ || _); [by apply elem_of_nil in Hs|]. destruct (IH _ _ Hgt Hs) as [Hgs Hp]. split; [done|]. intros El.
    destruct (part_large _ t s Hgt (Hp El) Hgs El). eauto with parts.
  - pose proof Hg as (-> & Hl & _ & Hsl)%good_full. apply elem_of_cons in Hs as [->|Hs]; [split; [done|constructor]|].
    destruct key as [|x key]; [by apply elem_of_nil in Hs|]. destruct (l !! Z.to_nat x) as [t|] eqn:Ht.
    + rewrite (nth_map _ _ _ t) in Hs by done. rewrite Forall_lookup in IH.
      destruct (Hsl _ _ Ht) as [->|Hgt]; [by apply elem_of_nil in Hs|].
      destruct (IH _ _ Ht _ _ Hgt Hs) as [Hgs Hp]. split; [done|]. intros El.
      destruct (part_large _ t s Hgt (Hp El) Hgs El). eauto with parts.
    + rewrite nth_overflow in Hs; [by apply elem_of_nil in Hs|]. rewrite length_map. by apply lookup_ge_None.
Qed.

(** Nothing else is filed under the hashes of the blobs. *)
Definition files (B : list Z -> Prop) (p : bmap) : Prop := forall b c, B b -> p !! keccak256 b = Some c -> c = b.

Lemma proof_of_files B first ts p :
  collision_free B -> files B p -> (forall s, s ∈ ts -> large s = true -> B (tree_enc s)) ->
  (forall s, first = true -> head ts = Some s -> B (tree_enc s)) ->
  files B (proof_of first 0 ts p) /\
  (forall b, B b -> is_Some (p !! keccak256 b) -> is_Some (proof_of first 0 ts p !! keccak256 b)) /\
  (forall s, s ∈ ts -> large s = true \/ (first = true /\ head ts = Some s) ->
     proof_of first 0 ts p !! tree_hash s = Some (tree_enc s)).
Proof.
  intros HB. revert first p. induction ts as [|s ts IH]; intros first p Hp Hl Hf.
  { split; [done|]. split; [done|]. by intros s ?%elem_of_nil. }
  assert (forall u, u ∈ ts -> large u = true -> B (tree_enc u)) as Hl' by (intros u Hu; apply Hl; set_solver).
  cbn [proof_of]. change (0 >? 0) with false. cbn iota. destruct (large s || first) eqn:E.
  - assert (B (tree_enc s)) as HBs by (apply orb_true_iff in E as [E| ->]; [apply Hl; [set_solver|done]|by apply Hf]).
    destruct (IH false (<[tree_hash s := tree_enc s]> p)) as (H1 & H2 & H3); [|done|done|].
    { intros b c Hb [[Ek <-]|[_ Ek]]%lookup_insert_Some; [by apply HB|by apply Hp]. }
    assert (proof_of false 0 ts (<[tree_hash s := tree_enc s]> p) !! tree_hash s = Some (tree_enc s)) as Hself.
    { destruct (H2 (tree_enc s) HBs) as [c Ec]; [by rewrite lookup_insert_eq|]. pose proof (H1 _ c HBs Ec) as ->. exact Ec. }
    split; [done|]. split.
    + intros b Hb Hi. apply H2; [done|]. destruct (decide (keccak256 b = tree_hash s)) as [->|];
        [by rewrite lookup_insert_eq|by rewrite lookup_insert_ne].
    + intros u [->|Hu]%elem_of_cons Hc; [done|]. destruct Hc as [Hc|[-> [= <-]]]; [by apply H3; [|left]|done].
  - apply orb_false_iff in E as [El ->]. destruct (IH false p Hp Hl') as (H1 & H2 & H3); [done|].
    split; [done|]. split; [done|]. intros u [->|Hu]%elem_of_cons [Hc|[[=] _]]; [congruence|]. by apply H3; [|left].
Qed.

(** C8: A proof whose nodes are filed under their hashes cannot be wrong: verified
    against the root hash of a trie that is not empty, it gives the value of the
    key (or that there is none), or a node that is asked for is not in it, or it
    has a forged node, which is another preimage of the hash of a node. *)
Theorem verified_proofs_are_right fuel tr m k get :
  contents tr m -> m <> ∅ -> sized m -> Forall is_u8 k -> addressed get -> (2 * length k + 2 <= fuel)%nat ->
  (exists n, VerifyProof fuel (root_hash tr) k get = Ok (m !! k, n)) \/
  (exists i s, VerifyProof fuel (root_hash tr) k get = Err (ProofMissing i (tree_hash s)) /\
               part tr s /\ get (tree_hash s) = None) \/
  forged tr get.
Proof.
  intros Hc Hne Hs Hk Ha Hf. pose proof (sized_in_memory _ _ Hc Hs) as Hm. unfold VerifyProof.
  rewrite <- (contents_lookup tr m k Hc), root_hash_tree. pose proof (contents_good tr m Hc Hne) as Hg.
  apply verify_sound; [done|done|by apply keybytesToHex_hexkey|done|]. rewrite length_keybytesToHex. lia.
Qed.

(** The proof for a key of a trie that is not empty. *)
Lemma prove_verify `{DiskDB} db fuel t tr m k p :
  rep (stored db) true (root t) tr -> contents tr m -> m <> ∅ -> sized m -> Forall is_u8 k -> (key_fuel k <= fuel)%nat ->
  collision_free (blobs tr) -> files (blobs tr) p ->
  exists p' n, Prove fuel db t k 0 p = Ok p' /\ VerifyProof fuel (root_hash tr) k (p' !!.) = Ok (m !! k, n).
Proof.
  intros Hr Hc Hne Hs Hk Hf Hcf Hp.
  pose proof (sized_in_memory _ _ Hc Hs) as Hm. pose proof (keybytesToHex_hexkey k Hk) as Hh.
  pose proof (contents_good tr m Hc Hne) as Hg.
  unfold Prove. pose proof (enough_key (root t) k) as He.
  destruct (collect_rep db (stored db) fuel (cachegen t) true false (root t) tr (keybytesToHex k) Hr (or_intror Hg) Hm Hh ltac:(lia))
    as [(l & -> & Hl)|(e & _ & []%stored_not_missing)]. cbn [res_bind].
  rewrite (proveLoop_spec (stored db)) with (ts := trail tr (keybytesToHex k)) by (done || by intros u (? & ? & _)).
  cbn [lift_eff].
  destruct (proof_of_files (blobs tr) true (trail tr (keybytesToHex k)) p Hcf Hp) as (_ & _ & Hfind).
  { intros s Hin El. exists s. split; [|done]. by apply (trail_part false tr (keybytesToHex k)). }
  { intros s _ E. exists tr. split; [constructor|]. by destruct tr; [destruct Hg|destruct Hg as [[=] _]|injection E as <-..]. }
  exists (proof_of true 0 (trail tr (keybytesToHex k)) p). unfold VerifyProof. rewrite root_hash_tree, <- (contents_lookup tr m k Hc).
  destruct (verify_complete fuel 0 tr (keybytesToHex k) (proof_of true 0 (trail tr (keybytesToHex k)) p !!.) Hg Hm Hh) as [n E].
  - rewrite length_keybytesToHex. unfold key_fuel in Hf. lia.
  - apply Hfind; [by apply trail_self|]. right. split; [done|]. by destruct tr; [destruct Hg|destruct Hg as [[=] _]|..].
  - intros s Hin El. apply Hfind; [done|by left].
  - by exists n.
Qed.

(** Nothing is verified against the root hash of an empty trie, or the proof is
    forged: the bytes [80] are no node. *)
Lemma verify_empty fuel k get v n : addressed get -> VerifyProof fuel (root_hash TNil) k get = Ok (v, n) -> forged TNil get.
Proof.
  intros Ha. unfold VerifyProof. rewrite root_hash_tree. destruct fuel as [|fuel]; [done|]. cbn [verifyLoop].
  destruct (get (tree_hash TNil)) as [b|] eqn:Eb; [|done]. destruct (decide (b = tree_enc TNil)) as [->|Hb].
  - intros E. exfalso. revert E. generalize (tree_hash TNil). intros h. by vm_compute.
  - intros _. exists TNil, b. split; [constructor|]. split; [done|]. split; [done|]. by apply Ha.
Qed.

(** C19: The proof [Prove] writes for a key of a trie that is not empty, present or
    absent, is accepted by [VerifyProof] against the root hash and gives the value
    of the key.  The proof may be added to others.  For an empty trie nothing is
    written, and [VerifyProof] reports that the root is missing. *)
Theorem proofs_are_verified `{DiskDB} db fuel t tr m k p :
  represents (stored db) t m -> contents tr m -> sized m -> Forall is_u8 k -> (key_fuel k <= fuel)%nat ->
  collision_free (blobs tr) -> files (blobs tr) p ->
  exists p', Prove fuel db t k 0 p = Ok p' /\
    (m <> ∅ -> exists n, VerifyProof fuel (root_hash tr) k (p' !!.) = Ok (m !! k, n)) /\
    (m = ∅ -> p' = p /\ (p !! emptyRoot = None -> VerifyProof fuel (root_hash tr) k (p' !!.) = Err (ProofMissing 0 emptyRoot))).
Proof.
  intros (tr' & Hr & Hc') Hc Hs Hk Hf Hcf Hp. rewrite (contents_unique tr' tr m Hc' Hc) in Hr. clear tr' Hc'.
  destruct (decide (m = ∅)) as [->|Hne].
  - rewrite (contents_unique tr TNil ∅ Hc contents_empty) in *. exists p.
    assert (exists fuel', fuel = S fuel') as [fuel' ->] by (exists (pred fuel); unfold key_fuel in Hf; lia).
    split; [|split; [done|]].
    + unfold Prove. inversion Hr; subst; [cbn [collect]; by destruct (keybytesToHex k)|].
      by match goal with HK : stored _ TNil |- _ => destruct HK as [[] _] end.
    + intros _. split; [done|]. intros Eg. unfold VerifyProof. cbn [root_hash verifyLoop]. by rewrite Eg.
  - destruct (prove_verify db fuel t tr m k p) as (p' & n & E & Ev); [done..|]. exists p'. split; [done|]. split; [by exists n|done].
Qed.

(** ** Examples *)

Lemma leaf_map_ne : leaf_map <> ∅.
Proof. intros E. pose proof (f_equal (.!! [1]) E) as E'. by cbn in E'. Qed.

Lemma verified_proofs_are_right_witness :
  let get h := if decide (h = leaf_hash) then Some (tree_enc leaf_tree) else None in
  addressed get /\
  ((exists n, VerifyProof 4 (root_hash leaf_tree) [1] get = Ok (leaf_map !! [1], n)) \/
   (exists i s, VerifyProof 4 (root_hash leaf_tree) [1] get = Err (ProofMissing i (tree_hash s)) /\
                part leaf_tree s /\ get (tree_hash s) = None) \/
   forged leaf_tree get).
Proof.
  intros get. assert (addressed get) as Ha.
  { intros h b E. unfold get in E. destruct (decide (h = leaf_hash)) as [->|]; [|discriminate]. injection E as <-. exact leaf_tree_hash. }
  split; [exact Ha|].
  apply verified_proofs_are_right; [apply leaf_contents|apply leaf_map_ne|apply leaf_sized|by apply (bool_decide_unpack _)|exact Ha|cbn [length]; lia].
Defined.

Lemma proofs_are_verified_witness :
  exists p' n, Prove 8 (NewDatabase ∅) leaf_trie [1] 0 ∅ = Ok p' /\ VerifyProof 8 (root_hash leaf_tree) [1] (p' !!.) = Ok (Some [2], n).
Proof.
  destruct (proofs_are_verified (NewDatabase ∅) 8 leaf_trie leaf_tree leaf_map [1] ∅) as (p' & E & Ev & _);
    [apply leaf_represents|apply leaf_contents|apply leaf_sized|by apply (bool_decide_unpack _)|vm_compute; lia
    |apply leaf_collision_free|by intros b c|].
  destruct (Ev leaf_map_ne) as [n En]. exists p', n. split; [exact E|exact En].
Defined.
