(* ===== verification/DeriveSha.v ===== *)
(** * Roots of lists ([core/types/derive_sha.go])

    The transactions and the receipts of a block are summed up by the root of a trie
    that has them under their encoded positions.  The root stands for the list, and
    an entry can be proved against it. *)

From S2P Require Import Rlp RlpCodec RlpEncoding Sponge TrieKeys TrieNode TrieDatabase Trie TrieHasher TrieTree TrieHashing.
From S2P Require Import TrieMap TrieCommit TrieSpec TrieProof Prelude.

#[local] Set Warnings "-register-all".

(** ** The code *)

Section Derive.
Context `{DiskDB} (db : Database).

(** The trie has no database; [db] is never asked, as the trie is in memory.  The
    fuel is enough for keys of up to 17 bytes. *)
Definition derive_fuel : nat := 72.

Fixpoint deriveLoop (key : Z -> list Z) (i : Z) (l : list (list Z)) (t : Trie) : eff Trie :=
  match l with
  | [] => Ok t
  | v :: l => let* t := Update db derive_fuel t (key i) v in deriveLoop key (i + 1) l t
  end.

Definition newTrie : Trie := mkTrie Nil emptyHash 0 0.

(** [rlp.Encode(keybuf, uint(i))]; an error is dropped. *)
Definition indexKey (i : Z) : list Z :=
  match EncodeToBytes (TUint 64) (VUint (u64 i)) with
  | Ok b => b
  | _ => []
  end.

(** The hash is computed for the log first. *)
Definition DeriveSha (l : list (list Z)) : eff (list Z) :=
  let* t := deriveLoop indexKey 0 l newTrie in
  let* (_, t) := TrieHasher.Hash t in
  let* (h, _) := TrieHasher.Hash t in
  Ok h.

Definition DeriveShaHash (l : list (list Z)) : eff (list Z) :=
  if Z.of_nat (length l) =? 0 then Ok emptyRoot
  else
    let* t := deriveLoop (fun i => EncodeUint (u64 i)) 0 l newTrie in
    let* (h, _) := TrieHasher.Hash t in
    Ok h.
End Derive.

(** ** Keys *)

Lemma indexKey_uint i : indexKey i = EncodeUint (u64 i).
Proof.
  pose proof (u64_range i) as Hi. unfold indexKey. rewrite (EncodeToBytes_ok _ _ (EncodeUint (u64 i))); [done| | |].
  - split; [exact Hi|lia].
  - unfold encoding. cbn [items res_bind map concat]. by rewrite EncodeUint_enc, app_nil_r.
  - rewrite EncodeUint_enc by done. unfold uint_item. cbn [enc].
    assert (fits (if u64 i =? 0 then [] else putint (u64 i))) as Hf.
    { unfold fits. pose proof (putint_length _ Hi). case_match; cbn [length]; lia. }
    pose proof (length_str_enc_le _ Hf). pose proof (putint_length _ Hi). unfold fits. case_match; cbn [length] in *; lia.
Qed.

Definition uint_bytes (i : Z) : list Z := if i =? 0 then [] else putint i.

Lemma uint_bytes_ok i : is_u64 i -> Forall is_u8 (uint_bytes i) /\ (length (uint_bytes i) <= 8)%nat.
Proof.
  intros Hi. unfold uint_bytes. pose proof (putint_length i Hi). pose proof (putint_u8 i Hi).
  case_match; [split; [constructor|cbn; lia]|split; [done|lia]].
Qed.

Lemma key_ok i : is_u64 i -> Forall is_u8 (EncodeUint i) /\ (length (EncodeUint i) <= 17)%nat.
Proof.
  intros Hi. destruct (uint_bytes_ok i Hi) as [Hu Hl]. assert (fits (uint_bytes i)) as Hf by (unfold fits; lia).
  rewrite EncodeUint_enc by done. unfold uint_item. cbn [enc]. fold (uint_bytes i). split; [by apply str_enc_u8|].
  pose proof (length_str_enc_le _ Hf). lia.
Qed.

Lemma key_inj i j : is_u64 i -> is_u64 j -> EncodeUint i = EncodeUint j -> i = j.
Proof.
  intros Hi Hj E. destruct (key_ok i Hi) as [Hu Hl], (uint_bytes_ok i Hi) as [Hub _], (uint_bytes_ok j Hj) as [Hub' _].
  assert (forall i, is_u64 i -> SplitString (EncodeUint i) = Ok (uint_bytes i, [])) as Hsp.
  { intros x Hx. destruct (key_ok x Hx) as [Hux Hlx]. rewrite EncodeUint_enc in * by done.
    rewrite <- (app_nil_r (enc (uint_item x))). apply SplitString_str; rewrite app_nil_r; [done|].
    change (fits (enc (uint_item x))). unfold fits. lia. }
  pose proof (Hsp i Hi) as Ei. rewrite E, (Hsp j Hj) in Ei. injection Ei as Ei. unfold uint_bytes in Ei.
  pose proof (putint_length i Hi). pose proof (putint_length j Hj).
  destruct (Z.eqb_spec i 0), (Z.eqb_spec j 0); subst; [done|destruct (putint j); [cbn in *; lia|done]|destruct (putint i); [cbn in *; lia|done]|].
  by rewrite <- (be_value_putint i), <- Ei, be_value_putint.
Qed.

(** ** The trie of a list *)

(** The entries from a position on, by their keys. *)
Fixpoint list_map (i : Z) (l : list (list Z)) (m : bmap) : bmap :=
  match l with
  | [] => m
  | v :: l => list_map (i + 1) l (<[EncodeUint (u64 i) := v]> m)
  end.

Lemma list_map_lookup_ne i l m j :
  0 <= i -> i + Z.of_nat (length l) <= 2 ^ 64 -> is_u64 j -> j < i \/ i + Z.of_nat (length l) <= j ->
  list_map i l m !! EncodeUint j = m !! EncodeUint j.
Proof.
  revert i m. induction l as [|v l IH]; intros i m Hi Hl Hj Hij; [done|]. cbn [list_map length] in *.
  rewrite IH by (done || lia). rewrite lookup_insert_ne; [done|]. unfold is_u64 in Hj. rewrite u64_small by (unfold is_u64; lia).
  intros E%key_inj; [lia|unfold is_u64; lia|done].
Qed.

Lemma list_map_lookup i l m j :
  0 <= i -> i + Z.of_nat (length l) <= 2 ^ 64 -> (j < length l)%nat ->
  list_map i l m !! EncodeUint (i + Z.of_nat j) = l !! j.
Proof.
  revert i m j. induction l as [|v l IH]; intros i m j Hi Hl Hj; [cbn in Hj; lia|]. cbn [list_map length] in *.
  destruct j as [|j].
  - rewrite Z.add_0_r, list_map_lookup_ne by (unfold is_u64; lia). rewrite u64_small by (unfold is_u64; lia). by rewrite lookup_insert_eq.
  - replace (i + Z.of_nat (S j)) with (i + 1 + Z.of_nat j) by lia. rewrite IH by lia. done.
Qed.

(** A list that can be summed up. *)
Definition summable (l : list (list Z)) : Prop :=
  Forall (fun v => storable v /\ Z.of_nat (length v) < 2 ^ 48) l /\ Z.of_nat (length l) < 2 ^ 63.

Lemma index_lookup l j :
  summable l -> is_u64 j -> list_map 0 l ∅ !! EncodeUint j = l !! Z.to_nat j.
Proof.
  intros [_ Hl] Hj. unfold is_u64 in Hj. destruct (Z.lt_ge_cases j (Z.of_nat (length l))) as [Hlt|Hge].
  - rewrite <- (list_map_lookup 0 l ∅ (Z.to_nat j)) by lia. by rewrite Z.add_0_l, Z2Nat.id by lia.
  - rewrite list_map_lookup_ne by (unfold is_u64; lia). rewrite lookup_empty. symmetry. apply lookup_ge_None. lia.
Qed.

Lemma list_map_sized i l m :
  Forall (fun v => storable v /\ Z.of_nat (length v) < 2 ^ 48) l -> sized m -> sized (list_map i l m).
Proof.
  intros Hl. revert i m. induction Hl as [|v l [_ Hv] _ IH]; intros i m Hm; [done|]. apply IH.
  intros k w [[<- <-]|[_ E]]%lookup_insert_Some; [|by apply Hm]. split; [|done].
  destruct (key_ok (u64 i)) as [_ Hk]; [apply u64_range|]. lia.
Qed.

Section Lists.
Context `{DiskDB} (db : Database).

Definition never (t : tree) : Prop := False.

#[export] Instance never_unloaded : Unloaded db never.
Proof. split; by intros. Qed.

Lemma deriveLoop_spec i l t m :
  Forall (fun v => storable v /\ Z.of_nat (length v) < 2 ^ 48) l -> represents never t m ->
  exists t', deriveLoop db indexKey i l t = Ok t' /\ represents never t' (list_map i l m).
Proof.
  intros Hl. revert i t m. induction Hl as [|v l [[Hv Hu] _] _ IH]; intros i t m Hr; [by exists t|]. cbn [deriveLoop list_map].
  rewrite indexKey_uint. destruct (key_ok (u64 i)) as [Hk Hkl]; [apply u64_range|].
  assert (key_fuel (EncodeUint (u64 i)) <= derive_fuel)%nat as Hf by (unfold key_fuel, derive_fuel; lia).
  unfold Update, keep.
  destruct (TryUpdate_spec db never derive_fuel t m _ v Hr Hk Hu Hf) as [(t' & -> & Hr')|(e & _ & (s & _ & [] & _))].
  cbn [res_bind]. unfold map_update in Hr'. rewrite bool_decide_eq_false_2 in Hr' by done. by apply IH.
Qed.

Lemma represents_empty : represents never newTrie ∅.
Proof. exists TNil. split; [constructor|apply contents_empty]. Qed.

(** The root is the one of the map. *)
Lemma DeriveSha_spec l :
  summable l -> exists tr, contents tr (list_map 0 l ∅) /\ DeriveSha db l = Ok (root_hash tr) /\
    sized (list_map 0 l ∅) /\ (DeriveShaHash db l = Ok (root_hash tr)).
Proof.
  intros [Hl _]. destruct (deriveLoop_spec 0 l newTrie ∅ Hl represents_empty) as (t & E & tr & Hr & Hc).
  assert (sized (list_map 0 l ∅)) as Hs by (apply list_map_sized; [done|]; intros k v E'; by rewrite lookup_empty in E').
  pose proof Hc as [Hg _]. pose proof (sized_in_memory _ _ Hc Hs) as Hm. exists tr. split; [done|].
  destruct (Hash_rep never t tr) as (n & Eh & Hn); [by intros ? []|done..|].
  destruct (Hash_rep never (set_root n t) tr) as (n' & Eh' & _); [by intros ? []|done..|].
  assert (forall i t, deriveLoop db (fun i => EncodeUint (u64 i)) i l t = deriveLoop db indexKey i l t) as Ek.
  { clear. induction l as [|v l IH]; intros i t; [done|]. cbn [deriveLoop]. rewrite indexKey_uint.
    destruct (Update _ _ _ _ _); [apply IH|done..]. }
  split; [|split; [done|]].
  - unfold DeriveSha. rewrite E. cbn [res_bind]. rewrite Eh. cbn [res_bind]. by rewrite Eh'.
  - unfold DeriveShaHash. destruct (Z.eqb_spec (Z.of_nat (length l)) 0) as [E0|E0].
    + destruct l; [|done]. cbn [list_map] in Hc. by rewrite (contents_unique tr TNil ∅ Hc contents_empty).
    + rewrite Ek, E. cbn [res_bind]. by rewrite Eh.
Qed.
End Lists.

Lemma list_map_inj l l' : summable l -> summable l' -> list_map 0 l ∅ = list_map 0 l' ∅ -> l = l'.
Proof.
  intros Hl Hl' E. apply list_eq. intros i. pose proof Hl as [_ Hn]. pose proof Hl' as [_ Hn'].
  destruct (Z.lt_ge_cases (Z.of_nat i) (2 ^ 64)) as [Hi|Hi].
  - rewrite <- (Nat2Z.id i), <- (index_lookup l), <- (index_lookup l') by (done || unfold is_u64; lia). by rewrite E.
  - rewrite !lookup_ge_None_2 by lia. done.
Qed.

(** C20: The root of a list of encoded transactions or hashes is the same by both
    functions, and it stands for the list: lists with the same root are equal, or
    nodes collide; and a verified proof for a position, whose nodes are filed under
    their hashes, gives the entry at that position, or has a node that is another
    preimage of a hash. *)
Theorem derived_roots_commit `{DiskDB} db l l' :
  summable l -> summable l' ->
  exists h h' tr tr', DeriveSha db l = Ok h /\ DeriveShaHash db l = Ok h /\ DeriveSha db l' = Ok h' /\
    contents tr (list_map 0 l ∅) /\ contents tr' (list_map 0 l' ∅) /\
    (h = h' -> l = l' \/ collision_in tr tr') /\
    (forall i get v n fuel, is_u64 i -> addressed get -> (derive_fuel <= fuel)%nat ->
       VerifyProof fuel h (EncodeUint i) get = Ok (v, n) -> v = l !! Z.to_nat i \/ forged tr get).
Proof.
  intros Hl Hl'. destruct (DeriveSha_spec db l Hl) as (tr & Hc & E & Hs & Eh), (DeriveSha_spec db l' Hl') as (tr' & Hc' & E' & Hs' & _).
  exists (root_hash tr), (root_hash tr'), tr, tr'. split; [done|]. split; [done|]. split; [done|]. split; [done|]. split; [done|].
  pose proof Hc as [Hg _]. pose proof Hc' as [Hg' _]. split.
  - intros Er. destruct (root_hash_inj tr tr') as [<-|Hcol]; [done|done|by eapply sized_in_memory..|done|left|by right].
    apply list_map_inj; [done|done|]. apply map_eq. intros k. by rewrite <- (contents_lookup tr _ k Hc), (contents_lookup tr _ k Hc').
  - intros i get v n fuel Hi Ha Hf Hv. destruct (decide (l = [])) as [->|Hne].
    { right. rewrite (contents_unique tr TNil ∅ Hc contents_empty) in *. by eapply verify_empty. }
    destruct (key_ok i Hi) as [Hu Hlen]. unfold derive_fuel in Hf.
    assert (list_map 0 l ∅ <> ∅) as Hne'.
    { intros E0. destruct l as [|w l]; [done|]. assert ((w :: l) !! Z.to_nat 0 = None) as Ex; [|done].
      rewrite <- (index_lookup (w :: l) 0) by done. by rewrite E0. }
    rewrite root_hash_tree in Hv. unfold VerifyProof in Hv.
    destruct (verify_sound fuel 0 tr (keybytesToHex (EncodeUint i)) get) as [[n' En]|[(j & s & En & _)|Hfo]];
      [by eapply contents_good|by eapply sized_in_memory|by apply keybytesToHex_hexkey|done
      |rewrite length_keybytesToHex; lia| | |by right].
    + left. rewrite En in Hv. injection Hv as <- _. by rewrite (contents_lookup tr _ _ Hc), (index_lookup l).
    + by rewrite En in Hv.
Qed.

(** The only node of the trie of a list of two entries. *)
Definition pair_node : list Z :=
  [0xD7; 0xC2; 0x31; 0x03] ++ replicate 7 0x80 ++ [0xC4; 0x30; 0x82; 0x01; 0x02] ++ replicate 8 0x80.

Definition pair_root : list Z := match Keccak256 [pair_node] with Ok h => h | _ => [] end.

Definition pair_proof (h : list Z) : option (list Z) := if decide (h = pair_root) then Some pair_node else None.

Lemma pair_proof_addressed : addressed pair_proof.
Proof.
  intros h b. unfold pair_proof. destruct (decide (h = pair_root)) as [->|]; [|done]. intros [= <-].
  apply keccak256_eval; [by apply (bool_decide_unpack _)|]. vm_compute. reflexivity.
Qed.

(** Two lists with different roots, and a proof for the second position of one. *)
Lemma derived_roots_commit_witness :
  exists h h' tr, DeriveSha (NewDatabase ∅) [[1; 2]; [3]] = Ok h /\ DeriveSha (NewDatabase ∅) [[1; 2]] = Ok h' /\
    h = pair_root /\ VerifyProof derive_fuel h (EncodeUint 1) pair_proof = Ok (Some [3], 1) /\
    (Some [3] = [[1; 2]; [3]] !! Z.to_nat 1 \/ forged tr pair_proof).
Proof.
  assert (summable [[1; 2]; [3]] /\ summable [[1; 2]]) as [H1 H2].
  { assert (forall v, v = [1; 2] \/ v = [3] -> storable v /\ Z.of_nat (length v) < 2 ^ 48) as Hv.
    { intros v [-> | ->]; (split; [split; [done|by apply (bool_decide_unpack _)]|done]). }
    split; (split; [repeat (constructor; [apply Hv; auto|]); constructor|done]). }
  assert (DeriveSha (NewDatabase ∅) [[1; 2]; [3]] = Ok pair_root) as Er by (vm_compute; reflexivity).
  assert (VerifyProof derive_fuel pair_root (EncodeUint 1) pair_proof = Ok (Some [3], 1)) as Ev by (vm_compute; reflexivity).
  destruct (derived_roots_commit (NewDatabase ∅) [[1; 2]; [3]] [[1; 2]] H1 H2) as (h & h' & tr & tr' & E & _ & E' & _ & _ & _ & Hp).
  assert (h = pair_root) as ->.
  { clear -Er E. revert Er E. generalize (DeriveSha (NewDatabase ∅) [[1; 2]; [3]]) pair_root. intros r p -> E. by injection E. }
  exists pair_root, h', tr. split; [exact Er|]. split; [exact E'|]. split; [reflexivity|].
  split; [exact Ev|].
  assert (is_u64 1) as Hi by (unfold is_u64; lia). exact (Hp 1 pair_proof (Some [3]) 1 derive_fuel Hi pair_proof_addressed (le_n _) Ev).
Defined.
