(* ===== verification/SecureTrie.v ===== *)
(** * Tries with hashed keys ([trie/secure_trie.go])

    A secure trie stores values under the hashes of their keys and remembers the
    keys, first in a cache of its own and after [Commit] in the database. *)

From S2P Require Import Rlp Sponge TrieKeys TrieNode TrieDatabase Trie TrieHasher TrieTree TrieHashing TrieMap TrieCommit.
From S2P Require Import TrieSpec Prelude.

#[local] Set Warnings "-register-all".

(** ** The code *)

(** [owned] is whether [secKeyCacheOwner] is the trie itself: it is not in a new
    trie and in a copy, whose cache starts anew. *)
Record SecureTrie := mkSecure {
  trie : Trie;
  secKeyCache : bmap;
  owned : bool
}.

Section Secure.
Context `{DiskDB, HashRange}.

Definition NewSecure (db : Database) (rt : list Z) (cachelimit : Z) : res trie_error SecureTrie :=
  let* t := New db rt in
  Ok (mkSecure (SetCacheLimit cachelimit t) ∅ false).

Definition getSecKeyCache (t : SecureTrie) : SecureTrie := if owned t then t else mkSecure (trie t) ∅ true.

Definition set_trie (tr : Trie) (t : SecureTrie) : SecureTrie := mkSecure tr (secKeyCache t) (owned t).
Definition set_cache (c : bmap) (t : SecureTrie) : SecureTrie := mkSecure (trie t) c (owned t).

Definition hashKey (key : list Z) : eff (list Z) := makeHash key.

Definition STryGet (fuel : nat) (db : Database) (t : SecureTrie) (key : list Z) : res trie_error (option (list Z) * SecureTrie) :=
  let* hk := lift_eff (hashKey key) in
  let* (v, tr) := TryGet db fuel (trie t) hk in
  Ok (v, set_trie tr t).

(** The key is remembered when the value has been written. *)
Definition STryUpdate (fuel : nat) (db : Database) (t : SecureTrie) (key value : list Z) : res trie_error SecureTrie :=
  let* hk := lift_eff (hashKey key) in
  let* tr := TryUpdate db fuel (trie t) hk value in
  let t := getSecKeyCache (set_trie tr t) in
  Ok (set_cache (<[hk := key]> (secKeyCache t)) t).

(** The key is forgotten first, also when the deletion fails. *)
Definition STryDelete (fuel : nat) (db : Database) (t : SecureTrie) (key : list Z) : eff (option trie_error * SecureTrie) :=
  let* hk := hashKey key in
  let t := getSecKeyCache t in
  let t := set_cache (delete hk (secKeyCache t)) t in
  match TryDelete db fuel (trie t) hk with
  | Ok tr => Ok (None, set_trie tr t)
  | Err e => Ok (Some e, t)
  | Panic => Panic
  end.

Definition GetKey (db : Database) (t : SecureTrie) (shaKey : list Z) : option (list Z) * SecureTrie :=
  let t := getSecKeyCache t in
  (match secKeyCache t !! shaKey with
   | Some key => Some key
   | None => db_preimage (BytesToHash shaKey) db
   end, t).

Definition insertPreimages (l : list (list Z * list Z)) (db : Database) : Database :=
  foldl (fun db hk => insertPreimage (BytesToHash hk.1) hk.2 db) db l.

Definition SCommit (t : SecureTrie) (db : Database) (leaf : option LeafCallback) : eff (list Z * SecureTrie * Database) :=
  let t := getSecKeyCache t in
  let (t, db) := if Z.of_nat (size (secKeyCache t)) >? 0
                 then (set_cache ∅ t, insertPreimages (hash_range (secKeyCache t)) db) else (t, db) in
  let* (h, tr, db) := TrieHasher.Commit (trie t) db leaf in
  Ok (h, set_trie tr t, db).

Definition SHash (t : SecureTrie) : eff (list Z * SecureTrie) :=
  let* (h, tr) := TrieHasher.Hash (trie t) in
  Ok (h, set_trie tr t).

Definition Copy (t : SecureTrie) : SecureTrie := mkSecure (trie t) (secKeyCache t) false.
End Secure.

(** ** Keys are remembered *)

Section Keys.
Context `{DiskDB, HashRange}.

(** The cache and the preimages have keys under their hashes. *)
Definition key_cache (c : bmap) : Prop := forall h k, c !! h = Some k -> h = keccak256 k.

Lemma insertPreimage_same hash p db : same_reads db (insertPreimage hash p db).
Proof. unfold insertPreimage. by destruct (preimages db !! hash). Qed.

Lemma insertPreimages_same l db : same_reads db (insertPreimages l db).
Proof.
  revert db. induction l as [|x l IH]; intros db; cbn; [done|]. etransitivity; [apply insertPreimage_same|apply IH].
Qed.

Lemma insertPreimage_lookup hash p db h :
  preimages (insertPreimage hash p db) !! h =
  match preimages db !! h with Some x => Some x | None => if decide (h = hash) then Some p else None end.
Proof.
  unfold insertPreimage. destruct (preimages db !! hash) eqn:E.
  - destruct (decide (h = hash)) as [->|]; [by rewrite E|]. by destruct (preimages db !! h).
  - cbn [preimages]. destruct (decide (h = hash)) as [->|Hne]; [by rewrite lookup_insert_eq, E|].
    rewrite lookup_insert_ne by done. by destruct (preimages db !! h).
Qed.

(** What the preimages have, they keep; and they have what was in the cache. *)
Lemma insertPreimages_lookup (l : list (list Z * list Z)) db h k :
  (forall x, x ∈ l -> BytesToHash x.1 = h -> x.2 = k) ->
  preimages (insertPreimages l db) !! h =
  match preimages db !! h with Some x => Some x | None => if decide (h ∈ (BytesToHash <$> l.*1)) then Some k else None end.
Proof.
  revert db. induction l as [|x l IH]; intros db Hl; cbn [insertPreimages foldl].
  - destruct (preimages db !! h); [done|]. rewrite decide_False; [done|]. set_solver.
  - fold (insertPreimages l (insertPreimage (BytesToHash x.1) x.2 db)).
    rewrite IH by (intros y Hy; apply Hl; set_solver). rewrite insertPreimage_lookup.
    destruct (preimages db !! h); [done|]. destruct (decide (h = BytesToHash x.1)) as [->|Hne].
    + rewrite decide_True by set_solver. f_equal. apply Hl; [set_solver|done].
    + destruct (decide (h ∈ BytesToHash <$> l.*1)); [rewrite decide_True by set_solver; done|].
      rewrite decide_False; [done|]. set_solver.
Qed.

Lemma hashKey_hash key : Forall is_u8 key -> hashKey key = Ok (keccak256 key).
Proof. apply makeHash_hash. Qed.

Lemma BytesToHash_keccak b : BytesToHash (keccak256 b) = keccak256 b.
Proof. unfold BytesToHash. by rewrite length_keccak256, Nat.sub_diag, drop_0, length_keccak256. Qed.

Lemma represents_blobs db db' t m : same_reads db db' -> represents (stored db) t m -> represents (stored db') t m.
Proof.
  intros Hs (tr & Hr & Hc). exists tr. split; [|done]. eapply rep_mono; [|done]. intros s.
  by apply stored_keeps, same_reads_keeps.
Qed.

(** Reading in a trie all of whose nodes are there. *)
Lemma STryGet_spec fuel db t m key :
  represents (stored db) (trie t) m -> Forall is_u8 key -> (132 <= fuel)%nat ->
  exists t', STryGet fuel db t key = Ok (m !! keccak256 key, t').
Proof.
  intros Hr Hk Hf. unfold STryGet. rewrite hashKey_hash by done. cbn [lift_eff res_bind].
  destruct (TryGet_spec db (stored db) fuel (trie t) m (keccak256 key) Hr) as [(t' & -> & _)|(e & _ & []%stored_not_missing)].
  - apply keccak256_u8.
  - unfold key_fuel. rewrite length_keccak256. lia.
  - by eexists.
Qed.

(** Keys in the cache reach the database. *)
Lemma GetKey_committed (db db' : Database) c key :
  key_cache c -> c !! keccak256 key = Some key -> (forall k, preimages db !! keccak256 key = Some k -> k = key) ->
  preimages db' = preimages (insertPreimages (hash_range c) db) ->
  db_preimage (keccak256 key) db' = Some key.
Proof.
  intros Hc Ek Hp E. unfold db_preimage. rewrite E.
  assert (forall x, x ∈ hash_range c -> c !! x.1 = Some x.2) as Hin.
  { intros [h k] Hx. rewrite (hash_range_perm c) in Hx. by apply elem_of_map_to_list. }
  rewrite (insertPreimages_lookup (hash_range c) db (keccak256 key) key).
  - destruct (preimages db !! keccak256 key) as [k|] eqn:Epre; [by rewrite (Hp k eq_refl)|]. rewrite decide_True; [done|].
    rewrite <- (BytesToHash_keccak key). apply list_elem_of_fmap_2. rewrite (hash_range_perm c).
    apply (list_elem_of_fmap_2' fst _ (keccak256 key, key)); [by apply elem_of_map_to_list|done].
  - intros x Hx Ex. pose proof (Hin x Hx) as Hl. pose proof (Hc _ _ Hl) as Eh.
    rewrite Eh, BytesToHash_keccak in Ex. rewrite Eh, Ex, Ek in Hl. by injection Hl.
Qed.
End Keys.

(** A value that is written is read back under its key, and the key is given
    back for its hash, before and after [Commit].  A copy that is made before
    [Commit] only knows the keys the database knows; one that is made after it
    knows the key. *)
Theorem secure_keys_survive_commit `{DiskDB, HashRange} fuel db t m key value tr :
  represents (stored db) (trie t) m -> Forall is_u8 key -> storable value -> (132 <= fuel)%nat ->
  key_cache (secKeyCache (getSecKeyCache t)) -> (forall k, preimages db !! keccak256 key = Some k -> k = key) ->
  sized (<[keccak256 key := value]> m) -> contents tr (<[keccak256 key := value]> m) -> no_collision db tr ->
  exists t1 t2 t3 t4 db2,
    STryUpdate fuel db t key value = Ok t1 /\ STryGet fuel db t1 key = Ok (Some value, t2) /\
    (GetKey db t1 (keccak256 key)).1 = Some key /\
    (GetKey db (Copy t1) (keccak256 key)).1 = db_preimage (keccak256 key) db /\
    SCommit t1 db None = Ok (root_hash tr, t3, db2) /\ STryGet fuel db2 t3 key = Ok (Some value, t4) /\
    (GetKey db2 t3 (keccak256 key)).1 = Some key /\ (GetKey db2 (Copy t3) (keccak256 key)).1 = Some key.
Proof.
  intros Hr Hk [Hv Hu] Hf Hkc Hpre Hs Hc Hnc. set (hk := keccak256 key) in *. set (m1 := <[hk := value]> m) in *.
  destruct (TryUpdate_spec db (stored db) fuel (trie t) m hk value Hr) as [(tr1 & E1 & Hr1)|(e & _ & []%stored_not_missing)];
    [apply keccak256_u8|done|unfold key_fuel, hk; rewrite length_keccak256; lia|].
  unfold map_update in Hr1. rewrite bool_decide_eq_false_2 in Hr1 by done. fold m1 in Hr1.
  set (c1 := <[hk := key]> (secKeyCache (getSecKeyCache t))). set (t1 := mkSecure tr1 c1 true).
  assert (STryUpdate fuel db t key value = Ok t1) as Eu.
  { unfold STryUpdate. rewrite hashKey_hash by done. cbn [lift_eff res_bind]. fold hk. rewrite E1. cbn [res_bind].
    unfold t1, c1, getSecKeyCache, set_cache, set_trie. cbn. by destruct (owned t). }
  assert (m1 !! hk = Some value) as Em by apply lookup_insert_eq.
  assert (c1 !! hk = Some key) as Ec by apply lookup_insert_eq.
  assert (key_cache c1) as Hkc1 by (intros h k [[<- <-]|[_ E]]%lookup_insert_Some; [done|by apply Hkc]).
  destruct (STryGet_spec fuel db t1 m1 key Hr1 Hk Hf) as [t2 E2]. change (keccak256 key) with hk in E2. rewrite Em in E2.
  set (db1 := insertPreimages (hash_range c1) db). assert (same_reads db db1) as Hsb by apply insertPreimages_same.
  destruct (represents_blobs db db1 tr1 m1 Hsb Hr1) as (tr' & Hrt & Hct). rewrite (contents_unique _ _ _ Hct Hc) in Hrt.
  destruct Hnc as [Hcf Hag]. pose proof Hc as [Hg _].
  destruct (Commit_rep db1 None tr1 tr) as (tr3 & db2 & E3 & _ & Ep & Hr3 & _);
    [by intros f|split; [done|by apply (agrees_same _ db)]|done|done|by eapply sized_in_memory|].
  assert (db_preimage hk db2 = Some key) as Epre by (by apply (GetKey_committed db db2 c1)).
  assert (SCommit t1 db None = Ok (root_hash tr, mkSecure tr3 ∅ true, db2)) as Es.
  { unfold SCommit. cbn [getSecKeyCache owned t1 secKeyCache set_cache trie]. rewrite Z.gtb_ltb, (proj2 (Z.ltb_lt _ _)).
    - fold db1. change (trie (set_cache ∅ t1)) with tr1. rewrite E3. done.
    - assert (c1 <> ∅) as Hne by (intros E0; by rewrite E0 in Ec). apply map_size_non_empty_iff in Hne. lia. }
  destruct (STryGet_spec fuel db2 (mkSecure tr3 ∅ true) m1 key) as [t4 E4]; [by exists tr|done|done|]. change (keccak256 key) with hk in E4. rewrite Em in E4.
  exists t1, t2, (mkSecure tr3 ∅ true), t4, db2. split; [done|]. split; [done|].
  unfold GetKey. cbn [getSecKeyCache owned t1 secKeyCache Copy fst]. rewrite Ec, !lookup_empty.
  unfold hk in *. rewrite BytesToHash_keccak. by repeat (split; [done|]).
Qed.

(** ** An example *)

Definition one_hash : list Z :=
  [95; 231; 249; 119; 231; 29; 186; 46; 161; 166; 142; 33; 5; 123; 238; 187;
   155; 226; 172; 48; 198; 65; 10; 163; 141; 79; 63; 190; 65; 220; 255; 210].
Definition one_tree : tree := TShort (keybytesToHex one_hash) (TVal [2]).
Definition one_root : list Z :=
  [134; 181; 255; 75; 141; 145; 8; 205; 66; 39; 174; 161; 204; 253; 217; 253;
   105; 203; 28; 222; 247; 141; 121; 82; 14; 163; 17; 211; 252; 132; 66; 31].

Lemma one_hash_ok : keccak256 [1] = one_hash.
Proof. apply keccak256_eval; [by apply (bool_decide_unpack _)|vm_compute; reflexivity]. Qed.

Lemma one_root_ok : tree_hash one_tree = one_root.
Proof. apply keccak256_eval; [by apply (bool_decide_unpack _)|vm_compute; reflexivity]. Qed.

Lemma one_contents : contents one_tree (<[keccak256 [1] := [2]]> ∅).
Proof.
  rewrite one_hash_ok. apply (contents_upd TNil one_tree ∅ one_hash (Some [2])); [apply contents_empty| | |].
  - right. assert (hexkey (keybytesToHex one_hash)) as Hh by by apply keybytesToHex_hexkey, (bool_decide_unpack _).
    unfold one_tree. cbn [good]. rewrite hasTerm_hexkey by done. split; [done|].
    split; [by intros E; rewrite E in Hh; apply hexkey_nil in Hh|]. split; [by right|]. split; [done|]. split; [done|].
    split; [done|by apply (bool_decide_unpack _)].
  - by apply (bool_decide_unpack _).
  - apply tfind_leaf.
Qed.

Lemma one_no_collision : no_collision (NewDatabase ∅) one_tree.
Proof.
  assert (forall s, part one_tree s -> s = one_tree) as Hpart.
  { intros s Hp. inversion Hp as [|? ? ? Hg|]; subst; [done|]. by destruct Hg. }
  split; [by intros b b' (s & ->%Hpart & ->) (s' & ->%Hpart & ->)|].
  intros b (s & ->%Hpart & ->). fold (tree_hash one_tree). rewrite one_root_ok.
  cbn [NewDatabase nodes diskdb]. by rewrite lookup_singleton_ne by done.
Qed.

Lemma secure_keys_survive_commit_witness :
  exists t1 t2 t3 t4 db2,
    let db := NewDatabase ∅ in
    let t := mkSecure (mkTrie Nil emptyHash 0 0) ∅ false in
    STryUpdate 132 db t [1] [2] = Ok t1 /\ STryGet 132 db t1 [1] = Ok (Some [2], t2) /\
    SCommit t1 db None = Ok (one_root, t3, db2) /\ STryGet 132 db2 t3 [1] = Ok (Some [2], t4) /\
    (GetKey db2 (Copy t3) one_hash).1 = Some [1].
Proof.
  destruct (secure_keys_survive_commit 132 (NewDatabase ∅) (mkSecure (mkTrie Nil emptyHash 0 0) ∅ false) ∅ [1] [2] one_tree)
    as (t1 & t2 & t3 & t4 & db2 & E1 & E2 & _ & _ & E4 & E5 & _ & E6).
  - exists TNil. split; [constructor|apply contents_empty].
  - by apply (bool_decide_unpack _).
  - split; [discriminate|by apply (bool_decide_unpack _)].
  - lia.
  - intros h k' E. discriminate E.
  - intros k' E. cbn [NewDatabase preimages] in E; rewrite lookup_empty in E. discriminate E.
  - rewrite one_hash_ok. intros k' v [[<- <-]|[_ E]]%lookup_insert_Some; [|discriminate E]. split; reflexivity.
  - apply one_contents.
  - apply one_no_collision.
  - rewrite root_hash_tree, one_root_ok in E4. rewrite one_hash_ok in E6. exists t1, t2, t3, t4, db2.
    split; [exact E1|]. split; [exact E2|]. split; [exact E4|]. split; [exact E5|exact E6].
Defined.
