(* ===== verification/TrieDecode.v ===== *)
(** * Nodes from outside

    Nodes also come from proofs and other peers.  [decodeNode] ends on any bytes,
    but it panics on a short node with an empty key. *)

From S2P Require Import Rlp RlpCodec Sponge TrieKeys TrieNode TrieDatabase Trie TrieTree TrieHashing TrieMap TrieSpec TrieProof.
From S2P Require Import Prelude.

#[local] Set Warnings "-register-all".

(** ** Decoding ends *)

Definition ends {A} (r : res node_error A) : Prop := r <> Err NodeFuel.

Lemma wrap_ends {A} (ctx : derr_ctx) (r : res node_error A) : ends r -> ends (res_wrap (fun e => wrapError e ctx) r).
Proof. unfold ends. destruct r as [a|e|]; cbn; [done| |done]. intros H [= E]. by destruct e. Qed.

Lemma bind_ends {A B} (r : res node_error A) (f : A -> res node_error B) :
  ends r -> (forall a, r = Ok a -> ends (f a)) -> ends (res_bind r f).
Proof. unfold ends. destruct r as [a|e|]; cbn; [|congruence|done]. intros _ H. by apply H. Qed.

Section Ends.
Context (dn : option (list Z) -> list Z -> Z -> res node_error node) (n : nat).
Context (Hdn : forall b g, Forall is_u8 b -> fits b -> (length b < n)%nat -> ends (dn None b g)).

Lemma Split_rest b k c rest :
  Forall is_u8 b -> fits b -> Split b = Ok (k, c, rest) ->
  Forall is_u8 c /\ fits c /\ Forall is_u8 rest /\ fits rest /\ (length rest <= length b)%nat /\
  (k = List_ -> (length c < length b)%nat).
Proof.
  intros Hb Hf [Hok ->]%Split_iff; [|done..]. apply Forall_app in Hb as [Hc Hr]. apply fits_app in Hf as [Hfc Hfr].
  assert ((length c <= length (token k c))%nat /\ Forall is_u8 c) as [Hl Hu].
  { rewrite token_header in * by done. rewrite length_app. apply Forall_app in Hc as [_ ?]. split; [lia|done]. }
  split; [done|]. split; [by eapply fits_le|]. split; [done|]. split; [done|]. rewrite length_app. split; [lia|].
  intros ->. pose proof (length_token_List c). lia.
Qed.

Lemma SplitString_rest b c rest :
  Forall is_u8 b -> fits b -> SplitString b = Ok (c, rest) -> Forall is_u8 rest /\ fits rest /\ (length rest <= length b)%nat.
Proof.
  intros Hb Hf E. unfold SplitString in E. apply res_bind_Ok in E as ([[k c'] r'] & E & E').
  destruct (Split_rest b k c' r' Hb Hf E) as (_ & _ & Hr & Hfr & Hl & _). destruct k; try discriminate E'; by injection E' as <- <-.
Qed.

Lemma decodeRef_ends b g :
  Forall is_u8 b -> fits b -> (length b < n)%nat ->
  ends (decodeRef dn b g) /\ (forall c rest, decodeRef dn b g = Ok (c, rest) -> Forall is_u8 rest /\ fits rest /\ (length rest <= length b)%nat).
Proof.
  intros Hb Hf Hl. unfold decodeRef. destruct (Split b) as [[[k v] rest]|e|] eqn:E; [|by split..].
  cbn [res_wrap res_bind]. destruct (Split_rest b k v rest Hb Hf E) as (_ & _ & Hr & Hfr & Hlr & _).
  destruct k; cbn iota.
  - by split.
  - repeat case_match; (split; [done|]); try done; intros c r [= <- <-]; done.
  - case_match; [by split|]. split.
    + apply bind_ends; [by apply Hdn|done].
    + intros c r (x & _ & [= <- <-])%res_bind_Ok. done.
Qed.

Lemma decodeShort_ends h b g : Forall is_u8 b -> fits b -> (length b < n)%nat -> ends (decodeShort dn h b g).
Proof.
  intros Hb Hf Hl. unfold decodeShort. apply bind_ends; [by destruct (SplitString b)|].
  intros [kb rest] E. assert (SplitString b = Ok (kb, rest)) as E' by (by destruct (SplitString b); [injection E as ->|..]).
  destruct (SplitString_rest b kb rest Hb Hf E') as (Hr & Hfr & Hlr).
  apply bind_ends; [by destruct (compactToHex kb) as [|[]|]|]. intros key _. destruct (hasTerm key).
  - apply bind_ends; [by destruct (SplitString rest)|by intros []].
  - apply bind_ends; [|by intros []]. apply wrap_ends. apply decodeRef_ends; [done|done|lia].
Qed.

Lemma decodeChildren_ends count i b g :
  Forall is_u8 b -> fits b -> (length b < n)%nat ->
  ends (decodeChildren dn count i b g) /\ (forall l rest, decodeChildren dn count i b g = Ok (l, rest) -> Forall is_u8 rest /\ fits rest).
Proof.
  revert i b. induction count as [|count IH]; intros i b Hb Hf Hl; cbn [decodeChildren].
  - split; [done|]. by intros l r [= <- <-].
  - destruct (decodeRef_ends b g Hb Hf Hl) as [He Hok].
    destruct (decodeRef dn b g) as [[c rest]|e|] eqn:E; cbn [res_wrap res_bind].
    + destruct (Hok c rest eq_refl) as (Hr & Hfr & Hlr). destruct (IH (S i) rest Hr Hfr ltac:(lia)) as [He' Hok'].
      split; [apply bind_ends; [done|by intros []]|]. intros l r ([l' r'] & Ed & [= <- <-])%res_bind_Ok. by apply (Hok' l' r').
    + split; [|done]. intros [= Ee]. apply He. by destruct e.
    + by split.
Qed.

Lemma decodeFull_ends h b g : Forall is_u8 b -> fits b -> (length b < n)%nat -> ends (decodeFull dn h b g).
Proof.
  intros Hb Hf Hl. unfold decodeFull. destruct (decodeChildren_ends 16 0 b g Hb Hf Hl) as [He Hok].
  apply bind_ends; [done|]. intros [l rest] E. apply bind_ends; [by destruct (SplitString rest)|by intros []].
Qed.
End Ends.

Lemma decodeNode_fuel_ends fuel h b g :
  Forall is_u8 b -> fits b -> (length b < fuel)%nat -> ends (decodeNode_fuel fuel h b g).
Proof.
  revert h b g. induction fuel as [|fuel IH]; intros h b g Hb Hf Hl; [lia|]. cbn [decodeNode_fuel]. unfold decodeNode_body.
  case_match; [done|]. apply bind_ends; [by destruct (SplitList b)|]. intros [elems rest] E.
  assert (Split b = Ok (List_, elems, rest)) as Es.
  { destruct (SplitList b) as [[x y]|e|] eqn:El; [|done..]. cbn in E. injection E as -> ->.
    unfold SplitList in El. apply res_bind_Ok in El as ([[k c] r] & El & E'). destruct k; try discriminate E'. by injection E' as <- <-. }
  destruct (Split_rest b List_ elems rest Hb Hf Es) as (Hc & Hfc & _ & _ & _ & Hlc). specialize (Hlc eq_refl).
  assert (forall b g, Forall is_u8 b -> fits b -> (length b < fuel)%nat -> ends (decodeNode_fuel fuel None b g)) as Hdn by (intros; by apply IH).
  destruct (_ =? 2); [apply wrap_ends; apply (decodeShort_ends _ fuel); [done..|lia]|].
  destruct (_ =? 17); [|done]. apply wrap_ends. apply (decodeFull_ends _ fuel); [done..|lia].
Qed.

(** ** What is decoded has the shape of a node

    Hashes have 32 bytes, keys are nibbles, values are behind the terminator ([b])
    and only there, and full nodes have 17 children. *)

Fixpoint shaped (b : bool) (n : node) : Prop :=
  match n with
  | Nil => True
  | hashNode h => b = false /\ length h = 32%nat
  | valueNode v => b = true
  | shortNode k v _ => b = false /\ hexpart k /\ shaped (hasTerm k) v
  | fullNode l _ =>
      b = false /\ length l = 17%nat /\
      (fix all i l := match l with [] => True | c :: l => shaped (i =? 16) c /\ all (i + 1) l end) 0 l
  end.

Lemma shaped_children l16 v :
  Forall (shaped false) l16 -> length l16 = 16%nat -> shaped true v -> forall f, shaped false (fullNode (l16 ++ [v]) f).
Proof.
  intros Hl H16 Hv f. cbn [shaped]. split; [done|]. split; [rewrite length_app, H16; done|].
  assert (forall i l, Forall (shaped false) l -> 0 <= i -> i + Z.of_nat (length l) = 16 ->
    (fix all i l := match l with [] => True | c :: l => shaped (i =? 16) c /\ all (i + 1) l end) i (l ++ [v])) as H.
  { clear - Hv. intros i l Hl. revert i. induction Hl as [|c l Hc _ IH]; intros i Hi Hs; cbn [app length] in *.
    - replace i with 16 by lia. by split.
    - rewrite (proj2 (Z.eqb_neq i 16)) by lia. split; [done|]. apply IH; lia. }
  apply H; [done|lia|lia].
Qed.

Lemma compactToHex_hexpart c k : Forall is_u8 c -> compactToHex c = Ok k -> hexpart k.
Proof.
  intros Hc E. unfold compactToHex in E. rewrite keybytesToHex_nibbles, butlast_snoc in E.
  pose proof (nibbles_path c Hc) as Hp. apply res_bind_Ok in E as (b0 & E0 & [= <-]).
  assert (path (drop (Z.to_nat (2 - Z.land b0 1)) (nibbles c))) as Hd by (by apply Forall_drop).
  destruct (b0 >=? 2); [|by left]. right. exists (drop (Z.to_nat (2 - Z.land b0 1)) (nibbles c)). split; [done|].
  apply drop_app_le. destruct c as [|x c]; [done|]. rewrite length_nibbles. cbn [length].
  assert (0 <= Z.land b0 1) by (apply Z.land_nonneg; lia). lia.
Qed.

Section Shape.
Context (dn : option (list Z) -> list Z -> Z -> res node_error node).
Context (Hdn : forall b g n, Forall is_u8 b -> fits b -> dn None b g = Ok n -> shaped false n).

Lemma decodeRef_shaped b g n rest :
  Forall is_u8 b -> fits b -> decodeRef dn b g = Ok (n, rest) -> shaped false n /\ Forall is_u8 rest /\ fits rest.
Proof.
  intros Hb Hf E. unfold decodeRef in E. apply res_bind_Ok in E as ([[k v] r] & Es & E).
  assert (Split b = Ok (k, v, r)) as Es' by (by destruct (Split b); [injection Es as ->|..]).
  destruct (Split_rest b k v r Hb Hf Es') as (_ & _ & Hr & Hfr & _ & _).
  assert (rest = r -> shaped false n -> shaped false n /\ Forall is_u8 rest /\ fits rest) as Hfin by by intros ->.
  destruct k; [done| |].
  - destruct (_ =? 0); [by injection E as <- <-; apply Hfin|]. destruct (Z.eqb_spec (Z.of_nat (length v)) 32); [|done].
    injection E as <- <-. apply Hfin; [done|]. split; [done|lia].
  - destruct (_ >? _); [done|]. apply res_bind_Ok in E as (n' & En & [= <- <-]). apply Hfin; [done|]. by apply (Hdn b g).
Qed.

Lemma decodeShort_shaped h b g n : Forall is_u8 b -> fits b -> decodeShort dn h b g = Ok n -> shaped false n.
Proof.
  intros Hb Hf E. unfold decodeShort in E. apply res_bind_Ok in E as ([kb rest] & Es & E).
  assert (SplitString b = Ok (kb, rest)) as Es' by (by destruct (SplitString b); [injection Es as ->|..]).
  destruct (SplitString_rest b kb rest Hb Hf Es') as (Hr & Hfr & _).
  assert (Forall is_u8 kb) as Hkb.
  { unfold SplitString in Es'. apply res_bind_Ok in Es' as ([[k c] r] & Es' & E'). destruct (Split_rest b k c r Hb Hf Es') as (Hc & _).
    by destruct k; try discriminate E'; injection E' as <- <-. }
  apply res_bind_Ok in E as (key & Ek & E). assert (compactToHex kb = Ok key) as Ek' by (by destruct (compactToHex kb) as [|[]|]; [injection Ek as ->|..]).
  pose proof (compactToHex_hexpart kb key Hkb Ek') as Hh. destruct (hasTerm key) eqn:Et.
  - apply res_bind_Ok in E as ([v r] & _ & [= <-]). cbn [shaped]. by rewrite Et.
  - apply res_bind_Ok in E as ([c r] & Ec & [= <-]).
    assert (decodeRef dn rest g = Ok (c, r)) as Ec' by (by destruct (decodeRef dn rest g); [injection Ec as ->|..]).
    cbn [shaped]. rewrite Et. split; [done|]. split; [done|]. by apply (decodeRef_shaped rest g c r).
Qed.

Lemma decodeChildren_shaped count i b g l rest :
  Forall is_u8 b -> fits b -> decodeChildren dn count i b g = Ok (l, rest) -> Forall (shaped false) l /\ length l = count.
Proof.
  revert i b l. induction count as [|count IH]; intros i b l Hb Hf E; cbn [decodeChildren] in E.
  - injection E as <- _. split; [constructor|done].
  - apply res_bind_Ok in E as ([c r] & Ec & E). apply res_bind_Ok in E as ([l' r'] & El & [= <- <-]).
    assert (decodeRef dn b g = Ok (c, r)) as Ec' by (by destruct (decodeRef dn b g); [injection Ec as ->|..]).
    destruct (decodeRef_shaped b g c r Hb Hf Ec') as (Hc & Hr & Hfr). destruct (IH (S i) r l' Hr Hfr El) as [Hl Hn].
    split; [by constructor|cbn [length]; by rewrite Hn].
Qed.

Lemma decodeFull_shaped h b g n : Forall is_u8 b -> fits b -> decodeFull dn h b g = Ok n -> shaped false n.
Proof.
  intros Hb Hf E. unfold decodeFull in E. apply res_bind_Ok in E as ([l r] & El & E). apply res_bind_Ok in E as ([v r'] & _ & [= <-]).
  destruct (decodeChildren_shaped 16 0 b g l r Hb Hf El) as [Hl Hn]. apply shaped_children; [done|done|]. by destruct (_ >? 0).
Qed.
End Shape.

Lemma decodeNode_fuel_shaped fuel h b g n :
  Forall is_u8 b -> fits b -> decodeNode_fuel fuel h b g = Ok n -> shaped false n.
Proof.
  revert h b g n. induction fuel as [|fuel IH]; intros h b g n Hb Hf E; [done|]. cbn [decodeNode_fuel] in E.
  unfold decodeNode_body in E. destruct (_ =? 0); [done|]. apply res_bind_Ok in E as ([elems rest] & Es & E).
  assert (Split b = Ok (List_, elems, rest)) as Es'.
  { destruct (SplitList b) as [[x y]|e|] eqn:El; [|done..]. cbn in Es. injection Es as -> ->.
    unfold SplitList in El. apply res_bind_Ok in El as ([[k c] r] & El & E'). destruct k; try discriminate E'. by injection E' as <- <-. }
  destruct (Split_rest b List_ elems rest Hb Hf Es') as (Hc & Hfc & _).
  assert (forall b g n, Forall is_u8 b -> fits b -> decodeNode_fuel fuel None b g = Ok n -> shaped false n) as Hdn by (intros; by eapply IH).
  destruct (_ =? 2).
  - destruct (decodeShort _ h elems g) as [m| |] eqn:Ed; cbn in E; [injection E as <-|done..]. by eapply decodeShort_shaped.
  - destruct (_ =? 17); [|done].
    destruct (decodeFull _ h elems g) as [m| |] eqn:Ed; cbn in E; [injection E as <-|done..]. by eapply decodeFull_shaped.
Qed.

(** [decodeNode] ends on any bytes within as many rounds as there are bytes, and
    what it decodes has the shape of a node: keys of nibbles, hashes of 32 bytes,
    17 children, and values behind the end of a key and nowhere else. *)
Theorem decodeNode_ends_with_node h b g :
  Forall is_u8 b -> fits b ->
  decodeNode h b g <> Err NodeFuel /\ (forall n, decodeNode h b g = Ok n -> shaped false n).
Proof. intros Hb Hf. split; [apply decodeNode_fuel_ends; [done|done|lia]|]. intros n. by apply decodeNode_fuel_shaped. Qed.

Lemma decodeNode_ends_with_node_witness :
  decodeNode None (tree_enc leaf_tree) 7 <> Err NodeFuel /\
  exists n, decodeNode None (tree_enc leaf_tree) 7 = Ok n /\ shaped false n.
Proof.
  assert (Forall is_u8 (tree_enc leaf_tree)) as Hu by by apply (bool_decide_unpack _).
  destruct (decodeNode_ends_with_node None (tree_enc leaf_tree) 7 Hu) as [H1 H2]; [vm_compute; reflexivity|].
  split; [exact H1|]. eexists. split; [vm_compute; reflexivity|]. apply H2. vm_compute. reflexivity.
Defined.

(** ** A node with an empty key *)

Lemma empty_key_panics h it rest g :
  let b := enc (Lst [Str []; it]) ++ rest in
  str_or_list it -> Forall is_u8 b -> fits b -> decodeNode h b g = Panic.
Proof.
  intros b Hit Hu Hf. unfold decodeNode. cbn [decodeNode_fuel]. unfold b in *. rewrite enc_Lst in *.
  rewrite (decode_items _ h [Str []; it]) by (try done; by repeat constructor). cbn [length]. change (Z.of_nat 2 =? 2) with true. cbv iota.
  unfold decodeShort. cbn [map concat enc]. rewrite SplitString_str; [done|..].
  - apply Forall_app in Hu as [[_ Hu]%Forall_app _]. exact Hu.
  - apply fits_app in Hf as [Hf _]. by apply (fits_le _ _ (Nat.lt_le_incl _ _ (length_token_List _))).
Qed.

(** The loop goes on from a hash and a rest of the key to the next ones. *)
Definition goes_on (get : list Z -> option (list Z)) (s s' : list Z * list Z) : Prop :=
  exists buf n cld, get s.1 = Some buf /\ decodeNode (Some s.1) buf 0 = Ok n /\
    get_ n s.2 = Ok (s'.2, hashNode cld) /\ s'.1 = copyHash s.1 cld.

Lemma verifyLoop_goes_on get n s s' fuel i :
  nsteps (goes_on get) n s s' -> verifyLoop (n + fuel) i s.1 s.2 get = verifyLoop fuel (i + Z.of_nat n) s'.1 s'.2 get.
Proof.
  intros Hn. revert i. induction Hn as [s|n s t u (buf & nd & cld & E & Ed & Eg & Eh) _ IH]; intros i; [by rewrite Z.add_0_r|].
  cbn [Nat.add verifyLoop]. rewrite E, Ed. cbn [res_wrap res_bind]. rewrite Eg. cbn [lift_eff res_bind].
  rewrite <- Eh, IH. f_equal. lia.
Qed.

(** C40: [VerifyProof] does not return an error for every proof that is invalid: when
    it comes to a list of two items of which the first is the empty string, at the
    root or behind any number of other nodes, [compactToHex] reads the first nibble
    of nothing and the program panics, whatever the second item and the key. *)
Theorem verifying_empty_key_panics get n fuel root k h key it rest :
  nsteps (goes_on get) n (root, keybytesToHex k) (h, key) -> (n < fuel)%nat ->
  let b := enc (Lst [Str []; it]) ++ rest in
  get h = Some b -> str_or_list it -> Forall is_u8 b -> fits b -> VerifyProof fuel root k get = Panic.
Proof.
  intros Hn Hf b Eb Hit Hu Hfit. unfold VerifyProof. replace fuel with (n + S (fuel - n - 1))%nat by lia.
  rewrite (verifyLoop_goes_on get n _ _ _ 0 Hn : verifyLoop _ 0 root (keybytesToHex k) get = _). cbn [fst snd verifyLoop].
  rewrite Eb. by rewrite (empty_key_panics _ it rest).
Qed.

(** A node with an empty key, and one that refers to it. *)
Definition empty_key_node : list Z := [0xC2; 0x80; 0x80].
Definition empty_key_hash : list Z := match Keccak256 [empty_key_node] with Ok h => h | _ => [] end.
Definition empty_key_parent : list Z := [0xE2; 0x00; 0xA0] ++ empty_key_hash.
Definition empty_key_root : list Z := match Keccak256 [empty_key_parent] with Ok h => h | _ => [] end.

Definition empty_key_proof (h : list Z) : option (list Z) :=
  if decide (h = empty_key_root) then Some empty_key_parent
  else if decide (h = empty_key_hash) then Some empty_key_node else None.

Lemma empty_key_proof_addressed : addressed empty_key_proof.
Proof.
  intros h b. unfold empty_key_proof. destruct (decide (h = empty_key_root)) as [->|_];
    [|destruct (decide (h = empty_key_hash)) as [->|_]; [|discriminate]]; intros E; injection E as <-;
    (apply keccak256_eval; [apply (bool_decide_unpack _); vm_compute; exact I|vm_compute; reflexivity]).
Qed.

(** The nodes are filed under their hashes. *)
Lemma verifying_empty_key_panics_witness :
  addressed empty_key_proof /\ VerifyProof 2 empty_key_root [0x61] empty_key_proof = Panic.
Proof.
  split; [exact empty_key_proof_addressed|].
  apply (verifying_empty_key_panics empty_key_proof 1 2 empty_key_root [0x61] empty_key_hash (keybytesToHex [0x61]) (Str []) []).
  - apply nsteps_once. eexists empty_key_parent, _, _. split; [vm_compute; reflexivity|]. split; [vm_compute; reflexivity|].
    split; vm_compute; reflexivity.
  - lia.
  - vm_compute. reflexivity.
  - exact I.
  - apply (bool_decide_unpack _). vm_compute. exact I.
  - vm_compute. reflexivity.
Defined.
