(* ===== verification/TrieFlush.v ===== *)
(** * Writing cached nodes to the disk ([Commit] of [trie/database.go])

    What is written, in which order, what is left when a write fails, and which
    nodes are dropped from the cache afterwards. *)

From S2P Require Import TrieDatabase Prelude.

(** ** The references between cached nodes *)

Definition edge (m : gmap (list Z) cachedNode) (p c : list Z) : Prop :=
  exists n, m !! p = Some n /\ is_Some (children n !! c).

(** References only go to nodes of a smaller rank, so there are no cycles. *)
Definition ranked (rank : list Z -> nat) (m : gmap (list Z) cachedNode) : Prop :=
  forall p c, edge m p c -> (rank c < rank p)%nat.

(** Nodes of a map may be missing. *)
Definition sub (m' m : gmap (list Z) cachedNode) : Prop := forall k, m' !! k = m !! k \/ m' !! k = None.

#[export] Instance sub_preorder : PreOrder sub.
Proof.
  split; [by left|]. intros a b c H1 H2 k. destruct (H1 k) as [->|E]; [apply H2|by right].
Qed.

Lemma sub_Some m' m k n : sub m' m -> m' !! k = Some n -> m !! k = Some n.
Proof. intros Hs E. destruct (Hs k) as [<-|E']; congruence. Qed.

Lemma sub_None m' m k : sub m' m -> m !! k = None -> m' !! k = None.
Proof. intros Hs E. by destruct (Hs k) as [->|E']. Qed.

Lemma sub_delete m' m k : sub m' m -> sub (delete k m') m.
Proof. intros Hs x. destruct (decide (x = k)) as [->|Hne]; [right; apply lookup_delete_eq|rewrite lookup_delete_ne by done; apply Hs]. Qed.

Lemma sub_edge m' m p c : sub m' m -> edge m' p c -> edge m p c.
Proof. intros Hs (n & Hn & Hc). exists n. split; [by eapply sub_Some|done]. Qed.

(** ** Reading through a batch *)

Section Disk.
Context `{DiskLaws}.

(** What the disk has once the batch is written. *)
Definition upcoming (bd : batch * disk) (k : list Z) : option (list Z) :=
  match last (filter (fun kv => kv.1 = k) (pending bd.1)) with
  | Some kv => Some kv.2
  | None => disk_Get bd.2 k
  end.

Definition over (g : list Z -> option (list Z)) (k v x : list Z) : option (list Z) := if decide (x = k) then Some v else g x.

Lemma put_cases k v bd :
  (exists bd', put k v bd = (None, bd') /\ bd'.2 = bd.2 /\ forall x, upcoming bd' x = over (upcoming bd) k v x) \/
  put k v bd = (Some PutFailed, bd).
Proof.
  unfold put. destruct (batch_Put k v bd.1) as [b|] eqn:E; [left|by right]. exists (b, bd.2). split; [done|]. split; [done|].
  intros x. unfold upcoming, over. cbn [fst snd]. rewrite (put_pending _ _ _ _ E), filter_app. case_decide as Ex.
  - subst x. rewrite (filter_cons_True _ (k, v)) by done. cbn. by rewrite last_snoc.
  - rewrite (filter_cons_False _ (k, v)) by (cbn; congruence). by rewrite app_nil_r.
Qed.

Lemma write_cases bd :
  (exists d, write bd = (None, (bd.1, d)) /\ forall x, disk_Get d x = upcoming bd x) \/ write bd = (Some WriteFailed, bd).
Proof.
  unfold write. destruct (batch_Write bd.1 bd.2) as [d|] eqn:E; [left|by right]. exists d. split; [done|].
  intros x. by apply write_get.
Qed.

(** Something about what can be read, now and once the batch is written. *)
Definition both (C : (list Z -> option (list Z)) -> Prop) (bd : batch * disk) : Prop :=
  C (upcoming bd) /\ C (disk_Get bd.2).

Definition extensional (C : (list Z -> option (list Z)) -> Prop) : Prop :=
  forall g g', (forall x, g' x = g x) -> C g -> C g'.

Lemma flush_cases C full bd :
  extensional C -> both C bd ->
  (exists bd', flush full bd = (None, bd') /\ both C bd' /\ forall x, upcoming bd' x = upcoming bd x) \/
  flush full bd = (Some WriteFailed, bd).
Proof.
  intros HC [Hu Hd]. unfold flush. destruct full; [|by left; exists bd]. destruct (write_cases bd) as [(d & -> & Hg)| ->]; [left|by right].
  cbn [andThen io_then fst snd]. eexists. split; [done|].
  assert (forall x, upcoming (batch_Reset bd.1, d) x = upcoming bd x) as E.
  { intros x. unfold upcoming at 1. cbn [fst snd]. rewrite reset_pending. cbn. apply Hg. }
  split; [split|done]; by eapply HC.
Qed.

(** ** Nodes *)

(** Nodes of [m] are written with their blobs, and nothing else. *)
Definition grows (m : gmap (list Z) cachedNode) (g g' : list Z -> option (list Z)) : Prop :=
  forall x, g' x = g x \/ exists n, m !! x = Some n /\ g' x = Some (default [] (blob n)).

#[export] Instance grows_preorder m : PreOrder (grows m).
Proof.
  split; [by left|]. intros a b c H1 H2 x. destruct (H2 x) as [E|E]; [rewrite E; apply H1|by right].
Qed.

Lemma grows_put m h n g g' :
  m !! h = Some n -> (forall x, g' x = over g h (default [] (blob n)) x) -> grows m g g'.
Proof.
  intros Hn Hp x. rewrite Hp. unfold over. case_decide as E; [|by left]. subst. right. by exists n.
Qed.

(** Everything that is referenced from a node, and the node itself, can be read. *)
Definition covered (m : gmap (list Z) cachedNode) (g : list Z -> option (list Z)) (h : list Z) : Prop :=
  forall x n, rtc (edge m) h x -> m !! x = Some n -> g x = Some (default [] (blob n)).

Lemma covered_grows m g g' h : grows m g g' -> covered m g h -> covered m g' h.
Proof.
  intros Hg Hc x n Hr Hn. destruct (Hg x) as [->|(n' & Hn' & ->)]; [by apply Hc|]. congruence.
Qed.

Lemma covered_ext m g g' h : (forall x, g' x = g x) -> covered m g h -> covered m g' h.
Proof. intros E. apply covered_grows. by left. Qed.

Lemma covered_node m g h n :
  m !! h = Some n -> g h = Some (default [] (blob n)) -> (forall c, is_Some (children n !! c) -> covered m g c) -> covered m g h.
Proof.
  intros Hn Hh Hc x n' Hr Hx. inversion Hr as [|? c ? (n0 & Hn0 & Hc0) Hr']; subst; [congruence|].
  assert (n0 = n) as -> by congruence. by apply (Hc c).
Qed.

(** A step that writes nodes of [m]: it ends well or with an error of the disk, and
    [C] holds of what can be read, whatever happens. *)
Definition writes_nodes (m : gmap (list Z) cachedNode) (C : (list Z -> option (list Z)) -> Prop)
    (done : (list Z -> option (list Z)) -> Prop) (bd : batch * disk) (r : io (batch * disk)) : Prop :=
  exists e bd', r = (e, bd') /\ both C bd' /\ grows m (upcoming bd) (upcoming bd') /\
    (e = None /\ done (upcoming bd') \/ e = Some PutFailed \/ e = Some WriteFailed).

Lemma writes_andThen m C d1 d2 bd r k :
  writes_nodes m C d1 bd r ->
  (forall bd', both C bd' -> grows m (upcoming bd) (upcoming bd') -> d1 (upcoming bd') -> writes_nodes m C d2 bd' (k bd')) ->
  writes_nodes m C d2 bd (andThen r k).
Proof.
  intros (e & bd' & -> & Hb & Hg & He) Hk. unfold andThen, io_then. cbn [fst snd]. destruct He as [[-> Hd]|He].
  - destruct (Hk bd' Hb Hg Hd) as (e2 & bd2 & -> & Hb2 & Hg2 & He2). exists e2, bd2. split; [done|]. split; [done|].
    split; [by etransitivity|done].
  - exists e, bd'. naive_solver.
Qed.

Lemma writes_impl m C (d1 d2 : (list Z -> option (list Z)) -> Prop) bd r :
  (forall g, d1 g -> d2 g) -> writes_nodes m C d1 bd r -> writes_nodes m C d2 bd r.
Proof. intros Hd (e & bd' & -> & Hb & Hg & He). exists e, bd'. naive_solver. Qed.

Section Nodes.
Context `{HashRange} (rank : list Z -> nat) (m : gmap (list Z) cachedNode) (C : (list Z -> option (list Z)) -> Prop).
Context (Hrank : ranked rank m) (Cext : extensional C).
Context (Cput : forall g h n, m !! h = Some n -> C g -> (forall c, is_Some (children n !! c) -> covered m g c) ->
                  C (over g h (default [] (blob n)))).

Lemma put_node h n bd :
  m !! h = Some n -> both C bd -> (forall c, is_Some (children n !! c) -> covered m (upcoming bd) c) ->
  writes_nodes m C (fun g => covered m g h) bd (put h (default [] (blob n)) bd).
Proof.
  intros Hn [Hu Hd] Hc. destruct (put_cases h (default [] (blob n)) bd) as [(bd' & -> & Ed & Hp)| ->].
  - pose proof (grows_put m h n _ _ Hn Hp) as Hg. eexists None, bd'. split; [done|]. split; [split|].
    + eapply Cext; [exact Hp|]. by apply Cput.
    + by rewrite Ed.
    + split; [done|]. left. split; [done|]. apply (covered_node m _ h n Hn).
      * rewrite Hp. unfold over. by rewrite decide_True.
      * intros c Hx. eapply covered_grows; [done|]. by apply Hc.
  - eexists _, bd. split; [done|]. split; [by split|]. split; [reflexivity|]. naive_solver.
Qed.

Lemma flush_node h full bd :
  both C bd -> covered m (upcoming bd) h -> writes_nodes m C (fun g => covered m g h) bd (flush full bd).
Proof.
  intros Hb Hc. destruct (flush_cases C full bd Cext Hb) as [(bd' & -> & Hb' & E)| ->].
  - eexists None, bd'. split; [done|]. split; [done|]. split; [by left|]. left. split; [done|]. by eapply covered_ext.
  - eexists _, bd. split; [done|]. split; [done|]. split; [reflexivity|]. naive_solver.
Qed.

Lemma commit_children fuel l bd :
  (forall c bd, c ∈ l -> both C bd -> writes_nodes m C (fun g => covered m g c) bd (db_commit fuel c m bd)) -> both C bd ->
  writes_nodes m C (fun g => forall c, c ∈ l -> covered m g c) bd (foldl (fun r c => andThen r (db_commit fuel c m)) (None, bd) l).
Proof.
  intros Hl Hb. induction l as [|c l IH] using rev_ind.
  - eexists None, bd. split; [done|]. split; [done|]. split; [reflexivity|]. left. split; [done|]. by intros c ?%elem_of_nil.
  - rewrite foldl_app. cbn [foldl]. eapply writes_andThen.
    { apply IH. intros x bd' Hx. apply Hl, elem_of_app. by left. }
    intros bd1 Hb1 _ Hc1. destruct (Hl c bd1) as (e & bd2 & -> & Hb2 & Hg2 & He);
      [apply elem_of_app; right; by apply list_elem_of_singleton|done|].
    exists e, bd2. split; [done|]. split; [done|]. split; [done|]. destruct He as [[-> Hd]|He]; [left|by right].
    split; [done|]. intros x [Hx|Hx]%elem_of_app; [|by apply list_elem_of_singleton in Hx as ->].
    eapply covered_grows; [done|]. by apply Hc1.
Qed.

(** [commit] writes everything that is referenced, children first. *)
Lemma db_commit_spec fuel h bd :
  (rank h < fuel)%nat -> both C bd -> writes_nodes m C (fun g => covered m g h) bd (db_commit fuel h m bd).
Proof.
  revert h bd. induction fuel as [|fuel IH]; intros h bd Hf Hb; [lia|]. cbn [db_commit].
  destruct (m !! h) as [n|] eqn:En.
  - eapply writes_andThen.
    { apply commit_children; [|done]. intros c bd' Hc Hb'. apply hash_range_keys in Hc. apply IH; [|done].
      assert (edge m h c) as He%Hrank by by exists n. lia. }
    cbn beta. intros bd1 Hb1 _ Hc1. eapply writes_andThen.
    { apply put_node; [done..|]. intros c Hc. by apply Hc1, hash_range_keys. }
    intros bd2 Hb2 _ Hc2. by apply flush_node.
  - eexists None, bd. split; [done|]. split; [done|]. split; [reflexivity|]. left. split; [done|].
    intros x n Hr Hx. inversion Hr as [|? c ? (n0 & Hn0 & _) _]; subst; congruence.
Qed.
End Nodes.

(** ** Preimages *)

Lemma secureKey_inj h h' : secureKey h = secureKey h' -> h = h'.
Proof. apply app_inv_head. Qed.

Lemma commitPreimages_spec C l bd :
  extensional C -> (forall h p g, (h, p) ∈ l -> C g -> C (over g (secureKey h) p)) -> NoDup l.*1 -> both C bd ->
  exists e bd', commitPreimages l bd = (e, bd') /\ both C bd' /\
    (forall x, (forall h, h ∈ l.*1 -> x <> secureKey h) -> upcoming bd' x = upcoming bd x) /\
    ((e = None /\ forall h p, (h, p) ∈ l -> upcoming bd' (secureKey h) = Some p) \/ e = Some PutFailed \/ e = Some WriteFailed).
Proof.
  intros Cext. revert bd. induction l as [|[h p] l IH]; intros bd Hl Hnd [Hu Hd].
  { exists None, bd. split; [done|]. split; [by split|]. split; [done|]. left. split; [done|]. by intros h p ?%elem_of_nil. }
  cbn [commitPreimages]. cbn [fmap list_fmap] in Hnd. apply NoDup_cons in Hnd as [Hni Hnd].
  destruct (put_cases (secureKey h) p bd) as [(bd1 & -> & Ed & Hp)| ->].
  2: { eexists _, bd. split; [done|]. split; [by split|]. split; [done|]. naive_solver. }
  cbn [andThen io_then fst snd].
  assert (both C bd1) as Hb1.
  { split; [|by rewrite Ed]. eapply Cext; [exact Hp|]. apply Hl; [by apply elem_of_cons; left|done]. }
  assert (forall x, (forall y, y ∈ h :: l.*1 -> x <> secureKey y) -> upcoming bd1 x = upcoming bd x) as E1.
  { intros x Hx. rewrite Hp. unfold over. rewrite decide_False; [done|]. apply Hx, elem_of_cons. by left. }
  destruct (flush_cases C (batch_ValueSize bd1.1 >? IdealBatchSize) bd1 Cext Hb1) as [(bd2 & -> & Hb2 & E2)| ->].
  2: { eexists _, bd1. split; [done|]. split; [done|]. split; [done|]. naive_solver. }
  cbn [andThen io_then fst snd]. destruct (IH bd2) as (e & bd3 & -> & Hb3 & E3 & He); [|done..|].
  { intros y q g Hin. apply Hl, elem_of_cons. by right. }
  exists e, bd3. split; [done|]. split; [done|]. split.
  - intros x Hx. rewrite E3, E2, E1; [done|done|]. intros y Hy. apply Hx, elem_of_cons. by right.
  - destruct He as [[-> Hc]|He]; [left|by right]. split; [done|]. intros y q [[= -> ->]|Hin]%elem_of_cons; [|by apply Hc].
    rewrite E3, E2, Hp; [unfold over; by rewrite decide_True|]. intros y Hy E%secureKey_inj. by subst.
Qed.
End Disk.

(** ** Dropping nodes from the cache *)

Section Uncache.
Context `{DiskDB, HashRange} (rank : list Z -> nat) (m : gmap (list Z) cachedNode) (Hrank : ranked rank m).

(** What a node that was dropped refers to was dropped as well. *)
Definition dropped_below (m' : gmap (list Z) cachedNode) : Prop :=
  forall p c, edge m p c -> m' !! p = None -> m' !! c = None.

(** Only nodes are dropped. *)
Definition only_nodes (db db' : Database) : Prop :=
  diskdb db' = diskdb db /\ preimages db' = preimages db /\ rlocks db' = rlocks db.

#[export] Instance only_nodes_preorder : PreOrder only_nodes.
Proof. split; [by split|]. intros a b c (? & ? & ?) (? & ? & ?). split; [|split]; congruence. Qed.

(** [h] and what it refers to are dropped, and nothing else. *)
Definition drops (h : list Z) (db db' : Database) : Prop :=
  only_nodes db db' /\ dropped_below (nodes db') /\ nodes db' !! h = None /\
  forall k, nodes db' !! k = nodes db !! k \/ nodes db' !! k = None /\ rtc (edge m) h k.

Lemma uncache_children fuel h l db :
  (forall c db, c ∈ l -> sub (nodes db) m -> dropped_below (nodes db) ->
     exists db', uncache fuel c db = Ok db' /\ drops c db db') ->
  (forall c, c ∈ l -> edge m h c) -> sub (nodes db) m -> dropped_below (nodes db) ->
  exists db', foldl (fun r c => let* db := r in uncache fuel c db) (Ok db) l = Ok db' /\ only_nodes db db' /\
    dropped_below (nodes db') /\ (forall c, c ∈ l -> nodes db' !! c = None) /\
    forall k, nodes db' !! k = nodes db !! k \/ nodes db' !! k = None /\ rtc (edge m) h k.
Proof.
  revert db. induction l as [|c l IH]; intros db Hl He Hs Hd; cbn [foldl].
  { exists db. split; [done|]. split; [reflexivity|]. split; [done|]. split; [by intros c ?%elem_of_nil|]. by left. }
  destruct (Hl c db) as (db1 & E1 & Ho1 & Hd1 & Hc1 & Hk1); [by apply elem_of_cons; left|done..|]. cbn [res_bind]. rewrite E1.
  assert (sub (nodes db1) (nodes db)) as Hs1 by (intros k; destruct (Hk1 k) as [->|[-> _]]; auto).
  destruct (IH db1) as (db2 & -> & Ho2 & Hd2 & Hc2 & Hk2).
  - intros x d Hx. apply Hl, elem_of_cons. by right.
  - intros x Hx. apply He, elem_of_cons. by right.
  - by etransitivity.
  - done.
  - exists db2. split; [done|]. split; [by etransitivity|]. split; [done|].
    assert (sub (nodes db2) (nodes db1)) as Hs2 by (intros k; destruct (Hk2 k) as [->|[-> _]]; auto). split.
    + intros x [->|Hx]%elem_of_cons; [by eapply sub_None|by apply Hc2].
    + intros k. destruct (Hk2 k) as [->|?]; [|by right]. destruct (Hk1 k) as [->|[-> Hr]]; [by left|]. right. split; [done|].
      eapply rtc_l; [|done]. apply He, elem_of_cons. by left.
Qed.

Lemma uncache_spec fuel h db :
  (rank h < fuel)%nat -> sub (nodes db) m -> dropped_below (nodes db) ->
  exists db', uncache fuel h db = Ok db' /\ drops h db db'.
Proof.
  revert h db. induction fuel as [|fuel IH]; intros h db Hf Hs Hd; [lia|]. cbn [uncache].
  destruct (nodes db !! h) as [n|] eqn:En.
  2: { exists db. split; [done|]. split; [reflexivity|]. split; [done|]. split; [done|]. by left. }
  assert (forall c, c ∈ (hash_range (children n)).*1 <-> edge m h c) as Hc.
  { intros c. rewrite hash_range_keys. pose proof (sub_Some _ _ _ _ Hs En) as Em. split; [by exists n|].
    intros (n' & En' & Hx). by assert (n' = n) as <- by congruence. }
  destruct (uncache_children fuel h (hash_range (children n)).*1 db) as (db1 & -> & Ho & Hd1 & Hc1 & Hk1); [| |done..|].
  { intros c d Hin Hsd Hdd. apply IH; [|done..]. apply Hc, Hrank in Hin. lia. }
  { intros c. apply Hc. }
  cbn [res_bind]. eexists. split; [done|]. split; [done|]. cbn [set_nodes nodes]. split; [|split; [apply lookup_delete_eq|]].
  - intros p c Hpc Hp. destruct (decide (c = h)) as [->|Hne]; [apply lookup_delete_eq|]. rewrite lookup_delete_ne by done.
    destruct (decide (p = h)) as [->|Hnp]; [by apply Hc1, Hc|]. rewrite lookup_delete_ne in Hp by done. by apply (Hd1 p).
  - intros k. destruct (decide (k = h)) as [->|Hne]; [right|by rewrite lookup_delete_ne].
    split; [apply lookup_delete_eq|reflexivity].
Qed.

(** Everything that can be reached is gone. *)
Lemma drops_reach h k db db' :
  drops h db db' -> rtc (edge m) h k -> nodes db' !! k = None.
Proof.
  intros (_ & Hd & Hh & _) Hr. induction Hr as [|p c k Hpc Hr IH]; [done|]. apply IH. by apply (Hd p).
Qed.
End Uncache.

(** ** Commit *)

Section Commit.
Context `{DiskLaws, HashRange} (rank : list Z -> nat) (db : Database) (C : (list Z -> option (list Z)) -> Prop).
Context (Hrank : ranked rank (nodes db)) (Cext : extensional C).
Context (Cput : forall g h n, nodes db !! h = Some n -> C g ->
                  (forall c, is_Some (children n !! c) -> covered (nodes db) g c) -> C (over g h (default [] (blob n)))).
Context (Cpre : forall g h p, preimages db !! h = Some p -> C g -> C (over g (secureKey h) p)).
Context (Hapart : forall h k, is_Some (preimages db !! h) -> is_Some (nodes db !! k) -> secureKey h <> k).

(** What is left after an error. *)
Definition failed (e : db_error) (db' : Database) : Prop :=
  nodes db' = nodes db /\ preimages db' = preimages db /\
  match e with
  | PutFailed => rlocks db' = rlocks db
  | WriteFailed => rlocks db' = rlocks db \/ rlocks db' = S (rlocks db)
  | Blocked => rlocks db' = rlocks db /\ (0 < rlocks db)%nat
  | DbFuel => False
  end.

(** What has been done without one. *)
Definition succeeded (node : list Z) (db' : Database) : Prop :=
  preimages db' = ∅ /\ rlocks db' = rlocks db /\ covered (nodes db) (disk_Get (diskdb db')) node /\
  (forall h p, preimages db !! h = Some p -> disk_Get (diskdb db') (secureKey h) = Some p) /\
  dropped_below (nodes db) (nodes db') /\
  (forall k, rtc (edge (nodes db)) node k -> nodes db' !! k = None) /\
  (forall k, nodes db' !! k = nodes db !! k \/ nodes db' !! k = None /\ rtc (edge (nodes db)) node k).

Lemma commit_clear_spec fuel node d :
  (rank node < fuel)%nat -> covered (nodes db) (disk_Get d) node ->
  (forall h p, preimages db !! h = Some p -> disk_Get d (secureKey h) = Some p) ->
  exists e db', commit_clear fuel node (set_disk d db) = (e, db') /\ diskdb db' = d /\
    match e with
    | None => succeeded node db'
    | Some e => failed e db'
    end.
Proof.
  intros Hf Hc Hp. unfold commit_clear. cbn [set_disk rlocks nodes].
  destruct (Nat.ltb_spec 0 (rlocks db)) as [Hl|Hl].
  { eexists _, _. split; [done|]. split; [done|]. by split. }
  match goal with |- context [uncache fuel node ?x] => set (db0 := x) end.
  destruct (uncache_spec rank (nodes db) Hrank fuel node db0) as (db1 & -> & Hdr); [done| |intros p c He E|].
  { reflexivity. }
  { destruct He as (n & En & _). change (nodes db0 !! p) with (nodes db !! p) in E; congruence. }
  eexists None, _. split; [done|]. pose proof Hdr as ((Ed & Epr & El) & Hdb & Hn & Hk). cbn [diskdb]. split; [done|].
  unfold succeeded. cbn [diskdb nodes preimages rlocks]. rewrite Ed. split; [done|]. split; [done|]. split; [done|]. split; [done|].
  split; [done|]. split; [|done]. intros k. by apply (drops_reach (nodes db) node k db0).
Qed.

Lemma Commit_spec fuel node :
  (rank node < fuel)%nat -> C (disk_Get (diskdb db)) ->
  exists e db', Commit fuel node db = (e, db') /\ C (disk_Get (diskdb db')) /\
    match e with
    | None => succeeded node db'
    | Some e => failed e db'
    end.
Proof.
  intros Hf HC. unfold Commit. set (bd0 := (disk_NewBatch (diskdb db), diskdb db)).
  assert (both C bd0) as Hb0.
  { split; [|done]. eapply Cext; [|exact HC]. intros x. unfold upcoming, bd0. cbn [fst snd]. by rewrite new_pending. }
  assert (forall h p, (h, p) ∈ hash_range (preimages db) <-> preimages db !! h = Some p) as Hin.
  { intros h p. apply hash_range_In. }
  destruct (commitPreimages_spec C (hash_range (preimages db)) bd0) as (e & bd1 & -> & Hb1 & _ & He); [done| |apply hash_range_NoDup|done|].
  { intros h p g Hx. by apply Cpre, Hin. }
  unfold io_then at 1. cbn [fst snd]. destruct He as [[-> Hp1]|He].
  2: { destruct He as [-> | ->]; eexists _, _; (split; [done|]); (split; [by destruct Hb1|]); repeat split; by right. }
  destruct (db_commit_spec rank (nodes db) C Hrank Cext Cput fuel node bd1 Hf Hb1) as (e & bd2 & -> & Hb2 & Hg2 & He).
  destruct He as [[-> Hc2]|He].
  2: { destruct He as [-> | ->]; cbn; eexists _, _; (split; [done|]); (split; [by destruct Hb2|]); repeat split; by left. }
  cbn [andThen io_then fst snd]. destruct (write_cases bd2) as [(d & -> & Hd)| ->].
  2: { cbn. eexists _, _. split; [done|]. split; [by destruct Hb2|]. repeat split. by left. }
  cbn [io_then fst snd]. destruct (commit_clear_spec fuel node d Hf) as (e & db' & -> & Ed & H'); [by eapply covered_ext| |].
  { intros h p Hx. rewrite Hd. assert (upcoming bd1 (secureKey h) = Some p) as E1 by by apply Hp1, Hin.
    destruct (Hg2 (secureKey h)) as [->|(n & Hn & _)]; [done|]. by destruct (Hapart h (secureKey h)). }
  exists e, db'. split; [done|]. split; [|done]. rewrite Ed. eapply Cext; [exact Hd|]. by destruct Hb2.
Qed.
End Commit.

(** The in-memory database keeps the laws. *)
#[export] Program Instance MemDatabase_laws : @DiskLaws MemDatabase := {| pending := writes |}.
Next Obligation. done. Qed.
Next Obligation. intros k v b b' [= <-]. done. Qed.
Next Obligation. done. Qed.
Next Obligation.
  intros b d d' k [= <-]. cbn. induction (writes b) as [|[x v] l IH] using rev_ind; [done|].
  rewrite foldl_app, filter_app. cbn [foldl fst snd]. destruct (decide (x = k)) as [->|Hne].
  - rewrite lookup_insert_eq, filter_cons_True, filter_nil, last_snoc by done. done.
  - rewrite lookup_insert_ne, filter_cons_False, filter_nil, app_nil_r by done. exact IH.
Qed.

(** ** Reading before and after *)

(** Hashes have 32 bytes, and the preimages are under longer keys. *)
Definition hash_keys `{DiskDB} (db : Database) : Prop :=
  (forall h, is_Some (nodes db !! h) -> length h = 32%nat) /\ (forall h, is_Some (preimages db !! h) -> length h = 32%nat).

Lemma hash_keys_apart `{DiskDB} db h k :
  hash_keys db -> is_Some (preimages db !! h) -> length k = 32%nat -> secureKey h <> k.
Proof. intros [_ Hp] Hh Hk <-. apply Hp in Hh. unfold secureKey in Hk. rewrite length_app, Hh in Hk. done. Qed.

(** [Commit] of the trie database ends, and whatever the disk answers, every node
    and every preimage reads as before.  When no error is returned, what the
    committed node refers to is on the disk and a database that is opened on the
    disk reads it. *)
Theorem database_commit_keeps_reads `{DiskLaws, HashRange} rank fuel node db :
  ranked rank (nodes db) -> (rank node < fuel)%nat -> hash_keys db ->
  (forall h n, rtc (edge (nodes db)) node h -> nodes db !! h = Some n -> blob n <> None) ->
  let (e, db') := Commit fuel node db in
  (forall h, length h = 32%nat -> Node h db' = Node h db /\ db_preimage h db' = db_preimage h db) /\
  e <> Some DbFuel /\
  (e = None -> forall h, rtc (edge (nodes db)) node h -> is_Some (nodes db !! h) ->
     nodes db' !! h = None /\ (h <> emptyHash -> Node h (NewDatabase (diskdb db')) = Node h db)).
Proof.
  intros Hr Hf Hk Hb.
  set (C := fun g => forall h, length h = 32%nat ->
    (nodes db !! h = None -> g h = disk_Get (diskdb db) h) /\ (preimages db !! h = None -> g (secureKey h) = disk_Get (diskdb db) (secureKey h))).
  assert (forall h n, nodes db !! h = Some n -> length h = 32%nat) as Hk32 by (intros h n E; apply (proj1 Hk); by exists n).
  assert (forall x h, length x = 32%nat -> length h = 32%nat -> secureKey x <> h) as Hap.
  { intros x h Hx Hh <-. unfold secureKey in Hh. rewrite length_app, Hx in Hh. done. }
  destruct (Commit_spec rank db C Hr) with fuel node as (e & db' & E & HC & He); [| | | |done|done|].
  - intros g g' E HC h Hh. rewrite !E. by apply HC.
  - intros g h n En HC _ x Hx. destruct (HC x Hx) as [Hn1 Hp1]. unfold over. split; intros Ex; (rewrite decide_False; [auto|]).
    + intros ->. congruence.
    + apply Hap; [done|by eapply Hk32].
  - intros g h p Ep HC x Hx. destruct (HC x Hx) as [Hn1 Hp1]. assert (length h = 32%nat) as Hh by (apply (proj2 Hk); by exists p).
    unfold over. split; intros Ex; (rewrite decide_False; [auto|]).
    + intros ->. by apply (Hap h (secureKey h)).
    + intros ->%secureKey_inj. congruence.
  - intros h k Hh Hn. apply (hash_keys_apart db); [done..|]. by apply (proj1 Hk).
  - rewrite E. split; [|split].
    + intros h Hh. destruct (HC h Hh) as [Hn1 Hp1]. unfold Node, db_preimage. destruct e as [e|].
      * destruct He as (-> & -> & _). split.
        -- destruct (nodes db !! h); auto.
        -- destruct (preimages db !! h); auto.
      * destruct He as (-> & _ & Hc & Hp & _ & _ & Hs). rewrite lookup_empty. split.
        -- destruct (Hs h) as [->|[-> Hre]]; [destruct (nodes db !! h); auto|].
           destruct (nodes db !! h) as [n|] eqn:En; [|auto]. rewrite (Hc h n Hre En). specialize (Hb h n Hre En). by destruct (blob n).
        -- destruct (preimages db !! h) eqn:Ep; auto.
    + destruct e as [[]|]; try done. by destruct He as (_ & _ & []).
    + intros ->. intros h Hre [n En]. destruct He as (_ & _ & Hc & _ & _ & Hd & _). split; [by apply Hd|]. intros Hne.
      unfold Node. cbn [NewDatabase nodes diskdb]. rewrite lookup_singleton_ne by done. rewrite (Hc h n Hre En), En.
      specialize (Hb h n Hre En). by destruct (blob n).
Qed.

Lemma ranked_check rank m :
  map_Forall (fun p n => map_Forall (fun c _ => (rank c < rank p)%nat) (children n)) m -> ranked rank m.
Proof. intros H p c (n & Hn & k & Hk). exact (H p n Hn c k Hk). Qed.

Lemma rtc_rank rank m h x : ranked rank m -> rtc (edge m) h x -> (rank x <= rank h)%nat.
Proof. intros Hr. induction 1 as [|p c x Hpc _ IH]; [done|]. apply Hr in Hpc. lia. Qed.

Lemma database_commit_keeps_reads_witness :
  let child := 1 :: replicate 31 0 in
  let node := 2 :: replicate 31 0 in
  exists db, reference child node (insertPreimage child [3] (db_insert node [8; 8] (db_insert child [9] (NewDatabase ∅)))) = Ok db /\
    Node child (NewDatabase (diskdb (Commit 5 node db).2)) = Some [9].
Proof.
  intros child node. eexists. split; [reflexivity|].
  match goal with |- context [Commit 5 node ?x] => set (db := x) end.
  set (rank := fun h : list Z => if bool_decide (h = emptyHash) then 3%nat else Z.to_nat (default 0 (head h))).
  assert (ranked rank (nodes db)) as Hr by (apply ranked_check; apply (bool_decide_unpack _); vm_compute; exact I).
  pose proof (database_commit_keeps_reads rank 5 node db Hr) as Hc.
  assert ((Commit 5 node db).1 = None) as En by (vm_compute; reflexivity).
  destruct (Commit 5 node db) as [e db']. cbn [fst] in En. subst e.
  destruct Hc as (_ & _ & Hd).
  - apply (bool_decide_unpack _). vm_compute. exact I.
  - split; intros h [n Hn]; revert h n Hn; [change (map_Forall (fun h _ => length h = 32%nat) (nodes db))|
      change (map_Forall (fun h _ => length h = 32%nat) (preimages db))]; apply (bool_decide_unpack _); vm_compute; exact I.
  - intros h n Hh%(rtc_rank rank) Hn Hb; [|done]. assert (h = emptyHash) as ->.
    { revert h n Hn Hh Hb. change (map_Forall (fun h n => (rank h <= rank node)%nat -> blob n = None -> h = emptyHash) (nodes db)).
      apply (bool_decide_unpack _). vm_compute. exact I. }
    vm_compute in Hh. lia.
  - assert (edge (nodes db) node child) as Hedge by (eexists; split; [vm_compute; reflexivity|vm_compute; by eexists]).
    destruct (Hd eq_refl child) as [_ Hx]; [by apply rtc_once|vm_compute; by eexists|]. cbn [snd]. rewrite Hx by done. vm_compute. reflexivity.
Defined.


(** ** The read lock *)

Lemma Commit_locked `{DiskDB, HashRange} fuel node db :
  (0 < rlocks db)%nat -> (Commit fuel node db).1 <> None /\ (0 < rlocks (Commit fuel node db).2)%nat.
Proof.
  intros Hl. unfold Commit. destruct (commitPreimages _ _) as [[e|] bd]; cbn [io_then fst snd].
  { split; [done|]. destruct e; cbn; lia. }
  destruct (andThen _ _) as [[e|] bd']; cbn [io_then fst snd]; [done|].
  unfold commit_clear. cbn [set_disk rlocks]. by rewrite (proj2 (Nat.ltb_lt _ _)).
Qed.

(** When a batch of preimages cannot be written, [Commit] returns without giving
    its read lock back.  However often it is called again, [Dereference] waits for
    ever and no [Commit] succeeds. *)
Theorem failed_preimages_keep_lock `{DiskDB, HashRange} fuel node db bd again :
  commitPreimages (hash_range (preimages db)) (disk_NewBatch (diskdb db), diskdb db) = (Some WriteFailed, bd) ->
  let db' := foldl (fun d n => (Commit fuel n d).2) (Commit fuel node db).2 again in
  (Commit fuel node db).1 = Some WriteFailed /\
  (forall child parent, Dereference fuel child parent db' = Err Blocked) /\ forall n, (Commit fuel n db').1 <> None.
Proof.
  intros Hp db'. assert ((0 < rlocks db')%nat /\ (Commit fuel node db).1 = Some WriteFailed) as [Hl E].
  { assert ((0 < rlocks (Commit fuel node db).2)%nat /\ (Commit fuel node db).1 = Some WriteFailed) as [H1 E].
    { unfold Commit. rewrite Hp. cbn. split; [lia|done]. }
    split; [|done]. unfold db'. clear E db' Hp. revert H1. generalize (Commit fuel node db).2.
    induction again as [|n l IH]; intros d Hd; [done|]. cbn [foldl]. by apply IH, Commit_locked. }
  split; [done|]. split; [|intros n; by apply Commit_locked]. intros child parent. unfold Dereference.
  by rewrite (proj2 (Nat.ltb_lt _ _)).
Qed.

(** A disk that is full: batches are written early, and in vain. *)
Definition full_disk : DiskDB := {|
  disk := unit;
  batch := unit;
  disk_Get _ _ := None;
  disk_NewBatch _ := tt;
  batch_Put _ _ _ := Some tt;
  batch_ValueSize _ := IdealBatchSize + 1;
  batch_Write _ _ := None;
  batch_Reset _ := tt
|}.

Lemma failed_preimages_keep_lock_witness :
  let db := @insertPreimage full_disk emptyHash [1] (@NewDatabase full_disk tt) in
  (Commit 5 emptyHash db).1 = Some WriteFailed /\ Dereference 5 emptyHash emptyHash (Commit 5 emptyHash db).2 = Err Blocked.
Proof.
  intros db. destruct (@failed_preimages_keep_lock full_disk _ 5 emptyHash db (tt, tt) []) as (E & Hd & _).
  - vm_compute. reflexivity.
  - split; [exact E|apply Hd].
Defined.
