(* ===== verification/TrieRefs.v ===== *)
(** * References between cached nodes ([reference] and [dereference] of
      [trie/database.go])

    A cached node counts the references to it, and is dropped with its last one.
    The invariant says that the counts are right, for nodes that are not on the
    disk, and that what a cached node needs is cached or on the disk. *)

From S2P Require Import Rlp Sponge TrieNode TrieDatabase TrieHasher TrieTree TrieHashing TrieMap TrieCommit TrieSpec TrieFlush.
From S2P Require Import Prelude.

(** ** Counting references *)

Definition cnt (n : cachedNode) (c : list Z) : Z := default 0 (children n !! c).

(** The references to [c] of all cached nodes. *)
Definition refs (m : gmap (list Z) cachedNode) (c : list Z) : Z := map_fold (fun _ n s => cnt n c + s) 0 m.

Definition positive (m : gmap (list Z) cachedNode) : Prop :=
  forall p n c k, m !! p = Some n -> children n !! c = Some k -> 1 <= k.

Lemma refs_insert m p n c : m !! p = None -> refs (<[p := n]> m) c = cnt n c + refs m c.
Proof. intros Hp. unfold refs. rewrite map_fold_insert_L; [done|intros; lia|done]. Qed.

Lemma refs_delete m p n c : m !! p = Some n -> refs m c = cnt n c + refs (delete p m) c.
Proof. intros Hp. rewrite <- (insert_delete_id m p n Hp) at 1. rewrite refs_insert by apply lookup_delete_eq. done. Qed.

Lemma refs_alter f m p n c : m !! p = Some n -> refs (alter f p m) c = refs m c - cnt n c + cnt (f n) c.
Proof.
  intros Hp. rewrite (refs_delete (alter f p m) p (f n)) by by rewrite lookup_alter_eq, Hp.
  rewrite delete_alter, decide_True, (refs_delete m p n) by done. lia.
Qed.

Lemma refs_alter_same f m p c : (forall n, children (f n) = children n) -> refs (alter f p m) c = refs m c.
Proof.
  intros Hf. destruct (m !! p) as [n|] eqn:E.
  - rewrite (refs_alter f m p n c E). unfold cnt. rewrite Hf. lia.
  - f_equal. apply map_eq. intros k. rewrite lookup_alter. case_decide; [|done]. subst. by rewrite E.
Qed.

(** Nodes that have no reference to [c] do not count. *)
Lemma refs_sub m m' c :
  sub m' m -> (forall p n, m !! p = Some n -> m' !! p = None -> cnt n c = 0) -> refs m' c = refs m c.
Proof.
  revert m'. induction m as [|p n m Hp IH] using map_ind; intros m' Hs Hc.
  { f_equal. apply map_eq. intros k. destruct (Hs k) as [E|E]; [done|by rewrite lookup_empty]. }
  rewrite refs_insert by done. destruct (m' !! p) as [n'|] eqn:E.
  - pose proof (sub_Some _ _ _ _ Hs E) as E'. rewrite lookup_insert_eq in E'. injection E' as <-.
    rewrite (refs_delete m' p n) by done. f_equal. apply IH.
    + intros k. destruct (decide (k = p)) as [->|Hne]; [right; apply lookup_delete_eq|].
      rewrite lookup_delete_ne by done. specialize (Hs k). by rewrite lookup_insert_ne in Hs.
    + intros q n' Hq Hq'. assert (q <> p) by congruence. rewrite lookup_delete_ne in Hq' by done.
      apply (Hc q); [by rewrite lookup_insert_ne|done].
  - rewrite (Hc p n), Z.add_0_l by (rewrite ?lookup_insert_eq; done). apply IH.
    + intros k. destruct (decide (k = p)) as [->|Hne]; [by right|]. specialize (Hs k). by rewrite lookup_insert_ne in Hs.
    + intros q n' Hq Hq'. assert (q <> p) by congruence. apply (Hc q); [by rewrite lookup_insert_ne|done].
Qed.

Lemma refs_none m c : (forall p, ~ edge m p c) -> refs m c = 0.
Proof.
  intros He. rewrite <- (refs_sub m ∅ c); [done|by right|]. intros p n Hp _. unfold cnt.
  destruct (children n !! c) eqn:E; [|done]. destruct (He p). by exists n.
Qed.

Lemma refs_nonneg m c : positive m -> 0 <= refs m c.
Proof.
  induction m as [|p n m Hp IH] using map_ind; intros Hm; [done|]. rewrite refs_insert by done.
  assert (0 <= cnt n c).
  { unfold cnt. destruct (children n !! c) as [k|] eqn:E; [|done]. cbn.
    specialize (Hm p n c k (lookup_insert_eq _ _ _) E). lia. }
  assert (0 <= refs m c); [|lia]. apply IH. intros q n' x k Hq. apply (Hm q). rewrite lookup_insert_ne; [done|congruence].
Qed.

Lemma refs_pos m p c : positive m -> edge m p c -> 1 <= refs m c.
Proof.
  intros Hm (n & Hp & k & Hk). rewrite (refs_delete m p n) by done. assert (0 <= refs (delete p m) c).
  { apply refs_nonneg. intros q n' x j Hq. apply (Hm q). rewrite lookup_delete_Some in Hq. by destruct Hq. }
  unfold cnt. rewrite Hk. cbn. specialize (Hm p n c k Hp Hk). lia.
Qed.

(** ** The trees that are stored

    [B] are the blobs that are ever stored: nodes of tries and codes of contracts.
    [links] are the references of a value that a callback makes: to the storage and
    the code of an account.  References go down in [rank]. *)

Definition tree_in (B : list Z -> Prop) (t : tree) : Prop :=
  good false t /\ in_memory t /\ forall s, part t s -> B (tree_enc s).

Record forest (B : list Z -> Prop) (links : list Z -> list (list Z)) (rank : list Z -> nat) : Prop := {
  B_free : collision_free B;
  T_rank : forall t s, tree_in B t -> direct t s -> (rank (tree_hash s) < rank (tree_hash t))%nat;
  T_links : forall k v c, tree_in B (TShort k (TVal v)) -> c ∈ links v -> (rank c < rank (tree_hash (TShort k (TVal v))))%nat
}.

Section Refs.
Context `{DiskDB, HashRange} (B : list Z -> Prop) (links : list Z -> list (list Z)) (rank : list Z -> nat).
Context (HT : forest B links rank).

#[local] Abbreviation T := (tree_in B).

Definition on_disk (db : Database) (h : list Z) : Prop := is_Some (disk_Get (diskdb db) h).

Definition cached (db : Database) (h : list Z) : Prop := is_Some (nodes db !! h).

(** The disk has nothing else under the hashes of blobs, and the children of trees
    that it has. *)
Definition disk_whole (g : list Z -> option (list Z)) : Prop :=
  (forall b b', B b -> g (keccak256 b) = Some b' -> b' = b) /\
  (forall t s, T t -> direct t s -> is_Some (g (tree_hash t)) -> is_Some (g (tree_hash s))).

(** The invariant, but for the trees whose hashes are in [X]: they are being
    dropped or stored. *)
Record sound_refs (X : list Z -> Prop) (db : Database) : Prop := {
  s_rank : ranked rank (nodes db);
  s_pos : positive (nodes db);
  s_once : forall p n c k, nodes db !! p = Some n -> children n !! c = Some k -> p <> emptyHash -> k = 1;
  s_count : forall c n, nodes db !! c = Some n -> ~ on_disk db c -> parents n = refs (nodes db) c;
  s_live : forall p c, edge (nodes db) p c -> cached db c \/ on_disk db c;
  s_tree : forall t n s, T t -> ~ X (tree_hash t) -> nodes db !! tree_hash t = Some n -> direct t s ->
             is_Some (children n !! tree_hash s) \/ on_disk db (tree_hash s);
  s_disk : disk_whole (disk_Get (diskdb db));
  s_blob : forall b n, B b -> nodes db !! keccak256 b = Some n -> blob n = Some b;
  s_meta : exists n, nodes db !! emptyHash = Some n /\ blob n = None;
  s_keys : hash_keys db
}.

Lemma sound_refs_mono (X Y : list Z -> Prop) db : (forall x, X x -> Y x) -> sound_refs X db -> sound_refs Y db.
Proof. intros HXY []. split; try done. intros t n s Ht Hn. eauto. Qed.

Lemma sound_agrees X db : sound_refs X db -> agrees B db.
Proof.
  intros Hi b Hb. destruct (nodes db !! keccak256 b) as [n|] eqn:E.
  - by apply (s_blob _ _ Hi).
  - intros b'. by apply (proj1 (s_disk _ _ Hi)).
Qed.

(** No blob has the zero hash. *)
Lemma sound_hash X db b : sound_refs X db -> B b -> keccak256 b <> emptyHash.
Proof. intros Hi Hb E. destruct (s_meta _ _ Hi) as (n & Hn & Hx). rewrite <- E in Hn. by rewrite (s_blob _ _ Hi b n) in Hx. Qed.

(** Different trees have different hashes. *)
Lemma T_direct t s : T t -> direct t s -> T s.
Proof.
  intros (Hg & Hm & Hb) Hd. pose proof Hd as (Hgs & _ & Hx). split; [done|].
  split; [|intros u Hu; apply Hb; by eapply direct_part].
  destruct t as [| |k t|l]; [done|done|subst; by eapply in_memory_short|]. apply list_elem_of_lookup_1 in Hx as [i Hi].
  by eapply in_memory_full.
Qed.

Lemma T_blob t : T t -> B (tree_enc t).
Proof. intros (_ & _ & Hb). apply Hb. constructor. Qed.

Lemma T_inj t u : T t -> T u -> tree_hash t = tree_hash u -> t = u.
Proof.
  intros (Hgt & Hmt & Hbt) (Hgu & Hmu & Hbu) E.
  destruct (hash_decides t u (trees_decided t u) Hgt Hgu Hmt Hmu E) as [->|(s & s' & Hs & Hs' & Hne & Eh)]; [done|].
  destruct Hne. apply (B_free _ _ _ HT); auto.
Qed.

(** ** Changing a count *)

(** [parent] has [k] references to [child] now, [d] more than before. *)
Definition recount (child parent : list Z) (ch : gmap (list Z) Z) (d : Z) (db : Database) : Database :=
  upd_node parent (set_children ch) (upd_node child (add_parents d) db).

Lemma rank_ne h h' : (rank h < rank h')%nat -> h <> h'.
Proof. intros Hlt ->. lia. Qed.

Ltac apart := solve [by apply rank_ne | by apply not_eq_sym, rank_ne].

Section Recount.
Context (X : list Z -> Prop) (db : Database) (child parent : list Z) (p : cachedNode) (ch : gmap (list Z) Z) (d : Z).
Context (Hi : sound_refs X db) (Hp : nodes db !! parent = Some p) (Hr : (rank child < rank parent)%nat).
Context (Hother : forall c, c <> child -> ch !! c = children p !! c) (Hd : default 0 (ch !! child) = cnt p child + d).
Context (Hk : forall k, ch !! child = Some k -> 1 <= k /\ (parent <> emptyHash -> k = 1)).
Context (Hlive : is_Some (ch !! child) -> cached db child \/ on_disk db child).
Context (HX : is_Some (children p !! child) -> is_Some (ch !! child) \/ X parent).

Lemma recount_lookup k :
  nodes (recount child parent ch d db) !! k =
    if decide (k = parent) then Some (set_children ch p)
    else if decide (k = child) then add_parents d <$> nodes db !! child else nodes db !! k.
Proof using Hp Hr.
  unfold recount, upd_node. cbn [set_nodes nodes]. rewrite lookup_alter. case_decide as E.
  - subst k. rewrite decide_True, lookup_alter_ne, Hp by (done || apart). done.
  - rewrite decide_False by congruence. rewrite lookup_alter. case_decide as E'; [subst k; by rewrite decide_True|by rewrite decide_False by congruence].
Qed.

Lemma recount_children k n :
  nodes (recount child parent ch d db) !! k = Some n ->
  exists n', nodes db !! k = Some n' /\ blob n = blob n' /\
    (k = parent /\ children n = ch /\ n' = p \/ k <> parent /\ children n = children n') /\
    parents n = parents n' + (if decide (k = child) then d else 0).
Proof.
  rewrite recount_lookup. case_decide as E.
  - intros [= <-]. subst k. exists p. rewrite decide_False by apart. cbn. split; [done|]. split; [done|]. split; [by left|lia].
  - case_decide as E'.
    + subst k. destruct (nodes db !! child) as [n0|]; [|done]. intros [= <-]. exists n0. cbn. split; [done|]. split; [done|]. split; [by right|lia].
    + intros Hn. exists n. split; [done|]. split; [done|]. split; [by right|lia].
Qed.

Lemma recount_cached k : cached (recount child parent ch d db) k <-> cached db k.
Proof.
  unfold cached. rewrite recount_lookup. case_decide as E; [subst k; by rewrite Hp|]. case_decide as E'; [subst k; by rewrite fmap_is_Some|done].
Qed.

Lemma recount_refs c : refs (nodes (recount child parent ch d db)) c = refs (nodes db) c + (if decide (c = child) then d else 0).
Proof.
  unfold recount, upd_node. cbn [set_nodes nodes]. rewrite (refs_alter _ _ parent p).
  2: { rewrite lookup_alter_ne by apart. done. }
  rewrite refs_alter_same by done. unfold cnt at 2. cbn [set_children children]. case_decide as E.
  - subst c. rewrite Hd. lia.
  - rewrite Hother by done. unfold cnt. lia.
Qed.

Lemma recount_child q c :
  edge (nodes (recount child parent ch d db)) q c -> edge (nodes db) q c \/ q = parent /\ c = child /\ is_Some (ch !! child).
Proof.
  intros (n & (n' & Hn' & _ & Hc & _)%recount_children & Hx). destruct Hc as [(-> & Ec & ->)|[_ Ec]]; rewrite Ec in Hx.
  - destruct (decide (c = child)) as [->|Hne]; [by right|]. left. exists p. by rewrite <- Hother.
  - left. by exists n'.
Qed.

Lemma recount_sound : sound_refs X (recount child parent ch d db).
Proof.
  assert (forall h, on_disk (recount child parent ch d db) h <-> on_disk db h) as Hod by done.
  split.
  - intros q c [He|(-> & -> & _)]%recount_child; [by apply (s_rank _ _ Hi)|done].
  - intros q n c k (n' & Hn' & _ & Hc & _)%recount_children Hx. destruct Hc as [(-> & Ec & ->)|[_ Ec]]; rewrite Ec in Hx.
    + destruct (decide (c = child)) as [->|Hne]; [by apply Hk|]. rewrite Hother in Hx by done. by apply (s_pos _ _ Hi parent p c k).
    + by apply (s_pos _ _ Hi q n' c k).
  - intros q n c k (n' & Hn' & _ & Hc & _)%recount_children Hx Hq. destruct Hc as [(-> & Ec & ->)|[_ Ec]]; rewrite Ec in Hx.
    + destruct (decide (c = child)) as [->|Hne]; [by apply Hk|]. rewrite Hother in Hx by done. by apply (s_once _ _ Hi parent p c k).
    + by apply (s_once _ _ Hi q n' c k).
  - intros c n (n' & Hn' & _ & _ & ->)%recount_children Hnd. by rewrite recount_refs, (s_count _ _ Hi c n').
  - intros q c He. rewrite recount_cached, Hod. apply recount_child in He as [He|(-> & -> & Hx)]; [by apply (s_live _ _ Hi q)|by apply Hlive].
  - intros t n s Ht HnX (n' & Hn' & _ & Hc & _)%recount_children Hds. rewrite Hod.
    destruct (s_tree _ _ Hi t n' s Ht HnX Hn' Hds) as [Hx|Hx]; [|by right]. left.
    destruct Hc as [(E & -> & ->)|[_ ->]]; [|done]. destruct (decide (tree_hash s = child)) as [Es|Hne].
    + rewrite Es in Hx |- *. destruct (HX Hx) as [?|Hpx]; [done|]. by rewrite E in HnX.
    + by rewrite Hother.
  - apply (s_disk _ _ Hi).
  - intros b n Hb (n' & Hn' & -> & _)%recount_children. by apply (s_blob _ _ Hi).
  - destruct (s_meta _ _ Hi) as (n & Hn & Hb). rewrite recount_lookup. case_decide as E.
    + eexists. split; [done|]. cbn. subst. assert (n = p) as <- by congruence. done.
    + case_decide as E'; [|by exists n]. subst. rewrite Hn. by eexists.
  - destruct (s_keys _ _ Hi) as [Hn Hpr]. split; [|done]. intros h Hh. apply Hn. by apply recount_cached.
Qed.
End Recount.

(** ** [reference] *)

Lemma reference_sound X child parent db :
  sound_refs X db -> cached db parent -> (rank child < rank parent)%nat ->
  exists db', reference child parent db = Ok db' /\ sound_refs X db' /\ only_refs db db' /\ rlocks db' = rlocks db /\
    (cached db child -> edge (nodes db') parent child) /\ (forall p c, edge (nodes db) p c -> edge (nodes db') p c).
Proof.
  intros Hi [p Hp] Hr. assert (is_Some (nodes db !! parent)) as Hsp by by exists p.
  destruct (reference_refs child parent db Hsp) as (db' & E & Ho). exists db'. split; [done|].
  revert E. unfold reference. destruct (nodes db !! child) as [c|] eqn:Ec.
  2: { intros [= <-]. split; [done|]. split; [done|]. split; [done|]. split; [by intros [? ?]; congruence|done]. }
  rewrite Hp. case_match eqn:Ex.
  { intros [= <-]. apply andb_true_iff in Ex as [Ex _]. apply bool_decide_eq_true in Ex.
    split; [done|]. split; [done|]. split; [done|]. split; [by exists p|done]. }
  set (ch := <[child := default 0 (children p !! child) + 1]> (children p)). intros [= E].
  assert (db' = recount child parent ch 1 db) as Edb.
  { rewrite <- E. unfold recount, upd_node. cbn [set_nodes nodes nodesSize]. unfold set_nodes. f_equal.
    apply alter_ext. intros x. rewrite lookup_alter_ne, Hp by (intros ->; lia). by intros [= <-]. }
  assert (forall k, ch !! child = Some k -> 1 <= k /\ (parent <> emptyHash -> k = 1)) as Hk.
  { unfold ch. intros k. rewrite lookup_insert_eq. intros [= <-]. apply andb_false_iff in Ex.
    destruct (children p !! child) as [j|] eqn:Ej; cbn [from_option id]; [|lia]. pose proof (s_pos _ _ Hi parent p child j Hp Ej).
    split; [lia|]. intros Hne. exfalso. destruct Ex as [Ex|Ex]; apply bool_decide_eq_false in Ex; [|done]. apply Ex. by exists j. }
  rewrite Edb in Ho |- *. split; [|split; [done|split; [done|split]]].
  - apply (recount_sound X db child parent p ch 1); try done; unfold ch; rewrite ?lookup_insert_eq.
    + intros x Hx. by rewrite lookup_insert_ne.
    + done.
    + intros _. left. by exists c.
    + intros _. left. by eexists.
  - intros _. eexists. rewrite (recount_lookup db child parent p) by done. rewrite decide_True by done. split; [done|]. cbn.
    unfold ch. rewrite lookup_insert_eq. by eexists.
  - intros q x (n & Hn & Hx). unfold edge. rewrite (recount_lookup db child parent p) by done. destruct (decide (q = parent)) as [Eq|Eq].
    + eexists. split; [done|]. cbn. subst q. assert (n = p) as -> by congruence. unfold ch. by apply lookup_insert_is_Some'; right.
    + destruct (decide (q = child)) as [Eq'|Eq']; [|by exists n]. subst q. rewrite Ec in Hn |- *. injection Hn as ->. by eexists.
Qed.

(** Several references of one node. *)
Definition gains (X : list Z -> Prop) (db db' : Database) : Prop :=
  sound_refs X db' /\ only_refs db db' /\ rlocks db' = rlocks db /\ forall p c, edge (nodes db) p c -> edge (nodes db') p c.

Lemma gains_refl X db : sound_refs X db -> gains X db db.
Proof. intros Hs. split; [done|]. split; [reflexivity|]. by split. Qed.

Lemma gains_trans X db1 db2 db3 : gains X db1 db2 -> gains X db2 db3 -> gains X db1 db3.
Proof.
  intros (_ & Ho1 & El1 & He1) (Hs & Ho2 & El2 & He2). split; [done|]. split; [by etransitivity|]. split; [congruence|auto].
Qed.

Lemma gains_cached X db db' h : gains X db db' -> cached db h -> cached db' h.
Proof. intros (_ & [Ho _] & _). by apply same_reads_cached. Qed.

Lemma referenceAll_sound X l parent db :
  sound_refs X db -> cached db parent -> Forall (fun c => (rank c < rank parent)%nat) l ->
  exists db', referenceAll l parent db = Ok db' /\ gains X db db'.
Proof.
  intros Hi Hp Hl. revert db Hi Hp. induction Hl as [|c l Hc _ IH]; intros db Hi Hp; cbn [referenceAll].
  { exists db. split; [done|by apply gains_refl]. }
  destruct (reference_sound X c parent db Hi Hp Hc) as (db1 & -> & Hi1 & Ho1 & El1 & _ & He1). cbn [res_bind].
  assert (gains X db db1) as Hg by done. destruct (IH db1 Hi1) as (db2 & -> & Hg2); [by eapply gains_cached|].
  exists db2. split; [done|by eapply gains_trans].
Qed.

(** The children of a node, or its values, are referenced. *)
Lemma overChildren_sound X f parent l db :
  (forall c db, c ∈ l -> sound_refs X db -> cached db parent -> exists db', f c db = Ok db' /\ gains X db db') ->
  sound_refs X db -> cached db parent -> exists db', overChildren f l db = Ok db' /\ gains X db db'.
Proof.
  intros Hf. revert db. induction l as [|c l IH]; intros db Hi Hp; cbn [overChildren].
  { exists db. split; [done|by apply gains_refl]. }
  destruct (Hf c db) as (db1 & -> & Hg); [by apply elem_of_cons; left|done..|]. cbn [res_bind].
  destruct (IH) with db1 as (db2 & -> & Hg2); [|by destruct Hg|by eapply gains_cached|].
  { intros x d Hx. apply Hf, elem_of_cons. by right. }
  exists db2. split; [done|by eapply gains_trans].
Qed.

(** ** Storing *)

Lemma insert_sound X b db :
  sound_refs X db -> B b -> (forall t, T t -> tree_hash t = keccak256 b -> X (keccak256 b)) ->
  sound_refs X (db_insert (keccak256 b) b db).
Proof.
  intros Hi Hb HX. unfold db_insert. set (h := keccak256 b) in *. destruct (nodes db !! h) as [n|] eqn:En; [done|].
  set (n0 := mkCached (Some b) 0 ∅).
  match goal with |- sound_refs X ?x => set (db' := x) end.
  assert (forall k n, nodes db' !! k = Some n -> k = h /\ n = n0 \/ k <> h /\ nodes db !! k = Some n) as Hlk.
  { intros k n. unfold db'. cbn [set_nodes nodes]. rewrite lookup_insert. case_decide as E; [|by right].
    intros [= <-]. left. by rewrite E. }
  assert (forall k, k <> h -> nodes db' !! k = nodes db !! k) as Hne.
  { intros k Hk. unfold db'. cbn [set_nodes nodes]. by rewrite lookup_insert_ne. }
  assert (forall p c, edge (nodes db') p c -> edge (nodes db) p c) as He.
  { intros p c (n & [[-> ->]|[_ Hn]]%Hlk & Hx); [by destruct Hx|by exists n]. }
  assert (forall k, cached db k -> cached db' k) as Hc.
  { intros k [n Hn]. assert (k <> h) by congruence. exists n. by rewrite Hne. }
  assert (forall c, refs (nodes db') c = refs (nodes db) c) as Hrf.
  { intros c. unfold db'. cbn [set_nodes nodes]. by rewrite refs_insert. }
  split.
  - intros p c Hpc. by apply (s_rank _ _ Hi), He.
  - intros p n c k [[_ ->]|[_ Hn]]%Hlk; [done|by apply (s_pos _ _ Hi p)].
  - intros p n c k [[_ ->]|[_ Hn]]%Hlk; [done|by apply (s_once _ _ Hi p)].
  - intros c n Hn Hd. rewrite Hrf. apply Hlk in Hn as [[-> ->]|[_ Hn]]; [|by apply (s_count _ _ Hi)].
    rewrite refs_none; [done|]. intros p Hpc. destruct (s_live _ _ Hi p h Hpc) as [[? ?]|?]; [congruence|done].
  - intros p c Hpc%He. destruct (s_live _ _ Hi p c Hpc) as [?|?]; [left; auto|by right].
  - intros t n s Ht HnX Hn Hd. apply Hlk in Hn as [[Eh ->]|[_ Hn]]; [|by apply (s_tree _ _ Hi t)].
    destruct HnX. rewrite Eh. by apply (HX t).
  - apply (s_disk _ _ Hi).
  - intros c n Hc' [[Eh ->]|[_ Hn]]%Hlk; [|by apply (s_blob _ _ Hi)]. cbn. f_equal. by apply (B_free _ _ _ HT).
  - destruct (s_meta _ _ Hi) as (n & Hn & Hx). exists n. rewrite Hne; [done|congruence].
  - destruct (s_keys _ _ Hi) as [Hk Hp]. split; [|done]. intros k [n [[-> _]|[_ Hn]]%Hlk]; [apply length_keccak256|].
    apply Hk. by exists n.
Qed.

(** The callback for values makes their references. *)
Definition leaf_links (leaf : option LeafCallback) : Prop :=
  forall f, leaf = Some f -> forall v parent db, f v parent db = referenceAll (links v) parent db.

Lemma leaf_links_refers leaf : leaf_links leaf -> leaf_refers leaf.
Proof.
  intros Hl f Ef v parent db Hp. rewrite (Hl f Ef). revert db Hp. induction (links v) as [|c l IH]; intros db Hp; cbn [referenceAll].
  { by exists db. }
  destruct (reference_refs c parent db Hp) as (db1 & -> & H1). cbn [res_bind].
  destruct (IH db1) as (db2 & -> & H2); [by eapply same_reads_cached; [destruct H1|]|]. exists db2. split; [done|by etransitivity].
Qed.

Lemma referChildren_sound X parent l db :
  (forall x, hashNode x ∈ l -> (rank x < rank parent)%nat /\ BytesToHash x = x) -> sound_refs X db -> cached db parent ->
  exists db', overChildren (referChild parent) l db = Ok db' /\ gains X db db' /\
    forall x, hashNode x ∈ l -> cached db x -> edge (nodes db') parent x.
Proof.
  revert db. induction l as [|c l IH]; intros db Hl Hi Hp; cbn [overChildren].
  { exists db. split; [done|]. split; [by apply gains_refl|]. by intros x ?%elem_of_nil. }
  assert (exists db1, referChild parent c db = Ok db1 /\ gains X db db1 /\
            forall x, hashNode x = c -> cached db x -> edge (nodes db1) parent x) as (db1 & -> & Hg1 & He1).
  { destruct c as [|x| | |]; try (exists db; split; [done|]; split; [by apply gains_refl|done]).
    destruct (Hl x) as [Hr Ex]; [by apply elem_of_cons; left|]. cbn [referChild]. rewrite Ex.
    destruct (reference_sound X x parent db Hi Hp Hr) as (db1 & -> & Hi1 & Ho1 & El1 & Hc1 & He1).
    exists db1. split; [done|]. split; [done|]. by intros y [= ->]. }
  cbn [res_bind]. destruct (IH db1) as (db2 & -> & Hg2 & He2); [|by destruct Hg1|by eapply gains_cached|].
  { intros x Hx. apply Hl, elem_of_cons. by right. }
  exists db2. split; [done|]. split; [by eapply gains_trans|]. intros x [Ec|Hx]%elem_of_cons Hc.
  - apply Hg2. by apply He1.
  - apply He2; [done|by eapply gains_cached].
Qed.

Lemma leafChildren_sound X h c t db :
  leaf_links (onleaf h) -> refs_of c t -> T t -> sound_refs X db -> cached db (tree_hash t) ->
  exists db', match onleaf h with
              | Some f => overChildren (leafChild f (tree_hash t)) (children16 c) db
              | None => Ok db
              end = Ok db' /\ gains X db db'.
Proof.
  intros Hleaf [_ Hrv] Ht Hi Hp. destruct (onleaf h) as [f|] eqn:Ef.
  2: { exists db. split; [done|by apply gains_refl]. }
  apply (overChildren_sound X _ (tree_hash t)); [|done..]. intros n d Hn Hid Hpd.
  destruct n as [| |[v|]| |]; try (exists d; split; [done|by apply gains_refl]). cbn [leafChild]. rewrite (Hleaf f eq_refl).
  destruct (Hrv v Hn) as [k ->]. apply referenceAll_sound; [done..|]. apply Forall_forall. intros x Hx.
  by apply (T_links _ _ _ HT).
Qed.

Lemma store_sound X h : leaf_links (onleaf h) -> store_keeps B h (sound_refs X).
Proof.
  intros Hleaf t c db db' Hi Ha Hg Hm HB Hst Href E. assert (T t) as Ht by by split; [|split].
  set (X' := fun x => X x \/ x = tree_hash t).
  assert (sound_refs X' (db_insert (tree_hash t) (tree_enc t) db)) as Hi1.
  { apply insert_sound; [eapply sound_refs_mono; [|done]; by left|by apply T_blob|by right]. }
  destruct (db_insert_spec B (tree_enc t) db (B_free _ _ _ HT) Ha (T_blob t Ht)) as (_ & Hk1 & _ & Hp1). fold (tree_hash t) in *.
  unfold store_effect in E. set (db1 := db_insert _ _ db) in *. pose proof Href as [Hrc _].
  destruct (referChildren_sound X' (tree_hash t) (children16 c) db1) as (db2 & E2 & Hg2 & He2); [|done..|].
  { intros x (s & Hs & ->)%Hrc. split; [by apply (T_rank _ _ _ HT)|apply BytesToHash_hash]. }
  rewrite E2 in E. cbn [res_bind] in E.
  destruct (leafChildren_sound X' h c t db2 Hleaf Href Ht) as (db3 & E3 & Hg3); [by destruct Hg2|by eapply gains_cached|].
  rewrite E3 in E. injection E as <-. pose proof Hg3 as (Hi3 & [[Ed3 _] _] & _ & He3). pose proof Hg2 as (_ & [[Ed2 _] _] & _).
  destruct Hi3. split; try done. intros u n s Hu HnX Hn Hd. destruct (decide (tree_hash u = tree_hash t)) as [Eu|Hne].
  2: { apply (s_tree0 u); [done|by intros [?|?]|done..]. }
  assert (u = t) as -> by by apply T_inj. destruct (Hst s Hd) as (_ & _ & Hs). specialize (Hs s (part_self s)).
  apply Hk1 in Hs. unfold Node in Hs. destruct (nodes db1 !! tree_hash s) as [ns|] eqn:Ens.
  - left. destruct (He3 (tree_hash t) (tree_hash s)) as (n' & Hn' & Hx).
    { apply He2; [|by exists ns]. apply Hrc. by exists s. }
    by assert (n' = n) as <- by congruence.
  - right. unfold on_disk. rewrite Ed3, Ed2. by exists (tree_enc s).
Qed.

(** ** [dereference] *)

(** One reference less: the counts first. *)
Definition unrefer (child parent : list Z) (db : Database) : Database :=
  upd_node child (add_parents (-1)) (upd_node parent (drop_child child) db).

Lemma unrefer_recount child parent p db :
  nodes db !! parent = Some p -> child <> parent ->
  unrefer child parent db = recount child parent (children (drop_child child p)) (-1) db.
Proof.
  intros Hp Hne. unfold unrefer, recount, upd_node, set_nodes. cbn. f_equal.
  rewrite alter_alter_ne by done. apply alter_ext. intros x. rewrite lookup_alter_ne, Hp by done. by intros [= <-].
Qed.

Section Unrefer.
Context (X : list Z -> Prop) (db : Database) (child parent : list Z) (p : cachedNode).
Context (Hi : sound_refs X db) (Hp : nodes db !! parent = Some p) (Hc : is_Some (children p !! child)).

Lemma unrefer_rank : (rank child < rank parent)%nat.
Proof. apply (s_rank _ _ Hi). by exists p. Qed.

Lemma unrefer_sound : X parent -> sound_refs X (unrefer child parent db).
Proof.
  intros HX. pose proof unrefer_rank as Hr. rewrite (unrefer_recount child parent p) by (done || by apply rank_ne).
  destruct Hc as [k Ek]. pose proof (s_pos _ _ Hi parent p child k Hp Ek) as Hk.
  assert (default 0 (children p !! child) = k) as Edk by by rewrite Ek.
  apply (recount_sound X db child parent p); try done; unfold drop_child; cbn [set_children children]; rewrite Edk.
  - intros c Hne. case_match; [by rewrite lookup_delete_ne|by rewrite lookup_insert_ne].
  - unfold cnt. rewrite Edk. destruct (Z.eqb_spec (k - 1) 0) as [E|E]; [rewrite lookup_delete_eq; cbn; lia|by rewrite lookup_insert_eq].
  - intros j. destruct (Z.eqb_spec (k - 1) 0) as [E|E]; [by rewrite lookup_delete_eq|]. rewrite lookup_insert_eq. intros [= <-].
    split; [lia|]. intros Hne. pose proof (s_once _ _ Hi parent p child k Hp Ek Hne). lia.
  - intros _. apply (s_live _ _ Hi parent). exists p. split; [done|by exists k].
  - by right.
Qed.

Lemma unrefer_lookup k :
  nodes (unrefer child parent db) !! k =
    if decide (k = parent) then Some (drop_child child p)
    else if decide (k = child) then add_parents (-1) <$> nodes db !! child else nodes db !! k.
Proof.
  pose proof unrefer_rank as Hr. rewrite (unrefer_recount child parent p) by (done || by apply rank_ne).
  by rewrite (recount_lookup db child parent p).
Qed.
End Unrefer.

(** What dropping a reference does. *)
Record unreferred (X : list Z -> Prop) (child parent : list Z) (db db' : Database) : Prop := {
  u_sound : sound_refs X db';
  u_only : only_nodes db db';
  u_above : forall q, (rank child < rank q)%nat -> q <> parent -> nodes db' !! q = nodes db !! q;
  u_parent : nodes db' !! parent = drop_child child <$> nodes db !! parent;
  u_blob : forall q n', nodes db' !! q = Some n' -> exists n, nodes db !! q = Some n /\ blob n' = blob n
}.

(** A node without references and without children is dropped. *)
Lemma delete_sound X h n size db :
  sound_refs (fun x => X x \/ x = h) db -> nodes db !! h = Some n -> parents n = 0 -> children n = ∅ -> h <> emptyHash ->
  sound_refs X (set_nodes (delete h (nodes db)) size db).
Proof.
  intros Hi Hn Hpar Hch Hne. match goal with |- sound_refs X ?x => set (db' := x) end.
  assert (sub (nodes db') (nodes db)) as Hs by by apply sub_delete.
  assert (forall k m, nodes db' !! k = Some m -> k <> h /\ nodes db !! k = Some m) as Hlk.
  { intros k m. unfold db'. cbn [set_nodes nodes]. rewrite lookup_delete_Some. naive_solver. }
  assert (forall k, k <> h -> nodes db' !! k = nodes db !! k) as Hk by (intros k Hk; by apply lookup_delete_ne).
  assert (forall c, refs (nodes db') c = refs (nodes db) c) as Hrf.
  { intros c. rewrite (refs_delete (nodes db) h n) by done. unfold cnt. by rewrite Hch, lookup_empty. }
  split.
  - intros p c Hpc. apply (s_rank _ _ Hi). by eapply sub_edge.
  - intros p m c k [_ Hm]%Hlk. by apply (s_pos _ _ Hi p).
  - intros p m c k [_ Hm]%Hlk. by apply (s_once _ _ Hi p).
  - intros c m [_ Hm]%Hlk Hd. rewrite Hrf. by apply (s_count _ _ Hi).
  - intros p c Hpc%(sub_edge _ _ _ _ Hs). destruct (s_live _ _ Hi p c Hpc) as [Hc|?]; [|by right].
    destruct (decide (c = h)) as [->|Hch']; [|left; unfold cached; by rewrite Hk].
    destruct (disk_Get (diskdb db) h) as [b|] eqn:Ed; [right; by exists b|exfalso].
    pose proof (refs_pos _ _ _ (s_pos _ _ Hi) Hpc) as Hpos.
    rewrite <- (s_count _ _ Hi h n Hn), Hpar in Hpos; [lia|]. intros [b Eb]. congruence.
  - intros t m s Ht HnX [Hth Hm]%Hlk Hd. apply (s_tree _ _ Hi t); [done|by intros [?|?]|done..].
  - apply (s_disk _ _ Hi).
  - intros b m Hb [_ Hm]%Hlk. by apply (s_blob _ _ Hi).
  - destruct (s_meta _ _ Hi) as (m & Hm & Hb). exists m. by rewrite Hk.
  - destruct (s_keys _ _ Hi) as [Hkn Hkp]. split; [|done]. intros k [m [_ Hm]%Hlk]. apply Hkn. by exists m.
Qed.

(** Everything that is being dropped has a higher rank than [h]. *)
Definition above (X : list Z -> Prop) (h : list Z) : Prop := X emptyHash /\ forall x, X x -> (rank h < rank x)%nat.

Definition dereferences (fuel : nat) : Prop :=
  forall X child parent p db, sound_refs X db -> nodes db !! parent = Some p -> is_Some (children p !! child) -> X parent ->
    above X child -> (rank child < fuel)%nat ->
    exists db', dereference fuel child parent db = Ok db' /\ unreferred X child parent db db'.

Lemma drop_once c n :
  children n !! c = Some 1 -> children (drop_child c n) = delete c (children n) /\
  parents (drop_child c n) = parents n /\ blob (drop_child c n) = blob n.
Proof. intros E. unfold drop_child. rewrite E. done. Qed.

Lemma dereference_children fuel X h l n db :
  dereferences fuel -> sound_refs X db -> nodes db !! h = Some n -> h <> emptyHash -> X h -> X emptyHash ->
  (forall x, X x -> (rank h <= rank x)%nat) -> (rank h <= fuel)%nat -> NoDup l ->
  (forall c, c ∈ l <-> is_Some (children n !! c)) ->
  exists db' n', foldl (fun r c => let* db := r in dereference fuel c h db) (Ok db) l = Ok db' /\ sound_refs X db' /\
    only_nodes db db' /\ nodes db' !! h = Some n' /\ parents n' = parents n /\ blob n' = blob n /\ children n' = ∅ /\
    (forall q, (rank h <= rank q)%nat -> q <> h -> nodes db' !! q = nodes db !! q) /\
    (forall q n', nodes db' !! q = Some n' -> exists n, nodes db !! q = Some n /\ blob n' = blob n).
Proof.
  intros IH. revert n db. induction l as [|c l IHl]; intros n db Hi Hn Hne Hh He HX Hf Hnd Hl; cbn [foldl].
  { exists db, n. split; [done|]. split; [done|]. split; [reflexivity|]. split; [done|]. split; [done|]. split; [done|].
    split; [|by split; [|eauto]]. apply map_empty. intros c. apply eq_None_not_Some. intros Hc%Hl. by apply elem_of_nil in Hc. }
  apply NoDup_cons in Hnd as [Hni Hnd]. assert (is_Some (children n !! c)) as Hc by (apply Hl, elem_of_cons; by left).
  assert (rank c < rank h)%nat as Hr by (apply (s_rank _ _ Hi); by exists n).
  destruct (IH X c h n db Hi Hn Hc Hh) as (db1 & E1 & [Hi1 Ho1 Ha1 Hp1 Hb1]); [|lia|].
  { split; [done|]. intros x Hx%HX. lia. }
  cbn [res_bind]. rewrite E1. rewrite Hn in Hp1. cbn in Hp1. destruct Hc as [k Ek].
  assert (k = 1) as -> by by apply (s_once _ _ Hi h n c k). destruct (drop_once c n Ek) as (Ec & Epa & Ebl).
  destruct (IHl (drop_child c n) db1) as (db2 & n2 & -> & Hi2 & Ho2 & Hn2 & Epa2 & Ebl2 & Ech2 & Ha2 & Hb2); try done.
  { intros x. rewrite Ec, lookup_delete_is_Some, <- (Hl x), elem_of_cons. split.
    - intros Hx. split; [intros ->; done|by right].
    - intros [Hxc [->|Hx]]; done. }
  exists db2, n2. split; [done|]. split; [done|]. split; [by etransitivity|]. split; [done|]. split; [congruence|].
  split; [congruence|]. split; [done|]. split.
  - intros q Hq Hqh. rewrite Ha2 by done. apply Ha1; [lia|done].
  - intros q n' Hq. destruct (Hb2 q n' Hq) as (n1 & Hq1 & Eq1), (Hb1 q n1) as (n0 & Hq0 & Eq0); [done|]. exists n0. split; [done|congruence].
Qed.

Lemma dereference_sound fuel : dereferences fuel.
Proof.
  induction fuel as [|fuel IH]; intros X child parent p db Hi Hp Hc HX [He Hab] Hf; [lia|].
  pose proof (unrefer_rank X db child parent p Hi Hp Hc) as Hr. pose proof (unrefer_sound X db child parent p Hi Hp Hc HX) as Hi1.
  pose proof (unrefer_lookup X db child parent p Hi Hp Hc) as Hlk1.
  assert (nodes (upd_node parent (drop_child child) db) !! child = nodes db !! child) as Ec.
  { unfold upd_node. cbn [set_nodes nodes]. apply lookup_alter_ne. intros E. rewrite E in Hr. lia. }
  cbn [dereference]. rewrite Hp. cbn zeta. rewrite Ec. fold (unrefer child parent db).
  assert (unreferred X child parent db (unrefer child parent db)) as Hu1.
  { split; [done|by split| | |].
    - intros q Hq Hqp. rewrite Hlk1, !decide_False; [done|intros ->; lia|done].
    - by rewrite Hlk1, decide_True, Hp.
    - intros q n'. rewrite Hlk1. case_decide as E; [intros [= <-]; subst; by exists p|].
      case_decide as E'; [|by exists n']. subst q. destruct (nodes db !! child) as [nc|]; [|done]. intros [= <-]. by exists nc. }
  destruct (nodes db !! child) as [nc|] eqn:Enc.
  2: { eexists. split; [done|]. assert (upd_node parent (drop_child child) db = unrefer child parent db) as ->; [|done].
       unfold unrefer, upd_node, set_nodes. cbn. f_equal. symmetry. apply alter_id'. cbn in Ec. by rewrite Ec. }
  destruct (Z.eqb_spec (parents nc - 1) 0) as [Ez|Ez]; [|by eexists].
  destruct Hu1 as [_ Ho1 Ha1 Hp1 Hb1].
  destruct (dereference_children fuel (fun x => X x \/ x = child) child (hash_range (children nc)).*1 (add_parents (-1) nc)
              (unrefer child parent db)) as (db2 & n2 & E2 & Hi2 & Ho2 & Hn2 & Epa & Ebl & Ech & Ha2 & Hb2); [exact IH| | | | | | | | | |].
  - eapply sound_refs_mono; [|done]. by left.
  - rewrite Hlk1, decide_False, decide_True by (done || (intros E; rewrite E in Hr; lia)). by rewrite ?Enc.
  - intros E. specialize (Hab _ He). rewrite E in Hab. lia.
  - by right.
  - by left.
  - intros x [Hx|Hx]; [by apply Nat.lt_le_incl, Hab|by subst].
  - lia.
  - apply hash_range_NoDup.
  - apply hash_range_keys.
  - rewrite E2. cbn [res_bind]. eexists. split; [done|]. split.
    + eapply delete_sound; [done|done| |done|].
      * rewrite Epa. cbn. lia.
      * intros E. specialize (Hab _ He). rewrite E in Hab. lia.
    + destruct Ho1 as (? & ? & ?), Ho2 as (? & ? & ?). split; [|split]; cbn; congruence.
    + intros q Hq Hqp. cbn [set_nodes nodes]. rewrite lookup_delete_ne, Ha2; [by apply Ha1|lia|intros ->; lia|intros ->; lia].
    + cbn [set_nodes nodes]. rewrite lookup_delete_ne, Ha2; [done|lia|intros E; rewrite E in Hr; lia|intros E; rewrite E in Hr; lia].
    + intros q n'. cbn [set_nodes nodes]. rewrite lookup_delete_Some. intros [_ Hq].
      destruct (Hb2 q n' Hq) as (n1 & Hq1 & Eq1), (Hb1 q n1) as (n0 & Hq0 & Eq0); [done|]. exists n0. split; [done|congruence].
Qed.
End Refs.
