(* ===== verification/TrieLife.v ===== *)
(** * The life of the trie database

    Tries are committed to the database, their roots are referenced and
    dereferenced, and roots are written to the disk, in any order and with any
    errors of the disk.  Every root that is referenced can be read in full, and
    so can every root that is on the disk, by this database and by one that is
    opened on the disk later. *)

From S2P Require Import Rlp Sponge TrieNode TrieDatabase Trie TrieHasher TrieTree TrieHashing TrieMap TrieCommit TrieSpec TrieFlush.
From S2P Require Import TrieRefs Prelude.

Section Life.
Context `{DiskLaws, HashRange} (B : list Z -> Prop) (links : list Z -> list (list Z)) (rank : list Z -> nat).
Context (HT : forest B links rank).

#[local] Abbreviation T := (tree_in B).

(** The node with the references to the roots is no tree. *)
Definition meta (h : list Z) : Prop := h = emptyHash.

#[local] Abbreviation sound := (sound_refs B rank meta).

(** ** Reading *)

Definition present (db : Database) (h : list Z) : Prop := cached db h \/ on_disk db h.

Lemma present_direct db t s : sound db -> T t -> direct t s -> present db (tree_hash t) -> present db (tree_hash s).
Proof.
  intros Hi Ht Hd Hp. assert (~ meta (tree_hash t)) as Hm by by apply (sound_hash B rank meta db), T_blob.
  destruct (nodes db !! tree_hash t) as [n|] eqn:En.
  - destruct (s_tree _ _ _ _ Hi t n s Ht Hm En Hd) as [Hc|?]; [|by right]. apply (s_live _ _ _ _ Hi (tree_hash t)). by exists n.
  - destruct Hp as [[n' ?]|Hp]; [congruence|]. right. by apply (proj2 (s_disk _ _ _ _ Hi) t s).
Qed.

Lemma present_Node db t : sound db -> T t -> present db (tree_hash t) -> Node (tree_hash t) db = Some (tree_enc t).
Proof.
  intros Hi Ht Hp. unfold Node. pose proof (T_blob B t Ht) as Hb. destruct (nodes db !! tree_hash t) as [n|] eqn:En.
  - by apply (s_blob _ _ _ _ Hi).
  - destruct Hp as [[n' ?]|[b Eb]]; [congruence|]. rewrite Eb. f_equal. by apply (proj1 (s_disk _ _ _ _ Hi)).
Qed.

(** A tree whose root is there is there. *)
Lemma present_stored db t : sound db -> T t -> present db (tree_hash t) -> stored db t.
Proof.
  intros Hi Ht Hp. pose proof Ht as (Hg & Hm & _). split; [done|]. split; [done|]. intros s Hs. clear Hg Hm.
  revert Ht Hp. induction Hs as [t|k t s Hg El _ IH|l i t s Hl Hg El _ IH]; intros Ht Hp; [by apply present_Node|..].
  - assert (direct (TShort k t) t) as Hd by by split; [|split]. apply IH; [by eapply T_direct|by eapply present_direct].
  - assert (direct (TFull l) t) as Hd by (split; [done|]; split; [done|]; by eapply list_elem_of_lookup_2).
    apply IH; [by eapply T_direct|by eapply present_direct].
Qed.

(** ** A new database *)

Context (Hzero : forall b, B b -> keccak256 b <> emptyHash).

Lemma NewDatabase_sound d : disk_whole B (disk_Get d) -> sound (NewDatabase d).
Proof.
  intros Hd. assert (forall k n, nodes (NewDatabase d) !! k = Some n -> k = emptyHash /\ n = mkCached None 0 ∅) as Hlk.
  { intros k n Hk. cbn [NewDatabase nodes] in Hk. by apply lookup_singleton_Some in Hk as [<- <-]. }
  split; try done.
  - intros p c (n & [_ ->]%Hlk & [k Hk]). done.
  - intros p n c k [_ ->]%Hlk. done.
  - intros p n c k [_ ->]%Hlk. done.
  - intros c n [_ ->]%Hlk _. rewrite refs_none; [done|]. intros p (n & [_ ->]%Hlk & [k Hk]). done.
  - intros p c (n & [_ ->]%Hlk & [k Hk]). done.
  - intros t n s _ Hm [Eh _]%Hlk. done.
  - intros b n Hb [Eh _]%Hlk. by destruct (Hzero b Hb).
  - eexists. split; [apply lookup_singleton_eq|done].
  - split; [|by intros h [? ?]]. intros h [n [-> _]%Hlk]. done.
Qed.

(** ** The disk grows *)

Definition regrown (db : Database) (g : list Z -> option (list Z)) : Prop :=
  disk_whole B g /\ forall x, on_disk db x -> is_Some (g x).

Lemma over_Some g k v x : is_Some (over g k v x) <-> x = k \/ is_Some (g x).
Proof. unfold over. case_decide as E; [|naive_solver]. split; [by left|by intros _; eexists]. Qed.

Lemma regrown_ext db : extensional (regrown db).
Proof.
  intros g g' E [[Hw1 Hw2] Hgr]. split; [split|]; intros *; rewrite ?E; [apply Hw1|apply Hw2|apply Hgr].
Qed.

Lemma regrown_put db g h n :
  sound db -> nodes db !! h = Some n -> regrown db g -> (forall c, is_Some (children n !! c) -> covered (nodes db) g c) ->
  regrown db (over g h (default [] (blob n))).
Proof.
  intros Hi Hn [[Hw1 Hw2] Hgr] Hc. split; [split|].
  - intros b b' Hb. unfold over. case_decide as E; [|by apply Hw1]. intros [= <-]. subst h. by rewrite (s_blob _ _ _ _ Hi b n Hb Hn).
  - intros t s Ht Hd. rewrite !over_Some. destruct (decide (tree_hash t = h)) as [E|E].
    2: { intros [?|Hx]; [done|]. right. by apply (Hw2 t). }
    intros _. right. assert (~ meta (tree_hash t)) as Hm by by apply (sound_hash B rank meta db), T_blob.
    rewrite <- E in Hn. destruct (s_tree _ _ _ _ Hi t n s Ht Hm Hn Hd) as [Hx|Hx]; [|by apply Hgr].
    destruct (s_live _ _ _ _ Hi (tree_hash t) (tree_hash s)) as [[ns Hns]|Hs]; [by exists n| |by apply Hgr].
    rewrite (Hc (tree_hash s) Hx (tree_hash s) ns); [by eexists|reflexivity|done].
  - intros x Hx. apply over_Some. right. by apply Hgr.
Qed.

Lemma regrown_preimage db g h p :
  sound db -> preimages db !! h = Some p -> regrown db g -> regrown db (over g (secureKey h) p).
Proof.
  intros Hi Hp [[Hw1 Hw2] Hgr].
  assert (forall b, keccak256 b <> secureKey h) as Hne.
  { intros b E. apply (hash_keys_apart db h (keccak256 b)); [by apply (s_keys _ _ _ _ Hi)|by exists p|apply length_keccak256|done]. }
  split; [split|].
  - intros b b' Hb. unfold over. rewrite decide_False by apply Hne. by apply Hw1.
  - intros t s Ht Hd. rewrite !over_Some. intros [E|Hx]; [by destruct (Hne (tree_enc t))|]. right. by apply (Hw2 t).
  - intros x Hx. apply over_Some. right. by apply Hgr.
Qed.

(** Nodes that are on the disk may be dropped, with what they refer to. *)
Lemma dropped_sound db db' :
  sound db -> regrown db (disk_Get (diskdb db')) -> sub (nodes db') (nodes db) -> dropped_below (nodes db) (nodes db') ->
  cached db' emptyHash -> (forall k, cached db k -> cached db' k \/ on_disk db' k) ->
  (forall h, is_Some (preimages db' !! h) -> is_Some (preimages db !! h)) -> sound db'.
Proof.
  intros Hi [Hw Hgr] Hs Hdb Hme Hk Hpr.
  assert (forall c, present db c -> present db' c) as Hpres by (intros c [Hc|Hc]; [by apply Hk|right; by apply Hgr]).
  split.
  - intros p c He. apply (s_rank _ _ _ _ Hi). by eapply sub_edge.
  - intros p n c k Hn. by apply (s_pos _ _ _ _ Hi p n c k), (sub_Some _ _ _ _ Hs).
  - intros p n c k Hn. by apply (s_once _ _ _ _ Hi p n c k), (sub_Some _ _ _ _ Hs).
  - intros c n Hn Hd. rewrite (s_count _ _ _ _ Hi c n); [|by eapply sub_Some|intros Hx; by apply Hd, Hgr]. symmetry. apply refs_sub; [done|].
    intros p np Hp Hp'. unfold cnt. destruct (children np !! c) as [k|] eqn:Ek; [|done].
    rewrite (Hdb p c) in Hn; [done| |done]. exists np. split; [done|by exists k].
  - intros p c He. apply Hpres. apply (s_live _ _ _ _ Hi p). by eapply sub_edge.
  - intros t n s Ht Hm Hn Hd. apply (sub_Some _ _ _ _ Hs) in Hn. destruct (s_tree _ _ _ _ Hi t n s Ht Hm Hn Hd); [by left|right; by apply Hgr].
  - done.
  - intros b n Hb Hn. apply (s_blob _ _ _ _ Hi b n Hb). by eapply sub_Some.
  - destruct Hme as [n Hn], (s_meta _ _ _ _ Hi) as (n' & Hn' & Hb). exists n. split; [done|].
    apply (sub_Some _ _ _ _ Hs) in Hn. congruence.
  - destruct (s_keys _ _ _ _ Hi) as [Hkn Hkp]. split; [|auto]. intros h [n Hn]. apply Hkn. exists n. by eapply sub_Some.
Qed.

(** ** Every operation *)

Lemma insertPreimage_sound h p db : sound db -> length h = 32%nat -> sound (insertPreimage h p db).
Proof.
  intros Hi Hh. unfold insertPreimage. destruct (preimages db !! h); [done|]. destruct Hi. split; try done.
  destruct s_keys as [Hk Hp]. split; [done|]. cbn [preimages]. intros k [<-|[_ Hx]]%lookup_insert_is_Some; auto.
Qed.

Lemma trie_commit_sound t tr leaf db root t' db' :
  sound db -> leaf_links links leaf -> rep (stored db) true (Trie.root t) tr -> T tr ->
  TrieHasher.Commit t db leaf = Ok (root, t', db') -> sound db' /\ root = tree_hash tr /\ stored db' tr.
Proof.
  intros Hi Hl Hr Ht. pose proof Ht as (Hg & Hm & Hb). unfold TrieHasher.Commit.
  destruct (hashRoot_rep B sound (fun _ => False) t tr (Some db) leaf) as (n & o & -> & Hs & Hn & Hsv).
  - apply HT.
  - by intros ? [].
  - by eapply leaf_links_refers.
  - by apply (store_sound B links rank HT).
  - done.
  - by right.
  - done.
  - split; [by eapply sound_agrees|done].
  - exact Hb.
  - destruct o as [d|]; [|done]. cbn [res_bind]. rewrite BytesToHash_root. intros [= <- _ <-]. destruct Hs as ((_ & Hi') & _ & _).
    split; [done|]. split; [by rewrite root_hash_tree|]. apply Hsv. intros ->. destruct Hg.
Qed.

Lemma edge_cached db p c : edge (nodes db) p c -> cached db p.
Proof. intros (n & Hn & _). by exists n. Qed.

Lemma reference_meta_sound h db :
  sound db -> (rank h < rank emptyHash)%nat ->
  exists db', reference h emptyHash db = Ok db' /\ sound db' /\ rlocks db' = rlocks db /\ (cached db h -> edge (nodes db') emptyHash h).
Proof.
  intros Hi Hr. destruct (reference_sound B rank meta h emptyHash db Hi) as (db' & E & Hi' & _ & El & He & _); [|done|].
  { destruct (s_meta _ _ _ _ Hi) as (n & Hn & _). by exists n. }
  by exists db'.
Qed.

Lemma dereference_meta_sound fuel h db :
  sound db -> edge (nodes db) emptyHash h -> (rank h < fuel)%nat -> rlocks db = 0%nat ->
  exists db', Dereference fuel h emptyHash db = Ok db' /\ sound db' /\ diskdb db' = diskdb db.
Proof.
  intros Hi He Hf Hl. unfold Dereference. rewrite Hl. cbn [Nat.ltb Nat.leb]. pose proof He as (n & Hn & Hc).
  destruct (dereference_sound B rank fuel meta h emptyHash n db) as (db1 & -> & [Hi1 (Ed & _) _ _ _]); [done..| |done|].
  { split; [done|]. intros x ->. by apply (s_rank _ _ _ _ Hi). }
  eexists. split; [done|]. split; [|done]. by destruct Hi1; split.
Qed.

Lemma commit_sound fuel h db :
  sound db -> (rank h < fuel)%nat -> (rank h < rank emptyHash)%nat ->
  exists e db', TrieDatabase.Commit fuel h db = (e, db') /\ sound db' /\ (e <> Some DbFuel /\ (rlocks db = 0%nat -> e <> Some Blocked)) /\
    (e = None -> present db h -> on_disk db' h).
Proof.
  intros Hi Hf Hr.
  destruct (Commit_spec rank db (regrown db) (s_rank _ _ _ _ Hi) (regrown_ext db)) with fuel h as (e & db' & E & HC & He).
  - intros g k n Hn Hg Hc. by apply regrown_put.
  - intros g k p Hp Hg. by apply regrown_preimage.
  - intros x k Hx Hk. apply (hash_keys_apart db); [apply (s_keys _ _ _ _ Hi)|done|by apply (proj1 (s_keys _ _ _ _ Hi))].
  - done.
  - split; [apply (s_disk _ _ _ _ Hi)|done].
  - exists e, db'. split; [done|]. destruct e as [e|].
    + destruct He as (En & Ep & Hl). split; [|split; [destruct e; (done || (split; [done|]; intros El [=]; lia))|done]].
      assert (forall k, cached db k -> cached db' k) as Hc by (unfold cached; by rewrite En).
      apply (dropped_sound db); [done|done|by rewrite En|rewrite En; intros p c (n & Hn & _) E'; congruence| | |by rewrite Ep].
      * apply Hc. destruct (s_meta _ _ _ _ Hi) as (n & Hn & _). by exists n.
      * intros k Hk. left. by apply Hc.
    + destruct He as (Ep & _ & Hcov & _ & Hdb & Hgone & Hkeep). split; [|split; [done|]].
      * assert (forall k, rtc (edge (nodes db)) h k -> k <> emptyHash) as Hne.
        { intros k Hk ->. apply (rtc_rank rank) in Hk; [lia|]. apply (s_rank _ _ _ _ Hi). }
        apply (dropped_sound db); [done|done| |done| | |by rewrite Ep; intros k [? ?]].
        -- intros k. destruct (Hkeep k) as [?|[? _]]; auto.
        -- unfold cached. destruct (Hkeep emptyHash) as [->|[_ Hx]]; [|by destruct (Hne _ Hx)].
           destruct (s_meta _ _ _ _ Hi) as (n & Hn & _). by exists n.
        -- intros k [n Hn]. unfold cached, on_disk. destruct (Hkeep k) as [->|[_ Hx]]; [left; by exists n|].
           right. rewrite (Hcov k n Hx Hn). by eexists.
      * intros _ [[n Hn]|Hd]; [|by apply HC]. unfold on_disk. rewrite (Hcov h n); [by eexists|reflexivity|done].
Qed.

(** What happens to the database, from one state to the next. *)
Inductive db_step (db : Database) : Database -> Prop :=
| trie_committed t tr leaf root t' db' :
    leaf_links links leaf -> rep (stored db) true (Trie.root t) tr -> T tr ->
    TrieHasher.Commit t db leaf = Ok (root, t', db') -> db_step db db'
| code_inserted b : B b -> (forall t, T t -> tree_enc t <> b) -> db_step db (db_insert (keccak256 b) b db)
| preimage_inserted h p : length h = 32%nat -> db_step db (insertPreimage h p db)
| root_referenced h db' : (rank h < rank emptyHash)%nat -> reference h emptyHash db = Ok db' -> db_step db db'
| root_dereferenced fuel h db' :
    edge (nodes db) emptyHash h -> (rank h < fuel)%nat -> Dereference fuel h emptyHash db = Ok db' -> db_step db db'
| root_committed fuel h e db' :
    (rank h < fuel)%nat -> (rank h < rank emptyHash)%nat -> TrieDatabase.Commit fuel h db = (e, db') -> db_step db db'.

Lemma db_step_sound db db' : db_step db db' -> sound db -> sound db'.
Proof.
  intros Hs Hi. destruct Hs as [t tr leaf root t' db' Hl Hr Ht E|b Hb Hne|h p Hh|h db' Hr E|fuel h db' He Hf E|fuel h e db' Hf Hr E].
  - by eapply trie_commit_sound.
  - apply (insert_sound B links rank HT); [done..|]. intros t Ht Eh. destruct (Hne t Ht). apply (B_free _ _ _ HT); [by apply T_blob|done..].
  - by apply insertPreimage_sound.
  - destruct (reference_meta_sound h db Hi Hr) as (d & E' & Hd & _). congruence.
  - destruct (rlocks db) eqn:El; [|unfold Dereference in E; by rewrite El in E].
    destruct (dereference_meta_sound fuel h db Hi He Hf El) as (d & E' & Hd & _). congruence.
  - destruct (commit_sound fuel h db Hi Hf Hr) as (e' & d & E' & Hd & _). congruence.
Qed.

Lemma life_sound d db : disk_whole B (disk_Get d) -> rtc db_step (NewDatabase d) db -> sound db.
Proof.
  intros Hd Hr. pose proof (NewDatabase_sound d Hd) as Hi. induction Hr as [|x y z Hxy _ IH]; [done|]. by eapply IH, db_step_sound.
Qed.
End Life.

(** ** What the database promises *)

(** C7: after any operations on a database, every root that the metadata node refers to,
    and every root on the disk, can be read in full: dereferencing other roots,
    writing roots to the disk and dropping them from the cache, and errors of the
    disk never lose a node that is still needed. *)
Theorem live_roots_are_readable `{DiskLaws, HashRange} B links rank d db tr :
  forest B links rank -> (forall b, B b -> keccak256 b <> emptyHash) -> disk_whole B (disk_Get d) ->
  rtc (db_step B links rank) (NewDatabase d) db -> tree_in B tr ->
  edge (nodes db) emptyHash (tree_hash tr) \/ on_disk db (tree_hash tr) -> stored db tr.
Proof.
  intros HT Hz Hd Hr Ht Hp. pose proof (life_sound B links rank HT Hz d db Hd Hr) as Hi.
  apply (present_stored B rank); [done..|]. destruct Hp as [Hp|Hp]; [by apply (s_live _ _ _ _ Hi emptyHash)|by right].
Qed.

(** C15: the disk alone can be trusted at any time: after any operations, with any errors
    of the disk, a database that is opened on the disk reads every root of which
    the disk has the first node, in full.  A [Commit] without an error makes sure
    that it has. *)
Theorem disk_survives_restart `{DiskLaws, HashRange} B links rank d db :
  forest B links rank -> (forall b, B b -> keccak256 b <> emptyHash) -> disk_whole B (disk_Get d) ->
  rtc (db_step B links rank) (NewDatabase d) db ->
  (forall tr, tree_in B tr -> on_disk db (tree_hash tr) -> stored (NewDatabase (diskdb db)) tr) /\
  (forall fuel tr db', stored db tr -> tree_in B tr -> (rank (tree_hash tr) < rank emptyHash)%nat ->
     (rank (tree_hash tr) < fuel)%nat -> TrieDatabase.Commit fuel (tree_hash tr) db = (None, db') ->
     stored (NewDatabase (diskdb db')) tr).
Proof.
  intros HT Hz Hd Hr. pose proof (life_sound B links rank HT Hz d db Hd Hr) as Hi. split.
  - intros tr Ht Hod. apply (present_stored B rank); [|done|by right]. apply (NewDatabase_sound B rank Hz), (s_disk _ _ _ _ Hi).
  - intros fuel tr db' (_ & _ & Hs) Ht Hre Hf E.
    destruct (commit_sound B rank fuel (tree_hash tr) db Hi Hf Hre) as (e & d' & E' & Hi' & _ & Hc).
    rewrite E in E'. injection E' as <- <-. apply (present_stored B rank); [|done|right].
    + apply (NewDatabase_sound B rank Hz), (s_disk _ _ _ _ Hi').
    + apply Hc; [done|]. specialize (Hs tr (part_self tr)). unfold Node in Hs.
      destruct (nodes db !! tree_hash tr) as [n|] eqn:En; [left; by exists n|right; by exists (tree_enc tr)].
Qed.

(** C23: the operations end and do not panic, with fuel for the depth of the
    references: referencing a root; dereferencing a root that is referenced, which
    drops what only it needs and leaves the disk alone; writing a root to the disk,
    which gives no error but those of the disk.  As long as no reader keeps the lock,
    nothing waits for ever; while a reader keeps it, dereferencing does. *)
Theorem database_operations_end `{DiskLaws, HashRange} B links rank d db fuel h :
  forest B links rank -> (forall b, B b -> keccak256 b <> emptyHash) -> disk_whole B (disk_Get d) ->
  rtc (db_step B links rank) (NewDatabase d) db -> (rank h < fuel)%nat -> (rank h < rank emptyHash)%nat ->
  (edge (nodes db) emptyHash h -> rlocks db = 0%nat ->
     exists db', Dereference fuel h emptyHash db = Ok db' /\ diskdb db' = diskdb db /\ db_step B links rank db db') /\
  (exists db', reference h emptyHash db = Ok db' /\ db_step B links rank db db') /\
  (exists e db', TrieDatabase.Commit fuel h db = (e, db') /\ e <> Some DbFuel /\
     (rlocks db = 0%nat -> e <> Some Blocked) /\ db_step B links rank db db') /\
  ((0 < rlocks db)%nat -> Dereference fuel h emptyHash db = Err Blocked).
Proof.
  intros HT Hz Hd Hr Hf Hre. pose proof (life_sound B links rank HT Hz d db Hd Hr) as Hi. split; [|split; [|split]].
  - intros He Hl. destruct (dereference_meta_sound B rank fuel h db Hi He Hf Hl) as (db' & E & _ & Ed).
    exists db'. split; [done|]. split; [done|]. by apply (root_dereferenced _ _ _ db fuel h).
  - destruct (reference_meta_sound B rank h db Hi Hre) as (db' & E & _). exists db'. split; [done|]. by apply (root_referenced _ _ _ db h).
  - destruct (commit_sound B rank fuel h db Hi Hf Hre) as (e & db' & E & _ & [Hne Hb] & _). exists e, db'.
    split; [done|]. split; [done|]. split; [done|]. by apply (root_committed _ _ _ db fuel h e).
  - intros Hl. unfold Dereference. by rewrite (proj2 (Nat.ltb_lt _ _) Hl).
Qed.

(** ** An example: a trie with one entry *)

Definition leaf_rank (h : list Z) : nat := if decide (h = emptyHash) then 2 else 1.

Lemma leaf_blob b : blobs leaf_tree b -> b = tree_enc leaf_tree.
Proof. by intros (s & ->%leaf_part & ->). Qed.

Lemma leaf_forest : forest (blobs leaf_tree) (fun _ => []) leaf_rank.
Proof.
  split; [apply leaf_collision_free| |by intros k v c _ ?%elem_of_nil].
  intros t s (_ & _ & Hb) Hd. pose proof (leaf_blob _ (Hb s (direct_part t s s Hd (part_self s)))) as E.
  destruct Hd as (_ & El & _). unfold large in El. rewrite E in El. by vm_compute in El.
Qed.

Lemma leaf_zero b : blobs leaf_tree b -> keccak256 b <> emptyHash.
Proof. intros ->%leaf_blob. fold (tree_hash leaf_tree). rewrite leaf_tree_hash. discriminate. Qed.

Lemma leaf_tree_in : tree_in (blobs leaf_tree) leaf_tree.
Proof. split; [apply leaf_tree_good|]. split; [apply (sized_in_memory _ _ leaf_contents leaf_sized)|]. intros s Hs. by exists s. Qed.

Lemma empty_whole B : disk_whole B (disk_Get (∅ : gmap (list Z) (list Z))).
Proof. split; [by intros b b' _|by intros t s _ _ [? ?]]. Qed.

(** The trie is committed and its root referenced. *)
Lemma leaf_life :
  exists db1 db2, reference leaf_hash emptyHash db1 = Ok db2 /\ edge (nodes db2) emptyHash leaf_hash /\ rlocks db2 = 0%nat /\
    rtc (db_step (blobs leaf_tree) (fun _ => []) leaf_rank) (NewDatabase ∅) db2.
Proof.
  assert (match TrieHasher.Commit leaf_trie (NewDatabase ∅) None with
          | Ok x => bool_decide (is_Some (nodes x.2 !! leaf_hash)) && (rlocks x.2 =? 0)%nat
          | _ => false
          end = true) as Ec by (vm_compute; reflexivity).
  destruct (TrieHasher.Commit leaf_trie (NewDatabase ∅) None) as [[[h t] db1]| |] eqn:E; [|done..].
  cbn [snd] in Ec. apply andb_true_iff in Ec as [Ec El]. apply bool_decide_eq_true in Ec. apply Nat.eqb_eq in El.
  assert (db_step (blobs leaf_tree) (fun _ => []) leaf_rank (NewDatabase ∅) db1) as H1.
  { apply (trie_committed _ _ _ _ leaf_trie leaf_tree None h t); [by intros f|by repeat constructor|apply leaf_tree_in|exact E]. }
  pose proof (db_step_sound _ _ _ leaf_forest _ _ H1 (NewDatabase_sound _ _ leaf_zero ∅ (empty_whole _))) as Hi.
  destruct (reference_meta_sound _ _ leaf_hash db1 Hi) as (db2 & E2 & _ & El2 & He); [vm_compute; lia|].
  exists db1, db2. split; [done|]. split; [by apply He|]. split; [congruence|]. apply rtc_l with db1; [done|apply rtc_once].
  apply root_referenced with leaf_hash; [vm_compute; lia|exact E2].
Qed.

Lemma live_roots_are_readable_witness :
  exists db, rtc (db_step (blobs leaf_tree) (fun _ => []) leaf_rank) (NewDatabase ∅) db /\ stored db leaf_tree.
Proof.
  destruct leaf_life as (db1 & db2 & _ & He & _ & Hr). exists db2. split; [exact Hr|].
  apply (live_roots_are_readable (blobs leaf_tree) (fun _ => []) leaf_rank ∅).
  - exact leaf_forest.
  - exact leaf_zero.
  - apply empty_whole.
  - exact Hr.
  - exact leaf_tree_in.
  - left. rewrite leaf_tree_hash. exact He.
Defined.

(** The root is written to the disk as well. *)
Lemma leaf_written :
  exists db db', rtc (db_step (blobs leaf_tree) (fun _ => []) leaf_rank) (NewDatabase ∅) db /\
    TrieDatabase.Commit 2 leaf_hash db = (None, db') /\ stored db leaf_tree /\ on_disk db' leaf_hash.
Proof.
  assert (match TrieHasher.Commit leaf_trie (NewDatabase ∅) None with
          | Ok x => match TrieDatabase.Commit 2 leaf_hash x.2 with
                    | (None, db') => bool_decide (is_Some (disk_Get (diskdb db') leaf_hash))
                    | _ => false
                    end && bool_decide (is_Some (nodes x.2 !! leaf_hash))
          | _ => false
          end = true) as Ec by (vm_compute; reflexivity).
  destruct (TrieHasher.Commit leaf_trie (NewDatabase ∅) None) as [[[h t] db]| |] eqn:E; [|done..].
  cbn [snd] in Ec. apply andb_true_iff in Ec as [Ec En]. apply bool_decide_eq_true in En.
  assert (db_step (blobs leaf_tree) (fun _ => []) leaf_rank (NewDatabase ∅) db) as H1.
  { apply (trie_committed _ _ _ _ leaf_trie leaf_tree None h t); [by intros f|by repeat constructor|apply leaf_tree_in|exact E]. }
  destruct (TrieDatabase.Commit 2 leaf_hash db) as [[e|] db'] eqn:Ew; [done|]. apply bool_decide_eq_true in Ec.
  exists db, db'. split; [by apply rtc_once|]. split; [done|]. split; [|done].
  pose proof (db_step_sound _ _ _ leaf_forest _ _ H1 (NewDatabase_sound _ _ leaf_zero ∅ (empty_whole _))) as Hi.
  apply (present_stored _ leaf_rank _ _ Hi); [apply leaf_tree_in|]. left. unfold cached. by rewrite leaf_tree_hash.
Qed.

(** A database is opened on the disk after the root was written, and after the step
    that wrote it. *)
Lemma disk_survives_restart_witness :
  exists db db', TrieDatabase.Commit 2 leaf_hash db = (None, db') /\ on_disk db' leaf_hash /\
    stored (NewDatabase (diskdb db')) leaf_tree /\
    (forall tr, tree_in (blobs leaf_tree) tr -> on_disk db' (tree_hash tr) -> stored (NewDatabase (diskdb db')) tr).
Proof.
  destruct leaf_written as (db & db' & Hr & E & Hs & Hd). exists db, db'. split; [exact E|]. split; [exact Hd|].
  assert (leaf_rank leaf_hash < 2 /\ leaf_rank leaf_hash < leaf_rank emptyHash)%nat as [H2 He] by (split; vm_compute; lia).
  split.
  - destruct (disk_survives_restart (blobs leaf_tree) (fun _ => []) leaf_rank ∅ db
      leaf_forest leaf_zero (empty_whole _) Hr) as [_ Hc].
    apply (Hc 2%nat); rewrite ?leaf_tree_hash; [exact Hs|apply leaf_tree_in|exact He|exact H2|exact E].
  - apply (disk_survives_restart (blobs leaf_tree) (fun _ => []) leaf_rank ∅ db' leaf_forest leaf_zero (empty_whole _)).
    apply rtc_r with db; [exact Hr|]. by apply (root_committed _ _ _ db 2 leaf_hash None).
Defined.

Lemma database_operations_end_witness :
  exists db db', rtc (db_step (blobs leaf_tree) (fun _ => []) leaf_rank) (NewDatabase ∅) db /\
    edge (nodes db) emptyHash leaf_hash /\ Dereference 2 leaf_hash emptyHash db = Ok db'.
Proof.
  destruct leaf_life as (db1 & db2 & _ & He & El & Hr). exists db2.
  destruct (database_operations_end (blobs leaf_tree) (fun _ => []) leaf_rank ∅ db2 2 leaf_hash) as [Hd _].
  - exact leaf_forest.
  - exact leaf_zero.
  - apply empty_whole.
  - exact Hr.
  - vm_compute. lia.
  - vm_compute. lia.
  - destruct (Hd He El) as (db' & E & _). exists db'. split; [exact Hr|]. split; [exact He|exact E].
Defined.
