(* ===== verification/TrieStore.v ===== *)
(** * What the trie database keeps

    References, garbage collection and writing to the disk. *)

From S2P Require Import Rlp RlpCodec RlpEncoding RlpDecoding TrieDatabase Prelude.

(** ** Roots of the coins are not referenced *)

(** A hash is not the encoding of a list of hashes: a list is empty, or it takes
    more than 32 bytes. *)
Lemma hash_is_no_list b v : Forall is_u8 b -> length b = 32%nat -> DecodeBytes hashes_type b <> Ok v.
Proof.
  intros Hb Hl E. assert (good false hashes_type) as Hg by by cbn.
  pose proof (DecodeBytes_cases hashes_type b Hg Hb) as H. unfold small, len in H. rewrite Hl in H. specialize (H ltac:(done)).
  rewrite E in H. destruct H as [Ht He]. specialize (He I). destruct v as [| | | | | | | |l| | | | |]; try done.
  unfold encoding in He. apply res_bind_Ok in He as (its & Ei & [= <-]). cbn [items] in Ei.
  apply res_bind_Ok in Ei as (es & Ee & [= <-]). cbn [map concat] in Hl. rewrite app_nil_r in Hl.
  change (enc (Lst es)) with (token List_ (concat (map enc es))) in Hl.
  destruct l as [|x l].
  - cbn in Ee. injection Ee as <-. vm_compute in Hl. lia.
  - cbn in Ht. destruct Ht as [Hx _]. destruct x as [| | | | | | |x| | | | | |]; try done. destruct Hx as [_ Hx].
    cbn [elem_items items] in Ee. cbn [res_bind] in Ee. apply res_bind_Ok in Ee as (r & _ & [= <-]). cbn [app map concat] in Hl.
    cbn [token] in Hl. rewrite !length_app in Hl. assert (33 <= length (enc (Str x)))%nat as Hs; [|lia].
    change (enc (Str x)) with (str_enc x). unfold str_enc. destruct x as [|y [|z x]]; [done..|]. rewrite length_app.
    assert (0 < length (puthead 128 183 (Z.of_nat (length (y :: z :: x)))))%nat as Hp; [|lia].
    unfold puthead. case_match; cbn; lia.
Qed.

(** [ReferenceRoot] references nothing: the hashes it looks for in a root are the
    hash itself read as an encoded list, which it never is.  The tries it is meant
    to keep alive have no reference of the metadata root. *)
Theorem reference_root_does_nothing `{DiskDB} childs parent db :
  Forall (fun root => Forall is_u8 root /\ length root = 32%nat) childs -> ReferenceRoot childs parent db = Ok db.
Proof.
  induction 1 as [|root childs [Hu Hl] _ IH]; [done|]. cbn [ReferenceRoot].
  destruct (DecodeBytes hashes_type root) as [v| |] eqn:E; [by destruct (hash_is_no_list root v Hu Hl)|..]; exact IH.
Qed.

Lemma reference_root_does_nothing_witness :
  let root := 0xA0 :: replicate 31 7 in
  let db := db_insert root [1] (NewDatabase ∅) in
  ReferenceRoot [root] emptyHash db = Ok db.
Proof.
  intros root db. apply reference_root_does_nothing. constructor; [|constructor].
  split; [by apply (bool_decide_unpack _)|reflexivity].
Defined.
