(* ===== verification/BTree.v ===== *)
(** * The B-tree of the special transactions ([btrie/btree.go])

    Transactions that can be revoked and transactions with a time are kept in two
    B-trees, under the time they are due.  Nodes are plain values: the trees are
    never cloned, so that a node belongs to one tree only, and a node that is
    taken from the free list is empty.  The recursions go down the tree and have
    fuel for it; running out of it is [BtFuel]. *)

From S2P Require Import Prelude.

#[local] Set Warnings "-register-all".

(** ** Items and nodes *)

Record SpcialTxData := mkTx {
  Key_Time : Z;
  Value_Tx : gmap (list Z) (list Z)
}.

Definition Less (a b : SpcialTxData) : bool := Key_Time a <? Key_Time b.

(** The transactions of [b] are put to those of [a]. *)
Definition InsertTxData (a b : SpcialTxData) : SpcialTxData := mkTx (Key_Time a) (Value_Tx b ∪ Value_Tx a).

Inductive bnode := BNode (items : list SpcialTxData) (children : list bnode).

Definition items (n : bnode) : list SpcialTxData := let (its, _) := n in its.
Definition children (n : bnode) : list bnode := let (_, cs) := n in cs.

Inductive bt_error := BtFuel.

(** [s[i]], [s[i] = x] *)
Definition at_ {A} (l : list A) (i : nat) : res bt_error A :=
  match l !! i with
  | Some x => Ok x
  | None => Panic
  end.

Definition set_at {A} (i : nat) (x : A) (l : list A) : res bt_error (list A) :=
  if (i <? length l)%nat then Ok (<[i := x]> l) else Panic.

(** The methods of [items] and [children]. *)
Definition insertAt {A} (i : nat) (x : A) (l : list A) : res bt_error (list A) :=
  if (i <=? length l)%nat then Ok (take i l ++ x :: drop i l) else Panic.

Definition removeAt {A} (i : nat) (l : list A) : res bt_error (A * list A) :=
  let* x := at_ l i in
  Ok (x, take i l ++ drop (S i) l).

Definition pop {A} (l : list A) : res bt_error (A * list A) :=
  let* x := match last l with Some x => Ok x | None => Panic end in
  Ok (x, take (length l - 1) l).

(** [sort.Search]: the loop halves [i, j); its length is fuel enough. *)
Fixpoint search_loop (fuel i j : nat) (f : nat -> bool) : nat :=
  match fuel with
  | O => i
  | S fuel =>
      if (i <? j)%nat then
        let h := ((i + j) / 2)%nat in
        if f h then search_loop fuel i h f else search_loop fuel (h + 1) j f
      else i
  end.

Definition Search (n : nat) (f : nat -> bool) : nat := search_loop n 0 n f.

(** [find]: where an item is, or where it belongs. *)
Definition find_ (item : SpcialTxData) (s : list SpcialTxData) : nat * bool :=
  let i := Search (length s) (fun i => match s !! i with Some x => Less item x | None => false end) in
  if (0 <? i)%nat && match s !! (i - 1)%nat with Some x => negb (Less x item) | None => false end
  then ((i - 1)%nat, true) else (i, false).

(** ** Inserting *)

(** [split]: the item at [i], and the nodes before and after it. *)
Definition split_ (i : nat) (n : bnode) : res bt_error (bnode * SpcialTxData * bnode) :=
  let (its, cs) := n in
  let* item := at_ its i in
  Ok (if (0 <? length cs)%nat
      then (BNode (take i its) (take (i + 1) cs), item, BNode (drop (i + 1) its) (drop (i + 1) cs))
      else (BNode (take i its) cs, item, BNode (drop (i + 1) its) [])).

Definition maybeSplitChild (i maxItems : nat) (n : bnode) : res bt_error (bnode * bool) :=
  let (its, cs) := n in
  let* c := at_ cs i in
  if (length (items c) <? maxItems)%nat then Ok (n, false)
  else
    let* (first, item, second) := split_ (maxItems / 2) c in
    let* cs := set_at i first cs in
    let* its := insertAt i item its in
    let* cs := insertAt (i + 1) second cs in
    Ok (BNode its cs, true).

(** [insert].  The item that is there already gets the transactions; only when it is
    the one that a split has just moved up, it is replaced. *)
Fixpoint insert_node (fuel : nat) (item : SpcialTxData) (maxItems : nat) (n : bnode)
    : res bt_error (bnode * option SpcialTxData) :=
  match fuel with
  | O => Err BtFuel
  | S fuel =>
      let (its, cs) := n in
      let (i, found) := find_ item its in
      if found then
        let* x := at_ its i in
        let x := InsertTxData x item in
        let* its := set_at i x its in
        Ok (BNode its cs, Some x)
      else if (length cs =? 0)%nat then
        let* its := insertAt i item its in
        Ok (BNode its cs, None)
      else
        let* (n, split) := maybeSplitChild i maxItems n in
        let (its, cs) := n in
        let descend_ i :=
          let* c := at_ cs i in
          let* (c, out) := insert_node fuel item maxItems c in
          let* cs := set_at i c cs in
          Ok (BNode its cs, out) in
        if split then
          let* inTree := at_ its i in
          if Less item inTree then descend_ i
          else if Less inTree item then descend_ (i + 1)%nat
          else
            let* its := set_at i item its in
            Ok (BNode its cs, Some inTree)
        else descend_ i
  end.

(** ** Finding *)

Fixpoint get_node (fuel : nat) (key : SpcialTxData) (n : bnode) : res bt_error (option SpcialTxData) :=
  match fuel with
  | O => Err BtFuel
  | S fuel =>
      let (its, cs) := n in
      let (i, found) := find_ key its in
      if found then res_map Some (at_ its i)
      else if (0 <? length cs)%nat then
        let* c := at_ cs i in
        get_node fuel key c
      else Ok None
  end.

(** ** Removing *)

Inductive toRemove := removeItem | removeMin | removeMax.

(** The first half of [growChildAndRemove]: child [i] gets an item from a brother, or
    is merged with one. *)
Definition growChild (i minItems : nat) (n : bnode) : res bt_error bnode :=
  let (its, cs) := n in
  let long j := match cs !! j with Some c => (minItems <? length (items c))%nat | None => false end in
  if (0 <? i)%nat && long (i - 1)%nat then
    let* c := at_ cs i in
    let* stealFrom := at_ cs (i - 1) in
    let* (stolenItem, sits) := pop (items stealFrom) in
    let* x := at_ its (i - 1) in
    let* its := set_at (i - 1) stolenItem its in
    let* (ccs, scs) :=
      if (0 <? length (children stealFrom))%nat then
        let* (sc, scs) := pop (children stealFrom) in Ok (sc :: children c, scs)
      else Ok (children c, children stealFrom) in
    let* cs := set_at i (BNode (x :: items c) ccs) cs in
    let* cs := set_at (i - 1) (BNode sits scs) cs in
    Ok (BNode its cs)
  else if (i <? length its)%nat && long (i + 1)%nat then
    let* c := at_ cs i in
    let* stealFrom := at_ cs (i + 1) in
    let* (stolenItem, sits) := removeAt 0 (items stealFrom) in
    let* x := at_ its i in
    let* its := set_at i stolenItem its in
    let* (ccs, scs) :=
      if (0 <? length (children stealFrom))%nat then
        let* (sc, scs) := removeAt 0 (children stealFrom) in Ok (children c ++ [sc], scs)
      else Ok (children c, children stealFrom) in
    let* cs := set_at i (BNode (items c ++ [x]) ccs) cs in
    let* cs := set_at (i + 1) (BNode sits scs) cs in
    Ok (BNode its cs)
  else
    let i := if (length its <=? i)%nat then (i - 1)%nat else i in
    let* c := at_ cs i in
    let* (mergeItem, its) := removeAt i its in
    let* (mergeChild, cs) := removeAt (i + 1) cs in
    let* cs := set_at i (BNode (items c ++ mergeItem :: items mergeChild) (children c ++ children mergeChild)) cs in
    Ok (BNode its cs).

(** [remove].  A nil item is never put in the place of the one that is removed: the
    largest item of a child is there. *)
Fixpoint remove_node (fuel : nat) (item : SpcialTxData) (minItems : nat) (typ : toRemove) (n : bnode)
    : res bt_error (bnode * option SpcialTxData) :=
  match fuel with
  | O => Err BtFuel
  | S fuel =>
      let (its, cs) := n in
      let (i, found) := match typ with
                        | removeMax => (length its, false)
                        | removeMin => (0%nat, false)
                        | removeItem => find_ item its
                        end in
      if (length cs =? 0)%nat then
        match typ with
        | removeMax => let* (x, its) := pop its in Ok (BNode its cs, Some x)
        | removeMin => let* (x, its) := removeAt 0 its in Ok (BNode its cs, Some x)
        | removeItem =>
            if found then let* (x, its) := removeAt i its in Ok (BNode its cs, Some x) else Ok (n, None)
        end
      else
        let* c := at_ cs i in
        if (length (items c) <=? minItems)%nat then
          let* n := growChild i minItems n in
          remove_node fuel item minItems typ n
        else if found then
          let* out := at_ its i in
          let* (c, x) := remove_node fuel item minItems removeMax c in
          let* x := match x with Some x => Ok x | None => Panic end in
          let* its := set_at i x its in
          let* cs := set_at i c cs in
          Ok (BNode its cs, Some out)
        else
          let* (c, out) := remove_node fuel item minItems typ c in
          let* cs := set_at i c cs in
          Ok (BNode its cs, out)
  end.

(** ** Iterating *)

Inductive direction := descend | ascend.

Section Iterate.
Context {S : Type} (iter : SpcialTxData -> S -> bool * S).
Context (dir : direction) (start stop : option SpcialTxData) (includeStart : bool).

Section Loops.
Context (rec : bool -> S -> bnode -> res bt_error (bool * bool * S)).

(** A child is visited if there are children. *)
Definition visit (cs : list bnode) (i : nat) (hit : bool) (s : S) : res bt_error (bool * bool * S) :=
  if (0 <? length cs)%nat then let* c := at_ cs i in rec hit s c else Ok (hit, true, s).

(** [count] items from [i] on. *)
Fixpoint ascendLoop (its : list SpcialTxData) (cs : list bnode) (count i : nat) (hit : bool) (s : S)
    : res bt_error (bool * bool * S) :=
  match count with
  | O => Ok (hit, true, s)
  | Datatypes.S count =>
      let* (hit, ok, s) := visit cs i hit s in
      if negb ok then Ok (hit, false, s)
      else
        let* x := at_ its i in
        if negb includeStart && negb hit && match start with Some st => negb (Less st x) | None => false end then
          ascendLoop its cs count (i + 1) true s
        else if match stop with Some sp => negb (Less x sp) | None => false end then Ok (true, false, s)
        else
          let (go, s) := iter x s in
          if go then ascendLoop its cs count (i + 1) true s else Ok (true, false, s)
  end.

(** The first [count] items, from the last one down. *)
Fixpoint descendLoop (its : list SpcialTxData) (cs : list bnode) (count : nat) (hit : bool) (s : S)
    : res bt_error (bool * bool * S) :=
  match count with
  | O => Ok (hit, true, s)
  | Datatypes.S i =>
      let* x := at_ its i in
      if match start with Some st => negb (Less x st) && (negb includeStart || hit || Less st x) | None => false end then
        descendLoop its cs i hit s
      else
        let* (hit, ok, s) := visit cs (i + 1) hit s in
        if negb ok then Ok (hit, false, s)
        else if match stop with Some sp => negb (Less sp x) | None => false end then Ok (hit, false, s)
        else
          let (go, s) := iter x s in
          if go then descendLoop its cs i true s else Ok (true, false, s)
  end.
End Loops.

Fixpoint iterate (fuel : nat) (hit : bool) (s : S) (n : bnode) : res bt_error (bool * bool * S) :=
  match fuel with
  | O => Err BtFuel
  | Datatypes.S fuel =>
      let (its, cs) := n in
      match dir with
      | ascend =>
          let index := match start with Some st => (find_ st its).1 | None => 0%nat end in
          let* (hit, ok, s) := ascendLoop (iterate fuel) its cs (length its - index) index hit s in
          if negb ok then Ok (hit, false, s) else visit (iterate fuel) cs (length cs - 1) hit s
      | descend =>
          let count := match start with
                       | Some st => let (index, found) := find_ st its in if found then (index + 1)%nat else index
                       | None => length its
                       end in
          let* (hit, ok, s) := descendLoop (iterate fuel) its cs count hit s in
          if negb ok then Ok (hit, false, s) else visit (iterate fuel) cs 0 hit s
      end
  end.
End Iterate.

(** ** Trees *)

Record BTree := mkBTree {
  degree : nat;
  length_ : Z;
  broot : option bnode
}.

Definition NewBtree (degree : nat) : res bt_error BTree := if (degree <=? 1)%nat then Panic else Ok (mkBTree degree 0 None).

Definition maxItems (t : BTree) : nat := (degree t * 2 - 1)%nat.
Definition minItems (t : BTree) : nat := (degree t - 1)%nat.

Definition ReplaceOrInsert (fuel : nat) (item : SpcialTxData) (t : BTree) : res bt_error (BTree * option SpcialTxData) :=
  match broot t with
  | None => Ok (mkBTree (degree t) (length_ t + 1) (Some (BNode [item] [])), None)
  | Some r =>
      let* r := if (maxItems t <=? length (items r))%nat then
                  let* (first, item2, second) := split_ (maxItems t / 2) r in
                  Ok (BNode [item2] [first; second])
                else Ok r in
      let* (r, out) := insert_node fuel item (maxItems t) r in
      Ok (mkBTree (degree t) (match out with None => length_ t + 1 | Some _ => length_ t end) (Some r), out)
  end.

Definition deleteItem (fuel : nat) (item : SpcialTxData) (typ : toRemove) (t : BTree) : res bt_error (BTree * option SpcialTxData) :=
  match broot t with
  | None => Ok (t, None)
  | Some r =>
      if (length (items r) =? 0)%nat then Ok (t, None)
      else
        let* (r, out) := remove_node fuel item (minItems t) typ r in
        let* r := if (length (items r) =? 0)%nat && (0 <? length (children r))%nat then at_ (children r) 0 else Ok r in
        Ok (mkBTree (degree t) (match out with None => length_ t | Some _ => length_ t - 1 end) (Some r), out)
  end.

Definition Delete (fuel : nat) (item : SpcialTxData) (t : BTree) : res bt_error (BTree * option SpcialTxData) :=
  deleteItem fuel item removeItem t.

Definition Get (fuel : nat) (key : SpcialTxData) (t : BTree) : res bt_error (option SpcialTxData) :=
  match broot t with
  | None => Ok None
  | Some r => get_node fuel key r
  end.

Definition DescendLessOrEqual {S} (fuel : nat) (pivot : SpcialTxData) (iter : SpcialTxData -> S -> bool * S) (s : S) (t : BTree)
    : res bt_error S :=
  match broot t with
  | None => Ok s
  | Some r => let* (_, _, s) := iterate iter descend (Some pivot) None true fuel false s r in Ok s
  end.
