(* ===== verification/BTreeSpec.v ===== *)
(** * The B-tree is a sorted map

    The items of a tree, from left to right, are in the order of their times.
    Finding, inserting, removing and iterating do to them what they do to a sorted
    list; the nodes keep their sizes and the leaves their depth.  Here are finding and
    inserting. *)

From S2P Require Import BTree Prelude.

#[local] Set Warnings "-register-all".

(** ** Order *)

Abbreviation key := Key_Time.

Fixpoint asc (l : list SpcialTxData) : Prop :=
  match l with
  | [] => True
  | x :: l => Forall (fun y => key x < key y) l /\ asc l
  end.

Lemma asc_app a b : asc (a ++ b) <-> asc a /\ asc b /\ forall x y, x ∈ a -> y ∈ b -> key x < key y.
Proof.
  induction a as [|x a IH]; cbn [app asc].
  - split; [|by intros (_ & ? & _)]. intros Hb. split; [done|]. split; [done|]. by intros x y ?%elem_of_nil.
  - rewrite IH, Forall_app, !Forall_forall. split.
    + intros ((Hxa & Hxb) & Ha & Hb & Hab). split; [done|]. split; [done|]. intros y z [->|Hy]%elem_of_cons Hz; auto.
    + intros ((Hxa & Ha) & Hb & Hab). split; [split; [done|]|split; [done|split; [done|]]].
      * intros y Hy. apply Hab; [by apply elem_of_cons; left|done].
      * intros y z Hy Hz. apply Hab; [by apply elem_of_cons; right|done].
Qed.

Definition less_all (k : Z) (l : list SpcialTxData) : Prop := Forall (fun x => key x < k) l.
Definition more_all (k : Z) (l : list SpcialTxData) : Prop := Forall (fun x => k < key x) l.

Lemma asc_mid a x b : asc (a ++ x :: b) <-> asc a /\ asc b /\ less_all (key x) a /\ more_all (key x) b.
Proof.
  rewrite asc_app. cbn [asc]. unfold less_all, more_all. rewrite !Forall_forall. split.
  - intros (Ha & (Hxb & Hb) & Hab). split; [done|]. split; [done|]. split; [|done]. intros y Hy. apply Hab; [done|].
    apply elem_of_cons. by left.
  - intros (Ha & Hb & Hax & Hxb). split; [done|]. split; [done|]. intros y z Hy [->|Hz]%elem_of_cons; [by apply Hax|].
    specialize (Hax y Hy). specialize (Hxb z Hz). lia.
Qed.

Lemma less_all_lt k k' l : k <= k' -> less_all k l -> less_all k' l.
Proof. intros Hk Hl. eapply Forall_impl; [exact Hl|]. cbn. intros. lia. Qed.

Lemma more_all_lt k k' l : k' <= k -> more_all k l -> more_all k' l.
Proof. intros Hk Hl. eapply Forall_impl; [exact Hl|]. cbn. intros. lia. Qed.

Lemma less_not k l : less_all k l -> Forall (fun x => key x <> k) l.
Proof. intros Hl. eapply Forall_impl; [exact Hl|]. cbn. intros. lia. Qed.

Lemma more_not k l : more_all k l -> Forall (fun x => key x <> k) l.
Proof. intros Hl. eapply Forall_impl; [exact Hl|]. cbn. intros. lia. Qed.

(** ** [sort.Search] and [find] *)

Lemma search_loop_spec fuel i j f n :
  (j - i <= fuel)%nat -> (i <= j <= n)%nat -> (forall k, (k < i)%nat -> f k = false) ->
  (forall k, (j <= k < n)%nat -> f k = true) -> (forall k k', (k <= k' < n)%nat -> f k = true -> f k' = true) ->
  let r := search_loop fuel i j f in
  (r <= n)%nat /\ (forall k, (k < r)%nat -> f k = false) /\ (forall k, (r <= k < n)%nat -> f k = true).
Proof.
  revert i j. induction fuel as [|fuel IH]; intros i j Hf Hij Hlo Hhi Hmono; cbn [search_loop].
  { assert (i = j) as -> by lia. split; [lia|]. by split. }
  destruct (Nat.ltb_spec i j) as [Hlt|Hge].
  2: { assert (i = j) as -> by lia. split; [lia|]. by split. }
  assert (i <= (i + j) / 2 < j)%nat as Hh.
  { split; [apply Nat.div_le_lower_bound; lia|apply Nat.Div0.div_lt_upper_bound; lia]. }
  destruct (f ((i + j) / 2)%nat) eqn:E; apply IH; try lia; try done.
  - intros k Hk. apply (Hmono ((i + j) / 2)%nat); [lia|done].
  - intros k Hk. destruct (f k) eqn:Ek; [|done]. rewrite (Hmono k ((i + j) / 2)%nat) in E; [done|lia|done].
Qed.

(** Where [find] says an item is, or would be. *)
Definition found_at (it : SpcialTxData) (s : list SpcialTxData) (i : nat) (found : bool) : Prop :=
  if found then exists l x r, s = l ++ x :: r /\ length l = i /\ key x = key it
  else exists l r, s = l ++ r /\ length l = i /\ less_all (key it) l /\ more_all (key it) r.

Lemma asc_lookup s i j x y : asc s -> s !! i = Some x -> s !! j = Some y -> (i < j)%nat -> key x < key y.
Proof.
  revert i j. induction s as [|z s IH]; intros i j Ha Hi Hj Hij; [done|]. destruct Ha as [Hz Ha].
  destruct j as [|j]; [lia|]. destruct i as [|i]; cbn in Hi, Hj.
  - injection Hi as ->. rewrite Forall_forall in Hz. apply Hz. by eapply list_elem_of_lookup_2.
  - apply (IH i j); [done..|lia].
Qed.

Lemma find_spec it s : asc s -> found_at it s (find_ it s).1 (find_ it s).2.
Proof.
  intros Ha. unfold find_. set (f := fun i => match s !! i with Some x => Less it x | None => false end).
  destruct (search_loop_spec (length s) 0 (length s) f (length s)) as (Hr & Hlo & Hhi); try lia.
  { intros k k' Hk. unfold f. destruct (s !! k) as [x|] eqn:Ex; [|done].
    destruct (lookup_lt_is_Some_2 s k') as [y Ey]; [lia|]. rewrite Ey. unfold Less. rewrite !Z.ltb_lt. intros Hx.
    destruct (decide (k = k')) as [->|Hne]; [congruence|]. pose proof (asc_lookup s k k' x y Ha Ex Ey). lia. }
  fold (Search (length s) f) in *. set (r := Search (length s) f) in *.
  assert (more_all (key it) (drop r s)) as Hmore.
  { apply Forall_forall. intros x [i Hi]%list_elem_of_lookup_1. rewrite lookup_drop in Hi.
    specialize (Hhi (r + i)%nat). unfold f in Hhi. rewrite Hi in Hhi. unfold Less in Hhi. rewrite Z.ltb_lt in Hhi. apply Hhi.
    apply lookup_lt_Some in Hi. lia. }
  destruct (Nat.ltb_spec 0 r) as [Hpos|Hz]; cbn [andb].
  - destruct (lookup_lt_is_Some_2 s (r - 1)) as [x Ex]; [lia|]. rewrite Ex.
    assert (s = take (r - 1) s ++ x :: drop r s) as Es.
    { rewrite <- (take_drop_middle s (r - 1) x Ex) at 1. by replace (S (r - 1)) with r by lia. }
    pose proof Ha as Ha'. rewrite Es in Ha'. apply asc_mid in Ha' as (_ & _ & Hl & _).
    assert (key x <= key it) as Hle.
    { specialize (Hlo (r - 1)%nat). unfold f in Hlo. rewrite Ex in Hlo. unfold Less in Hlo. rewrite Z.ltb_ge in Hlo. apply Hlo. lia. }
    unfold Less. destruct (Z.ltb_spec (key x) (key it)) as [Hlt|Hge]; cbn [negb fst snd found_at].
    + exists (take r s), (drop r s). rewrite take_drop. split; [done|]. split; [rewrite length_take; lia|]. split; [|done].
      replace r with (S (r - 1)) by lia. rewrite (take_S_r s (r - 1) x Ex). apply Forall_app. split; [|by constructor].
      eapply less_all_lt; [|exact Hl]. lia.
    + exists (take (r - 1) s), x, (drop r s). split; [done|]. split; [rewrite length_take; lia|lia].
  - cbn [fst snd found_at]. assert (r = 0%nat) as E0 by lia. rewrite E0 in *. exists [], s. split; [done|]. split; [done|].
    split; [constructor|]. by rewrite drop_0 in Hmore.
Qed.

Lemma app_split {A} (l l' r r' : list A) : l ++ r = l' ++ r' -> length l = length l' -> l = l' /\ r = r'.
Proof. intros E El. by apply app_inj_1. Qed.

(** The place is determined. *)
Lemma find_at_mid it l x r : asc (l ++ x :: r) -> key x = key it -> find_ it (l ++ x :: r) = (length l, true).
Proof.
  intros Ha Hk. pose proof (find_spec it _ Ha) as Hf. destruct (find_ it (l ++ x :: r)) as [i [|]]; cbn [fst snd found_at] in Hf.
  - destruct Hf as (l' & x' & r' & E & <- & Hx'). f_equal.
    destruct (Nat.lt_trichotomy (length l) (length l')) as [Hlt|[Heq|Hlt]]; [|done|].
    + assert (key x < key x'); [|lia]. apply (asc_lookup _ (length l) (length l') x x' Ha); [by apply list_lookup_middle| |done].
      rewrite E. by apply list_lookup_middle.
    + assert (key x' < key x); [|lia]. apply (asc_lookup _ (length l') (length l) x' x Ha); [| |done].
      * rewrite E. by apply list_lookup_middle.
      * by apply list_lookup_middle.
  - destruct Hf as (l' & r' & E & <- & Hl' & Hr'). assert (x ∈ l' ++ r') as Hx by (rewrite <- E; set_solver).
    unfold less_all, more_all in *. rewrite Forall_forall in Hl', Hr'. apply elem_of_app in Hx as [Hx|Hx]; [specialize (Hl' x Hx)|specialize (Hr' x Hx)]; lia.
Qed.

Lemma find_at_gap it l r : asc (l ++ r) -> less_all (key it) l -> more_all (key it) r -> find_ it (l ++ r) = (length l, false).
Proof.
  intros Ha Hl Hr. pose proof (find_spec it _ Ha) as Hf. unfold less_all, more_all in *. rewrite Forall_forall in Hl, Hr.
  destruct (find_ it (l ++ r)) as [i [|]]; cbn [fst snd found_at] in Hf.
  - destruct Hf as (l' & x & r' & E & _ & Hk). assert (x ∈ l ++ r) as Hx by (rewrite E; set_solver).
    apply elem_of_app in Hx as [Hx|Hx]; [specialize (Hl x Hx)|specialize (Hr x Hx)]; lia.
  - destruct Hf as (l' & r' & E & <- & Hl' & Hr'). f_equal. unfold less_all, more_all in *. rewrite Forall_forall in Hl', Hr'.
    destruct (Nat.lt_trichotomy (length l) (length l')) as [Hlt|[Heq|Hlt]]; [|done|].
    + destruct (lookup_lt_is_Some_2 l' (length l) Hlt) as [x Hx].
      assert (x ∈ r) as Hxr.
      { apply (list_elem_of_lookup_2 _ 0). rewrite <- (Nat.sub_diag (length l)), <- lookup_app_r by lia. rewrite E. by apply lookup_app_l_Some. }
      specialize (Hr x Hxr). apply list_elem_of_lookup_2, Hl' in Hx. lia.
    + destruct (lookup_lt_is_Some_2 l (length l') Hlt) as [x Hx].
      assert (x ∈ r') as Hxr.
      { apply (list_elem_of_lookup_2 _ 0). rewrite <- (Nat.sub_diag (length l')), <- lookup_app_r by lia. rewrite <- E. by apply lookup_app_l_Some. }
      specialize (Hr' x Hxr). apply list_elem_of_lookup_2, Hl in Hx. lia.
Qed.

(** ** The items of a tree *)

Fixpoint flat (n : bnode) : list SpcialTxData :=
  let (its, cs) := n in
  match cs with
  | [] => its
  | c :: cs => flat c ++ (fix go its cs {struct cs} := match cs, its with
                                                       | c :: cs, it :: its => it :: flat c ++ go its cs
                                                       | _, _ => []
                                                       end) its cs
  end.

(** The items with the children before them, and with the children after them. *)
Definition pre (cl : list bnode) (l : list SpcialTxData) : list SpcialTxData := concat (zip_with (fun c it => flat c ++ [it]) cl l).
Definition post (r : list SpcialTxData) (cr : list bnode) : list SpcialTxData := concat (zip_with (fun it c => it :: flat c) r cr).

Lemma flat_leaf its : flat (BNode its []) = its.
Proof. done. Qed.

Lemma flat_post its c cs : flat (BNode its (c :: cs)) = flat c ++ post its cs.
Proof.
  cbn [flat]. f_equal. revert cs. induction its as [|it its IH]; intros [|c' cs]; [done..|]. cbn [post zip_with concat app].
  rewrite IH. done.
Qed.

Lemma post_app r1 r2 c1 c2 : length r1 = length c1 -> post (r1 ++ r2) (c1 ++ c2) = post r1 c1 ++ post r2 c2.
Proof. intros El. unfold post. by rewrite zip_with_app, concat_app. Qed.

Lemma pre_app c1 c2 l1 l2 : length c1 = length l1 -> pre (c1 ++ c2) (l1 ++ l2) = pre c1 l1 ++ pre c2 l2.
Proof. intros El. unfold pre. by rewrite zip_with_app, concat_app. Qed.

(** A node around one of its children. *)
Lemma flat_at l r cl c cr :
  length cl = length l -> length cr = length r ->
  flat (BNode (l ++ r) (cl ++ c :: cr)) = pre cl l ++ flat c ++ post r cr.
Proof.
  revert l. induction cl as [|c0 cl IH]; intros [|it l] El Er; cbn in El; [|done|done|].
  - cbn [app]. by rewrite flat_post.
  - cbn [app]. rewrite flat_post. cbn [app pre zip_with concat]. destruct (cl ++ c :: cr) as [|c1 cs] eqn:E.
    { by destruct cl. }
    specialize (IH l ltac:(lia) Er). rewrite flat_post in IH. cbn [post zip_with concat]. fold (post (l ++ r) cs).
    rewrite <- !app_assoc. cbn [app]. by rewrite IH.
Qed.

Lemma pre_snoc cl l c it : length cl = length l -> pre (cl ++ [c]) (l ++ [it]) = pre cl l ++ flat c ++ [it].
Proof. intros El. rewrite pre_app by done. unfold pre at 2. cbn. by rewrite app_nil_r. Qed.

Lemma post_cons it r c cr : post (it :: r) (c :: cr) = it :: flat c ++ post r cr.
Proof. done. Qed.

(** ** Lists by their places *)

Section Places.
Context {A : Type}.
Implicit Types (l r : list A) (x y : A).

Lemma at_mid l x r : at_ (l ++ x :: r) (length l) = Ok x.
Proof. unfold at_. by rewrite list_lookup_middle. Qed.

Lemma set_at_mid l x y r : set_at (length l) y (l ++ x :: r) = Ok (l ++ y :: r).
Proof.
  unfold set_at. rewrite length_app. cbn [length]. rewrite (proj2 (Nat.ltb_lt _ _)) by lia.
  rewrite insert_app_r_alt, Nat.sub_diag by lia. done.
Qed.

Lemma insertAt_mid l x r : insertAt (length l) x (l ++ r) = Ok (l ++ x :: r).
Proof.
  unfold insertAt. rewrite length_app, (proj2 (Nat.leb_le _ _)) by lia. by rewrite take_app_length, drop_app_length.
Qed.

Lemma removeAt_mid l x r : removeAt (length l) (l ++ x :: r) = Ok (x, l ++ r).
Proof.
  unfold removeAt. rewrite at_mid. cbn [res_bind]. rewrite take_app_length. f_equal. f_equal. f_equal.
  replace (l ++ x :: r) with ((l ++ [x]) ++ r) by by rewrite <- app_assoc. apply drop_app_length'. rewrite length_app. cbn. lia.
Qed.

Lemma pop_snoc l x : pop (l ++ [x]) = Ok (x, l).
Proof.
  unfold pop. rewrite last_snoc. cbn [res_bind]. rewrite length_app. cbn [length]. do 2 f_equal. apply take_app_length'. lia.
Qed.

(** Any place splits a list. *)
Lemma list_split l i : (i < length l)%nat -> exists a x b, l = a ++ x :: b /\ length a = i.
Proof.
  intros Hi. destruct (lookup_lt_is_Some_2 l i Hi) as [x Hx]. exists (take i l), x, (drop (S i) l).
  split; [symmetry; by apply take_drop_middle|]. rewrite length_take. lia.
Qed.
End Places.

(** ** Sizes and depth *)

Section Degree.
Context (d : nat).

#[local] Abbreviation lo := (d - 1)%nat.
#[local] Abbreviation hi := (d * 2 - 1)%nat.

(** A node of height [h]: all leaves are at the same depth, and every node below the
    root has as many items as it should. *)
Fixpoint wf (h : nat) (n : bnode) : Prop :=
  match h with
  | O => children n = []
  | S h => length (children n) = S (length (items n)) /\ Forall (fun c => (lo <= length (items c) <= hi)%nat /\ wf h c) (children n)
  end.

Lemma wf_leaf n : wf 0 n -> exists its, n = BNode its [].
Proof. destruct n as [its cs]. cbn. intros ->. by exists its. Qed.

(** The place of a child in a node. *)
Lemma wf_split h its cs i :
  wf (S h) (BNode its cs) -> (i <= length its)%nat ->
  exists l r cl c cr, its = l ++ r /\ cs = cl ++ c :: cr /\ length l = i /\ length cl = length l /\ length cr = length r.
Proof.
  intros [Hl _] Hi. cbn [items children] in *. destruct (list_split cs i) as (cl & c & cr & -> & Ecl); [lia|].
  exists (take i its), (drop i its), cl, c, cr. rewrite take_drop. split; [done|]. split; [done|]. rewrite length_app in Hl. cbn in Hl.
  rewrite length_take, length_drop. lia.
Qed.

Lemma wf_node h l r cl c cr :
  length cl = length l -> length cr = length r ->
  wf (S h) (BNode (l ++ r) (cl ++ c :: cr)) <->
  Forall (fun c => (lo <= length (items c) <= hi)%nat /\ wf h c) cl /\
  ((lo <= length (items c) <= hi)%nat /\ wf h c) /\
  Forall (fun c => (lo <= length (items c) <= hi)%nat /\ wf h c) cr.
Proof.
  intros El Er. cbn [wf items children]. rewrite !length_app, Forall_app, Forall_cons. cbn [length].
  split; [by intros (_ & ? & ? & ?)|]. intros (? & ? & ?). split; [lia|done].
Qed.

(** What is before a gap is smaller, what is after it is larger. *)
Lemma pre_less cl l k m : length cl = length l -> asc (pre cl l ++ m) -> less_all k l -> less_all k (pre cl l).
Proof.
  destruct l as [|it l _] using rev_ind; intros El Ha Hk; [by destruct cl|].
  destruct cl as [|c cl _] using rev_ind; [rewrite length_app in El; cbn in El; lia|].
  rewrite !length_app in El. cbn in El. rewrite pre_snoc in * by lia. rewrite app_assoc in *.
  rewrite <- app_assoc in Ha. cbn [app] in Ha. apply asc_mid in Ha as (_ & _ & Hl & _).
  apply Forall_app in Hk as [_ [Hk _]%Forall_cons]. apply Forall_app. split; [|by apply Forall_singleton]. eapply less_all_lt; [|exact Hl]. lia.
Qed.

Lemma post_more r cr k m : length cr = length r -> asc (m ++ post r cr) -> more_all k r -> more_all k (post r cr).
Proof.
  destruct r as [|it r], cr as [|c cr]; intros El Ha Hk; try done. rewrite post_cons in *.
  apply asc_mid in Ha as (_ & _ & _ & Hl). apply Forall_cons in Hk as [Hk _]. constructor; [done|]. eapply more_all_lt; [|exact Hl]. lia.
Qed.

(** The items of a node are in order too. *)
Lemma post_items r cr x : x ∈ r -> length cr = length r -> x ∈ post r cr.
Proof.
  revert cr. induction r as [|it r IH]; intros [|c cr] Hx El; try done.
  rewrite post_cons. apply elem_of_cons. apply elem_of_cons in Hx as [->|Hx]; [by left|right]. apply elem_of_app. right. by apply IH; [|cbn in El; lia].
Qed.

Lemma post_asc m r cr : length cr = length r -> asc (m ++ post r cr) -> asc r /\ forall x y, x ∈ m -> y ∈ r -> key x < key y.
Proof.
  revert m cr. induction r as [|it r IH]; intros m [|c cr] El Ha; try done.
  { split; [done|]. by intros x y _ ?%elem_of_nil. }
  rewrite post_cons in Ha. pose proof Ha as Hm. apply asc_mid in Hm as (_ & Hr & Hl & Hmo).
  destruct (IH (flat c) cr) as [Har _]; [by injection El|done|]. unfold less_all, more_all in *. rewrite Forall_forall in Hl, Hmo.
  assert (forall y, y ∈ r -> key it < key y) as Hit.
  { intros y Hy. apply Hmo, elem_of_app. right. by apply post_items; [|injection El]. }
  split; [split; [by apply Forall_forall|done]|]. intros x y Hx [->|Hy]%elem_of_cons; [by apply Hl|].
  specialize (Hl x Hx). specialize (Hit y Hy). lia.
Qed.

Lemma wf_asc h n : wf h n -> asc (flat n) -> asc (items n).
Proof.
  destruct n as [its cs]. destruct h as [|h]; intros Hw Ha.
  - apply wf_leaf in Hw as [its' [= -> ->]]. done.
  - destruct Hw as [Hl _]. cbn [items children] in *. destruct cs as [|c cs]; [done|]. rewrite flat_post in Ha.
    apply (post_asc (flat c) its cs); [by injection Hl|done].
Qed.
End Degree.

(** ** Inserting *)

(** What an insertion does to the items: a new item is put in its place, and one
    that is there gets the transactions, or is replaced, which [b] tells. *)
Definition puts (b : bool) (it : SpcialTxData) (l l' : list SpcialTxData) (out : option SpcialTxData) : Prop :=
  (exists a c, l = a ++ c /\ less_all (key it) a /\ more_all (key it) c /\ l' = a ++ it :: c /\ out = None) \/
  (exists a x c, l = a ++ x :: c /\ key x = key it /\ l' = a ++ (if b then it else InsertTxData x it) :: c /\
     out = Some (if b then x else InsertTxData x it)).

Lemma puts_between b it a m m' c out :
  puts b it m m' out -> less_all (key it) a -> more_all (key it) c -> puts b it (a ++ m ++ c) (a ++ m' ++ c) out.
Proof.
  intros [(a' & c' & -> & Ha & Hc & -> & ->)|(a' & x & c' & -> & Hk & -> & ->)] Hla Hmc; [left|right].
  - exists (a ++ a'), (c' ++ c). rewrite <- !app_assoc. split; [done|]. split; [by apply Forall_app|]. split; [by apply Forall_app|]. done.
  - exists (a ++ a'), x, (c' ++ c). rewrite <- !app_assoc. done.
Qed.

Lemma puts_asc b it l l' out : asc l -> puts b it l l' out -> asc l'.
Proof.
  intros Ha [(a & c & -> & Hl & Hm & -> & _)|(a & x & c & -> & Hk & -> & _)].
  - apply asc_mid. apply asc_app in Ha as (Ha & Hc & _). by split_and!.
  - assert (key (if b then it else InsertTxData x it) = key x) as Ey by by destruct b. apply asc_mid in Ha. apply asc_mid. by rewrite Ey.
Qed.

(** ** Items that move up *)

Definition has (k : Z) (l : list SpcialTxData) : bool := existsb (fun x => key x =? k) l.
Definition below (k : Z) (l : list SpcialTxData) : nat := length (List.filter (fun x => key x <? k) l).

Lemma has_app k a b : has k (a ++ b) = has k a || has k b.
Proof. apply existsb_app. Qed.

Lemma below_app k a b : below k (a ++ b) = (below k a + below k b)%nat.
Proof. unfold below. by rewrite List.filter_app, length_app. Qed.

Lemma less_place k l : less_all k l -> has k l = false /\ below k l = length l.
Proof.
  induction 1 as [|x l Hx _ [IH1 IH2]]; [done|]. unfold has, below in *. cbn. rewrite (proj2 (Z.eqb_neq _ _)), (proj2 (Z.ltb_lt _ _)) by lia.
  cbn. by rewrite IH1, IH2.
Qed.

Lemma more_place k l : more_all k l -> has k l = false /\ below k l = 0%nat.
Proof.
  induction 1 as [|x l Hx _ [IH1 IH2]]; [done|]. unfold has, below in *. cbn. rewrite (proj2 (Z.eqb_neq _ _)), (proj2 (Z.ltb_ge _ _)) by lia.
  by rewrite IH1.
Qed.

(** On the way down to the place of a key a full child is split; the item with the
    key is its middle one, which moves up.  [h] is the height of the node. *)
Fixpoint moves_up (d h : nat) (k : Z) (n : bnode) : bool :=
  match h with
  | O => false
  | S h =>
      if has k (items n) then false
      else match children n !! below k (items n) with
           | None => false
           | Some c =>
               ((length (items c) =? d * 2 - 1)%nat && match items c !! (d - 1)%nat with Some m => key m =? k | None => false end)
               || moves_up d h k c
           end
  end.

Section Degree.
Context (d : nat) (Hd : (2 <= d)%nat).

#[local] Abbreviation lo := (d - 1)%nat.
#[local] Abbreviation hi := (d * 2 - 1)%nat.
#[local] Abbreviation wf := (wf d).

(** ** Splitting *)

Lemma hi_half : (hi / 2)%nat = lo.
Proof. replace hi with (1 + lo * 2)%nat by lia. rewrite Nat.div_add by done. done. Qed.

(** The way to a key in a node is the way in one of its halves. *)
Lemma moves_up_halves h l m r cl cr cs k :
  length cl = S (length l) -> asc (l ++ m :: r) -> cs = cl ++ cr ->
  (k < key m -> moves_up d (S h) k (BNode l cl) = moves_up d (S h) k (BNode (l ++ m :: r) cs)) /\
  (key m < k -> moves_up d (S h) k (BNode r cr) = moves_up d (S h) k (BNode (l ++ m :: r) cs)).
Proof.
  intros Ecl (_ & _ & Hl & Hr)%asc_mid ->. cbn [moves_up items children]. rewrite has_app, below_app. split; intros Hk.
  - assert (more_all k (m :: r)) as [-> ->]%more_place.
    { constructor; [done|]. eapply more_all_lt; [|exact Hr]. lia. }
    rewrite orb_false_r, Nat.add_0_r. destruct (has k l); [done|]. rewrite lookup_app_l; [done|].
    pose proof (filter_length_le (fun x => key x <? k) l). unfold below. lia.
  - assert (less_all k (l ++ [m])) as Hlm by (apply Forall_app; split; [eapply less_all_lt; [|exact Hl]; lia|by constructor]).
    change (m :: r) with ([m] ++ r). rewrite has_app, below_app, orb_assoc, <- has_app, Nat.add_assoc, <- below_app.
    destruct (less_place k (l ++ [m]) Hlm) as [-> ->]. cbn [orb]. destruct (has k r); [done|].
    rewrite length_app. cbn [length]. rewrite lookup_app_r by lia.
    by replace (length l + 1 + below k r - length cl)%nat with (below k r) by lia.
Qed.

(** A full node in two halves. *)
Lemma split_spec h c :
  wf h c -> length (items c) = hi ->
  exists first it second, split_ lo c = Ok (first, it, second) /\ wf h first /\ wf h second /\
    length (items first) = lo /\ length (items second) = lo /\ flat c = flat first ++ it :: flat second /\
    items c !! lo = Some it /\
    (asc (flat c) -> forall k, (k < key it -> moves_up d h k first = moves_up d h k c) /\
                               (key it < k -> moves_up d h k second = moves_up d h k c)).
Proof.
  intros Hw Hl. destruct c as [its cs]. cbn [items] in Hl. destruct (list_split its lo) as (l & it & r & -> & El); [lia|].
  rewrite length_app in Hl. cbn [length] in Hl. unfold split_. rewrite <- El, at_mid. cbn [res_bind].
  assert (take (length l) (l ++ it :: r) = l) as -> by apply take_app_length.
  assert (drop (length l + 1) (l ++ it :: r) = r) as ->.
  { replace (l ++ it :: r) with ((l ++ [it]) ++ r) by by rewrite <- app_assoc. apply drop_app_length'. by rewrite length_app. }
  destruct h as [|h].
  - apply wf_leaf in Hw as [its' [= <- ->]]. eexists _, _, _. split; [done|]. cbn [items length flat].
    split_and!; lia || done || by apply list_lookup_middle.
  - destruct (wf_split d h (l ++ it :: r) cs (length l) Hw) as (l' & r' & cl & c & cr & E & -> & El' & Ecl & Ecr);
      [rewrite length_app; cbn; lia|].
    apply app_split in E as [<- <-]; [|done]. destruct cr as [|c' cr]; [done|]. cbn [length] in Ecr.
    replace (0 <? length (cl ++ c :: c' :: cr))%nat with true by (symmetry; apply Nat.ltb_lt; rewrite length_app; cbn; lia).
    assert (take (length l + 1) (cl ++ c :: c' :: cr) = cl ++ [c]) as ->.
    { replace (cl ++ c :: c' :: cr) with ((cl ++ [c]) ++ c' :: cr) by by rewrite <- app_assoc. apply take_app_length'. rewrite length_app. cbn. lia. }
    assert (drop (length l + 1) (cl ++ c :: c' :: cr) = c' :: cr) as ->.
    { replace (cl ++ c :: c' :: cr) with ((cl ++ [c]) ++ c' :: cr) by by rewrite <- app_assoc. apply drop_app_length'. rewrite length_app. cbn. lia. }
    pose proof (wf_asc d (S h) _ Hw) as Hasc. apply (wf_node d) in Hw as (Hcl & Hc & Hcr); [|done|cbn; lia]. apply Forall_cons in Hcr as [Hc' Hcr].
    eexists _, _, _. split; [done|]. split; [|split; [|split; [done|split; [cbn; lia|split; [|split; [by apply list_lookup_middle|]]]]]].
    + replace (BNode l (cl ++ [c])) with (BNode (l ++ []) (cl ++ c :: [])) by by rewrite app_nil_r. by apply wf_node; [..|done|constructor].
    + replace (BNode r (c' :: cr)) with (BNode ([] ++ r) ([] ++ c' :: cr)) by done. apply wf_node; [done|lia|by constructor].
    + replace (BNode l (cl ++ [c])) with (BNode (l ++ []) (cl ++ c :: [])) by by rewrite app_nil_r.
      rewrite flat_at, flat_at by done || (cbn; lia). rewrite post_cons, flat_post. cbn [post zip_with concat].
      rewrite app_nil_r, <- !app_assoc. done.
    + intros Ha k. apply (moves_up_halves h l it r (cl ++ [c]) (c' :: cr)); [rewrite length_app; cbn; lia| |by rewrite <- app_assoc].
      exact (Hasc Ha).
Qed.

(** ** Inserting *)

(** An item of a node among the items of the tree. *)
Lemma flat_item h l x r cs : wf h (BNode (l ++ x :: r) cs) -> exists a b, forall y, flat (BNode (l ++ y :: r) cs) = a ++ y :: b.
Proof.
  destruct h as [|h]; intros Hw.
  - apply wf_leaf in Hw as [its [= <- ->]]. by exists l, r.
  - destruct (wf_split d h (l ++ x :: r) cs (length l) Hw) as (l' & r' & cl & c & cr & E & -> & El' & Ecl & Ecr);
      [rewrite length_app; cbn; lia|].
    apply app_split in E as [<- <-]; [|done]. destruct cr as [|c' cr]; [done|]. cbn [length] in Ecr.
    exists (pre cl l ++ flat c), (flat c' ++ post r cr). intros y. rewrite flat_at, post_cons by done || (cbn; lia). by rewrite <- app_assoc.
Qed.

Lemma wf_item h l x y r cs : wf h (BNode (l ++ x :: r) cs) -> wf h (BNode (l ++ y :: r) cs).
Proof. destruct h; [done|]. cbn [BTreeSpec.wf items children]. by rewrite !length_app. Qed.

Definition inserted (it : SpcialTxData) (h : nat) (n : bnode) (r : res bt_error (bnode * option SpcialTxData)) : Prop :=
  exists n' out, r = Ok (n', out) /\ wf h n' /\ (length (items n) <= length (items n') <= S (length (items n)))%nat /\
    puts (moves_up d h (key it) n) it (flat n) (flat n') out.

Lemma insert_found fuel it h its cs i :
  wf h (BNode its cs) -> asc (flat (BNode its cs)) -> find_ it its = (i, true) ->
  inserted it h (BNode its cs) (insert_node (S fuel) it hi (BNode its cs)).
Proof.
  intros Hw Ha F. pose proof (find_spec it its (wf_asc d h _ Hw Ha)) as Hf. rewrite F in Hf. cbn [fst snd found_at] in Hf.
  destruct Hf as (l & x & r & -> & <- & Hk). cbn [insert_node]. rewrite F, at_mid. cbn [res_bind]. rewrite set_at_mid. cbn [res_bind].
  eexists _, _. split; [done|]. split; [by eapply wf_item|]. cbn [items]. rewrite !length_app. cbn [length]. split; [lia|].
  destruct (flat_item h l x r cs Hw) as (a & b & E). rewrite !E. right. exists a, x, b.
  assert (has (key it) (l ++ x :: r) = true) as Hh by (rewrite has_app; cbn; by rewrite Hk, Z.eqb_refl, orb_true_r).
  assert (moves_up d h (key it) (BNode (l ++ x :: r) cs) = false) as -> by (destruct h; [done|]; cbn [moves_up items]; by rewrite Hh). done.
Qed.

(** Inserting into a child. *)
Definition into_child (fuel : nat) (it : SpcialTxData) (its : list SpcialTxData) (cs : list bnode) (i : nat)
    : res bt_error (bnode * option SpcialTxData) :=
  let* c := at_ cs i in
  let* (c, out) := insert_node fuel it hi c in
  let* cs := set_at i c cs in
  Ok (BNode its cs, out).

(** What is said of inserting into smaller trees. *)
Definition inserts (fuel : nat) (it : SpcialTxData) (h : nat) : Prop :=
  forall c, wf h c -> asc (flat c) -> (length (items c) < hi)%nat -> inserted it h c (insert_node fuel it hi c).

Lemma asc_child l r cl c cr :
  length cl = length l -> length cr = length r -> asc (flat (BNode (l ++ r) (cl ++ c :: cr))) -> asc (flat c).
Proof. intros Ecl Ecr. rewrite flat_at by done. intros (_ & Ha & _)%asc_app. by apply asc_app in Ha as (? & _). Qed.

Lemma insert_child fuel it h l r cl c cr :
  inserts fuel it h -> wf (S h) (BNode (l ++ r) (cl ++ c :: cr)) -> length cl = length l -> length cr = length r ->
  asc (flat (BNode (l ++ r) (cl ++ c :: cr))) -> less_all (key it) l -> more_all (key it) r -> (length (items c) < hi)%nat ->
  exists n' out, into_child fuel it (l ++ r) (cl ++ c :: cr) (length l) = Ok (n', out) /\ wf (S h) n' /\ items n' = l ++ r /\
    puts (moves_up d h (key it) c) it (flat (BNode (l ++ r) (cl ++ c :: cr))) (flat n') out.
Proof.
  intros IH Hw Ecl Ecr Ha Hl Hr Hc. pose proof Hw as (Hcl & (_ & Hcw) & Hcr)%wf_node; [|done..].
  destruct (IH c Hcw (asc_child l r cl c cr Ecl Ecr Ha) Hc) as (c' & out & E & Hw' & Hlen & Hp).
  unfold into_child. rewrite <- Ecl, at_mid. cbn [res_bind]. rewrite E. cbn [res_bind].
  rewrite set_at_mid. cbn [res_bind]. eexists _, _. split; [done|]. apply wf_node in Hw as (_ & Hc' & _); [|done..].
  split; [apply wf_node; [done..|]; split; [done|]; split; [|done]; split; [lia|done]|]. split; [done|].
  rewrite !flat_at in * by done. apply puts_between; [done| |].
  - by eapply pre_less.
  - eapply post_more; [done| |done]. rewrite app_assoc in Ha. done.
Qed.

(** After a split, [m] is the item that has moved up. *)
Lemma insert_halves fuel it h l m r cl f s cr :
  inserts fuel it h -> wf (S h) (BNode (l ++ m :: r) (cl ++ f :: s :: cr)) -> length cl = length l -> length cr = length r ->
  asc (flat (BNode (l ++ m :: r) (cl ++ f :: s :: cr))) -> less_all (key it) l -> more_all (key it) r ->
  length (items f) = lo -> length (items s) = lo ->
  exists n' out,
    (if Less it m then into_child fuel it (l ++ m :: r) (cl ++ f :: s :: cr) (length l)
     else if Less m it then into_child fuel it (l ++ m :: r) (cl ++ f :: s :: cr) (length l + 1)
     else let* its := set_at (length l) it (l ++ m :: r) in
          Ok (BNode its (cl ++ f :: s :: cr), Some m)) = Ok (n', out) /\
    wf (S h) n' /\ length (items n') = S (length (l ++ r)) /\
    puts (if key it <? key m then moves_up d h (key it) f else if key m <? key it then moves_up d h (key it) s else true) it
      (flat (BNode (l ++ m :: r) (cl ++ f :: s :: cr))) (flat n') out.
Proof.
  intros IH Hw Ecl Ecr Ha Hl Hr Elf Els. rewrite length_app. unfold Less.
  destruct (Z.ltb_spec (key it) (key m)) as [Hlt|Hge].
  { destruct (insert_child fuel it h l (m :: r) cl f (s :: cr)) as (n' & out & -> & Hw' & Ei & Hp);
      [done..|cbn; lia|done|done|by constructor|lia|]. eexists _, _. split; [done|]. rewrite Ei, length_app. cbn. by split; [|split; [lia|]]. }
  destruct (Z.ltb_spec (key m) (key it)) as [Hlt'|Hge'].
  - replace (length l + 1)%nat with (length (l ++ [m])) by (rewrite length_app; cbn; lia).
    replace (l ++ m :: r) with ((l ++ [m]) ++ r) in * by by rewrite <- app_assoc.
    replace (cl ++ f :: s :: cr) with ((cl ++ [f]) ++ s :: cr) in * by by rewrite <- app_assoc.
    destruct (insert_child fuel it h (l ++ [m]) r (cl ++ [f]) s cr) as (n' & out & -> & Hw' & Ei & Hp);
      [done..|rewrite !length_app; cbn; lia|done|done|apply Forall_app; by split; [|constructor]|done|lia|].
    eexists _, _. split; [done|]. rewrite Ei, !length_app. cbn. by split; [|split; [lia|]].
  - rewrite set_at_mid. cbn [res_bind]. eexists _, _. split; [done|]. split; [by eapply wf_item|]. cbn [items].
    rewrite length_app. cbn [length]. split; [lia|].
    destruct (flat_item (S h) l m r _ Hw) as (a & b & E). rewrite !E. right. exists a, m, b.
    assert (key m = key it) by lia. done.
Qed.

Lemma insert_spec it fuel h n :
  wf h n -> asc (flat n) -> (length (items n) < hi)%nat -> (h < fuel)%nat -> inserted it h n (insert_node fuel it hi n).
Proof.
  revert fuel n. induction h as [|h IH]; intros fuel n Hw Ha Hlen Hf; (destruct fuel as [|fuel]; [lia|]); destruct n as [its cs];
    (destruct (find_ it its) as [i [|]] eqn:F; [by eapply insert_found|]);
    pose proof (find_spec it its (wf_asc d _ _ Hw Ha)) as Hx; rewrite F in Hx; cbn [fst snd found_at] in Hx;
    destruct Hx as (l & r & -> & <- & Hl & Hr); cbn [insert_node]; rewrite F.
  - apply wf_leaf in Hw as [its' [= <- ->]]. cbn [length Nat.eqb]. rewrite insertAt_mid. cbn [res_bind].
    eexists _, _. split; [done|]. split; [done|]. cbn [items]. rewrite !length_app. cbn [length flat]. split; [lia|].
    left. by exists l, r.
  - destruct (wf_split d h (l ++ r) cs (length l) Hw) as (l' & r' & cl & c & cr & E & -> & El' & Ecl & Ecr); [rewrite length_app; lia|].
    apply app_split in E as [<- <-]; [|done]. pose proof Hw as (Hcl & (Hlc & Hwc) & Hcr)%wf_node; [|done..].
    assert (moves_up d (S h) (key it) (BNode (l ++ r) (cl ++ c :: cr)) =
      ((length (items c) =? hi)%nat && match items c !! lo with Some m => key m =? key it | None => false end) || moves_up d h (key it) c) as Emv.
    { cbn [moves_up items children]. destruct (less_place _ _ Hl) as [Hh1 Hb1], (more_place _ _ Hr) as [Hh2 Hb2].
      rewrite has_app, below_app, Hh1, Hh2, Hb1, Hb2, Nat.add_0_r, <- Ecl. cbn [orb]. by rewrite list_lookup_middle. }
    assert (inserts fuel it h) as IH' by (intros c' Hw' Ha' Hl'; apply IH; [done..|lia]).
    replace (length (cl ++ c :: cr) =? 0)%nat with false by (symmetry; apply Nat.eqb_neq; rewrite length_app; cbn; lia).
    unfold maybeSplitChild. rewrite <- Ecl, at_mid. cbn [res_bind]. rewrite Ecl.
    destruct (Nat.ltb_spec (length (items c)) hi) as [Hlt|Hge]; cbn [res_bind].
    { destruct (insert_child fuel it h l r cl c cr) as (n' & out & E & Hw' & Ei & Hp); [done..|].
      eexists _, _. split; [exact E|]. split; [done|]. rewrite Ei, Emv. cbn [items]. split; [lia|].
      by rewrite (proj2 (Nat.eqb_neq _ _)) by lia. }
    destruct (split_spec h c Hwc) as (f & m & s & Es & Hwf & Hws & Elf & Els & Efl & Emid & Ehalf); [lia|].
    destruct (Ehalf (asc_child l r cl c cr Ecl Ecr Ha) (key it)) as [Ef Eg]. rewrite Emid, (proj2 (Nat.eqb_eq (length (items c)) hi)) in Emv by lia.
    cbn [andb] in Emv.
    rewrite hi_half, Es. cbn [res_bind]. rewrite <- Ecl at 1. rewrite set_at_mid. cbn [res_bind]. rewrite insertAt_mid. cbn [res_bind].
    replace (cl ++ f :: cr) with ((cl ++ [f]) ++ cr) by by rewrite <- app_assoc.
    replace (length l + 1)%nat with (length (cl ++ [f])) at 1 by (rewrite length_app; cbn; lia). rewrite insertAt_mid. cbn [res_bind].
    rewrite at_mid. cbn [res_bind]. rewrite <- app_assoc. cbn [app].
    assert (flat (BNode (l ++ m :: r) (cl ++ f :: s :: cr)) = flat (BNode (l ++ r) (cl ++ c :: cr))) as Eflat.
    { rewrite !flat_at by done || (cbn; lia). rewrite post_cons, Efl. by rewrite <- !app_assoc. }
    destruct (insert_halves fuel it h l m r cl f s cr) as (n' & out & E & Hw' & Ei & Hp); [done| |done|done|by rewrite Eflat|done..|].
    { apply wf_node; [done|cbn; lia|]. split; [done|]. split; [split; [lia|done]|]. constructor; [split; [lia|done]|done]. }
    eexists _, _. split; [exact E|]. split; [done|]. rewrite Ei, <- Eflat, Emv. cbn [items]. split; [lia|].
    revert Hp. destruct (Z.ltb_spec (key it) (key m)); [|destruct (Z.ltb_spec (key m) (key it))].
    + rewrite (proj2 (Z.eqb_neq (key m) _)) by lia. by rewrite Ef by lia.
    + rewrite (proj2 (Z.eqb_neq (key m) _)) by lia. by rewrite Eg by lia.
    + by rewrite (proj2 (Z.eqb_eq (key m) _)) by lia.
Qed.
End Degree.
