(* ===== verification/BTreeRemove.v ===== *)
(** * Removing from the B-tree *)

From S2P Require Import BTree BTreeSpec Prelude.

#[local] Set Warnings "-register-all".

Section Degree.
Context (d : nat) (Hd : (2 <= d)%nat).

#[local] Abbreviation lo := (d - 1)%nat.
#[local] Abbreviation hi := (d * 2 - 1)%nat.
#[local] Abbreviation wf := (wf d).

(** ** Nodes in two parts *)

(** Two nodes of the same height with an item between them. *)
Definition join_nodes (a : bnode) (x : SpcialTxData) (b : bnode) : bnode :=
  BNode (items a ++ x :: items b) (children a ++ children b).

Lemma node_eta n : BNode (items n) (children n) = n.
Proof. by destruct n. Qed.

Lemma join_flat h a x b : wf h a -> wf h b -> flat (join_nodes a x b) = flat a ++ x :: flat b.
Proof.
  destruct a as [ai ac], b as [bi bc]. unfold join_nodes. destruct h as [|h]; intros Ha Hb; cbn [items children] in *.
  - cbn in Ha, Hb. by subst.
  - destruct Ha as [Ea _], Hb as [Eb _]. cbn [items children] in *.
    destruct ac as [|c ac' _] using rev_ind; [done|].
    destruct bc as [|c' bc]; [done|]. rewrite length_app in Ea. cbn [length] in Ea, Eb. rewrite <- app_assoc. cbn [app].
    rewrite flat_at by (cbn; lia). rewrite post_cons, flat_post.
    replace (BNode ai (ac' ++ [c])) with (BNode (ai ++ []) (ac' ++ c :: [])) by by rewrite app_nil_r. rewrite flat_at by (cbn; lia).
    cbn [post zip_with concat]. rewrite app_nil_r, <- app_assoc. done.
Qed.

Lemma join_wf h a x b : wf h a -> wf h b -> wf h (join_nodes a x b).
Proof.
  destruct a as [ai ac], b as [bi bc]. unfold join_nodes. destruct h as [|h]; cbn [BTreeSpec.wf items children].
  - by intros -> ->.
  - intros [Ea Ha] [Eb Hb]. rewrite !length_app. cbn [length]. split; [lia|]. by apply Forall_app.
Qed.

(** The last and the first item of a node, with the child next to it. *)
Lemma node_last h s : wf h s -> (1 <= length (items s))%nat ->
  exists s' st e, s = join_nodes s' st e /\ wf h s' /\ wf h e /\ items e = [].
Proof.
  destruct s as [si sc]. cbn [items]. intros Hw Hl. destruct si as [|st si _] using rev_ind; [cbn in Hl; lia|].
  destruct h as [|h].
  - cbn in Hw. subst. by exists (BNode si []), st, (BNode [] []).
  - destruct Hw as [E Hc]. cbn [items children] in *. rewrite length_app in E. cbn in E.
    destruct sc as [|z sc _] using rev_ind; [done|]. rewrite length_app in E. cbn in E.
    apply Forall_app in Hc as [Hc Hz]. exists (BNode si sc), st, (BNode [] [z]). split; [done|].
    split; [split; [cbn; lia|done]|]. by split; [split; [done|]|].
Qed.

Lemma node_first h s : wf h s -> (1 <= length (items s))%nat ->
  exists s' st e, s = join_nodes e st s' /\ wf h s' /\ wf h e /\ items e = [].
Proof.
  destruct s as [[|st si] sc]; cbn [items]; intros Hw Hl; [cbn in Hl; lia|]. destruct h as [|h].
  - cbn in Hw. subst. by exists (BNode si []), st, (BNode [] []).
  - destruct Hw as [E Hc]. cbn [items children] in *. destruct sc as [|z sc]; [done|]. cbn in E.
    apply Forall_cons in Hc as [Hz Hc]. exists (BNode si sc), st, (BNode [] [z]). split; [done|].
    split; [split; [cbn; lia|done]|]. split; [|done]. split; [done|]. by constructor.
Qed.

(** ** Growing a child *)

Definition from_on (k : Z) (r : list SpcialTxData) : Prop := Forall (fun x => k <= key x) r.

(** The child that is grown is where it was, as far as the keys are concerned. *)
Record grown (h : nat) (l r : list SpcialTxData) (cl : list bnode) (c : bnode) (cr : list bnode) (n : bnode) : Prop := {
  g_place : exists l' r' cl' c' cr', n = BNode (l' ++ r') (cl' ++ c' :: cr') /\ length cl' = length l' /\ length cr' = length r' /\
    (lo < length (items c'))%nat /\ (r = [] -> r' = []) /\
    (forall k, asc (flat n) -> less_all k l -> from_on k r -> less_all k l' /\ from_on k r');
  g_wf : wf (S h) n;
  g_flat : flat n = flat (BNode (l ++ r) (cl ++ c :: cr));
  g_length : (length (l ++ r) - 1 <= length (items n) <= length (l ++ r))%nat
}.

Definition sized_ (h : nat) (c : bnode) : Prop := (lo <= length (items c) <= hi)%nat /\ wf h c.

Lemma wf_around h l r cl c cr :
  length cl = length l -> length cr = length r ->
  wf (S h) (BNode (l ++ r) (cl ++ c :: cr)) <-> Forall (sized_ h) cl /\ sized_ h c /\ Forall (sized_ h) cr.
Proof. apply wf_node. Qed.

Lemma app_snoc {A} (a : list A) x b : (a ++ [x]) ++ b = a ++ x :: b.
Proof. by rewrite <- app_assoc. Qed.

(** A brother can spare an item. *)
Definition richer (cs : list bnode) (j : nat) : bool :=
  match cs !! j with
  | Some c => (lo <? length (items c))%nat
  | None => false
  end.

Lemma grow_left h l x r cl s c cr :
  wf (S h) (BNode (l ++ x :: r) (cl ++ s :: c :: cr)) -> length cl = length l -> length cr = length r ->
  length (items c) = lo -> (lo < length (items s))%nat ->
  exists n, growChild (length l + 1) lo (BNode (l ++ x :: r) (cl ++ s :: c :: cr)) = Ok n /\
    grown h (l ++ [x]) r (cl ++ [s]) c cr n.
Proof.
  intros Hw Ecl Ecr Elc Hs. pose proof Hw as (Hcl & [Hls Hws] & Hr)%wf_around; [|done|cbn; lia]. apply Forall_cons in Hr as [[_ Hwc] Hcr].
  destruct (node_last h s Hws) as (s' & st & e & -> & Hws' & Hwe & Ee); [lia|].
  assert (length (items s') = length (items (join_nodes s' st e)) - 1)%nat as Els.
  { unfold join_nodes. cbn [items]. rewrite Ee, length_app. cbn. lia. }
  exists (BNode (l ++ st :: r) (cl ++ s' :: join_nodes e x c :: cr)). split.
  - unfold growChild. replace (length l + 1 - 1)%nat with (length cl) by lia.
    rewrite (proj2 (Nat.ltb_lt 0 _)) by lia. rewrite list_lookup_middle by done. rewrite (proj2 (Nat.ltb_lt lo _)) by done. cbn [andb].
    rewrite <- (app_snoc cl (join_nodes s' st e) (c :: cr)). replace (length l + 1)%nat with (length (cl ++ [join_nodes s' st e]))
      by (rewrite length_app; cbn; lia). rewrite at_mid. cbn [res_bind]. rewrite app_snoc, at_mid. cbn [res_bind].
    unfold join_nodes at 1. cbn [items]. rewrite Ee, pop_snoc. cbn [res_bind]. rewrite Ecl, at_mid. cbn [res_bind]. rewrite set_at_mid. cbn [res_bind].
    assert ((if (0 <? length (children (join_nodes s' st e)))%nat
             then let* (sc, scs) := pop (children (join_nodes s' st e)) in Ok (sc :: children c, scs)
             else Ok (children c, children (join_nodes s' st e))) = (Ok (children e ++ children c, children s') : res bt_error _)) as ->.
    { unfold join_nodes. cbn [children]. destruct h as [|h]; cbn in Hws', Hwe, Hwc.
      - by rewrite Hws', Hwe.
      - destruct Hwe as [E _]. rewrite Ee in E. destruct (children e) as [|z [|]]; try done. rewrite pop_snoc.
        by rewrite length_app, (proj2 (Nat.ltb_lt 0 _)) by (cbn; lia). }
    cbn [res_bind]. rewrite <- (app_snoc cl (join_nodes s' st e) (c :: cr)), set_at_mid. cbn [res_bind].
    rewrite app_snoc, <- Ecl, set_at_mid. cbn [res_bind]. unfold join_nodes. by rewrite Ee, node_eta.
  - assert (flat (BNode (l ++ st :: r) (cl ++ s' :: join_nodes e x c :: cr)) = flat (BNode (l ++ x :: r) (cl ++ join_nodes s' st e :: c :: cr))) as Efl.
    { rewrite !flat_at by done || (cbn; lia). rewrite !post_cons, !(join_flat h) by done. by rewrite <- !app_assoc. }
    split.
    + exists (l ++ [st]), r, (cl ++ [s']), (join_nodes e x c), cr. rewrite !app_snoc, !length_app. split; [done|]. split; [cbn; lia|].
      split; [done|]. split; [unfold join_nodes; cbn; rewrite Ee; cbn; lia|]. split; [done|]. intros k Ha Hk Hf. split; [|done].
      apply Forall_app in Hk as [Hk [Hx _]%Forall_cons]. apply Forall_app. split; [done|]. constructor; [|constructor].
      rewrite flat_at in Ha by done || (cbn; lia). rewrite post_cons, (join_flat h) in Ha by done.
      rewrite app_assoc in Ha. apply asc_mid in Ha as (_ & _ & _ & Hm). unfold more_all in Hm. rewrite Forall_forall in Hm.
      assert (key st < key x); [|lia]. apply Hm. set_solver.
    + apply wf_around; [done|cbn; lia|]. split; [done|]. split; [split; [lia|done]|]. constructor; [|done].
      split; [unfold join_nodes; cbn; rewrite Ee; cbn; lia|]. by apply join_wf.
    + by rewrite Efl, !app_snoc.
    + cbn [items]. rewrite !length_app. cbn. lia.
Qed.

Lemma grow_right h l x r cl c s cr :
  wf (S h) (BNode (l ++ x :: r) (cl ++ c :: s :: cr)) -> length cl = length l -> length cr = length r ->
  length (items c) = lo -> (lo < length (items s))%nat -> (0 <? length l)%nat && richer (cl ++ c :: s :: cr) (length l - 1) = false ->
  exists n, growChild (length l) lo (BNode (l ++ x :: r) (cl ++ c :: s :: cr)) = Ok n /\ grown h l (x :: r) cl c (s :: cr) n.
Proof.
  intros Hw Ecl Ecr Elc Hs Hno. pose proof Hw as (Hcl & [Hlc Hwc] & Hr)%wf_around; [|done|cbn; lia]. apply Forall_cons in Hr as [[Hls Hws] Hcr].
  destruct (node_first h s Hws) as (s' & st & e & -> & Hws' & Hwe & Ee); [lia|].
  assert (length (items s') = length (items (join_nodes e st s')) - 1)%nat as Els.
  { unfold join_nodes. cbn [items]. rewrite Ee. cbn. lia. }
  exists (BNode (l ++ st :: r) (cl ++ join_nodes c x e :: s' :: cr)). split.
  - unfold growChild. fold (richer (cl ++ c :: join_nodes e st s' :: cr) (length l - 1)). rewrite Hno. rewrite length_app. cbn [length]. rewrite (proj2 (Nat.ltb_lt (length l) _)) by lia. cbn [andb].
    rewrite <- (app_snoc cl c (join_nodes e st s' :: cr)). replace (length l + 1)%nat with (length (cl ++ [c])) by (rewrite length_app; cbn; lia).
    rewrite list_lookup_middle by done. rewrite (proj2 (Nat.ltb_lt lo _)) by done. rewrite at_mid. rewrite app_snoc, <- Ecl, at_mid. cbn [res_bind].
    unfold join_nodes at 1. cbn [items]. rewrite Ee. cbn [app]. unfold removeAt at 1. cbn [at_ lookup list_lookup res_bind take drop app].
    rewrite Ecl, at_mid. cbn [res_bind]. rewrite set_at_mid. cbn [res_bind].
    assert ((if (0 <? length (children (join_nodes e st s')))%nat
             then let* (sc, scs) := removeAt 0 (children (join_nodes e st s')) in Ok (children c ++ [sc], scs)
             else Ok (children c, children (join_nodes e st s'))) = (Ok (children c ++ children e, children s') : res bt_error _)) as ->.
    { unfold join_nodes. cbn [children]. destruct h as [|h]; cbn in Hws', Hwe, Hwc.
      - by rewrite Hws', Hwe, Hwc.
      - destruct Hwe as [E _]. rewrite Ee in E. by destruct (children e) as [|z [|]]. }
    cbn [res_bind]. rewrite <- Ecl, set_at_mid. cbn [res_bind]. rewrite <- (app_snoc cl (BNode _ _) (join_nodes e st s' :: cr)).
    replace (length (cl ++ [c])) with (length (cl ++ [BNode (items c ++ [x]) (children c ++ children e)])) by by rewrite !length_app.
    rewrite set_at_mid. cbn [res_bind]. rewrite app_snoc. unfold join_nodes. by rewrite Ee, drop_0, node_eta.
  - assert (flat (BNode (l ++ st :: r) (cl ++ join_nodes c x e :: s' :: cr)) = flat (BNode (l ++ x :: r) (cl ++ c :: join_nodes e st s' :: cr))) as Efl.
    { rewrite !flat_at by done || (cbn; lia). rewrite !post_cons, !(join_flat h) by done. by rewrite <- !app_assoc. }
    split.
    + exists l, (st :: r), cl, (join_nodes c x e), (s' :: cr). split; [done|]. split; [done|]. split; [cbn; lia|].
      split; [unfold join_nodes; cbn; rewrite Ee, length_app; cbn; lia|]. split; [done|]. intros k Ha Hk [Hx Hf]%Forall_cons. split; [done|].
      constructor; [|done]. rewrite flat_at in Ha by done || (cbn; lia). rewrite post_cons, (join_flat h) in Ha by done.
      rewrite app_assoc in Ha. apply asc_mid in Ha as (_ & _ & Hm & _). unfold less_all in Hm. rewrite Forall_forall in Hm.
      assert (key x < key st); [|lia]. apply Hm. set_solver.
    + apply wf_around; [done|cbn; lia|]. split; [done|]. split.
      * split; [unfold join_nodes; cbn; rewrite Ee, length_app; cbn; lia|]. by apply join_wf.
      * constructor; [split; [lia|done]|done].
    + done.
    + cbn [items]. rewrite !length_app. cbn. lia.
Qed.

(** Two brothers that cannot spare an item become one node. *)
Lemma grow_merge h l x r cl c m cr i :
  wf (S h) (BNode (l ++ x :: r) (cl ++ c :: m :: cr)) -> length cl = length l -> length cr = length r ->
  length (items c) = lo -> length (items m) = lo ->
  (if (length (l ++ x :: r) <=? i)%nat then (i - 1)%nat else i) = length l ->
  (0 <? i)%nat && richer (cl ++ c :: m :: cr) (i - 1) = false ->
  (i <? length (l ++ x :: r))%nat && richer (cl ++ c :: m :: cr) (i + 1) = false ->
  growChild i lo (BNode (l ++ x :: r) (cl ++ c :: m :: cr)) = Ok (BNode (l ++ r) (cl ++ join_nodes c x m :: cr)) /\
  wf (S h) (BNode (l ++ r) (cl ++ join_nodes c x m :: cr)) /\ (lo < length (items (join_nodes c x m)))%nat /\
  flat (BNode (l ++ r) (cl ++ join_nodes c x m :: cr)) = flat (BNode (l ++ x :: r) (cl ++ c :: m :: cr)).
Proof.
  intros Hw Ecl Ecr Elc Elm Ei Hl Hr. pose proof Hw as (Hcl & [_ Hwc] & Hx)%wf_around; [|done|cbn; lia]. apply Forall_cons in Hx as [[_ Hwm] Hcr].
  assert (length (items (join_nodes c x m)) = hi) as Elj by (unfold join_nodes; cbn; rewrite length_app; cbn; lia).
  split; [|split; [|split; [lia|]]].
  - unfold growChild. fold (richer (cl ++ c :: m :: cr) (i - 1)). rewrite Hl. fold (richer (cl ++ c :: m :: cr) (i + 1)). rewrite Hr, Ei.
    rewrite <- Ecl at 1. rewrite at_mid. cbn [res_bind]. rewrite removeAt_mid. cbn [res_bind].
    rewrite <- (app_snoc cl c (m :: cr)). replace (length l + 1)%nat with (length (cl ++ [c])) by (rewrite length_app; cbn; lia).
    rewrite removeAt_mid. cbn [res_bind]. rewrite app_snoc, <- Ecl, set_at_mid. done.
  - apply wf_around; [done..|]. split; [done|]. split; [|done]. split; [lia|by apply join_wf].
  - rewrite !flat_at by done || (cbn; lia). rewrite post_cons, (join_flat h) by done. by rewrite <- !app_assoc.
Qed.

Lemma grow_spec h l r cl c cr :
  wf (S h) (BNode (l ++ r) (cl ++ c :: cr)) -> length cl = length l -> length cr = length r ->
  (length (items c) <= lo)%nat -> (1 <= length (l ++ r))%nat ->
  exists n, growChild (length l) lo (BNode (l ++ r) (cl ++ c :: cr)) = Ok n /\ grown h l r cl c cr n.
Proof.
  intros Hw Ecl Ecr Hlc Hne. pose proof Hw as (Hcl & [Hlc' _] & Hcr)%wf_around; [|done..]. assert (length (items c) = lo) as Elc by lia.
  assert (forall s, sized_ h s -> (lo <? length (items s))%nat = false -> length (items s) = lo) as Hpoor.
  { intros s [? _] E%Nat.ltb_ge. lia. }
  destruct ((0 <? length l)%nat && richer (cl ++ c :: cr) (length l - 1)) eqn:EL.
  { apply andb_true_iff in EL as [EL%Nat.ltb_lt ER]. destruct l as [|x l _] using rev_ind; [cbn in EL; lia|].
    destruct cl as [|s cl _] using rev_ind; [rewrite length_app in Ecl; cbn in Ecl; lia|]. rewrite !length_app in *. cbn [length] in *.
    rewrite !app_snoc in *. assert (lo < length (items s))%nat as Hs.
    { unfold richer in ER. rewrite list_lookup_middle in ER by lia. by apply Nat.ltb_lt. }
    apply grow_left; [done|lia|done..]. }
  destruct r as [|x r].
  - destruct cr; [|done]. rewrite app_nil_r in *. destruct l as [|x l _] using rev_ind; [cbn in Hne; lia|].
    destruct cl as [|s cl _] using rev_ind; [rewrite length_app in Ecl; cbn in Ecl; lia|]. rewrite !length_app in *. cbn [length] in *.
    rewrite !app_snoc in *. rewrite (proj2 (Nat.ltb_lt 0 _)) in EL by lia. cbn [andb] in EL. pose proof EL as EL'.
    unfold richer in EL'. rewrite list_lookup_middle in EL' by lia. apply Forall_app in Hcl as [Hcl [Hs _]%Forall_cons].
    destruct (grow_merge h l x [] cl s c [] (length l + 1)) as (E & Hw' & Hlj & Ef).
    + done.
    + lia.
    + done.
    + by apply Hpoor.
    + done.
    + rewrite length_app. cbn. rewrite (proj2 (Nat.leb_le _ _)) by lia. lia.
    + by rewrite EL, andb_false_r.
    + rewrite length_app. cbn [length]. by rewrite (proj2 (Nat.ltb_ge _ _)) by lia.
    + eexists. split; [exact E|]. split; [|done|rewrite Ef; by rewrite !app_nil_r, !app_snoc|cbn [items]; rewrite !length_app; cbn; lia].
      exists l, [], cl, (join_nodes s x c), []. split; [done|]. split; [lia|]. split; [done|]. split; [done|]. split; [done|].
      intros k _ Hk _. split; [|constructor]. by apply Forall_app in Hk as [? _].
  - destruct cr as [|s cr]; [done|]. cbn [length] in Ecr. apply Forall_cons in Hcr as [Hs Hcr].
    destruct (lo <? length (items s))%nat eqn:Es.
    + apply Nat.ltb_lt in Es. by apply grow_right; [..|lia| | |].
    + destruct (grow_merge h l x r cl c s cr (length l)) as (E & Hw' & Hlj & Ef); [done|done|lia|done|by apply Hpoor| |done| |].
      * rewrite length_app. cbn. by rewrite (proj2 (Nat.leb_gt _ _)) by lia.
      * unfold richer. rewrite <- (app_snoc cl c (s :: cr)), list_lookup_middle by (rewrite length_app; cbn; lia). by rewrite Es, andb_false_r.
      * eexists. split; [exact E|]. split; [|done|done|cbn [items]; rewrite !length_app; cbn; lia].
        exists l, r, cl, (join_nodes c x s), cr. split; [done|]. split; [done|]. split; [lia|]. split; [done|]. split; [done|].
        intros k _ Hk Hf. split; [done|]. by apply Forall_cons in Hf as [_ ?].
Qed.

(** ** Removing *)

(** What is taken out of the items. *)
Definition takes (typ : toRemove) (k : Z) (l l' : list SpcialTxData) (out : option SpcialTxData) : Prop :=
  match typ with
  | removeItem => (exists a x b, l = a ++ x :: b /\ key x = k /\ l' = a ++ b /\ out = Some x) \/
                  (Forall (fun x => key x <> k) l /\ l' = l /\ out = None)
  | removeMax => exists x, l = l' ++ [x] /\ out = Some x
  | removeMin => exists x, l = x :: l' /\ out = Some x
  end.

Definition removed (typ : toRemove) (it : SpcialTxData) (h : nat) (n : bnode) (r : res bt_error (bnode * option SpcialTxData)) : Prop :=
  exists n' out, r = Ok (n', out) /\ wf h n' /\ (length (items n) - 1 <= length (items n') <= length (items n))%nat /\
    takes typ (key it) (flat n) (flat n') out.

Definition removes (fuel : nat) (it : SpcialTxData) (h : nat) : Prop :=
  forall typ c, typ <> removeMin -> wf h c -> asc (flat c) -> (1 <= length (items c))%nat ->
    removed typ it h c (remove_node fuel it lo typ c).

(** The child to look in. *)
Definition placed (typ : toRemove) (k : Z) (l r : list SpcialTxData) : Prop :=
  match typ with
  | removeItem => less_all k l /\ from_on k r
  | _ => r = []
  end.

(** The place in a node: at an item, or between two. *)
Lemma from_on_cases k r : asc r -> from_on k r -> more_all k r \/ exists x r', r = x :: r' /\ key x = k.
Proof.
  destruct r as [|x r]; intros Ha Hf; [left; constructor|]. apply Forall_cons in Hf as [Hx Hf]. destruct Ha as [Hm _].
  destruct (decide (key x = k)) as [E|E]; [right; by exists x, r|left]. constructor; [lia|]. eapply more_all_lt; [|exact Hm]. lia.
Qed.

Lemma remove_found fuel it h l x r cl c cr :
  removes fuel it h -> wf (S h) (BNode (l ++ x :: r) (cl ++ c :: cr)) -> length cl = length l -> length cr = S (length r) ->
  asc (flat (BNode (l ++ x :: r) (cl ++ c :: cr))) -> (lo < length (items c))%nat -> key x = key it ->
  exists n' out,
    (let* out := at_ (l ++ x :: r) (length l) in
     let* (c', y) := remove_node fuel it lo removeMax c in
     let* y := match y with Some y => Ok y | None => Panic end in
     let* its := set_at (length l) y (l ++ x :: r) in
     let* cs := set_at (length l) c' (cl ++ c :: cr) in
     Ok (BNode its cs, Some out)) = Ok (n', out) /\ wf (S h) n' /\ length (items n') = length (l ++ x :: r) /\
    takes removeItem (key it) (flat (BNode (l ++ x :: r) (cl ++ c :: cr))) (flat n') out.
Proof.
  intros IH Hw Ecl Ecr Ha Hc Hk. pose proof Hw as (Hcl & [Hlc Hwc] & Hcr)%wf_around; [|done|cbn; lia].
  assert (asc (flat c)) as Hac by (eapply asc_child; [..|exact Ha]; [done|cbn; lia]).
  destruct (IH removeMax c) as (c' & out & E & Hw' & Hl' & y & Ef & ->); [done..|lia|]. rewrite at_mid. cbn [res_bind]. rewrite E. cbn [res_bind].
  rewrite set_at_mid. cbn [res_bind]. rewrite <- Ecl, set_at_mid. cbn [res_bind]. eexists _, _. split; [done|]. cbn [items].
  rewrite !length_app. cbn [length]. split; [|split; [done|]].
  - apply wf_around; [done|cbn; lia|]. split; [done|]. split; [|done]. split; [lia|done].
  - destruct cr as [|m cr]; [done|]. cbn [length] in Ecr. left. rewrite !flat_at by done || (cbn; lia). rewrite !post_cons.
    exists (pre cl l ++ flat c), x, (flat m ++ post r cr). split; [by rewrite <- app_assoc|]. split; [done|]. split; [|done].
    by rewrite Ef, <- !app_assoc.
Qed.

Lemma remove_below fuel typ it h l r cl c cr :
  typ <> removeMin -> removes fuel it h -> wf (S h) (BNode (l ++ r) (cl ++ c :: cr)) -> length cl = length l -> length cr = length r ->
  asc (flat (BNode (l ++ r) (cl ++ c :: cr))) -> (lo < length (items c))%nat ->
  placed typ (key it) l r -> (typ = removeItem -> more_all (key it) r) ->
  exists n' out,
    (let* (c', out) := remove_node fuel it lo typ c in
     let* cs := set_at (length l) c' (cl ++ c :: cr) in
     Ok (BNode (l ++ r) cs, out)) = Ok (n', out) /\ wf (S h) n' /\ length (items n') = length (l ++ r) /\
    takes typ (key it) (flat (BNode (l ++ r) (cl ++ c :: cr))) (flat n') out.
Proof.
  intros Ht IH Hw Ecl Ecr Ha Hc Hp Hm. pose proof Hw as (Hcl & [Hlc Hwc] & Hcr)%wf_around; [|done..].
  assert (asc (flat c)) as Hac by (eapply asc_child; [..|exact Ha]; done).
  destruct (IH typ c) as (c' & out & E & Hw' & Hl' & Htk); [done..|lia|]. rewrite E. cbn [res_bind].
  rewrite <- Ecl, set_at_mid. cbn [res_bind]. eexists _, _. split; [done|]. split; [|split; [done|]].
  - apply wf_around; [done..|]. split; [done|]. split; [|done]. split; [lia|done].
  - rewrite !flat_at in * by done. destruct typ; [|done|].
    + destruct Hp as [Hl _]. pose proof (pre_less cl l _ _ Ecl Ha Hl) as Hpre.
      pose proof (post_more r cr (key it) (pre cl l ++ flat c) Ecr) as Hpost. rewrite <- app_assoc in Hpost. specialize (Hpost Ha (Hm eq_refl)).
      destruct Htk as [(a & x & b & -> & Hx & -> & ->)|(Hno & -> & ->)]; [left|right].
      * exists (pre cl l ++ a), x, (b ++ post r cr). rewrite <- !app_assoc. done.
      * split; [|done]. apply Forall_app. split; [by apply less_not|]. apply Forall_app. split; [done|by apply more_not].
    + destruct Htk as (x & -> & ->). cbn in Hp. subst r. destruct cr; [|done]. exists x. cbn [post zip_with concat]. rewrite !app_nil_r.
      by rewrite <- app_assoc.
Qed.

(** The child has an item to spare. *)
Lemma remove_rich fuel typ it h l r cl c cr :
  typ <> removeMin -> removes fuel it h -> wf (S h) (BNode (l ++ r) (cl ++ c :: cr)) -> length cl = length l -> length cr = length r ->
  asc (flat (BNode (l ++ r) (cl ++ c :: cr))) -> (lo < length (items c))%nat -> placed typ (key it) l r ->
  exists n' out, remove_node (S fuel) it lo typ (BNode (l ++ r) (cl ++ c :: cr)) = Ok (n', out) /\ wf (S h) n' /\
    length (items n') = length (l ++ r) /\ takes typ (key it) (flat (BNode (l ++ r) (cl ++ c :: cr))) (flat n') out.
Proof.
  intros Ht IH Hw Ecl Ecr Ha Hc Hp. pose proof (wf_asc d _ _ Hw Ha) as Hai. cbn [items] in Hai. cbn [remove_node].
  replace (length (cl ++ c :: cr) =? 0)%nat with false by (symmetry; apply Nat.eqb_neq; rewrite length_app; cbn; lia).
  assert (at_ (cl ++ c :: cr) (length l) = Ok c) as Eat by (rewrite <- Ecl; apply at_mid).
  destruct typ; [|done|].
  - pose proof Hp as [Hl Hr]. pose proof Hai as (_ & Har & _)%asc_app. destruct (from_on_cases (key it) r Har Hr) as [Hm|(x & r' & -> & Hk)].
    + rewrite (find_at_gap it l r Hai Hl Hm), Eat. cbn [res_bind]. rewrite (proj2 (Nat.leb_gt _ _)) by done. by apply (remove_below fuel removeItem it h).
    + rewrite (find_at_mid it l x r' Hai Hk), Eat. cbn [res_bind]. rewrite (proj2 (Nat.leb_gt _ _)) by done. by apply (remove_found fuel it h).
  - cbn in Hp. subst r. rewrite app_nil_r in *. rewrite Eat. cbn [res_bind]. rewrite (proj2 (Nat.leb_gt _ _)) by done.
    pose proof (remove_below fuel removeMax it h l [] cl c cr) as Hb. rewrite app_nil_r in Hb. by apply Hb.
Qed.

Lemma remove_spec fuel it h : (2 * h < fuel)%nat -> removes fuel it h.
Proof.
  revert fuel. induction h as [|h IH]; intros fuel Hf typ n Ht Hw Ha Hne.
  - destruct fuel as [|fuel]; [lia|]. apply wf_leaf in Hw as [its ->]. cbn [items flat] in *. destruct typ; [|done|].
    + pose proof (find_spec it its Ha) as Hx. cbn [remove_node length Nat.eqb]. destruct (find_ it its) as [i [|]]; cbn [fst snd found_at] in Hx.
      * destruct Hx as (l & x & r & -> & <- & Hk). rewrite removeAt_mid. cbn [res_bind]. eexists _, _. split; [done|]. split; [done|].
        cbn [items]. rewrite !length_app. cbn. split; [lia|]. left. by exists l, x, r.
      * destruct Hx as (l & r & -> & <- & Hl & Hr). eexists _, _. split; [done|]. split; [done|]. cbn [items]. split; [lia|]. right.
        split; [|done]. apply Forall_app. split; [by apply less_not|by apply more_not].
    + cbn [remove_node length Nat.eqb]. destruct its as [|x its _] using rev_ind; [cbn in Hne; lia|]. rewrite pop_snoc. cbn [res_bind].
      eexists _, _. split; [done|]. split; [done|]. cbn [items]. rewrite !length_app. cbn. split; [lia|]. by exists x.
  - destruct fuel as [|[|fuel]]; [lia..|]. destruct n as [its cs]. pose proof (wf_asc d _ _ Hw Ha) as Hai. cbn [items] in *.
    assert (exists l r, its = l ++ r /\ placed typ (key it) l r /\
              (match typ with removeMax => (length its, false) | removeMin => (0%nat, false) | removeItem => find_ it its end).1 = length l)
      as (l & r & -> & Hp & Ei).
    { destruct typ; [|done|exists its, []; rewrite app_nil_r; done]. pose proof (find_spec it its Hai) as Hx.
      destruct (find_ it its) as [i [|]]; cbn [fst snd found_at] in Hx.
      - destruct Hx as (l & x & r & -> & <- & Hk). pose proof Hai as (_ & _ & Hl & Hm)%asc_mid. exists l, (x :: r). split; [done|]. split; [|done].
        rewrite Hk in *. split; [done|]. constructor; [lia|]. eapply Forall_impl; [exact Hm|]. cbn. lia.
      - destruct Hx as (l & r & -> & <- & Hl & Hr). exists l, r. split; [done|]. split; [|done]. split; [done|]. eapply Forall_impl; [exact Hr|]. cbn. lia. }
    destruct (wf_split d h (l ++ r) cs (length l) Hw) as (l' & r' & cl & c & cr & E & -> & El' & Ecl & Ecr); [rewrite length_app; lia|].
    apply app_split in E as [<- <-]; [|done].
    assert (forall f, (2 * h < f)%nat -> removes f it h) as IH' by (intros f Hff; by apply IH).
    destruct (Nat.leb_spec (length (items c)) lo) as [Hpoor|Hrich].
    2: { destruct (remove_rich (S fuel) typ it h l r cl c cr) as (n' & out & E & Hw' & El & Htk); [done|apply IH'; lia|done..|].
         exists n', out. split; [exact E|]. split; [done|]. cbn [items]. split; [lia|done]. }
    destruct (grow_spec h l r cl c cr Hw Ecl Ecr Hpoor Hne) as (n1 & Eg & [(l1 & r1 & cl1 & c1 & cr1 & -> & Ecl1 & Ecr1 & Hc1 & Hr1 & Hk1) Hw1 Ef1 El1]).
    assert (placed typ (key it) l1 r1) as Hp1.
    { destruct typ; [|done|by apply Hr1]. destruct Hp. by apply Hk1; [rewrite Ef1|..]. }
    destruct (remove_rich fuel typ it h l1 r1 cl1 c1 cr1) as (n' & out & E & Hw' & El & Htk); [done|apply IH'; lia|done|done|done|by rewrite Ef1|done..|].
    assert (remove_node (S (S fuel)) it lo typ (BNode (l ++ r) (cl ++ c :: cr)) = remove_node (S fuel) it lo typ (BNode (l1 ++ r1) (cl1 ++ c1 :: cr1))) as Es.
    { remember (S fuel) as fuel' eqn:Ef. cbn [remove_node]. destruct (match typ with removeItem => _ | removeMin => _ | removeMax => _ end) as [i found].
      cbn [fst] in Ei. subst i. replace (length (cl ++ c :: cr) =? 0)%nat with false by (symmetry; apply Nat.eqb_neq; rewrite length_app; cbn; lia).
      rewrite <- Ecl at 1. rewrite at_mid. cbn [res_bind]. rewrite (proj2 (Nat.leb_le _ _)) by done. rewrite Eg. done. }
    exists n', out. split; [by rewrite Es|]. split; [done|]. cbn [items] in *. rewrite <- Ef1. split; [lia|done].
Qed.
End Degree.
