(* ===== verification/BTreeMap.v ===== *)
(** * What the B-tree promises

    The operations of a tree do to its items what they do to a sorted list; the
    exception is the data of an item that is inserted again while it moves up. *)

From S2P Require Import BTree BTreeSpec BTreeRemove Prelude.

#[local] Set Warnings "-register-all".

(** ** Finding *)

(** The item with a key. *)
Fixpoint pick (k : Z) (l : list SpcialTxData) : option SpcialTxData :=
  match l with
  | [] => None
  | x :: l => if key x =? k then Some x else pick k l
  end.

Lemma pick_app k a b : pick k (a ++ b) = match pick k a with Some x => Some x | None => pick k b end.
Proof. induction a as [|x a IH]; [done|]. cbn. by destruct (key x =? k). Qed.

Lemma pick_none k l : Forall (fun x => key x <> k) l -> pick k l = None.
Proof. induction 1 as [|x l Hx _ IH]; [done|]. cbn. by rewrite (proj2 (Z.eqb_neq _ _)). Qed.

Lemma pick_mid k a x b : asc (a ++ x :: b) -> key x = k -> pick k (a ++ x :: b) = Some x.
Proof.
  intros (_ & _ & Hl & _)%asc_mid Hk. rewrite pick_app, pick_none.
  - cbn. by rewrite Hk, Z.eqb_refl.
  - rewrite Hk in Hl. by apply less_not.
Qed.

Lemma get_spec d (Hd : (2 <= d)%nat) it fuel h n :
  wf d h n -> asc (flat n) -> (h < fuel)%nat -> get_node fuel it n = Ok (pick (key it) (flat n)).
Proof.
  revert fuel n. induction h as [|h IH]; intros fuel n Hw Ha Hf; (destruct fuel as [|fuel]; [lia|]); destruct n as [its cs]; cbn [get_node];
    pose proof (find_spec it its (wf_asc d _ _ Hw Ha)) as Hx; destruct (find_ it its) as [i [|]]; cbn [fst snd found_at] in Hx.
  - destruct Hx as (l & x & r & -> & <- & Hk). rewrite at_mid. cbn [res_map]. apply wf_leaf in Hw as [its' [= <- ->]]. by rewrite (pick_mid _ l x r).
  - destruct Hx as (l & r & -> & _ & Hl & Hr). apply wf_leaf in Hw as [its' [= <- ->]]. cbn [length Nat.ltb Nat.leb flat].
    by rewrite pick_app, !pick_none by solve [by apply less_not | by apply more_not].
  - destruct Hx as (l & x & r & -> & <- & Hk). rewrite at_mid. cbn [res_map].
    destruct (flat_item d Hd (S h) l x r cs Hw) as (a & b & E). rewrite E in *. by rewrite (pick_mid _ a x b).
  - destruct Hx as (l & r & -> & <- & Hl & Hr).
    destruct (wf_split d h (l ++ r) cs (length l) Hw) as (l' & r' & cl & c & cr & E & -> & El' & Ecl & Ecr); [rewrite length_app; lia|].
    apply app_split in E as [<- <-]; [|done]. pose proof Hw as (_ & (_ & Hwc) & _)%wf_node; [|done..].
    rewrite (proj2 (Nat.ltb_lt 0 _)) by (rewrite length_app; cbn; lia). rewrite <- Ecl, at_mid. cbn [res_bind].
    rewrite IH by (done || lia || by apply (asc_child l r cl c cr)). rewrite flat_at in * by done.
    rewrite !pick_app, (pick_none _ (pre cl l)) by (apply less_not; by eapply pre_less).
    rewrite (pick_none _ (post r cr)); [by destruct (pick _ _)|]. apply more_not. eapply post_more; [done| |done]. by rewrite <- app_assoc.
Qed.

(** ** Iterating *)

Section Walk.
Context {S : Type} (iter : SpcialTxData -> S -> bool * S) (p : SpcialTxData).

(** The items one after the other, until the iterator stops. *)
Fixpoint walk (l : list SpcialTxData) (s : S) : bool * S :=
  match l with
  | [] => (true, s)
  | x :: l => let (go, s) := iter x s in if go then walk l s else (false, s)
  end.

Lemma walk_app a b s : walk (a ++ b) s = let (go, s) := walk a s in if go then walk b s else (false, s).
Proof.
  revert s. induction a as [|x a IH]; intros s; cbn [app walk]; [done|]. destruct (iter x s) as [[] s']; [apply IH|done].
Qed.

(** The items that are not larger than the pivot, the largest first. *)
Definition upto (l : list SpcialTxData) : list SpcialTxData := rev (filter (fun x => key x <= key p) l).

Lemma upto_app a b : upto (a ++ b) = upto b ++ upto a.
Proof. unfold upto. by rewrite filter_app, rev_app_distr. Qed.

Lemma upto_cons x l : key x <= key p -> upto (x :: l) = upto l ++ [x].
Proof. intros Hx. unfold upto. by rewrite filter_cons_True. Qed.

Lemma upto_more l : more_all (key p) l -> upto l = [].
Proof.
  intros Hl. unfold upto. induction Hl as [|x l Hx _ IH]; [done|]. rewrite filter_cons_False by lia. done.
Qed.

(** A part of the tree has been visited. *)
Definition visited (m : list SpcialTxData) (hit : bool) (s : S) (r : res bt_error (bool * bool * S)) : Prop :=
  exists hit', r = Ok (hit', (walk (upto m) s).1, (walk (upto m) s).2) /\
    (hit' = true -> hit = true \/ exists x, x ∈ m /\ key x <= key p).

(** Items with what follows each of them. *)
Definition chain (l : list SpcialTxData) (subs : list (list SpcialTxData)) : list SpcialTxData := concat (zip_with cons l subs).

Lemma chain_snoc l x subs m : length subs = length l -> chain (l ++ [x]) (subs ++ [m]) = chain l subs ++ x :: m.
Proof. intros El. unfold chain. rewrite zip_with_app, concat_app by done. cbn. by rewrite app_nil_r. Qed.

Section Loop.
Context (rec : bool -> S -> bnode -> res bt_error (bool * bool * S)) (cs : list bnode).

Definition visits (i : nat) (m : list SpcialTxData) : Prop :=
  forall hit s, (hit = true -> less_all (key p) m) -> asc m -> visited m hit s (visit rec cs i hit s).

Lemma descendLoop_spec l subs r hit s :
  length subs = length l -> (forall i m, subs !! i = Some m -> visits (i + 1) m) -> asc (chain l subs) ->
  (hit = true -> less_all (key p) (chain l subs)) ->
  visited (chain l subs) hit s (descendLoop iter (Some p) None true rec (l ++ r) cs (length l) hit s).
Proof.
  revert subs r hit s. induction l as [|x l IH] using rev_ind; intros subs r hit s El Hv Ha Hh.
  { destruct subs; [|done]. exists hit. split; [done|]. by left. }
  destruct subs as [|m subs _] using rev_ind; [rewrite length_app in El; cbn in El; lia|].
  rewrite !length_app in El. cbn [length] in El. rewrite chain_snoc in * by lia. rewrite length_app, Nat.add_comm. cbn [length Nat.add descendLoop].
  rewrite <- app_assoc. cbn [app]. rewrite at_mid. cbn [res_bind]. pose proof Ha as (Ha1 & Ha2 & Hl & Hm)%asc_mid.
  assert (forall i m, subs !! i = Some m -> visits (i + 1) m) as Hv'.
  { intros i m' Hi. apply Hv. by apply lookup_app_l_Some. }
  destruct (Z.lt_ge_cases (key p) (key x)) as [Hgt|Hle].
  - unfold Less. rewrite (proj2 (Z.ltb_ge (key x) _)), (proj2 (Z.ltb_lt (key p) _)), orb_true_r by lia. cbn [negb andb].
    destruct (IH subs (x :: r) hit s) as (hit' & E & Hit); [lia|done|done| |].
    { intros Eh. specialize (Hh Eh). by apply Forall_app in Hh as [? _]. }
    exists hit'. rewrite E, upto_app, (upto_more (x :: m)).
    + split; [done|]. intros Eh. destruct (Hit Eh) as [?|(y & Hy & Hk)]; [by left|right]. exists y. split; [set_solver|done].
    + constructor; [done|]. eapply more_all_lt; [|exact Hm]. lia.
  - assert (negb (Less x p) && (negb true || hit || Less p x) = false) as ->.
    { unfold Less. rewrite (proj2 (Z.ltb_ge (key p) _)), orb_false_r by lia. destruct (Z.ltb_spec (key x) (key p)) as [?|?]; [done|].
      destruct hit; [exfalso|done]. specialize (Hh eq_refl). apply Forall_app in Hh as [_ [Hh _]%Forall_cons]. lia. }
    destruct (Hv (length subs) m) with hit s as (hit1 & E1 & _); [by apply list_lookup_middle| |done|].
    { intros Eh. specialize (Hh Eh). by apply Forall_app in Hh as [_ [_ ?]%Forall_cons]. }
    replace (length l + 1)%nat with (length subs + 1)%nat by lia. rewrite E1. cbn [res_bind].
    unfold visited. rewrite upto_app, (upto_cons x m Hle), !walk_app.
    destruct (walk (upto m) s) as [[|] s1]; cbn [fst snd negb].
    2: { exists hit1. split; [done|]. intros _. right. exists x. split; [set_solver|done]. }
    cbn [walk]. destruct (iter x s1) as [[|] s2]; cbn [fst snd].
    2: { exists true. split; [done|]. intros _. right. exists x. split; [set_solver|done]. }
    destruct (IH subs (x :: r) true s2) as (hit2 & E2 & _); [lia|done|done| |].
    { intros _. eapply less_all_lt; [|exact Hl]. lia. }
    exists hit2. split; [done|]. intros _. right. exists x. split; [set_solver|done].
Qed.
End Loop.

Lemma chain_leaf l : chain l (replicate (length l) []) = l.
Proof. unfold chain. induction l as [|x l IH]; [done|]. cbn. by rewrite IH. Qed.

Lemma chain_post l cl : chain l (map flat cl) = post l cl.
Proof. unfold chain, post. revert cl. induction l as [|x l IH]; intros [|c cl]; [done..|]. cbn. by rewrite IH. Qed.

(** Where the loop starts. *)
Lemma count_spec its :
  asc its -> exists l r, its = l ++ r /\ more_all (key p) r /\
    (let (index, found) := find_ p its in if found then (index + 1)%nat else index) = length l.
Proof.
  intros Ha. pose proof (find_spec p its Ha) as Hx. destruct (find_ p its) as [i [|]]; cbn [fst snd found_at] in Hx.
  - destruct Hx as (l & x & r & -> & <- & Hk). exists (l ++ [x]), r. rewrite app_snoc. split; [done|]. rewrite length_app. split; [|done].
    apply asc_mid in Ha as (_ & _ & _ & Hm). by rewrite Hk in Hm.
  - destruct Hx as (l & r & -> & <- & _ & Hr). by exists l, r.
Qed.

Lemma upto_l a b : more_all (key p) b -> upto (a ++ b) = upto a.
Proof. intros Hb. by rewrite upto_app, (upto_more b). Qed.

Lemma iterate_spec d h fuel n hit s :
  wf d h n -> asc (flat n) -> (h < fuel)%nat -> (hit = true -> less_all (key p) (flat n)) ->
  visited (flat n) hit s (iterate iter descend (Some p) None true fuel hit s n).
Proof.
  revert fuel n hit s. induction h as [|h IH]; intros fuel n hit s Hw Ha Hf Hh; (destruct fuel as [|fuel]; [lia|]); destruct n as [its cs];
    cbn [iterate]; destruct (count_spec its (wf_asc d _ _ Hw Ha)) as (l & r & -> & Hr & ->).
  - apply wf_leaf in Hw as [its' [= <- ->]]. rewrite flat_leaf in *.
    destruct (descendLoop_spec (iterate iter descend (Some p) None true fuel) [] l (replicate (length l) []) r hit s) as (hit1 & E & Hit).
    + apply length_replicate.
    + intros i m [-> _]%lookup_replicate hit' s' _ _. exists hit'. split; [done|by left].
    + rewrite chain_leaf. by apply asc_app in Ha as (? & _).
    + rewrite chain_leaf. intros Eh. specialize (Hh Eh). by apply Forall_app in Hh as [? _].
    + rewrite E. rewrite chain_leaf in *. cbn [res_bind]. unfold visited. rewrite (upto_l l r Hr). exists hit1. split.
      * by destruct (walk (upto l) s) as [[|] s1].
      * intros Eh. destruct (Hit Eh) as [?|(x & Hx & Hk)]; [by left|right]. exists x. split; [set_solver|done].
  - pose proof Hw as [El Hc]. cbn [items children] in El, Hc. destruct cs as [|c0 cs]; [done|]. cbn [length] in El.
    assert (exists cl cr, cs = cl ++ cr /\ length cl = length l /\ length cr = length r) as (cl & cr & -> & Ecl & Ecr).
    { rewrite length_app in El. exists (take (length l) cs), (drop (length l) cs). rewrite take_drop, length_take, length_drop. split; [done|lia]. }
    apply Forall_cons in Hc as [[_ Hw0] Hc]. rewrite flat_post, post_app in * by done.
    assert (more_all (key p) (post r cr)) as Hmore by (eapply post_more; [done|rewrite app_assoc in Ha; exact Ha|done]).
    rewrite app_assoc in Ha. pose proof Ha as (Ha' & _ & _)%asc_app. pose proof Ha' as (Ha0 & Hal & H0l)%asc_app.
    destruct (descendLoop_spec (iterate iter descend (Some p) None true fuel) (c0 :: cl ++ cr) l (map flat cl) r hit s) as (hit1 & E & Hit).
    + by rewrite length_map.
    + intros i m Hm hit' s' Hh' Ha''. rewrite list_lookup_fmap in Hm. destruct (cl !! i) as [c|] eqn:Ei; [|done]. injection Hm as <-.
      unfold visit. cbn [length Nat.ltb Nat.leb]. unfold at_. rewrite Nat.add_1_r. cbn [lookup list_lookup].
      change (list_lookup i (cl ++ cr)) with ((cl ++ cr) !! i). rewrite (lookup_app_l_Some _ _ _ _ Ei). cbn [res_bind].
      apply IH; [|done|lia|done]. rewrite Forall_forall in Hc. apply Hc. apply elem_of_app. left. by eapply list_elem_of_lookup_2.
    + by rewrite chain_post.
    + rewrite chain_post. intros Eh. specialize (Hh Eh). by apply Forall_app in Hh as [_ [? _]%Forall_app].
    + rewrite E. rewrite chain_post in *. cbn [res_bind]. unfold visited. rewrite app_assoc, (upto_l _ (post r cr) Hmore), upto_app, walk_app.
      destruct (walk (upto (post l cl)) s) as [[|] s1]; cbn [fst snd negb].
      * destruct (IH fuel c0 hit1 s1) as (hit2 & E2 & Hit2); [done|done|lia| |].
        { intros Eh. destruct (Hit Eh) as [Eh'|(x & Hx & Hk)].
          - specialize (Hh Eh'). by apply Forall_app in Hh as [? _].
          - apply Forall_forall. intros y Hy. specialize (H0l y x Hy Hx). lia. }
        exists hit2. split; [exact E2|]. intros Eh. destruct (Hit2 Eh) as [Eh'|(x & Hx & Hk)].
        -- destruct (Hit Eh') as [?|(x & Hx & Hk)]; [by left|right]. exists x. split; [set_solver|done].
        -- right. exists x. split; [set_solver|done].
      * exists hit1. split; [done|]. intros Eh. destruct (Hit Eh) as [?|(x & Hx & Hk)]; [by left|right]. exists x. split; [set_solver|done].
Qed.
End Walk.

(** ** Trees *)

Definition elements (t : BTree) : list SpcialTxData :=
  match broot t with
  | Some r => flat r
  | None => []
  end.

Fixpoint height_node (n : bnode) : nat :=
  match children n with
  | [] => 0
  | c :: _ => S (height_node c)
  end.

Definition height (t : BTree) : nat :=
  match broot t with
  | Some r => height_node r
  | None => 0
  end.

Record tree_ok (t : BTree) : Prop := {
  t_degree : (2 <= degree t)%nat;
  t_root : forall r, broot t = Some r ->
    exists h, wf (degree t) h r /\ (length (items r) <= maxItems t)%nat /\ (h <> 0%nat -> 1 <= length (items r))%nat;
  t_asc : asc (elements t)
}.

Lemma wf_height d h n : wf d h n -> height_node n = h.
Proof.
  revert n. induction h as [|h IH]; intros [its cs] Hw; [cbn in Hw; by subst|]. destruct Hw as [El Hc]. cbn [items children] in *.
  destruct cs as [|c cs]; [done|]. apply Forall_cons in Hc as [[_ Hc] _]. cbn. f_equal. by apply IH.
Qed.

(** Inserting in a sorted list: an item that is there gets the transactions, or is
    replaced, which [b] tells; and what is returned then. *)
Fixpoint put (b : bool) (it : SpcialTxData) (l : list SpcialTxData) : list SpcialTxData :=
  match l with
  | [] => [it]
  | x :: l =>
      if key it <? key x then it :: x :: l
      else if key x =? key it then (if b then it else InsertTxData x it) :: l
      else x :: put b it l
  end.

Definition put_out (b : bool) (it : SpcialTxData) (l : list SpcialTxData) : option SpcialTxData :=
  match pick (key it) l with
  | None => None
  | Some x => Some (if b then x else InsertTxData x it)
  end.

(** Deleting from it. *)
Definition cut (k : Z) (l : list SpcialTxData) : list SpcialTxData := List.filter (fun x => negb (key x =? k)) l.

Lemma put_less b it a l : less_all (key it) a -> put b it (a ++ l) = a ++ put b it l.
Proof.
  induction 1 as [|x a Hx _ IH]; [done|]. cbn. rewrite (proj2 (Z.ltb_ge _ _)), (proj2 (Z.eqb_neq _ _)) by lia. by rewrite IH.
Qed.

Lemma puts_put b it l l' out : asc l -> puts b it l l' out -> l' = put b it l /\ out = put_out b it l.
Proof.
  intros Ha [(a & c & -> & Hl & Hm & -> & ->)|(a & x & c & -> & Hk & -> & ->)]; unfold put_out.
  - rewrite put_less, pick_app, !pick_none by solve [done|by apply less_not|by apply more_not]. split; [|done]. f_equal.
    destruct Hm as [|y c Hy _]; [done|]. cbn. by rewrite (proj2 (Z.ltb_lt _ _)).
  - rewrite (pick_mid _ a x c) by done. split; [|done]. apply asc_mid in Ha as (_ & _ & Hl & _). rewrite Hk in Hl.
    rewrite put_less by done. cbn. by rewrite Hk, Z.ltb_irrefl, Z.eqb_refl.
Qed.

Lemma cut_absent k l : Forall (fun x => key x <> k) l -> cut k l = l.
Proof. induction 1 as [|x l Hx _ IH]; [done|]. unfold cut in *. cbn. rewrite (proj2 (Z.eqb_neq _ _)) by done. cbn. by rewrite IH. Qed.

Lemma takes_cut k l l' out : asc l -> takes removeItem k l l' out -> l' = cut k l /\ out = pick k l.
Proof.
  intros Ha [(a & x & c & -> & Hk & -> & ->)|(Hn & -> & ->)].
  - rewrite (pick_mid _ a x c) by done. split; [|done]. apply asc_mid in Ha as (_ & _ & Hl & Hm). rewrite Hk in Hl, Hm.
    unfold cut. rewrite List.filter_app. cbn. rewrite Hk, Z.eqb_refl. cbn. fold (cut k a) (cut k c).
    by rewrite !cut_absent by solve [by apply less_not|by apply more_not].
  - by rewrite cut_absent, pick_none.
Qed.

(** Whether an insertion replaces the item with the key. *)
Definition replaces (it : SpcialTxData) (t : BTree) : bool :=
  match broot t with
  | Some r => moves_up (degree t) (height_node r) (key it) r
  | None => false
  end.

(** The count of the tree follows the number of items. *)
Definition counts (t t' : BTree) : Prop :=
  length_ t' - length_ t = Z.of_nat (length (elements t')) - Z.of_nat (length (elements t)).

Lemma puts_length b it l l' out :
  puts b it l l' out -> Z.of_nat (length l') = match out with None => Z.of_nat (length l) + 1 | Some _ => Z.of_nat (length l) end.
Proof.
  intros [(a & c & -> & _ & _ & -> & ->)|(a & x & c & -> & _ & -> & ->)]; rewrite !length_app; cbn; lia.
Qed.

(** When the root is split, the way goes on in the halves as in the root. *)
Lemma root_moves_up d (Hd : (2 <= d)%nat) h k r f m s :
  wf d h r -> asc (flat r) -> length (items r) = (d * 2 - 1)%nat -> items r !! (d - 1)%nat = Some m ->
  length (items f) = (d - 1)%nat -> length (items s) = (d - 1)%nat ->
  (asc (flat r) -> forall k, (k < key m -> moves_up d h k f = moves_up d h k r) /\ (key m < k -> moves_up d h k s = moves_up d h k r)) ->
  moves_up d (S h) k (BNode [m] [f; s]) = moves_up d h k r.
Proof.
  intros Hw Ha Hlr Em Elf Els Eh. destruct (Eh Ha k) as [E1 E2]. cbn [moves_up items children]. unfold has, below. cbn [existsb List.filter].
  rewrite orb_false_r. destruct (Z.eqb_spec (key m) k) as [E|E].
  - destruct h as [|h]; [done|]. cbn [moves_up].
    assert (has k (items r) = true) as ->; [|done]. apply existsb_exists. exists m.
    split; [by apply list_elem_of_In; eapply list_elem_of_lookup_2|by apply Z.eqb_eq].
  - destruct (Z.ltb_spec (key m) k); cbn [length lookup list_lookup]; rewrite (proj2 (Nat.eqb_neq _ _)) by lia; cbn [andb orb]; [apply E2|apply E1]; lia.
Qed.

Lemma insert_tree it t fuel :
  tree_ok t -> (height t + 1 < fuel)%nat ->
  exists t' out, ReplaceOrInsert fuel it t = Ok (t', out) /\ tree_ok t' /\ counts t t' /\
    puts (replaces it t) it (elements t) (elements t') out.
Proof.
  intros [Hd Hr Ha] Hf. unfold ReplaceOrInsert, elements, height, replaces, counts in *. destruct (broot t) as [r|] eqn:Er.
  2: { eexists _, _. split; [done|]. unfold elements. rewrite Er. cbn. split; [|split; [lia|left; exists [], []; split_and!; done || constructor]].
       split; cbn; [done| |done]. intros r [= <-]. exists 0%nat. split; [done|]. unfold maxItems. cbn. split; [lia|done]. }
  destruct (Hr r eq_refl) as (h & Hw & Hmax & Hmin). clear Hr. rewrite (wf_height _ _ _ Hw) in *.
  assert (exists h' r', (if (maxItems t <=? length (items r))%nat
            then let* (first, item2, second) := split_ (maxItems t / 2) r in Ok (BNode [item2] [first; second])
            else Ok r) = (Ok r' : res bt_error _) /\ wf (degree t) h' r' /\ (h' < fuel)%nat /\ (length (items r') < maxItems t)%nat /\
            (h' <> 0%nat -> 1 <= length (items r'))%nat /\ flat r' = flat r /\
            moves_up (degree t) h' (key it) r' = moves_up (degree t) h (key it) r) as (h' & r' & E & Hw' & Hf' & Hl' & Hmin' & Ef & Emv).
  { destruct (Nat.leb_spec (maxItems t) (length (items r))) as [Hge|Hlt]; [|exists h, r; split_and!; done || lia].
    unfold maxItems in *. destruct (split_spec (degree t) Hd h r Hw) as (f & m & s & Es & Hwf & Hws & Elf & Els & Efl & Emid & Eh); [lia|].
    exists (S h), (BNode [m] [f; s]). rewrite (hi_half (degree t) Hd), Es. split; [done|]. split.
    - change (BNode [m] [f; s]) with (BNode ([] ++ [m]) ([] ++ f :: [s])). apply wf_node; [done|done|]. split; [constructor|].
      split; [split; [lia|done]|]. constructor; [split; [lia|done]|constructor].
    - split; [lia|]. cbn [items length]. split; [lia|]. split; [lia|]. split; [rewrite flat_post; unfold post; cbn [zip_with concat]; by rewrite app_nil_r, Efl|].
      apply (root_moves_up (degree t) Hd h (key it) r f m s); auto; lia. }
  rewrite E. cbn [res_bind]. rewrite <- Ef, <- Emv in *.
  destruct (insert_spec (degree t) Hd it fuel h' r') as (n & out & Ei & Hwn & Hln & Hp); [done..|]. unfold maxItems at 1. rewrite Ei. cbn [res_bind].
  eexists _, _. split; [done|]. unfold elements. cbn [broot]. rewrite Er, <- Ef. split; [|split; [|done]].
  - split; cbn; [done| |by eapply puts_asc].
    intros x [= <-]. exists h'. split; [done|]. unfold maxItems in *. cbn. split; [lia|]. intros Hh. specialize (Hmin' Hh). lia.
  - cbn. rewrite (puts_length _ _ _ _ _ Hp). destruct out; lia.
Qed.

Lemma takes_asc typ k l l' out : asc l -> takes typ k l l' out -> asc l'.
Proof.
  intros Ha. destruct typ; cbn [takes].
  - intros [(a & x & b & -> & _ & -> & _)|(_ & -> & _)]; [|done]. pose proof Ha as (Ha1 & Hb1 & Hl & Hm)%asc_mid.
    apply asc_app. split; [done|]. split; [done|]. unfold less_all, more_all in *. rewrite Forall_forall in Hl, Hm. intros y z Hy Hz.
    specialize (Hl y Hy). specialize (Hm z Hz). lia.
  - intros (x & -> & _). by destruct Ha.
  - intros (x & -> & _). by apply asc_app in Ha as (? & _).
Qed.

Lemma delete_tree it t fuel :
  tree_ok t -> (2 * height t < fuel)%nat ->
  exists t' out, BTree.Delete fuel it t = Ok (t', out) /\ tree_ok t' /\ counts t t' /\
    takes removeItem (key it) (elements t) (elements t') out.
Proof.
  intros Hok Hf. pose proof Hok as [Hd Hr Ha]. unfold BTree.Delete, deleteItem, elements, height, counts in *. destruct (broot t) as [r|] eqn:Er.
  2: { eexists _, _. split; [done|]. unfold elements. rewrite Er. split; [done|]. split; [lia|]. right. by split; [constructor|]. }
  destruct (Hr r eq_refl) as (h & Hw & Hmax & Hmin). rewrite (wf_height _ _ _ Hw) in Hf.
  destruct (Nat.eqb_spec (length (items r)) 0) as [E0|E0].
  { eexists _, _. split; [done|]. unfold elements. rewrite Er. split; [done|]. split; [lia|]. right. split; [|done]. destruct h as [|h]; [|lia].
    apply wf_leaf in Hw as [its ->]. cbn in *. by destruct its. }
  destruct (remove_spec (degree t) Hd fuel it h Hf removeItem r) as (n & out & E & Hwn & Hln & Htk); [done..|lia|].
  unfold minItems. rewrite E. cbn [res_bind].
  assert (exists h' n', (if (length (items n) =? 0)%nat && (0 <? length (children n))%nat then at_ (children n) 0 else Ok n) = (Ok n' : res bt_error _) /\
    wf (degree t) h' n' /\ (length (items n') <= maxItems t)%nat /\ (h' <> 0%nat -> 1 <= length (items n'))%nat /\ flat n' = flat n)
    as (h' & n' & -> & Hw' & Hmax' & Hmin' & Ef).
  { destruct n as [its cs]. cbn [items children] in *. destruct (Nat.eqb_spec (length its) 0) as [Ez|Ez]; cbn [andb].
    2: { exists h, (BNode its cs). split; [done|]. split; [done|]. cbn [items]. split; [lia|]. split; [lia|done]. }
    destruct its; [|done]. destruct h as [|h].
    - cbn in Hwn. subst cs. exists 0%nat, (BNode [] []). cbn. split_and!; done || lia.
    - destruct Hwn as [El Hc]. cbn [items children length] in *. destruct cs as [|c [|]]; try done. apply Forall_cons in Hc as [[Hlc Hwc] _].
      exists h, c. split; [done|]. split; [done|]. unfold maxItems. split; [lia|]. split; [lia|]. rewrite flat_post. unfold post. cbn. by rewrite app_nil_r. }
  cbn [res_bind]. eexists _, _. split; [done|]. unfold elements. cbn [broot]. rewrite Er, Ef. split; [|split; [|done]].
  - split; cbn; [done| |rewrite Ef; by eapply takes_asc]. intros x [= <-]. by exists h'.
  - cbn. cbn in Htk. destruct Htk as [(a & x & b & -> & _ & -> & ->)|(_ & -> & ->)]; [|lia]. rewrite !length_app. cbn. lia.
Qed.

(** The items of a node of height [h]: more than one doubling for every level. *)
Lemma node_size d h n : (2 <= d)%nat -> wf d h n -> (1 <= length (items n))%nat -> (2 ^ S h <= length (flat n) + 1)%nat.
Proof.
  intros Hd. revert n. induction h as [|h IH]; intros [its cs] Hw Hl.
  - apply wf_leaf in Hw as [its' [= <- ->]]. cbn in *. lia.
  - destruct Hw as [El Hc]. cbn [items children] in *. destruct its as [|x its]; [cbn in Hl; lia|].
    destruct cs as [|c [|c' cs]]; [done..|]. apply Forall_cons in Hc as [[Hlc Hwc] Hc]. apply Forall_cons in Hc as [[Hlc' Hwc'] _].
    rewrite flat_post, post_cons, length_app. cbn [length]. rewrite length_app.
    pose proof (IH c Hwc ltac:(lia)). pose proof (IH c' Hwc' ltac:(lia)). rewrite (Nat.pow_succ_r' 2 (S h)). lia.
Qed.

(** The height is at most the logarithm of the number of items. *)
Lemma tree_height t : tree_ok t -> (2 ^ height t <= length (elements t) + 1)%nat.
Proof.
  intros [Hd Hr Ha]. unfold elements, height in *. destruct (broot t) as [r|]; [|cbn; lia].
  destruct (Hr r eq_refl) as (h & Hw & _ & Hmin). rewrite (wf_height _ _ _ Hw).
  destruct h as [|h]; [cbn; lia|]. pose proof (node_size (degree t) (S h) r Hd Hw ltac:(lia)) as Hs.
  rewrite (Nat.pow_succ_r' 2 (S h)) in Hs. lia.
Qed.

(** C10: the operations of the B-tree are functions on the sorted list of its items.
    Inserting puts a new item in its place in the order of time and returns nothing;
    an item with that time which is there already gets the transactions and is
    returned with them, except when it is the middle item of a full child on the way
    down, which is replaced and returned as it was.  Deleting takes out the item with
    the time and returns it; finding returns it; and descending from a time visits the
    items up to it, the latest first, until the iterator stops.  The count follows the
    number of items, the tree stays balanced and its nodes keep their sizes, nothing
    panics, and fuel for twice the height is enough, which is at most the logarithm of
    the number of items. *)
Theorem btree_refines_sorted_list t fuel it :
  tree_ok t -> (2 * height t + 1 < fuel)%nat ->
  (exists t', ReplaceOrInsert fuel it t = Ok (t', put_out (replaces it t) it (elements t)) /\
     elements t' = put (replaces it t) it (elements t) /\ tree_ok t' /\ counts t t') /\
  (exists t', BTree.Delete fuel it t = Ok (t', pick (key it) (elements t)) /\
     elements t' = cut (key it) (elements t) /\ tree_ok t' /\ counts t t') /\
  BTree.Get fuel it t = Ok (pick (key it) (elements t)) /\
  (forall S (iter : SpcialTxData -> S -> bool * S) s,
     DescendLessOrEqual fuel it iter s t = Ok (walk iter (upto it (elements t)) s).2) /\
  (2 ^ height t <= length (elements t) + 1)%nat.
Proof.
  intros Hok Hf. pose proof (tree_height t Hok) as Hh. pose proof Hok as [Hd Hr Ha]. split; [|split].
  - destruct (insert_tree it t fuel Hok ltac:(lia)) as (t' & out & -> & Hok' & Hc & Hp).
    destruct (puts_put _ _ _ _ _ Ha Hp) as [E ->]. by exists t'.
  - destruct (delete_tree it t fuel Hok ltac:(lia)) as (t' & out & -> & Hok' & Hc & Hp).
    destruct (takes_cut _ _ _ _ Ha Hp) as [E ->]. by exists t'.
  - unfold elements, height, BTree.Get, DescendLessOrEqual in *.
    destruct (broot t) as [r|]; [|done]. destruct (Hr r eq_refl) as (h & Hw & _ & Hmin). rewrite (wf_height _ _ _ Hw) in *.
    split; [apply (get_spec (degree t) Hd it fuel h r); [done..|lia]|]. split; [|done].
    intros S iter s. destruct (iterate_spec iter it (degree t) h fuel r false s) as (hit & -> & _); [done|done|lia|done|]. done.
Qed.

(** ** An example *)

Definition tx (k v : Z) : SpcialTxData := mkTx k {[ [v] := [v] ]}.

Definition five_items : bnode := BNode [tx 2 2] [BNode [tx 1 1] []; BNode [tx 3 3; tx 4 4; tx 5 5] []].

Lemma five_wf : wf 2 1 five_items.
Proof. split; [done|]. constructor; [|constructor; [|constructor]]; cbn; (split; [lia|done]). Qed.

Lemma five_asc : asc (flat five_items).
Proof. cbn. repeat (split; [by repeat constructor|]). done. Qed.

Definition five_tree : BTree := mkBTree 2 5 (Some five_items).

(** A new time, a time that is there, the time of the middle item of the full child,
    and the other operations. *)
Lemma btree_refines_sorted_list_witness :
  (exists t', ReplaceOrInsert 4 (tx 6 6) five_tree = Ok (t', None) /\ elements t' = elements five_tree ++ [tx 6 6]) /\
  (exists t', ReplaceOrInsert 4 (tx 3 9) five_tree = Ok (t', Some (InsertTxData (tx 3 3) (tx 3 9))) /\
     elements t' = [tx 1 1; tx 2 2; InsertTxData (tx 3 3) (tx 3 9); tx 4 4; tx 5 5]) /\
  (exists t', ReplaceOrInsert 4 (tx 4 9) five_tree = Ok (t', Some (tx 4 4)) /\
     elements t' = [tx 1 1; tx 2 2; tx 3 3; tx 4 9; tx 5 5]) /\
  (exists t', BTree.Delete 4 (tx 2 0) five_tree = Ok (t', Some (tx 2 2)) /\ elements t' = [tx 1 1; tx 3 3; tx 4 4; tx 5 5]) /\
  BTree.Get 4 (tx 5 0) five_tree = Ok (Some (tx 5 5)) /\
  DescendLessOrEqual 4 (tx 3 0) (fun x s => (true, s ++ [key x])) [] five_tree = Ok [3; 2; 1].
Proof.
  assert (tree_ok five_tree) as Hok.
  { split; [cbn; lia| |exact five_asc]. intros r [= <-]. exists 1%nat. split; [exact five_wf|]. cbn. split; lia. }
  assert (2 * height five_tree + 1 < 4)%nat as Hf by (cbn; lia).
  pose proof (fun it => btree_refines_sorted_list five_tree 4 it Hok Hf) as Ht.
  split; [|split; [|split; [|split; [|split]]]].
  - destruct (Ht (tx 6 6)) as ((t' & E & El & _) & _). exists t'. split; [exact E|exact El].
  - destruct (Ht (tx 3 9)) as ((t' & E & El & _) & _). exists t'. split; [exact E|exact El].
  - destruct (Ht (tx 4 9)) as ((t' & E & El & _) & _). exists t'. split; [exact E|exact El].
  - destruct (Ht (tx 2 0)) as (_ & (t' & E & El & _) & _). exists t'. split; [exact E|exact El].
  - destruct (Ht (tx 5 0)) as (_ & _ & E & _). exact E.
  - destruct (Ht (tx 3 0)) as (_ & _ & _ & E & _). exact (E _ _ []).
Defined.

(** ** Lost transactions *)

(** C37: transactions can get lost: when an item is inserted under a time that is there,
    and the item with that time is the middle one of a full child on the way, the
    child is split and the item replaced; the transactions it had are gone.
    Everywhere else they are joined. *)
Theorem middle_item_loses_transactions d it fuel h l r cl c cr m :
  (2 <= d)%nat -> wf d (S h) (BNode (l ++ r) (cl ++ c :: cr)) -> length cl = length l -> length cr = length r ->
  asc (flat (BNode (l ++ r) (cl ++ c :: cr))) -> less_all (key it) l -> more_all (key it) r ->
  length (items c) = (d * 2 - 1)%nat -> items c !! (d - 1)%nat = Some m -> key m = key it ->
  exists n, insert_node (S fuel) it (d * 2 - 1) (BNode (l ++ r) (cl ++ c :: cr)) = Ok (n, Some m) /\
    pick (key it) (flat (BNode (l ++ r) (cl ++ c :: cr))) = Some m /\ pick (key it) (flat n) = Some it.
Proof.
  intros Hd Hw Ecl Ecr Ha Hl Hr Hfull Hm Hk. pose proof Hw as (_ & (_ & Hwc) & _)%wf_node; [|done..].
  pose proof (wf_asc d _ _ Hw Ha) as Hai. cbn [items] in Hai.
  destruct (split_spec d Hd h c Hwc Hfull) as (f & m' & s & Es & Hwf & Hws & Elf & Els & Efl & _).
  assert (m' = m) as ->.
  { destruct c as [ci cc]. cbn in Hm, Es. unfold at_ in Es. rewrite Hm in Es. cbn in Es. destruct (length cc); congruence. }
  cbn [insert_node]. rewrite (find_at_gap it l r Hai Hl Hr).
  replace (length (cl ++ c :: cr) =? 0)%nat with false by (symmetry; apply Nat.eqb_neq; rewrite length_app; cbn; lia).
  unfold maybeSplitChild. rewrite <- Ecl, at_mid. cbn [res_bind]. rewrite (proj2 (Nat.ltb_ge _ _)) by lia.
  rewrite (hi_half d Hd), Es. cbn [res_bind]. rewrite set_at_mid. cbn [res_bind]. rewrite Ecl, insertAt_mid. cbn [res_bind].
  replace (cl ++ f :: cr) with ((cl ++ [f]) ++ cr) by by rewrite <- app_assoc.
  replace (length l + 1)%nat with (length (cl ++ [f])) by (rewrite length_app; cbn; lia).
  rewrite insertAt_mid. cbn [res_bind]. rewrite at_mid. cbn [res_bind]. unfold Less. rewrite Hk, Z.ltb_irrefl, set_at_mid. cbn [res_bind].
  eexists. split; [done|]. rewrite <- app_assoc. cbn [app]. rewrite !flat_at in * by done || (cbn; lia). rewrite post_cons, Efl, <- !app_assoc in *. cbn [app] in *.
  rewrite app_assoc in *. split; [by apply pick_mid|]. rewrite app_assoc. apply pick_mid; [|done]. apply asc_mid in Ha. rewrite Hk in Ha. by apply asc_mid.
Qed.

Lemma middle_item_loses_transactions_witness :
  exists n, insert_node 2 (tx 4 9) 3 five_items = Ok (n, Some (tx 4 4)) /\
    pick 4 (flat five_items) = Some (tx 4 4) /\ pick 4 (flat n) = Some (tx 4 9).
Proof.
  apply (middle_item_loses_transactions 2 (tx 4 9) 1 0 [tx 2 2] [] [BNode [tx 1 1] []] (BNode [tx 3 3; tx 4 4; tx 5 5] []) []).
  - lia.
  - exact five_wf.
  - reflexivity.
  - reflexivity.
  - exact five_asc.
  - by repeat constructor.
  - constructor.
  - reflexivity.
  - reflexivity.
  - reflexivity.
Defined.
