(* ===== verification/StateObject.v ===== *)
(** * Accounts and state objects ([core/state/state_object.go], [common/types.go])

    An account has a nonce, one balance per type of account, the root of its
    storage and the hash of its code; what is written for it is read back.  A state
    object is an account that is in use: with the storage that was read and written
    and not yet flushed. *)

From S2P Require Import Rlp RlpCodec RlpEncoding RlpDecoding RlpRoundtrip Sponge TrieDatabase Trie TrieHashing Prelude.

#[local] Set Warnings "-register-all".

(** ** Accounts *)

(** [BalanceType]: types of accounts and balances.  A balance is a [*big.Int]
    that is never nil here; it may be negative. *)
Definition BalanceType : Type := list (Z * Z).

Definition MainAccount : Z := 0.
Definition FreezeAccount : Z := 1.
Definition LockAccount : Z := 2.
Definition WithdrawAccount : Z := 3.
Definition EntrustAccount : Z := 4.
Definition LastAccount : Z := EntrustAccount.

Record Account := mkAccount {
  Nonce : Z;
  Balance : BalanceType;
  Root : list Z;
  CodeHash : list Z
}.

(** [NonceAddOne] ([params/protocol_params.go]). *)
Definition NonceAddOne : Z := 0x0010000000000000.

(** [crypto.Keccak256(nil)] *)
Definition emptyCodeHash : list Z :=
  [0xc5; 0xd2; 0x46; 0x01; 0x86; 0xf7; 0x23; 0x3c; 0x92; 0x7e; 0x7d; 0xb2; 0xdc; 0xc7; 0x03; 0xc0;
   0xe5; 0x00; 0xb6; 0x53; 0xca; 0x82; 0x27; 0x3b; 0x7b; 0xfa; 0xd8; 0x04; 0x5d; 0x85; 0xa4; 0x70].

Lemma emptyCodeHash_ok : keccak256 [] = emptyCodeHash.
Proof. apply keccak256_eval; [constructor|vm_compute; reflexivity]. Qed.

(** The loops that make balances of zero. *)
Definition zeroBalance : BalanceType := map (fun i => (Z.of_nat i, 0)) (seq 0 (Z.to_nat (LastAccount + 1))).

(** ** The encoding of an account *)

Definition account_type : gtype :=
  TStruct [TUint 64; TSlice false (TStruct [TUint 32; TBigPtr]); TByteArray 32; TBytes].

Definition balance_value (b : Z * Z) : gval := VStruct [VUint b.1; VBigPtr (Some b.2)].

Definition account_value (a : Account) : gval :=
  VStruct [VUint (Nonce a); VSlice (map balance_value (Balance a)); VByteArray (Root a); VBytes (CodeHash a)].

(** What [rlp.DecodeBytes] leaves in an [Account]; it makes no nil balances. *)
Definition balance_of (v : gval) : Z * Z :=
  match v with
  | VStruct [VUint t; VBigPtr o] => (t, default 0 o)
  | _ => (0, 0)
  end.

Definition account_of (v : gval) : Account :=
  match v with
  | VStruct [VUint n; VSlice l; VByteArray r; VBytes c] => mkAccount n (map balance_of l) r c
  | _ => mkAccount 0 [] emptyHash []
  end.

(** [EncodeRLP]: the account of the object. *)
Definition encodeAccount (a : Account) : res enc_error (list Z) := EncodeToBytes account_type (account_value a).

Definition decodeAccount (b : list Z) : option Account :=
  match DecodeBytes account_type b with
  | Ok v => Some (account_of v)
  | _ => None
  end.

(** ** Objects *)

(** The errors of reading that are remembered. *)
Inductive state_error :=
| TrieFailed (e : trie_error)
| NoStorageTrie (e : trie_error)
| BadSlot (e : rlp_error)
| NoCode (hash : list Z).

(** [setError] remembers the first error. *)
Definition firstError (old e : option state_error) : option state_error :=
  match old with
  | None => e
  | Some _ => old
  end.

(** [handle] is an open trie.  [code] is nil until it is needed.  Byte arrays that
    are nil and that are empty are not told apart. *)
Record stateObject (handle : Type) := mkObject {
  address : list Z;
  data : Account;
  oErr : option state_error;
  otrie : option handle;
  code : option (list Z);
  cachedStorage : gmap (list Z) (list Z);
  dirtyStorage : gmap (list Z) (list Z);
  cachedBytes : gmap (list Z) (list Z);
  dirtyBytes : gmap (list Z) (list Z);
  dirtyCode : bool;
  suicided : bool;
  deleted : bool
}.
Arguments mkObject {_}.
Arguments address {_}.
Arguments data {_}.
Arguments oErr {_}.
Arguments otrie {_}.
Arguments code {_}.
Arguments cachedStorage {_}.
Arguments dirtyStorage {_}.
Arguments cachedBytes {_}.
Arguments dirtyBytes {_}.
Arguments dirtyCode {_}.
Arguments suicided {_}.
Arguments deleted {_}.

Section Objects.
Context {handle : Type}.
Implicit Types o : stateObject handle.

(** [newObject] of an account that was decoded, or of [Account{}] ([None]): then
    there are balances of zero and the hash of no code. *)
Definition newObject (addr : list Z) (d : option Account) : stateObject handle :=
  mkObject addr (default (mkAccount 0 zeroBalance emptyHash emptyCodeHash) d) None None None ∅ ∅ ∅ ∅ false false false.

(** Hashing bytes does not fail ([Keccak256_hash]). *)
Definition addrHash o : list Z := match Keccak256 [address o] with Ok h => h | _ => [] end.

(** The first balance of a type. *)
Fixpoint balanceOf (typ : Z) (b : BalanceType) : option Z :=
  match b with
  | [] => None
  | (t, x) :: b => if t =? typ then Some x else balanceOf typ b
  end.

(** [empty]: without a main account it is not. *)
Definition empty_ o : bool :=
  (Nonce (data o) =? 0) && bool_decide (balanceOf MainAccount (Balance (data o)) = Some 0) &&
  bool_decide (CodeHash (data o) = emptyCodeHash).

Definition with_data (d : Account) o : stateObject handle :=
  mkObject (address o) d (oErr o) (otrie o) (code o) (cachedStorage o) (dirtyStorage o) (cachedBytes o) (dirtyBytes o)
    (dirtyCode o) (suicided o) (deleted o).

Definition setObjError (e : option state_error) o : stateObject handle :=
  mkObject (address o) (data o) (firstError (oErr o) e) (otrie o) (code o) (cachedStorage o) (dirtyStorage o) (cachedBytes o)
    (dirtyBytes o) (dirtyCode o) (suicided o) (deleted o).

Definition with_trie (t : handle) o : stateObject handle :=
  mkObject (address o) (data o) (oErr o) (Some t) (code o) (cachedStorage o) (dirtyStorage o) (cachedBytes o)
    (dirtyBytes o) (dirtyCode o) (suicided o) (deleted o).

Definition with_storage (c d : gmap (list Z) (list Z)) o : stateObject handle :=
  mkObject (address o) (data o) (oErr o) (otrie o) (code o) c d (cachedBytes o) (dirtyBytes o)
    (dirtyCode o) (suicided o) (deleted o).

Definition with_bytes (c d : gmap (list Z) (list Z)) o : stateObject handle :=
  mkObject (address o) (data o) (oErr o) (otrie o) (code o) (cachedStorage o) (dirtyStorage o) c d
    (dirtyCode o) (suicided o) (deleted o).

Definition with_code (c : option (list Z)) (d : bool) o : stateObject handle :=
  mkObject (address o) (data o) (oErr o) (otrie o) c (cachedStorage o) (dirtyStorage o) (cachedBytes o) (dirtyBytes o)
    d (suicided o) (deleted o).

Definition with_flags (s d : bool) o : stateObject handle :=
  mkObject (address o) (data o) (oErr o) (otrie o) (code o) (cachedStorage o) (dirtyStorage o) (cachedBytes o) (dirtyBytes o)
    (dirtyCode o) s d.

Definition setState (key value : list Z) o : stateObject handle :=
  with_storage (<[key := value]> (cachedStorage o)) (<[key := value]> (dirtyStorage o)) o.

Definition setStateByteArray (key value : list Z) o : stateObject handle :=
  with_bytes (<[key := value]> (cachedBytes o)) (<[key := value]> (dirtyBytes o)) o.

(** The first balance of the type is replaced. *)
Fixpoint replaceBalance (typ amount : Z) (b : BalanceType) : BalanceType :=
  match b with
  | [] => []
  | (t, x) :: b => if t =? typ then (t, amount) :: b else (t, x) :: replaceBalance typ amount b
  end.

Definition set_balance (b : BalanceType) (a : Account) : Account := mkAccount (Nonce a) b (Root a) (CodeHash a).

Definition setBalance (typ amount : Z) o : stateObject handle :=
  with_data (set_balance (replaceBalance typ amount (Balance (data o))) (data o)) o.

(** The loops over balances that set them one after the other. *)
Definition setBalances (prev : BalanceType) o : stateObject handle :=
  foldl (fun o b => setBalance b.1 b.2 o) o prev.

Definition setNonce (n : Z) o : stateObject handle :=
  with_data (mkAccount n (Balance (data o)) (Root (data o)) (CodeHash (data o))) o.

Definition setCode (h : list Z) (c : option (list Z)) o : stateObject handle :=
  with_code c true (with_data (mkAccount (Nonce (data o)) (Balance (data o)) (Root (data o)) h) o).

Definition setRoot (r : list Z) o : stateObject handle :=
  with_data (mkAccount (Nonce (data o)) (Balance (data o)) r (CodeHash (data o))) o.

(** [common.Hash.SetBytes] of what [rlp.Split] finds in the value of a slot; an
    error is remembered and the value stays zero. *)
Definition slotValue (enc : list Z) : eff (option state_error * list Z) :=
  if (0 <? length enc)%nat then
    match Split enc with
    | Ok (_, content, _) => Ok (None, BytesToHash content)
    | Err e => Ok (Some (BadSlot e), emptyHash)
    | Panic => Panic
    end
  else Ok (None, emptyHash).

(** [bytes.TrimLeft(value, "\x00")] *)
Fixpoint trimLeft (b : list Z) : list Z :=
  match b with
  | 0 :: b => trimLeft b
  | b => b
  end.

(** The encoding of a slot that is not zero; encoding bytes does not fail. *)
Definition slotEnc (value : list Z) : list Z :=
  match EncodeToBytes TBytes (VBytes (trimLeft value)) with
  | Ok b => b
  | _ => []
  end.

(** ** Setting balances back *)

Definition replaceAll (prev b : BalanceType) : BalanceType := foldl (fun b p => replaceBalance p.1 p.2 b) b prev.

Lemma setBalances_data prev o : setBalances prev o = with_data (set_balance (replaceAll prev (Balance (data o))) (data o)) o.
Proof.
  unfold setBalances, replaceAll. revert o. induction prev as [|p prev IH]; intros o; cbn [foldl].
  - by destruct o as [? []].
  - by rewrite IH.
Qed.

Lemma replaceBalance_types typ x b : (replaceBalance typ x b).*1 = b.*1.
Proof. induction b as [|[t y] b IH]; [done|]. cbn [replaceBalance]. destruct (t =? typ); [done|]. by rewrite !fmap_cons, IH. Qed.

Lemma replaceAll_types prev b : (replaceAll prev b).*1 = b.*1.
Proof.
  revert b. induction prev as [|p prev IH]; intros b; [done|]. unfold replaceAll in *. cbn. by rewrite IH, replaceBalance_types.
Qed.

Lemma replaceAll_cons t x prev b : t ∉ prev.*1 -> replaceAll prev ((t, x) :: b) = (t, x) :: replaceAll prev b.
Proof.
  revert b. induction prev as [|p prev IH]; intros b Hn; [done|]. unfold replaceAll in *. cbn [foldl replaceBalance].
  rewrite fmap_cons, not_elem_of_cons in Hn. destruct Hn as [Hp Hn]. rewrite (proj2 (Z.eqb_neq t p.1)) by done. by apply IH.
Qed.

(** When the types are the same and no type comes twice. *)
Lemma replaceAll_back prev b : NoDup prev.*1 -> b.*1 = prev.*1 -> replaceAll prev b = prev.
Proof.
  revert b. induction prev as [|[t x] prev IH]; intros b Hn E; [by apply fmap_nil_inv in E|].
  destruct b as [|[t' y] b]; [done|]. cbn in E. injection E as -> E. rewrite fmap_cons, NoDup_cons in Hn. destruct Hn as [Ht Hn].
  change (replaceAll ((t, x) :: prev) ((t, y) :: b)) with (replaceAll prev (replaceBalance t x ((t, y) :: b))).
  cbn [replaceBalance]. rewrite Z.eqb_refl, replaceAll_cons by done. by rewrite IH.
Qed.
End Objects.

(** ** Encodings are bytes *)

Fixpoint item_u8 (it : item) : Prop :=
  match it with
  | Raw b | Str b => Forall is_u8 b
  | Lst l => foldr (fun it P => item_u8 it /\ P) True l
  end.

Lemma enc_u8 it : item_u8 it -> fits (enc it) -> Forall is_u8 (enc it).
Proof.
  induction it as [b|b|l IH] using item_ind'; [done| |].
  - cbn. intros Hb Hf. apply str_enc_u8; [done|]. unfold fits in *. pose proof (str_enc_length b). lia.
  - cbn [enc item_u8]. cbn zeta. intros Hl Hf. apply fits_app in Hf as Hf'. destruct Hf' as [_ Hc].
    apply (list_enc_u8 (concat (map enc l))); [|done]. clear Hf. induction IH as [|it l Hit _ IHl]; [constructor|].
    cbn [map concat foldr] in *. apply fits_app in Hc as [Hc1 Hc2]. destruct Hl as [Hl1 Hl2]. apply Forall_app. auto.
Qed.

(** ** What is written for an account is read back *)

Definition balance_item (b : Z * Z) : item := Lst [uint_item b.1; Str (bigBytes b.2)].

Definition account_item (d : Account) : item :=
  Lst [uint_item (Nonce d); Lst (map balance_item (Balance d)); Str (Root d); Str (CodeHash d)].

(** Accounts that have an encoding: no balance is negative. *)
Record encodable (d : Account) : Prop := {
  en_nonce : is_u64 (Nonce d);
  en_balance : Forall (fun b => 0 <= b.1 < 2 ^ 32 /\ 0 <= b.2) (Balance d);
  en_root : Forall is_u8 (Root d) /\ length (Root d) = 32%nat;
  en_code : Forall is_u8 (CodeHash d);
  en_small : small (enc (account_item d))
}.

Lemma balance_items l :
  Forall (fun b : Z * Z => 0 <= b.1 < 2 ^ 32 /\ 0 <= b.2) l ->
  elem_items items (TStruct [TUint 32; TBigPtr]) (map balance_value l) = Ok (map balance_item l).
Proof.
  induction 1 as [|[t x] l [_ Hx] _ IH]; [done|]. cbn [map]. cbn [elem_items]. rewrite IH. cbn in *. unfold big_items.
  by rewrite (proj2 (Z.ltb_ge x 0)) by lia.
Qed.

Lemma bigBytes_u8 i : Forall is_u8 (bigBytes i).
Proof. unfold bigBytes. destruct (i <=? 0); [constructor|apply be_bytes_u8]. Qed.

Lemma uint_item_u8 i : is_u64 i -> item_u8 (uint_item i).
Proof. intros Hi. cbn. destruct (i =? 0); [constructor|by apply putint_u8]. Qed.

Lemma account_u8 d : encodable d -> item_u8 (account_item d).
Proof.
  intros [Hn Hb [Hr _] Hc _]. cbn [account_item item_u8 foldr]. split; [by apply uint_item_u8|]. split; [|done].
  induction Hb as [|[t x] l [Ht _] _ IH]; [done|]. cbn [map foldr]. split; [|done]. cbn [balance_item item_u8 foldr fst snd] in *.
  split; [apply uint_item_u8; unfold is_u64; lia|]. split; [apply bigBytes_u8|done].
Qed.

Lemma balance_back l : map balance_of (map balance_value l) = l.
Proof. induction l as [|[t x] l IH]; [done|]. cbn. by rewrite IH. Qed.

Lemma account_roundtrip d :
  encodable d -> encodeAccount d = Ok (enc (account_item d)) /\ decodeAccount (enc (account_item d)) = Some d /\
    Forall is_u8 (enc (account_item d)) /\ enc (account_item d) <> [].
Proof.
  intros Hd. pose proof Hd as [Hn Hb [Hr Hr32] Hc Hs].
  destruct (encode_decode account_type (account_value d) (enc (account_item d))) as [Ee Ed].
  - cbn. unfold width. repeat split; try done; lia.
  - cbn. unfold is_u64 in Hn. split; [lia|]. split; [|done]. induction Hb as [|[t x] l [Ht _] _ IH]; [done|]. cbn [map all_elems].
    split; [|done]. cbn in *. lia.
  - cbn. split; [done|]. split; [|done]. induction Hb as [|[t x] l [_ Hx] _ IH]; [done|]. by cbn in *.
  - unfold encoding. cbn [account_type account_value items field_items res_bind]. rewrite balance_items by done. cbn [res_bind map concat app].
    by rewrite app_nil_r.
  - done.
  - split; [done|]. unfold decodeAccount. rewrite Ed. split.
    + f_equal. cbn. rewrite balance_back. by destruct d.
    + split; [apply enc_u8; [by apply account_u8|by apply small_fits]|]. cbn [account_item enc]. cbn zeta. unfold puthead.
      by destruct (_ <? 56).
Qed.
