(* ===== verification/StateStore.v ===== *)
(** * What the state needs of its database ([core/state/database.go])

    The interfaces [Database] and [Trie] are a class: a store in which tries are
    open, each by its handle, and the operations on them.  What they promise is a
    second class.  The state is verified against it, and the database of the code,
    with the tries of the package [trie], keeps the promises. *)

From S2P Require Import Sponge TrieDatabase Trie TrieSpec Prelude.

#[local] Set Warnings "-register-all".

(** The results of a call that may fail, with the store afterwards. *)
Definition reply (S A : Type) : Type := eff ((trie_error + A) * S).

(** [trie_Commit] gets the hashes that the callback of the code refers to for a value
    of the trie.  Code that is not there is [None]. *)
Class StateStore := {
  store : Type;
  handle : Type;
  OpenTrie : list Z -> store -> reply store handle;
  OpenStorageTrie : list Z -> list Z -> store -> reply store handle;
  CopyTrie : handle -> store -> eff (handle * store);
  ContractCode : list Z -> list Z -> store -> option (list Z) * store;
  trie_TryGet : handle -> list Z -> store -> reply store (option (list Z));
  trie_TryUpdate : handle -> list Z -> list Z -> store -> reply store ();
  trie_TryDelete : handle -> list Z -> store -> reply store ();
  trie_Hash : handle -> store -> eff (list Z * store);
  trie_Commit : handle -> (list Z -> list (list Z)) -> store -> reply store (list Z);
  db_Insert : list Z -> list Z -> store -> store
}.

(** What the promises speak of:
    - [has w t m]: the trie [t] is open and has the entries [m]; the entry of a key is
      at its [place];
    - [alias t t']: the handles are of the same trie;
    - [root_is m r]: the root of a trie with the entries [m] is [r];
    - [kept w r m]: the nodes of a trie with the root [r] and the entries [m] are there;
    - [ready w r m]: opening the root [r] gives a trie with the entries [m];
    - [coded w h c]: the code [c] is there under its hash [h];
    - [main t]: the trie was opened with [OpenTrie];
    - [allowed m] and [code_ok c]: the map can be committed and the code stored, without
      a collision of hashes. *)
Class StateFacts `{StateStore} := {
  place : list Z -> list Z;
  alias : handle -> handle -> Prop;
  root_is : bmap -> list Z -> Prop;
  healthy : store -> Prop;
  has : store -> handle -> bmap -> Prop;
  kept : store -> list Z -> bmap -> Prop;
  ready : store -> list Z -> bmap -> Prop;
  coded : store -> list Z -> list Z -> Prop;
  main : handle -> Prop;
  allowed : bmap -> Prop;
  code_ok : list Z -> Prop
}.

(** Nothing is lost but, maybe, what the tries in [X] had. *)
Record later `{StateFacts} (X : handle -> Prop) (w w' : store) : Prop := mkLater {
  later_healthy : healthy w -> healthy w';
  later_has : forall t m, has w t m -> X t \/ has w' t m;
  later_kept : forall r m, kept w r m -> kept w' r m;
  later_coded : forall h c, coded w h c -> coded w' h c
}.

Definition none `{StateStore} (t : handle) : Prop := False.

#[export] Instance later_none_preorder `{StateFacts} : PreOrder (later none).
Proof.
  split.
  - intros w. split; auto.
  - intros w1 w2 w3 [] []. split; auto. intros t m Hm. destruct (later_has0 t m Hm) as [[]|?]. auto.
Qed.

Lemma later_keeps_has `{StateFacts} w w' t m : later none w w' -> has w t m -> has w' t m.
Proof. intros Hl Hm. by destruct (later_has _ _ _ Hl t m Hm) as [[]|?]. Qed.

(** Maps without empty values. *)
Definition filled (m : bmap) : Prop := forall p v, m !! p = Some v -> v <> [].

(** An open trie. *)
Definition valid `{StateFacts} (w : store) (t : handle) : Prop := exists m, has w t m.

Class StateLaws `{StateFacts} := {
  alias_equiv :: Equivalence alias;
  has_alias : forall w t t' m, alias t t' -> has w t m -> has w t' m;
  root_32 : forall m r, root_is m r -> Forall is_u8 r /\ length r = 32%nat;
  has_filled : forall w t m, has w t m -> filled m;
  has_one : forall w t m m', has w t m -> has w t m' -> m = m';
  get_law : forall w t m k, healthy w -> has w t m -> Forall is_u8 k ->
    exists w', trie_TryGet t k w = Ok (inr (m !! place k), w') /\ later none w w';
  update_law : forall w t m k v, healthy w -> has w t m -> Forall is_u8 k -> Forall is_u8 v ->
    exists w', trie_TryUpdate t k v w = Ok (inr (), w') /\ later (alias t) w w' /\ has w' t (map_update (place k) v m);
  delete_law : forall w t m k, healthy w -> has w t m -> Forall is_u8 k ->
    exists w', trie_TryDelete t k w = Ok (inr (), w') /\ later (alias t) w w' /\ has w' t (delete (place k) m);
  root_one : forall m r r', root_is m r -> root_is m r' -> r = r';
  hash_law : forall w t m, healthy w -> has w t m -> allowed m ->
    exists r w', trie_Hash t w = Ok (r, w') /\ root_is m r /\ later none w w';
  commit_law : forall w t m links, healthy w -> has w t m -> allowed m ->
    exists r w', trie_Commit t links w = Ok (inr r, w') /\ root_is m r /\ later none w w' /\ kept w' r m /\
      (main t -> ready w' r m);
  open_law : forall w r m, healthy w -> ready w r m ->
    exists t w', OpenTrie r w = Ok (inr t, w') /\ later none w w' /\ has w' t m /\ main t /\ forall t' m', has w t' m' -> ~ alias t t';
  storage_law : forall w a r m, healthy w -> kept w r m ->
    exists t w', OpenStorageTrie a r w = Ok (inr t, w') /\ later none w w' /\ has w' t m /\ forall t' m', has w t' m' -> ~ alias t t';
  empty_law : forall w, kept w emptyHash ∅ /\ kept w emptyRoot ∅;
  code_law : forall w a h c, coded w h c ->
    exists w', ContractCode a h w = (Some c, w') /\ later none w w';
  code_empty : forall c, code_ok c -> keccak256 c = keccak256 [] -> c = [];
  insert_law : forall w c, healthy w -> code_ok c ->
    later none w (db_Insert (keccak256 c) c w) /\ coded (db_Insert (keccak256 c) c w) (keccak256 c) c
}.

(** ** Keys

    The keys that a client uses: addresses and hashes of data in the trie of the state,
    slots and names of byte arrays in the tries of accounts.  They are bytes, no key is
    of two kinds, and the places of two keys in a trie are different. *)
Class Keys `{StateFacts} := {
  Addr : list Z -> Prop;
  Mat : list Z -> Prop;
  Slot : list Z -> Prop;
  Raw : list Z -> Prop;
  keys_u8 : forall k, Addr k \/ Mat k \/ Slot k \/ Raw k -> Forall is_u8 k;
  main_place : forall k k', Addr k \/ Mat k -> Addr k' \/ Mat k' -> place k = place k' -> k = k';
  Addr_not_Mat : forall k, Addr k -> Mat k -> False;
  storage_place : forall k k', Slot k \/ Raw k -> Slot k' \/ Raw k' -> place k = place k' -> k = k';
  Slot_not_Raw : forall k, Slot k -> Raw k -> False
}.

Section Keys.
Context `{Keys}.

Lemma Addr_u8 k : Addr k -> Forall is_u8 k.
Proof. intros Hk. apply keys_u8. auto. Qed.

Lemma Mat_u8 k : Mat k -> Forall is_u8 k.
Proof. intros Hk. apply keys_u8. auto. Qed.

Lemma Slot_u8 k : Slot k -> Forall is_u8 k.
Proof. intros Hk. apply keys_u8. auto. Qed.

Lemma Raw_u8 k : Raw k -> Forall is_u8 k.
Proof. intros Hk. apply keys_u8. auto. Qed.
End Keys.
