(* ===== verification/StateDB.v ===== *)
(** * The state ([core/state/statedb.go], [core/state/state_object.go],
      [core/state/journal.go])

    Accounts that are in use are state objects.  Every change is noted in a journal,
    so that it can be reverted, and at the end of a transaction what has changed is
    written to the tries.  The code returns pointers to objects; an object belongs to
    one address only, so here the methods of an object get its address. *)

From S2P Require Import Rlp RlpCodec Sponge TrieDatabase Trie BTree BTreeMap StateObject StateStore Prelude.

#[local] Set Warnings "-register-all".

(** ** Data *)

Record Log := mkLog {
  l_address : list Z;
  l_topics : list (list Z);
  l_data : list Z;
  l_txhash : list Z;
  l_txindex : Z;
  l_bhash : list Z;
  l_index : Z
}.

(** The strings by which the B-trees are told apart; any other type of transaction has
    the empty one. *)
Inductive btree_kind := RevcBTree | TimeBtree | NoBtree.

#[export] Instance btree_kind_eq : EqDecision btree_kind.
Proof. solve_decision. Defined.

Definition ExtraRevocable : Z := 3.
Definition ExtraTimeTxType : Z := 7.

Definition kind_of (typ : Z) : btree_kind :=
  if typ =? ExtraRevocable then RevcBTree else if typ =? ExtraTimeTxType then TimeBtree else NoBtree.

Record BtreeDietyStruct := mkDiety {
  bd_Key : Z;
  bd_Data : gmap (list Z) (list Z);
  bd_Typ : btree_kind
}.

(** A node of a B-tree as it is saved ([btrie.BnodeSave]) and its encoding with
    [encoding/json]. *)
Record BnodeSave := mkSave {
  sv_Key : list (Z * list (gmap (list Z) (list Z)));
  sv_Child : list (list Z)
}.

Class NodeJson := {
  marshalNode : BnodeSave -> list Z;
  unmarshalNode : list Z -> option BnodeSave
}.

Section State.
Context `{StateStore}.

#[local] Abbreviation obj := (stateObject handle).

Inductive journalEntry :=
| createObjectChange (account : list Z)
| resetObjectChange (prev : obj)
| suicideChange (account : list Z) (prev : bool) (prevbalance : BalanceType)
| balanceChange (account : list Z) (prev : BalanceType)
| nonceChange (account : list Z) (prev : Z)
| storageChange (account key prevalue : list Z)
| storageByteArrayChange (account key prevalue : list Z)
| codeChange (account : list Z) (prevcode : option (list Z)) (prevhash : list Z)
| refundChange (prev : Z)
| addLogChange (txhash : list Z)
| addPreimageChange (hash : list Z)
| addMatrixDataChange (hash : list Z)
| addBtreeChange (typ : btree_kind) (key : Z)
| touchChange (account : list Z).

Definition dirtied (e : journalEntry) : option (list Z) :=
  match e with
  | createObjectChange a | suicideChange a _ _ | balanceChange a _ | nonceChange a _ | storageChange a _ _
  | storageByteArrayChange a _ _ | codeChange a _ _ | touchChange a => Some a
  | resetObjectChange _ | refundChange _ | addLogChange _ | addPreimageChange _ | addMatrixDataChange _
  | addBtreeChange _ _ => None
  end.

Record journal := mkJournal {
  entries : list journalEntry;
  dirties : gmap (list Z) Z
}.

Definition newJournal : journal := mkJournal [] ∅.

Definition dirty_more (a : list Z) (d : gmap (list Z) Z) : gmap (list Z) Z := <[a := default 0 (d !! a) + 1]> d.

(** A counter that reaches zero is deleted. *)
Definition dirty_less (a : list Z) (d : gmap (list Z) Z) : gmap (list Z) Z :=
  let n := default 0 (d !! a) - 1 in
  if n =? 0 then delete a d else <[a := n]> d.

(** [append] *)
Definition note (e : journalEntry) (j : journal) : journal :=
  mkJournal (entries j ++ [e]) (match dirtied e with Some a => dirty_more a (dirties j) | None => dirties j end).

Record revision := mkRevision {
  rev_id : Z;
  journalIndex : nat
}.

(** A B-tree that was not made ([NewBTrie]) is [None].  Of [matrixDataDirty] the
    code only asks for the keys, and [btreeMapDirty] is never read. *)
Record StateDB := mkState {
  db : store;
  strie : handle;
  stateObjects : gmap (list Z) obj;
  stateObjectsDirty : gset (list Z);
  revocablebtrie : option BTree;
  timebtrie : option BTree;
  btreeMap : list BtreeDietyStruct;
  matrixData : gmap (list Z) (list Z);
  matrixDataDirty : gset (list Z);
  dbErr : option state_error;
  refund : Z;
  logs : gmap (list Z) (list Log);
  logSize : Z;
  spreimages : gmap (list Z) (list Z);
  sjournal : journal;
  validRevisions : list revision;
  nextRevisionId : Z
}.

(** Changing one part of the state. *)
Definition set_db (w : store) (s : StateDB) : StateDB :=
  mkState w (strie s) (stateObjects s) (stateObjectsDirty s) (revocablebtrie s) (timebtrie s) (btreeMap s)
    (matrixData s) (matrixDataDirty s) (dbErr s) (refund s) (logs s) (logSize s) (spreimages s) (sjournal s)
    (validRevisions s) (nextRevisionId s).

Definition set_strie (t : handle) (s : StateDB) : StateDB :=
  mkState (db s) t (stateObjects s) (stateObjectsDirty s) (revocablebtrie s) (timebtrie s) (btreeMap s) (matrixData s)
    (matrixDataDirty s) (dbErr s) (refund s) (logs s) (logSize s) (spreimages s) (sjournal s) (validRevisions s)
    (nextRevisionId s).

Definition set_objects (o : gmap (list Z) obj) (s : StateDB) : StateDB :=
  mkState (db s) (strie s) o (stateObjectsDirty s) (revocablebtrie s) (timebtrie s) (btreeMap s) (matrixData s)
    (matrixDataDirty s) (dbErr s) (refund s) (logs s) (logSize s) (spreimages s) (sjournal s) (validRevisions s)
    (nextRevisionId s).

Definition set_dirty (d : gset (list Z)) (s : StateDB) : StateDB :=
  mkState (db s) (strie s) (stateObjects s) d (revocablebtrie s) (timebtrie s) (btreeMap s) (matrixData s)
    (matrixDataDirty s) (dbErr s) (refund s) (logs s) (logSize s) (spreimages s) (sjournal s) (validRevisions s)
    (nextRevisionId s).

Definition set_btrie (k : btree_kind) (t : BTree) (s : StateDB) : StateDB :=
  mkState (db s) (strie s) (stateObjects s) (stateObjectsDirty s)
    (match k with RevcBTree => Some t | _ => revocablebtrie s end)
    (match k with TimeBtree => Some t | _ => timebtrie s end) (btreeMap s) (matrixData s) (matrixDataDirty s)
    (dbErr s) (refund s) (logs s) (logSize s) (spreimages s) (sjournal s) (validRevisions s) (nextRevisionId s).

Definition set_btreeMap (l : list BtreeDietyStruct) (s : StateDB) : StateDB :=
  mkState (db s) (strie s) (stateObjects s) (stateObjectsDirty s) (revocablebtrie s) (timebtrie s) l (matrixData s)
    (matrixDataDirty s) (dbErr s) (refund s) (logs s) (logSize s) (spreimages s) (sjournal s) (validRevisions s)
    (nextRevisionId s).

Definition set_matrix (m : gmap (list Z) (list Z)) (d : gset (list Z)) (s : StateDB) : StateDB :=
  mkState (db s) (strie s) (stateObjects s) (stateObjectsDirty s) (revocablebtrie s) (timebtrie s) (btreeMap s) m d
    (dbErr s) (refund s) (logs s) (logSize s) (spreimages s) (sjournal s) (validRevisions s) (nextRevisionId s).

Definition setError (e : option state_error) (s : StateDB) : StateDB :=
  mkState (db s) (strie s) (stateObjects s) (stateObjectsDirty s) (revocablebtrie s) (timebtrie s) (btreeMap s)
    (matrixData s) (matrixDataDirty s) (firstError (dbErr s) e) (refund s) (logs s) (logSize s) (spreimages s)
    (sjournal s) (validRevisions s) (nextRevisionId s).

Definition set_refund (r : Z) (s : StateDB) : StateDB :=
  mkState (db s) (strie s) (stateObjects s) (stateObjectsDirty s) (revocablebtrie s) (timebtrie s) (btreeMap s)
    (matrixData s) (matrixDataDirty s) (dbErr s) r (logs s) (logSize s) (spreimages s) (sjournal s) (validRevisions s)
    (nextRevisionId s).

Definition set_logs (l : gmap (list Z) (list Log)) (n : Z) (s : StateDB) : StateDB :=
  mkState (db s) (strie s) (stateObjects s) (stateObjectsDirty s) (revocablebtrie s) (timebtrie s) (btreeMap s)
    (matrixData s) (matrixDataDirty s) (dbErr s) (refund s) l n (spreimages s) (sjournal s) (validRevisions s)
    (nextRevisionId s).

Definition set_spreimages (p : gmap (list Z) (list Z)) (s : StateDB) : StateDB :=
  mkState (db s) (strie s) (stateObjects s) (stateObjectsDirty s) (revocablebtrie s) (timebtrie s) (btreeMap s)
    (matrixData s) (matrixDataDirty s) (dbErr s) (refund s) (logs s) (logSize s) p (sjournal s) (validRevisions s)
    (nextRevisionId s).

Definition set_journal (j : journal) (s : StateDB) : StateDB :=
  mkState (db s) (strie s) (stateObjects s) (stateObjectsDirty s) (revocablebtrie s) (timebtrie s) (btreeMap s)
    (matrixData s) (matrixDataDirty s) (dbErr s) (refund s) (logs s) (logSize s) (spreimages s) j (validRevisions s)
    (nextRevisionId s).

Definition set_revisions (l : list revision) (n : Z) (s : StateDB) : StateDB :=
  mkState (db s) (strie s) (stateObjects s) (stateObjectsDirty s) (revocablebtrie s) (timebtrie s) (btreeMap s)
    (matrixData s) (matrixDataDirty s) (dbErr s) (refund s) (logs s) (logSize s) (spreimages s) (sjournal s) l n.

(** ** Steps

    A step may panic; otherwise it gives a result and the state afterwards. *)

Definition M (A : Type) : Type := StateDB -> eff (A * StateDB).

Definition ret {A} (a : A) : M A := fun s => Ok (a, s).
Definition bind {A B} (m : M A) (k : A -> M B) : M B := fun s => let* (a, s) := m s in k a s.
Definition panic {A} : M A := fun _ => Panic.
Definition gets {A} (f : StateDB -> A) : M A := fun s => Ok (f s, s).
Definition modify (f : StateDB -> StateDB) : M () := fun s => Ok ((), f s).

(** A call to the database. *)
Definition call {A} (f : store -> eff (A * store)) : M A := fun s =>
  let* (a, w) := f (db s) in
  Ok (a, set_db w s).

Definition lift {A} (m : eff A) : M A := fun s => let* a := m in Ok (a, s).

(** A loop. *)
Fixpoint each {A} (l : list A) (f : A -> M ()) : M () :=
  match l with
  | [] => ret ()
  | x :: l => bind (f x) (fun _ => each l f)
  end.
End State.

#[global] Arguments M {_} A.

Declare Scope state_scope.
Notation "'do' x <- m ; k" := (bind m (fun x => k))
  (at level 20, x pattern, m at level 100, k at level 200) : state_scope.
Notation "m ;; k" := (bind m (fun _ => k)) (at level 100, k at level 200) : state_scope.
#[local] Open Scope state_scope.

Section Operations.
Context `{StateStore}.

#[local] Abbreviation obj := (stateObject handle).

Definition journal_append (e : journalEntry) : M () := modify (fun s => set_journal (note e (sjournal s)) s).

(** [journal.dirty] *)
Definition journal_dirty (a : list Z) : M () :=
  modify (fun s => set_journal (mkJournal (entries (sjournal s)) (dirty_more a (dirties (sjournal s)))) s).

Definition setStateObject (o : obj) : M () := modify (fun s => set_objects (<[address o := o]> (stateObjects s)) s).

(** The object a pointer points to, and changing it. *)
Definition the (a : list Z) : M obj := fun s =>
  match stateObjects s !! a with
  | Some o => Ok (o, s)
  | None => Panic
  end.

Definition change (a : list Z) (f : obj -> obj) : M () := fun s =>
  match stateObjects s !! a with
  | Some o => Ok ((), set_objects (<[a := f o]> (stateObjects s)) s)
  | None => Panic
  end.

Definition trieError {A} (r : trie_error + A) : option state_error :=
  match r with
  | inl e => Some (TrieFailed e)
  | inr _ => None
  end.

(** [getStateObject]: a live object that is not deleted, or one that is loaded. *)
Definition getStateObject (addr : list Z) : M (option obj) :=
  do objs <- gets stateObjects;
  match objs !! addr with
  | Some o => ret (if deleted o then None else Some o)
  | None =>
      do t <- gets strie;
      do r <- call (trie_TryGet t addr);
      match r with
      | inl e => modify (setError (Some (TrieFailed e))) ;; ret None
      | inr enc =>
          if (length (default [] enc) =? 0)%nat then ret None
          else
            match decodeAccount (default [] enc) with
            | None => ret None
            | Some d =>
                let o := newObject addr (Some d) in
                setStateObject o ;; ret (Some o)
            end
      end
  end.

(** ** Methods of an object *)

Definition ripemd : list Z := replicate 19 0 ++ [3].

Definition touch (a : list Z) : M () :=
  journal_append (touchChange a) ;;
  if bool_decide (a = ripemd) then journal_dirty a else ret ().

(** [getTrie]: the trie is opened at its first use; when that fails, an empty one.  A
    second failure leaves a nil trie, whose methods panic. *)
Definition getTrie (a : list Z) : M handle :=
  do o <- the a;
  match otrie o with
  | Some t => ret t
  | None =>
      do r <- call (OpenStorageTrie (addrHash o) (Root (data o)));
      match r with
      | inr t => change a (with_trie t) ;; ret t
      | inl e =>
          do r <- call (OpenStorageTrie (addrHash o) emptyHash);
          match r with
          | inr t => change a (fun o => setObjError (Some (NoStorageTrie e)) (with_trie t o)) ;; ret t
          | inl _ => panic
          end
      end
  end.

Definition obj_GetState (a key : list Z) : M (list Z) :=
  do o <- the a;
  match cachedStorage o !! key with
  | Some v => ret v
  | None =>
      do t <- getTrie a;
      do r <- call (trie_TryGet t key);
      match r with
      | inl e => change a (setObjError (Some (TrieFailed e))) ;; ret emptyHash
      | inr enc =>
          do (err, v) <- lift (slotValue (default [] enc));
          change a (fun o => setObjError err (with_storage (<[key := v]> (cachedStorage o)) (dirtyStorage o) o)) ;;
          ret v
      end
  end.

(** An error is not remembered here. *)
Definition obj_GetStateByteArray (a key : list Z) : M (list Z) :=
  do o <- the a;
  match cachedBytes o !! key with
  | Some v => ret v
  | None =>
      do t <- getTrie a;
      do r <- call (trie_TryGet t key);
      match r with
      | inl _ => ret []
      | inr enc =>
          let v := default [] enc in
          (if (length v =? 0)%nat then ret ()
           else change a (fun o => with_bytes (<[key := v]> (cachedBytes o)) (dirtyBytes o) o)) ;;
          ret v
      end
  end.

Definition obj_SetState (a key value : list Z) : M () :=
  do prev <- obj_GetState a key;
  journal_append (storageChange a key prev) ;;
  change a (setState key value).

Definition obj_SetStateByteArray (a key value : list Z) : M () :=
  do prev <- obj_GetStateByteArray a key;
  journal_append (storageByteArrayChange a key prev) ;;
  change a (setStateByteArray key value).

Definition obj_SetBalance (a : list Z) (typ amount : Z) : M () :=
  do o <- the a;
  journal_append (balanceChange a (Balance (data o))) ;;
  change a (setBalance typ amount).

Definition obj_AddBalance (a : list Z) (typ amount : Z) : M () :=
  do o <- the a;
  if amount =? 0 then (if empty_ o then touch a else ret ())
  else
    match balanceOf typ (Balance (data o)) with
    | Some b => obj_SetBalance a typ (b + amount)
    | None => ret ()
    end.

Definition obj_SubBalance (a : list Z) (typ amount : Z) : M () :=
  do o <- the a;
  if amount =? 0 then ret ()
  else
    match balanceOf typ (Balance (data o)) with
    | Some b => obj_SetBalance a typ (b - amount)
    | None => ret ()
    end.

Definition obj_SetNonce (a : list Z) (nonce : Z) : M () :=
  do o <- the a;
  journal_append (nonceChange a (Nonce (data o))) ;;
  change a (setNonce nonce).

(** [Code] *)
Definition obj_Code (a : list Z) : M (option (list Z)) :=
  do o <- the a;
  match code o with
  | Some c => ret (Some c)
  | None =>
      if bool_decide (CodeHash (data o) = emptyCodeHash) then ret None
      else
        do c <- call (fun w => Ok (ContractCode (addrHash o) (BytesToHash (CodeHash (data o))) w));
        let err := match c with Some _ => None | None => Some (NoCode (CodeHash (data o))) end in
        change a (fun o => with_code c (dirtyCode o) (setObjError err o)) ;;
        ret c
  end.

Definition obj_SetCode (a codeHash : list Z) (c : option (list Z)) : M () :=
  do prevcode <- obj_Code a;
  do o <- the a;
  journal_append (codeChange a prevcode (CodeHash (data o))) ;;
  change a (setCode codeHash c).
(** ** Objects of the state *)

Definition createObject (addr : list Z) : M (option obj) :=
  do prev <- getStateObject addr;
  let newobj := setNonce NonceAddOne (newObject addr None) in
  journal_append (match prev with
                  | None => createObjectChange addr
                  | Some prev => resetObjectChange prev
                  end) ;;
  setStateObject newobj ;;
  ret prev.

(** Returns the address, by which the object is known. *)
Definition GetOrNewStateObject (addr : list Z) : M () :=
  do o <- getStateObject addr;
  match o with
  | None => createObject addr ;; ret ()
  | Some _ => ret ()
  end.

(** The balances of the previous account are carried over. *)
Definition CreateAccount (addr : list Z) : M () :=
  do prev <- createObject addr;
  match prev with
  | Some prev => change addr (setBalances (Balance (data prev)))
  | None => ret ()
  end.

(** ** Reading *)

Definition Exist (addr : list Z) : M bool :=
  do o <- getStateObject addr;
  ret (match o with Some _ => true | None => false end).

Definition Empty (addr : list Z) : M bool :=
  do o <- getStateObject addr;
  ret (match o with Some o => empty_ o | None => true end).

Definition GetBalance (addr : list Z) : M BalanceType :=
  do o <- getStateObject addr;
  ret (match o with Some o => Balance (data o) | None => zeroBalance end).

Definition GetBalanceByType (addr : list Z) (typ : Z) : M Z :=
  do o <- getStateObject addr;
  ret (match o with Some o => default 0 (balanceOf typ (Balance (data o))) | None => 0 end).

Definition GetNonce (addr : list Z) : M Z :=
  do o <- getStateObject addr;
  ret (match o with Some o => Nonce (data o) | None => NonceAddOne end).

Definition GetCode (addr : list Z) : M (option (list Z)) :=
  do o <- getStateObject addr;
  match o with
  | Some _ => obj_Code addr
  | None => ret None
  end.

Definition GetCodeHash (addr : list Z) : M (list Z) :=
  do o <- getStateObject addr;
  ret (match o with Some o => BytesToHash (CodeHash (data o)) | None => emptyHash end).

Definition GetState (addr key : list Z) : M (list Z) :=
  do o <- getStateObject addr;
  match o with
  | Some _ => obj_GetState addr key
  | None => ret emptyHash
  end.

Definition GetStateByteArray (addr key : list Z) : M (list Z) :=
  do o <- getStateObject addr;
  match o with
  | Some _ => obj_GetStateByteArray addr key
  | None => ret []
  end.

Definition HasSuicided (addr : list Z) : M bool :=
  do o <- getStateObject addr;
  ret (match o with Some o => suicided o | None => false end).

Definition GetRefund : M Z := gets refund.

(** ** Writing *)

Definition AddBalance (typ : Z) (addr : list Z) (amount : Z) : M () :=
  GetOrNewStateObject addr ;; obj_AddBalance addr typ amount.

Definition SubBalance (typ : Z) (addr : list Z) (amount : Z) : M () :=
  GetOrNewStateObject addr ;; obj_SubBalance addr typ amount.

Definition SetBalance (typ : Z) (addr : list Z) (amount : Z) : M () :=
  GetOrNewStateObject addr ;; obj_SetBalance addr typ amount.

Definition SetNonce (addr : list Z) (nonce : Z) : M () :=
  GetOrNewStateObject addr ;; obj_SetNonce addr (Z.lor nonce NonceAddOne).

Definition SetCode (addr : list Z) (c : option (list Z)) : M () :=
  GetOrNewStateObject addr ;; obj_SetCode addr (keccak256 (default [] c)) c.

Definition SetState (addr key value : list Z) : M () :=
  GetOrNewStateObject addr ;; obj_SetState addr key value.

Definition SetStateByteArray (addr key value : list Z) : M () :=
  GetOrNewStateObject addr ;; obj_SetStateByteArray addr key value.

(** [hashkey := append([]byte("ET"), addr[:]...)] and ["AU"]. *)
Definition entrustKey (addr : list Z) : list Z := BytesToHash (0x45 :: 0x54 :: addr).
Definition authKey (addr : list Z) : list Z := BytesToHash (0x41 :: 0x55 :: addr).

Definition GetEntrustStateByteArray (addr : list Z) : M (list Z) := GetStateByteArray addr (entrustKey addr).
Definition GetAuthStateByteArray (addr : list Z) : M (list Z) := GetStateByteArray addr (authKey addr).
Definition SetEntrustStateByteArray (addr value : list Z) : M () := SetStateByteArray addr (entrustKey addr) value.
Definition SetAuthStateByteArray (addr value : list Z) : M () := SetStateByteArray addr (authKey addr) value.

(** [Suicide]: the balances become an empty slice. *)
Definition Suicide (addr : list Z) : M bool :=
  do o <- getStateObject addr;
  match o with
  | None => ret false
  | Some o =>
      journal_append (suicideChange addr (suicided o) (Balance (data o))) ;;
      change addr (fun o => with_data (set_balance [] (data o)) (with_flags true (deleted o) o)) ;;
      ret true
  end.

Definition AddRefund (gas : Z) : M () :=
  do r <- gets refund;
  journal_append (refundChange r) ;;
  modify (set_refund (u64 (r + gas))).

Definition AddPreimage (hash preimage : list Z) : M () :=
  do p <- gets spreimages;
  match p !! hash with
  | Some _ => ret ()
  | None => journal_append (addPreimageChange hash) ;; modify (set_spreimages (<[hash := preimage]> p))
  end.

(** [StateDBManage.AddLog], on the state of the address. *)
Definition AddLog (thash bhash : list Z) (txIndex : Z) (address : list Z) (topics : list (list Z)) (d : list Z) : M () :=
  journal_append (addLogChange thash) ;;
  modify (fun s =>
    let l := mkLog address topics d thash txIndex bhash (logSize s) in
    set_logs (<[thash := default [] (logs s !! thash) ++ [l]]> (logs s)) (logSize s + 1) s).

(** ** Data of the chain in the trie *)

(** The letters ["MAN-"]. *)
Definition man_prefix : list Z := [0x4D; 0x41; 0x4E; 0x2D].

Definition updateMatrixData (hash val : list Z) : M () :=
  do t <- gets strie;
  do r <- call (trie_TryUpdate t hash (man_prefix ++ val));
  modify (setError (trieError r)).

(** [deleteMatrixData], [DeleteMxData] *)
Definition deleteMatrixData (hash : list Z) : M () :=
  do t <- gets strie;
  do r <- call (trie_TryDelete t hash);
  modify (setError (trieError r)).

(** [tmpval[:4]] of a short value panics. *)
Definition stripPrefix (v : list Z) : eff (list Z) :=
  if (length v <? 4)%nat then Panic
  else Ok (if bool_decide (take 4 v = man_prefix) then drop 4 v else v).

Definition tryGetMatrixData (hash : list Z) : M (option (list Z)) :=
  do t <- gets strie;
  do r <- call (trie_TryGet t hash);
  match r with
  | inl _ => ret None
  | inr v => if (length (default [] v) =? 0)%nat then ret (Some []) else do v <- lift (stripPrefix (default [] v)); ret (Some v)
  end.

Definition GetMatrixData (hash : list Z) : M (list Z) :=
  do m <- gets matrixData;
  match m !! hash with
  | Some v => ret v
  | None =>
      do t <- gets strie;
      do r <- call (trie_TryGet t hash);
      match r with
      | inl e => modify (setError (Some (TrieFailed e))) ;; ret []
      | inr v =>
          if (length (default [] v) =? 0)%nat then ret []
          else
            do v <- lift (stripPrefix (default [] v));
            modify (fun s => set_matrix (<[hash := v]> (matrixData s)) (matrixDataDirty s) s) ;;
            ret v
      end
  end.

Definition SetMatrixData (hash val : list Z) : M () :=
  journal_append (addMatrixDataChange hash) ;;
  modify (fun s => set_matrix (<[hash := val]> (matrixData s)) ({[hash]} ∪ matrixDataDirty s) s).
End Operations.

(** ** Snapshots *)

Section Snapshots.
Context `{StateStore}.

(** Methods of the object that [getStateObject] gives; a nil pointer panics. *)
Definition onObject (a : list Z) (f : stateObject handle -> stateObject handle) : M () :=
  do o <- getStateObject a;
  match o with
  | Some _ => change a f
  | None => panic
  end.

(** The methods [revert]. *)
Definition revert (e : journalEntry) : M () :=
  match e with
  | createObjectChange a =>
      modify (fun s => set_dirty (stateObjectsDirty s ∖ {[a]}) (set_objects (delete a (stateObjects s)) s))
  | resetObjectChange prev => setStateObject prev
  | suicideChange a prev prevbalance =>
      do o <- getStateObject a;
      match o with
      | Some _ => change a (fun o => setBalances prevbalance (with_flags prev (deleted o) o))
      | None => ret ()
      end
  | balanceChange a prev =>
      match prev with
      | [] => ret ()
      | _ => onObject a (setBalances prev)
      end
  | nonceChange a prev => onObject a (setNonce prev)
  | storageChange a key prevalue => onObject a (setState key prevalue)
  | storageByteArrayChange a key prevalue => onObject a (setStateByteArray key prevalue)
  | codeChange a prevcode prevhash => onObject a (setCode (BytesToHash prevhash) prevcode)
  | refundChange prev => modify (set_refund prev)
  | addLogChange txhash =>
      do l <- gets logs;
      match default [] (l !! txhash) with
      | [] => panic
      | [_] => modify (fun s => set_logs (delete txhash l) (logSize s - 1) s)
      | ls => modify (fun s => set_logs (<[txhash := removelast ls]> l) (logSize s - 1) s)
      end
  | addPreimageChange hash => modify (fun s => set_spreimages (delete hash (spreimages s)) s)
  | addMatrixDataChange hash => modify (fun s => set_matrix (delete hash (matrixData s)) (matrixDataDirty s) s)
  | addBtreeChange typ key =>
      modify (fun s => set_btreeMap (filter (fun bt => ~ (bd_Key bt = key /\ bd_Typ bt = typ)) (btreeMap s)) s)
  | touchChange _ => ret ()
  end.

(** The loop of [journal.revert]: the last entry first. *)
Definition undo (e : journalEntry) : M () :=
  revert e ;;
  match dirtied e with
  | Some a => modify (fun s => set_journal (mkJournal (entries (sjournal s)) (dirty_less a (dirties (sjournal s)))) s)
  | None => ret ()
  end.

(** [journal.revert]; the index is never beyond the end. *)
Definition journal_revert (snapshot : nat) : M () :=
  do j <- gets sjournal;
  each (rev (drop snapshot (entries j))) undo ;;
  if (length (entries j) <? snapshot)%nat then panic
  else modify (fun s => set_journal (mkJournal (take snapshot (entries (sjournal s))) (dirties (sjournal s))) s).

(** [Snapshot]: a revision is noted when the journal has grown since the last one. *)
Definition Snapshot : M Z := fun s =>
  let id := nextRevisionId s in
  let len := length (entries (sjournal s)) in
  let grown := match last (validRevisions s) with
               | None => true
               | Some r => (journalIndex r <? len)%nat
               end in
  Ok (id, set_revisions (if grown then validRevisions s ++ [mkRevision id len] else validRevisions s) (id + 1) s).

(** The loop: the last revision that is not after [revid], or the first one. *)
Fixpoint revisionIndex (n : nat) (l : list revision) (revid : Z) : nat :=
  match n with
  | O => 0
  | S i =>
      match l !! i with
      | Some r => if rev_id r <=? revid then i else revisionIndex i l revid
      | None => 0
      end
  end.

Definition RevertToSnapshot (revid : Z) : M () :=
  do l <- gets validRevisions;
  let idx := revisionIndex (length l) l revid in
  match l !! idx with
  | None => panic
  | Some r =>
      if rev_id r >? revid then panic
      else
        journal_revert (journalIndex r) ;;
        modify (fun s => set_revisions (take (if rev_id r =? revid then idx else S idx) l) (nextRevisionId s) s)
  end.

Definition clearJournalAndRefund : M () :=
  modify (fun s => set_refund 0 (set_revisions [] (nextRevisionId s) (set_journal newJournal s))).
End Snapshots.

(** ** The B-trees of the special transactions *)

Section Btrees.
Context `{StateStore, NodeJson}.

(** The path is at most the height long, and a removal goes down twice. *)
Definition bt_fuel (t : BTree) : nat := (2 * height t + 2)%nat.

Definition bt_lift {A} (m : res bt_error A) : M A :=
  match m with
  | Ok a => ret a
  | _ => panic
  end.

(** The hexadecimal strings of hashes are sorted as their bytes are. *)
Fixpoint bytes_le (a b : list Z) : bool :=
  match a, b with
  | [], _ => true
  | _, [] => false
  | x :: a, y :: b => (x <? y) || ((x =? y) && bytes_le a b)
  end.

Definition sortedKeys (m : gmap (list Z) (list Z)) : list (list Z) :=
  merge_sort (fun a b => bytes_le a b) (map_to_list m).*1.

(** One map for each transaction. *)
Definition saveItem (it : SpcialTxData) : Z * list (gmap (list Z) (list Z)) :=
  (Key_Time it, map (fun h => {[ h := default [] (Value_Tx it !! h) ]}) (sortedKeys (Value_Tx it))).

(** [BtreeSaveHash]: the nodes are data of the chain, the children first. *)
Fixpoint BtreeSaveHash (n : bnode) {struct n} : M (list Z) :=
  let (its, cs) := n in
  do childs <- (fix go (cs : list bnode) : M (list (list Z)) :=
                  match cs with
                  | [] => ret []
                  | c :: cs => do h <- BtreeSaveHash c; do hs <- go cs; ret (h :: hs)
                  end) cs;
  let encodeData := marshalNode (mkSave (map saveItem its) childs) in
  let key := keccak256 encodeData in
  SetMatrixData key encodeData ;;
  ret key.

Definition restoreItem (it : Z * list (gmap (list Z) (list Z))) : SpcialTxData :=
  mkTx it.1 (foldl (fun tm sl => sl ∪ tm) ∅ it.2).

(** [RestoreBtree]: a node that is not there or cannot be read stays empty.  Going down
    without an end is a crash. *)
Fixpoint restoreNode (fuel : nat) (nodeHash : list Z) : M bnode :=
  match fuel with
  | O => panic
  | S fuel =>
      if bool_decide (nodeHash = emptyHash) then ret (BNode [] [])
      else
        do nodeData <- GetMatrixData nodeHash;
        match unmarshalNode nodeData with
        | None => ret (BNode [] [])
        | Some sv =>
            do cs <- (fix go (l : list (list Z)) : M (list bnode) :=
                        match l with
                        | [] => ret []
                        | h :: l => do c <- restoreNode fuel h; do cs <- go l; ret (c :: cs)
                        end) (sv_Child sv);
            ret (BNode (map restoreItem (sv_Key sv)) cs)
        end
  end.

(** The root stays nil when there is no hash; the length is not restored. *)
Definition RestoreBtree (fuel : nat) (nodeHash : list Z) (t : BTree) : M BTree :=
  if bool_decide (nodeHash = emptyHash) then ret t
  else do n <- restoreNode fuel nodeHash; ret (mkBTree (degree t) (length_ t) (Some n)).

(** [types.RlpHash] of the names of the trees. *)
Definition RlpHash (name : list Z) : list Z :=
  keccak256 (match EncodeToBytes TString (VString name) with Ok b => b | _ => [] end).

Definition kind_name (k : btree_kind) : list Z :=
  match k with
  | RevcBTree => [0x52; 0x65; 0x76; 0x63; 0x42; 0x54; 0x72; 0x65; 0x65]
  | TimeBtree => [0x54; 0x69; 0x6D; 0x65; 0x42; 0x74; 0x72; 0x65; 0x65]
  | NoBtree => []
  end.

Definition btrie_of (k : btree_kind) (s : StateDB) : option BTree :=
  match k with
  | RevcBTree => revocablebtrie s
  | TimeBtree => timebtrie s
  | NoBtree => None
  end.

(** [NewBTrie] *)
Definition NewBTrie (k : btree_kind) : M () := do t <- bt_lift (NewBtree 2); modify (set_btrie k t).

(** One round of [CommitSaveTx].  A tree without a root is a nil pointer. *)
Definition commitSaved (bt : BtreeDietyStruct) : M () :=
  match bd_Typ bt with
  | NoBtree => ret ()
  | k =>
      (if (0 <? size (bd_Data bt))%nat then
         do t <- gets (btrie_of k);
         match t with
         | None => panic
         | Some t => do (t, _) <- bt_lift (ReplaceOrInsert (bt_fuel t) (mkTx (bd_Key bt) (bd_Data bt)) t); modify (set_btrie k t)
         end
       else ret ()) ;;
      do t <- gets (btrie_of k);
      match t with
      | Some (mkBTree _ _ (Some root)) => do hash <- BtreeSaveHash root; updateMatrixData (RlpHash (kind_name k)) hash
      | _ => panic
      end
  end.

Definition CommitSaveTx : M () :=
  do l <- gets btreeMap;
  each l commitSaved ;;
  modify (set_btreeMap []).

Definition saveBtree (typ : btree_kind) (key : Z) (d : gmap (list Z) (list Z)) : M () :=
  modify (fun s => set_btreeMap (btreeMap s ++ [mkDiety key d typ]) s) ;;
  journal_append (addBtreeChange typ key).

Definition SaveTx (typ key : Z) (d : gmap (list Z) (list Z)) : M () := saveBtree (kind_of typ) key d.

(** [GetSaveTx]: the item is taken out of the tree, and put back without the
    transactions of the list when [isdel] is set. *)
Definition GetSaveTx (typ key : Z) (hashlist : list (list Z)) (isdel : bool) : M () :=
  let k := kind_of typ in
  do t <- gets (btrie_of k);
  match k, t with
  | NoBtree, _ => saveBtree k key ∅ ;; CommitSaveTx
  | _, None => ret ()
  | _, Some t =>
      do item <- bt_lift (BTree.Get (bt_fuel t) (mkTx key ∅) t);
      match item with
      | None => ret ()
      | Some std =>
          do (t, _) <- bt_lift (BTree.Delete (bt_fuel t) std t);
          modify (set_btrie k t) ;;
          saveBtree k key (if isdel then foldl (fun m h => delete h m) (Value_Tx std) hashlist else ∅) ;;
          CommitSaveTx
      end
  end.

(** [GetBtreeItem] *)
Definition GetBtreeItem (key typ : Z) : M (list SpcialTxData) :=
  do t <- gets (btrie_of (kind_of typ));
  match t with
  | None => ret []
  | Some t => bt_lift (DescendLessOrEqual (bt_fuel t) (mkTx key ∅) (fun a out => (true, out ++ [a])) [] t)
  end.
End Btrees.

(** ** Writing to the tries *)

Section Flush.
Context `{StateStore, HashRange, NodeJson}.

Definition objError {A} (a : list Z) (r : trie_error + A) : M () := change a (setObjError (trieError r)).

(** The slots are written one after the other, and are no longer dirty. *)
Definition flushSlot (a : list Z) (t : handle) (kv : list Z * list Z) : M () :=
  let (key, value) := kv in
  change a (fun o => with_storage (cachedStorage o) (delete key (dirtyStorage o)) o) ;;
  if bool_decide (value = emptyHash) then do r <- call (trie_TryDelete t key); objError a r
  else do r <- call (trie_TryUpdate t key (slotEnc value)); objError a r.

Definition flushBytes (a : list Z) (t : handle) (kv : list Z * list Z) : M () :=
  let (key, value) := kv in
  change a (fun o => with_bytes (cachedBytes o) (delete key (dirtyBytes o)) o) ;;
  if (length value =? 0)%nat then do r <- call (trie_TryDelete t key); objError a r
  else do r <- call (trie_TryUpdate t key value); objError a r.

Definition updateTrie (a : list Z) : M handle :=
  do t <- getTrie a;
  do o <- the a;
  each (hash_range (dirtyStorage o)) (flushSlot a t) ;;
  do o <- the a;
  each (hash_range (dirtyBytes o)) (flushBytes a t) ;;
  ret t.

Definition updateRoot (a : list Z) : M () :=
  do t <- updateTrie a;
  do r <- call (trie_Hash t);
  change a (setRoot r).

(** [CommitTrie]: an error that was remembered, or one of [Commit]. *)
Definition CommitTrie (a : list Z) : M (option state_error) :=
  do t <- updateTrie a;
  do o <- the a;
  match oErr o with
  | Some e => ret (Some e)
  | None =>
      do r <- call (trie_Commit t (fun _ => []));
      match r with
      | inr root => change a (setRoot root) ;; ret None
      | inl e => ret (Some (TrieFailed e))
      end
  end.

(** An account that cannot be encoded panics. *)
Definition updateStateObject (a : list Z) : M () :=
  do o <- the a;
  match encodeAccount (data o) with
  | Ok d =>
      do t <- gets strie;
      do r <- call (trie_TryUpdate t a d);
      modify (setError (trieError r))
  | _ => panic
  end.

Definition deleteStateObject (a : list Z) : M () :=
  change a (fun o => with_flags (suicided o) true o) ;;
  do t <- gets strie;
  do r <- call (trie_TryDelete t a);
  modify (setError (trieError r)).

Definition mark (a : list Z) : M () := modify (fun s => set_dirty ({[a]} ∪ stateObjectsDirty s) s).

(** One round of the loop over the dirty addresses of the journal. *)
Definition finaliseObject (deleteEmptyObjects : bool) (a : list Z) : M () :=
  do objs <- gets stateObjects;
  match objs !! a with
  | None => ret ()
  | Some o =>
      (if suicided o || (deleteEmptyObjects && empty_ o) then deleteStateObject a
       else updateRoot a ;; updateStateObject a) ;;
      mark a
  end.

Definition flushMatrix (kv : list Z * list Z) : M () :=
  let (hash, val) := kv in
  do d <- gets matrixDataDirty;
  if bool_decide (hash ∈ d) then
    updateMatrixData hash val ;;
    modify (fun s => set_matrix (matrixData s) (matrixDataDirty s ∖ {[hash]}) s)
  else ret ().

Definition Finalise (deleteEmptyObjects : bool) : M () :=
  do j <- gets sjournal;
  each (hash_range (dirties j)).*1 (finaliseObject deleteEmptyObjects) ;;
  do m <- gets matrixData;
  each (hash_range m) flushMatrix ;;
  CommitSaveTx ;;
  clearJournalAndRefund.

Definition IntermediateRoot (deleteEmptyObjects : bool) : M (list Z) :=
  Finalise deleteEmptyObjects ;;
  do t <- gets strie;
  call (trie_Hash t).

(** The code of a contract is stored when it was set. *)
Definition commitCode (a : list Z) : M () :=
  do o <- the a;
  match code o with
  | Some c =>
      if dirtyCode o then
        modify (fun s => set_db (db_Insert (BytesToHash (CodeHash (data o))) c (db s)) s) ;;
        change a (fun o => with_code (code o) false o)
      else ret ()
  | None => ret ()
  end.

(** One round over the objects; an error stops [Commit]. *)
Definition commitObject (deleteEmptyObjects : bool) (a : list Z) (o : stateObject handle) : M (option state_error) :=
  do d <- gets stateObjectsDirty;
  let isDirty := bool_decide (a ∈ d) in
  do err <- (if suicided o || (isDirty && deleteEmptyObjects && empty_ o) then deleteStateObject a ;; ret None
             else if isDirty then
               commitCode a ;;
               do err <- CommitTrie a;
               match err with
               | Some e => ret (Some e)
               | None => updateStateObject a ;; ret None
               end
             else ret None);
  match err with
  | Some e => ret (Some e)
  | None => modify (fun s => set_dirty (stateObjectsDirty s ∖ {[a]}) s) ;; ret None
  end.

Fixpoint commitObjects (deleteEmptyObjects : bool) (l : list (list Z * stateObject handle)) : M (option state_error) :=
  match l with
  | [] => ret None
  | (a, o) :: l =>
      do err <- commitObject deleteEmptyObjects a o;
      match err with
      | Some e => ret (Some e)
      | None => commitObjects deleteEmptyObjects l
      end
  end.

(** The hash of an empty string ([emptyState], [emptyCode]). *)
Definition emptyState : list Z := emptyCodeHash.

(** What the callback of [Commit] refers to: the storage and the code of an account. *)
Definition account_links (leaf : list Z) : list (list Z) :=
  match decodeAccount leaf with
  | None => []
  | Some d =>
      (if bool_decide (Root d = emptyState) then [] else [Root d]) ++
      (if bool_decide (BytesToHash (CodeHash d) = emptyState) then [] else [BytesToHash (CodeHash d)])
  end.

(** [Commit]; the journal is cleared in any case. *)
Definition Commit (deleteEmptyObjects : bool) : M (state_error + list Z) :=
  do j <- gets sjournal;
  modify (fun s => set_dirty (dom (dirties j) ∪ stateObjectsDirty s) s) ;;
  do objs <- gets stateObjects;
  do err <- commitObjects deleteEmptyObjects (hash_range objs);
  match err with
  | Some e => clearJournalAndRefund ;; ret (inl e)
  | None =>
      do m <- gets matrixData;
      each (hash_range m) flushMatrix ;;
      CommitSaveTx ;;
      do t <- gets strie;
      do r <- call (trie_Commit t account_links);
      clearJournalAndRefund ;;
      ret (match r with inl e => inl (TrieFailed e) | inr root => inr root end)
  end.

(** ** New states *)

Definition blankState (w : store) (t : handle) : StateDB :=
  mkState w t ∅ ∅ None None [] ∅ ∅ None 0 ∅ 0 ∅ newJournal [] 0.

Definition restoreTree (fuel : nat) (k : btree_kind) : M () :=
  do b <- tryGetMatrixData (RlpHash (kind_name k));
  match b with
  | None => ret ()
  | Some b =>
      NewBTrie k ;;
      do t <- gets (btrie_of k);
      match t with
      | None => panic
      | Some t => do t <- RestoreBtree fuel (BytesToHash b) t; modify (set_btrie k t)
      end
  end.

(** [newStatedb] *)
Definition newStatedb (fuel : nat) (root : list Z) (w : store) : eff ((trie_error + StateDB) * store) :=
  let* (r, w) := OpenTrie root w in
  match r with
  | inl e => Ok (inl e, w)
  | inr t =>
      let* (_, s) := (restoreTree fuel RevcBTree ;; restoreTree fuel TimeBtree) (blankState w t) in
      Ok (inr s, db s)
  end.

(** [Reset]: the B-trees stay. *)
Definition Reset (root : list Z) : M (option trie_error) :=
  do r <- call (OpenTrie root);
  match r with
  | inl e => ret (Some e)
  | inr t =>
      modify (fun s => mkState (db s) t ∅ ∅ (revocablebtrie s) (timebtrie s) [] ∅ ∅ (dbErr s) (refund s) ∅ 0 ∅ (sjournal s)
                         (validRevisions s) (nextRevisionId s)) ;;
      clearJournalAndRefund ;;
      ret None
  end.
End Flush.
