(* ===== verification/StateSpec.v ===== *)
(** * What the state means

    A state stands for accounts, whatever of them is loaded, cached or only in the
    tries: [abs s A].  The operations on such an abstract state are plain functions,
    and a snapshot is a copy of it. *)

From S2P Require Import Rlp RlpCodec Sponge TrieDatabase Trie TrieSpec BTree BTreeMap StateObject StateStore StateDB Prelude.

#[local] Set Warnings "-register-all".
#[local] Open Scope state_scope.

(** ** Abstract states *)

(** The storage is the map that the trie of the account holds when everything is
    written to it. *)
Record aacct := mkA {
  a_nonce : Z;
  a_balance : BalanceType;
  a_codehash : list Z;
  a_code : list Z;
  a_store : bmap;
  a_suicided : bool
}.

Record astate := mkAS {
  accts : list Z -> option aacct;
  a_refund : Z;
  a_logs : gmap (list Z) (list Log);
  a_logSize : Z;
  a_preimages : gmap (list Z) (list Z);
  a_matrix : list Z -> option (list Z);
  a_btrees : option BTree * option BTree * list BtreeDietyStruct
}.

Definition upd {A} (k : list Z) (x : A) (f : list Z -> A) : list Z -> A := fun k' => if decide (k' = k) then x else f k'.

Lemma upd_eq {A} k (x : A) f : upd k x f k = x.
Proof. unfold upd. by rewrite decide_True. Qed.

Lemma upd_ne {A} k k' (x : A) f : k' <> k -> upd k x f k' = f k'.
Proof. intros Hne. unfold upd. by rewrite decide_False. Qed.

Definition set_accts (f : list Z -> option aacct) (A : astate) : astate :=
  mkAS f (a_refund A) (a_logs A) (a_logSize A) (a_preimages A) (a_matrix A) (a_btrees A).

Definition set_acct (addr : list Z) (a : aacct) (A : astate) : astate := set_accts (upd addr (Some a) (accts A)) A.

Definition fresh_acct : aacct := mkA NonceAddOne zeroBalance emptyCodeHash [] ∅ false.

Definition acct_or_new (addr : list Z) (A : astate) : aacct := default fresh_acct (accts A addr).

Definition a_set_nonce (n : Z) (a : aacct) : aacct :=
  mkA n (a_balance a) (a_codehash a) (a_code a) (a_store a) (a_suicided a).

Definition a_set_balance (b : BalanceType) (a : aacct) : aacct :=
  mkA (a_nonce a) b (a_codehash a) (a_code a) (a_store a) (a_suicided a).

Definition a_set_code (h c : list Z) (a : aacct) : aacct :=
  mkA (a_nonce a) (a_balance a) h c (a_store a) (a_suicided a).

Definition a_set_store (m : bmap) (a : aacct) : aacct :=
  mkA (a_nonce a) (a_balance a) (a_codehash a) (a_code a) m (a_suicided a).

(** ** Entries of storage tries *)

(** The entry for a value: an empty one has none. *)
Definition entry (v : list Z) : option (list Z) := match v with [] => None | _ => Some v end.

Lemma map_update_lookup k k' v m : map_update k v m !! k' = if decide (k' = k) then entry v else m !! k'.
Proof.
  unfold map_update. case_decide as E; [subst|].
  - case_bool_decide as Ev; [subst; apply lookup_delete_eq|]. rewrite lookup_insert_eq. by destruct v.
  - case_bool_decide; [by rewrite lookup_delete_ne|by rewrite lookup_insert_ne].
Qed.

(** What is written for a slot: nothing for zero. *)
Definition slotBytes (v : list Z) : list Z := if bool_decide (v = emptyHash) then [] else slotEnc v.

Definition hash32 (v : list Z) : Prop := Forall is_u8 v /\ length v = 32%nat.

(** ** States and what they stand for *)

Section Meaning.
Context `{StateLaws, !Keys}.

#[local] Abbreviation obj := (stateObject handle).

Definition value_at (m : bmap) (k : list Z) : list Z := default [] (m !! place k).

(** A slot that is not the encoding of bytes has no value. *)
Definition slotval (m : bmap) (k : list Z) : option (list Z) :=
  match slotValue (value_at m k) with
  | Ok (None, v) => Some v
  | _ => None
  end.

(** The entries of the storage trie of an object. *)
Definition obj_view (w : store) (o : obj) (m : bmap) : Prop :=
  match otrie o with
  | Some t => has w t m
  | None => kept w (Root (data o)) m
  end.

(** Code that was loaded or set; code that was set has to be stored. *)
Definition code_view (w : store) (o : obj) (c : list Z) : Prop :=
  match code o with
  | Some c' => c = c' /\ (dirtyCode o = false -> coded w (CodeHash (data o)) c)
  | None => if decide (CodeHash (data o) = emptyCodeHash) then c = [] else coded w (CodeHash (data o)) c
  end.

(** What has to be written to the trie. *)
Definition pending (o : obj) (k : list Z) : option (list Z) :=
  match dirtyStorage o !! k with
  | Some v => Some (slotBytes v)
  | None => dirtyBytes o !! k
  end.

(** [st] is [m] with what is pending. *)
Definition shown (o : obj) (m st : bmap) : Prop :=
  (forall k v, pending o k = Some v -> st !! place k = entry v) /\
  (forall p, (forall k, place k = p -> pending o k = None) -> st !! p = m !! p).

(** What is cached is right, and what is dirty is cached. *)
Record cached_ok (o : obj) (st : bmap) : Prop := {
  c_slot : forall k v, cachedStorage o !! k = Some v -> Slot k /\ slotval st k = Some v;
  c_bytes : forall k v, cachedBytes o !! k = Some v -> Raw k /\ value_at st k = v;
  d_slot : forall k v, dirtyStorage o !! k = Some v -> cachedStorage o !! k = Some v /\ hash32 v;
  d_bytes : forall k v, dirtyBytes o !! k = Some v -> cachedBytes o !! k = Some v /\ Forall is_u8 v
}.

Record obj_abs (w : store) (o : obj) (a : aacct) : Prop := {
  oa_nonce : Nonce (data o) = a_nonce a;
  oa_balance : Balance (data o) = a_balance a;
  oa_codehash : CodeHash (data o) = a_codehash a;
  oa_hash : keccak256 (a_code a) = a_codehash a;
  oa_code : code_view w o (a_code a);
  oa_storage : exists m, obj_view w o m /\ shown o m (a_store a);
  oa_cached : cached_ok o (a_store a);
  oa_suicided : suicided o = a_suicided a;
  oa_err : oErr o = None;
  oa_live : deleted o = false
}.

(** An account that is not in use. *)
Definition unused (w : store) (M : bmap) (addr : list Z) (oa : option aacct) : Prop :=
  match value_at M addr with
  | [] => oa = None
  | enc => match decodeAccount enc with
           | None => oa = None
           | Some d => exists a, oa = Some a /\ obj_abs w (newObject addr (Some d)) a
           end
  end.

Definition view (w : store) (objs : gmap (list Z) obj) (M : bmap) (addr : list Z) (oa : option aacct) : Prop :=
  match objs !! addr with
  | Some o =>
      address o = addr /\
      if deleted o then oa = None /\ value_at M addr = [] else exists a, oa = Some a /\ obj_abs w o a
  | None => unused w M addr oa
  end.

(** Data of the chain in the trie; a value that is too short has none. *)
Definition stored_at (M : bmap) (h : list Z) : option (list Z) :=
  match value_at M h with
  | [] => Some []
  | v => match stripPrefix v with Ok v => Some v | _ => None end
  end.

Definition mview (s : StateDB) (M : bmap) (h : list Z) (ov : option (list Z)) : Prop :=
  match matrixData s !! h with
  | Some v => ov = Some v /\ if decide (h ∈ matrixDataDirty s) then Forall is_u8 v else stored_at M h = Some v
  | None => ~ (h ∈ matrixDataDirty s) /\ stored_at M h = ov
  end.

Record abs (s : StateDB) (A : astate) : Prop := {
  abs_healthy : healthy (db s);
  abs_trie : exists M, has (db s) (strie s) M /\
    (forall addr, Addr addr -> view (db s) (stateObjects s) M addr (accts A addr)) /\
    (forall h, Mat h -> mview s M h (a_matrix A h));
  abs_refund : refund s = a_refund A;
  abs_logs : logs s = a_logs A;
  abs_logSize : logSize s = a_logSize A;
  abs_preimages : spreimages s = a_preimages A;
  abs_btrees : (revocablebtrie s, timebtrie s, btreeMap s) = a_btrees A;
  abs_err : dbErr s = None
}.

(** ** Later stores keep the meaning *)

(** The trie of an object is not lost. *)
Definition spared (X : handle -> Prop) (o : obj) : Prop := forall t, otrie o = Some t -> ~ X t.

Lemma spared_none o : spared none o.
Proof. by intros t _ []. Qed.

Lemma obj_view_later X w w' o m : later X w w' -> spared X o -> obj_view w o m -> obj_view w' o m.
Proof.
  intros Hl Hx. unfold obj_view. destruct (otrie o) as [t|] eqn:E; [|by apply (later_kept _ _ _ Hl)].
  intros Hm. destruct (later_has _ _ _ Hl t m Hm) as [?|?]; [|done]. by destruct (Hx t E).
Qed.

Lemma code_view_later X w w' o c : later X w w' -> code_view w o c -> code_view w' o c.
Proof.
  intros Hl. unfold code_view. destruct (code o).
  - intros [-> Hc]. split; [done|]. intros Hd. by apply (later_coded _ _ _ Hl), Hc.
  - destruct (decide _); [done|]. apply (later_coded _ _ _ Hl).
Qed.

Lemma obj_abs_later_but X w w' o a : later X w w' -> spared X o -> obj_abs w o a -> obj_abs w' o a.
Proof.
  intros Hl Hx []. constructor; try done; [by eapply code_view_later|]. destruct oa_storage0 as (m & Hm & ?). exists m.
  split; [by eapply obj_view_later|done].
Qed.

Lemma obj_abs_later w w' o a : later none w w' -> obj_abs w o a -> obj_abs w' o a.
Proof. intros Hl. eapply obj_abs_later_but; [done|apply spared_none]. Qed.

Lemma unused_later X w w' M addr oa : later X w w' -> unused w M addr oa -> unused w' M addr oa.
Proof.
  intros Hl. unfold unused. destruct (value_at M addr); [done|]. destruct (decodeAccount _) as [d|]; [|done].
  intros (a & -> & Ha). exists a. split; [done|by eapply obj_abs_later_but].
Qed.

Lemma view_later X w w' objs M addr oa :
  later X w w' -> (forall o, objs !! addr = Some o -> spared X o) -> view w objs M addr oa -> view w' objs M addr oa.
Proof.
  intros Hl Hx. unfold view. destruct (objs !! addr) as [o|]; [|by eapply unused_later]. intros [Ha Hv]. split; [done|].
  destruct (deleted o); [done|]. destruct Hv as (a & -> & Hv). exists a. split; [done|]. eapply obj_abs_later_but; [done|auto|done].
Qed.

(** A store that is later. *)
Lemma abs_set_db s w A : later none (db s) w -> abs s A -> abs (set_db w s) A.
Proof.
  intros Hl []. split; try done; [by apply (later_healthy _ _ _ Hl)|]. destruct abs_trie0 as (M & HM & Hv & Hm). exists M.
  split; [by eapply later_keeps_has|]. split; [|done]. intros addr Hu. cbn.
  eapply view_later; [done|intros; apply spared_none|by apply Hv].
Qed.
End Meaning.
