(* ===== verification/StateStorage.v ===== *)
(** * The storage of an account

    What is written to a slot or to a byte array is kept in memory first; the trie of
    the account gets it at the end of the transaction. *)

From S2P Require Import Rlp RlpCodec RlpEncoding Sponge TrieDatabase Trie TrieSpec BTree BTreeMap StateObject StateStore StateDB StateSpec Prelude.

#[local] Set Warnings "-register-all".

(** ** The encoding of slots *)

Lemma trimLeft_zeros v : exists n, v = replicate n 0 ++ trimLeft v.
Proof.
  induction v as [|x v [n IH]]; [by exists 0%nat|]. destruct x as [|p|p]; [|by exists 0%nat..]. exists (S n). cbn. by rewrite <- IH.
Qed.

Lemma trimLeft_u8 v : Forall is_u8 v -> Forall is_u8 (trimLeft v).
Proof. destruct (trimLeft_zeros v) as [n E]. intros Hv. rewrite E in Hv. by apply Forall_app in Hv as [_ ?]. Qed.

Lemma str_enc_short c :
  Forall is_u8 c -> (length c < 56)%nat -> Forall is_u8 (str_enc c) /\ (length (str_enc c) <= S (length c))%nat.
Proof.
  intros Hc Hl. assert (forall n, (n < 56)%nat -> puthead 0x80 0xB7 (Z.of_nat n) = [u8 (0x80 + u8 (Z.of_nat n))]) as Hp.
  { intros n Hn. unfold puthead. by rewrite (proj2 (Z.ltb_lt _ _)) by lia. }
  assert (forall x, is_u8 (u8 x)) as Hx by (intros x; apply Z.mod_pos_bound; lia).
  unfold str_enc. destruct c as [|x [|y c]].
  - rewrite (Hp (@length Z [])) by (cbn; lia). split; [by repeat constructor|cbn; lia].
  - destruct (x <=? 0x7F); [by split; [|cbn; lia]|]. change 1 with (Z.of_nat 1); rewrite (Hp 1%nat) by lia. split; [by constructor|cbn; lia].
  - rewrite Hp by done. split; [by constructor|done].
Qed.

Lemma slotEnc_token v : hash32 v -> exists k, slotEnc v = token k (trimLeft v) /\ token_ok k (trimLeft v) /\ Forall is_u8 (slotEnc v) /\ fits (slotEnc v).
Proof.
  intros [Hu Hl]. unfold slotEnc. destruct (trimLeft_zeros v) as [n E].
  assert (length v = n + length (trimLeft v))%nat as El by (rewrite E at 1; by rewrite length_app, length_replicate).
  destruct (str_enc_short (trimLeft v)) as [Hu' Hl']; [by apply trimLeft_u8|lia|].
  rewrite (EncodeToBytes_ok TBytes (VBytes (trimLeft v)) (str_enc (trimLeft v))); [..|].
  - assert (fits (str_enc (trimLeft v))) as Hf by (unfold fits; lia).
    destruct (trimLeft v) as [|x [|y l]] eqn:Et; [by exists String_| |by exists String_].
    destruct (decide (x < 0x80)); [exists Byte|exists String_]; (split; [done|]; split; [|done]); [by exists x|].
    intros x' [= <-]. lia.
  - cbn. by apply trimLeft_u8.
  - cbn. by rewrite app_nil_r.
  - unfold fits. lia.
Qed.

(** A slot is read as it was written. *)
Lemma slot_roundtrip v : hash32 v -> slotValue (slotBytes v) = Ok (None, v).
Proof.
  intros Hv. unfold slotBytes. case_bool_decide as E; [by subst|]. destruct (slotEnc_token v Hv) as (k & Ek & Hok & Hu & Hf).
  unfold slotValue. rewrite (proj2 (Split_iff (slotEnc v) k (trimLeft v) [] Hu Hf)) by by rewrite app_nil_r.
  rewrite (proj2 (Nat.ltb_lt _ _)).
  - do 2 f_equal. destruct (trimLeft_zeros v) as [n En]. destruct Hv as [_ Hl].
    assert (32 = n + length (trimLeft v))%nat as El by (rewrite <- Hl; rewrite En at 1; by rewrite length_app, length_replicate).
    unfold BytesToHash. replace (length (trimLeft v) - 32)%nat with 0%nat by lia. rewrite drop_0.
    by replace (32 - length (trimLeft v))%nat with n by lia.
  - rewrite Ek. pose proof (token_ne _ _ Hok). destruct (token _ _); [done|cbn; lia].
Qed.

Lemma slotEnc_ne v : hash32 v -> slotEnc v <> [].
Proof. intros Hv. destruct (slotEnc_token v Hv) as (k & -> & Hok & _). by apply token_ne. Qed.

Lemma slotBytes_u8 v : hash32 v -> Forall is_u8 (slotBytes v).
Proof. intros Hv. unfold slotBytes. case_bool_decide; [constructor|]. by destruct (slotEnc_token v Hv) as (? & _ & _ & ? & _). Qed.

(** ** Pending writes *)

Section Storage.
Context `{StateLaws, !Keys}.

#[local] Abbreviation obj := (stateObject handle).

Lemma entry_default v : default [] (entry v) = v.
Proof. by destruct v. Qed.

Lemma value_at_update m k k' v :
  Slot k \/ Raw k -> Slot k' \/ Raw k' -> value_at (map_update (place k) v m) k' = if decide (k' = k) then v else value_at m k'.
Proof.
  intros Hk Hk'. unfold value_at. rewrite map_update_lookup. case_decide as E.
  - apply storage_place in E; [|done..]. rewrite decide_True by done. apply entry_default.
  - rewrite decide_False; [done|]. by intros ->.
Qed.

Lemma slotval_update m k k' v :
  Slot k \/ Raw k -> Slot k' -> k' <> k -> slotval (map_update (place k) v m) k' = slotval m k'.
Proof. intros Hk Hk' Hne. unfold slotval. by rewrite value_at_update, decide_False by auto. Qed.

(** A map without empty values is restored by writing the old value. *)
Lemma map_update_back (p x : list Z) (m : bmap) : filled m -> map_update p (default [] (m !! p)) (map_update p x m) = m.
Proof.
  intros Hm. apply map_eq. intros q. rewrite !map_update_lookup. case_decide as E; [subst|done].
  destruct (m !! p) as [v|] eqn:Ep; [|done]. apply Hm in Ep. by destruct v.
Qed.

Lemma pending_key (o : obj) st k v : cached_ok o st -> pending o k = Some v -> Slot k \/ Raw k.
Proof.
  intros Hc. unfold pending. destruct (dirtyStorage o !! k) as [v'|] eqn:E.
  - left. apply (d_slot _ _ Hc) in E as [E _]. by apply (c_slot _ _ Hc) in E as [? _].
  - intros Eb. right. apply (d_bytes _ _ Hc) in Eb as [Eb _]. by apply (c_bytes _ _ Hc) in Eb as [? _].
Qed.

Lemma shown_write (o o' : obj) m st k x :
  cached_ok o st -> Slot k \/ Raw k -> (forall k', pending o' k' = if decide (k' = k) then Some x else pending o k') ->
  shown o m st -> shown o' m (map_update (place k) x st).
Proof.
  intros Hc Hk Hp [Hd Hr]. split.
  - intros k' v. rewrite Hp, map_update_lookup. case_decide as E; [subst; intros [= <-]; by rewrite decide_True|].
    intros Hv. rewrite decide_False; [auto|]. intros Epl. apply E. eapply storage_place; eauto using pending_key.
  - intros p Hn. rewrite map_update_lookup. case_decide as E.
    + subst. specialize (Hn k eq_refl). by rewrite Hp, decide_True in Hn.
    + apply Hr. intros k' Hk'. specialize (Hn k' Hk'). rewrite Hp in Hn. by case_decide.
Qed.

Lemma shown_flush (o o' : obj) m st k x :
  pending o k = Some x -> (forall k', pending o' k' = if decide (k' = k) then None else pending o k') ->
  shown o m st -> shown o' (map_update (place k) x m) st.
Proof.
  intros Hx Hp [Hd Hr]. split.
  - intros k' v. rewrite Hp. case_decide; [done|]. apply Hd.
  - intros p Hn. rewrite map_update_lookup. case_decide as E; [subst; by apply Hd|]. apply Hr. intros k' Hk'.
    specialize (Hn k' Hk'). rewrite Hp in Hn. case_decide; [congruence|done].
Qed.

(** Nothing is pending any more. *)
Lemma shown_done (o : obj) m st : (forall k, pending o k = None) -> shown o m st -> m = st.
Proof. intros Hn [_ Hr]. apply map_eq. intros p. symmetry. apply Hr. auto. Qed.

Lemma shown_same (o o' : obj) m st : (forall k, pending o' k = pending o k) -> shown o m st -> shown o' m st.
Proof. intros E [Hd Hr]. split; [intros k v; rewrite E; apply Hd|]. intros p Hn. apply Hr. intros k Hk. by rewrite <- E, Hn. Qed.

(** ** Caches *)

Lemma setState_cached (o : obj) st k v :
  cached_ok o st -> Slot k -> hash32 v -> cached_ok (setState k v o) (map_update (place k) (slotBytes v) st).
Proof.
  intros Hc Hk Hv. split; cbn; intros k' v'.
  - rewrite lookup_insert_Some. intros [[<- <-]|[Hne E]].
    + split; [done|]. unfold slotval. rewrite value_at_update, decide_True, slot_roundtrip by auto. done.
    + apply (c_slot _ _ Hc) in E as [? ?]. by rewrite slotval_update by auto.
  - intros E. apply (c_bytes _ _ Hc) in E as [Hr ?]. split; [done|]. rewrite value_at_update by auto.
    rewrite decide_False; [done|]. intros ->. by apply (Slot_not_Raw k).
  - rewrite !lookup_insert_Some. intros [[<- <-]|[Hne E]]; [auto|]. apply (d_slot _ _ Hc) in E as [? ?]. auto.
  - apply (d_bytes _ _ Hc).
Qed.

Lemma setBytes_cached (o : obj) st k v :
  cached_ok o st -> Raw k -> Forall is_u8 v -> cached_ok (setStateByteArray k v o) (map_update (place k) v st).
Proof.
  intros Hc Hk Hv. split; cbn; intros k' v'.
  - intros E. apply (c_slot _ _ Hc) in E as [Hs ?]. split; [done|]. rewrite slotval_update; [done|auto..|].
    intros ->. by apply (Slot_not_Raw k).
  - rewrite lookup_insert_Some. intros [[<- <-]|[Hne E]].
    + split; [done|]. by rewrite value_at_update, decide_True by auto.
    + apply (c_bytes _ _ Hc) in E as [? ?]. split; [done|]. by rewrite value_at_update, decide_False by auto.
  - apply (d_slot _ _ Hc).
  - rewrite !lookup_insert_Some. intros [[<- <-]|[Hne E]]; [auto|]. apply (d_bytes _ _ Hc) in E as [? ?]. auto.
Qed.

Lemma not_dirty_slot (o : obj) st k : cached_ok o st -> cachedStorage o !! k = None -> dirtyStorage o !! k = None.
Proof. intros Hd Hc. destruct (dirtyStorage o !! k) as [v|] eqn:E; [|done]. apply (d_slot _ _ Hd) in E as [? _]. congruence. Qed.

Lemma not_dirty_bytes (o : obj) st k : cached_ok o st -> cachedBytes o !! k = None -> dirtyBytes o !! k = None.
Proof. intros Hd Hc. destruct (dirtyBytes o !! k) as [v|] eqn:E; [|done]. apply (d_bytes _ _ Hd) in E as [? _]. congruence. Qed.

Lemma raw_not_dirty_slot (o : obj) st k : cached_ok o st -> Raw k -> dirtyStorage o !! k = None.
Proof.
  intros Hd Hk. destruct (dirtyStorage o !! k) as [v|] eqn:E; [|done]. apply (d_slot _ _ Hd) in E as [E _].
  apply (c_slot _ _ Hd) in E as [? _]. by destruct (Slot_not_Raw k).
Qed.

Lemma slot_not_dirty_bytes (o : obj) st k : cached_ok o st -> Slot k -> dirtyBytes o !! k = None.
Proof.
  intros Hd Hk. destruct (dirtyBytes o !! k) as [v|] eqn:E; [|done]. apply (d_bytes _ _ Hd) in E as [E _].
  apply (c_bytes _ _ Hd) in E as [? _]. by destruct (Slot_not_Raw k).
Qed.

(** What is not pending is in the trie. *)
Lemma shown_value (o : obj) m st k : cached_ok o st -> shown o m st -> Slot k \/ Raw k -> pending o k = None -> value_at m k = value_at st k.
Proof.
  intros Hc [_ Hr] Hk Hn. unfold value_at. rewrite (Hr (place k)); [done|]. intros k' Ep.
  destruct (pending o k') as [v|] eqn:E; [|done]. rewrite <- E. by rewrite (storage_place k' k) by eauto using pending_key.
Qed.

Lemma pending_setState (o : obj) k v k' : pending (setState k v o) k' = if decide (k' = k) then Some (slotBytes v) else pending o k'.
Proof.
  unfold pending. cbn. case_decide as E; [subst; by rewrite lookup_insert_eq|]. by rewrite lookup_insert_ne.
Qed.

Lemma pending_setBytes (o : obj) st k v k' :
  cached_ok o st -> Raw k -> pending (setStateByteArray k v o) k' = if decide (k' = k) then Some v else pending o k'.
Proof.
  intros Hc Hk. unfold pending. cbn. case_decide as E.
  - subst. by rewrite (raw_not_dirty_slot o st k), lookup_insert_eq.
  - by rewrite lookup_insert_ne.
Qed.

(** A value that is read is cached. *)
Lemma cache_slot_ok (o : obj) st k v :
  cached_ok o st -> Slot k -> cachedStorage o !! k = None -> slotval st k = Some v ->
  cached_ok (with_storage (<[k := v]> (cachedStorage o)) (dirtyStorage o) o) st.
Proof.
  intros Hc Hk Ec Ev. split; cbn; intros k' v'.
  - rewrite lookup_insert_Some. intros [[<- <-]|[_ E]]; [done|by apply (c_slot _ _ Hc)].
  - apply (c_bytes _ _ Hc).
  - intros E. pose proof (d_slot _ _ Hc _ _ E) as [E' ?]. split; [|done]. rewrite lookup_insert_ne; congruence.
  - apply (d_bytes _ _ Hc).
Qed.

Lemma cache_bytes_ok (o : obj) st k :
  cached_ok o st -> Raw k -> cachedBytes o !! k = None ->
  cached_ok (with_bytes (<[k := value_at st k]> (cachedBytes o)) (dirtyBytes o) o) st.
Proof.
  intros Hc Hk Ec. split; cbn; intros k' v'.
  - apply (c_slot _ _ Hc).
  - rewrite lookup_insert_Some. intros [[<- <-]|[_ E]]; [done|by apply (c_bytes _ _ Hc)].
  - apply (d_slot _ _ Hc).
  - intros E. pose proof (d_bytes _ _ Hc _ _ E) as [E' ?]. split; [|done]. rewrite lookup_insert_ne; congruence.
Qed.
End Storage.
