(* ===== verification/StateJournal.v ===== *)
(** * The journal takes changes back

    An object that is in use, or that the journal keeps, has a trie of its own: no
    other object writes to it, and it is not the trie of the state.

    Every operation notes in the journal how it is taken back.  A trail is a list of
    entries that leads from an abstract state back to an earlier one. *)

From S2P Require Import Rlp RlpCodec Sponge TrieDatabase Trie TrieSpec BTree BTreeMap StateObject StateStore StateDB StateSpec Prelude.

#[local] Set Warnings "-register-all".
#[local] Open Scope state_scope.

(** ** Which tries belong to whom *)

Section Own.
Context `{StateLaws, !Keys}.

#[local] Abbreviation obj := (stateObject handle).

Definition known (s : StateDB) (o : obj) : Prop :=
  (exists a, stateObjects s !! a = Some o) \/ resetObjectChange o ∈ entries (sjournal s).

(** [de] is the flag of [Finalise] and [Commit].  An object that is deleted is one
    they delete again. *)
Record tidy (de : bool) (s : StateDB) : Prop := {
  ti_home : forall a o, stateObjects s !! a = Some o -> address o = a /\ Addr a;
  ti_gone : forall a o, stateObjects s !! a = Some o -> deleted o = true -> suicided o || (de && empty_ o) = true;
  ti_kept : forall o, resetObjectChange o ∈ entries (sjournal s) -> Addr (address o) /\ deleted o = false;
  ti_valid : forall o t, known s o -> otrie o = Some t -> valid (db s) t /\ ~ alias t (strie s);
  ti_apart : forall o1 o2 t1 t2, known s o1 -> known s o2 -> address o1 <> address o2 ->
    otrie o1 = Some t1 -> otrie o2 = Some t2 -> ~ alias t1 t2;
  ti_matrix : forall h v, matrixData s !! h = Some v -> Mat h;
  ti_main : main (strie s)
}.

(** The addresses that are marked have objects. *)
Definition marked (s : StateDB) : Prop := forall a, a ∈ stateObjectsDirty s -> is_Some (stateObjects s !! a).

(** The object has the trie of one that was known before, if it has one. *)
Definition descends (s : StateDB) (o' : obj) : Prop :=
  otrie o' = None \/ exists o, known s o /\ address o = address o' /\ otrie o = otrie o'.

Lemma known_descends s o : known s o -> descends s o.
Proof. intros Ho. right. by exists o. Qed.

Record inherits (s s' : StateDB) : Prop := {
  in_objects : forall a o', stateObjects s' !! a = Some o' ->
    stateObjects s !! a = Some o' \/ address o' = a /\ Addr a /\ deleted o' = false /\ descends s o';
  in_journal : forall o, resetObjectChange o ∈ entries (sjournal s') ->
    resetObjectChange o ∈ entries (sjournal s) \/ (exists a, stateObjects s !! a = Some o) /\ deleted o = false;
  in_matrix : forall h v, matrixData s' !! h = Some v -> matrixData s !! h = Some v \/ Mat h;
  in_marked : forall a, a ∈ stateObjectsDirty s' ->
    is_Some (stateObjects s' !! a) \/ a ∈ stateObjectsDirty s /\ (is_Some (stateObjects s !! a) -> is_Some (stateObjects s' !! a))
}.

Lemma inherits_known s s' o : inherits s s' -> known s' o -> descends s o.
Proof.
  intros [Ho Hj _ _] [(a & E)|E].
  - destruct (Ho a o E) as [E'|(_ & _ & _ & ?)]; [|done]. apply known_descends. left. by exists a.
  - apply known_descends. destruct (Hj o E) as [?|[(a & ?) _]]; [by right|left; by exists a].
Qed.

Lemma valid_later w w' t : later none w w' -> valid w t -> valid w' t.
Proof. intros Hl (m & Hm). exists m. by eapply later_keeps_has. Qed.

Lemma tidy_valid de s s' :
  (forall t, valid (db s) t -> valid (db s') t) -> strie s' = strie s -> inherits s s' -> tidy de s -> tidy de s'.
Proof.
  intros Hl Et Hi Ht. pose proof (fun o => inherits_known s s' o Hi) as Hk. destruct Ht, Hi. split.
  - intros a o E. destruct (in_objects0 a o E) as [?|(? & ? & _)]; auto.
  - intros a o E Hd. destruct (in_objects0 a o E) as [E'|(_ & _ & ? & _)]; [|congruence]. by apply (ti_gone0 a o).
  - intros o E. destruct (in_journal0 o E) as [?|[(a & ?) ?]]; [auto|]. destruct (ti_home0 a o); [done|]. by subst.
  - intros o t Ho Eo. rewrite Et. destruct (Hk o Ho) as [?|(o1 & Ho1 & _ & E1)]; [congruence|].
    destruct (ti_valid0 o1 t Ho1) as [? ?]; [congruence|]. auto.
  - intros o1 o2 t1 t2 Ho1 Ho2 Ha E1 E2. destruct (Hk o1 Ho1) as [?|(o1' & Hk1 & Ea1 & Et1)]; [congruence|].
    destruct (Hk o2 Ho2) as [?|(o2' & Hk2 & Ea2 & Et2)]; [congruence|].
    apply (ti_apart0 o1' o2'); [done..|congruence|congruence|congruence].
  - intros h v E. destruct (in_matrix0 h v E); eauto.
  - by rewrite Et.
Qed.

Lemma marked_inherits s s' : inherits s s' -> marked s -> marked s'.
Proof. intros [] Hm a Ha. destruct (in_marked0 a Ha) as [?|[? Hi]]; auto. Qed.

Lemma tidy_inherits de s s' :
  later none (db s) (db s') -> strie s' = strie s -> inherits s s' -> tidy de s -> tidy de s'.
Proof. intros Hl. apply tidy_valid. intros t. by apply valid_later. Qed.

(** A trie was written to. *)
Lemma valid_written w w' t t' m : later (alias t) w w' -> has w' t m -> valid w t' -> valid w' t'.
Proof.
  intros Hl Hm (m' & Hm'). destruct (later_has _ _ _ Hl t' m' Hm') as [Ha|?]; [|by exists m']. exists m. by eapply has_alias.
Qed.

(** Nothing but the store has changed, or an object was replaced. *)
Lemma inherits_same s s' :
  stateObjects s' = stateObjects s -> stateObjectsDirty s' = stateObjectsDirty s -> matrixData s' = matrixData s ->
  (forall o, resetObjectChange o ∈ entries (sjournal s') -> resetObjectChange o ∈ entries (sjournal s)) -> inherits s s'.
Proof.
  intros Eo Ed Em Hj. split; [intros a o'|intros o|intros h v|intros a]; rewrite ?Eo, ?Ed, ?Em; auto.
Qed.

Lemma inherits_insert s s' addr o' :
  stateObjects s' = <[addr := o']> (stateObjects s) -> stateObjectsDirty s' = stateObjectsDirty s -> matrixData s' = matrixData s ->
  address o' = addr -> Addr addr -> deleted o' = false -> descends s o' ->
  (forall o, resetObjectChange o ∈ entries (sjournal s') ->
     resetObjectChange o ∈ entries (sjournal s) \/ (exists a, stateObjects s !! a = Some o) /\ deleted o = false) ->
  inherits s s'.
Proof.
  intros Eo Ed Em Had Hu Hdl Hd Hj. split; [|done|intros h v; rewrite Em; auto|].
  - intros a o1. rewrite Eo, lookup_insert_Some. intros [[<- <-]|[_ E]]; auto.
  - intros a. rewrite Eo, Ed. intros Hm. right. split; [done|]. rewrite lookup_insert_is_Some'. auto.
Qed.

(** A trie is opened for an object. *)
Lemma tidy_opened de s w addr o t m :
  stateObjects s !! addr = Some o -> deleted o = false -> later none (db s) w -> has w t m ->
  (forall t' m', has (db s) t' m' -> ~ alias t t') -> valid (db s) (strie s) -> tidy de s ->
  tidy de (set_objects (<[addr := with_trie t o]> (stateObjects s)) (set_db w s)).
Proof.
  intros Eo Hdl Hl Hm Hf Hs Ht. pose proof Ht as [].
  assert (forall o', known (set_objects (<[addr := with_trie t o]> (stateObjects s)) (set_db w s)) o' ->
            o' = with_trie t o \/ known s o') as Hk.
  { intros o' [(a & E)|E]; [|right; by right]. cbn in E. apply lookup_insert_Some in E as [[_ <-]|[_ E]]; [by left|].
    right. left. by exists a. }
  assert (forall t', valid (db s) t' -> ~ alias t t') as Hf' by (intros t' (m' & Hm'); by eapply Hf).
  destruct (ti_home0 addr o Eo) as [Had Hu]. split; cbn; [| |done| | |done|done].
  - intros a o'. rewrite lookup_insert_Some. intros [[<- <-]|[_ E]]; auto.
  - intros a o'. rewrite lookup_insert_Some. intros [[<- <-]|[_ E]]; [cbn; congruence|by eapply ti_gone0].
  - intros o' t' Ho' Et'. destruct (Hk o' Ho') as [->|Ho].
    + cbn in Et'. injection Et' as <-. split; [by exists m|auto].
    + destruct (ti_valid0 o' t' Ho Et'). split; [by eapply valid_later|done].
  - intros o1 o2 t1 t2 Ho1 Ho2 Ha E1 E2. destruct (Hk o1 Ho1) as [->|Hk1], (Hk o2 Ho2) as [->|Hk2]; cbn in *.
    + done.
    + injection E1 as <-. apply Hf'. by eapply ti_valid0.
    + injection E2 as <-. intros Hal. apply (Hf' t1); [by eapply ti_valid0|]. by symmetry.
    + by eapply (ti_apart0 o1 o2).
Qed.
End Own.

(** ** Counting dirty addresses *)

(** But for one address, which [touch] counts twice. *)
Definition same_dirty (d d' : gmap (list Z) Z) : Prop := forall a, a <> ripemd -> d !! a = d' !! a.

Definition positive_counts (d : gmap (list Z) Z) : Prop := forall a n, a <> ripemd -> d !! a = Some n -> 0 < n.

#[export] Instance same_dirty_equiv : Equivalence same_dirty.
Proof.
  split.
  - by intros d a.
  - intros d d' Hd a Ha. by rewrite Hd.
  - intros d1 d2 d3 H1 H2 a Ha. by rewrite H1, H2.
Qed.

Lemma dirty_more_lookup a b d : dirty_more a d !! b = if decide (b = a) then Some (default 0 (d !! a) + 1) else d !! b.
Proof. unfold dirty_more. case_decide as E; [subst; apply lookup_insert_eq|]. by rewrite lookup_insert_ne. Qed.

Lemma dirty_less_lookup a b d :
  dirty_less a d !! b =
  if decide (b = a) then (let n := default 0 (d !! a) - 1 in if n =? 0 then None else Some n) else d !! b.
Proof.
  unfold dirty_less. case_decide as E.
  - subst. cbn zeta. destruct (_ =? _); [apply lookup_delete_eq|apply lookup_insert_eq].
  - destruct (_ =? _); [by rewrite lookup_delete_ne|by rewrite lookup_insert_ne].
Qed.

Section Counts.
Context `{StateStore}.

Definition dirt (d : gmap (list Z) Z) (e : journalEntry) : gmap (list Z) Z :=
  match dirtied e with Some a => dirty_more a d | None => d end.

Definition undirt (d : gmap (list Z) Z) (e : journalEntry) : gmap (list Z) Z :=
  match dirtied e with Some a => dirty_less a d | None => d end.

#[export] Instance dirt_proper : Proper (same_dirty ==> eq ==> same_dirty) dirt.
Proof.
  intros d d' Hd e _ <- b Hb. unfold dirt. destruct (dirtied e) as [a|]; [|by apply Hd]. rewrite !dirty_more_lookup.
  case_decide as E; [subst; by rewrite Hd|by apply Hd].
Qed.

Lemma foldl_dirt_proper d d' es : same_dirty d d' -> same_dirty (foldl dirt d es) (foldl dirt d' es).
Proof. revert d d'. induction es as [|e es IH]; intros d d' Hd; [done|]. cbn. apply IH. by rewrite Hd. Qed.

Lemma dirt_positive d e : positive_counts d -> positive_counts (dirt d e).
Proof.
  intros Hd b n Hb. unfold dirt. destruct (dirtied e) as [a|]; [|by apply Hd]. rewrite dirty_more_lookup.
  case_decide as E; [|by apply Hd]. subst b. intros [= <-]. destruct (d !! a) as [k|] eqn:Ek; cbn; [apply Hd in Ek; [|done]|]; lia.
Qed.

Lemma foldl_dirt_positive d es : positive_counts d -> positive_counts (foldl dirt d es).
Proof. revert d. induction es as [|e es IH]; intros d Hd; [done|]. by apply IH, dirt_positive. Qed.

Lemma same_positive d d' : same_dirty d d' -> positive_counts d' -> positive_counts d.
Proof. intros Hs Hp a n Ha. rewrite Hs by done. by apply Hp. Qed.

Lemma undirt_dirt d d0 e : positive_counts d0 -> same_dirty d (dirt d0 e) -> same_dirty (undirt d e) d0.
Proof.
  intros Hp Hd b Hb. unfold undirt, dirt in *. destruct (dirtied e) as [a|]; [|by apply Hd]. rewrite dirty_less_lookup.
  case_decide as E; [subst|by rewrite Hd, dirty_more_lookup, decide_False].
  rewrite Hd, dirty_more_lookup, decide_True by done. cbn. destruct (d0 !! a) as [n|] eqn:En; cbn; [|done].
  apply Hp in En; [|done]. replace (n + 1 - 1) with n by lia. by rewrite (proj2 (Z.eqb_neq n 0)) by lia.
Qed.
End Counts.

(** ** Trails *)

Section Journal.
Context `{StateLaws, !Keys}.

#[local] Abbreviation obj := (stateObject handle).

(** What reverting does not touch. *)
Definition same_rest (s s' : StateDB) : Prop :=
  strie s' = strie s /\ sjournal s' = sjournal s /\ validRevisions s' = validRevisions s /\ nextRevisionId s' = nextRevisionId s.

(** There is no account in the trie of the state. *)
Definition absent (M : bmap) (addr : list Z) : Prop :=
  match value_at M addr with
  | [] => True
  | enc => decodeAccount enc = None
  end.

Lemma unused_None w M addr : unused w M addr None <-> absent M addr.
Proof.
  unfold unused, absent. destruct (value_at M addr); [done|]. destruct (decodeAccount _) as [d|]; [|done].
  split; [by intros (a & ? & _)|done].
Qed.

(** Addresses stay marked, but for those of which the trie has nothing. *)
Definition marks (s s' : StateDB) : Prop :=
  (forall a, a ∈ stateObjectsDirty s' -> a ∈ stateObjectsDirty s) /\ (marked s -> marked s') /\
  forall M a, has (db s) (strie s) M -> a ∈ stateObjectsDirty s -> a ∈ stateObjectsDirty s' \/ absent M a.

Lemma marks_same s s' : stateObjectsDirty s' = stateObjectsDirty s -> (marked s -> marked s') -> marks s s'.
Proof. intros E Hm. split; [by rewrite E|]. split; [done|]. intros M a _. rewrite E. auto. Qed.

Lemma marks_trans s1 s2 s3 :
  later none (db s1) (db s2) -> strie s2 = strie s1 -> marks s1 s2 -> marks s2 s3 -> marks s1 s3.
Proof.
  intros Hl Et (Sa & Ma & Ha) (Sb & Mb & Hb). split; [auto|]. split; [auto|]. intros M a HM Hm. destruct (Ha M a HM Hm) as [Hm2|?]; [|auto]. apply Hb; [|done]. rewrite Et. by eapply later_keeps_has.
Qed.

(** The tries stay with their owners, and the marks. *)
Definition orderly (s s' : StateDB) : Prop := (forall de, tidy de s -> tidy de s') /\ marks s s'.

Lemma orderly_trans s1 s2 s3 :
  later none (db s1) (db s2) -> strie s2 = strie s1 -> orderly s1 s2 -> orderly s2 s3 -> orderly s1 s3.
Proof. intros Hl Et [Ha Ma] [Hb Mb]. split; [auto|]. by eapply marks_trans. Qed.

Lemma orderly_same s s' :
  later none (db s) (db s') -> strie s' = strie s -> stateObjectsDirty s' = stateObjectsDirty s -> inherits s s' -> orderly s s'.
Proof. intros Hl Et Em Hi. split; [|apply marks_same; [done|by apply marked_inherits]]. intros de. by apply tidy_inherits. Qed.

(** The entry leads from [A1] back to [A], in any later state with the same trie. *)
Definition undoes (t : handle) (w : store) (e : journalEntry) (A1 A : astate) : Prop :=
  forall s, abs s A1 -> strie s = t -> later none w (db s) ->
    exists s', revert e s = Ok ((), s') /\ abs s' A /\ later none (db s) (db s') /\ same_rest s s' /\
      (e ∈ entries (sjournal s) -> orderly s s').

Fixpoint trail (t : handle) (w : store) (es : list journalEntry) (A' A : astate) : Prop :=
  match es with
  | [] => forall s, abs s A' -> abs s A
  | e :: es => exists A1, undoes t w e A1 A /\ trail t w es A' A1
  end.

Lemma undoes_later t w w' e A1 A : later none w w' -> undoes t w e A1 A -> undoes t w' e A1 A.
Proof. intros Hl Hu s Hs Ht Hw. apply Hu; [done..|by etransitivity]. Qed.

Lemma trail_later t w w' es A' A : later none w w' -> trail t w es A' A -> trail t w' es A' A.
Proof.
  intros Hl. revert A. induction es as [|e es IH]; intros A; [done|]. intros (A1 & Hu & Ht). exists A1.
  split; [by eapply undoes_later|by apply IH].
Qed.

Lemma undoes_weaken t w e A1 A A0 : undoes t w e A1 A -> (forall s, abs s A -> abs s A0) -> undoes t w e A1 A0.
Proof. intros Hu HA s Hs Ht Hw. destruct (Hu s Hs Ht Hw) as (s' & ? & ? & ?). exists s'. auto. Qed.

Lemma trail_weaken t w es A' A A0 : trail t w es A' A -> (forall s, abs s A -> abs s A0) -> trail t w es A' A0.
Proof.
  destruct es as [|e es]; cbn.
  - intros Ht HA s Hs. by apply HA, Ht.
  - intros (A1 & Hu & Ht) HA. exists A1. split; [by eapply undoes_weaken|done].
Qed.

Lemma trail_app t w es1 es2 A2 A1 A : trail t w es1 A1 A -> trail t w es2 A2 A1 -> trail t w (es1 ++ es2) A2 A.
Proof.
  revert A. induction es1 as [|e es IH]; intros A; cbn.
  - intros Ha Hb. by eapply trail_weaken.
  - intros (A0 & Hu & Ha) Hb. exists A0. split; [done|by apply IH].
Qed.

Lemma trail_one t w e A1 A : undoes t w e A1 A -> trail t w [e] A1 A.
Proof. intros Hu. exists A1. split; [done|by intros ?]. Qed.

Lemma undo_ok t w e A1 A s d :
  undoes t w e A1 A -> abs s A1 -> strie s = t -> later none w (db s) ->
  positive_counts d -> same_dirty (dirties (sjournal s)) (dirt d e) -> e ∈ entries (sjournal s) ->
  exists s', undo e s = Ok ((), s') /\ abs s' A /\ later none (db s) (db s') /\ strie s' = t /\
    entries (sjournal s') = entries (sjournal s) /\ same_dirty (dirties (sjournal s')) d /\
    validRevisions s' = validRevisions s /\ nextRevisionId s' = nextRevisionId s /\ orderly s s'.
Proof.
  intros Hu Hs Ht Hl Hp Hd He. destruct (Hu s Hs Ht Hl) as (s1 & E & Ha & Hl1 & (Et & Ej & Er & En) & Hor). specialize (Hor He).
  unfold undo, bind. rewrite E. cbn [res_bind]. pose proof (undirt_dirt _ d e Hp Hd) as Hd1. unfold undirt in Hd1.
  destruct (dirtied e) as [a|].
  - eexists. split; [done|]. split; [by destruct Ha; split|]. cbn. split; [done|]. split; [congruence|]. rewrite Ej.
    split; [done|]. split; [done|]. split; [done|]. split; [done|]. eapply orderly_trans; [exact Hl1|done|done|].
    apply orderly_same; [done..|]. apply inherits_same; [done..|]. by rewrite Ej.
  - eexists. split; [done|]. split; [done|]. split; [done|]. split; [congruence|]. rewrite Ej. auto 10.
Qed.

Lemma each_app {A} (l1 l2 : list A) f (s : StateDB) :
  each (l1 ++ l2) f s = bind (each l1 f) (fun _ => each l2 f) s.
Proof.
  revert s. induction l1 as [|x l IH]; intros s; [done|]. cbn [each app]. unfold bind in *.
  destruct (f x s) as [[[] s']| |]; cbn [res_bind]; [|done..]. apply IH.
Qed.

Lemma trail_undone t w es A' A s d :
  trail t w es A' A -> abs s A' -> strie s = t -> later none w (db s) ->
  positive_counts d -> same_dirty (dirties (sjournal s)) (foldl dirt d es) -> (forall e, e ∈ es -> e ∈ entries (sjournal s)) ->
  exists s', each (rev es) undo s = Ok ((), s') /\ abs s' A /\ later none (db s) (db s') /\ strie s' = t /\
    entries (sjournal s') = entries (sjournal s) /\ same_dirty (dirties (sjournal s')) d /\
    validRevisions s' = validRevisions s /\ nextRevisionId s' = nextRevisionId s /\ orderly s s'.
Proof.
  revert A d. induction es as [|e es IH]; intros A d Ht Hs Est Hl Hp Hd He.
  - exists s. cbn in *. split; [done|]. split; [by apply Ht|]. split; [done|]. split; [done|]. split; [done|]. split; [done|].
    split; [done|]. split; [done|]. split; [done|by apply marks_same].
  - destruct Ht as (A1 & Hu & Ht). cbn [foldl] in Hd.
    destruct (IH A1 (dirt d e) Ht Hs Est Hl (dirt_positive d e Hp) Hd) as (s1 & E1 & Ha1 & Hl1 & Et1 & Ee1 & Hd1 & Er1 & En1 & Ho1);
      [intros e' ?; apply He; by right|].
    destruct (undo_ok t w e A1 A s1 d) as (s2 & E2 & Ha2 & Hl2 & Et2 & Ee2 & Hd2 & Er2 & En2 & Ho2);
      [done..|by etransitivity|done|done|rewrite Ee1; apply He; by left|].
    exists s2. split.
    + cbn [rev]. rewrite each_app. unfold bind. rewrite E1. cbn [res_bind each]. unfold bind. rewrite E2. done.
    + split; [done|]. split; [by etransitivity|]. split; [done|]. split; [congruence|]. split; [done|]. split; [congruence|].
      split; [congruence|]. eapply orderly_trans; [done|congruence|done|done].
Qed.
End Journal.
