(* ===== verification/StateOps.v ===== *)
(** * The operations of the state do what the abstract ones do

    Each operation keeps the state in step with the abstract one, and leaves a trail
    in the journal. *)

From S2P Require Import Rlp RlpCodec Sponge TrieDatabase Trie TrieSpec BTree BTreeMap StateObject StateStore StateDB StateSpec.
From S2P Require Import StateStorage StateJournal Prelude.

#[local] Set Warnings "-register-all".
#[local] Open Scope state_scope.

Section Ops.
Context `{StateLaws, !Keys}.

#[local] Abbreviation obj := (stateObject handle).

(** The accounts an entry is about; the one of a reset does not become dirty. *)
Definition touches (e : journalEntry) (addr : list Z) : Prop :=
  dirtied e = Some addr \/ match e with resetObjectChange o => address o = addr | _ => False end.

(** Accounts that no entry is about stay. *)
Definition only_touched (es : list journalEntry) (A A' : astate) : Prop :=
  forall addr, (exists e, e ∈ es /\ touches e addr) \/ accts A' addr = accts A addr.

(** From [s], which stands for [A], to [s'], which stands for [A'], with the entries
    [es] in the journal that lead back. *)
Record steps (s : StateDB) (A : astate) (s' : StateDB) (A' : astate) (es : list journalEntry) : Prop := {
  st_abs : abs s' A';
  st_later : later none (db s) (db s');
  st_trie : strie s' = strie s;
  st_entries : entries (sjournal s') = entries (sjournal s) ++ es;
  st_trail : trail (strie s) (db s') es A' A;
  st_touch : only_touched es A A';
  st_dirty : same_dirty (dirties (sjournal s')) (foldl dirt (dirties (sjournal s)) es);
  st_revs : validRevisions s' = validRevisions s;
  st_next : nextRevisionId s' = nextRevisionId s;
  st_orderly : orderly s s'
}.

(** Only reading. *)
Record quiet (s : StateDB) (A : astate) (s' : StateDB) : Prop := {
  q_abs : abs s' A;
  q_later : later none (db s) (db s');
  q_rest : same_rest s s';
  q_orderly : orderly s s'
}.

Lemma orderly_refl s : orderly s s.
Proof. split; [done|by apply marks_same]. Qed.

Lemma quiet_refl s A : abs s A -> quiet s A s.
Proof. intros Ha. split; [done..|apply orderly_refl]. Qed.

Lemma quiet_quiet s A s1 s2 : quiet s A s1 -> quiet s1 A s2 -> quiet s A s2.
Proof.
  intros [_ Hl1 (? & ? & ? & ?) Ho1] [Ha Hl2 (? & ? & ? & ?) Ho2]. split; [done|by etransitivity| |by eapply orderly_trans].
  split; [congruence|]. split; [congruence|]. split; congruence.
Qed.

Lemma only_touched_trans es1 es2 A A1 A2 : only_touched es1 A A1 -> only_touched es2 A1 A2 -> only_touched (es1 ++ es2) A A2.
Proof.
  intros Ha Hb addr. destruct (Hb addr) as [(e & He & Ht)|Eb]; [left; exists e; set_solver|].
  destruct (Ha addr) as [(e & He & Ht)|Ea]; [left; exists e; set_solver|]. right. congruence.
Qed.

Lemma only_touched_one e addr a A : touches e addr -> only_touched [e] A (set_acct addr a A).
Proof.
  intros Ht b. cbn. unfold upd. case_decide as E; [|by right]. subst. left. exists e. split; [apply list_elem_of_singleton|]; done.
Qed.

Lemma only_touched_same es A A' : (forall k, accts A' k = accts A k) -> only_touched es A A'.
Proof. intros E b. by right. Qed.

Lemma quiet_is_steps s A s' : quiet s A s' -> steps s A s' A [].
Proof.
  intros [Ha Hl (Et & Ej & Er & En) Ho]. split; rewrite ?Ej; try done; [by rewrite app_nil_r|by intros ?|by apply only_touched_same].
Qed.

Lemma steps_trans s A s1 A1 s2 A2 es1 es2 :
  steps s A s1 A1 es1 -> steps s1 A1 s2 A2 es2 -> steps s A s2 A2 (es1 ++ es2).
Proof.
  intros [] []. split; try congruence; [by etransitivity|by rewrite st_entries1, st_entries0, app_assoc| | | |].
  - rewrite st_trie0 in *. eapply trail_app; [|done]. by eapply trail_later.
  - by eapply only_touched_trans.
  - rewrite foldl_app. etransitivity; [done|]. by apply foldl_dirt_proper.
  - by eapply orderly_trans.
Qed.

Lemma quiet_steps s A s1 s2 A2 es : quiet s A s1 -> steps s1 A s2 A2 es -> steps s A s2 A2 es.
Proof. intros Ha%quiet_is_steps Hb. by apply (steps_trans _ _ _ _ _ _ [] es Ha). Qed.

Lemma bind_ok {X Y} (m : M X) (k : X -> M Y) s a s' : m s = Ok (a, s') -> bind m k s = k a s'.
Proof. intros E. unfold bind. by rewrite E. Qed.

Lemma call_ok {X} (f : store -> eff (X * store)) s a w : f (db s) = Ok (a, w) -> call f s = Ok (a, set_db w s).
Proof. intros E. unfold call. by rewrite E. Qed.

(** The store was only read. *)
Lemma quiet_db s A w : abs s A -> later none (db s) w -> quiet s A (set_db w s).
Proof. intros Ha Hl. split; [by apply abs_set_db|done|done|]. apply orderly_same; [done..|]. by apply inherits_same. Qed.

(** An object is put in its place. *)
Lemma orderly_insert s addr o' :
  address o' = addr -> Addr addr -> deleted o' = false -> descends s o' ->
  orderly s (set_objects (<[addr := o']> (stateObjects s)) s).
Proof. intros Had Hu Hd Hde. apply orderly_same; [done..|]. eapply inherits_insert; [done..|]. auto. Qed.

(** An entry is noted. *)
Lemma orderly_note s e :
  (forall o, e = resetObjectChange o -> (exists a, stateObjects s !! a = Some o) /\ deleted o = false) ->
  orderly s (set_journal (note e (sjournal s)) s).
Proof.
  intros He. apply orderly_same; [done..|]. split; cbn; [auto| |auto|auto]. intros o.
  rewrite elem_of_app, list_elem_of_singleton. intros [?|E]; [auto|]. right. by apply He.
Qed.

Lemma view_insert w objs M addr o a b ob :
  address o = addr -> deleted o = false -> obj_abs w o a ->
  (b <> addr -> view w objs M b ob) -> (b = addr -> ob = Some a) -> view w (<[addr := o]> objs) M b ob.
Proof.
  intros Had Hd Ho Hne Heq. unfold view. destruct (decide (b = addr)) as [->|Hb].
  - rewrite lookup_insert_eq, Hd. split; [done|]. exists a. auto.
  - rewrite lookup_insert_ne by done. by apply Hne.
Qed.

(** ** Finding an object *)

(** There is no account. *)
Definition nothing (s : StateDB) (addr : list Z) : Prop :=
  forall M, has (db s) (strie s) M -> unused (db s) M addr None.

Definition found (s : StateDB) (addr : list Z) (oa : option aacct) (oo : option obj) : Prop :=
  match oa with
  | None => oo = None /\ nothing s addr
  | Some a => exists o, oo = Some o /\ stateObjects s !! addr = Some o /\ address o = addr /\ obj_abs (db s) o a
  end.

Lemma getStateObject_ok s A addr :
  abs s A -> Addr addr ->
  exists oo s', getStateObject addr s = Ok (oo, s') /\ quiet s A s' /\ found s' addr (accts A addr) oo.
Proof.
  intros Ha Hu. pose proof Ha as [Hh (M & HM & Hv & _) _ _ _ _ _ _]. pose proof (Hv addr Hu) as Hva.
  unfold getStateObject. rewrite (bind_ok _ _ s (stateObjects s) s) by done. unfold view in Hva.
  destruct (stateObjects s !! addr) as [o|] eqn:Eo.
  - destruct Hva as [Had Hva]. eexists _, s. split; [done|]. split; [by apply quiet_refl|]. destruct (deleted o).
    + destruct Hva as [-> Hz]. split; [done|]. intros M' HM'. rewrite (has_one _ _ _ _ HM' HM). unfold unused. by rewrite Hz.
    + destruct Hva as (a & -> & Ho). by exists o.
  - rewrite (bind_ok _ _ s (strie s) s) by done.
    destruct (get_law (db s) (strie s) M addr Hh HM (Addr_u8 _ Hu)) as (w & E & Hl).
    rewrite (bind_ok _ _ s _ _ (call_ok _ s _ w E)). fold (value_at M addr).
    pose proof (quiet_db s A w Ha Hl) as Hst. pose proof (unused_later _ _ _ _ _ _ Hl Hva) as Hva'. unfold unused in Hva'.
    assert (has w (strie s) M) as HMw by by eapply later_keeps_has.
    destruct (value_at M addr) as [|x enc] eqn:Ev; cbn [length Nat.eqb].
    + eexists _, _. split; [done|]. split; [done|]. rewrite Hva'. split; [done|]. intros M' HM'. cbn in HM'.
      rewrite (has_one _ _ _ _ HM' HMw). unfold unused. by rewrite Ev.
    + destruct (decodeAccount (x :: enc)) as [d|] eqn:Ed.
      * destruct Hva' as (a & Ea & Ho). unfold setStateObject. cbn [newObject address].
        eexists _, _. split; [done|]. rewrite Ea. split.
        -- eapply quiet_quiet; [done|]. split; [|done|done|apply orderly_insert; [done..|by left]].
           destruct (q_abs _ _ _ Hst) as [? (M' & HM' & Hv' & Hm') ? ? ? ? ? ?]. split; try done. exists M'. split; [done|].
           split; [|done]. intros b Hb. cbn. eapply view_insert; [done|done|done|by intros; apply Hv'|congruence].
        -- eexists. split; [done|]. cbn. rewrite lookup_insert_eq. by split.
      * eexists _, _. split; [done|]. split; [done|]. rewrite Hva'. split; [done|]. intros M' HM'. cbn in HM'.
        rewrite (has_one _ _ _ _ HM' HMw). unfold unused. by rewrite Ev, Ed.
Qed.
(** ** Changing an object *)

(** States that stand for the same. *)
Definition aeq (A A' : astate) : Prop :=
  (forall k, accts A k = accts A' k) /\ a_refund A = a_refund A' /\ a_logs A = a_logs A' /\ a_logSize A = a_logSize A' /\
  a_preimages A = a_preimages A' /\ (forall h, a_matrix A h = a_matrix A' h) /\ a_btrees A = a_btrees A'.

Lemma abs_aeq s A A' : aeq A A' -> abs s A -> abs s A'.
Proof.
  intros (Ea & Er & El & En & Ep & Em & Eb) []. split; try congruence. destruct abs_trie as (M & HM & Hv & Hm). exists M.
  split; [done|]. split; [intros addr Hu; rewrite <- Ea; auto|intros h Hh; rewrite <- Em; auto].
Qed.

Lemma set_acct_back addr a a' A : accts A addr = Some a -> aeq (set_acct addr a (set_acct addr a' A)) A.
Proof.
  intros Ea. split; [|done]. intros k. cbn. unfold upd. case_decide as E; [by subst|done].
Qed.

Lemma abs_object s A addr o a :
  abs s A -> address o = addr -> obj_abs (db s) o a ->
  abs (set_objects (<[addr := o]> (stateObjects s)) s) (set_acct addr a A).
Proof.
  intros [] Had Ho. split; try done. destruct abs_trie as (M & HM & Hv & Hm). exists M. split; [done|]. split; [|done].
  intros b Hb. cbn. eapply view_insert; [done|by apply Ho|done|..].
  - intros Hne. rewrite upd_ne by done. by apply Hv.
  - intros ->. apply upd_eq.
Qed.

Lemma change_ok s A addr o a f :
  abs s A -> Addr addr -> stateObjects s !! addr = Some o -> address o = addr ->
  address (f o) = address o -> otrie (f o) = otrie o -> obj_abs (db s) (f o) a ->
  exists s', change addr f s = Ok ((), s') /\ abs s' (set_acct addr a A) /\ db s' = db s /\ same_rest s s' /\
    stateObjects s' !! addr = Some (f o) /\ orderly s s'.
Proof.
  intros Ha Hu Eo Hao Had Ht Ho. eexists. unfold change. rewrite Eo. split; [done|]. split; [apply abs_object; [done|congruence|done]|].
  split; [done|]. split; [done|]. split; [apply lookup_insert_eq|]. apply orderly_insert; [congruence|done|by apply Ho|].
  right. exists o. split; [left; by exists addr|done].
Qed.

(** An entry that sets back a part of an account. *)
Lemma undo_object t w e addr a a' g A :
  Addr addr -> accts A addr = Some a -> revert e = onObject addr g ->
  (forall w o, obj_abs w o a' -> address (g o) = address o /\ otrie (g o) = otrie o /\ obj_abs w (g o) a) ->
  undoes t w e (set_acct addr a' A) A.
Proof.
  intros Hu Ea Er Hg s Hs Ht Hl. rewrite Er. unfold onObject.
  destruct (getStateObject_ok s (set_acct addr a' A) addr Hs Hu) as (oo & s1 & E1 & Hst & Hf). rewrite (bind_ok _ _ _ _ _ E1).
  cbn in Hf. rewrite upd_eq in Hf. destruct Hf as (o & -> & Eo & Had & Ho). destruct (Hg _ _ Ho) as (Hga & Hgt & Hgo). destruct Hst.
  destruct (change_ok s1 (set_acct addr a' A) addr o a g) as (s2 & -> & Ha2 & Ed & Hsr & _ & Hor); [done..|].
  exists s2. split; [done|]. split; [eapply abs_aeq; [by apply set_acct_back|done]|]. split; [by rewrite Ed|].
  destruct q_rest0 as (? & ? & ? & ?), Hsr as (? & ? & ? & ?). split; [|intros _; by eapply orderly_trans].
  split; [congruence|]. split; [congruence|]. split; congruence.
Qed.

Lemma dirtied_note s e addr : dirtied e = Some addr -> orderly s (set_journal (note e (sjournal s)) s).
Proof. intros Hd. apply orderly_note. by intros o ->. Qed.

(** Noting an entry and changing the object. *)
Lemma noted_change s A addr o a f e :
  abs s A -> Addr addr -> stateObjects s !! addr = Some o -> address o = addr ->
  address (f o) = address o -> otrie (f o) = otrie o -> obj_abs (db s) (f o) a ->
  dirtied e = Some addr -> undoes (strie s) (db s) e (set_acct addr a A) A ->
  exists s', (journal_append e ;; change addr f) s = Ok ((), s') /\ steps s A s' (set_acct addr a A) [e] /\
    stateObjects s' !! addr = Some (f o) /\ db s' = db s.
Proof.
  intros Ha Hu Eo Hao Had Hot Ho Hd Hun. unfold journal_append. rewrite (bind_ok _ _ _ _ _ eq_refl).
  destruct (change_ok (set_journal (note e (sjournal s)) s) A addr o a f) as (s' & -> & Ha' & Ed & (Et & Ej & Er & En) & Eo' & Hor);
    [by destruct Ha; split|done..|].
  exists s'. split; [done|]. split; [|done]. cbn in Ed, Et, Ej, Er, En.
  split; rewrite ?Ed, ?Et, ?Ej; try done; [by apply trail_one|by apply only_touched_one; left|].
  by eapply orderly_trans, Hor; [done|done|eapply dirtied_note].
Qed.
(** ** Creating an object *)

Definition newborn (addr : list Z) : obj := setNonce NonceAddOne (newObject addr None).

Lemma newborn_abs w addr : obj_abs w (newborn addr) fresh_acct.
Proof.
  constructor; [done|done|done|apply emptyCodeHash_ok|done| | |done..].
  - exists ∅. split; [apply empty_law|]. split; [|done]. intros k v. unfold pending. cbn. by rewrite !lookup_empty.
  - split; intros k v; cbn; by rewrite lookup_empty.
Qed.

Lemma undo_create s A addr a :
  abs s A -> accts A addr = None -> nothing s addr -> undoes (strie s) (db s) (createObjectChange addr) (set_acct addr a A) A.
Proof.
  intros Ha Ea Hn s' Hs' Et Hl. eexists. split; [done|].
  assert (forall M, has (db s') (strie s') M -> unused (db s') M addr None) as Hn'.
  { intros M' HM'. destruct Ha as [_ (M & HM & _) _ _ _ _ _ _]. rewrite Et in HM'.
    rewrite (has_one _ _ _ _ HM' (later_keeps_has _ _ _ _ Hl HM)). eapply unused_later; [done|by apply Hn]. }
  split; [|split; [done|split; [done|intros _; split]]].
  - destruct Hs' as [Hh (M' & HM' & Hv & Hm) ? ? ? ? ? ?]. split; try done. exists M'. split; [done|]. split; [|done].
    intros b Hb. cbn. unfold view. destruct (decide (b = addr)) as [->|Hne].
    + rewrite lookup_delete_eq, Ea. by apply Hn'.
    + rewrite lookup_delete_ne by done. specialize (Hv b Hb). cbn in Hv. by rewrite upd_ne in Hv.
  - intros de. apply tidy_inherits; [done..|]. split; cbn; [|auto|auto|].
    + intros b o. rewrite lookup_delete_Some. intros [_ E]. by left.
    + intros b Hb. right. split; [set_solver|]. rewrite lookup_delete_ne; [done|set_solver].
  - split; [cbn; set_solver|]. split; [intros Hm b Hb; cbn in *; rewrite lookup_delete_ne by set_solver; apply Hm; set_solver|].
    intros M b HM Hb. cbn. destruct (decide (b = addr)) as [->|Hne]; [|left; set_solver]. right. by eapply unused_None, Hn'.
Qed.

Lemma undo_reset t w addr o a a' A :
  Addr addr -> address o = addr -> obj_abs w o a -> accts A addr = Some a -> undoes t w (resetObjectChange o) (set_acct addr a' A) A.
Proof.
  intros Hu Had Ho Ea s Hs Et Hl. eexists. split; [done|]. split; [|split; [done|split; [done|]]].
  - eapply abs_aeq; [by apply set_acct_back|]. cbn. rewrite Had. apply abs_object; [done..|]. by eapply obj_abs_later.
  - intros He. cbn. rewrite Had. apply orderly_insert; [done..|by apply Ho|]. right. exists o. split; [by right|done].
Qed.

(** What the entry for a new object leads back from: any account at the address. *)
Definition birth (s : StateDB) (A : astate) (addr : list Z) (e : journalEntry) : Prop :=
  touches e addr /\ forall a, undoes (strie s) (db s) e (set_acct addr a A) A.

Lemma createObject_ok s A addr :
  abs s A -> Addr addr ->
  exists prev e s', createObject addr s = Ok (prev, s') /\ steps s A s' (set_acct addr fresh_acct A) [e] /\
    stateObjects s' !! addr = Some (newborn addr) /\ birth s' A addr e /\
    match accts A addr with
    | None => prev = None
    | Some a => exists o, prev = Some o /\ obj_abs (db s') o a
    end.
Proof.
  intros Ha Hu. destruct (getStateObject_ok s A addr Ha Hu) as (oo & s1 & E1 & Hq & Hf). unfold createObject.
  rewrite (bind_ok _ _ _ _ _ E1). cbn zeta. fold (newborn addr).
  set (e := match oo with None => createObjectChange addr | Some prev => resetObjectChange prev end).
  assert (touches e addr) as Hto.
  { unfold found in Hf. destruct (accts A addr) as [a0|]; [|destruct Hf as [-> _]; by left]. destruct Hf as (o & -> & _ & Had & _). by right. }
  assert (birth s1 A addr e) as Hb.
  { split; [done|]. intros a. unfold found in Hf. destruct (accts A addr) as [a0|] eqn:Ea.
    - destruct Hf as (o & -> & _ & Had & Ho). by eapply (undo_reset _ _ addr).
    - destruct Hf as [-> Hn]. apply undo_create; [apply Hq|done..]. }
  eexists oo, e, _. split; [done|]. split; [|split; [|split; [exact Hb|]]].
  - eapply quiet_steps; [done|]. destruct Hq as [Ha1 _ _ _]. split; try done; [|by apply trail_one, Hb|by apply only_touched_one|].
    + apply (abs_object (set_journal (note e (sjournal s1)) s1)); [by destruct Ha1; split|done|apply newborn_abs].
    + apply (orderly_trans s1 (set_journal (note e (sjournal s1)) s1)); [done|done|apply orderly_note|by apply orderly_insert; [..|left]].
      intros o Eo. unfold found in Hf. destruct (accts A addr) as [a0|]; [|destruct Hf as [-> _]; done].
      destruct Hf as (o' & -> & Eo' & _ & Ho'). unfold e in Eo. injection Eo as <-. split; [by exists addr|by apply Ho'].
  - apply lookup_insert_eq.
  - unfold found in Hf. destruct (accts A addr) as [a0|]; [|by destruct Hf]. destruct Hf as (o & -> & _ & _ & Ho). by exists o.
Qed.

(** An object that is in use, and its account. *)
Definition live (s : StateDB) (A : astate) (addr : list Z) (a : aacct) : Prop :=
  accts A addr = Some a /\ exists o, stateObjects s !! addr = Some o /\ address o = addr /\ obj_abs (db s) o a.

Lemma GetOrNewStateObject_ok s A addr :
  abs s A -> Addr addr ->
  exists es s', let A' := set_acct addr (acct_or_new addr A) A in
    GetOrNewStateObject addr s = Ok ((), s') /\ steps s A s' A' es /\ live s' A' addr (acct_or_new addr A).
Proof.
  intros Ha Hu. unfold GetOrNewStateObject, acct_or_new, live.
  destruct (getStateObject_ok s A addr Ha Hu) as (oo & s1 & E1 & Hq & Hf).
  rewrite (bind_ok _ _ _ _ _ E1). unfold found in Hf. destruct (accts A addr) as [a|] eqn:Ea.
  - destruct Hf as (o & -> & Eo & Had & Ho). exists [], s1. split; [done|]. cbn [default from_option id]. split.
    + assert (aeq A (set_acct addr a A)) as Heq.
      { split; [|done]. intros k. cbn. unfold upd. case_decide as E; [by subst|done]. }
      destruct (quiet_is_steps _ _ _ Hq). split; try done; [by eapply abs_aeq| |].
      * intros s' Hs'. eapply abs_aeq; [|done]. destruct Heq as [? ?]. split; [by intros|done].
      * apply only_touched_same. intros k. symmetry. apply Heq.
    + split; [apply upd_eq|]. by exists o.
  - destruct Hf as [-> Hn]. destruct (createObject_ok s1 A addr) as (prev & e & s2 & E2 & Hst & Eo & _); [apply Hq|done|].
    exists [e], s2. rewrite (bind_ok _ _ _ _ _ E2). split; [done|]. split; [by eapply quiet_steps|].
    split; [apply upd_eq|]. exists (newborn addr). split; [done|]. split; [done|apply newborn_abs].
Qed.
(** ** Reading from an object *)

Lemma the_ok s addr o : stateObjects s !! addr = Some o -> the addr s = Ok (o, s).
Proof. intros Eo. unfold the. by rewrite Eo. Qed.

Lemma quiet_change s A addr o a f :
  abs s A -> Addr addr -> accts A addr = Some a -> stateObjects s !! addr = Some o -> address o = addr ->
  address (f o) = address o -> otrie (f o) = otrie o -> obj_abs (db s) (f o) a ->
  exists s', change addr f s = Ok ((), s') /\ quiet s A s' /\ stateObjects s' !! addr = Some (f o) /\ db s' = db s.
Proof.
  intros Ha Hu Ea Eo Hao Had Hot Ho. destruct (change_ok s A addr o a f) as (s' & E & Ha' & Ed & Hr & Eo' & Hor); [done..|].
  exists s'. split; [done|]. split; [|done]. split; [|by rewrite Ed|done|done]. eapply abs_aeq; [|done].
  split; [|done]. intros k. cbn. unfold upd. case_decide as Ek; [by subst|done].
Qed.

(** Another object at the address, and another store. *)
Definition put (addr : list Z) (o : obj) (w : store) (s : StateDB) : StateDB :=
  set_objects (<[addr := o]> (stateObjects s)) (set_db w s).

Lemma put_put addr o o' w w' s : put addr o' w' (put addr o w s) = put addr o' w' s.
Proof. unfold put. cbn. by rewrite insert_insert_eq. Qed.

Lemma put_id s addr o : stateObjects s !! addr = Some o -> put addr o (db s) s = s.
Proof. intros Eo. unfold put. cbn. rewrite insert_id by done. by destruct s. Qed.

(** An object whose trie is open. *)
Definition opened (s : StateDB) (A : astate) (addr : list Z) (a : aacct) (o : obj) (t : handle) (m : bmap) : Prop :=
  accts A addr = Some a /\ stateObjects s !! addr = Some o /\ address o = addr /\ obj_abs (db s) o a /\
  otrie o = Some t /\ has (db s) t m.

Lemma opened_live s A addr a o t m : opened s A addr a o t m -> live s A addr a.
Proof. intros (Ea & Eo & Had & Ho & _). split; [done|by exists o]. Qed.

Lemma opened_storage s A addr a o t m : opened s A addr a o t m -> shown o m (a_store a).
Proof.
  intros (_ & _ & _ & Ho & Et & Hm). destruct (oa_storage _ _ _ Ho) as (m' & Hv & Hs). unfold obj_view in Hv.
  rewrite Et in Hv. by rewrite (has_one _ _ _ _ Hm Hv).
Qed.

Lemma abs_valid s A : abs s A -> valid (db s) (strie s).
Proof. intros Ha. destruct (abs_trie _ _ Ha) as (M & HM & _). by exists M. Qed.

(** An object that differs in what the meaning does not depend on. *)
Lemma obj_abs_with w w' o o' a :
  obj_abs w o a -> data o' = data o -> suicided o' = suicided o -> deleted o' = deleted o -> oErr o' = oErr o ->
  code_view w' o' (a_code a) -> (exists m, obj_view w' o' m /\ shown o' m (a_store a)) -> cached_ok o' (a_store a) ->
  obj_abs w' o' a.
Proof. intros [] Ed Es El Ee Hc Hs Hk. constructor; try congruence. Qed.

Lemma getTrie_ok s A addr a :
  abs s A -> Addr addr -> live s A addr a ->
  exists o t m s', getTrie addr s = Ok (t, s') /\ quiet s A s' /\ opened s' A addr a o t m /\
    (exists w, s' = put addr o w s) /\ forall o0, stateObjects s !! addr = Some o0 -> o = o0 \/ o = with_trie t o0.
Proof.
  intros Ha Hu (Ea & o & Eo & Had & Ho). unfold getTrie. rewrite (bind_ok _ _ _ _ _ (the_ok _ _ _ Eo)).
  pose proof (oa_storage _ _ _ Ho) as (m & Hv & Hs). unfold obj_view in Hv. destruct (otrie o) as [t|] eqn:Et.
  - exists o, t, m, s. split; [done|]. split; [by apply quiet_refl|]. split; [done|].
    split; [exists (db s); by rewrite put_id|]. intros o0. rewrite Eo. intros [= <-]. by left.
  - destruct (storage_law (db s) (addrHash o) (Root (data o)) m (abs_healthy _ _ Ha) Hv) as (t & w & E & Hl & Hm & Hf).
    rewrite (bind_ok _ _ _ _ _ (call_ok _ s _ w E)). pose proof (quiet_db s A w Ha Hl) as Hq.
    assert (obj_abs w (with_trie t o) a) as Ho'.
    { pose proof (obj_abs_later _ _ _ _ Hl Ho) as Ho'. eapply obj_abs_with; [done|done..|apply Ho'| |by destruct (oa_cached _ _ _ Ho')].
      exists m. split; [done|]. by eapply shown_same. }
    exists (with_trie t o), t, m. eexists. unfold bind at 1. unfold change. cbn [set_db stateObjects]. rewrite Eo. cbn [res_bind].
    split; [done|]. split; [|split; [unfold opened; cbn; rewrite lookup_insert_eq; done|split; [by exists w|intros o0 [= <-]; by right]]].
    split; [|done|done|].
    + eapply abs_aeq; [by apply (set_acct_back addr a a A)|]. apply (abs_object (set_db w s)); [|done|done].
      eapply abs_aeq; [|by apply abs_set_db]. split; [|done]. intros k. cbn. unfold upd. case_decide as Ek; [by subst|done].
    + split; [|apply marks_same; [done|intros Hmk b Hb; cbn; rewrite lookup_insert_is_Some'; auto]]. intros de. eapply tidy_opened; [done|by apply Ho|done|done|done|by eapply abs_valid].
Qed.

(** Reading the trie of an object. *)
Lemma read_trie s A addr a o t m k :
  abs s A -> opened s A addr a o t m -> Forall is_u8 k ->
  exists s', call (trie_TryGet t k) s = Ok (inr (m !! place k), s') /\ quiet s A s' /\ opened s' A addr a o t m.
Proof.
  intros Ha (Ea & Eo & Had & Ho & Et & Hm) Hk.
  destruct (get_law (db s) t m k (abs_healthy _ _ Ha) Hm Hk) as (w & E & Hl).
  exists (set_db w s). split; [by apply call_ok|]. split; [by apply quiet_db|]. unfold opened. split; [done|]. split; [done|].
  split; [done|]. split; [by eapply obj_abs_later|]. split; [done|by eapply later_keeps_has].
Qed.

Lemma setObjError_None (o : obj) : setObjError None o = o.
Proof. destruct o as [? ? []]; done. Qed.

Lemma obj_GetState_ok s A addr a key v :
  abs s A -> Addr addr -> live s A addr a -> Slot key -> slotval (a_store a) key = Some v ->
  exists s', obj_GetState addr key s = Ok (v, s') /\ quiet s A s' /\ live s' A addr a.
Proof.
  intros Ha Hu Hlive Hk Hv. pose proof Hlive as (Ea & o & Eo & Had & Ho). unfold obj_GetState.
  rewrite (bind_ok _ _ _ _ _ (the_ok _ _ _ Eo)). destruct (cachedStorage o !! key) as [v'|] eqn:Ec.
  - exists s. split; [|split; [by apply quiet_refl|done]]. apply (c_slot _ _ (oa_cached _ _ _ Ho)) in Ec as [_ Ec].
    unfold ret. congruence.
  - destruct (getTrie_ok s A addr a Ha Hu Hlive) as (o1 & t & m & s1 & E1 & Hq1 & Hop1 & _ & Hc). rewrite (bind_ok _ _ _ _ _ E1).
    assert (cachedStorage o1 !! key = None) as Ec1 by by destruct (Hc o Eo) as [->| ->].
    destruct (read_trie s1 A addr a o1 t m key) as (s2 & E2 & Hq2 & Hop2); [apply Hq1|done|by apply Slot_u8|].
    rewrite (bind_ok _ _ _ _ _ E2). pose proof Hop2 as (_ & Eo2 & Had2 & Ho2 & _). pose proof (oa_cached _ _ _ Ho2) as Hc2.
    assert (value_at m key = value_at (a_store a) key) as Eva.
    { eapply shown_value; [done|by eapply opened_storage|by left|]. unfold pending.
      by rewrite (not_dirty_slot _ _ _ Hc2 Ec1), (slot_not_dirty_bytes _ _ _ Hc2 Hk). }
    assert (slotValue (value_at m key) = Ok (None, v)) as Esl.
    { rewrite Eva. unfold slotval in Hv. destruct (slotValue _) as [[[e|] x]| |]; try done. congruence. }
    fold (value_at m key). unfold lift at 1. rewrite Esl. unfold bind at 1. cbn [res_bind].
    set (f := fun o : obj => setObjError None (with_storage (<[key := v]> (cachedStorage o)) (dirtyStorage o) o)).
    assert (f o1 = with_storage (<[key := v]> (cachedStorage o1)) (dirtyStorage o1) o1) as Ef by apply setObjError_None.
    assert (obj_abs (db s2) (f o1) a) as Hf.
    { rewrite Ef. eapply obj_abs_with; [done|done..|apply Ho2| |by apply cache_slot_ok].
      destruct (oa_storage _ _ _ Ho2) as (m' & Hm' & Hs'). exists m'. split; [done|by eapply shown_same]. }
    destruct (quiet_change s2 A addr o1 a f) as (s3 & E3 & Hq3 & Eo3 & Ed3); [apply Hq2|done..|by rewrite Ef|by rewrite Ef|done|].
    exists s3. rewrite (bind_ok _ _ _ _ _ E3). split; [done|]. split; [by eapply quiet_quiet, quiet_quiet|].
    split; [done|]. exists (f o1). rewrite Ed3. split; [done|]. split; [by rewrite Ef|done].
Qed.

Lemma obj_GetStateByteArray_ok s A addr a key :
  abs s A -> Addr addr -> live s A addr a -> Raw key ->
  exists s', obj_GetStateByteArray addr key s = Ok (value_at (a_store a) key, s') /\ quiet s A s' /\ live s' A addr a.
Proof.
  intros Ha Hu Hlive Hk. pose proof Hlive as (Ea & o & Eo & Had & Ho). unfold obj_GetStateByteArray.
  rewrite (bind_ok _ _ _ _ _ (the_ok _ _ _ Eo)). destruct (cachedBytes o !! key) as [v'|] eqn:Ec.
  - exists s. split; [|split; [by apply quiet_refl|done]]. by apply (c_bytes _ _ (oa_cached _ _ _ Ho)) in Ec as [_ ->].
  - destruct (getTrie_ok s A addr a Ha Hu Hlive) as (o1 & t & m & s1 & E1 & Hq1 & Hop1 & _ & Hc). rewrite (bind_ok _ _ _ _ _ E1).
    assert (cachedBytes o1 !! key = None) as Ec1 by by destruct (Hc o Eo) as [->| ->].
    destruct (read_trie s1 A addr a o1 t m key) as (s2 & E2 & Hq2 & Hop2); [apply Hq1|done|by apply Raw_u8|].
    rewrite (bind_ok _ _ _ _ _ E2). pose proof Hop2 as (_ & Eo2 & Had2 & Ho2 & _). pose proof (oa_cached _ _ _ Ho2) as Hc2.
    fold (value_at m key). assert (value_at m key = value_at (a_store a) key) as ->.
    { eapply shown_value; [done|by eapply opened_storage|by right|]. unfold pending.
      by rewrite (raw_not_dirty_slot _ _ _ Hc2 Hk), (not_dirty_bytes _ _ _ Hc2 Ec1). }
    cbn zeta. destruct (length (value_at (a_store a) key) =? 0)%nat.
    + exists s2. split; [done|]. split; [by eapply quiet_quiet|by eapply opened_live].
    + set (f := fun o : obj => with_bytes (<[key := value_at (a_store a) key]> (cachedBytes o)) (dirtyBytes o) o).
      assert (obj_abs (db s2) (f o1) a) as Hf.
      { eapply obj_abs_with; [done|done..|apply Ho2| |by apply cache_bytes_ok].
        destruct (oa_storage _ _ _ Ho2) as (m' & Hm' & Hs'). exists m'. split; [done|by eapply shown_same]. }
      destruct (quiet_change s2 A addr o1 a f) as (s3 & E3 & Hq3 & Eo3 & Ed3); [apply Hq2|done..|].
      exists s3. rewrite (bind_ok _ _ _ _ _ E3). split; [done|]. split; [by eapply quiet_quiet, quiet_quiet|].
      split; [done|]. exists (f o1). by rewrite Ed3.
Qed.

Lemma BytesToHash_32 h : length h = 32%nat -> BytesToHash h = h.
Proof. intros Hl. unfold BytesToHash. rewrite Hl. cbn [Nat.sub]. rewrite drop_0. by rewrite Hl. Qed.

Lemma obj_abs_hash w o a : obj_abs w o a -> BytesToHash (CodeHash (data o)) = CodeHash (data o).
Proof. intros []. apply BytesToHash_32. rewrite oa_codehash, <- oa_hash. apply length_keccak256. Qed.

(** The code that is there, or none and the hash of none. *)
Lemma obj_Code_ok s A addr a :
  abs s A -> Addr addr -> live s A addr a ->
  exists c s', obj_Code addr s = Ok (c, s') /\ quiet s A s' /\ live s' A addr a /\ a_code a = default [] c /\
    (c = None -> a_codehash a = emptyCodeHash).
Proof.
  intros Ha Hu Hlive. pose proof Hlive as (Ea & o & Eo & Had & Ho). unfold obj_Code.
  rewrite (bind_ok _ _ _ _ _ (the_ok _ _ _ Eo)). pose proof (oa_code _ _ _ Ho) as Hc. unfold code_view in Hc.
  destruct (code o) as [c|] eqn:Ec.
  - destruct Hc as [Hc _]. exists (Some c), s. split; [done|]. split; [by apply quiet_refl|]. by split.
  - case_bool_decide as Eh; [|rewrite decide_False in Hc by done].
    + exists None, s. rewrite decide_True in Hc by done. split; [done|]. split; [by apply quiet_refl|]. split; [done|].
      split; [done|]. intros _. by rewrite <- (oa_codehash _ _ _ Ho).
    + rewrite (obj_abs_hash _ _ _ Ho). destruct (code_law (db s) (addrHash o) _ _ Hc) as (w & E & Hl). unfold bind at 1. unfold call. rewrite E.
      cbn [res_bind]. pose proof (quiet_db s A w Ha Hl) as Hq. cbn zeta.
      set (f := fun o : obj => with_code (Some (a_code a)) (dirtyCode o) (setObjError None o)).
      assert (obj_abs w (f o) a) as Hf.
      { pose proof (obj_abs_later _ _ _ _ Hl Ho) as Ho'. unfold f. rewrite setObjError_None.
        eapply obj_abs_with; [done|done..| | |by destruct (oa_cached _ _ _ Ho')].
        - split; [done|]. intros _. by apply (later_coded _ _ _ Hl).
        - destruct (oa_storage _ _ _ Ho') as (m' & Hm' & Hs'). exists m'. split; [done|by eapply shown_same]. }
      destruct (quiet_change (set_db w s) A addr o a f) as (s3 & E3 & Hq3 & Eo3 & Ed3); [apply Hq|done..| | |done|].
      1, 2: unfold f; by rewrite setObjError_None.
      eexists _, s3. rewrite (bind_ok _ _ _ _ _ E3). split; [done|]. split; [by eapply quiet_quiet|]. split; [|done].
      split; [done|]. eexists. split; [exact Eo3|]. rewrite Ed3. split; [|done]. unfold f. by rewrite setObjError_None.
Qed.
(** ** Writing to an object *)

(** The account may change as the object does. *)
Lemma obj_abs_data w o a d a' :
  obj_abs w o a -> Root d = Root (data o) -> CodeHash d = CodeHash (data o) -> Nonce d = a_nonce a' -> Balance d = a_balance a' ->
  a_codehash a' = a_codehash a -> a_code a' = a_code a -> a_store a' = a_store a -> a_suicided a' = a_suicided a ->
  obj_abs w (with_data d o) a'.
Proof.
  intros [] Er Ec En Eb Eh Eco Es Eu. destruct oa_storage as (m & Hm & Hs), oa_cached. constructor; try done; try (cbn; congruence).
  - unfold code_view in *. cbn. by rewrite Ec, Eco.
  - exists m. rewrite Es. split; [|by eapply shown_same]. unfold obj_view in *. cbn. by rewrite Er.
  - by rewrite Es.
Qed.

Lemma setNonce_abs w o a n : obj_abs w o a -> obj_abs w (setNonce n o) (a_set_nonce n a).
Proof. intros Ho. eapply obj_abs_data; [done|done|done|done|apply Ho|done..]. Qed.

Lemma balance_abs w o a b : obj_abs w o a -> obj_abs w (with_data (set_balance b (data o)) o) (a_set_balance b a).
Proof. intros Ho. eapply obj_abs_data; [done|done|done|apply Ho|done..]. Qed.

Lemma obj_SetNonce_ok s A addr a n :
  abs s A -> Addr addr -> live s A addr a ->
  exists e s', obj_SetNonce addr n s = Ok ((), s') /\ steps s A s' (set_acct addr (a_set_nonce n a) A) [e].
Proof.
  intros Ha Hu (Ea & o & Eo & Had & Ho). unfold obj_SetNonce. rewrite (bind_ok _ _ _ _ _ (the_ok _ _ _ Eo)).
  rewrite (oa_nonce _ _ _ Ho).
  destruct (noted_change s A addr o (a_set_nonce n a) (setNonce n) (nonceChange addr (a_nonce a))) as (s' & E & Hst & _);
    [done..|by apply setNonce_abs|done| |by eexists _, s'].
  eapply undo_object; [done|done|done|]. intros w o' Ho'. split; [done|]. split; [done|].
  apply (setNonce_abs _ _ _ (a_nonce a)) in Ho'. by destruct a.
Qed.

Lemma obj_SetBalance_ok s A addr a typ x :
  abs s A -> Addr addr -> live s A addr a -> NoDup (a_balance a).*1 ->
  exists e s', obj_SetBalance addr typ x s = Ok ((), s') /\
    steps s A s' (set_acct addr (a_set_balance (replaceBalance typ x (a_balance a)) a) A) [e].
Proof.
  intros Ha Hu (Ea & o & Eo & Had & Ho) Hn. unfold obj_SetBalance. rewrite (bind_ok _ _ _ _ _ (the_ok _ _ _ Eo)).
  rewrite (oa_balance _ _ _ Ho). set (a' := a_set_balance (replaceBalance typ x (a_balance a)) a).
  assert (obj_abs (db s) (setBalance typ x o) a') as Ho'.
  { unfold setBalance. rewrite (oa_balance _ _ _ Ho). by apply balance_abs. }
  destruct (noted_change s A addr o a' (setBalance typ x) (balanceChange addr (a_balance a))) as (s' & E & Hst & _);
    [done..| |by eexists _, s'].
  assert (forall w o, obj_abs w o a' -> obj_abs w (setBalances (a_balance a) o) a) as Hback.
  { intros w o1 Ho1. rewrite setBalances_data, (oa_balance _ _ _ Ho1).
    rewrite replaceAll_back; [|done|cbn; apply replaceBalance_types].
    apply (balance_abs _ _ _ (a_balance a)) in Ho1. by destruct a. }
  destruct (a_balance a) as [|p b] eqn:Eb.
  - intros s1 Hs1 _ _. exists s1. split; [done|]. split; [|split; [done|split; [done|intros _; apply orderly_refl]]].
    eapply abs_aeq; [|done]. split; [|done]. intros k. cbn. unfold upd. case_decide as Ek; [|done]. subst k. rewrite Ea. f_equal.
    unfold a'. destruct a; cbn in *. by subst.
  - eapply undo_object; [done|done|done|]. intros w o1 Ho1. rewrite setBalances_data at 1 2. split; [done|]. split; [done|by apply Hback].
Qed.

Lemma storage_abs w o a k v :
  obj_abs w o a -> Slot k -> hash32 v -> obj_abs w (setState k v o) (a_set_store (map_update (place k) (slotBytes v) (a_store a)) a).
Proof.
  intros [] Hk Hv. destruct oa_storage as (m & Hm & Hs). constructor; try done.
  - exists m. split; [done|]. eapply shown_write; [done|by left|apply pending_setState|done].
  - by apply setState_cached.
Qed.

Lemma bytes_abs w o a k v :
  obj_abs w o a -> Raw k -> Forall is_u8 v -> obj_abs w (setStateByteArray k v o) (a_set_store (map_update (place k) v (a_store a)) a).
Proof.
  intros [] Hk Hv. destruct oa_storage as (m & Hm & Hs). constructor; try done.
  - exists m. split; [done|]. eapply shown_write; [done|by right|by intros; eapply pending_setBytes|done].
  - by apply setBytes_cached.
Qed.

Lemma code_abs w o a c :
  obj_abs w o a -> obj_abs w (setCode (keccak256 (default [] c)) c o) (a_set_code (keccak256 (default [] c)) (default [] c) a).
Proof.
  intros []. destruct oa_storage as (m & Hm & Hs), oa_cached. constructor; try done; [|by exists m; split; [|eapply shown_same]].
  unfold code_view. cbn. destruct c; [done|]. by rewrite decide_True by apply emptyCodeHash_ok.
Qed.

Lemma obj_SetState_ok s A addr a k v prev :
  abs s A -> Addr addr -> live s A addr a -> Slot k -> filled (a_store a) -> value_at (a_store a) k = slotBytes prev ->
  hash32 prev -> hash32 v ->
  exists e s', obj_SetState addr k v s = Ok ((), s') /\
    steps s A s' (set_acct addr (a_set_store (map_update (place k) (slotBytes v) (a_store a)) a) A) [e].
Proof.
  intros Ha Hu Hlive Hk Hf Hp Hp32 Hv.
  destruct (obj_GetState_ok s A addr a k prev Ha Hu Hlive Hk) as (s1 & E1 & Hq & Hlive1); [unfold slotval; by rewrite Hp, slot_roundtrip|].
  unfold obj_SetState. rewrite (bind_ok _ _ _ _ _ E1). destruct Hlive1 as (Ea & o & Eo & Had & Ho).
  destruct (noted_change s1 A addr o (a_set_store (map_update (place k) (slotBytes v) (a_store a)) a) (setState k v) (storageChange addr k prev))
    as (s' & E & Hst & _); [apply Hq|done..|by apply storage_abs|done| |eexists _, s'; split; [done|by eapply quiet_steps]].
  eapply undo_object; [done|done|done|]. intros w o' Ho'. split; [done|]. split; [done|].
  apply (storage_abs _ _ _ k prev) in Ho'; [|done..]. cbn in Ho'. rewrite <- Hp in Ho'. unfold value_at in Ho'.
  rewrite map_update_back in Ho' by done. by destruct a.
Qed.

Lemma obj_SetStateByteArray_ok s A addr a k v :
  abs s A -> Addr addr -> live s A addr a -> Raw k -> filled (a_store a) -> Forall is_u8 (value_at (a_store a) k) -> Forall is_u8 v ->
  exists e s', obj_SetStateByteArray addr k v s = Ok ((), s') /\
    steps s A s' (set_acct addr (a_set_store (map_update (place k) v (a_store a)) a) A) [e].
Proof.
  intros Ha Hu Hlive Hk Hf Hp Hv. destruct (obj_GetStateByteArray_ok s A addr a k Ha Hu Hlive Hk) as (s1 & E1 & Hq & Hlive1).
  unfold obj_SetStateByteArray. rewrite (bind_ok _ _ _ _ _ E1). destruct Hlive1 as (Ea & o & Eo & Had & Ho).
  destruct (noted_change s1 A addr o (a_set_store (map_update (place k) v (a_store a)) a) (setStateByteArray k v)
              (storageByteArrayChange addr k (value_at (a_store a) k)))
    as (s' & E & Hst & _); [apply Hq|done..|by apply bytes_abs|done| |eexists _, s'; split; [done|by eapply quiet_steps]].
  eapply undo_object; [done|done|done|]. intros w o' Ho'. split; [done|]. split; [done|].
  apply (bytes_abs _ _ _ k (value_at (a_store a) k)) in Ho'; [|done..]. cbn in Ho'. unfold value_at in Ho'.
  rewrite map_update_back in Ho' by done. by destruct a.
Qed.

Lemma obj_SetCode_ok s A addr a c :
  let h := keccak256 (default [] c) in
  abs s A -> Addr addr -> live s A addr a ->
  exists e s', obj_SetCode addr h c s = Ok ((), s') /\ steps s A s' (set_acct addr (a_set_code h (default [] c) a) A) [e].
Proof.
  intros h Ha Hu Hlive. destruct (obj_Code_ok s A addr a Ha Hu Hlive) as (pc & s1 & E1 & Hq & Hlive1 & Epc & Hpc).
  unfold obj_SetCode. rewrite (bind_ok _ _ _ _ _ E1). destruct Hlive1 as (Ea & o & Eo & Had & Ho).
  rewrite (bind_ok _ _ _ _ _ (the_ok _ _ _ Eo)). rewrite (oa_codehash _ _ _ Ho).
  destruct (noted_change s1 A addr o (a_set_code h (default [] c) a) (setCode h c) (codeChange addr pc (a_codehash a)))
    as (s' & E & Hst & _); [apply Hq|done..|by apply code_abs|done| |eexists _, s'; split; [done|by eapply quiet_steps]].
  assert (a_codehash a = keccak256 (default [] pc)) as Eh by by rewrite <- Epc, (oa_hash _ _ _ Ho).
  eapply undo_object; [done|done|done|]. intros w o' Ho'. split; [done|]. split; [done|].
  rewrite BytesToHash_32 by (rewrite Eh; apply length_keccak256). rewrite Eh.
  apply (code_abs _ _ _ pc) in Ho'. rewrite <- Eh, <- Epc in *. by destruct a.
Qed.

(** ** Balances *)

Definition a_empty (a : aacct) : bool :=
  (a_nonce a =? 0) && bool_decide (balanceOf MainAccount (a_balance a) = Some 0) && bool_decide (a_codehash a = emptyCodeHash).

Lemma empty_abs w o a : obj_abs w o a -> empty_ o = a_empty a.
Proof. intros []. unfold empty_, a_empty. by rewrite oa_nonce, oa_balance, oa_codehash. Qed.

Lemma set_acct_same addr a A : accts A addr = Some a -> aeq (set_acct addr a A) A.
Proof. intros Ea. split; [|done]. intros k. cbn. unfold upd. case_decide as E; [by subst|done]. Qed.

Lemma aeq_sym A A' : aeq A A' -> aeq A' A.
Proof. intros (Ea & Er & El & En & Ep & Em & Eb). by split_and!. Qed.

(** The abstract states may differ in how they are written. *)
Lemma steps_aeq s A s' A1 A2 es : aeq A1 A2 -> steps s A s' A1 es -> steps s A s' A2 es.
Proof.
  intros He []. split; try done; [by eapply abs_aeq| |].
  2: { intros addr. destruct (st_touch0 addr) as [?|E]; [by left|right]. rewrite <- E. symmetry. apply He. }
  clear st_entries0 st_dirty0 st_touch0. revert A st_trail0.
  induction es as [|e es IH]; intros A; cbn.
  - intros Ht s1 Hs1. apply Ht. eapply abs_aeq; [by apply aeq_sym|done].
  - intros (A0 & Hu & Ht). exists A0. split; [done|by apply IH].
Qed.

Lemma touch_ok s A addr : abs s A -> exists e s', touch addr s = Ok ((), s') /\ steps s A s' A [e].
Proof.
  intros Ha. unfold touch, journal_append. rewrite (bind_ok _ _ _ _ _ eq_refl). exists (touchChange addr).
  assert (undoes (strie s) (db s) (touchChange addr) A A) as Hu.
  { intros s1 Hs1 _ _. exists s1. split; [done|]. split; [done|]. split; [done|]. split; [done|]. intros _. apply orderly_refl. }
  assert (forall d, orderly s (set_journal (mkJournal (entries (sjournal s) ++ [touchChange addr]) d) s)) as Hor.
  { intros d. apply orderly_same; [done..|]. apply inherits_same; [done..|]. intros o. cbn. set_solver. }
  case_bool_decide as E; (eexists; split; [done|]; split; try done);
    try (by destruct Ha; split); try (by apply trail_one); try (by apply only_touched_same); try apply Hor.
  cbn. intros b Hb. rewrite E. rewrite !dirty_more_lookup. by rewrite decide_False.
Qed.

(** What adding to a balance does; nothing when there is no account of the type. *)
Definition a_move (typ x : Z) (a : aacct) : aacct :=
  if x =? 0 then a
  else match balanceOf typ (a_balance a) with
       | Some b => a_set_balance (replaceBalance typ (b + x) (a_balance a)) a
       | None => a
       end.

Lemma obj_AddBalance_ok s A addr a typ x :
  abs s A -> Addr addr -> live s A addr a -> NoDup (a_balance a).*1 ->
  exists es s', obj_AddBalance addr typ x s = Ok ((), s') /\ steps s A s' (set_acct addr (a_move typ x a) A) es.
Proof.
  intros Ha Hu Hlive Hn. pose proof Hlive as (Ea & o & Eo & Had & Ho). unfold obj_AddBalance, a_move.
  rewrite (bind_ok _ _ _ _ _ (the_ok _ _ _ Eo)). rewrite (empty_abs _ _ _ Ho), (oa_balance _ _ _ Ho).
  pose proof (aeq_sym _ _ (set_acct_same addr a A Ea)) as Hsame. destruct (x =? 0).
  - destruct (a_empty a).
    + destruct (touch_ok s A addr Ha) as (e & s' & E & Hst). eexists _, s'. split; [done|by eapply steps_aeq].
    + eexists [], s. split; [done|]. eapply steps_aeq; [done|]. by apply quiet_is_steps, quiet_refl.
  - destruct (balanceOf typ (a_balance a)) as [b|].
    + destruct (obj_SetBalance_ok s A addr a typ (b + x) Ha Hu Hlive Hn) as (e & s' & E & Hst). by eexists _, s'.
    + eexists [], s. split; [done|]. eapply steps_aeq; [done|]. by apply quiet_is_steps, quiet_refl.
Qed.

Lemma obj_SubBalance_ok s A addr a typ x :
  abs s A -> Addr addr -> live s A addr a -> NoDup (a_balance a).*1 ->
  exists es s', obj_SubBalance addr typ x s = Ok ((), s') /\ steps s A s' (set_acct addr (a_move typ (- x) a) A) es.
Proof.
  intros Ha Hu Hlive Hn. pose proof Hlive as (Ea & o & Eo & Had & Ho). unfold obj_SubBalance, a_move.
  rewrite (bind_ok _ _ _ _ _ (the_ok _ _ _ Eo)). rewrite (oa_balance _ _ _ Ho).
  pose proof (aeq_sym _ _ (set_acct_same addr a A Ea)) as Hsame. replace (- x =? 0) with (x =? 0) by lia. destruct (x =? 0).
  - eexists [], s. split; [done|]. eapply steps_aeq; [done|]. by apply quiet_is_steps, quiet_refl.
  - destruct (balanceOf typ (a_balance a)) as [b|].
    + destruct (obj_SetBalance_ok s A addr a typ (b - x) Ha Hu Hlive Hn) as (e & s' & E & Hst). by eexists _, s'.
    + eexists [], s. split; [done|]. eapply steps_aeq; [done|]. by apply quiet_is_steps, quiet_refl.
Qed.
End Ops.
