(* ===== verification/StateRefine.v ===== *)
(** * The journal is as good as copies

    A client of the state calls operations and, around calls of its own, takes
    snapshots and reverts to them.  What it sees is what it would see if a snapshot
    were a copy of the accounts. *)

From S2P Require Import Rlp RlpCodec Sponge TrieDatabase Trie TrieSpec BTree BTreeMap StateObject StateStore StateDB StateSpec.
From S2P Require Import StateStorage StateJournal StateOps Prelude.

#[local] Set Warnings "-register-all".
#[local] Open Scope state_scope.

(** ** Operations and answers *)

Inductive op :=
| OCreateAccount (addr : list Z)
| OAddBalance (typ : Z) (addr : list Z) (amount : Z)
| OSubBalance (typ : Z) (addr : list Z) (amount : Z)
| OSetBalance (typ : Z) (addr : list Z) (amount : Z)
| OSetNonce (addr : list Z) (nonce : Z)
| OSetCode (addr : list Z) (c : option (list Z))
| OSetState (addr key value : list Z)
| OSetBytes (addr key value : list Z)
| OAddRefund (gas : Z)
| OAddPreimage (hash preimage : list Z)
| OAddLog (thash bhash : list Z) (txIndex : Z) (address : list Z) (topics : list (list Z)) (d : list Z)
| OExist (addr : list Z)
| OEmpty (addr : list Z)
| OGetBalance (addr : list Z)
| OGetBalanceByType (addr : list Z) (typ : Z)
| OGetNonce (addr : list Z)
| OGetCode (addr : list Z)
| OGetCodeHash (addr : list Z)
| OGetState (addr key : list Z)
| OGetBytes (addr key : list Z)
| OHasSuicided (addr : list Z)
| OGetRefund
| OGetMatrixData (hash : list Z).

(** Code that is nil and code that is empty are not told apart. *)
Inductive answer := ADone | ABool (b : bool) | ANum (x : Z) | ABytes (l : list Z) | ABalances (b : BalanceType).

Section Run.
Context `{StateStore}.

Definition answered {A} (f : A -> answer) (m : M A) : M answer := do a <- m; ret (f a).

Definition do_op (o : op) : M answer :=
  match o with
  | OCreateAccount addr => answered (fun _ => ADone) (CreateAccount addr)
  | OAddBalance typ addr x => answered (fun _ => ADone) (AddBalance typ addr x)
  | OSubBalance typ addr x => answered (fun _ => ADone) (SubBalance typ addr x)
  | OSetBalance typ addr x => answered (fun _ => ADone) (SetBalance typ addr x)
  | OSetNonce addr n => answered (fun _ => ADone) (SetNonce addr n)
  | OSetCode addr c => answered (fun _ => ADone) (SetCode addr c)
  | OSetState addr k v => answered (fun _ => ADone) (SetState addr k v)
  | OSetBytes addr k v => answered (fun _ => ADone) (SetStateByteArray addr k v)
  | OAddRefund g => answered (fun _ => ADone) (AddRefund g)
  | OAddPreimage h p => answered (fun _ => ADone) (AddPreimage h p)
  | OAddLog th bh i a t d => answered (fun _ => ADone) (AddLog th bh i a t d)
  | OExist addr => answered ABool (Exist addr)
  | OEmpty addr => answered ABool (StateDB.Empty addr)
  | OGetBalance addr => answered ABalances (GetBalance addr)
  | OGetBalanceByType addr typ => answered ANum (GetBalanceByType addr typ)
  | OGetNonce addr => answered ANum (GetNonce addr)
  | OGetCode addr => answered (fun c => ABytes (default [] c)) (GetCode addr)
  | OGetCodeHash addr => answered ABytes (GetCodeHash addr)
  | OGetState addr k => answered ABytes (GetState addr k)
  | OGetBytes addr k => answered ABytes (GetStateByteArray addr k)
  | OHasSuicided addr => answered ABool (HasSuicided addr)
  | OGetRefund => answered ANum GetRefund
  | OGetMatrixData h => answered ABytes (GetMatrixData h)
  end.

(** A client: it may look at every answer, and it ends with success or failure.  A
    call that fails is reverted, as the virtual machine does it. *)
Inductive prog :=
| PRet (ok : bool)
| POp (o : op) (k : answer -> prog)
| PCall (body : prog) (k : bool -> prog).

Fixpoint run (p : prog) : M bool :=
  match p with
  | PRet ok => ret ok
  | POp o k => do r <- do_op o; run (k r)
  | PCall body k =>
      do id <- Snapshot;
      do ok <- run body;
      (if ok then ret () else RevertToSnapshot id) ;;
      run (k ok)
  end.
End Run.

(** ** The same on abstract states *)

Definition update_acct (addr : list Z) (f : aacct -> aacct) (A : astate) : answer * astate :=
  (ADone, set_acct addr (f (acct_or_new addr A)) A).

Definition a_balances (addr : list Z) (A : astate) : BalanceType :=
  match accts A addr with Some a => a_balance a | None => [] end.

Section Spec.
Context `{StateFacts}.

Definition spec_op (o : op) (A : astate) : answer * astate :=
  let ask {B} (addr : list Z) (f : aacct -> B) (d : B) (g : B -> answer) : answer * astate :=
    (g (match accts A addr with Some a => f a | None => d end), A) in
  match o with
  | OCreateAccount addr =>
      (ADone, set_acct addr (a_set_balance (replaceAll (a_balances addr A) zeroBalance) fresh_acct) A)
  | OAddBalance typ addr x => update_acct addr (a_move typ x) A
  | OSubBalance typ addr x => update_acct addr (a_move typ (- x)) A
  | OSetBalance typ addr x => update_acct addr (fun a => a_set_balance (replaceBalance typ x (a_balance a)) a) A
  | OSetNonce addr n => update_acct addr (a_set_nonce (Z.lor n NonceAddOne)) A
  | OSetCode addr c => update_acct addr (a_set_code (keccak256 (default [] c)) (default [] c)) A
  | OSetState addr k v => update_acct addr (fun a => a_set_store (map_update (place k) (slotBytes v) (a_store a)) a) A
  | OSetBytes addr k v => update_acct addr (fun a => a_set_store (map_update (place k) v (a_store a)) a) A
  | OAddRefund g =>
      (ADone, mkAS (accts A) (u64 (a_refund A + g)) (a_logs A) (a_logSize A) (a_preimages A) (a_matrix A) (a_btrees A))
  | OAddPreimage h p =>
      (ADone, mkAS (accts A) (a_refund A) (a_logs A) (a_logSize A)
                (match a_preimages A !! h with Some _ => a_preimages A | None => <[h := p]> (a_preimages A) end)
                (a_matrix A) (a_btrees A))
  | OAddLog th bh i a t d =>
      (ADone, mkAS (accts A) (a_refund A)
                (<[th := default [] (a_logs A !! th) ++ [mkLog a t d th i bh (a_logSize A)]]> (a_logs A)) (a_logSize A + 1)
                (a_preimages A) (a_matrix A) (a_btrees A))
  | OExist addr => ask addr (fun _ => true) false ABool
  | OEmpty addr => ask addr a_empty true ABool
  | OGetBalance addr => ask addr a_balance zeroBalance ABalances
  | OGetBalanceByType addr typ => ask addr (fun a => default 0 (balanceOf typ (a_balance a))) 0 ANum
  | OGetNonce addr => ask addr a_nonce NonceAddOne ANum
  | OGetCode addr => ask addr a_code [] ABytes
  | OGetCodeHash addr => ask addr a_codehash emptyHash ABytes
  | OGetState addr k => ask addr (fun a => default emptyHash (slotval (a_store a) k)) emptyHash ABytes
  | OGetBytes addr k => ask addr (fun a => value_at (a_store a) k) [] ABytes
  | OHasSuicided addr => ask addr a_suicided false ABool
  | OGetRefund => (ANum (a_refund A), A)
  | OGetMatrixData h => (ABytes (default [] (a_matrix A h)), A)
  end.

(** A call that fails leaves the state as it was before. *)
Fixpoint spec (p : prog) (A : astate) : bool * astate :=
  match p with
  | PRet ok => (ok, A)
  | POp o k => let (r, A) := spec_op o A in spec (k r) A
  | PCall body k =>
      let (ok, A') := spec body A in
      spec (k ok) (if ok then A' else A)
  end.

End Spec.

(** ** They agree *)

Section Refine.
Context `{StateLaws, !Keys}.

#[local] Abbreviation obj := (stateObject handle).

(** Accounts have no type of balance twice, and the slots are what is written for
    values. *)
Record nice_acct (a : aacct) : Prop := {
  na_types : NoDup (a_balance a).*1;
  na_filled : filled (a_store a);
  na_slot : forall k, Slot k -> exists v, value_at (a_store a) k = slotBytes v /\ hash32 v;
  na_raw : forall k, Raw k -> Forall is_u8 (value_at (a_store a) k)
}.

Record nice (A : astate) : Prop := {
  n_acct : forall addr a, Addr addr -> accts A addr = Some a -> nice_acct a;
  n_matrix : forall h, Mat h -> is_Some (a_matrix A h);
  n_logs : forall h, a_logs A !! h <> Some []
}.

Definition op_ok (o : op) : Prop :=
  match o with
  | OCreateAccount addr | OAddBalance _ addr _ | OSubBalance _ addr _ | OSetBalance _ addr _ | OSetNonce addr _ | OSetCode addr _
  | OExist addr | OEmpty addr | OGetBalance addr | OGetBalanceByType addr _ | OGetNonce addr | OGetCode addr
  | OGetCodeHash addr | OHasSuicided addr => Addr addr
  | OSetState addr k v => Addr addr /\ Slot k /\ hash32 v
  | OGetState addr k => Addr addr /\ Slot k
  | OSetBytes addr k v => Addr addr /\ Raw k /\ Forall is_u8 v
  | OGetBytes addr k => Addr addr /\ Raw k
  | OGetMatrixData h => Mat h
  | OAddRefund _ | OAddPreimage _ _ | OAddLog _ _ _ _ _ _ | OGetRefund => True
  end.

Fixpoint prog_ok (p : prog) : Prop :=
  match p with
  | PRet _ => True
  | POp o k => op_ok o /\ forall r, prog_ok (k r)
  | PCall body k => prog_ok body /\ forall b, prog_ok (k b)
  end.

Lemma zero_types : NoDup zeroBalance.*1.
Proof. by apply (bool_decide_unpack _). Qed.

Lemma fresh_nice : nice_acct fresh_acct.
Proof.
  split; cbn; unfold value_at; [apply zero_types|by intros p v|..]; intros k _; [|constructor]. exists emptyHash.
  split; [done|]. split; [by apply (bool_decide_unpack _)|done].
Qed.

Lemma nice_balance b a : nice_acct a -> NoDup b.*1 -> nice_acct (a_set_balance b a).
Proof. by intros [] Hb. Qed.

Lemma nice_store k v a :
  nice_acct a -> (Slot k /\ exists x, v = slotBytes x /\ hash32 x) \/ (Raw k /\ Forall is_u8 v) ->
  nice_acct (a_set_store (map_update (place k) v (a_store a)) a).
Proof.
  intros [] Hk. assert (Slot k \/ Raw k) as Hkk by (destruct Hk as [[? _]|[? _]]; auto). split; [done|..]; cbn.
  - intros p x. rewrite map_update_lookup. case_decide; [by destruct v; intros [= <-]|apply na_filled0].
  - intros k' Hk'. rewrite value_at_update by auto. case_decide; [subst|by apply na_slot0]. destruct Hk as [[_ ?]|[? _]]; [done|].
    by destruct (Slot_not_Raw k).
  - intros k' Hk'. rewrite value_at_update by auto. case_decide; [subst|by apply na_raw0]. destruct Hk as [[? _]|[_ ?]]; [|done].
    by destruct (Slot_not_Raw k).
Qed.

Lemma or_new_nice addr A : nice A -> Addr addr -> nice_acct (acct_or_new addr A).
Proof.
  intros Hn Hu. unfold acct_or_new. destruct (accts A addr) eqn:E; [by eapply n_acct|apply fresh_nice].
Qed.

Lemma set_acct_nice addr a A : nice A -> nice_acct a -> nice (set_acct addr a A).
Proof.
  intros [] Ha. split; [|done..]. intros b c Hb. cbn. unfold upd. case_decide; [|by apply n_acct0]. intros [= <-]. done.
Qed.

Lemma move_nice typ x a : nice_acct a -> nice_acct (a_move typ x a).
Proof.
  intros Hn. unfold a_move. destruct (x =? 0); [done|]. destruct (balanceOf _ _); [|done]. apply nice_balance; [done|].
  rewrite replaceBalance_types. apply Hn.
Qed.

Lemma spec_op_nice o A : nice A -> op_ok o -> nice (spec_op o A).2.
Proof.
  intros Hn Ho. destruct o; cbn in *; try done;
    try (apply set_acct_nice; [done|]; try (by apply move_nice, or_new_nice)).
  - apply nice_balance; [apply fresh_nice|]. rewrite replaceAll_types. apply zero_types.
  - apply nice_balance; [by apply or_new_nice|]. rewrite replaceBalance_types. by apply (or_new_nice addr A).
  - by destruct (or_new_nice addr A Hn Ho).
  - by destruct (or_new_nice addr A Hn Ho).
  - destruct Ho as (Hu & Hk & Hv). apply nice_store; [by apply or_new_nice|]. left. split; [done|by exists value].
  - destruct Ho as (Hu & Hk & Hv). apply nice_store; [by apply or_new_nice|]. by right.
  - by destruct Hn.
  - by destruct Hn.
  - destruct Hn. split; try done. cbn. intros h. rewrite lookup_insert_Some. intros [[_ E]|[_ E]]; [|by eapply n_logs0].
    by apply app_eq_nil in E as [_ ?].
Qed.

Lemma answered_ok {B} (f : B -> answer) (m : M B) s b s' : m s = Ok (b, s') -> answered f m s = Ok (f b, s').
Proof. intros E. unfold answered. by rewrite (bind_ok _ _ _ _ _ E). Qed.

(** An operation on the object of an address, which is created when it is not there. *)
Lemma update_ok s A addr (m : M ()) (f : aacct -> aacct) :
  abs s A -> nice A -> Addr addr ->
  (forall s A a, abs s A -> live s A addr a -> nice_acct a ->
     exists es s', m s = Ok ((), s') /\ steps s A s' (set_acct addr (f a) A) es) ->
  exists es s', answered (fun _ => ADone) (GetOrNewStateObject addr ;; m) s = Ok ((update_acct addr f A).1, s') /\
    steps s A s' (update_acct addr f A).2 es.
Proof.
  intros Ha Hn Hu Hm. destruct (GetOrNewStateObject_ok s A addr Ha Hu) as (es1 & s1 & E1 & Hst1 & Hlive).
  destruct (Hm s1 _ _ (st_abs _ _ _ _ _ Hst1) Hlive (or_new_nice addr A Hn Hu)) as (es2 & s2 & E2 & Hst2).
  exists (es1 ++ es2), s2. split; [refine (answered_ok (fun _ => ADone) _ s () s2 _); by rewrite (bind_ok _ _ _ _ _ E1)|].
  eapply steps_trans; [done..|]. eapply steps_aeq; [|done]. split; [|done]. intros k. cbn. unfold upd. by case_decide.
Qed.
(** A question about the account of an address. *)
Lemma ask_ok {B} s A addr (f : obj -> B) (fa : aacct -> B) d g :
  abs s A -> Addr addr -> (forall w o a, obj_abs w o a -> f o = fa a) ->
  exists s', answered g (do o <- getStateObject addr; ret (match o with Some o => f o | None => d end)) s =
      Ok (g (match accts A addr with Some a => fa a | None => d end), s') /\ quiet s A s'.
Proof.
  intros Ha Hu Hf. destruct (getStateObject_ok s A addr Ha Hu) as (oo & s1 & E1 & Hq & Hfo).
  exists s1. split; [|done]. apply answered_ok. rewrite (bind_ok _ _ _ _ _ E1). unfold found in Hfo.
  destruct (accts A addr) as [a|].
  - destruct Hfo as (o & -> & _ & _ & Ho). by rewrite (Hf _ _ _ Ho).
  - by destruct Hfo as [-> _].
Qed.

(** A question that needs more than the account. *)
Lemma ask_more_ok {B} s A addr (m : M B) (g : B -> answer) (fa : aacct -> answer) d :
  abs s A -> Addr addr ->
  (forall s a, abs s A -> live s A addr a -> exists b s', m s = Ok (b, s') /\ g b = fa a /\ quiet s A s') ->
  exists s', answered g (do o <- getStateObject addr; match o with Some _ => m | None => ret d end) s =
      Ok (match accts A addr with Some a => fa a | None => g d end, s') /\ quiet s A s'.
Proof.
  intros Ha Hu Hm. destruct (getStateObject_ok s A addr Ha Hu) as (oo & s1 & E1 & Hq & Hfo).
  unfold answered. unfold bind at 1. rewrite (bind_ok _ _ _ _ _ E1). unfold found in Hfo. destruct (accts A addr) as [a|] eqn:Ea.
  - destruct Hfo as (o & -> & Eo & Had & Ho). destruct (Hm s1 a) as (b & s2 & E2 & Eb & Hq2); [apply Hq|by split; [|exists o]|].
    exists s2. rewrite E2, <- Eb. split; [done|by eapply quiet_quiet].
  - destruct Hfo as [-> _]. by exists s1.
Qed.

Lemma CreateAccount_ok s A addr :
  abs s A -> Addr addr ->
  exists es s', CreateAccount addr s = Ok ((), s') /\ steps s A s' (spec_op (OCreateAccount addr) A).2 es.
Proof.
  intros Ha Hu. destruct (createObject_ok s A addr Ha Hu) as (prev & e & s1 & E1 & Hst & Eo & Hb & Hp).
  unfold CreateAccount. rewrite (bind_ok _ _ _ _ _ E1). cbn [spec_op snd]. unfold a_balances.
  destruct (accts A addr) as [a|]; [|subst prev; by exists [e], s1]. destruct Hp as (o & -> & Ho).
  rewrite (oa_balance _ _ _ Ho). destruct Hst.
  destruct (change_ok s1 (set_acct addr fresh_acct A) addr (newborn addr)
              (a_set_balance (replaceAll (a_balance a) zeroBalance) fresh_acct) (setBalances (a_balance a)))
    as (s2 & E2 & Ha2 & Ed & (Et & Ej & Er & En) & _ & Hor); [done..|by rewrite setBalances_data|by rewrite setBalances_data| |].
  { rewrite setBalances_data. apply balance_abs, newborn_abs. }
  exists [e], s2. split; [done|].
  assert (abs s2 (set_acct addr (a_set_balance (replaceAll (a_balance a) zeroBalance) fresh_acct) A)) as Ha2'.
  { eapply abs_aeq; [|done]. split; [|done]. intros k. cbn. unfold upd. by case_decide. }
  split; try congruence; rewrite ?Ed, ?Ej; try done; [apply trail_one; rewrite <- st_trie; apply Hb|apply only_touched_one, Hb|].
  by eapply orderly_trans.
Qed.

(** The accounts and the store are as before. *)
Definition aside (s s' : StateDB) : Prop :=
  db s' = db s /\ stateObjects s' = stateObjects s /\ stateObjectsDirty s' = stateObjectsDirty s /\ matrixData s' = matrixData s.

Lemma aside_orderly s s' : aside s s' -> strie s' = strie s -> sjournal s' = sjournal s -> orderly s s'.
Proof.
  intros (Ed & Eo & Em & Ex) Et Ej. apply orderly_same; [by rewrite Ed|done|done|]. apply inherits_same; [done..|].
  by rewrite Ej.
Qed.

(** An entry about something other than the accounts. *)
Lemma noted_rest s A A' e (f : StateDB -> StateDB) :
  abs (f (set_journal (note e (sjournal s)) s)) A' ->
  (forall s1, aside s1 (f s1) /\ same_rest s1 (f s1)) -> (forall o, e <> resetObjectChange o) ->
  undoes (strie s) (db s) e A' A -> accts A' = accts A ->
  exists s', (journal_append e ;; modify f) s = Ok ((), s') /\ steps s A s' A' [e].
Proof.
  intros Ha Hf He Hu Hac. unfold journal_append. rewrite (bind_ok _ _ _ _ _ eq_refl). eexists. split; [done|].
  destruct (Hf (set_journal (note e (sjournal s)) s)) as [Has Hr]. pose proof Has as (Ed & _). pose proof Hr as (Et & Ej & Er & En).
  split; rewrite ?Ed, ?Ej, ?Et; try done; [by apply trail_one|apply only_touched_same; by rewrite Hac|].
  eapply (orderly_trans s (set_journal (note e (sjournal s)) s)); [done|done| |by apply aside_orderly].
  apply orderly_note. intros o Eo. by destruct (He o).
Qed.

Lemma AddRefund_ok s A g : abs s A -> exists es s', AddRefund g s = Ok ((), s') /\ steps s A s' (spec_op (OAddRefund g) A).2 es.
Proof.
  intros Ha. unfold AddRefund. rewrite (bind_ok _ _ _ _ _ eq_refl). rewrite (abs_refund _ _ Ha).
  eexists [_]. eapply noted_rest; [by destruct Ha; split|done|done| |done].
  intros s1 Hs1 _ _. eexists. split; [done|]. split; [by destruct Hs1; split|]. split; [done|]. split; [done|]. intros _. by apply aside_orderly.
Qed.

Lemma AddPreimage_ok s A h p :
  abs s A -> exists es s', AddPreimage h p s = Ok ((), s') /\ steps s A s' (spec_op (OAddPreimage h p) A).2 es.
Proof.
  intros Ha. unfold AddPreimage. rewrite (bind_ok _ _ _ _ _ eq_refl). rewrite (abs_preimages _ _ Ha). cbn [spec_op snd].
  destruct (a_preimages A !! h) as [q|] eqn:Eh.
  - exists [], s. split; [done|]. eapply steps_aeq; [|by apply quiet_is_steps, quiet_refl]. done.
  - eexists [_]. eapply noted_rest; [by destruct Ha; split|done|done| |done].
    intros s1 Hs1 _ _. eexists. split; [done|]. split; [|split; [done|]; split; [done|]; intros _; by apply aside_orderly]. destruct Hs1. split; try done. cbn in *.
    rewrite abs_preimages. by apply delete_insert_id.
Qed.

Lemma removelast_snoc {B} (l : list B) x : removelast (l ++ [x]) = l.
Proof. apply removelast_last. Qed.

Lemma AddLog_ok s A th bh i a t d :
  abs s A -> a_logs A !! th <> Some [] ->
  exists es s', AddLog th bh i a t d s = Ok ((), s') /\ steps s A s' (spec_op (OAddLog th bh i a t d) A).2 es.
Proof.
  intros Ha Hl. unfold AddLog. eexists [_]. eapply noted_rest; [|done|done| |done].
  { destruct Ha. split; try done; cbn; congruence. }
  intros s1 Hs1 _ _. cbn [revert]. rewrite (bind_ok _ _ _ _ _ eq_refl). rewrite (abs_logs _ _ Hs1). cbn [spec_op snd a_logs].
  rewrite lookup_insert_eq. cbn [default from_option id]. destruct (a_logs A !! th) as [[|x l]|] eqn:El; cbn [default from_option id].
  - done.
  - rewrite <- app_comm_cons. destruct (l ++ [_]) as [|y l'] eqn:Ey; [by apply app_eq_nil in Ey as [_ ?]|]. rewrite <- Ey.
    eexists. split; [done|]. split; [|split; [done|]; split; [done|]; intros _; by apply aside_orderly]. destruct Hs1. split; try done; cbn in *.
    + rewrite removelast_snoc, insert_insert_eq, Ey. by apply insert_id.
    + rewrite abs_logSize. lia.
  - cbn [app]. eexists. split; [done|]. split; [|split; [done|]; split; [done|]; intros _; by apply aside_orderly]. destruct Hs1. split; try done; cbn in *.
    + by apply delete_insert_id.
    + rewrite abs_logSize. lia.
Qed.

Lemma GetMatrixData_ok s A h v :
  abs s A -> Mat h -> a_matrix A h = Some v -> exists s', GetMatrixData h s = Ok (v, s') /\ quiet s A s'.
Proof.
  intros Ha Hu Hv. pose proof Ha as [Hh (M & HM & Hvw & Hm) _ _ _ _ _ _]. specialize (Hm h Hu) as Hmh. rewrite Hv in Hmh.
  unfold mview in Hmh. unfold GetMatrixData. rewrite (bind_ok _ _ _ _ _ eq_refl). destruct (matrixData s !! h) as [x|] eqn:Ex.
  - exists s. destruct Hmh as [[= ->] _]. split; [done|by apply quiet_refl].
  - rewrite (bind_ok _ _ _ _ _ eq_refl). destruct (get_law (db s) (strie s) M h Hh HM (Mat_u8 _ Hu)) as (w & E & Hl).
    rewrite (bind_ok _ _ s _ _ (call_ok _ s _ w E)). fold (value_at M h). pose proof (quiet_db s A w Ha Hl) as Hq.
    destruct Hmh as [Hnd Hmh]. unfold stored_at in Hmh. destruct (value_at M h) as [|y l] eqn:Ey; cbn [length Nat.eqb].
    + exists (set_db w s). injection Hmh as <-. by split.
    + destruct (stripPrefix (y :: l)) as [x| |] eqn:Es; [|done..]. injection Hmh as ->.
      eexists. split; [done|]. eapply quiet_quiet; [done|]. destruct Hq as [[] _ _ _]. split; [|done|done|].
      * split; try done. destruct abs_trie as (M1 & HM1 & Hv1 & Hm1). exists M1. split; [done|]. split; [done|]. intros h' Hh'.
        specialize (Hm1 h' Hh'). unfold mview in *. cbn in *. destruct (decide (h' = h)) as [->|Hne]; [|by rewrite lookup_insert_ne].
        rewrite lookup_insert_eq, Hv, decide_False by done. split; [done|].
        rewrite (has_one _ _ _ _ HM1 (later_keeps_has _ _ _ _ Hl HM)). unfold stored_at. by rewrite Ey, Es.
      * apply orderly_same; [done..|]. split; cbn; [auto|auto| |auto]. intros h' v'. rewrite lookup_insert_Some. intros [[<- _]|[_ ?]]; auto.
Qed.

Lemma done_answer s A (m : M ()) A' :
  (exists es s', m s = Ok ((), s') /\ steps s A s' A' es) ->
  exists es s', answered (fun _ => ADone) m s = Ok (ADone, s') /\ steps s A s' A' es.
Proof. intros (es & s' & E & Hst). exists es, s'. split; [|done]. refine (answered_ok (fun _ => ADone) _ s () s' E). Qed.

(** Questions, which leave no entry in the journal. *)
Definition is_question (o : op) : bool :=
  match o with
  | OCreateAccount _ | OAddBalance _ _ _ | OSubBalance _ _ _ | OSetBalance _ _ _ | OSetNonce _ _ | OSetCode _ _ | OSetState _ _ _
  | OSetBytes _ _ _ | OAddRefund _ | OAddPreimage _ _ | OAddLog _ _ _ _ _ _ => false
  | _ => true
  end.

Lemma do_write_ok s A o :
  abs s A -> nice A -> op_ok o -> is_question o = false ->
  exists es s', do_op o s = Ok ((spec_op o A).1, s') /\ steps s A s' (spec_op o A).2 es.
Proof.
  intros Ha Hn Ho Hq. destruct o as [addr|typ addr x|typ addr x|typ addr x|addr n|addr c|addr k v|addr k v|g|h p|th bh i a t d
    |addr|addr|addr|addr typ|addr|addr|addr|addr k|addr k|addr| |h]; cbn [op_ok] in Ho; cbn [do_op]; try done.
  - by apply done_answer, CreateAccount_ok.
  - apply update_ok; [done..|]. intros s1 A1 a1 Ha1 Hl1 [Hb1 _]. by apply obj_AddBalance_ok.
  - apply update_ok; [done..|]. intros s1 A1 a1 Ha1 Hl1 [Hb1 _]. by apply obj_SubBalance_ok.
  - apply update_ok; [done..|]. intros s1 A1 a1 Ha1 Hl1 [Hb1 _].
    destruct (obj_SetBalance_ok s1 A1 addr a1 typ x) as (e & s2 & E & Hst); [done..|]. by exists [e], s2.
  - apply update_ok; [done..|]. intros s1 A1 a1 Ha1 Hl1 _.
    destruct (obj_SetNonce_ok s1 A1 addr a1 (Z.lor n NonceAddOne)) as (e & s2 & E & Hst); [done..|]. by exists [e], s2.
  - apply update_ok; [done..|]. intros s1 A1 a1 Ha1 Hl1 _.
    destruct (obj_SetCode_ok s1 A1 addr a1 c) as (e & s2 & E & Hst); [done..|]. by exists [e], s2.
  - destruct Ho as (Hu & Hk & Hv). apply update_ok; [done..|]. intros s1 A1 a1 Ha1 Hl1 Hn1. destruct (na_slot _ Hn1 k Hk) as (prev & Hp & Hp32).
    destruct (obj_SetState_ok s1 A1 addr a1 k v prev) as (e & s2 & E & Hst); [done..|apply Hn1|done|done|done|]. by exists [e], s2.
  - destruct Ho as (Hu & Hk & Hv). apply update_ok; [done..|]. intros s1 A1 a1 Ha1 Hl1 Hn1.
    destruct (obj_SetStateByteArray_ok s1 A1 addr a1 k v) as (e & s2 & E & Hst); [done..|apply Hn1|by apply Hn1|done|]. by exists [e], s2.
  - by apply done_answer, AddRefund_ok.
  - by apply done_answer, AddPreimage_ok.
  - apply done_answer, AddLog_ok; [done|apply Hn].
Qed.

Lemma answer_match {B} (oa : option aacct) (f : aacct -> B) d (g : B -> answer) :
  match oa with Some a => g (f a) | None => g d end = g (match oa with Some a => f a | None => d end).
Proof. by destruct oa. Qed.

Lemma do_question_ok s A o :
  abs s A -> nice A -> op_ok o -> is_question o = true ->
  exists s', do_op o s = Ok ((spec_op o A).1, s') /\ quiet s A s'.
Proof.
  intros Ha Hn Ho Hq. destruct o as [addr|typ addr x|typ addr x|typ addr x|addr n|addr c|addr k v|addr k v|g|h p|th bh i a t d
    |addr|addr|addr|addr typ|addr|addr|addr|addr k|addr k|addr| |h]; cbn [op_ok] in Ho; cbn [do_op spec_op fst]; try done.
  - by apply (ask_ok s A addr (fun _ => true) (fun _ => true) false ABool).
  - apply (ask_ok s A addr empty_ a_empty true ABool); [done..|]. by intros w o a; apply empty_abs.
  - apply (ask_ok s A addr (fun o => Balance (data o)) a_balance zeroBalance ABalances); [done..|]. by intros w o a [].
  - apply (ask_ok s A addr (fun o => default 0 (balanceOf typ (Balance (data o))))
      (fun a => default 0 (balanceOf typ (a_balance a))) 0 ANum); [done..|]. by intros w o a [_ -> _ _ _ _ _ _ _ _].
  - apply (ask_ok s A addr (fun o => Nonce (data o)) a_nonce NonceAddOne ANum); [done..|]. by intros w o a [].
  - rewrite <- (answer_match _ a_code [] ABytes).
    apply (ask_more_ok s A addr (obj_Code addr) (fun c => ABytes (default [] c)) (fun a => ABytes (a_code a)) None); [done..|].
    intros s1 a Ha1 Hl1. destruct (obj_Code_ok s1 A addr a Ha1 Ho Hl1) as (c & s2 & E2 & Hq2 & _ & Ec & _). exists c, s2. by rewrite Ec.
  - apply (ask_ok s A addr (fun o => BytesToHash (CodeHash (data o))) a_codehash emptyHash ABytes); [done..|].
    intros w o a Ho'. by rewrite (obj_abs_hash _ _ _ Ho'), (oa_codehash _ _ _ Ho').
  - destruct Ho as (Hu & Hk). rewrite <- (answer_match _ (fun a => default emptyHash (slotval (a_store a) k)) emptyHash ABytes).
    apply (ask_more_ok s A addr (obj_GetState addr k) ABytes (fun a => ABytes (default emptyHash (slotval (a_store a) k))) emptyHash); [done..|].
    intros s1 a Ha1 Hl1. destruct (na_slot _ (n_acct A Hn addr a Hu (proj1 Hl1)) k Hk) as (v & Hv & Hv32).
    assert (slotval (a_store a) k = Some v) as Esv by (unfold slotval; by rewrite Hv, slot_roundtrip).
    destruct (obj_GetState_ok s1 A addr a k v) as (s2 & E2 & Hq2 & _); [done..|]. exists v, s2. by rewrite Esv.
  - destruct Ho as (Hu & Hk). rewrite <- (answer_match _ (fun a => value_at (a_store a) k) [] ABytes).
    apply (ask_more_ok s A addr (obj_GetStateByteArray addr k) ABytes (fun a => ABytes (value_at (a_store a) k)) []); [done..|].
    intros s1 a Ha1 Hl1. destruct (obj_GetStateByteArray_ok s1 A addr a k) as (s2 & E2 & Hq2 & _); [done..|]. by eexists _, s2.
  - apply (ask_ok s A addr suicided a_suicided false ABool); [done..|]. by intros w o a [].
  - exists s. split; [|by apply quiet_refl]. by rewrite <- (abs_refund _ _ Ha).
  - destruct (n_matrix A Hn h Ho) as [v Hv]. destruct (GetMatrixData_ok s A h v Ha Ho Hv) as (s' & E & Hq').
    exists s'. rewrite Hv. split; [by apply answered_ok|done].
Qed.

Lemma do_op_ok s A o :
  abs s A -> nice A -> op_ok o ->
  exists es s', do_op o s = Ok ((spec_op o A).1, s') /\ steps s A s' (spec_op o A).2 es.
Proof.
  intros Ha Hn Ho. destruct (is_question o) eqn:Eq; [|by apply do_write_ok].
  destruct (do_question_ok s A o Ha Hn Ho Eq) as (s' & E & Hq). exists [], s'. split; [done|].
  replace (spec_op o A).2 with A by by destruct o. by apply quiet_is_steps.
Qed.

(** ** Snapshots *)

(** The revisions are older than the next one and not beyond the journal. *)
Definition revs_ok (s : StateDB) : Prop :=
  Forall (fun r => rev_id r < nextRevisionId s /\ (journalIndex r <= length (entries (sjournal s)))%nat) (validRevisions s).

(** As [steps], but revisions may have been added. *)
Record runs (s : StateDB) (A : astate) (s' : StateDB) (A' : astate) (es : list journalEntry) : Prop := {
  r_abs : abs s' A';
  r_later : later none (db s) (db s');
  r_trie : strie s' = strie s;
  r_entries : entries (sjournal s') = entries (sjournal s) ++ es;
  r_trail : trail (strie s) (db s') es A' A;
  r_touch : only_touched es A A';
  r_dirty : same_dirty (dirties (sjournal s')) (foldl dirt (dirties (sjournal s)) es);
  r_revs : exists more, validRevisions s' = validRevisions s ++ more /\
    Forall (fun r => nextRevisionId s <= rev_id r < nextRevisionId s' /\
                     (journalIndex r <= length (entries (sjournal s')))%nat) more;
  r_next : nextRevisionId s <= nextRevisionId s';
  r_orderly : orderly s s'
}.

Lemma steps_runs s A s' A' es : steps s A s' A' es -> runs s A s' A' es.
Proof. intros []. split; try done; [|lia]. exists []. by rewrite app_nil_r. Qed.

Lemma runs_trans s A s1 A1 s2 A2 es1 es2 : runs s A s1 A1 es1 -> runs s1 A1 s2 A2 es2 -> runs s A s2 A2 (es1 ++ es2).
Proof.
  intros [] []. split; try congruence; [by etransitivity|by rewrite r_entries1, r_entries0, app_assoc| | | | |lia|by eapply orderly_trans].
  - rewrite r_trie0 in *. eapply trail_app; [|done]. by eapply trail_later.
  - by eapply only_touched_trans.
  - rewrite foldl_app. etransitivity; [done|]. by apply foldl_dirt_proper.
  - destruct r_revs0 as (m1 & E1 & F1), r_revs1 as (m2 & E2 & F2). exists (m1 ++ m2). rewrite E2, E1, app_assoc. split; [done|].
    apply Forall_app. split; (eapply Forall_impl; [done|]); cbn; intros r Hr; [|lia]. rewrite r_entries1, length_app. lia.
Qed.

Lemma runs_revs_ok s A s' A' es : runs s A s' A' es -> revs_ok s -> revs_ok s'.
Proof.
  intros [] Hr. destruct r_revs0 as (more & E & F). unfold revs_ok. rewrite E. apply Forall_app.
  split; (eapply Forall_impl; [done|]); cbn; intros r Hx; [|lia]. rewrite r_entries0, length_app. lia.
Qed.

Lemma runs_positive s A s' A' es :
  runs s A s' A' es -> positive_counts (dirties (sjournal s)) -> positive_counts (dirties (sjournal s')).
Proof. intros [] Hp. eapply same_positive; [done|]. by apply foldl_dirt_positive. Qed.

(** The last revision that is not after [id]. *)
Lemma revisionIndex_spec n l i r id :
  l !! i = Some r -> rev_id r <= id -> (forall j r', (i < j)%nat -> l !! j = Some r' -> id < rev_id r') -> (i < n <= length l)%nat ->
  revisionIndex n l id = i.
Proof.
  intros Hi Hr Hk. induction n as [|j IH]; intros Hn; [lia|]. cbn [revisionIndex]. destruct (decide (j = i)) as [->|Hne].
  - by rewrite Hi, (proj2 (Z.leb_le _ _)).
  - destruct (lookup_lt_is_Some_2 l j) as [r' Hj]; [lia|]. rewrite Hj. pose proof (Hk j r' ltac:(lia) Hj).
    rewrite (proj2 (Z.leb_gt _ _)) by lia. apply IH. lia.
Qed.

Lemma later_ids (l k : list revision) r id j r' :
  Forall (fun r => id < rev_id r) k -> (length l < j)%nat -> (l ++ r :: k) !! j = Some r' -> id < rev_id r'.
Proof.
  intros Hk Hj. rewrite lookup_app_r by lia. destruct (j - length l)%nat as [|n] eqn:E; [lia|]. cbn.
  intros Hn. by eapply Forall_lookup in Hk.
Qed.

(** Revisions that were added. *)
Definition more_revs (s s' : StateDB) : Prop :=
  exists more, validRevisions s' = validRevisions s ++ more /\
    Forall (fun r => nextRevisionId s <= rev_id r < nextRevisionId s' /\
                     (journalIndex r <= length (entries (sjournal s')))%nat) more.

(** Where [RevertToSnapshot] goes back to. *)
Lemma revert_target s id s1 s2 :
  revs_ok s -> Snapshot s = Ok (id, s1) -> more_revs s1 s2 ->
  exists idx r, revisionIndex (length (validRevisions s2)) (validRevisions s2) id = idx /\ validRevisions s2 !! idx = Some r /\
    rev_id r <= id /\ journalIndex r = length (entries (sjournal s)) /\
    take (if rev_id r =? id then idx else S idx) (validRevisions s2) = validRevisions s.
Proof.
  intros Hok E1 Hr. unfold Snapshot in E1. injection E1 as <- <-. destruct Hr as (more & E & F).
  cbn [set_revisions validRevisions nextRevisionId sjournal] in E, F.
  assert (Forall (fun r => nextRevisionId s < rev_id r) more) as Hm by (eapply Forall_impl; [done|]; cbn; intros; lia).
  destruct (last (validRevisions s)) as [r|] eqn:El; [destruct (journalIndex r <? length (entries (sjournal s)))%nat eqn:Eg|].
  2: { apply last_Some in El as [l El]. unfold revs_ok in Hok. rewrite El in Hok, E. apply Forall_app in Hok as [_ [[Hid Hle] _]%Forall_cons].
       apply Nat.ltb_ge in Eg. rewrite <- app_assoc in E. cbn [app] in E. exists (length l), r. rewrite E.
       rewrite list_lookup_middle by done. rewrite (proj2 (Z.eqb_neq _ _)) by lia. split; [|split; [done|]].
       - eapply revisionIndex_spec; [by apply list_lookup_middle|lia|intros j r'; by apply later_ids|]. rewrite length_app. cbn. lia.
       - split; [lia|]. split; [lia|]. rewrite El, cons_middle, app_assoc. apply take_app_length'. rewrite length_app. cbn. lia. }
  all: rewrite <- app_assoc in E; cbn [app] in E; rewrite E.
  all: exists (length (validRevisions s)), (mkRevision (nextRevisionId s) (length (entries (sjournal s)))).
  all: rewrite list_lookup_middle by done; cbn [rev_id journalIndex]; rewrite Z.eqb_refl.
  all: split; [|split; [done|]; split; [lia|]; split; [done|by apply take_app_length]].
  all: eapply revisionIndex_spec; [by apply list_lookup_middle|cbn; lia|intros j r'; by apply later_ids|rewrite length_app; cbn; lia].
Qed.

Lemma Snapshot_ok s A : abs s A -> exists id s1, Snapshot s = Ok (id, s1) /\ abs s1 A /\ db s1 = db s /\ strie s1 = strie s /\
  sjournal s1 = sjournal s /\ id = nextRevisionId s /\ runs s A s1 A [].
Proof.
  intros Ha. eexists _, _. split; [done|]. split; [by destruct Ha; split|]. cbn. split; [done|]. split; [done|]. split; [done|].
  split; [done|]. split; cbn; try done; [by destruct Ha; split|by rewrite app_nil_r|by apply only_touched_same| |lia|by apply aside_orderly].
  destruct (match last (validRevisions s) with Some _ => _ | None => _ end).
  - eexists. split; [done|]. constructor; [cbn; lia|constructor].
  - exists []. by rewrite app_nil_r.
Qed.

Lemma revert_back s id s1 s2 A' B es :
  revs_ok s -> positive_counts (dirties (sjournal s)) -> Snapshot s = Ok (id, s1) -> more_revs s1 s2 ->
  abs s2 A' -> strie s2 = strie s -> entries (sjournal s2) = entries (sjournal s) ++ es -> trail (strie s) (db s2) es A' B ->
  same_dirty (dirties (sjournal s2)) (foldl dirt (dirties (sjournal s)) es) ->
  exists s3, RevertToSnapshot id s2 = Ok ((), s3) /\ abs s3 B /\ later none (db s2) (db s3) /\ strie s3 = strie s /\
    entries (sjournal s3) = entries (sjournal s) /\ same_dirty (dirties (sjournal s3)) (dirties (sjournal s)) /\
    validRevisions s3 = validRevisions s /\ nextRevisionId s3 = nextRevisionId s2 /\ orderly s2 s3.
Proof.
  intros Hok Hp E1 Hm Hab Htr Hen Htl Hdi. destruct (revert_target s id s1 s2 Hok E1 Hm) as (idx & r & Ei & Er & Hid & Ej & Et).
  unfold RevertToSnapshot. rewrite (bind_ok _ _ _ _ _ eq_refl). rewrite Ei, Er. replace (rev_id r >? id) with false by lia.
  rewrite Ej. unfold journal_revert. unfold bind at 1. unfold bind at 1. unfold gets at 1. cbn [res_bind].
  rewrite Hen, drop_app_length. unfold bind at 1.
  destruct (trail_undone (strie s) (db s2) es A' B s2 (dirties (sjournal s))) as (s3 & -> & Ha3 & Hl3 & Et3 & Ee3 & Hd3 & Er3 & En3 & Ho3);
    [done..|rewrite Hen; set_solver|]. cbn [res_bind]. rewrite length_app, (proj2 (Nat.ltb_ge _ _)) by lia. eexists. split; [done|].
  rewrite Et. cbn. rewrite Ee3, Hen, take_app_length. split; [by destruct Ha3; split|]. split; [done|]. split; [done|]. split; [done|].
  split; [done|]. split; [done|]. split; [done|]. eapply orderly_trans; [exact Hl3|congruence|done|].
  apply orderly_same; [done..|]. apply inherits_same; [done..|]. cbn. rewrite Ee3, Hen. set_solver.
Qed.

Lemma revert_ok s id s1 s2 A A' es :
  abs s A -> revs_ok s -> positive_counts (dirties (sjournal s)) -> Snapshot s = Ok (id, s1) -> runs s1 A s2 A' es ->
  exists s3, RevertToSnapshot id s2 = Ok ((), s3) /\ runs s A s3 A [] /\ validRevisions s3 = validRevisions s /\
    entries (sjournal s3) = entries (sjournal s).
Proof.
  intros Ha Hok Hp E1 Hr. destruct (Snapshot_ok s A Ha) as (id' & s1' & E1' & _ & Ed1 & Etr1 & Ejr1 & _ & Hr1).
  rewrite E1 in E1'. injection E1' as <- <-.
  pose proof (runs_trans _ _ _ _ _ _ _ _ Hr1 Hr) as [Hab Hl Htr Hen Htl _ Hdi _ Hnx Hor]. cbn [app] in *.
  destruct (revert_back s id s1 s2 A' A es) as (s3 & E3 & Ha3 & Hl3 & Et3 & Ee3 & Hd3 & Er3 & En3 & Ho3); [done|done|done|apply Hr|done..|].
  exists s3. split; [done|]. split; [|done].
  split; try done; [by etransitivity|by rewrite app_nil_r|by intros s0|by apply only_touched_same| |by rewrite En3|by eapply orderly_trans].
  exists []. by rewrite app_nil_r.
Qed.

(** ** Running a client *)

Lemma spec_nice p A : nice A -> prog_ok p -> nice (spec p A).2.
Proof.
  revert A. induction p as [ok|o k IH|body IHb k IHk]; intros A Hn Hp; [done|..]; cbn [spec].
  - destruct Hp as [Ho Hk]. pose proof (spec_op_nice o A Hn Ho) as Hn1. destruct (spec_op o A) as [r A1]. by apply IH.
  - destruct Hp as [Hb Hk]. pose proof (IHb A Hn Hb) as Hn1. destruct (spec body A) as [[] A1]; by apply IHk.
Qed.

Lemma run_ok p s A :
  abs s A -> nice A -> revs_ok s -> positive_counts (dirties (sjournal s)) -> prog_ok p ->
  exists es s', run p s = Ok ((spec p A).1, s') /\ runs s A s' (spec p A).2 es.
Proof.
  revert s A. induction p as [ok|o k IH|body IHb k IHk]; intros s A Ha Hn Hrev Hpos Hp; cbn [run spec].
  - exists [], s. split; [done|]. by apply steps_runs, quiet_is_steps, quiet_refl.
  - destruct Hp as [Ho Hk]. destruct (do_op_ok s A o Ha Hn Ho) as (es1 & s1 & E1 & Hr1%steps_runs).
    pose proof (spec_op_nice o A Hn Ho) as Hn1. rewrite (bind_ok _ _ _ _ _ E1). destruct (spec_op o A) as [r A1]. cbn [fst snd] in *.
    destruct (IH r s1 A1) as (es2 & s2 & E2 & Hr2); [apply Hr1|done|by eapply runs_revs_ok|by eapply runs_positive|done|].
    exists (es1 ++ es2), s2. split; [done|by eapply runs_trans].
  - destruct Hp as [Hb Hk]. destruct (Snapshot_ok s A Ha) as (id & s1 & E1 & Ha1 & _ & _ & _ & _ & Hr1).
    rewrite (bind_ok _ _ _ _ _ E1).
    destruct (IHb s1 A) as (es2 & s2 & E2 & Hr2); [done..|by eapply runs_revs_ok|by eapply runs_positive|done|].
    rewrite (bind_ok _ _ _ _ _ E2). pose proof (spec_nice body A Hn Hb) as Hn2. destruct (spec body A) as [[] A2]; cbn [fst snd] in *.
    + unfold bind at 1. cbn [ret res_bind]. pose proof (runs_trans _ _ _ _ _ _ _ _ Hr1 Hr2) as Hr.
      destruct (IHk true s2 A2) as (es3 & s3 & E3 & Hr3); [apply Hr|done|by eapply runs_revs_ok|by eapply runs_positive|done|].
      exists (([] ++ es2) ++ es3), s3. split; [done|by eapply runs_trans].
    + destruct (revert_ok s id s1 s2 A A2 es2) as (s3 & E3 & Hr3 & _); [done..|]. rewrite (bind_ok _ _ _ _ _ E3).
      destruct (IHk false s3 A) as (es4 & s4 & E4 & Hr4); [apply Hr3|done|by eapply runs_revs_ok|by eapply runs_positive|done|].
      exists ([] ++ es4), s4. split; [done|by eapply runs_trans].
Qed.

(** ** Suicides *)

Definition a_kill (a : aacct) : aacct := mkA (a_nonce a) [] (a_codehash a) (a_code a) (a_store a) true.

Lemma flags_abs w o a f :
  obj_abs w o a -> obj_abs w (with_flags f (deleted o) o) (mkA (a_nonce a) (a_balance a) (a_codehash a) (a_code a) (a_store a) f).
Proof. intros []. destruct oa_cached. by constructor. Qed.

Lemma replaceAll_nil prev : replaceAll prev [] = [].
Proof. by induction prev. Qed.

(** The entry for a suicide sets the flag back; there are no balances left to be set. *)
Lemma undo_suicide t w addr a b A :
  Addr addr -> accts A addr = Some a ->
  undoes t w (suicideChange addr (a_suicided a) b) (set_acct addr (a_kill a) A) (set_acct addr (a_set_balance [] a) A).
Proof.
  intros Hu Ea s Hs Et Hl. cbn [revert].
  destruct (getStateObject_ok s _ addr Hs Hu) as (oo & s1 & E1 & Hq & Hf). rewrite (bind_ok _ _ _ _ _ E1).
  cbn in Hf. rewrite upd_eq in Hf. destruct Hf as (o & -> & Eo & Had & Ho). destruct Hq.
  destruct (change_ok s1 (set_acct addr (a_kill a) A) addr o (a_set_balance [] a)
              (fun o => setBalances b (with_flags (a_suicided a) (deleted o) o))) as (s2 & E2 & Ha2 & Ed & Hsr & _ & Hor);
    [done..|by rewrite setBalances_data|by rewrite setBalances_data| |].
  { rewrite setBalances_data. pose proof (oa_balance _ _ _ Ho) as Eb. cbn [with_flags data a_kill a_balance] in *. rewrite Eb, replaceAll_nil.
    apply (flags_abs _ _ _ (a_suicided a)) in Ho. exact (balance_abs _ _ _ [] Ho). }
  exists s2. split; [done|]. split.
  { eapply abs_aeq; [|exact Ha2]. split; [|done]. intros k. cbn. unfold upd. by case_decide. }
  split; [by rewrite Ed|]. destruct q_rest as (? & ? & ? & ?), Hsr as (? & ? & ? & ?).
  split; [|intros _; by eapply orderly_trans]. split; [congruence|]. split; [congruence|]. split; congruence.
Qed.

Lemma Suicide_ok s A addr a :
  abs s A -> Addr addr -> accts A addr = Some a ->
  exists s', let e := suicideChange addr (a_suicided a) (a_balance a) in
    Suicide addr s = Ok (true, s') /\ abs s' (set_acct addr (a_kill a) A) /\ later none (db s) (db s') /\ strie s' = strie s /\
    sjournal s' = note e (sjournal s) /\ validRevisions s' = validRevisions s /\ nextRevisionId s' = nextRevisionId s.
Proof.
  intros Ha Hu Ea. destruct (getStateObject_ok s A addr Ha Hu) as (oo & s1 & E1 & Hq & Hf). rewrite Ea in Hf.
  destruct Hf as (o & -> & Eo & Had & Ho). destruct Hq as [Ha1 Hl1 (? & ? & ? & ?) _]. cbn zeta.
  unfold Suicide. rewrite (bind_ok _ _ _ _ _ E1). unfold journal_append. rewrite (bind_ok _ _ _ _ _ eq_refl).
  rewrite (oa_suicided _ _ _ Ho), (oa_balance _ _ _ Ho). set (e := suicideChange _ _ _).
  destruct (change_ok (set_journal (note e (sjournal s1)) s1) A addr o (a_kill a)
              (fun o => with_data (set_balance [] (data o)) (with_flags true (deleted o) o))) as (s2 & E2 & Ha2 & Ed & (Et & Ej & Er & En) & _);
    [by destruct Ha1; split|done..| |].
  { apply (flags_abs _ _ _ true) in Ho. exact (balance_abs _ _ _ [] Ho). }
  rewrite (bind_ok _ _ _ _ _ E2). exists s2. cbn in Ed, Et, Ej, Er, En. rewrite Ed. repeat (split; [done||congruence|]). congruence.
Qed.
End Refine.

(** A state between calls. *)
Record stands `{StateFacts, !Keys} (s : StateDB) (A : astate) : Prop := {
  bt_abs : abs s A;
  bt_nice : nice A;
  bt_revs : revs_ok s;
  bt_counts : positive_counts (dirties (sjournal s))
}.

Lemma stands_runs `{StateLaws, !Keys} p s A :
  stands s A -> prog_ok p ->
  exists es s', run p s = Ok ((spec p A).1, s') /\ runs s A s' (spec p A).2 es /\ stands s' (spec p A).2.
Proof.
  intros [Ha Hn Hr Hp] Hok. destruct (run_ok p s A) as (es & s' & E & Hst); [done..|]. exists es, s'. split; [done|]. split; [done|].
  split; [apply Hst|by apply spec_nice|by eapply runs_revs_ok|by eapply runs_positive].
Qed.

(** C1: for what the journal undoes, a state with a journal is as good as one that is
    copied.  A client creates accounts, changes balances, nonces, codes, storage and
    byte arrays, adds refunds, logs and preimages, and asks questions, in calls within
    calls of which any may fail and be reverted; there are no suicides, chain data or
    special transactions among it, whose journal entries do not restore what was
    ([reverted_suicide_takes_balances]).  It gets the answers that a plain map of
    accounts gives in which a failed call is undone by going back to a copy, and the
    state stands for that map afterwards.  Nothing panics.  The keys at hand do not
    collide, and the database has what it was given. *)
Theorem journal_refines_copies `{StateLaws, !Keys} p s A :
  stands s A -> prog_ok p ->
  exists s', run p s = Ok ((spec p A).1, s') /\ stands s' (spec p A).2.
Proof. intros Hb Hp. destruct (stands_runs p s A Hb Hp) as (es & s' & E & _ & Hb'). by exists s'. Qed.

(** C18: a call of these operations that fails leaves no trace: not only do all
    accounts stand as before, the journal has the same entries, the same snapshots are
    valid, and the same addresses are dirty (but for one that is counted on purpose),
    so that nothing more is written when the transaction ends. *)
Theorem failed_call_leaves_no_trace `{StateLaws, !Keys} body s A :
  stands s A -> prog_ok body -> (spec body A).1 = false ->
  exists s', run (PCall body PRet) s = Ok (false, s') /\ abs s' A /\ entries (sjournal s') = entries (sjournal s) /\
    validRevisions s' = validRevisions s /\ (forall a, a <> ripemd -> dirties (sjournal s') !! a = dirties (sjournal s) !! a).
Proof.
  intros Hb Hok Hf. pose proof Hb as [Ha Hn Hr Hp].
  destruct (Snapshot_ok s A Ha) as (id & s1 & E1 & Ha1 & _ & _ & Ej & _ & Hr1).
  destruct (stands_runs body s1 A) as (es2 & s2 & E2 & Hr2 & _);
    [split; [done..|by eapply runs_revs_ok|by rewrite Ej]|done|].
  destruct (revert_ok s id s1 s2 A (spec body A).2 es2) as (s3 & E3 & Hr3 & Ev & Ee); [done..|]. exists s3. cbn [run].
  rewrite (bind_ok _ _ _ _ _ E1), (bind_ok _ _ _ _ _ E2), Hf, (bind_ok _ _ _ _ _ E3). split; [done|]. split; [apply Hr3|].
  split; [done|]. split; [done|]. apply (r_dirty _ _ _ _ _ Hr3).
Qed.

(** C28: a suicide that is reverted takes the balances: after [Suicide] and
    [RevertToSnapshot] the account is as before, but it has no balances any more.  The
    journal keeps them, but [setBalance] changes only balances that are there. *)
Theorem reverted_suicide_takes_balances `{StateLaws, !Keys} s A addr a :
  stands s A -> Addr addr -> accts A addr = Some a ->
  exists s', (do id <- Snapshot; Suicide addr ;; RevertToSnapshot id) s = Ok ((), s') /\ abs s' (set_acct addr (a_set_balance [] a) A).
Proof.
  intros [Ha Hn Hr Hp] Hu Ea. destruct (Snapshot_ok s A Ha) as (id & s1 & E1 & Ha1 & Ed1 & Et1 & Ej1 & _).
  destruct (Suicide_ok s1 A addr a Ha1 Hu Ea) as (s2 & E2 & Ha2 & Hl2 & Et2 & Ej2 & Er2 & En2).
  destruct (revert_back s id s1 s2 (set_acct addr (a_kill a) A) (set_acct addr (a_set_balance [] a) A)
              [suicideChange addr (a_suicided a) (a_balance a)]) as (s3 & E3 & Ha3 & _); [done|done|done| |done|congruence|..].
  - exists []. by rewrite Er2, app_nil_r.
  - by rewrite Ej2, Ej1.
  - apply trail_one, undo_suicide; done.
  - by rewrite Ej2, Ej1.
  - exists s3. split; [|done]. rewrite (bind_ok _ _ _ _ _ E1), (bind_ok _ _ _ _ _ E2). exact E3.
Qed.
