(* ===== verification/StateFlush.v ===== *)
(** * Writing an account to its trie

    What is pending is written to the trie of the account, the trie is hashed or
    committed, and the account is written to the trie of the state.  Nothing of this
    changes what the state stands for. *)

From S2P Require Import Rlp RlpCodec Sponge TrieDatabase Trie TrieSpec BTree BTreeMap StateObject StateStore StateDB StateSpec.
From S2P Require Import StateStorage StateJournal StateOps Prelude.

#[local] Set Warnings "-register-all".
#[local] Open Scope state_scope.

Section Flush.
Context `{StateLaws, !Keys, HashRange}.

#[local] Abbreviation obj := (stateObject handle).

(** ** Stores that are later but for tries *)

Definition any (t : handle) : Prop := True.

Lemma later_any X w w' : later X w w' -> later any w w'.
Proof. intros []. split; auto. intros t m _. by left. Qed.

#[export] Instance later_any_preorder : PreOrder (later any).
Proof.
  split.
  - intros w. by apply (later_any none).
  - intros w1 w2 w3 [] []. split; auto. intros t m _. by left.
Qed.

(** ** Writing to the trie of an object *)

(** The object of an account. *)
Lemma abs_object_of s A addr o a :
  abs s A -> Addr addr -> stateObjects s !! addr = Some o -> accts A addr = Some a -> address o = addr /\ obj_abs (db s) o a.
Proof.
  intros [_ (M & _ & Hv & _) _ _ _ _ _ _] Hu Eo Ea. specialize (Hv addr Hu). unfold view in Hv. rewrite Eo in Hv.
  destruct Hv as [Had Hv]. split; [done|]. rewrite Ea in Hv. destruct (deleted o); [by destruct Hv|].
  by destruct Hv as (a' & [= <-] & Ho).
Qed.

(** [o'] is the object afterwards. *)
Record flushes (de : bool) (s : StateDB) (A : astate) (addr : list Z) (s' : StateDB) (o' : obj) : Prop := {
  fl_put : exists w, s' = put addr o' w s;
  fl_abs : abs s' A;
  fl_tidy : tidy de s';
  fl_later : later any (db s) (db s');
  fl_main : forall M, has (db s) (strie s) M -> has (db s') (strie s) M
}.

Lemma flushes_trans de s A addr s1 o1 s2 o2 :
  flushes de s A addr s1 o1 -> flushes de s1 A addr s2 o2 -> flushes de s A addr s2 o2.
Proof.
  intros [(w1 & ->) _ _ Hl1 Hm1] [(w2 & ->) Ha Ht Hl2 Hm2]. split; [|done|done|by etransitivity|].
  - exists w2. apply put_put.
  - intros M HM. apply (Hm2 M). by apply Hm1.
Qed.

Lemma flushes_object de s A addr s' o' : flushes de s A addr s' o' -> stateObjects s' !! addr = Some o'.
Proof. intros [(w & ->) _ _ _ _]. apply lookup_insert_eq. Qed.

Lemma flushes_quiet de s A addr o' w :
  tidy de s -> quiet s A (put addr o' w s) -> flushes de s A addr (put addr o' w s) o'.
Proof.
  intros Ht [Ha Hl _ [Hti _]]. split; [by exists w|done|auto|by eapply later_any|]. intros M HM. by eapply later_keeps_has.
Qed.

Lemma write_own de s A addr a o o' t w' m' :
  abs s A -> tidy de s -> Addr addr -> accts A addr = Some a -> stateObjects s !! addr = Some o -> otrie o = Some t ->
  later (alias t) (db s) w' -> has w' t m' -> otrie o' = Some t -> address o' = addr -> obj_abs w' o' a ->
  flushes de s A addr (put addr o' w' s) o'.
Proof.
  intros Ha Ht Hu Ea Eo Et Hl Hm Et' Had Ho. destruct (ti_home _ _ Ht addr o Eo) as [Hao _].
  assert (known s o) as Hk by (left; by exists addr).
  assert (forall M, has (db s) (strie s) M -> has w' (strie s) M) as HM'.
  { intros M HM. destruct (later_has _ _ _ Hl _ _ HM) as [Hal|?]; [|done]. by destruct (ti_valid _ _ Ht o t Hk Et) as [_ []]. }
  split; [by exists w'| | |by eapply later_any|done].
  - destruct Ha as [Hh (M & HM & Hv & Hma) ? ? ? ? ? ?]. split; try done; [by apply (later_healthy _ _ _ Hl)|]. exists M.
    split; [by apply HM'|]. split; [|done]. intros b Hb. cbn. eapply view_insert; [done|by apply Ho|done| |by intros ->].
    intros Hne. eapply view_later; [done| |by apply Hv]. intros o2 E2 t2 Et2.
    destruct (ti_home _ _ Ht b o2 E2) as [Hb2 _]. apply (ti_apart _ _ Ht o o2); [done|left; by exists b|congruence|done|done].
  - apply (tidy_valid de s); [|done| |done]; [intros t'; by eapply valid_written|].
    eapply inherits_insert; [done|done|done|done|done|by apply Ho| |auto]. right. exists o. split; [done|]. split; congruence.
Qed.

(** What has been written is no longer pending. *)
Lemma flushed_abs w w' o o' a t m k x :
  obj_abs w o a -> otrie o = Some t -> has w t m -> pending o k = Some x ->
  later (alias t) w w' -> has w' t (map_update (place k) x m) ->
  data o' = data o -> suicided o' = suicided o -> deleted o' = deleted o -> oErr o' = oErr o -> otrie o' = Some t ->
  code o' = code o -> dirtyCode o' = dirtyCode o -> cached_ok o' (a_store a) ->
  (forall k', pending o' k' = if decide (k' = k) then None else pending o k') -> obj_abs w' o' a.
Proof.
  intros Ho Et Hm Hx Hl Hm' Ed Es El Ee Et' Ec Edc Hca Hp.
  eapply obj_abs_with; [done|done..| | |done].
  - pose proof (code_view_later _ _ _ _ _ Hl (oa_code _ _ _ Ho)) as Hcv. unfold code_view in *. by rewrite Ec, Edc, Ed.
  - exists (map_update (place k) x m). split; [unfold obj_view; by rewrite Et'|]. eapply shown_flush; [done|done|].
    destruct (oa_storage _ _ _ Ho) as (m0 & Hm0 & Hs). unfold obj_view in Hm0. rewrite Et in Hm0. by rewrite (has_one _ _ _ _ Hm Hm0).
Qed.

Lemma change_call s addr o f g w' :
  stateObjects s !! addr = Some o -> g (db s) = Ok (inr (), w') ->
  (change addr f ;; do r <- call g; objError addr r) s = Ok ((), put addr (f o) w' s).
Proof.
  intros Eo Eg. unfold bind, change at 1. rewrite Eo. cbn [res_bind]. unfold call. cbn [set_objects db]. rewrite Eg. cbn [res_bind].
  unfold objError, change. cbn [set_db set_objects stateObjects]. rewrite lookup_insert_eq. cbn [trieError].
  by rewrite setObjError_None, insert_insert_eq.
Qed.

(** An entry of the trie is written, or deleted when there is nothing. *)
Lemma put_entry s A t m k x :
  abs s A -> has (db s) t m -> Forall is_u8 k -> Forall is_u8 x ->
  exists w', (if bool_decide (x = []) then trie_TryDelete t k (db s) else trie_TryUpdate t k x (db s)) = Ok (inr (), w') /\
    later (alias t) (db s) w' /\ has w' t (map_update (place k) x m).
Proof.
  intros Ha Hm Hk Hx. case_bool_decide as E.
  - subst. destruct (delete_law (db s) t m k (abs_healthy _ _ Ha) Hm Hk) as (w' & ? & ? & ?). by exists w'.
  - destruct (update_law (db s) t m k x (abs_healthy _ _ Ha) Hm Hk Hx) as (w' & ? & ? & ?). by exists w'.
Qed.

(** An object whose trie is open. *)
Definition open_object (s : StateDB) (A : astate) (addr : list Z) (a : aacct) (o : obj) (t : handle) : Prop :=
  accts A addr = Some a /\ stateObjects s !! addr = Some o /\ otrie o = Some t.

Lemma open_flushes de s A addr a s' o' t :
  flushes de s A addr s' o' -> accts A addr = Some a -> otrie o' = Some t -> open_object s' A addr a o' t.
Proof. intros Hf Ea Et. split; [done|]. split; [by eapply flushes_object|done]. Qed.

Lemma open_has s A addr a o t :
  abs s A -> Addr addr -> open_object s A addr a o t -> address o = addr /\ obj_abs (db s) o a /\ exists m, has (db s) t m.
Proof.
  intros Ha Hu (Ea & Eo & Et). destruct (abs_object_of s A addr o a Ha Hu Eo Ea) as [Had Ho]. split; [done|]. split; [done|].
  destruct (oa_storage _ _ _ Ho) as (m & Hm & _). unfold obj_view in Hm. rewrite Et in Hm. by exists m.
Qed.

Definition cutSlot (k : list Z) (o : obj) : obj := with_storage (cachedStorage o) (delete k (dirtyStorage o)) o.
Definition cutBytes (k : list Z) (o : obj) : obj := with_bytes (cachedBytes o) (delete k (dirtyBytes o)) o.

Lemma pending_cutSlot o st k k' :
  cached_ok o st -> is_Some (dirtyStorage o !! k) -> pending (cutSlot k o) k' = if decide (k' = k) then None else pending o k'.
Proof.
  intros Hc (v & E). unfold pending. cbn. case_decide as Ek; [subst|by rewrite lookup_delete_ne]. rewrite lookup_delete_eq.
  apply (slot_not_dirty_bytes o st k); [done|]. apply (d_slot _ _ Hc) in E as [E _]. by apply (c_slot _ _ Hc) in E as [? _].
Qed.

Lemma pending_cutBytes o st k k' :
  cached_ok o st -> is_Some (dirtyBytes o !! k) -> pending (cutBytes k o) k' = if decide (k' = k) then None else pending o k'.
Proof.
  intros Hc (v & E). unfold pending. cbn. case_decide as Ek; [subst|by rewrite lookup_delete_ne].
  rewrite lookup_delete_eq, (raw_not_dirty_slot o st k); [done|done|]. apply (d_bytes _ _ Hc) in E as [E _].
  by apply (c_bytes _ _ Hc) in E as [? _].
Qed.

Lemma cutSlot_cached o st k : cached_ok o st -> cached_ok (cutSlot k o) st.
Proof. intros []. split; try done. intros k' v. cbn. rewrite lookup_delete_Some. intros [_ E]. by apply d_slot. Qed.

Lemma cutBytes_cached o st k : cached_ok o st -> cached_ok (cutBytes k o) st.
Proof. intros []. split; try done. intros k' v. cbn. rewrite lookup_delete_Some. intros [_ E]. by apply d_bytes. Qed.

Lemma flushSlot_ok de s A addr a o t k v :
  abs s A -> tidy de s -> Addr addr -> open_object s A addr a o t -> dirtyStorage o !! k = Some v ->
  exists s', flushSlot addr t (k, v) s = Ok ((), s') /\ flushes de s A addr s' (cutSlot k o).
Proof.
  intros Ha Ht Hu Hop Ed. destruct (open_has _ _ _ _ _ _ Ha Hu Hop) as (Had & Ho & m & Hm). destruct Hop as (Ea & Eo & Et).
  pose proof (oa_cached _ _ _ Ho) as Hc. destruct (d_slot _ _ Hc k v Ed) as [Ek Hv]. destruct (c_slot _ _ Hc k v Ek) as [Hk _].
  destruct (put_entry s A t m k (slotBytes v) Ha Hm (Slot_u8 _ Hk) (slotBytes_u8 v Hv)) as (w' & E & Hl & Hm').
  assert (flushSlot addr t (k, v) s = Ok ((), put addr (cutSlot k o) w' s)) as ->.
  { unfold flushSlot, slotBytes in *. case_bool_decide as Ev; [by apply change_call|].
    rewrite bool_decide_eq_false_2 in E by by apply slotEnc_ne. by apply change_call. }
  eexists. split; [done|]. eapply write_own; [done..|].
  apply (flushed_abs (db s) w' o (cutSlot k o) a t m k (slotBytes v)); try done.
  - unfold pending. by rewrite Ed.
  - by apply cutSlot_cached.
  - intros k'. by apply (pending_cutSlot o (a_store a)).
Qed.

Lemma flushBytes_ok de s A addr a o t k v :
  abs s A -> tidy de s -> Addr addr -> open_object s A addr a o t -> dirtyBytes o !! k = Some v ->
  exists s', flushBytes addr t (k, v) s = Ok ((), s') /\ flushes de s A addr s' (cutBytes k o).
Proof.
  intros Ha Ht Hu Hop Ed. destruct (open_has _ _ _ _ _ _ Ha Hu Hop) as (Had & Ho & m & Hm). destruct Hop as (Ea & Eo & Et).
  pose proof (oa_cached _ _ _ Ho) as Hc. destruct (d_bytes _ _ Hc k v Ed) as [Ek Hv]. destruct (c_bytes _ _ Hc k v Ek) as [Hk _].
  destruct (put_entry s A t m k v Ha Hm (Raw_u8 _ Hk) Hv) as (w' & E & Hl & Hm').
  assert (flushBytes addr t (k, v) s = Ok ((), put addr (cutBytes k o) w' s)) as ->.
  { unfold flushBytes. destruct v as [|x v]; cbn [length Nat.eqb]; by apply change_call. }
  eexists. split; [done|]. eapply write_own; [done..|].
  apply (flushed_abs (db s) w' o (cutBytes k o) a t m k v); try done.
  - unfold pending. by rewrite (raw_not_dirty_slot o (a_store a) k).
  - by apply cutBytes_cached.
  - intros k'. by apply (pending_cutBytes o (a_store a)).
Qed.

(** The loops. *)
Lemma flush_loop (de : bool) (A : astate) (addr : list Z) (a : aacct) (t : handle) (f : list Z * list Z -> M ()) (cut : list Z -> obj -> obj) (dirt : obj -> gmap (list Z) (list Z)) :
  Addr addr -> (forall k o, dirt (cut k o) = delete k (dirt o)) -> (forall k o, otrie (cut k o) = otrie o) ->
  (forall s o k v, abs s A -> tidy de s -> open_object s A addr a o t -> dirt o !! k = Some v ->
     exists s', f (k, v) s = Ok ((), s') /\ flushes de s A addr s' (cut k o)) ->
  forall l s o, NoDup l.*1 -> (forall k v, (k, v) ∈ l -> dirt o !! k = Some v) -> abs s A -> tidy de s -> open_object s A addr a o t ->
  exists s', each l f s = Ok ((), s') /\ flushes de s A addr s' (foldl (fun o k => cut k o) o l.*1).
Proof.
  intros Hu Hd Hot Hf l. induction l as [|[k v] l IH]; intros s o Hn Hl Ha Ht Hop.
  - exists s. split; [done|]. destruct Hop as (Ea & Eo & Et). split; [|done|done|done|done]. exists (db s). by rewrite put_id.
  - rewrite fmap_cons in Hn. apply NoDup_cons in Hn as [Hk Hn].
    destruct (Hf s o k v) as (s1 & E1 & Hf1); [done..|apply Hl; by left|].
    destruct (IH s1 (cut k o)) as (s2 & E2 & Hf2); [done| |apply Hf1|apply Hf1|eapply open_flushes; [done|apply Hop|rewrite Hot; apply Hop]|].
    { intros k' v' Hkv. rewrite Hd, lookup_delete_ne; [apply Hl; by right|]. intros ->. apply Hk. by apply (list_elem_of_fmap_2' fst _ (k', v')). }
    exists s2. cbn [each]. rewrite (bind_ok _ _ _ _ _ E1). split; [done|]. cbn. by eapply flushes_trans.
Qed.

Lemma foldl_delete_lookup (d : gmap (list Z) (list Z)) ks k :
  foldl (fun d k => delete k d) d ks !! k = if decide (k ∈ ks) then None else d !! k.
Proof.
  revert d. induction ks as [|x ks IH]; intros d; cbn [foldl]; [by rewrite decide_False by set_solver|]. rewrite IH.
  destruct (decide (k ∈ ks)), (decide (k ∈ x :: ks)) as [Hx|Hx]; try done; [set_solver| |].
  - assert (k = x) as -> by set_solver. apply lookup_delete_eq.
  - rewrite lookup_delete_ne; [done|set_solver].
Qed.

Lemma all_deleted (d : gmap (list Z) (list Z)) : foldl (fun d k => delete k d) d (hash_range d).*1 = ∅.
Proof.
  apply map_eq. intros k. rewrite foldl_delete_lookup, lookup_empty. case_decide as Hk; [done|].
  rewrite hash_range_keys in Hk. destruct (d !! k); [destruct Hk; by eexists|done].
Qed.

Lemma cut_slots (o : obj) ks :
  foldl (fun o k => cutSlot k o) o ks = with_storage (cachedStorage o) (foldl (fun d k => delete k d) (dirtyStorage o) ks) o.
Proof. revert o. induction ks as [|k ks IH]; intros o; [by destruct o|]. cbn [foldl]. by rewrite IH. Qed.

Lemma cut_bytes (o : obj) ks :
  foldl (fun o k => cutBytes k o) o ks = with_bytes (cachedBytes o) (foldl (fun d k => delete k d) (dirtyBytes o) ks) o.
Proof. revert o. induction ks as [|k ks IH]; intros o; [by destruct o|]. cbn [foldl]. by rewrite IH. Qed.

(** The object with an open trie and nothing to be written. *)
Definition cleared (t : handle) (o : obj) : obj := with_trie t (with_bytes (cachedBytes o) ∅ (with_storage (cachedStorage o) ∅ o)).

Lemma updateTrie_ok de s A addr a o :
  abs s A -> tidy de s -> Addr addr -> accts A addr = Some a -> stateObjects s !! addr = Some o ->
  exists t s', updateTrie addr s = Ok (t, s') /\ flushes de s A addr s' (cleared t o) /\ has (db s') t (a_store a).
Proof.
  intros Ha Ht Hu Ea Eo. destruct (abs_object_of s A addr o a Ha Hu Eo Ea) as [Had Ho].
  destruct (getTrie_ok s A addr a Ha Hu) as (o1 & t & m & s1 & E1 & Hq1 & Hop1 & (w1 & ->) & Hc1); [split; [done|by exists o]|].
  pose proof (flushes_quiet de s A addr o1 w1 Ht Hq1) as Hf1. destruct Hop1 as (_ & Eo1 & Had1 & Ho1 & Et1 & Hm1).
  unfold updateTrie. rewrite (bind_ok _ _ _ _ _ E1), (bind_ok _ _ _ _ _ (the_ok _ _ _ Eo1)).
  destruct (flush_loop de A addr a t (flushSlot addr t) cutSlot dirtyStorage Hu) with (l := hash_range (dirtyStorage o1)) (s := put addr o1 w1 s) (o := o1)
    as (s2 & E2 & Hf2); [done|done|by intros; eapply flushSlot_ok|apply hash_range_NoDup|by intros k v; rewrite hash_range_In|apply Hf1|apply Hf1|done|].
  rewrite cut_slots, all_deleted in Hf2. set (o2 := with_storage (cachedStorage o1) ∅ o1) in *.
  rewrite (bind_ok _ _ _ _ _ E2), (bind_ok _ _ _ _ _ (the_ok _ _ _ (flushes_object _ _ _ _ _ _ Hf2))).
  destruct (flush_loop de A addr a t (flushBytes addr t) cutBytes dirtyBytes Hu) with (l := hash_range (dirtyBytes o2)) (s := s2) (o := o2)
    as (s3 & E3 & Hf3); [done|done|by intros; eapply flushBytes_ok|apply hash_range_NoDup|by intros k v; rewrite hash_range_In|apply Hf2|apply Hf2| |].
  { eapply open_flushes; [done..|]. by subst o2. }
  rewrite cut_bytes, all_deleted in Hf3. set (o3 := with_bytes (cachedBytes o2) ∅ o2) in *.
  rewrite (bind_ok _ _ _ _ _ E3). exists t, s3. split; [done|].
  assert (o3 = cleared t o) as E.
  { destruct (Hc1 o Eo) as [->| ->]; [|done]. unfold o3, o2, cleared. destruct o; cbn in *. by subst. }
  pose proof (flushes_trans _ _ _ _ _ _ _ _ Hf1 (flushes_trans _ _ _ _ _ _ _ _ Hf2 Hf3)) as Hf. rewrite E in Hf. split; [done|].
  destruct (abs_object_of s3 A addr (cleared t o) a (fl_abs _ _ _ _ _ _ Hf) Hu (flushes_object _ _ _ _ _ _ Hf) Ea) as [_ Ho3].
  destruct (oa_storage _ _ _ Ho3) as (m3 & Hm3 & Hs3). by rewrite (shown_done (cleared t o) m3 (a_store a)) in Hm3.
Qed.

(** ** Roots *)

Lemma setRoot_abs w o a t r : otrie o = Some t -> obj_abs w o a -> obj_abs w (setRoot r o) a.
Proof.
  intros Et []. destruct oa_cached, oa_storage as (m & Hm & Hs). constructor; try done. exists m. split; [|by eapply shown_same].
  unfold obj_view in *. cbn. by rewrite Et in *.
Qed.

Lemma flushes_store de s A addr s1 o1 w t :
  flushes de s A addr s1 o1 -> later none (db s1) w -> stateObjects s1 !! addr = Some o1 -> otrie o1 = Some t ->
  flushes de s A addr (set_db w s1) o1.
Proof.
  intros Hf Hl Eo Et. pose proof Hf as [(w1 & E1) Ha Ht Hl1 Hm]. pose proof (quiet_db s1 A w Ha Hl) as [Ha' _ _ [Ht' _]].
  split; [exists w; by rewrite E1|done|auto|etransitivity; [done|by eapply later_any]|].
  intros M HM. eapply later_keeps_has; [done|by apply Hm].
Qed.

(** The root is set in the object. *)
Lemma flushes_root de s A addr a s1 o1 t r :
  flushes de s A addr s1 o1 -> Addr addr -> accts A addr = Some a -> otrie o1 = Some t ->
  exists s2, change addr (setRoot r) s1 = Ok ((), s2) /\ flushes de s A addr s2 (setRoot r o1) /\ db s2 = db s1.
Proof.
  intros Hf Hu Ea Et. pose proof (flushes_object _ _ _ _ _ _ Hf) as Eo1.
  destruct (abs_object_of s1 A addr o1 a (fl_abs _ _ _ _ _ _ Hf) Hu Eo1 Ea) as [Had Ho].
  destruct (quiet_change s1 A addr o1 a (setRoot r)) as (s2 & E2 & Hq & Eo2 & Ed); [apply Hf|done..|by eapply setRoot_abs|].
  exists s2. split; [done|]. split; [|done]. eapply flushes_trans; [done|].
  assert (s2 = put addr (setRoot r o1) (db s1) s1) as ->.
  { unfold change in E2. rewrite Eo1 in E2. injection E2 as <-. unfold put. by destruct s1. }
  apply flushes_quiet; [apply Hf|done].
Qed.

Lemma updateRoot_ok de s A addr a o :
  abs s A -> tidy de s -> Addr addr -> accts A addr = Some a -> stateObjects s !! addr = Some o -> allowed (a_store a) ->
  exists t r s', updateRoot addr s = Ok ((), s') /\ flushes de s A addr s' (setRoot r (cleared t o)) /\ root_is (a_store a) r.
Proof.
  intros Ha Ht Hu Ea Eo Hal. destruct (updateTrie_ok de s A addr a o Ha Ht Hu Ea Eo) as (t & s1 & E1 & Hf1 & Hm1).
  destruct (hash_law (db s1) t (a_store a) (abs_healthy _ _ (fl_abs _ _ _ _ _ _ Hf1)) Hm1 Hal) as (r & w & E2 & Hr & Hl).
  unfold updateRoot. rewrite (bind_ok _ _ _ _ _ E1), (bind_ok _ _ _ _ _ (call_ok _ s1 _ w E2)).
  pose proof (flushes_store de s A addr s1 _ w t Hf1 Hl (flushes_object _ _ _ _ _ _ Hf1) eq_refl) as Hf2.
  destruct (flushes_root de s A addr a _ _ t r Hf2 Hu Ea eq_refl) as (s3 & E3 & Hf3 & _). by exists t, r, s3.
Qed.

Lemma CommitTrie_ok de s A addr a o :
  abs s A -> tidy de s -> Addr addr -> accts A addr = Some a -> stateObjects s !! addr = Some o -> allowed (a_store a) ->
  exists t r s', CommitTrie addr s = Ok (None, s') /\ flushes de s A addr s' (setRoot r (cleared t o)) /\
    root_is (a_store a) r /\ kept (db s') r (a_store a).
Proof.
  intros Ha Ht Hu Ea Eo Hal. destruct (updateTrie_ok de s A addr a o Ha Ht Hu Ea Eo) as (t & s1 & E1 & Hf1 & Hm1).
  pose proof (flushes_object _ _ _ _ _ _ Hf1) as Eo1.
  destruct (abs_object_of s1 A addr _ a (fl_abs _ _ _ _ _ _ Hf1) Hu Eo1 Ea) as [_ Ho1].
  destruct (commit_law (db s1) t (a_store a) (fun _ => []) (abs_healthy _ _ (fl_abs _ _ _ _ _ _ Hf1)) Hm1 Hal)
    as (r & w & E2 & Hr & Hl & Hk & _).
  unfold CommitTrie. rewrite (bind_ok _ _ _ _ _ E1), (bind_ok _ _ _ _ _ (the_ok _ _ _ Eo1)), (oa_err _ _ _ Ho1).
  rewrite (bind_ok _ _ _ _ _ (call_ok _ s1 _ w E2)).
  pose proof (flushes_store de s A addr s1 _ w t Hf1 Hl Eo1 eq_refl) as Hf2.
  destruct (flushes_root de s A addr a _ _ t r Hf2 Hu Ea eq_refl) as (s3 & E3 & Hf3 & Ed3).
  exists t, r, s3. rewrite (bind_ok _ _ _ _ _ E3), Ed3. done.
Qed.

(** ** Code *)

Lemma commitCode_ok de s A addr a o :
  abs s A -> tidy de s -> Addr addr -> accts A addr = Some a -> stateObjects s !! addr = Some o -> code_ok (a_code a) ->
  exists s' o', commitCode addr s = Ok ((), s') /\ flushes de s A addr s' o' /\ (code o' <> None -> dirtyCode o' = false).
Proof.
  intros Ha Ht Hu Ea Eo Hc. destruct (abs_object_of s A addr o a Ha Hu Eo Ea) as [Had Ho].
  assert (flushes de s A addr s o) as Hid by (split; [exists (db s); by rewrite put_id|done..]).
  unfold commitCode. rewrite (bind_ok _ _ _ _ _ (the_ok _ _ _ Eo)). pose proof (oa_code _ _ _ Ho) as Hv. unfold code_view in Hv.
  destruct (code o) as [c|] eqn:Ec; [|exists s, o; by rewrite Ec].
  destruct (dirtyCode o) eqn:Ed; [|by exists s, o]. destruct Hv as [Hca _]. rewrite Hca in Hc.
  assert (BytesToHash (CodeHash (data o)) = keccak256 c) as Eh.
  { rewrite (obj_abs_hash _ _ _ Ho), (oa_codehash _ _ _ Ho), <- (oa_hash _ _ _ Ho). by rewrite Hca. }
  destruct (insert_law (db s) c (abs_healthy _ _ Ha) Hc) as [Hl Hcd].
  rewrite (bind_ok _ _ _ _ _ eq_refl), Eh. set (w := db_Insert (keccak256 c) c (db s)) in *.
  pose proof (quiet_db s A w Ha Hl) as Hq. set (f := fun o : obj => with_code (code o) false o).
  assert (obj_abs w (f o) a) as Hf.
  { pose proof (obj_abs_later _ _ _ _ Hl Ho) as Ho'. eapply obj_abs_with; [done|done..| | |by destruct (oa_cached _ _ _ Ho')].
    - unfold code_view. cbn. rewrite Ec. split; [done|]. intros _. by rewrite <- (obj_abs_hash _ _ _ Ho), Eh, Hca.
    - destruct (oa_storage _ _ _ Ho') as (m & Hm & Hs). exists m. split; [done|by eapply shown_same]. }
  destruct (quiet_change (set_db w s) A addr o a f) as (s2 & E2 & Hq2 & Eo2 & Ed2); [apply Hq|done..|].
  exists s2, (f o). split; [done|]. split; [|done].
  assert (s2 = put addr (f o) w s) as ->.
  { unfold change in E2. cbn [set_db stateObjects] in E2. rewrite Eo in E2. by injection E2 as <-. }
  apply flushes_quiet; [done|]. by eapply quiet_quiet.
Qed.
End Flush.
