(* ===== verification/StateMain.v ===== *)
(** * Writing accounts to the trie of the state

    An account that was changed is written under its address, or deleted; data of the
    chain is written beside the accounts.  Other entries stay. *)

From S2P Require Import Rlp RlpCodec Sponge TrieDatabase Trie TrieSpec BTree BTreeMap StateObject StateStore StateDB StateSpec.
From S2P Require Import StateStorage StateJournal StateOps StateFlush Prelude.

#[local] Set Warnings "-register-all".
#[local] Open Scope state_scope.

Section Main.
Context `{StateLaws, !Keys, HashRange}.

#[local] Abbreviation obj := (stateObject handle).

(** ** Entries of the trie of the state *)

Definition main_key (k : list Z) : Prop := Addr k \/ Mat k.

Lemma main_entry M k k' v :
  main_key k -> main_key k' -> map_update (place k) v M !! place k' = if decide (k' = k) then entry v else M !! place k'.
Proof.
  intros Hk Hk'. rewrite map_update_lookup. case_decide as E.
  - apply main_place in E; [|done..]. by rewrite decide_True.
  - rewrite decide_False; [done|]. by intros ->.
Qed.

Lemma main_value M k k' v :
  main_key k -> main_key k' -> value_at (map_update (place k) v M) k' = if decide (k' = k) then v else value_at M k'.
Proof. intros Hk Hk'. unfold value_at. rewrite main_entry by done. case_decide; [apply entry_default|done]. Qed.

Lemma view_value w objs M M' b oa : value_at M' b = value_at M b -> view w objs M b oa -> view w objs M' b oa.
Proof. intros E. unfold view, unused. by rewrite E. Qed.

Lemma unused_value w M M' b oa : value_at M' b = value_at M b -> unused w M b oa -> unused w M' b oa.
Proof. intros E. unfold unused. by rewrite E. Qed.

Lemma mview_value s M M' h ov : value_at M' h = value_at M h -> mview s M h ov -> mview s M' h ov.
Proof. intros E. unfold mview, stored_at. by rewrite E. Qed.

Lemma main_spared de s b o : tidy de s -> stateObjects s !! b = Some o -> spared (alias (strie s)) o.
Proof.
  intros Ht Eo t Et Hal. destruct (ti_valid _ _ Ht o t) as [_ Hn]; [left; by exists b|done|]. apply Hn. by symmetry.
Qed.

Lemma tidy_main de s w' M' : tidy de s -> later (alias (strie s)) (db s) w' -> has w' (strie s) M' -> tidy de (set_db w' s).
Proof.
  intros Ht Hl HM. apply (tidy_valid de s); [intros t'; by eapply valid_written|done|by apply inherits_same|done].
Qed.

Lemma setError_None s : setError None s = s.
Proof. destruct s as [? ? ? ? ? ? ? ? ? [e|]]; done. Qed.

(** ** What is written for an account *)

Definition acct_data (r : list Z) (a : aacct) : Account := mkAccount (a_nonce a) (a_balance a) r (a_codehash a).

Definition account_entry (oa : option aacct) (ov : option (list Z)) : Prop :=
  match oa with
  | None => ov = None
  | Some a => exists r, root_is (a_store a) r /\ encodable (acct_data r a) /\ ov = Some (enc (account_item (acct_data r a)))
  end.

Lemma account_entry_one oa ov ov' : account_entry oa ov -> account_entry oa ov' -> ov = ov'.
Proof.
  destruct oa as [a|]; cbn; [|congruence]. intros (r & Hr & _ & ->) (r' & Hr' & _ & ->). by rewrite (root_one _ _ _ Hr Hr').
Qed.

(** From [s] to [s'], in which the account at [addr] is written. *)
Record wrote (de : bool) (s : StateDB) (addr : list Z) (s' : StateDB) (A' : astate) (M M' : bmap) : Prop := {
  wr_put : exists o w, s' = put addr o w s;
  wr_abs : abs s' A';
  wr_tidy : tidy de s';
  wr_later : later any (db s) (db s');
  wr_has : has (db s') (strie s) M';
  wr_entry : account_entry (accts A' addr) (M' !! place addr);
  wr_rest : forall p, p <> place addr -> M' !! p = M !! p
}.

Lemma obj_abs_data_of w o a r : obj_abs w o a -> Root (data o) = r -> data o = acct_data r a.
Proof.
  intros [] Er. unfold acct_data. destruct (data o) as [n b r' c]. cbn in *. by subst.
Qed.

Lemma updateStateObject_ok de s A addr a s1 o1 r M :
  flushes de s A addr s1 o1 -> Addr addr -> accts A addr = Some a -> Root (data o1) = r -> root_is (a_store a) r ->
  encodable (acct_data r a) -> has (db s) (strie s) M ->
  exists s2 w2 M2, updateStateObject addr s1 = Ok ((), s2) /\ s2 = set_db w2 s1 /\ later (alias (strie s)) (db s1) w2 /\
    wrote de s addr s2 A M M2.
Proof.
  intros Hf Hu Ea Er Hr He HM. pose proof (flushes_object _ _ _ _ _ _ Hf) as Eo1. pose proof Hf as [(w1 & E1) Ha1 Ht1 Hl1 HM1].
  destruct (abs_object_of s1 A addr o1 a Ha1 Hu Eo1 Ea) as [Had Ho1]. pose proof (obj_abs_data_of _ _ _ _ Ho1 Er) as Ed.
  destruct (account_roundtrip _ He) as (Ee & _ & Hv & Hne). set (v := enc (account_item (acct_data r a))) in *.
  assert (strie s1 = strie s) as Et1 by by rewrite E1. specialize (HM1 M HM).
  destruct (put_entry s1 A (strie s) M addr v Ha1 HM1 (Addr_u8 _ Hu) Hv) as (w2 & E2 & Hl2 & HM2).
  rewrite bool_decide_eq_false_2 in E2 by done.
  exists (set_db w2 s1), w2, (map_update (place addr) v M). split; [|split; [done|split; [done|]]].
  { unfold updateStateObject. rewrite (bind_ok _ _ _ _ _ (the_ok _ _ _ Eo1)), Ed, Ee. rewrite (bind_ok _ _ _ _ _ eq_refl), Et1.
    rewrite (bind_ok _ _ _ _ _ (call_ok _ s1 _ w2 E2)). unfold modify. cbn [trieError]. by rewrite setError_None. }
  split; [| | |etransitivity; [done|by eapply later_any]|done|..].
  - exists o1, w2. by rewrite E1.
  - pose proof Ha1 as [Hh (M1 & HM1' & Hvw & Hma) ? ? ? ? ? ?]. rewrite Et1 in HM1'. rewrite (has_one _ _ _ _ HM1' HM1) in *.
    split; try done; [by apply (later_healthy _ _ _ Hl2)|]. cbn. rewrite Et1. exists (map_update (place addr) v M). split; [done|].
    split.
    + intros b Hb. eapply view_later; [done|intros o Eo; rewrite <- Et1; by eapply main_spared|].
      destruct (decide (b = addr)) as [->|Hne'].
      * specialize (Hvw addr Hu). unfold view in *. rewrite Eo1 in *. rewrite Ea in *. by rewrite (oa_live _ _ _ Ho1) in *.
      * eapply view_value; [|by apply Hvw]. rewrite main_value by (by left). by rewrite decide_False.
    + intros h Hh'. eapply mview_value; [|by apply Hma]. rewrite main_value by (unfold main_key; auto). rewrite decide_False; [done|].
      intros ->. by eapply Addr_not_Mat.
  - eapply tidy_main; [done|by rewrite Et1|rewrite Et1; done].
  - rewrite Ea. exists r. split; [done|]. split; [done|]. rewrite main_entry, decide_True by (done || (unfold main_key; auto)). fold v. by destruct v.
  - intros p Hp. by rewrite map_update_lookup, decide_False.
Qed.

(** Another object with the same trie is put in the place of an object. *)
Lemma tidy_put de s addr o o' w :
  tidy de s -> stateObjects s !! addr = Some o -> address o' = address o -> otrie o' = otrie o ->
  (deleted o' = true -> suicided o' || (de && empty_ o') = true) -> (forall t, valid (db s) t -> valid w t) ->
  tidy de (put addr o' w s).
Proof.
  intros Ht Eo Had Hot Hd Hv. pose proof Ht as [].
  assert (forall o1, known (put addr o' w s) o1 -> descends s o1) as Hk.
  { intros o1 [(b & E)|E]; [|apply known_descends; by right]. cbn in E. apply lookup_insert_Some in E as [[_ <-]|[_ E]].
    - right. exists o. split; [left; by exists addr|done].
    - apply known_descends. left. by exists b. }
  split; try done.
  - intros b o1. cbn. rewrite lookup_insert_Some. intros [[<- <-]|[_ E]]; [|auto]. rewrite Had. auto.
  - intros b o1. cbn. rewrite lookup_insert_Some. intros [[<- <-]|[_ E]]; [done|by apply (ti_gone b)].
  - intros o1 t Ho1 Et1. destruct (Hk o1 Ho1) as [?|(o2 & Ho2 & _ & E2)]; [congruence|].
    destruct (ti_valid o2 t Ho2) as [? ?]; [congruence|]. split; [by apply Hv|done].
  - intros o1 o2 t1 t2 Ho1 Ho2 Ha E1 E2. destruct (Hk o1 Ho1) as [?|(o1' & Hk1 & Ea1 & Et1)]; [congruence|].
    destruct (Hk o2 Ho2) as [?|(o2' & Hk2 & Ea2 & Et2)]; [congruence|].
    apply (ti_apart o1' o2'); [done..|congruence|congruence|congruence].
Qed.

Definition unset_acct (addr : list Z) (A : astate) : astate := set_accts (upd addr None (accts A)) A.

Lemma deleteStateObject_ok de s A addr o M :
  abs s A -> tidy de s -> stateObjects s !! addr = Some o -> suicided o || (de && empty_ o) = true -> has (db s) (strie s) M ->
  exists s' M', deleteStateObject addr s = Ok ((), s') /\ wrote de s addr s' (unset_acct addr A) M M'.
Proof.
  intros Ha Ht Eo Hd HM. destruct (ti_home _ _ Ht addr o Eo) as [Had Hu].
  destruct (put_entry s A (strie s) M addr [] Ha HM (Addr_u8 _ Hu)) as (w & E & Hl & HM'); [constructor|].
  rewrite bool_decide_eq_true_2 in E by done. set (o' := with_flags (suicided o) true o).
  exists (put addr o' w s), (map_update (place addr) [] M). split.
  { unfold deleteStateObject, bind at 1, change. rewrite Eo. cbn [res_bind]. rewrite (bind_ok _ _ _ _ _ eq_refl).
    rewrite (bind_ok _ _ _ _ _ (call_ok _ (set_objects (<[addr := o']> (stateObjects s)) s) _ w E)). unfold modify. cbn [trieError].
    by rewrite setError_None. }
  split; [by exists o', w| | |by eapply later_any|done|..].
  - pose proof Ha as [Hh (M1 & HM1 & Hvw & Hma) ? ? ? ? ? ?]. rewrite (has_one _ _ _ _ HM1 HM) in *.
    split; try done; [by apply (later_healthy _ _ _ Hl)|]. exists (map_update (place addr) [] M). split; [done|]. split.
    + intros b Hb. cbn [put set_objects set_db stateObjects db unset_acct set_accts accts]. unfold view, upd.
      destruct (decide (b = addr)) as [->|Hne].
      * rewrite lookup_insert_eq. cbn [o' with_flags deleted address]. split; [done|]. split; [done|]. by rewrite main_value, decide_True by (done || by left).
      * rewrite lookup_insert_ne by done. fold (view w (stateObjects s) (map_update (place addr) [] M) b (accts A b)).
        eapply view_later; [done|intros o1 Eo1; by eapply main_spared|]. eapply view_value; [|by apply Hvw].
        by rewrite main_value, decide_False by (done || by left).
    + intros h Hh'. eapply mview_value; [|by apply Hma]. rewrite main_value by (unfold main_key; auto). rewrite decide_False; [done|].
      intros ->. by eapply Addr_not_Mat.
  - eapply tidy_put; [done..|]. intros t'. by eapply valid_written.
  - unfold unset_acct, upd. cbn [set_accts accts]. rewrite decide_True by done. cbn [account_entry]. by rewrite main_entry, decide_True by (done || by left).
  - intros p Hp. by rewrite map_update_lookup, decide_False.
Qed.

(** ** Data of the chain *)

Lemma stripPrefix_man v : stripPrefix (man_prefix ++ v) = Ok v.
Proof. done. Qed.

Lemma flushMatrix_ok de s A h v M :
  abs s A -> tidy de s -> has (db s) (strie s) M -> matrixData s !! h = Some v ->
  exists s' w M', flushMatrix (h, v) s = Ok ((), s') /\ s' = set_matrix (matrixData s) (matrixDataDirty s ∖ {[h]}) (set_db w s) /\
    abs s' A /\ tidy de s' /\ later any (db s) w /\ has w (strie s) M' /\
    M' = if decide (h ∈ matrixDataDirty s) then map_update (place h) (man_prefix ++ v) M else M.
Proof.
  intros Ha Ht HM Eh. pose proof (ti_matrix _ _ Ht h v Eh) as Hh. unfold flushMatrix. rewrite (bind_ok _ _ _ _ _ eq_refl).
  case_bool_decide as Hd; [rewrite decide_True by done|rewrite decide_False by done].
  - pose proof Ha as [Hhe (M1 & HM1 & Hvw & Hma) ? ? ? ? ? ?]. rewrite (has_one _ _ _ _ HM1 HM) in *.
    pose proof (Hma h Hh) as Hmh. unfold mview in Hmh. rewrite Eh, decide_True in Hmh by done. destruct Hmh as [Eah Hv].
    destruct (put_entry s A (strie s) M h (man_prefix ++ v) Ha HM (Mat_u8 _ Hh)) as (w & E & Hl & HM').
    { apply Forall_app. split; [by apply (bool_decide_unpack _)|done]. }
    rewrite bool_decide_eq_false_2 in E by done.
    eexists _, w, (map_update (place h) (man_prefix ++ v) M). split; [|split; [done|]].
    { unfold updateMatrixData. unfold bind. cbn [gets res_bind]. unfold call. rewrite E. cbn [res_bind]. unfold modify at 1.
      cbn [trieError]. rewrite setError_None. done. }
    split; [|split; [|split; [by eapply later_any|done]]].
    + split; try done; [by apply (later_healthy _ _ _ Hl)|]. exists (map_update (place h) (man_prefix ++ v) M). split; [done|]. split.
      * intros b Hb. cbn [set_matrix set_db db stateObjects]. eapply view_later; [done|intros o1 Eo1; by eapply main_spared|]. eapply view_value; [|by apply Hvw].
        rewrite main_value by (unfold main_key; auto). rewrite decide_False; [done|]. intros ->. by eapply Addr_not_Mat.
      * intros h' Hh'. destruct (decide (h' = h)) as [->|Hne].
        -- unfold mview. cbn [set_matrix matrixData matrixDataDirty]. rewrite Eh. split; [done|]. rewrite decide_False by set_solver. unfold stored_at.
           rewrite main_value, decide_True by (done || by right). apply (f_equal (fun r => match r with Ok x => Some x | _ => None end) (stripPrefix_man v)).
        -- pose proof (mview_value s M (map_update (place h) (man_prefix ++ v) M) h' (a_matrix A h')) as Hx.
           rewrite main_value, decide_False in Hx by (done || by right). specialize (Hx eq_refl (Hma h' Hh')). unfold mview in *. cbn [set_matrix matrixData matrixDataDirty].
           destruct (matrixData s !! h') as [v'|]; [|split; [set_solver|apply Hx]]. destruct Hx as [Hx1 Hx2]. split; [done|].
           destruct (decide (h' ∈ matrixDataDirty s)); [rewrite decide_True by set_solver|rewrite decide_False by set_solver]; done.
    + apply (tidy_valid de s); [intros t'; by eapply valid_written|done|by apply inherits_same|done].
  - exists s, (db s), M. split; [done|]. assert (matrixDataDirty s ∖ {[h]} = matrixDataDirty s) as -> by set_solver.
    split; [by destruct s|]. done.
Qed.
End Main.
