(* ===== verification/StateCommit.v ===== *)
(** * Ending transactions and committing the state

    [Finalise] writes the accounts that a transaction has changed to the trie of the
    state, [Commit] stores everything.  After it, the trie alone stands for what the
    state stood for: opening its root again gives a state that stands for the same. *)

From S2P Require Import Rlp RlpCodec Sponge TrieDatabase Trie TrieSpec BTree BTreeMap StateObject StateStore StateDB StateSpec StateStorage.
From S2P Require Import StateJournal StateOps StateRefine StateFlush StateMain Prelude.

#[local] Set Warnings "-register-all".
#[local] Open Scope state_scope.

Section Commit.
Context `{StateLaws, !Keys, HashRange, NodeJson}.

#[local] Abbreviation obj := (stateObject handle).

(** ** Writing several accounts *)

(** What is left of an account: one that is suicided goes, and with [c] one that is
    empty. *)
Definition leaves (c : bool) (oa : option aacct) : option aacct :=
  match oa with
  | Some a => if a_suicided a || (c && a_empty a) then None else Some a
  | None => None
  end.

(** Accounts that can be stored: the maps do not collide, and the account has an
    encoding. *)
Record affordable (a : aacct) : Prop := {
  af_store : allowed (a_store a);
  af_data : forall r, root_is (a_store a) r -> encodable (acct_data r a);
  af_code : code_ok (a_code a)
}.

Definition all_affordable (A : astate) : Prop := forall addr a, Addr addr -> accts A addr = Some a -> affordable a.

(** The accounts of [P] are written, and [g] says what is left of them. *)
Record progress (de : bool) (P : list Z -> Prop) (g : list Z -> option aacct -> option aacct)
    (s : StateDB) (A : astate) (s' : StateDB) (A' : astate) (M M' : bmap) : Prop := {
  pg_frame : exists w os d, s' = set_dirty d (set_objects os (set_db w s));
  pg_acct : A' = set_accts (accts A') A;
  pg_abs : abs s' A';
  pg_tidy : tidy de s';
  pg_later : later any (db s) (db s');
  pg_has : has (db s') (strie s) M';
  pg_dom : forall a, is_Some (stateObjects s' !! a) <-> is_Some (stateObjects s !! a);
  pg_done : forall a, P a -> Addr a /\ accts A' a = g a (accts A a) /\ account_entry (accts A' a) (M' !! place a);
  pg_keep : forall a, ~ P a -> accts A' a = accts A a /\ stateObjects s' !! a = stateObjects s !! a;
  pg_rest : forall p, (forall a, P a -> place a <> p) -> M' !! p = M !! p
}.

Lemma set_accts_id A : set_accts (accts A) A = A.
Proof. by destruct A. Qed.

Lemma set_dirty_id s : set_dirty (stateObjectsDirty s) (set_objects (stateObjects s) (set_db (db s) s)) = s.
Proof. by destruct s. Qed.

Lemma progress_none de (P : list Z -> Prop) g s A M :
  abs s A -> tidy de s -> has (db s) (strie s) M -> (forall a, ~ P a) -> progress de P g s A s A M M.
Proof.
  intros Ha Ht HM HP. split; try done.
  - exists (db s), (stateObjects s), (stateObjectsDirty s). by rewrite set_dirty_id.
  - by rewrite set_accts_id.
  - intros a Hp. by destruct (HP a).
Qed.

Lemma progress_trans de P1 P2 g s A s1 A1 s2 A2 M M1 M2 :
  progress de P1 g s A s1 A1 M M1 -> progress de P2 g s1 A1 s2 A2 M1 M2 -> (forall a, P1 a -> ~ P2 a) ->
  progress de (fun a => P1 a \/ P2 a) g s A s2 A2 M M2.
Proof.
  intros [] [] Hdis. destruct pg_frame0 as (w1 & os1 & d1 & ->), pg_frame1 as (w2 & os2 & d2 & ->). split; try done.
  - by exists w2, os2, d2.
  - rewrite pg_acct1, pg_acct0. done.
  - by etransitivity.
  - intros a. by rewrite pg_dom1, pg_dom0.
  - intros a [Hp|Hp].
    + destruct (pg_done0 a Hp) as (Hu & E & He), (pg_keep1 a (Hdis a Hp)) as [E' _]. split; [done|]. split; [congruence|].
      rewrite E', pg_rest1; [done|]. intros b Hb Ep. destruct (pg_done1 b Hb) as [Hub _].
      rewrite (main_place b a) in Hb by (done || by left). by apply (Hdis a).
    + destruct (pg_done1 a Hp) as (Hu & E & He). split; [done|]. split; [|done]. rewrite E. f_equal.
      apply pg_keep0. intros Hp1. by apply (Hdis a).
  - intros a Hn. destruct (pg_keep1 a) as [E1 E2]; [auto|]. destruct (pg_keep0 a) as [E3 E4]; [auto|]. cbn in *. split; congruence.
  - intros p Hp. rewrite pg_rest1, pg_rest0; auto.
Qed.

Lemma progress_ext de P P' g s A s' A' M M' :
  (forall a, P a <-> P' a) -> progress de P g s A s' A' M M' -> progress de P' g s A s' A' M M'.
Proof.
  intros HP []. split; try done.
  - intros a Ha. apply pg_done0. by apply HP.
  - intros a Ha. apply pg_keep0. by rewrite HP.
  - intros p Hp. apply pg_rest0. intros a Ha. apply Hp. by apply HP.
Qed.

(** Marking does not matter. *)
Lemma abs_set_dirty s A d : abs s A -> abs (set_dirty d s) A.
Proof. by intros []. Qed.

Lemma tidy_set_dirty de s d : tidy de s -> tidy de (set_dirty d s).
Proof. by intros []. Qed.

Lemma wrote_progress de g s A addr s' A' d M M' :
  wrote de s addr s' A' M M' -> A' = set_accts (accts A') A -> Addr addr -> accts A' addr = g addr (accts A addr) ->
  is_Some (stateObjects s !! addr) -> (forall b, b <> addr -> accts A' b = accts A b) ->
  progress de (fun a => a = addr) g s A (set_dirty d s') A' M M'.
Proof.
  intros [(o & w & ->) Ha Ht Hl HM He Hr] EA Hu Hg Ho Hb. split; try done.
  - by exists w, (<[addr := o]> (stateObjects s)), d.
  - by apply abs_set_dirty.
  - by apply tidy_set_dirty.
  - intros a. cbn. rewrite lookup_insert_is_Some'. split; [|auto]. intros [<-|?]; done.
  - by intros a ->.
  - intros a Hne. cbn. rewrite lookup_insert_ne by done. auto.
  - intros p Hp. apply Hr. intros ->. by apply (Hp addr).
Qed.

(** ** Ending a transaction *)

Lemma leaves_nothing c s A addr o :
  abs s A -> Addr addr -> stateObjects s !! addr = Some o -> suicided o || (c && empty_ o) = true -> leaves c (accts A addr) = None.
Proof.
  intros [_ (M & _ & Hv & _) _ _ _ _ _ _] Hu Eo Hd. specialize (Hv addr Hu). unfold view in Hv. rewrite Eo in Hv.
  destruct Hv as [_ Hv]. destruct (deleted o); [by destruct Hv as [-> _]|]. destruct Hv as (a & -> & Ho). cbn.
  by rewrite <- (oa_suicided _ _ _ Ho), <- (empty_abs _ _ _ Ho), Hd.
Qed.

Lemma leaves_live de s A addr o :
  abs s A -> tidy de s -> stateObjects s !! addr = Some o -> suicided o || (de && empty_ o) = false ->
  exists a, accts A addr = Some a /\ leaves de (accts A addr) = Some a.
Proof.
  intros [_ (M & _ & Hv & _) _ _ _ _ _ _] Ht Eo Hd. destruct (ti_home _ _ Ht addr o Eo) as [_ Hu]. specialize (Hv addr Hu).
  unfold view in Hv. rewrite Eo in Hv. destruct Hv as [_ Hv]. destruct (deleted o) eqn:Edl.
  - by rewrite (ti_gone _ _ Ht addr o Eo Edl) in Hd.
  - destruct Hv as (a & -> & Ho). exists a. cbn. by rewrite <- (oa_suicided _ _ _ Ho), <- (empty_abs _ _ _ Ho), Hd.
Qed.

(** The account of an object that goes. *)
Lemma delete_progress de g s A addr o M d :
  abs s A -> tidy de s -> has (db s) (strie s) M -> stateObjects s !! addr = Some o -> suicided o || (de && empty_ o) = true ->
  g addr (accts A addr) = None ->
  exists s' M', deleteStateObject addr s = Ok ((), s') /\ stateObjectsDirty s' = stateObjectsDirty s /\
    progress de (fun a => a = addr) g s A (set_dirty d s') (unset_acct addr A) M M'.
Proof.
  intros Ha Ht HM Eo Hd Hg. destruct (ti_home _ _ Ht addr o Eo) as [_ Hu].
  destruct (deleteStateObject_ok de s A addr o M Ha Ht Eo Hd HM) as (s1 & M1 & E1 & Hw). exists s1, M1. split; [done|].
  split; [by destruct (wr_put _ _ _ _ _ _ _ Hw) as (o1 & w1 & ->)|].
  eapply wrote_progress; [done|done|done| |by exists o|].
  - cbn. unfold upd. by rewrite decide_True.
  - intros b Hb. cbn. unfold upd. by rewrite decide_False.
Qed.

Lemma finaliseObject_ok de s A M addr o :
  abs s A -> tidy de s -> has (db s) (strie s) M -> all_affordable A -> stateObjects s !! addr = Some o ->
  exists s' A' M', finaliseObject de addr s = Ok ((), s') /\ stateObjectsDirty s' = {[addr]} ∪ stateObjectsDirty s /\
    progress de (fun a => a = addr) (fun _ => leaves de) s A s' A' M M'.
Proof.
  intros Ha Ht HM Haf Eo. destruct (ti_home _ _ Ht addr o Eo) as [_ Hu]. unfold finaliseObject.
  rewrite (bind_ok _ _ _ _ _ eq_refl), Eo.
  destruct (suicided o || (de && empty_ o)) eqn:Hd.
  - destruct (delete_progress de (fun _ => leaves de) s A addr o M ({[addr]} ∪ stateObjectsDirty s) Ha Ht HM Eo Hd) as (s1 & M1 & E1 & Ed1 & Hp); [by eapply leaves_nothing|].
    rewrite (bind_ok _ _ _ _ _ E1). eexists _, _, M1. split; [done|]. cbn. rewrite Ed1. done.
  - destruct (leaves_live de s A addr o Ha Ht Eo Hd) as (a & Ea & El). destruct (Haf addr a Hu Ea) as [Hs He _].
    destruct (updateRoot_ok de s A addr a o Ha Ht Hu Ea Eo Hs) as (t & r & s1 & E1 & Hf & Hr).
    destruct (updateStateObject_ok de s A addr a s1 (setRoot r (cleared t o)) r M Hf Hu Ea) as (s2 & w2 & M2 & E2 & Es2 & _ & Hw); [done|done|by apply He|done|].
    unfold bind at 1. rewrite (bind_ok _ _ _ _ _ E1), E2. cbn [res_bind].
    assert (stateObjectsDirty s2 = stateObjectsDirty s) as Ed2 by by destruct (wr_put _ _ _ _ _ _ _ Hw) as (o1 & w1 & ->).
    eexists _, A, M2. split; [done|]. cbn. rewrite Ed2. split; [done|].
    eapply wrote_progress; [done|by rewrite set_accts_id|done| |by exists o|done]. by rewrite El.
Qed.

(** The loop over the dirty addresses. *)
Definition in_memory (s : StateDB) (l : list (list Z)) (a : list Z) : Prop := a ∈ l /\ is_Some (stateObjects s !! a).

Lemma leaves_affordable de (P : list Z -> Prop) (g : list Z -> option aacct -> option aacct) s A s' A' M M' :
  progress de P g s A s' A' M M' -> (forall a, P a \/ ~ P a) -> (forall a oa, g a oa = oa \/ g a oa = None) ->
  all_affordable A -> all_affordable A'.
Proof.
  intros [] Hdec Hg Haf addr a Hu Ea. destruct (Hdec addr) as [Hp|Hp].
  - destruct (pg_done0 addr Hp) as (_ & E & _). destruct (Hg addr (accts A addr)) as [Eg|Eg]; rewrite Eg in E; [|congruence].
    apply (Haf addr a Hu). congruence.
  - destruct (pg_keep0 addr Hp) as [E _]. apply (Haf addr a Hu). congruence.
Qed.

Lemma leaves_or c oa : leaves c oa = oa \/ leaves c oa = None.
Proof. destruct oa as [a|]; cbn; [|auto]. destruct (_ || _); auto. Qed.

Lemma finalise_loop de l : forall s A M,
  NoDup l -> abs s A -> tidy de s -> has (db s) (strie s) M -> all_affordable A ->
  exists s' A' M', each l (finaliseObject de) s = Ok ((), s') /\
    progress de (in_memory s l) (fun _ => leaves de) s A s' A' M M' /\
    (forall a, a ∈ stateObjectsDirty s' <-> a ∈ stateObjectsDirty s \/ in_memory s l a).
Proof.
  induction l as [|x l IH]; intros s A M Hn Ha Ht HM Haf.
  - exists s, A, M. split; [done|]. split; [apply progress_none; [done..|]|]; unfold in_memory; set_solver.
  - apply NoDup_cons in Hn as [Hx Hn]. cbn [each]. destruct (stateObjects s !! x) as [o|] eqn:Eo.
    + destruct (finaliseObject_ok de s A M x o Ha Ht HM Haf Eo) as (s1 & A1 & M1 & E1 & Ed1 & Hp1).
      pose proof Hp1 as [(w1 & os1 & d1 & Es1) _ Ha1 Ht1 _ HM1 Hd1 _ _ _].
      assert (all_affordable A1) as Haf1.
      { eapply leaves_affordable; [done| |intros ? ?; apply leaves_or|done]. intros a. destruct (decide (a = x)); auto. }
      destruct (IH s1 A1 M1 Hn Ha1 Ht1) as (s2 & A2 & M2 & E2 & Hp2 & Hm2); [by replace (strie s1) with (strie s) by (by rewrite Es1)|done|].
      exists s2, A2, M2. rewrite (bind_ok _ _ _ _ _ E1). split; [done|]. split.
      * eapply progress_ext; [|eapply progress_trans; [done|done|]]; unfold in_memory.
        -- intros a. rewrite Hd1. rewrite elem_of_cons. split; [intros [->|[? ?]]; [split; [by left|by exists o]|by split; [right|]]|].
           intros [[->|?] ?]; auto.
        -- intros a -> [? _]. done.
      * intros a. rewrite Hm2, Ed1. unfold in_memory. rewrite Hd1, elem_of_cons, elem_of_union, elem_of_singleton. split.
        -- intros [[->|?]|[? ?]]; [right; split; [by left|by exists o]|by left|right; by split; [right|]].
        -- intros [?|[[->|?] ?]]; auto.
    + assert (finaliseObject de x s = Ok ((), s)) as E1 by (unfold finaliseObject; rewrite (bind_ok _ _ _ _ _ eq_refl); by rewrite Eo).
      destruct (IH s A M Hn Ha Ht HM Haf) as (s2 & A2 & M2 & E2 & Hp2 & Hm2). exists s2, A2, M2. rewrite (bind_ok _ _ _ _ _ E1).
      assert (forall a, in_memory s (x :: l) a <-> in_memory s l a) as Hin.
      { intros a. unfold in_memory. rewrite elem_of_cons. split; [|by intros [? ?]; auto]. intros [[->|?] Hs]; [|done]. rewrite Eo in Hs. by destruct Hs. }
      split; [done|]. split; [eapply progress_ext; [|done]; intros a; by rewrite Hin|]. intros a. by rewrite Hm2, Hin.
Qed.

(** ** Data of the chain *)

(** The data of [l] that is dirty is written. *)
Definition data_written (l : list (list Z * list Z)) (d : gset (list Z)) (M M' : bmap) : Prop :=
  (forall h v, (h, v) ∈ l -> h ∈ d -> M' !! place h = Some (man_prefix ++ v)) /\
  (forall p, (forall h v, (h, v) ∈ l -> h ∈ d -> place h <> p) -> M' !! p = M !! p).

Lemma matrix_loop de A l : forall s M,
  NoDup l.*1 -> (forall h v, (h, v) ∈ l -> matrixData s !! h = Some v) -> abs s A -> tidy de s -> has (db s) (strie s) M ->
  exists s' w d M', each l flushMatrix s = Ok ((), s') /\ s' = set_matrix (matrixData s) d (set_db w s) /\ abs s' A /\ tidy de s' /\
    later any (db s) w /\ has w (strie s) M' /\ (forall h, h ∈ d <-> h ∈ matrixDataDirty s /\ h ∉ l.*1) /\
    data_written l (matrixDataDirty s) M M'.
Proof.
  induction l as [|[h v] l IH]; intros s M Hn Hl Ha Ht HM.
  - exists s, (db s), (matrixDataDirty s), M. split; [done|]. split; [by destruct s|]. split; [done|]. split; [done|]. split; [done|].
    split; [done|]. split; [cbn; set_solver|]. split; [set_solver|done].
  - rewrite fmap_cons in Hn. apply NoDup_cons in Hn as [Hh Hn].
    destruct (flushMatrix_ok de s A h v M Ha Ht HM) as (s1 & w1 & M1 & E1 & Es1 & Ha1 & Ht1 & Hl1 & HM1 & EM1); [apply Hl; by left|].
    destruct (IH s1 M1) as (s2 & w2 & d2 & M2 & E2 & Es2 & Ha2 & Ht2 & Hl2 & HM2 & Hd2 & Hw2 & Hr2);
      [done|intros h' v' Hin; rewrite Es1; apply Hl; by right|done|done|by rewrite Es1|].
    assert (forall h' v', (h', v') ∈ (h, v) :: l -> Mat h') as Hmat by (intros h' v' Hin; eapply (ti_matrix _ _ Ht), Hl, Hin).
    assert (forall h' v', (h', v') ∈ l -> h' <> h) as Hne.
    { intros h' v' Hin ->. apply Hh. by apply (list_elem_of_fmap_2' fst _ (h, v')). }
    rewrite Es1 in Hd2, Hw2, Hr2, Hl2, HM2, Es2. cbn [set_matrix set_db matrixDataDirty matrixData strie db] in Hd2, Hw2, Hr2, Hl2, HM2, Es2.
    exists s2, w2, d2, M2. cbn [each]. rewrite (bind_ok _ _ _ _ _ E1). split; [done|]. split; [done|]. split; [done|]. split; [done|].
    split; [by etransitivity|]. split; [done|]. split; [intros h'; rewrite Hd2; cbn; set_solver|]. split.
    + intros h' v' Hin Hd. apply elem_of_cons in Hin as [[= -> ->]|Hin]; [|apply Hw2; [done|]; pose proof (Hne _ _ Hin); set_solver].
      assert (Mat h) as Hm by (eapply Hmat; by left). rewrite Hr2.
      * by rewrite EM1, decide_True, main_entry, decide_True by (done || by right).
      * intros h' v' Hin _ Ep. apply (Hne h' v' Hin). apply main_place; [right; eapply Hmat; by right|by right|done].
    + intros p Hp. rewrite Hr2.
      * rewrite EM1. case_decide as Hd; [|done]. rewrite map_update_lookup, decide_False; [done|]. intros ->. by apply (Hp h v); [left|..].
      * intros h' v' Hin Hd. apply (Hp h' v'); [by right|set_solver].
Qed.

(** The entries of the trie of the state after the accounts of [P] and data are written. *)
Definition main_after (P : list Z -> Prop) (A' : astate) (l : list (list Z * list Z)) (d : gset (list Z)) (M M' : bmap) : Prop :=
  (forall a, P a -> account_entry (accts A' a) (M' !! place a)) /\
  (forall h v, (h, v) ∈ l -> h ∈ d -> M' !! place h = Some (man_prefix ++ v)) /\
  (forall p, (forall a, P a -> place a <> p) -> (forall h v, (h, v) ∈ l -> h ∈ d -> place h <> p) -> M' !! p = M !! p).

Lemma progress_data de P g s A s' A' l d M M1 M2 :
  progress de P g s A s' A' M M1 -> (forall h v, (h, v) ∈ l -> Mat h) -> data_written l d M1 M2 -> main_after P A' l d M M2.
Proof.
  intros Hp Hm [Hd Hr]. split; [|split].
  - intros a Ha. destruct (pg_done _ _ _ _ _ _ _ _ _ Hp a Ha) as (Hu & _ & He). rewrite Hr; [done|]. intros h v Hin _ Ep.
    apply (Addr_not_Mat a); [done|]. rewrite <- (main_place h a); [by eapply Hm|right; by eapply Hm|by left|done].
  - done.
  - intros p H1' H2'. rewrite Hr by done. by apply (pg_rest _ _ _ _ _ _ _ _ _ Hp).
Qed.

(** The transaction has ended. *)
Definition end_tx (A : astate) : astate :=
  mkAS (accts A) 0 (a_logs A) (a_logSize A) (a_preimages A) (a_matrix A) (a_btrees A).

Definition dirty_in_memory (s : StateDB) (a : list Z) : Prop :=
  is_Some (dirties (sjournal s) !! a) /\ is_Some (stateObjects s !! a).

Record finalised (de : bool) (s : StateDB) (A : astate) (s' : StateDB) (A' : astate) : Prop := {
  fn_abs : abs s' A';
  fn_tidy : tidy de s';
  fn_later : later any (db s) (db s');
  fn_trie : strie s' = strie s;
  fn_journal : sjournal s' = newJournal;
  fn_revs : validRevisions s' = [];
  fn_rest : A' = end_tx (set_accts (accts A') A);
  fn_leaves : forall a, dirty_in_memory s a -> accts A' a = leaves de (accts A a);
  fn_keeps : forall a, ~ dirty_in_memory s a -> accts A' a = accts A a;
  fn_marks : forall a, a ∈ stateObjectsDirty s' <-> a ∈ stateObjectsDirty s \/ dirty_in_memory s a;
  fn_marked : marked s -> marked s';
  fn_matrix : forall h v, matrixData s' !! h = Some v -> ~ (h ∈ matrixDataDirty s');
  fn_main : forall M, has (db s) (strie s) M -> exists M', has (db s') (strie s) M' /\
    main_after (dirty_in_memory s) A' (hash_range (matrixData s)) (matrixDataDirty s) M M'
}.

Lemma CommitSaveTx_none s : btreeMap s = [] -> CommitSaveTx s = Ok ((), s).
Proof. intros E. unfold CommitSaveTx. rewrite (bind_ok _ _ _ _ _ eq_refl), E. unfold bind. cbn. f_equal. f_equal. destruct s. cbn in *. by subst. Qed.

Lemma cleared_journal de s A : abs s A -> tidy de s ->
  exists s', clearJournalAndRefund s = Ok ((), s') /\ abs s' (end_tx A) /\ tidy de s' /\ sjournal s' = newJournal /\ validRevisions s' = [] /\
    db s' = db s /\ strie s' = strie s /\ stateObjects s' = stateObjects s /\ stateObjectsDirty s' = stateObjectsDirty s /\
    matrixData s' = matrixData s /\ matrixDataDirty s' = matrixDataDirty s.
Proof.
  intros Ha Ht. eexists. split; [done|]. split; [by destruct Ha; split|]. split; [|done].
  eapply (tidy_inherits de s); [done|done| |done]. apply inherits_same; [done..|]. cbn. set_solver.
Qed.

Lemma Finalise_ok de s A :
  abs s A -> tidy de s -> all_affordable A -> btreeMap s = [] -> exists s' A', Finalise de s = Ok ((), s') /\ finalised de s A s' A'.
Proof.
  intros Ha Ht Haf Hb. destruct (abs_trie _ _ Ha) as (M & HM & _). unfold Finalise. rewrite (bind_ok _ _ _ _ _ eq_refl).
  destruct (finalise_loop de (hash_range (dirties (sjournal s))).*1 s A M (hash_range_NoDup _) Ha Ht HM Haf)
    as (s1 & A1 & M1 & E1 & Hp & Hmk). rewrite (bind_ok _ _ _ _ _ E1), (bind_ok _ _ _ _ _ eq_refl).
  assert (forall a, in_memory s (hash_range (dirties (sjournal s))).*1 a <-> dirty_in_memory s a) as Hin.
  { intros a. unfold in_memory, dirty_in_memory. by rewrite hash_range_keys. }
  apply (progress_ext _ _ _ _ _ _ _ _ _ _ Hin) in Hp. pose proof Hp as [(w1 & os1 & d1 & Es1) EA1 Ha1 Ht1 Hl1 HM1 Hdom Hdone Hkeep _].
  destruct (matrix_loop de A1 (hash_range (matrixData s1)) s1 M1) as (s2 & w2 & d2 & M2 & E2 & Es2 & Ha2 & Ht2 & Hl2 & HM2 & Hd2 & Hw2);
    [apply hash_range_NoDup|by intros h v; rewrite hash_range_In|done|done|by replace (strie s1) with (strie s) by (by rewrite Es1)|].
  rewrite (bind_ok _ _ _ _ _ E2). rewrite (bind_ok _ _ s2 () s2); [|apply CommitSaveTx_none; by rewrite Es2, Es1].
  destruct (cleared_journal de s2 A1 Ha2 Ht2) as (s3 & E3 & Ha3 & Ht3 & Ej3 & Er3 & Ed3 & Et3 & Eo3 & Em3 & Ex3 & Ey3).
  exists s3, (end_tx A1). split; [done|].
  assert (matrixData s1 = matrixData s) as Emx by by rewrite Es1. assert (matrixDataDirty s1 = matrixDataDirty s) as Emy by by rewrite Es1.
  split; try done.
  - rewrite Ed3. etransitivity; [done|]. by rewrite Es2.
  - by rewrite Et3, Es2, Es1.
  - rewrite EA1. done.
  - intros a Hm. by destruct (Hdone a Hm) as (_ & ? & _).
  - intros a Hm. by destruct (Hkeep a Hm).
  - intros a. rewrite Em3, Es2. cbn [set_matrix set_db stateObjectsDirty]. by rewrite Hmk, Hin.
  - intros Hm a. rewrite Em3, Eo3, Es2. cbn [set_matrix set_db stateObjectsDirty stateObjects]. rewrite Hmk, Hin, Hdom.
    intros [?|[_ ?]]; auto.
  - intros h v. rewrite Ex3, Ey3, Es2. cbn [set_matrix set_db matrixData matrixDataDirty]. rewrite Hd2, hash_range_keys. intros Eh [_ []].
    by exists v.
  - intros M' HM'. rewrite (has_one _ _ _ _ HM' HM) in *. exists M2. split.
    + rewrite Ed3. replace (strie s) with (strie s1) by by rewrite Es1. by rewrite Es2.
    + rewrite Emx, Emy in Hw2. eapply (progress_data _ _ _ _ _ _ A1); [done| |done]. intros h v. rewrite hash_range_In. apply (ti_matrix _ _ Ht).
Qed.
End Commit.

(** ** What is committed is found again *)

Section Durable.
Context `{StateLaws, !Keys, HashRange, NodeJson}.

#[local] Abbreviation obj := (stateObject handle).

Lemma unused_later_any w w' M addr oa : later any w w' -> unused w M addr oa -> unused w' M addr oa.
Proof. apply unused_later. Qed.

(** An account that was written, and whose storage and code are stored. *)
Lemma stored_account w M addr a r :
  M !! place addr = Some (enc (account_item (acct_data r a))) -> encodable (acct_data r a) -> kept w r (a_store a) ->
  keccak256 (a_code a) = a_codehash a -> (a_codehash a = emptyCodeHash /\ a_code a = [] \/ a_codehash a <> emptyCodeHash /\ coded w (a_codehash a) (a_code a)) ->
  a_suicided a = false -> unused w M addr (Some a).
Proof.
  intros EM He Hk Hh Hc Hs. destruct (account_roundtrip _ He) as (_ & Ed & _ & Hne). unfold unused, value_at. rewrite EM. cbn [default from_option id].
  destruct (enc (account_item (acct_data r a))) as [|x l] eqn:Ee; [done|]. rewrite Ed. exists a. split; [done|].
  constructor; try done.
  - unfold code_view. cbn. destruct Hc as [[Eh ->]|[Eh Hc]]; [by rewrite decide_True|by rewrite decide_False].
  - exists (a_store a). split; [done|]. split; [|done]. intros k v. unfold pending. cbn. by rewrite !lookup_empty.
Qed.

Lemma code_stored w o a :
  obj_abs w o a -> code_ok (a_code a) -> (code o <> None -> dirtyCode o = false) ->
  a_codehash a = emptyCodeHash /\ a_code a = [] \/ a_codehash a <> emptyCodeHash /\ coded w (a_codehash a) (a_code a).
Proof.
  intros Ho Hok Hd. pose proof (oa_code _ _ _ Ho) as Hc. unfold code_view in Hc. rewrite (oa_codehash _ _ _ Ho) in Hc.
  destruct (decide (a_codehash a = emptyCodeHash)) as [Eh|Eh].
  - left. split; [done|]. apply code_empty; [done|]. by rewrite (oa_hash _ _ _ Ho), emptyCodeHash_ok.
  - right. split; [done|]. destruct (code o) as [c|]; [|done]. destruct Hc as [_ Hc]. by apply Hc, Hd.
Qed.

(** ** One object *)

Definition commit_leaves (de : bool) (D : gset (list Z)) (a : list Z) : option aacct -> option aacct := leaves (bool_decide (a ∈ D) && de).

Lemma commitObject_live de s A M addr a o :
  abs s A -> tidy de s -> has (db s) (strie s) M -> Addr addr -> accts A addr = Some a -> affordable a -> a_suicided a = false ->
  stateObjects s !! addr = Some o ->
  exists s1 s2 s3 M3, commitCode addr s = Ok ((), s1) /\ CommitTrie addr s1 = Ok (None, s2) /\ updateStateObject addr s2 = Ok ((), s3) /\
    wrote de s addr s3 A M M3 /\ unused (db s3) M3 addr (Some a).
Proof.
  intros Ha Ht HM Hu Ea [Hs He Hc] Hsu Eo.
  destruct (commitCode_ok de s A addr a o Ha Ht Hu Ea Eo Hc) as (s1 & o1 & E1 & Hf1 & Hd1).
  destruct (CommitTrie_ok de s1 A addr a o1) as (t & r & s2 & E2 & Hf2 & Hr & Hk); [apply Hf1|apply Hf1|done|done|by eapply flushes_object|done|].
  pose proof (flushes_trans _ _ _ _ _ _ _ _ Hf1 Hf2) as Hf.
  destruct (updateStateObject_ok de s A addr a s2 (setRoot r (cleared t o1)) r M Hf Hu Ea) as (s3 & w3 & M3 & E3 & Es3 & Hl3 & Hw); [done|done|by apply He|done|].
  exists s1, s2, s3, M3. split; [done|]. split; [done|]. split; [done|]. split; [done|].
  pose proof (wr_entry _ _ _ _ _ _ _ Hw) as Hen. rewrite Ea in Hen. destruct Hen as (r' & Hr' & _ & EM). rewrite (root_one _ _ _ Hr' Hr) in EM.
  destruct (abs_object_of s2 A addr (setRoot r (cleared t o1)) a (fl_abs _ _ _ _ _ _ Hf) Hu (flushes_object _ _ _ _ _ _ Hf) Ea) as [_ Ho2].
  assert (later any (db s2) (db s3)) as Hl by (rewrite Es3; by eapply later_any).
  apply (stored_account _ _ _ _ r); [done|by apply He|by apply (later_kept _ _ _ Hl)|by apply (oa_hash _ _ _ Ho2)| |done].
  destruct (code_stored _ _ _ Ho2 Hc) as [?|[? ?]]; [done|by left|right]. split; [done|by apply (later_coded _ _ _ Hl)].
Qed.

Lemma commitObject_ok de s A M addr o :
  abs s A -> tidy de s -> has (db s) (strie s) M -> all_affordable A -> stateObjects s !! addr = Some o ->
  exists s' A' M', commitObject de addr o s = Ok (None, s') /\ stateObjectsDirty s' = stateObjectsDirty s ∖ {[addr]} /\
    progress de (fun a => a = addr /\ (suicided o = true \/ addr ∈ stateObjectsDirty s)) (commit_leaves de (stateObjectsDirty s)) s A s' A' M M' /\
    (suicided o = true \/ addr ∈ stateObjectsDirty s -> unused (db s') M' addr (accts A' addr)).
Proof.
  intros Ha Ht HM Haf Eo. destruct (ti_home _ _ Ht addr o Eo) as [_ Hu]. unfold commitObject. rewrite (bind_ok _ _ _ _ _ eq_refl).
  destruct (suicided o || (bool_decide (addr ∈ stateObjectsDirty s) && de && empty_ o)) eqn:Hd.
  - assert (suicided o || (de && empty_ o) = true) as Hd'.
    { destruct (suicided o); [done|]. cbn in *. apply andb_true_iff in Hd as [Hx Hy]. apply andb_true_iff in Hx as [_ Hx]. by rewrite Hx. }
    assert (suicided o = true \/ addr ∈ stateObjectsDirty s) as HP.
    { destruct (suicided o); [by left|right]. cbn in Hd. apply andb_true_iff in Hd as [Hx _]. by apply andb_true_iff in Hx as [Hx%bool_decide_eq_true _]. }
    assert (commit_leaves de (stateObjectsDirty s) addr (accts A addr) = None) as Hg by (eapply leaves_nothing; done).
    destruct (delete_progress de (commit_leaves de (stateObjectsDirty s)) s A addr o M (stateObjectsDirty s ∖ {[addr]}) Ha Ht HM Eo Hd' Hg)
      as (s1 & M1 & E1 & Ed1 & Hp).
    unfold bind at 1. rewrite (bind_ok _ _ _ _ _ E1). cbn [ret res_bind]. eexists _, _, M1. split; [done|]. cbn. rewrite Ed1.
    split; [done|]. split; [eapply progress_ext; [|done]; cbn; intros a; split; [by intros ->|by intros [? _]]|]. intros _.
    destruct (pg_done _ _ _ _ _ _ _ _ _ Hp addr eq_refl) as (_ & _ & He). cbn in He |- *. unfold upd in *. rewrite decide_True in * by done.
    unfold unused, value_at. by rewrite He.
  - destruct (decide (addr ∈ stateObjectsDirty s)) as [Hin|Hin].
    + rewrite bool_decide_eq_true_2 in * by done. cbn [andb] in Hd.
      destruct (leaves_live de s A addr o Ha Ht Eo Hd) as (a & Ea & El).
      assert (a_suicided a = false) as Hsu by (rewrite Ea in El; cbn in El; by destruct (a_suicided a)).
      destruct (commitObject_live de s A M addr a o) as (s1 & s2 & s3 & M3 & E1 & E2 & E3 & Hw & Hun); [done..|by eapply Haf|done|done|].
      assert (stateObjectsDirty s3 = stateObjectsDirty s) as Ed3 by by destruct (wr_put _ _ _ _ _ _ _ Hw) as (o1 & w1 & ->).
      unfold bind at 1. rewrite (bind_ok _ _ _ _ _ E1), (bind_ok _ _ _ _ _ E2), (bind_ok _ _ _ _ _ E3). cbn [ret res_bind].
      eexists _, A, M3. split; [done|]. cbn. rewrite Ed3. split; [done|]. split; [|intros _; by rewrite Ea].
      eapply progress_ext; [|eapply wrote_progress; [done|by rewrite set_accts_id|done| |by exists o|done]]; cbn.
      * intros b. split; [intros ->; by split; [|right]|by intros [? _]].
      * unfold commit_leaves. rewrite bool_decide_eq_true_2 by done. cbn [andb]. by rewrite El.
    + rewrite bool_decide_eq_false_2 by done. assert (suicided o = false) as Hsu by by destruct (suicided o).
      eexists _, A, M. split; [done|]. cbn. split; [done|].
      assert (stateObjectsDirty s ∖ {[addr]} = stateObjectsDirty s) as -> by set_solver.
      assert (set_dirty (stateObjectsDirty s) s = s) as -> by by destruct s.
      split; [apply progress_none; [done..|]|]; rewrite Hsu; naive_solver.
Qed.

(** ** All objects *)

Lemma progress_leaves de P g g' s A s' A' M M' :
  (forall a oa, P a -> g a oa = g' a oa) -> progress de P g s A s' A' M M' -> progress de P g' s A s' A' M M'.
Proof. intros Hg []. split; try done. intros a Ha. destruct (pg_done0 a Ha) as (? & E & ?). by rewrite <- Hg. Qed.

(** The objects of the list that are written. *)
Definition written_of (D : gset (list Z)) (l : list (list Z * obj)) (a : list Z) : Prop :=
  exists o, (a, o) ∈ l /\ (suicided o = true \/ a ∈ D).

Lemma commit_loop de l : forall s A M,
  NoDup l.*1 -> (forall a o, (a, o) ∈ l -> stateObjects s !! a = Some o) -> abs s A -> tidy de s -> has (db s) (strie s) M -> all_affordable A ->
  exists s' A' M', commitObjects de l s = Ok (None, s') /\
    progress de (written_of (stateObjectsDirty s) l) (commit_leaves de (stateObjectsDirty s)) s A s' A' M M' /\
    (forall a, a ∈ stateObjectsDirty s' <-> a ∈ stateObjectsDirty s /\ a ∉ l.*1) /\
    (forall a, written_of (stateObjectsDirty s) l a -> unused (db s') M' a (accts A' a)).
Proof.
  induction l as [|[x o] l IH]; intros s A M Hn Hl Ha Ht HM Haf.
  - assert (forall a, ~ written_of (stateObjectsDirty s) [] a) as Hnone by (intros a (o & Hin & _); by apply not_elem_of_nil in Hin).
    exists s, A, M. split; [done|]. split; [by apply progress_none|]. split; [|by intros a ?%Hnone]. intros a.
    split; [|by intros [? _]]. intros Hin. split; [done|apply not_elem_of_nil].
  - rewrite fmap_cons in Hn. apply NoDup_cons in Hn as [Hx Hn]. cbn [fst] in Hx.
    destruct (commitObject_ok de s A M x o Ha Ht HM Haf) as (s1 & A1 & M1 & E1 & Ed1 & Hp1 & Hu1); [apply Hl; by left|].
    pose proof Hp1 as [(w1 & os1 & d1 & Es1) _ Ha1 Ht1 _ HM1 _ Hdone1 Hk1 _].
    assert (forall a o, (a, o) ∈ l -> a <> x) as Hne.
    { intros a o' Hin ->. apply Hx. by apply (list_elem_of_fmap_2' fst _ (x, o')). }
    assert (all_affordable A1) as Haf1.
    { eapply leaves_affordable; [exact Hp1| |intros ? ?; apply leaves_or|done]. intros a.
      destruct (decide (a = x /\ (suicided o = true \/ x ∈ stateObjectsDirty s))); auto. }
    destruct (IH s1 A1 M1 Hn) as (s2 & A2 & M2 & E2 & Hp2 & Hm2 & Hu2); [|done|done|by replace (strie s1) with (strie s) by (by rewrite Es1)|done|].
    { intros a o' Hin. destruct (Hk1 a) as [_ ->]; [|apply Hl; by right]. intros [-> _]. by eapply Hne. }
    assert (forall a, written_of (stateObjectsDirty s1) l a <-> written_of (stateObjectsDirty s) l a) as Hw.
    { intros a. unfold written_of. rewrite Ed1. setoid_rewrite elem_of_difference. setoid_rewrite not_elem_of_singleton.
      split; intros (o' & Hin & Hor); exists o'; (split; [done|]); destruct Hor as [?|Hor]; [by left|right; apply Hor|by left|right].
      split; [done|by eapply Hne]. }
    exists s2, A2, M2. cbn [commitObjects]. rewrite (bind_ok _ _ _ _ _ E1). split; [done|].
    assert (forall a, (a = x /\ (suicided o = true \/ x ∈ stateObjectsDirty s)) \/ written_of (stateObjectsDirty s) l a <->
              written_of (stateObjectsDirty s) ((x, o) :: l) a) as Hsplit.
    { intros a. unfold written_of. split.
      - intros [[-> Hor]|(o' & Hin & Hor)]; [exists o; split; [by left|done]|exists o'; split; [by right|done]].
      - intros (o' & Hin & Hor). apply elem_of_cons in Hin as [[= -> ->]|Hin]; [by left|right; by exists o']. }
    split; [|split].
    + eapply progress_ext; [exact Hsplit|]. eapply progress_trans; [done| |].
      * eapply progress_ext; [exact Hw|]. eapply progress_leaves; [|done]. intros a oa (o' & Hin & _). unfold commit_leaves. rewrite Ed1.
        pose proof (Hne _ _ Hin). f_equal. f_equal. apply bool_decide_ext. rewrite elem_of_difference, not_elem_of_singleton. tauto.
      * intros a [-> _] (o' & Hin & _). by eapply Hne.
    + intros a. rewrite Hm2, Ed1, fmap_cons, not_elem_of_cons, elem_of_difference, not_elem_of_singleton. cbn [fst]. tauto.
    + intros a Ha2%Hsplit. destruct Ha2 as [[-> Hor]|Hin]; [|by apply Hu2, Hw].
      assert (~ written_of (stateObjectsDirty s1) l x) as Hnw by (intros (o' & Hin & _); by eapply Hne).
      destruct (pg_keep _ _ _ _ _ _ _ _ _ Hp2 x Hnw) as [-> _]. eapply unused_value; [|eapply unused_later_any; [by apply (pg_later _ _ _ _ _ _ _ _ _ Hp2)|by apply Hu1]].
      unfold value_at. rewrite (pg_rest _ _ _ _ _ _ _ _ _ Hp2); [done|]. intros b (o' & Hin & Hor') Ep.
      destruct (pg_done _ _ _ _ _ _ _ _ _ Hp2 b) as [Hub _]; [by exists o'|]. apply (Hne _ _ Hin).
      apply main_place; [by left|left; by apply (Hdone1 x)|done].
Qed.

(** ** The commit *)

(** What is not dirty is in the trie, and what was written is there as it was written. *)
Definition clean (s : StateDB) (A : astate) : Prop :=
  forall M a, has (db s) (strie s) M -> Addr a -> dirties (sjournal s) !! a = None ->
    (~ (a ∈ stateObjectsDirty s) -> unused (db s) M a (accts A a)) /\
    (a ∈ stateObjectsDirty s -> account_entry (accts A a) (M !! place a)).

Definition to_commit (s : StateDB) : gset (list Z) := dom (dirties (sjournal s)) ∪ stateObjectsDirty s.

Definition written (s : StateDB) (a : list Z) : Prop :=
  exists o, stateObjects s !! a = Some o /\ (suicided o = true \/ a ∈ to_commit s).

Record committed (de : bool) (s : StateDB) (A : astate) (root : list Z) (w : store) (A' : astate) (M M' : bmap) : Prop := {
  cm_healthy : healthy w;
  cm_root : root_is M' root;
  cm_ready : ready w root M';
  cm_accounts : forall a, Addr a -> unused w M' a (accts A' a);
  cm_data : forall h, Mat h -> stored_at M' h = a_matrix A h;
  cm_leaves : forall a, written s a -> accts A' a = commit_leaves de (to_commit s) a (accts A a);
  cm_keeps : forall a, ~ written s a -> accts A' a = accts A a;
  cm_main : main_after (written s) A' (hash_range (matrixData s)) (matrixDataDirty s) M M'
}.

(** The only entries that the trie of the state can have afterwards. *)
Definition final_entries (de : bool) (s : StateDB) (A : astate) (M M' : bmap) : Prop :=
  exists A', (forall a, written s a -> accts A' a = commit_leaves de (to_commit s) a (accts A a)) /\
    main_after (written s) A' (hash_range (matrixData s)) (matrixDataDirty s) M M'.

Lemma unused_not_suicided w M a acct : unused w M a (Some acct) -> a_suicided acct = false.
Proof.
  unfold unused. destruct (value_at M a); [done|]. destruct (decodeAccount _) as [d|]; [|done].
  intros (b & [= <-] & Ho). by rewrite <- (oa_suicided _ _ _ Ho).
Qed.

(** What was not written is in the trie already. *)
Lemma not_written_unused s A M a :
  abs s A -> clean s A -> has (db s) (strie s) M -> Addr a -> ~ written s a -> unused (db s) M a (accts A a).
Proof.
  intros Ha Hc HM Hu Hn. destruct (stateObjects s !! a) as [o|] eqn:Eo.
  - assert (a ∉ to_commit s) as Hd by (intros Hd; apply Hn; exists o; auto). unfold to_commit in Hd.
    rewrite not_elem_of_union, not_elem_of_dom in Hd. destruct Hd as [Hd Hm]. by apply (Hc M a HM Hu Hd).
  - destruct (abs_trie _ _ Ha) as (M1 & HM1 & Hv & _). rewrite (has_one _ _ _ _ HM HM1). specialize (Hv a Hu). unfold view in Hv.
    by rewrite Eo in Hv.
Qed.

Lemma written_or s a : written s a \/ ~ written s a.
Proof.
  unfold written. destruct (stateObjects s !! a) as [o|]; [|right; by intros (o & ? & _)].
  destruct (decide (suicided o = true \/ a ∈ to_commit s)) as [?|Hn]; [left; by exists o|right]. by intros (o' & [= <-] & ?).
Qed.

(** Data of the chain is in the trie when none is dirty. *)
Lemma data_stored s A M h :
  abs s A -> has (db s) (strie s) M -> (forall h v, matrixData s !! h = Some v -> ~ (h ∈ matrixDataDirty s)) -> Mat h ->
  stored_at M h = a_matrix A h.
Proof.
  intros [_ (M1 & HM1 & _ & Hm) _ _ _ _ _ _] HM Hd Hh. rewrite (has_one _ _ _ _ HM HM1). specialize (Hm h Hh). unfold mview in Hm.
  destruct (matrixData s !! h) as [v|] eqn:Eh; [|by destruct Hm]. rewrite decide_False in Hm by by eapply Hd. by destruct Hm as [-> ?].
Qed.

(** Accounts that are in the trie stay there when others are written, and data. *)
Lemma unused_frame w w' (P : list Z -> Prop) A' l d M M' a oa :
  later any w w' -> main_after P A' l d M M' -> (forall b, P b -> Addr b) -> (forall h v, (h, v) ∈ l -> Mat h) -> Addr a -> ~ P a ->
  unused w M a oa -> unused w' M' a oa.
Proof.
  intros Hl (_ & _ & Hr) HP Hm Hu Hn Hx. eapply unused_value; [|by eapply unused_later]. unfold value_at. rewrite Hr; [done|..].
  - intros b Hb Ep. apply Hn. by rewrite <- (main_place b a) by (done || left; auto).
  - intros h v Hin _ Ep. apply (Addr_not_Mat a); [done|]. rewrite <- (main_place h a); [by eapply Hm|right; by eapply Hm|by left|done].
Qed.

Lemma Commit_ok de s A M :
  abs s A -> tidy de s -> clean s A -> all_affordable A -> btreeMap s = [] -> has (db s) (strie s) M ->
  (forall M', final_entries de s A M M' -> allowed M') ->
  exists root s' A' M', Commit de s = Ok (inr root, s') /\ committed de s A root (db s') A' M M'.
Proof.
  intros Ha Ht Hc Haf Hb HM Hall. unfold Commit. rewrite (bind_ok _ _ _ _ _ eq_refl), (bind_ok _ _ _ _ _ eq_refl), (bind_ok _ _ _ _ _ eq_refl).
  fold (to_commit s). set (s0 := set_dirty (to_commit s) s). cbn [set_dirty stateObjects s0].
  destruct (commit_loop de (hash_range (stateObjects s)) s0 A M) as (s1 & A1 & M1 & E1 & Hp & _ & Hun);
    [apply hash_range_NoDup|by intros a o; rewrite hash_range_In|by apply abs_set_dirty|by apply tidy_set_dirty|done|done|].
  rewrite (bind_ok _ _ _ _ _ E1), (bind_ok _ _ _ _ _ eq_refl).
  assert (forall a, written_of (stateObjectsDirty s0) (hash_range (stateObjects s)) a <-> written s a) as Hw.
  { intros a. unfold written_of, written. by setoid_rewrite hash_range_In. }
  apply (progress_ext _ _ _ _ _ _ _ _ _ _ Hw) in Hp. pose proof Hp as [(w1 & os1 & d1 & Es1) EA1 Ha1 Ht1 Hl1 HM1 _ Hdone Hkeep _].
  assert (strie s1 = strie s) as Et1 by by rewrite Es1.
  destruct (matrix_loop de A1 (hash_range (matrixData s1)) s1 M1) as (s2 & w2 & d2 & M2 & E2 & Es2 & Ha2 & Ht2 & Hl2 & HM2 & Hd2 & Hw2);
    [apply hash_range_NoDup|by intros h v; rewrite hash_range_In|done|done|by rewrite Et1|].
  rewrite (bind_ok _ _ _ _ _ E2). rewrite (bind_ok _ _ s2 () s2); [|apply CommitSaveTx_none; by rewrite Es2, Es1].
  assert (strie s2 = strie s) as Et2 by by rewrite Es2. rewrite (bind_ok _ _ _ _ _ eq_refl), Et2.
  assert (forall h v, (h, v) ∈ hash_range (matrixData s1) -> Mat h) as Hmats by (intros h v; rewrite hash_range_In; apply (ti_matrix _ _ Ht1)).
  assert (matrixData s1 = matrixData s) as Emx by by rewrite Es1. assert (matrixDataDirty s1 = matrixDataDirty s) as Emy by by rewrite Es1.
  assert (main_after (written s) A1 (hash_range (matrixData s)) (matrixDataDirty s) M M2) as Hma.
  { rewrite <- Emx, <- Emy. by eapply (progress_data _ _ _ _ _ _ A1). }
  assert (forall a, written s a -> accts A1 a = commit_leaves de (to_commit s) a (accts A a)) as Hlv by (intros a Hm; by apply Hdone).
  assert (has (db s2) (strie s) M2) as HM2' by (rewrite Es2; by rewrite Et1 in HM2).
  destruct (commit_law (db s2) (strie s) M2 account_links (abs_healthy _ _ Ha2) HM2') as (root & w3 & E3 & Hr & Hl3 & Hk & Hrd); [apply Hall; by exists A1|].
  rewrite (bind_ok _ _ _ _ _ (call_ok _ s2 _ w3 E3)), (bind_ok _ _ _ _ _ eq_refl). eexists root, _, A1, M2. split; [done|].
  cbn [clearJournalAndRefund set_refund set_revisions set_journal set_db db]. split; try done.
  - apply (later_healthy _ _ _ Hl3), Ha2.
  - apply Hrd, (ti_main _ _ Ht).
  - intros a Hu. eapply unused_later; [exact Hl3|]. destruct (written_or s a) as [Hm|Hm].
    + apply (unused_frame (db s1) (db s2) (fun _ => False) A1 (hash_range (matrixData s1)) (matrixDataDirty s1) M1 M2);
        [by rewrite Es2| |done|exact Hmats|done|auto|by apply Hun, Hw].
      destruct Hw2 as [Hd' Hr']. split; [done|]. split; [done|]. intros p _. apply Hr'.
    + destruct (Hkeep a Hm) as [-> _]. eapply unused_frame; [|exact Hma|by intros b Hb'; apply Hdone|by intros h v; rewrite <- Emx; apply Hmats|done|done|].
      * etransitivity; [exact Hl1|]. by rewrite Es2.
      * by apply (not_written_unused s A M).
  - intros h Hh. rewrite (data_stored s2 A1 M2 h Ha2); [by rewrite EA1|by rewrite Et2| |done]. intros h' v'. rewrite Es2. cbn [set_matrix set_db matrixData matrixDataDirty].
    rewrite Hd2, hash_range_keys. intros Eh [_ []]. by exists v'.
  - intros a Hm. by destruct (Hkeep a Hm).
Qed.
End Durable.
