(* ===== verification/StateBlock.v ===== *)
(** * Blocks

    A block is a list of transactions: each runs, and is ended with [Finalise].  Then
    the state is committed, and the next block opens the root. *)

From S2P Require Import Rlp RlpCodec Sponge TrieDatabase Trie TrieSpec BTree BTreeMap StateObject StateStore StateDB StateSpec.
From S2P Require Import StateStorage StateJournal StateOps StateRefine StateFlush StateMain StateCommit Prelude.

#[local] Set Warnings "-register-all".
#[local] Open Scope state_scope.

Section Block.
Context `{StateLaws, !Keys, HashRange, NodeJson}.

#[local] Abbreviation obj := (stateObject handle).

(** ** A transaction keeps clean what it does not change *)

(** The accounts that an entry of the journal is about are dirty. *)
Definition covered (s : StateDB) : Prop :=
  forall e a, Addr a -> e ∈ entries (sjournal s) -> touches e a -> is_Some (dirties (sjournal s) !! a).

(** An account that was replaced was written to, too: the entry for the replacement
    itself does not make it dirty. *)
Definition resets_written (s : StateDB) : Prop :=
  forall o, resetObjectChange o ∈ entries (sjournal s) -> is_Some (dirties (sjournal s) !! address o).

Lemma dirt_some d e a : is_Some (d !! a) -> is_Some (dirt d e !! a).
Proof.
  intros Hd. unfold dirt. destruct (dirtied e) as [b|]; [|done]. rewrite dirty_more_lookup. case_decide; [by eexists|done].
Qed.

Lemma foldl_dirt_some d es a : is_Some (d !! a) -> is_Some (foldl dirt d es !! a).
Proof. revert d. induction es as [|e es IH]; intros d Hd; [done|]. by apply IH, dirt_some. Qed.

Lemma foldl_dirt_In d es e a : e ∈ es -> dirtied e = Some a -> is_Some (foldl dirt d es !! a).
Proof.
  intros He Ha. revert d. induction es as [|e' es IH]; intros d; [by apply not_elem_of_nil in He|]. cbn [foldl].
  apply elem_of_cons in He as [<-|He]; [|by apply IH]. apply foldl_dirt_some. unfold dirt. rewrite Ha, dirty_more_lookup, decide_True by done.
  by eexists.
Qed.

(** No account is dirty, and the journal has only data of the chain. *)
Definition begun (s : StateDB) : Prop :=
  dirties (sjournal s) = ∅ /\ forall e, e ∈ entries (sjournal s) -> exists h, e = addMatrixDataChange h.

Lemma runs_covered s A s' A' es :
  runs s A s' A' es -> begun s -> ~ Addr ripemd -> resets_written s' -> covered s'.
Proof.
  intros [] [Ed Hen] Hrip Hrs e a Hu He [Hd|Ht].
  - rewrite r_dirty by (intros ->; done). rewrite r_entries in He. apply elem_of_app in He as [[h ->]%Hen|He]; [done|].
    by eapply foldl_dirt_In.
  - destruct e; try done. subst. by apply Hrs.
Qed.

Lemma entry_not_absent oa M a : account_entry oa (M !! place a) -> absent M a -> oa = None.
Proof.
  destruct oa as [acct|]; [|done]. intros (r & _ & He & EM). unfold absent, value_at. rewrite EM. cbn [default from_option id].
  destruct (account_roundtrip _ He) as (_ & Ed & _ & Hne). destruct (enc _); [done|]. by rewrite Ed.
Qed.

Lemma runs_clean s A s' A' es :
  runs s A s' A' es -> abs s A -> begun s -> covered s' -> clean s A -> clean s' A'.
Proof.
  intros [] Ha [Ed _] Hcov Hc M a HM Hu Hd. destruct (abs_trie _ _ Ha) as (M0 & HM0 & _).
  assert (M = M0) as ->.
  { rewrite r_trie in HM. eapply has_one; [done|]. by eapply later_keeps_has. }
  assert (accts A' a = accts A a) as ->.
  { destruct (r_touch a) as [(e & He & Ht)|?]; [|done]. destruct (Hcov e a Hu) as [n Hn]; [|done|congruence].
    rewrite r_entries. apply elem_of_app. by right. }
  destruct (Hc M0 a HM0 Hu) as [Hc1 Hc2]; [by rewrite Ed|]. destruct r_orderly as [_ (Hsub & _ & Hmk)]. split.
  - intros Hn. eapply unused_later; [exact r_later|]. destruct (decide (a ∈ stateObjectsDirty s)) as [Hin|Hin]; [|auto].
    destruct (Hmk M0 a HM0 Hin) as [?|Hab]; [done|]. rewrite (entry_not_absent _ _ _ (Hc2 Hin) Hab). by apply unused_None.
  - intros Hin. apply Hc2. auto.
Qed.

Lemma finalised_clean de s A s' A' :
  finalised de s A s' A' -> abs s A -> tidy de s -> marked s -> clean s A -> clean s' A'.
Proof.
  intros [] Ha Ht Hmk Hc M' a HM' Hu _. destruct (abs_trie _ _ Ha) as (M & HM & Hv & _).
  destruct (fn_main M HM) as (M1 & HM1 & He & Hd & Hr). rewrite fn_trie in HM'. rewrite (has_one _ _ _ _ HM' HM1).
  destruct (decide (is_Some (dirties (sjournal s) !! a) /\ is_Some (stateObjects s !! a))) as [Hin|Hn].
  - split; [|intros _; by apply He]. intros Hx. destruct Hx. apply fn_marks. by right.
  - rewrite (fn_keeps a Hn). assert (M1 !! place a = M !! place a) as EM.
    { apply Hr.
      - intros b [Hb1 [o Hb2]] Ep. destruct (ti_home _ _ Ht b o Hb2) as [_ Hub]. apply Hn.
        rewrite <- (main_place b a); [by split; [done|exists o]|by left|by left|done].
      - intros h v Hin _ Ep. apply hash_range_In in Hin. pose proof (ti_matrix _ _ Ht h v Hin) as Hm. apply (Addr_not_Mat a); [done|].
        rewrite <- (main_place h a); [done|by right|by left|done]. }
    assert (unused (db s) M a (accts A a) -> unused (db s') M1 a (accts A a)) as Hmove.
    { intros Hx. eapply unused_value; [|by eapply unused_later]. unfold value_at. by rewrite EM. }
    destruct (dirties (sjournal s) !! a) as [n|] eqn:Ed.
    + assert (stateObjects s !! a = None) as Eo.
      { destruct (stateObjects s !! a) eqn:Eo; [|done]. destruct Hn. by split; eexists. }
      split; [|intros Hin; apply fn_marks in Hin as [Hin|[_ [? ?]]]; [destruct (Hmk a Hin); congruence|congruence]].
      intros _. apply Hmove. specialize (Hv a Hu). unfold view in Hv. by rewrite Eo in Hv.
    + destruct (Hc M a HM Hu Ed) as [Hc1 Hc2]. split.
      * intros Hx. apply Hmove, Hc1. intros Hin. apply Hx, fn_marks. by left.
      * intros Hin. rewrite EM. apply Hc2. apply fn_marks in Hin as [?|[[? ?] _]]; [done|congruence].
Qed.

(** ** Accounts that last

    The nonce of an account is never zero, so no account is empty. *)

Definition lasting (A : astate) : Prop := forall a acct, Addr a -> accts A a = Some acct -> a_suicided acct = false /\ a_nonce acct <> 0.

Lemma lasting_leaves A c a : lasting A -> Addr a -> leaves c (accts A a) = accts A a.
Proof.
  intros Hl Hu. destruct (accts A a) as [acct|] eqn:E; [|done]. destruct (Hl a acct Hu E) as [Hs Hn]. cbn. rewrite Hs. unfold a_empty.
  rewrite (proj2 (Z.eqb_neq _ _) Hn). by destruct c.
Qed.

Lemma lasting_set a acct A : lasting A -> a_suicided acct = false -> a_nonce acct <> 0 -> lasting (set_acct a acct A).
Proof. intros Hl Hs Hn b c Hb. cbn. unfold upd. case_decide; [by intros [= <-]|by apply Hl]. Qed.

Lemma or_new_lasting a A : lasting A -> Addr a -> a_suicided (acct_or_new a A) = false /\ a_nonce (acct_or_new a A) <> 0.
Proof. intros Hl Hu. unfold acct_or_new. destruct (accts A a) eqn:E; [by eapply Hl|done]. Qed.

Lemma spec_op_lasting o A : lasting A -> op_ok o -> lasting (spec_op o A).2.
Proof.
  intros Hl Ho. destruct o; cbn in Ho |- *; try done; try destruct Ho as (Ho & _);
    try (destruct (or_new_lasting addr A Hl Ho) as [Hs Hn]); apply lasting_set; try done.
  1-4: unfold a_move; destruct (_ =? 0); [done|]; by destruct (balanceOf _ _).
  cbn. intros [_ E]%Z.lor_eq_0_iff. done.
Qed.

Lemma spec_lasting p A : lasting A -> prog_ok p -> lasting (spec p A).2.
Proof.
  revert A. induction p as [ok|o k IH|body IHb k IHk]; intros A Hn Hp; [done|..]; cbn [spec].
  - destruct Hp as [Ho Hk]. pose proof (spec_op_lasting o A Hn Ho) as Hn1. destruct (spec_op o A) as [r A1]. by apply IH.
  - destruct Hp as [Hb Hk]. pose proof (IHb A Hn Hb) as Hn1. destruct (spec body A) as [[] A1]; by apply IHk.
Qed.

Lemma spec_op_frame o A : a_matrix (spec_op o A).2 = a_matrix A /\ a_btrees (spec_op o A).2 = a_btrees A.
Proof. by destruct o. Qed.

Lemma spec_frame p A : a_matrix (spec p A).2 = a_matrix A /\ a_btrees (spec p A).2 = a_btrees A.
Proof.
  revert A. induction p as [ok|o k IH|body IHb k IHk]; intros A; [done|..]; cbn [spec].
  - pose proof (spec_op_frame o A) as [<- <-]. destruct (spec_op o A) as [r A1]. apply IH.
  - pose proof (IHb A) as [E1 E2]. destruct (spec body A) as [[] A1]; [rewrite <- E1, <- E2|]; apply IHk.
Qed.

(** ** Between transactions *)

(** No trees of special transactions: none were saved, and none are in the trie. *)
Record tree_free (A : astate) : Prop := {
  tf_saved : (a_btrees A).2 = [];
  tf_root : forall k, k <> NoBtree -> Mat (RlpHash (kind_name k)) /\ a_matrix A (RlpHash (kind_name k)) = Some []
}.

Record at_rest (de : bool) (s : StateDB) (A : astate) : Prop := {
  ar_stands : stands s A;
  ar_tidy : tidy de s;
  ar_marked : marked s;
  ar_clean : clean s A;
  ar_lasting : lasting A;
  ar_affordable : all_affordable A;
  ar_begun : begun s;
  ar_trees : tree_free A
}.

Lemma no_saved s A : abs s A -> tree_free A -> btreeMap s = [].
Proof. intros Ha Hf. pose proof (tf_saved _ Hf) as E. by rewrite <- (abs_btrees _ _ Ha) in E. Qed.

Lemma finalised_accts de s A s' A' a : finalised de s A s' A' -> tidy de s -> lasting A -> accts A' a = accts A a.
Proof.
  intros Hf Ht Hl. destruct (decide (is_Some (dirties (sjournal s) !! a) /\ is_Some (stateObjects s !! a))) as [Hin|Hn].
  - rewrite (fn_leaves _ _ _ _ _ Hf a Hin). destruct Hin as [_ [o Ho]]. apply lasting_leaves; [done|]. by eapply ti_home.
  - by apply (fn_keeps _ _ _ _ _ Hf).
Qed.

Lemma clean_aeq s A A' : (forall a, accts A a = accts A' a) -> clean s A -> clean s A'.
Proof. intros E Hc M a. rewrite <- E. apply Hc. Qed.

(** The end of a transaction. *)
Lemma rest_finalised de s A :
  abs s A -> nice A -> tidy de s -> marked s -> clean s A -> lasting A -> all_affordable A -> tree_free A ->
  exists s' A', Finalise de s = Ok ((), s') /\ finalised de s A s' A' /\ (forall a, accts A' a = accts A a) /\ at_rest de s' (end_tx A).
Proof.
  intros Ha Hn Ht Hm Hc Hl Haf Htf. destruct (Finalise_ok de s A Ha Ht Haf (no_saved s A Ha Htf)) as (s' & A' & E & Hf).
  assert (forall a, accts A' a = accts A a) as Eac by (intros a; by eapply finalised_accts). exists s', A'. split; [done|]. split; [done|].
  split; [done|]. pose proof (finalised_clean de s A s' A' Hf Ha Ht Hm Hc) as Hc'. destruct Hf. split; try done.
  - split; [|by destruct Hn|unfold revs_ok; rewrite fn_revs; constructor|by rewrite fn_journal].
    eapply abs_aeq; [|exact fn_abs]. rewrite fn_rest. split; [exact Eac|done].
  - auto.
  - eapply clean_aeq; [|exact Hc']. exact Eac.
  - unfold begun. rewrite fn_journal. split; [done|]. intros e He. by apply not_elem_of_nil in He.
  - by destruct Htf.
Qed.

(** A transaction.  An account that it replaced must have been written to. *)
Lemma tx_ok de p s A :
  at_rest de s A -> prog_ok p -> ~ Addr ripemd -> all_affordable (spec p A).2 ->
  exists s1, run p s = Ok ((spec p A).1, s1) /\
    (resets_written s1 -> exists s2, Finalise de s1 = Ok ((), s2) /\ at_rest de s2 (end_tx (spec p A).2)).
Proof.
  intros [] Hok Hrip Haf. destruct (stands_runs p s A ar_stands0 Hok) as (es & s1 & E1 & Hr & Hb1). exists s1. split; [done|].
  intros Hrs. pose proof (runs_covered _ _ _ _ _ Hr ar_begun0 Hrip Hrs) as Hcov. pose proof (r_orderly _ _ _ _ _ Hr) as [Hti (_ & Hmk & _)].
  destruct (spec_frame p A) as [Em Eb].
  destruct (rest_finalised de s1 (spec p A).2) as (s2 & A2 & E2 & _ & _ & Hrest); try apply Hb1; auto.
  - eapply runs_clean; [done|apply ar_stands0|done..].
  - by apply spec_lasting.
  - destruct ar_trees0. split; [by rewrite Eb|by rewrite Em].
  - by exists s2.
Qed.

(** Data of the chain. *)
Definition set_data (h v : list Z) (A : astate) : astate :=
  mkAS (accts A) (a_refund A) (a_logs A) (a_logSize A) (a_preimages A) (upd h (Some v) (a_matrix A)) (a_btrees A).

Definition data_ok (h v : list Z) : Prop := Mat h /\ Forall is_u8 v /\ forall k, h <> RlpHash (kind_name k).

Lemma data_rest de h v s A :
  at_rest de s A -> data_ok h v -> exists s', SetMatrixData h v s = Ok ((), s') /\ at_rest de s' (set_data h v A).
Proof.
  intros [] (Hh & Hv & Hk). eexists. split; [done|]. destruct ar_stands0 as [Ha Hn Hr Hc]. split; try done.
  - split; [|destruct Hn; split; try done| |done].
    + destruct Ha as [? (M & HM & Hvw & Hm) ? ? ? ? ? ?]. split; try done. exists M. split; [done|]. split; [done|]. intros h' Hh'.
      specialize (Hm h' Hh'). unfold mview in *. cbn. unfold upd. destruct (decide (h' = h)) as [->|Hne].
      * rewrite lookup_insert_eq, decide_True by set_solver. done.
      * rewrite lookup_insert_ne by done. destruct (matrixData s !! h'); [|set_solver]. destruct Hm as [-> Hm]. split; [done|].
        by destruct (decide (h' ∈ matrixDataDirty s)); [rewrite decide_True by set_solver|rewrite decide_False by set_solver].
    + cbn. unfold upd. intros h' Hh'. case_decide; [by eexists|by apply n_matrix].
    + unfold revs_ok in *. cbn. eapply Forall_impl; [done|]. cbn. intros r ?. rewrite length_app. lia.
  - eapply (tidy_inherits de s); [done|done| |done]. split; cbn; [auto| | |auto].
    + intros o. rewrite elem_of_app, list_elem_of_singleton. intros [?|?]; [auto|done].
    + intros h' v'. rewrite lookup_insert_Some. intros [[<- _]|[_ ?]]; auto.
  - destruct ar_begun0 as [Ed He]. split; [done|]. cbn. intros e. rewrite elem_of_app, list_elem_of_singleton. intros [?| ->]; [auto|by exists h].
  - destruct ar_trees0. split; [done|]. intros k Hk'. cbn. rewrite upd_ne by (by intros E; apply (Hk k)). auto.
Qed.

(** A store that is later. *)
Lemma rest_later de s A w : later none (db s) w -> at_rest de s A -> at_rest de (set_db w s) A.
Proof.
  intros Hl []. destruct ar_stands0 as [Ha Hn Hr Hc]. split; try done.
  - split; try done. by apply abs_set_db.
  - eapply (tidy_inherits de s); [done|done| |done]. by apply inherits_same.
  - intros M a HM Hu Hd. destruct (abs_trie _ _ Ha) as (M0 & HM0 & _). cbn [set_db db strie] in *.
    rewrite (has_one _ _ _ _ HM (later_keeps_has _ _ _ _ Hl HM0)) in *. destruct (ar_clean0 M0 a HM0 Hu Hd) as [H1' H2'].
    split; [|done]. intros Hx. eapply unused_later; [exact Hl|auto].
Qed.

(** ** The root *)

Definition data_clean (s : StateDB) : Prop := forall h v, matrixData s !! h = Some v -> ~ (h ∈ matrixDataDirty s).

(** What [Commit] writes is in the trie already. *)
Lemma settled_account (de : bool) (s : StateDB) (A A' : astate) (M M' : bmap) (a : list Z) :
  at_rest de s A -> has (db s) (strie s) M -> written s a -> accts A' a = commit_leaves de (to_commit s) a (accts A a) ->
  account_entry (accts A' a) (M' !! place a) -> M' !! place a = M !! place a.
Proof.
  intros [] HM (o & Eo & Hw) EA He. destruct (ti_home _ _ ar_tidy0 a o Eo) as [_ Hu].
  unfold commit_leaves in EA. rewrite lasting_leaves in EA by done. rewrite EA in He.
  destruct (decide (a ∈ stateObjectsDirty s)) as [Hin|Hin].
  - eapply account_entry_one; [exact He|]. destruct ar_begun0 as [Ed _]. apply (ar_clean0 M a HM Hu); [by rewrite Ed|done].
  - destruct Hw as [Hs|Hin']; [|unfold to_commit in Hin'; destruct ar_begun0 as [Ed _]; rewrite Ed in Hin'; set_solver].
    destruct (abs_trie _ _ (bt_abs _ _ ar_stands0)) as (M1 & HM1 & Hv & _). rewrite <- (has_one _ _ _ _ HM HM1) in Hv. specialize (Hv a Hu).
    unfold view in Hv. rewrite Eo in Hv. destruct Hv as [_ Hv]. destruct (deleted o).
    + destruct Hv as [Ea Ev]. rewrite Ea in He. cbn in He. rewrite He. unfold value_at in Ev. destruct (M !! place a) as [v|] eqn:EM; [|done].
      cbn in Ev. subst v. by destruct (has_filled _ _ _ HM _ _ EM).
    + destruct Hv as (acct & Ea & Ho). destruct (ar_lasting0 a acct Hu Ea) as [Hns _]. rewrite <- (oa_suicided _ _ _ Ho) in Hns. congruence.
Qed.

Lemma settled_entries (de : bool) (s : StateDB) (A : astate) (M M' : bmap) :
  at_rest de s A -> data_clean s -> has (db s) (strie s) M -> final_entries de s A M M' -> M' = M.
Proof.
  intros Hr Hd HM (A' & EA & (He & _ & Hp)). apply map_eq. intros p. destruct (decide (M' !! p = M !! p)) as [|Hne]; [done|].
  apply Hp.
  - intros a Ha <-. apply Hne. eapply settled_account; [exact Hr|done|done|by apply EA|by apply He].
  - intros h v Hin Hdy. apply hash_range_In in Hin. by destruct (Hd h v).
Qed.

(** What the trie of the state holds when the data is written, too. *)
Definition data_allowed (s : StateDB) : Prop :=
  forall M M', has (db s) (strie s) M -> data_written (hash_range (matrixData s)) (matrixDataDirty s) M M' -> allowed M'.

Lemma root_ok de s A :
  at_rest de s A -> data_allowed s ->
  exists r s1 s2 M, IntermediateRoot de s = Ok (r, s1) /\ Commit de s1 = Ok (inr r, s2) /\ healthy (db s2) /\ ready (db s2) r M /\
    (forall a, Addr a -> unused (db s2) M a (accts A a)) /\ (forall h, Mat h -> stored_at M h = a_matrix A h).
Proof.
  intros Hr Hall. pose proof Hr as [[Ha Hn _ _] Ht Hm Hc Hl Haf Hb Htf].
  destruct (rest_finalised de s A) as (s1 & A1 & E1 & Hf & _ & Hr1); [done..|]. destruct (abs_trie _ _ Ha) as (M0 & HM0 & _).
  destruct (fn_main _ _ _ _ _ Hf M0 HM0) as (M & HM & Hma). rewrite <- (fn_trie _ _ _ _ _ Hf) in HM.
  assert (allowed M) as HaM.
  { eapply (Hall M0); [done|]. destruct Hma as (_ & Hd & Hp). split; [done|]. intros p. apply Hp. intros a [[n Hx] _]. destruct Hb as [Ed _].
    by rewrite Ed in Hx. }
  destruct (hash_law (db s1) (strie s1) M) as (r & w & E2 & Hrt & Hlw); [apply Hr1|done|done|].
  assert (IntermediateRoot de s = Ok (r, set_db w s1)) as EI.
  { unfold IntermediateRoot. rewrite (bind_ok _ _ _ _ _ E1), (bind_ok _ _ _ _ _ eq_refl). by apply call_ok. }
  pose proof (rest_later de s1 _ w Hlw Hr1) as Hr2. assert (data_clean (set_db w s1)) as Hd2 by exact (fn_matrix _ _ _ _ _ Hf).
  assert (has (db (set_db w s1)) (strie (set_db w s1)) M) as HM2 by by eapply later_keeps_has.
  pose proof (fun M' => settled_entries de (set_db w s1) _ M M' Hr2 Hd2 HM2) as Hset.
  destruct (Commit_ok de (set_db w s1) (end_tx A) M) as (r' & s2 & A2 & M' & E3 & Hcm); try apply Hr2; [|done|by intros M' ->%Hset|].
  { eapply no_saved; apply Hr2. }
  assert (final_entries de (set_db w s1) (end_tx A) M M') as ->%Hset by (exists A2; split; apply Hcm).
  destruct Hcm. rewrite <- (root_one _ _ _ Hrt cm_root) in *. exists r, (set_db w s1), s2, M. split; [done|]. split; [done|].
  split; [done|]. split; [done|]. split; [|done]. intros a Hu. replace (accts A a) with (accts A2 a); [by apply cm_accounts|].
  destruct (written_or (set_db w s1) a) as [Hw|Hw]; [rewrite (cm_leaves a Hw); by apply (lasting_leaves A)|by rewrite (cm_keeps a Hw)].
Qed.

(** ** Opening a root *)

Definition new_tree : BTree := mkBTree 2 0 None.

(** A state with nothing in memory, and what it stands for. *)
Definition untouched (w : store) (t : handle) (rt tt : option BTree) : StateDB :=
  mkState w t ∅ ∅ rt tt [] ∅ ∅ None 0 ∅ 0 ∅ newJournal [] 0.

Definition plain (A : astate) (rt tt : option BTree) : astate := mkAS (accts A) 0 ∅ 0 ∅ (a_matrix A) (rt, tt, []).

Definition reopened (A : astate) : astate := plain A (Some new_tree) (Some new_tree).

Lemma untouched_rest de w t rt tt M A :
  healthy w -> has w t M -> main t ->
  (forall a, Addr a -> unused w M a (accts A a)) -> (forall h, Mat h -> stored_at M h = a_matrix A h) ->
  nice A -> lasting A -> all_affordable A -> tree_free A -> at_rest de (untouched w t rt tt) (plain A rt tt).
Proof.
  intros Hh HM Ht Hac Hd Hn Hl Haf Htf. split; try done; cbn.
  - split; cbn; [|by destruct Hn|constructor|done]. split; cbn; try done. exists M. split; [done|]. split.
    + intros a Hu. unfold view. rewrite lookup_empty. auto.
    + intros h Hm. unfold mview. cbn. rewrite lookup_empty. split; [set_solver|auto].
  - split; cbn; try done; try (intros o Ho; by apply not_elem_of_nil in Ho);
      intros o; intros; exfalso; match goal with Hk : known _ _ |- _ => destruct Hk as [[a Hk]|Hk]; [done|by apply not_elem_of_nil in Hk] end.
  - intros M0 a HM0 Hu _. cbn in *. rewrite (has_one _ _ _ _ HM0 HM). split; [|set_solver]. auto.
  - split; [done|]. cbn. intros e He. by apply not_elem_of_nil in He.
  - by destruct Htf.
Qed.

Lemma restoreTree_none fuel k s M :
  healthy (db s) -> has (db s) (strie s) M -> Mat (RlpHash (kind_name k)) -> stored_at M (RlpHash (kind_name k)) = Some [] -> k <> NoBtree ->
  exists w, restoreTree fuel k s = Ok ((), set_btrie k new_tree (set_db w s)) /\ later none (db s) w.
Proof.
  intros Hh HM Hk Hs Hne. destruct (get_law (db s) (strie s) M _ Hh HM (Mat_u8 _ Hk)) as (w & E & Hl). exists w. split; [|done].
  assert (tryGetMatrixData (RlpHash (kind_name k)) s = Ok (Some [], set_db w s)) as Et.
  { unfold tryGetMatrixData. rewrite (bind_ok _ _ _ _ _ eq_refl), (bind_ok _ _ s _ _ (call_ok _ s _ w E)). fold (value_at M (RlpHash (kind_name k))).
    unfold stored_at in Hs. destruct (value_at M _) as [|y l]; [done|]. cbn [length Nat.eqb].
    destruct (stripPrefix (y :: l)) as [x| |] eqn:Ex; [|done..]. by injection Hs as ->. }
  unfold restoreTree. rewrite (bind_ok _ _ _ _ _ Et). clear - Hne. destruct k; done.
Qed.

#[local] Opaque RlpHash.

Lemma opened_ok de fuel w r M A :
  healthy w -> ready w r M -> (forall a, Addr a -> unused w M a (accts A a)) -> (forall h, Mat h -> stored_at M h = a_matrix A h) ->
  nice A -> lasting A -> all_affordable A -> tree_free A ->
  exists s w', newStatedb fuel r w = Ok (inr s, w') /\ at_rest de s (reopened A).
Proof.
  intros Hh Hr Hac Hd Hn Hl Haf Htf. destruct (open_law w r M Hh Hr) as (t & w1 & E1 & Hl1 & HM1 & Ht & _).
  destruct (tf_root _ Htf RevcBTree) as [Hk1 Em1]; [discriminate|]. destruct (tf_root _ Htf TimeBtree) as [Hk2 Em2]; [discriminate|].
  destruct (restoreTree_none fuel RevcBTree (blankState w1 t) M) as (w2 & E2 & Hl2); [by apply Hl1|exact HM1|exact Hk1|rewrite (Hd _ Hk1); exact Em1|discriminate|].
  destruct (restoreTree_none fuel TimeBtree (set_btrie RevcBTree new_tree (set_db w2 (blankState w1 t))) M) as (w3 & E3 & Hl3);
    [by apply Hl2, Hl1|by eapply later_keeps_has|exact Hk2|rewrite (Hd _ Hk2); exact Em2|discriminate|]. clear Hk1 Em1 Hk2 Em2.
  assert (later none w w3) as Hlw by (etransitivity; [exact Hl1|]; by etransitivity). cbn in Hl2, Hl3.
  eexists _, w3. split; [unfold newStatedb; rewrite E1; cbn [res_bind]; rewrite (bind_ok _ _ _ _ _ E2), E3; reflexivity|]. clear E1 E2 E3.
  assert (has w3 t M) as HM3 by (eapply later_keeps_has; [exact Hl3|]; by eapply later_keeps_has).
  apply (untouched_rest de w3 t (Some new_tree) (Some new_tree) M); try done; [by apply Hlw|].
  intros a Hu. eapply unused_later; [exact Hlw|auto].
Qed.

(** ** Blocks *)

Inductive block_item :=
| ITx (p : prog)
| IData (h v : list Z).

Fixpoint run_block (de : bool) (l : list block_item) : M () :=
  match l with
  | [] => ret ()
  | ITx p :: l => run p ;; Finalise de ;; run_block de l
  | IData h v :: l => SetMatrixData h v ;; run_block de l
  end.

Fixpoint spec_block (l : list block_item) (A : astate) : astate :=
  match l with
  | [] => A
  | ITx p :: l => spec_block l (end_tx (spec p A).2)
  | IData h v :: l => spec_block l (set_data h v A)
  end.

(** What is asked of the items, one after the other: operations on the keys, accounts
    that can be stored, and accounts that were replaced written to. *)
Fixpoint block_ok (de : bool) (l : list block_item) (s : StateDB) (A : astate) : Prop :=
  match l with
  | [] => data_allowed s
  | ITx p :: l =>
      prog_ok p /\ all_affordable (spec p A).2 /\
      forall ok s1, run p s = Ok (ok, s1) -> resets_written s1 /\
        forall s2, Finalise de s1 = Ok ((), s2) -> block_ok de l s2 (end_tx (spec p A).2)
  | IData h v :: l =>
      data_ok h v /\ forall s1, SetMatrixData h v s = Ok ((), s1) -> block_ok de l s1 (set_data h v A)
  end.

Lemma run_block_ok de l : forall s A,
  ~ Addr ripemd -> at_rest de s A -> block_ok de l s A ->
  exists s', run_block de l s = Ok ((), s') /\ at_rest de s' (spec_block l A) /\ data_allowed s'.
Proof.
  induction l as [|[p|h v] l IH]; intros s A Hrip Hr Hok; cbn [run_block spec_block].
  - by exists s.
  - destruct Hok as (Hp & Haf & Hok). destruct (tx_ok de p s A Hr Hp Hrip Haf) as (s1 & E1 & Hfin).
    destruct (Hok _ s1 E1) as [Hrs Hok1]. destruct (Hfin Hrs) as (s2 & E2 & Hr2).
    destruct (IH s2 _ Hrip Hr2 (Hok1 s2 E2)) as (s3 & E3 & Hs3). exists s3. split; [|done].
    by rewrite (bind_ok _ _ _ _ _ E1), (bind_ok _ _ _ _ _ E2).
  - destruct Hok as (Hd & Hok). destruct (data_rest de h v s A Hr Hd) as (s1 & E1 & Hr1).
    destruct (IH s1 _ Hrip Hr1 (Hok s1 E1)) as (s2 & E2 & Hs2). exists s2. split; [|done]. by rewrite (bind_ok _ _ _ _ _ E1).
Qed.
End Block.

(** C2: a block is durable, if it has no suicides and no special transactions.  Its
    transactions, made of the operations of [op], and the chain data set between them
    run, none panics; the root that [IntermediateRoot] computes for the header is the
    root of the trie that [Commit] then writes; and whoever opens that root finds the
    accounts, their codes, their storage and the data that the plain maps have, ready
    for the next block.  So states opened from roots behave as the maps do, block after
    block.  The keys at hand do not collide, [ripemd] is not among the addresses, what
    accounts hold can be encoded, and an account that a transaction replaces by
    [CreateAccount] is also written by it, as the replacement alone is not. *)
Theorem block_is_durable `{StateLaws, !Keys, HashRange, NodeJson} de fuel l s A :
  ~ Addr ripemd -> at_rest de s A -> block_ok de l s A ->
  exists s1 root s2 s3 s4 w, run_block de l s = Ok ((), s1) /\ IntermediateRoot de s1 = Ok (root, s2) /\
    Commit de s2 = Ok (inr root, s3) /\ newStatedb fuel root (db s3) = Ok (inr s4, w) /\
    at_rest de s4 (reopened (spec_block l A)).
Proof.
  intros Hrip Hr Hok. destruct (run_block_ok de l s A Hrip Hr Hok) as (s1 & E1 & Hr1 & Hd).
  destruct (root_ok de s1 _ Hr1 Hd) as (root & s2 & s3 & M & E2 & E3 & Hh & Hrd & Hac & Hda).
  destruct (opened_ok de fuel (db s3) root M (spec_block l A) Hh Hrd Hac Hda) as (s4 & w & E4 & Hr4); try apply Hr1.
  by exists s1, root, s2, s3, s4, w.
Qed.
