(* ===== verification/StateCache.v ===== *)
(** * The database of the state ([core/state/database.go])

    [cachingDB] opens tries of the package [trie] and remembers the ones that were
    opened or committed.  Tries are objects: what is remembered is the trie itself,
    not a copy, so the store has the objects and handles to them. *)

From S2P Require Import Rlp Sponge TrieNode TrieDatabase Trie TrieHasher TrieTree TrieHashing TrieMap TrieCommit TrieSpec SecureTrie.
From S2P Require Import StateStore Prelude.

#[local] Set Warnings "-register-all".

(** ** The cache of [github.com/hashicorp/golang-lru] *)

(** A cache forgets entries, but it does not make them up, and what was added last is
    there. *)
Class LruCache := {
  lru : Type -> Type;
  lru_New : forall {V}, lru V;
  lru_Get : forall {V}, list Z -> lru V -> option V * lru V;
  lru_Add : forall {V}, list Z -> V -> lru V -> lru V;
  lru_entry : forall {V}, lru V -> list Z -> option V;
  lru_new_law : forall V k, lru_entry (@lru_New V) k = None;
  lru_get_law : forall V k (c : lru V), (lru_Get k c).1 = lru_entry c k;
  lru_get_keeps : forall V k (c : lru V) k', lru_entry (lru_Get k c).2 k' = lru_entry c k';
  lru_add_law : forall V k (v : V) c, lru_entry (lru_Add k v c) k = Some v;
  lru_add_keeps : forall V k (v : V) c k', k' <> k -> lru_entry (lru_Add k v c) k' = None \/ lru_entry (lru_Add k v c) k' = lru_entry c k'
}.

(** A cache with room for everything. *)
#[export] Program Instance map_lru : LruCache | 10 := {|
  lru V := gmap (list Z) V;
  lru_New V := ∅;
  lru_Get V k c := (c !! k, c);
  lru_Add V k v c := <[k := v]> c;
  lru_entry V c k := c !! k
|}.
Next Obligation. done. Qed.
Next Obligation. done. Qed.
Next Obligation. done. Qed.
Next Obligation. intros. apply lookup_insert_eq. Qed.
Next Obligation. intros. right. by rewrite lookup_insert_ne. Qed.

(** ** The code *)

Section Code.
Context `{DiskDB, HashRange, LruCache}.

Definition MaxTrieCacheGen : Z := 120.

(** [tries] are the objects; a [cachedTrie] wraps one of them. *)
Record cachingDB := mkCaching {
  tdb : Database;
  tries : list SecureTrie;
  pastTries : lru nat;
  codeSizeCache : lru Z
}.

Inductive trieHandle :=
| CachedTrie (i : nat)
| RawTrie (i : nat).

Definition index (t : trieHandle) : nat := match t with CachedTrie i | RawTrie i => i end.

(** A new object. *)
Definition alloc (t : SecureTrie) (w : cachingDB) : nat * cachingDB :=
  (length (tries w), mkCaching (tdb w) (tries w ++ [t]) (pastTries w) (codeSizeCache w)).

Definition set_trie_at (i : nat) (t : SecureTrie) (w : cachingDB) : cachingDB :=
  mkCaching (tdb w) (<[i := t]> (tries w)) (pastTries w) (codeSizeCache w).

Definition set_tdb (d : Database) (w : cachingDB) : cachingDB := mkCaching d (tries w) (pastTries w) (codeSizeCache w).

Definition set_past (p : lru nat) (w : cachingDB) : cachingDB := mkCaching (tdb w) (tries w) p (codeSizeCache w).

(** A handle that is not there does not happen. *)
Definition object (t : trieHandle) (w : cachingDB) : eff SecureTrie :=
  match tries w !! index t with
  | Some st => Ok st
  | None => Panic
  end.

Definition cache_OpenTrie (root : list Z) (w : cachingDB) : reply cachingDB trieHandle :=
  let (past, p) := lru_Get root (pastTries w) in
  let w := set_past p w in
  match past with
  | Some i =>
      let* st := object (RawTrie i) w in
      let (j, w) := alloc (Copy st) w in
      Ok (inr (CachedTrie j), w)
  | None =>
      match NewSecure (tdb w) root MaxTrieCacheGen with
      | Ok tr =>
          let (i, w) := alloc tr w in
          let w := set_past (lru_Add root i (pastTries w)) w in
          let (j, w) := alloc (Copy tr) w in
          Ok (inr (CachedTrie j), w)
      | Err e => Ok (inl e, w)
      | Panic => Panic
      end
  end.

Definition cache_OpenStorageTrie (addrHash root : list Z) (w : cachingDB) : reply cachingDB trieHandle :=
  match NewSecure (tdb w) root 0 with
  | Ok tr => let (i, w) := alloc tr w in Ok (inr (RawTrie i), w)
  | Err e => Ok (inl e, w)
  | Panic => Panic
  end.

Definition cache_CopyTrie (t : trieHandle) (w : cachingDB) : eff (trieHandle * cachingDB) :=
  let* st := object t w in
  let (j, w) := alloc (Copy st) w in
  Ok (match t with CachedTrie _ => CachedTrie j | RawTrie _ => RawTrie j end, w).

Definition cache_ContractCode (addrHash codeHash : list Z) (w : cachingDB) : option (list Z) * cachingDB :=
  match Node codeHash (tdb w) with
  | Some c => (Some c, mkCaching (tdb w) (tries w) (pastTries w) (lru_Add codeHash (Z.of_nat (length c)) (codeSizeCache w)))
  | None => (None, w)
  end.

Definition ContractCodeSize (addrHash codeHash : list Z) (w : cachingDB) : option Z * cachingDB :=
  let (cached, c) := lru_Get codeHash (codeSizeCache w) in
  let w := mkCaching (tdb w) (tries w) (pastTries w) c in
  match cached with
  | Some n => (Some n, w)
  | None => let (code, w) := cache_ContractCode addrHash codeHash w in ((fun c => Z.of_nat (length c)) <$> code, w)
  end.

(** Keys have 32 bytes; two rounds for a nibble. *)
Definition trie_fuel : nat := 132.

Definition cache_TryGet (t : trieHandle) (k : list Z) (w : cachingDB) : reply cachingDB (option (list Z)) :=
  let* st := object t w in
  match STryGet trie_fuel (tdb w) st k with
  | Ok (v, st) => Ok (inr v, set_trie_at (index t) st w)
  | Err e => Ok (inl e, w)
  | Panic => Panic
  end.

Definition cache_TryUpdate (t : trieHandle) (k v : list Z) (w : cachingDB) : reply cachingDB () :=
  let* st := object t w in
  match STryUpdate trie_fuel (tdb w) st k v with
  | Ok st => Ok (inr (), set_trie_at (index t) st w)
  | Err e => Ok (inl e, w)
  | Panic => Panic
  end.

Definition cache_TryDelete (t : trieHandle) (k : list Z) (w : cachingDB) : reply cachingDB () :=
  let* st := object t w in
  let* (err, st) := STryDelete trie_fuel (tdb w) st k in
  Ok (match err with Some e => inl e | None => inr () end, set_trie_at (index t) st w).

Definition cache_Hash (t : trieHandle) (w : cachingDB) : eff (list Z * cachingDB) :=
  let* st := object t w in
  let* (h, st) := SHash st in
  Ok (h, set_trie_at (index t) st w).

(** The callback of a commit: references from the node to what its value refers to. *)
Definition linksLeaf (links : list Z -> list (list Z)) : LeafCallback := fun leaf parent db =>
  foldl (fun r child => let* db := r in reference child parent db) (Ok db) (links leaf).

(** [Commit] of a [cachedTrie] pushes the trie to the past ones. *)
Definition cache_Commit (t : trieHandle) (links : list Z -> list (list Z)) (w : cachingDB) : reply cachingDB (list Z) :=
  let* st := object t w in
  let* (root, st, d) := SCommit st (tdb w) (Some (linksLeaf links)) in
  let w := set_trie_at (index t) st (set_tdb d w) in
  match t with
  | RawTrie _ => Ok (inr root, w)
  | CachedTrie i =>
      let* (h, st) := SHash st in
      let w := set_trie_at i st w in
      Ok (inr root, set_past (lru_Add h i (pastTries w)) w)
  end.

Definition cache_Insert (hash b : list Z) (w : cachingDB) : cachingDB := set_tdb (db_insert hash b (tdb w)) w.

#[export] Instance CachingDB : StateStore := {|
  store := cachingDB;
  handle := trieHandle;
  OpenTrie := cache_OpenTrie;
  OpenStorageTrie := cache_OpenStorageTrie;
  CopyTrie := cache_CopyTrie;
  ContractCode := cache_ContractCode;
  trie_TryGet := cache_TryGet;
  trie_TryUpdate := cache_TryUpdate;
  trie_TryDelete := cache_TryDelete;
  trie_Hash := cache_Hash;
  trie_Commit := cache_Commit;
  db_Insert := cache_Insert
|}.

(** [NewDatabase] *)
Definition newCachingDB (d : disk) : cachingDB := mkCaching (NewDatabase d) [] lru_New lru_New.
End Code.
