(* ===== verification/StateCacheLaws.v ===== *)
(** * The database of the state keeps its promises

    The laws of [StateStore] for the tries and the database of the package [trie]. *)

From S2P Require Import Rlp Sponge TrieKeys TrieNode TrieDatabase Trie TrieHasher TrieTree TrieHashing TrieMap TrieCommit TrieSpec SecureTrie.
From S2P Require Import StateStore StateCache Prelude.

#[local] Set Warnings "-register-all".

Section Laws.
Context `{DiskDB, HashRange, LruCache} (B : list Z -> Prop).

(** [B] are the blobs that are stored, none of which collide. *)
Definition c_has (w : cachingDB) (t : trieHandle) (m : bmap) : Prop :=
  exists st, tries w !! index t = Some st /\ represents (stored (tdb w)) (trie st) m.

(** The root of a map; the zero hash is the root of an empty trie, too. *)
Definition c_root (m : bmap) (r : list Z) : Prop := exists tr, contents tr m /\ r = root_hash tr.

Definition c_kept (w : cachingDB) (r : list Z) (m : bmap) : Prop :=
  (r = emptyHash /\ m = ∅) \/
  exists tr, contents tr m /\ r = root_hash tr /\ (tr = TNil \/ stored (tdb w) tr) /\ r <> emptyHash /\ (r = emptyRoot -> tr = TNil).

Definition c_ready (w : cachingDB) (r : list Z) (m : bmap) : Prop :=
  c_kept w r m /\ forall i, lru_entry (pastTries w) r = Some i -> c_has w (RawTrie i) m.

Definition c_allowed (m : bmap) : Prop :=
  sized m /\ (forall tr b, contents tr m -> blobs tr b -> B b) /\
  (forall tr, contents tr m -> root_hash tr <> emptyHash /\ (root_hash tr = emptyRoot -> tr = TNil)).

#[export] Instance CachingFacts : StateFacts := {|
  place := keccak256;
  alias t t' := index t = index t';
  root_is := c_root;
  healthy w := agrees B (tdb w);
  has := c_has;
  kept := c_kept;
  ready := c_ready;
  coded w h c := Node h (tdb w) = Some c;
  main t := match t with CachedTrie _ => True | RawTrie _ => False end;
  allowed := c_allowed;
  code_ok c := B c /\ (keccak256 c = keccak256 [] -> c = [])
|}.

(** ** Stores that are later *)

Lemma represents_keeps d d' t m : keeps d d' -> represents (stored d) t m -> represents (stored d') t m.
Proof. intros Hk (tr & Hr & Hc). exists tr. split; [|done]. eapply rep_mono; [|done]. intros s. by apply stored_keeps. Qed.

(** The database keeps what it has, and every trie that is not in [X] has the same
    entries. *)
Lemma later_intro (X : trieHandle -> Prop) (w w' : cachingDB) :
  (agrees B (tdb w) -> agrees B (tdb w')) -> keeps (tdb w) (tdb w') ->
  (forall t st m, tries w !! index t = Some st -> represents (stored (tdb w)) (trie st) m -> X t \/ c_has w' t m) ->
  later X w w'.
Proof.
  intros Ha Hk Ht. split; cbn; [done| |..].
  - intros t m (st & Est & Hr). by eapply Ht.
  - intros r m [?|(tr & Hc & Er & Hs & ?)]; [by left|]. right. exists tr. split; [done|]. split; [done|]. split; [|done].
    destruct Hs as [?|Hs]; [by left|right; by eapply stored_keeps].
  - intros h c. apply Hk.
Qed.

(** Objects are added. *)
Lemma later_alloc (w w' : cachingDB) more :
  tdb w' = tdb w -> tries w' = tries w ++ more -> later none w w'.
Proof.
  intros Ed Et. apply later_intro; rewrite ?Ed; [done..|]. intros t st m Est Hr. right. exists st.
  rewrite Et, Ed. split; [by apply lookup_app_l_Some|done].
Qed.

(** An object is replaced by one with the same entries. *)
Lemma later_same (w : cachingDB) t st st' :
  tries w !! index t = Some st -> (forall m, represents (stored (tdb w)) (trie st) m -> represents (stored (tdb w)) (trie st') m) ->
  later none w (set_trie_at (index t) st' w).
Proof.
  intros Est Hst. apply later_intro; [done..|]. intros t' st1 m E1 Hr. right. unfold c_has. cbn.
  destruct (decide (index t' = index t)) as [E|E].
  - rewrite E in *. rewrite E1 in Est. injection Est as ->. exists st'. rewrite list_lookup_insert_eq; [auto|]. by eapply lookup_lt_Some.
  - exists st1. by rewrite list_lookup_insert_ne.
Qed.

Lemma later_changed (w : cachingDB) t st st' :
  tries w !! index t = Some st -> later (alias t) w (set_trie_at (index t) st' w).
Proof.
  intros Est. apply later_intro; [done..|]. intros t' st1 m E1 Hr. unfold c_has. cbn.
  destruct (decide (index t = index t')) as [E|E]; [by left|right]. exists st1. by rewrite list_lookup_insert_ne.
Qed.
(** ** The laws *)

Context (B_free : collision_free B).

Lemma hash_key_fuel k : (key_fuel (keccak256 k) <= trie_fuel)%nat.
Proof. unfold key_fuel, trie_fuel. rewrite length_keccak256. lia. Qed.

(** A trie has the entries of one map only. *)
Lemma represents_one d t m m' : represents (stored d) t m -> represents (stored d) t m' -> m = m'.
Proof.
  intros Hm Hm'. apply map_eq. intros k. destruct (decide (Forall is_u8 k)) as [Hk|Hk].
  - destruct (TryGet_spec d (stored d) (key_fuel k) t m k Hm Hk) as [(t1 & E1 & _)|(e & _ & []%stored_not_missing)]; [lia|].
    destruct (TryGet_spec d (stored d) (key_fuel k) t m' k Hm' Hk) as [(t2 & E2 & _)|(e & _ & []%stored_not_missing)]; [lia|].
    congruence.
  - destruct Hm as (tr & _ & (_ & Hu & _)), Hm' as (tr' & _ & (_ & Hu' & _)).
    destruct (m !! k) eqn:E; [by destruct Hk; eapply Hu|]. destruct (m' !! k) eqn:E'; [by destruct Hk; eapply Hu'|done].
Qed.

Lemma cache_get w t m k :
  c_has w t m -> Forall is_u8 k -> exists w', cache_TryGet t k w = Ok (inr (m !! keccak256 k), w') /\ later none w w'.
Proof.
  intros (st & Est & Hr) Hk. unfold cache_TryGet, object. rewrite Est. cbn [res_bind]. unfold STryGet.
  rewrite hashKey_hash by done. cbn [lift_eff res_bind].
  destruct (TryGet_spec (tdb w) (stored (tdb w)) trie_fuel (trie st) m (keccak256 k) Hr) as [(t' & -> & Hr')|(e & _ & []%stored_not_missing)];
    [apply keccak256_u8|apply hash_key_fuel|]. cbn [res_bind]. eexists. split; [done|]. eapply later_same; [done|].
  intros m' Hm'. by rewrite (represents_one _ _ _ _ Hm' Hr).
Qed.

Lemma cache_update w t m k v :
  c_has w t m -> Forall is_u8 k -> Forall is_u8 v ->
  exists w', cache_TryUpdate t k v w = Ok (inr (), w') /\ later (alias t) w w' /\ c_has w' t (map_update (keccak256 k) v m).
Proof.
  intros (st & Est & Hr) Hk Hv. unfold cache_TryUpdate, object. rewrite Est. cbn [res_bind]. unfold STryUpdate.
  rewrite hashKey_hash by done. cbn [lift_eff res_bind].
  destruct (TryUpdate_spec (tdb w) (stored (tdb w)) trie_fuel (trie st) m (keccak256 k) v Hr)
    as [(t' & -> & Hr')|(e & _ & []%stored_not_missing)]; [apply keccak256_u8|done|apply hash_key_fuel|].
  cbn [res_bind]. eexists. split; [done|]. split; [by eapply later_changed|]. eexists. cbn.
  split; [apply list_lookup_insert_eq; by eapply lookup_lt_Some|]. unfold getSecKeyCache, set_cache, set_trie. by destruct (owned st).
Qed.

Lemma cache_delete w t m k :
  c_has w t m -> Forall is_u8 k ->
  exists w', cache_TryDelete t k w = Ok (inr (), w') /\ later (alias t) w w' /\ c_has w' t (delete (keccak256 k) m).
Proof.
  intros (st & Est & Hr) Hk. unfold cache_TryDelete, object. rewrite Est. cbn [res_bind]. unfold STryDelete.
  rewrite hashKey_hash by done. cbn [res_bind]. unfold TryDelete.
  assert (forall c, trie (set_cache c (getSecKeyCache st)) = trie st) as Etr by (intros c; unfold getSecKeyCache; by destruct (owned st)).
  rewrite Etr.
  destruct (delete_spec (tdb w) (stored (tdb w)) trie_fuel (trie st) m (keccak256 k) Hr)
    as [(t' & -> & Hr')|(e & _ & []%stored_not_missing)]; [apply keccak256_u8|apply hash_key_fuel|].
  cbn [res_bind]. eexists. split; [done|]. split; [by eapply later_changed|]. eexists. cbn.
  split; [apply list_lookup_insert_eq; by eapply lookup_lt_Some|]. done.
Qed.

Lemma SHash_spec d st m :
  represents (stored d) (trie st) m -> sized m ->
  exists tr st', contents tr m /\ SHash st = Ok (root_hash tr, st') /\ represents (stored d) (trie st') m.
Proof.
  intros (tr & Hr & Hc) Hs. pose proof Hc as [Hg _]. unfold SHash.
  destruct (Hash_rep (stored d) (trie st) tr) as (n & -> & Hn); [by intros u (? & ? & _)|done..|by eapply sized_in_memory|].
  exists tr. eexists. split; [done|]. split; [done|]. by exists tr.
Qed.

Lemma cache_hash w t m :
  c_has w t m -> c_allowed m -> exists r w', cache_Hash t w = Ok (r, w') /\ c_root m r /\ later none w w'.
Proof.
  intros (st & Est & Hr) (Hs & _). unfold cache_Hash, object. rewrite Est. cbn [res_bind].
  destruct (SHash_spec _ st m Hr Hs) as (tr & st' & Hc & -> & Hr'). cbn [res_bind]. eexists _, _. split; [done|].
  split; [by exists tr|]. eapply later_same; [done|]. intros m' Hm'. by rewrite (represents_one _ _ _ _ Hm' Hr).
Qed.
Lemma linksLeaf_refers links : leaf_refers (Some (linksLeaf links)).
Proof.
  intros f [= <-] v parent d Hp. unfold linksLeaf. revert d Hp. induction (links v) as [|c l IH]; intros d Hp; cbn [foldl]; [by eexists|].
  cbn [res_bind]. destruct (reference_refs c parent d Hp) as (d1 & E1 & H1'). cbn. rewrite E1.
  destruct (IH d1) as (d2 & E2 & H2'); [eapply same_reads_cached; [by destruct H1'|done]|]. exists d2. split; [done|]. by etransitivity.
Qed.

Lemma SCommit_spec d st m leaf :
  agrees B d -> represents (stored d) (trie st) m -> c_allowed m -> leaf_refers leaf ->
  exists tr st' d', contents tr m /\ SCommit st d leaf = Ok (root_hash tr, st', d') /\ keeps d d' /\ agrees B d' /\
    represents (stored d') (trie st') m /\ (tr = TNil \/ stored d' tr).
Proof.
  intros Ha Hr (Hs & HB & _) Hl. unfold SCommit.
  assert (exists st1 d1, (if Z.of_nat (size (secKeyCache (getSecKeyCache st))) >? 0
            then (set_cache ∅ (getSecKeyCache st), insertPreimages (hash_range (secKeyCache (getSecKeyCache st))) d)
            else (getSecKeyCache st, d)) = (st1, d1) /\ trie st1 = trie st /\ same_reads d d1) as (st1 & d1 & -> & Et & Hsr).
  { assert (trie (getSecKeyCache st) = trie st) as E by (unfold getSecKeyCache; by destruct (owned st)).
    destruct (_ >? 0); eexists _, _; (split; [done|]); (split; [done|]); [apply insertPreimages_same|done]. }
  destruct (represents_blobs d d1 _ m Hsr Hr) as (tr & Hrt & Hc). pose proof Hc as [Hg _].
  destruct (hashRoot_rep B (fun _ => True) (fun _ => False) (trie st1) tr (Some d1) leaf) as (n & o & E & Hst & Hn & Hsv);
    [done|by intros ? []|done|done|by rewrite Et|done|by eapply sized_in_memory|by split; [eapply agrees_same|]| |].
  { intros u Hu. apply (HB tr); [done|]. by exists u. }
  unfold TrieHasher.Commit. rewrite E. destruct o as [d'|]; [|done]. cbn [res_bind]. rewrite BytesToHash_root.
  destruct Hst as ([Hag' _] & Hk & _). eexists tr, _, d'. split; [done|]. split; [done|].
  split; [etransitivity; [by apply same_reads_keeps|done]|]. split; [done|]. split; [by exists tr|].
  destruct Hg as [?|Hg]; [by left|right]. apply Hsv. by intros ->.
Qed.
(** The tries after the database has changed. *)
Lemma later_tdb (w : cachingDB) d : (agrees B (tdb w) -> agrees B d) -> keeps (tdb w) d -> later none w (set_tdb d w).
Proof.
  intros Ha Hk. apply later_intro; [done..|]. intros t st m Est Hr. right. exists st. split; [done|by eapply represents_keeps].
Qed.

Lemma later_past (w : cachingDB) p : later none w (set_past p w).
Proof. apply later_intro; [done..|]. intros t st m Est Hr. right. by exists st. Qed.

Lemma cache_commit w t m links :
  agrees B (tdb w) -> c_has w t m -> c_allowed m ->
  exists r w', cache_Commit t links w = Ok (inr r, w') /\ c_root m r /\ later none w w' /\ c_kept w' r m /\
    (match t with CachedTrie _ => True | RawTrie _ => False end -> c_ready w' r m /\ lru_entry (pastTries w') r = Some (index t)).
Proof.
  intros Hag (st & Est & Hr) Hall. unfold cache_Commit, object. rewrite Est. cbn [res_bind].
  destruct (SCommit_spec (tdb w) st m (Some (linksLeaf links)) Hag Hr Hall (linksLeaf_refers links))
    as (tr & st1 & d1 & Hc & -> & Hk & Hag1 & Hr1 & Hst). cbn [res_bind].
  assert (index t < length (tries w))%nat as Hlt by by eapply lookup_lt_Some.
  set (w1 := set_trie_at (index t) st1 (set_tdb d1 w)).
  assert (later none w w1) as Hl1.
  { etransitivity; [by apply (later_tdb w d1)|]. eapply (later_same (set_tdb d1 w)); [exact Est|]. intros m' Hm'.
    by rewrite (represents_one _ _ _ _ Hm' (represents_keeps _ _ _ _ Hk Hr)). }
  assert (c_kept w1 (root_hash tr) m) as Hkept.
  { right. exists tr. destruct Hall as (_ & _ & Hro). destruct (Hro tr Hc). done. }
  destruct t as [i|i]; [|by eexists _, _; split; [done|]; split; [by exists tr|]; split; [done|]; split].
  destruct (SHash_spec d1 st1 m Hr1 (proj1 Hall)) as (tr' & st2 & Hc' & E2 & Hr2). rewrite (contents_unique _ _ _ Hc' Hc) in *.
  rewrite E2. cbn [res_bind]. cbn [index] in *.
  set (w2 := set_trie_at i st2 w1).
  assert (later none w1 w2) as Hl2.
  { apply (later_same w1 (CachedTrie i) st1); [by apply list_lookup_insert_eq|]. intros m' Hm'. by rewrite (represents_one _ _ _ _ Hm' Hr1). }
  eexists _, _. split; [done|]. split; [by exists tr|].
  assert (later none w (set_past (lru_Add (root_hash tr) i (pastTries w2)) w2)) as Hl by (do 2 (etransitivity; [done|]); apply later_past).
  split; [done|]. assert (c_kept (set_past (lru_Add (root_hash tr) i (pastTries w2)) w2) (root_hash tr) m) as Hkp by exact Hkept.
  split; [done|]. intros _. cbn [set_past pastTries]. rewrite lru_add_law. split; [|done]. split; [done|]. intros j.
  cbn [set_past pastTries]. rewrite lru_add_law. intros [= <-]. exists st2. split; [|done]. cbn. rewrite list_insert_insert_eq.
  by apply list_lookup_insert_eq.
Qed.

Lemma NewSecure_spec w r m limit :
  c_kept w r m -> exists st, NewSecure (tdb w) r limit = Ok st /\ represents (stored (tdb w)) (trie st) m.
Proof.
  intros Hk. unfold NewSecure.
  assert (exists t, New (tdb w) r = Ok t /\ represents (stored (tdb w)) t m) as (t & -> & Hr).
  { destruct Hk as [[-> ->]|(tr & Hc & -> & Hs & Hne & Hz)].
    - unfold New. rewrite bool_decide_eq_false_2 by auto. cbn [andb]. eexists. split; [done|]. exists TNil.
      split; [constructor|apply contents_empty].
    - destruct (New_rep (tdb w) tr Hs Hne Hz) as (n & -> & Hn). eexists. split; [done|]. by exists tr. }
  cbn [res_bind]. eexists. split; [done|]. destruct Hr as (tr & Hr & Hc). by exists tr.
Qed.

Lemma fresh_index (w : cachingDB) t j : (length (tries w) <= j)%nat -> forall m, c_has w t m -> j <> index t.
Proof. intros Hj m (st & E & _) ->. apply lookup_lt_Some in E. lia. Qed.

Lemma cache_open w r m :
  c_ready w r m ->
  exists t w', cache_OpenTrie r w = Ok (inr t, w') /\ later none w w' /\ c_has w' t m /\
    match t with CachedTrie _ => True | RawTrie _ => False end /\ forall t' m', c_has w t' m' -> index t <> index t'.
Proof.
  intros [Hk Hp]. unfold cache_OpenTrie. destruct (lru_Get r (pastTries w)) as [past p] eqn:Eg.
  assert (past = lru_entry (pastTries w) r) as -> by (rewrite <- lru_get_law; by rewrite Eg).
  destruct (lru_entry (pastTries w) r) as [i|].
  - destruct (Hp i eq_refl) as (st & Est & Hr). unfold object. cbn [set_past tries index] in *. rewrite Est. cbn [res_bind].
    eexists _, _. split; [done|]. split; [by eapply later_alloc|]. split; [|split; [done|]].
    + exists (Copy st). cbn. split; [|done]. rewrite lookup_app_r, Nat.sub_diag by lia. done.
    + intros t' m'. by apply fresh_index.
  - destruct (NewSecure_spec w r m MaxTrieCacheGen Hk) as (st & Est & Hr). cbn [set_past tdb]. rewrite Est.
    eexists _, _. split; [done|]. split; [eapply (later_alloc w _ [st; Copy st]); [done|cbn; by rewrite <- app_assoc]|]. split; [|split; [done|]].
    + exists (Copy st). cbn. split; [|done]. rewrite lookup_app_r, Nat.sub_diag by lia. done.
    + intros t' m'. cbn. apply fresh_index. rewrite length_app. lia.
Qed.

Lemma cache_open_storage w a r m :
  c_kept w r m ->
  exists t w', cache_OpenStorageTrie a r w = Ok (inr t, w') /\ later none w w' /\ c_has w' t m /\
    forall t' m', c_has w t' m' -> index t <> index t'.
Proof.
  intros Hk. unfold cache_OpenStorageTrie. destruct (NewSecure_spec w r m 0 Hk) as (st & -> & Hr).
  eexists _, _. split; [done|]. split; [by eapply later_alloc|]. split.
  - exists st. cbn. split; [|done]. rewrite lookup_app_r, Nat.sub_diag by lia. done.
  - intros t' m'. by apply fresh_index.
Qed.

Lemma contents_filled tr m : contents tr m -> filled m.
Proof.
  intros (Hg & _ & Hf) k v Hk. assert (tfind tr (keybytesToHex k) = Some v) as Hv by (apply Hf; by exists k).
  destruct Hg as [->|Hg]; [done|]. by destruct (good_keys _ _ _ _ Hg Hv) as [_ [? _]].
Qed.

Lemma root_hash_32 tr : Forall is_u8 (root_hash tr) /\ length (root_hash tr) = 32%nat.
Proof. rewrite root_hash_tree. split; [apply keccak256_u8|apply length_keccak256]. Qed.

#[export] Instance CachingLaws : StateLaws.
Proof.
  split; cbn [place root_is healthy has kept ready coded main allowed code_ok alias CachingFacts].
  - split; [by intros t|by intros t t'|]. intros t1 t2 t3. cbn. congruence.
  - intros w t t' m Ha (st & E & Hr). cbn in Ha. exists st. by rewrite <- Ha.
  - intros m r (tr & _ & ->). apply root_hash_32.
  - intros w t m (st & _ & (tr & _ & Hc)). by eapply contents_filled.
  - intros w t m m' (st & E & Hr) (st' & E' & Hr'). rewrite E in E'. injection E' as <-. by eapply represents_one.
  - intros w t m k _ Hm Hk. by apply cache_get.
  - intros w t m k v _ Hm Hk Hv. by apply cache_update.
  - intros w t m k _ Hm Hk. by apply cache_delete.
  - intros m r r' (tr & Hc & ->) (tr' & Hc' & ->). by rewrite (contents_unique _ _ _ Hc Hc').
  - intros w t m _ Hm Ha. by apply cache_hash.
  - intros w t m links Hh Hm Ha. destruct (cache_commit w t m links Hh Hm Ha) as (r & w' & ? & ? & ? & ? & Hx).
    exists r, w'. do 4 (split; [done|]). intros Ht. by apply Hx.
  - intros w r m _ Hr. by apply cache_open.
  - intros w a r m _ Hk. by apply cache_open_storage.
  - intros w. split; [by left|]. right. exists TNil. split; [apply contents_empty|]. split; [done|]. split; [by left|].
    split; [discriminate|done].
  - intros w a h c E. cbn. unfold cache_ContractCode. rewrite E. eexists. split; [done|].
    apply later_intro; [done..|]. intros t st m Est Hr. right. by exists st.
  - intros c [_ Hc]. done.
  - intros w c Hh [Hc _]. destruct (db_insert_spec B c (tdb w) B_free Hh Hc) as (Ha & Hk & HN & _). split; [|done]. by apply later_tdb.
Qed.
End Laws.

(** ** A trie that was committed is not kept as it was *)

(** C29: a root that was committed can give other entries: [Commit] remembers the trie of
    the state itself under the root, and not a copy, so that what the state writes
    to it later is found when the root is opened, instead of what the root stands
    for. *)
Theorem committed_root_shows_later_writes `{DiskDB, HashRange, LruCache} B w i m k v links :
  collision_free B -> agrees B (tdb w) -> c_has w (CachedTrie i) m -> c_allowed B m -> Forall is_u8 k -> Forall is_u8 v -> v <> [] ->
  exists r w1 w2 t w3 w4,
    cache_Commit (CachedTrie i) links w = Ok (inr r, w1) /\ c_root m r /\ cache_TryUpdate (CachedTrie i) k v w1 = Ok (inr (), w2) /\
    cache_OpenTrie r w2 = Ok (inr t, w3) /\ cache_TryGet t k w3 = Ok (inr (Some v), w4).
Proof.
  intros HB Hag Hm Hall Hk Hv Hne. destruct (cache_commit B HB w (CachedTrie i) m links Hag Hm Hall) as (r & w1 & E1 & Hr & Hl1 & _ & Hx).
  destruct (Hx I) as [_ Hpast]. cbn [index] in Hpast. pose proof (later_keeps_has _ _ _ _ Hl1 Hm) as Hm1.
  destruct (cache_update B w1 (CachedTrie i) m k v Hm1 Hk Hv) as (w2 & E2 & _ & Hm2).
  assert (pastTries w2 = pastTries w1) as Ep.
  { revert E2. unfold cache_TryUpdate. destruct (object (CachedTrie i) w1); [|done..]. cbn [res_bind].
    destruct (STryUpdate _ _ _ _ _); [|done..]. by intros [= <-]. }
  assert (exists t w3, cache_OpenTrie r w2 = Ok (inr t, w3) /\ c_has w3 t (map_update (keccak256 k) v m)) as (t & w3 & E3 & Hm3).
  { unfold cache_OpenTrie. destruct (lru_Get r (pastTries w2)) as [past p] eqn:Eg.
    assert (past = Some i) as -> by (rewrite <- Hpast, <- Ep, <- lru_get_law; by rewrite Eg).
    destruct Hm2 as (st & Est & Hr2). unfold object. cbn [set_past tries index] in *. rewrite Est. cbn [res_bind].
    eexists _, _. split; [done|]. exists (Copy st). cbn. split; [|done]. rewrite lookup_app_r, Nat.sub_diag by lia. done. }
  destruct (cache_get B w3 t _ k Hm3 Hk) as (w4 & E4 & _). exists r, w1, w2, t, w3, w4. split; [done|]. split; [done|]. split; [done|].
  split; [done|]. rewrite E4. unfold map_update. rewrite bool_decide_eq_false_2 by done. by rewrite lookup_insert_eq.
Qed.

(** ** An example: the database is new and the trie is empty *)

Definition empty_cache : cachingDB := mkCaching (NewDatabase ∅) [mkSecure (mkTrie Nil emptyHash 0 0) ∅ false] lru_New lru_New.

Lemma empty_cache_has : c_has empty_cache (CachedTrie 0) ∅.
Proof. eexists. split; [done|]. exists TNil. split; [constructor|apply contents_empty]. Qed.

Lemma contents_nil tr : contents tr ∅ -> tr = TNil.
Proof. intros Hc. apply (contents_unique _ _ _ Hc contents_empty). Qed.

Definition empty_blob (b : list Z) : Prop := b = [0x80].

Lemma empty_blob_free : collision_free empty_blob.
Proof. by intros b b' -> ->. Qed.

Lemma empty_blob_agrees : agrees empty_blob (NewDatabase ∅).
Proof.
  intros b ->. rewrite <- emptyRoot_hash. cbn [NewDatabase nodes diskdb]. rewrite lookup_singleton_ne by discriminate. done.
Qed.

Lemma empty_allowed : c_allowed empty_blob ∅.
Proof.
  split; [by intros k v|]. split.
  - intros tr b ->%contents_nil (s & Hs & ->). by inversion Hs.
  - intros tr ->%contents_nil. split; [discriminate|done].
Qed.

Lemma committed_root_shows_later_writes_witness :
  exists r w1 w2 t w3 w4,
    cache_Commit (CachedTrie 0) (fun _ => []) empty_cache = Ok (inr r, w1) /\ c_root ∅ r /\
    cache_TryUpdate (CachedTrie 0) [1] [2] w1 = Ok (inr (), w2) /\
    cache_OpenTrie r w2 = Ok (inr t, w3) /\ cache_TryGet t [1] w3 = Ok (inr (Some [2]), w4).
Proof.
  apply (committed_root_shows_later_writes empty_blob empty_cache 0 ∅ [1] [2] (fun _ => [])).
  - exact empty_blob_free.
  - exact empty_blob_agrees.
  - exact empty_cache_has.
  - exact empty_allowed.
  - by apply (bool_decide_unpack _).
  - by apply (bool_decide_unpack _).
  - done.
Defined.
