(* ===== verification/StateExample.v ===== *)
(** * A block on the database of the code

    The laws of the state are met by the database and the tries of the code; here is a
    block that runs on them. *)

From S2P Require Import Rlp RlpCodec Sponge TrieKeys TrieNode TrieDatabase Trie TrieTree TrieHashing TrieCommit TrieSpec SecureTrie BTree BTreeMap.
From S2P Require Import StateObject StateStore StateDB StateSpec StateStorage StateJournal StateOps StateRefine StateFlush StateMain.
From S2P Require Import StateCommit StateBlock StateCache StateCacheLaws Prelude.

#[local] Set Warnings "-register-all".
#[local] Open Scope state_scope.

(** ** A transaction *)

Definition ex_addr : list Z := replicate 20 1.
Definition ex_slot : list Z := replicate 32 2.

(** A call sets the nonce and the storage, and fails; then the account is paid. *)
Definition ex_tx : prog :=
  PCall (POp (OSetNonce ex_addr 5) (fun _ => POp (OSetState ex_addr ex_slot (replicate 32 7)) (fun _ => PRet false)))
    (fun _ => POp (OAddBalance 0 ex_addr 100) (fun _ => PRet true)).

Definition ex_start : astate := mkAS (fun _ => None) 0 ∅ 0 ∅ (fun _ => Some []) (None, None, []).

Definition ex_acct : aacct := a_move 0 100 fresh_acct.

Definition ex_bytes : list Z := enc (account_item (acct_data emptyRoot ex_acct)).

(** ** Hashes *)

Definition ex_hash (b : list Z) : list Z := match Keccak256 [b] with Ok h => h | _ => [] end.

Definition ex_addr_hash : list Z := Eval vm_compute in ex_hash ex_addr.

Definition ex_tree : tree := TShort (keybytesToHex ex_addr_hash) (TVal ex_bytes).

Definition ex_root : list Z := Eval vm_compute in ex_hash (tree_enc ex_tree).

Definition ex_name (k : btree_kind) : list Z := match EncodeToBytes TString (VString (kind_name k)) with Ok b => b | _ => [] end.

Definition ex_revc : list Z := Eval vm_compute in ex_hash (ex_name RevcBTree).
Definition ex_time : list Z := Eval vm_compute in ex_hash (ex_name TimeBtree).

Definition ex_revc_place : list Z := Eval vm_compute in ex_hash ex_revc.
Definition ex_time_place : list Z := Eval vm_compute in ex_hash ex_time.

Lemma ex_hash_eval b r : forallb (fun x => (0 <=? x) && (x <? 256)) b = true -> ex_hash b = r -> r <> [] -> keccak256 b = r.
Proof.
  intros Hb E Hr. assert (Forall is_u8 b) as Hu.
  { rewrite forallb_forall in Hb. apply List.Forall_forall. intros x Hx. apply Hb in Hx. unfold is_u8. lia. }
  apply keccak256_eval; [done|]. unfold ex_hash in E. destruct (Keccak256 [b]); [by subst|by subst r..].
Qed.

Lemma ex_addr_place : keccak256 ex_addr = ex_addr_hash.
Proof. apply ex_hash_eval; [vm_compute; reflexivity..|discriminate]. Qed.

Lemma ex_revc_hash : RlpHash (kind_name RevcBTree) = ex_revc.
Proof. apply ex_hash_eval; [vm_compute; reflexivity..|discriminate]. Qed.

Lemma ex_time_hash : RlpHash (kind_name TimeBtree) = ex_time.
Proof. apply ex_hash_eval; [vm_compute; reflexivity..|discriminate]. Qed.

Lemma ex_root_hash : tree_hash ex_tree = ex_root.
Proof. apply ex_hash_eval; [vm_compute; reflexivity..|discriminate]. Qed.

(** ** What the trie of the state becomes *)

Definition ex_map : bmap := {[ ex_addr_hash := ex_bytes ]}.

Lemma ex_lookup k v : ex_map !! k = Some v -> k = ex_addr_hash /\ v = ex_bytes.
Proof. unfold ex_map. by intros [<- <-]%lookup_singleton_Some. Qed.

Lemma ex_good : good false ex_tree.
Proof.
  unfold ex_tree. cbn [good]. split; [done|]. split; [discriminate|].
  split; [right; by apply keybytesToHex_hexkey, (bool_decide_unpack _)|]. split; [done|]. split; [vm_compute; reflexivity|].
  split; [discriminate|by apply (bool_decide_unpack _); vm_compute].
Qed.

Lemma ex_contents : contents ex_tree ex_map.
Proof.
  split; [right; apply ex_good|]. split.
  - intros k v [-> ->]%ex_lookup. by apply (bool_decide_unpack _).
  - intros key v. unfold ex_tree. rewrite tfind_leaf. unfold TrieTree.upd. split.
    + destruct (decide (key = keybytesToHex ex_addr_hash)) as [->|]; [|done]. intros [= <-]. exists ex_addr_hash.
      split; [done|]. apply lookup_singleton_eq.
    + intros (k & -> & [-> ->]%ex_lookup). by rewrite decide_True.
Qed.

Lemma ex_part s : part ex_tree s -> s = ex_tree.
Proof. intros Hp. inversion Hp as [|? ? ? Hg|]; subst; [done|]. by destruct Hg. Qed.

(** The nodes and the codes of the example. *)
Definition ex_blob (b : list Z) : Prop := b = [0x80] \/ b = [] \/ b = tree_enc ex_tree.

Lemma ex_blob_hash b : ex_blob b ->
  (b = [0x80] /\ keccak256 b = emptyRoot) \/ (b = [] /\ keccak256 b = emptyCodeHash) \/ (b = tree_enc ex_tree /\ keccak256 b = ex_root).
Proof.
  intros [->|[->| ->]]; [left|right; left|right; right]; (split; [done|]).
  - by rewrite <- emptyRoot_hash.
  - apply emptyCodeHash_ok.
  - apply ex_root_hash.
Qed.

Lemma ex_blob_free : collision_free ex_blob.
Proof.
  intros b b' [[-> ->]|[[-> ->]|[-> ->]]]%ex_blob_hash [[-> ->]|[[-> ->]|[-> ->]]]%ex_blob_hash; try done; discriminate.
Qed.

Lemma ex_agrees : agrees ex_blob (NewDatabase ∅).
Proof.
  intros b Hb. assert (keccak256 b <> emptyHash) as Hne by (apply ex_blob_hash in Hb as [[_ ->]|[[_ ->]|[_ ->]]]; discriminate).
  cbn [NewDatabase nodes diskdb]. by rewrite lookup_singleton_ne.
Qed.

Lemma ex_allowed_empty : c_allowed ex_blob ∅.
Proof.
  split; [by intros k v|]. split.
  - intros tr b ->%contents_nil (s & Hs & ->). left. by inversion Hs.
  - intros tr ->%contents_nil. split; [discriminate|done].
Qed.

Lemma ex_allowed : c_allowed ex_blob ex_map.
Proof.
  split; [|split].
  - intros k v [-> ->]%ex_lookup. by split; vm_compute.
  - intros tr b Hc. rewrite (contents_unique _ _ _ Hc ex_contents). intros (s & ->%ex_part & ->). right. by right.
  - intros tr Hc. rewrite (contents_unique _ _ _ Hc ex_contents). change (root_hash ex_tree) with (tree_hash ex_tree).
    rewrite ex_root_hash. split; [discriminate|]. discriminate.
Qed.

(** ** Keys *)

#[local] Opaque keccak256 RlpHash.
#[local] Obligation Tactic := idtac.

#[local] Instance ex_facts : StateFacts := CachingFacts ex_blob.
#[local] Instance ex_laws : StateLaws := CachingLaws ex_blob ex_blob_free.

Lemma ex_places k k' :
  (k = ex_addr \/ k = ex_revc \/ k = ex_time) -> (k' = ex_addr \/ k' = ex_revc \/ k' = ex_time) -> keccak256 k = keccak256 k' -> k = k'.
Proof.
  assert (keccak256 ex_revc = ex_revc_place) as E1 by (apply ex_hash_eval; [vm_compute; reflexivity..|discriminate]).
  assert (keccak256 ex_time = ex_time_place) as E2 by (apply ex_hash_eval; [vm_compute; reflexivity..|discriminate]).
  intros [->|[->| ->]] [->|[->| ->]]; rewrite ?ex_addr_place, ?E1, ?E2; first [reflexivity|discriminate].
Qed.

#[local] Program Instance ex_keys : Keys := {|
  Addr k := k = ex_addr;
  Mat k := k = ex_revc \/ k = ex_time;
  Slot k := k = ex_slot;
  Raw k := False
|}.
Next Obligation. intros k [->|[[->| ->]|[->|[]]]]; by apply (bool_decide_unpack _). Qed.
Next Obligation. intros k k' Hk Hk'. apply ex_places; tauto. Qed.
Next Obligation. intros k ->. by intros [?|?]. Qed.
Next Obligation. intros k k' [->|[]] [->|[]] _. reflexivity. Qed.
Next Obligation. by intros k _ []. Qed.

(** ** The start *)

(** [encoding/json] is not used: no trees are saved. *)
#[local] Instance ex_json : NodeJson := {| marshalNode _ := []; unmarshalNode _ := None |}.

Definition ex_state : StateDB := untouched empty_cache (CachedTrie 0) None None.

Lemma ex_tree_free : tree_free ex_start.
Proof.
  split; [done|]. intros [] Hk; [rewrite ex_revc_hash|rewrite ex_time_hash|by destruct Hk]; (split; [|done]); [by left|by right].
Qed.

Lemma ex_nice : nice ex_start.
Proof. split; cbn; [done|by eexists|]. intros h. by rewrite lookup_empty. Qed.

Lemma ex_rest : at_rest true ex_state ex_start.
Proof.
  apply (@untouched_rest CachingDB ex_facts ex_laws ex_keys true empty_cache (CachedTrie 0) None None ∅ ex_start).
  - exact ex_agrees.
  - exact empty_cache_has.
  - done.
  - intros a _. unfold unused, value_at. by rewrite lookup_empty.
  - intros h _. unfold stored_at, value_at. by rewrite lookup_empty.
  - exact ex_nice.
  - by intros a acct _.
  - by intros a acct _.
  - exact ex_tree_free.
Qed.

Lemma ex_prog_ok : prog_ok ex_tx.
Proof.
  cbn. split; [|done]. split; [done|]. intros _. split; [|done]. split; [done|]. split; [done|]. split; [|done].
  by apply (bool_decide_unpack _).
Qed.

(** ** The transaction *)

Lemma ex_spec : accts (spec ex_tx ex_start).2 ex_addr = Some ex_acct.
Proof. cbn [spec ex_tx spec_op update_acct snd set_acct set_accts accts]. by rewrite upd_eq. Qed.

Lemma ex_root_empty r : root_is ∅ r -> r = emptyRoot.
Proof. by intros (tr & ->%contents_nil & ->). Qed.

Lemma ex_encodable : encodable (acct_data emptyRoot ex_acct).
Proof. split; try (by apply (bool_decide_unpack _); vm_compute); by vm_compute. Qed.

Lemma ex_affordable : all_affordable (spec ex_tx ex_start).2.
Proof.
  intros a acct -> E. rewrite ex_spec in E. injection E as <-. split.
  - exact ex_allowed_empty.
  - intros r ->%ex_root_empty. exact ex_encodable.
  - split; [right; by left|done].
Qed.

(** The transaction replaces no account, reads no data of the chain and changes one
    account. *)
Definition is_reset (e : journalEntry) : bool := match e with resetObjectChange _ => true | _ => false end.

Definition ex_simple (s : StateDB) : bool :=
  forallb (fun e => negb (is_reset e)) (StateDB.entries (sjournal s)) && bool_decide (matrixData s = ∅) &&
  bool_decide ((map_to_list (dirties (sjournal s))).*1 = [ex_addr]) && bool_decide (is_Some (stateObjects s !! ex_addr)).

Lemma ex_run_simple : match run ex_tx ex_state with Ok (_, s) => ex_simple s | _ => false end = true.
Proof. vm_compute. reflexivity. Qed.

Record ex_after (s : StateDB) : Prop := {
  ex_resets : resets_written s;
  ex_data : matrixData s = ∅;
  ex_dirty : forall a, dirty_in_memory s a <-> a = ex_addr
}.

Lemma ex_simple_after s : ex_simple s = true -> ex_after s.
Proof.
  unfold ex_simple. rewrite !andb_true_iff, !bool_decide_eq_true. intros [[[Hr Hm] Hd] Ho]. split; [|exact Hm|].
  - intros o Hin. rewrite forallb_forall in Hr. apply list_elem_of_In in Hin. by apply Hr in Hin.
  - intros a. assert (is_Some (dirties (sjournal s) !! a) <-> a = ex_addr) as Ha.
    { rewrite <- list_elem_of_singleton, <- Hd, list_elem_of_fmap. split.
      - intros [n Hn]. exists (a, n). by rewrite elem_of_map_to_list.
      - intros ([b n] & -> & Hn%elem_of_map_to_list). by exists n. }
    unfold dirty_in_memory. rewrite Ha. split; [by intros [? _]|]. intros ->. by split.
Qed.

Lemma ex_run s ok : run ex_tx ex_state = Ok (ok, s) ->
  ex_after s /\ abs s (spec ex_tx ex_start).2 /\ tidy true s /\ has (db s) (strie s) ∅.
Proof.
  intros E. destruct (stands_runs ex_tx ex_state ex_start (ar_stands _ _ _ ex_rest) ex_prog_ok) as (es & s' & E' & Hr & Hs).
  rewrite E in E'. injection E' as _ <-. pose proof ex_run_simple as Hx. rewrite E in Hx. split; [by apply ex_simple_after|].
  split; [apply Hs|]. split; [apply (r_orderly _ _ _ _ _ Hr), ex_rest|]. rewrite (r_trie _ _ _ _ _ Hr).
  eapply later_keeps_has; [apply (r_later _ _ _ _ _ Hr)|exact empty_cache_has].
Qed.

Lemma ex_no_ripemd : ~ Addr ripemd.
Proof. discriminate. Qed.

Lemma journal_refines_copies_witness :
  exists s', run ex_tx ex_state = Ok (true, s') /\ stands s' (spec ex_tx ex_start).2.
Proof. apply (journal_refines_copies ex_tx ex_state ex_start (ar_stands _ _ _ ex_rest) ex_prog_ok). Defined.

(** The first call of the transaction. *)
Definition ex_body : prog := POp (OSetNonce ex_addr 5) (fun _ => POp (OSetState ex_addr ex_slot (replicate 32 7)) (fun _ => PRet false)).

Lemma failed_call_leaves_no_trace_witness :
  exists s', run (PCall ex_body PRet) ex_state = Ok (false, s') /\ abs s' ex_start /\ StateDB.entries (sjournal s') = [] /\
    validRevisions s' = [] /\ (forall a, a <> ripemd -> dirties (sjournal s') !! a = dirties newJournal !! a).
Proof. apply (failed_call_leaves_no_trace ex_body ex_state ex_start (ar_stands _ _ _ ex_rest) (proj1 ex_prog_ok) eq_refl). Defined.

(** ** The block *)

(** The transaction leaves one account in the trie of the state. *)
Lemma ex_finalised s1 s2 A M :
  ex_after s1 -> finalised true s1 (spec ex_tx ex_start).2 s2 A -> has (db s1) (strie s1) ∅ -> has (db s2) (strie s2) M -> M = ex_map.
Proof.
  intros [_ Hm Hd] Hf HM0 HM. destruct (fn_main _ _ _ _ _ Hf ∅ HM0) as (M1 & HM1 & Hac & _ & Hrest).
  rewrite (fn_trie _ _ _ _ _ Hf) in HM. rewrite (has_one _ _ _ _ HM HM1). assert (dirty_in_memory s1 ex_addr) as Hin by by apply Hd.
  pose proof (Hac ex_addr Hin) as He. rewrite (fn_leaves _ _ _ _ _ Hf ex_addr Hin), ex_spec in He.
  destruct He as (r & ->%ex_root_empty & _ & EM). change (place ex_addr) with (keccak256 ex_addr) in EM. rewrite ex_addr_place in EM.
  apply map_eq. intros p. unfold ex_map. destruct (decide (p = ex_addr_hash)) as [->|Hne].
  - by rewrite EM, lookup_singleton_eq.
  - rewrite lookup_singleton_ne by done. rewrite Hrest; [apply lookup_empty| |].
    + intros a ->%Hd Ep. change (place ex_addr) with (keccak256 ex_addr) in Ep. rewrite ex_addr_place in Ep. congruence.
    + intros h v Hh. rewrite hash_range_In, Hm, lookup_empty in Hh. discriminate.
Qed.

Lemma ex_block_ok : block_ok true [ITx ex_tx] ex_state ex_start.
Proof.
  cbn [block_ok]. split; [exact ex_prog_ok|]. split; [exact ex_affordable|]. intros ok s1 E1.
  destruct (ex_run s1 ok E1) as (Haf & Ha & Ht & HM1). split; [apply Haf|]. intros s2 E2 M M' HM [_ Hw].
  destruct (Finalise_ok true s1 (spec ex_tx ex_start).2 Ha Ht ex_affordable) as (s2' & A & E2' & Hf).
  { apply (no_saved s1 _ Ha). destruct ex_tree_free. by split. }
  rewrite E2 in E2'. injection E2' as <-. assert (M' = M) as ->.
  { apply map_eq. intros p. apply Hw. intros h v Hin Hdy. rewrite hash_range_In in Hin. by destruct (fn_matrix _ _ _ _ _ Hf h v Hin). }
  rewrite (ex_finalised s1 s2 A M Haf Hf HM1 HM). exact ex_allowed.
Qed.

Lemma block_is_durable_witness :
  exists s1 root s2 s3 s4 w, run_block true [ITx ex_tx] ex_state = Ok ((), s1) /\ IntermediateRoot true s1 = Ok (root, s2) /\
    Commit true s2 = Ok (inr root, s3) /\ newStatedb 0 root (db s3) = Ok (inr s4, w) /\
    at_rest true s4 (reopened (spec_block [ITx ex_tx] ex_start)).
Proof. apply (block_is_durable true 0 [ITx ex_tx] ex_state ex_start ex_no_ripemd ex_rest ex_block_ok). Defined.

Lemma reverted_suicide_takes_balances_witness :
  exists s s', run ex_tx ex_state = Ok (true, s) /\ (do id <- Snapshot; Suicide ex_addr ;; RevertToSnapshot id) s = Ok ((), s') /\
    abs s' (set_acct ex_addr (a_set_balance [] ex_acct) (spec ex_tx ex_start).2) /\ balanceOf 0 (a_balance ex_acct) = Some 100.
Proof.
  destruct (stands_runs ex_tx ex_state ex_start (ar_stands _ _ _ ex_rest) ex_prog_ok) as (es & s & E & _ & Hs). exists s.
  destruct (reverted_suicide_takes_balances s (spec ex_tx ex_start).2 ex_addr ex_acct Hs eq_refl ex_spec) as (s' & E' & Ha'). exists s'.
  split; [exact E|]. split; [exact E'|]. split; [exact Ha'|vm_compute; reflexivity].
Defined.
